(* ===== verification/_CoqProject ===== *)
-Q . S2P
Prelude.v
Crc32c.v
Protocol.v
Validator.v
Reassembler.v
ReassemblerProps.v
ReassemblerLaws.v
ReassemblerZeroCopy.v
Reorderer.v
ReordererProps.v
ReordererFlush.v
ReordererLaws.v
Ring.v
SpscQueue.v
SpscConcurrent.v
Dispatcher.v
RxStage.v
ControlTypes.v
Config.v
Control.v
FacePipeline.v
FaceShutdown.v
PacketPool.v
PacketPoolConcurrent.v
ArrayFaceReceiver.v
PortableReceiver.v
Platform.v
UdpReceiver.v
Float.v
FloatLaws.v
TrackTypes.v
SignalProc.v
Tracks.v
Gateway.v
Text.v
Metrics.v
MetricsText.v
MetricsServer.v
Signals.v
Json.v
JsonTree.v
CText.v
AsyncLogger.v
Logger.v
ErrorCodes.v
NumaPool.v
RawBlocks.v
Delivery.v
Emulator.v
WireFormats.v
Pcap.v
Capture.v
CapturePaths.v
PcapReplay.v
PcapAnalyze.v
EmulatorMain.v
Bench.v
BenchReport.v
CapacityTest.v
StressTest.v
FpgaRxLimit.v
M01RxLimit.v
PoolBench.v
AppInit.v
AppLoop.v
AppRun.v
Main.v
