(* ===== verification/Prelude.v ===== *)
(** * The QDGZ300 radar backend: a verified model

    The program (C++17) receives radar data over UDP from three array faces (M01),
    checks, reassembles and orders it, hands raw blocks to the signal processing
    (M02), which detects plots; plots become tracks (M03), which leave through a
    gateway (M04); a control plane steers the modules, and tools generate, capture,
    replay and analyse traffic.  This library models these parts and proves what
    makes them correct.

    ** The program and the files that model it

    Paths are relative to the repository ([src/] and [include/qdgz300/]).

    Shared:
    - [Prelude] (this file): machine integers as [Z] with explicit wrap-around
      ([wrap], [u8]..[u64], the operators [+[w]] and [-[w]]), bytes and
      little-endian loads and stores, packed struct layouts, the arithmetic
      tactic [wrap_lia], the hint database [cxx], list lemmas shared by the
      components.
    - [Float]: [float] and [double] as IEEE 754 bit patterns; [FloatLaws] bounds the
      rounded results of [double] arithmetic.
    - [Text], [Json], [JsonTree], [CText]: printing numbers as the streams do, readers of
      JSON objects and of JSON texts (proved to read every text of the grammar), and the
      conversions of the C library; [strtod] is the class [Strtod].

    M01, the receiver:
    - [Crc32c]: [src/m01_receiver/protocol/crc32c.cpp], the table-driven CRC-32C,
      the build for ARM CRC instructions, and the remainder of a polynomial division as
      their specification.
    - [Protocol]: [m01_receiver/protocol/protocol_types.h] and
      [packet_parser.cpp]: the packed structs as records with their byte layouts,
      the parser, the wrap-around comparisons.  [WireFormats]: the other structs of the wire, the
      second set of them in [common/types.h], the drop reasons and the hashes of the keys.
    - [Validator]: [validator.cpp].
    - [PacketPool], [PacketPoolConcurrent]: [network/packet_pool.cpp], as calls of one
      thread over addresses, and as the atomic steps of many threads on the free list.
    - [ArrayFaceReceiver]: the receive loop of [network/array_face_receiver.cpp] with
      its pool; what [recvmmsg] returns is an input.  [PortableReceiver]: the loop for systems
      without [recvmmsg].
    - [Reassembler] (model), [ReassemblerProps] (invariant, any arrival order),
      [ReassemblerLaws] (timeouts, late and duplicate fragments, counters),
      [ReassemblerZeroCopy] (the zero-copy path and its buffers):
      [m01_receiver/pipeline/reassembler.h], [reassembler.cpp].  The context map
      is a [gmap]; a [bitset::test] out of range or a write past the assembled
      buffer is [None].
    - [Reorderer] (model), [ReordererProps] (window invariant), [ReordererFlush],
      [ReordererLaws] (order, completeness, traces with flushes): [reorderer.h],
      [reorderer.cpp], with the occupancy bitmap as 64-bit words.
    - [Ring], [SpscQueue], [SpscConcurrent]: the two single-producer
      single-consumer queues, [common/spsc_queue.h] and
      [m01_receiver/delivery/spsc_queue.h].  The class [BoundedQueue] is what they
      promise to [RawBlocks] and [SignalProc]; [SpscConcurrent] interleaves the
      atomic steps of producer and consumer.
    - [Dispatcher]: [dispatcher.h], [dispatcher.cpp].  The class [PacketView]
      states what a class of packets may change.
    - [RxStage]: [rx_stage.h], [rx_stage.cpp], [rx_envelope.h].
    - [Config]: [config_manager.h], [config_manager.cpp]; yaml-cpp is the class
      [Yaml], instantiated by a concrete tree for the examples.
    - [UdpReceiver]: [network/udp_receiver.cpp] over the faces: sockets, threads and
      pools that are started and stopped together.
    - [FacePipeline]: the wiring of one face in [app_init.cpp] and the processing
      loop of [app_run.cpp], composed of the components above; [FaceShutdown]: draining
      and flushing a face at the end, where a use of a packet whose pool is gone is [None].
    - [Signals]: the handlers and flags of [main.cpp] and their reports.
    - [AppInit], [AppLoop], [AppRun], [Main]: [app_init.cpp], the main loop of [app_run.cpp]
      with its reports, reloads and captures, start and shutdown, and [main.cpp] with its
      command line and exit codes.
    - [RawBlocks]: [delivery/rawblock_adapter.cpp] and [delivery/stub_consumer.cpp].
    - [Delivery]: [delivery/delivery_interface.cpp].
    - [Capture]: [capture/pcap_writer.cpp]; [CapturePaths] its directories and file names; [Pcap]
      has the file format.

    Control plane:
    - [ControlTypes]: [PriorityQueue] and [DupCmdCache] of [protocol_types.h].
    - [Control]: [common/system_state.cpp], [src/control/].

    M02 to M04 and the tools:
    - [TrackTypes]: plots, tracks and frames of [common/types.h].
    - [SignalProc]: [src/m02_signal_proc/], the path without a GPU; [log10] is the
      class [Log10].
    - [Tracks]: [src/m03_data_proc/]; [cos], [sin] and [atan2] are the class [Libm].
    - [Gateway]: [src/m04_gateway/]; [std::sort] is a parameter of [truncate].
    - [Emulator]: [tools/fpga_emulator/packet_generator.cpp]; [EmulatorMain]: the program
      [emulator_main.cpp] in both modes.
    - [PcapReplay], [PcapAnalyze]: [tools/pcap_replay.cpp] and [tools/pcap_analyze.cpp],
      from their arguments to their exit codes.
    - [Bench], [BenchReport], [CapacityTest], [StressTest], [FpgaRxLimit], [M01RxLimit],
      [PoolBench]: the programs of [tools/benchmarks/].  [Bench] is the simulated load of
      [bench_simulation.h], whose threads interleave access by access; the search for
      the highest rate is in [CapacityTest] and [FpgaRxLimit].

    Shared by the modules:
    - [Metrics], [MetricsText], [MetricsServer]: the metrics registry
      ([m01_receiver/monitoring/metrics.cpp]) as a store of atomic cells, the text of
      a scrape, and the HTTP endpoint; the exporter
      ([src/logging/metrics_exporter.cpp]).
    - [AsyncLogger], [Logger]: [src/logging/async_logger.cpp] and
      [m01_receiver/monitoring/logger.cpp].
    - [NumaPool]: [common/memory_pool.h]; [ErrorCodes]: [common/error_codes.h].
    - [Platform]: [common/numa_utils.cpp], the allocator and the pinning of threads built on it, and the
      CUDA stream pool without a GPU; what the system calls return is an input.

    State is passed explicitly; a callback, handler or metric is a returned
    event or an entry of a log.  Clocks are functions from the number of reads to
    the value read, or arguments of a step, so theorems hold for every behaviour of
    the clock, also a clock that is set back.  System calls are inputs of the steps.
    The threads of the receiver interleave operation by operation ([AppLoop], [AppRun]) and, for
    queues, pools and metrics, atomic access by atomic access; the main loop loads every
    statistic in a step of its own, so that other threads may run in between.

    ** What the theorems show

    - End to end: the fragments of a frame, received as raw packets in any order
      and under any interleaving of the receive and the processing thread, are
      delivered as exactly one packet with the right bytes
      ([FacePipeline.face_delivers_frame]); datagrams that pass the filter reach the
      handler once and unchanged ([ArrayFaceReceiver.receive_loop_delivers]), and the loop for other
      systems calls it alike ([PortableReceiver.portable_loop_equivalent]).
    - Life cycle: start-up wires every face to its own socket, processor and consumer; the
      network layer starts entirely or leaves nothing behind.  A shutdown uses freed
      memory exactly if a face still holds a packet of its pool; otherwise it ends, nothing
      is left, and the frames of a face are those delivered and those rejected.  A
      failed start leaves only the metrics server.  Packet counters are exact and drop
      metrics grow by what was read, under every interleaving; the context gauge is exact
      after an undisturbed iteration.  Replaced captures end with every accepted packet in
      a file, or with a counted write error; signals are reported once and served; the exit
      codes of the program are exact.
    - Reassembly: independence of the arrival order, no fault on any sequence of
      operations, the exact content of complete and timed-out frames, exact
      timeouts, late and duplicate fragments, isolation of keys, equivalence of
      the zero-copy path and conservation of its buffers.
    - Reordering: consecutive sequence numbers modulo 2^32 in every trace, flushes
      apart, which hand over packets of the window sorted by raw number; sorting within
      the window, and accounting for every packet.
    - Queues and pools: operation by operation, with a capacity of at least two, both
      queues refine a bounded drop-oldest FIFO; under every interleaving of atomic accesses
      [try_push] and [try_pop] lose, duplicate and reorder nothing, and so does
      [drop_oldest_push] as long as the queue has room;
      buffers of the packet pool never overlap, also with many returning threads.
    - Receive stage: a FIFO of exactly the packets that parse and validate, with
      exact counters, also when its push and the consumer's pop overlap while there is room.  Dispatcher: the direct path equals the queued one, and
      lost heartbeats are counted exactly.
    - Protocol: parsing accepts exactly the well-formed packets; the CRC is the
      remainder by the CRC-32C polynomial and detects bursts; validation of a parsed packet is exact; every struct
      round trips, and the receiver accepts the heartbeat struct once it is sealed.
    - Configuration: validation is exact and the configuration in use is always
      valid.  Control plane: a move happens exactly if it is legal, [Init] is entered again only
      by a direct request.
    - Output of M01: the consumer's file holds a prefix of each record, in order, and reads
      back as the blocks if every write was complete; every iteration of a delivery accesses
      the shared ring in bounds, whether the loop ends or not, and the ring is a FIFO until it
      wraps; the socket's back-off doubles; whatever the file system does, a capture's files hold
      the packets it took in order, those lost are behind them and counted, and without a
      failure nothing is lost; its directories are made outermost first, its names are
      distinct, and its files read back with the tools.
    - Platform: a thread counts as bound only when its mask was read back, allocators are
      interchangeable, streams are always null.
    - Signal processing: on every stream one batch for each block, in order; every
      block is processed once nothing more arrives; detection is a filter; pinned
      buffers do not overlap.
    - Tracks: the life cycle is refined: every track gets the nearest free plot in its gate,
      every plot left starts a track, states follow exactly; fusion partitions the tracks.  Gateway: frames round trip, sessions
      expire exactly, truncation keeps the most confident tracks.
    - Tools: single generated packets are accepted, impairments are bounded.  The replay
      sends the payloads of the window once per pass, paced by their time stamps; the
      analyzer's report is JSON that reads back as the exact counters, the rounded mean and
      the interpolated percentiles, for a printable file name; the emulator
      stops, keeps its rate, counts exactly what it sent and writes a report that reads back.
    - Benchmarks: under every interleaving a scenario counts every packet and every CPI once; the
      searches report a rate that was probed and kept the threshold, or that none did; the
      packets of the senders are valid and M01 accepts them; reports read back.
    - Metrics: whatever threads call, cells keep their types and no access leaves its
      array; a scrape reads back as the printed form of the values it loaded, every sample in a
      family declared with its type; once the calls have returned
      the histograms are exact, whatever the interleaving.  Loggers: JSON lines read
      back.  Object pool: objects in use never overlap.
    - Theorems about defects: packets drained after their pool is destroyed, a context gauge
      that wraps, a single face whose threads share a processor, a cut record in a sealed capture,
      a short write that breaks the consumer's file, a family of metrics declared twice, a report
      that is cut and counts as success, an empty tail fragment reported as missing, the
      order of a flush across the wrap-around, the race between
      [drop_oldest_push] and [try_pop], the queue of capacity one, the device id
      that escapes as an exception or is truncated, RESET and STOP without
      effect, two allocators of one pool, a failed allocation in the receive loop, a
      lost track that swallows its target, the shared ring that overwrites records
      or hangs, generated CPI fragments that are always rejected, a restart of the metrics
      endpoint that terminates the program, its listener closed twice, log lines that
      are no JSON, a truncated capture that terminates the replay, an emulator
      that sends nothing and reports success, two header structs that do not agree, an empty
      datagram that one loop delivers and the other drops, an affinity that is not
      exclusive, a benchmark that reports the highest rate when its port is taken or does
      not end when it starts at rate 0.

    ** Fuel and bounds

    Loops over data are structural.  [drop_oldest_push] and the watermark loop
    retry a weak compare-exchange that may fail spuriously: their fuel is the
    number of attempts, and the theorems assume that one of the first [k + 1]
    attempts does not fail spuriously and give fuel [k + 2].  [advance_window] has
    one unit per ring slot, [drain_queues] one per queued packet, [crc32c_arm] one
    per byte, the readers of files one per byte; each is proved sufficient.  The emulator's
    loops need one round more than the duration holds intervals, the replay one per pass,
    the loops of a shutdown one per queued packet, the doubling of a rate one more than
    doublings reach the highest rate.  The
    loop that makes room in the shared ring need not end, which a theorem shows; its bounds are
    proved over any number of iterations of a step relation, without fuel.  The one that reduces a
    heading difference has fuel, and [fuse_partitions] assumes that it ends.  The
    reassembler invariant assumes a configuration below 2^40 bytes and contexts per
    key, the reorderer a window of at most 2^31 slots, the capture a file limit
    below 2^43 MB.

    ** What is not modelled

    The logging library, yaml-cpp, [strtod] and the mathematical functions are parameters, the operating
    system is an input, and the paths for a GPU and for Windows are left out.  In [tools/benchmarks/] the
    pacing of the sending threads is not modelled: how often they send is an input.  The timeout scan of
    a face by the main thread and one packet of a processing thread are single steps; in the program they run
    without a lock beside each other.  No program of the sources hands the raw blocks of M01 to the dispatcher of M02,
    so the two are connected by the class [BoundedQueue] and not by a theorem about one
    program. *)

From stdpp Require Export base tactics option list list_numbers numbers gmap.
From Stdlib Require Export ZArith Lia.

Declare Scope cxx_scope.
Delimit Scope cxx_scope with cxx.
Open Scope Z_scope.

(** ** Machine integers *)

(** A [w]-bit unsigned value is a [Z] in [0, 2^w); every operation of the
    source that can leave the range is wrapped explicitly. *)
Definition wrap (w x : Z) : Z := x `mod` 2 ^ w.

Arguments wrap : simpl never.

Abbreviation u8 := (wrap 8).
Abbreviation u16 := (wrap 16).
Abbreviation u32 := (wrap 32).
Abbreviation u64 := (wrap 64).

Definition in_range (w x : Z) : Prop := 0 <= x < 2 ^ w.

Abbreviation is_u8 := (in_range 8).
Abbreviation is_u16 := (in_range 16).
Abbreviation is_u32 := (in_range 32).
Abbreviation is_u64 := (in_range 64).

Notation "x +[ w ] y" := (wrap w (x + y)) (at level 50, left associativity) : cxx_scope.
Notation "x -[ w ] y" := (wrap w (x - y)) (at level 50, left associativity) : cxx_scope.
Open Scope cxx_scope.

(** Increment of a [std::atomic<uint64_t>] counter ([fetch_add(1)]). *)
Definition inc64 (x : Z) : Z := x +[64] 1.

(** Two's complement reading of a [w]-bit value. *)
Definition to_signed (w x : Z) : Z := if 2 ^ (w - 1) <=? x then x - 2 ^ w else x.

(** ** Bytes *)

(** A byte is a [Z] in [0,256); a buffer is a list of bytes. *)
Abbreviation bytes := (list Z).

Definition byte_ok (b : Z) : Prop := 0 <= b < 256.

Definition bytes_ok (bs : bytes) : Prop := Forall byte_ok bs.

Definition bytes_okb (bs : bytes) : bool := forallb (fun b => (0 <=? b) && (b <? 256)) bs.

(** Little-endian load and store, the [memcpy] of an integer out of or into a
    byte buffer on the little-endian target. *)
Fixpoint le_load (bs : bytes) : Z :=
  match bs with
  | [] => 0
  | b :: bs => b + 256 * le_load bs
  end.

Fixpoint le_store (n : nat) (x : Z) : bytes :=
  match n with
  | O => []
  | S n => x `mod` 256 :: le_store n (x / 256)
  end.

(** A packed struct is a list of field widths in bytes; [memcpy] of the object
    representation decodes the fields one after another. *)
Abbreviation layout := (list nat).

Fixpoint decode_fields (ws : layout) (bs : bytes) : list Z :=
  match ws with
  | [] => []
  | w :: ws => le_load (take w bs) :: decode_fields ws (drop w bs)
  end.

Fixpoint encode_fields (ws : layout) (vs : list Z) : bytes :=
  match ws, vs with
  | w :: ws, v :: vs => le_store w v ++ encode_fields ws vs
  | _, _ => []
  end.

(** Every field value fits the width of its field. *)
Definition fields_ok (ws : layout) (vs : list Z) : Prop :=
  Forall2 (fun w v => in_range (8 * Z.of_nat w) v) ws vs.

(** ** Counting *)

Fixpoint count_true (bs : list bool) : nat :=
  match bs with
  | [] => O
  | b :: bs => ((if b then 1 else 0) + count_true bs)%nat
  end.

(** ** Tactics *)

(** Unfold the wrapping arithmetic and close the goal with [lia]. *)
Ltac wrap_lia :=
  unfold inc64, wrap, in_range, byte_ok in *;
  try change (2 ^ 8) with 256 in *;
  try change (2 ^ 16) with 65536 in *;
  try change (2 ^ 31) with 2147483648 in *;
  try change (2 ^ 32) with 4294967296 in *;
  try change (2 ^ 63) with 9223372036854775808 in *;
  try change (2 ^ 64) with 18446744073709551616 in *;
  Z.to_euclidean_division_equations; lia.

(** Split every boolean test of the goal and reflect it. *)
Ltac case_tests :=
  repeat match goal with
  | |- context [?a =? ?b] => destruct (Z.eqb_spec a b)
  | |- context [?a <? ?b] => destruct (Z.ltb_spec a b)
  | |- context [?a <=? ?b] => destruct (Z.leb_spec a b)
  | |- context [(?a =? ?b)%nat] => destruct (Nat.eqb_spec a b)
  | |- context [(?a <? ?b)%nat] => destruct (Nat.ltb_spec a b)
  | |- context [(?a <=? ?b)%nat] => destruct (Nat.leb_spec a b)
  end.

Create HintDb cxx.

(** ** Lemmas on machine integers *)

Lemma wrap_range w x : 0 <= w -> in_range w (wrap w x).
Proof. intros Hw. apply Z.mod_pos_bound. lia. Qed.

Lemma wrap_small w x : in_range w x -> wrap w x = x.
Proof. apply Z.mod_small. Qed.

Lemma wrap_wrap w x : 0 <= w -> wrap w (wrap w x) = wrap w x.
Proof. intros Hw. by apply wrap_small, wrap_range. Qed.

(** Addition and subtraction may be wrapped at any depth. *)
Lemma wrap_add_l w x y : 0 <= w -> wrap w (wrap w x + y) = wrap w (x + y).
Proof. intros Hw. unfold wrap. by rewrite Zplus_mod_idemp_l. Qed.

Lemma wrap_add_r w x y : 0 <= w -> wrap w (x + wrap w y) = wrap w (x + y).
Proof. intros Hw. unfold wrap. by rewrite Zplus_mod_idemp_r. Qed.

Lemma wrap_sub_l w x y : 0 <= w -> wrap w (wrap w x - y) = wrap w (x - y).
Proof. intros Hw. unfold wrap. by rewrite Zminus_mod_idemp_l. Qed.

Lemma wrap_sub_r w x y : 0 <= w -> wrap w (x - wrap w y) = wrap w (x - y).
Proof. intros Hw. unfold wrap. by rewrite Zminus_mod_idemp_r. Qed.

#[export] Hint Resolve wrap_range : cxx.
Create Rewrite HintDb wrap.
#[export] Hint Rewrite wrap_add_l wrap_add_r wrap_sub_l wrap_sub_r wrap_wrap using lia : wrap.

(** ** Lemmas on bytes and packed structs *)

Lemma bytes_okb_ok bs : bytes_okb bs = true -> bytes_ok bs.
Proof.
  unfold bytes_okb, bytes_ok. rewrite forallb_forall, Forall_forall. intros H b Hb.
  specialize (H b ltac:(by apply list_elem_of_In)). unfold byte_ok. lia.
Qed.

Lemma bytes_ok_take n bs : bytes_ok bs -> bytes_ok (take n bs).
Proof. apply Forall_take. Qed.

Lemma bytes_ok_drop n bs : bytes_ok bs -> bytes_ok (drop n bs).
Proof. apply Forall_drop. Qed.

Lemma bytes_ok_app bs1 bs2 : bytes_ok bs1 -> bytes_ok bs2 -> bytes_ok (bs1 ++ bs2).
Proof. apply Forall_app_2. Qed.

#[export] Hint Resolve bytes_ok_take bytes_ok_drop bytes_ok_app : cxx.

Lemma length_le_store n x : length (le_store n x) = n.
Proof. revert x. induction n as [|n IH]; intros x; simpl; [done|]. by rewrite IH. Qed.

Lemma le_store_ok n x : bytes_ok (le_store n x).
Proof.
  revert x. induction n as [|n IH]; intros x; simpl; constructor; [|apply IH].
  apply Z.mod_pos_bound. lia.
Qed.

#[export] Hint Resolve le_store_ok : cxx.

Lemma pow2_succ_byte n : 2 ^ (8 * Z.of_nat (S n)) = 256 * 2 ^ (8 * Z.of_nat n).
Proof.
  replace (8 * Z.of_nat (S n)) with (8 + 8 * Z.of_nat n) by lia.
  rewrite Z.pow_add_r by lia. done.
Qed.

Lemma le_load_bound bs : bytes_ok bs -> in_range (8 * Z.of_nat (length bs)) (le_load bs).
Proof.
  induction 1 as [|b bs Hb _ IH]; [done|].
  unfold in_range in *. cbn [le_load length]. rewrite pow2_succ_byte. unfold byte_ok in Hb. lia.
Qed.

Lemma le_load_store n x : le_load (le_store n x) = wrap (8 * Z.of_nat n) x.
Proof.
  revert x. induction n as [|n IH]; intros x.
  - unfold wrap. cbn. by rewrite Z.mod_1_r.
  - cbn [le_store le_load]. rewrite IH. unfold wrap.
    rewrite pow2_succ_byte, Z.rem_mul_r by lia. lia.
Qed.

Lemma le_store_load bs : bytes_ok bs -> le_store (length bs) (le_load bs) = bs.
Proof.
  induction 1 as [|b bs Hb _ IH]; cbn [le_store le_load length]; [done|].
  unfold byte_ok in Hb.
  replace (b + 256 * le_load bs) with (b + le_load bs * 256) by lia.
  rewrite Z.mod_add, Z.div_add, Z.mod_small, Z.div_small by lia. by rewrite Z.add_0_l, IH.
Qed.

Lemma length_decode_fields ws bs : length (decode_fields ws bs) = length ws.
Proof. revert bs. induction ws as [|w ws IH]; intros bs; simpl; [done|]. by rewrite IH. Qed.

Lemma length_encode_fields ws vs :
  length ws = length vs -> length (encode_fields ws vs) = sum_list ws.
Proof.
  revert vs. induction ws as [|w ws IH]; intros [|v vs] Hl; simplify_eq/=; [done|].
  rewrite length_app, length_le_store, IH; lia.
Qed.

Lemma encode_fields_ok ws vs : bytes_ok (encode_fields ws vs).
Proof.
  revert vs. induction ws as [|w ws IH]; intros [|v vs]; simpl; try constructor.
  apply bytes_ok_app; [apply le_store_ok|apply IH].
Qed.

#[export] Hint Resolve encode_fields_ok : cxx.

(** Reading back the object representation gives the fields back. *)
Lemma decode_encode_fields ws vs rest :
  fields_ok ws vs -> decode_fields ws (encode_fields ws vs ++ rest) = vs.
Proof.
  unfold fields_ok. induction 1 as [|w v ws vs Hv _ IH]; [done|].
  cbn [decode_fields encode_fields].
  rewrite <-app_assoc, take_app_length', drop_app_length' by by rewrite length_le_store.
  by rewrite le_load_store, wrap_small, IH.
Qed.

(** The fields of a buffer determine the buffer. *)
Lemma encode_decode_fields ws bs :
  length bs = sum_list ws -> bytes_ok bs -> encode_fields ws (decode_fields ws bs) = bs.
Proof.
  revert bs. induction ws as [|w ws IH]; intros bs Hl Hok; simpl in *.
  - by destruct bs.
  - rewrite IH; [|rewrite length_drop; lia|auto with cxx].
    replace w with (length (take w bs)) at 1 by (rewrite length_take; lia).
    rewrite le_store_load by auto with cxx. apply take_drop.
Qed.

Lemma decode_fields_ok ws bs :
  (sum_list ws <= length bs)%nat -> bytes_ok bs -> fields_ok ws (decode_fields ws bs).
Proof.
  unfold fields_ok. revert bs. induction ws as [|w ws IH]; intros bs Hl Hok; simpl in *; constructor.
  - pose proof (le_load_bound (take w bs) ltac:(auto with cxx)) as Hb.
    rewrite length_take in Hb. by replace (w `min` length bs)%nat with w in Hb by lia.
  - apply IH; [rewrite length_drop; lia|auto with cxx].
Qed.

(** Only the bytes of the struct matter. *)
Lemma decode_fields_take ws n bs :
  (sum_list ws <= n)%nat -> decode_fields ws (take n bs) = decode_fields ws bs.
Proof.
  revert n bs. induction ws as [|w ws IH]; intros n bs Hn; simpl in *; [done|].
  rewrite take_take. replace (w `min` n)%nat with w by lia.
  replace n with (w + (n - w))%nat by lia.
  rewrite <-take_drop_commute. f_equal. apply IH. lia.
Qed.

(** ** Sums and counts over a list updated at one index *)

Definition sumZ (l : list Z) : Z := foldr Z.add 0 l.

Lemma sumZ_app l1 l2 : sumZ (l1 ++ l2) = sumZ l1 + sumZ l2.
Proof. unfold sumZ. induction l1 as [|x l1 IH]; cbn; [done|]. rewrite IH. lia. Qed.

#[export] Instance sumZ_proper : Proper (Permutation ==> eq) sumZ.
Proof. unfold sumZ. induction 1; cbn; lia. Qed.

Lemma sumZ_replicate n x : sumZ (replicate n x) = Z.of_nat n * x.
Proof. unfold sumZ. induction n as [|n IH]; cbn [replicate foldr]; lia. Qed.

Lemma sumZ_insert l i x y : l !! i = Some x -> sumZ (<[i := y]> l) = sumZ l - x + y.
Proof.
  unfold sumZ. revert i. induction l as [|z l IH]; intros [|i] Hi; simplify_eq/=; [lia|].
  rewrite IH by done. lia.
Qed.

Lemma sumZ_lookup_le l i x : Forall (Z.le 0) l -> l !! i = Some x -> x <= sumZ l.
Proof.
  intros Hl. revert i. induction Hl as [|z l Hz Hl IH]; intros i Hi; [done|]. cbn.
  assert (0 <= foldr Z.add 0 l) by (clear -Hl; induction Hl; cbn; lia).
  destruct i as [|i]; simplify_eq/=; [lia|]. specialize (IH i Hi). unfold sumZ in IH. lia.
Qed.

Lemma count_true_insert bs i :
  bs !! i = Some false -> count_true (<[i := true]> bs) = S (count_true bs).
Proof.
  revert i. induction bs as [|b bs IH]; intros [|i] Hi; simplify_eq/=; [done|].
  rewrite IH by done. lia.
Qed.

Lemma count_true_insert_false bs i :
  bs !! i = Some true -> S (count_true (<[i := false]> bs)) = count_true bs.
Proof.
  revert i. induction bs as [|b bs IH]; intros [|i] Hi; simplify_eq/=; [done|].
  rewrite <-(IH i) by done. lia.
Qed.

Lemma count_true_app bs bs' : count_true (bs ++ bs') = (count_true bs + count_true bs')%nat.
Proof. induction bs as [|b bs IH]; cbn; [done|]. rewrite IH. lia. Qed.

Lemma count_true_length bs : (count_true bs <= length bs)%nat.
Proof. induction bs as [|[] bs IH]; cbn; lia. Qed.

Lemma count_true_replicate_false n : count_true (replicate n false) = 0%nat.
Proof. by induction n. Qed.

(** All [n] low bits set and none above: the count is [n]; and conversely. *)
Lemma count_true_le bs n :
  (forall i, (n <= i)%nat -> bs !! i <> Some true) -> (count_true bs <= n)%nat.
Proof.
  revert n. induction bs as [|b bs IH]; intros n Hn; cbn [count_true]; [lia|].
  destruct n as [|n].
  - destruct b; [by exfalso; apply (Hn 0%nat); [lia|]|].
    rewrite (IH 0%nat); [lia|]. intros i _. apply (Hn (S i)). lia.
  - assert (count_true bs <= n)%nat by (apply IH; intros i Hi; apply (Hn (S i)); lia).
    destruct b; lia.
Qed.

Lemma count_true_full bs n :
  (forall i, (n <= i)%nat -> bs !! i <> Some true) -> count_true bs = n ->
  forall i, (i < n)%nat -> bs !! i = Some true.
Proof.
  revert n. induction bs as [|b bs IH]; intros n Hn Hc i Hi; cbn [count_true] in Hc; [lia|].
  destruct n as [|n]; [lia|].
  assert (Hle : (count_true bs <= n)%nat)
    by (apply count_true_le; intros j Hj; apply (Hn (S j)); lia).
  destruct b; [|lia]. destruct i as [|i]; [done|]. cbn.
  apply (IH n); [intros j Hj; apply (Hn (S j)); lia|lia..].
Qed.

(** ** Finite maps *)

Lemma map_size_delete_le `{Countable K} {A} (k : K) (m : gmap K A) :
  (size (delete k m) <= size m)%nat.
Proof. rewrite map_size_delete. destruct (m !! k); simpl; unfold id; lia. Qed.

(** ** Optional projections of a list updated at one index *)

Lemma omap_insert_perm {A B} (f : A -> option B) (l : list A) i x y :
  l !! i = Some x -> f x = None ->
  omap f (<[i := y]> l) ≡ₚ omap f l ++ option_list (f y).
Proof.
  revert i. induction l as [|z l IH]; intros [|i] Hi Hx; simplify_eq/=.
  - rewrite Hx. destruct (f y); simpl; [apply Permutation_cons_append|by rewrite app_nil_r].
  - destruct (f z); simpl; rewrite IH by done; done.
Qed.

Lemma omap_insert_None {A B} (f : A -> option B) (l : list A) i x y :
  l !! i = Some x -> f x = None -> f y = None -> omap f (<[i := y]> l) = omap f l.
Proof.
  revert i. induction l as [|z l IH]; intros [|i] Hi Hx Hy; simplify_eq/=.
  - by rewrite Hx, Hy.
  - by rewrite IH.
Qed.
