(* ===== verification/Crc32c.v ===== *)
(** CRC32C of the heartbeat payload, [src/m01_receiver/protocol/crc32c.cpp]:
    the table-driven routine, the AArch64 routine over the CRC intrinsics (the
    intrinsics are parameters), and what the checksum guarantees. *)

From S2P Require Import Prelude.
Open Scope Z_scope.

Module Crc32c.

(** ** Definitions *)

Definition kInitXor : Z := 0xFFFFFFFF.

Definition kPolyReflected : Z := 0x82F63B78.

(** One round of the inner loop of [make_table]. *)
Definition table_round (crc : Z) : Z :=
  let mask := u32 (- Z.land crc 1) in
  Z.lxor (Z.shiftr crc 1) (Z.land kPolyReflected mask).

Definition make_table : list Z :=
  map (fun i => Nat.iter 8 table_round (Z.of_nat i)) (seq 0 256).

(** The function-local [static const] table, computed once. *)
Definition table : list Z := Eval vm_compute in make_table.

Definition sw_step (crc b : Z) : Z :=
  let idx := u8 (Z.land (Z.lxor crc b) 0xFF) in
  Z.lxor (nth (Z.to_nat idx) table 0) (Z.shiftr crc 8).

Definition crc32c_sw (crc : Z) (data : bytes) : Z := fold_left sw_step data crc.

(** The AArch64 build: eight bytes at a time, then the remaining bytes.  The
    two intrinsics of [arm_acle.h] are parameters. *)
Section Arm.
Context (crc32cd crc32cb : Z -> Z -> Z).

Fixpoint crc32c_arm (fuel : nat) (crc : Z) (data : bytes) : Z :=
  match fuel with
  | O => crc
  | S fuel =>
    if (8 <=? length data)%nat
    then crc32c_arm fuel (u32 (crc32cd crc (le_load (take 8 data)))) (drop 8 data)
    else fold_left (fun crc b => u32 (crc32cb crc b)) data crc
  end.

Definition crc32c_arm_build (data : option bytes) (length : nat) : Z :=
  match data with
  | None => if (length =? 0)%nat then Z.lxor kInitXor kInitXor else 0
  | Some data =>
    Z.lxor (crc32c_arm (S length) kInitXor (take length data)) kInitXor
  end.
End Arm.

(** [crc32c]: a null pointer with a non-zero length gives 0. *)
Definition crc32c (data : option bytes) (length : nat) : Z :=
  match data with
  | None => if (length =? 0)%nat then Z.lxor (crc32c_sw kInitXor []) kInitXor else 0
  | Some data => Z.lxor (crc32c_sw kInitXor (take length data)) kInitXor
  end.

(** Reference: the CRC register shifted once per message bit, with no table. *)
Definition byte_ref (crc b : Z) : Z := Nat.iter 8 table_round (Z.lxor crc b).

Definition crc_ref (crc : Z) (data : bytes) : Z := fold_left byte_ref data crc.

(** *** The checksum as a remainder *)

(** The bits of a message in the order of transmission: the least significant of each
    byte first. *)
Definition message_bits (data : bytes) : list bool := data ≫= fun b => Z.testbit b <$> [0; 1; 2; 3; 4; 5; 6; 7].

(** The coefficients below x^32 of the generator x^32 + 0x1EDC6F41, the highest
    first. *)
Definition generator : list bool := (fun i => Z.testbit 0x1EDC6F41 (31 - Z.of_nat i)) <$> seq 0 32.

Fixpoint xor_bits (g d : list bool) : list bool :=
  match g, d with
  | x :: g, y :: d => xorb x y :: xor_bits g d
  | [], d => d
  | _, [] => []
  end.

(** One step of the long division: the leading coefficient is removed, and with it
    a multiple of the generator. *)
Definition divide_step (d : list bool) : list bool :=
  match d with
  | [] => []
  | b :: d => if (b : bool) then xor_bits generator d else d
  end.

Definition remainder (d : list bool) : list bool := Nat.iter (length d - 32) divide_step d.

Fixpoint number (bits : list bool) : Z :=
  match bits with
  | [] => 0
  | b :: bits => Z.b2z b + 2 * number bits
  end.

(** CRC-32C by its definition: the message followed by 32 zeros, its first 32 bits
    complemented, divided by the generator; the remainder complemented, its highest
    coefficient as the lowest bit. *)
Definition crc32c_spec (data : bytes) : Z :=
  number (negb <$> remainder (xor_bits (replicate 32 true) (message_bits data ++ replicate 32 false))).

(** ** The shift register is linear *)

Lemma table_round_odd x :
  table_round x = Z.lxor (Z.shiftr x 1) (if Z.odd x then kPolyReflected else 0).
Proof.
  unfold table_round. f_equal.
  change 1 with (Z.ones 1). rewrite Z.land_ones, Zmod_odd by lia.
  by destruct (Z.odd x).
Qed.

Lemma table_round_lxor x y :
  table_round (Z.lxor x y) = Z.lxor (table_round x) (table_round y).
Proof.
  rewrite !table_round_odd, Z.shiftr_lxor.
  rewrite <-!Z.bit0_odd, Z.lxor_spec.
  apply Z.bits_inj'; intros n Hn. rewrite !Z.lxor_spec.
  destruct (Z.testbit x 0), (Z.testbit y 0); cbn [xorb]; rewrite ?Z.bits_0;
    destruct (Z.testbit _ n), (Z.testbit _ n); try done; by destruct (Z.testbit _ n).
Qed.

Lemma iter_table_round_lxor n x y :
  Nat.iter n table_round (Z.lxor x y) =
  Z.lxor (Nat.iter n table_round x) (Nat.iter n table_round y).
Proof. induction n as [|n IH]; [done|]. by rewrite !Nat.iter_succ, IH, table_round_lxor. Qed.

Lemma table_round_shiftl x : table_round (Z.shiftl x 1) = x.
Proof.
  rewrite table_round_odd, Z.shiftl_mul_pow2, Z.odd_mul by lia.
  rewrite andb_false_r, Z.lxor_0_r.
  rewrite Z.shiftr_div_pow2 by lia. by apply Z.div_mul.
Qed.

Lemma iter_table_round_shiftl n x :
  Nat.iter n table_round (Z.shiftl x (Z.of_nat n)) = x.
Proof.
  induction n as [|n IH]; [by rewrite Z.shiftl_0_r|].
  rewrite Nat.iter_succ_r, Nat2Z.inj_succ, <-Z.add_1_r, <-Z.shiftl_shiftl by lia.
  by rewrite table_round_shiftl.
Qed.

Lemma split_byte x : x = Z.lxor (Z.shiftl (Z.shiftr x 8) 8) (Z.land x 255).
Proof.
  change 255 with (Z.ones 8). apply Z.bits_inj'; intros n Hn.
  rewrite Z.lxor_spec, Z.land_spec, Z.shiftl_spec by lia.
  destruct (Z.ltb_spec n 8).
  - rewrite (Z.testbit_neg_r _ (n - 8)), Z.ones_spec_low by lia. by rewrite xorb_false_l, andb_true_r.
  - rewrite Z.shiftr_spec, Z.ones_spec_high by lia.
    rewrite andb_false_r, xorb_false_r. f_equal. lia.
Qed.

Lemma table_lookup i : byte_ok i -> nth (Z.to_nat i) table 0 = Nat.iter 8 table_round i.
Proof.
  intros Hi. unfold byte_ok in Hi. change table with make_table. unfold make_table.
  set (f := fun i => Nat.iter 8 table_round (Z.of_nat i)).
  rewrite (nth_indep _ 0 (f O)) by (rewrite length_map, length_seq; lia).
  rewrite map_nth, seq_nth by lia. unfold f. by rewrite Nat.add_0_l, Z2Nat.id by lia.
Qed.

Lemma byte_shiftr b : byte_ok b -> Z.shiftr b 8 = 0.
Proof. intros ?. rewrite Z.shiftr_div_pow2 by lia. apply Z.div_small. done. Qed.

Lemma land_255_byte x : byte_ok (Z.land x 255).
Proof.
  change 255 with (Z.ones 8). rewrite Z.land_ones by lia.
  apply Z.mod_pos_bound. lia.
Qed.

(** The table step is eight steps of the register. *)
Lemma sw_step_ref crc b : byte_ok b -> sw_step crc b = byte_ref crc b.
Proof.
  intros Hb. unfold sw_step, byte_ref.
  change 0xFF with 255.
  rewrite wrap_small by apply land_255_byte.
  rewrite table_lookup by apply land_255_byte.
  rewrite (split_byte (Z.lxor crc b)) at 2.
  rewrite Z.shiftr_lxor, (byte_shiftr b), Z.lxor_0_r by done.
  rewrite iter_table_round_lxor.
  change 8 with (Z.of_nat 8) at 2. rewrite iter_table_round_shiftl.
  apply Z.lxor_comm.
Qed.

Lemma crc32c_sw_cons crc b data : crc32c_sw crc (b :: data) = crc32c_sw (sw_step crc b) data.
Proof. reflexivity. Qed.

Lemma crc_ref_cons crc b data : crc_ref crc (b :: data) = crc_ref (byte_ref crc b) data.
Proof. reflexivity. Qed.

Lemma crc32c_sw_ref crc data : bytes_ok data -> crc32c_sw crc data = crc_ref crc data.
Proof.
  intros Hd. revert crc. induction Hd as [|b data Hb _ IH]; intros crc; [done|].
  by rewrite crc32c_sw_cons, crc_ref_cons, sw_step_ref, IH.
Qed.

Lemma byte_lxor_shiftl b x : byte_ok b -> Z.lxor b (Z.shiftl x 8) = b + 256 * x.
Proof.
  intros Hb. rewrite <-Z.add_nocarry_lxor.
  - rewrite Z.shiftl_mul_pow2 by lia. lia.
  - apply Z.bits_inj'; intros n Hn. rewrite Z.land_spec, Z.bits_0, Z.shiftl_spec by lia.
    destruct (Z.ltb_spec n 8).
    + by rewrite (Z.testbit_neg_r _ (n - 8)), andb_false_r by lia.
    + rewrite <-(Z.mod_small b (2 ^ 8)) by done. by rewrite Z.mod_pow2_bits_high by lia.
Qed.

(** The register after a message is the message itself, as one little-endian
    number, pushed through all rounds at once. *)
Lemma crc_ref_block crc data :
  bytes_ok data ->
  crc_ref crc data = Nat.iter (8 * length data) table_round (Z.lxor crc (le_load data)).
Proof.
  intros Hd. revert crc.
  induction Hd as [|b data Hb _ IH]; intros crc; cbn [length le_load].
  - by rewrite Z.lxor_0_r.
  - rewrite crc_ref_cons, IH. replace (8 * S (length data))%nat with (8 * length data + 8)%nat by lia.
    rewrite Nat.iter_add. f_equal. unfold byte_ref.
    rewrite <-(iter_table_round_shiftl 8 (le_load data)) at 1.
    rewrite <-iter_table_round_lxor. f_equal. rewrite Z.lxor_assoc. f_equal.
    by apply byte_lxor_shiftl.
Qed.

(** ** The register is injective on 32-bit values *)

Lemma lxor_range w x y : 0 <= w -> in_range w x -> in_range w y -> in_range w (Z.lxor x y).
Proof.
  unfold in_range. intros Hw Hx Hy. split; [apply Z.lxor_nonneg; lia|].
  destruct (decide (Z.lxor x y = 0)) as [->|Hn]; [lia|].
  apply Z.log2_lt_pow2; [pose proof (Z.lxor_nonneg x y); lia|].
  destruct (decide (w = 0)) as [->|]; [assert (x = 0) by lia; assert (y = 0) by lia; by subst|].
  eapply Z.le_lt_trans; [apply Z.log2_lxor; lia|].
  apply Z.max_lub_lt; (destruct (decide (0 < x)), (decide (0 < y)));
    (apply Z.log2_lt_pow2; lia) || (rewrite Z.log2_nonpos by lia; lia).
Qed.

Lemma table_round_range x : is_u32 x -> is_u32 (table_round x).
Proof.
  intros Hx. rewrite table_round_odd. apply lxor_range; [lia| |by destruct (Z.odd x)].
  rewrite Z.shiftr_div_pow2 by lia. wrap_lia.
Qed.

Lemma iter_table_round_range n x : is_u32 x -> is_u32 (Nat.iter n table_round x).
Proof.
  intros Hx. induction n as [|n IH]; [done|]. rewrite Nat.iter_succ. by apply table_round_range.
Qed.

Lemma table_round_zero x : is_u32 x -> table_round x = 0 -> x = 0.
Proof.
  intros Hx. rewrite table_round_odd, Z.lxor_eq_0_iff, Z.shiftr_div_pow2 by lia.
  rewrite (Z.div_mod x 2) at 3 by lia. rewrite Zmod_odd. change (2 ^ 1) with 2.
  unfold kPolyReflected, in_range in *.
  destruct (Z.odd x); intros; [|lia]. exfalso.
  assert (x / 2 < 2 ^ 31) by (apply Z.div_lt_upper_bound; lia). lia.
Qed.

Lemma table_round_inj x y :
  is_u32 x -> is_u32 y -> table_round x = table_round y -> x = y.
Proof.
  intros Hx Hy Heq. apply Z.lxor_eq, table_round_zero; [by apply lxor_range|].
  rewrite table_round_lxor, Heq. apply Z.lxor_nilpotent.
Qed.

Lemma iter_table_round_inj n x y :
  is_u32 x -> is_u32 y ->
  Nat.iter n table_round x = Nat.iter n table_round y -> x = y.
Proof.
  intros Hx Hy. induction n as [|n IH]; [done|]. rewrite !Nat.iter_succ. intros Heq.
  apply IH, table_round_inj; auto using iter_table_round_range.
Qed.

Lemma in_range_weaken v w x : 0 <= v <= w -> in_range v x -> in_range w x.
Proof. unfold in_range. intros Hvw Hx. pose proof (Z.pow_le_mono_r 2 v w). lia. Qed.

Lemma byte_ref_range crc b : is_u32 crc -> byte_ok b -> is_u32 (byte_ref crc b).
Proof.
  intros Hc Hb. apply iter_table_round_range, lxor_range; [done..|].
  by apply (in_range_weaken 8).
Qed.

Lemma lxor_cancel_r x y z : Z.lxor x z = Z.lxor y z -> x = y.
Proof.
  intros Heq. apply (f_equal (fun v => Z.lxor v z)) in Heq.
  by rewrite !Z.lxor_assoc, Z.lxor_nilpotent, !Z.lxor_0_r in Heq.
Qed.

Lemma byte_ref_inj c1 c2 b :
  is_u32 c1 -> is_u32 c2 -> byte_ok b -> byte_ref c1 b = byte_ref c2 b -> c1 = c2.
Proof.
  intros H1 H2 Hb. unfold byte_ref. generalize 8%nat. intros n Heq.
  apply (lxor_cancel_r _ _ b). eapply iter_table_round_inj; [..|exact Heq];
    (apply lxor_range; [done..|by apply (in_range_weaken 8)]).
Qed.

Lemma crc_ref_range crc data : is_u32 crc -> bytes_ok data -> is_u32 (crc_ref crc data).
Proof.
  intros Hc Hd. revert crc Hc. induction Hd as [|b data Hb _ IH]; intros crc Hc; [done|].
  rewrite crc_ref_cons. apply IH. by apply byte_ref_range.
Qed.

(** Equal messages keep different registers different. *)
Lemma crc_ref_inj_crc c1 c2 data :
  is_u32 c1 -> is_u32 c2 -> bytes_ok data -> crc_ref c1 data = crc_ref c2 data -> c1 = c2.
Proof.
  intros H1 H2 Hd. revert c1 c2 H1 H2.
  induction Hd as [|b data Hb _ IH]; intros c1 c2 H1 H2 Heq; [done|].
  rewrite !crc_ref_cons in Heq.
  apply IH in Heq; [|by apply byte_ref_range..].
  by apply byte_ref_inj in Heq.
Qed.

(** A message of at most four bytes is recovered from the register. *)
Lemma crc_ref_inj_short crc d1 d2 :
  is_u32 crc -> bytes_ok d1 -> bytes_ok d2 ->
  length d1 = length d2 -> (length d1 <= 4)%nat ->
  crc_ref crc d1 = crc_ref crc d2 -> d1 = d2.
Proof.
  intros Hc H1 H2 Hl H4. rewrite !crc_ref_block, <-Hl by done. intros Heq.
  assert (Hr : forall d, bytes_ok d -> length d = length d1 -> is_u32 (Z.lxor crc (le_load d))).
  { intros d Hd Hld. apply lxor_range; [done..|].
    apply (in_range_weaken (8 * Z.of_nat (length d))); [lia|]. by apply le_load_bound. }
  apply iter_table_round_inj in Heq; [|by apply Hr..].
  apply (f_equal (Z.lxor crc)) in Heq.
  rewrite <-!Z.lxor_assoc, Z.lxor_nilpotent, !Z.lxor_0_l in Heq.
  by rewrite <-(le_store_load d1), <-(le_store_load d2), <-Hl, Heq by done.
Qed.

Lemma crc_ref_app crc d1 d2 : crc_ref crc (d1 ++ d2) = crc_ref (crc_ref crc d1) d2.
Proof. apply fold_left_app. Qed.

(** Messages that differ only in a window of four bytes leave different registers. *)
Lemma crc_ref_burst crc p s b1 b2 :
  is_u32 crc -> bytes_ok p -> bytes_ok s -> bytes_ok b1 -> bytes_ok b2 ->
  length b1 = length b2 -> (length b1 <= 4)%nat -> b1 <> b2 ->
  crc_ref crc (p ++ b1 ++ s) <> crc_ref crc (p ++ b2 ++ s).
Proof.
  intros Hc Hp Hs H1 H2 Hl H4 Hne Heq. apply Hne. rewrite !crc_ref_app in Heq.
  assert (Hi : is_u32 (crc_ref crc p)) by (by apply crc_ref_range).
  apply crc_ref_inj_crc in Heq; [|by apply crc_ref_range..|done].
  by eapply crc_ref_inj_short.
Qed.

Lemma crc32c_take_ref data len :
  bytes_ok data -> crc32c (Some data) len = Z.lxor (crc_ref kInitXor (take len data)) kInitXor.
Proof. intros Hd. unfold crc32c. by rewrite crc32c_sw_ref by auto with cxx. Qed.

(** ** The register divides *)

Lemma number_xor g d : (length g <= length d)%nat -> number (xor_bits g d) = Z.lxor (number g) (number d).
Proof.
  revert d. induction g as [|x g IH]; intros [|y d] Hl; cbn [xor_bits number length] in *; [done|done|lia|].
  rewrite IH by lia. apply Z.bits_inj'. intros n Hn. rewrite Z.lxor_spec, !(Z.add_comm (Z.b2z _)).
  destruct (decide (n = 0)) as [->|Hn0]; [by rewrite !Z.testbit_0_r|].
  replace n with (Z.succ (n - 1)) by lia. by rewrite !Z.testbit_succ_r, Z.lxor_spec by lia.
Qed.

Lemma length_xor_bits g d : (length g <= length d)%nat -> length (xor_bits g d) = length d.
Proof. revert d. induction g as [|x g IH]; intros [|y d] Hl; cbn in *; [done|done|lia|]. by rewrite IH by lia. Qed.

Lemma number_app l1 l2 : number (l1 ++ l2) = number l1 + 2 ^ Z.of_nat (length l1) * number l2.
Proof.
  induction l1 as [|b l1 IH]; cbn [number app length]; [lia|].
  rewrite IH, Nat2Z.inj_succ, Z.pow_succ_r by lia. lia.
Qed.

Lemma number_zeros n : number (replicate n false) = 0.
Proof. induction n as [|n IH]; [done|]. cbn [replicate number]. by rewrite IH. Qed.

Lemma complement_bits l : negb <$> l = xor_bits (replicate (length l) true) l.
Proof. induction l as [|b l IH]; [done|]. cbn. f_equal. exact IH. Qed.

Lemma number_byte b : byte_ok b -> number (Z.testbit b <$> [0; 1; 2; 3; 4; 5; 6; 7]) = b.
Proof.
  intros Hb. unfold byte_ok in Hb.
  assert (H : forallb (fun n => number (Z.testbit (Z.of_nat n) <$> [0; 1; 2; 3; 4; 5; 6; 7]) =? Z.of_nat n) (seq 0 256) = true)
    by (vm_compute; reflexivity).
  rewrite forallb_forall in H. specialize (H (Z.to_nat b)). rewrite Z2Nat.id in H by lia.
  apply Z.eqb_eq, H, in_seq. lia.
Qed.

Lemma number_message data : bytes_ok data -> number (message_bits data) = le_load data.
Proof.
  induction 1 as [|b data Hb _ IH]; [done|]. unfold message_bits. rewrite bind_cons, number_app. fold (message_bits data).
  rewrite IH, length_fmap. cbn [le_load]. change (2 ^ Z.of_nat (length [0; 1; 2; 3; 4; 5; 6; 7])) with 256. by rewrite number_byte.
Qed.

Lemma divide_step_round d : (32 < length d)%nat ->
  number (divide_step d) = table_round (number d) /\ length (divide_step d) = (length d - 1)%nat.
Proof.
  destruct d as [|b d]; cbn [length]; [lia|]. intros Hl. rewrite table_round_odd. cbn [number].
  assert (Z.shiftr (Z.b2z b + 2 * number d) 1 = number d /\ Z.odd (Z.b2z b + 2 * number d) = b) as [-> ->].
  { rewrite Z.shiftr_div_pow2, Z.odd_add_mul_2 by lia. split; [|by destruct b]. change (2 ^ 1) with 2.
    rewrite Z.mul_comm, Z.div_add by lia. by destruct b. }
  cbn [divide_step]. destruct b.
  - rewrite number_xor, length_xor_bits by (cbn; lia). split; [|lia]. change (number generator) with kPolyReflected. apply Z.lxor_comm.
  - split; [by rewrite Z.lxor_0_r|lia].
Qed.

Lemma remainder_rounds n d : length d = (n + 32)%nat ->
  number (Nat.iter n divide_step d) = Nat.iter n table_round (number d) /\ length (Nat.iter n divide_step d) = 32%nat.
Proof.
  revert d. induction n as [|n IH]; intros d Hl; [done|]. rewrite !Nat.iter_succ_r.
  destruct (divide_step_round d) as [<- Hs]; [lia|]. apply IH. lia.
Qed.

Lemma length_message_bits data : length (message_bits data) = (8 * length data)%nat.
Proof.
  induction data as [|b data IH]; [done|]. unfold message_bits. rewrite bind_cons, length_app, length_fmap.
  fold (message_bits data). rewrite IH. cbn. lia.
Qed.

Lemma crc_ref_remainder data : bytes_ok data -> Z.lxor (crc_ref kInitXor data) kInitXor = crc32c_spec data.
Proof.
  intros Hd. rewrite crc_ref_block by done. unfold crc32c_spec, remainder.
  assert (Hl : length (message_bits data ++ replicate 32 false) = (8 * length data + 32)%nat)
    by (by rewrite length_app, length_message_bits).
  assert (H32 : (length (replicate 32 true) <= length (message_bits data ++ replicate 32 false))%nat)
    by (rewrite Hl, length_replicate; lia).
  rewrite length_xor_bits, Hl, Nat.add_sub by done.
  destruct (remainder_rounds (8 * length data) (xor_bits (replicate 32 true) (message_bits data ++ replicate 32 false))) as [E Hn].
  { by rewrite length_xor_bits. }
  rewrite complement_bits, Hn, number_xor by (rewrite Hn; done).
  rewrite E, number_xor, number_app, number_zeros, number_message, Z.mul_0_r, Z.add_0_r by done.
  change (number (replicate 32 true)) with kInitXor. apply Z.lxor_comm.
Qed.

(** ** Theorems *)

(** C38: on every buffer of bytes, [crc32c] of the first [len] of them, computed with the
    table of the reflected polynomial 0x82F63B78, is the CRC-32C of its definition: the complement of the
    remainder of the message, with its first 32 bits complemented, after long division by the generator
    x^32 + 0x1EDC6F41; and it is a 32-bit value. *)
Theorem crc32c_correct (data : bytes) (len : nat) (Hd : bytes_ok data) :
  crc32c (Some data) len = crc32c_spec (take len data) /\ is_u32 (crc32c (Some data) len).
Proof.
  rewrite crc32c_take_ref by done. assert (Ht : bytes_ok (take len data)) by auto with cxx.
  split; [by apply crc_ref_remainder|]. apply lxor_range; [done| |done]. by apply crc_ref_range.
Qed.

(** The published check value of CRC-32C, over the ASCII digits 1 to 9. *)
Lemma crc32c_correct_witness :
  crc32c (Some [49;50;51;52;53;54;55;56;57]) 9 = crc32c_spec (take 9 [49;50;51;52;53;54;55;56;57]) /\
  crc32c (Some [49;50;51;52;53;54;55;56;57]) 9 = 0xE3069283.
Proof.
  split; [|vm_compute; reflexivity].
  apply (crc32c_correct [49;50;51;52;53;54;55;56;57] 9). by apply bytes_okb_ok.
Defined.

(** [crc32c] detects every corruption confined to four consecutive bytes:
    two messages of equal length that differ only inside such a window have
    different checksums. *)
Theorem crc32c_burst_detected (p s b1 b2 : bytes)
    (Hp : bytes_ok p) (Hs : bytes_ok s) (H1 : bytes_ok b1) (H2 : bytes_ok b2)
    (Hlen : length b1 = length b2) (H4 : (length b1 <= 4)%nat) (Hne : b1 <> b2) :
  crc32c (Some (p ++ b1 ++ s)) (length (p ++ b1 ++ s)) <>
  crc32c (Some (p ++ b2 ++ s)) (length (p ++ b2 ++ s)).
Proof.
  unfold crc32c. rewrite !firstn_all, !crc32c_sw_ref by auto with cxx.
  intros Heq%lxor_cancel_r. by eapply crc_ref_burst in Heq.
Qed.

Lemma crc32c_burst_detected_witness :
  crc32c (Some ([1;2] ++ [3;4;5;6] ++ [7])) 7 <> crc32c (Some ([1;2] ++ [3;255;0;6] ++ [7])) 7.
Proof.
  apply (crc32c_burst_detected [1;2] [7] [3;4;5;6] [3;255;0;6]);
    [by apply bytes_okb_ok..|reflexivity|simpl; lia|discriminate].
Defined.

Section ArmCorrect.
Context (crc32cd crc32cb : Z -> Z -> Z).

(** The documented behaviour of the two instructions: CRC32CB shifts one byte
    through the register, CRC32CX the eight bytes of a doubleword, least
    significant byte first. *)
Definition arm_crc32cb_spec : Prop :=
  forall crc b, is_u32 crc -> byte_ok b -> crc32cb crc b = byte_ref crc b.

Definition arm_crc32cd_spec : Prop :=
  forall crc v, is_u32 crc -> is_u64 v -> crc32cd crc v = crc_ref crc (le_store 8 v).

Lemma crc32c_arm_tail crc data :
  arm_crc32cb_spec -> is_u32 crc -> bytes_ok data ->
  fold_left (fun crc b => u32 (crc32cb crc b)) data crc = crc_ref crc data.
Proof.
  intros Hb Hc Hd. revert crc Hc. induction Hd as [|b data Hb' _ IH]; intros crc Hc; [done|]. cbn [fold_left].
  rewrite Hb, wrap_small by auto using byte_ref_range.
  rewrite crc_ref_cons. apply IH. by apply byte_ref_range.
Qed.

Lemma crc32c_arm_ref fuel crc data :
  arm_crc32cb_spec -> arm_crc32cd_spec -> is_u32 crc -> bytes_ok data ->
  (length data < fuel)%nat ->
  crc32c_arm crc32cd crc32cb fuel crc data = crc_ref crc data.
Proof.
  intros Hb Hq. revert crc data.
  induction fuel as [|fuel IH]; intros crc data Hc Hd Hf; [lia|]. cbn [crc32c_arm].
  destruct (Nat.leb_spec 8 (length data)); [|by apply crc32c_arm_tail].
  assert (H8 : length (take 8 data) = 8%nat) by (rewrite length_take; lia).
  assert (Hk : bytes_ok (take 8 data)) by auto with cxx.
  rewrite Hq; [|done|pose proof (le_load_bound _ Hk) as Hr; by rewrite H8 in Hr].
  rewrite <-H8 at 1. rewrite le_store_load by done.
  rewrite wrap_small by by apply crc_ref_range.
  rewrite IH; [|by apply crc_ref_range|auto with cxx|rewrite length_drop; lia].
  by rewrite <-crc_ref_app, take_drop.
Qed.
End ArmCorrect.

(** The AArch64 build of [crc32c], which consumes eight bytes per CRC32CX
    and the tail per CRC32CB, returns the same checksum as the table-driven
    build on every buffer, given the documented behaviour of the two
    instructions. *)
Theorem crc32c_arm_build_eq (crc32cd crc32cb : Z -> Z -> Z) (data : bytes) (len : nat)
    (Hb : arm_crc32cb_spec crc32cb) (Hq : arm_crc32cd_spec crc32cd) (Hd : bytes_ok data) :
  crc32c_arm_build crc32cd crc32cb (Some data) len = crc32c (Some data) len.
Proof.
  unfold crc32c_arm_build, crc32c.
  rewrite crc32c_arm_ref, crc32c_sw_ref; auto with cxx; [done|].
  rewrite length_take. lia.
Qed.

Lemma crc32c_arm_build_eq_witness :
  crc32c_arm_build (fun crc v => crc_ref crc (le_store 8 v)) byte_ref
    (Some [1;2;3;4;5;6;7;8;9;10]) 10 =
  crc32c (Some [1;2;3;4;5;6;7;8;9;10]) 10.
Proof.
  apply (crc32c_arm_build_eq (fun crc v => crc_ref crc (le_store 8 v)) byte_ref).
  - intros crc b _ _. reflexivity.
  - intros crc v _ _. reflexivity.
  - by apply bytes_okb_ok.
Defined.

End Crc32c.
