(* ===== verification/Protocol.v ===== *)
(** The wire protocol of the receiver: [protocol_types.h] (packed headers, enums,
    keys, wrap-around comparisons) and [PacketParser] ([packet_parser.cpp]).
    A packed struct is its list of little-endian fields; an enum class can hold
    values without an enumerator, so each enum has a constructor for those. *)

From S2P Require Import Prelude.
From stdpp Require Export countable.
Open Scope Z_scope.

Module Protocol.

(** ** Constants *)

Definition PROTOCOL_MAGIC : Z := 0x55AA55AA.

Definition PROTOCOL_VERSION_MAJOR : Z := 3.

Definition PROTOCOL_VERSION : Z := 0x31.

Definition COMMON_HEADER_SIZE : Z := 32.

Definition MAX_PAYLOAD_SIZE : Z := 65507 - COMMON_HEADER_SIZE.

Definition HEARTBEAT_PAYLOAD_SIZE : Z := 48.

(** ** Enums *)

Inductive PacketType :=
  | CONTROL | ACK | DATA | HEARTBEAT | RMA
  | PacketType_other (v : Z).

Definition PacketType_of_u8 (v : Z) : PacketType :=
  if v =? 0x01 then CONTROL else if v =? 0x02 then ACK else if v =? 0x03 then DATA
  else if v =? 0x04 then HEARTBEAT else if v =? 0xFF then RMA else PacketType_other v.

Definition PacketType_to_u8 (t : PacketType) : Z :=
  match t with
  | CONTROL => 0x01 | ACK => 0x02 | DATA => 0x03 | HEARTBEAT => 0x04 | RMA => 0xFF
  | PacketType_other v => v
  end.

#[export] Instance PacketType_eq_dec : EqDecision PacketType.
Proof. solve_decision. Defined.

Inductive PacketPriority := HIGH | NORMAL.

#[export] Instance PacketPriority_eq_dec : EqDecision PacketPriority.
Proof. solve_decision. Defined.

Definition DeviceID_BROADCAST : Z := 0x10.

Definition DeviceID_RESERVED : Z := 0xFF.

Inductive DataType := RAW_BINARY | WAVEFORM | DA_DATA | DataType_other (v : Z).

Definition DataType_of_u8 (v : Z) : DataType :=
  if v =? 0 then RAW_BINARY else if v =? 1 then WAVEFORM else if v =? 2 then DA_DATA
  else DataType_other v.

(** ** [popcount16]: the shift-and-add loop, at most 16 rounds. *)

Fixpoint popcount16_loop (fuel : nat) (count value : Z) : option Z :=
  match fuel with
  | O => None
  | S fuel =>
    if value =? 0 then Some count
    else popcount16_loop fuel (u8 (count + u8 (Z.land value 1))) (u16 (Z.shiftr value 1))
  end.

Definition popcount16 (value : Z) : Z := default 0 (popcount16_loop 17 0 value).

(** ** [CommonHeader], 32 bytes packed *)

Record CommonHeader := mkCommonHeader {
  magic : Z;
  sequence_number : Z;
  timestamp : Z;
  payload_len : Z;
  packet_type : Z;
  protocol_version : Z;
  source_id : Z;
  dest_id : Z;
  control_epoch : Z;
  ext_flags : Z;
  reserved1 : Z;
  reserved2 : Z;
  reserved3 : list Z
}.

Definition CommonHeader_layout : layout := [4;4;8;2;1;1;1;1;2;1;1;2;1;1;1;1]%nat.

Definition CommonHeader_zero : CommonHeader :=
  mkCommonHeader 0 0 0 0 0 0 0 0 0 0 0 0 [0;0;0;0].

Definition CommonHeader_fields (h : CommonHeader) : list Z :=
  [magic h; sequence_number h; timestamp h; payload_len h; packet_type h;
   protocol_version h; source_id h; dest_id h; control_epoch h; ext_flags h;
   reserved1 h; reserved2 h] ++ reserved3 h.

Definition CommonHeader_of_fields (vs : list Z) : CommonHeader :=
  match vs with
  | [f1; f2; f3; f4; f5; f6; f7; f8; f9; f10; f11; f12; r0; r1; r2; r3] =>
    mkCommonHeader f1 f2 f3 f4 f5 f6 f7 f8 f9 f10 f11 f12 [r0; r1; r2; r3]
  | _ => CommonHeader_zero
  end.

(** Object representation of a header, and [memcpy] into a header. *)
Definition CommonHeader_bytes (h : CommonHeader) : bytes :=
  encode_fields CommonHeader_layout (CommonHeader_fields h).

Definition CommonHeader_load (bs : bytes) : CommonHeader :=
  CommonHeader_of_fields (decode_fields CommonHeader_layout bs).

Definition CommonHeader_ok (h : CommonHeader) : Prop :=
  fields_ok CommonHeader_layout (CommonHeader_fields h).

Definition is_valid_magic (h : CommonHeader) : bool := magic h =? PROTOCOL_MAGIC.

Definition is_valid_version (h : CommonHeader) : bool :=
  Z.shiftr (protocol_version h) 4 =? PROTOCOL_VERSION_MAJOR.

Definition get_packet_type (h : CommonHeader) : PacketType := PacketType_of_u8 (packet_type h).

Definition get_major_version (h : CommonHeader) : Z := u8 (Z.shiftr (protocol_version h) 4).

Definition get_minor_version (h : CommonHeader) : Z := u8 (Z.land (protocol_version h) 0x0F).

(** ** [ParsedPacket]: the payload pointer is [None] for [nullptr], otherwise the
    bytes from the pointer to the end of the buffer it points into. *)

Record ParsedPacket := mkParsedPacket {
  header : CommonHeader;
  payload : option bytes;
  total_size : Z
}.

Definition ParsedPacket_zero : ParsedPacket := mkParsedPacket CommonHeader_zero None 0.

(** ** [DataSpecificHeader], 40 bytes packed *)

Record DataSpecificHeader := mkDataSpecificHeader {
  frame_counter : Z;
  cpi_count : Z;
  pulse_index : Z;
  sample_offset : Z;
  sample_count : Z;
  data_timestamp : Z;
  health_summary : Z;
  reserved_health : Z;
  beam_id : Z;
  frag_index : Z;
  total_frags : Z;
  tail_frag_payload_bytes : Z
}.

Definition DataSpecificHeader_layout : layout := [4;4;4;4;4;8;2;2;2;2;2;2]%nat.

Definition DataSpecificHeader_SIZE : Z := 40.

Definition DataSpecificHeader_zero : DataSpecificHeader :=
  mkDataSpecificHeader 0 0 0 0 0 0 0 0 0 0 0 0.

Definition DataSpecificHeader_fields (h : DataSpecificHeader) : list Z :=
  [frame_counter h; cpi_count h; pulse_index h; sample_offset h; sample_count h;
   data_timestamp h; health_summary h; reserved_health h; beam_id h; frag_index h;
   total_frags h; tail_frag_payload_bytes h].

Definition DataSpecificHeader_of_fields (vs : list Z) : DataSpecificHeader :=
  match vs with
  | [f1; f2; f3; f4; f5; f6; f7; f8; f9; f10; f11; f12] =>
    mkDataSpecificHeader f1 f2 f3 f4 f5 f6 f7 f8 f9 f10 f11 f12
  | _ => DataSpecificHeader_zero
  end.

Definition DataSpecificHeader_bytes (h : DataSpecificHeader) : bytes :=
  encode_fields DataSpecificHeader_layout (DataSpecificHeader_fields h).

Definition DataSpecificHeader_load (bs : bytes) : DataSpecificHeader :=
  DataSpecificHeader_of_fields (decode_fields DataSpecificHeader_layout bs).

Definition DataSpecificHeader_ok (h : DataSpecificHeader) : Prop :=
  fields_ok DataSpecificHeader_layout (DataSpecificHeader_fields h).

Definition RESERVED_HEALTH_CHANNEL_MASK_MASK : Z := 0x0FFF.

Definition RESERVED_HEALTH_DATA_TYPE_MASK : Z := 0xF000.

Definition RESERVED_HEALTH_DATA_TYPE_SHIFT : Z := 12.

(** [frag_index == (total_frags - 1)], computed in [int]. *)
Definition is_tail_fragment (h : DataSpecificHeader) : bool :=
  frag_index h =? total_frags h - 1.

Definition is_single_fragment (h : DataSpecificHeader) : bool := total_frags h =? 1.

Definition get_channel_mask (h : DataSpecificHeader) : Z :=
  u16 (Z.land (reserved_health h) RESERVED_HEALTH_CHANNEL_MASK_MASK).

Definition get_data_type_raw (h : DataSpecificHeader) : Z :=
  u8 (Z.shiftr (Z.land (reserved_health h) RESERVED_HEALTH_DATA_TYPE_MASK)
        RESERVED_HEALTH_DATA_TYPE_SHIFT).

Definition get_channel_count (h : DataSpecificHeader) : Z := popcount16 (get_channel_mask h).

Definition get_data_type (h : DataSpecificHeader) : DataType :=
  DataType_of_u8 (get_data_type_raw h).

Definition set_channel_mask_data_type_compat (h : DataSpecificHeader)
    (channel_mask data_type : Z) : DataSpecificHeader :=
  let masked_channel := u16 (Z.land channel_mask RESERVED_HEALTH_CHANNEL_MASK_MASK) in
  let masked_type :=
    u16 (Z.land (Z.shiftl (u16 (Z.land data_type 0x0F)) RESERVED_HEALTH_DATA_TYPE_SHIFT)
           RESERVED_HEALTH_DATA_TYPE_MASK) in
  mkDataSpecificHeader (frame_counter h) (cpi_count h) (pulse_index h) (sample_offset h)
    (sample_count h) (data_timestamp h) (health_summary h)
    (u16 (Z.lor masked_channel masked_type))
    (beam_id h) (frag_index h) (total_frags h) (tail_frag_payload_bytes h).

(** ** [ExecutionSnapshot], 40 bytes packed; the fields keep their raw bits, the
    signed ones are read with [to_signed]. *)

Record ExecutionSnapshot := mkExecutionSnapshot {
  azimuth_angle : Z;
  elevation_angle : Z;
  work_freq_index : Z;
  snapshot_reserved : Z;
  mgc_gain : Z;
  signal_bandwidth : Z;
  pulse_width : Z;
  pulse_period : Z;
  accumulation_count : Z;
  tilt_sensor_x : Z;
  tilt_sensor_y : Z;
  heading_angle : Z;
  bds_longitude : Z;
  bds_latitude : Z;
  bds_altitude : Z
}.

Definition ExecutionSnapshot_layout : layout := [2;2;1;1;2;2;2;2;2;4;4;4;4;4;4]%nat.

Definition ExecutionSnapshot_SIZE : Z := 40.

Definition ExecutionSnapshot_zero : ExecutionSnapshot :=
  mkExecutionSnapshot 0 0 0 0 0 0 0 0 0 0 0 0 0 0 0.

Definition ExecutionSnapshot_of_fields (vs : list Z) : ExecutionSnapshot :=
  match vs with
  | [f1; f2; f3; f4; f5; f6; f7; f8; f9; f10; f11; f12; f13; f14; f15] =>
    mkExecutionSnapshot (to_signed 16 f1) (to_signed 16 f2) f3 f4 f5 f6 f7 f8 f9
      (to_signed 32 f10) (to_signed 32 f11) f12 (to_signed 32 f13) (to_signed 32 f14)
      (to_signed 32 f15)
  | _ => ExecutionSnapshot_zero
  end.

Definition ExecutionSnapshot_fields (s : ExecutionSnapshot) : list Z :=
  [u16 (azimuth_angle s); u16 (elevation_angle s); work_freq_index s; snapshot_reserved s;
   mgc_gain s; signal_bandwidth s; pulse_width s; pulse_period s; accumulation_count s;
   u32 (tilt_sensor_x s); u32 (tilt_sensor_y s); heading_angle s; u32 (bds_longitude s);
   u32 (bds_latitude s); u32 (bds_altitude s)].

Definition ExecutionSnapshot_load (bs : bytes) : ExecutionSnapshot :=
  ExecutionSnapshot_of_fields (decode_fields ExecutionSnapshot_layout bs).

Definition ExecutionSnapshot_bytes (s : ExecutionSnapshot) : bytes :=
  encode_fields ExecutionSnapshot_layout (ExecutionSnapshot_fields s).

(** ** [ReassemblyKey] *)

Record ReassemblyKey := mkReassemblyKey {
  key_control_epoch : Z;
  key_source_id : Z;
  key_frame_counter : Z;
  key_beam_id : Z;
  key_cpi_count : Z;
  key_pulse_index : Z;
  key_channel_mask : Z;
  key_data_type : Z
}.

Definition ReassemblyKey_tuple (k : ReassemblyKey) : Z * Z * Z * Z * Z * Z * Z * Z :=
  (key_control_epoch k, key_source_id k, key_frame_counter k, key_beam_id k,
   key_cpi_count k, key_pulse_index k, key_channel_mask k, key_data_type k).

(** [operator==], field by field; it decides equality of keys. *)
#[export] Instance ReassemblyKey_eq_dec : EqDecision ReassemblyKey.
Proof. solve_decision. Defined.

#[export] Instance ReassemblyKey_countable : Countable ReassemblyKey.
Proof.
  apply (inj_countable' ReassemblyKey_tuple
    (fun '(a, b, c, d, e, f, g, h) => mkReassemblyKey a b c d e f g h)).
  by intros [].
Defined.

(** [operator<]: lexicographic, in the order of the fields. *)
Definition ReassemblyKey_lt (k o : ReassemblyKey) : bool :=
  if negb (key_control_epoch k =? key_control_epoch o)
  then key_control_epoch k <? key_control_epoch o
  else if negb (key_source_id k =? key_source_id o) then key_source_id k <? key_source_id o
  else if negb (key_frame_counter k =? key_frame_counter o)
  then key_frame_counter k <? key_frame_counter o
  else if negb (key_beam_id k =? key_beam_id o) then key_beam_id k <? key_beam_id o
  else if negb (key_cpi_count k =? key_cpi_count o) then key_cpi_count k <? key_cpi_count o
  else if negb (key_pulse_index k =? key_pulse_index o)
  then key_pulse_index k <? key_pulse_index o
  else if negb (key_channel_mask k =? key_channel_mask o)
  then key_channel_mask k <? key_channel_mask o
  else key_data_type k <? key_data_type o.

(** ** Wrap-around comparisons *)

Definition is_sequence_newer (seq_new seq_old : Z) : bool :=
  let delta := seq_new -[32] seq_old in
  (0 <? delta) && (delta <? u32 (Z.shiftl 1 31)).

Definition is_epoch_newer (epoch_new epoch_old : Z) : bool :=
  let delta := epoch_new -[16] epoch_old in
  (0 <? delta) && (delta <? u16 (Z.shiftl 1 15)).

(** ** Results *)

Inductive ValidationResult :=
  | OK | INVALID_MAGIC | INVALID_VERSION | INVALID_DEST_ID | PAYLOAD_LEN_MISMATCH
  | UNSUPPORTED_PACKET_TYPE | CRC_MISMATCH | MALFORMED_PAYLOAD | RESERVED_FIELD_WARNING.

#[export] Instance ValidationResult_eq_dec : EqDecision ValidationResult.
Proof. solve_decision. Defined.

(** ** [PacketParser] *)

Definition parse_common_header (buffer : bytes) : CommonHeader :=
  CommonHeader_load (take (Z.to_nat COMMON_HEADER_SIZE) buffer).

Definition basic_validation (h : CommonHeader) (total_length : Z) : bool :=
  if negb (magic h =? PROTOCOL_MAGIC) then false
  else if negb (Z.shiftr (protocol_version h) 4 =? PROTOCOL_VERSION_MAJOR) then false
  else if MAX_PAYLOAD_SIZE <? payload_len h then false
  else if negb (COMMON_HEADER_SIZE + payload_len h =? total_length) then false
  else true.

(** [parse(buffer, length)]: [buffer] is the memory behind the pointer. *)
Definition parse (buffer : option bytes) (length : Z) : option ParsedPacket :=
  match buffer with
  | None => None
  | Some buffer =>
    if length <? COMMON_HEADER_SIZE then None
    else
      let h := parse_common_header buffer in
      if negb (basic_validation h length) then None
      else Some (mkParsedPacket h (Some (drop (Z.to_nat COMMON_HEADER_SIZE) buffer)) length)
  end.

Definition quick_check_magic (buffer : option bytes) (length : Z) : bool :=
  match buffer with
  | None => false
  | Some buffer => if length <? 4 then false else le_load (take 4 buffer) =? PROTOCOL_MAGIC
  end.

(** ** Object representations round trip *)

Lemma CommonHeader_of_fields_fields h :
  length (reserved3 h) = 4%nat -> CommonHeader_of_fields (CommonHeader_fields h) = h.
Proof.
  destruct h as [? ? ? ? ? ? ? ? ? ? ? ? r]. cbn. intros Hr.
  by destruct r as [|? [|? [|? [|? [|]]]]].
Qed.

Lemma CommonHeader_fields_of_fields vs :
  length vs = 16%nat -> CommonHeader_fields (CommonHeader_of_fields vs) = vs.
Proof. intros Hv. do 16 (destruct vs as [|? vs]; [done|]). by destruct vs. Qed.

Lemma CommonHeader_load_bytes h rest :
  CommonHeader_ok h -> CommonHeader_load (CommonHeader_bytes h ++ rest) = h.
Proof.
  intros Hh. unfold CommonHeader_load, CommonHeader_bytes.
  rewrite decode_encode_fields by done. apply CommonHeader_of_fields_fields.
  apply Forall2_length in Hh. unfold CommonHeader_fields in Hh. rewrite length_app in Hh.
  simpl in Hh. lia.
Qed.

Lemma CommonHeader_bytes_load bs :
  length bs = 32%nat -> bytes_ok bs -> CommonHeader_bytes (CommonHeader_load bs) = bs.
Proof.
  intros Hl Hb. unfold CommonHeader_load, CommonHeader_bytes.
  rewrite CommonHeader_fields_of_fields by by rewrite length_decode_fields.
  by apply encode_decode_fields.
Qed.

Lemma CommonHeader_load_ok bs :
  (32 <= length bs)%nat -> bytes_ok bs -> CommonHeader_ok (CommonHeader_load bs).
Proof.
  intros Hl Hb. unfold CommonHeader_ok, CommonHeader_load.
  rewrite CommonHeader_fields_of_fields by by rewrite length_decode_fields.
  by apply decode_fields_ok.
Qed.

Lemma CommonHeader_ok_reserved3 h : CommonHeader_ok h -> length (reserved3 h) = 4%nat.
Proof.
  intros Hh%Forall2_length. unfold CommonHeader_fields in Hh. rewrite length_app in Hh.
  simpl in Hh. lia.
Qed.

Lemma length_CommonHeader_bytes h : CommonHeader_ok h -> length (CommonHeader_bytes h) = 32%nat.
Proof.
  intros Hh. unfold CommonHeader_bytes. rewrite length_encode_fields; [done|].
  by apply Forall2_length in Hh.
Qed.

Lemma CommonHeader_ok_payload_len h : CommonHeader_ok h -> is_u16 (payload_len h).
Proof. unfold CommonHeader_ok, fields_ok, CommonHeader_fields. intros Hh. by inv Hh; decompose_Forall_hyps. Qed.

Lemma DataSpecificHeader_load_bytes h rest :
  DataSpecificHeader_ok h -> DataSpecificHeader_load (DataSpecificHeader_bytes h ++ rest) = h.
Proof.
  intros Hh. unfold DataSpecificHeader_load, DataSpecificHeader_bytes.
  rewrite decode_encode_fields by done. by destruct h.
Qed.

Lemma DataSpecificHeader_load_ok bs :
  (40 <= length bs)%nat -> bytes_ok bs -> DataSpecificHeader_ok (DataSpecificHeader_load bs).
Proof.
  intros Hl Hb. unfold DataSpecificHeader_ok, DataSpecificHeader_load.
  pose proof (length_decode_fields DataSpecificHeader_layout bs) as Hlen.
  pose proof (decode_fields_ok DataSpecificHeader_layout bs Hl Hb) as Hok.
  revert Hlen Hok. generalize (decode_fields DataSpecificHeader_layout bs). intros vs Hv Hok.
  do 12 (destruct vs as [|? vs]; [done|]). by destruct vs.
Qed.

Lemma length_DataSpecificHeader_bytes h : length (DataSpecificHeader_bytes h) = 40%nat.
Proof. unfold DataSpecificHeader_bytes. by rewrite length_encode_fields. Qed.

Lemma to_signed_wrap w x : 0 < w -> in_range w x -> wrap w (to_signed w x) = x.
Proof.
  intros Hw Hx. unfold to_signed, wrap, in_range in *.
  destruct (Z.leb_spec (2 ^ (w - 1)) x); [|by apply Z.mod_small].
  replace (x - 2 ^ w) with (x + (-1) * 2 ^ w) by lia.
  rewrite Z.mod_add by lia. by apply Z.mod_small.
Qed.

Lemma length_ExecutionSnapshot_bytes s : length (ExecutionSnapshot_bytes s) = 40%nat.
Proof. unfold ExecutionSnapshot_bytes. by rewrite length_encode_fields. Qed.

(** Any 40 bytes are the representation of the snapshot they decode to. *)
Lemma ExecutionSnapshot_bytes_load bs :
  length bs = 40%nat -> bytes_ok bs -> ExecutionSnapshot_bytes (ExecutionSnapshot_load bs) = bs.
Proof.
  intros Hl Hb. unfold ExecutionSnapshot_load, ExecutionSnapshot_bytes.
  rewrite <-(encode_decode_fields ExecutionSnapshot_layout bs) at 2 by done. f_equal.
  pose proof (length_decode_fields ExecutionSnapshot_layout bs) as Hlen.
  pose proof (decode_fields_ok ExecutionSnapshot_layout bs ltac:(simpl; lia) Hb) as Hok.
  revert Hlen Hok. generalize (decode_fields ExecutionSnapshot_layout bs). intros vs Hv Hok.
  do 15 (destruct vs as [|? vs]; [done|]). destruct vs; [|done].
  unfold fields_ok in Hok. repeat (apply Forall2_cons_1 in Hok as [? Hok]).
  unfold ExecutionSnapshot_fields.
  cbn [ExecutionSnapshot_of_fields azimuth_angle elevation_angle
    work_freq_index snapshot_reserved mgc_gain signal_bandwidth pulse_width pulse_period
    accumulation_count tilt_sensor_x tilt_sensor_y heading_angle bds_longitude bds_latitude
    bds_altitude].
  by rewrite !to_signed_wrap by done.
Qed.

(** ** [popcount16] and the tunnelled mask/type field *)

(** Number of set bits among the [k] lowest. *)
Fixpoint popcount_bits (k : nat) (v : Z) : Z :=
  match k with
  | O => 0
  | S k => Z.b2z (Z.testbit v 0) + popcount_bits k (Z.shiftr v 1)
  end.

Lemma popcount_bits_bound k v : 0 <= popcount_bits k v <= Z.of_nat k.
Proof.
  revert v. induction k as [|k IH]; intros v; cbn [popcount_bits]; [lia|].
  specialize (IH (Z.shiftr v 1)). destruct (Z.testbit v 0); simpl Z.b2z; lia.
Qed.

Lemma popcount_bits_0 k : popcount_bits k 0 = 0.
Proof. induction k as [|k IH]; cbn [popcount_bits]; [done|]. by rewrite Z.shiftr_0_l, IH. Qed.

Lemma shiftr_1_bound k v :
  0 <= v < 2 ^ Z.of_nat (S k) -> 0 <= Z.shiftr v 1 < 2 ^ Z.of_nat k.
Proof.
  rewrite Nat2Z.inj_succ, Z.pow_succ_r, Z.shiftr_div_pow2 by lia. intros Hv.
  split; [apply Z.div_pos; lia|]. apply Z.div_lt_upper_bound; lia.
Qed.

Lemma popcount_bits_small k n v : 0 <= v < 2 ^ Z.of_nat k -> popcount_bits n v <= Z.of_nat k.
Proof.
  revert n v. induction k as [|k IH]; intros [|n] v Hv; cbn [popcount_bits]; try lia.
  - change (2 ^ Z.of_nat 0) with 1 in Hv. assert (v = 0) as -> by lia.
    rewrite Z.shiftr_0_l, popcount_bits_0. done.
  - specialize (IH n (Z.shiftr v 1) (shiftr_1_bound _ _ Hv)).
    destruct (Z.testbit v 0); cbn [Z.b2z]; lia.
Qed.

Lemma popcount16_loop_bits k fuel count v :
  (k < fuel)%nat -> (k <= 16)%nat -> 0 <= count -> count + Z.of_nat k < 256 ->
  0 <= v < 2 ^ Z.of_nat k ->
  popcount16_loop fuel count v = Some (count + popcount_bits k v).
Proof.
  revert fuel count v. induction k as [|k IH]; intros [|fuel] count v Hf Hk Hc Hs Hv; try lia.
  - assert (v = 0) as -> by (change (2 ^ Z.of_nat 0) with 1 in Hv; lia). cbn [popcount16_loop popcount_bits Z.eqb].
    by rewrite Z.add_0_r.
  - cbn [popcount16_loop]. destruct (Z.eqb_spec v 0) as [->|].
    { rewrite popcount_bits_0. f_equal. lia. }
    assert (Hlow : Z.land v 1 = Z.b2z (Z.testbit v 0)).
    { change 1 with (Z.ones 1). rewrite Z.land_ones, Z.bit0_mod; done. }
    pose proof (shiftr_1_bound k v Hv) as Hsh.
    pose proof (Z.pow_le_mono_r 2 (Z.of_nat k) 16 ltac:(lia) ltac:(lia)).
    assert (0 <= Z.b2z (Z.testbit v 0) <= 1) by (destruct (Z.testbit v 0); simpl; lia).
    rewrite Hlow, (wrap_small 8 (Z.b2z _)) by (unfold in_range; lia).
    rewrite (wrap_small 8), (wrap_small 16) by (unfold in_range; lia).
    rewrite IH by (try lia; done). cbn [popcount_bits]. f_equal. lia.
Qed.

Lemma popcount16_bits v : is_u16 v -> popcount16 v = popcount_bits 16 v.
Proof.
  intros Hv. unfold popcount16. rewrite (popcount16_loop_bits 16); [apply Z.add_0_l|lia..|exact Hv].
Qed.

Lemma land_mask_mod w x : 0 <= w -> Z.land x (Z.ones w) = x `mod` 2 ^ w.
Proof. apply Z.land_ones. Qed.

Lemma lor_shiftl_add w a b : 0 <= w -> in_range w a -> Z.lor a (Z.shiftl b w) = a + b * 2 ^ w.
Proof.
  intros Hw Ha. rewrite <-Z.add_nocarry_lor; [by rewrite Z.shiftl_mul_pow2|].
  apply Z.bits_inj'; intros n Hn. rewrite Z.land_spec, Z.bits_0, Z.shiftl_spec by lia.
  destruct (Z.ltb_spec n w).
  - by rewrite (Z.testbit_neg_r _ (n - w)), andb_false_r by lia.
  - rewrite <-(Z.mod_small a (2 ^ w)) by done. by rewrite Z.mod_pow2_bits_high by lia.
Qed.

(** The two masks select the low 12 bits and the high 4 bits. *)
Lemma channel_field_mod x : Z.land x RESERVED_HEALTH_CHANNEL_MASK_MASK = x `mod` 4096.
Proof. apply (land_mask_mod 12). lia. Qed.

Lemma type_field_shift x : Z.land x RESERVED_HEALTH_DATA_TYPE_MASK = (x / 4096) `mod` 16 * 4096.
Proof.
  change RESERVED_HEALTH_DATA_TYPE_MASK with (Z.shiftl (Z.ones 4) 12).
  change 4096 with (2 ^ 12). rewrite <-Z.shiftl_mul_pow2, <-Z.shiftr_div_pow2 by lia.
  change 16 with (2 ^ 4). rewrite <-Z.land_ones by lia.
  apply Z.bits_inj'; intros n Hn. rewrite Z.land_spec, !Z.shiftl_spec by lia.
  rewrite Z.land_spec. destruct (Z.ltb_spec n 12).
  - by rewrite !(Z.testbit_neg_r _ (n - 12)), !andb_false_r by lia.
  - rewrite Z.shiftr_spec by lia. do 2 f_equal. lia.
Qed.

Lemma set_compat_value h m t :
  reserved_health (set_channel_mask_data_type_compat h m t) = m `mod` 4096 + t `mod` 16 * 4096.
Proof.
  unfold set_channel_mask_data_type_compat. cbn [reserved_health].
  rewrite channel_field_mod, type_field_shift. change 0x0F with (Z.ones 4).
  rewrite land_mask_mod by lia. unfold RESERVED_HEALTH_DATA_TYPE_SHIFT.
  rewrite Z.shiftl_mul_pow2 by lia. change (2 ^ 12) with 4096. change (2 ^ 4) with 16.
  rewrite (wrap_small 16 (m `mod` 4096)), (wrap_small 16 (t `mod` 16)) by wrap_lia.
  rewrite Z.div_mul, Z.mod_mod by lia.
  rewrite (wrap_small 16 (t `mod` 16 * 4096)) by wrap_lia.
  change (t `mod` 16 * 4096) with (t `mod` 16 * 2 ^ 12). rewrite <-Z.shiftl_mul_pow2 by lia.
  rewrite lor_shiftl_add, Z.shiftl_mul_pow2 by wrap_lia. change (2 ^ 12) with 4096. apply wrap_small. wrap_lia.
Qed.

(** What an accepted packet is known to satisfy. *)
Lemma parse_Some_checks buf len p :
  parse (Some buf) len = Some p ->
  magic (header p) = PROTOCOL_MAGIC /\
  Z.shiftr (protocol_version (header p)) 4 = PROTOCOL_VERSION_MAJOR /\
  total_size p = COMMON_HEADER_SIZE + payload_len (header p) /\
  exists pl, payload p = Some pl.
Proof.
  unfold parse, basic_validation. case_match; [done|].
  case_tests; cbn [negb]; intros [= <-]; cbn [header payload total_size]; eauto.
Qed.

(** ** Theorems *)

(** C35: parsing and serialization agree.  On a buffer of bytes of at least [len]
    bytes, [PacketParser::parse] accepts exactly the buffers whose first [len]
    bytes are the object representation of a well-formed header with the
    protocol magic, major version 3 and a payload length within the maximum,
    followed by exactly [payload_len] payload bytes; it returns that header and
    the pointer just after it. *)
Theorem parse_iff (buf : bytes) (len : Z) (p : ParsedPacket)
    (Hb : bytes_ok buf) (Hlen : 0 <= len <= Z.of_nat (length buf)) :
  parse (Some buf) len = Some p <->
  exists pl rest,
    buf = CommonHeader_bytes (header p) ++ pl ++ rest /\
    CommonHeader_ok (header p) /\
    magic (header p) = PROTOCOL_MAGIC /\
    Z.shiftr (protocol_version (header p)) 4 = PROTOCOL_VERSION_MAJOR /\
    payload_len (header p) <= MAX_PAYLOAD_SIZE /\
    Z.of_nat (length pl) = payload_len (header p) /\
    len = COMMON_HEADER_SIZE + payload_len (header p) /\
    payload p = Some (pl ++ rest) /\ total_size p = len.
Proof.
  unfold parse, parse_common_header, basic_validation. change (Z.to_nat COMMON_HEADER_SIZE) with 32%nat.
  split.
  - destruct (Z.ltb_spec len COMMON_HEADER_SIZE) as [|H32]; [done|].
    unfold COMMON_HEADER_SIZE in *.
    set (h := CommonHeader_load (take 32 buf)).
    assert (Hok : CommonHeader_ok h) by (apply CommonHeader_load_ok; [rewrite length_take; lia|auto with cxx]).
    pose proof (CommonHeader_ok_payload_len h Hok) as Hpl. unfold in_range in Hpl.
    case_tests; cbn [negb]; intros [= <-]; cbn [header payload total_size]; try lia.
    exists (take (Z.to_nat (payload_len h)) (drop 32 buf)), (drop (Z.to_nat (payload_len h)) (drop 32 buf)).
    unfold h at 1. rewrite CommonHeader_bytes_load; [|rewrite length_take; lia|auto with cxx].
    rewrite !take_drop, length_take, length_drop. split_and!; try done; lia.
  - intros (pl & rest & Hbuf & Hok & Hm & Hv & Hmax & Hpl & -> & Hp & Ht).
    destruct p as [h pp sz]. cbn [header payload total_size] in *. subst pp sz.
    pose proof (CommonHeader_ok_payload_len h Hok) as Hpr. unfold in_range in Hpr.
    unfold COMMON_HEADER_SIZE in *.
    rewrite Hbuf, take_app_length', drop_app_length' by by rewrite length_CommonHeader_bytes.
    rewrite <-(app_nil_r (CommonHeader_bytes h)), CommonHeader_load_bytes by done.
    rewrite Hm, Hv. case_tests; cbn; try lia. done.
Qed.

Lemma parse_iff_witness :
  exists p, parse (Some (CommonHeader_bytes
      (mkCommonHeader PROTOCOL_MAGIC 7 0 2 3 0x31 0x11 1 0 0 0 0 [0;0;0;0]) ++ [9;8] ++ [0;0])) 34
    = Some p /\ payload p = Some [9;8;0;0].
Proof.
  set (h := mkCommonHeader PROTOCOL_MAGIC 7 0 2 3 0x31 0x11 1 0 0 0 0 [0;0;0;0]).
  exists (mkParsedPacket h (Some ([9;8] ++ [0;0])) 34). split; [|reflexivity].
  apply (parse_iff (CommonHeader_bytes h ++ [9;8] ++ [0;0]) 34);
    [by apply bytes_okb_ok|vm_compute; split; discriminate|].
  exists [9;8], [0;0]. split_and!; try reflexivity; [|vm_compute; discriminate].
  unfold CommonHeader_ok, fields_ok, in_range. repeat constructor; vm_compute; try discriminate; reflexivity.
Defined.

(** The mask/type tunnelling of [reserved_health] loses nothing: after
    [set_channel_mask_data_type_compat] the getters return the low 12 bits of
    the mask and the low 4 bits of the type, the field stays a 16-bit value,
    and the channel count is the number of set mask bits, at most 12. *)
Theorem channel_mask_data_type_roundtrip (h : DataSpecificHeader) (m t : Z) :
  let h' := set_channel_mask_data_type_compat h m t in
  get_channel_mask h' = Z.land m 0xFFF /\
  get_data_type_raw h' = Z.land t 0xF /\
  is_u16 (reserved_health h') /\
  get_channel_count h' = popcount_bits 16 (Z.land m 0xFFF) /\
  get_channel_count h' <= 12.
Proof.
  intros h'. change 0xFFF with (Z.ones 12). change 0xF with (Z.ones 4).
  rewrite !land_mask_mod by lia. change (2 ^ 12) with 4096. change (2 ^ 4) with 16.
  assert (Hv : reserved_health h' = m `mod` 4096 + t `mod` 16 * 4096) by apply set_compat_value.
  assert (Hm : get_channel_mask h' = m `mod` 4096).
  { unfold get_channel_mask. rewrite Hv, channel_field_mod, Z.mod_add, Z.mod_mod by lia.
    apply wrap_small. wrap_lia. }
  assert (Hc : get_channel_count h' = popcount_bits 16 (m `mod` 4096)).
  { unfold get_channel_count. rewrite Hm. apply popcount16_bits. wrap_lia. }
  split_and!; [done| | |done|].
  - unfold get_data_type_raw. rewrite Hv, type_field_shift, Z.div_add by lia.
    rewrite Z.div_small, Z.add_0_l, Z.mod_mod by wrap_lia.
    unfold RESERVED_HEALTH_DATA_TYPE_SHIFT. rewrite Z.shiftr_div_pow2 by lia.
    change (2 ^ 12) with 4096. rewrite Z.div_mul by lia. apply wrap_small. wrap_lia.
  - rewrite Hv. wrap_lia.
  - rewrite Hc. apply (popcount_bits_small 12 16). wrap_lia.
Qed.

(** [is_sequence_newer] is the serial-number order of a 32-bit counter: a
    number [k] steps ahead is newer exactly when [0 < k < 2^31], whatever the
    wrap-around, and no two numbers are newer than each other. *)
Theorem is_sequence_newer_spec (s k : Z) (Hs : is_u32 s) (Hk : is_u32 k) :
  is_sequence_newer (s +[32] k) s = ((0 <? k) && (k <? 2 ^ 31)) /\
  (is_sequence_newer (s +[32] k) s = true -> is_sequence_newer s (s +[32] k) = false).
Proof.
  unfold is_sequence_newer. change (u32 (Z.shiftl 1 31)) with (2 ^ 31).
  assert (H1 : (s +[32] k) -[32] s = k) by wrap_lia.
  assert (H2 : s -[32] (s +[32] k) = u32 (- k)) by wrap_lia.
  rewrite H1, H2. split; [done|]. wrap_lia.
Qed.

Lemma is_sequence_newer_spec_witness :
  is_sequence_newer (0xFFFFFFFF +[32] 3) 0xFFFFFFFF = true /\
  is_sequence_newer 0xFFFFFFFF (0xFFFFFFFF +[32] 3) = false.
Proof.
  destruct (is_sequence_newer_spec 0xFFFFFFFF 3) as [H1 H2]; [unfold in_range; lia..|].
  split; [rewrite H1; reflexivity|]. apply H2. rewrite H1. reflexivity.
Defined.

(** [operator<] on keys is a strict total order (the order of an ordered map). *)
Lemma ReassemblyKey_lt_irrefl k : ReassemblyKey_lt k k = false.
Proof. unfold ReassemblyKey_lt. rewrite !Z.eqb_refl. cbn. apply Z.ltb_irrefl. Qed.

Lemma ReassemblyKey_lt_total k o :
  k <> o -> ReassemblyKey_lt k o = negb (ReassemblyKey_lt o k).
Proof.
  intros Hne. destruct k, o. unfold ReassemblyKey_lt. cbn.
  repeat match goal with
  | |- context [?a =? ?b] =>
    rewrite (Z.eqb_sym b a); destruct (Z.eqb_spec a b); cbn [negb]; subst; [|lia]
  end.
  match goal with |- (?a <? ?b) = _ => assert (a <> b) by congruence; lia end.
Qed.

End Protocol.
