(* ===== verification/Validator.v ===== *)
(** [Validator] ([src/m01_receiver/protocol/validator.cpp]): the protocol checks
    after parsing, and the heartbeat checksum. *)

From S2P Require Import Prelude Crc32c Protocol.
Open Scope Z_scope.
Import Crc32c Protocol.

Module Validator.

(** ** Definitions *)

(** [FULL_PROTOCOL] is an alias of [DATA_AND_HEARTBEAT]. *)
Inductive Scope := DATA_PLANE_ONLY | DATA_AND_HEARTBEAT.

#[export] Instance Scope_eq_dec : EqDecision Scope.
Proof. solve_decision. Defined.

Record Validator := mkValidator { local_device_id_ : Z; scope_ : Scope }.

Definition kHeartbeatPayloadLen : Z := HEARTBEAT_PAYLOAD_SIZE.

Definition kHeartbeatCrcOffset : nat := 44.

Definition kHeartbeatDataLen : nat := 44.

Definition verify_heartbeat_crc (payload : option bytes) (payload_len : Z) : bool :=
  match payload with
  | None => false
  | Some bs =>
    if payload_len <? kHeartbeatPayloadLen then false
    else
      let wire_crc := le_load (take 4 (drop kHeartbeatCrcOffset bs)) in
      let calc_crc := crc32c payload kHeartbeatDataLen in
      wire_crc =? calc_crc
  end.

Definition check_dest_id (v : Validator) (dest_id : Z) : bool :=
  if dest_id =? DeviceID_RESERVED then false
  else (dest_id =? local_device_id_ v) || (dest_id =? DeviceID_BROADCAST).

Definition is_data_packet (type : PacketType) : bool := bool_decide (type = DATA).

Definition check_reserved_fields (h : CommonHeader) : bool :=
  if negb (reserved1 h =? 0) || negb (reserved2 h =? 0) then false
  else forallb (fun value => value =? 0) (reserved3 h).

Definition validate_payload_by_type (packet : ParsedPacket) : ValidationResult :=
  let type := get_packet_type (header packet) in
  if bool_decide (type <> DATA /\ type <> HEARTBEAT) then UNSUPPORTED_PACKET_TYPE
  else if bool_decide (type = DATA) then OK
  else if bool_decide (type = HEARTBEAT) then
    if verify_heartbeat_crc (payload packet) (payload_len (header packet))
    then OK else CRC_MISMATCH
  else UNSUPPORTED_PACKET_TYPE.

(** [validate]: the result of [check_reserved_fields] is discarded, as in the
    source (a non-zero reserved field never drops a packet). *)
Definition validate (v : Validator) (packet : ParsedPacket) : ValidationResult :=
  if negb (is_valid_magic (header packet)) then INVALID_MAGIC
  else if negb (is_valid_version (header packet)) then INVALID_VERSION
  else if negb (check_dest_id v (dest_id (header packet))) then INVALID_DEST_ID
  else
    let type := get_packet_type (header packet) in
    if bool_decide (scope_ v = DATA_PLANE_ONLY) && negb (is_data_packet type)
    then UNSUPPORTED_PACKET_TYPE
    else if bool_decide (scope_ v = DATA_AND_HEARTBEAT) &&
            bool_decide (type <> DATA) && bool_decide (type <> HEARTBEAT)
    then UNSUPPORTED_PACKET_TYPE
    else if negb (total_size packet =? COMMON_HEADER_SIZE + payload_len (header packet))
    then PAYLOAD_LEN_MISMATCH
    else validate_payload_by_type packet.

(** ** Specification *)

(** The packet is addressed to this device or broadcast. *)
Definition addressed (v : Validator) (h : CommonHeader) : Prop :=
  dest_id h <> DeviceID_RESERVED /\
  (dest_id h = local_device_id_ v \/ dest_id h = DeviceID_BROADCAST).

(** The scope admits the packet type. *)
Definition admitted (v : Validator) (h : CommonHeader) : Prop :=
  get_packet_type h = DATA \/
  (scope_ v = DATA_AND_HEARTBEAT /\ get_packet_type h = HEARTBEAT).

#[export] Instance admitted_dec v h : Decision (admitted v h).
Proof. unfold admitted. apply _. Defined.

(** The last four of the 48 heartbeat bytes are the checksum of the first 44. *)
Definition heartbeat_sealed (pl : bytes) : Prop :=
  le_load (take 4 (drop 44 pl)) = crc32c (Some pl) 44.

(** ** Lemmas *)

Lemma check_dest_id_spec v h : check_dest_id v (dest_id h) = true <-> addressed v h.
Proof. unfold check_dest_id, addressed. case_tests; cbn; lia. Qed.

Lemma verify_heartbeat_crc_spec pl n :
  verify_heartbeat_crc (Some pl) n = true <-> HEARTBEAT_PAYLOAD_SIZE <= n /\ heartbeat_sealed pl.
Proof.
  unfold verify_heartbeat_crc, heartbeat_sealed, kHeartbeatPayloadLen.
  destruct (Z.ltb_spec n HEARTBEAT_PAYLOAD_SIZE); [split; [done|intros []; lia]|]. rewrite Z.eqb_eq. unfold kHeartbeatCrcOffset, kHeartbeatDataLen. tauto.
Qed.

(** The checks on a packet that [parse] has already accepted. *)
Lemma validate_parsed v p :
  magic (header p) = PROTOCOL_MAGIC ->
  Z.shiftr (protocol_version (header p)) 4 = PROTOCOL_VERSION_MAJOR ->
  total_size p = COMMON_HEADER_SIZE + payload_len (header p) ->
  validate v p =
    if negb (check_dest_id v (dest_id (header p))) then INVALID_DEST_ID
    else if bool_decide (admitted v (header p)) then
      (if bool_decide (get_packet_type (header p) = DATA) then OK
       else if verify_heartbeat_crc (payload p) (payload_len (header p)) then OK else CRC_MISMATCH)
    else UNSUPPORTED_PACKET_TYPE.
Proof.
  intros Hm Hv Ht. unfold validate, is_valid_magic, is_valid_version.
  rewrite Hm, Hv, Ht, !Z.eqb_refl. cbn [negb].
  destruct (check_dest_id v _); [|done]. cbn [negb].
  unfold is_data_packet, validate_payload_by_type.
  destruct (scope_ v) eqn:Esc, (get_packet_type (header p)) eqn:Ety; cbn;
    first [rewrite (bool_decide_eq_true_2 (admitted _ _)) by (unfold admitted; tauto)
          |rewrite (bool_decide_eq_false_2 (admitted _ _))
             by (unfold admitted; rewrite Ety, Esc; intros [|[? ?]]; discriminate)];
    reflexivity.
Qed.

(** ** Theorems *)

(** Validation of a parsed packet.  For a packet that [PacketParser::parse]
    accepted, [Validator::validate] returns OK exactly for packets addressed to
    this device (or broadcast, never the reserved id) whose type the scope
    admits and, for heartbeats, whose 48-byte payload carries its checksum; each
    other result is returned exactly for the first condition that fails, and
    the magic, version and length results cannot occur. *)
Theorem validate_parsed_result (v : Validator) (buf : bytes) (len : Z) (p : ParsedPacket)
    (Hp : parse (Some buf) len = Some p) :
  let h := header p in
  let sealed := exists pl, payload p = Some pl /\
                  HEARTBEAT_PAYLOAD_SIZE <= payload_len h /\ heartbeat_sealed pl in
  match validate v p with
  | OK => addressed v h /\ admitted v h /\ (get_packet_type h = HEARTBEAT -> sealed)
  | INVALID_DEST_ID => ~ addressed v h
  | UNSUPPORTED_PACKET_TYPE => addressed v h /\ ~ admitted v h
  | CRC_MISMATCH => addressed v h /\ admitted v h /\ get_packet_type h = HEARTBEAT /\ ~ sealed
  | _ => False
  end.
Proof.
  intros h sealed. apply parse_Some_checks in Hp as (Hm & Hv & Ht & pl & Hpl).
  rewrite validate_parsed by done. fold h. pose proof (check_dest_id_spec v h) as Hd.
  assert (Hs : sealed <-> verify_heartbeat_crc (payload p) (payload_len h) = true).
  { rewrite Hpl, verify_heartbeat_crc_spec. subst sealed. rewrite Hpl.
    split; [intros (? & [= <-] & ?)|]; eauto. }
  destruct (check_dest_id v (dest_id h)); cbn [negb];
    [|intros Ha; apply Hd in Ha; discriminate].
  assert (Hadr : addressed v h) by (by apply Hd).
  case_bool_decide as Ha; [|done].
  case_bool_decide as Hdata; [by split_and!; [..|rewrite Hdata]|].
  assert (Hhb : get_packet_type h = HEARTBEAT) by (unfold admitted in Ha; tauto).
  destruct (verify_heartbeat_crc _ _); split_and!; try tauto.
  intros ?%Hs. discriminate.
Qed.

(** A heartbeat of 48 zero bytes is sent with a wrong checksum. *)
Lemma validate_parsed_result_witness :
  let h := mkCommonHeader PROTOCOL_MAGIC 1 0 48 4 0x31 0x11 1 0 0 0 0 [0;0;0;0] in
  let v := mkValidator 1 DATA_AND_HEARTBEAT in
  addressed v h /\ admitted v h /\ get_packet_type h = HEARTBEAT /\
  ~ exists pl, Some (replicate 48 0) = Some pl /\
      HEARTBEAT_PAYLOAD_SIZE <= payload_len h /\ heartbeat_sealed pl.
Proof.
  intros h v.
  exact (validate_parsed_result v (CommonHeader_bytes h ++ replicate 48 0) 80
    (mkParsedPacket h (Some (replicate 48 0)) 80) ltac:(vm_compute; reflexivity)).
Defined.

(** C36: a corrupted heartbeat never passes.  If a parsed heartbeat validates,
    then replacing any window of at most four consecutive bytes inside the 44
    checksummed payload bytes by other bytes makes [validate] return
    CRC_MISMATCH. *)
Theorem heartbeat_corruption_detected (v : Validator) (p : ParsedPacket) (pre b1 b2 post : bytes)
    (Hok : validate v p = OK) (Hhb : get_packet_type (header p) = HEARTBEAT)
    (Hpl : payload p = Some (pre ++ b1 ++ post))
    (Hb : bytes_ok (pre ++ b1 ++ post)) (Hb2 : bytes_ok b2)
    (Hlen : length b1 = length b2) (H4 : (length b1 <= 4)%nat)
    (Hin : (length (pre ++ b1) <= 44)%nat) (Hne : b1 <> b2) :
  validate v (mkParsedPacket (header p) (Some (pre ++ b2 ++ post)) (total_size p)) = CRC_MISMATCH.
Proof.
  assert (Hlt : (length (pre ++ b2) <= 44)%nat) by (rewrite !length_app in *; lia).
  apply Forall_app in Hb as [Hpre Hb]. apply Forall_app in Hb as [Hb1 Hpost].
  rewrite (app_assoc pre b1), (app_assoc pre b2) in *.
  assert (Hwire : forall b, length b = length b1 ->
    le_load (take 4 (drop 44 ((pre ++ b) ++ post))) =
    le_load (take 4 (drop (44 - length (pre ++ b1)) post))).
  { intros b Hlb. rewrite drop_app_ge by (rewrite !length_app in *; lia).
    do 3 f_equal. rewrite !length_app in *. lia. }
  assert (Hcrc : forall b, bytes_ok b -> length b = length b1 ->
    crc32c (Some ((pre ++ b) ++ post)) 44 =
    Z.lxor (crc_ref kInitXor (pre ++ b ++ take (44 - length (pre ++ b1)) post)) kInitXor).
  { intros b Hbb Hlb. rewrite crc32c_take_ref by auto with cxx.
    rewrite take_app_ge by (rewrite !length_app in *; lia).
    rewrite <-app_assoc. do 5 f_equal. rewrite !length_app in *. lia. }
  revert Hok. unfold validate. cbn [header payload total_size].
  repeat case_match; try done. unfold validate_payload_by_type. cbn [header payload].
  rewrite Hhb, Hpl. cbn [bool_decide].
    unfold verify_heartbeat_crc, kHeartbeatCrcOffset, kHeartbeatDataLen.
  destruct (payload_len (header p) <? kHeartbeatPayloadLen); [done|].
  rewrite !Hwire, !Hcrc by done.
  destruct (Z.eqb_spec (le_load (take 4 (drop (44 - length (pre ++ b1)) post)))
    (Z.lxor (crc_ref kInitXor (pre ++ b1 ++ take (44 - length (pre ++ b1)) post)) kInitXor))
    as [->|]; [|done].
  intros _. case_tests; [|done].
  match goal with Heq : Z.lxor _ _ = Z.lxor _ _ |- _ =>
    apply lxor_cancel_r, crc_ref_burst in Heq; auto with cxx; done end.
Qed.

(** A heartbeat of 44 zero bytes with its checksum, and the third byte changed. *)
Lemma heartbeat_corruption_detected_witness :
  let h := mkCommonHeader PROTOCOL_MAGIC 1 0 48 4 0x31 0x11 1 0 0 0 0 [0;0;0;0] in
  let v := mkValidator 1 DATA_AND_HEARTBEAT in
  let post := replicate 41 0 ++ le_store 4 (crc32c (Some (replicate 44 0)) 44) in
  validate v (mkParsedPacket h (Some ([0;0] ++ [0] ++ post)) 80) = OK /\
  validate v (mkParsedPacket h (Some ([0;0] ++ [7] ++ post)) 80) = CRC_MISMATCH.
Proof.
  intros h v post.
  assert (Hok : validate v (mkParsedPacket h (Some ([0;0] ++ [0] ++ post)) 80) = OK)
    by (vm_compute; reflexivity).
  split; [exact Hok|].
  apply (heartbeat_corruption_detected v _ [0;0] [0] [7] post Hok);
    [vm_compute; reflexivity|reflexivity| | |reflexivity| | |discriminate].
  - apply bytes_okb_ok; vm_compute; reflexivity.
  - apply bytes_okb_ok; reflexivity.
  - simpl; lia.
  - simpl; lia.
Defined.

End Validator.
