(* ===== verification/Reassembler.v ===== *)
(** [Reassembler] ([include/qdgz300/m01_receiver/pipeline/reassembler.h],
    [src/m01_receiver/pipeline/reassembler.cpp]): fragments are collected per
    key in a context; a full context is assembled into a frame, a context past
    its deadline is assembled with zero fill and its key is frozen so that late
    fragments are dropped.

    The state is passed explicitly.  An operation returns [None] where the code
    would throw ([bitset::test] out of range) or write past the heap buffer, and
    otherwise the new state with the events it causes: frames handed to the
    callback and packet buffers returned to their pool.  The clock is read
    through [clock], indexed by the number of reads made so far, with no
    assumption that it is monotonic. *)

From S2P Require Import Prelude Protocol.
Open Scope Z_scope.
Import Protocol.

Module Reassembler.

(** ** Data *)

Record ReassemblerConfig := mkReassemblerConfig {
  timeout_ms : Z;
  max_contexts : Z;
  max_total_frags : Z;
  sample_count_fixed : Z;
  max_reasm_bytes_per_key : Z
}.

Definition ReassemblerConfig_default : ReassemblerConfig :=
  mkReassemblerConfig 100 1024 1024 4096 (16 * 1024 * 1024).

(** A fragment holds either a pool buffer (an opaque handle) or a heap copy;
    [data] is the payload pointer, as the bytes from it to the end of the
    buffer it points into. *)
Record FragmentRef := mkFragmentRef {
  pool_buffer : option nat;
  heap_buffer : option bytes;
  data : option bytes;
  data_size : Z
}.

Definition FragmentRef_default : FragmentRef := mkFragmentRef None None None 0.

Definition FragmentRef_zero_copy (buf : option nat) (payload : bytes) (size : Z) : FragmentRef :=
  mkFragmentRef buf None (Some payload) size.

Definition FragmentRef_copy (src : bytes) (size : Z) : FragmentRef :=
  let heap := take (Z.to_nat size) src in mkFragmentRef None (Some heap) (Some heap) size.

Definition has_data (f : FragmentRef) : bool :=
  match data f with None => false | Some _ => 0 <? data_size f end.

(** [std::bitset<1024>]. *)
Definition BITSET_SIZE : nat := 1024.

Definition bitset_test (bs : list bool) (i : nat) : option bool := bs !! i.

Record ReassemblyContext := mkReassemblyContext {
  ctx_key : ReassemblyKey;
  ctx_total_frags : Z;
  ctx_tail_bytes : Z;
  first_frag_time_ms : Z;
  ctx_data_timestamp : Z;
  execution_snapshot : ExecutionSnapshot;
  has_execution_snapshot : bool;
  received_fragments : list bool;
  fragment_sizes : list Z;
  fragment_refs : list FragmentRef;
  total_payload_size : Z;
  received_count : Z;
  received_payload_bytes : Z;
  is_complete : bool
}.

Definition check_complete (c : ReassemblyContext) : bool :=
  received_count c =? ctx_total_frags c.

Definition check_timeout (c : ReassemblyContext) (current_time_ms timeout : Z) : bool :=
  timeout <=? current_time_ms -[64] first_frag_time_ms c.

Record ReassembledFrame := mkReassembledFrame {
  frame_key : ReassemblyKey;
  frame_data : bytes;
  frame_total_size : Z;
  frame_data_timestamp : Z;
  frame_snapshot : ExecutionSnapshot;
  frame_has_snapshot : bool;
  frame_is_complete : bool;
  missing_fragments_count : Z;
  missing_frag_indices : list nat
}.

Inductive Event :=
  | FrameOut (f : ReassembledFrame)
  | BufferReleased (b : nat).

Record Statistics := mkStatistics {
  total_fragments_received : Z;
  duplicate_fragments : Z;
  late_fragments : Z;
  frames_completed : Z;
  frames_incomplete : Z;
  total_missing_fragments : Z;
  contexts_created : Z;
  contexts_destroyed : Z;
  contexts_overflow : Z;
  reasm_bytes_overflow : Z
}.

Definition Statistics_zero : Statistics := mkStatistics 0 0 0 0 0 0 0 0 0 0.

Record FrozenKeyEntry := mkFrozenKeyEntry { fk_key : ReassemblyKey; expire_ms : Z; valid : bool }.

Definition ReassemblyKey_zero : ReassemblyKey := mkReassemblyKey 0 0 0 0 0 0 0 0.

Definition FrozenKeyEntry_default : FrozenKeyEntry := mkFrozenKeyEntry ReassemblyKey_zero 0 false.

Record Reassembler := mkReassembler {
  config_ : ReassemblerConfig;
  callback_ : bool;
  contexts_ : gmap ReassemblyKey ReassemblyContext;
  frozen_keys_ring_ : list FrozenKeyEntry;
  frozen_keys_next_insert_ : nat;
  stats_ : Statistics;
  timeout_ms_runtime_ : Z;
  clock_reads : nat
}.

(** Field updates of the state. *)
Definition upd_contexts (f : gmap ReassemblyKey ReassemblyContext -> gmap ReassemblyKey ReassemblyContext)
    (r : Reassembler) : Reassembler :=
  mkReassembler (config_ r) (callback_ r) (f (contexts_ r)) (frozen_keys_ring_ r)
    (frozen_keys_next_insert_ r) (stats_ r) (timeout_ms_runtime_ r) (clock_reads r).

Definition upd_stats (f : Statistics -> Statistics) (r : Reassembler) : Reassembler :=
  mkReassembler (config_ r) (callback_ r) (contexts_ r) (frozen_keys_ring_ r)
    (frozen_keys_next_insert_ r) (f (stats_ r)) (timeout_ms_runtime_ r) (clock_reads r).

Definition set_frozen (ring : list FrozenKeyEntry) (next : nat) (r : Reassembler) : Reassembler :=
  mkReassembler (config_ r) (callback_ r) (contexts_ r) ring next (stats_ r)
    (timeout_ms_runtime_ r) (clock_reads r).

(** Counter increments ([fetch_add]). *)
Definition inc_total (s : Statistics) : Statistics :=
  mkStatistics (inc64 (total_fragments_received s)) (duplicate_fragments s) (late_fragments s)
    (frames_completed s) (frames_incomplete s) (total_missing_fragments s) (contexts_created s)
    (contexts_destroyed s) (contexts_overflow s) (reasm_bytes_overflow s).

Definition inc_duplicate (s : Statistics) : Statistics :=
  mkStatistics (total_fragments_received s) (inc64 (duplicate_fragments s)) (late_fragments s)
    (frames_completed s) (frames_incomplete s) (total_missing_fragments s) (contexts_created s)
    (contexts_destroyed s) (contexts_overflow s) (reasm_bytes_overflow s).

Definition inc_late (s : Statistics) : Statistics :=
  mkStatistics (total_fragments_received s) (duplicate_fragments s) (inc64 (late_fragments s))
    (frames_completed s) (frames_incomplete s) (total_missing_fragments s) (contexts_created s)
    (contexts_destroyed s) (contexts_overflow s) (reasm_bytes_overflow s).

Definition inc_completed (s : Statistics) : Statistics :=
  mkStatistics (total_fragments_received s) (duplicate_fragments s) (late_fragments s)
    (inc64 (frames_completed s)) (frames_incomplete s) (total_missing_fragments s)
    (contexts_created s) (contexts_destroyed s) (contexts_overflow s) (reasm_bytes_overflow s).

Definition inc_incomplete (missing : Z) (s : Statistics) : Statistics :=
  mkStatistics (total_fragments_received s) (duplicate_fragments s) (late_fragments s)
    (frames_completed s) (inc64 (frames_incomplete s)) (total_missing_fragments s +[64] missing)
    (contexts_created s) (contexts_destroyed s) (contexts_overflow s) (reasm_bytes_overflow s).

Definition inc_created (s : Statistics) : Statistics :=
  mkStatistics (total_fragments_received s) (duplicate_fragments s) (late_fragments s)
    (frames_completed s) (frames_incomplete s) (total_missing_fragments s)
    (inc64 (contexts_created s)) (contexts_destroyed s) (contexts_overflow s)
    (reasm_bytes_overflow s).

Definition inc_destroyed (s : Statistics) : Statistics :=
  mkStatistics (total_fragments_received s) (duplicate_fragments s) (late_fragments s)
    (frames_completed s) (frames_incomplete s) (total_missing_fragments s) (contexts_created s)
    (inc64 (contexts_destroyed s)) (contexts_overflow s) (reasm_bytes_overflow s).

Definition inc_overflow (s : Statistics) : Statistics :=
  mkStatistics (total_fragments_received s) (duplicate_fragments s) (late_fragments s)
    (frames_completed s) (frames_incomplete s) (total_missing_fragments s) (contexts_created s)
    (contexts_destroyed s) (inc64 (contexts_overflow s)) (reasm_bytes_overflow s).

Definition inc_bytes_overflow (s : Statistics) : Statistics :=
  mkStatistics (total_fragments_received s) (duplicate_fragments s) (late_fragments s)
    (frames_completed s) (frames_incomplete s) (total_missing_fragments s) (contexts_created s)
    (contexts_destroyed s) (contexts_overflow s) (inc64 (reasm_bytes_overflow s)).

(** ** Pure helpers *)

(** Size of the first received fragment that is not the tail. *)
Fixpoint first_sized (idxs : list nat) (c : ReassemblyContext) : option Z :=
  match idxs with
  | [] => None
  | i :: idxs =>
    if Z.of_nat i + 1 =? ctx_total_frags c then first_sized idxs c
    else match fragment_sizes c !! i with
         | Some s => if 0 <? s then Some s else first_sized idxs c
         | None => first_sized idxs c
         end
  end.

Definition infer_missing_fragment_size (c : ReassemblyContext) (frag : nat)
    (config : ReassemblerConfig) (channel_count data_type : Z) : Z :=
  if Z.of_nat frag + 1 =? ctx_total_frags c then ctx_tail_bytes c
  else match first_sized (seq 0 (Z.to_nat (ctx_total_frags c))) c with
       | Some s => s
       | None =>
         let complex_size := if data_type =? 0x02 then 8 else 4 in
         u64 (u64 (sample_count_fixed config * complex_size) * channel_count)
       end.

Definition extract_key (common : CommonHeader) (specific : DataSpecificHeader) : ReassemblyKey :=
  mkReassemblyKey (control_epoch common) (source_id common) (frame_counter specific)
    (beam_id specific) (cpi_count specific) (pulse_index specific)
    (get_channel_mask specific) (get_data_type_raw specific).

Definition parse_specific_header (config : ReassemblerConfig) (payload : option bytes)
    (payload_len : Z) : option DataSpecificHeader :=
  match payload with
  | None => None
  | Some pl =>
    if payload_len <? DataSpecificHeader_SIZE then None
    else
      let header := DataSpecificHeader_load (take 40 pl) in
      if (total_frags header =? 0) || (max_total_frags config <? total_frags header) then None
      else if total_frags header <=? frag_index header then None
      else Some header
  end.

(** Lines 71-103: where the fragment's own payload starts, its size, and the
    snapshot that a tail fragment carries. *)
Definition locate_fragment (packet : ParsedPacket) (specific : DataSpecificHeader)
    : option (bytes * Z * option ExecutionSnapshot) :=
  match payload packet with
  | None => None
  | Some pl =>
    if is_tail_fragment specific then
      if negb (payload_len (header packet) =?
               DataSpecificHeader_SIZE + ExecutionSnapshot_SIZE + tail_frag_payload_bytes specific)
      then None
      else Some (drop 80 pl,
                 payload_len (header packet) - (DataSpecificHeader_SIZE + ExecutionSnapshot_SIZE),
                 Some (ExecutionSnapshot_load (take 40 (drop 40 pl))))
    else if payload_len (header packet) <? DataSpecificHeader_SIZE then None
    else Some (drop 40 pl, payload_len (header packet) - DataSpecificHeader_SIZE, None)
  end.

(** The scan of [is_key_frozen] invalidates the expired entries it passes. *)
Fixpoint is_key_frozen (ring : list FrozenKeyEntry) (key : ReassemblyKey) (now_ms : Z)
    : bool * list FrozenKeyEntry :=
  match ring with
  | [] => (false, [])
  | e :: es =>
    if negb (valid e) then let '(b, es') := is_key_frozen es key now_ms in (b, e :: es')
    else if expire_ms e <=? now_ms then
      let '(b, es') := is_key_frozen es key now_ms in
      (b, mkFrozenKeyEntry (fk_key e) (expire_ms e) false :: es')
    else if bool_decide (fk_key e = key) then (true, e :: es)
    else let '(b, es') := is_key_frozen es key now_ms in (b, e :: es')
  end.

(** The first loop of [add_frozen_key]: refresh the entry of [key], if any. *)
Fixpoint refresh_frozen (ring : list FrozenKeyEntry) (key : ReassemblyKey) (expire : Z)
    : option (list FrozenKeyEntry) :=
  match ring with
  | [] => None
  | e :: es =>
    if valid e && bool_decide (fk_key e = key)
    then Some (mkFrozenKeyEntry (fk_key e) expire (valid e) :: es)
    else es' ← refresh_frozen es key expire; Some (e :: es')
  end.

Definition add_frozen_key (r : Reassembler) (key : ReassemblyKey) (expire : Z) : Reassembler :=
  match refresh_frozen (frozen_keys_ring_ r) key expire with
  | Some ring => set_frozen ring (frozen_keys_next_insert_ r) r
  | None =>
    set_frozen
      (<[frozen_keys_next_insert_ r := mkFrozenKeyEntry key expire true]> (frozen_keys_ring_ r))
      ((frozen_keys_next_insert_ r + 1) mod length (frozen_keys_ring_ r))%nat r
  end.

(** Sizes of the unused layout helpers of the class. *)
Definition get_complex_size (data_type : Z) : Z :=
  if (data_type =? 0x00) || (data_type =? 0x01) then 4 else if data_type =? 0x02 then 8 else 4.

Definition calculate_fragment_payload_size (config : ReassemblerConfig) (frag : nat)
    (total tail channel_count data_type : Z) : Z :=
  if Z.of_nat frag + 1 =? total then tail
  else u64 (u64 (sample_count_fixed config * get_complex_size data_type) * channel_count).

Definition calculate_total_payload_size (config : ReassemblerConfig)
    (total tail channel_count data_type : Z) : Z :=
  fold_left (fun acc i =>
      acc +[64] calculate_fragment_payload_size config i total tail channel_count data_type)
    (seq 0 (Z.to_nat total)) 0.

Definition calculate_fragment_offset (config : ReassemblerConfig) (frag : nat)
    (total tail channel_count data_type : Z) : Z :=
  fold_left (fun acc i =>
      acc +[64] calculate_fragment_payload_size config i total tail channel_count data_type)
    (seq 0 frag) 0.

(** ** Assembly of a frame *)

(** [ctx->received_fragments.test(i) && i < fragment_refs.size() &&
    fragment_refs[i].has_data()]: the reference to copy from, if any; the
    outer [None] is the exception of [test]. *)
Definition present (c : ReassemblyContext) (i : nat) : option (option FragmentRef) :=
  b ← bitset_test (received_fragments c) i;
  Some (if b : bool then
          match fragment_refs c !! i with
          | Some f => if has_data f then Some f else None
          | None => None
          end
        else None).

Definition slot_size (config : ReassemblerConfig) (c : ReassemblyContext) (key : ReassemblyKey)
    (i : nat) : option Z :=
  f ← present c i;
  Some (match f with
        | Some f => data_size f
        | None => infer_missing_fragment_size c i config (popcount16 (key_channel_mask key))
                    (key_data_type key)
        end).

(** The first loop: the size of the assembled buffer. *)
Fixpoint sum_sizes (config : ReassemblerConfig) (c : ReassemblyContext) (key : ReassemblyKey)
    (idxs : list nat) (assembled_size : Z) : option Z :=
  match idxs with
  | [] => Some assembled_size
  | i :: idxs => s ← slot_size config c key i; sum_sizes config c key idxs (assembled_size +[64] s)
  end.

(** [memcpy]/[memset] of [src] at [pos] of the heap buffer; [None] past its end. *)
Definition heap_write (buf : bytes) (pos : Z) (src : bytes) : option bytes :=
  if pos + Z.of_nat (length src) <=? Z.of_nat (length buf)
  then Some (take (Z.to_nat pos) buf ++ src ++ drop (Z.to_nat pos + length src) buf)
  else None.

(** The second loop: copy or zero-fill each slot at [write_pos]. *)
Fixpoint fill_slots (config : ReassemblerConfig) (c : ReassemblyContext) (key : ReassemblyKey)
    (idxs : list nat) (buf : bytes) (write_pos : Z) (missing : list nat)
    : option (bytes * list nat) :=
  match idxs with
  | [] => Some (buf, missing)
  | i :: idxs =>
    f ← present c i;
    match f with
    | Some f =>
      buf ← heap_write buf write_pos (take (Z.to_nat (data_size f)) (default [] (data f)));
      fill_slots config c key idxs buf (write_pos +[64] data_size f) missing
    | None =>
      let missing_size := infer_missing_fragment_size c i config
                            (popcount16 (key_channel_mask key)) (key_data_type key) in
      buf ← heap_write buf write_pos (replicate (Z.to_nat missing_size) 0);
      fill_slots config c key idxs buf (write_pos +[64] missing_size) (missing ++ [i])
    end
  end.

Definition assemble (config : ReassemblerConfig) (key : ReassemblyKey) (c : ReassemblyContext)
    : option ReassembledFrame :=
  let idxs := seq 0 (Z.to_nat (ctx_total_frags c)) in
  assembled_size ← sum_sizes config c key idxs 0;
  '(buf, missing) ← fill_slots config c key idxs (replicate (Z.to_nat assembled_size) 0) 0 [];
  Some (mkReassembledFrame key buf assembled_size (ctx_data_timestamp c) (execution_snapshot c)
    (has_execution_snapshot c) (bool_decide (missing = [])) (u16 (Z.of_nat (length missing)))
    missing).

(** ** Operations *)

Section Ops.

Variable clock : nat -> Z.

Definition get_current_time_ms (r : Reassembler) : Z * Reassembler :=
  (u64 (clock (clock_reads r)),
   mkReassembler (config_ r) (callback_ r) (contexts_ r) (frozen_keys_ring_ r)
     (frozen_keys_next_insert_ r) (stats_ r) (timeout_ms_runtime_ r) (S (clock_reads r))).

Definition Reassembler_init (config : ReassemblerConfig) (callback : bool) : Reassembler :=
  let frozen_capacity := Z.max 1 (u64 (max_contexts config * 2)) in
  mkReassembler config callback ∅ (replicate (Z.to_nat frozen_capacity) FrozenKeyEntry_default)
    0 Statistics_zero (timeout_ms config) 0.

Definition get_or_create_context (r : Reassembler) (key : ReassemblyKey)
    (total tail data_ts receive_time_ms : Z) : option ReassemblyContext * Reassembler :=
  match contexts_ r !! key with
  | Some c => (Some c, r)
  | None =>
    if max_contexts (config_ r) <=? Z.of_nat (size (contexts_ r))
    then (None, upd_stats inc_overflow r)
    else
      let c := mkReassemblyContext key total tail receive_time_ms data_ts
                 ExecutionSnapshot_zero false (replicate BITSET_SIZE false)
                 (replicate (Z.to_nat total) 0)
                 (replicate (Z.to_nat total) FragmentRef_default) 0 0 0 false in
      (Some c, upd_stats inc_created (upd_contexts <[key := c]> r))
  end.

Definition set_snapshot (c : ReassemblyContext) (s : ExecutionSnapshot) : ReassemblyContext :=
  mkReassemblyContext (ctx_key c) (ctx_total_frags c) (ctx_tail_bytes c) (first_frag_time_ms c)
    (ctx_data_timestamp c) s true (received_fragments c) (fragment_sizes c) (fragment_refs c)
    (total_payload_size c) (received_count c) (received_payload_bytes c) (is_complete c).

(** Lines 409-414 (465-470): the bookkeeping of an accepted fragment. *)
Definition store_fragment (c : ReassemblyContext) (i : nat) (f : option FragmentRef) (size : Z)
    : ReassemblyContext :=
  let refs := match f with Some f => <[i := f]> (fragment_refs c) | None => fragment_refs c end in
  let count := received_count c +[16] 1 in
  mkReassemblyContext (ctx_key c) (ctx_total_frags c) (ctx_tail_bytes c) (first_frag_time_ms c)
    (ctx_data_timestamp c) (execution_snapshot c) (has_execution_snapshot c)
    (<[i := true]> (received_fragments c)) (<[i := size]> (fragment_sizes c)) refs
    (total_payload_size c +[64] size) count (received_payload_bytes c +[64] size)
    (count =? ctx_total_frags c).

(** [add_fragment]: the context after an accepted fragment, or the counter of
    the rejection. *)
Definition add_fragment (config : ReassemblerConfig) (c : ReassemblyContext)
    (h : DataSpecificHeader) (fragment_payload : bytes) (size : Z)
    : option (ReassemblyContext + (Statistics -> Statistics)) :=
  let i := Z.to_nat (frag_index h) in
  if (ctx_total_frags c <=? frag_index h) || (1024 <=? frag_index h) then Some (inr id)
  else
    dup ← bitset_test (received_fragments c) i;
    Some (
      if dup : bool then inr inc_duplicate
      else if max_reasm_bytes_per_key config <? received_payload_bytes c +[64] size
      then inr inc_bytes_overflow
      else if is_tail_fragment h && negb (size =? ctx_tail_bytes c) then inr id
      else if negb (is_tail_fragment h) && (size =? 0) then inr id
      else
        let ref := if 0 <? size then Some (FragmentRef_copy fragment_payload size) else None in
        inl (store_fragment c i ref size)).

(** [add_fragment_zero_copy]: also what is left in the caller's buffer. *)
Definition add_fragment_zero_copy (config : ReassemblerConfig) (c : ReassemblyContext)
    (h : DataSpecificHeader) (buffer : option nat) (fragment_payload : bytes) (size : Z)
    : option ((ReassemblyContext + (Statistics -> Statistics)) * option nat) :=
  let i := Z.to_nat (frag_index h) in
  if (ctx_total_frags c <=? frag_index h) || (1024 <=? frag_index h)
  then Some (inr id, buffer)
  else
    dup ← bitset_test (received_fragments c) i;
    Some (
      if dup : bool then (inr inc_duplicate, buffer)
      else if max_reasm_bytes_per_key config <? received_payload_bytes c +[64] size
      then (inr inc_bytes_overflow, buffer)
      else if is_tail_fragment h && negb (size =? ctx_tail_bytes c) then (inr id, buffer)
      else if negb (is_tail_fragment h) && (size =? 0) then (inr id, buffer)
      else if 0 <? size
      then (inl (store_fragment c i
                   (Some (FragmentRef_zero_copy buffer fragment_payload size)) size), None)
      else (inl (store_fragment c i None size), buffer)).

(** Destroying a context returns its pool buffers. *)
Definition context_buffers (c : ReassemblyContext) : list nat :=
  omap pool_buffer (fragment_refs c).

Definition destroy_context (r : Reassembler) (key : ReassemblyKey) : Reassembler * list Event :=
  match contexts_ r !! key with
  | Some c => (upd_stats inc_destroyed (upd_contexts (delete key) r),
               BufferReleased <$> context_buffers c)
  | None => (r, [])
  end.

Definition complete_reassembly (r : Reassembler) (key : ReassemblyKey) (c : ReassemblyContext)
    (is_timeout : bool) : option (Reassembler * list Event) :=
  frame ← assemble (config_ r) key c;
  let missing := missing_fragments_count frame in
  let r := if (missing =? 0) && negb is_timeout
           then upd_stats inc_completed r else upd_stats (inc_incomplete missing) r in
  let out := if callback_ r then [FrameOut frame] else [] in
  let r := if is_timeout
           then let '(now, r) := get_current_time_ms r in
                add_frozen_key r key (now +[64] timeout_ms_runtime_ r)
           else r in
  let '(r, freed) := destroy_context r key in
  Some (r, out ++ freed).

(** The part of [process_packet] and [process_packet_zero_copy] before the
    fragment is added (lines 58-127, 143-212): counting, header checks, frozen
    keys, context lookup, snapshot. *)
Definition process_prefix (r : Reassembler) (packet : ParsedPacket)
    : (ReassemblyKey * ReassemblyContext * DataSpecificHeader * bytes * Z * Reassembler)
      + Reassembler :=
  let r := upd_stats inc_total r in
  match parse_specific_header (config_ r) (payload packet) (payload_len (header packet)) with
  | None => inr r
  | Some specific =>
    if (total_frags specific =? 0) || (max_total_frags (config_ r) <? total_frags specific)
    then inr r
    else match locate_fragment packet specific with
    | None => inr r
    | Some (frag_payload, frag_size, snapshot) =>
      let key := extract_key (header packet) specific in
      let '(now_ms, r) := get_current_time_ms r in
      let '(frozen, ring) := is_key_frozen (frozen_keys_ring_ r) key now_ms in
      let r := set_frozen ring (frozen_keys_next_insert_ r) r in
      if frozen : bool then inr (upd_stats inc_late r)
      else match get_or_create_context r key (total_frags specific)
                   (tail_frag_payload_bytes specific) (data_timestamp specific) now_ms with
           | (None, r) => inr r
           | (Some c, r) =>
             let c := match snapshot with Some s => set_snapshot c s | None => c end in
             inl (key, c, specific, frag_payload, frag_size, upd_contexts <[key := c]> r)
           end
    end
  end.

(** Lines 134-137 (220-223). *)
Definition process_suffix (r : Reassembler) (key : ReassemblyKey) (c : ReassemblyContext)
    : option (Reassembler * list Event) :=
  let r := upd_contexts <[key := c]> r in
  if check_complete c then complete_reassembly r key c false else Some (r, []).

Definition process_packet (r : Reassembler) (packet : ParsedPacket)
    : option (Reassembler * list Event) :=
  match process_prefix r packet with
  | inr r => Some (r, [])
  | inl (key, c, specific, frag_payload, frag_size, r) =>
    res ← add_fragment (config_ r) c specific frag_payload frag_size;
    match res with
    | inr count => Some (upd_stats count r, [])
    | inl c => process_suffix r key c
    end
  end.

Definition process_packet_zero_copy (r : Reassembler) (packet : ParsedPacket) (buffer : option nat)
    : option (Reassembler * list Event * option nat) :=
  match process_prefix r packet with
  | inr r => Some (r, [], buffer)
  | inl (key, c, specific, frag_payload, frag_size, r) =>
    '(res, kept) ← add_fragment_zero_copy (config_ r) c specific buffer frag_payload frag_size;
    match res with
    | inr count => Some (upd_stats count r, [], kept)
    | inl c => '(r, evs) ← process_suffix r key c; Some (r, evs, kept)
    end
  end.

(** The loop that completes the listed keys. *)
Fixpoint complete_keys (r : Reassembler) (keys : list ReassemblyKey)
    : option (Reassembler * list Event) :=
  match keys with
  | [] => Some (r, [])
  | key :: keys =>
    '(r, evs) ← (match contexts_ r !! key with
                 | Some c => complete_reassembly r key c true
                 | None => Some (r, [])
                 end);
    '(r, evs') ← complete_keys r keys;
    Some (r, evs ++ evs')
  end.

(** [order] is the order in which the unordered map is traversed. *)
Definition check_timeouts (r : Reassembler) (order : list ReassemblyKey)
    : option (Reassembler * list Event) :=
  let '(now_ms, r) := get_current_time_ms r in
  let timed_out := filter (fun k => match contexts_ r !! k with
                                    | Some c => check_timeout c now_ms (timeout_ms_runtime_ r)
                                    | None => false
                                    end = true) order in
  complete_keys r timed_out.

Definition flush_all (r : Reassembler) (order : list ReassemblyKey)
    : option (Reassembler * list Event * Z) :=
  '(r', evs) ← complete_keys r order;
  Some (r', evs, Z.of_nat (length order)).

Definition reset_statistics (r : Reassembler) : Reassembler :=
  set_frozen ((fun e => mkFrozenKeyEntry (fk_key e) 0 false) <$> frozen_keys_ring_ r) 0
    (upd_stats (fun _ => Statistics_zero) r).

Definition set_timeout_ms (r : Reassembler) (t : Z) : Reassembler :=
  mkReassembler (config_ r) (callback_ r) (contexts_ r) (frozen_keys_ring_ r)
    (frozen_keys_next_insert_ r) (stats_ r) t (clock_reads r).

End Ops.

End Reassembler.
