(* ===== verification/ReassemblerProps.v ===== *)
(** Correctness of the reassembler: the invariant of its contexts, assembly of a
    frame without fault, and the theorems on whole operations. *)

From S2P Require Import Prelude Protocol Reassembler.
Open Scope Z_scope.
Import Protocol Reassembler.

Module ReassemblerProps.

(** ** Invariant *)

(** The configurations for which no operation faults: the fragment count fits
    the bitset, and sizes are far from the 64-bit limit. *)
Record config_ok (cfg : ReassemblerConfig) : Prop := {
  co_frags : 1 <= max_total_frags cfg <= 1024;
  co_samples : 0 <= sample_count_fixed cfg < 2 ^ 32;
  co_bytes : 0 <= max_reasm_bytes_per_key cfg < 2 ^ 40;
  co_contexts : 0 <= max_contexts cfg < 2 ^ 40
}.

(** A slot: its bit, its recorded size, its reference. *)
Definition slot_wf (b : bool) (s : Z) (f : FragmentRef) : Prop :=
  if b then
    (0 < s /\ data_size f = s /\ exists d, data f = Some d /\ s <= Z.of_nat (length d)) \/
    (s = 0 /\ f = FragmentRef_default)
  else s = 0 /\ f = FragmentRef_default.

Record ctx_wf (cfg : ReassemblerConfig) (key : ReassemblyKey) (c : ReassemblyContext) : Prop := {
  cw_key : ctx_key c = key;
  cw_mask : is_u16 (key_channel_mask key);
  cw_total : 1 <= ctx_total_frags c <= max_total_frags cfg;
  cw_tail : is_u16 (ctx_tail_bytes c);
  cw_bits : length (received_fragments c) = BITSET_SIZE;
  cw_high : forall i, (Z.to_nat (ctx_total_frags c) <= i)%nat ->
              received_fragments c !! i <> Some true;
  cw_sizes : length (fragment_sizes c) = Z.to_nat (ctx_total_frags c);
  cw_refs : length (fragment_refs c) = Z.to_nat (ctx_total_frags c);
  cw_slots : forall i b s f, received_fragments c !! i = Some b ->
               fragment_sizes c !! i = Some s -> fragment_refs c !! i = Some f -> slot_wf b s f;
  cw_count : received_count c = Z.of_nat (count_true (received_fragments c));
  cw_bytes : received_payload_bytes c = sumZ (fragment_sizes c);
  cw_max : received_payload_bytes c <= max_reasm_bytes_per_key cfg
}.

Record reasm_wf (r : Reassembler) : Prop := {
  rw_config : config_ok (config_ r);
  rw_ctx : forall k c, contexts_ r !! k = Some c ->
             ctx_wf (config_ r) k c /\ received_count c < ctx_total_frags c;
  rw_cap : Z.of_nat (size (contexts_ r)) <= max_contexts (config_ r);
  rw_ring : Z.of_nat (length (frozen_keys_ring_ r)) = Z.max 1 (2 * max_contexts (config_ r));
  rw_next : (frozen_keys_next_insert_ r < length (frozen_keys_ring_ r))%nat
}.

(** A packet as [PacketParser::parse] produces it: the payload has the length
    the header announces. *)
Definition packet_ok (p : ParsedPacket) : Prop :=
  is_u16 (payload_len (header p)) /\
  forall pl, payload p = Some pl ->
    bytes_ok pl /\ payload_len (header p) <= Z.of_nat (length pl).

(** ** Assembly *)

(** What slot [i] contributes to the frame: the fragment, or zero fill. *)
Definition absent (c : ReassemblyContext) (i : nat) : bool :=
  match present c i with Some (Some _) => false | _ => true end.

Definition slot_bytes (cfg : ReassemblerConfig) (c : ReassemblyContext) (key : ReassemblyKey)
    (i : nat) : bytes :=
  match present c i with
  | Some (Some f) => take (Z.to_nat (data_size f)) (default [] (data f))
  | _ => replicate (Z.to_nat (infer_missing_fragment_size c i cfg
           (popcount16 (key_channel_mask key)) (key_data_type key))) 0
  end.

Definition frame_bytes (cfg : ReassemblerConfig) (c : ReassemblyContext) (key : ReassemblyKey)
    : bytes :=
  concat (slot_bytes cfg c key <$> seq 0 (Z.to_nat (ctx_total_frags c))).

Section Assembly.

Context (cfg : ReassemblerConfig) (key : ReassemblyKey) (c : ReassemblyContext).
Hypothesis Hcfg : config_ok cfg.
Hypothesis Hc : ctx_wf cfg key c.

Lemma total_le_1024 : 1 <= ctx_total_frags c <= 1024.
Proof. destruct Hcfg, Hc. lia. Qed.

Lemma slot_lookup i : (i < Z.to_nat (ctx_total_frags c))%nat ->
  exists b s f, received_fragments c !! i = Some b /\ fragment_sizes c !! i = Some s /\
    fragment_refs c !! i = Some f /\ slot_wf b s f.
Proof.
  intros Hi. pose proof total_le_1024.
  destruct (lookup_lt_is_Some_2 (received_fragments c) i) as [b Hb].
  { rewrite (cw_bits _ _ _ Hc). unfold BITSET_SIZE. lia. }
  destruct (lookup_lt_is_Some_2 (fragment_sizes c) i) as [s Hs]; [by rewrite (cw_sizes _ _ _ Hc)|].
  destruct (lookup_lt_is_Some_2 (fragment_refs c) i) as [f Hf]; [by rewrite (cw_refs _ _ _ Hc)|].
  exists b, s, f. split_and!; try done. by eapply cw_slots.
Qed.

Lemma sizes_nonneg : Forall (Z.le 0) (fragment_sizes c).
Proof.
  apply Forall_lookup. intros i s Hs.
  destruct (slot_lookup i) as (b & s' & f & _ & Hs' & _ & Hw).
  { rewrite <-(cw_sizes _ _ _ Hc). by eapply lookup_lt_Some. }
  assert (s' = s) as -> by congruence. unfold slot_wf in Hw. destruct b; naive_solver lia.
Qed.

Lemma size_le i s : fragment_sizes c !! i = Some s -> 0 <= s <= max_reasm_bytes_per_key cfg.
Proof.
  intros Hs. pose proof sizes_nonneg as Hnn. split.
  - rewrite Forall_lookup in Hnn. by eapply Hnn.
  - pose proof (sumZ_lookup_le _ _ _ Hnn Hs). pose proof (cw_bytes _ _ _ Hc).
    pose proof (cw_max _ _ _ Hc). lia.
Qed.

Lemma first_sized_le idxs s : first_sized idxs c = Some s -> 0 < s <= max_reasm_bytes_per_key cfg.
Proof.
  induction idxs as [|i idxs IH]; cbn; [done|].
  case_tests; [done|]. destruct (fragment_sizes c !! i) as [s'|] eqn:Hs; [|done].
  destruct (Z.ltb_spec 0 s'); [|done]. intros [= <-]. apply size_le in Hs. lia.
Qed.

Lemma infer_bound i :
  0 <= infer_missing_fragment_size c i cfg (popcount16 (key_channel_mask key)) (key_data_type key)
    < 2 ^ 40.
Proof.
  unfold infer_missing_fragment_size. pose proof (cw_tail _ _ _ Hc) as Ht. destruct Hcfg.
  case_tests; [unfold in_range in Ht; lia| |];
    (destruct (first_sized _ c) as [s|] eqn:Hs; [apply first_sized_le in Hs; lia|]);
    rewrite popcount16_bits by apply (cw_mask _ _ _ Hc);
    pose proof (popcount_bits_bound 16 (key_channel_mask key));
    unfold wrap; rewrite (Z.mod_small (sample_count_fixed cfg * _)) by nia;
    rewrite Z.mod_small by nia; nia.
Qed.

(** No [test] is out of range, and every slot is bounded. *)
Lemma present_spec i : (i < Z.to_nat (ctx_total_frags c))%nat ->
  exists mf, present c i = Some mf /\
    slot_size cfg c key i = Some (Z.of_nat (length (slot_bytes cfg c key i))) /\
    Z.of_nat (length (slot_bytes cfg c key i)) < 2 ^ 40 /\
    match mf with
    | Some f => data_size f = Z.of_nat (length (slot_bytes cfg c key i))
    | None => infer_missing_fragment_size c i cfg (popcount16 (key_channel_mask key))
                (key_data_type key) = Z.of_nat (length (slot_bytes cfg c key i))
    end.
Proof.
  intros Hi. destruct (slot_lookup i Hi) as (b & s & f & Hb & Hs & Hf & Hw).
  pose proof (infer_bound i) as Hinf.
  unfold slot_size, slot_bytes, present, bitset_test. rewrite Hb. cbn [mbind option_bind].
  rewrite Hf. destruct b; cbn in Hw; cbv iota beta; [destruct Hw as [(Hpos & Hds & d & Hd & Hlen)|[-> ->]]|].
  - unfold has_data. rewrite Hd, Hds. destruct (Z.ltb_spec 0 s); [|lia].
    exists (Some f). cbn [default mbind option_bind]. rewrite Hd, Hds. cbn [default id].
    rewrite length_take. apply size_le in Hs. destruct Hcfg.
    split_and!; [done|f_equal; lia|lia|lia].
  - exists None. cbn [has_data data FragmentRef_default mbind option_bind].
    rewrite length_replicate. split_and!; [done|f_equal; lia|lia|lia].
  - exists None. cbn [mbind option_bind].
    rewrite length_replicate. split_and!; [done|f_equal; lia|lia|lia].
Qed.

Lemma length_slots_bound idxs :
  Forall (fun i => i < Z.to_nat (ctx_total_frags c))%nat idxs ->
  Z.of_nat (length (concat (slot_bytes cfg c key <$> idxs))) <= Z.of_nat (length idxs) * 2 ^ 40.
Proof.
  induction 1 as [|i idxs Hi _ IH]; cbn; [lia|]. rewrite length_app.
  destruct (present_spec i Hi) as (_ & _ & _ & Hb & _). lia.
Qed.

Lemma sum_sizes_spec idxs acc :
  Forall (fun i => i < Z.to_nat (ctx_total_frags c))%nat idxs -> 0 <= acc ->
  acc + Z.of_nat (length (concat (slot_bytes cfg c key <$> idxs))) < 2 ^ 64 ->
  sum_sizes cfg c key idxs acc =
    Some (acc + Z.of_nat (length (concat (slot_bytes cfg c key <$> idxs)))).
Proof.
  intros Hall. revert acc. induction Hall as [|i idxs Hi _ IH]; intros acc Ha Hb; cbn in *.
  { f_equal. lia. }
  rewrite length_app in *. destruct (present_spec i Hi) as (_ & _ & -> & _ & _). cbn [mbind option_bind].
  rewrite wrap_small by (unfold in_range; lia). rewrite IH by lia. f_equal. lia.
Qed.

Lemma heap_write_append done src k :
  (length src <= k)%nat ->
  heap_write (done ++ replicate k 0) (Z.of_nat (length done)) src =
    Some ((done ++ src) ++ replicate (k - length src) 0).
Proof.
  intros Hk. unfold heap_write. rewrite length_app, length_replicate.
  destruct (Z.leb_spec (Z.of_nat (length done) + Z.of_nat (length src))
    (Z.of_nat (length done + k))); [|lia].
  rewrite Nat2Z.id, take_app_length, <-app_assoc.
  do 3 f_equal. rewrite drop_app_ge by lia.
  replace (length done + length src - length done)%nat with (length src) by lia.
  by rewrite drop_replicate.
Qed.

Lemma fill_slots_spec idxs done k missing :
  Forall (fun i => i < Z.to_nat (ctx_total_frags c))%nat idxs ->
  (length (concat (slot_bytes cfg c key <$> idxs)) <= k)%nat ->
  Z.of_nat (length done + k) < 2 ^ 64 ->
  fill_slots cfg c key idxs (done ++ replicate k 0) (Z.of_nat (length done)) missing =
    Some ((done ++ concat (slot_bytes cfg c key <$> idxs)) ++
            replicate (k - length (concat (slot_bytes cfg c key <$> idxs))) 0,
          missing ++ filter (fun i => absent c i = true) idxs).
Proof.
  intros Hall. revert done k missing.
  induction Hall as [|i idxs Hi _ IH]; intros done k missing Hk H64; cbn [fmap list_fmap concat fill_slots] in *.
  { cbn. by rewrite !app_nil_r, Nat.sub_0_r. }
  rewrite length_app in *. destruct (present_spec i Hi) as (mf & Hp & _ & _ & Hsz).
  assert (Hrec : forall m, fill_slots cfg c key idxs
      ((done ++ slot_bytes cfg c key i) ++ replicate (k - length (slot_bytes cfg c key i)) 0)
      (Z.of_nat (length done) +[64] Z.of_nat (length (slot_bytes cfg c key i))) m =
    Some ((done ++ slot_bytes cfg c key i ++ concat (slot_bytes cfg c key <$> idxs)) ++
            replicate (k - (length (slot_bytes cfg c key i) +
              length (concat (slot_bytes cfg c key <$> idxs)))) 0,
          m ++ filter (fun i => absent c i = true) idxs)).
  { intros m. rewrite wrap_small by (unfold in_range; lia). rewrite <-Nat2Z.inj_add, <-length_app.
    rewrite IH by (rewrite ?length_app; lia). rewrite <-!app_assoc. by rewrite Nat.sub_add_distr. }
  rewrite Hp. cbn [mbind option_bind]. rewrite filter_cons.
  destruct mf as [f|].
  - assert (Hb : take (Z.to_nat (data_size f)) (default [] (data f)) = slot_bytes cfg c key i)
      by (unfold slot_bytes; by rewrite Hp).
    rewrite Hb, Hsz, heap_write_append by lia. cbn [mbind option_bind]. rewrite Hrec.
    rewrite decide_False; [done|]. unfold absent. by rewrite Hp.
  - rewrite Hsz, Nat2Z.id.
    assert (Hb : replicate (length (slot_bytes cfg c key i)) 0 = slot_bytes cfg c key i).
    { unfold slot_bytes at 2. rewrite Hp. by rewrite Hsz, Nat2Z.id. }
    rewrite Hb, heap_write_append by lia. cbn [mbind option_bind]. rewrite Hrec.
    rewrite decide_True by (unfold absent; by rewrite Hp). by rewrite <-(app_assoc missing).
Qed.

(** The two loops agree: the buffer is filled exactly. *)
Lemma assemble_spec :
  let missing := filter (fun i => absent c i = true) (seq 0 (Z.to_nat (ctx_total_frags c))) in
  assemble cfg key c =
    Some (mkReassembledFrame key (frame_bytes cfg c key)
      (Z.of_nat (length (frame_bytes cfg c key))) (ctx_data_timestamp c) (execution_snapshot c)
      (has_execution_snapshot c) (bool_decide (missing = [])) (Z.of_nat (length missing))
      missing).
Proof.
  intros missing. pose proof total_le_1024 as Hn. unfold assemble.
  set (idxs := seq 0 (Z.to_nat (ctx_total_frags c))) in *.
  assert (Hall : Forall (fun i => i < Z.to_nat (ctx_total_frags c))%nat idxs).
  { apply Forall_forall. intros i Hi. apply list_elem_of_In, elem_of_seq in Hi. lia. }
  pose proof (length_slots_bound idxs Hall) as Hb.
  assert (length idxs = Z.to_nat (ctx_total_frags c)) as Hl by apply length_seq.
  rewrite sum_sizes_spec by (done || lia). cbn [mbind option_bind].
  rewrite Z.add_0_l, Nat2Z.id. fold idxs.
  pose proof (fill_slots_spec idxs [] (length (concat (slot_bytes cfg c key <$> idxs))) []) as Hf.
  cbn [app length] in Hf. change (Z.of_nat 0) with 0 in Hf.
  rewrite Hf by (done || lia). cbn [mbind option_bind].
  rewrite Nat.sub_diag, app_nil_r. fold missing. unfold frame_bytes. fold idxs.
  rewrite wrap_small; [done|].
  assert (length missing <= length idxs)%nat by apply length_filter. unfold in_range. lia.
Qed.

End Assembly.

(** ** Contexts *)

Lemma set_snapshot_wf cfg k c s : ctx_wf cfg k c -> ctx_wf cfg k (set_snapshot c s).
Proof. intros []. by constructor. Qed.

Lemma new_context_wf cfg key total tail ts now :
  config_ok cfg -> is_u16 (key_channel_mask key) -> 1 <= total <= max_total_frags cfg ->
  is_u16 tail ->
  ctx_wf cfg key (mkReassemblyContext key total tail now ts
    ExecutionSnapshot_zero false (replicate BITSET_SIZE false) (replicate (Z.to_nat total) 0)
    (replicate (Z.to_nat total) FragmentRef_default) 0 0 0 false).
Proof.
  intros Hcfg Hm Ht Htail. constructor; cbn - [BITSET_SIZE]; try done; rewrite ?length_replicate; try done.
  - intros i _ [? _]%lookup_replicate. done.
  - intros i b s f [-> _]%lookup_replicate [-> _]%lookup_replicate [-> _]%lookup_replicate.
    done.
  - rewrite sumZ_replicate. lia.
  - destruct Hcfg. lia.
Qed.

(** The reference stored for a fragment of [size] bytes. *)
Definition ref_ok (size : Z) (f : option FragmentRef) : Prop :=
  match f with
  | Some f => 0 < size /\ data_size f = size /\
              exists d, data f = Some d /\ size <= Z.of_nat (length d)
  | None => size = 0
  end.

Lemma store_fragment_wf cfg k c i f size :
  config_ok cfg -> ctx_wf cfg k c -> (i < Z.to_nat (ctx_total_frags c))%nat ->
  received_fragments c !! i = Some false -> ref_ok size f -> 0 <= size < 2 ^ 16 ->
  received_payload_bytes c + size <= max_reasm_bytes_per_key cfg ->
  ctx_wf cfg k (store_fragment c i f size) /\
  received_count (store_fragment c i f size) = received_count c + 1.
Proof.
  intros Hcfg Hc Hi Hbit Hf Hsz Hmax. pose proof (total_le_1024 _ _ _ Hcfg Hc).
  destruct (slot_lookup _ _ _ Hcfg Hc i Hi) as (b & s & g & Hb & Hs & Hg & Hw).
  assert (b = false) as -> by congruence. destruct Hw as [-> ->].
  pose proof (sizes_nonneg _ _ _ Hcfg Hc) as Hnn.
  assert (Hcnt : (count_true (received_fragments c) <= 1024)%nat).
  { rewrite (count_true_le _ 1024); [lia|]. intros j Hj.
    rewrite lookup_ge_None_2; [done|]. rewrite (cw_bits _ _ _ Hc). exact Hj. }
  assert (0 <= received_payload_bytes c).
  { rewrite (cw_bytes _ _ _ Hc). clear -Hnn. unfold sumZ. induction Hnn; cbn; lia. }
  destruct Hc, Hcfg. unfold store_fragment. cbn.
  assert (Hcount : received_count c +[16] 1 = received_count c + 1) by (apply wrap_small; unfold in_range; lia).
  rewrite Hcount. split; [|done].
  constructor; cbn; try done; rewrite ?length_insert; try done.
  - intros j Hj. rewrite list_lookup_insert_ne by lia. by apply cw_high0.
  - destruct f; rewrite ?length_insert; done.
  - intros j b s f' Hb' Hs' Hf'. destruct (decide (i = j)) as [<-|Hne].
    + rewrite list_lookup_insert_eq in Hb' by (eapply lookup_lt_Some; done).
      rewrite list_lookup_insert_eq in Hs' by (eapply lookup_lt_Some; done). simplify_eq.
      destruct f as [f|]; cbn in Hf.
      * rewrite list_lookup_insert_eq in Hf' by (eapply lookup_lt_Some; done). simplify_eq. by left.
      * simplify_eq. by right.
    + rewrite list_lookup_insert_ne in Hb' by done.
      rewrite list_lookup_insert_ne in Hs' by done.
      eapply cw_slots0; [done..|]. destruct f; [|done]. by rewrite list_lookup_insert_ne in Hf'.
  - rewrite count_true_insert by done. lia.
  - rewrite (sumZ_insert _ _ 0) by done. rewrite wrap_small by (unfold in_range; lia). lia.
  - rewrite wrap_small by (unfold in_range; lia). lia.
Qed.

(** ** Frozen keys *)

Lemma is_key_frozen_length ring key now : length (is_key_frozen ring key now).2 = length ring.
Proof.
  induction ring as [|e ring IH]; cbn; [done|].
  repeat case_match; simplify_eq/=; lia.
Qed.

Lemma refresh_frozen_length ring key exp ring' :
  refresh_frozen ring key exp = Some ring' -> length ring' = length ring.
Proof.
  revert ring'. induction ring as [|e ring IH]; intros ring'; cbn; [done|].
  case_match; [by intros [= <-]|].
  destruct (refresh_frozen ring key exp) as [es|]; cbn; [|done].
  intros [= <-]. cbn. f_equal. by apply IH.
Qed.

Lemma add_frozen_key_ring r key exp :
  (frozen_keys_next_insert_ r < length (frozen_keys_ring_ r))%nat ->
  length (frozen_keys_ring_ (add_frozen_key r key exp)) = length (frozen_keys_ring_ r) /\
  (frozen_keys_next_insert_ (add_frozen_key r key exp) < length (frozen_keys_ring_ r))%nat.
Proof.
  intros Hn. unfold add_frozen_key. destruct (refresh_frozen _ _ _) as [ring|] eqn:E; cbn.
  - apply refresh_frozen_length in E. done.
  - rewrite length_insert. split; [done|]. apply Nat.mod_upper_bound. lia.
Qed.

(** ** Completion *)

(** The frame of a context, and the state after it has been handed over. *)
Definition frame_of (cfg : ReassemblerConfig) (key : ReassemblyKey) (c : ReassemblyContext)
    : ReassembledFrame :=
  let missing := filter (fun i => absent c i = true) (seq 0 (Z.to_nat (ctx_total_frags c))) in
  mkReassembledFrame key (frame_bytes cfg c key)
    (Z.of_nat (length (frame_bytes cfg c key))) (ctx_data_timestamp c) (execution_snapshot c)
    (has_execution_snapshot c) (bool_decide (missing = [])) (Z.of_nat (length missing)) missing.

Definition after_complete (clock : nat -> Z) (r : Reassembler) (key : ReassemblyKey)
    (c : ReassemblyContext) (is_timeout : bool) : Reassembler :=
  let missing := missing_fragments_count (frame_of (config_ r) key c) in
  let r := if (missing =? 0) && negb is_timeout
           then upd_stats inc_completed r else upd_stats (inc_incomplete missing) r in
  let r := if is_timeout
           then let '(now, r) := get_current_time_ms clock r in
                add_frozen_key r key (now +[64] timeout_ms_runtime_ r)
           else r in
  upd_stats inc_destroyed (upd_contexts (delete key) r).

Lemma add_frozen_key_contexts r k e : contexts_ (add_frozen_key r k e) = contexts_ r.
Proof. unfold add_frozen_key. by destruct (refresh_frozen _ _ _). Qed.

Lemma add_frozen_key_config r k e : config_ (add_frozen_key r k e) = config_ r.
Proof. unfold add_frozen_key. by destruct (refresh_frozen _ _ _). Qed.

Lemma complete_reassembly_eq clock r key c c0 is_timeout :
  config_ok (config_ r) -> ctx_wf (config_ r) key c -> contexts_ r !! key = Some c0 ->
  complete_reassembly clock r key c is_timeout =
    Some (after_complete clock r key c is_timeout,
          (if callback_ r then [FrameOut (frame_of (config_ r) key c)] else []) ++
          (BufferReleased <$> context_buffers c0)).
Proof.
  intros Hcfg Hc H0. unfold complete_reassembly. rewrite (assemble_spec _ _ _ Hcfg Hc).
  cbn [mbind option_bind]. fold (frame_of (config_ r) key c).
  unfold after_complete. set (m := missing_fragments_count _).
  set (r1 := if (m =? 0) && negb is_timeout then _ else _).
  assert (Hcb : callback_ r1 = callback_ r) by (unfold r1; by case_match).
  assert (Hctx : contexts_ r1 !! key = Some c0) by (unfold r1; by case_match). rewrite Hcb.
  destruct is_timeout; cbn [get_current_time_ms].
  - unfold destroy_context. rewrite add_frozen_key_contexts. cbn [contexts_]. by rewrite Hctx.
  - unfold destroy_context. by rewrite Hctx.
Qed.

Lemma after_complete_contexts clock r key c t :
  contexts_ (after_complete clock r key c t) = delete key (contexts_ r).
Proof.
  unfold after_complete. cbn [contexts_ upd_stats upd_contexts].
  destruct t; cbn [get_current_time_ms]; rewrite ?add_frozen_key_contexts; cbn [contexts_]; by case_match.
Qed.

Lemma after_complete_config clock r key c t :
  config_ (after_complete clock r key c t) = config_ r.
Proof.
  unfold after_complete. cbn [config_ upd_stats upd_contexts].
  destruct t; cbn [get_current_time_ms]; rewrite ?add_frozen_key_config; cbn [config_]; by case_match.
Qed.

Lemma after_complete_ring clock r key c t :
  (frozen_keys_next_insert_ r < length (frozen_keys_ring_ r))%nat ->
  length (frozen_keys_ring_ (after_complete clock r key c t)) = length (frozen_keys_ring_ r) /\
  (frozen_keys_next_insert_ (after_complete clock r key c t) < length (frozen_keys_ring_ r))%nat.
Proof.
  intros Hn. unfold after_complete.
  set (r1 := if _ && _ then _ else _).
  assert (frozen_keys_ring_ r1 = frozen_keys_ring_ r) as H1 by (unfold r1; by case_match).
  assert (frozen_keys_next_insert_ r1 = frozen_keys_next_insert_ r) as H2 by (unfold r1; by case_match).
  destruct t; cbn [get_current_time_ms upd_stats upd_contexts frozen_keys_ring_ frozen_keys_next_insert_].
  - set (r2 := mkReassembler _ _ _ _ _ _ _ _).
    pose proof (add_frozen_key_ring r2 key (u64 (clock (clock_reads r1)) +[64] timeout_ms_runtime_ r2)) as H3.
    cbn in H3. rewrite H1, H2 in H3. by apply H3.
  - by rewrite H1, H2.
Qed.

(** ** Packets *)

Lemma DataSpecificHeader_ok_ranges h :
  DataSpecificHeader_ok h ->
  is_u16 (frag_index h) /\ is_u16 (total_frags h) /\ is_u16 (tail_frag_payload_bytes h).
Proof.
  unfold DataSpecificHeader_ok, fields_ok, DataSpecificHeader_fields. intros Hh.
  repeat (apply Forall2_cons_1 in Hh as [? Hh]). done.
Qed.

Lemma parse_specific_header_Some cfg p h :
  packet_ok p -> parse_specific_header cfg (payload p) (payload_len (header p)) = Some h ->
  exists pl, payload p = Some pl /\ h = DataSpecificHeader_load (take 40 pl) /\
    40 <= payload_len (header p) <= Z.of_nat (length pl) /\
    1 <= total_frags h <= max_total_frags cfg /\ 0 <= frag_index h < total_frags h /\
    is_u16 (tail_frag_payload_bytes h).
Proof.
  intros [Hu Hp]. unfold parse_specific_header. destruct (payload p) as [pl|]; [|done].
  specialize (Hp pl eq_refl) as [Hb Hl]. unfold DataSpecificHeader_SIZE.
  destruct (Z.ltb_spec (payload_len (header p)) 40); [done|].
  assert (Hok : DataSpecificHeader_ok (DataSpecificHeader_load (take 40 pl)))
    by (apply DataSpecificHeader_load_ok; [rewrite length_take; lia|auto with cxx]).
  apply DataSpecificHeader_ok_ranges in Hok as (Hf & Ht & Htl). unfold in_range in *.
  case_tests; cbn [orb]; intros [= <-]; try lia. exists pl. split_and!; try done; lia.
Qed.

Lemma locate_fragment_Some p h fp sz snap :
  packet_ok p -> 0 <= tail_frag_payload_bytes h -> locate_fragment p h = Some (fp, sz, snap) ->
  0 <= sz < 2 ^ 16 /\ sz <= Z.of_nat (length fp).
Proof.
  intros [Hu Hp] Ht. unfold locate_fragment. destruct (payload p) as [pl|]; [|done].
  specialize (Hp pl eq_refl) as [Hb Hl]. unfold DataSpecificHeader_SIZE, ExecutionSnapshot_SIZE.
  unfold in_range in *.
  destruct (is_tail_fragment h); case_tests; cbn [negb]; intros [= <- <- <-]; rewrite length_drop; try lia.
Qed.

Lemma reasm_wf_stats f r : reasm_wf r -> reasm_wf (upd_stats f r).
Proof. intros []. by constructor. Qed.

Lemma reasm_wf_put r k c :
  reasm_wf r -> ctx_wf (config_ r) k c -> received_count c < ctx_total_frags c ->
  contexts_ r !! k <> None \/ Z.of_nat (size (contexts_ r)) < max_contexts (config_ r) ->
  reasm_wf (upd_contexts <[k := c]> r).
Proof.
  intros [Hcfg Hctx Hcap Hring Hnext] Hc Hlt Hsz. constructor; cbn; try done.
  - intros k' c'. rewrite lookup_insert_Some. intros [[<- <-]|[_ H']]; [done|by apply Hctx].
  - destruct (contexts_ r !! k) eqn:E.
    + rewrite map_size_insert_Some by eauto. done.
    + destruct Hsz as [|]; [done|]. rewrite map_size_insert_None by done. lia.
Qed.

(** What holds when a fragment is about to be added. *)
Record pending (r : Reassembler) (p : ParsedPacket) (key : ReassemblyKey) (c : ReassemblyContext)
    (h : DataSpecificHeader) (fp : bytes) (sz : Z) (r' : Reassembler) : Prop := {
  pe_wf : reasm_wf r';
  pe_config : config_ r' = config_ r;
  pe_ctx : contexts_ r' !! key = Some c;
  pe_key : key = extract_key (header p) h;
  pe_index : 0 <= frag_index h < total_frags h;
  pe_size : 0 <= sz < 2 ^ 16;
  pe_data : sz <= Z.of_nat (length fp);
  pe_frame : forall k, k <> key -> contexts_ r' !! k = contexts_ r !! k;
  pe_callback : callback_ r' = callback_ r
}.

Lemma get_or_create_context_spec r key total tail ts now :
  reasm_wf r -> is_u16 (key_channel_mask key) -> 1 <= total <= max_total_frags (config_ r) ->
  is_u16 tail ->
  match get_or_create_context r key total tail ts now with
  | (None, r') => r' = upd_stats inc_overflow r
  | (Some c, r') => reasm_wf r' /\ contexts_ r' !! key = Some c /\ config_ r' = config_ r /\
      callback_ r' = callback_ r /\
      (forall k, k <> key -> contexts_ r' !! k = contexts_ r !! k)
  end.
Proof.
  intros Hr Hm Ht Htl. unfold get_or_create_context. destruct (contexts_ r !! key) as [c|] eqn:E; [done|].
  destruct (Z.leb_spec (max_contexts (config_ r)) (Z.of_nat (size (contexts_ r)))); [done|].
  split_and!; try done.
  - apply reasm_wf_stats, reasm_wf_put; [done| | |by right].
    + apply new_context_wf; [by destruct Hr|done..].
    + cbn. lia.
  - cbn. by rewrite lookup_insert_eq.
  - intros k Hk. cbn. by rewrite lookup_insert_ne.
Qed.

Lemma process_prefix_spec clock r p :
  reasm_wf r -> packet_ok p ->
  match process_prefix clock r p with
  | inr r' => reasm_wf r' /\ contexts_ r' = contexts_ r /\ config_ r' = config_ r
  | inl (key, c, h, fp, sz, r') => pending r p key c h fp sz r'
  end.
Proof.
  intros Hr Hp. unfold process_prefix. cbn [config_ upd_stats].
  destruct (parse_specific_header _ _ _) as [h|] eqn:Eh; [|split; [by apply reasm_wf_stats|done]].
  apply parse_specific_header_Some in Eh as (pl & Hpl & Hh & Hlen & Ht & Hf & Htl); [|done].
  destruct (Z.eqb_spec (total_frags h) 0); [lia|].
  destruct (Z.ltb_spec (max_total_frags (config_ r)) (total_frags h)); [lia|]. cbn [orb].
  destruct (locate_fragment p h) as [[[fp sz] snap]|] eqn:El; [|split; [by apply reasm_wf_stats|done]].
  apply locate_fragment_Some in El as [Hsz Hfp]; [|done|unfold in_range in Htl; lia].
  cbn [get_current_time_ms]. cbn [frozen_keys_ring_].
  set (key := extract_key (header p) h). set (now := u64 _).
  pose proof (is_key_frozen_length (frozen_keys_ring_ r) key now) as Hring.
  change (frozen_keys_ring_ (upd_stats inc_total r)) with (frozen_keys_ring_ r).
  destruct (is_key_frozen (frozen_keys_ring_ r) key now) as [frozen ring]. cbn in Hring.
  set (r1 := set_frozen ring _ _).
  assert (Hr1 : reasm_wf r1) by (destruct Hr; constructor; cbn; rewrite ?Hring; done).
  destruct frozen; [split; [by apply reasm_wf_stats|done]|].
  assert (Hmask : is_u16 (key_channel_mask key)) by (apply wrap_range; lia).
  pose proof (get_or_create_context_spec r1 key (total_frags h) (tail_frag_payload_bytes h)
    (data_timestamp h) now Hr1 Hmask Ht Htl) as Hg.
  destruct (get_or_create_context _ _ _ _ _ _) as [[c|] r2].
  - destruct Hg as (Hr2 & Hc & Hcf & Hcb & Hfr).
    set (c' := match snap with Some s => set_snapshot c s | None => c end).
    destruct (rw_ctx _ Hr2 _ _ Hc) as [Hcw Hlt].
    constructor; cbn; try done.
    + apply reasm_wf_put; [done| | |left; congruence]; unfold c';
        destruct snap; try done. by apply set_snapshot_wf.
    + by rewrite lookup_insert_eq.
    + intros k Hk. rewrite lookup_insert_ne by done. by apply Hfr.
  - subst r2. split; [by apply reasm_wf_stats|done].
Qed.

(** [add_fragment] does not throw and keeps the context well formed. *)
Lemma add_fragment_spec cfg k c h fp sz :
  config_ok cfg -> ctx_wf cfg k c -> received_count c < ctx_total_frags c ->
  0 <= frag_index h -> 0 <= sz < 2 ^ 16 -> sz <= Z.of_nat (length fp) ->
  match add_fragment cfg c h fp sz with
  | None => False
  | Some (inr _) => True
  | Some (inl c') => ctx_wf cfg k c' /\ received_count c' = received_count c + 1 /\
                     ctx_total_frags c' = ctx_total_frags c
  end.
Proof.
  intros Hcfg Hc Hlt Hi Hsz Hfp. unfold add_fragment.
  destruct (Z.leb_spec (ctx_total_frags c) (frag_index h)) as [|Hit]; [done|].
  destruct (Z.leb_spec 1024 (frag_index h)) as [|]; [done|]. cbn [orb].
  assert (Hin : (Z.to_nat (frag_index h) < Z.to_nat (ctx_total_frags c))%nat) by lia.
  destruct (slot_lookup _ _ _ Hcfg Hc _ Hin) as (b & s & g & Hb & Hs & Hg & Hw).
  unfold bitset_test. rewrite Hb. cbn [mbind option_bind]. destruct b; [done|].
  assert (0 <= received_payload_bytes c).
  { rewrite (cw_bytes _ _ _ Hc). pose proof (sizes_nonneg _ _ _ Hcfg Hc) as Hnn.
    clear -Hnn. unfold sumZ. induction Hnn; cbn; lia. }
  pose proof (cw_max _ _ _ Hc). pose proof (co_bytes _ Hcfg).
  rewrite wrap_small by (unfold in_range; lia).
  destruct (Z.ltb_spec (max_reasm_bytes_per_key cfg) (received_payload_bytes c + sz)); [done|].
  destruct (is_tail_fragment h && _); [done|]. destruct (negb _ && _); [done|].
  destruct (store_fragment_wf cfg k c (Z.to_nat (frag_index h))
    (if 0 <? sz then Some (FragmentRef_copy fp sz) else None) sz) as [Hwf' Hcnt']; try done.
  destruct (Z.ltb_spec 0 sz); cbn; [|lia]. split_and!; try done.
  eexists. split; [done|]. rewrite length_take. lia.
Qed.

(** The zero-copy path takes the same decisions; it only stores the pool buffer
    in place of a heap copy. *)
Lemma add_fragment_zero_copy_spec cfg k c h buf fp sz :
  config_ok cfg -> ctx_wf cfg k c -> received_count c < ctx_total_frags c ->
  0 <= frag_index h -> 0 <= sz < 2 ^ 16 -> sz <= Z.of_nat (length fp) ->
  match add_fragment_zero_copy cfg c h buf fp sz with
  | None => False
  | Some (inr _, _) => True
  | Some (inl c', _) => ctx_wf cfg k c' /\ received_count c' = received_count c + 1 /\
                        ctx_total_frags c' = ctx_total_frags c
  end.
Proof.
  intros Hcfg Hc Hlt Hi Hsz Hfp.
  pose proof (add_fragment_spec cfg k c h fp sz Hcfg Hc Hlt Hi Hsz Hfp) as Hadd. revert Hadd.
  unfold add_fragment, add_fragment_zero_copy.
  destruct (Z.leb_spec (ctx_total_frags c) (frag_index h)) as [|Hit]; [done|].
  destruct (1024 <=? frag_index h); [done|]. cbn [orb].
  destruct (bitset_test _ _) as [[|]|] eqn:Hb; cbn [mbind option_bind]; [done| |done].
  destruct (Z.ltb_spec (max_reasm_bytes_per_key cfg) (received_payload_bytes c +[64] sz)) as [|Hmax]; [done|].
  destruct (is_tail_fragment h && _); [done|]. destruct (negb _ && _); [done|].
  destruct (Z.ltb_spec 0 sz); [|done]. intros _.
  assert (0 <= received_payload_bytes c).
  { rewrite (cw_bytes _ _ _ Hc). pose proof (sizes_nonneg _ _ _ Hcfg Hc) as Hnn.
    clear -Hnn. unfold sumZ. induction Hnn; cbn; lia. }
  pose proof (cw_max _ _ _ Hc). pose proof (co_bytes _ Hcfg).
  rewrite wrap_small in Hmax by (unfold in_range; lia).
  destruct (store_fragment_wf cfg k c (Z.to_nat (frag_index h))
    (Some (FragmentRef_zero_copy buf fp sz)) sz) as [Hwf' Hcnt']; try done; [lia|].
  cbn. split_and!; try done. by exists fp.
Qed.

Lemma process_suffix_spec clock r key c c0 :
  reasm_wf r -> contexts_ r !! key = Some c0 -> ctx_wf (config_ r) key c ->
  received_count c <= ctx_total_frags c ->
  exists r' evs, process_suffix clock r key c = Some (r', evs) /\ reasm_wf r' /\
    config_ r' = config_ r /\ (forall k, k <> key -> contexts_ r' !! k = contexts_ r !! k).
Proof.
  intros Hr H0 Hc Hle. unfold process_suffix, check_complete.
  destruct (Z.eqb_spec (received_count c) (ctx_total_frags c)) as [Heq|Hne].
  - rewrite (complete_reassembly_eq clock _ key c c false); cbn;
      [|by destruct Hr|done|by rewrite lookup_insert_eq].
    eexists _, _. split; [done|].
    pose proof (after_complete_ring clock (upd_contexts <[key := c]> r) key c false) as Hring.
    destruct Hr as [Hcfg Hctx Hcap Hrg Hnx]. specialize (Hring Hnx) as [Hl Hn].
    split_and!.
    + constructor; rewrite ?after_complete_config, ?after_complete_contexts, ?Hl; cbn; try done.
      * intros k c'. rewrite delete_insert_eq. intros [_ ?]%lookup_delete_Some. by apply Hctx.
      * rewrite delete_insert_eq. pose proof (map_size_delete_le key (contexts_ r)). lia.
    + by rewrite after_complete_config.
    + intros k Hk. rewrite after_complete_contexts. cbn. by rewrite delete_insert_eq, lookup_delete_ne.
  - eexists _, _. split; [done|]. split_and!; [|done|].
    + apply reasm_wf_put; [done..|lia|left; congruence].
    + intros k Hk. cbn. by rewrite lookup_insert_ne.
Qed.

Lemma process_packet_spec clock r p :
  reasm_wf r -> packet_ok p ->
  exists r' evs, process_packet clock r p = Some (r', evs) /\ reasm_wf r' /\ config_ r' = config_ r.
Proof.
  intros Hr Hp. unfold process_packet. pose proof (process_prefix_spec clock r p Hr Hp) as Hpre.
  destruct (process_prefix clock r p) as [[[[[[key c] h] fp] sz] r1]|r1]; [|naive_solver].
  destruct Hpre as [Hr1 Hcf Hc _ Hi Hsz Hfp _ _].
  destruct (rw_ctx _ Hr1 _ _ Hc) as [Hcw Hlt].
  pose proof (add_fragment_spec _ key c h fp sz (rw_config _ Hr1) Hcw Hlt ltac:(lia) Hsz Hfp) as Hadd.
  destruct (add_fragment _ _ _ _ _) as [[c'|cnt]|]; [| |done]; cbn [mbind option_bind].
  - destruct Hadd as (Hc' & Hcnt & Htot).
    destruct (process_suffix_spec clock r1 key c' c Hr1 Hc Hc') as (r' & evs & E & Hw & Hcf' & _); [lia|].
    exists r', evs. split_and!; try done. congruence.
  - eexists _, _. split; [done|]. split; [by apply reasm_wf_stats|done].
Qed.

Lemma process_packet_zero_copy_spec clock r p buf :
  reasm_wf r -> packet_ok p ->
  exists r' evs kept, process_packet_zero_copy clock r p buf = Some (r', evs, kept) /\
    reasm_wf r' /\ config_ r' = config_ r.
Proof.
  intros Hr Hp. unfold process_packet_zero_copy. pose proof (process_prefix_spec clock r p Hr Hp) as Hpre.
  destruct (process_prefix clock r p) as [[[[[[key c] h] fp] sz] r1]|r1]; [|naive_solver].
  destruct Hpre as [Hr1 Hcf Hc _ Hi Hsz Hfp _ _].
  destruct (rw_ctx _ Hr1 _ _ Hc) as [Hcw Hlt].
  pose proof (add_fragment_zero_copy_spec _ key c h buf fp sz (rw_config _ Hr1) Hcw Hlt
    ltac:(lia) Hsz Hfp) as Hadd.
  destruct (add_fragment_zero_copy _ _ _ _ _ _) as [[[c'|cnt] kept]|]; [| |done]; cbn [mbind option_bind].
  - destruct Hadd as (Hc' & Hcnt & Htot).
    destruct (process_suffix_spec clock r1 key c' c Hr1 Hc Hc') as (r' & evs & E & Hw & Hcf' & _); [lia|].
    rewrite E. exists r', evs, kept. split_and!; try done. congruence.
  - eexists _, _, _. split; [done|]. split; [by apply reasm_wf_stats|done].
Qed.

(** Completing a context that times out. *)
Lemma complete_timeout_wf clock r key c :
  reasm_wf r -> contexts_ r !! key = Some c ->
  exists evs, complete_reassembly clock r key c true = Some (after_complete clock r key c true, evs) /\
    reasm_wf (after_complete clock r key c true).
Proof.
  intros Hr Hk. destruct (rw_ctx _ Hr _ _ Hk) as [Hc _].
  rewrite (complete_reassembly_eq clock r key c c true); [|by destruct Hr|done|done].
  eexists. split; [done|].
  destruct Hr as [Hcfg Hctx Hcap Hrg Hnx].
  destruct (after_complete_ring clock r key c true Hnx) as [Hl Hn].
  constructor; rewrite ?after_complete_config, ?after_complete_contexts, ?Hl; try done.
  - intros k c'. intros [_ ?]%lookup_delete_Some. by apply Hctx.
  - pose proof (map_size_delete_le key (contexts_ r)). lia.
Qed.

Lemma complete_keys_spec clock keys r :
  reasm_wf r ->
  exists r' evs, complete_keys clock r keys = Some (r', evs) /\ reasm_wf r' /\
    config_ r' = config_ r /\
    (forall k, contexts_ r' !! k = if decide (k ∈ keys) then None else contexts_ r !! k).
Proof.
  revert r. induction keys as [|key keys IH]; intros r Hr; cbn [complete_keys].
  { eexists _, _. split; [done|]. split_and!; [done..|]. intros k. by rewrite decide_False by set_solver. }
  destruct (contexts_ r !! key) as [c|] eqn:Hk.
  - destruct (complete_timeout_wf clock r key c Hr Hk) as (evs & -> & Hr').
    cbn [mbind option_bind]. destruct (IH _ Hr') as (r2 & evs2 & -> & Hr2 & Hcf & Hctx).
    cbn [mbind option_bind]. eexists _, _. split; [done|]. split_and!; [done| |].
    + by rewrite Hcf, after_complete_config.
    + intros k. rewrite Hctx, after_complete_contexts.
      destruct (decide (k = key)) as [->|Hne].
      * rewrite lookup_delete_eq. rewrite (decide_True (P := key ∈ key :: keys)) by set_solver.
        by case_decide.
      * rewrite lookup_delete_ne by done. by rewrite (decide_ext (k ∈ key :: keys) (k ∈ keys)) by set_solver.
  - cbn [mbind option_bind]. destruct (IH _ Hr) as (r2 & evs2 & -> & Hr2 & Hcf & Hctx).
    cbn [mbind option_bind]. eexists _, _. split; [done|]. split_and!; [done..|].
    intros k. rewrite Hctx. destruct (decide (k = key)) as [->|Hne].
    + rewrite (decide_True (P := key ∈ key :: keys)) by set_solver. by case_decide.
    + by rewrite (decide_ext (k ∈ key :: keys) (k ∈ keys)) by set_solver.
Qed.

(** ** Sequences of operations *)

Inductive Op :=
  | OpPacket (p : ParsedPacket)
  | OpZeroCopy (p : ParsedPacket) (buffer : option nat)
  | OpTimeouts (order : list ReassemblyKey)
  | OpFlush (order : list ReassemblyKey)
  | OpResetStatistics
  | OpSetTimeout (t : Z).

Definition op_ok (o : Op) : Prop :=
  match o with OpPacket p | OpZeroCopy p _ => packet_ok p | _ => True end.

Definition run_op (clock : nat -> Z) (r : Reassembler) (o : Op) : option (Reassembler * list Event) :=
  match o with
  | OpPacket p => process_packet clock r p
  | OpZeroCopy p buffer => '(r, evs, _) ← process_packet_zero_copy clock r p buffer; Some (r, evs)
  | OpTimeouts order => check_timeouts clock r order
  | OpFlush order => '(r, evs, _) ← flush_all clock r order; Some (r, evs)
  | OpResetStatistics => Some (reset_statistics r, [])
  | OpSetTimeout t => Some (set_timeout_ms r t, [])
  end.

Fixpoint run (clock : nat -> Z) (r : Reassembler) (ops : list Op) : option (Reassembler * list Event) :=
  match ops with
  | [] => Some (r, [])
  | o :: ops =>
    '(r, evs) ← run_op clock r o; '(r, evs') ← run clock r ops; Some (r, evs ++ evs')
  end.

Lemma Reassembler_init_wf cfg cb : config_ok cfg -> reasm_wf (Reassembler_init cfg cb).
Proof.
  intros Hcfg. destruct Hcfg as [? ? ? ?] eqn:E. unfold Reassembler_init.
  constructor; cbn [config_ contexts_ frozen_keys_ring_ frozen_keys_next_insert_].
  - done.
  - intros k c. by rewrite lookup_empty.
  - rewrite map_size_empty. lia.
  - rewrite length_replicate, wrap_small by (unfold in_range; lia). lia.
  - rewrite length_replicate. lia.
Qed.

Lemma run_op_spec clock r o :
  reasm_wf r -> op_ok o ->
  exists r' evs, run_op clock r o = Some (r', evs) /\ reasm_wf r' /\ config_ r' = config_ r.
Proof.
  intros Hr Ho. destruct o as [p|p buf|order|order| |t]; cbn [run_op op_ok] in *.
  - by apply process_packet_spec.
  - destruct (process_packet_zero_copy_spec clock r p buf Hr Ho) as (r' & evs & kept & -> & ? & ?).
    eexists _, _. by split.
  - unfold check_timeouts. cbn [get_current_time_ms].
    match goal with |- context [complete_keys _ ?r1 ?ks] =>
      destruct (complete_keys_spec clock ks r1) as (r' & evs & -> & ? & ? & _);
        [destruct Hr; by constructor|] end.
    eexists _, _. by split.
  - unfold flush_all. destruct (complete_keys_spec clock order r Hr) as (r' & evs & -> & ? & ? & _).
    eexists _, _. by split.
  - eexists _, _. split; [done|]. split; [|done].
    destruct Hr as [? ? ? Hring Hnext]. constructor; cbn; rewrite ?length_fmap; try done. lia.
  - eexists _, _. split; [done|]. split; [|done]. destruct Hr. by constructor.
Qed.

Lemma run_spec clock ops r :
  reasm_wf r -> Forall op_ok ops ->
  exists r' evs, run clock r ops = Some (r', evs) /\ reasm_wf r' /\ config_ r' = config_ r.
Proof.
  intros Hr Hops. revert r Hr. induction Hops as [|o ops Ho _ IH]; intros r Hr; cbn.
  { by eexists _, _. }
  destruct (run_op_spec clock r o Hr Ho) as (r1 & evs1 & -> & Hr1 & Hc1). cbn.
  destruct (IH r1 Hr1) as (r2 & evs2 & -> & Hr2 & Hc2). cbn.
  eexists _, _. split_and!; [done..|]. congruence.
Qed.

(** ** Reassembly of one frame *)

(** Packet [p] carries fragment [i] of [n] of the frame [key], with payload
    [frags i]; the tail also carries the snapshot. *)
Definition is_fragment (cfg : ReassemblerConfig) (key : ReassemblyKey) (n : nat) (tail : Z)
    (frags : nat -> bytes) (snap : ExecutionSnapshot) (i : nat) (p : ParsedPacket) : Prop :=
  exists h fp s,
    parse_specific_header cfg (payload p) (payload_len (header p)) = Some h /\
    extract_key (header p) h = key /\ total_frags h = Z.of_nat n /\
    tail_frag_payload_bytes h = tail /\ frag_index h = Z.of_nat i /\
    locate_fragment p h = Some (fp, Z.of_nat (length (frags i)), s) /\
    take (length (frags i)) fp = frags i /\ (0 < length (frags i))%nat /\
    (S i = n -> s = Some snap) /\ packet_ok p.

(** No frozen entry holds the key. *)
Definition not_frozen (ring : list FrozenKeyEntry) (key : ReassemblyKey) : Prop :=
  Forall (fun e => valid e = true -> fk_key e <> key) ring.

Lemma is_key_frozen_not ring key now :
  not_frozen ring key ->
  (is_key_frozen ring key now).1 = false /\ not_frozen (is_key_frozen ring key now).2 key.
Proof.
  unfold not_frozen. induction 1 as [|e ring He _ [IH1 IH2]]; [done|]. cbn [is_key_frozen].
  destruct (is_key_frozen ring key now) as [b es]. cbn in IH1, IH2. subst b.
  destruct (valid e) eqn:Ev; cbn [negb].
  - destruct (expire_ms e <=? now); [split; [done|by constructor]|].
    rewrite bool_decide_eq_false_2 by auto. split; [done|]. constructor; auto.
  - split; [done|]. constructor; [congruence|done].
Qed.

(** The context after the fragments of [got] have arrived. *)
Record partial (n : nat) (tail : Z) (frags : nat -> bytes) (snap : ExecutionSnapshot)
    (got : list nat) (c : ReassemblyContext) : Prop := {
  pa_total : ctx_total_frags c = Z.of_nat n;
  pa_tail : ctx_tail_bytes c = tail;
  pa_bits : forall i, (i < 1024)%nat -> received_fragments c !! i = Some (bool_decide (i ∈ got));
  pa_refs : forall i, i ∈ got -> exists f, fragment_refs c !! i = Some f /\ has_data f = true /\
              take (Z.to_nat (data_size f)) (default [] (data f)) = frags i;
  pa_snap : (n - 1)%nat ∈ got -> execution_snapshot c = snap /\ has_execution_snapshot c = true;
  pa_count : received_count c = Z.of_nat (length got);
  pa_bytes : received_payload_bytes c = sumZ ((fun i => Z.of_nat (length (frags i))) <$> got)
}.

Lemma partial_new key n tail frags snap total now ts :
  total = Z.of_nat n ->
  partial n tail frags snap [] (mkReassemblyContext key total tail now ts
    ExecutionSnapshot_zero false (replicate BITSET_SIZE false) (replicate (Z.to_nat total) 0)
    (replicate (Z.to_nat total) FragmentRef_default) 0 0 0 false).
Proof.
  intros ->. constructor; cbn - [BITSET_SIZE]; try done.
  - intros i Hi. rewrite bool_decide_eq_false_2 by set_solver.
    by apply lookup_replicate_2.
  - intros i Hi. by apply not_elem_of_nil in Hi.
  - intros Hi. by apply not_elem_of_nil in Hi.
Qed.

Lemma partial_present n tail frags snap got c i :
  partial n tail frags snap got c -> (i < 1024)%nat -> i ∈ got ->
  absent c i = false /\ forall cfg key, slot_bytes cfg c key i = frags i.
Proof.
  intros Hp Hi Hg. destruct (pa_refs _ _ _ _ _ _ Hp i Hg) as (f & Hf & Hd & Ht).
  assert (Hpr : present c i = Some (Some f)).
  { unfold present, bitset_test. rewrite (pa_bits _ _ _ _ _ _ Hp i Hi).
    rewrite bool_decide_eq_true_2 by done. cbn. by rewrite Hf, Hd. }
  split; [unfold absent; by rewrite Hpr|]. intros cfg key. unfold slot_bytes. by rewrite Hpr.
Qed.

(** A context with every fragment yields the concatenation. *)
Lemma partial_full_frame cfg key n tail frags snap got c :
  (1 <= n <= 1024)%nat -> got ≡ₚ seq 0 n -> partial n tail frags snap got c ->
  let f := frame_of cfg key c in
  frame_key f = key /\ frame_data f = concat (frags <$> seq 0 n) /\
  frame_total_size f = Z.of_nat (length (concat (frags <$> seq 0 n))) /\
  frame_is_complete f = true /\ missing_frag_indices f = [] /\
  missing_fragments_count f = 0 /\ frame_snapshot f = snap /\ frame_has_snapshot f = true.
Proof.
  intros Hn Hg Hp. pose proof (pa_total _ _ _ _ _ _ Hp) as Htot.
  assert (Hin : forall i, (i < n)%nat -> absent c i = false /\ slot_bytes cfg c key i = frags i).
  { intros i Hi. destruct (partial_present _ _ _ _ _ _ i Hp) as [H1 H2]; [lia| |by split].
    rewrite Hg. apply elem_of_seq. lia. }
  assert (Hmis : filter (fun i => absent c i = true) (seq 0 n) = []).
  { apply elem_of_nil_inv. intros i [Ha Hi]%list_elem_of_filter. apply elem_of_seq in Hi.
    destruct (Hin i) as [Hb _]; [lia|]. congruence. }
  unfold frame_of, frame_bytes. cbn. rewrite Htot, Nat2Z.id, Hmis.
  assert (Hsb : slot_bytes cfg c key <$> seq 0 n = frags <$> seq 0 n).
  { apply list_fmap_ext. intros _ i Hi%list_elem_of_lookup_2. apply elem_of_seq in Hi.
    apply Hin. lia. }
  rewrite Hsb. destruct (pa_snap _ _ _ _ _ _ Hp) as [Hs1 Hs2].
  { rewrite Hg. apply elem_of_seq. lia. }
  by split_and!.
Qed.

Lemma is_tail_fragment_iff h i n :
  frag_index h = Z.of_nat i -> total_frags h = Z.of_nat n -> (i < n)%nat ->
  is_tail_fragment h = true <-> S i = n.
Proof. intros Hi Hn Hlt. unfold is_tail_fragment. rewrite Hi, Hn, Z.eqb_eq. lia. Qed.

Lemma locate_fragment_snapshot p h fp sz s :
  locate_fragment p h = Some (fp, sz, s) -> is_tail_fragment h = false -> s = None.
Proof.
  unfold locate_fragment. intros H Ht. rewrite Ht in H. repeat case_match; by simplify_eq.
Qed.

Section OneFrame.

Context (clock : nat -> Z) (key : ReassemblyKey) (n : nat) (tail : Z).
Context (frags : nat -> bytes) (snap : ExecutionSnapshot).

(** The state while the fragments of [got] have arrived. *)
Definition collecting (r : Reassembler) (got : list nat) : Prop :=
  reasm_wf r /\ not_frozen (frozen_keys_ring_ r) key /\
  match contexts_ r !! key with
  | None => got = [] /\ Z.of_nat (size (contexts_ r)) < max_contexts (config_ r)
  | Some c => partial n tail frags snap got c
  end.

Lemma partial_set_snapshot got c :
  partial n tail frags snap got c -> partial n tail frags snap got (set_snapshot c snap).
Proof. intros []. by constructor. Qed.

Lemma process_prefix_fragment r got i p :
  collecting r got -> is_fragment (config_ r) key n tail frags snap i p -> (i < n)%nat ->
  exists h fp c r', process_prefix clock r p =
      inl (key, c, h, fp, Z.of_nat (length (frags i)), r') /\
    frag_index h = Z.of_nat i /\ total_frags h = Z.of_nat n /\
    take (length (frags i)) fp = frags i /\
    partial n tail frags snap got c /\ not_frozen (frozen_keys_ring_ r') key /\
    (S i = n -> execution_snapshot c = snap /\ has_execution_snapshot c = true).
Proof.
  intros (Hr & Hnf & Hctx) (h & fp & s & Hparse & Hkey & Htot & Htail & Hidx & Hloc & Htk & Hpos & Hs & Hp) Hi.
  unfold process_prefix. cbn [config_ upd_stats]. rewrite Hparse.
  pose proof (parse_specific_header_Some _ _ _ Hp Hparse) as (pl & _ & _ & _ & Htf & _ & _).
  destruct (Z.eqb_spec (total_frags h) 0); [lia|].
  destruct (Z.ltb_spec (max_total_frags (config_ r)) (total_frags h)); [lia|]. cbn [orb].
  rewrite Hloc, Hkey. cbn [get_current_time_ms frozen_keys_ring_].
  change (frozen_keys_ring_ (upd_stats inc_total r)) with (frozen_keys_ring_ r).
  set (now := u64 _). destruct (is_key_frozen_not (frozen_keys_ring_ r) key now Hnf) as [Hf1 Hf2].
  destruct (is_key_frozen (frozen_keys_ring_ r) key now) as [b ring]. cbn in Hf1, Hf2. subst b.
  assert (Hsn : forall c, partial n tail frags snap got c ->
    let c' := match s with Some s => set_snapshot c s | None => c end in
    partial n tail frags snap got c' /\
    (S i = n -> execution_snapshot c' = snap /\ has_execution_snapshot c' = true)).
  { intros c Hc. destruct (decide (S i = n)) as [Hin|Hin].
    - rewrite (Hs Hin). split; [by apply partial_set_snapshot|done].
    - assert (is_tail_fragment h = false) as Hnt.
      { apply not_true_is_false. rewrite (is_tail_fragment_iff h i n) by done. done. }
      rewrite (locate_fragment_snapshot _ _ _ _ _ Hloc Hnt). by split. }
  unfold get_or_create_context. cbn [contexts_ set_frozen upd_stats config_ upd_contexts].
  destruct (contexts_ r !! key) as [c|] eqn:Ec.
  - eexists h, fp, _, _. split; [done|]. destruct (Hsn c Hctx). by split_and!.
  - destruct Hctx as [-> Hsize].
    destruct (Z.leb_spec (max_contexts (config_ r)) (Z.of_nat (size (contexts_ r)))); [lia|].
    eexists h, fp, _, _. split; [done|].
    match goal with |- context [mkReassemblyContext ?a ?b ?c ?d ?e ?f ?g ?h1 ?h2 ?h3 ?h4 ?h5 ?h6 ?h7] =>
      destruct (Hsn (mkReassemblyContext a b c d e f g h1 h2 h3 h4 h5 h6 h7)) end.
    { rewrite Htail. by apply partial_new. }
    by split_and!.
Qed.

(** An accepted fragment extends the partial frame. *)
Lemma partial_store cfg got c i fp :
  config_ok cfg -> ctx_wf cfg key c -> partial n tail frags snap got c ->
  (i < n)%nat -> i ∉ got -> take (length (frags i)) fp = frags i -> (0 < length (frags i))%nat ->
  Z.of_nat (length (frags i)) < 2 ^ 16 ->
  sumZ ((fun i => Z.of_nat (length (frags i))) <$> (got ++ [i])) < 2 ^ 64 ->
  (S i = n -> execution_snapshot c = snap /\ has_execution_snapshot c = true) ->
  partial n tail frags snap (got ++ [i])
    (store_fragment c i (Some (FragmentRef_copy fp (Z.of_nat (length (frags i)))))
      (Z.of_nat (length (frags i)))).
Proof.
  intros Hcfg Hcw Hp Hi Hni Htk Hpos Hlen Hsum Hsn. pose proof (total_le_1024 _ _ _ Hcfg Hcw).
  pose proof (pa_total _ _ _ _ _ _ Hp) as Htot.
  assert (Hrl : (i < length (fragment_refs c))%nat).
  { rewrite (cw_refs _ _ _ Hcw), Htot, Nat2Z.id. done. }
  assert (Hc1 : (count_true (received_fragments c) <= 1024)%nat).
  { rewrite (count_true_le _ 1024); [lia|]. intros j Hj.
    rewrite lookup_ge_None_2; [done|]. rewrite (cw_bits _ _ _ Hcw). exact Hj. }
  pose proof (cw_count _ _ _ Hcw) as Hcc. destruct Hp as [Ht Htl Hb Hrf Hs Hcnt Hby].
  rewrite fmap_app, sumZ_app in Hsum. cbn in Hsum.
  assert (0 <= sumZ ((fun i => Z.of_nat (length (frags i))) <$> got)).
  { clear. unfold sumZ. induction got; cbn; lia. }
  constructor; cbn; try done.
  - intros j Hj. destruct (decide (i = j)) as [<-|Hne].
    + rewrite list_lookup_insert_eq by (rewrite (cw_bits _ _ _ Hcw); unfold BITSET_SIZE; lia).
      by rewrite bool_decide_eq_true_2 by set_solver.
    + rewrite list_lookup_insert_ne, Hb by done. f_equal. apply bool_decide_ext. set_solver.
  - intros j Hj. destruct (decide (i = j)) as [<-|Hne].
    + eexists. rewrite list_lookup_insert_eq by done. split; [done|]. cbn. rewrite Nat2Z.id.
      split; [unfold has_data; cbn; lia|]. by rewrite take_take, Nat.min_id.
    + rewrite list_lookup_insert_ne by done. apply Hrf. set_solver.
  - intros Hin. destruct (decide (S i = n)) as [Hsi|Hsi]; [by apply Hsn|].
    apply Hs. apply elem_of_app in Hin as [|Hin]; [done|]. apply list_elem_of_singleton in Hin. lia.
  - rewrite length_app. cbn. rewrite wrap_small by (unfold in_range; lia). lia.
  - rewrite fmap_app, sumZ_app. cbn. rewrite wrap_small by (unfold in_range; lia). lia.
Qed.

Lemma process_fragment r got i p :
  collecting r got -> is_fragment (config_ r) key n tail frags snap i p ->
  (i < n <= 1024)%nat -> i ∉ got -> tail = Z.of_nat (length (frags (n - 1)%nat)) ->
  sumZ ((fun i => Z.of_nat (length (frags i))) <$> (got ++ [i])) <= max_reasm_bytes_per_key (config_ r) ->
  exists r1 c, process_packet clock r p = process_suffix clock r1 key c /\
    partial n tail frags snap (got ++ [i]) c /\ ctx_wf (config_ r1) key c /\
    reasm_wf r1 /\ (exists c0, contexts_ r1 !! key = Some c0 /\ context_buffers c0 = context_buffers c) /\
    config_ r1 = config_ r /\ callback_ r1 = callback_ r /\
    not_frozen (frozen_keys_ring_ r1) key /\
    (forall k, k <> key -> contexts_ r1 !! k = contexts_ r !! k).
Proof.
  intros Hcol Hfr [Hi Hn] Hni Htl Hsum. pose proof Hcol as (Hr & _ & _).
  pose proof Hfr as (_ & _ & _ & _ & _ & _ & _ & _ & _ & _ & Hpos & _ & Hp).
  destruct (process_prefix_fragment r got i p Hcol Hfr Hi)
    as (h & fp & c & r1 & Epre & Hidx & Htot & Htk & Hpart & Hnf & Hsn).
  pose proof (process_prefix_spec clock r p Hr Hp) as Hpe. rewrite Epre in Hpe.
  destruct Hpe as [Hr1 Hcf Hc _ _ Hsz Hfp Hframe Hcb].
  destruct (rw_ctx _ Hr1 _ _ Hc) as [Hcw Hlt]. pose proof (rw_config _ Hr1) as Hcfg.
  pose proof (pa_total _ _ _ _ _ _ Hpart) as Htc. pose proof (pa_tail _ _ _ _ _ _ Hpart) as Hta.
  pose proof (pa_bytes _ _ _ _ _ _ Hpart) as Hby.
  assert (Hsum' := Hsum). rewrite fmap_app, sumZ_app in Hsum'. cbn in Hsum'.
  assert (0 <= sumZ ((fun i => Z.of_nat (length (frags i))) <$> got)).
  { clear. unfold sumZ. induction got; cbn; lia. }
  pose proof (co_bytes _ Hcfg). rewrite Hcf in *.
  set (sz := Z.of_nat (length (frags i))) in *.
  exists r1, (store_fragment c i (Some (FragmentRef_copy fp sz)) sz).
  assert (Hpart' : partial n tail frags snap (got ++ [i])
    (store_fragment c i (Some (FragmentRef_copy fp sz)) sz)).
  { rewrite <-Hcf in Hcw, Hcfg. eapply partial_store; try done; lia. }
  assert (Hbit : received_fragments c !! i = Some false).
  { rewrite (pa_bits _ _ _ _ _ _ Hpart) by lia. by rewrite bool_decide_eq_false_2. }
  destruct (store_fragment_wf (config_ r) key c i (Some (FragmentRef_copy fp sz)) sz) as [Hw' _];
    [done|done|lia|done| |lia|lia|].
  { cbn. split_and!; [lia|done|]. eexists; split; [done|]. rewrite length_take. lia. }
  split_and!; try done.
  - unfold process_packet. rewrite Epre. unfold add_fragment.
    rewrite Hidx, Htc, Nat2Z.id, Hcf.
    destruct (Z.leb_spec (Z.of_nat n) (Z.of_nat i)); [lia|].
    destruct (Z.leb_spec 1024 (Z.of_nat i)); [lia|]. cbn [orb].
    unfold bitset_test. rewrite Hbit. cbn [mbind option_bind].
    rewrite wrap_small by (unfold in_range; lia).
    destruct (Z.ltb_spec (max_reasm_bytes_per_key (config_ r)) (received_payload_bytes c + sz)); [lia|].
    destruct (is_tail_fragment h) eqn:Eti; cbn [andb negb].
    + rewrite (is_tail_fragment_iff h i n) in Eti by done.
      rewrite Hta, Htl. replace (n - 1)%nat with i by lia. fold sz. rewrite Z.eqb_refl. cbn [negb].
      destruct (Z.ltb_spec 0 sz); [done|lia].
    + destruct (Z.eqb_spec sz 0); [lia|]. destruct (Z.ltb_spec 0 sz); [done|lia].
  - by rewrite Hcf.
  - exists c. split; [done|].
    destruct (slot_lookup _ _ _ Hcfg Hcw i) as (b & s & g & Hb & Hs & Hg & Hwf); [lia|].
    assert (b = false) as -> by congruence. destruct Hwf as [_ ->].
    unfold context_buffers. cbn. by rewrite (omap_insert_None _ _ _ FragmentRef_default).
Qed.

(** Before the last fragment nothing is emitted. *)
Lemma process_fragment_more r got i p :
  collecting r got -> is_fragment (config_ r) key n tail frags snap i p ->
  (i < n <= 1024)%nat -> i ∉ got -> tail = Z.of_nat (length (frags (n - 1)%nat)) ->
  sumZ ((fun i => Z.of_nat (length (frags i))) <$> (got ++ [i])) <= max_reasm_bytes_per_key (config_ r) ->
  (length got + 1 < n)%nat ->
  exists r', process_packet clock r p = Some (r', []) /\ collecting r' (got ++ [i]) /\
    config_ r' = config_ r /\ callback_ r' = callback_ r /\
    (forall k, k <> key -> contexts_ r' !! k = contexts_ r !! k).
Proof.
  intros Hcol Hfr Hi Hni Htl Hsum Hlt.
  destruct (process_fragment r got i p Hcol Hfr Hi Hni Htl Hsum)
    as (r1 & c & -> & Hp & Hcw & Hr1 & (c0 & Hc0 & _) & Hcf & Hcb & Hnf & Hfrm).
  unfold process_suffix, check_complete.
  pose proof (pa_count _ _ _ _ _ _ Hp) as Hcnt. rewrite length_app in Hcnt. cbn in Hcnt.
  rewrite (pa_total _ _ _ _ _ _ Hp). destruct (Z.eqb_spec (received_count c) (Z.of_nat n)); [lia|].
  eexists. split; [done|]. split_and!; try done.
  - split_and!; [|done|].
    + apply reasm_wf_put; [done..| |left; congruence].
      rewrite (pa_total _ _ _ _ _ _ Hp). lia.
    + cbn. by rewrite lookup_insert_eq.
  - intros k Hk. cbn. rewrite lookup_insert_ne by done. by apply Hfrm.
Qed.

(** The last fragment completes the frame. *)
Lemma process_fragment_last r got i p :
  collecting r got -> is_fragment (config_ r) key n tail frags snap i p ->
  (i < n <= 1024)%nat -> i ∉ got -> tail = Z.of_nat (length (frags (n - 1)%nat)) ->
  sumZ ((fun i => Z.of_nat (length (frags i))) <$> (got ++ [i])) <= max_reasm_bytes_per_key (config_ r) ->
  got ++ [i] ≡ₚ seq 0 n ->
  exists r' c bufs, process_packet clock r p =
      Some (r', (if callback_ r then [FrameOut (frame_of (config_ r) key c)] else []) ++
                (BufferReleased <$> bufs)) /\
    partial n tail frags snap (got ++ [i]) c /\
    bufs = context_buffers c /\ reasm_wf r' /\ contexts_ r' !! key = None /\
    (forall k, k <> key -> contexts_ r' !! k = contexts_ r !! k).
Proof.
  intros Hcol Hfr Hi Hni Htl Hsum Hperm.
  destruct (process_fragment r got i p Hcol Hfr Hi Hni Htl Hsum)
    as (r1 & c & E & Hp & Hcw & Hr1 & (c0 & Hc0 & Hbuf) & Hcf & Hcb & Hnf & Hfrm).
  pose proof (pa_count _ _ _ _ _ _ Hp) as Hcnt. rewrite Hperm, length_seq in Hcnt.
  pose proof (pa_total _ _ _ _ _ _ Hp) as Htot.
  destruct (process_suffix_spec clock r1 key c c0 Hr1 Hc0 Hcw) as (r' & evs & E' & Hr' & _ & Hfrm');
    [lia|].
  pose proof E' as E''. rewrite E. unfold process_suffix, check_complete in E'' |- *.
  rewrite Hcnt, Htot, Z.eqb_refl in E'' |- *.
  assert (Hcomp := complete_reassembly_eq clock (upd_contexts <[key := c]> r1) key c c false
    (rw_config _ Hr1) Hcw (lookup_insert_eq _ _ _)).
  rewrite Hcomp in E'' |- *.
  injection E'' as <- <-. cbn [upd_contexts config_ callback_] in *.
  rewrite Hcf, Hcb. eexists _, c, _. split; [done|]. split_and!; try done.
  - rewrite after_complete_contexts. cbn. by rewrite delete_insert_eq, lookup_delete_eq.
  - intros k Hk. rewrite Hfrm' by done. by apply Hfrm.
Qed.

Lemma run_fragments rest : forall ps got r,
  collecting r got -> got ++ rest ≡ₚ seq 0 n -> rest <> [] -> (n <= 1024)%nat ->
  tail = Z.of_nat (length (frags (n - 1)%nat)) ->
  sumZ ((fun i => Z.of_nat (length (frags i))) <$> seq 0 n) <= max_reasm_bytes_per_key (config_ r) ->
  Forall2 (is_fragment (config_ r) key n tail frags snap) rest ps ->
  exists r' c bufs, run clock r (OpPacket <$> ps) =
      Some (r', (if callback_ r then [FrameOut (frame_of (config_ r) key c)] else []) ++
                (BufferReleased <$> bufs)) /\
    partial n tail frags snap (got ++ rest) c /\ reasm_wf r' /\ contexts_ r' !! key = None /\
    (forall k, k <> key -> contexts_ r' !! k = contexts_ r !! k).
Proof.
  induction rest as [|i rest IH]; intros ps got r Hcol Hperm Hne Hn Htl Hsum Hps; [done|].
  destruct ps as [|p ps]; [by inv Hps|]. apply Forall2_cons_1 in Hps as [Hp Hps].
  assert (Hi : (i < n)%nat).
  { assert (i ∈ seq 0 n) as Hin by (rewrite <-Hperm; set_solver). apply elem_of_seq in Hin. lia. }
  assert (Hnd : NoDup (got ++ i :: rest)) by (rewrite Hperm; apply NoDup_seq).
  assert (Hni : i ∉ got) by (apply list.NoDup_app in Hnd as (_ & Hd & _); intros ?; eapply Hd; set_solver).
  assert (Hs : sumZ ((fun i => Z.of_nat (length (frags i))) <$> (got ++ [i]))
    <= max_reasm_bytes_per_key (config_ r)).
  { etrans; [|exact Hsum]. rewrite <-Hperm. change (i :: rest) with ([i] ++ rest).
    rewrite app_assoc, (fmap_app _ (got ++ [i]) rest), sumZ_app.
    assert (0 <= sumZ ((fun i => Z.of_nat (length (frags i))) <$> rest)); [|lia].
    clear. unfold sumZ. induction rest; cbn; lia. }
  cbn [fmap list_fmap run run_op]. destruct rest as [|j rest].
  - inv Hps. destruct (process_fragment_last r got i _ Hcol Hp (conj Hi Hn) Hni Htl Hs Hperm)
      as (r' & c & bufs & -> & Hpa & _ & Hr' & Hk & Hfr).
    cbn. eexists _, c, bufs. rewrite app_nil_r. by split_and!.
  - assert (Hlt : (length got + 1 < n)%nat).
    { apply Permutation_length in Hperm. rewrite length_app, length_seq in Hperm. cbn in Hperm. lia. }
    destruct (process_fragment_more r got i _ Hcol Hp (conj Hi Hn) Hni Htl Hs Hlt)
      as (r1 & -> & Hcol1 & Hcf & Hcb & Hfr). cbn [mbind option_bind].
    destruct (IH ps (got ++ [i]) r1 Hcol1) as (r' & c & bufs & E & Hpa & Hr' & Hk & Hfr');
      [by rewrite <-app_assoc|done|done|done|by rewrite Hcf|by rewrite Hcf|].
    rewrite E. cbn [mbind option_bind app]. rewrite Hcf, Hcb.
    eexists _, c, bufs. split; [done|]. rewrite <-app_assoc in Hpa. split_and!; try done.
    intros k Hk'. rewrite Hfr' by done. by apply Hfr.
Qed.

End OneFrame.

(** ** Frames emitted by a sequence of events *)

Definition event_frame (e : Event) : option ReassembledFrame :=
  match e with FrameOut f => Some f | BufferReleased _ => None end.

Definition frames_out (evs : list Event) : list ReassembledFrame := omap event_frame evs.

Lemma frames_out_app evs1 evs2 : frames_out (evs1 ++ evs2) = frames_out evs1 ++ frames_out evs2.
Proof. apply omap_app. Qed.

Lemma frames_out_frame f : frames_out [FrameOut f] = [f].
Proof. done. Qed.

Lemma frames_out_released bufs : frames_out (BufferReleased <$> bufs) = [].
Proof. by induction bufs. Qed.

Lemma after_complete_callback clock r key c t :
  callback_ (after_complete clock r key c t) = callback_ r.
Proof.
  unfold after_complete. destruct t; cbn; unfold add_frozen_key; repeat case_match; done.
Qed.

Lemma complete_keys_frames clock keys r r' evs :
  reasm_wf r -> NoDup keys -> callback_ r = true ->
  complete_keys clock r keys = Some (r', evs) ->
  frames_out evs = omap (fun k => frame_of (config_ r) k <$> contexts_ r !! k) keys.
Proof.
  revert r r' evs. induction keys as [|key keys IH]; intros r r' evs Hr Hnd Hcb E;
    cbn [complete_keys] in E; [by simplify_eq|]. inv Hnd. cbn [omap list_omap].
  destruct (contexts_ r !! key) as [c|] eqn:Hk; cbn [fmap option_fmap option_map].
  - destruct (complete_timeout_wf clock r key c Hr Hk) as (evs1 & E1 & Hr1).
    rewrite (complete_reassembly_eq clock r key c c true) in E, E1 by
      (try apply Hr; try done; by apply (rw_ctx _ Hr)).
    injection E1 as <-. cbn [mbind option_bind] in E.
    destruct (complete_keys clock (after_complete clock r key c true) keys) as [[r2 evs2]|] eqn:E2; [|done].
    injection E as <- <-. apply IH in E2; [|done|done|by rewrite after_complete_callback].
    rewrite !frames_out_app, frames_out_released, E2, Hcb, after_complete_config.
    rewrite frames_out_frame, app_nil_r. cbn [app]. f_equal.
    apply list_omap_ext, Forall2_same_length_lookup_2; [done|].
    intros j k k' Hj Hj'. assert (k = k') as -> by congruence.
    rewrite after_complete_contexts, lookup_delete_ne; [done|]. intros <-.
    apply list_elem_of_lookup_2 in Hj. done.
  - cbn [mbind option_bind] in E.
    destruct (complete_keys clock r keys) as [[r2 evs2]|] eqn:E2; [|done].
    injection E as <- <-. by apply IH in E2.
Qed.

(** A small configuration and its packets, for concrete runs. *)
Definition sample_config : ReassemblerConfig := mkReassemblerConfig 100 2 8 16 1024.

Definition sample_packet (index total tail : Z) (snapshot body : bytes) : ParsedPacket :=
  let pl := DataSpecificHeader_bytes (mkDataSpecificHeader 1 2 3 0 0 0 0 0 5 index total tail)
              ++ snapshot ++ body in
  mkParsedPacket (mkCommonHeader PROTOCOL_MAGIC index 0 (Z.of_nat (length pl)) 3 0x31 0x11 1 0 0 0 0
    [0;0;0;0]) (Some pl) (32 + Z.of_nat (length pl)).

Lemma sample_config_ok : config_ok sample_config.
Proof. constructor; cbn; lia. Qed.

Lemma sample_packet_ok index total tail snapshot body :
  bytes_okb (snapshot ++ body) = true -> Z.of_nat (length (snapshot ++ body)) < 60000 ->
  packet_ok (sample_packet index total tail snapshot body).
Proof.
  intros Hb Hl. unfold sample_packet, packet_ok. cbn [header payload payload_len].
  rewrite (length_app (DataSpecificHeader_bytes _)), length_DataSpecificHeader_bytes. unfold in_range. split; [lia|].
  intros pl Hpl. apply (inj Some) in Hpl as <-. rewrite (length_app (DataSpecificHeader_bytes _)), length_DataSpecificHeader_bytes. split; [|lia].
  apply bytes_ok_app; [apply encode_fields_ok|by apply bytes_okb_ok].
Qed.

(** All fragments of a frame, in any order. *)
Lemma fragments_to_frame (clock : nat -> Z) (r : Reassembler) (key : ReassemblyKey)
    (frags : list bytes) (snap : ExecutionSnapshot) (order : list nat) (ps : list ParsedPacket)
    (Hr : reasm_wf r) (Hcb : callback_ r = true)
    (Hnew : contexts_ r !! key = None)
    (Hroom : Z.of_nat (size (contexts_ r)) < max_contexts (config_ r))
    (Hnf : not_frozen (frozen_keys_ring_ r) key)
    (Hn : (1 <= length frags <= 1024)%nat)
    (Hbytes : Z.of_nat (length (concat frags)) <= max_reasm_bytes_per_key (config_ r))
    (Hord : order ≡ₚ seq 0 (length frags))
    (Hps : Forall2 (is_fragment (config_ r) key (length frags)
             (Z.of_nat (length (frags !!! (length frags - 1)%nat)))
             (fun i => frags !!! i) snap) order ps) :
  exists r' evs f,
    run clock r (OpPacket <$> ps) = Some (r', evs) /\ frames_out evs = [f] /\
    frame_key f = key /\ frame_data f = concat frags /\
    frame_total_size f = Z.of_nat (length (concat frags)) /\
    frame_is_complete f = true /\ missing_frag_indices f = [] /\
    frame_snapshot f = snap /\ frame_has_snapshot f = true /\
    reasm_wf r' /\ contexts_ r' = contexts_ r.
Proof.
  set (fr := fun i => frags !!! i) in *.
  assert (Hfr : fr <$> seq 0 (length frags) = frags).
  { apply list_eq. intros i. rewrite list_lookup_fmap. destruct (decide (i < length frags)%nat) as [Hi|Hi].
    - rewrite lookup_seq_lt by done. cbn. unfold fr. by rewrite list_lookup_lookup_total_lt.
    - rewrite lookup_seq_ge by lia. cbn. rewrite lookup_ge_None_2; [done|lia]. }
  destruct (run_fragments clock key (length frags)
    (Z.of_nat (length (frags !!! (length frags - 1)%nat))) fr snap order ps [] r) as
    (r' & c & bufs & E & Hpa & Hr' & Hk & Hfrm).
  - split_and!; [done..|]. by rewrite Hnew.
  - done.
  - intros ->. apply Permutation_nil_l in Hord. destruct frags; cbn in *; [lia|done].
  - lia.
  - done.
  - etrans; [|exact Hbytes]. rewrite <-Hfr at 2. clear. unfold sumZ.
    induction (seq 0 (length frags)) as [|i l IH]; cbn; [lia|]. rewrite length_app. lia.
  - done.
  - destruct (partial_full_frame (config_ r) key _ _ _ _ _ c Hn Hord Hpa)
      as (F1 & F2 & F3 & F4 & F5 & F6 & F7 & F8).
    rewrite Hfr in F2, F3. rewrite Hcb in E.
    eexists r', _, _. split; [exact E|]. rewrite frames_out_app, frames_out_released.
    split; [done|]. split_and!; try done. apply map_eq. intros k.
    destruct (decide (k = key)) as [->|]; [congruence|by apply Hfrm].
Qed.

(** ** Theorems *)

(** C8: reassembly is independent of the arrival order.  Let the [n] fragments
    of a frame ([1 <= n <= 1024], none empty, within the byte limit of a key)
    arrive in any order [order], a permutation of [0..n-1], at a reassembler in
    any well-formed state that holds no context for the key, has room for one
    and has not frozen the key.  Then the callback receives exactly one frame:
    its data is the concatenation of the fragments in index order, it is marked
    complete with no missing index and carries the snapshot of the tail; the
    context is gone, the contexts of all other keys are untouched, and the
    clock values do not matter. *)
Theorem reassembly_any_order (clock : nat -> Z) (r : Reassembler) (key : ReassemblyKey)
    (frags : list bytes) (snap : ExecutionSnapshot) (order : list nat) (ps : list ParsedPacket)
    (Hr : reasm_wf r) (Hcb : callback_ r = true)
    (Hnew : contexts_ r !! key = None)
    (Hroom : Z.of_nat (size (contexts_ r)) < max_contexts (config_ r))
    (Hnf : not_frozen (frozen_keys_ring_ r) key)
    (Hn : (1 <= length frags <= 1024)%nat)
    (Hbytes : Z.of_nat (length (concat frags)) <= max_reasm_bytes_per_key (config_ r))
    (Hord : order ≡ₚ seq 0 (length frags))
    (Hps : Forall2 (is_fragment (config_ r) key (length frags)
             (Z.of_nat (length (frags !!! (length frags - 1)%nat)))
             (fun i => frags !!! i) snap) order ps) :
  exists r' evs f,
    run clock r (OpPacket <$> ps) = Some (r', evs) /\ frames_out evs = [f] /\
    frame_key f = key /\ frame_data f = concat frags /\
    frame_total_size f = Z.of_nat (length (concat frags)) /\
    frame_is_complete f = true /\ missing_frag_indices f = [] /\
    frame_snapshot f = snap /\ frame_has_snapshot f = true /\
    reasm_wf r' /\ contexts_ r' = contexts_ r.
Proof. by apply (fragments_to_frame clock r key frags snap order ps). Qed.

(** Two fragments of three and two bytes; the tail arrives first. *)
Lemma reassembly_any_order_witness :
  exists r' evs f,
    run (fun _ => 5) (Reassembler_init sample_config true)
      (OpPacket <$> [sample_packet 1 2 2 (replicate 40 0) [4;5]; sample_packet 0 2 2 [] [1;2;3]])
      = Some (r', evs) /\ frames_out evs = [f] /\
    frame_key f = mkReassemblyKey 0 0x11 1 5 2 3 0 0 /\ frame_data f = [1;2;3;4;5] /\
    frame_total_size f = 5 /\ frame_is_complete f = true /\ missing_frag_indices f = [] /\
    frame_snapshot f = ExecutionSnapshot_zero /\ frame_has_snapshot f = true /\
    reasm_wf r' /\ contexts_ r' = ∅.
Proof.
  apply (reassembly_any_order (fun _ => 5) (Reassembler_init sample_config true)
    (mkReassemblyKey 0 0x11 1 5 2 3 0 0) [[1;2;3];[4;5]] ExecutionSnapshot_zero [1;0]%nat).
  - exact (Reassembler_init_wf _ _ sample_config_ok).
  - reflexivity.
  - reflexivity.
  - vm_compute. reflexivity.
  - repeat constructor; discriminate.
  - simpl; lia.
  - vm_compute. discriminate.
  - apply Permutation_swap.
  - repeat constructor; eexists _, _, _;
      (split_and!; [vm_compute; reflexivity..|simpl; lia|vm_compute; congruence|
         apply sample_packet_ok; reflexivity]).
Defined.

(** C24: no sequence of operations faults.  Starting from a reassembler with a
    configuration within bounds, every sequence of packets, zero-copy packets,
    timeout checks, flushes (with any traversal order), statistics resets and
    timeout changes runs without an out-of-range [bitset::test] and without a
    write past the assembled buffer, and ends in a state that satisfies the
    invariant. *)
Theorem reassembler_never_faults (clock : nat -> Z) (cfg : ReassemblerConfig) (cb : bool)
    (ops : list Op) (Hcfg : config_ok cfg) (Hops : Forall op_ok ops) :
  exists r' evs, run clock (Reassembler_init cfg cb) ops = Some (r', evs) /\ reasm_wf r'.
Proof.
  destruct (run_spec clock ops (Reassembler_init cfg cb)) as (r' & evs & E & Hw & _);
    [by apply Reassembler_init_wf|done|]. by exists r', evs.
Qed.

Lemma reassembler_never_faults_witness :
  exists r' evs, run (fun _ => 5) (Reassembler_init sample_config true)
    [OpPacket (sample_packet 1 2 2 (replicate 40 0) [4;5]);
     OpZeroCopy (sample_packet 0 2 2 [] [1;2;3]) (Some 7%nat); OpFlush []] = Some (r', evs) /\ reasm_wf r'.
Proof.
  apply (reassembler_never_faults _ _ _ _ sample_config_ok).
  repeat (apply Forall_cons_2; [first [exact I|apply sample_packet_ok; reflexivity]|]).
  apply Forall_nil_2.
Defined.

End ReassemblerProps.
