(* ===== verification/ReassemblerLaws.v ===== *)
(** Laws of the single operations of the reassembler: the content of an emitted
    frame, timeouts, frozen keys and duplicates, independence of keys, the
    balance of the context counters, and the frame with an empty tail. *)

From S2P Require Import Prelude Protocol Reassembler ReassemblerProps.
Open Scope Z_scope.
Import Protocol Reassembler ReassemblerProps.

Module ReassemblerLaws.

(** ** Specification of a slot *)

(** Fragment [i] has arrived with at least one byte. *)
Definition has_fragment (c : ReassemblyContext) (i : nat) : Prop :=
  received_fragments c !! i = Some true /\ exists s, fragment_sizes c !! i = Some s /\ 0 < s.

(** The counters of contexts agree with the map. *)
Definition balance (r : Reassembler) : Z :=
  u64 (contexts_created (stats_ r) - contexts_destroyed (stats_ r) - Z.of_nat (size (contexts_ r))).

Definition is_reset (o : Op) : bool := match o with OpResetStatistics => true | _ => false end.

(** ** Lemmas *)

Lemma absent_spec cfg key c i :
  config_ok cfg -> ctx_wf cfg key c -> (i < Z.to_nat (ctx_total_frags c))%nat ->
  absent c i = false <-> has_fragment c i.
Proof.
  intros Hcfg Hc Hi. destruct (slot_lookup _ _ _ Hcfg Hc i Hi) as (b & s & f & Hb & Hs & Hf & Hw).
  unfold absent, present, bitset_test, has_fragment. rewrite Hb, Hs, Hf. cbn [mbind option_bind].
  destruct b; cbn in Hw.
  - destruct Hw as [(Hp & Hd & d & Hdd & _)|[-> ->]].
    + unfold has_data. rewrite Hdd, Hd. destruct (Z.ltb_spec 0 s); [|lia]. split; eauto.
    + cbn. split; [done|]. intros [_ (s & [= <-] & ?)]. lia.
  - split; [done|]. by intros [? _].
Qed.

Lemma slot_bytes_present cfg key c i s f d :
  config_ok cfg -> ctx_wf cfg key c -> has_fragment c i ->
  fragment_sizes c !! i = Some s -> fragment_refs c !! i = Some f -> data f = Some d ->
  slot_bytes cfg c key i = take (Z.to_nat s) d.
Proof.
  intros Hcfg Hc (Hb & s' & Hs' & Hp) Hs Hf Hd. assert (s' = s) as -> by congruence.
  pose proof (cw_slots _ _ _ Hc i true s f Hb Hs Hf) as [(_ & Hds & _)|[-> _]]; [|lia].
  unfold slot_bytes, present, bitset_test. rewrite Hb. cbn [mbind option_bind]. rewrite Hf.
  unfold has_data. rewrite Hd, Hds. destruct (Z.ltb_spec 0 s); [|lia]. by rewrite Hd, Hds.
Qed.

Lemma slot_bytes_absent cfg key c i :
  absent c i = true ->
  slot_bytes cfg c key i = replicate (Z.to_nat (infer_missing_fragment_size c i cfg
    (popcount16 (key_channel_mask key)) (key_data_type key))) 0.
Proof. unfold absent, slot_bytes. by destruct (present c i) as [[f|]|]. Qed.

Lemma is_key_frozen_hit ring key now e :
  e ∈ ring -> valid e = true -> fk_key e = key -> now < expire_ms e ->
  (is_key_frozen ring key now).1 = true.
Proof.
  intros He Hv Hk Hx. induction ring as [|e' ring IH]; [set_solver|]. cbn [is_key_frozen].
  apply elem_of_cons in He as [<-|He].
  - rewrite Hv. cbn [negb]. destruct (Z.leb_spec (expire_ms e) now); [lia|].
    by rewrite bool_decide_eq_true_2.
  - specialize (IH He). destruct (is_key_frozen ring key now) as [b es]. cbn in IH. subst b.
    repeat case_match; done.
Qed.

Lemma refresh_frozen_in ring key exp ring' :
  refresh_frozen ring key exp = Some ring' -> mkFrozenKeyEntry key exp true ∈ ring'.
Proof.
  revert ring'. induction ring as [|e ring IH]; intros ring'; cbn; [done|].
  destruct (valid e) eqn:Ev; cbn.
  - case_bool_decide as Hk; [intros [= <-]; rewrite Hk; set_solver|].
    destruct (refresh_frozen ring key exp); cbn; [|done]. intros [= <-].
    apply list_elem_of_further. by apply IH.
  - destruct (refresh_frozen ring key exp); cbn; [|done]. intros [= <-].
    apply list_elem_of_further. by apply IH.
Qed.

Lemma add_frozen_key_in r key exp :
  (frozen_keys_next_insert_ r < length (frozen_keys_ring_ r))%nat ->
  mkFrozenKeyEntry key exp true ∈ frozen_keys_ring_ (add_frozen_key r key exp).
Proof.
  intros Hn. unfold add_frozen_key. destruct (refresh_frozen _ _ _) as [ring|] eqn:E; cbn.
  - by eapply refresh_frozen_in.
  - apply (list_elem_of_lookup_2 _ (frozen_keys_next_insert_ r)). by apply list_lookup_insert_eq.
Qed.

Lemma after_complete_frozen clock r key c :
  (frozen_keys_next_insert_ r < length (frozen_keys_ring_ r))%nat ->
  mkFrozenKeyEntry key (u64 (clock (clock_reads r)) +[64] timeout_ms_runtime_ r) true
    ∈ frozen_keys_ring_ (after_complete clock r key c true) /\
  clock_reads (after_complete clock r key c true) = S (clock_reads r).
Proof.
  intros Hn. unfold after_complete. set (r1 := if _ && _ then _ else _).
  assert (H1 : frozen_keys_ring_ r1 = frozen_keys_ring_ r) by (unfold r1; by case_match).
  assert (H2 : frozen_keys_next_insert_ r1 = frozen_keys_next_insert_ r) by (unfold r1; by case_match).
  assert (H3 : clock_reads r1 = clock_reads r) by (unfold r1; by case_match).
  assert (H4 : timeout_ms_runtime_ r1 = timeout_ms_runtime_ r) by (unfold r1; by case_match).
  cbn [get_current_time_ms]. set (r2 := mkReassembler _ _ _ _ _ _ _ _).
  change (timeout_ms_runtime_ r2) with (timeout_ms_runtime_ r1). rewrite H3, H4.
  cbn [upd_stats upd_contexts frozen_keys_ring_ clock_reads]. split.
  - apply add_frozen_key_in. cbn. by rewrite H1, H2.
  - unfold add_frozen_key. case_match; cbn; by rewrite H3.
Qed.

(** The header [process_prefix] reports is the parsed one. *)
Lemma process_prefix_header clock r p key c h fp sz r' :
  process_prefix clock r p = inl (key, c, h, fp, sz, r') ->
  parse_specific_header (config_ r) (payload p) (payload_len (header p)) = Some h.
Proof.
  unfold process_prefix. cbn [config_ upd_stats get_current_time_ms].
  repeat (case_match; try done); intros Heq; by simplify_eq.
Qed.

(** The events of a completion concern its key only. *)
Lemma process_suffix_key clock r key c r' evs c0 :
  reasm_wf r -> contexts_ r !! key = Some c0 -> ctx_wf (config_ r) key c ->
  process_suffix clock r key c = Some (r', evs) ->
  Forall (fun f => frame_key f = key) (frames_out evs).
Proof.
  intros Hr H0 Hc. unfold process_suffix. destruct (check_complete c); [|intros [= <- <-]; constructor].
  rewrite (complete_reassembly_eq clock _ key c c false);
    [|by destruct Hr|done|cbn; by rewrite lookup_insert_eq].
  intros [= <- <-]. rewrite frames_out_app, frames_out_released, app_nil_r. cbn [upd_contexts callback_].
  destruct (callback_ r); [|constructor]. rewrite frames_out_frame. by constructor.
Qed.

Lemma balance_upd_stats f r :
  (forall s, contexts_created (f s) = contexts_created s) ->
  (forall s, contexts_destroyed (f s) = contexts_destroyed s) ->
  balance (upd_stats f r) = balance r.
Proof. intros H1 H2. unfold balance. cbn. by rewrite H1, H2. Qed.

Lemma balance_put r k c : contexts_ r !! k <> None -> balance (upd_contexts <[k := c]> r) = balance r.
Proof.
  intros Hk. unfold balance. cbn. rewrite map_size_insert_Some; [done|].
  by destruct (contexts_ r !! k); eauto.
Qed.

Lemma balance_get_or_create r key total tail ts now :
  balance (get_or_create_context r key total tail ts now).2 = balance r.
Proof.
  unfold get_or_create_context. destruct (contexts_ r !! key) as [c|] eqn:E; [done|].
  case_match; cbn [snd]; [by apply balance_upd_stats|].
  unfold balance. cbn [upd_stats upd_contexts stats_ contexts_ inc_created contexts_created contexts_destroyed].
  rewrite map_size_insert_None by done. unfold inc64. rewrite Nat2Z.inj_succ. wrap_lia.
Qed.

Lemma balance_after_complete clock r key c t :
  contexts_ r !! key <> None -> balance (after_complete clock r key c t) = balance r.
Proof.
  intros Hk. unfold balance. rewrite after_complete_contexts.
  assert (Hs : contexts_created (stats_ (after_complete clock r key c t)) = contexts_created (stats_ r) /\
    contexts_destroyed (stats_ (after_complete clock r key c t)) = inc64 (contexts_destroyed (stats_ r))).
  { unfold after_complete. destruct t; cbn; unfold add_frozen_key; repeat case_match; done. }
  destruct Hs as [-> ->]. rewrite map_size_delete.
  assert (size (contexts_ r) <> 0%nat).
  { intros H0%map_size_empty_inv. by rewrite H0, lookup_empty in Hk. }
  destruct (contexts_ r !! key); [|done].
  rewrite Nat2Z.inj_pred by lia. unfold inc64. wrap_lia.
Qed.

(** A reassembler that holds the tail of a frame of two fragments. *)
Definition sample_key : ReassemblyKey := mkReassemblyKey 0 0x11 1 5 2 3 0 0.

Definition sample_after (p : ParsedPacket) : Reassembler :=
  default (Reassembler_init sample_config true)
    (fst <$> process_packet (fun _ => 5) (Reassembler_init sample_config true) p).

Definition sample_pending : Reassembler := sample_after (sample_packet 1 2 2 (replicate 40 0) [4;5]).

Definition sample_context_of (r : Reassembler) : ReassemblyContext :=
  default (mkReassemblyContext sample_key 0 0 0 0 ExecutionSnapshot_zero false [] [] [] 0 0 0 false)
    (contexts_ r !! sample_key).

Definition sample_context : ReassemblyContext := sample_context_of sample_pending.

Lemma sample_after_wf p : packet_ok p -> reasm_wf (sample_after p).
Proof.
  intros Hp. destruct (process_packet_spec (fun _ => 5) (Reassembler_init sample_config true) p)
    as (r' & evs & E & Hw & _); [exact (Reassembler_init_wf _ _ sample_config_ok)|done|].
  unfold sample_after. by rewrite E.
Qed.

Lemma sample_pending_wf : reasm_wf sample_pending.
Proof. apply sample_after_wf. by apply sample_packet_ok. Qed.

(** Every operation but the reset keeps the balance of the counters. *)
Lemma balance_prefix clock r p :
  match process_prefix clock r p with
  | inr r' => balance r' = balance r
  | inl (key, c, _, _, _, r') => contexts_ r' !! key = Some c /\ balance r' = balance r
  end.
Proof.
  unfold process_prefix. cbn [config_ upd_stats get_current_time_ms].
  destruct (parse_specific_header _ _ _) as [h|]; [|done]. destruct (_ || _); [done|].
  destruct (locate_fragment p h) as [[[fp sz] snap]|]; [|done].
  destruct (is_key_frozen _ _ _) as [[|] ring]; [done|].
  set (r1 := set_frozen _ _ _). set (now := u64 _). set (k := extract_key _ _).
  assert (Hb1 : balance r1 = balance r) by done.
  pose proof (balance_get_or_create r1 k (total_frags h) (tail_frag_payload_bytes h)
    (data_timestamp h) now) as Hb. rewrite Hb1 in Hb.
  destruct (get_or_create_context _ _ _ _ _ _) as [[c|] r2] eqn:E; cbn in Hb; [|done].
  split; [cbn; by rewrite lookup_insert_eq|]. rewrite balance_put; [done|].
  unfold get_or_create_context in E. destruct (contexts_ r1 !! k) eqn:Ek; [simplify_eq; congruence|].
  case_match; [done|]. injection E as <- <-. cbn. by rewrite lookup_insert_eq.
Qed.

Lemma balance_suffix clock r key c r' evs :
  config_ok (config_ r) -> ctx_wf (config_ r) key c -> contexts_ r !! key <> None ->
  process_suffix clock r key c = Some (r', evs) -> balance r' = balance r.
Proof.
  intros Hcfg Hc Hk. unfold process_suffix. destruct (check_complete c).
  - rewrite (complete_reassembly_eq clock _ key c c false);
      [|done|done|cbn; by rewrite lookup_insert_eq].
    intros [= <- _]. rewrite balance_after_complete; [by apply balance_put|].
    cbn. by rewrite lookup_insert_eq.
  - intros [= <- _]. by apply balance_put.
Qed.

Lemma balance_complete_keys clock keys r r' evs :
  reasm_wf r -> complete_keys clock r keys = Some (r', evs) -> balance r' = balance r.
Proof.
  revert r r' evs. induction keys as [|k keys IH]; intros r r' evs Hr; cbn [complete_keys].
  { by intros [= <- _]. }
  destruct (contexts_ r !! k) as [c|] eqn:Hk.
  - destruct (complete_timeout_wf clock r k c Hr Hk) as (evs1 & -> & Hr1). cbn [mbind option_bind].
    destruct (complete_keys clock _ keys) as [[r2 evs2]|] eqn:E2; [|done]. intros [= <- _].
    apply IH in E2; [|done]. rewrite E2. apply balance_after_complete. congruence.
  - cbn [mbind option_bind].
    destruct (complete_keys clock _ keys) as [[r2 evs2]|] eqn:E2; [|done]. intros [= <- _].
    by eapply IH.
Qed.

(** The rejections of [add_fragment] do not touch the context counters. *)
Definition neutral (f : Statistics -> Statistics) : Prop :=
  (forall s, contexts_created (f s) = contexts_created s) /\
  (forall s, contexts_destroyed (f s) = contexts_destroyed s).

Lemma add_fragment_neutral cfg c h fp sz f :
  add_fragment cfg c h fp sz = Some (inr f) -> neutral f.
Proof.
  unfold add_fragment. case_match; [by intros [= <-]|].
  destruct (bitset_test _ _) as [[|]|]; cbn [mbind option_bind]; [by intros [= <-]| |done].
  repeat case_match; intros [= <-]; done.
Qed.

Lemma add_fragment_zero_copy_neutral cfg c h buf fp sz f kept :
  add_fragment_zero_copy cfg c h buf fp sz = Some (inr f, kept) -> neutral f.
Proof.
  unfold add_fragment_zero_copy. case_match; [by intros [= <-]|].
  destruct (bitset_test _ _) as [[|]|]; cbn [mbind option_bind]; [by intros [= <-]| |done].
  repeat case_match; intros [= <-]; done.
Qed.

Lemma balance_run_op clock r o r' evs :
  reasm_wf r -> op_ok o -> is_reset o = false -> run_op clock r o = Some (r', evs) ->
  balance r' = balance r.
Proof.
  intros Hr Ho Hres. destruct o as [p|p buf|order|order| |t]; cbn [run_op op_ok] in *; try done.
  - unfold process_packet. pose proof (balance_prefix clock r p) as Hb.
    pose proof (process_prefix_spec clock r p Hr Ho) as Hpre.
    destruct (process_prefix clock r p) as [[[[[[key c] h] fp] sz] r1]|r1]; [|by intros [= <- _]].
    destruct Hb as [Hk Hb]. destruct Hpre as [Hr1 _ _ _ Hi Hsz Hfp _ _].
    destruct (rw_ctx _ Hr1 _ _ Hk) as [Hcw Hlt].
    pose proof (add_fragment_spec _ key c h fp sz (rw_config _ Hr1) Hcw Hlt ltac:(lia) Hsz Hfp) as Hadd.
    destruct (add_fragment _ _ _ _ _) as [[c'|f]|] eqn:Ea; cbn [mbind option_bind]; [| |done].
    + intros E. rewrite <-Hb. eapply balance_suffix; [apply Hr1|apply Hadd|congruence|done].
    + intros [= <- _]. apply add_fragment_neutral in Ea as [? ?]. by rewrite balance_upd_stats.
  - unfold process_packet_zero_copy. pose proof (balance_prefix clock r p) as Hb.
    pose proof (process_prefix_spec clock r p Hr Ho) as Hpre.
    destruct (process_prefix clock r p) as [[[[[[key c] h] fp] sz] r1]|r1]; [|by intros [= <- _]].
    destruct Hb as [Hk Hb]. destruct Hpre as [Hr1 _ _ _ Hi Hsz Hfp _ _].
    destruct (rw_ctx _ Hr1 _ _ Hk) as [Hcw Hlt].
    pose proof (add_fragment_zero_copy_spec _ key c h buf fp sz (rw_config _ Hr1) Hcw Hlt ltac:(lia) Hsz Hfp) as Hadd.
    destruct (add_fragment_zero_copy _ _ _ _ _ _) as [[[c'|f] kept]|] eqn:Ea; cbn [mbind option_bind]; [| |done].
    + destruct (process_suffix clock r1 key c') as [[r2 evs2]|] eqn:E2; cbn [mbind option_bind]; [|done].
      intros [= <- _]. rewrite <-Hb. eapply balance_suffix; [apply Hr1|apply Hadd|congruence|done].
    + intros [= <- _]. apply add_fragment_zero_copy_neutral in Ea as [? ?]. by rewrite balance_upd_stats.
  - unfold check_timeouts. cbn [get_current_time_ms]. intros E.
    apply balance_complete_keys in E; [done|]. destruct Hr; by constructor.
  - unfold flush_all. destruct (complete_keys clock r order) as [[r2 evs2]|] eqn:E; [|done].
    intros [= <- _]. by eapply balance_complete_keys.
  - by intros [= <- _].
Qed.

(** ** Theorems *)

(** The content of an emitted frame.  For a well-formed context the assembly
    succeeds, the announced size is the length of the data, the data is the
    concatenation of one slot per fragment index, the slot of a fragment that
    arrived is its payload, the slot of a missing fragment is zero fill of the
    inferred size, and the missing indices are exactly the fragments that did
    not arrive (with data), in increasing order. *)
Theorem complete_reassembly_frame (clock : nat -> Z) (r : Reassembler) (key : ReassemblyKey)
    (c : ReassemblyContext) (is_timeout : bool)
    (Hr : reasm_wf r) (Hk : contexts_ r !! key = Some c) (Hcb : callback_ r = true) :
  exists r' evs f slots,
    complete_reassembly clock r key c is_timeout = Some (r', evs) /\
    frames_out evs = [f] /\ contexts_ r' = delete key (contexts_ r) /\
    frame_key f = key /\ frame_data f = concat slots /\
    frame_total_size f = Z.of_nat (length (frame_data f)) /\
    length slots = Z.to_nat (ctx_total_frags c) /\
    (forall i sl, slots !! i = Some sl ->
       (forall s g d, has_fragment c i -> fragment_sizes c !! i = Some s ->
          fragment_refs c !! i = Some g -> data g = Some d -> sl = take (Z.to_nat s) d) /\
       (~ has_fragment c i ->
          sl = replicate (Z.to_nat (infer_missing_fragment_size c i (config_ r)
                 (popcount16 (key_channel_mask key)) (key_data_type key))) 0)) /\
    (forall i, i ∈ missing_frag_indices f <->
       (i < Z.to_nat (ctx_total_frags c))%nat /\ ~ has_fragment c i) /\
    missing_fragments_count f = Z.of_nat (length (missing_frag_indices f)) /\
    frame_is_complete f = bool_decide (missing_frag_indices f = []).
Proof.
  pose proof (rw_config _ Hr) as Hcfg. destruct (rw_ctx _ Hr _ _ Hk) as [Hc _].
  rewrite (complete_reassembly_eq clock r key c c is_timeout Hcfg Hc Hk), Hcb.
  eexists _, _, _, (slot_bytes (config_ r) c key <$> seq 0 (Z.to_nat (ctx_total_frags c))).
  split; [done|]. rewrite frames_out_app, frames_out_released, frames_out_frame.
  rewrite after_complete_contexts. split_and!; try done.
  - by rewrite length_fmap, length_seq.
  - intros i sl. rewrite list_lookup_fmap. intros (j & Hj & ->)%fmap_Some.
    apply lookup_seq in Hj as [-> Hj]. cbn [Nat.add]. split.
    + intros s g d Hh Hs Hg Hd. by eapply slot_bytes_present.
    + intros Hh. apply slot_bytes_absent. apply not_false_is_true.
      by rewrite (absent_spec _ _ _ _ Hcfg Hc Hj).
  - intros i. cbn [missing_frag_indices frame_of]. rewrite list_elem_of_filter, elem_of_seq.
    split.
    + intros [Ha [_ Hi]]. split; [lia|]. rewrite <-(absent_spec _ _ _ _ Hcfg Hc) by lia. congruence.
    + intros [Hi Hh]. split; [|lia]. apply not_false_is_true.
      by rewrite (absent_spec _ _ _ _ Hcfg Hc Hi).
Qed.

Lemma complete_reassembly_frame_witness :
  exists r' evs f slots c,
    contexts_ sample_pending !! sample_key = Some c /\
    complete_reassembly (fun _ => 5) sample_pending sample_key c true = Some (r', evs) /\
    frames_out evs = [f] /\ frame_data f = concat slots /\
    forall i, i ∈ missing_frag_indices f <-> (i < 2)%nat /\ ~ has_fragment c i.
Proof.
  destruct (complete_reassembly_frame (fun _ => 5) sample_pending sample_key sample_context true
    sample_pending_wf ltac:(vm_compute; reflexivity) ltac:(vm_compute; reflexivity))
    as (r' & evs & f & slots & E & Hf & _ & _ & Hd & _ & _ & _ & Hm & _).
  exists r', evs, f, slots, sample_context. split; [vm_compute; reflexivity|].
  split; [exact E|]. split; [exact Hf|]. split; [exact Hd|]. exact Hm.
Defined.

(** C30: a timeout check removes exactly the contexts past their deadline.  With
    the traversal order of the map any permutation of its keys, the check
    removes a context exactly when the 64-bit difference between now and its
    first fragment reaches the timeout, keeps every other context as it is, and
    hands over one frame per removed context, in traversal order. *)
Theorem check_timeouts_exact (clock : nat -> Z) (r : Reassembler) (order : list ReassemblyKey)
    (Hr : reasm_wf r) (Hcb : callback_ r = true)
    (Hord : order ≡ₚ (map_to_list (contexts_ r)).*1) :
  let now := u64 (clock (clock_reads r)) in
  let expired c := check_timeout c now (timeout_ms_runtime_ r) in
  exists r' evs,
    check_timeouts clock r order = Some (r', evs) /\ reasm_wf r' /\
    (forall k, contexts_ r' !! k =
       c ← contexts_ r !! k; if expired c then None else Some c) /\
    frames_out evs =
      omap (fun k => c ← contexts_ r !! k;
                     if expired c then Some (frame_of (config_ r) k c) else None) order.
Proof.
  intros now expired. unfold check_timeouts. cbn [get_current_time_ms].
  set (r1 := mkReassembler _ _ _ _ _ _ _ _). fold now.
  assert (Hr1 : reasm_wf r1) by (destruct Hr; by constructor).
  set (P k := match contexts_ r1 !! k with
              | Some c => check_timeout c now (timeout_ms_runtime_ r1) | None => false end = true).
  assert (Hnd : NoDup order) by (rewrite Hord; apply NoDup_fst_map_to_list).
  destruct (complete_keys_spec clock (filter P order) r1 Hr1) as (r' & evs & E & Hr' & _ & Hctx).
  exists r', evs. split; [exact E|]. split; [done|]. split.
  - intros k. rewrite Hctx. change (contexts_ r1) with (contexts_ r).
    destruct (contexts_ r !! k) as [c|] eqn:Hk; cbn [mbind option_bind]; [|by case_decide].
    assert (Hin : k ∈ order).
    { rewrite Hord. apply list_elem_of_fmap. exists (k, c). split; [done|]. by apply elem_of_map_to_list. }
    destruct (expired c) eqn:Ex.
    + rewrite decide_True; [done|]. apply list_elem_of_filter. split; [|done].
      unfold P. change (contexts_ r1) with (contexts_ r). by rewrite Hk.
    + rewrite decide_False; [done|]. rewrite list_elem_of_filter. unfold P.
      change (contexts_ r1) with (contexts_ r). rewrite Hk. unfold expired in Ex.
      intros [? _]. change (timeout_ms_runtime_ r1) with (timeout_ms_runtime_ r) in *. congruence.
  - rewrite (complete_keys_frames clock (filter P order) r1 r' evs Hr1) by
      (try apply list.NoDup_filter; done).
    change (contexts_ r1) with (contexts_ r). change (config_ r1) with (config_ r).
    clear -Hr. induction order as [|k order IH]; [done|]. rewrite filter_cons.
    cbn [omap list_omap]. rewrite <-IH. clear IH. unfold P, expired.
    change (contexts_ r1) with (contexts_ r). change (timeout_ms_runtime_ r1) with (timeout_ms_runtime_ r).
    destruct (contexts_ r !! k) as [c|] eqn:Hk; cbn [mbind option_bind]; [|done].
    destruct (check_timeout c now (timeout_ms_runtime_ r)); cbn [decide];
      [rewrite decide_True by done|rewrite decide_False by done]; cbn [omap list_omap]; by rewrite ?Hk.
Qed.

Lemma check_timeouts_exact_witness :
  exists r' evs,
    check_timeouts (fun _ => 105) sample_pending [sample_key] = Some (r', evs) /\ reasm_wf r' /\
    contexts_ r' !! sample_key = None /\
    frames_out evs = [frame_of sample_config sample_key sample_context].
Proof.
  destruct (check_timeouts_exact (fun _ => 105) sample_pending [sample_key] sample_pending_wf
    ltac:(vm_compute; reflexivity) ltac:(vm_compute; reflexivity)) as (r' & evs & E & Hw & Hc & Hf).
  exists r', evs. split; [exact E|]. split; [exact Hw|]. split.
  - rewrite Hc. vm_compute. reflexivity.
  - rewrite Hf. vm_compute. reflexivity.
Defined.

(** Late fragments.  After a context has timed out, a fragment of the same
    key that arrives before the freeze expires (timeout after the completion)
    is counted as late and changes no context: the frame is not opened again. *)
Theorem late_fragment_dropped (clock : nat -> Z) (r : Reassembler) (key : ReassemblyKey)
    (c : ReassemblyContext) (p : ParsedPacket) (h : DataSpecificHeader)
    (Hr : reasm_wf r) (Hk : contexts_ r !! key = Some c) (Hp : packet_ok p)
    (Hparse : parse_specific_header (config_ r) (payload p) (payload_len (header p)) = Some h)
    (Hloc : is_Some (locate_fragment p h)) (Hkey : extract_key (header p) h = key)
    (Htime : u64 (clock (S (clock_reads r)))
             < u64 (clock (clock_reads r)) +[64] timeout_ms_runtime_ r) :
  exists r1 evs r2,
    complete_reassembly clock r key c true = Some (r1, evs) /\
    process_packet clock r1 p = Some (r2, []) /\
    contexts_ r2 = delete key (contexts_ r) /\
    late_fragments (stats_ r2) = inc64 (late_fragments (stats_ r)).
Proof.
  pose proof (rw_config _ Hr) as Hcfg. destruct (rw_ctx _ Hr _ _ Hk) as [Hc _].
  rewrite (complete_reassembly_eq clock r key c c true Hcfg Hc Hk).
  destruct (after_complete_frozen clock r key c (rw_next _ Hr)) as [Hin Hrd].
  set (r1 := after_complete clock r key c true) in *. eexists r1, _.
  assert (Hc1 : config_ r1 = config_ r) by apply after_complete_config.
  assert (Hl1 : late_fragments (stats_ r1) = late_fragments (stats_ r)).
  { unfold r1, after_complete. cbn; unfold add_frozen_key; repeat case_match; done. }
  assert (Hctx1 : contexts_ r1 = delete key (contexts_ r)) by apply after_complete_contexts.
  clearbody r1. unfold process_packet, process_prefix. cbn [config_ upd_stats]. rewrite Hc1, Hparse.
  pose proof (parse_specific_header_Some _ _ _ Hp Hparse) as (pl & _ & _ & _ & Htf & _ & _).
  destruct (Z.eqb_spec (total_frags h) 0); [lia|].
  destruct (Z.ltb_spec (max_total_frags (config_ r)) (total_frags h)); [lia|]. cbn [orb].
  destruct Hloc as [[[fp sz] snap] ->]. rewrite Hkey. cbn [get_current_time_ms frozen_keys_ring_].
  change (clock_reads (upd_stats inc_total r1)) with (clock_reads r1). rewrite Hrd.
  change (frozen_keys_ring_ (upd_stats inc_total r1)) with (frozen_keys_ring_ r1).
  pose proof (is_key_frozen_hit _ key (u64 (clock (S (clock_reads r)))) _ Hin eq_refl eq_refl Htime) as Hf.
  destruct (is_key_frozen _ _ _) as [b ring]. cbn in Hf. subst b.
  eexists. split; [done|]. split; [done|]. split; [exact Hctx1|].
  cbn. by rewrite Hl1.
Qed.

Lemma late_fragment_dropped_witness :
  exists r1 evs r2,
    complete_reassembly (fun _ => 5) sample_pending sample_key sample_context true = Some (r1, evs) /\
    process_packet (fun _ => 5) r1 (sample_packet 0 2 2 [] [1;2;3]) = Some (r2, []) /\
    contexts_ r2 = delete sample_key (contexts_ sample_pending) /\
    late_fragments (stats_ r2) = inc64 (late_fragments (stats_ sample_pending)).
Proof.
  eapply (late_fragment_dropped (fun _ => 5) sample_pending sample_key sample_context);
    [exact sample_pending_wf|vm_compute; reflexivity|apply sample_packet_ok; reflexivity
    |vm_compute; reflexivity|vm_compute; eauto|vm_compute; reflexivity|vm_compute; reflexivity].
Defined.

(** Duplicates are idempotent.  A fragment whose index has already been
    received by the context of its key is counted as a duplicate, emits
    nothing and leaves every context as it was; only the snapshot that a
    repeated tail carries is stored again. *)
Theorem duplicate_fragment_ignored (clock : nat -> Z) (r : Reassembler) (c : ReassemblyContext)
    (p : ParsedPacket) (h : DataSpecificHeader) (fp : bytes) (sz : Z) (s : option ExecutionSnapshot)
    (Hr : reasm_wf r) (Hp : packet_ok p)
    (Hparse : parse_specific_header (config_ r) (payload p) (payload_len (header p)) = Some h)
    (Hloc : locate_fragment p h = Some (fp, sz, s))
    (Hk : contexts_ r !! extract_key (header p) h = Some c)
    (Hnf : not_frozen (frozen_keys_ring_ r) (extract_key (header p) h))
    (Hbit : received_fragments c !! Z.to_nat (frag_index h) = Some true) :
  let c' := match s with Some s => set_snapshot c s | None => c end in
  exists r',
    process_packet clock r p = Some (r', []) /\
    contexts_ r' = <[extract_key (header p) h := c']> (contexts_ r) /\
    duplicate_fragments (stats_ r') = inc64 (duplicate_fragments (stats_ r)).
Proof.
  intros c'. unfold process_packet, process_prefix. cbn [config_ upd_stats]. rewrite Hparse.
  pose proof (parse_specific_header_Some _ _ _ Hp Hparse) as (pl & _ & _ & _ & Htf & Hfi & _).
  destruct (Z.eqb_spec (total_frags h) 0); [lia|].
  destruct (Z.ltb_spec (max_total_frags (config_ r)) (total_frags h)); [lia|]. cbn [orb].
  rewrite Hloc. cbn [get_current_time_ms frozen_keys_ring_].
  change (frozen_keys_ring_ (upd_stats inc_total r)) with (frozen_keys_ring_ r).
  set (key := extract_key (header p) h) in *. set (now := u64 _).
  destruct (is_key_frozen_not (frozen_keys_ring_ r) key now Hnf) as [Hf1 _].
  destruct (is_key_frozen (frozen_keys_ring_ r) key now) as [b ring]. cbn in Hf1. subst b.
  unfold get_or_create_context. cbn [contexts_ set_frozen upd_stats]. rewrite Hk.
  destruct (rw_ctx _ Hr _ _ Hk) as [Hcw _]. pose proof (total_le_1024 _ _ _ (rw_config _ Hr) Hcw).
  assert (Hlt : (Z.to_nat (frag_index h) < Z.to_nat (ctx_total_frags c))%nat).
  { destruct (le_lt_dec (Z.to_nat (ctx_total_frags c)) (Z.to_nat (frag_index h))) as [Hle|]; [|done].
    by apply (cw_high _ _ _ Hcw) in Hle. }
  fold c'. assert (Hc' : ctx_total_frags c' = ctx_total_frags c /\
    received_fragments c' = received_fragments c) by (unfold c'; by destruct s).
  destruct Hc' as [Ht' Hr']. unfold add_fragment. rewrite Ht', Hr'.
  destruct (Z.leb_spec (ctx_total_frags c) (frag_index h)); [lia|].
  destruct (Z.leb_spec 1024 (frag_index h)); [lia|]. cbn [orb].
  unfold bitset_test. rewrite Hbit. cbn [mbind option_bind]. eexists. by split_and!.
Qed.

Lemma duplicate_fragment_ignored_witness :
  exists r',
    process_packet (fun _ => 5) sample_pending (sample_packet 1 2 2 (replicate 40 0) [4;5]) = Some (r', []) /\
    contexts_ r' = <[sample_key := set_snapshot sample_context ExecutionSnapshot_zero]>
      (contexts_ sample_pending) /\
    duplicate_fragments (stats_ r') = 1.
Proof.
  assert (Hnf : not_frozen (frozen_keys_ring_ sample_pending) sample_key).
  { unfold not_frozen. vm_compute. repeat (apply Forall_cons_2; [discriminate|]). apply Forall_nil_2. }
  destruct (duplicate_fragment_ignored (fun _ => 5) sample_pending sample_context
    (sample_packet 1 2 2 (replicate 40 0) [4;5]) (mkDataSpecificHeader 1 2 3 0 0 0 0 0 5 1 2 2)
    [4;5] 2 (Some ExecutionSnapshot_zero) sample_pending_wf
    ltac:(apply sample_packet_ok; reflexivity) ltac:(vm_compute; reflexivity)
    ltac:(vm_compute; reflexivity) ltac:(vm_compute; reflexivity) Hnf
    ltac:(vm_compute; reflexivity)) as (r' & E & Hc & Hd).
  exists r'. split; [exact E|]. split; [exact Hc|]. rewrite Hd. vm_compute. reflexivity.
Defined.

(** Keys do not interfere.  Processing a packet of one key leaves the
    context of every other key exactly as it was, and any frame it completes
    belongs to the packet's own key. *)
Theorem keys_do_not_interfere (clock : nat -> Z) (r r' : Reassembler) (p : ParsedPacket)
    (h : DataSpecificHeader) (evs : list Event)
    (Hr : reasm_wf r) (Hp : packet_ok p)
    (Hparse : parse_specific_header (config_ r) (payload p) (payload_len (header p)) = Some h)
    (Hrun : process_packet clock r p = Some (r', evs)) :
  (forall k, k <> extract_key (header p) h -> contexts_ r' !! k = contexts_ r !! k) /\
  Forall (fun f => frame_key f = extract_key (header p) h) (frames_out evs).
Proof.
  revert Hrun. unfold process_packet. pose proof (process_prefix_spec clock r p Hr Hp) as Hpre.
  destruct (process_prefix clock r p) as [[[[[[key c] h'] fp] sz] r1]|r1] eqn:Epre.
  2: { destruct Hpre as (_ & Hc & _). intros [= <- <-]. split; [by rewrite Hc|constructor]. }
  assert (h' = h) as -> by (apply process_prefix_header in Epre; congruence).
  destruct Hpre as [Hr1 Hcf Hc -> Hi Hsz Hfp Hfrm _].
  destruct (rw_ctx _ Hr1 _ _ Hc) as [Hcw Hlt].
  pose proof (add_fragment_spec _ _ c h fp sz (rw_config _ Hr1) Hcw Hlt ltac:(lia) Hsz Hfp) as Hadd.
  destruct (add_fragment _ _ _ _ _) as [[c'|cnt]|]; [| |done]; cbn [mbind option_bind].
  - destruct Hadd as (Hc' & Hcnt & Htot). intros E. split; [|by eapply process_suffix_key].
    destruct (process_suffix_spec clock r1 _ c' c Hr1 Hc Hc') as (r2 & evs2 & E2 & _ & _ & Hfr2); [lia|].
    assert (r2 = r') as -> by congruence. intros k Hk. rewrite Hfr2 by done. by apply Hfrm.
  - intros [= <- <-]. split; [done|constructor].
Qed.

Lemma keys_do_not_interfere_witness :
  contexts_ sample_pending !! ReassemblyKey_zero =
  contexts_ (Reassembler_init sample_config true) !! ReassemblyKey_zero.
Proof.
  refine (proj1 (keys_do_not_interfere (fun _ => 5) (Reassembler_init sample_config true)
    sample_pending (sample_packet 1 2 2 (replicate 40 0) [4;5]) _ []
    (Reassembler_init_wf _ _ sample_config_ok) ltac:(apply sample_packet_ok; reflexivity)
    ltac:(vm_compute; reflexivity) ltac:(vm_compute; reflexivity)) ReassemblyKey_zero _).
  discriminate.
Defined.

(** The context counters.  Along any sequence of operations without a
    statistics reset, contexts created minus contexts destroyed (64-bit
    counters) is the number of live contexts, which never exceeds the
    configured maximum. *)
Theorem context_counters_balance (clock : nat -> Z) (cfg : ReassemblerConfig) (cb : bool)
    (ops : list Op) (r' : Reassembler) (evs : list Event)
    (Hcfg : config_ok cfg) (Hops : Forall op_ok ops)
    (Hres : forallb (fun o => negb (is_reset o)) ops = true)
    (Hrun : run clock (Reassembler_init cfg cb) ops = Some (r', evs)) :
  contexts_created (stats_ r') -[64] contexts_destroyed (stats_ r') = Z.of_nat (size (contexts_ r')) /\
  Z.of_nat (size (contexts_ r')) <= max_contexts cfg.
Proof.
  assert (Hgen : forall ops r r' evs, reasm_wf r -> Forall op_ok ops ->
    forallb (fun o => negb (is_reset o)) ops = true -> run clock r ops = Some (r', evs) ->
    balance r' = balance r /\ reasm_wf r' /\ config_ r' = config_ r).
  { clear. induction ops as [|o ops IH]; intros r r' evs Hr Hops Hres; cbn [run].
    { by intros [= <- _]. }
    apply Forall_cons_1 in Hops as [Ho Hops]. cbn [forallb] in Hres. apply andb_true_iff in Hres as [Hno Hres].
    destruct (run_op_spec clock r o Hr Ho) as (r1 & evs1 & E1 & Hr1 & Hc1). rewrite E1. cbn [mbind option_bind].
    destruct (run clock r1 ops) as [[r2 evs2]|] eqn:E2; [|done]. intros [= <- _].
    destruct (IH r1 r2 evs2 Hr1 Hops Hres E2) as (Hb & Hw & Hc).
    split_and!; [|done|congruence]. rewrite Hb. eapply balance_run_op; [done|done| |done].
    by apply negb_true_iff. }
  destruct (Hgen ops _ r' evs (Reassembler_init_wf cfg cb Hcfg) Hops Hres Hrun) as (Hb & Hw & Hc).
  destruct Hw as [_ _ Hcap _ _]. rewrite Hc in Hcap. split; [|exact Hcap].
  change (max_contexts (config_ (Reassembler_init cfg cb))) with (max_contexts cfg) in Hcap.
  change (balance (Reassembler_init cfg cb)) with 0 in Hb. unfold balance in Hb.
  pose proof (co_contexts _ Hcfg). wrap_lia.
Qed.

Lemma context_counters_balance_witness :
  contexts_created (stats_ sample_pending) -[64] contexts_destroyed (stats_ sample_pending) =
    Z.of_nat (size (contexts_ sample_pending)) /\
  Z.of_nat (size (contexts_ sample_pending)) <= 2.
Proof.
  apply (context_counters_balance (fun _ => 5) sample_config true
    [OpPacket (sample_packet 1 2 2 (replicate 40 0) [4;5])] sample_pending []);
    [exact sample_config_ok| |reflexivity|vm_compute; reflexivity].
  apply Forall_cons_2; [apply sample_packet_ok; reflexivity|apply Forall_nil_2].
Defined.

(** A received empty tail is reported as missing.  The protocol check admits
    a tail fragment with no payload bytes, but assembly takes an empty slot for
    a missing one: when all fragments have arrived and the tail is empty, the
    frame is still marked incomplete, lists the tail as missing, and is counted
    in [frames_incomplete] rather than [frames_completed]. *)
Theorem empty_tail_reported_missing (clock : nat -> Z) (r : Reassembler) (key : ReassemblyKey)
    (c : ReassemblyContext)
    (Hr : reasm_wf r) (Hk : is_Some (contexts_ r !! key)) (Hcb : callback_ r = true)
    (Hc : ctx_wf (config_ r) key c) (Hall : received_count c = ctx_total_frags c)
    (Htail : fragment_sizes c !! (Z.to_nat (ctx_total_frags c) - 1)%nat = Some 0) :
  exists r' evs f,
    complete_reassembly clock r key c false = Some (r', evs) /\ frames_out evs = [f] /\
    received_fragments c !! (Z.to_nat (ctx_total_frags c) - 1)%nat = Some true /\
    (Z.to_nat (ctx_total_frags c) - 1)%nat ∈ missing_frag_indices f /\
    frame_is_complete f = false /\
    frames_completed (stats_ r') = frames_completed (stats_ r) /\
    frames_incomplete (stats_ r') = inc64 (frames_incomplete (stats_ r)).
Proof.
  pose proof (rw_config _ Hr) as Hcfg. destruct Hk as [c0 Hk].
  rewrite (complete_reassembly_eq clock r key c c0 false Hcfg Hc Hk), Hcb.
  pose proof (total_le_1024 _ _ _ Hcfg Hc). set (n := Z.to_nat (ctx_total_frags c)) in *.
  assert (Hin : (n - 1)%nat ∈ missing_frag_indices (frame_of (config_ r) key c)).
  { cbn [missing_frag_indices frame_of]. rewrite list_elem_of_filter, elem_of_seq. split; [|lia].
    apply not_false_is_true. rewrite (absent_spec _ _ _ _ Hcfg Hc) by lia.
    intros (_ & s & Hs & ?). assert (s = 0) by congruence. lia. }
  eexists _, _, _. split; [done|]. rewrite frames_out_app, frames_out_released, frames_out_frame.
  split; [done|]. split; [|split; [exact Hin|]].
  - apply (count_true_full _ n); [|apply Nat2Z.inj; rewrite <-(cw_count _ _ _ Hc); lia|lia].
    intros i Hi. by apply (cw_high _ _ _ Hc).
  - set (f := frame_of (config_ r) key c) in *.
    assert (Hm : missing_fragments_count f = Z.of_nat (length (missing_frag_indices f))) by done.
    assert (Hic : frame_is_complete f = bool_decide (missing_frag_indices f = [])) by done.
    rewrite Hic. unfold after_complete. fold f. rewrite Hm.
    destruct (missing_frag_indices f) as [|m ms]; [by apply not_elem_of_nil in Hin|].
    destruct (Z.eqb_spec (Z.of_nat (length (m :: ms))) 0); [cbn in *; lia|]. by split_and!.
Qed.

(** Fragment 0 has arrived, then the tail of zero bytes. *)
Lemma empty_tail_reported_missing_witness :
  let r := sample_after (sample_packet 0 2 0 [] [1;2;3]) in
  exists c r' evs f,
    add_fragment sample_config (sample_context_of r) (mkDataSpecificHeader 1 2 3 0 0 0 0 0 5 1 2 0) [] 0
      = Some (inl c) /\
    complete_reassembly (fun _ => 5) r sample_key c false = Some (r', evs) /\ frames_out evs = [f] /\
    received_fragments c !! 1%nat = Some true /\ 1%nat ∈ missing_frag_indices f /\
    frame_is_complete f = false /\
    frames_completed (stats_ r') = frames_completed (stats_ r) /\
    frames_incomplete (stats_ r') = inc64 (frames_incomplete (stats_ r)).
Proof.
  intros r.
  assert (Hr : reasm_wf r) by (apply sample_after_wf, sample_packet_ok; reflexivity).
  assert (Hk : contexts_ r !! sample_key = Some (sample_context_of r)) by (vm_compute; reflexivity).
  destruct (rw_ctx _ Hr _ _ Hk) as [Hcw Hlt].
  pose proof (add_fragment_spec sample_config sample_key (sample_context_of r)
    (mkDataSpecificHeader 1 2 3 0 0 0 0 0 5 1 2 0) [] 0 sample_config_ok Hcw Hlt
    ltac:(vm_compute; discriminate) ltac:(lia) ltac:(vm_compute; discriminate)) as Hadd.
  destruct (add_fragment sample_config (sample_context_of r) (mkDataSpecificHeader 1 2 3 0 0 0 0 0 5 1 2 0)
    [] 0) as [[c|f]|] eqn:E; [|exfalso; vm_compute in E; discriminate|destruct Hadd].
  exists c. destruct (empty_tail_reported_missing (fun _ => 5) r sample_key c Hr
    ltac:(eauto) ltac:(vm_compute; reflexivity) ltac:(apply Hadd)) as (r' & evs & f & H).
  - vm_compute in E. injection E as <-. reflexivity.
  - vm_compute in E. injection E as <-. reflexivity.
  - exists r', evs, f. split; [reflexivity|].
    replace (Z.to_nat (ctx_total_frags c) - 1)%nat with 1%nat in H; [exact H|].
    vm_compute in E. injection E as <-. reflexivity.
Defined.

End ReassemblerLaws.
