(* ===== verification/ReassemblerZeroCopy.v ===== *)
(** The zero-copy path of the reassembler: it emits the same frames as the
    copying path, and every packet buffer it takes over is either still held by
    a context or has been returned to the pool. *)

From S2P Require Import Prelude Protocol Reassembler ReassemblerProps ReassemblerLaws.
Open Scope Z_scope.
Import Protocol Reassembler ReassemblerProps ReassemblerLaws.

Module ReassemblerZeroCopy.

(** ** Erasure of the buffer a fragment lives in *)

(** What a reference means to assembly: its bytes. *)
Definition erase_ref (f : FragmentRef) : FragmentRef :=
  mkFragmentRef None None (take (Z.to_nat (data_size f)) <$> data f) (data_size f).

Definition erase_ctx (c : ReassemblyContext) : ReassemblyContext :=
  mkReassemblyContext (ctx_key c) (ctx_total_frags c) (ctx_tail_bytes c) (first_frag_time_ms c)
    (ctx_data_timestamp c) (execution_snapshot c) (has_execution_snapshot c)
    (received_fragments c) (fragment_sizes c) (erase_ref <$> fragment_refs c)
    (total_payload_size c) (received_count c) (received_payload_bytes c) (is_complete c).

Definition erase (r : Reassembler) : Reassembler := upd_contexts (fmap erase_ctx) r.

(** What a client observes: the erased state and the emitted frames. *)
Definition obs (x : Reassembler * list Event) : Reassembler * list ReassembledFrame :=
  (erase x.1, frames_out x.2).

(** A run of zero-copy packets, each with its pool buffer. *)
Fixpoint run_zero_copy (clock : nat -> Z) (r : Reassembler) (ps : list (ParsedPacket * nat))
    : option (Reassembler * list Event) :=
  match ps with
  | [] => Some (r, [])
  | (p, b) :: ps =>
    '(r, evs, _) ← process_packet_zero_copy clock r p (Some b);
    '(r, evs') ← run_zero_copy clock r ps; Some (r, evs ++ evs')
  end.

(** Buffers held by the contexts, and buffers returned by events. *)
Definition held (r : Reassembler) : list nat :=
  concat (context_buffers <$> (map_to_list (contexts_ r)).*2).

Definition event_buffer (e : Event) : option nat :=
  match e with BufferReleased b => Some b | FrameOut _ => None end.

Definition released (evs : list Event) : list nat := omap event_buffer evs.

(** ** Assembly does not see the buffers *)

Lemma has_data_erase f : has_data (erase_ref f) = has_data f.
Proof. unfold has_data. by destruct f as [? ? [d|] ?]. Qed.

Lemma first_sized_erase idxs c : first_sized idxs (erase_ctx c) = first_sized idxs c.
Proof. induction idxs as [|i idxs IH]; cbn; [done|]. by rewrite IH. Qed.

Lemma infer_erase c i cfg n t :
  infer_missing_fragment_size (erase_ctx c) i cfg n t = infer_missing_fragment_size c i cfg n t.
Proof. unfold infer_missing_fragment_size. by rewrite first_sized_erase. Qed.

Lemma present_erase c i :
  present (erase_ctx c) i = option_map (option_map erase_ref) (present c i).
Proof.
  unfold present. cbn [erase_ctx received_fragments fragment_refs].
  destruct (bitset_test _ _) as [[|]|]; cbn; try done.
  rewrite list_lookup_fmap. destruct (fragment_refs c !! i) as [f|]; cbn; [|done].
  rewrite has_data_erase. by destruct (has_data f).
Qed.

Lemma erase_ref_bytes f :
  take (Z.to_nat (data_size (erase_ref f))) (default [] (data (erase_ref f))) =
  take (Z.to_nat (data_size f)) (default [] (data f)).
Proof. destruct f as [? ? [d|] s]; cbn; [by rewrite take_take, Nat.min_id|done]. Qed.

Lemma sum_sizes_erase cfg c key idxs acc :
  sum_sizes cfg (erase_ctx c) key idxs acc = sum_sizes cfg c key idxs acc.
Proof.
  revert acc. induction idxs as [|i idxs IH]; intros acc; cbn; [done|].
  unfold slot_size. rewrite present_erase, infer_erase.
  destruct (present c i) as [[f|]|]; cbn; by rewrite ?IH.
Qed.

Lemma fill_slots_erase cfg c key idxs buf pos missing :
  fill_slots cfg (erase_ctx c) key idxs buf pos missing = fill_slots cfg c key idxs buf pos missing.
Proof.
  revert buf pos missing. induction idxs as [|i idxs IH]; intros buf pos missing;
    cbn [fill_slots]; [done|].
  rewrite present_erase, infer_erase.
  destruct (present c i) as [[f|]|]; cbn [option_map mbind option_bind]; [| |done].
  - rewrite erase_ref_bytes. cbn [erase_ref data_size].
    destruct (heap_write _ _ _); cbn [mbind option_bind]; [apply IH|done].
  - destruct (heap_write _ _ _); cbn [mbind option_bind]; [apply IH|done].
Qed.

Lemma assemble_erase cfg key c : assemble cfg key (erase_ctx c) = assemble cfg key c.
Proof. unfold assemble. cbn [erase_ctx ctx_total_frags]. rewrite sum_sizes_erase.
  destruct (sum_sizes _ _ _ _ _); cbn [mbind option_bind]; [|done]. by rewrite fill_slots_erase. Qed.

(** ** Every step commutes with erasure *)

Lemma erase_put r k c : erase (upd_contexts <[k := c]> r) = upd_contexts <[k := erase_ctx c]> (erase r).
Proof. unfold erase, upd_contexts. cbn. by rewrite fmap_insert. Qed.

Lemma erase_ctx_set_snapshot c s : erase_ctx (set_snapshot c s) = set_snapshot (erase_ctx c) s.
Proof. done. Qed.

Lemma erase_add_frozen_key r k e : erase (add_frozen_key r k e) = add_frozen_key (erase r) k e.
Proof. unfold add_frozen_key. cbn. by destruct (refresh_frozen _ _ _). Qed.

Lemma erase_ref_default : erase_ref FragmentRef_default = FragmentRef_default.
Proof. done. Qed.

Lemma get_or_create_context_erase r key total tail ts now :
  get_or_create_context (erase r) key total tail ts now =
  let '(mc, r') := get_or_create_context r key total tail ts now in (erase_ctx <$> mc, erase r').
Proof.
  unfold get_or_create_context. cbn [erase upd_contexts contexts_ config_].
  rewrite lookup_fmap, map_size_fmap. destruct (contexts_ r !! key) as [c|]; cbn [fmap option_fmap option_map]; [done|].
  case_match; [done|]. unfold erase_ctx at 1. cbn. rewrite fmap_replicate, erase_ref_default. f_equal.
  unfold erase, upd_contexts, upd_stats. cbn. rewrite fmap_insert. unfold erase_ctx at 2. cbn.
  by rewrite fmap_replicate, erase_ref_default.
Qed.

Lemma process_prefix_erase clock r p :
  process_prefix clock (erase r) p =
  match process_prefix clock r p with
  | inr r' => inr (erase r')
  | inl (key, c, h, fp, sz, r') => inl (key, erase_ctx c, h, fp, sz, erase r')
  end.
Proof.
  unfold process_prefix. cbn [config_ upd_stats erase upd_contexts].
  destruct (parse_specific_header _ _ _) as [h|]; [|done].
  destruct (_ || _); [done|]. destruct (locate_fragment p h) as [[[fp sz] snap]|]; [|done].
  cbn [get_current_time_ms frozen_keys_ring_ clock_reads upd_stats erase upd_contexts].
  destruct (is_key_frozen _ _ _) as [[|] ring]; [done|].
  set (r0 := set_frozen ring (frozen_keys_next_insert_ r)
    (get_current_time_ms clock (upd_stats inc_total r)).2).
  repeat match goal with |- context [get_or_create_context ?x] =>
    lazymatch x with
    | erase r0 => fail
    | r0 => fail
    | _ => first [change x with r0|change x with (erase r0)]
    end end.
  rewrite get_or_create_context_erase.
  match goal with |- context [get_or_create_context r0 ?k ?t ?tl ?ts ?now] =>
    destruct (get_or_create_context r0 k t tl ts now) as [[c|] r2] end; [|done].
  cbn [fmap option_fmap option_map]. destruct snap as [s|]; by rewrite erase_put.
Qed.

Lemma erase_store c i f g size :
  option_map erase_ref f = option_map erase_ref g ->
  erase_ctx (store_fragment c i f size) = erase_ctx (store_fragment c i g size).
Proof.
  intros Hfg. unfold erase_ctx, store_fragment. cbn.
  destruct f as [f|], g as [g|]; try done. f_equal.
  apply (inj Some) in Hfg. by rewrite !list_fmap_insert, Hfg.
Qed.

Lemma erase_ctx_store c i f size :
  erase_ctx (store_fragment (erase_ctx c) i f size) = erase_ctx (store_fragment c i f size).
Proof.
  unfold erase_ctx, store_fragment. cbn. f_equal.
  assert (Hid : forall g, erase_ref (erase_ref g) = erase_ref g).
  { intros [a b [d|] n]; unfold erase_ref; cbn; [by rewrite take_take, Nat.min_id|done]. }
  destruct f as [f|].
  - rewrite !list_fmap_insert, <-list_fmap_compose. f_equal. apply list_fmap_ext. intros. apply Hid.
  - rewrite <-list_fmap_compose. apply list_fmap_ext. intros. apply Hid.
Qed.

Lemma erase_idemp r : erase (erase r) = erase r.
Proof.
  unfold erase, upd_contexts. cbn. f_equal. rewrite <-map_fmap_compose. apply map_fmap_ext.
  intros k c _. cbn. unfold erase_ctx. cbn. f_equal. rewrite <-list_fmap_compose. apply list_fmap_ext.
  intros _ [a b [d|] n] _; unfold erase_ref; cbn; [by rewrite take_take, Nat.min_id|done].
Qed.

(** Outcomes are compared up to the buffers. *)
Definition same (x y : option (Reassembler * list Event)) : Prop := obs <$> x = obs <$> y.

Lemma complete_reassembly_erase clock r key c t :
  same (complete_reassembly clock (erase r) key (erase_ctx c) t)
       (complete_reassembly clock r key c t).
Proof.
  unfold same, complete_reassembly. cbn [erase upd_contexts config_]. rewrite assemble_erase.
  destruct (assemble _ _ _) as [f|]; cbn [mbind option_bind fmap option_fmap option_map]; [|done].
  set (m := missing_fragments_count f).
  set (r1 := if (m =? 0) && negb t then upd_stats inc_completed r else upd_stats (inc_incomplete m) r).
  set (e1 := if (m =? 0) && negb t then upd_stats inc_completed _ else _).
  assert (He1 : e1 = erase r1) by (unfold e1, r1; by destruct (_ && _)). rewrite He1. clear e1 He1.
  change (callback_ (erase r1)) with (callback_ r1).
  set (r2 := if t then _ else r1).
  set (e2 := if t then _ else erase r1).
  assert (He2 : e2 = erase r2).
  { unfold e2, r2. destruct t; [|done]. cbn [get_current_time_ms]. by rewrite erase_add_frozen_key. }
  rewrite He2. clear e2 He2. unfold destroy_context. cbn [erase upd_contexts contexts_].
  rewrite lookup_fmap. destruct (contexts_ r2 !! key) as [c0|]; cbn [fmap option_fmap option_map].
  - unfold obs. cbn [fst snd]. rewrite !frames_out_app, !frames_out_released.
    do 2 f_equal. unfold erase, upd_stats, upd_contexts. cbn. rewrite fmap_delete.
    f_equal. rewrite !fmap_delete. f_equal. exact (f_equal contexts_ (erase_idemp r2)).
  - unfold obs. cbn [fst snd]. f_equal. f_equal. apply erase_idemp.
Qed.

Lemma complete_reassembly_same clock r1 r2 key c1 c2 t :
  erase r1 = erase r2 -> erase_ctx c1 = erase_ctx c2 ->
  same (complete_reassembly clock r1 key c1 t) (complete_reassembly clock r2 key c2 t).
Proof.
  intros Hr Hc. unfold same. rewrite <-(complete_reassembly_erase clock r1), <-(complete_reassembly_erase clock r2).
  by rewrite Hr, Hc.
Qed.

Lemma process_suffix_same clock r1 r2 key c1 c2 :
  erase r1 = erase r2 -> erase_ctx c1 = erase_ctx c2 ->
  same (process_suffix clock r1 key c1) (process_suffix clock r2 key c2).
Proof.
  intros Hr Hc. unfold process_suffix.
  assert (check_complete c1 = check_complete c2) as ->.
  { unfold check_complete. by rewrite <-(f_equal received_count Hc : received_count c1 = received_count c2),
      <-(f_equal ctx_total_frags Hc : ctx_total_frags c1 = ctx_total_frags c2). }
  assert (He : erase (upd_contexts <[key := c1]> r1) = erase (upd_contexts <[key := c2]> r2))
    by (by rewrite !erase_put, Hr, Hc).
  destruct (check_complete c2); [by apply complete_reassembly_same|].
  unfold same. cbn. unfold obs. cbn. by rewrite He.
Qed.

(** The two paths take the same decision on every fragment. *)
Lemma add_fragment_same cfg c1 c2 h buf fp sz :
  erase_ctx c1 = erase_ctx c2 ->
  match add_fragment cfg c1 h fp sz, add_fragment_zero_copy cfg c2 h buf fp sz with
  | Some (inl c1'), Some (inl c2', _) => erase_ctx c1' = erase_ctx c2'
  | Some (inr f1), Some (inr f2, _) => f1 = f2
  | None, None => True
  | _, _ => False
  end.
Proof.
  intros Hc. unfold add_fragment, add_fragment_zero_copy.
  rewrite <-(f_equal ctx_total_frags Hc : ctx_total_frags c1 = ctx_total_frags c2),
    <-(f_equal received_fragments Hc : received_fragments c1 = received_fragments c2),
    <-(f_equal received_payload_bytes Hc : received_payload_bytes c1 = received_payload_bytes c2),
    <-(f_equal ctx_tail_bytes Hc : ctx_tail_bytes c1 = ctx_tail_bytes c2).
  destruct (_ || _); [done|].
  destruct (bitset_test _ _) as [[|]|]; cbn [mbind option_bind]; [done| |done].
  destruct (_ <? _); [done|]. destruct (is_tail_fragment h && _); [done|].
  destruct (negb _ && _); [done|].
  destruct (Z.ltb_spec 0 sz); rewrite <-(erase_ctx_store c1), <-(erase_ctx_store c2), Hc; [|done].
  apply erase_store. cbn. f_equal. unfold erase_ref. cbn. by rewrite take_take, Nat.min_id.
Qed.

Lemma process_same clock r1 r2 p buf :
  erase r1 = erase r2 ->
  same (process_packet clock r1 p)
       ('(r, evs, _) ← process_packet_zero_copy clock r2 p buf; Some (r, evs)).
Proof.
  intros Hr. unfold process_packet, process_packet_zero_copy.
  pose proof (process_prefix_erase clock r1 p) as H1. pose proof (process_prefix_erase clock r2 p) as H2.
  rewrite Hr, H2 in H1.
  destruct (process_prefix clock r1 p) as [[[[[[k1 c1] h1] fp1] sz1] s1]|s1],
    (process_prefix clock r2 p) as [[[[[[k2 c2] h2] fp2] sz2] s2]|s2]; try done.
  - apply (inj inl) in H1. apply pair_equal_spec in H1 as [H1 Hs'].
    apply pair_equal_spec in H1 as [H1 <-]. apply pair_equal_spec in H1 as [H1 <-].
    apply pair_equal_spec in H1 as [H1 <-]. apply pair_equal_spec in H1 as [<- Hc'].
    symmetry in Hc', Hs'.
    pose proof (add_fragment_same (config_ s1) c1 c2 h2 buf fp2 sz2 Hc') as Ha.
    rewrite <-(f_equal config_ Hs' : config_ s1 = config_ s2).
    destruct (add_fragment _ _ _ _ _) as [[c1'|f1]|],
      (add_fragment_zero_copy _ _ _ _ _ _) as [[[c2'|f2] kept]|]; cbn [mbind option_bind]; try done.
    + pose proof (process_suffix_same clock s1 s2 k2 c1' c2' Hs' Ha) as Hsuf. unfold same in *.
      rewrite Hsuf. destruct (process_suffix clock s2 k2 c2') as [[r' evs]|]; done.
    + subst f2. unfold same. cbn [fmap option_fmap option_map]. unfold obs. cbn [fst snd].
      by rewrite (f_equal (upd_stats f1) Hs' : erase (upd_stats f1 s1) = erase (upd_stats f1 s2)).
  - apply (inj inr) in H1. unfold same, obs. cbn [fmap option_fmap option_map fst snd mbind option_bind].
    by rewrite H1.
Qed.

(** ** Ownership of the pool buffers *)

Definition held_map (m : gmap ReassemblyKey ReassemblyContext) : list nat :=
  concat (context_buffers <$> (map_to_list m).*2).

Lemma concat_perm {A} (l1 l2 : list (list A)) : l1 ≡ₚ l2 -> concat l1 ≡ₚ concat l2.
Proof.
  induction 1 as [|x l1 l2 _ IH|x y l|l1 l2 l3 _ IH1 _ IH2]; cbn; [done| | |by etrans].
  - by rewrite IH.
  - rewrite !(assoc_L (++)). by rewrite (Permutation_app_comm x y).
Qed.

Lemma held_map_delete m k c :
  m !! k = Some c -> held_map m ≡ₚ context_buffers c ++ held_map (delete k m).
Proof.
  intros Hk. unfold held_map. rewrite <-(concat_perm _ _ (fmap_Permutation _ _ _
    (fmap_Permutation snd _ _ (map_to_list_delete m k c Hk)))). done.
Qed.

Lemma held_map_put m k c0 c :
  m !! k = Some c0 -> held_map (<[k := c]> m) ++ context_buffers c0 ≡ₚ held_map m ++ context_buffers c.
Proof.
  intros Hk. rewrite (held_map_delete (<[k := c]> m) k c), (held_map_delete m k c0 Hk)
    by apply lookup_insert_eq.
  rewrite delete_insert_eq. solve_Permutation.
Qed.

Lemma held_map_put_same m k c0 c :
  m !! k = Some c0 -> context_buffers c = context_buffers c0 -> held_map (<[k := c]> m) ≡ₚ held_map m.
Proof.
  intros Hk Hc. apply (Permutation_app_inv_r (context_buffers c0)).
  by rewrite held_map_put, Hc by done.
Qed.

Lemma held_map_new m k c : m !! k = None -> context_buffers c = [] -> held_map (<[k := c]> m) ≡ₚ held_map m.
Proof.
  intros Hk Hc. rewrite (held_map_delete (<[k := c]> m) k c) by apply lookup_insert_eq.
  rewrite Hc, delete_insert_id by done. done.
Qed.

Lemma released_app evs1 evs2 : released (evs1 ++ evs2) = released evs1 ++ released evs2.
Proof. apply omap_app. Qed.

Lemma released_bufs bufs : released (BufferReleased <$> bufs) = bufs.
Proof. unfold released. induction bufs as [|b bufs IH]; cbn; [done|]. by f_equal. Qed.

Lemma held_prefix clock r p :
  match process_prefix clock r p with
  | inr r' => held r' ≡ₚ held r
  | inl (key, c, _, _, _, r') => held r' ≡ₚ held r
  end.
Proof.
  unfold process_prefix. cbn [config_ upd_stats get_current_time_ms].
  destruct (parse_specific_header _ _ _) as [h|]; [|done]. destruct (_ || _); [done|].
  destruct (locate_fragment p h) as [[[fp sz] snap]|]; [|done].
  destruct (is_key_frozen _ _ _) as [[|] ring]; [done|].
  unfold get_or_create_context. cbn [contexts_ set_frozen upd_stats].
  destruct (contexts_ r !! _) as [c|] eqn:Hk.
  - apply (held_map_put_same _ _ c); [done|]. by destruct snap.
  - cbn [config_ set_frozen]. destruct (_ <=? _); [done|].
    change (held ?x) with (held_map (contexts_ x)). cbn [upd_contexts upd_stats contexts_ set_frozen].
    assert (Hb : forall n, omap pool_buffer (replicate n FragmentRef_default) = [])
      by (induction n as [|n IH]; [done|exact IH]).
    rewrite insert_insert_eq. apply held_map_new; [done|]. unfold context_buffers.
    destruct snap; apply Hb.
Qed.

Lemma held_add cfg key c h buf fp sz c' kept :
  config_ok cfg -> ctx_wf cfg key c -> 0 <= frag_index h ->
  add_fragment_zero_copy cfg c h buf fp sz = Some (inl c', kept) ->
  context_buffers c' ++ option_list kept ≡ₚ context_buffers c ++ option_list buf.
Proof.
  intros Hcfg Hc Hi. unfold add_fragment_zero_copy.
  destruct (Z.leb_spec (ctx_total_frags c) (frag_index h)) as [|Hit]; [done|].
  destruct (1024 <=? frag_index h); [done|]. cbn [orb].
  destruct (slot_lookup _ _ _ Hcfg Hc (Z.to_nat (frag_index h))) as (b & s & g & Hb & Hs & Hg & Hw); [lia|].
  unfold bitset_test. rewrite Hb. cbn [mbind option_bind]. destruct b; [done|]. destruct Hw as [_ ->].
  repeat case_match; intros [= <- <-]; [|done].
  unfold context_buffers. cbn [store_fragment fragment_refs option_list].
  rewrite (omap_insert_perm _ _ _ FragmentRef_default) by done. by rewrite app_nil_r.
Qed.

Lemma kept_rejected cfg c h buf fp sz f kept :
  add_fragment_zero_copy cfg c h buf fp sz = Some (inr f, kept) -> kept = buf.
Proof.
  unfold add_fragment_zero_copy. destruct (_ || _); [by intros [= _ <-]|].
  destruct (bitset_test _ _) as [[|]|]; cbn [mbind option_bind]; [by intros [= _ <-]| |done].
  repeat case_match; intros [= _ <-]; done.
Qed.

Lemma held_suffix clock r key c c0 r' evs :
  config_ok (config_ r) -> ctx_wf (config_ r) key c -> contexts_ r !! key = Some c0 ->
  process_suffix clock r key c = Some (r', evs) ->
  (held r' ++ released evs) ++ context_buffers c0 ≡ₚ held r ++ context_buffers c.
Proof.
  intros Hcfg Hc Hk. unfold process_suffix.
  change (held ?x) with (held_map (contexts_ x)). destruct (check_complete c).
  - rewrite (complete_reassembly_eq clock _ key c c false);
      [|done|done|cbn; by rewrite lookup_insert_eq].
    intros [= <- <-]. rewrite after_complete_contexts, released_app, released_bufs. cbn [upd_contexts contexts_].
    assert (released (if callback_ r then [FrameOut (frame_of (config_ r) key c)] else []) = []) as Hnil
      by (by destruct (callback_ r)).
    cbn [upd_contexts callback_ config_]. rewrite Hnil, delete_insert_eq, (held_map_delete _ _ _ Hk).
    cbn [app]. solve_Permutation.
  - intros [= <- <-]. cbn [upd_contexts contexts_]. rewrite app_nil_r. by apply held_map_put.
Qed.

Lemma run_zero_copy_same clock ps : forall r1 r2, erase r1 = erase r2 ->
  same (run clock r1 (OpPacket <$> ps.*1)) (run_zero_copy clock r2 ps).
Proof.
  induction ps as [|[p b] ps IH]; intros r1 r2 Hr.
    { unfold same, obs. cbn [run run_zero_copy fmap list_fmap option_fmap option_map fst snd]. by rewrite Hr. }
    cbn [run run_zero_copy fmap list_fmap run_op fst snd].
    pose proof (process_same clock r1 r2 p (Some b) Hr) as Hs. unfold same in *.
    destruct (process_packet clock r1 p) as [[s1 e1]|],
      (process_packet_zero_copy clock r2 p (Some b)) as [[[s2 e2] kept]|];
      cbn [mbind option_bind fmap option_fmap option_map] in *; try done.
    apply (inj Some), pair_equal_spec in Hs as [Hs He]. cbn [fst snd] in Hs, He.
    specialize (IH s1 s2 Hs).
    destruct (run clock s1 (OpPacket <$> ps.*1)) as [[t1 f1]|],
      (run_zero_copy clock s2 ps) as [[t2 f2]|];
      cbn [mbind option_bind fmap option_fmap option_map] in *; try done.
    apply (inj Some), pair_equal_spec in IH as [Ht Hf]. cbn [fst snd] in Ht, Hf.
    unfold obs. cbn [fst snd]. by rewrite !frames_out_app, He, Hf, Ht.
Qed.

(** ** Theorems *)

(** C29: the zero-copy path is equivalent to the copying path.  For every state
    and every sequence of packets with their buffers, processing them without
    copying and processing them with the copying entry point emit the same
    frames, in the same order, and leave states that differ only in where the
    fragments are stored; one faults exactly when the other does. *)
Theorem zero_copy_equivalent (clock : nat -> Z) (r : Reassembler) (ps : list (ParsedPacket * nat)) :
  obs <$> run_zero_copy clock r ps = obs <$> run clock r (OpPacket <$> ps.*1).
Proof.
  symmetry. by apply run_zero_copy_same.
Qed.

(** No packet buffer is lost or returned twice.  A call of the zero-copy
    entry point conserves buffers: those held by contexts afterwards, those
    returned to the pool during the call and the one left with the caller are
    together exactly those held before and the one passed in. *)
Theorem zero_copy_conserves_buffers (clock : nat -> Z) (r r' : Reassembler) (p : ParsedPacket)
    (buf kept : option nat) (evs : list Event) (Hr : reasm_wf r) (Hp : packet_ok p)
    (Hrun : process_packet_zero_copy clock r p buf = Some (r', evs, kept)) :
  held r' ++ released evs ++ option_list kept ≡ₚ held r ++ option_list buf.
Proof.
  revert Hrun. unfold process_packet_zero_copy. pose proof (held_prefix clock r p) as Hh.
  pose proof (process_prefix_spec clock r p Hr Hp) as Hpre.
  destruct (process_prefix clock r p) as [[[[[[key c] h] fp] sz] r1]|r1];
    [|by intros [= <- <- <-]; cbn; rewrite Hh].
  destruct Hpre as [Hr1 Hcf Hc _ Hi Hsz Hfp _ _]. destruct (rw_ctx _ Hr1 _ _ Hc) as [Hcw Hlt].
  pose proof (add_fragment_zero_copy_spec _ key c h buf fp sz (rw_config _ Hr1) Hcw Hlt
    ltac:(lia) Hsz Hfp) as Hadd.
  destruct (add_fragment_zero_copy _ _ _ _ _ _) as [[[c'|cnt] k]|] eqn:Ea; [| |done]; cbn [mbind option_bind].
  - destruct Hadd as (Hc' & _ & _).
    destruct (process_suffix clock r1 key c') as [[r2 evs2]|] eqn:Es; cbn [mbind option_bind]; [|done].
    intros [= <- <- <-].
    pose proof (held_suffix clock r1 key c' c r2 evs2 (rw_config _ Hr1) Hc' Hc Es) as Hsuf.
    pose proof (held_add _ key c h buf fp sz c' k (rw_config _ Hr1) Hcw ltac:(lia) Ea) as Ha.
    rewrite <-Hh. apply (Permutation_app_inv_r (context_buffers c)).
    transitivity ((held r1 ++ context_buffers c') ++ option_list k).
    + rewrite <-Hsuf. solve_Permutation.
    + rewrite <-!(assoc_L (++)), Ha. solve_Permutation.
  - intros [= <- <- <-]. apply kept_rejected in Ea as ->. cbn. by rewrite <-Hh.
Qed.

Lemma zero_copy_conserves_buffers_witness :
  exists r', process_packet_zero_copy (fun _ => 5) (Reassembler_init sample_config true)
      (sample_packet 1 2 2 (replicate 40 0) [4;5]) (Some 7%nat) = Some (r', [], None) /\
    held r' ++ [] ++ [] ≡ₚ [] ++ [7%nat].
Proof.
  eexists. split; [vm_compute; reflexivity|].
  eapply (zero_copy_conserves_buffers (fun _ => 5) (Reassembler_init sample_config true) _
    (sample_packet 1 2 2 (replicate 40 0) [4;5]) (Some 7%nat) None []);
    [exact (Reassembler_init_wf _ _ sample_config_ok)|apply sample_packet_ok; reflexivity
    |vm_compute; reflexivity].
Defined.

End ReassemblerZeroCopy.
