(* ===== verification/Reorderer.v ===== *)
(** [Reorderer] ([include/qdgz300/m01_receiver/pipeline/reorderer.h],
    [src/m01_receiver/pipeline/reorderer.cpp]): a ring of [window_size] slots
    with an occupancy bitmap, indexed from [base_index], the slot of the next
    expected sequence number.  Operations return the new state and the packets
    handed to the output callback.  The steady clock (nanoseconds) is read
    through [clock], indexed by the number of reads. *)

From S2P Require Import Prelude Protocol.
Open Scope Z_scope.
Import Protocol.

Module Reorderer.

(** ** Data *)

Record ReorderConfig := mkReorderConfig {
  window_size : Z;
  reorder_timeout_ms : Z;
  enable_zero_fill : bool
}.

Definition ReorderConfig_default : ReorderConfig := mkReorderConfig 512 50 true.

Record OrderedPacket := mkOrderedPacket {
  packet : ParsedPacket;
  owned_payload : option bytes;
  out_payload_size : Z;
  is_zero_filled : bool;
  is_incomplete_frame : bool;
  out_sequence_number : Z
}.

Record StoredPacket := mkStoredPacket {
  sequence : Z;
  stored_header : CommonHeader;
  stored_payload : option bytes;
  stored_payload_size : Z;
  occupied : bool
}.

Definition StoredPacket_default : StoredPacket :=
  mkStoredPacket 0 CommonHeader_zero None 0 false.

Record ReorderStats := mkReorderStats {
  packets_in_order : Z;
  packets_out_of_order : Z;
  packets_duplicate : Z;
  packets_zero_filled : Z;
  sequences_advanced : Z;
  current_buffer_size : Z
}.

Record Reorderer := mkReorderer {
  config_ : ReorderConfig;
  output_callback_ : bool;
  timeout_ms_runtime_ : Z;
  initialized : bool;
  next_expected_seq : Z;
  buffered_packets : Z;
  last_advance_ns : Z;
  base_index : nat;
  ring_slots : list StoredPacket;
  occupancy_bitmap : list Z;
  last_advance_time : Z;
  stats : ReorderStats;
  clock_reads : nat
}.

(** ** The occupancy bitmap *)

Definition bit_word (bm : list Z) (index : nat) : Z := default 0 (bm !! (index / 64)%nat).

Definition bit_mask (index : nat) : Z := Z.shiftl 1 (Z.of_nat (index mod 64)).

Definition bit_test (bm : list Z) (index : nat) : bool :=
  negb (Z.land (bit_word bm index) (bit_mask index) =? 0).

Definition bit_set (bm : list Z) (index : nat) : list Z :=
  <[(index / 64)%nat := Z.lor (bit_word bm index) (bit_mask index)]> bm.

Definition bit_clear (bm : list Z) (index : nat) : list Z :=
  <[(index / 64)%nat := Z.land (bit_word bm index) (u64 (Z.lnot (bit_mask index)))]> bm.

(** ** Operations *)

Section Ops.

Variable clock : nat -> Z.

Definition Reorderer_init (config : ReorderConfig) (callback : bool) : Reorderer :=
  let w := Z.to_nat (Z.max 1 (window_size config)) in
  mkReorderer config callback (reorder_timeout_ms config) false 0 0 0 0
    (replicate w StoredPacket_default) (replicate ((w + 63) / 64) 0) (clock 0%nat)
    (mkReorderStats 0 0 0 0 0 0) 1.

(** [next_expected_seq + 1], the next ring slot, and the time of the advance. *)
Definition step_window (r : Reorderer) (now : Z) (reads : nat) (s : ReorderStats)
    (slots : list StoredPacket) (bm : list Z) : Reorderer :=
  mkReorderer (config_ r) (output_callback_ r) (timeout_ms_runtime_ r) (initialized r)
    (next_expected_seq r +[32] 1) (buffered_packets r) (u64 now)
    ((base_index r + 1) mod length (ring_slots r))%nat slots bm now s reads.

(** The packet handed over for a stored or owned payload. *)
Definition ordered (h : CommonHeader) (payload : option bytes) (size : Z) (seq : Z) : OrderedPacket :=
  mkOrderedPacket
    (mkParsedPacket h (if size =? 0 then None else payload) (COMMON_HEADER_SIZE + size))
    payload size false (negb (Z.land (ext_flags h) 0x01 =? 0)) seq.

Definition emit (r : Reorderer) (o : OrderedPacket) : list OrderedPacket :=
  if output_callback_ r then [o] else [].

(** [packets_in_order++; sequences_advanced++]. *)
Definition count_in_order (s : ReorderStats) : ReorderStats :=
  mkReorderStats (inc64 (packets_in_order s)) (packets_out_of_order s) (packets_duplicate s)
    (packets_zero_filled s) (inc64 (sequences_advanced s)) (current_buffer_size s).

Definition count_duplicate (s : ReorderStats) : ReorderStats :=
  mkReorderStats (packets_in_order s) (packets_out_of_order s) (inc64 (packets_duplicate s))
    (packets_zero_filled s) (sequences_advanced s) (current_buffer_size s).

Definition set_buffer_size (s : ReorderStats) (n : Z) : ReorderStats :=
  mkReorderStats (packets_in_order s) (packets_out_of_order s) (packets_duplicate s)
    (packets_zero_filled s) (sequences_advanced s) n.

(** [advance_window]: hand over the run of stored packets at the head; [None] if
    the fuel does not suffice. *)
Fixpoint advance_loop (fuel : nat) (r : Reorderer) : option (Reorderer * list OrderedPacket) :=
  match fuel with
  | O => None
  | S fuel =>
    let head := base_index r in
    if negb (bit_test (occupancy_bitmap r) head) then Some (r, [])
    else
      let slot := default StoredPacket_default (ring_slots r !! head) in
      if negb (occupied slot) || negb (sequence slot =? next_expected_seq r) then Some (r, [])
      else
        let out := ordered (stored_header slot) (stored_payload slot) (stored_payload_size slot)
                     (next_expected_seq r) in
        let slots := <[head := mkStoredPacket 0 (stored_header slot) None 0 false]> (ring_slots r) in
        let s := stats r in
        let s := if 0 <? current_buffer_size s then set_buffer_size s (current_buffer_size s - 1) else s in
        let r' := step_window r (clock (clock_reads r)) (S (clock_reads r)) (count_in_order s)
                    slots (bit_clear (occupancy_bitmap r) head) in
        '(r'', outs) ← advance_loop fuel r';
        Some (r'', emit r out ++ outs)
  end.

Definition advance_window (r : Reorderer) : option (Reorderer * list OrderedPacket) :=
  advance_loop (S (length (ring_slots r))) r.

(** [buffered_packets = (uint32_t)current_buffer_size; current_buffer_size =
    buffered_packets]. *)
Definition sync_buffered (r : Reorderer) : Reorderer :=
  let b := u32 (current_buffer_size (stats r)) in
  mkReorderer (config_ r) (output_callback_ r) (timeout_ms_runtime_ r) (initialized r)
    (next_expected_seq r) b (last_advance_ns r) (base_index r) (ring_slots r) (occupancy_bitmap r)
    (last_advance_time r) (set_buffer_size (stats r) b) (clock_reads r).

Definition with_stats (r : Reorderer) (s : ReorderStats) : Reorderer :=
  mkReorderer (config_ r) (output_callback_ r) (timeout_ms_runtime_ r) (initialized r)
    (next_expected_seq r) (buffered_packets r) (last_advance_ns r) (base_index r) (ring_slots r)
    (occupancy_bitmap r) (last_advance_time r) s (clock_reads r).

(** The first packet fixes the expected sequence number. *)
Definition ensure_initialized (r : Reorderer) (seq : Z) : Reorderer :=
  if initialized r then r
  else mkReorderer (config_ r) (output_callback_ r) (timeout_ms_runtime_ r) true seq
         (buffered_packets r) (last_advance_ns r) (base_index r) (ring_slots r) (occupancy_bitmap r)
         (last_advance_time r) (stats r) (clock_reads r).

Definition insert_owned (r : Reorderer) (header : CommonHeader) (payload : option bytes)
    (payload_size : Z) : option (Reorderer * list OrderedPacket) :=
  let seq := sequence_number header in
  let r := ensure_initialized r seq in
  let expected := next_expected_seq r in
  if seq =? expected then
    let out := ordered header payload payload_size seq in
    let r' := step_window r (clock (clock_reads r)) (S (clock_reads r)) (count_in_order (stats r))
                (ring_slots r) (occupancy_bitmap r) in
    '(r'', outs) ← advance_window r';
    Some (sync_buffered r'', emit r out ++ outs)
  else if negb (is_sequence_newer seq expected) then Some (with_stats r (count_duplicate (stats r)), [])
  else
    let delta := seq -[32] expected in
    if u32 (Z.of_nat (length (ring_slots r))) <=? delta
    then Some (with_stats r (count_duplicate (stats r)), [])
    else
      let slot_index := ((base_index r + Z.to_nat delta) mod length (ring_slots r))%nat in
      if bit_test (occupancy_bitmap r) slot_index
      then Some (with_stats r (count_duplicate (stats r)), [])
      else
        let s := stats r in
        let s := mkReorderStats (packets_in_order s) (inc64 (packets_out_of_order s))
                   (packets_duplicate s) (packets_zero_filled s) (sequences_advanced s)
                   (inc64 (current_buffer_size s)) in
        Some (sync_buffered
          (mkReorderer (config_ r) (output_callback_ r) (timeout_ms_runtime_ r) (initialized r)
             (next_expected_seq r) (buffered_packets r) (last_advance_ns r) (base_index r)
             (<[slot_index := mkStoredPacket seq header payload payload_size true]> (ring_slots r))
             (bit_set (occupancy_bitmap r) slot_index) (last_advance_time r) s (clock_reads r)), []).

(** [insert] copies the payload and otherwise has the same body. *)
Definition insert (r : Reorderer) (p : ParsedPacket) : option (Reorderer * list OrderedPacket) :=
  let len := payload_len (header p) in
  let '(copy, size) :=
    match payload p with
    | Some pl => if 0 <? len then (Some (take (Z.to_nat len) pl), len) else (None, 0)
    | None => (None, 0)
    end in
  insert_owned r (header p) copy size.

Definition create_zero_filled_packet (seq_num : Z) : OrderedPacket :=
  mkOrderedPacket
    (mkParsedPacket
       (mkCommonHeader PROTOCOL_MAGIC seq_num 0 0 (PacketType_to_u8 DATA) PROTOCOL_VERSION 0 0 0 0 0 0
          [0;0;0;0]) None COMMON_HEADER_SIZE)
    None 0 true true seq_num.

Definition check_timeout (r : Reorderer) : option (Reorderer * list OrderedPacket) :=
  if negb (initialized r) then Some (r, [])
  else
    let now := clock (clock_reads r) in
    let reads := S (clock_reads r) in
    let elapsed := Z.quot (now - last_advance_time r) 1000000 in
    if elapsed <? timeout_ms_runtime_ r
    then Some (mkReorderer (config_ r) (output_callback_ r) (timeout_ms_runtime_ r) (initialized r)
           (next_expected_seq r) (buffered_packets r) (last_advance_ns r) (base_index r) (ring_slots r)
           (occupancy_bitmap r) (last_advance_time r) (stats r) reads, [])
    else
      let fill := enable_zero_fill (config_ r) in
      let gap := if fill then emit r (create_zero_filled_packet (next_expected_seq r)) else [] in
      let s := stats r in
      let s := mkReorderStats (packets_in_order s) (packets_out_of_order s) (packets_duplicate s)
                 (if fill then inc64 (packets_zero_filled s) else packets_zero_filled s)
                 (inc64 (sequences_advanced s)) (current_buffer_size s) in
      let r' := step_window r now reads s (ring_slots r) (occupancy_bitmap r) in
      '(r'', outs) ← advance_window r';
      Some (sync_buffered r'', gap ++ outs).

(** [std::sort] of the pending (sequence, slot) pairs by sequence. *)
Fixpoint insert_sorted (e : Z * nat) (l : list (Z * nat)) : list (Z * nat) :=
  match l with
  | [] => [e]
  | e' :: l' => if e'.1 <? e.1 then e' :: insert_sorted e l' else e :: e' :: l'
  end.

Definition sort_pending (l : list (Z * nat)) : list (Z * nat) := foldr insert_sorted [] l.

(** The stored packets, in ring order. *)
Definition pending (r : Reorderer) : list (Z * nat) :=
  omap (fun i => match ring_slots r !! i with
                 | Some slot => if bit_test (occupancy_bitmap r) i && occupied slot
                                then Some (sequence slot, i) else None
                 | None => None
                 end) (seq 0 (length (ring_slots r))).

(** The loop of [flush] over the sorted entries. *)
Definition flush_entry (acc : Reorderer * list OrderedPacket) (e : Z * nat)
    : Reorderer * list OrderedPacket :=
  let '(r, outs) := acc in
  let slot := default StoredPacket_default (ring_slots r !! e.2) in
  let out := ordered (stored_header slot) (stored_payload slot) (stored_payload_size slot)
               (sequence slot) in
  let s := stats r in
  (mkReorderer (config_ r) (output_callback_ r) (timeout_ms_runtime_ r) (initialized r)
     (next_expected_seq r) (buffered_packets r) (last_advance_ns r) (base_index r)
     (<[e.2 := mkStoredPacket 0 (stored_header slot) None 0 false]> (ring_slots r))
     (bit_clear (occupancy_bitmap r) e.2) (last_advance_time r)
     (mkReorderStats (inc64 (packets_in_order s)) (packets_out_of_order s) (packets_duplicate s)
        (packets_zero_filled s) (sequences_advanced s) (current_buffer_size s)) (clock_reads r),
   outs ++ emit r out).

Definition flush (r : Reorderer) : Reorderer * list OrderedPacket * Z :=
  let entries := sort_pending (pending r) in
  let '(r', outs) := fold_left flush_entry entries (r, []) in
  (mkReorderer (config_ r') (output_callback_ r') (timeout_ms_runtime_ r') (initialized r')
     (next_expected_seq r') 0 (last_advance_ns r') (base_index r') (ring_slots r')
     (occupancy_bitmap r') (last_advance_time r') (set_buffer_size (stats r') 0) (clock_reads r'),
   outs, Z.of_nat (length entries)).

Definition set_timeout_ms (r : Reorderer) (t : Z) : Reorderer :=
  mkReorderer (config_ r) (output_callback_ r) t (initialized r)
    (next_expected_seq r) (buffered_packets r) (last_advance_ns r) (base_index r) (ring_slots r)
    (occupancy_bitmap r) (last_advance_time r) (stats r) (clock_reads r).

Definition get_statistics (r : Reorderer) : ReorderStats := stats r.

End Ops.

End Reorderer.
