(* ===== verification/ReordererProps.v ===== *)
(** Correctness of the reorderer: the window invariant, termination of
    [advance_window], and the order of the output. *)

From S2P Require Import Prelude Protocol Reorderer.
Open Scope Z_scope.
Import Protocol Reorderer.

Module ReordererProps.

(** ** Bitmap *)

Lemma testbit_mask i b : 0 <= b -> Z.testbit (bit_mask i) b = (Z.of_nat (i mod 64) =? b).
Proof.
  intros Hb. unfold bit_mask. rewrite Z.shiftl_spec by lia.
  destruct (Z.eqb_spec (Z.of_nat (i mod 64)) b) as [<-|Hne]; [by rewrite Z.sub_diag|].
  destruct (Z.ltb_spec b (Z.of_nat (i mod 64))).
  - apply Z.testbit_neg_r. lia.
  - change 1 with (2 ^ 0). apply Z.pow2_bits_false. lia.
Qed.

Lemma bit_test_spec bm i : bit_test bm i = Z.testbit (bit_word bm i) (Z.of_nat (i mod 64)).
Proof.
  unfold bit_test. set (w := bit_word bm i). set (b := Z.of_nat (i mod 64)).
  destruct (Z.testbit w b) eqn:Hb.
  - apply negb_true_iff, Z.eqb_neq. intros H0. apply (f_equal (fun z => Z.testbit z b)) in H0.
    rewrite Z.land_spec, testbit_mask, Z.bits_0 in H0 by (unfold b; lia).
    fold b in H0. by rewrite Hb, Z.eqb_refl in H0.
  - apply negb_false_iff, Z.eqb_eq, Z.bits_inj'. intros n Hn.
    rewrite Z.land_spec, testbit_mask, Z.bits_0 by done.
    destruct (Z.eqb_spec (Z.of_nat (i mod 64)) n) as [<-|]; [fold b; by rewrite Hb|apply andb_false_r].
Qed.

Lemma same_index i j : (i / 64 = j / 64)%nat -> (i mod 64 = j mod 64)%nat -> i = j.
Proof. intros Hd Hm. rewrite (Nat.div_mod_eq i 64), (Nat.div_mod_eq j 64). by rewrite Hd, Hm. Qed.

Lemma bit_word_insert bm k v j :
  (k < length bm)%nat ->
  bit_word (<[k := v]> bm) j = if decide (k = j / 64)%nat then v else bit_word bm j.
Proof.
  intros Hk. unfold bit_word. case_decide as Hd.
  - subst k. by rewrite list_lookup_insert_eq.
  - by rewrite list_lookup_insert_ne.
Qed.

Lemma bit_word_same bm i j : (i / 64 = j / 64)%nat -> bit_word bm i = bit_word bm j.
Proof. unfold bit_word. by intros ->. Qed.

Lemma bit_test_set bm i j :
  (i / 64 < length bm)%nat -> bit_test (bit_set bm i) j = bool_decide (i = j) || bit_test bm j.
Proof.
  intros Hi. rewrite !bit_test_spec. unfold bit_set. rewrite bit_word_insert by done. case_decide as Hd.
  - rewrite Z.lor_spec, testbit_mask, (bit_word_same bm i j Hd) by lia.
    case_bool_decide as Hij; [subst j; by rewrite Z.eqb_refl, orb_true_r|].
    destruct (Z.eqb_spec (Z.of_nat (i mod 64)) (Z.of_nat (j mod 64))) as [He|]; [|by rewrite orb_false_r].
    exfalso. apply Hij, same_index; [done|lia].
  - by rewrite bool_decide_eq_false_2 by (intros ->; done).
Qed.

Lemma bit_test_clear bm i j :
  (i / 64 < length bm)%nat -> bit_test (bit_clear bm i) j = negb (bool_decide (i = j)) && bit_test bm j.
Proof.
  intros Hi. rewrite !bit_test_spec. unfold bit_clear. rewrite bit_word_insert by done. case_decide as Hd.
  - assert (j mod 64 < 64)%nat by (apply Nat.mod_upper_bound; lia).
    rewrite Z.land_spec. unfold wrap. rewrite Z.mod_pow2_bits_low, Z.lnot_spec, testbit_mask by lia.
    rewrite (bit_word_same bm i j Hd).
    case_bool_decide as Hij; [subst j; by rewrite Z.eqb_refl, andb_false_r|].
    destruct (Z.eqb_spec (Z.of_nat (i mod 64)) (Z.of_nat (j mod 64))) as [He|]; [|by rewrite andb_true_r].
    exfalso. apply Hij, same_index; [done|lia].
  - by rewrite bool_decide_eq_false_2 by (intros ->; done).
Qed.

Lemma length_bit_set bm i : length (bit_set bm i) = length bm.
Proof. apply length_insert. Qed.

Lemma length_bit_clear bm i : length (bit_clear bm i) = length bm.
Proof. apply length_insert. Qed.

(** ** Invariant *)

Abbreviation window r := (length (ring_slots r)).

(** The slot [d] places after the next expected sequence number. *)
Definition slot_at (r : Reorderer) (d : nat) : nat := ((base_index r + d) mod window r)%nat.

Definition stored_at (r : Reorderer) (d : nat) : option StoredPacket :=
  if bit_test (occupancy_bitmap r) (slot_at r d) then ring_slots r !! slot_at r d else None.

Record stored_ok (r : Reorderer) (d : nat) (p : StoredPacket) : Prop := {
  so_occupied : occupied p = true;
  so_sequence : sequence p = next_expected_seq r +[32] Z.of_nat d
}.

Definition bits (r : Reorderer) : list bool := bit_test (occupancy_bitmap r) <$> seq 0 (window r).

(** [lo] is the first distance that may be stored: 1 between operations, 0 when
    [advance_window] starts. *)
Record window_wf (lo : nat) (r : Reorderer) : Prop := {
  ww_size : 1 <= Z.of_nat (window r) <= 2 ^ 31;
  ww_bitmap : length (occupancy_bitmap r) = ((window r + 63) / 64)%nat;
  ww_base : (base_index r < window r)%nat;
  ww_next : is_u32 (next_expected_seq r);
  ww_stored : forall d p, (d < window r)%nat -> stored_at r d = Some p -> (lo <= d)%nat /\ stored_ok r d p;
  ww_count : current_buffer_size (stats r) = Z.of_nat (count_true (bits r))
}.

Lemma bitmap_word r i lo : window_wf lo r -> (i < window r)%nat -> (i / 64 < length (occupancy_bitmap r))%nat.
Proof.
  intros Hw Hi. rewrite (ww_bitmap _ _ Hw). apply Nat.Div0.div_lt_upper_bound.
  pose proof (Nat.div_mod_eq (window r + 63) 64). pose proof (Nat.mod_upper_bound (window r + 63) 64). lia.
Qed.

Lemma slot_at_lt r d : (0 < window r)%nat -> (slot_at r d < window r)%nat.
Proof. intros. apply Nat.mod_upper_bound. lia. Qed.

Lemma slot_at_inj r d d' :
  (d < window r)%nat -> (d' < window r)%nat -> slot_at r d = slot_at r d' -> d = d'.
Proof.
  unfold slot_at. set (w := window r). set (b := base_index r). intros Hd Hd' He.
  pose proof (Nat.div_mod_eq (b + d) w). pose proof (Nat.div_mod_eq (b + d') w).
  set (x := ((b + d) / w)%nat) in *. set (y := ((b + d') / w)%nat) in *.
  destruct (lt_eq_lt_dec x y) as [[?|?]|?]; nia.
Qed.

(** Every slot is at some distance. *)
Lemma slot_at_surj r i : (base_index r < window r)%nat -> (i < window r)%nat ->
  exists d, (d < window r)%nat /\ slot_at r d = i.
Proof.
  intros Hb Hi. unfold slot_at. destruct (le_lt_dec (base_index r) i).
  - exists (i - base_index r)%nat. split; [lia|].
    replace (base_index r + (i - base_index r))%nat with i by lia. by apply Nat.mod_small.
  - exists (i + window r - base_index r)%nat. split; [lia|].
    replace (base_index r + (i + window r - base_index r))%nat with (i + 1 * window r)%nat by lia.
    rewrite Nat.Div0.mod_add. by apply Nat.mod_small.
Qed.

Lemma bits_lookup r i : (i < window r)%nat -> bits r !! i = Some (bit_test (occupancy_bitmap r) i).
Proof. intros Hi. unfold bits. rewrite list_lookup_fmap, lookup_seq_lt by done. done. Qed.

Lemma stored_at_bit r d lo :
  window_wf lo r -> (d < window r)%nat ->
  bit_test (occupancy_bitmap r) (slot_at r d) = true -> exists p, stored_at r d = Some p.
Proof.
  intros Hw Hd Hb. unfold stored_at. rewrite Hb. apply lookup_lt_is_Some_2, slot_at_lt. lia.
Qed.

(** Storing a packet at a free distance. *)
Lemma bits_set r lo i :
  window_wf lo r -> (i < window r)%nat ->
  bit_test (bit_set (occupancy_bitmap r) i) <$> seq 0 (window r) = <[i := true]> (bits r).
Proof.
  intros Hw Hi. apply list_eq. intros j. destruct (decide (j < window r)%nat) as [Hj|Hj].
  - rewrite list_lookup_fmap, lookup_seq_lt by done. cbn [fmap option_fmap option_map]. rewrite bit_test_set by (by eapply bitmap_word).
    destruct (decide (i = j)) as [<-|Hne].
    + rewrite list_lookup_insert_eq by (unfold bits; by rewrite length_fmap, length_seq).
      by rewrite bool_decide_eq_true_2.
    + rewrite list_lookup_insert_ne, bits_lookup by done. by rewrite bool_decide_eq_false_2.
  - rewrite !lookup_ge_None_2; rewrite ?length_insert; unfold bits; rewrite ?length_fmap, ?length_seq; try done; lia.
Qed.

Lemma bits_clear r lo i :
  window_wf lo r -> (i < window r)%nat ->
  bit_test (bit_clear (occupancy_bitmap r) i) <$> seq 0 (window r) = <[i := false]> (bits r).
Proof.
  intros Hw Hi. apply list_eq. intros j. destruct (decide (j < window r)%nat) as [Hj|Hj].
  - rewrite list_lookup_fmap, lookup_seq_lt by done. cbn [fmap option_fmap option_map]. rewrite bit_test_clear by (by eapply bitmap_word).
    destruct (decide (i = j)) as [<-|Hne].
    + rewrite list_lookup_insert_eq by (unfold bits; by rewrite length_fmap, length_seq).
      by rewrite bool_decide_eq_true_2.
    + rewrite list_lookup_insert_ne, bits_lookup by done. by rewrite bool_decide_eq_false_2.
  - rewrite !lookup_ge_None_2; rewrite ?length_insert; unfold bits; rewrite ?length_fmap, ?length_seq; try done; lia.
Qed.

(** ** One step of the window *)

Lemma slot_at_0 r : (base_index r < window r)%nat -> slot_at r 0 = base_index r.
Proof. intros Hb. unfold slot_at. rewrite Nat.add_0_r. by apply Nat.mod_small. Qed.

Lemma slot_at_step r now reads s slots bm d :
  length slots = window r ->
  slot_at (step_window r now reads s slots bm) d = slot_at r (S d).
Proof.
  intros Hl. unfold slot_at. cbn. rewrite Hl, Nat.Div0.add_mod_idemp_l. f_equal. lia.
Qed.

(** Advancing by one place: distances shrink by one, and the freed slot is empty. *)
Lemma step_stored r now reads s slots bm d :
  (base_index r < window r)%nat -> length slots = window r -> (d < window r)%nat ->
  bit_test bm (base_index r) = false ->
  (forall i, i <> base_index r ->
     bit_test bm i = bit_test (occupancy_bitmap r) i /\ slots !! i = ring_slots r !! i) ->
  stored_at (step_window r now reads s slots bm) d =
    if (S d <? window r)%nat then stored_at r (S d) else None.
Proof.
  intros Hb Hl Hd Hclr Hsame. unfold stored_at. rewrite slot_at_step by done. cbn [step_window occupancy_bitmap ring_slots].
  destruct (Nat.ltb_spec (S d) (window r)) as [Hlt|Hge].
  - destruct (Hsame (slot_at r (S d))) as [-> ->]; [|done].
    rewrite <-(slot_at_0 r Hb). intros He%slot_at_inj; lia.
  - assert (slot_at r (S d) = base_index r) as ->; [|by rewrite Hclr].
    unfold slot_at. replace (base_index r + S d)%nat with (base_index r + 1 * window r)%nat by lia.
    rewrite Nat.Div0.mod_add. by apply Nat.mod_small.
Qed.

Lemma step_stored_ok r now reads s slots bm d p :
  stored_ok r (S d) p -> stored_ok (step_window r now reads s slots bm) d p.
Proof.
  intros [Ho Hs]. constructor; [done|]. cbn. rewrite Hs, wrap_add_l by lia. f_equal. lia.
Qed.

(** The common part of every advance. *)
Lemma step_window_wf r now reads s slots bm :
  window_wf 0 r -> length slots = window r -> length bm = length (occupancy_bitmap r) ->
  bit_test bm (base_index r) = false ->
  (forall i, i <> base_index r ->
     bit_test bm i = bit_test (occupancy_bitmap r) i /\ slots !! i = ring_slots r !! i) ->
  current_buffer_size s = Z.of_nat (count_true (bit_test bm <$> seq 0 (window r))) ->
  window_wf 0 (step_window r now reads s slots bm).
Proof.
  intros Hw Hl Hbm Hclr Hsame Hcnt. pose proof Hw as [Hsz Hbl Hb Hn Hst Hc].
  constructor; cbn [step_window ring_slots occupancy_bitmap base_index next_expected_seq stats]; rewrite ?Hl.
  - done.
  - by rewrite Hbm.
  - apply Nat.mod_upper_bound. lia.
  - apply wrap_range. lia.
  - intros d p Hd. rewrite step_stored by done. destruct (Nat.ltb_spec (S d) (window r)) as [Hlt|]; [|done].
    intros Hp. split; [lia|]. apply step_stored_ok. by apply Hst.
  - unfold bits. cbn [step_window ring_slots occupancy_bitmap]. by rewrite Hl.
Qed.

(** The packet a stored slot hands over [d] places ahead. *)
Definition out_of (r : Reorderer) (d : nat) (p : StoredPacket) : OrderedPacket :=
  ordered (stored_header p) (stored_payload p) (stored_payload_size p)
    (next_expected_seq r +[32] Z.of_nat d).

(** [r'] is [r] after handing over the stored packets at distances [0..k-1]. *)
Record advanced (r r' : Reorderer) (k : nat) : Prop := {
  ad_wf : window_wf 1 r';
  ad_config : config_ r' = config_ r;
  ad_callback : output_callback_ r' = output_callback_ r;
  ad_timeout : timeout_ms_runtime_ r' = timeout_ms_runtime_ r;
  ad_init : initialized r' = initialized r;
  ad_window : window r' = window r;
  ad_le : (k <= window r)%nat;
  ad_next : next_expected_seq r' = next_expected_seq r +[32] Z.of_nat k;
  ad_stored : forall d, (d < window r)%nat ->
    stored_at r' d = if (d + k <? window r)%nat then stored_at r (d + k) else None;
  ad_in : packets_in_order (stats r') = packets_in_order (stats r) +[64] Z.of_nat k;
  ad_dup : packets_duplicate (stats r') = packets_duplicate (stats r);
  ad_buf : current_buffer_size (stats r') = current_buffer_size (stats r) - Z.of_nat k;
  ad_run : forall d, (d < k)%nat -> is_Some (stored_at r d)
}.

Definition handed_over (r : Reorderer) (k : nat) : list OrderedPacket :=
  omap (fun d => out_of r d <$> stored_at r d) (seq 0 k).

Lemma advance_loop_spec clock fuel r :
  window_wf 0 r -> is_u64 (packets_in_order (stats r)) -> (count_true (bits r) < fuel)%nat ->
  exists r' k, advance_loop clock fuel r =
      Some (r', if output_callback_ r then handed_over r k else []) /\ advanced r r' k.
Proof.
  revert r. induction fuel as [|fuel IH]; intros r Hw Hu Hf; [lia|].
  pose proof Hw as [Hsz Hbl Hb Hn Hst Hc]. cbn [advance_loop].
  assert (Hs0 : slot_at r 0 = base_index r) by (by apply slot_at_0).
  destruct (bit_test (occupancy_bitmap r) (base_index r)) eqn:Ebit; cbn [negb].
  2: { exists r, 0%nat. split; [by destruct (output_callback_ r)|].
    assert (Hnone : stored_at r 0 = None) by (unfold stored_at; by rewrite Hs0, Ebit).
    constructor; try done; try lia.
    - constructor; try done. intros d p Hd Hp. destruct (Hst d p Hd Hp) as [_ Hok]. split; [|done].
      destruct d; [congruence|lia].
    - by rewrite Z.add_0_r, wrap_small.
    - intros d Hd. rewrite Nat.add_0_r. destruct (Nat.ltb_spec d (window r)); [done|lia].
    - by rewrite Z.add_0_r, wrap_small. }
  assert (Hin : (base_index r < window r)%nat) by done.
  destruct (lookup_lt_is_Some_2 (ring_slots r) (base_index r) Hb) as [slot Hslot].
  assert (Hst0 : stored_at r 0 = Some slot) by (unfold stored_at; by rewrite Hs0, Ebit).
  destruct (Hst 0%nat slot ltac:(lia) Hst0) as [_ [Hocc Hseq]].
  rewrite Z.add_0_r, wrap_small in Hseq by done.
  rewrite Hslot. cbn [from_option id]. rewrite Hocc, Hseq, Z.eqb_refl. cbn [negb orb].
  set (s1 := if 0 <? current_buffer_size (stats r) then _ else stats r).
  set (r1 := step_window r _ _ _ _ _).
  assert (Hcnt : S (count_true (<[base_index r := false]> (bits r))) = count_true (bits r)).
  { apply count_true_insert_false. by rewrite bits_lookup, Ebit. }
  assert (Hs1 : current_buffer_size s1 = current_buffer_size (stats r) - 1).
  { unfold s1. destruct (Z.ltb_spec 0 (current_buffer_size (stats r))); [done|lia]. }
  assert (Hsame : forall i, i <> base_index r ->
    bit_test (bit_clear (occupancy_bitmap r) (base_index r)) i = bit_test (occupancy_bitmap r) i /\
    <[base_index r := mkStoredPacket 0 (stored_header slot) None 0 false]> (ring_slots r) !! i = ring_slots r !! i).
  { intros i Hi. rewrite list_lookup_insert_ne by done. rewrite bit_test_clear by (by eapply bitmap_word).
    by rewrite bool_decide_eq_false_2. }
  assert (Hclr : bit_test (bit_clear (occupancy_bitmap r) (base_index r)) (base_index r) = false).
  { rewrite bit_test_clear by (by eapply bitmap_word). by rewrite bool_decide_eq_true_2. }
  assert (Hl1 : window r1 = window r) by (unfold r1; cbn; by rewrite length_insert).
  assert (Hw1 : window_wf 0 r1).
  { apply step_window_wf; [done|by rewrite length_insert|apply length_bit_clear|done|done|].
    cbn [count_in_order current_buffer_size]. rewrite Hs1, (bits_clear r 0), Hc by done. lia. }
  assert (Hstep : forall d, (d < window r)%nat -> stored_at r1 d =
    if (S d <? window r)%nat then stored_at r (S d) else None).
  { intros d Hd. apply step_stored; [done|by rewrite length_insert|done..]. }
  destruct (IH r1 Hw1) as (r' & k & -> & Hadv).
  { apply wrap_range. lia. }
  { unfold bits. rewrite Hl1. cbn [r1 step_window occupancy_bitmap]. rewrite (bits_clear r 0) by done. lia. }
  cbn [mbind option_bind]. exists r', (S k). destruct Hadv.
  assert (Hrun1 : forall d, (d < k)%nat -> stored_at r1 d = stored_at r (S d) /\ (S d < window r)%nat).
  { intros d Hd. destruct (ad_run0 d Hd) as [p Hp]. rewrite Hstep in Hp |- * by lia.
    by destruct (Nat.ltb_spec (S d) (window r)). }
  assert (Hkw : (S k <= window r)%nat).
  { destruct k as [|k]; [lia|]. destruct (Hrun1 k ltac:(lia)). lia. }
  split.
  - do 2 f_equal. change (output_callback_ r1) with (output_callback_ r). unfold emit.
    destruct (output_callback_ r); [|done]. unfold handed_over. cbn [seq omap list_omap].
    rewrite Hst0. cbn [fmap option_fmap option_map]. cbn [app]. f_equal.
    { unfold out_of. by rewrite Z.add_0_r, wrap_small. }
    apply list_omap_ext, Forall2_same_length_lookup_2; [by rewrite !length_seq|].
    intros j a b [-> Ha]%lookup_seq [-> _]%lookup_seq. cbn [Nat.add].
    destruct (Hrun1 j Ha) as [-> _]. destruct (stored_at r (S j)) as [p|]; [|done].
    cbn [fmap option_fmap option_map]. f_equal. unfold out_of. cbn [r1 step_window next_expected_seq].
    rewrite wrap_add_l by lia. do 2 f_equal. lia.
  - constructor; try done; try congruence.
    + rewrite ad_next0. cbn. rewrite wrap_add_l by lia. f_equal. lia.
    + intros d Hd. rewrite ad_stored0, Hl1 by lia.
      destruct (Nat.ltb_spec (d + k) (window r)) as [Hlt|Hge].
      * rewrite Hstep by lia. replace (d + S k)%nat with (S (d + k)) by lia. done.
      * destruct (Nat.ltb_spec (d + S k) (window r)); [lia|done].
    + rewrite ad_in0. cbn [r1 step_window stats count_in_order packets_in_order].
      assert (packets_in_order s1 = packets_in_order (stats r)) as -> by (unfold s1; by case_match).
      unfold inc64. rewrite wrap_add_l by lia. f_equal. lia.
    + rewrite ad_dup0. cbn. unfold s1. by case_match.
    + rewrite ad_buf0. cbn [r1 step_window stats count_in_order current_buffer_size]. rewrite Hs1. lia.
    + intros [|d] Hd; [by eauto|]. destruct (Hrun1 d ltac:(lia)) as [<- _]. apply ad_run0. lia.
Qed.

(** ** Invariant of the whole object *)

Record reorder_wf (r : Reorderer) : Prop := {
  ro_window : window_wf 1 r;
  ro_in : is_u64 (packets_in_order (stats r));
  ro_fresh : initialized r = false -> forall d, (d < window r)%nat -> stored_at r d = None
}.

(** Packets accounted for: handed over in order, rejected, or buffered. *)
Definition accounted (r : Reorderer) : Z :=
  u64 (packets_in_order (stats r) + packets_duplicate (stats r) + current_buffer_size (stats r)).

Lemma window_wf_weaken r : window_wf 1 r -> window_wf 0 r.
Proof. intros []. constructor; try done. intros d p Hd Hp. destruct (ww_stored0 d p Hd Hp). split; [lia|done]. Qed.

Lemma buffer_size_bound lo r : window_wf lo r -> 0 <= current_buffer_size (stats r) <= 2 ^ 31.
Proof.
  intros []. rewrite ww_count0. pose proof (count_true_length (bits r)) as Hl.
  unfold bits in Hl. rewrite length_fmap, length_seq in Hl. fold (bits r) in Hl. lia.
Qed.

(** Synchronising the two size fields changes nothing observable. *)
Lemma sync_buffered_size r lo : window_wf lo r -> u32 (current_buffer_size (stats r)) = current_buffer_size (stats r).
Proof. intros Hw. pose proof (buffer_size_bound lo r Hw). apply wrap_small. unfold in_range. lia. Qed.

Lemma sync_buffered_wf r lo : window_wf lo r -> window_wf lo (sync_buffered r).
Proof.
  intros Hw. pose proof (sync_buffered_size r lo Hw) as Hs. destruct Hw. constructor; try done.
  - intros d p Hd Hp. destruct (ww_stored0 d p Hd Hp) as [? []]. by repeat constructor.
  - cbn. by rewrite Hs.
Qed.

Lemma with_stats_wf lo r s :
  window_wf lo r -> current_buffer_size s = current_buffer_size (stats r) -> window_wf lo (with_stats r s).
Proof.
  intros [] Hs. constructor; try done.
  - intros d p Hd Hp. destruct (ww_stored0 d p Hd Hp) as [? []]. by repeat constructor.
  - cbn. by rewrite Hs.
Qed.

Lemma ensure_initialized_spec r sq :
  reorder_wf r -> is_u32 sq ->
  let ri := ensure_initialized r sq in
  reorder_wf ri /\ initialized ri = true /\ window ri = window r /\ stats ri = stats r /\
  config_ ri = config_ r /\ output_callback_ ri = output_callback_ r /\
  next_expected_seq ri = (if initialized r then next_expected_seq r else sq) /\
  (forall d, stored_at ri d = stored_at r d).
Proof.
  intros Hr Hs. unfold ensure_initialized. destruct (initialized r) eqn:Ei; [by split_and!|].
  cbn. split_and!; try done. destruct Hr as [[Hsz Hbl Hb Hn Hst Hc] Hin Hfr].
  constructor; [|done|done]. constructor; try done. intros d p Hd Hp.
  change (stored_at r d = Some p) in Hp. rewrite Hfr in Hp; done.
Qed.

(** Advancing over an empty head: the step of an in-order packet or a timeout. *)
Lemma step_and_advance clock r now reads s :
  window_wf 1 r -> is_u64 (packets_in_order s) -> current_buffer_size s = current_buffer_size (stats r) ->
  let r1 := step_window r now reads s (ring_slots r) (occupancy_bitmap r) in
  (forall d, (d < window r)%nat -> stored_at r1 d = if (S d <? window r)%nat then stored_at r (S d) else None) /\
  exists r' k, advance_window clock r1 =
      Some (r', if output_callback_ r then handed_over r1 k else []) /\ advanced r1 r' k.
Proof.
  intros Hw Hu Hcs r1. pose proof Hw as [Hsz Hbl Hb Hn Hst Hc].
  assert (Hclr : bit_test (occupancy_bitmap r) (base_index r) = false).
  { destruct (bit_test (occupancy_bitmap r) (base_index r)) eqn:E; [|done].
    rewrite <-(slot_at_0 r Hb) in E. destruct (stored_at_bit r 0 1 Hw ltac:(lia) E) as [p Hp].
    destruct (Hst 0%nat p ltac:(lia) Hp). lia. }
  split; [intros d Hd; by apply step_stored|].
  assert (Hw1 : window_wf 0 r1).
  { apply step_window_wf; try done; [by apply window_wf_weaken|]. by rewrite Hcs. }
  apply (advance_loop_spec clock _ r1 Hw1 Hu).
  pose proof (count_true_length (bits r1)) as Hl. unfold bits in Hl. rewrite length_fmap, length_seq in Hl.
  unfold bits. lia.
Qed.

(** What [insert_owned] does with a packet of sequence number [sq]. *)
Inductive insert_result (r : Reorderer) (h : CommonHeader) (payload : option bytes) (size : Z)
    : Reorderer -> list OrderedPacket -> Prop :=
  | IR_in_order r1 r' k :
      sequence_number h = next_expected_seq r ->
      (forall d, (d < window r)%nat -> stored_at r1 d = if (S d <? window r)%nat then stored_at r (S d) else None) ->
      next_expected_seq r1 = next_expected_seq r +[32] 1 -> window r1 = window r ->
      packets_in_order (stats r1) = inc64 (packets_in_order (stats r)) ->
      packets_duplicate (stats r1) = packets_duplicate (stats r) ->
      current_buffer_size (stats r1) = current_buffer_size (stats r) ->
      config_ r1 = config_ r -> output_callback_ r1 = output_callback_ r -> initialized r1 = initialized r ->
      advanced r1 r' k ->
      insert_result r h payload size (sync_buffered r')
        (emit r (ordered h payload size (sequence_number h)) ++
         if output_callback_ r then handed_over r1 k else [])
  | IR_stored r' d :
      (1 <= d < window r)%nat -> sequence_number h = next_expected_seq r +[32] Z.of_nat d ->
      stored_at r d = None -> next_expected_seq r' = next_expected_seq r -> window r' = window r ->
      config_ r' = config_ r -> output_callback_ r' = output_callback_ r -> initialized r' = initialized r ->
      packets_in_order (stats r') = packets_in_order (stats r) ->
      packets_duplicate (stats r') = packets_duplicate (stats r) ->
      current_buffer_size (stats r') = current_buffer_size (stats r) + 1 ->
      (forall d', (d' < window r)%nat -> stored_at r' d' =
         if decide (d' = d) then Some (mkStoredPacket (sequence_number h) h payload size true)
         else stored_at r d') ->
      insert_result r h payload size r' []
  | IR_rejected :
      (forall d, (d < window r)%nat -> sequence_number h = next_expected_seq r +[32] Z.of_nat d ->
         d <> 0%nat /\ is_Some (stored_at r d)) ->
      insert_result r h payload size (with_stats r (count_duplicate (stats r))) [].

Lemma seq_delta sq e : is_u32 sq -> is_u32 e -> sq = e +[32] (sq -[32] e).
Proof. wrap_lia. Qed.

Lemma delta_unique sq e d : is_u32 sq -> is_u32 e -> 0 <= d < 2 ^ 32 -> sq = e +[32] d -> sq -[32] e = d.
Proof. wrap_lia. Qed.

Lemma insert_initialized_spec clock r h payload size :
  reorder_wf r -> initialized r = true -> is_u32 (sequence_number h) ->
  exists r' outs, insert_owned clock r h payload size = Some (r', outs) /\ reorder_wf r' /\
    insert_result r h payload size r' outs.
Proof.
  intros Hr Hi Hs. pose proof Hr as [Hw Hin Hfr]. pose proof Hw as [Hsz Hbl Hb Hn Hst Hc].
  unfold insert_owned. unfold ensure_initialized. rewrite Hi.
  destruct (Z.eqb_spec (sequence_number h) (next_expected_seq r)) as [He|Hne].
  { destruct (step_and_advance clock r (clock (clock_reads r)) (S (clock_reads r)) (count_in_order (stats r))
      Hw (wrap_range 64 _ ltac:(lia)) eq_refl) as (Hstep & r' & k & -> & Hadv).
    cbn [mbind option_bind]. eexists _, _. split; [done|]. split.
    - destruct Hadv. constructor; [by apply sync_buffered_wf|cbn; rewrite ad_in0; apply wrap_range; lia|].
      cbn. rewrite ad_init0. cbn. congruence.
    - by eapply IR_in_order. }
  set (delta := sequence_number h -[32] next_expected_seq r).
  assert (Hdr : is_u32 delta) by (apply wrap_range; lia).
  assert (Hsd : sequence_number h = next_expected_seq r +[32] delta) by (by apply seq_delta).
  assert (Hrej : forall P : Prop, (forall d, (d < window r)%nat ->
      sequence_number h = next_expected_seq r +[32] Z.of_nat d -> d <> 0%nat /\ is_Some (stored_at r d)) ->
    exists r' outs, Some (with_stats r (count_duplicate (stats r)), []) = Some (r', outs) /\
      reorder_wf r' /\ insert_result r h payload size r' outs).
  { intros _ Hx. eexists _, _. split; [done|]. split; [|by apply IR_rejected].
    constructor; [by apply with_stats_wf|done|done]. }
  assert (Huniq : forall d, (d < window r)%nat -> sequence_number h = next_expected_seq r +[32] Z.of_nat d ->
    Z.of_nat d = delta).
  { intros d Hd Hx. symmetry. apply delta_unique; [done..|lia|done]. }
  assert (Hd0 : delta <> 0) by (intros H0; rewrite H0, Z.add_0_r, wrap_small in Hsd by done; done).
  destruct (is_sequence_newer (sequence_number h) (next_expected_seq r)) eqn:Enew; cbn [negb].
  2: { apply (Hrej True). intros d Hd Hx. exfalso. specialize (Huniq d Hd Hx).
    unfold is_sequence_newer in Enew. fold delta in Enew. rewrite <-Huniq in Enew.
    change (u32 (Z.shiftl 1 31)) with (2 ^ 31) in Enew.
    destruct (Z.ltb_spec 0 (Z.of_nat d)), (Z.ltb_spec (Z.of_nat d) (2 ^ 31)); try done; try lia. }
  fold delta. rewrite (wrap_small 32 (Z.of_nat (window r))) by (unfold in_range; lia).
  destruct (Z.leb_spec (Z.of_nat (window r)) delta) as [Hge|Hlt].
  { apply (Hrej True). intros d Hd Hx. specialize (Huniq d Hd Hx). lia. }
  unfold in_range in Hdr. set (d := Z.to_nat delta). assert (Hdw : (d < window r)%nat) by lia.
  fold (slot_at r d).
  destruct (bit_test (occupancy_bitmap r) (slot_at r d)) eqn:Ebit.
  { apply (Hrej True). intros d' Hd' Hx. specialize (Huniq d' Hd' Hx). assert (d' = d) as -> by lia.
    split; [lia|]. by eapply stored_at_bit. }
  assert (Hsl : (slot_at r d < window r)%nat) by (apply slot_at_lt; lia).
  eexists _, _. split; [done|]. set (r2 := mkReorderer _ _ _ _ _ _ _ _ _ _ _ _ _).
  assert (Hl2 : window r2 = window r) by (unfold r2; cbn; by rewrite length_insert).
  assert (Hst2 : forall d', (d' < window r)%nat -> stored_at r2 d' =
    if decide (d' = d) then Some (mkStoredPacket (sequence_number h) h payload size true) else stored_at r d').
  { intros d' Hd'. unfold stored_at. assert (slot_at r2 d' = slot_at r d') as ->
      by (unfold slot_at; rewrite Hl2; done).
    cbn [r2 occupancy_bitmap ring_slots]. rewrite bit_test_set by (by eapply bitmap_word).
    case_decide as Hdd.
    - subst d'. rewrite bool_decide_eq_true_2 by done. cbn. by apply list_lookup_insert_eq.
    - rewrite bool_decide_eq_false_2 by (intros Heq%slot_at_inj; lia). cbn [orb].
      rewrite list_lookup_insert_ne by (intros Heq%slot_at_inj; lia). done. }
  pose proof (buffer_size_bound 1 r Hw) as Hbs.
  assert (Hb2 : current_buffer_size (stats r2) = current_buffer_size (stats r) + 1).
  { unfold r2. cbn. unfold inc64. apply wrap_small. unfold in_range. lia. }
  assert (Hw2 : window_wf 1 r2).
  { constructor; rewrite ?Hl2; try done.
    - cbn [r2 occupancy_bitmap]. by rewrite length_bit_set.
    - intros d' p Hd'. rewrite Hst2 by done. case_decide as Hdd; [|by intros Hp; destruct (Hst d' p Hd' Hp) as [? [? ?]]; split; [|constructor]].
      subst d'. intros [= <-]. split; [lia|]. constructor; [done|]. cbn.
      rewrite Hsd. f_equal. f_equal. lia.
    - rewrite Hb2. unfold bits. rewrite Hl2. cbn [r2 occupancy_bitmap].
      rewrite (bits_set r 1) by done. rewrite count_true_insert by (by rewrite bits_lookup, Ebit). lia. }
  split; [constructor; [by apply sync_buffered_wf|done|cbn; congruence]|].
  apply IR_stored with d; try done; [lia|..].
  - rewrite Hsd. f_equal. f_equal. lia.
  - unfold stored_at. by rewrite Ebit.
  - cbn [sync_buffered stats set_buffer_size current_buffer_size]. by rewrite (sync_buffered_size r2 1).
Qed.

End ReordererProps.
