(* ===== verification/ReordererFlush.v ===== *)
(** [Reorderer::flush]: everything buffered is handed over, sorted by the raw
    sequence number; and the account of packets by lists: what an operation hands
    over, keeps and takes. *)

From S2P Require Import Prelude Protocol Reorderer ReordererProps.
From stdpp Require Import sorting.
Open Scope Z_scope.
Import Protocol Reorderer ReordererProps.

Module ReordererFlush.

(** ** Definitions *)

(** The packet handed over for a pending entry. *)
Definition entry_packet (r : Reorderer) (e : Z * nat) : OrderedPacket :=
  let slot := default StoredPacket_default (ring_slots r !! e.2) in
  ordered (stored_header slot) (stored_payload slot) (stored_payload_size slot) (sequence slot).

(** The buffered packets, by distance from the next expected number. *)
Definition buffered (r : Reorderer) : list OrderedPacket :=
  omap (fun d => out_of r d <$> stored_at r d) (seq 0 (length (ring_slots r))).

(** ** Sorting *)

Lemma insert_sorted_perm e l : insert_sorted e l ≡ₚ e :: l.
Proof.
  induction l as [|e' l IH]; cbn; [done|]. destruct (_ <? _); [|done].
  rewrite IH. apply Permutation_swap.
Qed.

Lemma sort_pending_perm l : sort_pending l ≡ₚ l.
Proof. induction l as [|e l IH]; cbn; [done|]. rewrite insert_sorted_perm. by constructor. Qed.

Lemma insert_sorted_sorted e l :
  Sorted (fun a b => a.1 <= b.1) l -> Sorted (fun a b => a.1 <= b.1) (insert_sorted e l).
Proof.
  induction l as [|e' l IH]; intros Hs; cbn; [by repeat constructor|].
  destruct (Z.ltb_spec e'.1 e.1) as [Hlt|Hge].
  - apply Sorted_inv in Hs as [Hs Hh]. constructor; [by apply IH|].
    destruct l as [|e2 l]; cbn; [constructor; lia|]. destruct (e2.1 <? e.1); constructor; [|lia].
    by apply HdRel_inv in Hh.
  - constructor; [done|]. constructor. lia.
Qed.

Lemma sort_pending_sorted l : Sorted (fun a b => a.1 <= b.1) (sort_pending l).
Proof. induction l as [|e l IH]; cbn; [constructor|]. by apply insert_sorted_sorted. Qed.

(** ** The loop *)

Record flushed (r r' : Reorderer) (es : list (Z * nat)) : Prop := {
  fl_config : config_ r' = config_ r;
  fl_callback : output_callback_ r' = output_callback_ r;
  fl_init : initialized r' = initialized r;
  fl_next : next_expected_seq r' = next_expected_seq r;
  fl_base : base_index r' = base_index r;
  fl_window : length (ring_slots r') = length (ring_slots r);
  fl_bitmap : length (occupancy_bitmap r') = length (occupancy_bitmap r);
  fl_bits : forall i, bit_test (occupancy_bitmap r') i =
              bit_test (occupancy_bitmap r) i && negb (bool_decide (i ∈ es.*2));
  fl_slots : forall i, i ∉ es.*2 -> ring_slots r' !! i = ring_slots r !! i;
  fl_in : packets_in_order (stats r') = packets_in_order (stats r) +[64] Z.of_nat (length es);
  fl_dup : packets_duplicate (stats r') = packets_duplicate (stats r);
  fl_buf : current_buffer_size (stats r') = current_buffer_size (stats r)
}.

Lemma flush_fold es : forall r outs,
  is_u64 (packets_in_order (stats r)) -> NoDup es.*2 ->
  Forall (fun e => e.2 / 64 < length (occupancy_bitmap r))%nat es ->
  exists r', fold_left flush_entry es (r, outs) =
      (r', outs ++ if output_callback_ r then entry_packet r <$> es else []) /\ flushed r r' es.
Proof.
  induction es as [|e es IH]; intros r outs Hu Hnd Hall.
  { exists r. cbn. split; [by destruct (output_callback_ r); rewrite app_nil_r|].
    constructor; try done; [intros i; by rewrite andb_true_r|cbn; by rewrite Z.add_0_r, wrap_small]. }
  cbn [fmap list_fmap] in Hnd. apply NoDup_cons in Hnd as [Hni Hnd].
  apply Forall_cons_1 in Hall as [He Hall].
  cbn [fold_left flush_entry]. set (r1 := mkReorderer _ _ _ _ _ _ _ _ _ _ _ _ _).
  destruct (IH r1 (outs ++ emit r (entry_packet r e))) as (r' & E & Hfl).
  { apply wrap_range. lia. }
  { done. }
  { cbn [r1 occupancy_bitmap]. by rewrite length_bit_clear. }
  exists r'. split.
  - etrans; [exact E|]. f_equal. rewrite <-app_assoc. f_equal. unfold emit. cbn [r1 output_callback_].
    destruct (output_callback_ r); [|done]. cbn [fmap list_fmap app]. f_equal.
    apply list_fmap_ext. intros j e' He'. unfold entry_packet. cbn [r1 ring_slots].
    rewrite list_lookup_insert_ne; [done|]. intros Heq. apply Hni. rewrite Heq.
    apply list_elem_of_fmap_2, list_elem_of_lookup. eauto.
  - destruct Hfl as [? ? ? ? ? Hwi Hbm Hbt Hsl Hin Hdp Hbf]. constructor; try done.
    + rewrite Hwi. cbn [r1 ring_slots]. apply length_insert.
    + rewrite Hbm. cbn [r1 occupancy_bitmap]. apply length_bit_clear.
    + intros i. rewrite Hbt. cbn [r1 occupancy_bitmap]. rewrite bit_test_clear by done.
      cbn [fmap list_fmap]. rewrite (bool_decide_ext (i ∈ e.2 :: es.*2) (e.2 = i \/ i ∈ es.*2))
        by (rewrite elem_of_cons; intuition congruence).
      rewrite bool_decide_or. destruct (bool_decide (e.2 = i)), (bit_test _ i), (bool_decide (i ∈ _)); done.
    + intros i Hi. cbn [fmap list_fmap] in Hi. rewrite Hsl by set_solver.
      cbn [r1 ring_slots]. apply list_lookup_insert_ne. set_solver.
    + rewrite Hin. cbn [r1 stats packets_in_order length]. unfold inc64. rewrite wrap_add_l by lia. f_equal. lia.
Qed.

(** ** The pending entries *)

Lemma elem_of_pending r sq i :
  (sq, i) ∈ pending r <-> exists slot, ring_slots r !! i = Some slot /\
    bit_test (occupancy_bitmap r) i = true /\ occupied slot = true /\ sequence slot = sq.
Proof.
  unfold pending. rewrite list_elem_of_omap. split.
  - intros (j & Hj & Hx). destruct (ring_slots r !! j) as [slot|] eqn:Es; [|done].
    destruct (bit_test _ j) eqn:Eb; [|done]. destruct (occupied slot) eqn:Eo; [|done].
    cbn in Hx. injection Hx as <- <-. eauto.
  - intros (slot & Hs & Hb & Ho & <-). exists i. split.
    + apply elem_of_seq. apply lookup_lt_Some in Hs. lia.
    + by rewrite Hs, Hb, Ho.
Qed.

Lemma NoDup_pending r : NoDup (pending r).*2.
Proof.
  unfold pending. generalize (length (ring_slots r)). intros w.
  assert (Hg : forall l, NoDup l -> NoDup (omap (fun i => match ring_slots r !! i with
     | Some slot => if bit_test (occupancy_bitmap r) i && occupied slot then Some (sequence slot, i) else None
     | None => None end) l).*2 /\
     forall i, i ∈ (omap (fun i => match ring_slots r !! i with
     | Some slot => if bit_test (occupancy_bitmap r) i && occupied slot then Some (sequence slot, i) else None
     | None => None end) l).*2 -> i ∈ l).
  { induction l as [|x l IH]; intros Hnd; [split; [constructor|set_solver]|]. inv Hnd.
    destruct IH as [IH1 IH2]; [done|]. cbn [omap list_omap].
    destruct (ring_slots r !! x) as [slot|]; [|split; [done|set_solver]].
    destruct (bit_test _ x && occupied slot); [|split; [done|set_solver]]. cbn [fmap list_fmap snd]. split.
    - constructor; [|done]. intros Hx. apply IH2 in Hx. done.
    - intros i [->|Hi]%elem_of_cons; set_solver. }
  apply Hg, NoDup_seq.
Qed.

Lemma slots_perm r : (base_index r < length (ring_slots r))%nat ->
  slot_at r <$> seq 0 (length (ring_slots r)) ≡ₚ seq 0 (length (ring_slots r)).
Proof.
  intros Hb. apply NoDup_Permutation.
  - apply NoDup_fmap_2_strong; [|apply NoDup_seq]. intros x y Hx Hy. apply elem_of_seq in Hx, Hy.
    apply slot_at_inj; lia.
  - apply NoDup_seq.
  - intros i. rewrite list_elem_of_fmap. split.
    + intros (d & -> & _). apply elem_of_seq. pose proof (slot_at_lt r d ltac:(lia)). lia.
    + intros Hi. apply elem_of_seq in Hi. destruct (slot_at_surj r i Hb) as (d & Hd & He); [lia|].
      exists d. split; [done|]. apply elem_of_seq. lia.
Qed.

(** Entry by entry, the pending packets are the buffered ones. *)
Lemma pending_buffered r :
  window_wf 1 r -> entry_packet r <$> pending r ≡ₚ buffered r.
Proof.
  intros Hw. pose proof Hw as [Hsz Hbl Hb Hn Hst Hc]. unfold pending, buffered.
  rewrite <-(slots_perm r Hb) at 1. set (ds := seq 0 (length (ring_slots r))).
  assert (Hds : Forall (fun d => d < length (ring_slots r))%nat ds).
  { apply Forall_forall. intros d Hd. unfold ds in Hd. apply elem_of_seq in Hd. lia. }
  apply reflexive_eq. clearbody ds. induction Hds as [|d ds Hd _ IH]; [done|].
  cbn [fmap list_fmap omap list_omap]. pose proof (Hst d) as Hstd. unfold stored_at in *.
  destruct (ring_slots r !! slot_at r d) as [slot|] eqn:Es.
  - destruct (bit_test (occupancy_bitmap r) (slot_at r d)) eqn:Eb; cbn [andb]; [|exact IH].
    destruct (Hstd slot Hd eq_refl) as [_ [Ho Hsq]]. rewrite Ho.
    cbn [fmap option_fmap option_map list_fmap]. f_equal; [|exact IH].
    unfold entry_packet, out_of. cbn [snd]. rewrite Es. cbn [from_option id]. by rewrite Hsq.
  - destruct (bit_test _ _); exact IH.
Qed.

Lemma length_buffered r : window_wf 1 r -> Z.of_nat (length (buffered r)) = current_buffer_size (stats r).
Proof.
  intros Hw. rewrite <-(pending_buffered r Hw), length_fmap. pose proof Hw as [Hsz Hbl Hb Hn Hst Hc].
  rewrite Hc. f_equal. unfold pending, bits.
  assert (Hds : Forall (fun i => i < length (ring_slots r))%nat (seq 0 (length (ring_slots r)))).
  { apply Forall_forall. intros d Hd. apply elem_of_seq in Hd. lia. }
  induction Hds as [|i l Hi _ IH]; [done|]. cbn [omap list_omap fmap list_fmap count_true].
  destruct (lookup_lt_is_Some_2 (ring_slots r) i Hi) as [slot Hs]. rewrite Hs.
  destruct (bit_test (occupancy_bitmap r) i) eqn:Eb; cbn [andb]; [|exact IH].
  destruct (slot_at_surj r i Hb Hi) as (d & Hd & Hsl).
  destruct (Hst d slot Hd) as [_ [Ho _]]; [unfold stored_at; by rewrite Hsl, Eb|].
  rewrite Ho. cbn [length]. by rewrite IH.
Qed.

(** ** Flush *)

(** Flush empties the buffer and loses nothing.  From every well-formed
    state, [flush] hands over exactly the buffered packets (each once), in
    increasing order of their raw sequence numbers, returns their number,
    leaves an empty window and a well-formed state, and the account of
    packets is unchanged. *)
Lemma flush_spec (r : Reorderer) (Hr : reorder_wf r) :
  exists r' outs,
    flush r = (r', if output_callback_ r then outs else [], current_buffer_size (stats r)) /\
    outs ≡ₚ buffered r /\
    Sorted (fun a b => out_sequence_number a <= out_sequence_number b) outs /\
    (forall d, (d < length (ring_slots r'))%nat -> stored_at r' d = None) /\
    reorder_wf r' /\ current_buffer_size (stats r') = 0 /\ accounted r' = accounted r /\
    next_expected_seq r' = next_expected_seq r /\
    config_ r' = config_ r /\ output_callback_ r' = output_callback_ r /\ initialized r' = initialized r /\
    length (ring_slots r') = length (ring_slots r) /\
    packets_duplicate (stats r') = packets_duplicate (stats r) /\
    packets_in_order (stats r') = packets_in_order (stats r) +[64] Z.of_nat (length outs).
Proof.
  pose proof Hr as [Hw Hin Hfr]. pose proof Hw as [Hsz Hbl Hb Hn Hst Hc].
  set (es := sort_pending (pending r)).
  assert (Hperm : es ≡ₚ pending r) by apply sort_pending_perm.
  assert (Hidx : forall i, i ∈ es.*2 <-> (i < length (ring_slots r))%nat /\ bit_test (occupancy_bitmap r) i = true).
  { intros i. rewrite Hperm, list_elem_of_fmap. split.
    - intros ([sq j] & -> & Hj). apply elem_of_pending in Hj as (slot & Hs & Hbt & _). split; [|done].
      by eapply lookup_lt_Some.
    - intros [Hi Hbt]. destruct (lookup_lt_is_Some_2 _ _ Hi) as [slot Hs]. exists (sequence slot, i).
      split; [done|]. apply elem_of_pending. exists slot. split_and!; try done.
      destruct (slot_at_surj r i Hb Hi) as (d & Hd & <-).
      destruct (Hst d slot Hd) as [_ [Ho _]]; [|done]. unfold stored_at. by rewrite Hbt. }
  destruct (flush_fold es r []) as (r1 & E & Hfl).
  { done. }
  { rewrite Hperm. apply NoDup_pending. }
  { apply Forall_forall. intros [sq i] Hi. eapply bitmap_word; [done|].
    apply Hidx. apply list_elem_of_fmap. by exists (sq, i). }
  assert (Hlen : Z.of_nat (length es) = current_buffer_size (stats r)).
  { rewrite Hperm, <-(length_buffered r Hw), <-(pending_buffered r Hw), length_fmap. done. }
  unfold flush. fold es. rewrite E. cbn [app]. rewrite Hlen. exists (mkReorderer (config_ r1) (output_callback_ r1)
    (timeout_ms_runtime_ r1) (initialized r1) (next_expected_seq r1) 0 (last_advance_ns r1) (base_index r1) (ring_slots r1)
    (occupancy_bitmap r1) (last_advance_time r1) (set_buffer_size (stats r1) 0) (clock_reads r1)), (entry_packet r <$> es).
  split; [done|].
  set (r' := mkReorderer _ _ _ _ _ _ _ _ _ _ _ _ _). destruct Hfl.
  assert (Hbit : forall i, (i < length (ring_slots r))%nat -> bit_test (occupancy_bitmap r1) i = false).
  { intros i Hi. rewrite fl_bits0. destruct (bit_test (occupancy_bitmap r) i) eqn:Eb; [|done].
    rewrite bool_decide_eq_true_2 by (by apply Hidx). done. }
  assert (Hnone : forall d, (d < length (ring_slots r))%nat -> stored_at r' d = None).
  { intros d Hd. unfold stored_at. cbn [r' occupancy_bitmap]. rewrite Hbit; [done|].
    unfold slot_at. cbn [r' ring_slots base_index]. rewrite fl_window0. apply Nat.mod_upper_bound. lia. }
  split_and!; try done.
  - rewrite <-(pending_buffered r Hw). by rewrite Hperm.
  - assert (Hall : Forall (fun e => sequence (default StoredPacket_default (ring_slots r !! e.2)) = e.1) es).
    { apply Forall_forall. intros [sq i] Hi. rewrite Hperm in Hi.
      apply elem_of_pending in Hi as (slot & Hs & _ & _ & <-). cbn [fst snd]. by rewrite Hs. }
    pose proof (sort_pending_sorted (pending r)) as Hsort. fold es in Hsort. revert Hall Hsort. clear.
    generalize es. clear es. intros es Hall Hs. induction Hs as [|e es Hs IH Hh]; [constructor|].
    apply Forall_cons_1 in Hall as [He Hall]. cbn [fmap list_fmap]. constructor; [by apply IH|].
    destruct Hh as [|e2 es Hle]; [constructor|]. apply Forall_cons_1 in Hall as [He2 _].
    cbn [fmap list_fmap]. constructor. cbn. by rewrite He, He2.
  - intros d Hd. apply Hnone. cbn [r' ring_slots] in Hd. by rewrite fl_window0 in Hd.
  - constructor.
    + constructor; cbn [r' ring_slots occupancy_bitmap base_index next_expected_seq stats set_buffer_size current_buffer_size];
        rewrite ?fl_window0, ?fl_bitmap0, ?fl_base0, ?fl_next0; try done.
      * intros d p Hd. by rewrite Hnone.
      * unfold bits. cbn [r' ring_slots occupancy_bitmap]. rewrite fl_window0.
        assert (bit_test (occupancy_bitmap r1) <$> seq 0 (length (ring_slots r)) =
          replicate (length (ring_slots r)) false) as ->; [|by rewrite count_true_replicate_false].
        symmetry. apply replicate_as_Forall. rewrite length_fmap, length_seq. split; [done|].
        apply Forall_fmap, Forall_forall. intros i Hi. apply elem_of_seq in Hi. cbn.
        symmetry. apply Hbit. lia.
    + cbn. rewrite fl_in0. apply wrap_range. lia.
    + intros _ d Hd. apply Hnone. cbn [r' ring_slots] in Hd. by rewrite fl_window0 in Hd.
  - unfold accounted. cbn [r' stats set_buffer_size packets_in_order packets_duplicate current_buffer_size].
    rewrite fl_in0, fl_dup0, Hlen. wrap_lia.
  - cbn. rewrite fl_in0, length_fmap. done.
Qed.

(** ** The account by lists *)

(** The packets that carry a frame: zero fill is left out. *)
Definition frames_in (ps : list OrderedPacket) : list OrderedPacket := filter (fun p => is_zero_filled p = false) ps.

(** What is handed over and what stays is what was there and what was taken. *)
Definition conserves (r r' : Reorderer) (outs taken : list OrderedPacket) : Prop :=
  frames_in outs ++ buffered r' ≡ₚ taken ++ buffered r.

Lemma conserves_refl r : conserves r r [] [].
Proof. unfold conserves. done. Qed.

Lemma frames_in_app l1 l2 : frames_in (l1 ++ l2) = frames_in l1 ++ frames_in l2.
Proof. apply list_basics.list.filter_app. Qed.

#[export] Instance frames_in_proper : Proper ((≡ₚ) ==> (≡ₚ)) frames_in.
Proof. intros l1 l2 Hl. unfold frames_in. by rewrite Hl. Qed.

Lemma frames_in_all ps : Forall (fun p => is_zero_filled p = false) ps -> frames_in ps = ps.
Proof. induction 1 as [|p ps Hp _ IH]; [done|]. unfold frames_in. rewrite filter_cons_True by done. by f_equal. Qed.

Lemma handed_over_frames r ds : frames_in (omap (fun d => out_of r d <$> stored_at r d) ds) = omap (fun d => out_of r d <$> stored_at r d) ds.
Proof.
  apply frames_in_all, Forall_forall. intros p Hp. apply list_elem_of_omap in Hp as (d & _ & Hd).
  by destruct (stored_at r d); [injection Hd as <-|].
Qed.

Lemma buffered_frames r : frames_in (buffered r) = buffered r.
Proof. apply handed_over_frames. Qed.

(** The window moves on by [k] places. *)
Lemma shift_buffered r r' k :
  (k <= window r)%nat -> window r' = window r -> next_expected_seq r' = next_expected_seq r +[32] Z.of_nat k ->
  (forall d, (d < window r)%nat -> stored_at r' d = if (d + k <? window r)%nat then stored_at r (d + k) else None) ->
  buffered r = handed_over r k ++ buffered r'.
Proof.
  intros Hk Hw Hn Hst. unfold buffered, handed_over. rewrite Hw.
  assert (E1 : seq 0 (window r) = seq 0 k ++ seq k (window r - k)) by (change k with (0 + k)%nat at 2; rewrite <-seq_app; f_equal; lia).
  assert (E2 : seq 0 (window r) = seq 0 (window r - k) ++ seq (window r - k) k) by (change (window r - k)%nat with (0 + (window r - k))%nat at 2; rewrite <-seq_app; f_equal; lia).
  rewrite E1 at 1. rewrite E2, !omap_app. f_equal.
  assert (omap (fun d => out_of r' d <$> stored_at r' d) (seq (window r - k) k) = []) as ->.
  { apply elem_of_nil_inv. intros x Hx. apply list_elem_of_omap in Hx as (d & Hd & Hx). apply elem_of_seq in Hd.
    rewrite Hst in Hx by lia. destruct (Nat.ltb_spec (d + k) (window r)); [lia|done]. }
  rewrite app_nil_r. assert (Hgen : forall n a, (a + n <= window r - k)%nat ->
    omap (fun d => out_of r d <$> stored_at r d) (seq (a + k) n) = omap (fun d => out_of r' d <$> stored_at r' d) (seq a n)).
  { induction n as [|n IH]; intros a Ha; [done|]. cbn [seq omap list_omap]. rewrite Hst by lia.
    destruct (Nat.ltb_spec (a + k) (window r)); [|lia]. change (S (a + k)) with (S a + k)%nat. rewrite IH by lia.
    destruct (stored_at r (a + k)); [|done]. cbn [fmap option_fmap option_map]. f_equal. unfold out_of. f_equal.
    rewrite Hn, wrap_add_l by lia. f_equal. lia. }
  exact (Hgen (window r - k)%nat 0%nat ltac:(lia)).
Qed.

Lemma advanced_buffered r r' k : advanced r r' k -> buffered r = handed_over r k ++ buffered r'.
Proof. intros []. by apply shift_buffered. Qed.

(** The head of the window is free. *)
Lemma head_free r : reorder_wf r -> stored_at r 0 = None.
Proof.
  intros [Hw _ _]. pose proof Hw as [Hsz _ _ _ Hst _]. destruct (stored_at r 0) as [p|] eqn:E; [|done].
  destruct (Hst 0%nat p ltac:(lia) E). lia.
Qed.

Lemma step_buffered r r1 :
  reorder_wf r -> window r1 = window r -> next_expected_seq r1 = next_expected_seq r +[32] 1 ->
  (forall d, (d < window r)%nat -> stored_at r1 d = if (S d <? window r)%nat then stored_at r (S d) else None) ->
  buffered r1 = buffered r.
Proof.
  intros Hr Hw Hn Hst. pose proof (ww_size _ _ (ro_window _ Hr)). rewrite (shift_buffered r r1 1); [|lia|done|done|].
  - unfold handed_over. cbn. by rewrite head_free.
  - intros d Hd. rewrite Nat.add_1_r. by apply Hst.
Qed.

Lemma stored_buffered r r' d p :
  (d < window r)%nat -> window r' = window r -> next_expected_seq r' = next_expected_seq r -> stored_at r d = None ->
  (forall d', (d' < window r)%nat -> stored_at r' d' = if decide (d' = d) then Some p else stored_at r d') ->
  buffered r' ≡ₚ out_of r d p :: buffered r.
Proof.
  intros Hd Hw Hn Hnone Hst. unfold buffered. rewrite Hw.
  replace (window r) with (d + S (window r - S d))%nat by lia. rewrite seq_app, !omap_app. cbn [seq omap list_omap Nat.add].
  rewrite Hnone, Hst by lia. rewrite decide_True by done. cbn [fmap option_fmap option_map].
  assert (Hsame : forall l : list nat, Forall (fun d' => (d' < window r)%nat /\ d' <> d) l ->
    omap (fun d => out_of r' d <$> stored_at r' d) l = omap (fun d => out_of r d <$> stored_at r d) l).
  { induction 1 as [|a l [Ha Hne] _ IH]; [done|]. cbn [omap list_omap].
    rewrite Hst, decide_False, IH by done. destruct (stored_at r a); [|done].
    cbn [fmap option_fmap option_map]. unfold out_of. by rewrite Hn. }
  rewrite !Hsame.
  - unfold out_of. rewrite Hn. by rewrite Permutation_middle.
  - apply Forall_forall. intros d' Hd'. apply elem_of_seq in Hd'. lia.
  - apply Forall_forall. intros d' Hd'. apply elem_of_seq in Hd'. lia.
Qed.

(** A packet is taken, or rejected and counted. *)
Lemma insert_conserves clock r h pl sz :
  reorder_wf r -> initialized r = true -> output_callback_ r = true -> is_u32 (sequence_number h) ->
  exists r' outs, insert_owned clock r h pl sz = Some (r', outs) /\
    (conserves r r' outs [ordered h pl sz (sequence_number h)] /\ packets_duplicate (stats r') = packets_duplicate (stats r) \/
     conserves r r' outs [] /\ packets_duplicate (stats r') = inc64 (packets_duplicate (stats r))).
Proof.
  intros Hr Hi Hcb Hs. destruct (insert_initialized_spec clock r h pl sz Hr Hi Hs) as (r' & outs & E & _ & Hres).
  exists r', outs. split; [done|]. unfold conserves.
  destruct Hres as [r1 r0 k _ Hst Hnx Hw _ Hdp _ _ _ _ Hadv|r0 d Hd Hsq Hnone Hnx Hw _ _ _ _ Hdp _ Hst|_].
  - left. split; [|by destruct Hadv; cbn; congruence]. unfold emit. rewrite Hcb. cbn [app].
    rewrite <-(step_buffered r r1), (advanced_buffered r1 r0 k) by done. cbn [frames_in].
    unfold frames_in. rewrite filter_cons_True by done. cbn [app]. fold (frames_in (handed_over r1 k)).
    unfold handed_over. by rewrite handed_over_frames.
  - left. split; [|done]. cbn [frames_in]. rewrite (stored_buffered r r0 d) by (done || lia). cbn [app]. apply reflexive_eq.
    unfold out_of. cbn [stored_header stored_payload stored_payload_size]. by rewrite Hsq.
  - right. by split.
Qed.

Lemma timeout_conserves clock r :
  reorder_wf r -> output_callback_ r = true ->
  exists r' outs, check_timeout clock r = Some (r', outs) /\ conserves r r' outs [] /\
    packets_duplicate (stats r') = packets_duplicate (stats r).
Proof.
  intros Hr Hcb. pose proof Hr as [Hw Hin _]. unfold check_timeout, conserves. destruct (initialized r) eqn:Ei; cbn [negb]; [|by exists r, []].
  destruct (_ <? _); [eexists _, _; split; [done|]; by split|]. set (s := mkReorderStats _ _ _ _ _ _).
  destruct (step_and_advance clock r (clock (clock_reads r)) (S (clock_reads r)) s Hw Hin eq_refl) as (Hst & r1 & k & -> & Hadv).
  cbn [mbind option_bind]. eexists _, _. split; [done|]. split; [|by destruct Hadv].
  rewrite Hcb. cbn [app]. set (rs := step_window _ _ _ _ _ _) in *.
  assert (Hb : buffered rs = buffered r) by (by apply step_buffered).
  change (buffered (sync_buffered r1)) with (buffered r1).
  rewrite <-Hb, (advanced_buffered rs r1 k Hadv), frames_in_app. unfold handed_over. rewrite handed_over_frames.
  unfold emit. rewrite Hcb. by destruct (enable_zero_fill _).
Qed.

Lemma flush_conserves r :
  reorder_wf r -> output_callback_ r = true -> let '(r', outs, _) := flush r in conserves r r' outs [] /\
    packets_duplicate (stats r') = packets_duplicate (stats r).
Proof.
  intros Hr Hcb. destruct (flush_spec r Hr) as (r' & outs & -> & Hp & _ & Hnone & _ & _ & _ & _ & _ & _ & _ & _ & Hd & _).
  rewrite Hcb. split; [|done]. unfold conserves. cbn [app].
  assert (buffered r' = []) as ->.
  { unfold buffered. apply elem_of_nil_inv. intros x Hx. apply list_elem_of_omap in Hx as (d & Hd' & Hx).
    apply elem_of_seq in Hd'. rewrite Hnone in Hx by lia. done. }
  by rewrite app_nil_r, Hp, buffered_frames.
Qed.

End ReordererFlush.
