(* ===== verification/ReordererLaws.v ===== *)
(** The theorems on the reorderer: consecutive output along any trace, sorted
    output for any arrival order inside the window, conservation of packets,
    and flush. *)

From S2P Require Import Prelude Protocol Reorderer ReordererProps ReordererFlush.
From stdpp Require Import sorting.
Open Scope Z_scope.
Import Protocol Reorderer ReordererProps ReordererFlush.

Module ReordererLaws.

(** ** Traces *)

Inductive ROp :=
  | RInsert (p : ParsedPacket)
  | RInsertOwned (h : CommonHeader) (payload : option bytes) (size : Z)
  | RTimeout
  | RSetTimeout (t : Z)
  | RFlush.

Definition rop_ok (o : ROp) : Prop :=
  match o with
  | RInsert p => is_u32 (sequence_number (header p))
  | RInsertOwned h _ _ => is_u32 (sequence_number h)
  | _ => True
  end.

Definition rstep (clock : nat -> Z) (r : Reorderer) (o : ROp) : option (Reorderer * list OrderedPacket) :=
  match o with
  | RInsert p => insert clock r p
  | RInsertOwned h pl sz => insert_owned clock r h pl sz
  | RTimeout => check_timeout clock r
  | RSetTimeout t => Some (set_timeout_ms r t, [])
  | RFlush => let '(r, outs, _) := flush r in Some (r, outs)
  end.

Fixpoint rrun (clock : nat -> Z) (r : Reorderer) (ops : list ROp) : option (Reorderer * list OrderedPacket) :=
  match ops with
  | [] => Some (r, [])
  | o :: ops => '(r, outs) ← rstep clock r o; '(r, outs') ← rrun clock r ops; Some (r, outs ++ outs')
  end.

(** The same run with what each operation hands over. *)
Fixpoint rlog (clock : nat -> Z) (r : Reorderer) (ops : list ROp)
    : option (Reorderer * list (ROp * list OrderedPacket)) :=
  match ops with
  | [] => Some (r, [])
  | o :: ops => '(r, outs) ← rstep clock r o; '(r, log) ← rlog clock r ops; Some (r, (o, outs) :: log)
  end.

(** What a log hands over in the course of the window, flushes left out. *)
Definition in_window (log : list (ROp * list OrderedPacket)) : list OrderedPacket :=
  concat ((fun e => match e.1 with RFlush => [] | _ => e.2 end) <$> log).

(** [n] consecutive 32-bit sequence numbers from [s]. *)
Definition consecutive (s : Z) (n : nat) : list Z := (fun i => s +[32] Z.of_nat i) <$> seq 0 n.

Definition is_insert (o : ROp) : bool :=
  match o with RInsert _ | RInsertOwned _ _ _ => true | _ => false end.

(** The sequence number of the first packet of a trace. *)
Fixpoint first_seq (ops : list ROp) : option Z :=
  match ops with
  | [] => None
  | RInsert p :: _ => Some (sequence_number (header p))
  | RInsertOwned h _ _ :: _ => Some (sequence_number h)
  | _ :: ops => first_seq ops
  end.

(** A packet [1 .. w-1] places ahead of the number [s]. *)
Definition ahead (w : nat) (s : Z) (p : OrderedPacket) : Prop :=
  exists d, (1 <= d < w)%nat /\ out_sequence_number p = s +[32] Z.of_nat d.

Definition by_number (a b : OrderedPacket) : Prop := out_sequence_number a <= out_sequence_number b.

(** Along a log the expected number goes from [s] to [s']: each operation hands
    over consecutive numbers, a flush packets ahead of the expected number. *)
Fixpoint log_ok (w : nat) (s : Z) (log : list (ROp * list OrderedPacket)) (s' : Z) : Prop :=
  match log with
  | [] => s' = s
  | (RFlush, outs) :: log => Sorted by_number outs /\ Forall (ahead w s) outs /\ log_ok w s log s'
  | (_, outs) :: log =>
    exists n, out_sequence_number <$> outs = consecutive s n /\ log_ok w (s +[32] Z.of_nat n) log s'
  end.

(** ** Lemmas *)

Lemma consecutive_length s n : length (consecutive s n) = n.
Proof. unfold consecutive. by rewrite length_fmap, length_seq. Qed.

Lemma consecutive_app s n m :
  consecutive s n ++ consecutive (s +[32] Z.of_nat n) m = consecutive s (n + m).
Proof.
  unfold consecutive. rewrite seq_app, fmap_app. f_equal. cbn [Nat.add].
  apply list_eq. intros i. rewrite !list_lookup_fmap.
  destruct (decide (i < m)%nat) as [Hi|Hi].
  - rewrite !lookup_seq_lt by done. cbn [fmap option_fmap option_map]. f_equal.
    rewrite wrap_add_l by lia. f_equal. lia.
  - by rewrite !lookup_seq_ge by lia.
Qed.

Lemma consecutive_cons s n : is_u32 s -> s :: consecutive (s +[32] 1) n = consecutive s (S n).
Proof.
  intros Hs. change (S n) with (1 + n)%nat. rewrite <-consecutive_app. unfold consecutive at 2. cbn.
  change (Z.of_nat 0) with 0. by rewrite Z.add_0_r, (wrap_small 32 s).
Qed.

Lemma handed_over_seqs r k :
  (forall d, (d < k)%nat -> is_Some (stored_at r d)) ->
  out_sequence_number <$> handed_over r k = consecutive (next_expected_seq r) k.
Proof.
  unfold handed_over, consecutive. induction k as [|k IH]; intros Hk; [done|].
  rewrite seq_S, omap_app, !fmap_app, IH by (intros d Hd; apply Hk; lia). f_equal.
  destruct (Hk k ltac:(lia)) as [p Hp]. cbn. by rewrite Hp.
Qed.

(** What an operation does to an initialised reorderer. *)
Record op_effect (r : Reorderer) (o : ROp) (r' : Reorderer) (outs : list OrderedPacket) : Prop := {
  oe_wf : reorder_wf r';
  oe_init : initialized r' = true;
  oe_config : config_ r' = config_ r;
  oe_callback : output_callback_ r' = output_callback_ r;
  oe_window : length (ring_slots r') = length (ring_slots r);
  oe_seqs : output_callback_ r = true -> enable_zero_fill (config_ r) = true ->
    log_ok (length (ring_slots r)) (next_expected_seq r) [(o, outs)] (next_expected_seq r');
  oe_accounted : accounted r' = accounted r +[64] (if is_insert o then 1 else 0)
}.

(** An operation other than a flush. *)
Lemma log_ok_one w s o outs s' n :
  o <> RFlush -> out_sequence_number <$> outs = consecutive s n -> s' = s +[32] Z.of_nat n -> log_ok w s [(o, outs)] s'.
Proof. intros Ho E ->. destruct o; try done; by exists n. Qed.

Lemma log_ok_none w s o : o <> RFlush -> is_u32 s -> log_ok w s [(o, [])] s.
Proof. intros Ho Hs. apply (log_ok_one _ _ _ _ _ 0); [done..|]. by rewrite Z.add_0_r, wrap_small. Qed.

(** Nothing handed over, nothing expected. *)
Lemma log_ok_fresh w s o : is_u32 s -> log_ok w s [(o, [])] s.
Proof. intros Hs. destruct o; try (by apply log_ok_none). cbn. split_and!; [constructor|constructor|done]. Qed.

Lemma log_ok_cons w s e log s1 s2 : log_ok w s [e] s1 -> log_ok w s1 log s2 -> log_ok w s (e :: log) s2.
Proof.
  destruct e as [o outs]. intros H1 H2. destruct o; cbn [log_ok] in *.
  all: try (destruct H1 as (n & E & ->); by exists n). by destruct H1 as (? & ? & ->).
Qed.

(** What the log hands over in the window is consecutive. *)
Lemma log_ok_window w log : forall s s', is_u32 s -> log_ok w s log s' ->
  exists n, out_sequence_number <$> in_window log = consecutive s n /\ s' = s +[32] Z.of_nat n.
Proof.
  unfold in_window. induction log as [|[o outs] log IH]; intros s s' Hs Hl.
  { exists 0%nat. cbn in *. by rewrite Z.add_0_r, wrap_small. }
  destruct o; cbn [log_ok] in Hl.
  5: { destruct Hl as (_ & _ & Hl). cbn [fmap list_fmap fst concat app]. by apply IH. }
  all: destruct Hl as (n & E & Hl); destruct (IH (s +[32] Z.of_nat n) s') as (m & E2 & ->); [apply wrap_range; lia|done|].
  all: exists (n + m)%nat; cbn [fmap list_fmap fst snd concat]; rewrite fmap_app, E, E2, consecutive_app; split; [done|].
  all: rewrite wrap_add_l by lia; f_equal; lia.
Qed.

Lemma log_ok_split w log1 : forall s log2 s', log_ok w s (log1 ++ log2) s' ->
  exists s1, log_ok w s log1 s1 /\ log_ok w s1 log2 s'.
Proof.
  induction log1 as [|[o outs] log1 IH]; intros s log2 s' Hl; [by exists s|].
  cbn [app log_ok] in Hl. destruct o; cbn [log_ok].
  5: { destruct Hl as (Hs & Ha & Hl). apply IH in Hl as (s1 & H1 & H2). by exists s1. }
  all: destruct Hl as (n & E & Hl); apply IH in Hl as (s1 & H1 & H2); exists s1; split; [by exists n|done].
Qed.

Lemma insert_as_owned clock r p :
  exists pl sz, insert clock r p = insert_owned clock r (header p) pl sz.
Proof. unfold insert. case_match. by eexists _, _. Qed.

Lemma insert_owned_effect clock r h pl sz o :
  reorder_wf r -> initialized r = true -> is_u32 (sequence_number h) -> is_insert o = true ->
  exists r' outs, insert_owned clock r h pl sz = Some (r', outs) /\ op_effect r o r' outs.
Proof.
  intros Hr Hi Hs Ho.
  destruct (insert_initialized_spec clock r h pl sz Hr Hi Hs) as (r' & outs & E & Hr' & Hres).
  exists r', outs. split; [done|].
  pose proof (ww_next _ _ (ro_window _ Hr)) as Hn. assert (Hnf : o <> RFlush) by (by destruct o).
  destruct Hres as [r1 r0 k Hsq _ Hnx Hw Hin Hdp Hbf Hcf Hcb Hini Hadv|r0 d Hd _ _ Hnx Hw Hcf Hcb Hini Hin Hdp Hbf _|_].
  - destruct Hadv. constructor; [done|cbn; congruence|cbn; congruence|cbn; congruence|cbn; congruence| |].
    + intros Hc _. apply (log_ok_one _ _ _ _ _ (S k)); [done|..]; unfold emit; rewrite ?Hc; cbn [app fmap list_fmap].
      * rewrite handed_over_seqs by done. by rewrite Hnx, Hsq, consecutive_cons.
      * cbn. rewrite ad_next0, Hnx, wrap_add_l by lia. f_equal. lia.
    + unfold accounted. rewrite Ho. cbn [sync_buffered stats set_buffer_size packets_in_order packets_duplicate current_buffer_size].
      rewrite (sync_buffered_size r0 1), ad_in0, ad_dup0, ad_buf0, Hin, Hdp, Hbf by done. unfold inc64. wrap_lia.
  - constructor; try done; try congruence.
    + intros _ _. rewrite Hnx. by apply log_ok_none.
    + unfold accounted. rewrite Ho, Hin, Hdp, Hbf. wrap_lia.
  - constructor; try done.
    + intros _ _. by apply log_ok_none.
    + unfold accounted. rewrite Ho. cbn [with_stats stats count_duplicate packets_in_order packets_duplicate current_buffer_size].
      unfold inc64. wrap_lia.
Qed.

Lemma check_timeout_effect clock r :
  reorder_wf r -> initialized r = true ->
  exists r' outs, check_timeout clock r = Some (r', outs) /\ op_effect r RTimeout r' outs.
Proof.
  intros Hr Hi. pose proof Hr as [Hw Hin Hfr]. pose proof (ww_next _ _ Hw) as Hn.
  unfold check_timeout. rewrite Hi. cbn [negb]. destruct (_ <? _).
  - eexists _, _. split; [done|]. constructor; try done.
    + constructor; [|done|done]. destruct Hw. constructor; try done.
      intros d p Hd Hp. destruct (ww_stored0 d p Hd Hp) as [? [? ?]]. split; [|constructor]; done.
    + intros _ _. by apply log_ok_none.
    + unfold accounted. cbn. wrap_lia.
  - set (s := mkReorderStats _ _ _ _ _ _).
    destruct (step_and_advance clock r (clock (clock_reads r)) (S (clock_reads r)) s Hw Hin eq_refl)
      as (_ & r' & k & -> & Hadv).
    cbn [mbind option_bind]. eexists _, _. split; [done|]. destruct Hadv. constructor.
    + constructor; [by apply sync_buffered_wf|cbn; rewrite ad_in0; apply wrap_range; lia|].
      cbn. rewrite ad_init0. cbn. congruence.
    + cbn. by rewrite ad_init0.
    + cbn. by rewrite ad_config0.
    + cbn. by rewrite ad_callback0.
    + cbn. by rewrite ad_window0.
    + intros Hc Hz. apply (log_ok_one _ _ _ _ _ (S k)); [done|..]; rewrite ?Hz; unfold emit; rewrite ?Hc; cbn [app fmap list_fmap].
      * rewrite handed_over_seqs by done. cbn [step_window next_expected_seq out_sequence_number create_zero_filled_packet].
        by rewrite consecutive_cons.
      * cbn. rewrite ad_next0. cbn. rewrite wrap_add_l by lia. f_equal. lia.
    + unfold accounted. cbn [sync_buffered stats set_buffer_size packets_in_order packets_duplicate current_buffer_size is_insert].
      rewrite (sync_buffered_size r' 1), ad_in0, ad_dup0, ad_buf0 by done.
      cbn [step_window stats s packets_in_order packets_duplicate current_buffer_size]. wrap_lia.
Qed.

(** Another time-out keeps the window. *)
Lemma set_timeout_wf r t : reorder_wf r -> reorder_wf (set_timeout_ms r t).
Proof.
  intros [Hw Hin Hfr]. constructor; [|done|done]. destruct Hw. constructor; try done.
  intros d p Hd Hp. destruct (ww_stored0 d p Hd Hp) as [? [? ?]]. split; [|constructor]; done.
Qed.

(** The buffered packets are ahead of the expected number. *)
Lemma buffered_ahead r : reorder_wf r -> Forall (ahead (length (ring_slots r)) (next_expected_seq r)) (buffered r).
Proof.
  intros [Hw _ _]. pose proof Hw as [_ _ _ _ Hst _]. apply Forall_forall. intros p Hp.
  apply list_elem_of_omap in Hp as (d & Hd & Hp). apply elem_of_seq in Hd.
  destruct (stored_at r d) as [q|] eqn:E; [|done]. injection Hp as <-.
  destruct (Hst d q ltac:(lia) E) as [Hlo _]. exists d. split; [lia|done].
Qed.

Lemma flush_effect clock r :
  reorder_wf r -> initialized r = true ->
  exists r' outs, rstep clock r RFlush = Some (r', outs) /\ op_effect r RFlush r' outs.
Proof.
  intros Hr Hi. cbn [rstep].
  destruct (flush_spec r Hr) as (r' & outs & -> & Hp & Hs & _ & Hr' & _ & Ha & Hn & Hc & Hcb & Hini & Hw & _ & _).
  eexists _, _. split; [done|]. constructor; try done; try congruence.
  - intros Hc' _. rewrite Hc'. cbn [log_ok]. split_and!; [done| |done]. rewrite Hp. by apply buffered_ahead.
  - rewrite Ha. unfold accounted. cbn [is_insert]. wrap_lia.
Qed.

Lemma rstep_effect clock r o :
  reorder_wf r -> initialized r = true -> rop_ok o ->
  exists r' outs, rstep clock r o = Some (r', outs) /\ op_effect r o r' outs.
Proof.
  intros Hr Hi Ho. destruct o as [p|h pl sz| |t|]; cbn [rop_ok] in *.
  - cbn [rstep]. destruct (insert_as_owned clock r p) as (pl & sz & ->). by apply insert_owned_effect.
  - by apply insert_owned_effect.
  - by apply check_timeout_effect.
  - eexists _, _. split; [done|]. pose proof (ww_next _ _ (ro_window _ Hr)) as Hn.
    constructor; try done; [by apply set_timeout_wf|intros _ _; by apply log_ok_none|]. unfold accounted. cbn. wrap_lia.
  - by apply flush_effect.
Qed.

(** The log of a run, and what it does to an initialised reorderer. *)
Record log_effect (r : Reorderer) (s : Z) (ops : list ROp) (r' : Reorderer) (log : list (ROp * list OrderedPacket)) : Prop := {
  le_wf : reorder_wf r';
  le_ops : log.*1 = ops;
  le_seqs : output_callback_ r = true -> enable_zero_fill (config_ r) = true ->
    log_ok (length (ring_slots r)) s log (next_expected_seq r');
  le_accounted : accounted r' = accounted r +[64] Z.of_nat (length (filter (fun o => is_insert o = true) ops))
}.

Lemma rlog_step clock r s o ops r1 o1 r2 log :
  rstep clock r o = Some (r1, o1) -> reorder_wf r1 -> config_ r1 = config_ r -> output_callback_ r1 = output_callback_ r ->
  length (ring_slots r1) = length (ring_slots r) ->
  (output_callback_ r = true -> enable_zero_fill (config_ r) = true ->
    log_ok (length (ring_slots r)) s [(o, o1)] (next_expected_seq r1)) ->
  accounted r1 = accounted r +[64] (if is_insert o then 1 else 0) ->
  rlog clock r1 ops = Some (r2, log) -> log_effect r1 (next_expected_seq r1) ops r2 log ->
  rlog clock r (o :: ops) = Some (r2, (o, o1) :: log) /\ log_effect r s (o :: ops) r2 ((o, o1) :: log).
Proof.
  intros E1 Hr1 Hcf Hcb Hw Hl Ha E2 [Hr2 Hops Hl2 Ha2]. cbn [rlog]. rewrite E1. cbn [mbind option_bind]. rewrite E2.
  split; [done|]. constructor; [done|cbn; by f_equal| |].
  - intros Hc Hz. eapply log_ok_cons; [by apply Hl|]. rewrite <-Hw. apply Hl2; congruence.
  - rewrite Ha2, Ha, filter_cons. destruct (is_insert o);
      [rewrite decide_True by done|rewrite decide_False by done]; cbn [length]; rewrite wrap_add_l by lia; f_equal; lia.
Qed.

Lemma log_effect_nil r : reorder_wf r -> log_effect r (next_expected_seq r) [] r [].
Proof. intros Hr. constructor; try done. unfold accounted. cbn. wrap_lia. Qed.

Lemma rlog_effect clock ops r :
  reorder_wf r -> initialized r = true -> Forall rop_ok ops ->
  exists r' log, rlog clock r ops = Some (r', log) /\ log_effect r (next_expected_seq r) ops r' log.
Proof.
  intros Hr Hi Hops. revert r Hr Hi. induction Hops as [|o ops Ho _ IH]; intros r Hr Hi.
  { exists r, []. split; [done|]. by apply log_effect_nil. }
  destruct (rstep_effect clock r o Hr Hi Ho) as (r1 & o1 & E1 & [Hr1 Hi1 Hcf Hcb Hw Hsq Hac]).
  destruct (IH r1 Hr1 Hi1) as (r2 & log & E2 & Hl). eexists _, _. by eapply rlog_step.
Qed.

Lemma init_reorder_wf clock cfg cb : 1 <= Z.max 1 (window_size cfg) <= 2 ^ 31 ->
  reorder_wf (Reorderer_init clock cfg cb).
Proof.
  intros Hw. unfold Reorderer_init. set (w := Z.to_nat (Z.max 1 (window_size cfg))).
  assert (Hbit : forall i, bit_test (replicate ((w + 63) / 64) 0) i = false).
  { intros i. rewrite bit_test_spec. unfold bit_word.
    assert (default 0 (replicate ((w + 63) / 64) 0 !! (i / 64)%nat) = 0) as ->; [|apply Z.bits_0].
    destruct (replicate ((w + 63) / 64) 0 !! (i / 64)%nat) as [x|] eqn:E; [|done].
    apply lookup_replicate in E as [-> _]. done. }
  assert (Hno : forall r d, occupancy_bitmap r = replicate ((w + 63) / 64) 0 -> stored_at r d = None).
  { intros r d Hr. unfold stored_at. by rewrite Hr, Hbit. }
  constructor; [|cbn; unfold in_range; lia|intros _ d _; by apply Hno].
  constructor; cbn [ring_slots occupancy_bitmap base_index next_expected_seq stats current_buffer_size];
    rewrite ?length_replicate; try (unfold in_range; lia); try done.
  - intros d p _. by rewrite Hno.
  - unfold bits. cbn [ring_slots occupancy_bitmap]. rewrite length_replicate.
    assert (bit_test (replicate ((w + 63) / 64) 0) <$> seq 0 w = replicate w false) as ->.
    { symmetry. apply replicate_as_Forall. rewrite length_fmap, length_seq. split; [done|].
      apply Forall_fmap, Forall_true. intros i. cbn. symmetry. apply Hbit. }
    by rewrite count_true_replicate_false.
Qed.

(** The first packet of an uninitialised reorderer is the expected one. *)
Lemma insert_owned_ensure clock r h pl sz :
  insert_owned clock r h pl sz = insert_owned clock (ensure_initialized r (sequence_number h)) h pl sz.
Proof.
  unfold insert_owned. assert (Hid : ensure_initialized (ensure_initialized r (sequence_number h))
    (sequence_number h) = ensure_initialized r (sequence_number h)); [|by rewrite Hid].
  unfold ensure_initialized. by destruct (initialized r) eqn:E; rewrite ?E.
Qed.

(** One insertion into a fresh reorderer, then the rest of the trace. *)
Lemma rlog_from_insert clock r h pl sz o ops :
  reorder_wf r -> initialized r = false -> is_u32 (sequence_number h) -> Forall rop_ok ops ->
  rstep clock r o = insert_owned clock r h pl sz -> is_insert o = true ->
  exists r' log, rlog clock r (o :: ops) = Some (r', log) /\ log_effect r (sequence_number h) (o :: ops) r' log.
Proof.
  intros Hr Hi Hs Hops Ho Hins.
  destruct (ensure_initialized_spec r (sequence_number h) Hr Hs) as (Hri & Hini & Hw & Hst & Hcf & Hcb & Hnx & _).
  set (ri := ensure_initialized r (sequence_number h)) in *. rewrite Hi in Hnx.
  destruct (insert_owned_effect clock ri h pl sz o Hri Hini Hs Hins) as (r1 & o1 & E1 & [Hr1 Hi1 Hcf1 Hcb1 Hw1 Hsq Hac]).
  destruct (rlog_effect clock ops r1 Hr1 Hi1 Hops) as (r2 & log & E2 & Hl). eexists _, _.
  eapply rlog_step; try done; try congruence.
  - by rewrite Ho, insert_owned_ensure.
  - rewrite <-Hnx, <-Hw, <-Hcb, <-Hcf. done.
  - rewrite Hac. unfold accounted. by rewrite Hst.
Qed.

(** An operation that leaves a fresh reorderer fresh hands over nothing. *)
Lemma fresh_step clock r o :
  reorder_wf r -> initialized r = false -> is_insert o = false ->
  exists r', rstep clock r o = Some (r', []) /\ reorder_wf r' /\ initialized r' = false /\
    config_ r' = config_ r /\ output_callback_ r' = output_callback_ r /\
    length (ring_slots r') = length (ring_slots r) /\ accounted r' = accounted r.
Proof.
  intros Hr Hi Ho. destruct o as [| | |t|]; try done; cbn [rstep].
  - unfold check_timeout. rewrite Hi. by exists r.
  - exists (set_timeout_ms r t). split_and!; try done. by apply set_timeout_wf.
  - destruct (flush_spec r Hr) as (r' & outs & -> & Hp & _ & _ & Hr' & _ & Ha & _ & Hc & Hcb & Hini & Hw & _).
    assert (buffered r = []) as Hb.
    { apply elem_of_nil_inv. intros p Hx. apply list_elem_of_omap in Hx as (d & Hd & Hx). apply elem_of_seq in Hd.
      rewrite (ro_fresh _ Hr) in Hx by (done || lia). done. }
    rewrite Hb in Hp. apply Permutation_nil_r in Hp as ->. exists r'. split_and!; try done; [by case_match|congruence].
Qed.

Lemma rlog_fresh clock ops r :
  reorder_wf r -> initialized r = false -> Forall rop_ok ops ->
  exists r' log, rlog clock r ops = Some (r', log) /\
    match first_seq ops with
    | None => reorder_wf r' /\ log = (fun o => (o, [])) <$> ops
    | Some s => is_u32 s /\ log_effect r s ops r' log
    end /\
    accounted r' = accounted r +[64] Z.of_nat (length (filter (fun o => is_insert o = true) ops)).
Proof.
  intros Hr Hi Hops. revert r Hr Hi. induction Hops as [|o ops Ho Hops IH]; intros r Hr Hi.
  { exists r, []. split_and!; try done. unfold accounted. cbn. wrap_lia. }
  destruct (is_insert o) eqn:Eo.
  - assert (Hins : exists h pl sz, rstep clock r o = insert_owned clock r h pl sz /\ is_u32 (sequence_number h) /\
      first_seq (o :: ops) = Some (sequence_number h)).
    { destruct o as [p|h pl sz| | |]; try done; [|by exists h, pl, sz].
      destruct (insert_as_owned clock r p) as (pl & sz & E). by exists (header p), pl, sz. }
    destruct Hins as (h & pl & sz & E & Hs & ->).
    destruct (rlog_from_insert clock r h pl sz o ops Hr Hi Hs Hops E Eo) as (r' & log & El & Hl).
    exists r', log. split_and!; try done. by destruct Hl.
  - destruct (fresh_step clock r o Hr Hi Eo) as (r1 & E1 & Hr1 & Hi1 & Hc & Hcb & Hw & Ha).
    destruct (IH r1 Hr1 Hi1) as (r2 & log & E2 & Hl & Ha2). cbn [rlog]. rewrite E1. cbn [mbind option_bind]. rewrite E2.
    eexists _, _. split; [done|].
    assert (Hf : first_seq (o :: ops) = first_seq ops) by (by destruct o). rewrite Hf, filter_cons, Eo, decide_False by done.
    rewrite Ha2, Ha. split; [|done]. destruct (first_seq ops) as [s|]; [|by destruct Hl as [? ->]].
    destruct Hl as [Hs [Hw2 Hops2 Hl2 Ha3]]. split; [done|]. constructor; [done|cbn; by f_equal| |].
    + intros Hc' Hz. apply log_ok_cons with (s1 := s); [apply log_ok_fresh; by destruct o|]. rewrite <-Hw. apply Hl2; congruence.
    + by rewrite filter_cons, Eo, decide_False, Ha3, Ha by done.
Qed.

(** The log is the run, operation by operation. *)
Lemma rrun_rlog clock ops : forall r r' log, rlog clock r ops = Some (r', log) -> rrun clock r ops = Some (r', concat log.*2).
Proof.
  induction ops as [|o ops IH]; intros r r' log E; cbn [rlog rrun] in *; [by injection E as <- <-|].
  destruct (rstep clock r o) as [[r1 o1]|]; [|done]. cbn [mbind option_bind] in *.
  destruct (rlog clock r1 ops) as [[r2 l2]|] eqn:E2; [|done]. cbn [mbind option_bind] in E. injection E as <- <-.
  rewrite (IH _ _ _ E2). done.
Qed.

(** ** A block of packets in any order *)

Section Block.

Context (clock : nat -> Z) (s0 : Z) (n : nat).
Context (hd : nat -> CommonHeader) (pl : nat -> option bytes) (sz : nat -> Z).
Hypothesis Hs0 : is_u32 s0.
Hypothesis Hseq : forall i, (i < n)%nat -> sequence_number (hd i) = s0 +[32] Z.of_nat i.

Definition stored_pkt (i : nat) : StoredPacket :=
  mkStoredPacket (sequence_number (hd i)) (hd i) (pl i) (sz i) true.

Definition out_pkt (i : nat) : OrderedPacket := ordered (hd i) (pl i) (sz i) (s0 +[32] Z.of_nat i).

(** The packets of [got] have arrived; those below [m] have been handed over. *)
Record holding (r : Reorderer) (m : nat) (got : list nat) : Prop := {
  ho_wf : reorder_wf r;
  ho_init : initialized r = true;
  ho_callback : output_callback_ r = true;
  ho_next : next_expected_seq r = s0 +[32] Z.of_nat m;
  ho_window : (n <= window r)%nat;
  ho_below : forall i, (i < m)%nat -> i ∈ got;
  ho_next_missing : m ∉ got;
  ho_range : forall i, i ∈ got -> (i < n)%nat;
  ho_stored : forall d, (d < window r)%nat ->
    stored_at r d = if decide ((m + d)%nat ∈ got) then Some (stored_pkt (m + d)) else None
}.

Lemma holding_le r m got : holding r m got -> (m <= n)%nat.
Proof.
  intros Hh. destruct (le_lt_dec m n) as [|Hlt]; [done|].
  pose proof (ho_range _ _ _ Hh n (ho_below _ _ _ Hh n Hlt)). lia.
Qed.

Lemma block_delta m d i :
  (i < n)%nat -> Z.of_nat (m + d) < 2 ^ 32 -> (m <= n)%nat -> Z.of_nat n <= 2 ^ 31 ->
  s0 +[32] Z.of_nat i = (s0 +[32] Z.of_nat m) +[32] Z.of_nat d -> i = (m + d)%nat.
Proof. intros Hi Hmd Hm Hn. rewrite wrap_add_l by lia. intros Heq. revert Heq. wrap_lia. Qed.

Lemma handed_over_block r k m :
  (forall d, (d < k)%nat -> stored_at r d = Some (stored_pkt (m + d))) ->
  next_expected_seq r = s0 +[32] Z.of_nat m -> handed_over r k = out_pkt <$> seq m k.
Proof.
  intros Hst Hn. unfold handed_over. induction k as [|k IH]; [done|].
  rewrite !seq_S, omap_app, fmap_app, IH by (intros d Hd; apply Hst; lia). f_equal.
  cbn [omap list_omap Nat.add]. rewrite Hst by lia. cbn [fmap option_fmap option_map list_fmap].
  f_equal. unfold out_of, out_pkt. cbn [stored_pkt stored_header stored_payload stored_payload_size].
  rewrite Hn, wrap_add_l by lia. do 2 f_equal. lia.
Qed.

Lemma holding_step r m got i :
  holding r m got -> (i < n)%nat -> i ∉ got ->
  exists r' outs m', insert_owned clock r (hd i) (pl i) (sz i) = Some (r', outs) /\
    holding r' m' (i :: got) /\ (m <= m')%nat /\ outs = out_pkt <$> seq m (m' - m).
Proof.
  intros Hh Hi Hni. pose proof (holding_le _ _ _ Hh) as Hmn. pose proof Hh as [Hr Hini Hcb Hnx Hwn Hbel Hmiss Hrng Hst].
  pose proof (Hseq i Hi) as Hsi.
  assert (Hmi : (m <= i)%nat) by (destruct (le_lt_dec m i) as [|Hlt]; [done|by apply Hbel in Hlt]).
  destruct (insert_initialized_spec clock r (hd i) (pl i) (sz i) Hr Hini) as (r' & outs & E & Hr' & Hres).
  { rewrite Hsi. apply wrap_range. lia. }
  pose proof (ww_size _ _ (ro_window _ Hr)) as Hw.
  exists r', outs. destruct Hres as [r1 r2 k Hsq Hst1 Hnx1 Hw1 _ _ _ _ Hcb1 Hini1 Hadv
    |r2 d Hd Hsq Hnone Hnx2 Hw2 _ Hcb2 Hini2 _ _ _ Hst2|Hrej].
  - assert (i = m) as ->.
    { rewrite Hsi, Hnx in Hsq. rewrite <-(Nat.add_0_r m). apply (block_delta m 0 i); try lia.
      change (Z.of_nat 0) with 0. by rewrite Z.add_0_r, wrap_wrap by lia. }
    destruct Hadv. exists (m + 1 + k)%nat. split; [done|].
    assert (Hst1' : forall d, (d < window r)%nat ->
      stored_at r1 d = if decide ((m + 1 + d)%nat ∈ m :: got) then Some (stored_pkt (m + 1 + d)) else None).
    { intros d Hd. rewrite Hst1 by done.
      rewrite (decide_ext _ ((m + S d)%nat ∈ got)) by (rewrite elem_of_cons;
        replace (m + 1 + d)%nat with (m + S d)%nat by lia; intuition lia).
      replace (m + 1 + d)%nat with (m + S d)%nat by lia.
      destruct (Nat.ltb_spec (S d) (window r)); [by rewrite Hst|].
      rewrite decide_False; [done|]. intros Hin%Hrng. lia. }
    assert (Hrun : forall d, (d < k)%nat -> (m + 1 + d)%nat ∈ m :: got).
    { intros d Hd. destruct (ad_run0 d Hd) as [p Hp]. rewrite Hst1' in Hp by lia. by case_decide. }
    assert (Hnxt : next_expected_seq r2 = s0 +[32] Z.of_nat (m + 1 + k)).
    { rewrite ad_next0, Hnx1, Hnx. wrap_lia. }
    assert (Hst' : forall d, (d < window r)%nat -> stored_at (sync_buffered r2) d =
      if decide ((m + 1 + k + d)%nat ∈ m :: got) then Some (stored_pkt (m + 1 + k + d)) else None).
    { intros d Hd. change (stored_at r2 d = if decide ((m + 1 + k + d)%nat ∈ m :: got)
        then Some (stored_pkt (m + 1 + k + d)) else None).
      rewrite ad_stored0, Hw1 by lia. replace (m + 1 + k + d)%nat with (m + 1 + (d + k))%nat by lia.
      destruct (Nat.ltb_spec (d + k) (window r)); [by apply Hst1'|].
      rewrite decide_False; [done|]. intros [?|Hin%Hrng]%elem_of_cons; lia. }
    split; [|split; [lia|]].
    + constructor; try done; cbn.
      * congruence.
      * congruence.
      * congruence.
      * intros j Hj. destruct (lt_eq_lt_dec j m) as [[?| ->]|?]; [|set_solver|].
        -- apply list_elem_of_further. by apply Hbel.
        -- replace j with (m + 1 + (j - m - 1))%nat by lia. apply Hrun. lia.
      * assert (Hz : stored_at r2 0 = None).
        { destruct (stored_at r2 0) as [p|] eqn:Ep; [|done].
          destruct (ww_stored _ _ ad_wf0 0%nat p ltac:(lia) Ep). lia. }
        specialize (Hst' 0%nat ltac:(lia)). change (stored_at r2 0 = if decide ((m + 1 + k + 0)%nat ∈ m :: got)
          then Some (stored_pkt (m + 1 + k + 0)) else None) in Hst'.
        rewrite Hz in Hst'. rewrite Nat.add_0_r in Hst'. by case_decide.
      * intros j [->|Hj]%elem_of_cons; [done|by apply Hrng].
      * intros d Hd. rewrite ad_window0, Hw1 in Hd. by apply Hst'.
    + unfold emit. rewrite Hcb. replace (m + 1 + k - m)%nat with (S k) by lia. cbn [seq fmap list_fmap app]. f_equal.
      { unfold out_pkt. by rewrite Hsi. }
      apply handed_over_block; [|rewrite Hnx1, Hnx; wrap_lia].
      intros d Hd. rewrite Hst1' by lia. rewrite decide_True by (by apply Hrun).
      do 2 f_equal. lia.
  - assert (i = (m + d)%nat) as Hid.
    { rewrite Hsi, Hnx in Hsq. apply block_delta; try done; lia. }
    exists m. split; [done|]. rewrite Nat.sub_diag. split; [|by split].
    constructor; try done; try congruence.
    + intros j Hj. apply list_elem_of_further. by apply Hbel.
    + intros [?|?]%elem_of_cons; [lia|done].
    + intros j [->|Hj]%elem_of_cons; [done|by apply Hrng].
    + intros d' Hd'. rewrite Hw2 in Hd'. rewrite Hst2 by done. case_decide as Hdd.
      * subst d'. rewrite decide_True by (rewrite Hid; set_solver). by rewrite <-Hid.
      * rewrite Hst by done. rewrite (decide_ext _ ((m + d')%nat ∈ i :: got)); [done|].
        rewrite elem_of_cons. intuition lia.
  - exfalso. destruct (Hrej (i - m)%nat) as [Hne [p Hp]]; [lia| |].
    { rewrite Hsi, Hnx, wrap_add_l by lia. f_equal. lia. }
    rewrite Hst in Hp by lia. replace (m + (i - m))%nat with i in Hp by lia. by rewrite decide_False in Hp.
Qed.

Lemma holding_run order : forall r m got,
  holding r m got -> NoDup (order ++ got) -> Forall (fun i => i < n)%nat order ->
  exists r' m', rrun clock r ((fun i => RInsertOwned (hd i) (pl i) (sz i)) <$> order) =
      Some (r', out_pkt <$> seq m (m' - m)) /\ holding r' m' (rev order ++ got) /\ (m <= m')%nat.
Proof.
  induction order as [|i order IH]; intros r m got Hh Hnd Hall.
  { exists r, m. rewrite Nat.sub_diag. by split_and!. }
  apply Forall_cons_1 in Hall as [Hi Hall]. cbn [app] in Hnd. inv Hnd.
  destruct (holding_step r m got i Hh Hi) as (r1 & outs & m1 & E & Hh1 & Hm1 & ->); [set_solver|].
  destruct (IH r1 m1 (i :: got) Hh1) as (r2 & m2 & E2 & Hh2 & Hm2).
  { rewrite Permutation_app_comm. cbn. rewrite Permutation_app_comm. by constructor. }
  { done. }
  exists r2, m2. cbn [fmap list_fmap rrun rstep]. rewrite E. cbn [mbind option_bind].
  rewrite E2. cbn [mbind option_bind]. split; [|split; [|lia]].
  - do 2 f_equal. rewrite <-fmap_app. f_equal.
    replace (m2 - m)%nat with ((m1 - m) + (m2 - m1))%nat by lia. rewrite seq_app. do 2 f_equal. lia.
  - cbn [rev]. by rewrite <-app_assoc.
Qed.

End Block.

(** ** Theorems *)

(** C10: the output is gapless and ordered.  For every trace of insertions (of
    either kind), timeout checks, timeout changes and flushes on a new reorderer
    with zero fill and a window of at most 2^31, the trace terminates and the packets handed over by all
    operations but the flushes carry consecutive 32-bit sequence numbers (modulo
    2^32), starting with that of the first packet; the next expected number is the
    one after the last.  A flush leaves that number as it is; what it hands over
    is sorted by the raw number and lies ahead of all that was handed over in
    the window before it, by less than the size of the window. *)
Theorem reorder_output_consecutive (clock : nat -> Z) (cfg : ReorderConfig) (ops : list ROp)
    (Hwin : Z.max 1 (window_size cfg) <= 2 ^ 31) (Hfill : enable_zero_fill cfg = true)
    (Hops : Forall rop_ok ops) :
  exists r' log,
    rlog clock (Reorderer_init clock cfg true) ops = Some (r', log) /\ reorder_wf r' /\ log.*1 = ops /\
    match first_seq ops with
    | None => Forall (fun e => e.2 = []) log
    | Some s =>
      (exists n, out_sequence_number <$> in_window log = consecutive s n /\
                 next_expected_seq r' = s +[32] Z.of_nat n) /\
      forall log1 outs log2, log = log1 ++ (RFlush, outs) :: log2 ->
        Sorted by_number outs /\
        exists n, out_sequence_number <$> in_window log1 = consecutive s n /\
                  Forall (ahead (Z.to_nat (Z.max 1 (window_size cfg))) (s +[32] Z.of_nat n)) outs
    end.
Proof.
  set (r0 := Reorderer_init clock cfg true).
  assert (Hw : length (ring_slots r0) = Z.to_nat (Z.max 1 (window_size cfg))) by (cbn; by rewrite length_replicate).
  destruct (rlog_fresh clock ops r0) as (r' & log & E & Hl & _); [apply init_reorder_wf; lia|done..|].
  exists r', log. split; [done|]. destruct (first_seq ops) as [s|].
  - destruct Hl as [Hs [Hr' Hlo Hl _]]. specialize (Hl eq_refl Hfill). rewrite Hw in Hl. split_and!; [done..|by eapply log_ok_window|].
    intros log1 outs log2 ->. apply log_ok_split in Hl as (s1 & H1 & H2 & H3 & _). split; [done|].
    destruct (log_ok_window _ _ _ _ Hs H1) as (n & E1 & ->). by exists n.
  - destruct Hl as [Hr' ->]. split_and!; [done| |].
    + rewrite <-list_fmap_compose. apply list_fmap_id.
    + apply Forall_fmap, Forall_forall. done.
Qed.

(** Across the wrap-around; the flush hands over 3, ahead of the zero-filled 0. *)
Lemma reorder_output_consecutive_witness :
  let h s := mkCommonHeader PROTOCOL_MAGIC s 0 0 3 0x31 0 0 0 0 0 0 [0;0;0;0] in
  let clock i := Z.of_nat i * 60000000 in
  exists r' log,
    rlog clock (Reorderer_init clock (mkReorderConfig 4 50 true) true)
      [RInsertOwned (h 0xFFFFFFFF) None 0; RInsertOwned (h 1) None 0; RTimeout; RInsertOwned (h 3) None 0; RFlush; RTimeout]
      = Some (r', log) /\
    map (fun e => map out_sequence_number e.2) log = [[0xFFFFFFFF]; []; [0; 1]; []; [3]; [2]] /\
    exists n, out_sequence_number <$> in_window log = consecutive 0xFFFFFFFF n /\
              next_expected_seq r' = 0xFFFFFFFF +[32] Z.of_nat n.
Proof.
  intros h clock. destruct (reorder_output_consecutive clock (mkReorderConfig 4 50 true)
    [RInsertOwned (h 0xFFFFFFFF) None 0; RInsertOwned (h 1) None 0; RTimeout; RInsertOwned (h 3) None 0; RFlush; RTimeout])
    as (r' & log & E & _ & _ & Hc & _); [vm_compute; discriminate|reflexivity| |].
  - repeat (apply Forall_cons_2; [first [exact I|vm_compute; split; [discriminate|reflexivity]]|]). apply Forall_nil_2.
  - exists r', log. split; [exact E|]. split; [|exact Hc]. clear Hc. vm_compute in E. injection E as _ <-. reflexivity.
Defined.

(** Every inserted packet is accounted for.  Along any trace on a new
    reorderer, packets handed over in order plus packets counted as duplicates
    plus packets buffered (64-bit counters) equal the number of insertions:
    no packet disappears. *)
Theorem reorder_accounts_for_all (clock : nat -> Z) (cfg : ReorderConfig) (cb : bool) (ops : list ROp)
    (Hwin : Z.max 1 (window_size cfg) <= 2 ^ 31) (Hops : Forall rop_ok ops) :
  exists r' outs,
    rrun clock (Reorderer_init clock cfg cb) ops = Some (r', outs) /\
    u64 (packets_in_order (stats r') + packets_duplicate (stats r') + current_buffer_size (stats r')) =
      u64 (Z.of_nat (length (filter (fun o => is_insert o = true) ops))).
Proof.
  destruct (rlog_fresh clock ops (Reorderer_init clock cfg cb)) as (r' & log & E & _ & Ha).
  - apply init_reorder_wf. lia.
  - done.
  - done.
  - exists r', (concat log.*2). split; [by apply rrun_rlog|]. unfold accounted in Ha. rewrite Ha. cbn [Reorderer_init stats packets_in_order packets_duplicate current_buffer_size].
    rewrite wrap_add_l by lia. done.
Qed.

Lemma reorder_accounts_for_all_witness :
  let h s := mkCommonHeader PROTOCOL_MAGIC s 0 0 3 0x31 0 0 0 0 0 0 [0;0;0;0] in
  exists r' outs,
    rrun (fun _ => 0) (Reorderer_init (fun _ => 0) (mkReorderConfig 4 50 true) true)
      [RInsertOwned (h 7) None 0; RInsertOwned (h 9) None 0; RInsertOwned (h 7) None 0] = Some (r', outs) /\
    u64 (packets_in_order (stats r') + packets_duplicate (stats r') + current_buffer_size (stats r')) = u64 3.
Proof.
  intros h. apply (reorder_accounts_for_all (fun _ => 0) (mkReorderConfig 4 50 true) true
    [RInsertOwned (h 7) None 0; RInsertOwned (h 9) None 0; RInsertOwned (h 7) None 0]);
    [vm_compute; discriminate|].
  repeat (apply Forall_cons_2; [vm_compute; split; [discriminate|reflexivity]|]).
  apply Forall_nil_2.
Defined.

(** C14: any arrival order inside the window is sorted.  Let an initialised
    reorderer with an empty buffer expect [s0].  If the [n] packets
    [s0 .. s0+n-1] (modulo 2^32), no more than the window holds, arrive in any
    order, then exactly these packets are handed over, in sequence order, with
    their headers and payloads, and the buffer is empty again. *)
Theorem reorder_any_order (clock : nat -> Z) (r : Reorderer) (n : nat) (order : list nat)
    (hd : nat -> CommonHeader) (pl : nat -> option bytes) (sz : nat -> Z)
    (Hr : reorder_wf r) (Hinit : initialized r = true) (Hcb : output_callback_ r = true)
    (Hempty : forall d, (d < length (ring_slots r))%nat -> stored_at r d = None)
    (Hn : (n <= length (ring_slots r))%nat)
    (Hseq : forall i, (i < n)%nat -> sequence_number (hd i) = next_expected_seq r +[32] Z.of_nat i)
    (Hord : order ≡ₚ seq 0 n) :
  exists r',
    rrun clock r ((fun i => RInsertOwned (hd i) (pl i) (sz i)) <$> order) =
      Some (r', (fun i => ordered (hd i) (pl i) (sz i) (next_expected_seq r +[32] Z.of_nat i)) <$> seq 0 n) /\
    next_expected_seq r' = next_expected_seq r +[32] Z.of_nat n /\
    (forall d, (d < length (ring_slots r'))%nat -> stored_at r' d = None) /\ reorder_wf r'.
Proof.
  pose proof (ww_next _ _ (ro_window _ Hr)) as Hs0. set (s0 := next_expected_seq r) in *.
  assert (Hh : holding s0 n hd pl sz r 0 []).
  { constructor; try done.
    - change (Z.of_nat 0) with 0. by rewrite Z.add_0_r, wrap_small.
    - intros i Hi. lia.
    - apply not_elem_of_nil.
    - intros i Hi. by apply not_elem_of_nil in Hi. }
  destruct (holding_run clock s0 n hd pl sz Hs0 Hseq order r 0 [] Hh) as (r' & m' & E & Hh' & _).
  { rewrite app_nil_r, Hord. apply NoDup_seq. }
  { apply Forall_forall. intros i Hi. rewrite Hord in Hi. apply elem_of_seq in Hi. lia. }
  assert (Hin : forall i, i ∈ rev order ++ [] <-> (i < n)%nat).
  { intros i. rewrite app_nil_r, <-(Permutation_rev order), Hord, elem_of_seq. lia. }
  assert (m' = n) as ->.
  { pose proof (holding_le _ _ _ _ _ _ _ _ Hh'). destruct (decide (m' = n)); [done|].
    destruct (ho_next_missing _ _ _ _ _ _ _ _ Hh'). apply Hin. lia. }
  rewrite Nat.sub_0_r in E. exists r'. split_and!; [exact E|by destruct Hh'| |by destruct Hh'].
  intros d Hd. rewrite (ho_stored _ _ _ _ _ _ _ _ Hh') by done. rewrite decide_False; [done|].
  rewrite Hin. lia.
Qed.

(** Packets 0xFFFFFFFF, 0 and 1 arrive as 1, 0, 0xFFFFFFFF. *)
Lemma reorder_any_order_witness :
  let h i := mkCommonHeader PROTOCOL_MAGIC (0xFFFFFFFF +[32] Z.of_nat i) 0 0 3 0x31 0 0 0 0 0 0 [0;0;0;0] in
  let first := mkCommonHeader PROTOCOL_MAGIC 0xFFFFFFFE 0 0 3 0x31 0 0 0 0 0 0 [0;0;0;0] in
  exists r0 o0 r',
    insert_owned (fun _ => 0) (Reorderer_init (fun _ => 0) (mkReorderConfig 4 50 true) true) first None 0
      = Some (r0, o0) /\
    rrun (fun _ => 0) r0 ((fun i => RInsertOwned (h i) None 0) <$> [2; 1; 0]%nat) =
      Some (r', (fun i => ordered (h i) None 0 (next_expected_seq r0 +[32] Z.of_nat i)) <$> seq 0 3).
Proof.
  intros h first.
  destruct (insert_owned_effect (fun _ => 0) (ensure_initialized
    (Reorderer_init (fun _ => 0) (mkReorderConfig 4 50 true) true) 0xFFFFFFFE) first None 0 (RInsertOwned first None 0))
    as (r0 & o0 & E & [Hw _ _ _ _ _ _]).
  { apply ensure_initialized_spec; [apply init_reorder_wf; vm_compute; split; discriminate|].
    vm_compute; split; [discriminate|reflexivity]. }
  { reflexivity. }
  { vm_compute; split; [discriminate|reflexivity]. }
  { reflexivity. }
  exists r0, o0. rewrite insert_owned_ensure.
  destruct (reorder_any_order (fun _ => 0) r0 3 [2;1;0]%nat h (fun _ => None) (fun _ => 0) Hw) as (r' & Hrun & _).
  - vm_compute in E. injection E as <- <-. reflexivity.
  - vm_compute in E. injection E as <- <-. reflexivity.
  - vm_compute in E. injection E as <- <-. intros d Hd. cbn in Hd.
    do 4 (destruct d as [|d]; [vm_compute; reflexivity|]). lia.
  - vm_compute in E. injection E as <- <-. cbn. lia.
  - vm_compute in E. injection E as <- <-. intros i Hi. reflexivity.
  - etrans; [apply Permutation_swap|]. etrans; [apply perm_skip, Permutation_swap|apply Permutation_swap].
  - exists r'. split; [exact E|exact Hrun].
Defined.

(** Expecting 0xFFFFFFFE, with 0xFFFFFFFF and 0 buffered. *)
Definition sample_header (s : Z) : CommonHeader :=
  mkCommonHeader PROTOCOL_MAGIC s 0 0 3 0x31 0 0 0 0 0 0 [0;0;0;0].

Definition sample_run : option (Reorderer * list OrderedPacket) :=
  rrun (fun _ => 0) (Reorderer_init (fun _ => 0) (mkReorderConfig 4 50 true) true)
    [RInsertOwned (sample_header 0xFFFFFFFD) None 0; RInsertOwned (sample_header 0xFFFFFFFF) None 0;
     RInsertOwned (sample_header 0) None 0].

(** Flush is not in sequence order across the wrap-around.  With 0xFFFFFFFF
    and its successor 0 buffered, [flush] hands over 0 first, although 0 is the
    newer number. *)
Theorem flush_wraparound_order :
  exists r outs r' outs' n,
    sample_run = Some (r, outs) /\ flush r = (r', outs', n) /\
    out_sequence_number <$> outs' = [0; 0xFFFFFFFF] /\
    is_sequence_newer 0 0xFFFFFFFF = true /\
    next_expected_seq r' = 0xFFFFFFFE.
Proof. do 5 eexists. split; [vm_compute; reflexivity|]. vm_compute. split_and!; reflexivity. Qed.

End ReordererLaws.
