(* ===== verification/Ring.v ===== *)
(** Ring buffers: the elements stored between two positions of a circular
    buffer.  Shared by the two single-producer single-consumer queues. *)

From S2P Require Import Prelude.
Open Scope Z_scope.

Module Ring.

Section Ring.

Context {A : Type}.

(** The [cnt] elements from position [h] on, in a buffer of [n] slots. *)
Fixpoint ring (buf : list A) (n h : Z) (cnt : nat) : list A :=
  match cnt with
  | O => []
  | S cnt => option_list (buf !! Z.to_nat (h `mod` n)) ++ ring buf n (h + 1) cnt
  end.

Implicit Types (buf : list A) (n h : Z) (cnt : nat).

Lemma ring_slot buf n i : 0 < n -> Z.of_nat (length buf) = n -> is_Some (buf !! Z.to_nat (i `mod` n)).
Proof.
  intros Hn Hl. apply lookup_lt_is_Some. pose proof (Z.mod_pos_bound i n Hn). lia.
Qed.

Lemma ring_mod buf n h h' cnt : 0 < n -> h `mod` n = h' `mod` n -> ring buf n h cnt = ring buf n h' cnt.
Proof.
  intros Hn. revert h h'. induction cnt as [|cnt IH]; intros h h' Hh; cbn; [done|].
  rewrite Hh. f_equal. apply IH. by rewrite <-(Zplus_mod_idemp_l h), Hh, Zplus_mod_idemp_l.
Qed.

Lemma length_ring buf n h cnt : 0 < n -> Z.of_nat (length buf) = n -> length (ring buf n h cnt) = cnt.
Proof.
  intros Hn Hl. revert h. induction cnt as [|cnt IH]; intros h; cbn; [done|].
  destruct (ring_slot buf n h Hn Hl) as [x ->]. cbn. by rewrite IH.
Qed.

Lemma ring_snoc buf n h cnt :
  ring buf n h (S cnt) = ring buf n h cnt ++ option_list (buf !! Z.to_nat ((h + Z.of_nat cnt) `mod` n)).
Proof.
  revert h. induction cnt as [|cnt IH]; intros h.
  { cbn. by rewrite app_nil_r, Z.add_0_r. }
  cbn [ring]. cbn [ring] in IH. rewrite IH, <-app_assoc.
  by replace (h + 1 + Z.of_nat cnt) with (h + Z.of_nat (S cnt)) by lia.
Qed.

(** Writing outside the occupied part changes nothing. *)
Lemma ring_insert_out buf n h cnt i x :
  0 < n -> (forall j, (j < cnt)%nat -> (h + Z.of_nat j) `mod` n <> i `mod` n) ->
  ring (<[Z.to_nat (i `mod` n) := x]> buf) n h cnt = ring buf n h cnt.
Proof.
  intros Hn. revert h. induction cnt as [|cnt IH]; intros h Hout; cbn; [done|].
  rewrite list_lookup_insert_ne.
  - f_equal. apply IH. intros j Hj.
    replace (h + 1 + Z.of_nat j) with (h + Z.of_nat (S j)) by lia. apply Hout. lia.
  - specialize (Hout 0%nat ltac:(lia)). rewrite Z.add_0_r in Hout.
    pose proof (Z.mod_pos_bound h n Hn). pose proof (Z.mod_pos_bound i n Hn). lia.
Qed.

Lemma mod_neq n h a b : 0 < n -> 0 <= a < b -> b - a < n -> (h + a) `mod` n <> (h + b) `mod` n.
Proof.
  intros Hn Hab Hd Heq.
  pose proof (Z.div_mod (h + a) n ltac:(lia)). pose proof (Z.div_mod (h + b) n ltac:(lia)).
  assert (b - a = n * ((h + b) / n - (h + a) / n)) by lia.
  assert ((h + b) / n - (h + a) / n < 1) by nia.
  assert (0 < (h + b) / n - (h + a) / n) by nia. lia.
Qed.

(** Writing at the end appends. *)
Lemma ring_push buf n h cnt x :
  0 < n -> Z.of_nat (length buf) = n -> Z.of_nat cnt < n ->
  ring (<[Z.to_nat ((h + Z.of_nat cnt) `mod` n) := x]> buf) n h (S cnt) = ring buf n h cnt ++ [x].
Proof.
  intros Hn Hl Hc. rewrite ring_snoc, ring_insert_out; [|done|].
  - f_equal. rewrite list_lookup_insert_eq; [done|].
    pose proof (Z.mod_pos_bound (h + Z.of_nat cnt) n Hn). lia.
  - intros j Hj. apply mod_neq; lia.
Qed.

(** The first element and the rest. *)
Lemma ring_pop buf n h cnt x :
  buf !! Z.to_nat (h `mod` n) = Some x -> ring buf n h (S cnt) = x :: ring buf n (h + 1) cnt.
Proof. intros Hx. cbn. by rewrite Hx. Qed.

End Ring.

End Ring.
