(* ===== verification/SpscQueue.v ===== *)
(** The two single-producer single-consumer queues: [qdgz300::SPSCQueue]
    ([include/qdgz300/common/spsc_queue.h], capacity a power of two, mask
    arithmetic) and [receiver::delivery::SpscQueue]
    ([include/qdgz300/m01_receiver/delivery/spsc_queue.h], any capacity, modulo
    arithmetic).  Both refine a bounded FIFO that drops its oldest element when
    full. *)

From S2P Require Import Prelude Ring.
Open Scope Z_scope.
Import Ring.

(** ** Abstract specification: a bounded FIFO *)

Module Fifo.

Section Fifo.

Context {A : Type}.

(** Append, dropping the oldest element of a full queue; the boolean says
    whether nothing was dropped. *)
Definition push_drop (cap : nat) (l : list A) (x : A) : bool * list A :=
  if (length l <? cap)%nat then (true, l ++ [x]) else (false, tail l ++ [x]).

Definition push_try (cap : nat) (l : list A) (x : A) : bool * list A :=
  if (length l <? cap)%nat then (true, l ++ [x]) else (false, l).

Definition fifo_pop (l : list A) : option A * list A :=
  match l with [] => (None, []) | x :: l => (Some x, l) end.

(** A full queue drops its oldest element when one arrives. *)
Lemma push_drop_sublist cap l x : (push_drop cap l x).2 `sublist_of` l ++ [x].
Proof.
  unfold push_drop. case_tests; cbn; [done|]. destruct l as [|y l]; cbn; [done|]. by apply sublist_cons.
Qed.

End Fifo.

End Fifo.

(** ** [qdgz300::SPSCQueue<T, Cap>] *)

Module SPSCQueue.

Record SPSCQueue (A : Type) := mkSPSCQueue {
  head_ : Z;
  tail_ : Z;
  drop_count_ : Z;
  buffer_ : list A
}.

Arguments mkSPSCQueue {A}.
Arguments head_ {A}.
Arguments tail_ {A}.
Arguments drop_count_ {A}.
Arguments buffer_ {A}.

Section Queue.

Context {A : Type} (Cap : Z).

Definition mask_ : Z := Cap - 1.

(** [dflt] is the value-initialised element of the buffer. *)
Definition SPSCQueue_init (dflt : A) : SPSCQueue A :=
  mkSPSCQueue 0 0 0 (replicate (Z.to_nat Cap) dflt).

Definition advance (i : Z) : Z := Z.land (i +[64] 1) mask_.

Definition try_push (q : SPSCQueue A) (item : A) : bool * SPSCQueue A :=
  let tail := tail_ q in
  let next := advance tail in
  if next =? head_ q then (false, q)
  else (true, mkSPSCQueue (head_ q) next (drop_count_ q) (<[Z.to_nat tail := item]> (buffer_ q))).

(** [drop_oldest_push]: [spurious i] says whether the [i]-th weak
    compare-exchange fails spuriously; [None] is a loop still running when the
    fuel is used up. *)
Fixpoint drop_oldest_loop (fuel : nat) (spurious : nat -> bool) (i : nat) (dropped : bool)
    (q : SPSCQueue A) (item : A) : option (bool * SPSCQueue A) :=
  match fuel with
  | O => None
  | S fuel =>
    let tail := tail_ q in
    let next := advance tail in
    let head := head_ q in
    if negb (next =? head) then
      Some (negb dropped,
            mkSPSCQueue head next (drop_count_ q) (<[Z.to_nat tail := item]> (buffer_ q)))
    else
      let new_head := advance head in
      if spurious i then drop_oldest_loop fuel spurious (S i) dropped q item
      else drop_oldest_loop fuel spurious (S i) true
             (mkSPSCQueue new_head (tail_ q) (inc64 (drop_count_ q)) (buffer_ q)) item
  end.

Definition drop_oldest_push (fuel : nat) (spurious : nat -> bool) (q : SPSCQueue A) (item : A)
    : option (bool * SPSCQueue A) :=
  drop_oldest_loop fuel spurious 0 false q item.

Definition try_pop (q : SPSCQueue A) : option A * SPSCQueue A :=
  let head := head_ q in
  if head =? tail_ q then (None, q)
  else (buffer_ q !! Z.to_nat head,
        mkSPSCQueue (advance head) (tail_ q) (drop_count_ q) (buffer_ q)).

Definition size (q : SPSCQueue A) : Z := Z.land (tail_ q -[64] head_ q) mask_.

Definition empty (q : SPSCQueue A) : bool := head_ q =? tail_ q.

Definition full (q : SPSCQueue A) : bool := advance (tail_ q) =? head_ q.

Definition drop_count (q : SPSCQueue A) : Z := drop_count_ q.

Definition usable_capacity : Z := Cap - 1.

Definition reset (q : SPSCQueue A) : SPSCQueue A := mkSPSCQueue 0 0 0 (buffer_ q).

(** *** Invariant and abstraction *)

(** The template's static assertion, for a power of two that fits [size_t]. *)
Definition cap_ok : Prop := exists k, 0 <= k < 64 /\ Cap = 2 ^ k.

Record queue_wf (q : SPSCQueue A) : Prop := {
  qw_cap : cap_ok;
  qw_buf : Z.of_nat (length (buffer_ q)) = Cap;
  qw_head : 0 <= head_ q < Cap;
  qw_tail : 0 <= tail_ q < Cap
}.

Definition count (q : SPSCQueue A) : nat := Z.to_nat ((tail_ q - head_ q) `mod` Cap).

Definition contents (q : SPSCQueue A) : list A := ring (buffer_ q) Cap (head_ q) (count q).

(** *** Lemmas *)

Lemma cap_pos : cap_ok -> 0 < Cap < 2 ^ 64.
Proof.
  intros (k & Hk & ->). split; [apply Z.pow_pos_nonneg; lia|apply Z.pow_lt_mono_r; lia].
Qed.

Lemma mask_mod x : cap_ok -> Z.land (u64 x) mask_ = x `mod` Cap.
Proof.
  intros (k & Hk & Hc). unfold mask_. rewrite Hc, Z.sub_1_r, <-Z.ones_equiv, Z.land_ones by lia.
  unfold wrap. apply Z.mod_mod_divide.
  exists (2 ^ (64 - k)). rewrite <-Z.pow_add_r by lia. f_equal. lia.
Qed.

Lemma advance_mod i : cap_ok -> advance i = (i + 1) `mod` Cap.
Proof. intros Hc. by apply mask_mod. Qed.

Lemma count_lt q : queue_wf q -> Z.of_nat (count q) < Cap.
Proof.
  intros []. pose proof (cap_pos qw_cap0). unfold count.
  pose proof (Z.mod_pos_bound (tail_ q - head_ q) Cap ltac:(lia)). lia.
Qed.

Lemma length_contents q : queue_wf q -> length (contents q) = count q.
Proof. intros []. pose proof (cap_pos qw_cap0). apply length_ring; [lia|done]. Qed.

(** The tail is [count] steps after the head. *)
Lemma tail_count q : queue_wf q -> tail_ q = (head_ q + Z.of_nat (count q)) `mod` Cap.
Proof.
  intros []. pose proof (cap_pos qw_cap0). unfold count.
  pose proof (Z.mod_pos_bound (tail_ q - head_ q) Cap ltac:(lia)).
  rewrite Z2Nat.id by lia. rewrite Zplus_mod_idemp_r.
  replace (head_ q + (tail_ q - head_ q)) with (tail_ q) by lia. symmetry. by apply Z.mod_small.
Qed.

(** The full test: the queue holds [Cap - 1] elements. *)
Lemma full_count q : queue_wf q -> advance (tail_ q) = head_ q <-> Z.of_nat (count q) = Cap - 1.
Proof.
  intros Hq. pose proof (count_lt q Hq). destruct Hq as [Hc Hb Hh Ht]. pose proof (cap_pos Hc).
  rewrite advance_mod by done. rewrite (tail_count q) by done. rewrite Zplus_mod_idemp_l.
  rewrite <-(Z.mod_small (head_ q) Cap) at 2 by lia. split.
  - intros Heq. destruct (Z.eq_dec (Z.of_nat (count q)) (Cap - 1)) as [|Hne]; [done|exfalso].
    refine (mod_neq Cap (head_ q) 0 (Z.of_nat (count q) + 1) _ _ _ _); [lia..|].
    rewrite Z.add_0_r, Z.add_assoc. congruence.
  - intros Heq. rewrite Heq. replace (head_ q + (Cap - 1) + 1) with (head_ q + 1 * Cap) by lia.
    apply Z.mod_add. lia.
Qed.

Lemma empty_count q : queue_wf q -> head_ q = tail_ q <-> count q = 0%nat.
Proof.
  intros []. pose proof (cap_pos qw_cap0). unfold count. split.
  - intros ->. by rewrite Z.sub_diag.
  - intros H0. pose proof (Z.mod_pos_bound (tail_ q - head_ q) Cap ltac:(lia)).
    assert (Hm : (tail_ q - head_ q) `mod` Cap = 0) by lia.
    apply Z.mod_divide in Hm as [m Hm]; [|lia].
    assert (m < 1) by nia. assert (-1 < m) by nia. assert (m = 0) as -> by lia. lia.
Qed.

(** Storing an item at the tail of a queue that is not full appends it. *)
Lemma push_contents q x :
  queue_wf q -> advance (tail_ q) <> head_ q ->
  let q' := mkSPSCQueue (head_ q) (advance (tail_ q)) (drop_count_ q)
              (<[Z.to_nat (tail_ q) := x]> (buffer_ q)) in
  queue_wf q' /\ contents q' = contents q ++ [x].
Proof.
  intros Hq Hne q'. pose proof Hq as [Hc Hb Hh Ht]. pose proof (cap_pos Hc).
  pose proof (count_lt q Hq). rewrite full_count in Hne by done.
  assert (Hwf : queue_wf q').
  { constructor; cbn; [done|by rewrite length_insert|done|].
    rewrite advance_mod by done. apply Z.mod_pos_bound. lia. }
  split; [done|]. unfold contents.
  assert (Hcnt : count q' = S (count q)).
  { unfold count at 1. cbn. rewrite advance_mod by done. rewrite (tail_count q Hq).
    rewrite !Zplus_mod_idemp_l, Zminus_mod_idemp_l.
    replace (head_ q + Z.of_nat (count q) + 1 - head_ q) with (Z.of_nat (count q) + 1) by lia.
    rewrite Z.mod_small by lia. lia. }
  rewrite Hcnt. cbn [q' buffer_ head_].
  rewrite <-(ring_push (buffer_ q) Cap (head_ q) (count q) x) by (done || lia).
  by rewrite <-tail_count.
Qed.

Lemma pop_contents q :
  queue_wf q -> head_ q <> tail_ q ->
  let q' := mkSPSCQueue (advance (head_ q)) (tail_ q) (drop_count_ q) (buffer_ q) in
  queue_wf q' /\ exists x, buffer_ q !! Z.to_nat (head_ q) = Some x /\ contents q = x :: contents q'.
Proof.
  intros Hq Hne q'. pose proof Hq as [Hc Hb Hh Ht]. pose proof (cap_pos Hc).
  rewrite empty_count in Hne by done. pose proof (count_lt q Hq).
  assert (Hwf : queue_wf q').
  { constructor; cbn; try done. rewrite advance_mod by done. apply Z.mod_pos_bound. lia. }
  split; [done|].
  destruct (ring_slot (buffer_ q) Cap (head_ q)) as [x Hx]; [lia|done|].
  rewrite Z.mod_small in Hx by done. exists x. split; [done|].
  assert (Hcnt : count q = S (count q')).
  { unfold count at 2. cbn. rewrite advance_mod by done. rewrite (tail_count q Hq).
    rewrite Zminus_mod_idemp_l, Zminus_mod_idemp_r.
    replace (head_ q + Z.of_nat (count q) - (head_ q + 1)) with (Z.of_nat (count q) - 1) by lia.
    rewrite Z.mod_small by lia. lia. }
  unfold contents. rewrite Hcnt, (ring_pop _ _ _ _ x) by (by rewrite Z.mod_small). f_equal.
  cbn [q' buffer_ head_]. apply ring_mod; [lia|]. rewrite advance_mod by done. by rewrite Zmod_mod.
Qed.

Lemma init_wf dflt : cap_ok -> queue_wf (SPSCQueue_init dflt) /\ contents (SPSCQueue_init dflt) = [].
Proof.
  intros Hc. pose proof (cap_pos Hc). split; [|done].
  constructor; cbn; [done|rewrite length_replicate; lia|lia|lia].
Qed.

(** One round of the loop on a queue that is not full. *)
Lemma drop_oldest_not_full fuel spurious i dropped q x :
  advance (tail_ q) <> head_ q ->
  drop_oldest_loop (S fuel) spurious i dropped q x =
    Some (negb dropped, mkSPSCQueue (head_ q) (advance (tail_ q)) (drop_count_ q)
            (<[Z.to_nat (tail_ q) := x]> (buffer_ q))).
Proof. intros Hne. cbn [drop_oldest_loop]. by destruct (Z.eqb_spec (advance (tail_ q)) (head_ q)). Qed.

(** On a full queue the loop retries until a compare-exchange succeeds. *)
Lemma drop_oldest_full k fuel spurious i q x :
  advance (tail_ q) = head_ q -> spurious (i + k)%nat = false -> (k < fuel)%nat ->
  exists m, (m <= k)%nat /\
  drop_oldest_loop fuel spurious i false q x =
    drop_oldest_loop (fuel - m - 1) spurious (i + m + 1) true
      (mkSPSCQueue (advance (head_ q)) (tail_ q) (inc64 (drop_count_ q)) (buffer_ q)) x.
Proof.
  revert fuel i. induction k as [|k IH]; intros [|fuel] i Hf Hs Hk; try lia; cbn [drop_oldest_loop];
    destruct (Z.eqb_spec (advance (tail_ q)) (head_ q)) as [_|]; try done; cbn [negb].
  - rewrite Nat.add_0_r in Hs. rewrite Hs. exists 0%nat. split; [lia|].
    by replace (S fuel - 0 - 1)%nat with fuel by lia; replace (i + 0 + 1)%nat with (S i) by lia.
  - destruct (spurious i) eqn:Es.
    + destruct (IH fuel (S i) Hf) as (m & Hm & ->); [by replace (S i + k)%nat with (i + S k)%nat by lia|lia|].
      exists (S m). split; [lia|].
      by replace (S fuel - S m - 1)%nat with (fuel - m - 1)%nat by lia;
        replace (i + S m + 1)%nat with (S i + m + 1)%nat by lia.
    + exists 0%nat. split; [lia|].
      by replace (S fuel - 0 - 1)%nat with fuel by lia; replace (i + 0 + 1)%nat with (S i) by lia.
Qed.

(** [drop_oldest_push] returns as soon as one compare-exchange succeeds. *)
Lemma drop_oldest_push_spec k fuel spurious q x :
  queue_wf q -> 2 <= Cap -> spurious k = false -> (k + 2 <= fuel)%nat ->
  exists b q', drop_oldest_push fuel spurious q x = Some (b, q') /\ queue_wf q' /\
    (b, contents q') = Fifo.push_drop (Z.to_nat (Cap - 1)) (contents q) x /\
    drop_count_ q' = if b then drop_count_ q else inc64 (drop_count_ q).
Proof.
  intros Hq H2 Hs Hk. pose proof (length_contents q Hq) as Hlen. pose proof (count_lt q Hq).
  unfold drop_oldest_push, Fifo.push_drop. rewrite Hlen.
  destruct (Z.eq_dec (advance (tail_ q)) (head_ q)) as [Hfull|Hnf].
  - destruct (drop_oldest_full k fuel spurious 0 q x Hfull Hs) as (m & Hm & ->); [lia|].
    pose proof Hfull as Hcnt. rewrite full_count in Hcnt by done.
    assert (Hne : head_ q <> tail_ q) by (rewrite empty_count by done; lia).
    destruct (pop_contents q Hq Hne) as (Hw1 & y & _ & Hy).
    set (q1 := mkSPSCQueue (advance (head_ q)) (tail_ q) (inc64 (drop_count_ q)) (buffer_ q)).
    assert (Hw2 : queue_wf q1) by (destruct Hw1; by constructor).
    assert (Hc2 : contents q = y :: contents q1) by exact Hy.
    assert (Hnf : advance (tail_ q1) <> head_ q1).
    { rewrite full_count by done. apply (f_equal length) in Hc2. cbn [length] in Hc2.
      rewrite !length_contents in Hc2 by done. lia. }
    replace (fuel - m - 1)%nat with (S (fuel - m - 2)) by lia.
    rewrite drop_oldest_not_full by done. eexists _, _. split; [done|].
    destruct (push_contents q1 x Hw2 Hnf) as [Hw3 Hc3]. split; [exact Hw3|]. cbn [negb]. split; [|done].
    rewrite Hc3, Hc2. destruct (Nat.ltb_spec (count q) (Z.to_nat (Cap - 1))); [lia|done].
  - destruct fuel as [|fuel]; [lia|]. rewrite drop_oldest_not_full by done. eexists _, _. split; [done|].
    destruct (push_contents q x Hq Hnf) as [Hw3 Hc3]. split; [exact Hw3|]. cbn [negb]. split; [|done].
    rewrite Hc3. rewrite full_count in Hnf by done.
    destruct (Nat.ltb_spec (count q) (Z.to_nat (Cap - 1))); [done|lia].
Qed.

Lemma try_pop_spec q :
  queue_wf q ->
  queue_wf (try_pop q).2 /\ ((try_pop q).1, contents (try_pop q).2) = Fifo.fifo_pop (contents q) /\
  drop_count_ (try_pop q).2 = drop_count_ q.
Proof.
  intros Hq. unfold try_pop. destruct (Z.eqb_spec (head_ q) (tail_ q)) as [He|Hne]; cbn [fst snd].
  - split; [done|]. split; [|done]. rewrite empty_count in He by done. unfold contents. by rewrite He.
  - destruct (pop_contents q Hq Hne) as (Hw & x & Hx & Hc). rewrite Hx, Hc. by split_and!.
Qed.

Lemma try_push_spec q x :
  queue_wf q ->
  queue_wf (try_push q x).2 /\
  ((try_push q x).1, contents (try_push q x).2) =
    Fifo.push_try (Z.to_nat (Cap - 1)) (contents q) x.
Proof.
  intros Hq. unfold try_push, Fifo.push_try. rewrite length_contents by done.
  pose proof (count_lt q Hq).
  destruct (Z.eqb_spec (advance (tail_ q)) (head_ q)) as [He|Hne]; cbn [fst snd].
  - split; [done|]. rewrite full_count in He by done.
    destruct (Nat.ltb_spec (count q) (Z.to_nat (Cap - 1))); [lia|done].
  - destruct (push_contents q x Hq Hne) as [Hw Hc]. rewrite full_count in Hne by done.
    split; [done|]. rewrite Hc. destruct (Nat.ltb_spec (count q) (Z.to_nat (Cap - 1))); [done|lia].
Qed.

End Queue.

End SPSCQueue.

(** ** [receiver::delivery::SpscQueue<T>] *)

Module DeliveryQueue.

Record SpscQueue (A : Type) := mkSpscQueue {
  capacity_ : Z;
  dq_buffer_ : list A;
  dq_head_ : Z;
  dq_tail_ : Z;
  dropped_count_ : Z
}.

Arguments mkSpscQueue {A}.
Arguments capacity_ {A}.
Arguments dq_buffer_ {A}.
Arguments dq_head_ {A}.
Arguments dq_tail_ {A}.
Arguments dropped_count_ {A}.

Section Queue.

Context {A : Type}.

Definition SpscQueue_init (dflt : A) (capacity : Z) : SpscQueue A :=
  let c := if 0 <? capacity then capacity else 1 in
  mkSpscQueue c (replicate (Z.to_nat (c +[64] 1)) dflt) 0 0 0.

Definition buffer_size (q : SpscQueue A) : Z := Z.of_nat (length (dq_buffer_ q)).

(** The head is the producer's position, the tail the consumer's. *)
Definition push (q : SpscQueue A) (item : A) : bool * SpscQueue A :=
  let current_head := dq_head_ q in
  let next_head := (current_head +[64] 1) `mod` buffer_size q in
  let current_tail := dq_tail_ q in
  let '(tail, dropped) :=
    if next_head =? current_tail
    then ((current_tail +[64] 1) `mod` buffer_size q, inc64 (dropped_count_ q))
    else (current_tail, dropped_count_ q) in
  (true, mkSpscQueue (capacity_ q) (<[Z.to_nat current_head := item]> (dq_buffer_ q)) next_head tail
           dropped).

Definition pop (q : SpscQueue A) : option A * SpscQueue A :=
  let current_tail := dq_tail_ q in
  if current_tail =? dq_head_ q then (None, q)
  else (dq_buffer_ q !! Z.to_nat current_tail,
        mkSpscQueue (capacity_ q) (dq_buffer_ q) (dq_head_ q)
          ((current_tail +[64] 1) `mod` buffer_size q) (dropped_count_ q)).

Definition dq_empty (q : SpscQueue A) : bool := dq_tail_ q =? dq_head_ q.

Definition dq_size (q : SpscQueue A) : Z :=
  if dq_tail_ q <=? dq_head_ q then dq_head_ q - dq_tail_ q
  else buffer_size q - dq_tail_ q + dq_head_ q.

Definition dq_capacity (q : SpscQueue A) : Z := capacity_ q.

Definition dropped_count (q : SpscQueue A) : Z := dropped_count_ q.

Definition reset_dropped_count (q : SpscQueue A) : SpscQueue A :=
  mkSpscQueue (capacity_ q) (dq_buffer_ q) (dq_head_ q) (dq_tail_ q) 0.

(** *** Invariant and abstraction *)

Record dq_wf (q : SpscQueue A) : Prop := {
  dw_cap : 1 <= capacity_ q < 2 ^ 63;
  dw_buf : buffer_size q = capacity_ q + 1;
  dw_head : 0 <= dq_head_ q < buffer_size q;
  dw_tail : 0 <= dq_tail_ q < buffer_size q
}.

Definition dq_contents (q : SpscQueue A) : list A :=
  ring (dq_buffer_ q) (buffer_size q) (dq_tail_ q) (Z.to_nat (dq_size q)).

Lemma dq_size_range q : dq_wf q -> 0 <= dq_size q < buffer_size q.
Proof. intros []. unfold dq_size. case_tests; lia. Qed.

Lemma length_dq_contents q : dq_wf q -> Z.of_nat (length (dq_contents q)) = dq_size q.
Proof.
  intros Hq. pose proof (dq_size_range q Hq). unfold dq_contents.
  rewrite length_ring; [lia|lia|done].
Qed.

Lemma dq_head_size q : dq_wf q -> dq_head_ q = (dq_tail_ q + dq_size q) `mod` buffer_size q.
Proof.
  intros []. unfold dq_size. case_tests.
  - replace (dq_tail_ q + (dq_head_ q - dq_tail_ q)) with (dq_head_ q) by lia. by rewrite Z.mod_small.
  - replace (dq_tail_ q + (buffer_size q - dq_tail_ q + dq_head_ q)) with (dq_head_ q + 1 * buffer_size q) by lia.
    rewrite Z.mod_add by lia. by rewrite Z.mod_small.
Qed.

Lemma step_mod q i : dq_wf q -> 0 <= i < buffer_size q -> i +[64] 1 = i + 1.
Proof. intros [] Hi. apply wrap_small. unfold in_range. lia. Qed.

Lemma mod_eq_small n h a b : 0 <= a < n -> 0 <= b < n -> (h + a) `mod` n = (h + b) `mod` n -> a = b.
Proof.
  intros Ha Hb Heq. destruct (Z.lt_trichotomy a b) as [Hlt|[|Hlt]]; [|done|]; exfalso.
  - by apply (mod_neq n h a b) in Heq; try lia.
  - symmetry in Heq. by apply (mod_neq n h b a) in Heq; try lia.
Qed.

(** The size is determined by the two positions. *)
Lemma dq_size_unique q c :
  dq_wf q -> 0 <= c < buffer_size q -> dq_head_ q = (dq_tail_ q + c) `mod` buffer_size q -> dq_size q = c.
Proof.
  intros Hq Hc Hh. pose proof (dq_size_range q Hq). rewrite (dq_head_size q Hq) in Hh.
  by apply mod_eq_small in Hh.
Qed.

Lemma dq_full_iff q : dq_wf q ->
  (dq_head_ q +[64] 1) `mod` buffer_size q = dq_tail_ q <-> dq_size q = capacity_ q.
Proof.
  intros Hq. pose proof (dq_size_range q Hq). pose proof Hq as [Hc Hb Hh Ht].
  rewrite (step_mod q) by done. rewrite (dq_head_size q Hq), Zplus_mod_idemp_l.
  replace (dq_tail_ q + dq_size q + 1) with (dq_tail_ q + (dq_size q + 1)) by lia.
  destruct (Z.eq_dec (dq_size q) (capacity_ q)) as [He|Hne]; split; intros Hx; try done; try lia.
  - replace (dq_tail_ q + (dq_size q + 1)) with (dq_tail_ q + 1 * buffer_size q) by lia.
    rewrite Z.mod_add by lia. by apply Z.mod_small.
  - exfalso. rewrite <-(Z.mod_small (dq_tail_ q) (buffer_size q)) in Hx at 2 by lia.
    rewrite <-(Z.add_0_r (dq_tail_ q)) in Hx at 2. apply mod_eq_small in Hx; lia.
Qed.

Lemma push_spec q x :
  dq_wf q ->
  (push q x).1 = true /\ dq_wf (push q x).2 /\ capacity_ (push q x).2 = capacity_ q /\
  dq_contents (push q x).2 = (Fifo.push_drop (Z.to_nat (capacity_ q)) (dq_contents q) x).2 /\
  dropped_count_ (push q x).2 =
    if (Fifo.push_drop (Z.to_nat (capacity_ q)) (dq_contents q) x).1
    then dropped_count_ q else inc64 (dropped_count_ q).
Proof.
  intros Hq. pose proof (dq_size_range q Hq) as Hsz. pose proof (length_dq_contents q Hq) as Hlen.
  pose proof (dq_full_iff q Hq) as Hfull. pose proof Hq as [Hc Hb Hh Ht].
  pose proof (ring_push (dq_buffer_ q) (buffer_size q) (dq_tail_ q) (Z.to_nat (dq_size q)) x
    ltac:(lia) eq_refl ltac:(lia)) as Hring.
  rewrite Z2Nat.id, <-(dq_head_size q Hq) in Hring by lia.
  fold (dq_contents q) in Hring.
  assert (Hb' : forall t h d, buffer_size (mkSpscQueue (capacity_ q)
    (<[Z.to_nat (dq_head_ q) := x]> (dq_buffer_ q)) h t d) = buffer_size q).
  { intros. unfold buffer_size. cbn. by rewrite length_insert. }
  unfold push, Fifo.push_drop.
  destruct (Z.eqb_spec ((dq_head_ q +[64] 1) `mod` buffer_size q) (dq_tail_ q)) as [He|Hne];
    cbn [fst snd capacity_ dropped_count_].
  - pose proof (proj1 Hfull He) as Hs. rewrite He.
    destruct (Nat.ltb_spec (length (dq_contents q)) (Z.to_nat (capacity_ q))) as [|_]; [lia|].
    set (q' := mkSpscQueue _ _ _ _ _).
    assert (Hw' : dq_wf q').
    { constructor; unfold q'; rewrite ?Hb'; cbn; try done.
      rewrite (step_mod q) by done. apply Z.mod_pos_bound. lia. }
    assert (Hs' : dq_size q' = dq_size q).
    { apply dq_size_unique; [done|by unfold q'; rewrite Hb'|]. unfold q' at 3. rewrite Hb'. cbn.
      rewrite (step_mod q) by done. rewrite Zplus_mod_idemp_l, Hs.
      replace (dq_tail_ q + 1 + capacity_ q) with (dq_tail_ q + 1 * buffer_size q) by lia.
      rewrite Z.mod_add by lia. by rewrite Z.mod_small. }
    split_and!; try done. unfold dq_contents at 1. rewrite Hs'. unfold q' at 2. rewrite Hb'.
    cbn [q' dq_buffer_ dq_tail_]. rewrite (step_mod q) by done.
    rewrite (ring_mod _ _ _ (dq_tail_ q + 1)) by (try lia; apply Zmod_mod).
    destruct (dq_contents q) as [|y l] eqn:El; [cbn in Hlen; lia|]. cbn [tail].
    destruct (ring_slot (<[Z.to_nat (dq_head_ q) := x]> (dq_buffer_ q)) (buffer_size q) (dq_tail_ q))
      as [z Hz]; [lia|unfold buffer_size; by rewrite length_insert|].
    rewrite (ring_pop _ _ _ _ z Hz) in Hring. cbn [app] in Hring. by injection Hring.
  - assert (dq_size q < capacity_ q) as Hs by (destruct (Z.eq_dec (dq_size q) (capacity_ q)); [tauto|lia]).
    destruct (Nat.ltb_spec (length (dq_contents q)) (Z.to_nat (capacity_ q))) as [_|]; [|lia].
    set (q' := mkSpscQueue _ _ _ _ _).
    assert (Hw' : dq_wf q').
    { constructor; unfold q'; rewrite ?Hb'; cbn; try done.
      rewrite (step_mod q) by done. apply Z.mod_pos_bound. lia. }
    assert (Hs' : dq_size q' = dq_size q + 1).
    { apply dq_size_unique; [done|unfold q'; rewrite Hb'; lia|]. unfold q' at 3. rewrite Hb'. cbn.
      rewrite (step_mod q) by done. rewrite (dq_head_size q Hq), Zplus_mod_idemp_l. f_equal. lia. }
    split_and!; try done. unfold dq_contents at 1. rewrite Hs'. unfold q' at 2. rewrite Hb'.
    cbn [q' dq_buffer_ dq_tail_ snd]. rewrite <-Hring. f_equal. lia.
Qed.

Lemma pop_spec q :
  dq_wf q ->
  dq_wf (pop q).2 /\ capacity_ (pop q).2 = capacity_ q /\
  ((pop q).1, dq_contents (pop q).2) = Fifo.fifo_pop (dq_contents q) /\
  dropped_count_ (pop q).2 = dropped_count_ q.
Proof.
  intros Hq. pose proof (dq_size_range q Hq) as Hsz. pose proof Hq as [Hc Hb Hh Ht].
  unfold pop. destruct (Z.eqb_spec (dq_tail_ q) (dq_head_ q)) as [He|Hne]; cbn [fst snd].
  - split_and!; try done. unfold dq_contents, dq_size. rewrite He, Z.leb_refl, Z.sub_diag. done.
  - set (q' := mkSpscQueue _ _ _ _ _).
    assert (Hn : buffer_size q' = buffer_size q) by done.
    assert (Hpos : 0 < dq_size q) by (unfold dq_size in *; revert Hsz; case_tests; lia).
    assert (Hw' : dq_wf q').
    { constructor; rewrite ?Hn; cbn; try done. rewrite (step_mod q) by done. apply Z.mod_pos_bound. lia. }
    assert (Hs' : dq_size q' = dq_size q - 1).
    { apply dq_size_unique; [done|rewrite Hn; lia|]. rewrite Hn. cbn.
      rewrite (step_mod q) by done. rewrite Zplus_mod_idemp_l.
      replace (dq_tail_ q + 1 + (dq_size q - 1)) with (dq_tail_ q + dq_size q) by lia.
      by apply dq_head_size. }
    split_and!; try done. unfold dq_contents. rewrite Hs', Hn.
    replace (Z.to_nat (dq_size q)) with (S (Z.to_nat (dq_size q - 1))) by lia.
    destruct (ring_slot (dq_buffer_ q) (buffer_size q) (dq_tail_ q)) as [x Hx]; [lia|done|].
    rewrite (ring_pop _ _ _ _ x Hx). rewrite Z.mod_small in Hx by done. rewrite Hx. cbn [Fifo.fifo_pop].
    f_equal. cbn [q' dq_buffer_ dq_tail_]. apply ring_mod; [lia|].
    rewrite (step_mod q) by done. apply Zmod_mod.
Qed.

End Queue.

Lemma dq_init_wf {A} (dflt : A) c :
  c < 2 ^ 63 ->
  dq_wf (SpscQueue_init dflt c) /\ dq_contents (SpscQueue_init dflt c) = [] /\
  capacity_ (SpscQueue_init dflt c) = Z.max 1 c.
Proof.
  intros Hc. unfold SpscQueue_init.
  assert (He : (if 0 <? c then c else 1) = Z.max 1 c) by (case_tests; lia). rewrite He.
  assert (Hl : buffer_size (mkSpscQueue (Z.max 1 c)
    (replicate (Z.to_nat (Z.max 1 c +[64] 1)) dflt) 0 0 0) = Z.max 1 c + 1).
  { unfold buffer_size. cbn. rewrite length_replicate, wrap_small by (unfold in_range; lia). lia. }
  split; [|done]. constructor; rewrite ?Hl; cbn; try done; lia.
Qed.

End DeliveryQueue.

(** ** The interface of a drop-oldest queue *)

(** What the two queues promise their clients: a FIFO of [bq_cap] elements whose
    push never fails and drops the oldest element when full, counting it. *)
Module BoundedQueue.

Class BoundedQueue (A Q : Type) := {
  bq_push : Q -> A -> option (bool * Q);
  bq_pop : Q -> option A * Q;
  bq_drops : Q -> Z;
  bq_inv : Q -> Prop;
  bq_contents : Q -> list A;
  bq_cap : nat;
  bq_push_law : forall q x, bq_inv q -> exists b q', bq_push q x = Some (b, q') /\ bq_inv q' /\
    bq_contents q' = (Fifo.push_drop bq_cap (bq_contents q) x).2 /\
    bq_drops q' = if (Fifo.push_drop bq_cap (bq_contents q) x).1 then bq_drops q else inc64 (bq_drops q);
  bq_pop_law : forall q, bq_inv q -> bq_inv (bq_pop q).2 /\
    ((bq_pop q).1, bq_contents (bq_pop q).2) = Fifo.fifo_pop (bq_contents q) /\
    bq_drops (bq_pop q).2 = bq_drops q
}.

Inductive QOp (A : Type) := Push (x : A) | Pop.

Arguments Push {A}.
Arguments Pop {A}.

Section Client.

Context `{BoundedQueue A Q}.

(** The values a client pops while it runs [ops]. *)
Fixpoint run_queue (q : Q) (ops : list (QOp A)) : option (list (option A) * Q) :=
  match ops with
  | [] => Some ([], q)
  | Push x :: ops => '(_, q) ← bq_push q x; run_queue q ops
  | Pop :: ops => let '(r, q) := bq_pop q in
                  '(rs, q) ← run_queue q ops; Some (r :: rs, q)
  end.

(** The specification: a list, and the number of elements dropped. *)
Fixpoint run_fifo (cap : nat) (l : list A) (drops : Z) (ops : list (QOp A))
    : list (option A) * list A * Z :=
  match ops with
  | [] => ([], l, drops)
  | Push x :: ops => let '(ok, l) := Fifo.push_drop cap l x in
                     run_fifo cap l (if ok : bool then drops else inc64 drops) ops
  | Pop :: ops => let '(r, l) := Fifo.fifo_pop l in
                  let '(rs, l, d) := run_fifo cap l drops ops in (r :: rs, l, d)
  end.

Lemma run_queue_fifo ops q :
  bq_inv q ->
  exists rs q', run_queue q ops = Some (rs, q') /\ bq_inv q' /\
    run_fifo bq_cap (bq_contents q) (bq_drops q) ops = (rs, bq_contents q', bq_drops q').
Proof.
  revert q. induction ops as [|[x|] ops IH]; intros q Hq; cbn [run_queue run_fifo].
  - eexists _, _. by split_and!.
  - destruct (bq_push_law q x Hq) as (b & q1 & -> & Hq1 & Hc & Hd). cbn [mbind option_bind].
    destruct (IH q1 Hq1) as (rs & q' & -> & Hq' & Hr). eexists _, _. split_and!; [done..|].
    destruct (Fifo.push_drop _ _ _) as [ok l]. cbn in Hc, Hd. by rewrite <-Hc, <-Hd.
  - destruct (bq_pop_law q Hq) as (Hq1 & Hp & Hd). destruct (bq_pop q) as [r q1]. cbn in Hq1, Hp, Hd.
    destruct (IH q1 Hq1) as (rs & q' & -> & Hq' & Hr). cbn [mbind option_bind].
    eexists _, _. split_and!; [done..|]. rewrite <-Hp, <-Hd, Hr. done.
Qed.

End Client.

End BoundedQueue.

Module QueueInstances.

Import BoundedQueue.

(** The mask-based queue, whatever weak compare-exchanges fail spuriously. *)
Section SPSC.

Context {A : Type} (Cap : Z) (fuel k : nat) (spurious : nat -> bool).
Hypothesis Hcap : 2 <= Cap.
Hypothesis Hspur : spurious k = false.
Hypothesis Hfuel : (k + 2 <= fuel)%nat.

#[refine] Instance SPSCQueue_bounded : BoundedQueue A (SPSCQueue.SPSCQueue A) := {
  bq_push q x := SPSCQueue.drop_oldest_push Cap fuel spurious q x;
  bq_pop q := SPSCQueue.try_pop Cap q;
  bq_drops q := SPSCQueue.drop_count q;
  bq_inv q := SPSCQueue.queue_wf Cap q;
  bq_contents q := SPSCQueue.contents Cap q;
  bq_cap := Z.to_nat (Cap - 1)
}.
Proof.
  - intros q x Hq.
    destruct (SPSCQueue.drop_oldest_push_spec Cap k fuel spurious q x Hq Hcap Hspur Hfuel)
      as (b & q' & E & Hq' & Hc & Hd).
    exists b, q'. rewrite <-Hc. by split_and!.
  - intros q Hq. by apply SPSCQueue.try_pop_spec.
Defined.

End SPSC.

(** The modulo-based queue of capacity [c]. *)
Section Delivery.

Context {A : Type} (c : Z).

#[refine] Instance SpscQueue_bounded : BoundedQueue A (DeliveryQueue.SpscQueue A) := {
  bq_push q x := Some (DeliveryQueue.push q x);
  bq_pop q := DeliveryQueue.pop q;
  bq_drops q := DeliveryQueue.dropped_count q;
  bq_inv q := DeliveryQueue.dq_wf q /\ DeliveryQueue.capacity_ q = c;
  bq_contents q := DeliveryQueue.dq_contents q;
  bq_cap := Z.to_nat c
}.
Proof.
  - intros q x [Hq <-]. destruct (DeliveryQueue.push_spec q x Hq) as (Hb & Hq' & Hc & Hco & Hd).
    destruct (DeliveryQueue.push q x) as [b q']. exists b, q'. by split_and!.
  - intros q [Hq <-]. destruct (DeliveryQueue.pop_spec q Hq) as (Hq' & Hc & Hco & Hd). by split_and!.
Defined.

End Delivery.

End QueueInstances.

Module QueueTheorems.

Import BoundedQueue QueueInstances.

(** C17: the common queue is a bounded FIFO.  For any power-of-two capacity of
    at least two, any sequence of [drop_oldest_push] and [try_pop] calls of one
    thread on a new queue terminates and returns exactly what a FIFO of
    [Cap - 1] elements with drop-oldest overflow returns, with the same drop
    count, whatever compare-exchanges fail spuriously, as long as one of the
    first [k + 1] attempts of a push succeeds.  Calls of two threads that overlap
    are the subject of [SpscConcurrent]. *)
Theorem spsc_queue_refines_fifo {A} (Cap : Z) (dflt : A) (ops : list (QOp A))
    (fuel k : nat) (spurious : nat -> bool)
    (Hok : SPSCQueue.cap_ok Cap) (Hcap : 2 <= Cap) (Hspur : spurious k = false)
    (Hfuel : (k + 2 <= fuel)%nat) :
  let B := SPSCQueue_bounded Cap fuel k spurious Hcap Hspur Hfuel in
  exists rs q',
    run_queue (H := B) (SPSCQueue.SPSCQueue_init Cap dflt) ops = Some (rs, q') /\
    SPSCQueue.queue_wf Cap q' /\
    run_fifo (Z.to_nat (SPSCQueue.usable_capacity Cap)) [] 0 ops =
      (rs, SPSCQueue.contents Cap q', SPSCQueue.drop_count q') /\
    SPSCQueue.size Cap q' = Z.of_nat (length (SPSCQueue.contents Cap q')).
Proof.
  intros B. destruct (SPSCQueue.init_wf Cap dflt Hok) as [Hi Hc].
  destruct (run_queue_fifo (H := B) ops (SPSCQueue.SPSCQueue_init Cap dflt) Hi) as (rs & q' & E & Hq & Hr).
  exists rs, q'. cbn in Hr. rewrite Hc in Hr. split_and!; [done..|].
  unfold SPSCQueue.size. rewrite SPSCQueue.mask_mod by done. rewrite SPSCQueue.length_contents by done.
  unfold SPSCQueue.count. rewrite Z2Nat.id; [done|].
  apply Z.mod_pos_bound. lia.
Qed.

(** Capacity 4, one spurious failure before each successful exchange. *)
Lemma spsc_queue_refines_fifo_witness :
  exists rs q',
    run_queue (H := SPSCQueue_bounded 4 3 1 (fun i => (i =? 0)%nat) ltac:(lia) eq_refl ltac:(lia))
      (SPSCQueue.SPSCQueue_init 4 0) [Push 1; Push 2; Push 3; Push 4; Pop; Pop] = Some (rs, q') /\
    rs = [Some 2; Some 3] /\ SPSCQueue.drop_count q' = 1.
Proof.
  destruct (spsc_queue_refines_fifo 4 0 [Push 1; Push 2; Push 3; Push 4; Pop; Pop] 3 1
    (fun i => (i =? 0)%nat) ltac:(exists 2; split; [lia|reflexivity]) ltac:(lia) eq_refl ltac:(lia))
    as (rs & q' & E & _ & Hr & _).
  exists rs, q'. split; [exact E|]. cbn in Hr. injection Hr as <- _ <-. split; reflexivity.
Defined.

(** The delivery queue is a bounded FIFO.  Any sequence of [push] and [pop]
    on a new queue returns what a FIFO of [max 1 capacity] elements with
    drop-oldest overflow returns, with the same drop count; the reported size
    is the number of stored elements. *)
Theorem delivery_queue_refines_fifo {A} (capacity : Z) (dflt : A) (ops : list (QOp A))
    (Hc : capacity < 2 ^ 63) :
  exists rs q',
    run_queue (H := SpscQueue_bounded (Z.max 1 capacity))
      (DeliveryQueue.SpscQueue_init dflt capacity) ops = Some (rs, q') /\
    run_fifo (Z.to_nat (Z.max 1 capacity)) [] 0 ops =
      (rs, DeliveryQueue.dq_contents q', DeliveryQueue.dropped_count q') /\
    DeliveryQueue.dq_size q' = Z.of_nat (length (DeliveryQueue.dq_contents q')) /\
    DeliveryQueue.dq_size q' <= Z.max 1 capacity.
Proof.
  destruct (DeliveryQueue.dq_init_wf dflt capacity Hc) as (Hw & He & Hcap).
  destruct (run_queue_fifo (H := SpscQueue_bounded (Z.max 1 capacity)) ops
    (DeliveryQueue.SpscQueue_init dflt capacity) (conj Hw Hcap)) as (rs & q' & E & [Hq Hcq] & Hr).
  exists rs, q'. cbn in Hr. rewrite He in Hr. split_and!; [done|done| |].
  - symmetry. by apply DeliveryQueue.length_dq_contents.
  - pose proof (DeliveryQueue.dq_size_range q' Hq). destruct Hq. lia.
Qed.

Lemma delivery_queue_refines_fifo_witness :
  exists rs q',
    run_queue (H := SpscQueue_bounded (Z.max 1 2))
      (DeliveryQueue.SpscQueue_init 0 2) [Push 1; Push 2; Push 3; Pop] = Some (rs, q') /\
    rs = [Some 2] /\ DeliveryQueue.dropped_count q' = 1.
Proof.
  destruct (delivery_queue_refines_fifo 2 0 [Push 1; Push 2; Push 3; Pop] ltac:(lia))
    as (rs & q' & E & Hr & _). exists rs, q'. split; [exact E|].
  cbn in Hr. injection Hr as <- _ <-. split; reflexivity.
Defined.

(** Capacity one.  The static assertion admits a capacity of one, for which
    the queue can hold nothing; there [drop_oldest_push] never returns, however
    many rounds it makes. *)
Theorem drop_oldest_push_capacity_one {A} (fuel : nat) (spurious : nat -> bool) (dflt x : A) :
  SPSCQueue.cap_ok 1 /\
  SPSCQueue.drop_oldest_push 1 fuel spurious (SPSCQueue.SPSCQueue_init 1 dflt) x = None.
Proof.
  split; [exists 0; split; [lia|done]|]. unfold SPSCQueue.drop_oldest_push.
  assert (Hgen : forall fuel i d (q : SPSCQueue.SPSCQueue A), SPSCQueue.head_ q = 0 ->
    SPSCQueue.drop_oldest_loop 1 fuel spurious i d q x = None); [|by apply Hgen].
  clear fuel. induction fuel as [|fuel IH]; intros i d q Hh; cbn [SPSCQueue.drop_oldest_loop]; [done|].
  assert (Ha : forall j, SPSCQueue.advance 1 j = 0).
  { intros j. unfold SPSCQueue.advance, SPSCQueue.mask_. apply Z.land_0_r. }
  rewrite Hh, !Ha. cbn [negb Z.eqb]. destruct (spurious i); apply IH; done.
Qed.

End QueueTheorems.
