(* ===== verification/SpscConcurrent.v ===== *)
(** The common queue under concurrency: one producer thread and one consumer
    thread, each step one atomic load, store, compare-exchange or buffer access
    of [spsc_queue.h], interleaved in any order (the acquire/release pairs of
    the source make the interleaving semantics adequate for the accesses
    ordered by head and tail). *)

From S2P Require Import Prelude Ring SpscQueue.
From stdpp Require Import relations.
Open Scope Z_scope.
Import Ring SPSCQueue.

Module SpscConcurrent.

Section Concurrent.

Context {A : Type} (Cap : Z).

(** The producer's calls. *)
Inductive Cmd := TryPush (x : A) | DropOldestPush (x : A).

Definition cmd_item (c : Cmd) : A := match c with TryPush x | DropOldestPush x => x end.

(** Program points of the producer: before the load of the tail, before the load
    of the head, before the test, and before the store of the tail. *)
Inductive Producer :=
  | PIdle
  | PLoop (c : Cmd) (dropped : bool)
  | PTail (c : Cmd) (dropped : bool) (tail : Z)
  | PHead (c : Cmd) (dropped : bool) (tail head : Z)
  | PWrote (c : Cmd) (dropped : bool) (tail : Z).

(** Program points of the consumer inside [try_pop]. *)
Inductive Consumer :=
  | CIdle
  | CHead (head : Z)
  | CNonEmpty (head : Z)
  | CRead (head : Z) (item : option A).

Record Sys := mkSys {
  queue : SPSCQueue A;
  pending_cmds : list Cmd;
  producer : Producer;
  consumer : Consumer;
  accepted : list A;
  popped : list A
}.

Definition set_head (q : SPSCQueue A) (h : Z) : SPSCQueue A :=
  mkSPSCQueue h (tail_ q) (drop_count_ q) (buffer_ q).

Definition set_tail (q : SPSCQueue A) (t : Z) : SPSCQueue A :=
  mkSPSCQueue (head_ q) t (drop_count_ q) (buffer_ q).

Definition set_slot (q : SPSCQueue A) (i : Z) (x : A) : SPSCQueue A :=
  mkSPSCQueue (head_ q) (tail_ q) (drop_count_ q) (<[Z.to_nat i := x]> (buffer_ q)).

Definition drop_head (q : SPSCQueue A) (h : Z) : SPSCQueue A :=
  mkSPSCQueue h (tail_ q) (inc64 (drop_count_ q)) (buffer_ q).

(** One step of the producer; [spurious] is the outcome of a weak
    compare-exchange whose comparison succeeds. *)
Definition step_producer (spurious : bool) (s : Sys) : Sys :=
  let q := queue s in
  let upd q p acc cmds := mkSys q cmds p (consumer s) acc (popped s) in
  match producer s with
  | PIdle =>
    match pending_cmds s with
    | [] => s
    | c :: cs => upd q (PLoop c false) (accepted s) cs
    end
  | PLoop c d => upd q (PTail c d (tail_ q)) (accepted s) (pending_cmds s)
  | PTail c d t => upd q (PHead c d t (head_ q)) (accepted s) (pending_cmds s)
  | PHead c d t h =>
    if advance Cap t =? h then
      match c with
      | TryPush _ => upd q PIdle (accepted s) (pending_cmds s)
      | DropOldestPush _ =>
        if (head_ q =? h) && negb spurious
        then upd (drop_head q (advance Cap h)) (PLoop c true) (accepted s) (pending_cmds s)
        else upd q (PLoop c d) (accepted s) (pending_cmds s)
      end
    else upd (set_slot q t (cmd_item c)) (PWrote c d t) (accepted s) (pending_cmds s)
  | PWrote c d t =>
    upd (set_tail q (advance Cap t)) PIdle (accepted s ++ [cmd_item c]) (pending_cmds s)
  end.

(** One step of the consumer, which calls [try_pop] again and again. *)
Definition step_consumer (s : Sys) : Sys :=
  let q := queue s in
  let upd q c pop := mkSys q (pending_cmds s) (producer s) c (accepted s) pop in
  match consumer s with
  | CIdle => upd q (CHead (head_ q)) (popped s)
  | CHead h => if h =? tail_ q then upd q CIdle (popped s) else upd q (CNonEmpty h) (popped s)
  | CNonEmpty h => upd q (CRead h (buffer_ q !! Z.to_nat h)) (popped s)
  | CRead h x => upd (set_head q (advance Cap h)) CIdle (popped s ++ option_list x)
  end.

Inductive step : Sys -> Sys -> Prop :=
  | step_P spurious s : step s (step_producer spurious s)
  | step_C s : step s (step_consumer s).

Definition initial (dflt : A) (cmds : list Cmd) : Sys :=
  mkSys (SPSCQueue_init Cap dflt) cmds PIdle CIdle [] [].

(** A schedule is a finite choice of who moves. *)
Inductive Move := MoveP (spurious : bool) | MoveC.

Definition move (s : Sys) (m : Move) : Sys :=
  match m with MoveP b => step_producer b s | MoveC => step_consumer s end.

(** *** Invariant for a producer that drops nothing *)

Definition try_only (c : Cmd) : Prop := match c with TryPush _ => True | _ => False end.

(** The producer does not find the queue full in a [drop_oldest_push]. *)
Definition room (s : Sys) : Prop :=
  match producer s with PHead (DropOldestPush _) _ t h => advance Cap t <> h | _ => True end.

(** The calls the producer may make. *)
Variable (ok : Cmd -> Prop).

Definition producer_inv (q : SPSCQueue A) (p : Producer) : Prop :=
  match p with
  | PIdle => True
  | PLoop c _ => ok c
  | PTail c _ t => ok c /\ t = tail_ q
  | PHead c _ t h => ok c /\ t = tail_ q /\
      (advance Cap t <> h -> advance Cap (tail_ q) <> head_ q)
  | PWrote c _ t => ok c /\ t = tail_ q /\ advance Cap (tail_ q) <> head_ q /\
      buffer_ q !! Z.to_nat t = Some (cmd_item c)
  end.

Definition consumer_inv (q : SPSCQueue A) (c : Consumer) : Prop :=
  match c with
  | CIdle => True
  | CHead h => h = head_ q
  | CNonEmpty h => h = head_ q /\ head_ q <> tail_ q
  | CRead h x => h = head_ q /\ head_ q <> tail_ q /\ x = buffer_ q !! Z.to_nat h
  end.

Record inv (s : Sys) : Prop := {
  in_wf : queue_wf Cap (queue s);
  in_cmds : Forall ok (pending_cmds s);
  in_prod : producer_inv (queue s) (producer s);
  in_cons : consumer_inv (queue s) (consumer s);
  in_fifo : accepted s = popped s ++ contents Cap (queue s)
}.

(** *** Lemmas *)

(** Writing the free slot at the tail is invisible. *)
Lemma set_slot_contents q x :
  queue_wf Cap q -> queue_wf Cap (set_slot q (tail_ q) x) /\
  contents Cap (set_slot q (tail_ q) x) = contents Cap q.
Proof.
  intros Hq. pose proof Hq as [Hc Hb Hh Ht]. pose proof (cap_pos Cap Hc). split.
  - constructor; cbn; [done|by rewrite length_insert|done|done].
  - unfold contents. change (count Cap (set_slot q (tail_ q) x)) with (count Cap q). cbn [set_slot buffer_ head_].
    rewrite <-(Z.mod_small (tail_ q) Cap) by done. apply ring_insert_out; [lia|].
    intros j Hj. rewrite (tail_count Cap q Hq), Zmod_mod. pose proof (count_lt Cap q Hq).
    apply mod_neq; lia.
Qed.

(** Room seen by the producer is not taken away by a pop. *)
Lemma room_after_pop (q : SPSCQueue A) :
  queue_wf Cap q -> head_ q <> tail_ q -> advance Cap (tail_ q) <> advance Cap (head_ q).
Proof.
  intros Hq Hne. pose proof Hq as [Hc Hb Hh Ht]. pose proof (cap_pos Cap Hc).
  destruct (pop_contents Cap q Hq Hne) as (Hw & x & _ & Hcon). set (q' := mkSPSCQueue _ _ _ _) in *.
  change (advance Cap (tail_ q') <> head_ q'). rewrite full_count by done.
  apply (f_equal length) in Hcon. cbn [length] in Hcon. rewrite !length_contents in Hcon by done.
  pose proof (count_lt Cap q Hq). lia.
Qed.

Lemma inv_producer b s : inv s -> room s -> inv (step_producer b s).
Proof.
  intros [Hw Hcm Hp Hc Hf] Hr. unfold step_producer, room in *.
  destruct (producer s) as [|c d|c d t|c d t h|c d t] eqn:Ep; cbn in Hp.
  - destruct (pending_cmds s) as [|c cs] eqn:Ec; [constructor; rewrite ?Ep, ?Ec; done|].
    apply Forall_cons_1 in Hcm as [? ?]. by constructor.
  - by constructor.
  - destruct Hp as [? ->]. by constructor.
  - destruct Hp as (Htry & -> & Hroom).
    destruct (Z.eqb_spec (advance Cap (tail_ (queue s))) h) as [|Hne]; [destruct c; [by constructor|done]|].
    destruct (set_slot_contents (queue s) (cmd_item c) Hw) as [Hw' Hc'].
    constructor; cbn [queue pending_cmds producer consumer accepted popped cmd_item]; [done..| | |by rewrite Hc'].
    + cbn. split_and!; [done|done|by apply Hroom|]. apply list_lookup_insert_eq.
      destruct Hw as [? Hb ? ?]. lia.
    + destruct (consumer s) as [|h'|h'|h' y]; try done. destruct Hc as (-> & Hne' & ->).
      cbn. split_and!; [done..|]. rewrite list_lookup_insert_ne; [done|].
      destruct Hw as [? Hb Hh Ht]. lia.
  - destruct Hp as (Htry & -> & Hroom & Hslot).
    destruct (push_contents Cap (queue s) (cmd_item c) Hw Hroom) as [Hw' Hc'].
    rewrite list_insert_id in Hw', Hc' by done. fold (set_tail (queue s) (advance Cap (tail_ (queue s)))) in Hw', Hc'.
    constructor; cbn [queue pending_cmds producer consumer accepted popped]; try done.
    + destruct (consumer s) as [|h'|h'|h' y]; try done; cbn in *.
      * destruct Hc as [-> Hne]. split; [done|]. by apply not_eq_sym.
      * destruct Hc as (-> & Hne & ->). split_and!; [done|by apply not_eq_sym|done].
    + by rewrite Hf, Hc', app_assoc.
Qed.

Lemma inv_consumer s : inv s -> inv (step_consumer s).
Proof.
  intros [Hw Hcm Hp Hc Hf]. unfold step_consumer.
  destruct (consumer s) as [|h|h|h x] eqn:Ec; cbn in Hc.
  - by constructor.
  - subst h. destruct (Z.eqb_spec (head_ (queue s)) (tail_ (queue s))); by constructor.
  - destruct Hc as [-> ?]. by constructor.
  - destruct Hc as (-> & Hne & ->). destruct (pop_contents Cap (queue s) Hw Hne) as (Hw' & x & Hx & Hcon).
    fold (set_head (queue s) (advance Cap (head_ (queue s)))) in Hw', Hcon.
    constructor; cbn [queue pending_cmds producer consumer accepted popped]; try done.
    + pose proof (room_after_pop (queue s) Hw Hne) as Hroom.
      destruct (producer s) as [|c d|c d t|c d t h|c d t]; try done; cbn in *; by destruct_and?.
    + rewrite Hf, Hcon, Hx. cbn. by rewrite <-app_assoc.
Qed.

Lemma inv_initial dflt cmds : cap_ok Cap -> Forall ok cmds -> inv (initial dflt cmds).
Proof.
  intros Hcap Hc. destruct (init_wf Cap dflt Hcap) as [Hw He]. constructor; try done.
Qed.

(** Steps of the two threads in which nothing is dropped. *)
Definition roomy_step (s s' : Sys) : Prop := room s /\ step s s'.

Lemma inv_reachable dflt cmds s :
  cap_ok Cap -> Forall ok cmds -> rtc roomy_step (initial dflt cmds) s -> inv s.
Proof.
  intros Hcap Hc Hs. pose proof (inv_initial dflt cmds Hcap Hc) as Hi. revert Hi.
  induction Hs as [s|s1 s2 s3 [Hr Hst] _ IH]; intros Hi; [done|]. apply IH.
  destruct Hst; [by apply inv_producer|by apply inv_consumer].
Qed.

(** Every schedule is an execution. *)
Lemma moves_reachable sched s0 : rtc step s0 (fold_left move sched s0).
Proof.
  revert s0. induction sched as [|m sched IH]; intros s0; [apply rtc_refl|].
  eapply rtc_l; [|apply IH]. destruct m; constructor.
Qed.

End Concurrent.

(** A producer that only calls [try_push] drops nothing. *)
Lemma inv_try_only {A} (Cap : Z) (dflt : A) cmds s :
  cap_ok Cap -> Forall try_only cmds -> rtc (step Cap) (initial Cap dflt cmds) s -> inv Cap try_only s.
Proof.
  intros Hcap Hc Hs. pose proof (inv_initial Cap try_only dflt cmds Hcap Hc) as Hi. revert Hi.
  induction Hs as [s|s1 s2 s3 Hst _ IH]; intros Hi; [done|]. apply IH.
  destruct Hst; [apply inv_producer; [done|]|by apply inv_consumer].
  destruct Hi as [_ _ Hp _ _]. unfold room. destruct (producer s) as [|c d|c d t|c d t h|c d t]; try done.
  by destruct c, Hp.
Qed.

Arguments TryPush {A}.
Arguments DropOldestPush {A}.

(** ** Theorems *)

(** C21: the queue is linearizable as a FIFO when the producer uses [try_push].
    In every state reachable by any interleaving of the atomic steps of one
    producer calling [try_push] and one consumer calling [try_pop], the items
    the producer got accepted are, in order, the items already popped followed
    by the current contents: nothing is lost, duplicated or reordered, and at
    most [Cap - 1] items are stored. *)
Theorem try_push_try_pop_fifo {A} (Cap : Z) (dflt : A) (cmds : list Cmd) (s : Sys)
    (Hcap : cap_ok Cap) (Hcmds : Forall try_only cmds)
    (Hreach : rtc (step Cap) (initial Cap dflt cmds) s) :
  accepted s = popped s ++ contents Cap (queue s) /\
  Z.of_nat (length (contents Cap (queue s))) <= usable_capacity Cap.
Proof.
  destruct (inv_try_only Cap dflt cmds s Hcap Hcmds Hreach) as [Hw _ _ _ Hf]. split; [done|].
  rewrite length_contents by done. pose proof (count_lt Cap _ Hw). unfold usable_capacity. lia.
Qed.

(** A push and a pop whose steps alternate. *)
Lemma try_push_try_pop_fifo_witness :
  let s := fold_left (move 2) [MoveP false; MoveP false; MoveC; MoveP false; MoveP false; MoveP false;
                               MoveC; MoveC; MoveC] (initial 2 0 [TryPush 7]) in
  accepted s = popped s ++ contents 2 (queue s) /\
  Z.of_nat (length (contents 2 (queue s))) <= usable_capacity 2.
Proof.
  intros s. apply (try_push_try_pop_fifo 2 0 [TryPush 7]).
  - exists 1. split; [lia|reflexivity].
  - apply Forall_cons_2; [exact I|apply Forall_nil_2].
  - apply moves_reachable.
Defined.

(** As long as it does not find the queue full, [drop_oldest_push] is as good: along
    any interleaving in which it never does, nothing is lost, duplicated or
    reordered. *)
Theorem drop_oldest_push_fifo_with_room {A} (Cap : Z) (dflt : A) (cmds : list Cmd) (s : Sys) :
  cap_ok Cap -> rtc (roomy_step Cap) (initial Cap dflt cmds) s ->
  accepted s = popped s ++ contents Cap (queue s) /\
  Z.of_nat (length (contents Cap (queue s))) <= usable_capacity Cap.
Proof.
  intros Hcap Hs. destruct (inv_reachable Cap (fun _ => True) dflt cmds s Hcap) as [Hw _ _ _ Hf]; [by apply Forall_true|done|].
  split; [done|]. rewrite length_contents by done. pose proof (count_lt Cap _ Hw). unfold usable_capacity. lia.
Qed.

(** Then every call is accepted: what has been accepted are the first of the calls. *)
Definition in_flight {A} (p : Producer (A := A)) : list Cmd :=
  match p with PIdle => [] | PLoop c _ | PTail c _ _ | PHead c _ _ _ | PWrote c _ _ => [c] end.

Lemma roomy_accepts {A} (Cap : Z) (dflt : A) (items : list A) (s : Sys) :
  rtc (roomy_step Cap) (initial Cap dflt (DropOldestPush <$> items)) s -> accepted s `prefix_of` items.
Proof.
  intros Hs.
  assert (Hi : (exists rest, in_flight (producer s) ++ pending_cmds s = DropOldestPush <$> rest /\ items = accepted s ++ rest));
    [|destruct Hi as (rest & _ & ->); by eexists].
  assert (H0 : exists rest, in_flight (producer (initial Cap dflt (DropOldestPush <$> items))) ++
      pending_cmds (initial Cap dflt (DropOldestPush <$> items)) = DropOldestPush <$> rest /\
    items = accepted (initial Cap dflt (DropOldestPush <$> items)) ++ rest) by (by exists items).
  revert H0. induction Hs as [s|s1 s2 s3 [Hr Hst] _ IH]; intros (rest & Hp & Ha); [by exists rest|]. apply IH. clear IH.
  destruct Hst as [b s1|s1].
  2: { exists rest. unfold step_consumer. destruct (consumer s1); [|case_match|..]; done. }
  unfold step_producer, room in *. destruct (producer s1) as [|c d|c d t|c d t h|c d t] eqn:Ep; cbn [in_flight app] in *.
  - destruct (pending_cmds s1) as [|c cs] eqn:Ec; [|by exists rest]. exists rest. by rewrite Ep, Ec.
  - by exists rest.
  - by exists rest.
  - destruct rest as [|x rest]; [done|]. cbn [fmap list_fmap] in Hp. injection Hp as -> Hp.
    destruct (Z.eqb_spec (advance Cap t) h); [done|]. exists (x :: rest). cbn. by rewrite Hp.
  - destruct rest as [|x rest]; [done|]. cbn [fmap list_fmap] in Hp. injection Hp as -> Hp. exists rest.
    cbn. split; [done|]. by rewrite <-app_assoc.
Qed.

(** [drop_oldest_push] races with [try_pop].  The consumer stores
    [head + 1] without looking whether the producer has moved the head in the
    meantime.  With capacity 4 there is an interleaving of five pushes and one
    pop after which one item has been popped, two are counted as dropped, and
    yet the queue is empty: two accepted items have disappeared. *)
Theorem drop_oldest_push_loses_items :
  exists s : Sys (A := Z),
    rtc (step 4) (initial 4 0 [DropOldestPush 1; DropOldestPush 2; DropOldestPush 3;
                               DropOldestPush 4; DropOldestPush 5]) s /\
    producer s = PIdle /\ consumer s = CIdle /\ pending_cmds s = [] /\
    accepted s = [1; 2; 3; 4; 5] /\ popped s = [1] /\ drop_count (queue s) = 2 /\
    contents 4 (queue s) = [].
Proof.
  set (sched := replicate 15 (MoveP false) ++ [MoveC; MoveC; MoveC] ++
                replicate 16 (MoveP false) ++ [MoveC]).
  exists (fold_left (move 4) sched (initial 4 0 [DropOldestPush 1; DropOldestPush 2; DropOldestPush 3;
    DropOldestPush 4; DropOldestPush 5])).
  split; [apply moves_reachable|vm_compute; split_and!; reflexivity].
Qed.

End SpscConcurrent.
