(* ===== verification/Dispatcher.v ===== *)
(** [Dispatcher] ([src/m01_receiver/pipeline/dispatcher.cpp]): routing of the
    validated packets to the data and heartbeat handlers, the heartbeat
    statistics, and the two-queue priority path beside the direct one. *)

From S2P Require Import Prelude Crc32c Protocol Validator.
Open Scope Z_scope.
Import Crc32c Protocol Validator.

Module Dispatcher.

(** ** Definitions *)

(** A call the dispatcher makes: the three handlers and the two metrics.  The
    zero-copy handler receives the packet buffer (its bytes) with the packet. *)
Inductive Call :=
  | DataHandler (p : ParsedPacket)
  | ZeroCopyDataHandler (p : ParsedPacket) (buffer : bytes)
  | HeartbeatHandler (p : ParsedPacket)
  | set_heartbeat_queue_depth (n : nat)
  | increment_heartbeat_packets_processed.

Record Statistics := mkStatistics {
  data_packets : Z;
  heartbeat_packets : Z;
  dropped_packets : Z;
}.

Record HeartbeatStatistics := mkHeartbeatStatistics {
  received_total : Z;
  loss_total : Z;
  last_seen_ms : Z;
  queue_priority_hits : Z;
  starved_total : Z;
}.

Record QueuedPacket := mkQueuedPacket {
  q_type : PacketType;
  q_header : CommonHeader;
  q_payload : bytes;
  q_total_size : Z;
}.

(** The handlers are represented by whether they are set; [calls_] is the log
    of the calls made so far, oldest first. *)
Record Dispatcher := mkDispatcher {
  data_handler_ : bool;
  zero_copy_data_handler_ : bool;
  heartbeat_handler_ : bool;
  stats_ : Statistics;
  heartbeat_stats_ : HeartbeatStatistics;
  high_priority_queue_ : list QueuedPacket;
  normal_queue_ : list QueuedPacket;
  heartbeat_max_queue_depth_ : nat;
  has_last_heartbeat_seq_ : bool;
  last_heartbeat_seq_ : Z;
  calls_ : list Call;
}.

Definition Dispatcher_init (data_handler heartbeat_handler : bool) : Dispatcher :=
  mkDispatcher data_handler false heartbeat_handler (mkStatistics 0 0 0)
    (mkHeartbeatStatistics 0 0 0 0 0) [] [] 1000 false 0 [].

(** Field updates. *)
Definition with_stats (f : Statistics -> Statistics) (d : Dispatcher) : Dispatcher :=
  let 'mkDispatcher a b c s hs hq nq md hl ls cs := d in
  mkDispatcher a b c (f s) hs hq nq md hl ls cs.

Definition with_hb (f : HeartbeatStatistics -> HeartbeatStatistics) (d : Dispatcher) : Dispatcher :=
  let 'mkDispatcher a b c s hs hq nq md hl ls cs := d in
  mkDispatcher a b c s (f hs) hq nq md hl ls cs.

Definition with_queues (hq nq : list QueuedPacket) (d : Dispatcher) : Dispatcher :=
  let 'mkDispatcher a b c s hs _ _ md hl ls cs := d in
  mkDispatcher a b c s hs hq nq md hl ls cs.

Definition with_last_seq (seq : Z) (d : Dispatcher) : Dispatcher :=
  let 'mkDispatcher a b c s hs hq nq md _ _ cs := d in
  mkDispatcher a b c s hs hq nq md true seq cs.

Definition call (c : Call) (d : Dispatcher) : Dispatcher :=
  let 'mkDispatcher a b h s hs hq nq md hl ls cs := d in
  mkDispatcher a b h s hs hq nq md hl ls (cs ++ [c]).

Definition inc_data (s : Statistics) : Statistics :=
  mkStatistics (inc64 (data_packets s)) (heartbeat_packets s) (dropped_packets s).

Definition inc_heartbeat (s : Statistics) : Statistics :=
  mkStatistics (data_packets s) (inc64 (heartbeat_packets s)) (dropped_packets s).

Definition inc_dropped (s : Statistics) : Statistics :=
  mkStatistics (data_packets s) (heartbeat_packets s) (inc64 (dropped_packets s)).

Definition add_loss (n : Z) (h : HeartbeatStatistics) : HeartbeatStatistics :=
  mkHeartbeatStatistics (received_total h) (loss_total h +[64] n) (last_seen_ms h)
    (queue_priority_hits h) (starved_total h).

Definition set_seen (now : Z) (h : HeartbeatStatistics) : HeartbeatStatistics :=
  mkHeartbeatStatistics (inc64 (received_total h)) (loss_total h) now
    (queue_priority_hits h) (starved_total h).

Definition inc_hits (h : HeartbeatStatistics) : HeartbeatStatistics :=
  mkHeartbeatStatistics (received_total h) (loss_total h) (last_seen_ms h)
    (inc64 (queue_priority_hits h)) (starved_total h).

Definition inc_starved (h : HeartbeatStatistics) : HeartbeatStatistics :=
  mkHeartbeatStatistics (received_total h) (loss_total h) (last_seen_ms h)
    (queue_priority_hits h) (inc64 (starved_total h)).

Definition set_heartbeat_max_queue_depth (depth : nat) (d : Dispatcher) : Dispatcher :=
  let 'mkDispatcher a b c s hs hq nq _ hl ls cs := d in
  mkDispatcher a b c s hs hq nq (if (depth =? 0)%nat then 1%nat else depth) hl ls cs.

Definition set_zero_copy_data_handler (handler : bool) (d : Dispatcher) : Dispatcher :=
  let 'mkDispatcher a _ c s hs hq nq md hl ls cs := d in
  mkDispatcher a handler c s hs hq nq md hl ls cs.

Definition read_u32_le (ptr : bytes) : Z := le_load (take 4 ptr).

Definition handle_non_data_packet (type : PacketType) (d : Dispatcher) : Dispatcher :=
  with_stats inc_dropped d.

(** The sequence gap: [loss_total] grows by the heartbeats skipped. *)
Definition note_sequence (seq : Z) (d : Dispatcher) : Dispatcher :=
  let d :=
    if has_last_heartbeat_seq_ d then
      let delta := seq -[32] last_heartbeat_seq_ d in
      if (1 <? delta) && (delta <? 2 ^ 31) then with_hb (add_loss (delta - 1)) d else d
    else d in
  with_last_seq seq d.

Definition drop_heartbeat (d : Dispatcher) : Dispatcher :=
  with_stats inc_dropped (with_hb (add_loss 1) d).

(** The checksum of a heartbeat is skipped when the checksum field is zero. *)
Definition wire_crc_ok (payload : bytes) : bool :=
  let wire_crc := read_u32_le (drop kHeartbeatCrcOffset payload) in
  if negb (wire_crc =? 0) then wire_crc =? crc32c (Some payload) kHeartbeatDataLen else true.

Definition dispatch_heartbeat_direct (now : Z) (packet : ParsedPacket) (d : Dispatcher)
    : Dispatcher :=
  match payload packet with
  | None => drop_heartbeat d
  | Some pl =>
    if payload_len (header packet) <? kHeartbeatPayloadLen then drop_heartbeat d
    else if negb (wire_crc_ok pl) then drop_heartbeat d
    else
      let d := note_sequence (sequence_number (header packet)) d in
      let d := with_hb (set_seen now) d in
      let d := with_stats inc_heartbeat d in
      let d := call increment_heartbeat_packets_processed d in
      if heartbeat_handler_ d then call (HeartbeatHandler packet) d else d
  end.

Definition dispatch_heartbeat_packet (now : Z) (queued : QueuedPacket) (d : Dispatcher)
    : Dispatcher :=
  if Z.of_nat (length (q_payload queued)) <? kHeartbeatPayloadLen then drop_heartbeat d
  else if negb (wire_crc_ok (q_payload queued)) then drop_heartbeat d
  else
    let d := note_sequence (sequence_number (q_header queued)) d in
    let d := with_hb (set_seen now) d in
    let d := with_stats inc_heartbeat d in
    let d := call increment_heartbeat_packets_processed d in
    if negb (heartbeat_handler_ d) then d
    else call (HeartbeatHandler
                 (mkParsedPacket (q_header queued) (Some (q_payload queued)) (q_total_size queued))) d.

Definition dispatch (now : Z) (packet : ParsedPacket) (d : Dispatcher) : Dispatcher :=
  let type := get_packet_type (header packet) in
  if bool_decide (type = DATA) then
    let d := with_stats inc_data d in
    if data_handler_ d then call (DataHandler packet) d else d
  else if bool_decide (type = HEARTBEAT) then dispatch_heartbeat_direct now packet d
  else handle_non_data_packet type d.

(** The overload with a buffer: it is moved into the zero-copy handler, and
    otherwise stays with the caller ([Some buffer] is returned). *)
Definition dispatch_buffer (now : Z) (packet : ParsedPacket) (buffer : bytes) (d : Dispatcher)
    : Dispatcher * option bytes :=
  let type := get_packet_type (header packet) in
  if bool_decide (type = DATA) then
    let d := with_stats inc_data d in
    if zero_copy_data_handler_ d then (call (ZeroCopyDataHandler packet buffer) d, None)
    else if data_handler_ d then (call (DataHandler packet) d, Some buffer)
    else (d, Some buffer)
  else if bool_decide (type = HEARTBEAT)
  then (dispatch_heartbeat_direct now packet d, Some buffer)
  else (handle_non_data_packet type d, Some buffer).

Definition dispatch_with_priority := dispatch.

(** [now k] is the clock when the [k]-th packet is dispatched. *)
Fixpoint dispatch_batch (now : nat -> Z) (packets : list ParsedPacket) (d : Dispatcher)
    : Dispatcher :=
  match packets with
  | [] => d
  | packet :: packets =>
    dispatch_batch (fun k => now (S k)) packets (dispatch (now 0%nat) packet d)
  end.

(** [resize] fills with zeros, which [memcpy] then overwrites. *)
Definition queued_of (packet : ParsedPacket) : QueuedPacket :=
  let payload_len := Z.to_nat (payload_len (header packet)) in
  mkQueuedPacket (get_packet_type (header packet)) (header packet)
    (match payload packet with
     | Some pl => take payload_len pl
     | None => replicate payload_len 0
     end) (total_size packet).

(** The loop that makes room; it stops when the queue is shorter than the depth. *)
Fixpoint make_room (hq : list QueuedPacket) (d : Dispatcher) : list QueuedPacket * Dispatcher :=
  if (heartbeat_max_queue_depth_ d <=? length hq)%nat then
    match hq with
    | [] => ([], d)
    | _ :: hq => make_room hq (with_stats inc_dropped (with_hb inc_starved d))
    end
  else (hq, d).

Definition enqueue_packet (packet : ParsedPacket) (d : Dispatcher) : Dispatcher :=
  let type := get_packet_type (header packet) in
  if bool_decide (type <> DATA /\ type <> HEARTBEAT) then handle_non_data_packet type d
  else
    let queued := queued_of packet in
    if bool_decide (q_type queued = HEARTBEAT) then
      let '(hq, d) := make_room (high_priority_queue_ d) d in
      let hq := hq ++ [queued] in
      call (set_heartbeat_queue_depth (length hq)) (with_queues hq (normal_queue_ d) d)
    else with_queues (high_priority_queue_ d) (normal_queue_ d ++ [queued]) d.

Definition dispatch_queued_packet (now : Z) (queued : QueuedPacket) (d : Dispatcher)
    : Dispatcher :=
  if bool_decide (q_type queued = DATA) then
    let d := with_stats inc_data d in
    if data_handler_ d then
      call (DataHandler (mkParsedPacket (q_header queued)
              (match q_payload queued with [] => None | pl => Some pl end)
              (q_total_size queued))) d
    else d
  else if bool_decide (q_type queued = HEARTBEAT) then dispatch_heartbeat_packet now queued d
  else handle_non_data_packet (q_type queued) d.

(** [drain_queues]: one iteration of the loop per unit of fuel; [None] when the
    fuel runs out before the queues are empty. *)
Fixpoint drain_queues (fuel : nat) (now : nat -> Z) (d : Dispatcher) : option Dispatcher :=
  match high_priority_queue_ d, normal_queue_ d with
  | [], [] => Some d
  | queued :: hq, nq =>
    match fuel with
    | O => None
    | S fuel =>
      let d := match nq with [] => d | _ => with_hb inc_hits d end in
      let d := call (set_heartbeat_queue_depth (length hq)) (with_queues hq nq d) in
      drain_queues fuel (fun k => now (S k)) (dispatch_queued_packet (now 0%nat) queued d)
    end
  | [], queued :: nq =>
    match fuel with
    | O => None
    | S fuel =>
      drain_queues fuel (fun k => now (S k))
        (dispatch_queued_packet (now 0%nat) queued (with_queues [] nq d))
    end
  end.

(** ** Observations *)

Definition is_heartbeat (p : ParsedPacket) : Prop := get_packet_type (header p) = HEARTBEAT.

Definition is_data (p : ParsedPacket) : Prop := get_packet_type (header p) = DATA.

#[export] Instance is_heartbeat_dec p : Decision (is_heartbeat p).
Proof. unfold is_heartbeat. apply _. Defined.

#[export] Instance is_data_dec p : Decision (is_data p).
Proof. unfold is_data. apply _. Defined.

(** What [PacketParser] delivers: the payload bytes are in memory. *)
Definition payload_present (p : ParsedPacket) : Prop :=
  exists pl, payload p = Some pl /\ 0 <= payload_len (header p) <= Z.of_nat (length pl).

(** What a handler can read of its packet. *)
Definition readable (p : ParsedPacket) : CommonHeader * bytes * Z :=
  (header p, take (Z.to_nat (payload_len (header p))) (default [] (payload p)), total_size p).

Definition data_call (c : Call) : option (CommonHeader * bytes * Z) :=
  match c with DataHandler p => Some (readable p) | _ => None end.

Definition heartbeat_call (c : Call) : option (CommonHeader * bytes * Z) :=
  match c with HeartbeatHandler p => Some (readable p) | _ => None end.

(** The part of the state that data packets, respectively heartbeats, change:
    the handler, the counters and the packets handed over, in order. *)
Definition data_view (d : Dispatcher) :=
  (data_handler_ d, data_packets (stats_ d), omap data_call (calls_ d)).

Definition heartbeat_view (d : Dispatcher) :=
  (heartbeat_handler_ d, heartbeat_packets (stats_ d),
   (received_total (heartbeat_stats_ d), loss_total (heartbeat_stats_ d)),
   (has_last_heartbeat_seq_ d, last_heartbeat_seq_ d), omap heartbeat_call (calls_ d)).

(** The packets [dispatch] refuses. *)
Definition heartbeat_ok (p : ParsedPacket) : bool :=
  match payload p with
  | None => false
  | Some pl => negb (payload_len (header p) <? kHeartbeatPayloadLen) && wire_crc_ok pl
  end.

Definition refused (p : ParsedPacket) : bool :=
  negb (bool_decide (is_data p)) && negb (bool_decide (is_heartbeat p) && heartbeat_ok p).

(** ** The direct and the queued path on one packet *)

Lemma wire_crc_ok_take n pl :
  (48 <= n)%nat -> wire_crc_ok (take n pl) = wire_crc_ok pl.
Proof.
  intros Hn. unfold wire_crc_ok, read_u32_le, crc32c, kHeartbeatCrcOffset, kHeartbeatDataLen.
  rewrite !take_drop_commute, !take_take.
  replace (44 `min` n)%nat with 44%nat by lia.
  by replace ((44 + 4) `min` n)%nat with (44 + 4)%nat by lia.
Qed.

Lemma readable_queued p :
  payload_present p ->
  readable (mkParsedPacket (header p) (Some (q_payload (queued_of p))) (total_size p)) = readable p.
Proof.
  intros (pl & Hpl & ?). unfold readable, queued_of. cbn [header payload total_size q_payload].
  rewrite Hpl. cbn [from_option id]. unfold default. by rewrite take_take, Nat.min_id.
Qed.

(** Evaluates an operation on a destructed state, deciding its tests. *)
Ltac run_dispatch :=
  repeat match goal with d : Dispatcher |- _ => destruct d end;
  cbn [data_handler_ zero_copy_data_handler_ heartbeat_handler_ stats_ heartbeat_stats_
       high_priority_queue_ normal_queue_ heartbeat_max_queue_depth_ has_last_heartbeat_seq_
       last_heartbeat_seq_ calls_] in *;
  repeat match goal with
  | |- context [note_sequence ?q ?d] => unfold note_sequence at 1
  | |- context [if ?b then _ else _] => destruct b eqn:?
  end;
  cbn [with_stats with_hb with_queues with_last_seq call handle_non_data_packet drop_heartbeat
       inc_data inc_heartbeat inc_dropped add_loss set_seen inc_hits inc_starved
       data_handler_ zero_copy_data_handler_ heartbeat_handler_ stats_ heartbeat_stats_
       high_priority_queue_ normal_queue_ heartbeat_max_queue_depth_ has_last_heartbeat_seq_
       last_heartbeat_seq_ calls_ data_packets heartbeat_packets dropped_packets received_total
       loss_total last_seen_ms queue_priority_hits starved_total] in *.

Lemma dispatch_data now p d :
  is_data p ->
  dispatch now p d =
    let d := with_stats inc_data d in
    if data_handler_ d then call (DataHandler p) d else d.
Proof. intros Hd. unfold dispatch. by rewrite bool_decide_eq_true_2. Qed.

Lemma dispatch_heartbeat now p d :
  is_heartbeat p -> dispatch now p d = dispatch_heartbeat_direct now p d.
Proof.
  unfold is_heartbeat. intros Hd. unfold dispatch.
  rewrite Hd. done.
Qed.

Lemma dispatch_other now p d :
  ~ is_data p -> ~ is_heartbeat p -> dispatch now p d = with_stats inc_dropped d.
Proof.
  unfold is_data, is_heartbeat. intros ??. unfold dispatch.
  by rewrite !bool_decide_eq_false_2.
Qed.

(** A heartbeat is either refused or accounted for, and nothing else. *)
Definition accept_heartbeat (now : Z) (p : ParsedPacket) (d : Dispatcher) : Dispatcher :=
  let d := with_stats inc_heartbeat (with_hb (set_seen now)
             (note_sequence (sequence_number (header p)) d)) in
  let d := call increment_heartbeat_packets_processed d in
  if heartbeat_handler_ d then call (HeartbeatHandler p) d else d.

Lemma dispatch_heartbeat_direct_eq now p d :
  dispatch_heartbeat_direct now p d =
  if heartbeat_ok p then accept_heartbeat now p d else drop_heartbeat d.
Proof.
  unfold dispatch_heartbeat_direct, heartbeat_ok, accept_heartbeat.
  destruct (payload p) as [pl|]; [|done].
  by destruct (payload_len (header p) <? kHeartbeatPayloadLen), (wire_crc_ok pl).
Qed.

Lemma dispatch_heartbeat_packet_eq now p d :
  payload_present p ->
  dispatch_heartbeat_packet now (queued_of p) d =
  if heartbeat_ok p
  then accept_heartbeat now
         (mkParsedPacket (header p) (Some (q_payload (queued_of p))) (total_size p)) d
  else drop_heartbeat d.
Proof.
  intros (pl & Hpl & Hlen). unfold dispatch_heartbeat_packet, heartbeat_ok, accept_heartbeat.
  cbn [queued_of q_payload q_header q_total_size header]. rewrite Hpl.
  rewrite length_take, Nat.min_l, Z2Nat.id by lia.
  destruct (Z.ltb_spec (payload_len (header p)) kHeartbeatPayloadLen) as [|Hge]; [done|].
  rewrite wire_crc_ok_take by (change kHeartbeatPayloadLen with 48 in Hge; lia).
  cbn [negb andb]. destruct (wire_crc_ok pl); [|done]. cbn [negb].
  by destruct (heartbeat_handler_ _).
Qed.

Lemma dropped_accept now p d :
  dropped_packets (stats_ (accept_heartbeat now p d)) = dropped_packets (stats_ d).
Proof. unfold accept_heartbeat, note_sequence. cbn zeta. by run_dispatch. Qed.

Lemma dispatch_refused now p d :
  dropped_packets (stats_ (dispatch now p d)) =
  if refused p then inc64 (dropped_packets (stats_ d)) else dropped_packets (stats_ d).
Proof.
  unfold refused. case_bool_decide as Hd; cbn [negb andb].
  { rewrite dispatch_data by done. by run_dispatch. }
  case_bool_decide as Hh; cbn [negb andb].
  - rewrite dispatch_heartbeat, dispatch_heartbeat_direct_eq by done.
    destruct (heartbeat_ok p); [by rewrite dropped_accept|by run_dispatch].
  - rewrite dispatch_other by done. by run_dispatch.
Qed.

(** ** Views *)

(** A part of the state that only the packets of one class change: the direct
    and the queued path change it in the same way, the other operations leave
    it alone. *)
Class PacketView {V} (view : Dispatcher -> V) (mine : ParsedPacket -> Prop) := {
  view_dispatch_cong p n1 n2 d1 d2 :
    mine p -> view d1 = view d2 -> view (dispatch n1 p d1) = view (dispatch n2 p d2);
  view_dispatch_other p n d : ~ mine p -> view (dispatch n p d) = view d;
  view_queued p n d :
    mine p -> payload_present p ->
    view (dispatch_queued_packet n (queued_of p) d) = view (dispatch n p d);
  view_queued_other p n d :
    ~ mine p -> payload_present p -> view (dispatch_queued_packet n (queued_of p) d) = view d;
  view_queues hq nq d : view (with_queues hq nq d) = view d;
  view_depth k d : view (call (set_heartbeat_queue_depth k) d) = view d;
  view_hits d : view (with_hb inc_hits d) = view d;
  view_dropped d : view (with_stats inc_dropped d) = view d;
}.

Lemma dispatch_queued_data now p d :
  is_data p ->
  dispatch_queued_packet now (queued_of p) d =
  let d := with_stats inc_data d in
  if data_handler_ d
  then call (DataHandler (mkParsedPacket (header p)
         (match q_payload (queued_of p) with [] => None | pl => Some pl end) (total_size p))) d
  else d.
Proof.
  intros Hd. unfold dispatch_queued_packet. cbn [queued_of q_type q_header q_total_size].
  by rewrite bool_decide_eq_true_2.
Qed.

Lemma dispatch_queued_heartbeat now p d :
  is_heartbeat p ->
  dispatch_queued_packet now (queued_of p) d = dispatch_heartbeat_packet now (queued_of p) d.
Proof.
  unfold is_heartbeat. intros Hd. unfold dispatch_queued_packet. cbn [queued_of q_type]. by rewrite Hd.
Qed.

Lemma dispatch_queued_other now p d :
  ~ is_data p -> ~ is_heartbeat p ->
  dispatch_queued_packet now (queued_of p) d = with_stats inc_dropped d.
Proof.
  unfold is_data, is_heartbeat. intros ??. unfold dispatch_queued_packet.
  cbn [queued_of q_type]. by rewrite !bool_decide_eq_false_2.
Qed.

Lemma omap_snoc {A B} (f : A -> option B) l x :
  omap f (l ++ [x]) = omap f l ++ from_option (fun y => [y]) [] (f x).
Proof. rewrite omap_app. cbn. by destruct (f x). Qed.

Lemma readable_data p :
  payload_present p ->
  readable (mkParsedPacket (header p)
    (match q_payload (queued_of p) with [] => None | pl => Some pl end) (total_size p)) = readable p.
Proof.
  intros Hp. rewrite <-(readable_queued p Hp). unfold readable. cbn [header payload total_size].
  by destruct (q_payload (queued_of p)).
Qed.

Lemma data_not_heartbeat p : is_data p -> ~ is_heartbeat p.
Proof. unfold is_data, is_heartbeat. by intros ->. Qed.

(** The data view after a data packet. *)
Definition data_step (r : CommonHeader * bytes * Z) (v : bool * Z * list (CommonHeader * bytes * Z)) :=
  let '(h, n, l) := v in (h, inc64 n, if h : bool then l ++ [r] else l).

Lemma data_view_call p d :
  data_view (let d := with_stats inc_data d in
             if data_handler_ d then call (DataHandler p) d else d) =
  data_step (readable p) (data_view d).
Proof.
  cbn zeta. unfold data_view, data_step.
  run_dispatch; by rewrite ?omap_snoc.
Qed.

Lemma data_view_accept now p d : data_view (accept_heartbeat now p d) = data_view d.
Proof.
  unfold accept_heartbeat, note_sequence, data_view. cbn zeta.
  run_dispatch; by rewrite ?omap_snoc; cbn; rewrite ?app_nil_r.
Qed.

Lemma data_view_simple d hq nq k :
  data_view (with_stats inc_dropped d) = data_view d /\
  data_view (drop_heartbeat d) = data_view d /\
  data_view (with_queues hq nq d) = data_view d /\
  data_view (call (set_heartbeat_queue_depth k) d) = data_view d /\
  data_view (with_hb inc_hits d) = data_view d.
Proof.
  unfold data_view. run_dispatch. rewrite ?omap_snoc. cbn. by rewrite ?app_nil_r.
Qed.

#[export] Instance data_view_laws : PacketView data_view is_data.
Proof.
  split.
  - intros p n1 n2 d1 d2 Hp Heq. by rewrite !dispatch_data, !data_view_call, Heq.
  - intros p n d Hp. destruct (decide (is_heartbeat p)).
    + rewrite dispatch_heartbeat, dispatch_heartbeat_direct_eq by done.
      destruct (heartbeat_ok p); [apply data_view_accept|apply (data_view_simple d [] [] 0)].
    + rewrite dispatch_other by done. apply (data_view_simple d [] [] 0).
  - intros p n d Hp Hpl.
    by rewrite dispatch_queued_data, dispatch_data, !data_view_call, readable_data.
  - intros p n d Hp Hpl. destruct (decide (is_heartbeat p)).
    + rewrite dispatch_queued_heartbeat, dispatch_heartbeat_packet_eq by done.
      destruct (heartbeat_ok p); [apply data_view_accept|apply (data_view_simple d [] [] 0)].
    + rewrite dispatch_queued_other by done. apply (data_view_simple d [] [] 0).
  - intros. apply (data_view_simple d hq nq 0).
  - intros. apply (data_view_simple d [] [] k).
  - intros. apply (data_view_simple d [] [] 0).
  - intros. apply (data_view_simple d [] [] 0).
Qed.

(** The heartbeats skipped between two accepted ones. *)
Definition seq_gap (has : bool) (last seq : Z) : Z :=
  let delta := seq -[32] last in
  if has && (1 <? delta) && (delta <? 2 ^ 31) then delta - 1 else 0.

(** The heartbeat view after a heartbeat. *)
Definition heartbeat_step (ok : bool) (seq : Z) (r : CommonHeader * bytes * Z)
    (v : bool * Z * (Z * Z) * (bool * Z) * list (CommonHeader * bytes * Z)) :=
  let '(h, n, (received, loss), (has, last), l) := v in
  if ok then
    (h, inc64 n,
     (inc64 received, if seq_gap has last seq =? 0 then loss else loss +[64] seq_gap has last seq),
     (true, seq), if h : bool then l ++ [r] else l)
  else (h, n, (received, loss +[64] 1), (has, last), l).

Lemma note_sequence_eq seq d :
  note_sequence seq d =
  let gap := seq_gap (has_last_heartbeat_seq_ d) (last_heartbeat_seq_ d) seq in
  with_last_seq seq (if gap =? 0 then d else with_hb (add_loss gap) d).
Proof.
  unfold note_sequence, seq_gap. cbn zeta. f_equal.
  destruct (has_last_heartbeat_seq_ d); [|done]. cbn [andb].
  destruct (Z.ltb_spec 1 (seq -[32] last_heartbeat_seq_ d)); [|done]. cbn [andb].
  destruct (_ <? 2 ^ 31); [|done]. by rewrite (proj2 (Z.eqb_neq _ _)) by lia.
Qed.

Lemma heartbeat_view_accept now p d :
  heartbeat_view (accept_heartbeat now p d) =
  heartbeat_step true (sequence_number (header p)) (readable p) (heartbeat_view d).
Proof.
  unfold accept_heartbeat. rewrite note_sequence_eq. cbn zeta.
  unfold heartbeat_view, heartbeat_step.
  destruct (seq_gap _ _ _ =? 0); destruct d as [? ? [] ? ? ? ? ? ? ? ?];
    cbn - [Z.eqb seq_gap inc64] in *;
    rewrite ?omap_snoc; cbn - [inc64]; rewrite ?omap_snoc; cbn - [inc64]; by rewrite ?app_nil_r.
Qed.

Lemma heartbeat_view_drop d r :
  heartbeat_view (drop_heartbeat d) = heartbeat_step false 0 r (heartbeat_view d).
Proof. unfold heartbeat_view. by run_dispatch. Qed.

Lemma heartbeat_view_simple d hq nq k :
  heartbeat_view (with_stats inc_dropped d) = heartbeat_view d /\
  heartbeat_view (with_queues hq nq d) = heartbeat_view d /\
  heartbeat_view (call (set_heartbeat_queue_depth k) d) = heartbeat_view d /\
  heartbeat_view (with_hb inc_hits d) = heartbeat_view d.
Proof.
  unfold heartbeat_view. run_dispatch. rewrite ?omap_snoc. cbn. by rewrite ?app_nil_r.
Qed.

Lemma heartbeat_view_data p d :
  heartbeat_view (let d := with_stats inc_data d in
             if data_handler_ d then call (DataHandler p) d else d) = heartbeat_view d.
Proof.
  cbn zeta. unfold heartbeat_view. run_dispatch; rewrite ?omap_snoc; cbn; by rewrite ?app_nil_r.
Qed.

Lemma heartbeat_view_dispatch now p d :
  is_heartbeat p ->
  heartbeat_view (dispatch now p d) =
  heartbeat_step (heartbeat_ok p) (sequence_number (header p)) (readable p) (heartbeat_view d).
Proof.
  intros Hp. rewrite dispatch_heartbeat, dispatch_heartbeat_direct_eq by done.
  destruct (heartbeat_ok p); [apply heartbeat_view_accept|].
  by rewrite (heartbeat_view_drop d (readable p)).
Qed.

#[export] Instance heartbeat_view_laws : PacketView heartbeat_view is_heartbeat.
Proof.
  split.
  - intros p n1 n2 d1 d2 Hp Heq. by rewrite !heartbeat_view_dispatch, Heq.
  - intros p n d Hp. destruct (decide (is_data p)).
    + rewrite dispatch_data by done. apply heartbeat_view_data.
    + rewrite dispatch_other by done. apply (heartbeat_view_simple d [] [] 0).
  - intros p n d Hp Hpl.
    rewrite heartbeat_view_dispatch, dispatch_queued_heartbeat, dispatch_heartbeat_packet_eq by done.
    destruct (heartbeat_ok p); [by rewrite heartbeat_view_accept, readable_queued|].
    by rewrite (heartbeat_view_drop d (readable p)).
  - intros p n d Hp Hpl. destruct (decide (is_data p)).
    + rewrite dispatch_queued_data by done. apply heartbeat_view_data.
    + rewrite dispatch_queued_other by done. apply (heartbeat_view_simple d [] [] 0).
  - intros. apply (heartbeat_view_simple d hq nq 0).
  - intros. apply (heartbeat_view_simple d [] [] k).
  - intros. apply (heartbeat_view_simple d [] [] 0).
  - intros. apply (heartbeat_view_simple d [] [] 0).
Qed.

(** ** The queues *)

Lemma make_room_fits hq d :
  (length hq < heartbeat_max_queue_depth_ d)%nat -> make_room hq d = (hq, d).
Proof. intros H. destruct hq; cbn; by rewrite (proj2 (Nat.leb_gt _ _)) by (cbn in H; lia). Qed.

(** The queue part of the state, with the admitted queue depth. *)
Definition queues (d : Dispatcher) : list QueuedPacket * list QueuedPacket * nat :=
  (high_priority_queue_ d, normal_queue_ d, heartbeat_max_queue_depth_ d).

Definition enqueue_all (ps : list ParsedPacket) (d : Dispatcher) : Dispatcher :=
  fold_left (fun d p => enqueue_packet p d) ps d.

Lemma enqueue_view {V} (view : Dispatcher -> V) mine `{!PacketView view mine} p d :
  (length (high_priority_queue_ d) < heartbeat_max_queue_depth_ d)%nat \/ ~ is_heartbeat p ->
  view (enqueue_packet p d) = view d.
Proof.
  intros Hr. unfold enqueue_packet. case_bool_decide as Ht; [apply view_dropped|].
  cbn [queued_of q_type]. case_bool_decide as Hh; [|apply view_queues].
  rewrite make_room_fits by (destruct Hr; [done|contradiction]).
  by rewrite view_depth, view_queues.
Qed.

Lemma enqueue_queues p d :
  (length (high_priority_queue_ d) < heartbeat_max_queue_depth_ d)%nat \/ ~ is_heartbeat p ->
  queues (enqueue_packet p d) =
  (high_priority_queue_ d ++ (if decide (is_heartbeat p) then [queued_of p] else []),
   normal_queue_ d ++ (if decide (is_data p) then [queued_of p] else []),
   heartbeat_max_queue_depth_ d).
Proof.
  intros Hr. unfold enqueue_packet, is_heartbeat, is_data in *.
  case_bool_decide as Ht; [destruct Ht as [H1 H2]|].
  { rewrite !decide_False, !app_nil_r by done. unfold queues. by run_dispatch. }
  cbn [queued_of q_type]. case_bool_decide as Hh.
  - rewrite make_room_fits by (destruct Hr; [done|contradiction]).
    rewrite decide_True, decide_False by (rewrite ?Hh; done).
    rewrite app_nil_r. unfold queues. by run_dispatch.
  - rewrite decide_False, decide_True, app_nil_r by
      (try done; destruct (decide (get_packet_type (header p) = DATA)); tauto).
    unfold queues. by run_dispatch.
Qed.

Lemma room_cons p ps d :
  (length (high_priority_queue_ d) + length (filter is_heartbeat (p :: ps))
     <= heartbeat_max_queue_depth_ d)%nat ->
  ((length (high_priority_queue_ d) < heartbeat_max_queue_depth_ d)%nat \/ ~ is_heartbeat p) /\
  (length (high_priority_queue_ (enqueue_packet p d)) + length (filter is_heartbeat ps)
     <= heartbeat_max_queue_depth_ (enqueue_packet p d))%nat.
Proof.
  intros Hd. rewrite filter_cons in Hd.
  assert (Hr : (length (high_priority_queue_ d) < heartbeat_max_queue_depth_ d)%nat \/ ~ is_heartbeat p).
  { destruct (decide (is_heartbeat p)); [left; cbn in Hd; lia|by right]. }
  split; [done|]. pose proof (enqueue_queues p d Hr) as Hq. unfold queues in Hq.
  injection Hq as -> _ ->. rewrite length_app.
  destruct (decide (is_heartbeat p)); cbn [length] in *; lia.
Qed.

Lemma enqueue_all_spec {V} (view : Dispatcher -> V) mine `{!PacketView view mine} ps d :
  (length (high_priority_queue_ d) + length (filter is_heartbeat ps)
     <= heartbeat_max_queue_depth_ d)%nat ->
  view (enqueue_all ps d) = view d /\
  queues (enqueue_all ps d) =
    (high_priority_queue_ d ++ (queued_of <$> filter is_heartbeat ps),
     normal_queue_ d ++ (queued_of <$> filter is_data ps), heartbeat_max_queue_depth_ d).
Proof.
  revert d. induction ps as [|p ps IH]; intros d Hd; cbn [enqueue_all fold_left].
  { by rewrite !app_nil_r. }
  pose proof (room_cons p ps d Hd) as [Hr Hd'].
  pose proof (enqueue_queues p d Hr) as Hq. pose proof (enqueue_view view mine p d Hr) as Hv.
  set (e := enqueue_packet p d) in *. destruct (IH e) as [IHv IHq].
  { done. }
  fold (enqueue_all ps e). rewrite IHv, IHq, Hv. split; [done|].
  unfold queues in Hq. injection Hq as -> -> ->.
  rewrite <-!app_assoc, !filter_cons.
  by destruct (decide (is_heartbeat p)), (decide (is_data p)).
Qed.

Lemma dispatch_batch_view {V} (view : Dispatcher -> V) mine `{!PacketView view mine}
    `{!forall p, Decision (mine p)} ps n1 n2 d1 d2 :
  view d1 = view d2 ->
  view (dispatch_batch n1 ps d1) = view (dispatch_batch n2 (filter mine ps) d2).
Proof.
  revert n1 n2 d1 d2. induction ps as [|p ps IH]; intros n1 n2 d1 d2 Heq; [done|].
  destruct (decide (mine p)).
  - rewrite filter_cons_True by done. cbn [dispatch_batch]. apply IH. by apply view_dispatch_cong.
  - rewrite filter_cons_False by done. cbn [dispatch_batch]. apply IH.
    by rewrite view_dispatch_other.
Qed.

Lemma queues_accept now p d : queues (accept_heartbeat now p d) = queues d.
Proof. unfold accept_heartbeat, note_sequence, queues. cbn zeta. by run_dispatch. Qed.

Lemma queues_dispatch_queued now p d :
  payload_present p -> queues (dispatch_queued_packet now (queued_of p) d) = queues d.
Proof.
  intros Hp. destruct (decide (is_data p)).
  { rewrite dispatch_queued_data by done. unfold queues. cbn zeta. by run_dispatch. }
  destruct (decide (is_heartbeat p)).
  - rewrite dispatch_queued_heartbeat, dispatch_heartbeat_packet_eq by done.
    destruct (heartbeat_ok p); [apply queues_accept|]. unfold queues. by run_dispatch.
  - rewrite dispatch_queued_other by done. unfold queues. by run_dispatch.
Qed.

(** The state in which the loop of [drain_queues] dispatches its next packet. *)
Definition drain_pop (d : Dispatcher) : option (QueuedPacket * Dispatcher) :=
  match high_priority_queue_ d, normal_queue_ d with
  | [], [] => None
  | q :: hq, nq =>
    Some (q, call (set_heartbeat_queue_depth (length hq))
               (with_queues hq nq (match nq with [] => d | _ => with_hb inc_hits d end)))
  | [], q :: nq => Some (q, with_queues [] nq d)
  end.

Lemma drain_queues_eq fuel now d :
  drain_queues fuel now d =
  match drain_pop d with
  | None => Some d
  | Some (q, d) =>
    match fuel with
    | O => None
    | S fuel => drain_queues fuel (fun k => now (S k)) (dispatch_queued_packet (now 0%nat) q d)
    end
  end.
Proof.
  destruct fuel; unfold drain_pop; cbn [drain_queues];
    by destruct (high_priority_queue_ d), (normal_queue_ d).
Qed.

Lemma drain_pop_Some {V} (view : Dispatcher -> V) mine `{!PacketView view mine} d q d' :
  drain_pop d = Some (q, d') ->
  view d' = view d /\ dropped_packets (stats_ d') = dropped_packets (stats_ d) /\
  (high_priority_queue_ d ++ normal_queue_ d = q :: high_priority_queue_ d' ++ normal_queue_ d').
Proof.
  unfold drain_pop. intros H.
  destruct (high_priority_queue_ d) as [|q0 hq], (normal_queue_ d) as [|q1 nq];
    simplify_eq; rewrite ?view_depth, ?view_queues, ?view_hits; by run_dispatch.
Qed.

Definition all_queued (d : Dispatcher) : list QueuedPacket :=
  high_priority_queue_ d ++ normal_queue_ d.

Lemma drain_queues_view {V} (view : Dispatcher -> V) mine `{!PacketView view mine}
    `{!forall p, Decision (mine p)} ps : forall fuel now d,
  all_queued d = queued_of <$> ps -> Forall payload_present ps -> (length ps <= fuel)%nat ->
  exists d', drain_queues fuel now d = Some d' /\ all_queued d' = [] /\
    forall n2 d2, view d = view d2 -> view d' = view (dispatch_batch n2 (filter mine ps) d2).
Proof.
  induction ps as [|p ps IH]; intros fuel now d Hq Hpr Hf; rewrite drain_queues_eq.
  { exists d. unfold all_queued in Hq. apply app_nil in Hq as [H1 H2].
    unfold drain_pop, all_queued. by rewrite H1, H2. }
  destruct (drain_pop d) as [[q e]|] eqn:Ep.
  2:{ unfold drain_pop, all_queued in *. by destruct (high_priority_queue_ d), (normal_queue_ d). }
  apply (drain_pop_Some view mine) in Ep as (Hv & _ & He).
  unfold all_queued in Hq. rewrite He in Hq. cbn in Hq. injection Hq as -> Hq.
  apply Forall_cons_1 in Hpr as [Hp Hpr]. destruct fuel as [|fuel]; [cbn in Hf; lia|].
  destruct (IH fuel (fun k => now (S k)) (dispatch_queued_packet (now 0%nat) (queued_of p) e))
    as (d' & Hd & Hn & Hv').
  { pose proof (queues_dispatch_queued (now 0%nat) p e Hp) as Hqq. unfold queues in Hqq.
    unfold all_queued. by injection Hqq as -> -> _. }
  { done. }
  { cbn in Hf. lia. }
  exists d'. split_and!; [done..|]. intros n2 d2 Heq. rewrite filter_cons.
  destruct (decide (mine p)); cbn [dispatch_batch].
  - apply Hv'. rewrite view_queued by done. apply view_dispatch_cong; [done|]. congruence.
  - apply Hv'. rewrite view_queued_other by done. congruence.
Qed.

(** [drain_queues] depends on its fuel only through running out. *)
Lemma drain_queues_det f1 f2 now d d1 d2 :
  drain_queues f1 now d = Some d1 -> drain_queues f2 now d = Some d2 -> d1 = d2.
Proof.
  revert f2 now d. induction f1 as [|f1 IH]; intros f2 now d; rewrite (drain_queues_eq f2), drain_queues_eq;
    destruct (drain_pop d) as [[q e]|]; [done|congruence|destruct f2; [done|apply IH]|congruence].
Qed.

(** ** The refused packets *)

Fixpoint refused_count (ps : list ParsedPacket) : Z :=
  match ps with [] => 0 | p :: ps => Z.b2z (refused p) + refused_count ps end.

Lemma refused_split p :
  Z.b2z (refused p) =
  Z.b2z (negb (bool_decide (is_data p)) && negb (bool_decide (is_heartbeat p))) +
  Z.b2z (bool_decide (is_heartbeat p) && refused p).
Proof.
  unfold refused. case_bool_decide as H1; case_bool_decide as H2; cbn;
    [by apply data_not_heartbeat in H1|done|by destruct (heartbeat_ok p)|done].
Qed.

Lemma dropped_batch ps now d :
  u64 (dropped_packets (stats_ (dispatch_batch now ps d))) =
  u64 (dropped_packets (stats_ d) + refused_count ps).
Proof.
  revert now d. induction ps as [|p ps IH]; intros now d; cbn [dispatch_batch refused_count].
  { f_equal. lia. }
  rewrite IH, dispatch_refused. destruct (refused p); cbn [Z.b2z]; unfold inc64; wrap_lia.
Qed.

Lemma dropped_queued now p d :
  payload_present p ->
  dropped_packets (stats_ (dispatch_queued_packet now (queued_of p) d)) =
  dropped_packets (stats_ (dispatch now p d)).
Proof.
  intros Hp. destruct (decide (is_data p)).
  { rewrite dispatch_queued_data, dispatch_data by done. cbn zeta. by run_dispatch. }
  destruct (decide (is_heartbeat p)).
  - rewrite dispatch_queued_heartbeat, dispatch_heartbeat, dispatch_heartbeat_packet_eq,
      dispatch_heartbeat_direct_eq by done.
    destruct (heartbeat_ok p); [by rewrite !dropped_accept|done].
  - by rewrite dispatch_queued_other, dispatch_other.
Qed.

Lemma dropped_drain ps : forall fuel now d d',
  all_queued d = queued_of <$> ps -> Forall payload_present ps ->
  drain_queues fuel now d = Some d' ->
  u64 (dropped_packets (stats_ d')) = u64 (dropped_packets (stats_ d) + refused_count ps).
Proof.
  induction ps as [|p ps IH]; intros fuel now d d' Hq Hpr; rewrite drain_queues_eq.
  { unfold all_queued in Hq. apply app_nil in Hq as [H1 H2].
    unfold drain_pop. rewrite H1, H2. intros [= <-]. cbn. f_equal. lia. }
  destruct (drain_pop d) as [[q e]|] eqn:Ep.
  2:{ unfold drain_pop, all_queued in *. by destruct (high_priority_queue_ d), (normal_queue_ d). }
  apply (drain_pop_Some data_view is_data) in Ep as (_ & Hdr & He).
  unfold all_queued in Hq. rewrite He in Hq. cbn in Hq. injection Hq as -> Hq.
  apply Forall_cons_1 in Hpr as [Hp Hpr]. destruct fuel as [|fuel]; [done|].
  intros Hd. apply IH in Hd; [|clear Hd|done].
  - rewrite Hd, dropped_queued, dispatch_refused, Hdr by done. cbn [refused_count].
    destruct (refused p); cbn [Z.b2z]; wrap_lia.
  - pose proof (queues_dispatch_queued (now 0%nat) p e Hp) as Hqq. unfold queues in Hqq.
    unfold all_queued. by injection Hqq as -> -> _.
Qed.

Lemma dropped_enqueue p d :
  (length (high_priority_queue_ d) < heartbeat_max_queue_depth_ d)%nat \/ ~ is_heartbeat p ->
  dropped_packets (stats_ (enqueue_packet p d)) =
  if negb (bool_decide (is_data p)) && negb (bool_decide (is_heartbeat p))
  then inc64 (dropped_packets (stats_ d)) else dropped_packets (stats_ d).
Proof.
  intros Hr. unfold enqueue_packet, is_data, is_heartbeat in *.
  case_bool_decide as Ht.
  { destruct Ht. rewrite !bool_decide_eq_false_2 by done. by run_dispatch. }
  replace (negb _ && negb _) with false by (repeat case_bool_decide; tauto).
  cbn [queued_of q_type]. case_bool_decide; [|by run_dispatch].
  rewrite make_room_fits by (destruct Hr; [done|contradiction]). by run_dispatch.
Qed.

Lemma refused_count_filter ps :
  refused_count ps = refused_count (filter is_heartbeat ps ++ filter is_data ps) +
    Z.of_nat (length (filter (fun p => ~ is_data p /\ ~ is_heartbeat p) ps)).
Proof.
  assert (Happ : forall l1 l2, refused_count (l1 ++ l2) = refused_count l1 + refused_count l2).
  { intros l1 l2. induction l1; cbn; lia. }
  rewrite Happ. induction ps as [|p ps IH]; [done|].
  cbn [refused_count]. rewrite IH, refused_split, !filter_cons.
  destruct (decide (is_data p)) as [Hd|Hd], (decide (is_heartbeat p)) as [Hh|Hh];
    try (by destruct (data_not_heartbeat p Hd Hh)).
  all: rewrite ?(bool_decide_eq_true_2 _ Hd), ?(bool_decide_eq_false_2 _ Hd),
    ?(bool_decide_eq_true_2 _ Hh), ?(bool_decide_eq_false_2 _ Hh).
  all: rewrite ?decide_False by tauto; rewrite ?decide_True by tauto; cbn [negb andb Z.b2z refused_count length].
  all: unfold refused; rewrite ?(bool_decide_eq_true_2 _ Hd); cbn [negb andb Z.b2z]; lia.
Qed.

Lemma dropped_enqueue_all ps d :
  (length (high_priority_queue_ d) + length (filter is_heartbeat ps)
     <= heartbeat_max_queue_depth_ d)%nat ->
  u64 (dropped_packets (stats_ (enqueue_all ps d))) =
  u64 (dropped_packets (stats_ d) +
       Z.of_nat (length (filter (fun p => ~ is_data p /\ ~ is_heartbeat p) ps))).
Proof.
  revert d. induction ps as [|p ps IH]; intros d Hd; cbn [enqueue_all fold_left].
  { cbn. f_equal. lia. }
  pose proof (room_cons p ps d Hd) as [Hr Hd'].
  fold (enqueue_all ps (enqueue_packet p d)). rewrite IH.
  - rewrite dropped_enqueue, filter_cons by done.
    repeat case_bool_decide; cbn [negb andb];
      [rewrite decide_False by tauto..|rewrite decide_True by tauto]; cbn [length]; wrap_lia.
  - done.
Qed.

Lemma length_filter_split ps :
  (length (filter is_heartbeat ps ++ filter is_data ps) <= length ps)%nat.
Proof.
  rewrite length_app. induction ps as [|p ps IH]; [done|]. rewrite !filter_cons.
  destruct (decide (is_heartbeat p)), (decide (is_data p)); cbn [length]; try lia.
  by destruct (data_not_heartbeat p).
Qed.

Lemma filter_disjoint {A} (P Q : A -> Prop) `{!forall x, Decision (P x)} `{!forall x, Decision (Q x)} (l : list A) :
  (forall x, P x -> Q x -> False) -> filter P (filter Q l) = [].
Proof.
  intros Hdis. induction l as [|x l IH]; [done|]. rewrite filter_cons.
  destruct (decide (Q x)); [|done]. rewrite filter_cons_False by (intros ?; by apply (Hdis x)). done.
Qed.

Lemma filter_idemp {A} (P : A -> Prop) `{!forall x, Decision (P x)} (l : list A) :
  filter P (filter P l) = filter P l.
Proof.
  induction l as [|x l IH]; [done|]. rewrite filter_cons.
  destruct (decide (P x)); [|done]. by rewrite filter_cons_True, IH.
Qed.

(** ** Sequence gaps *)

(** Unwrapped sequence numbers, each ahead of the one before by less than half
    the number space. *)
Fixpoint ascending (k0 : Z) (ks : list Z) : Prop :=
  match ks with [] => True | k :: ks => 0 < k - k0 < 2 ^ 31 /\ ascending k ks end.

Lemma last_cons_default (k k0 : Z) ks : List.last (k :: ks) k0 = List.last ks k.
Proof.
  revert k k0. induction ks as [|j ks IH]; intros k k0; [done|].
  change (List.last (j :: ks) k0 = List.last (j :: ks) k). by rewrite !IH.
Qed.

Definition carries (k : Z) (p : ParsedPacket) : Prop :=
  is_heartbeat p /\ heartbeat_ok p = true /\ sequence_number (header p) = u32 k.

Lemma seq_gap_unwrapped k0 k :
  0 < k - k0 < 2 ^ 31 -> seq_gap true (u32 k0) (u32 k) = k - k0 - 1.
Proof.
  intros Hk. unfold seq_gap. replace (u32 k -[32] u32 k0) with (k - k0) by wrap_lia.
  cbn [andb]. rewrite (proj2 (Z.ltb_lt (k - k0) (2 ^ 31))), andb_true_r by lia.
  destruct (Z.ltb_spec 1 (k - k0)); lia.
Qed.

Lemma heartbeat_view_last d v1 v2 v3 v4 v5 v6 v7 :
  heartbeat_view d = (v1, v2, (v3, v4), (v5, v6), v7) ->
  received_total (heartbeat_stats_ d) = v3 /\ loss_total (heartbeat_stats_ d) = v4 /\
  has_last_heartbeat_seq_ d = v5 /\ last_heartbeat_seq_ d = v6.
Proof. unfold heartbeat_view. by intros [= <- <- <- <- <- <- <-]. Qed.

Lemma dispatch_carries now k0 k p d :
  has_last_heartbeat_seq_ d = true -> last_heartbeat_seq_ d = u32 k0 ->
  0 < k - k0 < 2 ^ 31 -> carries k p ->
  let d' := dispatch now p d in
  has_last_heartbeat_seq_ d' = true /\ last_heartbeat_seq_ d' = u32 k /\
  received_total (heartbeat_stats_ d') = inc64 (received_total (heartbeat_stats_ d)) /\
  u64 (loss_total (heartbeat_stats_ d')) = u64 (loss_total (heartbeat_stats_ d) + (k - k0 - 1)).
Proof.
  intros Hh Hl Hk (Hhb & Hok & Hs) d'.
  pose proof (heartbeat_view_dispatch now p d Hhb) as Hv. fold d' in Hv.
  unfold heartbeat_step, heartbeat_view at 2 in Hv.
  rewrite Hok, Hs, Hh, Hl, seq_gap_unwrapped in Hv by done.
  apply heartbeat_view_last in Hv as (-> & -> & -> & ->). split_and!; [done..|].
  destruct (Z.eqb_spec (k - k0 - 1) 0) as [->|]; [f_equal; lia|]. wrap_lia.
Qed.

(** ** Theorems *)

(** The direct path is equivalent to the priority queues.  For packets whose
    payload is in memory, and no more heartbeats than the queue admits, queueing
    all of them and draining the queues ends in at most one iteration per packet
    with empty queues, and gives the same data and heartbeat packets to the
    handlers, each in the same order, the same counters and the same last
    heartbeat sequence number as dispatching each packet directly. *)
Theorem queued_dispatch_equivalent (now1 now2 : nat -> Z) (ps : list ParsedPacket) (d : Dispatcher)
    (Hq : high_priority_queue_ d = [] /\ normal_queue_ d = [])
    (Hp : Forall payload_present ps)
    (Hcap : (length (filter is_heartbeat ps) <= heartbeat_max_queue_depth_ d)%nat) :
  exists d', drain_queues (length ps) now1 (enqueue_all ps d) = Some d' /\
    high_priority_queue_ d' = [] /\ normal_queue_ d' = [] /\
    let e := dispatch_batch now2 ps d in
    data_view d' = data_view e /\ heartbeat_view d' = heartbeat_view e /\
    u64 (dropped_packets (stats_ d')) = u64 (dropped_packets (stats_ e)).
Proof.
  destruct Hq as [Hq1 Hq2].
  destruct (enqueue_all_spec data_view is_data ps d) as [Hv Hqs]; [by rewrite Hq1|].
  destruct (enqueue_all_spec heartbeat_view is_heartbeat ps d) as [Hvh _]; [by rewrite Hq1|].
  set (qs := filter is_heartbeat ps ++ filter is_data ps).
  assert (Hall : all_queued (enqueue_all ps d) = queued_of <$> qs).
  { unfold all_queued, queues, qs in *. injection Hqs as -> -> _. by rewrite Hq1, Hq2, fmap_app. }
  assert (Hpq : Forall payload_present qs).
  { apply Forall_app. split; apply Forall_forall; intros x [_ Hx]%list_elem_of_In%list_elem_of_filter;
      by apply (proj1 (Forall_forall _ _) Hp), list_elem_of_In. }
  assert (Hlen : (length qs <= length ps)%nat) by apply length_filter_split.
  destruct (drain_queues_view data_view is_data qs _ now1 _ Hall Hpq Hlen)
    as (d' & Hd & Hn & Hdv).
  destruct (drain_queues_view heartbeat_view is_heartbeat qs _ now1 _ Hall Hpq Hlen)
    as (d2 & Hd2 & _ & Hhv).
  rewrite Hd in Hd2. injection Hd2 as <-. apply app_nil in Hn as [Hn1 Hn2].
  exists d'. cbn zeta. split_and!; [done..| | |].
  - rewrite (Hdv now2 d) by done. unfold qs. rewrite list.filter_app.
    rewrite (filter_disjoint is_data is_heartbeat) by (intros x ??; by apply (data_not_heartbeat x)).
    cbn [app]. rewrite filter_idemp. symmetry. by apply (dispatch_batch_view data_view is_data).
  - rewrite (Hhv now2 d) by done. unfold qs. rewrite list.filter_app, filter_idemp.
    rewrite (filter_disjoint is_heartbeat is_data) by (intros x ??; by apply (data_not_heartbeat x)).
    rewrite app_nil_r. symmetry. by apply (dispatch_batch_view heartbeat_view is_heartbeat).
  - rewrite (dropped_drain qs _ _ _ _ Hall Hpq Hd), dropped_batch, (refused_count_filter ps).
    pose proof (dropped_enqueue_all ps d) as He. rewrite Hq1 in He. specialize (He Hcap).
    fold qs. wrap_lia.
Qed.

(** Two heartbeats (one with a wrong checksum), a data packet and an unsupported
    packet: both paths hand over the same packets. *)
Lemma queued_dispatch_equivalent_witness :
  let hdr seq ty len := mkCommonHeader PROTOCOL_MAGIC seq 0 len ty 0x31 0x11 1 0 0 0 0 [0;0;0;0] in
  let hb seq x := mkParsedPacket (hdr seq 4 48)
        (Some (replicate 44 x ++ le_store 4 (crc32c (Some (replicate 44 7)) 44))) 80 in
  let ps := [hb 5 7; mkParsedPacket (hdr 9 3 2) (Some [1; 2; 3]) 34; hb 6 8;
             mkParsedPacket (hdr 9 1 0) (Some []) 32] in
  let d := Dispatcher_init true true in
  exists d', drain_queues (length ps) (fun _ => 1) (enqueue_all ps d) = Some d' /\
    high_priority_queue_ d' = [] /\ normal_queue_ d' = [] /\
    data_view d' = data_view (dispatch_batch (fun _ => 2) ps d) /\
    heartbeat_view d' = heartbeat_view (dispatch_batch (fun _ => 2) ps d) /\
    u64 (dropped_packets (stats_ d')) = u64 (dropped_packets (stats_ (dispatch_batch (fun _ => 2) ps d))).
Proof.
  intros hdr hb ps d.
  apply (queued_dispatch_equivalent (fun _ => 1) (fun _ => 2) ps d).
  - by split.
  - repeat apply Forall_cons_2; [..|by apply Forall_nil_2];
      (eexists; split; [reflexivity|cbn; lia]).
  - vm_compute. lia.
Defined.

(** Lost heartbeats are counted exactly.  When heartbeats whose sequence
    numbers ascend, by less than half of the 32-bit number space each and across
    its wrap-around, arrive after a heartbeat with number [k0], every one of them
    is received and [loss_total] grows by exactly the number of sequence numbers
    skipped. *)
Theorem heartbeat_loss_exact (now : nat -> Z) (ks : list Z) (ps : list ParsedPacket) (k0 : Z)
    (d : Dispatcher)
    (Hh : has_last_heartbeat_seq_ d = true) (Hl : last_heartbeat_seq_ d = u32 k0)
    (Hks : ascending k0 ks) (Hps : Forall2 carries ks ps) :
  let d' := dispatch_batch now ps d in
  let n := Z.of_nat (length ps) in
  let k := List.last ks k0 in
  last_heartbeat_seq_ d' = u32 k /\
  u64 (received_total (heartbeat_stats_ d')) = u64 (received_total (heartbeat_stats_ d) + n) /\
  u64 (loss_total (heartbeat_stats_ d')) =
    u64 (loss_total (heartbeat_stats_ d) + ((k - k0) - n)).
Proof.
  cbn zeta. revert now k0 d Hh Hl Hks.
  induction Hps as [|k p ks ps Hp _ IH]; intros now k0 d Hh Hl Hks; cbn [dispatch_batch ascending] in *.
  { cbn. split_and!; [done|f_equal; lia..]. }
  destruct Hks as [Hk Hks].
  destruct (dispatch_carries (now 0%nat) k0 k p d Hh Hl Hk Hp) as (Hh' & Hl' & Hr & Hlo).
  destruct (IH (fun j => now (S j)) k _ Hh' Hl' Hks) as (H1 & H2 & H3).
  rewrite last_cons_default. cbn [length].
  split_and!; [done|rewrite H2, Hr; wrap_lia|rewrite H3; wrap_lia].
Qed.

(** Heartbeat 2^32 - 1 was the last one; 1 and 4 arrive: 0, 2 and 3 are lost. *)
Lemma heartbeat_loss_exact_witness :
  let hb seq := mkParsedPacket (mkCommonHeader PROTOCOL_MAGIC seq 0 48 4 0x31 0x11 1 0 0 0 0 [0;0;0;0])
        (Some (replicate 44 7 ++ le_store 4 (crc32c (Some (replicate 44 7)) 44))) 80 in
  let d := dispatch 0 (hb (2 ^ 32 - 1)) (Dispatcher_init true true) in
  let d' := dispatch_batch (fun _ => 0) [hb 1; hb 4] d in
  last_heartbeat_seq_ d' = 4 /\ u64 (received_total (heartbeat_stats_ d')) = 3 /\
  u64 (loss_total (heartbeat_stats_ d')) = 3.
Proof.
  intros hb d d'.
  destruct (heartbeat_loss_exact (fun _ => 0) [2 ^ 32 + 1; 2 ^ 32 + 4] [hb 1; hb 4] (2 ^ 32 - 1) d)
    as (H1 & H2 & H3).
  - vm_compute. reflexivity.
  - vm_compute. reflexivity.
  - cbn. lia.
  - repeat constructor; vm_compute; reflexivity.
  - fold d' in H1, H2, H3. rewrite H1, H2, H3. split_and!; vm_compute; reflexivity.
Defined.

End Dispatcher.
