(* ===== verification/RxStage.v ===== *)
(** [RxStage] ([src/m01_receiver/pipeline/rx_stage.cpp]): the receive hot path of
    one array face, from a raw UDP packet to the envelope queue. *)

From S2P Require Import Prelude Protocol Validator SpscQueue SpscConcurrent.
From stdpp Require Import relations.
Open Scope Z_scope.
Import Protocol Validator BoundedQueue QueueInstances.

Module RxStage.

(** ** Definitions *)

(** [ReceivedPacket]: [data] is the memory of the packet buffer, [None] for an
    empty buffer handle. *)
Record ReceivedPacket := mkReceivedPacket {
  rp_data : option bytes;
  rp_length : Z;
  receive_timestamp_ns : Z;
  rp_array_id : Z;
  rp_priority : PacketPriority;
}.

Record RxEnvelope := mkRxEnvelope {
  env_header : CommonHeader;
  env_array_id : Z;
  rx_timestamp_ns : Z;
  packet_length : Z;
  packet_data : option bytes;
}.

Definition RxEnvelope_default : RxEnvelope := mkRxEnvelope CommonHeader_zero 0 0 0 None.

Definition QUEUE_CAPACITY : Z := 65536.

Record RxStage := mkRxStage {
  array_id_ : Z;
  validator_ : Validator;
  queue_ : SPSCQueue.SPSCQueue RxEnvelope;
  rx_total_ : Z;
  parse_ok_ : Z;
  validate_ok_ : Z;
  enqueued_ : Z;
  queue_high_watermark_ : Z;
}.

Definition RxStage_init (array_id local_device_id : Z) : RxStage :=
  mkRxStage array_id (mkValidator local_device_id DATA_AND_HEARTBEAT)
    (SPSCQueue.SPSCQueue_init QUEUE_CAPACITY RxEnvelope_default) 0 0 0 0 0.

(** The loop that raises the watermark: a weak compare-exchange may fail
    spuriously, and then leaves the expected value unchanged. *)
Fixpoint raise_watermark (fuel : nat) (spurious : nat -> bool) (i : nat) (depth watermark : Z)
    : option Z :=
  if watermark <? depth then
    match fuel with
    | O => None
    | S fuel => if spurious i then raise_watermark fuel spurious (S i) depth watermark
                else Some depth
    end
  else Some watermark.

Section HotPath.

(** The spurious failures of the two compare-exchange loops, and their fuel. *)
Variables (fuel : nat) (spurious_push spurious_mark : nat -> bool).

Definition on_packet (raw_packet : ReceivedPacket) (r : RxStage) : option RxStage :=
  let '(mkRxStage aid v q rx po vo enq hw) := r in
  let rx := inc64 rx in
  match parse (rp_data raw_packet) (rp_length raw_packet) with
  | None => Some (mkRxStage aid v q rx po vo enq hw)
  | Some parsed =>
    let po := inc64 po in
    if negb (bool_decide (validate v parsed = OK)) then Some (mkRxStage aid v q rx po vo enq hw)
    else
      let vo := inc64 vo in
      let env := mkRxEnvelope (header parsed) aid (receive_timestamp_ns raw_packet)
                   (u32 (rp_length raw_packet)) (rp_data raw_packet) in
      '(_, q) ← SPSCQueue.drop_oldest_push QUEUE_CAPACITY fuel spurious_push q env;
      let enq := inc64 enq in
      let depth := SPSCQueue.size QUEUE_CAPACITY q in
      hw ← raise_watermark fuel spurious_mark 0 depth hw;
      Some (mkRxStage aid v q rx po vo enq hw)
  end.

(** The consumer side: [queue().try_pop()]. *)
Definition pop_envelope (r : RxStage) : option RxEnvelope * RxStage :=
  let '(mkRxStage aid v q rx po vo enq hw) := r in
  let '(e, q) := SPSCQueue.try_pop QUEUE_CAPACITY q in
  (e, mkRxStage aid v q rx po vo enq hw).

Record Stats := mkStats {
  rx_total : Z; parse_ok : Z; validate_ok : Z; enqueued : Z; queue_drops : Z;
  queue_high_watermark : Z;
}.

Definition get_stats (r : RxStage) : Stats :=
  mkStats (rx_total_ r) (parse_ok_ r) (validate_ok_ r) (enqueued_ r)
    (SPSCQueue.drop_count (queue_ r)) (queue_high_watermark_ r).

Inductive RxOp := OnPacket (raw : ReceivedPacket) | TryPop.

Fixpoint run_stage (ops : list RxOp) (r : RxStage) : option (list (option RxEnvelope) * RxStage) :=
  match ops with
  | [] => Some ([], r)
  | OnPacket raw :: ops => r ← on_packet raw r; run_stage ops r
  | TryPop :: ops => let '(e, r) := pop_envelope r in
                     '(es, r) ← run_stage ops r; Some (e :: es, r)
  end.

End HotPath.

(** ** Specification *)

Definition parsed_packet (op : RxOp) : option ParsedPacket :=
  match op with OnPacket raw => parse (rp_data raw) (rp_length raw) | TryPop => None end.

(** The envelope of a packet that is accepted. *)
Definition accepted (aid : Z) (v : Validator) (raw : ReceivedPacket) : option RxEnvelope :=
  p ← parse (rp_data raw) (rp_length raw);
  if bool_decide (validate v p = OK)
  then Some (mkRxEnvelope (header p) aid (receive_timestamp_ns raw) (u32 (rp_length raw)) (rp_data raw))
  else None.

(** The queue operations of a trace: one push per accepted packet. *)
Definition queue_op (aid : Z) (v : Validator) (op : RxOp) : option (QOp RxEnvelope) :=
  match op with
  | OnPacket raw => Push <$> accepted aid v raw
  | TryPop => Some Pop
  end.

Definition is_on_packet (op : RxOp) : bool := match op with OnPacket _ => true | _ => false end.

Definition is_push {A} (op : QOp A) : bool := match op with Push _ => true | _ => false end.

Definition count_if {A} (f : A -> bool) (l : list A) : nat := count_true (f <$> l).

(** The highest depth seen by a push, in the list specification of the queue. *)
Fixpoint peak {A} (cap : nat) (l : list A) (m : Z) (ops : list (QOp A)) : Z :=
  match ops with
  | [] => m
  | Push x :: ops => let l := (Fifo.push_drop cap l x).2 in
                     peak cap l (Z.max m (Z.of_nat (length l))) ops
  | Pop :: ops => peak cap (Fifo.fifo_pop l).2 m ops
  end.

(** ** Lemmas *)

Lemma raise_watermark_max k spurious depth m : forall fuel i,
  spurious (i + k)%nat = false -> (k < fuel)%nat ->
  raise_watermark fuel spurious i depth m = Some (Z.max m depth).
Proof.
  induction k as [|k IH]; intros fuel i Hs Hf; destruct fuel as [|fuel]; try lia; cbn [raise_watermark].
  all: destruct (Z.ltb_spec m depth); [|f_equal; lia].
  - rewrite Nat.add_0_r in Hs. rewrite Hs. f_equal. lia.
  - destruct (spurious i); [|f_equal; lia]. apply IH; [|lia]. by rewrite Nat.add_succ_l, <-Nat.add_succ_r.
Qed.

Lemma size_contents (q : SPSCQueue.SPSCQueue RxEnvelope) :
  SPSCQueue.queue_wf QUEUE_CAPACITY q ->
  SPSCQueue.size QUEUE_CAPACITY q = Z.of_nat (length (SPSCQueue.contents QUEUE_CAPACITY q)).
Proof.
  intros Hq. unfold SPSCQueue.size. rewrite SPSCQueue.mask_mod by apply Hq.
  rewrite SPSCQueue.length_contents by done. unfold SPSCQueue.count.
  rewrite Z2Nat.id; [done|]. apply Z.mod_pos_bound. unfold QUEUE_CAPACITY. lia.
Qed.

(** Every pushed element is popped, still stored, or counted as dropped. *)
Lemma run_fifo_conserves {A} cap (ops : list (QOp A)) : (0 < cap)%nat -> forall l d rs l' d',
  run_fifo cap l d ops = (rs, l', d') ->
  u64 (d + Z.of_nat (length l + count_if is_push ops)) =
  u64 (d' + Z.of_nat (count_if (fun r => bool_decide (is_Some r)) rs + length l')).
Proof.
  intros Hcap. induction ops as [|[x|] ops IH]; intros l d rs l' d'; cbn [run_fifo].
  - intros [= <- <- <-]. cbn. f_equal. lia.
  - unfold Fifo.push_drop. change (count_if is_push (Push x :: ops)) with (S (count_if is_push ops)).
    destruct (Nat.ltb_spec (length l) cap) as [|Hfull]; intros Hr; apply IH in Hr; rewrite length_app in *; cbn [length] in *.
    + rewrite <-Hr. f_equal. lia.
    + destruct l as [|y l]; cbn [length tail] in *; [lia|]. rewrite <-Hr. wrap_lia.
  - change (count_if is_push (Pop :: ops)) with (count_if is_push ops).
    destruct (Fifo.fifo_pop l) as [r l1] eqn:Ep.
    destruct (run_fifo cap l1 d ops) as [[rs1 l2] d2] eqn:Er. intros [= <- <- <-].
    apply IH in Er. unfold Fifo.fifo_pop in Ep. destruct l as [|y l]; injection Ep as <- <-.
    + cbn [length] in *. rewrite Er. f_equal.
    + cbn [length]. change (count_if _ (Some y :: rs1)) with
        (S (count_if (fun r => bool_decide (is_Some r)) rs1)).
      transitivity (u64 (d + Z.of_nat (length l + count_if is_push ops) + 1)); [f_equal; lia|].
      wrap_lia.
Qed.

(** What one packet does, in terms of the list specification. *)
Lemma on_packet_spec fuel sp sm k raw r :
  SPSCQueue.queue_wf QUEUE_CAPACITY (queue_ r) ->
  sp k = false -> sm k = false -> (k + 2 <= fuel)%nat ->
  exists r', on_packet fuel sp sm raw r = Some r' /\
    SPSCQueue.queue_wf QUEUE_CAPACITY (queue_ r') /\
    array_id_ r' = array_id_ r /\ validator_ r' = validator_ r /\
    rx_total_ r' = inc64 (rx_total_ r) /\
    parse_ok_ r' = (if parsed_packet (OnPacket raw) then inc64 (parse_ok_ r) else parse_ok_ r) /\
    match accepted (array_id_ r) (validator_ r) raw with
    | None =>
      queue_ r' = queue_ r /\ validate_ok_ r' = validate_ok_ r /\ enqueued_ r' = enqueued_ r /\
      queue_high_watermark_ r' = queue_high_watermark_ r
    | Some env =>
      let fifo := Fifo.push_drop (Z.to_nat (QUEUE_CAPACITY - 1))
                    (SPSCQueue.contents QUEUE_CAPACITY (queue_ r)) env in
      SPSCQueue.contents QUEUE_CAPACITY (queue_ r') = fifo.2 /\
      SPSCQueue.drop_count (queue_ r') =
        (if fifo.1 then SPSCQueue.drop_count (queue_ r) else inc64 (SPSCQueue.drop_count (queue_ r))) /\
      validate_ok_ r' = inc64 (validate_ok_ r) /\ enqueued_ r' = inc64 (enqueued_ r) /\
      queue_high_watermark_ r' = Z.max (queue_high_watermark_ r) (Z.of_nat (length fifo.2))
    end.
Proof.
  destruct r as [aid v q rx po vo enq hw]. intros Hq Hp Hm Hf. cbn [queue_] in Hq.
  unfold on_packet, accepted, parsed_packet. destruct (parse _ _) as [p|]; [|by eexists; split_and!].
  cbn [mbind option_bind validator_]. case_bool_decide as Hv; cbn [negb]; [|by eexists; split_and!].
  set (env := mkRxEnvelope _ _ _ _ _).
  destruct (SPSCQueue.drop_oldest_push_spec QUEUE_CAPACITY k fuel sp q env Hq) as (b & q' & E & Hq' & Hc & Hd);
    [unfold QUEUE_CAPACITY; lia|done..|].
  rewrite E. cbn [mbind option_bind].
  rewrite (raise_watermark_max k) by (done || lia). cbn [mbind option_bind].
  eexists. split; [reflexivity|]. cbn [queue_ array_id_ validator_ rx_total_ parse_ok_ validate_ok_
    enqueued_ queue_high_watermark_]. subst env. cbn zeta.
  rewrite <-Hc. cbn [fst snd]. rewrite size_contents by done. by split_and!.
Qed.

Lemma pop_envelope_spec r :
  SPSCQueue.queue_wf QUEUE_CAPACITY (queue_ r) ->
  exists e r', pop_envelope r = (e, r') /\ SPSCQueue.queue_wf QUEUE_CAPACITY (queue_ r') /\
    (e, SPSCQueue.contents QUEUE_CAPACITY (queue_ r')) =
      Fifo.fifo_pop (SPSCQueue.contents QUEUE_CAPACITY (queue_ r)) /\
    SPSCQueue.drop_count (queue_ r') = SPSCQueue.drop_count (queue_ r) /\
    array_id_ r' = array_id_ r /\ validator_ r' = validator_ r /\ rx_total_ r' = rx_total_ r /\
    parse_ok_ r' = parse_ok_ r /\ validate_ok_ r' = validate_ok_ r /\ enqueued_ r' = enqueued_ r /\
    queue_high_watermark_ r' = queue_high_watermark_ r.
Proof.
  destruct r as [aid v q rx po vo enq hw]. intros Hq. cbn [queue_] in *. unfold pop_envelope.
  destruct (SPSCQueue.try_pop_spec QUEUE_CAPACITY q Hq) as (Hw & Hc & Hd).
  destruct (SPSCQueue.try_pop QUEUE_CAPACITY q) as [e q']. cbn [fst snd] in *.
  eexists _, _. by split_and!.
Qed.

(** A counter that started at [x] after [n] increments. *)
Definition counted (x : Z) (n : nat) (y : Z) : Prop := u64 y = u64 (x + Z.of_nat n).

Lemma counted_0 x : counted x 0 x.
Proof. unfold counted. f_equal. lia. Qed.

Lemma counted_S x n y : counted (inc64 x) n y -> counted x (S n) y.
Proof. unfold counted. intros ->. wrap_lia. Qed.

Lemma run_stage_spec fuel sp sm k ops :
  sp k = false -> sm k = false -> (k + 2 <= fuel)%nat -> forall r,
  SPSCQueue.queue_wf QUEUE_CAPACITY (queue_ r) ->
  let qops := omap (queue_op (array_id_ r) (validator_ r)) ops in
  let cap := Z.to_nat (QUEUE_CAPACITY - 1) in
  exists rs r', run_stage fuel sp sm ops r = Some (rs, r') /\
    SPSCQueue.queue_wf QUEUE_CAPACITY (queue_ r') /\
    run_fifo cap (SPSCQueue.contents QUEUE_CAPACITY (queue_ r)) (SPSCQueue.drop_count (queue_ r)) qops =
      (rs, SPSCQueue.contents QUEUE_CAPACITY (queue_ r'), SPSCQueue.drop_count (queue_ r')) /\
    counted (rx_total_ r) (count_if is_on_packet ops) (rx_total_ r') /\
    counted (parse_ok_ r) (count_if (fun op => bool_decide (is_Some (parsed_packet op))) ops) (parse_ok_ r') /\
    counted (validate_ok_ r) (count_if is_push qops) (validate_ok_ r') /\
    counted (enqueued_ r) (count_if is_push qops) (enqueued_ r') /\
    queue_high_watermark_ r' =
      peak cap (SPSCQueue.contents QUEUE_CAPACITY (queue_ r)) (queue_high_watermark_ r) qops.
Proof.
  intros Hp Hm Hf. induction ops as [|[raw|] ops IH]; intros r Hq; cbn zeta.
  - eexists _, _. split_and!; [done|done|done|apply counted_0..|done].
  - destruct (on_packet_spec fuel sp sm k raw r Hq Hp Hm Hf)
      as (r1 & E1 & Hq1 & Ha & Hv & Hrx & Hpo & Hacc).
    destruct (IH r1 Hq1) as (rs & r' & E & Hw & Hfifo & Crx & Cpo & Cvo & Cen & Hpk).
    exists rs, r'. cbn [run_stage]. rewrite E1. cbn [mbind option_bind]. rewrite E.
    rewrite Ha, Hv in *. cbn [omap list_omap queue_op].
    split; [done|]. split; [done|].
    assert (Crx' : counted (rx_total_ r) (count_if is_on_packet (OnPacket raw :: ops)) (rx_total_ r')).
    { apply counted_S. by rewrite <-Hrx. }
    assert (Cpo' : counted (parse_ok_ r)
      (count_if (fun op => bool_decide (is_Some (parsed_packet op))) (OnPacket raw :: ops)) (parse_ok_ r')).
    { unfold count_if. rewrite fmap_cons. destruct (parsed_packet (OnPacket raw)).
      - apply counted_S. by rewrite <-Hpo.
      - by rewrite <-Hpo. }
    destruct (accepted (array_id_ r) (validator_ r) raw) as [env|]; cbn [fmap option_fmap option_map].
    + destruct Hacc as (Hc & Hd & Hvo & Hen & Hhw). cbn [run_fifo peak].
      destruct (Fifo.push_drop _ _ _) as [ok l] eqn:Ef. cbn [fst snd] in *.
      rewrite Hc, Hd in Hfifo. rewrite Hc, Hhw in Hpk.
      split_and!; [done|done|done|apply counted_S; by rewrite <-Hvo|apply counted_S; by rewrite <-Hen|done].
    + destruct Hacc as (Hc & Hvo & Hen & Hhw). rewrite Hc, Hvo, Hen, Hhw in *. by split_and!.
  - destruct (pop_envelope_spec r Hq) as (e & r1 & E1 & Hq1 & Hc & Hd & Ha & Hv & Hrx & Hpo & Hvo & Hen & Hhw).
    destruct (IH r1 Hq1) as (rs & r' & E & Hw & Hfifo & Crx & Cpo & Cvo & Cen & Hpk).
    exists (e :: rs), r'. cbn [run_stage]. rewrite E1, E. cbn [mbind option_bind omap list_omap queue_op].
    rewrite Ha, Hv, Hrx, Hpo, Hvo, Hen, Hhw, Hd in *. cbn [run_fifo peak].
    rewrite <-Hc. cbn [snd]. rewrite Hfifo. by split_and!.
Qed.

Lemma peak_bounds {A} cap (ops : list (QOp A)) : (0 < cap)%nat -> forall l m,
  (length l <= cap)%nat -> Z.of_nat (length l) <= m <= Z.of_nat cap ->
  m <= peak cap l m ops <= Z.of_nat cap.
Proof.
  intros Hcap. induction ops as [|[x|] ops IH]; intros l m Hl Hm; cbn [peak]; [lia|..].
  - assert (Hl' : (length (Fifo.push_drop cap l x).2 <= cap)%nat).
    { unfold Fifo.push_drop. destruct (Nat.ltb_spec (length l) cap); cbn [snd]; rewrite length_app; cbn [length].
      - lia.
      - destruct l; cbn [length tail] in *; lia. }
    destruct (IH (Fifo.push_drop cap l x).2 (Z.max m (Z.of_nat (length (Fifo.push_drop cap l x).2)))); lia.
  - apply IH; destruct l; cbn [Fifo.fifo_pop snd length] in *; lia.
Qed.

(** ** Theorems *)

(** C16: the receive stage is a validating drop-oldest queue.  Any sequence of
    received packets and pops on a new stage, none of which overlap, terminates,
    whatever weak compare-exchanges fail spuriously before the [k]-th.  The envelopes
    popped and the ones left in the queue are those of a FIFO of 65535 elements
    with drop-oldest overflow, fed with exactly the packets that parse and
    validate, in order; every counter is exact modulo 2^64, validated packets are
    all enqueued, each enqueued envelope is popped, still queued or counted as a
    drop, and the watermark is the highest depth reached, at most 65535.  When the
    calls of the two threads do overlap, whatever the interleaving of their atomic
    steps, the envelopes popped and then those queued are the first of those of
    the packets that parse and validate, in order, as long as a push does not find
    the queue full; once it does, the race of push and pop can lose envelopes
    ([SpscConcurrent.drop_oldest_push_loses_items]). *)
Theorem rx_stage_refines_fifo (array_id local_device_id : Z) (ops : list RxOp)
    (fuel k : nat) (spurious_push spurious_mark : nat -> bool)
    (Hp : spurious_push k = false) (Hm : spurious_mark k = false) (Hf : (k + 2 <= fuel)%nat) :
  let v := mkValidator local_device_id DATA_AND_HEARTBEAT in
  let qops := omap (queue_op array_id v) ops in
  let cap := Z.to_nat 65535 in
  exists rs r',
    run_stage fuel spurious_push spurious_mark ops (RxStage_init array_id local_device_id) = Some (rs, r') /\
    let s := get_stats r' in
    let left_over := SPSCQueue.contents QUEUE_CAPACITY (queue_ r') in
    run_fifo cap [] 0 qops = (rs, left_over, queue_drops s) /\
    u64 (rx_total s) = u64 (Z.of_nat (count_if is_on_packet ops)) /\
    u64 (parse_ok s) = u64 (Z.of_nat (count_if (fun op => bool_decide (is_Some (parsed_packet op))) ops)) /\
    u64 (validate_ok s) = u64 (Z.of_nat (count_if is_push qops)) /\
    u64 (enqueued s) = u64 (validate_ok s) /\
    u64 (enqueued s) = u64 (Z.of_nat (count_if (fun e => bool_decide (is_Some e)) rs) +
                            Z.of_nat (length left_over) + queue_drops s) /\
    queue_high_watermark s = peak cap [] 0 qops /\ 0 <= queue_high_watermark s <= 65535 /\
    (forall raws sys, let envelopes := omap (accepted array_id v) raws in
       rtc (SpscConcurrent.roomy_step QUEUE_CAPACITY)
         (SpscConcurrent.initial QUEUE_CAPACITY RxEnvelope_default (SpscConcurrent.DropOldestPush <$> envelopes)) sys ->
       SpscConcurrent.popped sys ++ SPSCQueue.contents QUEUE_CAPACITY (SpscConcurrent.queue sys) `prefix_of` envelopes).
Proof.
  cbn zeta.
  destruct (SPSCQueue.init_wf QUEUE_CAPACITY RxEnvelope_default) as [Hw Hc]; [by exists 16|].
  destruct (run_stage_spec fuel spurious_push spurious_mark k ops Hp Hm Hf
    (RxStage_init array_id local_device_id) Hw)
    as (rs & r' & E & Hw' & Hfifo & Crx & Cpo & Cvo & Cen & Hpk).
  exists rs, r'. split; [done|].
  unfold RxStage_init in Hfifo, Crx, Cpo, Cvo, Cen, Hpk.
  cbn [queue_ array_id_ validator_ rx_total_ parse_ok_ validate_ok_ enqueued_ queue_high_watermark_] in *.
  rewrite Hc in Hfifo, Hpk. change (QUEUE_CAPACITY - 1) with 65535 in *.
  change (SPSCQueue.drop_count (SPSCQueue.SPSCQueue_init QUEUE_CAPACITY RxEnvelope_default)) with 0 in *.
  unfold counted in *. cbn [get_stats rx_total parse_ok validate_ok enqueued queue_drops queue_high_watermark].
  split; [exact Hfifo|].
  apply run_fifo_conserves in Hfifo as Hcons; [|lia]. cbn [length] in Hcons.
  rewrite Crx, Cpo, Cvo, Cen. split_and!; [done|done|done|done| | | | |].
  - etransitivity; [|etransitivity; [exact Hcons|]]; f_equal; lia.
  - done.
  - rewrite Hpk. apply peak_bounds; cbn [length]; lia.
  - rewrite Hpk. rewrite <-(Z2Nat.id 65535) at 2 by lia. apply peak_bounds; cbn [length]; lia.
  - intros raws sys Hs.
    destruct (SpscConcurrent.drop_oldest_push_fifo_with_room QUEUE_CAPACITY _ _ sys ltac:(by exists 16) Hs) as [<- _].
    by eapply SpscConcurrent.roomy_accepts.
Qed.

(** A data packet for this device, one for another device, and a truncated one;
    then two pops.  The first pop returns the envelope of the first packet. *)
Lemma rx_stage_refines_fifo_witness :
  let hdr dest := mkCommonHeader PROTOCOL_MAGIC 7 0 2 3 0x31 0x11 dest 0 0 0 0 [0;0;0;0] in
  let raw dest len := mkReceivedPacket (Some (CommonHeader_bytes (hdr dest) ++ [1; 2])) len 99 1 NORMAL in
  let ops := [OnPacket (raw 1 34); OnPacket (raw 2 34); OnPacket (raw 1 33); TryPop; TryPop] in
  exists rs r',
    run_stage 3 (fun i => (i =? 0)%nat) (fun i => (i =? 0)%nat) ops (RxStage_init 1 1) = Some (rs, r') /\
    rs = [Some (mkRxEnvelope (hdr 1) 1 99 34 (rp_data (raw 1 34))); None] /\
    u64 (rx_total (get_stats r')) = 3 /\ u64 (parse_ok (get_stats r')) = 2 /\
    u64 (validate_ok (get_stats r')) = 1 /\ u64 (enqueued (get_stats r')) = 1 /\
    queue_high_watermark (get_stats r') = 1.
Proof.
  intros hdr raw ops.
  destruct (rx_stage_refines_fifo 1 1 ops 3 1 (fun i => (i =? 0)%nat) (fun i => (i =? 0)%nat)
    eq_refl eq_refl ltac:(lia)) as (rs & r' & E & Hf & H1 & H2 & H3 & H4 & _ & H6 & _).
  exists rs, r'. split; [exact E|]. rewrite H4, H3, H2, H1, H6.
  replace (omap (queue_op 1 (mkValidator 1 DATA_AND_HEARTBEAT)) ops) with
    [Push (mkRxEnvelope (hdr 1) 1 99 34 (rp_data (raw 1 34))); Pop; Pop] in *
    by (vm_compute; reflexivity).
  split; [|split_and!; vm_compute; reflexivity].
  apply (f_equal (fun x => x.1.1)) in Hf. cbn [fst] in Hf. rewrite <-Hf. vm_compute. reflexivity.
Defined.

End RxStage.
