(* ===== verification/ControlTypes.v ===== *)
(** The control-plane containers of
    [include/qdgz300/m01_receiver/protocol/protocol_types.h]: the two-level
    [PriorityQueue] and the duplicate-command cache [DupCmdCache].  Each method
    holds the container's mutex for its whole body, so a method is one step. *)

From S2P Require Import Prelude Protocol.
Open Scope Z_scope.
Import Protocol.

Module PriorityQueue.

(** ** Definitions *)

Record PriorityQueue (T : Type) := mkPriorityQueue {
  max_depth_ : nat;
  high_priority_ : list T;
  normal_priority_ : list T;
  total_depth_ : nat;
}.

Arguments mkPriorityQueue {T}.
Arguments max_depth_ {T}.
Arguments high_priority_ {T}.
Arguments normal_priority_ {T}.
Arguments total_depth_ {T}.

Section Queue.

Context {T : Type}.

Definition PriorityQueue_init (max_depth : nat) : PriorityQueue T :=
  mkPriorityQueue (if (max_depth =? 0)%nat then 1%nat else max_depth) [] [] 0.

Definition push (value : T) (priority : PacketPriority) (q : PriorityQueue T)
    : bool * PriorityQueue T :=
  let '(mkPriorityQueue m hi no d) := q in
  if (m <=? d)%nat then (false, q)
  else (true, match priority with
              | HIGH => mkPriorityQueue m (hi ++ [value]) no (S d)
              | NORMAL => mkPriorityQueue m hi (no ++ [value]) (S d)
              end).

Definition pop (q : PriorityQueue T) : option T * PriorityQueue T :=
  let '(mkPriorityQueue m hi no d) := q in
  match hi, no with
  | x :: hi, _ => (Some x, mkPriorityQueue m hi no (pred d))
  | [], x :: no => (Some x, mkPriorityQueue m [] no (pred d))
  | [], [] => (None, q)
  end.

Definition depth (q : PriorityQueue T) : nat := total_depth_ q.

Definition high_depth (q : PriorityQueue T) : nat := length (high_priority_ q).

Definition normal_depth (q : PriorityQueue T) : nat := length (normal_priority_ q).

Definition set_max_depth (max_depth : nat) (q : PriorityQueue T) : PriorityQueue T :=
  let '(mkPriorityQueue _ hi no d) := q in
  mkPriorityQueue (if (max_depth =? 0)%nat then 1%nat else max_depth) hi no d.

Inductive PQOp := PQPush (value : T) (priority : PacketPriority) | PQPop | PQSetMax (n : nat).

(** The result of an operation: what [push] returned, or what was popped. *)
Inductive PQResult := PQPushed (ok : bool) | PQPopped (r : option T) | PQUnit.

Definition pq_step (q : PriorityQueue T) (op : PQOp) : PQResult * PriorityQueue T :=
  match op with
  | PQPush v p => let '(ok, q) := push v p q in (PQPushed ok, q)
  | PQPop => let '(r, q) := pop q in (PQPopped r, q)
  | PQSetMax n => (PQUnit, set_max_depth n q)
  end.

Fixpoint pq_run (q : PriorityQueue T) (ops : list PQOp) : list PQResult * PriorityQueue T :=
  match ops with
  | [] => ([], q)
  | op :: ops => let '(r, q) := pq_step q op in
                 let '(rs, q) := pq_run q ops in (r :: rs, q)
  end.

(** ** Specification: one list, kept in order of service *)

(** High-priority values go behind the last high-priority value. *)
Fixpoint insert_by_priority (v : T) (p : PacketPriority) (l : list (PacketPriority * T)) :=
  match l with
  | [] => [(p, v)]
  | (p', v') :: l' =>
    match p, p' with
    | HIGH, NORMAL => (p, v) :: l
    | _, _ => (p', v') :: insert_by_priority v p l'
    end
  end.

Definition spec_step (m : nat) (l : list (PacketPriority * T)) (op : PQOp)
    : PQResult * nat * list (PacketPriority * T) :=
  match op with
  | PQPush v p => if (m <=? length l)%nat then (PQPushed false, m, l)
                  else (PQPushed true, m, insert_by_priority v p l)
  | PQPop => (PQPopped (snd <$> head l), m, tail l)
  | PQSetMax n => (PQUnit, Nat.max 1 n, l)
  end.

Fixpoint spec_run (m : nat) (l : list (PacketPriority * T)) (ops : list PQOp)
    : list PQResult * list (PacketPriority * T) :=
  match ops with
  | [] => ([], l)
  | op :: ops => let '(r, m, l) := spec_step m l op in
                 let '(rs, l) := spec_run m l ops in (r :: rs, l)
  end.

(** ** Lemmas *)

Definition served (q : PriorityQueue T) : list (PacketPriority * T) :=
  (pair HIGH <$> high_priority_ q) ++ (pair NORMAL <$> normal_priority_ q).

Definition pq_wf (q : PriorityQueue T) : Prop :=
  total_depth_ q = (length (high_priority_ q) + length (normal_priority_ q))%nat.

Lemma insert_by_priority_high v (hi no : list T) :
  insert_by_priority v HIGH ((pair HIGH <$> hi) ++ (pair NORMAL <$> no)) =
  (pair HIGH <$> (hi ++ [v])) ++ (pair NORMAL <$> no).
Proof. induction hi as [|x hi IH]; cbn; [by destruct no|]. by f_equal. Qed.

Lemma insert_by_priority_normal v (l : list (PacketPriority * T)) :
  insert_by_priority v NORMAL l = l ++ [(NORMAL, v)].
Proof. induction l as [|[[] x] l IH]; cbn; [done|..]; by f_equal. Qed.

Lemma pq_step_spec q op :
  pq_wf q ->
  let '(r, q') := pq_step q op in
  pq_wf q' /\ spec_step (max_depth_ q) (served q) op = (r, max_depth_ q', served q').
Proof.
  destruct q as [m hi no d]. unfold pq_wf, served. cbn [total_depth_ high_priority_ normal_priority_].
  intros ->. destruct op as [v p| |n]; cbn [pq_step push pop set_max_depth spec_step max_depth_].
  - rewrite length_app, !length_fmap. destruct (m <=? _)%nat; [done|].
    destruct p; cbn [total_depth_ high_priority_ normal_priority_ max_depth_]; rewrite length_app; cbn [length].
    + split; [lia|]. by rewrite insert_by_priority_high.
    + split; [lia|]. rewrite insert_by_priority_normal, fmap_app. by rewrite app_assoc.
  - destruct hi as [|x hi]; [destruct no as [|x no]|]; cbn; split; try done; lia.
  - cbn. split; [done|]. by destruct n.
Qed.

Lemma pq_run_spec ops : forall q, pq_wf q ->
  let '(rs, q') := pq_run q ops in
  pq_wf q' /\ spec_run (max_depth_ q) (served q) ops = (rs, served q').
Proof.
  induction ops as [|op ops IH]; intros q Hq; cbn [pq_run spec_run]; [done|].
  pose proof (pq_step_spec q op Hq) as Hs. destruct (pq_step q op) as [r q1]. destruct Hs as [Hq1 ->].
  specialize (IH q1 Hq1). destruct (pq_run q1 ops) as [rs q2]. destruct IH as [Hq2 ->]. done.
Qed.

End Queue.

Arguments PQOp : clear implicits.

(** ** Theorems *)

(** The priority queue serves high priority first, in order of arrival.  Any
    sequence of pushes, pops and changes of the maximum depth on a new queue
    gives the results of one list in which a high-priority value is placed
    behind the other high-priority ones and before all normal ones, a push is
    refused exactly when the list is at the maximum depth and a pop takes the
    head; the reported depths are the lengths of that list. *)
Theorem priority_queue_refines {T} (max_depth : nat) (ops : list (PQOp T)) :
  let '(rs, q) := pq_run (PriorityQueue_init max_depth) ops in
  spec_run (Nat.max 1 max_depth) [] ops = (rs, served q) /\
  depth q = length (served q) /\
  high_depth q = length (filter (fun x => x.1 = HIGH) (served q)) /\
  (high_depth q + normal_depth q = depth q)%nat.
Proof.
  pose proof (pq_run_spec ops (PriorityQueue_init max_depth) eq_refl) as Hr.
  destruct (pq_run (PriorityQueue_init max_depth) ops) as [rs q]. destruct Hr as [Hq Hs].
  unfold pq_wf in Hq. unfold depth, high_depth, normal_depth, served in *.
  replace (Nat.max 1 max_depth) with (max_depth_ (PriorityQueue_init (T := T) max_depth))
    by (destruct max_depth; done).
  split_and!; [exact Hs|by rewrite length_app, !length_fmap| |lia].
  rewrite list.filter_app, length_app.
  replace (filter _ (pair NORMAL <$> _)) with (@nil (PacketPriority * T)).
  - cbn [length]. rewrite Nat.add_0_r. clear. induction (high_priority_ q) as [|x l IH]; [done|].
    rewrite fmap_cons, filter_cons_True by done. cbn [length]. by f_equal.
  - clear. induction (normal_priority_ q) as [|x l IH]; [done|].
    by rewrite fmap_cons, filter_cons_False.
Qed.

End PriorityQueue.

Module DupCmdCache.

(** ** Definitions *)

Record ScheduleApplyAckPayload := mkScheduleApplyAckPayload {
  ack_frame_counter : Z;
  acked_sequence_number : Z;
  ack_result : Z;
  error_code : Z;
  error_detail : Z;
  applied_timestamp : Z;
  payload_crc32c : Z;
}.

Record DupCmdKey := mkDupCmdKey {
  dk_source_id : Z;
  dk_control_epoch : Z;
  dk_sequence_number : Z;
}.

(** [operator==] compares all three fields; the hash is not observable. *)
#[export] Instance DupCmdKey_eq_dec : EqDecision DupCmdKey.
Proof. solve_decision. Defined.

#[export] Instance DupCmdKey_countable : Countable DupCmdKey.
Proof.
  apply (inj_countable' (fun k => (dk_source_id k, dk_control_epoch k, dk_sequence_number k))
    (fun '(a, b, c) => mkDupCmdKey a b c)).
  by intros [].
Defined.

Record DupCmdCacheEntry := mkDupCmdCacheEntry {
  entry_key : DupCmdKey;
  last_result : ScheduleApplyAckPayload;
  cached_at_ms : Z;
}.

Record DupCmdCache := mkDupCmdCache {
  max_entries_ : nat;
  entries_ : gmap DupCmdKey DupCmdCacheEntry;
  fifo_ : list DupCmdKey;
}.

Definition DupCmdCache_init (max_entries : nat) : DupCmdCache :=
  mkDupCmdCache (if (max_entries =? 0)%nat then 1%nat else max_entries) ∅ [].

Definition find (key : DupCmdKey) (c : DupCmdCache) : option ScheduleApplyAckPayload :=
  last_result <$> entries_ c !! key.

Definition upsert (key : DupCmdKey) (ack : ScheduleApplyAckPayload) (now_ms : Z) (c : DupCmdCache)
    : DupCmdCache :=
  let '(mkDupCmdCache m es fifo) := c in
  match es !! key with
  | Some e => mkDupCmdCache m (<[key := mkDupCmdCacheEntry (entry_key e) ack now_ms]> es) fifo
  | None =>
    let '(es, fifo) :=
      match fifo with
      | evict_key :: rest => if (m <=? size es)%nat then (delete evict_key es, rest) else (es, fifo)
      | [] => (es, fifo)
      end in
    mkDupCmdCache m (<[key := mkDupCmdCacheEntry key ack now_ms]> es) (fifo ++ [key])
  end.

Definition clear (c : DupCmdCache) : DupCmdCache := mkDupCmdCache (max_entries_ c) ∅ [].

(** The loop of [set_max_entries]; it ends with the fifo. *)
Fixpoint evict_loop (m : nat) (es : gmap DupCmdKey DupCmdCacheEntry) (fifo : list DupCmdKey)
    : gmap DupCmdKey DupCmdCacheEntry * list DupCmdKey :=
  match fifo with
  | evict_key :: rest => if (m <? size es)%nat then evict_loop m (delete evict_key es) rest
                         else (es, fifo)
  | [] => (es, fifo)
  end.

Definition set_max_entries (max_entries : nat) (c : DupCmdCache) : DupCmdCache :=
  let m := if (max_entries =? 0)%nat then 1%nat else max_entries in
  let '(es, fifo) := evict_loop m (entries_ c) (fifo_ c) in
  mkDupCmdCache m es fifo.

Definition cache_size (c : DupCmdCache) : nat := size (entries_ c).

Inductive CacheOp :=
  | Upsert (key : DupCmdKey) (ack : ScheduleApplyAckPayload) (now_ms : Z)
  | Clear
  | SetMaxEntries (n : nat).

Definition cache_step (c : DupCmdCache) (op : CacheOp) : DupCmdCache :=
  match op with
  | Upsert k a t => upsert k a t c
  | Clear => clear c
  | SetMaxEntries n => set_max_entries n c
  end.

(** ** Specification: an association list, oldest key first *)

Definition al_find (k : DupCmdKey) (l : list (DupCmdKey * ScheduleApplyAckPayload)) :=
  snd <$> list_find (fun x => x.1 = k) l ≫= fun x => Some x.2.

(** A known key keeps its place; a new one goes last, and pushes the oldest one
    out of a full list. *)
Definition spec_upsert (m : nat) (k : DupCmdKey) (a : ScheduleApplyAckPayload)
    (l : list (DupCmdKey * ScheduleApplyAckPayload)) :=
  if decide (k ∈ l.*1) then (fun x => if decide (x.1 = k) then (k, a) else x) <$> l
  else (if (m <=? length l)%nat then tail l else l) ++ [(k, a)].

Definition spec_cache_step (s : nat * list (DupCmdKey * ScheduleApplyAckPayload)) (op : CacheOp) :=
  let '(m, l) := s in
  match op with
  | Upsert k a _ => (m, spec_upsert m k a l)
  | Clear => (m, [])
  | SetMaxEntries n => let m := Nat.max 1 n in (m, drop (length l - m) l)
  end.

(** ** Lemmas *)

(** The fifo lists the keys of the map, each once, with the cached results. *)
Record cache_rel (c : DupCmdCache) (s : nat * list (DupCmdKey * ScheduleApplyAckPayload)) : Prop := {
  cr_max : max_entries_ c = s.1;
  cr_pos : (0 < s.1)%nat;
  cr_fifo : fifo_ c = s.2.*1;
  cr_nodup : NoDup s.2.*1;
  cr_map : last_result <$> entries_ c = list_to_map s.2;
  cr_le : (length s.2 <= s.1)%nat;
}.

Lemma map_size_list {V W} (es : gmap DupCmdKey V) (f : V -> W) (l : list (DupCmdKey * W)) :
  f <$> es = list_to_map l -> NoDup l.*1 -> size es = length l.
Proof. intros He Hnd. rewrite <-(map_size_fmap f), He. by apply map_size_list_to_map. Qed.

Lemma update_absent {A} k (a : A) (l : list (DupCmdKey * A)) :
  k ∉ l.*1 -> (fun x => if decide (x.1 = k) then (k, a) else x) <$> l = l.
Proof.
  induction l as [|[k' a'] l IH]; [done|]. cbn. intros [Hk Hl]%not_elem_of_cons.
  rewrite decide_False by congruence. by rewrite IH.
Qed.

Lemma list_to_map_update k a (l : list (DupCmdKey * ScheduleApplyAckPayload)) :
  NoDup l.*1 -> k ∈ l.*1 ->
  (list_to_map ((fun x => if decide (x.1 = k) then (k, a) else x) <$> l)
     : gmap DupCmdKey ScheduleApplyAckPayload) = <[k := a]> (list_to_map l).
Proof.
  induction l as [|[k' a'] l IH]; [by intros _ ?%not_elem_of_nil|]. intros Hnd Hin.
  apply list.NoDup_cons in Hnd as [Hk' Hnd]. rewrite fmap_cons. cbn [fst].
  destruct (decide (k' = k)) as [->|Hne].
  - rewrite !list_to_map_cons, insert_insert_eq. by rewrite update_absent.
  - apply elem_of_cons in Hin as [->|Hin]; [done|].
    rewrite !list_to_map_cons, IH by done. by rewrite insert_insert_ne.
Qed.

Lemma update_keys {A} k (a : A) (l : list (DupCmdKey * A)) :
  ((fun x => if decide (x.1 = k) then (k, a) else x) <$> l).*1 = l.*1.
Proof.
  induction l as [|[k' a'] l IH]; [done|]. rewrite !fmap_cons, IH. f_equal. cbn. by case_decide.
Qed.

Lemma NoDup_keys_snoc {A} k (a : A) (l : list (DupCmdKey * A)) :
  k ∉ l.*1 -> NoDup l.*1 -> NoDup (l ++ [(k, a)]).*1.
Proof.
  intros Hk Hnd. rewrite fmap_app. apply list.NoDup_app. split_and!; [done| |apply NoDup_singleton].
  by intros x Hx ->%list_elem_of_singleton.
Qed.

Lemma cache_lookup c s k : cache_rel c s -> entries_ c !! k = None <-> k ∉ s.2.*1.
Proof.
  intros Hc. rewrite <-(fmap_None last_result), <-lookup_fmap, (cr_map _ _ Hc).
  symmetry. apply not_elem_of_list_to_map.
Qed.

Lemma cache_rel_delete c m k a l :
  cache_rel c (m, (k, a) :: l) -> last_result <$> delete k (entries_ c) = list_to_map l.
Proof.
  intros [_ _ _ Hnd Hm _]. cbn in *. apply list.NoDup_cons in Hnd as [Hk _].
  rewrite fmap_delete, Hm, delete_insert_id; [done|]. by apply not_elem_of_list_to_map_1.
Qed.

Lemma upsert_rel c m l k a t :
  cache_rel c (m, l) -> cache_rel (upsert k a t c) (m, spec_upsert m k a l).
Proof.
  intros Hc. pose proof (cache_lookup c _ k Hc) as Hlk. cbn [snd] in Hlk.
  pose proof (map_size_list _ _ _ (cr_map _ _ Hc) (cr_nodup _ _ Hc)) as Hsz.
  pose proof (cache_rel_delete c m) as Hdel.
  pose proof Hc as [Hmax Hpos Hf Hnd Hm Hle]. destruct c as [m0 es fifo]. cbn in *. subst m0 fifo.
  unfold spec_upsert. destruct (es !! k) as [e|] eqn:Ek.
  - case_decide as Hin; [|by apply Hlk in Hin].
    split; cbn; rewrite ?update_keys, ?length_fmap; try done.
    rewrite fmap_insert, Hm. symmetry. by apply list_to_map_update.
  - assert (Hin : k ∉ l.*1) by (by apply Hlk). rewrite decide_False by done.
    rewrite Hsz. destruct l as [|[k' a'] l]; cbn [fmap list_fmap length tail fst] in *.
    + replace (m <=? 0)%nat with false by (symmetry; apply Nat.leb_gt; lia).
      split; cbn; try done; try apply NoDup_singleton; by rewrite fmap_insert, Hm.
    + destruct (Nat.leb_spec m (S (length l))) as [Hfull|Hroom].
      * apply not_elem_of_cons in Hin as [Hne Hin]. apply list.NoDup_cons in Hnd as [Hk' Hnd].
        split; cbn; try done.
        -- by rewrite fmap_app.
        -- by apply NoDup_keys_snoc.
        -- rewrite fmap_insert, (Hdel k' a' l Hc). cbn. by rewrite list_to_map_snoc.
        -- rewrite length_app. cbn. lia.
      * split; cbn; try done.
        -- by rewrite fmap_app.
        -- by apply (NoDup_keys_snoc k a ((k', a') :: l)).
        -- rewrite fmap_insert, Hm. rewrite <-list_to_map_snoc by done. done.
        -- rewrite length_app. cbn. lia.
Qed.

Lemma evict_loop_spec m l : forall es,
  last_result <$> es = list_to_map l -> NoDup l.*1 ->
  let '(es', fifo') := evict_loop m es l.*1 in
  last_result <$> es' = list_to_map (drop (length l - m) l) /\ fifo' = (drop (length l - m) l).*1.
Proof.
  induction l as [|[k a] l IH]; intros es Hm Hnd; [done|].
  cbn [fmap list_fmap fst evict_loop]. rewrite (map_size_list _ _ _ Hm Hnd).
  change (k :: l.*1) with ((k, a) :: l).*1. cbn [length].
  destruct (Nat.ltb_spec m (S (length l))) as [Hlt|Hge].
  - replace (S (length l) - m)%nat with (S (length l - m)) by lia. cbn [drop].
    cbn in Hnd. apply list.NoDup_cons in Hnd as [Hk Hnd]. apply IH; [|done].
    rewrite fmap_delete, Hm, list_to_map_cons, delete_insert_id; [done|].
    by apply not_elem_of_list_to_map_1.
  - by replace (S (length l) - m)%nat with 0%nat by lia.
Qed.

Lemma set_max_rel c m l n :
  cache_rel c (m, l) -> cache_rel (set_max_entries n c) (Nat.max 1 n, drop (length l - Nat.max 1 n) l).
Proof.
  intros [_ Hpos Hf Hnd Hm Hle]. cbn [fst snd] in *. unfold set_max_entries.
  replace (if (n =? 0)%nat then 1%nat else n) with (Nat.max 1 n) by (by destruct n).
  pose proof (evict_loop_spec (Nat.max 1 n) l _ Hm Hnd) as He. rewrite Hf.
  destruct (evict_loop _ _ _) as [es fifo]. destruct He as [He ->].
  split; cbn [fst snd max_entries_ entries_ fifo_]; try done; [lia| |rewrite length_drop; lia].
  rewrite fmap_drop. by eapply sublist_NoDup, sublist_drop.
Qed.

Lemma cache_step_rel c s op :
  cache_rel c s -> cache_rel (cache_step c op) (spec_cache_step s op).
Proof.
  destruct s as [m l]. intros Hc. destruct op as [k a t| |n]; cbn [cache_step spec_cache_step].
  - by apply upsert_rel.
  - destruct Hc. split; cbn in *; try done; try apply NoDup_nil_2; try lia.
  - by apply (set_max_rel _ m).
Qed.

Lemma cache_run_rel ops : forall c s,
  cache_rel c s -> cache_rel (fold_left cache_step ops c) (fold_left spec_cache_step ops s).
Proof. induction ops as [|op ops IH]; intros c s Hc; [done|]. by apply IH, cache_step_rel. Qed.

Lemma al_find_map k (l : list (DupCmdKey * ScheduleApplyAckPayload)) :
  (list_to_map l : gmap DupCmdKey ScheduleApplyAckPayload) !! k = al_find k l.
Proof.
  unfold al_find. induction l as [|[k' a] l IH]; [done|].
  rewrite list_to_map_cons. cbn [list_find fst]. destruct (decide (k' = k)) as [->|Hne].
  - by rewrite lookup_insert_eq.
  - rewrite lookup_insert_ne by done. rewrite IH. by destruct (list_find _ l) as [[]|].
Qed.

(** ** Theorems *)

(** The duplicate-command cache remembers the newest keys.  After any
    sequence of operations on a new cache, [find] returns for every key what an
    association list in order of first insertion holds: the last result stored
    for a key that has not been evicted, where a new key evicts the oldest one
    when the list is full.  The cache never holds more than its maximum number
    of entries, and every entry can be evicted (the fifo lists each key once). *)
Theorem dup_cmd_cache_refines (max_entries : nat) (ops : list CacheOp) (key : DupCmdKey) :
  let c := fold_left cache_step ops (DupCmdCache_init max_entries) in
  let '(m, l) := fold_left spec_cache_step ops (Nat.max 1 max_entries, []) in
  find key c = al_find key l /\ cache_size c = length l /\ (cache_size c <= m)%nat /\
  fifo_ c = l.*1 /\ NoDup (fifo_ c).
Proof.
  cbn zeta.
  assert (H0 : cache_rel (DupCmdCache_init max_entries) (Nat.max 1 max_entries, [])).
  { split; cbn; try done; try lia; try apply NoDup_nil_2; by destruct max_entries. }
  apply (cache_run_rel ops) in H0.
  destruct (fold_left spec_cache_step ops _) as [m l]. destruct H0 as [_ _ Hf Hnd Hm Hle].
  cbn [fst snd] in *. unfold find, cache_size. rewrite <-lookup_fmap, Hm, al_find_map.
  rewrite (map_size_list _ _ _ Hm Hnd). by rewrite Hf.
Qed.

End DupCmdCache.
