(* ===== verification/Config.v ===== *)
(** [ConfigManager] ([include/qdgz300/m01_receiver/config/config_manager.h],
    [src/m01_receiver/config/config_manager.cpp]): the receiver configuration, its
    loading from YAML, validation, and reloading.  The YAML library is the
    interface [Yaml]; [std::stoul] is modelled. *)

From stdpp Require Import strings.
From S2P Require Import Prelude.
Open Scope Z_scope.

Module Config.

(** ** The configuration *)

Record Network := mkNetwork {
  listen_port : Z;
  bind_ips : list string;
  bind_ip : string;
  interface : string;
  local_device_id : Z;
  recv_threads : Z;
  recvmmsg_batch_size : Z;
  socket_rcvbuf_mb : Z;
  enable_so_reuseport : bool;
  enable_ip_freebind : bool;
  source_id_map : list Z;
  cpu_affinity_map : list Z;
  source_filter_enabled : bool;
}.

Record Reassembly := mkReassembly {
  reasm_timeout_ms : Z;
  max_contexts : Z;
  max_total_frags : Z;
  sample_count_fixed : Z;
  max_reasm_bytes_per_key : Z;
}.

Record Reorder := mkReorder {
  window_size : Z;
  reorder_timeout_ms : Z;
  enable_zero_fill : bool;
}.

Record Timestamp := mkTimestamp {
  apply_window_ms : Z;
  enable_check : bool;
  allow_unlocked_clock : bool;
}.

Record ControlReliability := mkControlReliability {
  rto_ms : Z;
  max_retry : Z;
  dup_cmd_cache_size : Z;
}.

Record FlowControl := mkFlowControl {
  max_buffer_size : Z;
  high_watermark : Z;
  low_watermark : Z;
  policy : string;
}.

Record Logging := mkLogging { level : string; log_file : string }.

Record Monitoring := mkMonitoring { metrics_port : Z; metrics_bind_ip : string }.

Record Performance := mkPerformance {
  numa_node : Z;
  reassembler_cache_align_bytes : Z;
  prefetch_hints_enabled : bool;
  qos_enabled : bool;
  rma_session_timeout_ms : Z;
  heartbeat_max_queue_depth : Z;
  packet_pool_mb_per_face : Z;
  recv_drain_rounds : Z;
  processing_cpu_affinity_map : list Z;
}.

Record Delivery := mkDelivery {
  method : string;
  shm_name : string;
  shm_size_mb : Z;
  socket_path : string;
  reconnect_interval_ms : Z;
}.

Record Capture := mkCapture {
  capture_enabled : bool;
  spool_dir : string;
  archive_dir : string;
  spool_low_watermark_pct : Z;
  archive_low_watermark_pct : Z;
  archive_max_files : Z;
  archive_max_age_days : Z;
  max_file_size_mb : Z;
  max_files : Z;
  filter_packet_types : list Z;
  filter_source_ids : list Z;
}.

Record Queue := mkQueue { rawcpi_q_capacity : Z; rawcpi_q_slot_size_mb : Z }.

Record Consumer := mkConsumer {
  print_summary : bool;
  write_to_file : bool;
  output_dir : string;
  stats_interval_ms : Z;
}.

Record ReceiverConfig := mkReceiverConfig {
  network : Network;
  reassembly : Reassembly;
  reorder : Reorder;
  timestamp : Timestamp;
  control_reliability : ControlReliability;
  flow_control : FlowControl;
  logging : Logging;
  monitoring : Monitoring;
  performance : Performance;
  delivery : Delivery;
  capture : Capture;
  queue : Queue;
  consumer : Consumer;
}.

(** The default member initialisers. *)
Definition Network_default : Network :=
  mkNetwork 9999 [] "0.0.0.0" EmptyString 0x01 8 64 256 true false [] [] true.

Definition Reassembly_default : Reassembly := mkReassembly 100 1024 1024 4096 (16 * 1024 * 1024).

Definition Reorder_default : Reorder := mkReorder 512 50 true.

Definition Timestamp_default : Timestamp := mkTimestamp 5 true true.

Definition ControlReliability_default : ControlReliability := mkControlReliability 2500 3 1000.

Definition FlowControl_default : FlowControl := mkFlowControl 1024 800 200 "DROP_OLDEST".

Definition Logging_default : Logging := mkLogging "INFO" EmptyString.

Definition Monitoring_default : Monitoring := mkMonitoring 8080 "0.0.0.0".

Definition Performance_default : Performance := mkPerformance 1 64 true true 30000 1000 64 4 [].

Definition Delivery_default : Delivery :=
  mkDelivery "callback" "/receiver_shm" 64 "/tmp/tower_receiver.sock" 100.

Definition Capture_default : Capture :=
  mkCapture false "/var/spool/qdgz300/receiver" "/data/qdgz300/receiver" 10 10 256 7 1024 10 [] [].

Definition Queue_default : Queue := mkQueue 64 2.

Definition Consumer_default : Consumer := mkConsumer true false "/tmp/receiver_rawblocks" 1000.

Definition ReceiverConfig_default : ReceiverConfig :=
  mkReceiverConfig Network_default Reassembly_default Reorder_default Timestamp_default
    ControlReliability_default FlowControl_default Logging_default Monitoring_default
    Performance_default Delivery_default Capture_default Queue_default Consumer_default.

(** ** Validation *)

(** [std::unordered_set(begin, end).size()]. *)
Definition unique_count {A} `{Countable A} (l : list A) : nat := size (list_to_set l : gset A).

Definition min_element (l : list Z) : Z :=
  match l with [] => 0 | x :: l => fold_left Z.min l x end.

Definition is_nil {A} (l : list A) : bool := match l with [] => true | _ => false end.

Definition is_empty (s : string) : bool := bool_decide (s = EmptyString).

Definition validate_network (n : Network) : bool :=
  if listen_port n =? 0 then false
  else if recv_threads n <=? 0 then false
  else
    let has_any_array_face_field :=
      negb (is_nil (bind_ips n)) || negb (is_nil (source_id_map n)) ||
      negb (is_nil (cpu_affinity_map n)) in
    if has_any_array_face_field &&
       (negb (length (bind_ips n) =? 3)%nat || negb (length (source_id_map n) =? 3)%nat ||
        negb (length (cpu_affinity_map n) =? 3)%nat) then false
    else if negb (is_nil (bind_ips n)) &&
            (negb (unique_count (bind_ips n) =? length (bind_ips n))%nat ||
             existsb is_empty (bind_ips n)) then false
    else if negb (is_nil (source_id_map n)) &&
            (negb (unique_count (source_id_map n) =? length (source_id_map n))%nat ||
             existsb (fun source_id => (source_id <? 0x11) || (0x13 <? source_id)) (source_id_map n))
         then false
    else if negb (is_nil (cpu_affinity_map n)) &&
            (negb (unique_count (cpu_affinity_map n) =? length (cpu_affinity_map n))%nat ||
             (min_element (cpu_affinity_map n) <? 0)) then false
    else true.

Definition validate_pipeline (c : ReceiverConfig) : bool :=
  let r := reassembly c in let cr := control_reliability c in
  let f := flow_control c in let p := performance c in
  if (max_total_frags r =? 0) || (1024 <? max_total_frags r) then false
  else if max_reasm_bytes_per_key r =? 0 then false
  else if window_size (reorder c) =? 0 then false
  else if (rto_ms cr =? 0) || (60000 <? rto_ms cr) then false
  else if (max_retry cr =? 0) || (10 <? max_retry cr) then false
  else if (dup_cmd_cache_size cr =? 0) || (100000 <? dup_cmd_cache_size cr) then false
  else if high_watermark f <? low_watermark f then false
  else if max_buffer_size f <? high_watermark f then false
  else if negb (bool_decide (policy f = "DROP_OLDEST")) && negb (bool_decide (policy f = "REJECT_NEW"))
       then false
  else if negb (numa_node p =? 1) then false
  else if (reassembler_cache_align_bytes p <? 64) ||
          negb (Z.land (reassembler_cache_align_bytes p)
                  (reassembler_cache_align_bytes p -[64] 1) =? 0) then false
  else if (rma_session_timeout_ms p =? 0) || (300000 <? rma_session_timeout_ms p) then false
  else if (heartbeat_max_queue_depth p =? 0) || (100000 <? heartbeat_max_queue_depth p) then false
  else if (packet_pool_mb_per_face p <? 32) || (512 <? packet_pool_mb_per_face p) then false
  else if (recv_drain_rounds p =? 0) || (16 <? recv_drain_rounds p) then false
  else true.

Definition validate_processing_cpus (c : ReceiverConfig) : bool :=
  let cpus := processing_cpu_affinity_map (performance c) in
  let expected_faces :=
    if negb (is_nil (bind_ips (network c))) then length (bind_ips (network c)) else 1%nat in
  if negb (is_nil cpus) then
    if negb (unique_count cpus =? length cpus)%nat then false
    else if min_element cpus <? 0 then false
    else if negb (length cpus =? expected_faces)%nat then false
    else true
  else true.

Definition validate_outputs (c : ReceiverConfig) : bool :=
  let k := capture c in let q := queue c in let s := consumer c in
  if reconnect_interval_ms (delivery c) =? 0 then false
  else if max_files k =? 0 then false
  else if capture_enabled k && is_empty (spool_dir k) then false
  else if (archive_max_files k =? 0) || (100000 <? archive_max_files k) then false
  else if (spool_low_watermark_pct k =? 0) || (99 <? spool_low_watermark_pct k) then false
  else if (archive_low_watermark_pct k =? 0) || (99 <? archive_low_watermark_pct k) then false
  else if (archive_max_age_days k =? 0) || (3650 <? archive_max_age_days k) then false
  else if (rawcpi_q_capacity q =? 0) || (1024 <? rawcpi_q_capacity q) then false
  else if (rawcpi_q_slot_size_mb q =? 0) || (16 <? rawcpi_q_slot_size_mb q) then false
  else if (stats_interval_ms s =? 0) || (60000 <? stats_interval_ms s) then false
  else if write_to_file s && is_empty (output_dir s) then false
  else true.

(** The checks in the order of the source; each group returns false early. *)
Definition validate (config : ReceiverConfig) : bool :=
  if negb (validate_network (network config)) then false
  else if negb (validate_pipeline config) then false
  else if negb (validate_processing_cpus config) then false
  else validate_outputs config.

(** ** Loading *)

(** The outcome of code that throws: a value, a [YAML::Exception], or another
    standard exception ([std::invalid_argument], [std::out_of_range]). *)
Inductive result (A : Type) := Ok (a : A) | YamlException | StdException.

Arguments Ok {A}.
Arguments YamlException {A}.
Arguments StdException {A}.

#[export] Instance result_bind : MBind result := fun A B f m =>
  match m with Ok a => f a | YamlException => YamlException | StdException => StdException end.

Definition yaml {A} (o : option A) : result A :=
  match o with Some a => Ok a | None => YamlException end.

(** What the loader uses of yaml-cpp.  [subscript n k] is [n[k]] on a defined
    node: [None] is an exception, [Some None] an undefined node.  The
    conversions return [None] when they throw; an unsigned conversion returns a
    value of its width. *)
Class Yaml := {
  Node : Type;
  subscript : Node -> string -> option (option Node);
  IsScalar : Node -> bool;
  IsSequence : Node -> bool;
  elements : Node -> list Node;
  as_uint : Z -> Node -> option Z;
  as_int : Node -> option Z;
  as_bool : Node -> option bool;
  as_string : Node -> option string;
  as_uint_range : forall w n x, as_uint w n = Some x -> in_range w x;
}.

(** [std::stoul(text, nullptr, 0)]: white space, sign, base prefix, digits; the
    first character that is no digit ends the number. *)
Definition chars (s : string) : list Z := (fun c => Z.of_N (Ascii.N_of_ascii c)) <$> String.list_ascii_of_string s.

Definition is_space (c : Z) : bool := (c =? 32) || ((9 <=? c) && (c <=? 13)).

Definition digit (c : Z) : Z :=
  if (48 <=? c) && (c <=? 57) then c - 48
  else if (97 <=? c) && (c <=? 122) then c - 87
  else if (65 <=? c) && (c <=? 90) then c - 55
  else 99.

Fixpoint scan (base acc : Z) (seen : bool) (cs : list Z) : option Z :=
  match cs with
  | c :: cs => if digit c <? base then scan base (acc * base + digit c) true cs
               else if seen then Some acc else None
  | [] => if seen then Some acc else None
  end.

Fixpoint skip_space (cs : list Z) : list Z :=
  match cs with
  | c :: cs' => if is_space c then skip_space cs' else cs
  | [] => []
  end.

Definition strtoul_magnitude (cs : list Z) : option Z :=
  match cs with
  | 48 :: x :: d :: cs' =>
    if ((x =? 120) || (x =? 88)) && (digit d <? 16) then scan 16 0 false (d :: cs')
    else scan 8 0 false cs
  | 48 :: _ => scan 8 0 false cs
  | _ => scan 10 0 false cs
  end.

Definition stoul (text : string) : option Z :=
  let cs := skip_space (chars text) in
  let '(neg, cs) := match cs with 45 :: cs => (true, cs) | 43 :: cs => (false, cs) | _ => (false, cs) end in
  v ← strtoul_magnitude cs;
  if 2 ^ 64 - 1 <? v then None else Some (if neg : bool then u64 (- v) else v).

Section Load.

Context `{Yaml}.

(** [node[key]] for a node that may be undefined: the tests
    [node && node[key]] of the helpers. *)
Definition child (node : option Node) (key : string) : result (option Node) :=
  match node with
  | None => Ok None
  | Some n => yaml (subscript n key)
  end.

Definition assign_if_present {A} (conv : Node -> option A) (node : option Node) (key : string)
    (target : A) : result A :=
  v ← child node key;
  match v with None => Ok target | Some v => yaml (conv v) end.

Fixpoint convert_all {A} (conv : Node -> option A) (vs : list Node) : option (list A) :=
  match vs with
  | [] => Some []
  | v :: vs => x ← conv v; xs ← convert_all conv vs; Some (x :: xs)
  end.

Definition assign_sequence_if_present {A} (conv : Node -> option A) (node : option Node)
    (key : string) (target : list A) : result (list A) :=
  v ← child node key;
  match v with
  | None => Ok target
  | Some seq => if negb (IsSequence seq) then Ok target else yaml (convert_all conv (elements seq))
  end.

Definition parse_u8 (n : Node) : result Z :=
  text ← yaml (as_string n);
  match stoul text with None => StdException | Some parsed => Ok (u8 parsed) end.

Definition assign_hex_or_decimal_u8 (node : option Node) (key : string) (target : Z) : result Z :=
  v ← child node key;
  match v with None => Ok target | Some v => parse_u8 v end.

Fixpoint parse_u8_all (vs : list Node) : result (list Z) :=
  match vs with
  | [] => Ok []
  | v :: vs => if IsScalar v then x ← parse_u8 v; xs ← parse_u8_all vs; Ok (x :: xs)
               else parse_u8_all vs
  end.

Definition assign_hex_or_decimal_u8_vector (node : option Node) (key : string) (target : list Z)
    : result (list Z) :=
  v ← child node key;
  match v with
  | None => Ok target
  | Some l => if negb (IsSequence l) then Ok target else parse_u8_all (elements l)
  end.

Definition as_u16 := as_uint 16.
Definition as_u32 := as_uint 32.
Definition as_size := as_uint 64.

Definition load_network (root : Node) : result Network :=
  network ← yaml (subscript root "network");
  let d := Network_default in
  a1 ← assign_if_present as_u16 network "listen_port" (listen_port d);
  a2 ← assign_sequence_if_present as_string network "bind_ips" (bind_ips d);
  a3 ← assign_if_present as_string network "bind_ip" (bind_ip d);
  a4 ← assign_if_present as_string network "interface" (interface d);
  a5 ← assign_hex_or_decimal_u8 network "local_device_id" (local_device_id d);
  a6 ← assign_if_present as_int network "recv_threads" (recv_threads d);
  a7 ← assign_if_present as_size network "recvmmsg_batch_size" (recvmmsg_batch_size d);
  a8 ← assign_if_present as_size network "socket_rcvbuf_mb" (socket_rcvbuf_mb d);
  a9 ← assign_if_present as_bool network "enable_so_reuseport" (enable_so_reuseport d);
  a10 ← assign_if_present as_bool network "enable_ip_freebind" (enable_ip_freebind d);
  a11 ← assign_hex_or_decimal_u8_vector network "source_id_map" (source_id_map d);
  a12 ← assign_sequence_if_present as_int network "cpu_affinity_map" (cpu_affinity_map d);
  a13 ← assign_if_present as_bool network "source_filter_enabled" (source_filter_enabled d);
  Ok (mkNetwork a1 a2 a3 a4 a5 a6 a7 a8 a9 a10 a11 a12 a13).

Definition load_reassembly (root : Node) : result Reassembly :=
  reassembly ← yaml (subscript root "reassembly");
  let d := Reassembly_default in
  a1 ← assign_if_present as_u32 reassembly "timeout_ms" (reasm_timeout_ms d);
  a2 ← assign_if_present as_size reassembly "max_contexts" (max_contexts d);
  a3 ← assign_if_present as_u16 reassembly "max_total_frags" (max_total_frags d);
  a4 ← assign_if_present as_size reassembly "sample_count_fixed" (sample_count_fixed d);
  a5 ← assign_if_present as_size reassembly "max_reasm_bytes_per_key" (max_reasm_bytes_per_key d);
  Ok (mkReassembly a1 a2 a3 a4 a5).

Definition load_reorder (root : Node) : result Reorder :=
  reorder ← yaml (subscript root "reorder");
  let d := Reorder_default in
  a1 ← assign_if_present as_size reorder "window_size" (window_size d);
  a2 ← assign_if_present as_u32 reorder "timeout_ms" (reorder_timeout_ms d);
  a3 ← assign_if_present as_bool reorder "enable_zero_fill" (enable_zero_fill d);
  Ok (mkReorder a1 a2 a3).

Definition load_timestamp (root : Node) : result Timestamp :=
  timestamp ← yaml (subscript root "timestamp");
  let d := Timestamp_default in
  a1 ← assign_if_present as_u32 timestamp "apply_window_ms" (apply_window_ms d);
  a2 ← assign_if_present as_bool timestamp "enable_check" (enable_check d);
  a3 ← assign_if_present as_bool timestamp "allow_unlocked_clock" (allow_unlocked_clock d);
  Ok (mkTimestamp a1 a2 a3).

Definition load_control_reliability (root : Node) : result ControlReliability :=
  cr ← yaml (subscript root "control_reliability");
  let d := ControlReliability_default in
  a1 ← assign_if_present as_u32 cr "rto_ms" (rto_ms d);
  a2 ← assign_if_present as_u32 cr "max_retry" (max_retry d);
  a3 ← assign_if_present as_size cr "dup_cmd_cache_size" (dup_cmd_cache_size d);
  Ok (mkControlReliability a1 a2 a3).

Definition load_flow_control (root : Node) : result FlowControl :=
  flow ← yaml (subscript root "flow_control");
  let d := FlowControl_default in
  a1 ← assign_if_present as_size flow "max_buffer_size" (max_buffer_size d);
  a2 ← assign_if_present as_size flow "high_watermark" (high_watermark d);
  a3 ← assign_if_present as_size flow "low_watermark" (low_watermark d);
  a4 ← assign_if_present as_string flow "policy" (policy d);
  Ok (mkFlowControl a1 a2 a3 a4).

Definition load_logging (root : Node) : result Logging :=
  logging ← yaml (subscript root "logging");
  let d := Logging_default in
  a1 ← assign_if_present as_string logging "level" (level d);
  a2 ← assign_if_present as_string logging "log_file" (log_file d);
  Ok (mkLogging a1 a2).

Definition load_monitoring (root : Node) : result Monitoring :=
  monitoring ← yaml (subscript root "monitoring");
  let d := Monitoring_default in
  a1 ← assign_if_present as_u16 monitoring "metrics_port" (metrics_port d);
  a2 ← assign_if_present as_string monitoring "metrics_bind_ip" (metrics_bind_ip d);
  Ok (mkMonitoring a1 a2).

Definition load_performance (root : Node) : result Performance :=
  performance ← yaml (subscript root "performance");
  let d := Performance_default in
  a1 ← assign_if_present as_int performance "numa_node" (numa_node d);
  a2 ← assign_if_present as_size performance "reassembler_cache_align_bytes"
         (reassembler_cache_align_bytes d);
  a3 ← assign_if_present as_bool performance "prefetch_hints_enabled" (prefetch_hints_enabled d);
  a4 ← assign_if_present as_bool performance "qos_enabled" (qos_enabled d);
  a5 ← assign_if_present as_u32 performance "rma_session_timeout_ms" (rma_session_timeout_ms d);
  a6 ← assign_if_present as_size performance "heartbeat_max_queue_depth" (heartbeat_max_queue_depth d);
  a7 ← assign_if_present as_size performance "packet_pool_mb_per_face" (packet_pool_mb_per_face d);
  a8 ← assign_if_present as_size performance "recv_drain_rounds" (recv_drain_rounds d);
  a9 ← assign_sequence_if_present as_int performance "processing_cpu_affinity_map"
         (processing_cpu_affinity_map d);
  Ok (mkPerformance a1 a2 a3 a4 a5 a6 a7 a8 a9).

Definition load_delivery (root : Node) : result Delivery :=
  delivery ← yaml (subscript root "delivery");
  let d := Delivery_default in
  a1 ← assign_if_present as_string delivery "method" (method d);
  a2 ← assign_if_present as_string delivery "shm_name" (shm_name d);
  a3 ← assign_if_present as_size delivery "shm_size_mb" (shm_size_mb d);
  a4 ← assign_if_present as_string delivery "socket_path" (socket_path d);
  a5 ← assign_if_present as_u32 delivery "reconnect_interval_ms" (reconnect_interval_ms d);
  Ok (mkDelivery a1 a2 a3 a4 a5).

(** [output_dir] is the older name of [spool_dir]. *)
Definition load_capture (root : Node) : result Capture :=
  capture ← yaml (subscript root "capture");
  let d := Capture_default in
  a1 ← assign_if_present as_bool capture "enabled" (capture_enabled d);
  a2 ← assign_if_present as_string capture "spool_dir" (spool_dir d);
  a2 ← (if bool_decide (a2 = spool_dir Capture_default)
        then assign_if_present as_string capture "output_dir" a2 else Ok a2);
  a3 ← assign_if_present as_string capture "archive_dir" (archive_dir d);
  a4 ← assign_if_present as_u32 capture "spool_low_watermark_pct" (spool_low_watermark_pct d);
  a5 ← assign_if_present as_u32 capture "archive_low_watermark_pct" (archive_low_watermark_pct d);
  a6 ← assign_if_present as_size capture "archive_max_files" (archive_max_files d);
  a7 ← assign_if_present as_u32 capture "archive_max_age_days" (archive_max_age_days d);
  a8 ← assign_if_present as_size capture "max_file_size_mb" (max_file_size_mb d);
  a9 ← assign_if_present as_size capture "max_files" (max_files d);
  a10 ← assign_hex_or_decimal_u8_vector capture "filter_packet_types" (filter_packet_types d);
  a11 ← assign_hex_or_decimal_u8_vector capture "filter_source_ids" (filter_source_ids d);
  Ok (mkCapture a1 a2 a3 a4 a5 a6 a7 a8 a9 a10 a11).

Definition load_queue (root : Node) : result Queue :=
  queue ← yaml (subscript root "queue");
  let d := Queue_default in
  a1 ← assign_if_present as_size queue "rawcpi_q_capacity" (rawcpi_q_capacity d);
  a2 ← assign_if_present as_size queue "rawcpi_q_slot_size_mb" (rawcpi_q_slot_size_mb d);
  Ok (mkQueue a1 a2).

Definition load_consumer (root : Node) : result Consumer :=
  consumer ← yaml (subscript root "consumer");
  let d := Consumer_default in
  a1 ← assign_if_present as_bool consumer "print_summary" (print_summary d);
  a2 ← assign_if_present as_bool consumer "write_to_file" (write_to_file d);
  a3 ← assign_if_present as_string consumer "output_dir" (output_dir d);
  a4 ← assign_if_present as_u32 consumer "stats_interval_ms" (stats_interval_ms d);
  Ok (mkConsumer a1 a2 a3 a4).

(** The body of the [try] block; [LoadFile] is [YAML::LoadFile] with the files as
    they are at the time of the call. *)
Definition read_config (LoadFile : string -> option Node) (config_file : string)
    : result ReceiverConfig :=
  root ← yaml (LoadFile config_file);
  c1 ← load_network root;
  c2 ← load_reassembly root;
  c3 ← load_reorder root;
  c4 ← load_timestamp root;
  c5 ← load_control_reliability root;
  c6 ← load_flow_control root;
  c7 ← load_logging root;
  c8 ← load_monitoring root;
  c9 ← load_performance root;
  c10 ← load_delivery root;
  c11 ← load_capture root;
  c12 ← load_queue root;
  c13 ← load_consumer root;
  Ok (mkReceiverConfig c1 c2 c3 c4 c5 c6 c7 c8 c9 c10 c11 c12 c13).

End Load.

(** ** [ConfigManager] *)

(** [Impl], with the log of callback invocations: which callback, which config. *)
Record ConfigManager := mkConfigManager {
  current_config : ReceiverConfig;
  config_file_path : string;
  callbacks : nat;
  callback_log : list (nat * ReceiverConfig);
}.

Definition ConfigManager_init : ConfigManager :=
  mkConfigManager ReceiverConfig_default EmptyString 0 [].

Definition get_config (m : ConfigManager) : ReceiverConfig := current_config m.

Definition register_reload_callback (m : ConfigManager) : ConfigManager :=
  mkConfigManager (current_config m) (config_file_path m) (S (callbacks m)) (callback_log m).

(** The outcome of a call that returns a [bool] or lets an exception escape. *)
Inductive outcome := Returned (b : bool) | Thrown.

Section Manager.

Context `{Yaml}.

(** Only [YAML::Exception] is caught. *)
Definition load_from_file (LoadFile : string -> option Node) (config_file : string)
    (m : ConfigManager) : outcome * ConfigManager :=
  match read_config LoadFile config_file with
  | StdException => (Thrown, m)
  | YamlException => (Returned false, m)
  | Ok cfg =>
    if negb (validate cfg) then (Returned false, m)
    else (Returned true, mkConfigManager cfg config_file (callbacks m) (callback_log m))
  end.

Definition reload (LoadFile : string -> option Node) (m : ConfigManager) : outcome * ConfigManager :=
  if is_empty (config_file_path m) then (Returned false, m)
  else
    let '(o, m) := load_from_file LoadFile (config_file_path m) m in
    match o with
    | Returned true =>
      (Returned true, mkConfigManager (current_config m) (config_file_path m) (callbacks m)
         (callback_log m ++ ((fun i => (i, current_config m)) <$> seq 0 (callbacks m))))
    | o => (o, m)
    end.

End Manager.

(** ** Specification *)

(** The ranges the C++ types give. *)
Record config_typed (c : ReceiverConfig) : Prop := {
  ct_port : is_u16 (listen_port (network c));
  ct_device : is_u8 (local_device_id (network c));
  ct_reasm_timeout : is_u32 (reasm_timeout_ms (reassembly c));
  ct_contexts : is_u64 (max_contexts (reassembly c));
  ct_frags : is_u16 (max_total_frags (reassembly c));
  ct_samples : is_u64 (sample_count_fixed (reassembly c));
  ct_bytes : is_u64 (max_reasm_bytes_per_key (reassembly c));
  ct_window : is_u64 (window_size (reorder c));
  ct_rto : is_u32 (rto_ms (control_reliability c));
  ct_retry : is_u32 (max_retry (control_reliability c));
  ct_dup : is_u64 (dup_cmd_cache_size (control_reliability c));
  ct_align : is_u64 (reassembler_cache_align_bytes (performance c));
  ct_rma : is_u32 (rma_session_timeout_ms (performance c));
  ct_depth : is_u64 (heartbeat_max_queue_depth (performance c));
  ct_rounds : is_u64 (recv_drain_rounds (performance c));
  ct_reconnect : is_u32 (reconnect_interval_ms (delivery c));
  ct_file_size : is_u64 (max_file_size_mb (capture c));
  ct_files : is_u64 (max_files (capture c));
  ct_archive : is_u64 (archive_max_files (capture c));
  ct_spool_pct : is_u32 (spool_low_watermark_pct (capture c));
  ct_archive_pct : is_u32 (archive_low_watermark_pct (capture c));
  ct_age : is_u32 (archive_max_age_days (capture c));
  ct_cap : is_u64 (rawcpi_q_capacity (queue c));
  ct_slot : is_u64 (rawcpi_q_slot_size_mb (queue c));
  ct_stats : is_u32 (stats_interval_ms (consumer c));
}.

(** Distinct cores. *)
Definition cpus_valid (cpus : list Z) : Prop := NoDup cpus /\ Forall (fun c => 0 <= c) cpus.

(** Either no array face is configured, or all three are: with distinct
    non-empty addresses, the source ids 0x11, 0x12, 0x13 in some order, and
    distinct cores. *)
Definition faces_valid (n : Network) : Prop :=
  (bind_ips n = [] /\ source_id_map n = [] /\ cpu_affinity_map n = []) \/
  (length (bind_ips n) = 3%nat /\ NoDup (bind_ips n) /\ EmptyString ∉ bind_ips n /\
   source_id_map n ≡ₚ [0x11; 0x12; 0x13] /\
   length (cpu_affinity_map n) = 3%nat /\ cpus_valid (cpu_affinity_map n)).

Definition num_faces (n : Network) : nat := match bind_ips n with [] => 1 | l => length l end.

Record config_valid (c : ReceiverConfig) : Prop := {
  cv_port : listen_port (network c) <> 0;
  cv_threads : 0 < recv_threads (network c);
  cv_faces : faces_valid (network c);
  cv_frags : 1 <= max_total_frags (reassembly c) <= 1024;
  cv_bytes : 1 <= max_reasm_bytes_per_key (reassembly c);
  cv_window : 1 <= window_size (reorder c);
  cv_rto : 1 <= rto_ms (control_reliability c) <= 60000;
  cv_retry : 1 <= max_retry (control_reliability c) <= 10;
  cv_dup : 1 <= dup_cmd_cache_size (control_reliability c) <= 100000;
  cv_marks : low_watermark (flow_control c) <= high_watermark (flow_control c)
               <= max_buffer_size (flow_control c);
  cv_policy : policy (flow_control c) = "DROP_OLDEST" \/ policy (flow_control c) = "REJECT_NEW";
  cv_numa : numa_node (performance c) = 1;
  cv_align : exists k, 6 <= k /\ reassembler_cache_align_bytes (performance c) = 2 ^ k;
  cv_rma : 1 <= rma_session_timeout_ms (performance c) <= 300000;
  cv_depth : 1 <= heartbeat_max_queue_depth (performance c) <= 100000;
  cv_pool : 32 <= packet_pool_mb_per_face (performance c) <= 512;
  cv_rounds : 1 <= recv_drain_rounds (performance c) <= 16;
  cv_cpus : let cpus := processing_cpu_affinity_map (performance c) in
            cpus = [] \/ cpus_valid cpus /\ length cpus = num_faces (network c);
  cv_reconnect : 1 <= reconnect_interval_ms (delivery c);
  cv_files : 1 <= max_files (capture c);
  cv_spool : capture_enabled (capture c) = true -> spool_dir (capture c) <> EmptyString;
  cv_archive : 1 <= archive_max_files (capture c) <= 100000;
  cv_spool_pct : 1 <= spool_low_watermark_pct (capture c) <= 99;
  cv_archive_pct : 1 <= archive_low_watermark_pct (capture c) <= 99;
  cv_age : 1 <= archive_max_age_days (capture c) <= 3650;
  cv_cap : 1 <= rawcpi_q_capacity (queue c) <= 1024;
  cv_slot : 1 <= rawcpi_q_slot_size_mb (queue c) <= 16;
  cv_stats : 1 <= stats_interval_ms (consumer c) <= 60000;
  cv_output : write_to_file (consumer c) = true -> output_dir (consumer c) <> EmptyString;
}.

(** ** Lemmas on the checks *)

Lemma unique_count_NoDup {A} `{Countable A} (l : list A) : unique_count l = length l <-> NoDup l.
Proof.
  unfold unique_count. split; [|by apply size_list_to_set].
  assert (Hle : forall l : list A, (size (list_to_set l : gset A) <= length l)%nat).
  { intros l'. induction l' as [|x l' IH]; cbn [list_to_set length]; [by rewrite size_empty|].
    pose proof (subseteq_size (list_to_set l' ∖ {[x]}) (list_to_set l' : gset A) ltac:(set_solver)).
    change (list_to_set (x :: l') : gset A) with ({[x]} ∪ list_to_set l' : gset A).
    rewrite size_union_alt, size_singleton. lia. }
  induction l as [|x l IH]; intros Heq; [apply NoDup_nil_2|].
  specialize (Hle l). change (list_to_set (x :: l) : gset A) with ({[x]} ∪ list_to_set l : gset A) in Heq.
  cbn [length] in Heq. destruct (decide (x ∈ (list_to_set l : gset A))) as [Hin|Hni].
  - replace ({[x]} ∪ list_to_set l : gset A) with (list_to_set l : gset A) in Heq by set_solver. lia.
  - rewrite size_union, size_singleton in Heq by set_solver.
    apply NoDup_cons_2; [set_solver|]. apply IH. lia.
Qed.

Lemma min_element_nonneg l : l <> [] -> (0 <= min_element l <-> Forall (fun c => 0 <= c) l).
Proof.
  destruct l as [|x l]; [done|]. intros _. cbn [min_element].
  assert (Hf : forall l x, 0 <= fold_left Z.min l x <-> 0 <= x /\ Forall (fun c => 0 <= c) l).
  { clear. induction l as [|y l IH]; intros x; cbn [fold_left].
    - split; [split; [done|apply Forall_nil_2]|tauto].
    - rewrite IH. split.
      + intros [? ?]. split; [lia|]. apply Forall_cons_2; [lia|done].
      + intros [? [? ?]%Forall_cons_1]. split; [lia|done]. }
  rewrite Hf. split; [intros [? ?]; by apply Forall_cons_2|apply Forall_cons_1].
Qed.

Lemma is_nil_spec {A} (l : list A) : is_nil l = true <-> l = [].
Proof. by destruct l. Qed.

Lemma existsb_empty l : existsb is_empty l = false <-> EmptyString ∉ l.
Proof.
  induction l as [|x l IH]; cbn; [split; [intros _; apply not_elem_of_nil|done]|].
  rewrite orb_false_iff, IH, not_elem_of_cons. unfold is_empty. rewrite bool_decide_eq_false.
  split; intros [? ?]; by split; [congruence|].
Qed.

(** The bit trick: no bit below the highest one. *)
Lemma land_pred_pow2 x : 0 < x -> Z.land x (x - 1) = 0 <-> exists k, 0 <= k /\ x = 2 ^ k.
Proof.
  intros Hx. split.
  - intros Hl. exists (Z.log2 x). pose proof (Z.log2_spec x Hx) as Hs.
    pose proof (Z.log2_nonneg x). split; [done|].
    destruct (Z.eq_dec x (2 ^ Z.log2 x)) as [|Hne]; [done|exfalso].
    assert (Hb : Z.testbit (Z.land x (x - 1)) (Z.log2 x) = true).
    { rewrite Z.land_spec, Z.bit_log2 by done. cbn [andb].
      replace (Z.log2 x) with (Z.log2 (x - 1)) at 1.
      - apply Z.bit_log2. lia.
      - apply Z.log2_unique; [done|]. rewrite <-Z.add_1_r in *. lia. }
    rewrite Hl, Z.bits_0 in Hb. done.
  - intros (k & Hk & ->). rewrite Z.sub_1_r, <-Z.ones_equiv, Z.land_ones by done.
    apply Z_mod_same_full.
Qed.

Lemma align_check x :
  is_u64 x ->
  (x <? 64) || negb (Z.land x (x -[64] 1) =? 0) = false <-> exists k, 6 <= k /\ x = 2 ^ k.
Proof.
  intros Hr. destruct (Z.ltb_spec x 64) as [Hlt|Hge]; cbn [orb].
  - split; [done|]. intros (k & Hk & ->). apply (Z.pow_le_mono_r 2) in Hk; lia.
  - replace (x -[64] 1) with (x - 1) by (unfold in_range in Hr; wrap_lia).
    rewrite negb_false_iff, Z.eqb_eq, land_pred_pow2 by lia.
    split; intros (k & Hk & ->); exists k; [split; [|done]|split; [lia|done]].
    apply (Z.pow_le_mono_r_iff 2); lia.
Qed.

Lemma source_ids_check l :
  l <> [] -> length l = 3%nat ->
  (negb (unique_count l =? length l)%nat ||
   existsb (fun source_id => (source_id <? 0x11) || (0x13 <? source_id)) l) = false <->
  l ≡ₚ [0x11; 0x12; 0x13].
Proof.
  intros _ Hlen. rewrite orb_false_iff, negb_false_iff, Nat.eqb_eq, unique_count_NoDup.
  assert (He : existsb (fun source_id => (source_id <? 0x11) || (0x13 <? source_id)) l = false <->
               Forall (fun x => 0x11 <= x <= 0x13) l).
  { clear. induction l as [|x l IH]; cbn; [split; [intros _; apply Forall_nil_2|done]|].
    rewrite orb_false_iff, IH. split.
    - intros [H1 H2]. apply Forall_cons_2; [|done]. lia.
    - intros [? ?]%Forall_cons_1. split; [lia|done]. }
  rewrite He. split.
  - intros [Hnd Hr]. apply submseteq_length_Permutation; [|rewrite Hlen; cbn; lia].
    apply NoDup_submseteq; [done|]. intros x Hx.
    pose proof (proj1 (list.Forall_forall _ _) Hr x Hx) as Hb. cbn in Hb.
    assert (x = 0x11 \/ x = 0x12 \/ x = 0x13) as [-> | [-> | ->]] by lia; set_solver.
  - intros Hp. split.
    + apply (NoDup_Permutation_proper _ _ Hp). repeat (apply NoDup_cons_2; [set_solver|]). apply NoDup_nil_2.
    + rewrite Hp. repeat (apply Forall_cons_2; [lia|]). apply Forall_nil_2.
Qed.

Lemma cpus_check l :
  l <> [] ->
  (negb (unique_count l =? length l)%nat || (min_element l <? 0)) = false <-> cpus_valid l.
Proof.
  intros Hl. rewrite orb_false_iff, negb_false_iff, Nat.eqb_eq, unique_count_NoDup, Z.ltb_ge.
  by rewrite min_element_nonneg.
Qed.

Lemma ips_check l :
  (negb (unique_count l =? length l)%nat || existsb is_empty l) = false <->
  NoDup l /\ EmptyString ∉ l.
Proof. by rewrite orb_false_iff, negb_false_iff, Nat.eqb_eq, unique_count_NoDup, existsb_empty. Qed.

(** [if b then false else e] requires [b = false] and [e = true]. *)
Lemma if_false_else (b e : bool) : (if b then false else e) = true <-> b = false /\ e = true.
Proof. destruct b; naive_solver. Qed.

Lemma length3_not_nil {A} (l : list A) : length l = 3%nat -> negb (is_nil l) = true /\ l <> [].
Proof. by destruct l. Qed.

Lemma validate_network_spec n :
  validate_network n = true <-> listen_port n <> 0 /\ 0 < recv_threads n /\ faces_valid n.
Proof.
  unfold validate_network. cbn zeta. rewrite !if_false_else, Z.eqb_neq, Z.leb_gt. unfold faces_valid.
  destruct (negb (is_nil (bind_ips n)) || negb (is_nil (source_id_map n)) ||
            negb (is_nil (cpu_affinity_map n))) eqn:Eany.
  - cbn [andb]. rewrite !orb_false_iff, !negb_false_iff, !Nat.eqb_eq.
    assert (Hany : ~ (bind_ips n = [] /\ source_id_map n = [] /\ cpu_affinity_map n = [])).
    { intros (H1 & H2 & H3). rewrite H1, H2, H3 in Eany. discriminate. }
    split.
    + intros (? & ? & [[Hi Hs] Hc] & H1 & H2 & H3 & _).
      destruct (length3_not_nil _ Hi) as [Ni Ni'], (length3_not_nil _ Hs) as [Ns Ns'],
        (length3_not_nil _ Hc) as [Nc Nc'].
      rewrite Ni in H1. rewrite Ns in H2. rewrite Nc in H3. cbn [andb] in *.
      rewrite ips_check in H1. rewrite source_ids_check in H2 by done. rewrite cpus_check in H3 by done.
      split_and!; [done..|]. right. tauto.
    + intros (? & ? & [Hn|(Hi & Hnd & Hem & Hs & Hc & Hcv)]); [by destruct Hany|].
      assert (Hs3 : length (source_id_map n) = 3%nat) by (by rewrite Hs).
      destruct (length3_not_nil _ Hi) as [Ni Ni'], (length3_not_nil _ Hs3) as [Ns Ns'],
        (length3_not_nil _ Hc) as [Nc Nc'].
      rewrite Ni, Ns, Nc. cbn [andb].
      rewrite ips_check, source_ids_check, cpus_check by done. tauto.
  - rewrite !orb_false_iff, !negb_false_iff, !is_nil_spec in Eany. destruct Eany as [[H1 H2] H3].
    rewrite H1, H2, H3. cbn. split; [|tauto]. intros (? & ? & _). tauto.
Qed.

Lemma between_check x hi : 0 <= x -> (x =? 0) || (hi <? x) = false <-> 1 <= x <= hi.
Proof. intros Hx. rewrite orb_false_iff, Z.eqb_neq, Z.ltb_ge. lia. Qed.

Lemma nonzero_check x : 0 <= x -> (x =? 0) = false <-> 1 <= x.
Proof. intros Hx. rewrite Z.eqb_neq. lia. Qed.

Lemma range_check x lo hi : (x <? lo) || (hi <? x) = false <-> lo <= x <= hi.
Proof. rewrite orb_false_iff, !Z.ltb_ge. lia. Qed.

Lemma policy_check p :
  negb (bool_decide (p = "DROP_OLDEST")) && negb (bool_decide (p = "REJECT_NEW")) = false <->
  p = "DROP_OLDEST" \/ p = "REJECT_NEW".
Proof. rewrite andb_false_iff, !negb_false_iff, !bool_decide_eq_true. tauto. Qed.

Lemma directory_check b p :
  b && is_empty p = false <-> (b = true -> p <> EmptyString).
Proof. unfold is_empty. destruct b; cbn; [rewrite bool_decide_eq_false; tauto|]. split; [done|]. done. Qed.

Lemma validate_processing_cpus_spec c :
  validate_processing_cpus c = true <->
  let cpus := processing_cpu_affinity_map (performance c) in
  cpus = [] \/ cpus_valid cpus /\ length cpus = num_faces (network c).
Proof.
  unfold validate_processing_cpus, num_faces. cbn zeta.
  set (cpus := processing_cpu_affinity_map (performance c)).
  replace (if negb (is_nil (bind_ips (network c))) then length (bind_ips (network c)) else 1%nat)
    with (match bind_ips (network c) with [] => 1%nat | l => length l end) by (by destruct (bind_ips _)).
  destruct (is_nil cpus) eqn:En; cbn [negb].
  - apply is_nil_spec in En. tauto.
  - assert (Hne : cpus <> []) by (by rewrite <-is_nil_spec, En).
    rewrite !if_false_else, !negb_false_iff, !Nat.eqb_eq, unique_count_NoDup, Z.ltb_ge,
      min_element_nonneg by done. unfold cpus_valid. tauto.
Qed.

Lemma validate_pipeline_spec c :
  config_typed c ->
  validate_pipeline c = true <->
  1 <= max_total_frags (reassembly c) <= 1024 /\
  1 <= max_reasm_bytes_per_key (reassembly c) /\ 1 <= window_size (reorder c) /\
  1 <= rto_ms (control_reliability c) <= 60000 /\ 1 <= max_retry (control_reliability c) <= 10 /\
  1 <= dup_cmd_cache_size (control_reliability c) <= 100000 /\
  low_watermark (flow_control c) <= high_watermark (flow_control c) /\
  high_watermark (flow_control c) <= max_buffer_size (flow_control c) /\
  (policy (flow_control c) = "DROP_OLDEST" \/ policy (flow_control c) = "REJECT_NEW") /\
  numa_node (performance c) = 1 /\
  (exists k, 6 <= k /\ reassembler_cache_align_bytes (performance c) = 2 ^ k) /\
  1 <= rma_session_timeout_ms (performance c) <= 300000 /\
  1 <= heartbeat_max_queue_depth (performance c) <= 100000 /\
  32 <= packet_pool_mb_per_face (performance c) <= 512 /\
  1 <= recv_drain_rounds (performance c) <= 16.
Proof.
  intros Ht. destruct Ht. unfold in_range in *. unfold validate_pipeline. cbn zeta.
  rewrite !if_false_else, !between_check, !nonzero_check, range_check, policy_check, align_check,
    !Z.ltb_ge, negb_false_iff, Z.eqb_eq by (unfold in_range; lia). tauto.
Qed.

Lemma validate_outputs_spec c :
  config_typed c ->
  validate_outputs c = true <->
  1 <= reconnect_interval_ms (delivery c) /\ 1 <= max_files (capture c) /\
  (capture_enabled (capture c) = true -> spool_dir (capture c) <> EmptyString) /\
  1 <= archive_max_files (capture c) <= 100000 /\
  1 <= spool_low_watermark_pct (capture c) <= 99 /\
  1 <= archive_low_watermark_pct (capture c) <= 99 /\
  1 <= archive_max_age_days (capture c) <= 3650 /\
  1 <= rawcpi_q_capacity (queue c) <= 1024 /\ 1 <= rawcpi_q_slot_size_mb (queue c) <= 16 /\
  1 <= stats_interval_ms (consumer c) <= 60000 /\
  (write_to_file (consumer c) = true -> output_dir (consumer c) <> EmptyString).
Proof.
  intros Ht. destruct Ht. unfold in_range in *. unfold validate_outputs. cbn zeta.
  rewrite !if_false_else, !between_check, !nonzero_check, !directory_check by lia. tauto.
Qed.

Lemma validate_spec c : config_typed c -> validate c = true <-> config_valid c.
Proof.
  intros Ht. unfold validate. rewrite !if_false_else, !negb_false_iff.
  rewrite validate_network_spec, validate_pipeline_spec, validate_processing_cpus_spec,
    validate_outputs_spec by done.
  split.
  - intros (? & ? & ? & ?). destruct_and!. by constructor.
  - intros []. destruct_and!. by split_and!.
Qed.

(** ** What the loader produces *)

Section LoadLemmas.

Context `{Yaml}.

Lemma bind_Ok {A B} (f : A -> result B) m y : (m ≫= f) = Ok y <-> exists x, m = Ok x /\ f x = Ok y.
Proof. destruct m; cbn; naive_solver. Qed.

Lemma assign_typed w node key target x :
  in_range w target -> assign_if_present (as_uint w) node key target = Ok x -> in_range w x.
Proof.
  unfold assign_if_present. intros Ht. rewrite bind_Ok. intros ([v|] & _ & Hv); [|by injection Hv as <-].
  unfold yaml in Hv. destruct (as_uint w v) eqn:E; [|done]. injection Hv as <-. by apply as_uint_range in E.
Qed.

Lemma assign_u8_typed node key target x :
  is_u8 target -> assign_hex_or_decimal_u8 node key target = Ok x -> is_u8 x.
Proof.
  unfold assign_hex_or_decimal_u8. intros Ht. rewrite bind_Ok. intros ([v|] & _ & Hv); [|by injection Hv as <-].
  unfold parse_u8 in Hv. apply bind_Ok in Hv as (t & _ & Hv). destruct (stoul t); [|done].
  injection Hv as <-. wrap_lia.
Qed.

(** Splits the monadic sequences of the loader. *)
Ltac split_binds :=
  repeat match goal with
  | Hb : (_ ≫= _) = Ok _ |- _ => apply bind_Ok in Hb as (? & ? & Hb)
  | Hb : Ok _ = Ok _ |- _ => injection Hb as <-
  end.

Lemma read_config_typed fs file c : read_config fs file = Ok c -> config_typed c.
Proof.
  unfold read_config. intros Hc. split_binds.
  unfold load_network, load_reassembly, load_reorder, load_control_reliability, load_performance,
    load_delivery, load_capture, load_queue, load_consumer, as_u16, as_u32, as_size in *.
  cbn zeta in *. split_binds.
  constructor; cbn [network reassembly reorder control_reliability performance delivery capture
    queue consumer listen_port local_device_id reasm_timeout_ms max_contexts max_total_frags
    sample_count_fixed max_reasm_bytes_per_key window_size rto_ms max_retry dup_cmd_cache_size
    reassembler_cache_align_bytes rma_session_timeout_ms heartbeat_max_queue_depth recv_drain_rounds
    reconnect_interval_ms max_file_size_mb max_files archive_max_files spool_low_watermark_pct
    archive_low_watermark_pct archive_max_age_days rawcpi_q_capacity rawcpi_q_slot_size_mb
    stats_interval_ms];
  match goal with
  | Ha : assign_if_present (as_uint ?w) _ _ _ = Ok ?x |- in_range ?w ?x =>
    revert Ha; apply assign_typed; vm_compute; split; congruence
  | Ha : assign_hex_or_decimal_u8 _ _ _ = Ok ?x |- in_range 8 ?x =>
    revert Ha; apply assign_u8_typed; vm_compute; split; congruence
  end.
Qed.

End LoadLemmas.

(** ** Sequences of calls *)

Section Trace.

Context `{Yaml}.

(** Each load sees the files as they are at that time. *)
Inductive ConfigOp :=
  | LoadFromFile (fs : string -> option Node) (file : string)
  | Reload (fs : string -> option Node)
  | RegisterCallback.

Definition config_step (m : ConfigManager) (op : ConfigOp) : ConfigManager :=
  match op with
  | LoadFromFile fs file => (load_from_file fs file m).2
  | Reload fs => (reload fs m).2
  | RegisterCallback => register_reload_callback m
  end.

Definition config_run (ops : list ConfigOp) : ConfigManager := fold_left config_step ops ConfigManager_init.

Definition manager_inv (m : ConfigManager) : Prop :=
  config_valid (current_config m) /\
  Forall (fun x => (x.1 < callbacks m)%nat /\ config_valid x.2) (callback_log m).

Lemma load_from_file_cases fs file m :
  let '(o, m') := load_from_file fs file m in
  (o = Returned true /\ exists cfg, read_config fs file = Ok cfg /\ config_valid cfg /\
     m' = mkConfigManager cfg file (callbacks m) (callback_log m)) \/
  (o <> Returned true /\ m' = m).
Proof.
  unfold load_from_file. destruct (read_config fs file) as [cfg| |] eqn:E; [|by right..].
  destruct (validate cfg) eqn:Ev; cbn [negb]; [left|by right].
  split; [done|]. exists cfg. split_and!; [done| |done].
  apply validate_spec; [by eapply read_config_typed|done].
Qed.

Lemma load_from_file_inv fs file m : manager_inv m -> manager_inv (load_from_file fs file m).2.
Proof.
  intros [Hc Hl]. pose proof (load_from_file_cases fs file m) as Hl'.
  destruct (load_from_file fs file m) as [o m']. destruct Hl' as [(_ & cfg & _ & Hv & ->)|(_ & ->)]; by split.
Qed.

Lemma reload_inv fs m : manager_inv m -> manager_inv (reload fs m).2.
Proof.
  intros Hm. unfold reload. destruct (is_empty _); [done|].
  pose proof (load_from_file_inv fs (config_file_path m) m Hm) as Hm'.
  destruct (load_from_file _ _ m) as [[[]|] m']; [|done..]. destruct Hm' as [Hc Hl]. split; [done|].
  cbn [callback_log callbacks snd]. apply Forall_app. split; [done|].
  apply list.Forall_forall. intros x (i & -> & Hi)%list_elem_of_fmap. cbn.
  apply elem_of_seq in Hi. split; [lia|done].
Qed.

Lemma default_typed : config_typed ReceiverConfig_default.
Proof. constructor; vm_compute; split; congruence. Qed.

Lemma config_run_inv ops : manager_inv (config_run ops).
Proof.
  unfold config_run.
  assert (Hi : manager_inv ConfigManager_init).
  { split; [|apply Forall_nil_2]. apply validate_spec; [apply default_typed|vm_compute; reflexivity]. }
  revert Hi. generalize ConfigManager_init. induction ops as [|op ops IH]; intros m Hm; [done|].
  apply IH. destruct op; cbn [config_step].
  - by apply load_from_file_inv.
  - by apply reload_inv.
  - destruct Hm as [Hc Hl]. split; [done|]. cbn [callbacks register_reload_callback callback_log].
    eapply Forall_impl; [exact Hl|]. cbn. intros [] []. split; [lia|done].
Qed.

End Trace.

(** ** Theorems *)

(** Validation is exact.  On a configuration whose fields are in the range of
    their C++ types, [validate] accepts exactly the configurations that satisfy
    the documented constraints: either no array face or three complete ones with
    distinct addresses and cores and the source ids 0x11 to 0x13 in some order,
    every limit in its interval, watermarks in order, and a cache alignment that
    is a power of two of at least 64 bytes. *)
Theorem config_validate_exact (c : ReceiverConfig) (Ht : config_typed c) :
  validate c = true <-> config_valid c.
Proof. by apply validate_spec. Qed.

Lemma config_validate_exact_witness : config_valid ReceiverConfig_default.
Proof. apply (config_validate_exact _ default_typed). vm_compute. reflexivity. Defined.

(** C33: the current configuration is always valid.  After any sequence of loads,
    reloads and registrations, with any file contents, the configuration in use
    satisfies the constraints and every registered callback has only ever seen
    valid configurations.  A further load replaces the configuration by the one
    read exactly when it returns true, and changes nothing otherwise, also when
    it throws. *)
Theorem config_always_valid `{Yaml} (ops : list ConfigOp) (fs : string -> option Node) (file : string) :
  let m := config_run ops in
  config_valid (get_config m) /\
  Forall (fun x => (x.1 < callbacks m)%nat /\ config_valid x.2) (callback_log m) /\
  let '(o, m') := load_from_file fs file m in
  (o = Returned true /\ exists cfg, read_config fs file = Ok cfg /\ config_valid cfg /\
     get_config m' = cfg /\ config_file_path m' = file) \/
  (o <> Returned true /\ m' = m).
Proof.
  cbn zeta. destruct (config_run_inv ops) as [Hc Hl]. split_and!; [done..|].
  pose proof (load_from_file_cases fs file (config_run ops)) as Hcases.
  destruct (load_from_file fs file (config_run ops)) as [o m'].
  destruct Hcases as [(-> & cfg & Hr & Hv & ->)|[Ho ->]]; [left|by right].
  split; [done|]. by exists cfg.
Qed.

(** A YAML tree: scalars, sequences and maps. *)
Inductive tree := Scalar (s : string) | Seq (l : list tree) | Map (l : list (string * tree)).

Definition tree_uint (w : Z) (t : tree) : option Z :=
  match t with
  | Scalar s => v ← stoul s; if (0 <=? v) && (v <? 2 ^ w) then Some v else None
  | _ => None
  end.

Lemma tree_uint_range w t x : tree_uint w t = Some x -> in_range w x.
Proof.
  destruct t as [s| |]; cbn; [|done..]. destruct (stoul s) as [v|]; cbn; [|done].
  destruct (Z.leb_spec 0 v), (Z.ltb_spec v (2 ^ w)); cbn; intros [= <-]. done.
Qed.

#[refine] Instance tree_yaml : Yaml := {
  Node := tree;
  subscript t k := match t with
                   | Map l => Some (snd <$> (list_find (fun x => x.1 = k) l ≫= fun x => Some x.2))
                   | Seq _ => Some None
                   | Scalar _ => None
                   end;
  IsScalar t := match t with Scalar _ => true | _ => false end;
  IsSequence t := match t with Seq _ => true | _ => false end;
  elements t := match t with Seq l => l | _ => [] end;
  as_uint := tree_uint;
  as_int := tree_uint 31;
  as_bool t := match t with
               | Scalar s => if bool_decide (s = "true") then Some true
                             else if bool_decide (s = "false") then Some false else None
               | _ => None
               end;
  as_string t := match t with Scalar s => Some s | _ => None end;
}.
Proof. exact tree_uint_range. Defined.

Lemma config_always_valid_witness :
  let file := Map [("reorder", Map [("window_size", Scalar "256")])] in
  let fs (_ : string) := Some file in
  let ops := [RegisterCallback; LoadFromFile (H := tree_yaml) fs "a.yaml"; Reload fs] in
  let m := config_run ops in
  config_valid (get_config m) /\ window_size (reorder (get_config m)) = 256 /\
  length (callback_log m) = 1%nat.
Proof.
  intros file fs ops m.
  destruct (config_always_valid (H := tree_yaml) ops fs "a.yaml") as (Hv & _). split; [exact Hv|]. split; vm_compute; reflexivity.
Defined.

(** How the device id is read.  For a file that only sets
    [network.local_device_id], with a text that is no number for [std::stoul] the
    load does not return false but lets the exception escape; any other text is
    accepted, and reduced modulo 256 instead of being checked for its range. *)
Theorem device_id_parsing `{Yaml} (fs : string -> option Node) (file text : string) (m : ConfigManager)
    (root net v : Node)
    (Hroot : fs file = Some root)
    (Hnet : subscript root "network" = Some (Some net))
    (Hrest : forall k, k <> "network" -> subscript root k = Some None)
    (Hid : subscript net "local_device_id" = Some (Some v))
    (Hother : forall k, k <> "local_device_id" -> subscript net k = Some None)
    (Htext : as_string v = Some text) :
  match stoul text with
  | None => load_from_file fs file m = (Thrown, m)
  | Some n => exists m', load_from_file fs file m = (Returned true, m') /\
                local_device_id (network (get_config m')) = u8 n
  end.
Proof.
  assert (Hn : load_network root =
    match stoul text with
    | None => StdException
    | Some n => Ok (mkNetwork 9999 [] "0.0.0.0" EmptyString (u8 n) 8 64 256 true false [] [] true)
    end).
  { unfold load_network. rewrite Hnet. cbn [yaml mbind result_bind].
    unfold assign_if_present, assign_sequence_if_present, assign_hex_or_decimal_u8,
      assign_hex_or_decimal_u8_vector, child.
    rewrite Hid, !Hother by done. cbn [yaml mbind result_bind]. unfold parse_u8. rewrite Htext.
    cbn [yaml mbind result_bind]. by destruct (stoul text). }
  unfold load_from_file, read_config. rewrite Hroot. cbn [yaml mbind result_bind]. rewrite Hn.
  destruct (stoul text) as [n|]; [|done]. cbn [mbind result_bind].
  unfold load_reassembly, load_reorder, load_timestamp, load_control_reliability, load_flow_control,
    load_logging, load_monitoring, load_performance, load_delivery, load_capture, load_queue,
    load_consumer, assign_if_present, assign_sequence_if_present, assign_hex_or_decimal_u8_vector, child.
  rewrite !Hrest by done. eexists. split; [vm_compute; reflexivity|reflexivity].
Qed.

(** 257 becomes device 1. *)
Lemma device_id_parsing_witness :
  let file := Map [("network", Map [("local_device_id", Scalar "257")])] in
  let fs (_ : string) := Some file in
  exists m', load_from_file (H := tree_yaml) fs "a.yaml" ConfigManager_init = (Returned true, m') /\
    local_device_id (network (get_config m')) = 1.
Proof.
  intros file fs.
  destruct (device_id_parsing (H := tree_yaml) fs "a.yaml" "257" ConfigManager_init file
    (Map [("local_device_id", Scalar "257")]) (Scalar "257")) as (m' & E & Hid).
  - reflexivity.
  - reflexivity.
  - intros k Hk. cbn. rewrite decide_False by congruence. reflexivity.
  - reflexivity.
  - intros k Hk. cbn. rewrite decide_False by congruence. reflexivity.
  - reflexivity.
  - exists m'. split; [exact E|]. rewrite Hid. reflexivity.
Defined.

End Config.
