(* ===== verification/Control.v ===== *)
(** The control plane ([src/common/system_state.cpp], [src/control]): the system
    state machine with its transition table, the event dispatcher, the
    orchestrator of the modules, the command bridge, the runtime monitor and the
    boot checker.  Calls into code that is registered from outside (callbacks,
    handlers, module functions) are entries of a log; such code is taken not to
    call back into the control plane. *)

From stdpp Require Import strings.
From S2P Require Import Prelude.
Open Scope Z_scope.

Module Control.

(** ** [system_state.h], [system_state.cpp] *)

Inductive SystemState := Init | Standby | Running | Degraded | Fault.

Inductive EventDomain :=
  | BootHealth | Warmup | TrackDataGap | GpuTimeout | QueueOverflow | TimeSyncLoss
  | SensorMissing | MemoryExhausted | ManualCommand | Recovery.

Inductive Severity := SEV_3 | SEV_2 | SEV_1.

#[export] Instance SystemState_eq_dec : EqDecision SystemState.
Proof. solve_decision. Defined.

(** A rule; its description is documentation only. *)
Record StateTransition := mkStateTransition {
  from : SystemState;
  event : EventDomain;
  severity : Severity;
  to : SystemState;
}.

Definition TRANSITION_TABLE : list StateTransition :=
  [mkStateTransition Init BootHealth SEV_3 Standby;
   mkStateTransition Init BootHealth SEV_1 Fault;
   mkStateTransition Standby Warmup SEV_3 Running;
   mkStateTransition Running TrackDataGap SEV_2 Degraded;
   mkStateTransition Running GpuTimeout SEV_2 Degraded;
   mkStateTransition Running QueueOverflow SEV_2 Degraded;
   mkStateTransition Running TimeSyncLoss SEV_2 Degraded;
   mkStateTransition Running SensorMissing SEV_2 Degraded;
   mkStateTransition Running MemoryExhausted SEV_1 Fault;
   mkStateTransition Running ManualCommand SEV_3 Fault;
   mkStateTransition Degraded Recovery SEV_3 Running;
   mkStateTransition Degraded TrackDataGap SEV_1 Fault;
   mkStateTransition Degraded SensorMissing SEV_1 Fault;
   mkStateTransition Degraded MemoryExhausted SEV_1 Fault;
   mkStateTransition Degraded ManualCommand SEV_3 Fault;
   mkStateTransition Fault ManualCommand SEV_3 Init;
   mkStateTransition Fault ManualCommand SEV_3 Standby].

Definition TRANSITION_TABLE_SIZE : nat := length TRANSITION_TABLE.

Definition is_transition_allowed (f t : SystemState) : bool :=
  if bool_decide (t = Fault) then true
  else existsb (fun r => bool_decide (from r = f) && bool_decide (to r = t)) TRANSITION_TABLE.

(** ** Data *)

Inductive EventType := Command | StateChange | ModuleHealth | MetricAlert | ConfigUpdate.

#[export] Instance EventType_eq_dec : EqDecision EventType.
Proof. solve_decision. Defined.

Record Event := mkEvent { ev_type : EventType; ev_payload : string }.

(** The calls made, oldest first. *)
Inductive Call :=
  | TransitionCallback (callback : nat) (f t : SystemState) (reason : string)
  | EventHandler (handler : nat) (e : Event)
  | ModuleStart (module_idx : nat) (ok : bool)
  | ModuleStop (module_idx : nat).

Record StateMachine := mkStateMachine { current_ : SystemState; callbacks_ : list nat }.

(** The handlers of each event type, in order of subscription. *)
Record EventDispatcher := mkEventDispatcher { handlers_ : EventType -> list nat }.

(** A registered module: whether it has a [start] and a [stop] function; the
    result of the [n]-th call of [start]. *)
Record ModuleHandle := mkModuleHandle {
  name : string;
  start_fn : option (nat -> bool);
  has_stop : bool;
}.

(** The control plane with the log; [now] counts the calls logged before, which
    an external [start] function may depend on. *)
Record ControlPlane := mkControlPlane {
  fsm_ : StateMachine;
  events_ : EventDispatcher;
  modules_ : list ModuleHandle;
  healthy_ : bool;
  unhealthy_ms_ : Z;
  log : list Call;
}.

Definition ControlPlane_init : ControlPlane :=
  mkControlPlane (mkStateMachine Init []) (mkEventDispatcher (fun _ => [])) [] true 0 [].

Definition emit (cs : list Call) (p : ControlPlane) : ControlPlane :=
  let '(mkControlPlane f e m h u l) := p in mkControlPlane f e m h u (l ++ cs).

Definition with_fsm (f : StateMachine) (p : ControlPlane) : ControlPlane :=
  let '(mkControlPlane _ e m h u l) := p in mkControlPlane f e m h u l.

(** ** [StateMachine] *)

Definition current (p : ControlPlane) : SystemState := current_ (fsm_ p).

Definition transition (target : SystemState) (reason : string) (p : ControlPlane)
    : bool * ControlPlane :=
  if negb (is_transition_allowed (current p) target) then (false, p)
  else
    let f := current p in
    let cbs := callbacks_ (fsm_ p) in
    (true, emit ((fun cb => TransitionCallback cb f target reason) <$> cbs)
             (with_fsm (mkStateMachine target cbs) p)).

Definition on_transition (callback : nat) (p : ControlPlane) : ControlPlane :=
  with_fsm (mkStateMachine (current p) (callbacks_ (fsm_ p) ++ [callback])) p.

(** ** [EventDispatcher] *)

Definition subscribe (type : EventType) (handler : nat) (p : ControlPlane) : ControlPlane :=
  let '(mkControlPlane f e m h u l) := p in
  mkControlPlane f
    (mkEventDispatcher (fun t => if decide (t = type) then handlers_ e t ++ [handler] else handlers_ e t))
    m h u l.

Definition publish (e : Event) (p : ControlPlane) : ControlPlane :=
  emit ((fun hd => EventHandler hd e) <$> handlers_ (events_ p) (ev_type e)) p.

(** ** [Orchestrator] *)

Definition register_module (handle : ModuleHandle) (p : ControlPlane) : ControlPlane :=
  let '(mkControlPlane f e m h u l) := p in mkControlPlane f e (m ++ [handle]) h u l.

Definition boot (p : ControlPlane) : bool * ControlPlane :=
  transition Standby "boot completed" (publish (mkEvent StateChange "boot") p).

(** The loop of [start]: the modules in order, up to the first that fails. *)
Fixpoint start_modules (i : nat) (ms : list ModuleHandle) (p : ControlPlane) : bool * ControlPlane :=
  match ms with
  | [] => (true, p)
  | m :: ms =>
    match start_fn m with
    | None => start_modules (S i) ms p
    | Some f =>
      let ok := f (length (log p)) in
      let p := emit [ModuleStart i ok] p in
      if ok then start_modules (S i) ms p else (false, p)
    end
  end.

Definition start (p : ControlPlane) : bool * ControlPlane :=
  let '(ok, p) := start_modules 0 (modules_ p) p in
  if negb ok then (false, p)
  else transition Running "start command" (publish (mkEvent Command "start") p).

(** The modules in reverse order. *)
Definition stop_calls (ms : list ModuleHandle) : list Call :=
  ModuleStop <$> reverse ((fun x => x.1) <$> filter (fun x => has_stop x.2 = true) (imap pair ms)).

Definition stop (p : ControlPlane) : ControlPlane :=
  let p := emit (stop_calls (modules_ p)) p in
  (transition Standby "stop command" (publish (mkEvent Command "stop") p)).2.

Definition reset (p : ControlPlane) : bool * ControlPlane :=
  transition Init "reset command" (stop p).

Definition module_count (p : ControlPlane) : nat := length (modules_ p).

(** ** [CommandBridge] *)

Inductive ErrorCode := OK | ORC_INVALID_TRANSITION | ORC_EVENT_THROTTLED.

Record CommandAck := mkCommandAck { success : bool; error_code : ErrorCode; message : string }.

Definition handle (command : string) (p : ControlPlane) : CommandAck * ControlPlane :=
  if bool_decide (command = "START") then
    let '(ok, p) := start p in
    (if ok then mkCommandAck true OK "started"
     else mkCommandAck false ORC_INVALID_TRANSITION "start rejected", p)
  else if bool_decide (command = "STOP") then (mkCommandAck true OK "stopped", stop p)
  else if bool_decide (command = "RESET") then
    let '(ok, p) := reset p in
    (if ok then mkCommandAck true OK "reset"
     else mkCommandAck false ORC_INVALID_TRANSITION "reset rejected", p)
  else if bool_decide (command = "QUERY_STATE") then (mkCommandAck true OK "query accepted", p)
  else (mkCommandAck false ORC_EVENT_THROTTLED "unsupported command", p).

(** ** [RuntimeMonitor] *)

Definition T1_DEGRADED_MS : Z := 500.

Definition T2_FAULT_MS : Z := 2000.

Definition report_health (healthy : bool) (unhealthy_ms : Z) (p : ControlPlane) : ControlPlane :=
  let '(mkControlPlane f e m _ _ l) := p in mkControlPlane f e m healthy unhealthy_ms l.

Definition tick (p : ControlPlane) : ControlPlane :=
  if healthy_ p then
    if bool_decide (current p = Degraded) then (transition Running "runtime recovered" p).2 else p
  else if T2_FAULT_MS <=? unhealthy_ms_ p then
    (transition Fault "runtime unhealthy beyond fault threshold" p).2
  else if (T1_DEGRADED_MS <=? unhealthy_ms_ p) && bool_decide (current p = Running) then
    (transition Degraded "runtime unhealthy beyond degraded threshold" p).2
  else p.

(** ** [BootChecker] *)

Record CheckResult := mkCheckResult { check_name : string; passed : bool; detail : string }.

Record BootChecker := mkBootChecker { checks_ : list (unit -> CheckResult); all_passed_ : bool }.

Definition BootChecker_init : BootChecker := mkBootChecker [] false.

Definition add_check (check : unit -> CheckResult) (b : BootChecker) : BootChecker :=
  mkBootChecker (checks_ b ++ [check]) (all_passed_ b).

Fixpoint run_checks (checks : list (unit -> CheckResult)) (all_passed : bool)
    : list CheckResult * bool :=
  match checks with
  | [] => ([], all_passed)
  | check :: checks =>
    let result := check tt in
    let '(results, all_passed) := run_checks checks (all_passed && passed result) in
    (result :: results, all_passed)
  end.

Definition run_all (b : BootChecker) : list CheckResult * BootChecker :=
  let '(results, ok) := run_checks (checks_ b) true in (results, mkBootChecker (checks_ b) ok).

(** ** Sequences of operations *)

Inductive Op :=
  | Boot | Start | Stop | Reset | Handle (command : string)
  | ReportHealth (healthy : bool) (unhealthy_ms : Z) | Tick
  | OnTransition (callback : nat) | Subscribe (type : EventType) (handler : nat)
  | RegisterModule (m : ModuleHandle)
  | Transition (target : SystemState) (reason : string) | Publish (e : Event).

Definition step (p : ControlPlane) (op : Op) : ControlPlane :=
  match op with
  | Boot => (boot p).2
  | Start => (start p).2
  | Stop => stop p
  | Reset => (reset p).2
  | Handle c => (handle c p).2
  | ReportHealth h ms => report_health h ms p
  | Tick => tick p
  | OnTransition cb => on_transition cb p
  | Subscribe t h => subscribe t h p
  | RegisterModule m => register_module m p
  | Transition target reason => (transition target reason p).2
  | Publish e => publish e p
  end.

(** ** Specification *)

(** The legal moves. *)
Inductive move : SystemState -> SystemState -> Prop :=
  | move_boot : move Init Standby
  | move_standby : move Fault Standby
  | move_start : move Standby Running
  | move_recover : move Degraded Running
  | move_degrade : move Running Degraded
  | move_reset : move Fault Init
  | move_fault s : move s Fault.

(** The moves one callback was told. *)
Definition told (cb : nat) (c : Call) : option (SystemState * SystemState) :=
  match c with
  | TransitionCallback cb' f t _ => if decide (cb' = cb) then Some (f, t) else None
  | _ => None
  end.

(** A list of moves leading from one state to another. *)
Fixpoint path (s : SystemState) (l : list (SystemState * SystemState)) (t : SystemState) : Prop :=
  match l with
  | [] => s = t
  | (a, b) :: l => a = s /\ move a b /\ path b l t
  end.

(** ** Lemmas *)

Lemma allowed_spec f t :
  is_transition_allowed f t = true <-> move f t.
Proof.
  split.
  - destruct f, t; vm_compute; intros H; try discriminate H; constructor.
  - intros []; try reflexivity; by destruct s.
Qed.

Lemma path_snoc s l t u : path s l t -> move t u -> path s (l ++ [(t, u)]) u.
Proof.
  revert s. induction l as [|[a b] l IH]; intros s; cbn; [by intros -> ?|].
  intros (-> & Hm & Hp) Hu. split_and!; [done..|]. by apply IH.
Qed.

Lemma emit_proj cs p :
  fsm_ (emit cs p) = fsm_ p /\ events_ (emit cs p) = events_ p /\ modules_ (emit cs p) = modules_ p /\
  log (emit cs p) = log p ++ cs.
Proof. by destruct p. Qed.

(** Entries that tell callback [cb] nothing. *)
Definition silent (cb : nat) (cs : list Call) : Prop := omap (told cb) cs = [].

Lemma silent_fmap {A} cb (f : A -> Call) (l : list A) :
  (forall x, told cb (f x) = None) -> silent cb (f <$> l).
Proof. intros Hf. unfold silent. induction l as [|x l IH]; [done|]. cbn. by rewrite Hf. Qed.

(** The observer [cb] is registered once, and was told a path to the current
    state; under the condition [stays] the path does not come back to Init. *)
Record observed (stays : Prop) (cb : nat) (p : ControlPlane) : Prop := {
  ob_once : filter (fun c => c = cb) (callbacks_ (fsm_ p)) = [cb];
  ob_path : path Init (omap (told cb) (log p)) (current p);
  ob_stays : stays -> Init ∉ (omap (told cb) (log p)).*2;
}.

Lemma observed_emit stays cb cs p : silent cb cs -> observed stays cb p -> observed stays cb (emit cs p).
Proof.
  intros Hs [Ho Hp Hi]. destruct (emit_proj cs p) as (Hf & _ & _ & Hl).
  split; unfold current in *; rewrite ?Hf, ?Hl, ?omap_app, ?Hs, ?app_nil_r; done.
Qed.

Lemma told_callbacks cb f t r (cbs : list nat) :
  omap (told cb) ((fun c => TransitionCallback c f t r) <$> cbs) =
  (fun _ => (f, t)) <$> filter (fun c => c = cb) cbs.
Proof.
  induction cbs as [|c cbs IH]; [done|]. rewrite filter_cons. cbn. rewrite IH.
  by destruct (decide (c = cb)).
Qed.

Lemma observed_transition stays cb target reason p :
  (stays -> target <> Init) -> observed stays cb p -> observed stays cb (transition target reason p).2.
Proof.
  intros Hni [Ho Hp Hi]. unfold transition.
  destruct (is_transition_allowed (current p) target) eqn:Ea; cbn [negb snd]; [|by split].
  apply allowed_spec in Ea. destruct p as [[s cbs] e m h u l]. unfold current in *. cbn in *.
  split; cbn; rewrite ?omap_app, ?told_callbacks, ?Ho; cbn; [done|by apply path_snoc|].
  intros Hst. specialize (Hi Hst). specialize (Hni Hst). rewrite fmap_app. set_solver.
Qed.

Lemma observed_publish stays cb e p : observed stays cb p -> observed stays cb (publish e p).
Proof. intros Hp. apply observed_emit; [|done]. by apply silent_fmap. Qed.

Lemma observed_start_modules stays cb ms : forall i p,
  observed stays cb p -> observed stays cb (start_modules i ms p).2.
Proof.
  induction ms as [|m ms IH]; intros i p Hp; cbn [start_modules]; [done|].
  destruct (start_fn m) as [f|]; [|by apply IH]. cbn zeta.
  assert (Hp' : observed stays cb (emit [ModuleStart i (f (length (log p)))] p)) by (by apply observed_emit).
  destruct (f (length (log p))); [by apply IH|done].
Qed.

Lemma observed_start stays cb p : observed stays cb p -> observed stays cb (start p).2.
Proof.
  intros Hp. unfold start. pose proof (observed_start_modules stays cb (modules_ p) 0 p Hp) as Hs.
  destruct (start_modules 0 (modules_ p) p) as [[] p']; cbn [negb snd]; [|done].
  apply observed_transition; [done|]. by apply observed_publish.
Qed.

Lemma observed_stop stays cb p : observed stays cb p -> observed stays cb (stop p).
Proof.
  intros Hp. unfold stop. apply observed_transition; [done|]. apply observed_publish.
  apply observed_emit; [|done]. by apply silent_fmap.
Qed.

(** After [stop] the state is not Fault: Fault moves to Standby. *)
Lemma current_stop p :
  current (stop p) = match current p with Init | Fault => Standby | s => s end.
Proof. destruct p as [[s cbs] e m h u l]. by destruct s. Qed.

Lemma reset_false p : reset p = (false, stop p).
Proof.
  unfold reset, transition. pose proof (current_stop p) as Hs.
  by destruct (current p); rewrite Hs.
Qed.

Lemma observed_step (stays : Prop) cb p op :
  (forall c, op = OnTransition c -> c <> cb) -> (stays -> forall reason, op <> Transition Init reason) ->
  observed stays cb p -> observed stays cb (step p op).
Proof.
  intros Hop Hni Hp. destruct op as [| | | |c|h ms| |c|t h|m|target reason|e]; cbn [step].
  - apply observed_transition; [done|]. by apply observed_publish.
  - by apply observed_start.
  - by apply observed_stop.
  - rewrite reset_false. by apply observed_stop.
  - unfold handle. repeat case_bool_decide; cbn [snd]; try done.
    + pose proof (observed_start stays cb p Hp) as Hs. by destruct (start p) as [[] ?].
    + by apply observed_stop.
    + rewrite reset_false. by apply observed_stop.
  - destruct p. by destruct Hp.
  - unfold tick. repeat case_match; cbn [snd]; try done; by apply observed_transition.
  - destruct p as [[s cbs] e m h u l], Hp as [Ho Hp Hi]. split; [|done|done]. cbn in *.
    rewrite list.filter_app, Ho, filter_cons_False by (by apply Hop). done.
  - destruct p. by destruct Hp.
  - destruct p. by destruct Hp.
  - apply observed_transition; [|done]. intros Hs ->. by apply (Hni Hs reason).
  - by apply observed_publish.
Qed.

(** ** Theorems *)

(** C34: the system only makes legal moves.  After any sequence of operations of the control
    plane (transitions requested directly, boots, starts,
    stops, resets, commands, health reports, ticks, events), with any modules, handlers
    and further callbacks, none of which calls back, the first transition callback has been told exactly a
    path of legal moves from Init to the current state: Standby is entered only
    from Init or Fault, Running only from Standby or Degraded, Degraded only from
    Running, Init only from Fault, and Fault from everywhere.  Init is entered again only if a
    transition to it is requested directly: [reset] and RESET do not lead there.  A request is granted
    exactly if it is a legal move. *)
Theorem control_transitions_legal (cb : nat) (ops : list Op)
    (Hops : Forall (fun op => forall c, op = OnTransition c -> c <> cb) ops) :
  let p := fold_left step ops (on_transition cb ControlPlane_init) in
  path Init (omap (told cb) (log p)) (current p) /\
  (Forall (fun op => forall reason, op <> Transition Init reason) ops -> Init ∉ (omap (told cb) (log p)).*2) /\
  forall target reason, (transition target reason p).1 = true <-> move (current p) target.
Proof.
  set (stays := Forall (fun op => forall reason, op <> Transition Init reason) ops). intros p.
  assert (Hp : observed stays cb p).
  { assert (Hi : observed stays cb (on_transition cb ControlPlane_init)).
    { split; [|done|]; cbn; [by rewrite decide_True|intros _; apply not_elem_of_nil]. }
    assert (Hs : stays -> Forall (fun op => forall reason, op <> Transition Init reason) ops) by done.
    subst p. clearbody stays. revert Hi. generalize (on_transition cb ControlPlane_init).
    induction Hops as [|op ops Hop _ IH]; intros p Hp; cbn [fold_left]; [apply Hp|].
    apply IH; [by intros [_ ?]%Hs%Forall_cons|]. apply observed_step; [done| |done]. by intros [? _]%Hs%Forall_cons. }
  split_and!; [apply Hp|apply Hp|]. intros target reason. rewrite <-allowed_spec. unfold transition.
  by destruct (is_transition_allowed (current p) target).
Qed.

(** Boot, start, two seconds without data, STOP: Init, Standby, Running, Fault,
    Standby; then a fault and the way back to Init. *)
Lemma control_transitions_legal_witness :
  let ops := [Boot; Handle "START"; ReportHealth false 2000; Tick; Handle "STOP"; Tick; Transition Init "manual"] in
  let p := fold_left step ops (on_transition 0 ControlPlane_init) in
  current p = Init /\
  path Init [(Init, Standby); (Standby, Running); (Running, Fault); (Fault, Standby); (Standby, Fault); (Fault, Init)] (current p).
Proof.
  intros ops p. split; [vm_compute; reflexivity|].
  exact (proj1 (control_transitions_legal 0 ops
    ltac:(repeat (apply Forall_cons_2; [discriminate|]); apply Forall_nil_2))).
Defined.

(** RESET never succeeds and STOP does not stop a running system.  In every
    state [reset] returns false: its call of [stop] leaves Fault, the only state
    from which Init may be entered.  In Running and Degraded the STOP command is
    acknowledged as a success and every module is stopped, in reverse order, but
    the state does not change. *)
Theorem reset_and_stop_ineffective (p : ControlPlane) :
  (reset p).1 = false /\
  (handle "RESET" p).1 = mkCommandAck false ORC_INVALID_TRANSITION "reset rejected" /\
  (current p = Running \/ current p = Degraded ->
   (handle "STOP" p).1 = mkCommandAck true OK "stopped" /\
   current (handle "STOP" p).2 = current p /\
   exists published, log (handle "STOP" p).2 = log p ++ stop_calls (modules_ p) ++ published).
Proof.
  split; [by rewrite reset_false|].
  split; [unfold handle; cbn [bool_decide decide]; by rewrite reset_false|].
  intros Hc. split_and!; [done|..].
  - change (handle "STOP" p).2 with (stop p). rewrite current_stop. by destruct Hc as [-> | ->].
  - change (handle "STOP" p).2 with (stop p).
    destruct p as [[s cbs] e m h u l]. unfold current in Hc. cbn in Hc.
    destruct Hc as [-> | ->]; eexists; unfold stop, transition, publish, current; cbn; by rewrite <-app_assoc.
Qed.

(** A module that has both functions, started and then stopped. *)
Lemma reset_and_stop_ineffective_witness :
  let m := mkModuleHandle "receiver" (Some (fun _ => true)) true in
  let p := fold_left step [RegisterModule m; Boot; Start] ControlPlane_init in
  current (handle "STOP" p).2 = Running /\ stop_calls (modules_ p) = [ModuleStop 0].
Proof.
  intros m p. destruct (reset_and_stop_ineffective p) as (_ & _ & Hs).
  destruct Hs as (_ & Hc & _); [left; vm_compute; reflexivity|].
  split; [rewrite Hc; vm_compute; reflexivity|reflexivity].
Defined.

End Control.
