(* ===== verification/FacePipeline.v ===== *)
(** The pipeline of one array face, as [app_init.cpp] wires it and [app_run.cpp]
    drives it: receive stage, dispatcher, reassembler, reorderer, output.  The
    receive thread and the processing thread meet only in the envelope queue;
    the steps of a trace are their operations, in any interleaving. *)

From S2P Require Import Prelude Protocol Validator Reassembler ReassemblerProps ReassemblerZeroCopy.
From S2P Require Import Reorderer ReordererProps ReordererLaws SpscQueue Dispatcher RxStage Config.
Open Scope Z_scope.
Import Protocol Validator Reassembler ReassemblerProps ReassemblerZeroCopy BoundedQueue.
Import RxStage.

Module FacePipeline.

(** ** Definitions *)

(** The part the processing thread owns.  [buffers] numbers the packet buffers;
    [handed] is what the frame callback has received and [delivered] what the
    output callback has received, in order. *)
Record Processing := mkProcessing {
  dispatcher : Dispatcher.Dispatcher;
  reassembler : Reassembler.Reassembler;
  reorderer : Reorderer.Reorderer;
  buffers : nat;
  handed : list ReassembledFrame;
  delivered : list Reorderer.OrderedPacket;
}.

Record FacePipeline := mkFacePipeline {
  array_id : Z;
  rx_stage : RxStage.RxStage;
  processing : Processing;
}.

Definition reorder_config (c : Config.ReceiverConfig) : Reorderer.ReorderConfig :=
  Reorderer.mkReorderConfig (Config.window_size (Config.reorder c))
    (Config.reorder_timeout_ms (Config.reorder c)) (Config.enable_zero_fill (Config.reorder c)).

Definition reasm_config (c : Config.ReceiverConfig) : ReassemblerConfig :=
  let r := Config.reassembly c in
  mkReassemblerConfig (Config.reasm_timeout_ms r) (Config.max_contexts r) (Config.max_total_frags r)
    (Config.sample_count_fixed r) (Config.max_reasm_bytes_per_key r).

(** The header the frame callback builds for the reorderer. *)
Definition frame_header (frame : ReassembledFrame) : CommonHeader :=
  mkCommonHeader PROTOCOL_MAGIC (key_frame_counter (frame_key frame)) (frame_data_timestamp frame)
    (u16 (frame_total_size frame)) (PacketType_to_u8 DATA) PROTOCOL_VERSION
    (key_source_id (frame_key frame)) 0 (key_control_epoch (frame_key frame))
    (if frame_is_complete frame then 0 else 0x01) 0 0 [0;0;0;0].

Section Face.

(** The clocks: dispatcher, reassembler, reorderer. *)
Variables (now : nat -> Z) (reasm_clock reorder_clock : nat -> Z).

(** Phase 5 of [app_init] for the face with index [face_idx]. *)
Definition build_face (c : Config.ReceiverConfig) (face_idx : nat) : FacePipeline :=
  let aid := u8 (Z.of_nat face_idx + 1) in
  let depth := Z.to_nat (Config.heartbeat_max_queue_depth (Config.performance c)) in
  mkFacePipeline aid
    (RxStage_init aid (Config.local_device_id (Config.network c)))
    (mkProcessing
       (Dispatcher.set_zero_copy_data_handler true
          (Dispatcher.set_heartbeat_max_queue_depth depth (Dispatcher.Dispatcher_init true true)))
       (Reassembler_init (reasm_config c) true)
       (Reorderer.Reorderer_init reorder_clock (reorder_config c) true) 0 [] []).

(** The frame callback: the frame goes to the reorderer, what that hands over to
    the output callback. *)
Definition on_frame (p : Processing) (frame : ReassembledFrame) : option Processing :=
  let '(mkProcessing d r ro b hs out) := p in
  '(ro, outs) ← Reorderer.insert_owned reorder_clock ro (frame_header frame)
                  (Some (frame_data frame)) (frame_total_size frame);
  Some (mkProcessing d r ro b (hs ++ [frame]) (out ++ outs)).

Fixpoint on_frames (p : Processing) (frames : list ReassembledFrame) : option Processing :=
  match frames with
  | [] => Some p
  | f :: frames => p ← on_frame p f; on_frames p frames
  end.

(** The handlers given to the dispatcher. *)
Definition apply_call (p : Processing) (c : Dispatcher.Call) : option Processing :=
  let '(mkProcessing d r ro b hs out) := p in
  match c with
  | Dispatcher.DataHandler packet =>
    '(r, evs) ← process_packet reasm_clock r packet;
    on_frames (mkProcessing d r ro b hs out) (frames_out evs)
  | Dispatcher.ZeroCopyDataHandler packet _ =>
    '(r, evs, _) ← process_packet_zero_copy reasm_clock r packet (Some b);
    on_frames (mkProcessing d r ro (S b) hs out) (frames_out evs)
  | _ => Some p
  end.

Fixpoint apply_calls (p : Processing) (cs : list Dispatcher.Call) : option Processing :=
  match cs with
  | [] => Some p
  | c :: cs => p ← apply_call p c; apply_calls p cs
  end.

Definition with_dispatcher (d : Dispatcher.Dispatcher) (p : Processing) : Processing :=
  let '(mkProcessing _ r ro b hs out) := p in mkProcessing d r ro b hs out.

(** The packet rebuilt from an envelope; [None] if the envelope has no buffer. *)
Definition packet_of (env : RxEnvelope) : ParsedPacket :=
  mkParsedPacket (env_header env)
    (drop (Z.to_nat COMMON_HEADER_SIZE) <$> packet_data env) (packet_length env).

(** The body of the processing loop for one envelope. *)
Definition process_envelope (env : RxEnvelope) (p : Processing) : option Processing :=
  match packet_data env with
  | None => None
  | Some buffer =>
    let d := dispatcher p in
    let '(d', _) := Dispatcher.dispatch_buffer (now (buffers p)) (packet_of env) buffer d in
    apply_calls (with_dispatcher d' p) (drop (length (Dispatcher.calls_ d)) (Dispatcher.calls_ d'))
  end.

(** The final drain after [processing_running] is cleared copies the payload. *)
Definition drain_envelope (env : RxEnvelope) (p : Processing) : option Processing :=
  match packet_data env with
  | None => None
  | Some _ =>
    let d := dispatcher p in
    let d' := Dispatcher.dispatch (now (buffers p)) (packet_of env) d in
    apply_calls (with_dispatcher d' p) (drop (length (Dispatcher.calls_ d)) (Dispatcher.calls_ d'))
  end.

(** The scan of the main loop for one face; [order] is the order in which the
    context map is traversed. *)
Definition check_timeouts_face (order : list ReassemblyKey) (p : Processing) : option Processing :=
  let '(mkProcessing d r ro b hs out) := p in
  '(r, evs) ← check_timeouts reasm_clock r order;
  p ← on_frames (mkProcessing d r ro b hs out) (frames_out evs);
  let '(mkProcessing d r ro b hs out) := p in
  '(ro, outs) ← Reorderer.check_timeout reorder_clock ro;
  Some (mkProcessing d r ro b hs (out ++ outs)).

(** Spurious failures of the receive stage, and its fuel. *)
Variables (fuel : nat) (spurious_push spurious_mark : nat -> bool).

Inductive FaceOp :=
  | Receive (raw : ReceivedPacket)
  | Process
  | Drain
  | Timeouts (order : list ReassemblyKey).

Definition face_step (f : FacePipeline) (op : FaceOp) : option FacePipeline :=
  let '(mkFacePipeline aid rx p) := f in
  match op with
  | Receive raw => rx ← on_packet fuel spurious_push spurious_mark raw rx; Some (mkFacePipeline aid rx p)
  | Process =>
    let '(env, rx) := pop_envelope rx in
    match env with
    | None => Some (mkFacePipeline aid rx p)
    | Some env => p ← process_envelope env p; Some (mkFacePipeline aid rx p)
    end
  | Drain =>
    let '(env, rx) := pop_envelope rx in
    match env with
    | None => Some (mkFacePipeline aid rx p)
    | Some env => p ← drain_envelope env p; Some (mkFacePipeline aid rx p)
    end
  | Timeouts order => p ← check_timeouts_face order p; Some (mkFacePipeline aid rx p)
  end.

Fixpoint face_run (f : FacePipeline) (ops : list FaceOp) : option FacePipeline :=
  match ops with
  | [] => Some f
  | op :: ops => f ← face_step f op; face_run f ops
  end.

(** The receive and processing loops without timeouts and drain. *)
Definition live (op : FaceOp) : option RxOp :=
  match op with Receive raw => Some (OnPacket raw) | Process => Some TryPop | _ => None end.

Fixpoint process_all (envs : list RxEnvelope) (p : Processing) : option Processing :=
  match envs with
  | [] => Some p
  | env :: envs => p ← process_envelope env p; process_all envs p
  end.

(** ** Lemmas *)

(** The queue decouples the two threads: the processing side sees the popped
    envelopes in order. *)
Lemma face_run_split ops rops : forall aid rx p es rx' p',
  live <$> ops = Some <$> rops ->
  run_stage fuel spurious_push spurious_mark rops rx = Some (es, rx') ->
  process_all (omap id es) p = Some p' ->
  face_run (mkFacePipeline aid rx p) ops = Some (mkFacePipeline aid rx' p').
Proof.
  revert rops. induction ops as [|op ops IH]; intros rops aid rx p es rx' p' Hl Hr Hp;
    destruct rops as [|rop rops]; try done.
  { cbn in *. injection Hr as <- <-. cbn in Hp. by injection Hp as <-. }
  cbn [fmap list_fmap] in Hl. injection Hl as Hop Hl.
  destruct op; cbn [live] in Hop; try discriminate Hop; injection Hop as <-; cbn [run_stage face_run face_step] in *.
  - destruct (on_packet fuel spurious_push spurious_mark raw rx) as [rx1|]; [|done].
    cbn [mbind option_bind] in *. by eapply IH.
  - destruct (pop_envelope rx) as [e rx1].
    destruct (run_stage _ _ _ rops rx1) as [[es1 rx2]|] eqn:Er; [|done].
    cbn [mbind option_bind] in Hr. injection Hr as <- <-. cbn [omap list_omap id] in Hp.
    destruct e as [env|]; cbn [process_all] in Hp.
    + destruct (process_envelope env p) as [p1|]; [|done]. cbn [mbind option_bind] in *. by eapply IH.
    + by eapply IH.
Qed.

(** Inserting frames one after the other. *)
Fixpoint insert_frames (ro : Reorderer.Reorderer) (fs : list ReassembledFrame)
    : option (Reorderer.Reorderer * list Reorderer.OrderedPacket) :=
  match fs with
  | [] => Some (ro, [])
  | f :: fs =>
    '(ro, outs) ← Reorderer.insert_owned reorder_clock ro (frame_header f) (Some (frame_data f))
                    (frame_total_size f);
    '(ro, outs') ← insert_frames ro fs;
    Some (ro, outs ++ outs')
  end.

Lemma on_frames_insert fs : forall d r ro b hs out,
  on_frames (mkProcessing d r ro b hs out) fs =
  '(ro, outs) ← insert_frames ro fs; Some (mkProcessing d r ro b (hs ++ fs) (out ++ outs)).
Proof.
  induction fs as [|f fs IH]; intros d r ro b hs out; cbn [on_frames insert_frames on_frame].
  { cbn. by rewrite !app_nil_r. }
  destruct (Reorderer.insert_owned _ _ _ _ _) as [[ro1 o1]|]; [|done]. cbn [mbind option_bind].
  rewrite IH. destruct (insert_frames ro1 fs) as [[ro2 o2]|]; [|done]. cbn [mbind option_bind].
  by rewrite app_assoc, <-(app_assoc hs).
Qed.

Lemma insert_frames_app fs1 fs2 ro :
  insert_frames ro (fs1 ++ fs2) =
  '(ro, o1) ← insert_frames ro fs1; '(ro, o2) ← insert_frames ro fs2; Some (ro, o1 ++ o2).
Proof.
  revert ro. induction fs1 as [|f fs1 IH]; intros ro; cbn [app insert_frames mbind option_bind].
  { by destruct (insert_frames ro fs2) as [[]|]. }
  destruct (Reorderer.insert_owned _ _ _ _ _) as [[ro1 o1]|]; [|done]. cbn [mbind option_bind].
  rewrite IH. destruct (insert_frames ro1 fs1) as [[ro2 o2]|]; [|done]. cbn [mbind option_bind].
  destruct (insert_frames ro2 fs2) as [[ro3 o3]|]; [|done]. cbn [mbind option_bind]. by rewrite app_assoc.
Qed.

(** A data envelope goes to the reassembler with its buffer. *)
Definition data_envelope (env : RxEnvelope) : Prop :=
  get_packet_type (env_header env) = DATA /\ is_Some (packet_data env).

Lemma process_envelope_data env d r ro b hs out :
  data_envelope env -> Dispatcher.zero_copy_data_handler_ d = true ->
  exists d', Dispatcher.zero_copy_data_handler_ d' = true /\
  process_envelope env (mkProcessing d r ro b hs out) =
    '(r, evs, _) ← process_packet_zero_copy reasm_clock r (packet_of env) (Some b);
    '(ro, outs) ← insert_frames ro (frames_out evs);
    Some (mkProcessing d' r ro (S b) (hs ++ frames_out evs) (out ++ outs)).
Proof.
  intros [Ht [buf Hb]] Hz. unfold process_envelope. rewrite Hb. unfold Dispatcher.dispatch_buffer.
  cbn [packet_of header dispatcher]. rewrite bool_decide_eq_true_2 by done.
  destruct d as [a z c st hs' hq nq md hl ls cs]. cbn in Hz. subst z. cbn.
  rewrite drop_app_length. eexists. split; [|].
  2:{ cbn [apply_calls apply_call mbind option_bind].
      destruct (process_packet_zero_copy _ _ _ _) as [[[r1 evs] kept]|]; [|done].
      cbn [mbind option_bind]. rewrite on_frames_insert.
      by destruct (insert_frames ro (frames_out evs)) as [[ro1 o1]|]. }
  done.
Qed.

(** The packets with their buffer numbers. *)
Definition numbered (b : nat) (envs : list RxEnvelope) : list (ParsedPacket * nat) :=
  imap (fun i env => (packet_of env, (b + i)%nat)) envs.

Lemma numbered_cons b env envs : numbered b (env :: envs) = (packet_of env, b) :: numbered (S b) envs.
Proof.
  unfold numbered. cbn [imap]. rewrite Nat.add_0_r. f_equal. apply imap_ext. intros i x _. cbn. f_equal. lia.
Qed.

Lemma process_all_data envs : forall d r ro b hs out r' evs ro' outs,
  Forall data_envelope envs -> Dispatcher.zero_copy_data_handler_ d = true ->
  run_zero_copy reasm_clock r (numbered b envs) = Some (r', evs) ->
  insert_frames ro (frames_out evs) = Some (ro', outs) ->
  exists d', process_all envs (mkProcessing d r ro b hs out) =
    Some (mkProcessing d' r' ro' (b + length envs) (hs ++ frames_out evs) (out ++ outs)).
Proof.
  induction envs as [|env envs IH]; intros d r ro b hs out r' evs ro' outs Hall Hz Hr Hi.
  { cbn in *. injection Hr as <- <-. cbn in Hi. injection Hi as <- <-.
    exists d. cbn. by rewrite Nat.add_0_r, !app_nil_r. }
  rewrite numbered_cons in Hr. apply Forall_cons_1 in Hall as [Henv Hall].
  destruct (process_envelope_data env d r ro b hs out Henv Hz) as (d1 & Hz1 & E).
  cbn [process_all run_zero_copy] in *. rewrite E.
  destruct (process_packet_zero_copy reasm_clock r (packet_of env) (Some b)) as [[[r1 e1] kept]|]; [|done].
  cbn [mbind option_bind] in *.
  destruct (run_zero_copy reasm_clock r1 (numbered (S b) envs)) as [[r2 e2]|] eqn:Er2; [|done].
  cbn [mbind option_bind] in Hr. injection Hr as <- <-.
  rewrite frames_out_app, insert_frames_app in Hi.
  destruct (insert_frames ro (frames_out e1)) as [[ro1 o1]|]; [|done]. cbn [mbind option_bind] in *.
  destruct (insert_frames ro1 (frames_out e2)) as [[ro2 o2]|] eqn:Ei2; [|done].
  cbn [mbind option_bind] in Hi. injection Hi as <- <-.
  destruct (IH d1 r1 ro1 (S b) (hs ++ frames_out e1) (out ++ o1) _ _ _ _ Hall Hz1 Er2 Ei2) as (d' & ->).
  exists d'. cbn [length]. by rewrite frames_out_app, <-!app_assoc, Nat.add_succ_r.
Qed.

End Face.

(** ** The queue with room *)

Definition pushes {A} (ops : list (QOp A)) : list A :=
  omap (fun op => match op with Push x => Some x | Pop => None end) ops.

Lemma run_fifo_room {A} cap (ops : list (QOp A)) : forall l d rs l' d',
  run_fifo cap l d ops = (rs, l', d') -> (length l + length (pushes ops) <= cap)%nat ->
  l ++ pushes ops = omap id rs ++ l'.
Proof.
  induction ops as [|[x|] ops IH]; intros l d rs l' d'; cbn [run_fifo pushes omap list_omap].
  - intros [= <- <- <-] _. cbn. by rewrite app_nil_r.
  - fold (pushes ops). unfold Fifo.push_drop. cbn [length]. intros Hr Hl.
    destruct (Nat.ltb_spec (length l) cap); [|lia].
    apply IH in Hr; [|rewrite length_app; cbn; lia]. by rewrite <-Hr, <-app_assoc.
  - fold (pushes ops). destruct (Fifo.fifo_pop l) as [r l1] eqn:Ep.
    destruct (run_fifo cap l1 d ops) as [[rs1 l2] d2] eqn:Er. intros [= <- <- <-] Hl.
    destruct l as [|y l]; injection Ep as <- <-; cbn [omap list_omap id app length] in *.
    + by apply IH in Er.
    + apply IH in Er; [|lia]. by rewrite Er.
Qed.

Lemma run_fifo_drained {A} cap (ops : list (QOp A)) n : forall l d rs l' d',
  run_fifo cap l d (ops ++ replicate n Pop) = (rs, l', d') ->
  (length l + length (pushes ops) <= cap)%nat -> (length l + length (pushes ops) <= n)%nat -> l' = [].
Proof.
  induction ops as [|[x|] ops IH]; intros l d rs l' d'; cbn [run_fifo app pushes omap list_omap].
  - intros Hr _ Hn. cbn [length] in Hn. rewrite Nat.add_0_r in Hn. revert l rs d' Hn Hr.
    induction n as [|n IHn]; intros l rs d' Hn; cbn [replicate run_fifo].
    + intros [= <- <- <-]. destruct l; [done|cbn in Hn; lia].
    + destruct (Fifo.fifo_pop l) as [r l1] eqn:Ep.
      destruct (run_fifo cap l1 d (replicate n Pop)) as [[rs1 l2] d2] eqn:Er. intros [= <- <- <-].
      eapply (IHn l1); [|exact Er]. destruct l; injection Ep as <- <-; cbn in *; lia.
  - fold (pushes ops). unfold Fifo.push_drop. cbn [length]. intros Hr Hl Hn.
    destruct (Nat.ltb_spec (length l) cap); [|lia]. eapply IH; [exact Hr|..]; rewrite length_app; cbn; lia.
  - fold (pushes ops). destruct (Fifo.fifo_pop l) as [r l1] eqn:Ep.
    destruct (run_fifo cap l1 d (ops ++ replicate n Pop)) as [[rs1 l2] d2] eqn:Er.
    intros [= <- <- <-] Hl Hn. eapply (IH l1); [exact Er|..];
      (destruct l; injection Ep as <- <-; cbn [length] in *; lia).
Qed.

(** ** The expected packet *)

Import Reorderer ReordererProps ReordererLaws.

(** The reorderer waits for [s] (or for its first packet) and stores nothing. *)
Record awaits (ro : Reorderer.Reorderer) (s : Z) : Prop := {
  aw_wf : reorder_wf ro;
  aw_callback : output_callback_ ro = true;
  aw_seq : initialized ro = true -> next_expected_seq ro = s;
  aw_empty : forall d, (d < length (ring_slots ro))%nat -> stored_at ro d = None;
}.

Lemma insert_awaited clock ro h pl sz :
  awaits ro (sequence_number h) -> is_u32 (sequence_number h) ->
  exists ro', insert_owned clock ro h pl sz = Some (ro', [ordered h pl sz (sequence_number h)]) /\
    awaits ro' (sequence_number h +[32] 1) /\ initialized ro' = true.
Proof.
  intros [Hwf Hcb Hsq Hem] Hs. set (s := sequence_number h) in *.
  destruct (ensure_initialized_spec ro s Hwf Hs) as (Hri & Hini & Hw & Hst & Hcf & Hcbi & Hnx & Hsa).
  rewrite insert_owned_ensure. fold s. set (ri := ensure_initialized ro s) in *.
  assert (Hn : next_expected_seq ri = s).
  { rewrite Hnx. destruct (initialized ro); [by apply Hsq|done]. }
  assert (Hseq : forall i, (i < 1)%nat -> sequence_number h = s +[32] Z.of_nat i).
  { intros i Hi. replace (Z.of_nat i) with 0 by lia. rewrite Z.add_0_r, wrap_small; done. }
  pose proof (ww_size _ _ (ro_window _ Hri)) as Hsz.
  assert (Hh : holding s 1 (fun _ => h) (fun _ => pl) (fun _ => sz) ri 0 []).
  { constructor; try done; try congruence.
    - rewrite Z.add_0_r, wrap_small; done.
    - unfold window in *. lia.
    - intros i Hi. lia.
    - apply not_elem_of_nil.
    - intros i Hi. by apply not_elem_of_nil in Hi.
    - intros d Hd. rewrite decide_False by apply not_elem_of_nil. rewrite Hsa. apply Hem. congruence. }
  destruct (holding_step clock s 1 (fun _ => h) (fun _ => pl) (fun _ => sz) Hs Hseq ri 0 [] 0 Hh)
    as (r' & outs & m' & E & Hh' & Hm & ->); [lia|apply not_elem_of_nil|].
  pose proof (holding_le s 1 (fun _ => h) (fun _ => pl) (fun _ => sz) _ _ _ Hh') as Hle.
  destruct Hh' as [Hwf' Hini' Hcb' Hnx' _ _ Hmiss _ Hst'].
  destruct m' as [|[|m']]; [destruct Hmiss; set_solver| |lia].
  exists r'. split_and!; [|constructor; try done|done].
  - rewrite E. cbn. unfold out_pkt. change (Z.of_nat 0) with 0. by rewrite Z.add_0_r, wrap_small.
Qed.

(** ** Theorems *)

(** A raw packet that the receive stage of [f] accepts and that carries fragment
    [i] of the frame. *)
Definition raw_fragment (f : FacePipeline) (key : ReassemblyKey) (frags : list bytes)
    (snap : ExecutionSnapshot) (i : nat) (raw : ReceivedPacket) : Prop :=
  exists env, accepted (array_id_ (rx_stage f)) (validator_ (rx_stage f)) raw = Some env /\
    get_packet_type (env_header env) = DATA /\
    is_fragment (Reassembler.config_ (reassembler (processing f))) key (length frags)
      (Z.of_nat (length (frags !!! (length frags - 1)%nat)))
      (fun i => frags !!! i) snap i (packet_of env).

(** A face that has nothing queued and can take the frame. *)
Record face_ready (f : FacePipeline) (key : ReassemblyKey) (bytes_needed : nat) : Prop := {
  fr_queue : SPSCQueue.queue_wf QUEUE_CAPACITY (queue_ (rx_stage f));
  fr_empty : SPSCQueue.contents QUEUE_CAPACITY (queue_ (rx_stage f)) = [];
  fr_zero_copy : Dispatcher.zero_copy_data_handler_ (dispatcher (processing f)) = true;
  fr_reasm : reasm_wf (reassembler (processing f));
  fr_callback : callback_ (reassembler (processing f)) = true;
  fr_new : contexts_ (reassembler (processing f)) !! key = None;
  fr_room : Z.of_nat (size (contexts_ (reassembler (processing f)))) <
            max_contexts (Reassembler.config_ (reassembler (processing f)));
  fr_thawed : not_frozen (frozen_keys_ring_ (reassembler (processing f))) key;
  fr_bytes : Z.of_nat bytes_needed <=
             max_reasm_bytes_per_key (Reassembler.config_ (reassembler (processing f)));
  fr_awaits : awaits (reorderer (processing f)) (key_frame_counter key);
  fr_seq : is_u32 (key_frame_counter key);
}.

Lemma accepted_data aid v raw env :
  accepted aid v raw = Some env -> get_packet_type (env_header env) = DATA -> data_envelope env.
Proof.
  unfold accepted. destruct (parse (rp_data raw) (rp_length raw)) as [p|] eqn:Ep; cbn [mbind option_bind]; [|done].
  case_bool_decide; [|done]. intros [= <-] Ht. split; [done|]. cbn.
  destruct (rp_data raw); [done|]. by cbn in Ep.
Qed.

(** The receive operations among the steps of the two threads. *)
Definition received (ops : list FaceOp) : list ReceivedPacket :=
  omap (fun op => match op with Receive raw => Some raw | _ => None end) ops.

Lemma live_ops ops :
  Forall (fun op => is_Some (live op)) ops ->
  exists rops, live <$> ops = Some <$> rops /\ forall aid v envs,
    Forall2 (fun raw env => accepted aid v raw = Some env) (received ops) envs ->
    pushes (omap (queue_op aid v) rops) = envs.
Proof.
  induction 1 as [|op ops [rop Hop] _ (rops & Hl & Hp)].
  { exists []. split; [done|]. intros aid v envs Hf. by inv Hf. }
  exists (rop :: rops). split; [by rewrite !fmap_cons, Hop, Hl|]. intros aid v envs Hf.
  destruct op; cbn in Hop; simplify_eq; cbn [received omap list_omap queue_op] in *.
  - fold (received ops) in Hf. inv Hf. match goal with Ha : accepted aid v raw = _ |- _ => rewrite Ha end.
    cbn. f_equal. by apply Hp.
  - cbn. by apply Hp.
Qed.

Lemma raw_envelopes f key frags snap order raws :
  Forall2 (raw_fragment f key frags snap) order raws ->
  exists envs,
    Forall2 (fun raw env => accepted (array_id_ (rx_stage f)) (validator_ (rx_stage f)) raw = Some env) raws envs /\
    Forall data_envelope envs /\
    Forall2 (is_fragment (Reassembler.config_ (reassembler (processing f))) key (length frags)
      (Z.of_nat (length (frags !!! (length frags - 1)%nat)))
      (fun i => frags !!! i) snap) order (packet_of <$> envs).
Proof.
  induction 1 as [|i raw order raws (env & Ha & Ht & Hf) _ (envs & IH1 & IH2 & IH3)].
  { exists []. by split_and!; [apply Forall2_nil_2|apply Forall_nil_2|apply Forall2_nil_2]. }
  exists (env :: envs). split_and!; [by apply Forall2_cons_2| |by apply Forall2_cons_2].
  apply Forall_cons_2; [|done]. by apply (accepted_data _ _ raw env Ha Ht).
Qed.

(** The receive stage hands all envelopes to the processing thread, in order. *)
Lemma face_receives fuel sp sm k ops n rx envs :
  sp k = false -> sm k = false -> (k + 2 <= fuel)%nat ->
  Forall (fun op => is_Some (live op)) ops ->
  SPSCQueue.queue_wf QUEUE_CAPACITY (queue_ rx) -> SPSCQueue.contents QUEUE_CAPACITY (queue_ rx) = [] ->
  Forall2 (fun raw env => accepted (array_id_ rx) (validator_ rx) raw = Some env) (received ops) envs ->
  length envs = n -> (n <= 1024)%nat ->
  exists rops es rx', live <$> (ops ++ replicate n Process) = Some <$> rops /\
    run_stage fuel sp sm rops rx = Some (es, rx') /\ omap id es = envs /\
    SPSCQueue.contents QUEUE_CAPACITY (queue_ rx') = [].
Proof.
  intros Hp Hm Hf Hlive Hq He Hacc Hlen Hn.
  destruct (live_ops ops Hlive) as (rops & Hl & Hpush). specialize (Hpush _ _ _ Hacc).
  assert (Hpop : omap (queue_op (array_id_ rx) (validator_ rx)) (replicate n TryPop) = replicate n Pop).
  { clear. induction n; [done|]. cbn. by f_equal. }
  assert (Hnp : pushes (replicate n (@Pop RxEnvelope)) = []).
  { clear. by induction n. }
  destruct (run_stage_spec fuel sp sm k (rops ++ replicate n TryPop) Hp Hm Hf rx Hq)
    as (es & rx' & Er & Hq' & Hfifo & _).
  rewrite He, omap_app, Hpop in Hfifo.
  assert (Hcap : (1024 <= Z.to_nat (QUEUE_CAPACITY - 1))%nat) by (unfold QUEUE_CAPACITY; lia).
  pose proof (run_fifo_drained _ _ _ _ _ _ _ _ Hfifo) as Hdr. rewrite Hpush in Hdr. cbn [length] in Hdr.
  specialize (Hdr ltac:(lia) ltac:(lia)).
  apply run_fifo_room in Hfifo.
  2:{ unfold pushes in *. rewrite omap_app, Hpush, Hnp, app_nil_r. cbn [length]. lia. }
  exists (rops ++ replicate n TryPop), es, rx'. split_and!; [|done| |done].
  - rewrite !fmap_app, Hl. f_equal. clear. induction n; [done|]. cbn. by f_equal.
  - unfold pushes in *. rewrite omap_app, Hpush, Hnp, Hdr, !app_nil_r in Hfifo. by rewrite <-Hfifo.
Qed.

(** The reassembler turns the envelopes into one frame. *)
Lemma frame_of_envelopes clock r key frags snap order envs b :
  reasm_wf r -> callback_ r = true -> contexts_ r !! key = None ->
  Z.of_nat (size (contexts_ r)) < max_contexts (Reassembler.config_ r) ->
  not_frozen (frozen_keys_ring_ r) key -> (1 <= length frags <= 1024)%nat ->
  Z.of_nat (length (concat frags)) <= max_reasm_bytes_per_key (Reassembler.config_ r) ->
  order ≡ₚ seq 0 (length frags) ->
  Forall2 (is_fragment (Reassembler.config_ r) key (length frags)
      (Z.of_nat (length (frags !!! (length frags - 1)%nat)))
      (fun i => frags !!! i) snap) order (packet_of <$> envs) ->
  exists r' evs fr, run_zero_copy clock r (numbered b envs) = Some (r', evs) /\ frames_out evs = [fr] /\
    frame_key fr = key /\ frame_data fr = concat frags /\
    frame_total_size fr = Z.of_nat (length (concat frags)) /\ frame_is_complete fr = true /\
    dom (contexts_ r') = dom (contexts_ r).
Proof.
  intros Hr Hcb Hnew Hroom Hth Hn Hby Hord Hfr.
  destruct (fragments_to_frame clock r key frags snap order (packet_of <$> envs))
    as (r1 & evs1 & fr & E1 & Hfo & Hk & Hd & Hs & Hc & _ & _ & _ & _ & Hctx); try done.
  assert (Hnum : (numbered b envs).*1 = packet_of <$> envs).
  { unfold numbered. rewrite fmap_imap. apply imap_const || (apply list_eq; intros j;
      rewrite list_lookup_imap, list_lookup_fmap; by destruct (envs !! j)). }
  pose proof (run_zero_copy_same clock (numbered b envs) r r eq_refl) as Hsame.
  unfold same in Hsame. rewrite Hnum, E1 in Hsame.
  destruct (run_zero_copy clock r (numbered b envs)) as [[r2 evs2]|]; [|done].
  cbn [fmap option_fmap option_map] in Hsame.
  apply (inj Some), pair_equal_spec in Hsame as [Her Hfo2]. cbn [fst snd] in Her, Hfo2.
  exists r2, evs2, fr. rewrite <-Hfo2. split_and!; try done.
  apply (f_equal (fun x => dom (contexts_ x))) in Her. unfold erase in Her.
  cbn [upd_contexts contexts_] in Her. rewrite !dom_fmap_L in Her. by rewrite <-Her, Hctx.
Qed.

(** A face built from a validated configuration of reasonable size is ready for
    any frame within its byte limit. *)
Lemma build_face_ready reorder_clock c idx key n :
  Config.config_typed c -> Config.config_valid c ->
  Config.sample_count_fixed (Config.reassembly c) < 2 ^ 32 ->
  Config.max_reasm_bytes_per_key (Config.reassembly c) < 2 ^ 40 ->
  1 <= Config.max_contexts (Config.reassembly c) < 2 ^ 40 ->
  Config.window_size (Config.reorder c) <= 2 ^ 31 ->
  Z.of_nat n <= Config.max_reasm_bytes_per_key (Config.reassembly c) ->
  is_u32 (key_frame_counter key) ->
  face_ready (build_face reorder_clock c idx) key n.
Proof.
  intros Ht Hv Hsc Hby Hctx Hwin Hn Hs. destruct Ht, Hv. unfold in_range in *.
  assert (Hok : config_ok (reasm_config c)) by (constructor; cbn; lia).
  destruct (SPSCQueue.init_wf QUEUE_CAPACITY RxEnvelope_default) as [Hw Hc]; [by exists 16|].
  assert (Hro : reorder_wf (Reorderer_init reorder_clock (reorder_config c) true)).
  { apply init_reorder_wf. cbn. lia. }
  constructor; cbn [build_face rx_stage processing dispatcher reassembler reorderer RxStage_init queue_].
  - done.
  - done.
  - by destruct (Z.to_nat _).
  - by apply Reassembler_init_wf.
  - done.
  - apply lookup_empty.
  - cbn. rewrite map_size_empty. lia.
  - apply Forall_replicate. done.
  - cbn. lia.
  - constructor; [done|done|done|]. intros d Hd. by apply (ro_fresh _ Hro).
  - done.
Qed.

Definition packet_okb (p : ParsedPacket) : bool :=
  (0 <=? payload_len (header p)) && (payload_len (header p) <? 2 ^ 16) &&
  match payload p with
  | Some pl => bytes_okb pl && (payload_len (header p) <=? Z.of_nat (length pl))
  | None => true
  end.

Lemma packet_okb_ok p : packet_okb p = true -> packet_ok p.
Proof.
  unfold packet_okb, packet_ok, in_range. rewrite !andb_true_iff, Z.leb_le, Z.ltb_lt.
  intros [Hl Hp]. split; [done|]. intros pl Hpl. rewrite Hpl, andb_true_iff, Z.leb_le in Hp.
  destruct Hp as [Hb Hp]. split; [by apply bytes_okb_ok|done].
Qed.

(** C2: a frame crosses the whole pipeline.  Let the fragments of one frame
    arrive as raw UDP packets, in any order, at a face with an empty queue that
    can take the frame, while receive steps and processing steps interleave in
    any way, and let the processing thread run until the queue is empty.  Then
    nothing faults, exactly one packet is delivered: the concatenation of the
    fragments under the frame counter as sequence number, marked complete, with
    the source and epoch of the frame; the face is ready for the next frame. *)
Theorem face_delivers_frame (now reasm_clock reorder_clock : nat -> Z) (fuel k : nat)
    (spurious_push spurious_mark : nat -> bool) (f : FacePipeline) (key : ReassemblyKey)
    (frags : list bytes) (snap : ExecutionSnapshot) (order : list nat) (ops : list FaceOp)
    (Hp : spurious_push k = false) (Hm : spurious_mark k = false) (Hf : (k + 2 <= fuel)%nat)
    (Hn : (1 <= length frags <= 1024)%nat)
    (Hready : face_ready f key (length (concat frags)))
    (Hord : order ≡ₚ seq 0 (length frags))
    (Hlive : Forall (fun op => is_Some (live op)) ops)
    (Hraws : Forall2 (raw_fragment f key frags snap) order (received ops)) :
  exists f' h,
    face_run now reasm_clock reorder_clock fuel spurious_push spurious_mark f
      (ops ++ replicate (length frags) Process) = Some f' /\
    delivered (processing f') = delivered (processing f) ++
      [ordered h (Some (concat frags)) (Z.of_nat (length (concat frags))) (key_frame_counter key)] /\
    sequence_number h = key_frame_counter key /\ source_id h = key_source_id key /\
    control_epoch h = key_control_epoch key /\ ext_flags h = 0 /\
    SPSCQueue.contents QUEUE_CAPACITY (queue_ (rx_stage f')) = [] /\
    dom (contexts_ (reassembler (processing f'))) = dom (contexts_ (reassembler (processing f))) /\
    awaits (reorderer (processing f')) (key_frame_counter key +[32] 1).
Proof.
  destruct f as [aid rx [d r ro b hs out]]. destruct Hready as [Hq He Hz Hr Hcb Hnew Hroom Hth Hby Haw Hs].
  cbn [rx_stage processing dispatcher reassembler reorderer delivered] in *.
  destruct (raw_envelopes _ _ _ _ _ _ Hraws) as (envs & Hacc & Hdata & Hfr).
  cbn [rx_stage processing reassembler] in Hacc, Hfr.
  assert (Hlen : length envs = length frags).
  { apply Forall2_length in Hfr. rewrite length_fmap in Hfr. by rewrite <-Hfr, Hord, length_seq. }
  destruct (face_receives fuel spurious_push spurious_mark k ops (length frags) rx envs)
    as (rops & es & rx' & Hl & Er & Hes & Hq'); try done; [lia|].
  destruct (frame_of_envelopes reasm_clock r key frags snap order envs b)
    as (r' & evs & fr & Ez & Hfo & Hkey & Hfd & Hfs & Hfc & Hdom); try done.
  destruct (insert_awaited reorder_clock ro (frame_header fr) (Some (frame_data fr)) (frame_total_size fr))
    as (ro' & Ei & Haw' & _); [by cbn; rewrite Hkey..|].
  destruct (process_all_data now reasm_clock reorder_clock envs d r ro b hs out r' evs ro'
    [ordered (frame_header fr) (Some (frame_data fr)) (frame_total_size fr) (key_frame_counter key)]) as (d' & Epr);
    [done|done|done| |].
  { rewrite Hfo. cbn [insert_frames]. rewrite Ei. cbn. by rewrite Hkey. }
  eexists _, (frame_header fr). split.
  { eapply face_run_split; [exact Hl|exact Er|]. rewrite Hes. exact Epr. }
  cbn [rx_stage processing reassembler reorderer delivered frame_header sequence_number source_id
    control_epoch ext_flags] in *. rewrite Hkey, Hfd, Hfs, Hfc in *. by split_and!.
Qed.

(** The raw packet of a fragment of a two-fragment frame. *)
Definition sample_raw (index : Z) (snapshot body : bytes) : ReceivedPacket :=
  let p := sample_packet index 2 2 snapshot body in
  mkReceivedPacket (Some (CommonHeader_bytes (header p) ++ default [] (payload p))) (total_size p) 7 1 NORMAL.

Lemma sample_raws :
  Forall2 (fun i r => exists env,
      accepted 1 (mkValidator 1 DATA_AND_HEARTBEAT) r = Some env /\
      get_packet_type (env_header env) = DATA /\
      is_fragment (reasm_config Config.ReceiverConfig_default) (mkReassemblyKey 0 0x11 1 5 2 3 0 0) 2 2
        (fun i => [[1;2;3];[4;5]] !!! i) ExecutionSnapshot_zero i (packet_of env))
    [1;0]%nat [sample_raw 1 (replicate 40 0) [4;5]; sample_raw 0 [] [1;2;3]].
Proof.
  repeat apply Forall2_cons_2; [..|apply Forall2_nil_2]; (eexists; split; [vm_compute; reflexivity|]);
    (split; [vm_compute; reflexivity|]); eexists _, _, _;
    (split_and!; [vm_compute; reflexivity..|simpl; lia|vm_compute; congruence|]); apply packet_okb_ok;
    vm_compute; reflexivity.
Qed.

(** Two fragments of three and two bytes, the tail first, at a face with the
    default configuration; one processing step runs between the two. *)
Lemma face_delivers_frame_witness :
  let f := build_face (fun _ => 0) Config.ReceiverConfig_default 0 in
  let ops := [Receive (sample_raw 1 (replicate 40 0) [4;5]); Process; Receive (sample_raw 0 [] [1;2;3])] in
  exists f' h,
    face_run (fun _ => 0) (fun _ => 0) (fun _ => 0) 2 (fun _ => false) (fun _ => false) f
      (ops ++ replicate 2 Process) = Some f' /\
    delivered (processing f') = [ordered h (Some [1;2;3;4;5]) 5 1] /\
    awaits (reorderer (processing f')) 2.
Proof.
  intros f ops.
  destruct (face_delivers_frame (fun _ => 0) (fun _ => 0) (fun _ => 0) 2 0 (fun _ => false) (fun _ => false)
    f (mkReassemblyKey 0 0x11 1 5 2 3 0 0) [[1;2;3];[4;5]] ExecutionSnapshot_zero [1;0]%nat ops)
    as (f' & h & E & Hd & _ & _ & _ & _ & _ & _ & Haw).
  - reflexivity.
  - reflexivity.
  - lia.
  - simpl; lia.
  - refine (build_face_ready (fun _ => 0) Config.ReceiverConfig_default 0 _ _ Config.default_typed
      _ _ _ _ _ _ _).
    + apply Config.validate_spec; [apply Config.default_typed|vm_compute; reflexivity].
    + vm_compute. reflexivity.
    + vm_compute. reflexivity.
    + vm_compute. split; congruence.
    + vm_compute. congruence.
    + vm_compute. congruence.
    + vm_compute. split; congruence.
  - apply Permutation_swap.
  - repeat (apply Forall_cons_2; [by eexists|]). apply Forall_nil_2.
  - exact sample_raws.
  - exists f', h. split_and!; [exact E|exact Hd|exact Haw].
Defined.

End FacePipeline.
