(* ===== verification/FaceShutdown.v ===== *)
(** The end of a face's life: the drain of the envelope queue after the
    processing flag is cleared ([app_run.cpp], processing thread), the flush of
    reassembler and reorderer ([app_run.cpp], [app_shutdown]), and the account of
    frames from the first packet to the last flush. *)

From S2P Require Import Prelude Protocol Validator Reassembler ReassemblerProps ReassemblerLaws ReassemblerZeroCopy.
From S2P Require Import Reorderer ReordererProps ReordererFlush ReordererLaws SpscQueue Dispatcher RxStage Config FacePipeline.
Open Scope Z_scope.
Import Protocol Validator ReordererProps ReordererLaws ReordererFlush.
Import Reassembler ReassemblerProps ReassemblerLaws ReassemblerZeroCopy RxStage FacePipeline.

Module FaceShutdown.

(** ** Definitions *)

Section Shutdown.

Variables (now : nat -> Z) (reasm_clock reorder_clock : nat -> Z).

(** [while (auto remaining = queue().try_pop())].  The packet of an envelope lies
    in a buffer of the packet pool of its receiver: [pools] says whether the pool
    still exists.  Without it, the drain reads freed memory and gives the buffer
    back to an object that is gone: a fault.  [None] is a fault, or the end of the
    fuel. *)
Fixpoint drain_all (pools : bool) (fuel : nat) (f : FacePipeline) : option FacePipeline :=
  match fuel with
  | O => None
  | S fuel =>
    let '(mkFacePipeline aid rx p) := f in
    let '(env, rx) := pop_envelope rx in
    match env with
    | None => Some (mkFacePipeline aid rx p)
    | Some env =>
      if negb pools && bool_decide (is_Some (packet_data env)) then None
      else p ← drain_envelope now reasm_clock reorder_clock env p;
           drain_all pools fuel (mkFacePipeline aid rx p)
    end
  end.

(** Stage 3: the open contexts, traversed in the order [order].  A context of the
    zero-copy path holds pool buffers: its fragments are read from them and they
    are given back when it is destroyed. *)
Definition flush_reassembler (pools : bool) (order : list ReassemblyKey) (p : Processing) : option (Processing * Z) :=
  let '(mkProcessing d r ro b hs out) := p in
  if negb pools && existsb (fun key => match contexts_ r !! key with
                                       | Some c => negb (bool_decide (context_buffers c = []))
                                       | None => false
                                       end) order then None
  else
    '(r, evs, n) ← flush_all reasm_clock r order;
    p ← on_frames reorder_clock (mkProcessing d r ro b hs out) (frames_out evs);
    Some (p, n).

(** Stage 4: the packets the reorderer still holds; they are copies. *)
Definition flush_reorderer (p : Processing) : Processing * Z :=
  let '(mkProcessing d r ro b hs out) := p in
  let '(ro, outs, n) := Reorderer.flush ro in
  (mkProcessing d r ro b hs (out ++ outs), n).

(** The stages of the shutdown for one face, with the two counts of the summary;
    [order] is the order in which the context map is traversed. *)
Definition shutdown_face (pools : bool) (fuel : nat)
    (order : gmap ReassemblyKey ReassemblyContext -> list ReassemblyKey) (f : FacePipeline)
    : option (FacePipeline * Z * Z) :=
  f ← drain_all pools fuel f;
  let '(mkFacePipeline aid rx p) := f in
  '(p, forced_contexts) ← flush_reassembler pools (order (contexts_ (reassembler p))) p;
  let '(p, drained_packets) := flush_reorderer p in
  Some (mkFacePipeline aid rx p, forced_contexts, drained_packets).

End Shutdown.

(** The face holds no packet of its pool: nothing is queued and no context has a
    pool buffer. *)
Definition idle (f : FacePipeline) : Prop :=
  SPSCQueue.contents QUEUE_CAPACITY (queue_ (rx_stage f)) = [] /\
  map_Forall (fun _ c => context_buffers c = []) (contexts_ (reassembler (processing f))).

#[export] Instance idle_dec f : Decision (idle f).
Proof. unfold idle. apply _. Defined.

(** ** Invariant *)

(** Frames the reassembler has handed over, from its counters. *)
Definition produced (r : Reassembler) : Z := u64 (frames_completed (stats_ r) + frames_incomplete (stats_ r)).

Definition frame_u32 (f : ReassembledFrame) : Prop := is_u32 (key_frame_counter (frame_key f)).

Definition keys_u32 (r : Reassembler) : Prop :=
  forall k, contexts_ r !! k <> None -> is_u32 (key_frame_counter k).

Record reasm_ok (r : Reassembler) : Prop := {
  rk_wf : reasm_wf r;
  rk_callback : callback_ r = true;
  rk_keys : keys_u32 r;
}.

Record reorder_ok (ro : Reorderer.Reorderer) : Prop := {
  rr_wf : reorder_wf ro;
  rr_callback : Reorderer.output_callback_ ro = true;
}.

(** The packet made of a frame. *)
Definition frame_packet (f : ReassembledFrame) : Reorderer.OrderedPacket :=
  Reorderer.ordered (frame_header f) (Some (frame_data f)) (frame_total_size f) (key_frame_counter (frame_key f)).

Definition rejections (ro : Reorderer.Reorderer) : Z := Reorderer.packets_duplicate (Reorderer.stats ro).

(** Every frame the reassembler has handed over is delivered, in the window, or
    rejected: each once. *)
Definition account (p : Processing) (rejected : list Reorderer.OrderedPacket) : Prop :=
  frame_packet <$> handed p ≡ₚ frames_in (delivered p) ++ buffered (reorderer p) ++ rejected /\
  rejections (reorderer p) = u64 (Z.of_nat (length rejected)).

Record processing_ok (p : Processing) : Prop := {
  po_reasm : reasm_ok (reassembler p);
  po_reorder : reorder_ok (reorderer p);
  po_handed : u64 (Z.of_nat (length (handed p))) = produced (reassembler p);
  po_account : exists rejected, account p rejected;
  po_balance : balance (reassembler p) = 0;
}.

Definition envelope_ok (env : RxEnvelope) : Prop :=
  is_Some (packet_data env) /\ packet_ok (packet_of env).

Record face_ok (f : FacePipeline) : Prop := {
  fo_queue : SPSCQueue.queue_wf QUEUE_CAPACITY (queue_ (rx_stage f));
  fo_envelopes : Forall envelope_ok (SPSCQueue.contents QUEUE_CAPACITY (queue_ (rx_stage f)));
  fo_processing : processing_ok (processing f);
}.

(** A received packet lies inside its buffer. *)
Definition raw_ok (raw : ReceivedPacket) : Prop :=
  forall bs, rp_data raw = Some bs -> bytes_ok bs /\ 0 <= rp_length raw <= Z.of_nat (length bs).

Definition face_op_ok (op : FaceOp) : Prop := match op with Receive raw => raw_ok raw | _ => True end.

(** ** The reassembler *)

(** An operation of the reassembler that hands over the frames of [evs]. *)
Record yields (r r' : Reassembler) (evs : list Event) : Prop := {
  yi_ok : reasm_ok r';
  yi_frames : Forall frame_u32 (frames_out evs);
  yi_count : produced r' = produced r +[64] Z.of_nat (length (frames_out evs));
}.

Lemma produced_u64 r : is_u64 (produced r).
Proof. apply wrap_range. lia. Qed.

Lemma yields_nothing r r' :
  reasm_ok r' -> produced r' = produced r -> yields r r' [].
Proof.
  intros Hr Hp. constructor; [done|constructor|]. cbn. rewrite Hp, Z.add_0_r, wrap_small; [done|].
  apply produced_u64.
Qed.

Lemma yields_trans r1 r2 r3 e1 e2 :
  yields r1 r2 e1 -> yields r2 r3 e2 -> yields r1 r3 (e1 ++ e2).
Proof.
  intros [H1 F1 C1] [H2 F2 C2]. constructor; [done| |].
  - rewrite frames_out_app. by apply Forall_app.
  - rewrite C2, C1, frames_out_app, length_app, wrap_add_l by lia. f_equal. lia.
Qed.

Lemma produced_after_complete clock r key c t :
  produced (after_complete clock r key c t) = produced r +[64] 1.
Proof.
  assert (Hs : frames_completed (stats_ (after_complete clock r key c t)) = inc64 (frames_completed (stats_ r)) /\
      frames_incomplete (stats_ (after_complete clock r key c t)) = frames_incomplete (stats_ r) \/
    frames_completed (stats_ (after_complete clock r key c t)) = frames_completed (stats_ r) /\
      frames_incomplete (stats_ (after_complete clock r key c t)) = inc64 (frames_incomplete (stats_ r))).
  { unfold after_complete. destruct t; cbn; unfold add_frozen_key; repeat case_match; cbn; auto. }
  unfold produced, inc64 in *. destruct Hs as [[-> ->]|[-> ->]]; wrap_lia.
Qed.

Lemma complete_yields clock r key c c0 t :
  reasm_ok r -> ctx_wf (config_ r) key c -> contexts_ r !! key = Some c0 ->
  reasm_wf (after_complete clock r key c t) ->
  exists evs, complete_reassembly clock r key c t = Some (after_complete clock r key c t, evs) /\
    yields r (after_complete clock r key c t) evs.
Proof.
  intros [Hr Hcb Hk] Hc H0 Hwf. rewrite (complete_reassembly_eq clock r key c c0 t) by (done || by destruct Hr).
  eexists. split; [done|]. rewrite Hcb. constructor.
  - constructor; [done|by rewrite after_complete_callback|]. intros k. rewrite after_complete_contexts.
    intros Hx. apply Hk. intros Hn. apply Hx. rewrite lookup_delete_None. by right.
  - rewrite frames_out_app, frames_out_released, app_nil_r, frames_out_frame. apply Forall_singleton.
    unfold frame_u32. cbn. apply Hk. congruence.
  - rewrite frames_out_app, frames_out_released, app_nil_r, frames_out_frame. apply produced_after_complete.
Qed.

Lemma complete_keys_yields clock keys : forall r,
  reasm_ok r -> exists r' evs, complete_keys clock r keys = Some (r', evs) /\ yields r r' evs.
Proof.
  induction keys as [|key keys IH]; intros r Hr; cbn [complete_keys].
  { eexists _, _. split; [done|]. by apply yields_nothing. }
  destruct (contexts_ r !! key) as [c|] eqn:Hk.
  - destruct (complete_timeout_wf clock r key c (rk_wf _ Hr) Hk) as (evs0 & _ & Hwf).
    destruct (complete_yields clock r key c c true Hr) as (evs & -> & Hy); try done.
    { by apply (rw_ctx _ (rk_wf _ Hr)). }
    cbn [mbind option_bind]. destruct (IH _ (yi_ok _ _ _ Hy)) as (r2 & e2 & -> & Hy2).
    cbn [mbind option_bind]. eexists _, _. split; [done|]. by eapply yields_trans.
  - cbn [mbind option_bind]. destruct (IH _ Hr) as (r2 & e2 & -> & Hy2).
    cbn [mbind option_bind]. by eexists _, _.
Qed.

(** Up to the fragment itself, a packet changes neither account nor callback. *)
Lemma prefix_account clock r p :
  match process_prefix clock r p with
  | inr r' => produced r' = produced r /\ callback_ r' = callback_ r
  | inl (_, _, _, _, _, r') => produced r' = produced r /\ callback_ r' = callback_ r
  end.
Proof.
  unfold process_prefix. cbn [config_ upd_stats get_current_time_ms].
  destruct (parse_specific_header _ _ _) as [h|]; [|done]. destruct (_ || _); [done|].
  destruct (locate_fragment p h) as [[[fp sz] snap]|]; [|done].
  destruct (is_key_frozen _ _ _) as [[|] ring]; [done|].
  unfold get_or_create_context. by repeat case_match; simplify_eq.
Qed.

Lemma specific_frame_counter cfg p h :
  packet_ok p -> parse_specific_header cfg (payload p) (payload_len (header p)) = Some h ->
  is_u32 (frame_counter h).
Proof.
  intros Hp Hh. pose proof Hp as [_ Hpl].
  apply parse_specific_header_Some in Hh as (pl & Epl & -> & Hlen & _); [|done].
  destruct (Hpl pl Epl) as [Hb _].
  assert (Hok : DataSpecificHeader_ok (DataSpecificHeader_load (take 40 pl)))
    by (apply DataSpecificHeader_load_ok; [rewrite length_take; lia|auto with cxx]).
  unfold DataSpecificHeader_ok, fields_ok, DataSpecificHeader_fields in Hok.
  repeat (apply Forall2_cons_1 in Hok as [? Hok]). done.
Qed.

(** The state in which a fragment is added. *)
Lemma prefix_ok clock r p :
  reasm_ok r -> packet_ok p ->
  match process_prefix clock r p with
  | inr r' => reasm_ok r' /\ produced r' = produced r
  | inl (key, c, h, fp, sz, r') =>
    reasm_ok r' /\ produced r' = produced r /\ pending r p key c h fp sz r'
  end.
Proof.
  intros [Hr Hcb Hk] Hp. pose proof (process_prefix_spec clock r p Hr Hp) as Hs.
  pose proof (prefix_account clock r p) as Ha.
  destruct (process_prefix clock r p) as [[[[[[key c] h] fp] sz] r1]|r1] eqn:E.
  - destruct Ha as [Hd Hc1]. split_and!; [|done|done]. destruct Hs. constructor; [done|congruence|].
    intros k Hx. destruct (decide (k = key)) as [->|Hne].
    + rewrite pe_key0. cbn. eapply specific_frame_counter; [done|]. by eapply process_prefix_header.
    + apply Hk. by rewrite <-pe_frame0.
  - destruct Hs as (Hw & Hctx & _), Ha as [Hd Hc1]. split; [|done]. constructor; [done|congruence|].
    intros k. rewrite Hctx. apply Hk.
Qed.

Lemma reasm_ok_stats f r : reasm_ok r -> reasm_ok (upd_stats f r).
Proof. intros [H ? ?]. constructor; [by apply reasm_wf_stats|done..]. Qed.

Lemma reasm_ok_put r key c c0 :
  reasm_ok r -> contexts_ r !! key = Some c0 -> reasm_wf (upd_contexts <[key := c]> r) ->
  reasm_ok (upd_contexts <[key := c]> r).
Proof.
  intros [Hr Hcb Hk] H0 Hw. constructor; [done..|]. intros k. cbn. intros Hx. apply Hk.
  destruct (decide (k = key)) as [->|]; [congruence|]. by rewrite lookup_insert_ne in Hx.
Qed.

Lemma suffix_yields clock r key c c0 :
  reasm_ok r -> contexts_ r !! key = Some c0 -> ctx_wf (config_ r) key c ->
  received_count c <= ctx_total_frags c ->
  exists r' evs, process_suffix clock r key c = Some (r', evs) /\ yields r r' evs.
Proof.
  intros Hok H0 Hc Hle. pose proof Hok as [Hr Hcb Hk].
  destruct (process_suffix_spec clock r key c c0 Hr H0 Hc Hle) as (r' & evs & E & Hw & _).
  exists r', evs. split; [done|]. revert E. unfold process_suffix. set (r1 := upd_contexts _ _).
  assert (Hl : contexts_ r1 !! key = Some c) by (cbn; by rewrite lookup_insert_eq).
  destruct (check_complete c).
  - rewrite (complete_reassembly_eq clock r1 key c c false) by (done || by destruct Hr).
    intros [= <- <-]. cbn [r1 upd_contexts callback_]. rewrite Hcb. fold r1. constructor.
    + constructor; [done|by rewrite after_complete_callback|]. intros k. rewrite after_complete_contexts.
      cbn. rewrite delete_insert_eq. intros Hx. apply Hk. intros Hn. apply Hx. rewrite lookup_delete_None. by right.
    + rewrite frames_out_app, frames_out_released, app_nil_r, frames_out_frame. apply Forall_singleton.
      unfold frame_u32. cbn. apply Hk. congruence.
    + rewrite frames_out_app, frames_out_released, app_nil_r, frames_out_frame, produced_after_complete. done.
  - intros [= <- <-]. apply yields_nothing; [by eapply reasm_ok_put|done].
Qed.

Lemma rejected_neutral f r :
  (forall s, frames_completed (f s) = frames_completed s /\ frames_incomplete (f s) = frames_incomplete s) ->
  produced (upd_stats f r) = produced r.
Proof. intros Hf. unfold produced. cbn. by destruct (Hf (stats_ r)) as [-> ->]. Qed.

Lemma packet_yields clock r p :
  reasm_ok r -> packet_ok p ->
  exists r' evs, process_packet clock r p = Some (r', evs) /\ yields r r' evs.
Proof.
  intros Hr Hp. unfold process_packet. pose proof (prefix_ok clock r p Hr Hp) as Hpre.
  destruct (process_prefix clock r p) as [[[[[[key c] h] fp] sz] r1]|r1].
  2:{ destruct Hpre. eexists _, _. split; [done|]. by apply yields_nothing. }
  destruct Hpre as (Hr1 & Hd & [Hw Hcf Hc _ Hi Hsz Hfp _ _]). destruct (rw_ctx _ Hw _ _ Hc) as [Hcw Hlt].
  pose proof (add_fragment_spec _ key c h fp sz (rw_config _ Hw) Hcw Hlt ltac:(lia) Hsz Hfp) as Hadd.
  destruct (add_fragment _ _ _ _ _) as [[c'|cnt]|] eqn:E; [| |done]; cbn [mbind option_bind].
  - destruct Hadd as (Hc' & Hcnt & Htot).
    destruct (suffix_yields clock r1 key c' c Hr1 Hc Hc') as (r' & evs & -> & Hy); [lia|].
    exists r', evs. split; [done|]. destruct Hy. constructor; [done..|]. by rewrite <-Hd.
  - eexists _, _. split; [done|]. apply yields_nothing; [by apply reasm_ok_stats|].
    rewrite rejected_neutral; [done|]. intros s. revert E. unfold add_fragment.
    case_match; [by intros [= <-]|]. destruct (bitset_test _ _) as [[|]|]; cbn [mbind option_bind];
      [by intros [= <-]| |done]. repeat case_match; by intros [= <-].
Qed.

Lemma zero_copy_yields clock r p buf :
  reasm_ok r -> packet_ok p ->
  exists r' evs kept, process_packet_zero_copy clock r p buf = Some (r', evs, kept) /\ yields r r' evs.
Proof.
  intros Hr Hp. unfold process_packet_zero_copy. pose proof (prefix_ok clock r p Hr Hp) as Hpre.
  destruct (process_prefix clock r p) as [[[[[[key c] h] fp] sz] r1]|r1].
  2:{ destruct Hpre. eexists _, _, _. split; [done|]. by apply yields_nothing. }
  destruct Hpre as (Hr1 & Hd & [Hw Hcf Hc _ Hi Hsz Hfp _ _]). destruct (rw_ctx _ Hw _ _ Hc) as [Hcw Hlt].
  pose proof (add_fragment_zero_copy_spec _ key c h buf fp sz (rw_config _ Hw) Hcw Hlt ltac:(lia) Hsz Hfp) as Hadd.
  destruct (add_fragment_zero_copy _ _ _ _ _ _) as [[[c'|cnt] kept]|] eqn:E; [| |done]; cbn [mbind option_bind].
  - destruct Hadd as (Hc' & Hcnt & Htot).
    destruct (suffix_yields clock r1 key c' c Hr1 Hc Hc') as (r' & evs & -> & Hy); [lia|].
    exists r', evs, kept. split; [done|]. destruct Hy. constructor; [done..|]. by rewrite <-Hd.
  - eexists _, _, _. split; [done|]. apply yields_nothing; [by apply reasm_ok_stats|].
    rewrite rejected_neutral; [done|]. intros s. revert E. unfold add_fragment_zero_copy.
    case_match; [by intros [= <-]|]. destruct (bitset_test _ _) as [[|]|]; cbn [mbind option_bind];
      [by intros [= <-]| |done]. repeat case_match; by intros [= <-].
Qed.

(** ** The reorderer *)

(** A step of the reorderer that hands over [outs] and is given [given]: part of
    it is taken, the rest rejected. *)
Record hands (ro ro' : Reorderer.Reorderer) (outs given : list Reorderer.OrderedPacket) : Prop := {
  ha_ok : reorder_ok ro';
  ha_lists : exists taken rejected, given ≡ₚ taken ++ rejected /\ conserves ro ro' outs taken /\
    rejections ro' = rejections ro +[64] Z.of_nat (length rejected);
}.

Lemma hands_one ro ro' outs p :
  is_u64 (rejections ro) -> reorder_ok ro' ->
  conserves ro ro' outs [p] /\ rejections ro' = rejections ro \/
  conserves ro ro' outs [] /\ rejections ro' = inc64 (rejections ro) -> hands ro ro' outs [p].
Proof.
  intros Hu Hok [[Hc Hd]|[Hc Hd]]; (constructor; [done|]).
  - exists [p], []. split_and!; [done|done|]. by rewrite Hd, Z.add_0_r, wrap_small.
  - by exists [], [p].
Qed.

Lemma hands_none ro ro' outs :
  is_u64 (rejections ro) -> reorder_ok ro' -> conserves ro ro' outs [] -> rejections ro' = rejections ro -> hands ro ro' outs [].
Proof.
  intros Hu Hok Hc Hd. constructor; [done|]. exists [], []. split_and!; [done|done|]. by rewrite Hd, Z.add_0_r, wrap_small.
Qed.

Lemma hands_trans r1 r2 r3 o1 o2 g1 g2 :
  hands r1 r2 o1 g1 -> hands r2 r3 o2 g2 -> hands r1 r3 (o1 ++ o2) (g1 ++ g2).
Proof.
  intros [H1 (t1 & j1 & G1 & C1 & D1)] [H2 (t2 & j2 & G2 & C2 & D2)]. constructor; [done|].
  exists (t1 ++ t2), (j1 ++ j2). split_and!.
  - rewrite G1, G2. solve_Permutation.
  - unfold conserves in *. rewrite frames_in_app, <-app_assoc, C2, (Permutation_app_comm t2), app_assoc, C1. solve_Permutation.
  - rewrite D2, D1, length_app, wrap_add_l by lia. f_equal. lia.
Qed.

Lemma buffered_ensure ro sq : reorder_wf ro -> buffered (Reorderer.ensure_initialized ro sq) = buffered ro.
Proof.
  intros Hr. unfold Reorderer.ensure_initialized. destruct (Reorderer.initialized ro) eqn:Ei; [done|].
  assert (Hno : forall r', Reorderer.ring_slots r' = Reorderer.ring_slots ro -> (forall d, stored_at r' d = stored_at ro d) -> buffered r' = []).
  { intros r' Hsl Hst. apply elem_of_nil_inv. intros x Hx. apply list_elem_of_omap in Hx as (d & Hd & Hx).
    apply elem_of_seq in Hd. rewrite Hsl in Hd. rewrite Hst, (ro_fresh _ Hr) in Hx by (done || lia). done. }
  by rewrite !Hno.
Qed.

Lemma insert_total clock ro h pl sz :
  reorder_ok ro -> is_u64 (rejections ro) -> is_u32 (sequence_number h) ->
  exists ro' outs, Reorderer.insert_owned clock ro h pl sz = Some (ro', outs) /\
    hands ro ro' outs [Reorderer.ordered h pl sz (sequence_number h)].
Proof.
  intros [Hwf Hcb] Hu Hs. rewrite insert_owned_ensure.
  destruct (ensure_initialized_spec ro (sequence_number h) Hwf Hs) as (Hri & Hini & _ & Hst & _ & Hcbi & _).
  pose proof (buffered_ensure ro (sequence_number h) Hwf) as Hb. set (ri := Reorderer.ensure_initialized ro (sequence_number h)) in *.
  destruct (insert_owned_effect clock ri h pl sz (RInsertOwned h pl sz) Hri Hini Hs eq_refl)
    as (ro' & outs & E & [Hwf' _ _ Hcb' _ _ _]).
  destruct (insert_conserves clock ri h pl sz) as (r1 & o1 & E1 & Hc); [done|done|congruence|done|].
  rewrite E in E1. injection E1 as <- <-. exists ro', outs. split; [done|]. apply hands_one; [done|constructor; [done|congruence]|].
  revert Hc. unfold conserves, rejections. by rewrite Hb, Hst.
Qed.

Lemma timeout_total clock ro :
  reorder_ok ro -> is_u64 (rejections ro) ->
  exists ro' outs, Reorderer.check_timeout clock ro = Some (ro', outs) /\ hands ro ro' outs [].
Proof.
  intros [Hwf Hcb] Hu. destruct (timeout_conserves clock ro Hwf Hcb) as (ro' & outs & E & Hc & Hd).
  exists ro', outs. split; [done|]. apply hands_none; [done| |done|done]. destruct (Reorderer.initialized ro) eqn:Ei.
  - destruct (check_timeout_effect clock ro Hwf Ei) as (r1 & o1 & E1 & [Hwf' _ _ Hcb' _ _ _]).
    rewrite E in E1. injection E1 as <- <-. constructor; [done|congruence].
  - revert E. unfold Reorderer.check_timeout. rewrite Ei. by intros [= <- <-].
Qed.

Lemma rejections_range p : processing_ok p -> is_u64 (rejections (reorderer p)).
Proof. intros [_ _ _ (rej & _ & ->) _]. apply wrap_range. lia. Qed.

(** ** The processing side *)

Lemma on_frames_total clock fs : forall d r ro b hs out,
  reorder_ok ro -> is_u64 (rejections ro) -> Forall frame_u32 fs ->
  exists ro' outs, on_frames clock (mkProcessing d r ro b hs out) fs = Some (mkProcessing d r ro' b (hs ++ fs) (out ++ outs)) /\
    hands ro ro' outs (frame_packet <$> fs).
Proof.
  induction fs as [|f fs IH]; intros d r ro b hs out Hro Hu Hfs; cbn [on_frames].
  { exists ro, []. rewrite !app_nil_r. split; [done|]. apply hands_none; [done|done|apply conserves_refl|done]. }
  apply Forall_cons_1 in Hfs as [Hf Hfs]. cbn [on_frame].
  destruct (insert_total clock ro (frame_header f) (Some (frame_data f)) (frame_total_size f) Hro Hu)
    as (ro1 & o1 & -> & Hh1); [done|].
  cbn [mbind option_bind]. destruct (IH d r ro1 b (hs ++ [f]) (out ++ o1) (ha_ok _ _ _ _ Hh1)) as (ro2 & o2 & -> & Hh2); [|done|].
  { destruct Hh1 as [_ (? & ? & _ & _ & ->)]. apply wrap_range. lia. }
  exists ro2, (o1 ++ o2). rewrite <-!app_assoc. split; [done|].
  exact (hands_trans _ _ _ _ _ [frame_packet f] _ Hh1 Hh2).
Qed.

(** A step of the reorderer with the frames [fs] keeps the account. *)
Lemma hands_account d d' r r' ro ro' b b' hs out outs fs rejected :
  account (mkProcessing d r ro b hs out) rejected -> hands ro ro' outs (frame_packet <$> fs) ->
  exists rejected', account (mkProcessing d' r' ro' b' (hs ++ fs) (out ++ outs)) rejected'.
Proof.
  unfold account. cbn [handed delivered reorderer]. intros [Hl Hd] [_ (taken & rej & Hg & Hc & Hd')].
  exists (rejected ++ rej). split.
  - unfold conserves in Hc. rewrite fmap_app, Hl, Hg, frames_in_app.
    rewrite <-!app_assoc, (app_assoc (frames_in outs)), Hc. solve_Permutation.
  - rewrite Hd', Hd, wrap_add_l, length_app by lia. f_equal. lia.
Qed.

(** The frames of a reassembler step reach the reorderer. *)
Lemma frames_total clock d d0 r r' ro b b0 hs out evs :
  processing_ok (mkProcessing d0 r ro b0 hs out) -> yields r r' evs -> balance r' = balance r ->
  exists p', on_frames clock (mkProcessing d r' ro b hs out) (frames_out evs) = Some p' /\ processing_ok p' /\ reassembler p' = r'.
Proof.
  intros Hp [Hr Hf Hc] Hb'. pose proof (rejections_range _ Hp) as Hu. destruct Hp as [_ Hro Hh [rej Ha] Hb]. cbn in Hro, Hh, Hb, Hu.
  destruct (on_frames_total clock (frames_out evs) d r' ro b hs out Hro Hu Hf) as (ro' & outs & E & Hhs).
  eexists. split; [exact E|]. split; [|done]. constructor; cbn [reassembler reorderer handed]; [done|by destruct Hhs| | |congruence].
  - rewrite Hc, <-Hh, length_app, wrap_add_l by lia. f_equal. lia.
  - by eapply hands_account.
Qed.

(** A step of the reorderer alone. *)
Lemma hands_processing d r ro b hs out ro' outs :
  processing_ok (mkProcessing d r ro b hs out) -> hands ro ro' outs [] ->
  processing_ok (mkProcessing d r ro' b hs (out ++ outs)).
Proof.
  intros [Hr Hro Hh [rej Ha] Hb] Hhs. cbn in *. constructor; cbn; [done|by destruct Hhs|done| |done].
  rewrite <-(app_nil_r hs). by eapply hands_account.
Qed.

Definition call_ok (c : Dispatcher.Call) : Prop :=
  match c with
  | Dispatcher.DataHandler p | Dispatcher.ZeroCopyDataHandler p _ => packet_ok p
  | _ => True
  end.

Lemma apply_calls_total c1 c2 cs : forall p,
  processing_ok p -> Forall call_ok cs ->
  exists p', apply_calls c1 c2 p cs = Some p' /\ processing_ok p'.
Proof.
  induction cs as [|c cs IH]; intros p Hp Hcs; cbn [apply_calls]; [by eexists|].
  apply Forall_cons_1 in Hcs as [Hc Hcs].
  assert (Hstep : exists p1, apply_call c1 c2 p c = Some p1 /\ processing_ok p1).
  { destruct p as [d r ro b hs out]. pose proof (po_reasm _ Hp) as Hr. cbn in Hr.
    destruct c as [pk|pk buf|pk|n|]; cbn [apply_call call_ok] in *; try by eexists.
    - destruct (packet_yields c1 r pk Hr Hc) as (r' & evs & E & Hy).
      pose proof (balance_run_op c1 r (OpPacket pk) r' evs (rk_wf _ Hr) Hc eq_refl E) as Hb.
      rewrite E. cbn [mbind option_bind].
      destruct (frames_total c2 d d r r' ro b b hs out evs Hp Hy Hb) as (p' & -> & Hok & _). by eexists.
    - destruct (zero_copy_yields c1 r pk (Some b) Hr Hc) as (r' & evs & kept & E & Hy).
      assert (Eo : run_op c1 r (OpZeroCopy pk (Some b)) = Some (r', evs)) by (cbn; by rewrite E).
      pose proof (balance_run_op c1 r (OpZeroCopy pk (Some b)) r' evs (rk_wf _ Hr) Hc eq_refl Eo) as Hb.
      rewrite E. cbn [mbind option_bind].
      destruct (frames_total c2 d d r r' ro (S b) b hs out evs Hp Hy Hb) as (p' & -> & Hok & _). by eexists. }
  destruct Hstep as (p1 & -> & Hp1). cbn [mbind option_bind]. by apply IH.
Qed.

(** The calls a dispatch adds to the log concern its packet. *)
Definition adds_calls (pk : ParsedPacket) (d d' : Dispatcher.Dispatcher) : Prop :=
  exists cs, Dispatcher.calls_ d' = Dispatcher.calls_ d ++ cs /\
    Forall (fun c => match c with
                     | Dispatcher.DataHandler p | Dispatcher.ZeroCopyDataHandler p _ => p = pk
                     | _ => True end) cs.

Lemma heartbeat_adds_calls t pk d : adds_calls pk d (Dispatcher.dispatch_heartbeat_direct t pk d).
Proof.
  destruct d. unfold Dispatcher.dispatch_heartbeat_direct, Dispatcher.note_sequence, adds_calls.
  repeat (case_match; cbn in *; simplify_eq); try (exists []; by rewrite app_nil_r; split).
  all: eexists; cbn; rewrite <-?app_assoc; (split; [reflexivity|]); repeat constructor.
Qed.

Lemma dispatch_adds_calls t pk d : adds_calls pk d (Dispatcher.dispatch t pk d).
Proof.
  unfold Dispatcher.dispatch. repeat case_bool_decide; [|apply heartbeat_adds_calls|].
  - destruct d. cbn. case_match; [by exists [Dispatcher.DataHandler pk]; repeat constructor|].
    exists []. cbn. by rewrite app_nil_r.
  - destruct d. exists []. cbn. by rewrite app_nil_r.
Qed.

Lemma dispatch_buffer_adds_calls t pk buf d : adds_calls pk d (Dispatcher.dispatch_buffer t pk buf d).1.
Proof.
  unfold Dispatcher.dispatch_buffer. repeat case_bool_decide; cbn [fst]; [|apply heartbeat_adds_calls|].
  - destruct d. cbn. repeat case_match; cbn [fst].
    + by exists [Dispatcher.ZeroCopyDataHandler pk buf]; repeat constructor.
    + by exists [Dispatcher.DataHandler pk]; repeat constructor.
    + exists []. cbn. by rewrite app_nil_r.
  - destruct d. exists []. cbn. by rewrite app_nil_r.
Qed.

Lemma run_new_calls c1 c2 p pk d' :
  processing_ok p -> packet_ok pk -> adds_calls pk (dispatcher p) d' ->
  exists p', apply_calls c1 c2 (with_dispatcher d' p)
      (drop (length (Dispatcher.calls_ (dispatcher p))) (Dispatcher.calls_ d')) = Some p' /\ processing_ok p'.
Proof.
  intros Hp Hpk (cs & -> & Hcs). rewrite drop_app_length. apply apply_calls_total.
  - destruct p as [d r ro b hs out]. by destruct Hp.
  - revert Hcs. apply Forall_impl. intros c. by destruct c; cbn; intros ?; subst.
Qed.

Lemma process_envelope_total n c1 c2 env p :
  processing_ok p -> envelope_ok env ->
  exists p', process_envelope n c1 c2 env p = Some p' /\ processing_ok p'.
Proof.
  intros Hp [[buf Hb] Hk]. unfold process_envelope. rewrite Hb.
  pose proof (dispatch_buffer_adds_calls (n (buffers p)) (packet_of env) buf (dispatcher p)) as Hc.
  destruct (Dispatcher.dispatch_buffer _ _ _ _) as [d' kept]. by apply run_new_calls with (pk := packet_of env).
Qed.

Lemma drain_envelope_total n c1 c2 env p :
  processing_ok p -> envelope_ok env ->
  exists p', drain_envelope n c1 c2 env p = Some p' /\ processing_ok p'.
Proof.
  intros Hp [[buf Hb] Hk]. unfold drain_envelope. rewrite Hb.
  apply run_new_calls with (pk := packet_of env); [done..|]. apply dispatch_adds_calls.
Qed.

Lemma check_timeouts_face_total c1 c2 order p :
  processing_ok p -> exists p', check_timeouts_face c1 c2 order p = Some p' /\ processing_ok p'.
Proof.
  destruct p as [d r ro b hs out]. intros Hp. unfold check_timeouts_face, check_timeouts. cbn [get_current_time_ms].
  match goal with |- context [complete_keys _ ?r1 ?ks] =>
    assert (Hr1 : reasm_ok r1); [|destruct (complete_keys_yields c1 ks r1 Hr1) as (r' & evs & E & Hy)] end.
  { destruct Hp as [[Hw ? ?] _ _ _ _]. constructor; [destruct Hw; by constructor|done..]. }
  rewrite E. apply balance_complete_keys in E; [|by destruct Hr1].
  assert (Hy' : yields r r' evs) by (destruct Hy; by constructor).
  cbn [mbind option_bind].
  destruct (frames_total c2 d d r r' ro b b hs out evs Hp Hy' E) as ([d1 r1 ro1 b1 hs1 out1] & -> & Hp1 & _). cbn [mbind option_bind].
  destruct (timeout_total c2 ro1 (po_reorder _ Hp1) (rejections_range _ Hp1)) as (ro2 & o2 & -> & Hh). cbn [mbind option_bind].
  eexists. split; [done|]. by eapply hands_processing.
Qed.

(** ** The face *)

Lemma accepted_ok aid v raw env : raw_ok raw -> accepted aid v raw = Some env -> envelope_ok env.
Proof.
  intros Hraw. unfold accepted. destruct (rp_data raw) as [bs|] eqn:Ed; [|done].
  destruct (Hraw bs Ed) as [Hb Hl].
  destruct (parse (Some bs) (rp_length raw)) as [p|] eqn:Ep; cbn [mbind option_bind]; [|done].
  case_bool_decide; [|done]. intros [= <-]. split; [by eexists|].
  revert Ep. unfold parse, parse_common_header, basic_validation, COMMON_HEADER_SIZE.
  destruct (Z.ltb_spec (rp_length raw) 32); [done|].
  set (h := CommonHeader_load _).
  assert (Hok : CommonHeader_ok h) by (apply CommonHeader_load_ok; [rewrite length_take; lia|auto with cxx]).
  apply CommonHeader_ok_payload_len in Hok.
  case_tests; cbn [negb]; intros [= <-]; try lia. split; [done|].
  cbn [packet_of env_header packet_data header payload fmap option_fmap option_map]. intros pl [= <-].
  split; [auto with cxx|]. rewrite length_drop. unfold COMMON_HEADER_SIZE. lia.
Qed.

Lemma fifo_pop_ok rx e rx' :
  SPSCQueue.queue_wf QUEUE_CAPACITY (queue_ rx) ->
  Forall envelope_ok (SPSCQueue.contents QUEUE_CAPACITY (queue_ rx)) -> pop_envelope rx = (e, rx') ->
  SPSCQueue.queue_wf QUEUE_CAPACITY (queue_ rx') /\
  Forall envelope_ok (SPSCQueue.contents QUEUE_CAPACITY (queue_ rx')) /\
  match e with
  | Some env => envelope_ok env /\ length (SPSCQueue.contents QUEUE_CAPACITY (queue_ rx)) =
                S (length (SPSCQueue.contents QUEUE_CAPACITY (queue_ rx')))
  | None => SPSCQueue.contents QUEUE_CAPACITY (queue_ rx') = []
  end.
Proof.
  intros Hq Hall E. destruct (pop_envelope_spec rx Hq) as (e1 & rx1 & E1 & Hq1 & Hc & _).
  rewrite E in E1. injection E1 as <- <-. unfold Fifo.fifo_pop in Hc.
  destruct (SPSCQueue.contents QUEUE_CAPACITY (queue_ rx)) as [|x l]; injection Hc as -> ->; [done|].
  apply Forall_cons_1 in Hall as [Hx Hall]. by split_and!.
Qed.

(** With the pool the drain runs to the end; without it only if there is nothing
    to drain. *)
Lemma drain_all_total now reasm_clock reorder_clock pools n : forall f,
  face_ok f -> (length (SPSCQueue.contents QUEUE_CAPACITY (queue_ (rx_stage f))) < n)%nat ->
  pools = true \/ SPSCQueue.contents QUEUE_CAPACITY (queue_ (rx_stage f)) = [] ->
  exists f', drain_all now reasm_clock reorder_clock pools n f = Some f' /\ face_ok f' /\
    SPSCQueue.contents QUEUE_CAPACITY (queue_ (rx_stage f')) = [] /\
    (SPSCQueue.contents QUEUE_CAPACITY (queue_ (rx_stage f)) = [] -> processing f' = processing f).
Proof.
  induction n as [|n IH]; intros [aid rx p] [Hq He Hpr] Hn Hpool; [lia|]. cbn in Hq, He, Hpr, Hn, Hpool. cbn [drain_all].
  destruct (pop_envelope rx) as [e rx'] eqn:E. apply fifo_pop_ok in E as (Hq' & He' & Hx); [|done..].
  destruct e as [env|]; [|by eexists]. destruct Hx as [Henv Hlen].
  destruct Hpool as [->|Hempty]; [|by rewrite Hempty in Hlen]. cbn [negb andb].
  destruct (drain_envelope_total now reasm_clock reorder_clock env p Hpr Henv) as (p' & -> & Hp').
  cbn [mbind option_bind]. destruct (IH (mkFacePipeline aid rx' p')) as (f' & E' & Hok & Hnil & _); [by constructor|cbn; lia|by left|].
  exists f'. split_and!; [done..|]. cbn. intros Hz. by rewrite Hz in Hlen.
Qed.

Lemma drain_all_faults now reasm_clock reorder_clock n f :
  face_ok f -> SPSCQueue.contents QUEUE_CAPACITY (queue_ (rx_stage f)) <> [] ->
  drain_all now reasm_clock reorder_clock false n f = None.
Proof.
  destruct n as [|n], f as [aid rx p]; [done|]. intros [Hq He _] Hne. cbn in Hq, He, Hne. cbn [drain_all].
  destruct (pop_envelope rx) as [e rx'] eqn:E. pose proof E as Ep. apply fifo_pop_ok in E as (Hq' & He' & Hx); [|done..].
  destruct e as [env|].
  - destruct Hx as [[Hd _] _]. by rewrite bool_decide_eq_true_2.
  - destruct (pop_envelope_spec rx Hq) as (e1 & rx1 & E1 & _ & Hc & _). rewrite Ep in E1. injection E1 as <- <-.
    unfold Fifo.fifo_pop in Hc. by destruct (SPSCQueue.contents QUEUE_CAPACITY (queue_ rx)).
Qed.

Section Face.

Variables (now : nat -> Z) (reasm_clock reorder_clock : nat -> Z).
Variables (fuel k : nat) (spurious_push spurious_mark : nat -> bool).
Hypotheses (Hp : spurious_push k = false) (Hm : spurious_mark k = false) (Hf : (k + 2 <= fuel)%nat).

Lemma on_packet_ok raw rx :
  SPSCQueue.queue_wf QUEUE_CAPACITY (queue_ rx) ->
  Forall envelope_ok (SPSCQueue.contents QUEUE_CAPACITY (queue_ rx)) -> raw_ok raw ->
  exists rx', on_packet fuel spurious_push spurious_mark raw rx = Some rx' /\
    SPSCQueue.queue_wf QUEUE_CAPACITY (queue_ rx') /\
    Forall envelope_ok (SPSCQueue.contents QUEUE_CAPACITY (queue_ rx')).
Proof.
  intros Hq Hall Hraw.
  destruct (on_packet_spec fuel spurious_push spurious_mark k raw rx Hq Hp Hm Hf)
    as (rx' & E & Hq' & _ & _ & _ & _ & Hacc).
  exists rx'. split_and!; [done..|].
  destruct (accepted (array_id_ rx) (validator_ rx) raw) as [env|] eqn:Ea.
  - destruct Hacc as [Hc _]. rewrite Hc. apply accepted_ok in Ea; [|done]. unfold Fifo.push_drop.
    case_match; cbn [snd]; apply Forall_app; (split; [|by apply Forall_singleton]); [done|].
    destruct (SPSCQueue.contents QUEUE_CAPACITY (queue_ rx)); [done|]. by apply Forall_cons_1 in Hall as [_ Hall].
  - by destruct Hacc as [-> _].
Qed.

Lemma face_step_total f op :
  face_ok f -> face_op_ok op ->
  exists f', face_step now reasm_clock reorder_clock fuel spurious_push spurious_mark f op = Some f' /\ face_ok f'.
Proof.
  destruct f as [aid rx p]. intros [Hq He Hpr] Hop. cbn in Hq, He, Hpr. destruct op as [raw| | |order]; cbn [face_step].
  - destruct (on_packet_ok raw rx Hq He Hop) as (rx' & -> & Hq' & He'). by eexists.
  - destruct (pop_envelope rx) as [e rx'] eqn:E. apply fifo_pop_ok in E as (Hq' & He' & Hx); [|done..].
    destruct e as [env|]; [|by eexists]. destruct Hx as [Henv _].
    destruct (process_envelope_total now reasm_clock reorder_clock env p Hpr Henv) as (p' & -> & Hp'). by eexists.
  - destruct (pop_envelope rx) as [e rx'] eqn:E. apply fifo_pop_ok in E as (Hq' & He' & Hx); [|done..].
    destruct e as [env|]; [|by eexists]. destruct Hx as [Henv _].
    destruct (drain_envelope_total now reasm_clock reorder_clock env p Hpr Henv) as (p' & -> & Hp'). by eexists.
  - destruct (check_timeouts_face_total reasm_clock reorder_clock order p Hpr) as (p' & -> & Hp'). by eexists.
Qed.

Lemma face_run_total ops : forall f,
  face_ok f -> Forall face_op_ok ops ->
  exists f', face_run now reasm_clock reorder_clock fuel spurious_push spurious_mark f ops = Some f' /\ face_ok f'.
Proof.
  induction ops as [|op ops IH]; intros f Hfo Hops; cbn [face_run]; [by eexists|].
  apply Forall_cons_1 in Hops as [Hop Hops].
  destruct (face_step_total f op Hfo Hop) as (f1 & -> & Hf1). cbn [mbind option_bind]. by apply IH.
Qed.

End Face.

(** ** The flush *)

Definition no_buffers (r : Reassembler) : Prop := map_Forall (fun _ c => context_buffers c = []) (contexts_ r).

Lemma flush_reassembler_total c1 c2 pools order p :
  processing_ok p -> (forall key, contexts_ (reassembler p) !! key <> None -> key ∈ order) ->
  pools = true \/ no_buffers (reassembler p) ->
  exists p', flush_reassembler c1 c2 pools order p = Some (p', Z.of_nat (length order)) /\
    processing_ok p' /\ contexts_ (reassembler p') = ∅.
Proof.
  destruct p as [d r ro b hs out]. intros Hpr Hord Hpool. cbn in Hord, Hpool. unfold flush_reassembler, flush_all.
  match goal with |- context [negb pools && ?t] => assert (Hz : negb pools && t = false) end.
  { destruct Hpool as [->|Hno]; [done|]. apply andb_false_iff. right. apply not_true_iff_false. intros Hx.
    apply existsb_exists in Hx as (key & _ & Hx). destruct (contexts_ r !! key) as [c|] eqn:Ek; [|done].
    by rewrite bool_decide_eq_true_2 in Hx by (by apply (Hno key)). }
  rewrite Hz. destruct (complete_keys_yields c1 order r (po_reasm _ Hpr)) as (r' & evs & E & Hy).
  destruct (complete_keys_spec c1 order r (rk_wf _ (po_reasm _ Hpr))) as (r2 & evs2 & E2 & _ & _ & Hctx).
  rewrite E in E2. injection E2 as <- <-. rewrite E. cbn [mbind option_bind].
  apply balance_complete_keys in E; [|by destruct Hpr as [[] _ _ _ _]].
  destruct (frames_total c2 d d r r' ro b b hs out evs Hpr Hy E) as (p' & -> & Hok & Hr).
  cbn [mbind option_bind]. exists p'. split; [done|]. split; [done|]. rewrite Hr. apply map_eq. intros key.
  rewrite Hctx, lookup_empty. case_decide as Hin; [done|].
  destruct (contexts_ r !! key) eqn:Ek; [|done]. destruct Hin. apply Hord. congruence.
Qed.

Lemma flush_reassembler_faults c1 c2 order p :
  (forall key, contexts_ (reassembler p) !! key <> None -> key ∈ order) -> ~ no_buffers (reassembler p) ->
  flush_reassembler c1 c2 false order p = None.
Proof.
  destruct p as [d r ro b hs out]. cbn. intros Hord Hno.
  match goal with |- (if ?t then _ else _) = _ => assert (Hx : t = true); [|by rewrite Hx] end.
  apply existsb_exists. apply map_not_Forall in Hno as (key & c & Hk & Hc); [|solve_decision].
  exists key. split; [apply list_elem_of_In, Hord; congruence|]. by rewrite Hk, bool_decide_eq_false_2.
Qed.

Lemma flush_reorderer_total p :
  processing_ok p ->
  exists p' n, flush_reorderer p = (p', n) /\ processing_ok p' /\ reassembler p' = reassembler p /\
    n = Reorderer.current_buffer_size (Reorderer.stats (reorderer p)) /\
    (forall d, (d < length (Reorderer.ring_slots (reorderer p')))%nat -> stored_at (reorderer p') d = None).
Proof.
  destruct p as [d r ro b hs out]. intros Hpr. pose proof (po_reorder _ Hpr) as [Hwf Hcb]. cbn in Hwf, Hcb.
  pose proof (flush_conserves ro Hwf Hcb) as Hc.
  destruct (flush_spec ro Hwf) as (ro' & outs & E & _ & _ & Hst & Hwf' & _ & _ & _ & _ & Hcb' & _ & _ & Hd & _).
  unfold flush_reorderer. rewrite E in *. rewrite Hcb in *. destruct Hc as [Hc _]. eexists _, _. split; [done|].
  split_and!; [|done..]. eapply hands_processing; [done|].
  apply hands_none; [exact (rejections_range _ Hpr)|constructor; [done|congruence]|done|done].
Qed.

(** With an empty window every frame is settled: each frame handed over by the
    reassembler is delivered once, or rejected. *)
Definition settled (p : Processing) : Prop :=
  exists rejected, frame_packet <$> handed p ≡ₚ frames_in (delivered p) ++ rejected /\
    Reorderer.packets_duplicate (Reorderer.stats (reorderer p)) = u64 (Z.of_nat (length rejected)) /\
    u64 (Z.of_nat (length (handed p))) =
      u64 (frames_completed (stats_ (reassembler p)) + frames_incomplete (stats_ (reassembler p))).

Lemma empty_window_settled p :
  processing_ok p -> (forall d, (d < length (Reorderer.ring_slots (reorderer p)))%nat -> stored_at (reorderer p) d = None) ->
  settled p.
Proof.
  intros [_ _ Hh (rej & Hl & Hd) _] Hno. exists rej. split_and!; [|done|done]. rewrite Hl.
  assert (buffered (reorderer p) = []) as ->; [|done]. apply elem_of_nil_inv. intros x Hx.
  apply list_elem_of_omap in Hx as (d & Hd' & Hx). apply elem_of_seq in Hd'. rewrite Hno in Hx by lia. done.
Qed.

(** With the pool, or with nothing to use it for, the shutdown completes. *)
Lemma shutdown_face_total now c1 c2 pools order f :
  face_ok f -> (forall m key, m !! key <> None -> key ∈ order m) -> pools = true \/ idle f ->
  exists f' forced drained,
    shutdown_face now c1 c2 pools (S (length (SPSCQueue.contents QUEUE_CAPACITY (queue_ (rx_stage f))))) order f =
      Some (f', forced, drained) /\
    SPSCQueue.contents QUEUE_CAPACITY (queue_ (rx_stage f')) = [] /\
    contexts_ (reassembler (processing f')) = ∅ /\
    (forall d, (d < length (Reorderer.ring_slots (reorderer (processing f'))))%nat ->
       stored_at (reorderer (processing f')) d = None) /\ settled (processing f').
Proof.
  intros Hok Hord Hpool. unfold shutdown_face.
  destruct (drain_all_total now c1 c2 pools (S (length (SPSCQueue.contents QUEUE_CAPACITY (queue_ (rx_stage f))))) f Hok)
    as ([aid rx p] & -> & [_ _ Hpr] & Hq & Hsame); [lia|unfold idle in Hpool; tauto|]. cbn [mbind option_bind processing] in *.
  destruct (flush_reassembler_total c1 c2 pools (order (contexts_ (reassembler p))) p Hpr) as (p1 & -> & Hp1 & Hempty); [apply Hord| |].
  { destruct Hpool as [?|[Hz Hno]]; [by left|right]. by rewrite (Hsame Hz). }
  cbn [mbind option_bind]. destruct (flush_reorderer_total p1 Hp1) as (p2 & n & -> & Hp2 & Hr & _ & Hst).
  eexists _, _, _. split; [done|]. cbn [rx_stage processing]. rewrite Hr. split_and!; [done..|]. by apply empty_window_settled.
Qed.

(** Without the pool, and with a packet in it, the shutdown faults. *)
Lemma shutdown_face_faults now c1 c2 n order f :
  face_ok f -> (forall m key, m !! key <> None -> key ∈ order m) -> ~ idle f ->
  shutdown_face now c1 c2 false n order f = None.
Proof.
  intros Hok Hord Hidle. unfold shutdown_face.
  destruct (decide (SPSCQueue.contents QUEUE_CAPACITY (queue_ (rx_stage f)) = [])) as [Hz|Hz]; [|by rewrite drain_all_faults].
  destruct n as [|n]; [done|].
  destruct (drain_all_total now c1 c2 false (S n) f Hok) as ([aid rx p] & -> & _ & _ & Hsame); [rewrite Hz; cbn; lia|by right|].
  specialize (Hsame Hz). cbn [mbind option_bind processing] in *. rewrite flush_reassembler_faults; [done|apply Hord|].
  intros Hno. apply Hidle. split; [done|]. by rewrite <-Hsame.
Qed.

(** ** Theorems *)

Lemma build_face_ok reorder_clock c idx :
  Config.config_typed c -> Config.config_valid c ->
  Config.sample_count_fixed (Config.reassembly c) < 2 ^ 32 ->
  Config.max_reasm_bytes_per_key (Config.reassembly c) < 2 ^ 40 ->
  1 <= Config.max_contexts (Config.reassembly c) < 2 ^ 40 ->
  Config.window_size (Config.reorder c) <= 2 ^ 31 ->
  face_ok (build_face reorder_clock c idx).
Proof.
  intros Ht Hv Hsc Hby Hctx Hwin.
  destruct (build_face_ready reorder_clock c idx ReassemblyKey_zero 0 Ht Hv Hsc Hby Hctx Hwin)
    as [Hq He _ Hr Hcb _ _ _ _ [Haw Hacb _ _] _]; [destruct Ht, Hv; unfold in_range in *; lia|done|].
  constructor; [done|by rewrite He|]. constructor; [|by constructor|done| |done].
  - constructor; [done..|]. intros key. cbn. by rewrite lookup_empty.
  - exists []. split; [|done]. cbn [build_face processing handed delivered reorderer fmap list_fmap frames_in app].
    apply reflexive_eq. symmetry. rewrite app_nil_r. apply elem_of_nil_inv. intros x Hx.
    apply list_elem_of_omap in Hx as (d & Hd & Hx). apply elem_of_seq in Hd. pose proof (ro_fresh _ Haw eq_refl d (proj2 Hd)) as Hn. cbn in Hn, Hx. by rewrite Hn in Hx.
Qed.

(** C3: what becomes of the packets of a face when it is shut down.  Build a
    face from a validated configuration of reasonable size and let its threads do
    anything, operation by operation: receive any datagrams, process, drain and scan
    for timeouts in any order and number; none of this faults, weak
    compare-exchanges not failing spuriously for ever.  Then shut the face down: drain the
    queue, flush the reassembler, flush the reorderer, whatever order the context
    map is traversed in.  If the packet pool still exists, or the face holds no
    packet of it, every loop ends; the queue, the reassembler and the reordering
    window are empty; and the frames the reassembler ever handed over, complete
    or not, are a permutation of the frames delivered and the frames rejected as
    duplicate or out of the window, the latter as many as the reorderer counts
    (modulo 2^64): none is lost and none delivered twice.  If the pool is gone,
    as it is in [app_shutdown], and a packet of it is queued or held by a
    context, the shutdown uses freed memory. *)
Theorem face_loses_no_frame (now reasm_clock reorder_clock : nat -> Z) (fuel k : nat)
    (spurious_push spurious_mark : nat -> bool) (c : Config.ReceiverConfig) (idx : nat) (pools : bool)
    (order : gmap ReassemblyKey ReassemblyContext -> list ReassemblyKey) (ops : list FaceOp)
    (Hp : spurious_push k = false) (Hm : spurious_mark k = false) (Hf : (k + 2 <= fuel)%nat)
    (Ht : Config.config_typed c) (Hv : Config.config_valid c)
    (Hsc : Config.sample_count_fixed (Config.reassembly c) < 2 ^ 32)
    (Hby : Config.max_reasm_bytes_per_key (Config.reassembly c) < 2 ^ 40)
    (Hctx : 1 <= Config.max_contexts (Config.reassembly c) < 2 ^ 40)
    (Hwin : Config.window_size (Config.reorder c) <= 2 ^ 31)
    (Hops : Forall face_op_ok ops)
    (Hord : forall m key, m !! key <> None -> key ∈ order m) :
  exists f,
    face_run now reasm_clock reorder_clock fuel spurious_push spurious_mark
      (build_face reorder_clock c idx) ops = Some f /\
    let shutdown := shutdown_face now reasm_clock reorder_clock pools
      (S (length (SPSCQueue.contents QUEUE_CAPACITY (queue_ (rx_stage f))))) order f in
    (pools = false -> ~ idle f -> shutdown = None) /\
    (pools = true \/ idle f -> exists f' forced drained rejected,
      shutdown = Some (f', forced, drained) /\
      SPSCQueue.contents QUEUE_CAPACITY (queue_ (rx_stage f')) = [] /\
      contexts_ (reassembler (processing f')) = ∅ /\
      (forall d, (d < length (Reorderer.ring_slots (reorderer (processing f'))))%nat ->
         stored_at (reorderer (processing f')) d = None) /\
      frame_packet <$> handed (processing f') ≡ₚ frames_in (delivered (processing f')) ++ rejected /\
      Reorderer.packets_duplicate (Reorderer.stats (reorderer (processing f'))) = u64 (Z.of_nat (length rejected)) /\
      u64 (Z.of_nat (length (handed (processing f')))) =
        u64 (frames_completed (stats_ (reassembler (processing f'))) +
             frames_incomplete (stats_ (reassembler (processing f'))))).
Proof.
  destruct (face_run_total now reasm_clock reorder_clock fuel k spurious_push spurious_mark Hp Hm Hf ops
    (build_face reorder_clock c idx)) as (f & E & Hok); [by apply build_face_ok|done|].
  exists f. split; [done|]. split; [intros -> Hidle; by apply shutdown_face_faults|]. intros Hpool.
  destruct (shutdown_face_total now reasm_clock reorder_clock pools order f Hok Hord Hpool)
    as (f' & forced & drained & Es & H1 & H2 & H3 & rejected & H4 & H5 & H6). by exists f', forced, drained, rejected.
Qed.

(** The default configuration; a face with one fragment of two in a context, shut
    down before the frame is complete: with its pool the incomplete frame is
    delivered, without it the shutdown faults. *)
Lemma face_loses_no_frame_witness :
  let ops := [Receive (sample_raw 1 (replicate 40 0) [4;5]); Process; Timeouts []] in
  let order m := (map_to_list m).*1 in
  exists f f' forced drained,
    face_run (fun _ => 0) (fun _ => 0) (fun _ => 0) 2 (fun _ => false) (fun _ => false)
      (build_face (fun _ => 0) Config.ReceiverConfig_default 0) ops = Some f /\
    shutdown_face (fun _ => 0) (fun _ => 0) (fun _ => 0) true
      (S (length (SPSCQueue.contents QUEUE_CAPACITY (queue_ (rx_stage f))))) order f = Some (f', forced, drained) /\
    shutdown_face (fun _ => 0) (fun _ => 0) (fun _ => 0) false
      (S (length (SPSCQueue.contents QUEUE_CAPACITY (queue_ (rx_stage f))))) order f = None.
Proof.
  intros ops order.
  assert (Hall : forall pools, exists f,
    face_run (fun _ => 0) (fun _ => 0) (fun _ => 0) 2 (fun _ => false) (fun _ => false)
      (build_face (fun _ => 0) Config.ReceiverConfig_default 0) ops = Some f /\
    let shutdown := shutdown_face (fun _ => 0) (fun _ => 0) (fun _ => 0) pools
      (S (length (SPSCQueue.contents QUEUE_CAPACITY (queue_ (rx_stage f))))) order f in
    (pools = false -> ~ idle f -> shutdown = None) /\
    (pools = true \/ idle f -> exists f' forced drained, shutdown = Some (f', forced, drained))).
  { intros pools. destruct (face_loses_no_frame (fun _ => 0) (fun _ => 0) (fun _ => 0) 2 0 (fun _ => false) (fun _ => false)
      Config.ReceiverConfig_default 0 pools order ops) as (f & E & Hno & Hyes).
    - reflexivity.
    - reflexivity.
    - lia.
    - apply Config.default_typed.
    - apply Config.validate_spec; [apply Config.default_typed|vm_compute; reflexivity].
    - vm_compute. reflexivity.
    - vm_compute. reflexivity.
    - vm_compute. split; congruence.
    - vm_compute. congruence.
    - apply Forall_cons_2; [|by repeat (apply Forall_cons_2; [exact I|]); apply Forall_nil_2].
      intros bs [= <-]. split; [apply bytes_okb_ok; vm_compute; reflexivity|]. vm_compute. split; congruence.
    - intros m key Hk. destruct (m !! key) as [x|] eqn:E; [|done].
      apply list_elem_of_fmap. exists (key, x). split; [done|]. by apply elem_of_map_to_list.
    - exists f. split; [exact E|]. split; [exact Hno|]. intros Hp. destruct (Hyes Hp) as (f' & a & b & _ & Es & _). by exists f', a, b. }
  destruct (Hall true) as (f & E & _ & Hyes), (Hall false) as (f2 & E2 & Hno & _). rewrite E in E2. injection E2 as <-.
  destruct (Hyes (or_introl eq_refl)) as (f' & forced & drained & Es). exists f, f', forced, drained.
  split_and!; [exact E|exact Es|]. apply Hno; [reflexivity|]. intros Hidle.
  assert (Hb : bool_decide (idle f) = true) by (by apply bool_decide_eq_true_2).
  assert (Hn : match face_run (fun _ => 0) (fun _ => 0) (fun _ => 0) 2 (fun _ => false) (fun _ => false)
      (build_face (fun _ => 0) Config.ReceiverConfig_default 0) ops with Some g => bool_decide (idle g) | None => true end = false)
    by (vm_compute; reflexivity).
  rewrite E, Hb in Hn. discriminate Hn.
Defined.

End FaceShutdown.
