(* ===== verification/PacketPool.v ===== *)
(** [PacketPool] and [PacketBuffer]
    ([include/qdgz300/m01_receiver/network/packet_pool.h],
    [src/m01_receiver/network/packet_pool.cpp]): a free list of fixed-size buffers
    with a heap fallback, first as calls of one thread, then as the atomic steps
    of several threads. *)

From S2P Require Import Prelude.
Open Scope Z_scope.

Module PacketPool.

(** ** Definitions *)

Definition kFallbackMagic : Z := 0xFACC0DE1.

(** [sizeof(FallbackHeader)]. *)
Definition FallbackHeader_SIZE : Z := 4.

Record Statistics := mkStatistics {
  total_size : Z;
  available : Z;
  allocated : Z;
  alloc_count : Z;
  dealloc_count : Z;
  fallback_alloc : Z;
}.

(** [Impl]: node [i] describes the buffer at [pool_begin + i * packet_size_], its
    [next] is the index of the next free node.  [magic_at] is the header word of
    the heap blocks that are in use. *)
Record PacketPool := mkPacketPool {
  packet_size_ : Z;
  pool_size_ : nat;
  pool_begin : Z;
  pool_end : Z;
  nodes : list (option nat);
  free_head : option nat;
  stats : Statistics;
  magic_at : gmap Z Z;
}.

(** The constructor; [storage] is the address [NumaAllocator] returned, [None]
    for [std::bad_alloc]. *)
Definition PacketPool_init (packet_size : Z) (pool_size : nat) (storage : option Z) : PacketPool :=
  let none := mkPacketPool packet_size pool_size 0 0 [] None (mkStatistics 0 0 0 0 0 0) ∅ in
  if (packet_size =? 0) || (pool_size =? 0)%nat then none
  else
    match storage with
    | None => none
    | Some base =>
      let bytes_total := u64 (packet_size * Z.of_nat pool_size) in
      mkPacketPool packet_size pool_size base (base +[64] bytes_total)
        ((fun i => if (i + 1 <? pool_size)%nat then Some (i + 1)%nat else None) <$> seq 0 pool_size)
        (Some 0%nat)
        (mkStatistics (Z.of_nat pool_size) (Z.of_nat pool_size) 0 0 0 0) ∅
    end.

(** The buffer of a node: the constructor sets it once. *)
Definition node_buffer (p : PacketPool) (i : nat) : Z := pool_begin p + Z.of_nat i * packet_size_ p.

Definition with_stats (f : Statistics -> Statistics) (p : PacketPool) : PacketPool :=
  let '(mkPacketPool a b c d e g s m) := p in mkPacketPool a b c d e g (f s) m.

(** [available--, allocated++] and the reverse. *)
Definition take_one (s : Statistics) : Statistics :=
  mkStatistics (total_size s) (available s -[64] 1) (allocated s +[64] 1) (alloc_count s)
    (dealloc_count s) (fallback_alloc s).

Definition give_back (s : Statistics) : Statistics :=
  mkStatistics (total_size s) (available s +[64] 1) (allocated s -[64] 1) (alloc_count s)
    (dealloc_count s) (fallback_alloc s).

Definition inc_alloc (s : Statistics) : Statistics :=
  mkStatistics (total_size s) (available s) (allocated s) (inc64 (alloc_count s))
    (dealloc_count s) (fallback_alloc s).

Definition inc_dealloc (s : Statistics) : Statistics :=
  mkStatistics (total_size s) (available s) (allocated s) (alloc_count s)
    (inc64 (dealloc_count s)) (fallback_alloc s).

Definition inc_fallback (s : Statistics) : Statistics :=
  mkStatistics (total_size s) (available s) (allocated s) (alloc_count s)
    (dealloc_count s) (inc64 (fallback_alloc s)).

(** [allocate]: [heap] is what [new (nothrow)] returns if it is called.  A weak
    compare-exchange that fails spuriously is repeated on the same head. *)
Definition allocate (heap : option Z) (p : PacketPool) : option Z * PacketPool :=
  let '(mkPacketPool ps n pb pe ns fh s m) := with_stats inc_alloc p in
  match fh with
  | Some head =>
    let next := default None (ns !! head) in
    (Some (node_buffer p head), mkPacketPool ps n pb pe ns next (take_one s) m)
  | None =>
    let s := inc_fallback s in
    match heap with
    | None => (None, mkPacketPool ps n pb pe ns fh s m)
    | Some raw => (Some (raw + FallbackHeader_SIZE),
                   mkPacketPool ps n pb pe ns fh s (<[raw := kFallbackMagic]> m))
    end
  end.

(** [deallocate]; the second result is the block given to [delete[]]. *)
Definition deallocate (buffer : option Z) (p : PacketPool) : PacketPool * option Z :=
  match buffer with
  | None => (p, None)
  | Some addr =>
    let '(mkPacketPool ps n pb pe ns fh s m) := with_stats inc_dealloc p in
    if (pb <=? addr) && (addr <? pe) then
      let offset := addr - pb in
      if (ps =? 0) || negb (offset mod ps =? 0) then (mkPacketPool ps n pb pe ns fh s m, None)
      else
        let index := Z.to_nat (offset / ps) in
        if (length ns <=? index)%nat then (mkPacketPool ps n pb pe ns fh s m, None)
        else (mkPacketPool ps n pb pe (<[index := fh]> ns) (Some index) (give_back s) m, None)
    else
      let raw := addr - FallbackHeader_SIZE in
      if default 0 (m !! raw) =? kFallbackMagic
      then (mkPacketPool ps n pb pe ns fh s (delete raw m), Some raw)
      else (mkPacketPool ps n pb pe ns fh s m, Some addr)
  end.

Definition get_statistics (p : PacketPool) : Statistics := stats p.

(** ** The free list *)

(** [l] are the nodes reachable from [h], in order. *)
Fixpoint chain (ns : list (option nat)) (h : option nat) (l : list nat) : Prop :=
  match l with
  | [] => h = None
  | i :: l => h = Some i /\ exists h', ns !! i = Some h' /\ chain ns h' l
  end.

Lemma chain_insert ns i x h l : i ∉ l -> chain ns h l -> chain (<[i := x]> ns) h l.
Proof.
  revert h. induction l as [|j l IH]; intros h Hi; cbn [chain]; [done|].
  apply not_elem_of_cons in Hi as [Hne Hi]. intros (-> & h' & Hj & Hc). split; [done|].
  exists h'. split; [by rewrite list_lookup_insert_ne|]. by apply IH.
Qed.

Lemma chain_lt ns h l : chain ns h l -> Forall (fun i => i < length ns)%nat l.
Proof.
  revert h. induction l as [|i l IH]; intros h; cbn [chain]; [intros _; apply Forall_nil_2|].
  intros (-> & h' & Hi & Hc). apply Forall_cons_2; [by apply lookup_lt_Some in Hi|by eapply IH].
Qed.

(** The initial list links every node to its successor. *)
Lemma chain_initial n k :
  (k <= n)%nat ->
  chain ((fun i => if (i + 1 <? n)%nat then Some (i + 1)%nat else None) <$> seq 0 n)
    (if (k <? n)%nat then Some k else None) (seq k (n - k)).
Proof.
  intros Hk. remember (n - k)%nat as m eqn:Em. revert k Hk Em.
  induction m as [|m IH]; intros k Hk Em; cbn [seq chain].
  - destruct (Nat.ltb_spec k n); [lia|done].
  - destruct (Nat.ltb_spec k n); [|lia]. split; [done|].
    exists (if (k + 1 <? n)%nat then Some (k + 1)%nat else None). split.
    + rewrite list_lookup_fmap, lookup_seq_lt by done. done.
    + replace (k + 1)%nat with (S k) by lia. apply IH; lia.
Qed.

(** ** Calls of one thread *)

Section Sequential.

Context (ps : Z) (n : nat) (base : Z).
Hypothesis Hps : 0 < ps.
Hypothesis Hn : (0 < n)%nat.
Hypothesis Hbase : 0 <= base.
Hypothesis Hfit : base + ps * Z.of_nat n < 2 ^ 64.

Definition limit : Z := base + ps * Z.of_nat n.

(** The [len] bytes at [a] and the [len'] bytes at [b] do not overlap. *)
Definition apart (a len b len' : Z) : Prop := a + len <= b \/ b + len' <= a.

(** What [new] promises: a block that overlaps neither the pool nor a heap block
    in use. *)
Definition fresh_block (held : list Z) (raw : Z) : Prop :=
  apart raw (FallbackHeader_SIZE + ps) base (ps * Z.of_nat n) /\
  Forall (fun b => ~ (base <= b < limit) ->
    apart raw (FallbackHeader_SIZE + ps) (b - FallbackHeader_SIZE) (FallbackHeader_SIZE + ps)) held.

(** The states a client reaches that only returns buffers it holds, each once;
    [held] are the buffers handed out. *)
Inductive reach : PacketPool -> list Z -> Prop :=
  | reach_init : reach (PacketPool_init ps n (Some base)) []
  | reach_alloc p held heap b p' :
      reach p held -> (forall raw, heap = Some raw -> fresh_block held raw) ->
      allocate heap p = (Some b, p') -> reach p' (b :: held)
  | reach_exhausted p held p' :
      reach p held -> allocate None p = (None, p') -> reach p' held
  | reach_free p l1 b l2 p' d :
      reach p (l1 ++ b :: l2) -> deallocate (Some b) p = (p', d) -> reach p' (l1 ++ l2).

(** [fl] is the free list, [hp] the nodes and [hf] the heap blocks in use. *)
Record pool_inv (p : PacketPool) (held : list Z) (fl hp : list nat) (hf : list Z) : Prop := {
  pi_params : packet_size_ p = ps /\ pool_begin p = base /\ pool_end p = limit;
  pi_nodes : length (nodes p) = n;
  pi_chain : chain (nodes p) (free_head p) fl;
  pi_all : fl ++ hp ≡ₚ seq 0 n;
  pi_held : held ≡ₚ (node_buffer p <$> hp) ++ ((fun raw => raw + FallbackHeader_SIZE) <$> hf);
  pi_magic : Forall (fun raw => magic_at p !! raw = Some kFallbackMagic) hf;
  pi_nodup : NoDup hf;
  pi_pool : Forall (fun raw => apart raw (FallbackHeader_SIZE + ps) base (ps * Z.of_nat n)) hf;
  pi_heap : forall r1 r2, r1 ∈ hf -> r2 ∈ hf -> r1 <> r2 ->
    apart r1 (FallbackHeader_SIZE + ps) r2 (FallbackHeader_SIZE + ps);
  pi_available : available (stats p) = Z.of_nat (length fl);
  pi_allocated : allocated (stats p) = Z.of_nat (length hp);
}.

Lemma bytes_range : 0 < ps * Z.of_nat n < 2 ^ 64 /\ Z.of_nat n < 2 ^ 64.
Proof.
  assert (Z.of_nat n <= ps * Z.of_nat n) by nia.
  assert (0 < ps * Z.of_nat n) by nia. lia.
Qed.

Lemma node_buffer_pool p i :
  packet_size_ p = ps -> pool_begin p = base -> (i < n)%nat ->
  base <= node_buffer p i /\ node_buffer p i + ps <= limit.
Proof. intros Hp Hb Hi. unfold node_buffer, limit. rewrite Hp, Hb. nia. Qed.

Lemma held_node p held fl hp hf i : pool_inv p held fl hp hf -> i ∈ hp -> (i < n)%nat.
Proof.
  intros Hi Hin. assert (Hs : i ∈ seq 0 n) by (rewrite <-(pi_all _ _ _ _ _ Hi); set_solver).
  apply elem_of_seq in Hs. lia.
Qed.

Lemma pool_inv_init : pool_inv (PacketPool_init ps n (Some base)) [] (seq 0 n) [] [].
Proof.
  pose proof bytes_range as Hrng.
  unfold PacketPool_init. rewrite (proj2 (Z.eqb_neq ps 0)) by lia.
  rewrite (proj2 (Nat.eqb_neq n 0)) by lia. cbn [orb].
  assert (Hb : u64 (ps * Z.of_nat n) = ps * Z.of_nat n) by (apply wrap_small; unfold in_range; lia).
  constructor; cbn [packet_size_ pool_begin pool_end nodes free_head stats available allocated magic_at].
  - rewrite Hb. split_and!; [done..|]. unfold limit. apply wrap_small. unfold in_range. lia.
  - by rewrite length_fmap, length_seq.
  - pose proof (chain_initial n 0) as Hc. rewrite Nat.sub_0_r in Hc.
    destruct (Nat.ltb_spec 0 n); [|lia]. apply Hc. lia.
  - by rewrite app_nil_r.
  - done.
  - apply Forall_nil_2.
  - apply NoDup_nil_2.
  - apply Forall_nil_2.
  - intros r1 r2 Hin. by apply not_elem_of_nil in Hin.
  - by rewrite length_seq.
  - done.
Qed.

Lemma pool_inv_alloc p held fl hp hf heap b p' :
  pool_inv p held fl hp hf -> (forall raw, heap = Some raw -> fresh_block held raw) ->
  allocate heap p = (Some b, p') -> exists fl' hp' hf', pool_inv p' (b :: held) fl' hp' hf'.
Proof.
  pose proof bytes_range as Hrng. intros Hi Hfr Ha. pose proof Hi as [(Hp & Hb & He) Hnn Hch Hall Hhe Hma Hnd Hpo Hhp Hav Hal].
  destruct p as [ps' n' pb pe ns fh s m]. cbn in *. subst ps' pb pe.
  assert (Hle : (length fl + length hp = n)%nat).
  { rewrite <-length_app, Hall. apply length_seq. }
  destruct fl as [|i fl]; cbn [chain] in Hch.
  - subst fh. destruct heap as [raw|]; cbn in Ha; [|done]. injection Ha as <- <-.
    destruct (Hfr raw eq_refl) as [Hf1 Hf2].
    assert (Hnew : forall r, r ∈ hf -> apart raw (FallbackHeader_SIZE + ps) r (FallbackHeader_SIZE + ps)).
    { intros r Hr. rewrite list.Forall_forall in Hf2, Hpo. specialize (Hpo r Hr).
      specialize (Hf2 (r + FallbackHeader_SIZE)). unfold apart, limit, FallbackHeader_SIZE in *.
      destruct Hf2; [|lia..]. rewrite Hhe. apply elem_of_app. right. apply list_elem_of_fmap. by exists r. }
    assert (Hni : raw ∉ hf).
    { intros Hin%Hnew. unfold apart, FallbackHeader_SIZE in Hin. lia. }
    exists [], hp, (raw :: hf). constructor; cbn; try done.
    + rewrite Hhe. by rewrite Permutation_middle.
    + apply Forall_cons_2; [by rewrite lookup_insert_eq|]. eapply Forall_impl; [exact Hma|].
      cbn. intros r Hr. destruct (decide (r = raw)) as [->|]; [by rewrite lookup_insert_eq|by rewrite lookup_insert_ne].
    + by apply NoDup_cons_2.
    + by apply Forall_cons_2.
    + intros r1 r2 [->|H1]%elem_of_cons [->|H2]%elem_of_cons Hne; [done|by apply Hnew| |by apply Hhp].
      specialize (Hnew r1 H1). unfold apart in *. tauto.
  - destruct Hch as (-> & h' & Hh & Hch). cbn in Ha. injection Ha as <- <-. rewrite Hh. cbn.
    exists fl, (i :: hp), hf. constructor; cbn [packet_size_ pool_begin pool_end nodes free_head stats magic_at]; try done.
    + rewrite <-Hall. cbn. by rewrite Permutation_middle.
    + rewrite Hhe. done.
    + cbn [take_one available inc_alloc]. rewrite Hav. cbn [length] in *. wrap_lia.
    + cbn [take_one allocated inc_alloc]. rewrite Hal. cbn [length] in *. wrap_lia.
Qed.

Lemma pool_inv_exhausted p held fl hp hf p' :
  pool_inv p held fl hp hf -> allocate None p = (None, p') -> pool_inv p' held fl hp hf.
Proof.
  intros [] Ha. destruct p as [ps' n' pb pe ns [h|] s m]; cbn in Ha; [done|]. injection Ha as <-.
  by constructor.
Qed.

(** A buffer of the pool goes back to the free list, a heap block is deleted. *)
Lemma deallocate_node p i :
  packet_size_ p = ps -> pool_begin p = base -> pool_end p = limit -> length (nodes p) = n ->
  (i < n)%nat ->
  deallocate (Some (node_buffer p i)) p =
  (mkPacketPool (packet_size_ p) (pool_size_ p) (pool_begin p) (pool_end p)
     (<[i := free_head p]> (nodes p)) (Some i) (give_back (inc_dealloc (stats p))) (magic_at p), None).
Proof.
  intros Hp Hb He Hl Hi. destruct (node_buffer_pool p i Hp Hb Hi) as [H1 H2].
  destruct p as [ps' n' pb pe ns fh s m]. cbn [packet_size_ pool_begin pool_end nodes] in *. subst ps' pb pe.
  unfold deallocate. cbn [with_stats].
  rewrite (proj2 (Z.leb_le _ _) H1), (proj2 (Z.ltb_lt _ _)) by lia. cbn [andb].
  unfold node_buffer. cbn [packet_size_ pool_begin].
  replace (base + Z.of_nat i * ps - base) with (Z.of_nat i * ps) by lia.
  rewrite (proj2 (Z.eqb_neq ps 0)) by lia. rewrite Z.mod_mul, Z.div_mul, Nat2Z.id by lia.
  cbn [orb negb Z.eqb]. destruct (Nat.leb_spec (length ns) i); [lia|done].
Qed.

Lemma deallocate_heap p raw :
  pool_begin p = base -> pool_end p = limit ->
  apart raw (FallbackHeader_SIZE + ps) base (ps * Z.of_nat n) ->
  magic_at p !! raw = Some kFallbackMagic ->
  deallocate (Some (raw + FallbackHeader_SIZE)) p =
  (mkPacketPool (packet_size_ p) (pool_size_ p) (pool_begin p) (pool_end p)
     (nodes p) (free_head p) (inc_dealloc (stats p)) (delete raw (magic_at p)), Some raw).
Proof.
  intros Hb He Ha Hm. destruct p as [ps' n' pb pe ns fh s m]. cbn in *. subst pb pe.
  unfold apart, limit, FallbackHeader_SIZE in *.
  destruct (Z.leb_spec base (raw + 4)), (Z.ltb_spec (raw + 4) (base + ps * Z.of_nat n)); cbn [andb]; try lia.
  all: by replace (raw + 4 - 4) with raw by lia; rewrite Hm.
Qed.

Lemma pool_inv_free p held l1 b l2 fl hp hf p' d :
  held = l1 ++ b :: l2 -> pool_inv p held fl hp hf -> deallocate (Some b) p = (p', d) ->
  exists fl' hp' hf', pool_inv p' (l1 ++ l2) fl' hp' hf'.
Proof.
  pose proof bytes_range as Hrng.
  intros -> Hi Hd. pose proof Hi as [(Hp & Hb & He) Hnn Hch Hall Hhe Hma Hnd Hpo Hhp Hav Hal].
  assert (Hle : (length fl + length hp = n)%nat).
  { rewrite <-length_app, Hall. apply length_seq. }
  rewrite <-Permutation_middle in Hhe.
  assert (Hin : b ∈ (node_buffer p <$> hp) ++ ((fun raw => raw + FallbackHeader_SIZE) <$> hf)).
  { rewrite <-Hhe. set_solver. }
  apply elem_of_app in Hin as [(i & -> & Hin)%list_elem_of_fmap|(raw & -> & Hin)%list_elem_of_fmap].
  - pose proof (held_node _ _ _ _ _ _ Hi Hin) as Hlt. rewrite (deallocate_node p i) in Hd by done.
    injection Hd as <- <-. apply elem_of_Permutation in Hin as (hp' & Hhp').
    exists (i :: fl), hp', hf. rewrite Hhp' in Hle. cbn [length] in Hle.
    constructor; cbn [packet_size_ pool_begin pool_end nodes free_head stats magic_at]; try done.
    + by rewrite length_insert.
    + cbn [chain]. split; [done|]. exists (free_head p). rewrite list_lookup_insert_eq by lia. split; [done|].
      apply chain_insert; [|done]. intros Hif.
      assert (Hndp : NoDup (fl ++ hp)) by (rewrite Hall; apply NoDup_seq).
      rewrite Hhp' in Hndp. apply list.NoDup_app in Hndp as (_ & Hdis & _). apply (Hdis i Hif). set_solver.
    + rewrite Hhp', <-Permutation_middle in Hall. exact Hall.
    + apply (Permutation_cons_inv (a := node_buffer p i)). rewrite Hhe, Hhp'. done.
    + cbn. rewrite Hav. wrap_lia.
    + cbn. rewrite Hal, Hhp'. cbn [length]. wrap_lia.
  - rewrite list.Forall_forall in Hma, Hpo. rewrite (deallocate_heap p raw) in Hd by auto.
    injection Hd as <- <-. apply elem_of_Permutation in Hin as (hf' & Hhf').
    assert (Hnd' : raw ∉ hf' /\ NoDup hf').
    { rewrite Hhf' in Hnd. by apply list.NoDup_cons in Hnd. }
    exists fl, hp, hf'. constructor; cbn [packet_size_ pool_begin pool_end nodes free_head stats magic_at]; try done.
    + apply (Permutation_cons_inv (a := raw + FallbackHeader_SIZE)).
      rewrite Hhe, Hhf'. cbn. by rewrite Permutation_middle.
    + apply list.Forall_forall. intros r Hr. rewrite lookup_delete_ne by (intros ->; tauto).
      apply Hma. rewrite Hhf'. set_solver.
    + tauto.
    + apply list.Forall_forall. intros r Hr. apply Hpo. rewrite Hhf'. set_solver.
    + intros r1 r2 H1 H2. apply Hhp; rewrite Hhf'; set_solver.
Qed.

Lemma reach_inv p held : reach p held -> exists fl hp hf, pool_inv p held fl hp hf.
Proof.
  induction 1 as [|p held heap b p' _ (fl & hp & hf & IH) Hfr Ha|p held p' _ (fl & hp & hf & IH) Ha
                 |p l1 b l2 p' d _ (fl & hp & hf & IH) Hd].
  - eexists _, _, _. apply pool_inv_init.
  - by eapply pool_inv_alloc.
  - eexists _, _, _. by eapply pool_inv_exhausted.
  - by eapply pool_inv_free.
Qed.

(** Buffers in use are pairwise disjoint. *)
Lemma held_apart p held fl hp hf :
  pool_inv p held fl hp hf ->
  NoDup held /\ forall a b, a ∈ held -> b ∈ held -> a <> b -> apart a ps b ps.
Proof.
  intros Hi. pose proof Hi as [(Hp & Hb & He) Hnn Hch Hall Hhe Hma Hnd Hpo Hhp Hav Hal].
  rewrite list.Forall_forall in Hpo.
  assert (Hout : forall i r, i ∈ hp -> r ∈ hf -> apart (node_buffer p i) ps (r + FallbackHeader_SIZE) ps).
  { intros i r Hin Hr. pose proof (held_node _ _ _ _ _ _ Hi Hin) as Hlt.
    destruct (node_buffer_pool p i Hp Hb Hlt). specialize (Hpo r Hr).
    unfold apart, limit, FallbackHeader_SIZE in *. lia. }
  split.
  - rewrite Hhe. apply list.NoDup_app. split_and!.
    + apply list.NoDup_fmap_2.
      * intros i j Hij. unfold node_buffer in Hij. rewrite Hp, Hb in Hij. nia.
      * assert (Hndp : NoDup (fl ++ hp)) by (rewrite Hall; apply NoDup_seq).
        by apply list.NoDup_app in Hndp as (_ & _ & ?).
    + intros x (i & -> & Hin)%list_elem_of_fmap (r & Heq & Hr)%list_elem_of_fmap.
      specialize (Hout i r Hin Hr). unfold apart in Hout. lia.
    + apply list.NoDup_fmap_2; [|done]. intros r1 r2. lia.
  - intros a b. rewrite Hhe, !elem_of_app, !list_elem_of_fmap.
    intros [(i & -> & H1)|(r & -> & H1)] [(j & -> & H2)|(r' & -> & H2)] Hne.
    + unfold apart, node_buffer in *. rewrite Hp, Hb in *.
      assert (i < j \/ j < i)%nat as [?|?] by (destruct (decide (i = j)); [by subst|lia]); nia.
    + by apply Hout.
    + specialize (Hout j r H2 H1). unfold apart in *. tauto.
    + assert (r <> r') as Hr by (intros ->; done). specialize (Hhp r r' H1 H2 Hr).
      unfold apart, FallbackHeader_SIZE in *. lia.
Qed.

(** What the statistics and [deallocate] do with a buffer in use. *)
Lemma dealloc_held p held fl hp hf b :
  pool_inv p held fl hp hf -> b ∈ held ->
  let '(p', d) := deallocate (Some b) p in
  (base <= b < limit /\ d = None /\ free_head p' = Some (Z.to_nat ((b - base) / ps)) /\
   available (stats p') = available (stats p) + 1 /\ allocated (stats p') = allocated (stats p) - 1) \/
  (~ base <= b < limit /\ d = Some (b - FallbackHeader_SIZE) /\ free_head p' = free_head p /\
   available (stats p') = available (stats p) /\ allocated (stats p') = allocated (stats p)).
Proof.
  pose proof bytes_range as Hrng. intros Hi Hin.
  pose proof Hi as [(Hp & Hb & He) Hnn Hch Hall Hhe Hma Hnd Hpo Hhp Hav Hal].
  assert (Hle : (length fl + length hp = n)%nat).
  { rewrite <-length_app, Hall. apply length_seq. }
  rewrite Hhe in Hin.
  apply elem_of_app in Hin as [(i & -> & Hin)%list_elem_of_fmap|(raw & -> & Hin)%list_elem_of_fmap].
  - pose proof (held_node _ _ _ _ _ _ Hi Hin) as Hlt. rewrite (deallocate_node p i) by done. left.
    destruct (node_buffer_pool p i Hp Hb Hlt).
    assert (0 < length hp)%nat by (destruct hp; [by apply not_elem_of_nil in Hin|cbn; lia]).
    cbn [free_head stats give_back inc_dealloc available allocated]. rewrite Hav, Hal.
    unfold node_buffer in *. rewrite Hp, Hb in *.
    replace (base + Z.of_nat i * ps - base) with (Z.of_nat i * ps) by lia.
    rewrite Z.div_mul, Nat2Z.id by lia. split_and!; [lia..|done|done| |]; wrap_lia.
  - rewrite list.Forall_forall in Hma, Hpo. rewrite (deallocate_heap p raw) by auto. right.
    specialize (Hpo raw Hin). cbn [free_head stats inc_dealloc available allocated].
    replace (raw + FallbackHeader_SIZE - FallbackHeader_SIZE) with raw by lia.
    unfold apart, limit, FallbackHeader_SIZE in *. split_and!; try done. lia.
Qed.

Lemma filter_keep {A} (P : A -> Prop) `{!forall x, Decision (P x)} l : Forall P l -> filter P l = l.
Proof. induction 1; [done|]. by rewrite filter_cons_True by done; f_equal. Qed.

Lemma filter_drop {A} (P : A -> Prop) `{!forall x, Decision (P x)} l :
  Forall (fun x => ~ P x) l -> filter P l = [].
Proof. induction 1; [done|]. by rewrite filter_cons_False. Qed.

(** The number of pool buffers in use. *)
Definition in_pool (held : list Z) : nat := length (filter (fun b => base <= b < limit) held).

Lemma in_pool_count p held fl hp hf : pool_inv p held fl hp hf -> in_pool held = length hp.
Proof.
  intros Hi. pose proof Hi as [(Hp & Hb & He) Hnn Hch Hall Hhe Hma Hnd Hpo Hhp Hav Hal].
  unfold in_pool. rewrite Hhe, list.filter_app, length_app.
  rewrite (filter_keep _ (node_buffer p <$> hp)), (filter_drop _ (_ <$> hf)).
  - rewrite length_fmap. cbn. lia.
  - apply Forall_fmap, list.Forall_forall. intros r Hr. cbn. rewrite list.Forall_forall in Hpo.
    specialize (Hpo r Hr). unfold apart, limit, FallbackHeader_SIZE in *. lia.
  - apply Forall_fmap, list.Forall_forall. intros i Hin. cbn.
    pose proof (held_node _ _ _ _ _ _ Hi Hin) as Hlt. destruct (node_buffer_pool p i Hp Hb Hlt). lia.
Qed.

(** A pool that is not exhausted serves the head of the free list. *)
Lemma allocate_takes p held fl hp hf heap :
  pool_inv p held fl hp hf -> (0 < length fl)%nat ->
  exists b p', allocate heap p = (Some b, p') /\ base <= b /\ b + ps <= limit /\
    Forall (fun a => apart a ps b ps) held /\ fallback_alloc (stats p') = fallback_alloc (stats p).
Proof.
  intros Hi Hlen. destruct fl as [|i fl]; cbn in Hlen; [lia|].
  pose proof Hi as [(Hp & Hb & _) _ (Hh & _) Hall _ _ _ _ _ _ _].
  assert (Hlt : (i < n)%nat).
  { assert (i ∈ seq 0 n) as Hs by (rewrite <-Hall; set_solver). apply elem_of_seq in Hs. lia. }
  destruct (node_buffer_pool p i Hp Hb Hlt) as [H1 H2].
  destruct (allocate None p) as [r p'] eqn:Ha.
  assert (Hr : r = Some (node_buffer p i) /\ allocate heap p = (r, p') /\
               fallback_alloc (stats p') = fallback_alloc (stats p)).
  { destruct p as [ps' n' pb pe ns fh s m]. cbn in Hh. subst fh. cbn in *. by injection Ha as <- <-. }
  destruct Hr as (-> & Ha' & Hf). exists (node_buffer p i), p'. split_and!; try done.
  destruct (pool_inv_alloc _ _ _ _ _ None (node_buffer p i) p' Hi) as (fl' & hp' & hf' & Hi'); [done..|].
  destruct (held_apart _ _ _ _ _ Hi') as [Hnd Hap]. apply list.NoDup_cons in Hnd as [Hni _].
  apply list.Forall_forall. intros a Hin. apply Hap; [set_solver..|]. by intros ->.
Qed.

(** For every sequence of calls in which a client returns only buffers it holds,
    each once, the buffers in use never overlap; the statistics are exact
    ([available] and [allocated] add up to the pool size and [allocated] counts the
    pool buffers in use); the next [allocate] takes a pool buffer as long as one of
    the [n] is unused, which overlaps no buffer in use, and falls back to the heap
    exactly when all are in use; and [deallocate] of a buffer in use either puts a
    pool buffer at the head of the free list or deletes exactly the heap block
    [allocate] obtained, header included, never a foreign pointer. *)
Theorem packet_pool_exclusive p held :
  reach p held ->
  (NoDup held /\ forall a b, a ∈ held -> b ∈ held -> a <> b -> apart a ps b ps) /\
  (available (get_statistics p) = Z.of_nat n - Z.of_nat (in_pool held) /\
   allocated (get_statistics p) = Z.of_nat (in_pool held) /\ (in_pool held <= n)%nat) /\
  (forall heap,
     ((in_pool held < n)%nat -> exists b p', allocate heap p = (Some b, p') /\
        base <= b /\ b + ps <= limit /\ Forall (fun a => apart a ps b ps) held /\
        fallback_alloc (stats p') = fallback_alloc (stats p)) /\
     (in_pool held = n ->
        fst (allocate heap p) = (fun raw => raw + FallbackHeader_SIZE) <$> heap /\
        fallback_alloc (stats (snd (allocate heap p))) = inc64 (fallback_alloc (stats p)))) /\
  (forall b, b ∈ held ->
     let '(p', d) := deallocate (Some b) p in
     (base <= b < limit /\ d = None /\ free_head p' = Some (Z.to_nat ((b - base) / ps)) /\
      available (stats p') = available (stats p) + 1 /\ allocated (stats p') = allocated (stats p) - 1) \/
     (~ base <= b < limit /\ d = Some (b - FallbackHeader_SIZE) /\ free_head p' = free_head p /\
      available (stats p') = available (stats p) /\ allocated (stats p') = allocated (stats p))).
Proof.
  intros (fl & hp & hf & Hi)%reach_inv. pose proof (in_pool_count _ _ _ _ _ Hi) as Hc.
  assert (Hle : (length fl + length hp = n)%nat).
  { rewrite <-length_app, (pi_all _ _ _ _ _ Hi). apply length_seq. }
  rewrite Hc. split; [by eapply held_apart|]. split; [|split].
  - unfold get_statistics. rewrite (pi_available _ _ _ _ _ Hi), (pi_allocated _ _ _ _ _ Hi). lia.
  - intros heap. split; intros Hlt; [apply (allocate_takes _ _ fl hp hf); [done|lia]|].
    destruct fl; cbn [length] in *; [|lia]. pose proof (pi_chain _ _ _ _ _ Hi) as Hh. cbn [chain] in Hh.
    destruct p as [ps' n' pb pe ns fh s m]. cbn in Hh. subst fh. by destruct heap.
  - intros b Hb. by eapply dealloc_held.
Qed.

End Sequential.

(** A pool of one 8-byte buffer: the first [allocate] takes it, the second one a heap
    block, and the pool buffer is returned. *)
Definition demo0 : PacketPool := PacketPool_init 8 1 (Some 4096).
Definition demo1 : PacketPool := snd (allocate None demo0).
Definition demo2 : PacketPool := snd (allocate (Some 9000) demo1).
Definition demo3 : PacketPool := fst (deallocate (Some 4096) demo2).

Lemma demo3_reach : reach 8 1 4096 demo3 [9004].
Proof.
  apply (reach_free 8 1 4096 demo2 [9004] 4096 [] demo3 None); [|vm_compute; reflexivity].
  apply (reach_alloc 8 1 4096 demo1 [4096] (Some 9000)); [|intros raw [= <-]|vm_compute; reflexivity].
  - apply (reach_alloc 8 1 4096 demo0 [] None); [apply reach_init|done|vm_compute; reflexivity].
  - split; [right; vm_compute; discriminate|]. constructor; [|constructor]. intros []. unfold limit. lia.
Qed.

Lemma packet_pool_exclusive_witness :
  fst (allocate None demo2) = None /\
  available (get_statistics demo3) = 1 /\ allocated (get_statistics demo3) = 0 /\
  snd (deallocate (Some 9004) demo3) = Some 9000 /\
  NoDup [9004].
Proof.
  split; [vm_compute; reflexivity|]. split; [vm_compute; reflexivity|]. split; [vm_compute; reflexivity|].
  split; [vm_compute; reflexivity|].
  apply (packet_pool_exclusive 8 1 4096 ltac:(lia) ltac:(lia) ltac:(lia) ltac:(lia) demo3 [9004]).
  apply demo3_reach.
Defined.

End PacketPool.
