(* ===== verification/PacketPoolConcurrent.v ===== *)
(** [PacketPool::allocate] and [PacketPool::deallocate]
    ([src/m01_receiver/network/packet_pool.cpp]) as the atomic accesses of several
    threads to [free_head] and [FreeNode::next].  The invariant holds when one
    thread allocates, whatever the number of threads that deallocate, which is
    how a face uses its pool; two allocating threads break it. *)

From S2P Require Import Prelude PacketPool.
Open Scope nat_scope.

Module PacketPoolConcurrent.
Import PacketPool.

(** ** Definitions *)

(** Where a thread is: [AHead] after the load (or the failed exchange) that gives
    [head], [ANext] after [next = head->next]; [FHead] and [FSet] before and after
    [node->next = head]. *)
Inductive pc :=
  | Idle
  | AHead (head : option nat)
  | ANext (head : nat) (next : option nat)
  | FHead (node : nat) (head : option nat)
  | FSet (node : nat) (head : option nat).

#[export] Instance pc_eq_dec : EqDecision pc.
Proof. solve_decision. Defined.

(** [c_held] are the nodes whose buffers [allocate] has returned and nobody has
    given back. *)
Record cstate := mkCstate {
  c_next : list (option nat);
  c_head : option nat;
  c_threads : list pc;
  c_held : list nat;
}.

(** The pool as the constructor leaves it, with [m] idle threads. *)
Definition initial (n m : nat) : cstate :=
  mkCstate (nodes (PacketPool_init 1 n (Some 0%Z))) (free_head (PacketPool_init 1 n (Some 0%Z)))
    (replicate m Idle) [].

(** One atomic access.  [Cas true] is an exchange that may succeed, [Cas false] a
    spurious failure of the weak exchange; [Free i] starts the return of the
    buffer of node [i]. *)
Inductive access := Load | Next | Cas (try : bool) | Empty | Free (node : nat).

Definition set_pc (t : nat) (q : pc) (s : cstate) : cstate :=
  mkCstate (c_next s) (c_head s) (<[t := q]> (c_threads s)) (c_held s).

Fixpoint remove1 (i : nat) (l : list nat) : list nat :=
  match l with
  | [] => []
  | j :: l => if (i =? j) then l else j :: remove1 i l
  end.

(** The access [a] of thread [t]; [None] when the thread is not at it. *)
Definition exec (t : nat) (a : access) (s : cstate) : option cstate :=
  match c_threads s !! t, a with
  | Some Idle, Load => Some (set_pc t (AHead (c_head s)) s)
  | Some (AHead (Some i)), Next => Some (set_pc t (ANext i (default None (c_next s !! i))) s)
  | Some (AHead None), Empty => Some (set_pc t Idle s)
  | Some (ANext i nx), Cas try =>
      if try && bool_decide (c_head s = Some i) then
        Some (mkCstate (c_next s) nx (<[t := Idle]> (c_threads s)) (i :: c_held s))
      else Some (set_pc t (AHead (c_head s)) s)
  | Some Idle, Free i =>
      if bool_decide (i ∈ c_held s) then
        Some (mkCstate (c_next s) (c_head s) (<[t := FHead i (c_head s)]> (c_threads s))
                (remove1 i (c_held s)))
      else None
  | Some (FHead i h), Next =>
      Some (mkCstate (<[i := h]> (c_next s)) (c_head s) (<[t := FSet i h]> (c_threads s)) (c_held s))
  | Some (FSet i h), Cas try =>
      if try && bool_decide (c_head s = h) then
        Some (mkCstate (c_next s) (Some i) (<[t := Idle]> (c_threads s)) (c_held s))
      else Some (set_pc t (FHead i (c_head s)) s)
  | _, _ => None
  end.

(** A schedule of accesses. *)
Fixpoint run (sched : list (nat * access)) (s : cstate) : option cstate :=
  match sched with
  | [] => Some s
  | (t, a) :: sched => s ← exec t a s; run sched s
  end.

(** The states reached when only the threads of [may] call [allocate]. *)
Inductive step (may : nat -> Prop) : cstate -> cstate -> Prop :=
  | step_exec t a s s' : (a = Load -> may t) -> exec t a s = Some s' -> step may s s'.

(** The node a thread is returning. *)
Definition returning (q : pc) : list nat :=
  match q with FHead i _ | FSet i _ => [i] | _ => [] end.

Definition in_flight (s : cstate) : list nat := c_threads s ≫= returning.

(** ** The invariant *)

Lemma in_flight_split (ts : list pc) t q :
  ts !! t = Some q ->
  exists rest, (ts ≫= returning) ≡ₚ returning q ++ rest /\
    (forall q', (<[t := q']> ts ≫= returning) ≡ₚ returning q' ++ rest) /\
    forall u q', u <> t -> ts !! u = Some q' -> forall i, i ∈ returning q' -> i ∈ rest.
Proof.
  intros Ht. exists ((take t ts ≫= returning) ++ (drop (S t) ts ≫= returning)).
  assert (Hperm : forall q', returning q' ++ ((take t ts ≫= returning) ++ (drop (S t) ts ≫= returning)) ≡ₚ
    (take t ts ++ q' :: drop (S t) ts) ≫= returning).
  { intros q'. rewrite bind_app, bind_cons. apply Permutation_app_swap_app. }
  split_and!.
  - rewrite Hperm. by rewrite take_drop_middle.
  - intros q'. rewrite Hperm. rewrite <-insert_take_drop; [done|]. by apply lookup_lt_Some in Ht.
  - intros u q' Hne Hu i Hi. rewrite <-bind_app. apply list_elem_of_bind. exists q'. split; [done|].
    apply elem_of_app. destruct (decide (u < t)).
    + left. apply list_elem_of_lookup. exists u. by rewrite lookup_take_lt.
    + right. apply list_elem_of_lookup. exists (u - S t). rewrite lookup_drop.
      by replace (S t + (u - S t)) with u by lia.
Qed.

Lemma remove1_perm i l : i ∈ l -> l ≡ₚ i :: remove1 i l.
Proof.
  induction l as [|j l IH]; intros Hin; [by apply not_elem_of_nil in Hin|]. cbn.
  destruct (Nat.eqb_spec i j) as [->|Hne]; [done|].
  apply elem_of_cons in Hin as [?|Hin]; [done|]. rewrite (IH Hin) at 1. apply Permutation_swap.
Qed.

Section Single_allocator.

Context (may : nat -> Prop) (n m : nat).
Hypothesis Hmay : forall t u, may t -> may u -> t = u.
Hypothesis Hn : 0 < n.

(** What a thread has read still holds: the node an allocating thread looks at is in
    the free list with the successor it has read. *)
Definition pc_ok (ns : list (option nat)) (fl : list nat) (t : nat) (q : pc) : Prop :=
  match q with
  | Idle | FHead _ _ => True
  | AHead None => may t
  | AHead (Some i) => may t /\ i ∈ fl
  | ANext i nx => may t /\ i ∈ fl /\ ns !! i = Some nx
  | FSet i h => ns !! i = Some h
  end.

Record inv (s : cstate) (fl : list nat) : Prop := {
  inv_chain : chain (c_next s) (c_head s) fl;
  inv_all : fl ++ c_held s ++ in_flight s ≡ₚ seq 0 n;
  inv_len : length (c_next s) = n;
  inv_pc : forall t q, c_threads s !! t = Some q -> pc_ok (c_next s) fl t q;
}.

Lemma inv_nodup s fl : inv s fl -> NoDup (fl ++ c_held s ++ in_flight s).
Proof. intros Hi. rewrite (inv_all _ _ Hi). apply NoDup_seq. Qed.

Lemma pool_inv_initial : inv (initial n m) (seq 0 n).
Proof.
  assert (Hnodes : nodes (PacketPool_init 1 n (Some 0%Z)) =
    ((fun i => if i + 1 <? n then Some (i + 1) else None) <$> seq 0 n) /\
    free_head (PacketPool_init 1 n (Some 0%Z)) = Some 0).
  { unfold PacketPool_init. cbn [Z.eqb orb]. rewrite (proj2 (Nat.eqb_neq n 0)) by lia. done. }
  destruct Hnodes as [H1 H2]. unfold initial. rewrite H1, H2.
  constructor; cbn [c_next c_head c_threads c_held].
  - pose proof (chain_initial n 0) as Hc. rewrite Nat.sub_0_r in Hc.
    destruct (Nat.ltb_spec 0 n); [|lia]. apply Hc. lia.
  - unfold in_flight. cbn [c_threads]. replace (replicate m Idle ≫= returning) with (@nil nat).
    + by rewrite !app_nil_r.
    + symmetry. clear. by induction m.
  - by rewrite length_fmap, length_seq.
  - intros t q Hq. apply lookup_replicate in Hq as [-> _]. done.
Qed.

(** A step that only moves thread [t], to a place where it is right to be. *)
Lemma inv_move s fl t q q' :
  inv s fl -> c_threads s !! t = Some q -> returning q' = returning q ->
  pc_ok (c_next s) fl t q' -> inv (set_pc t q' s) fl.
Proof.
  intros [Hch Hall Hlen Hpc] Ht Hr Hok. constructor; cbn [set_pc c_next c_head c_threads c_held]; try done.
  - destruct (in_flight_split _ _ _ Ht) as (rest & H1 & H2 & _). unfold in_flight in *. cbn [set_pc c_threads c_held].
    by rewrite H2, Hr, <-H1.
  - intros u p Hu. apply list_lookup_insert_Some in Hu as [(<- & <- & _)|(Hne & Hu)]; [done|by apply Hpc].
Qed.

Lemma head_in ns h fl i : chain ns h fl -> h = Some i -> i ∈ fl.
Proof. destruct fl as [|j fl]; cbn; intros Hc ->; [done|]. destruct Hc as ([= ->] & _). set_solver. Qed.

(** [head] as [free_head] has it now. *)
Lemma loaded_ok s fl t : inv s fl -> may t -> pc_ok (c_next s) fl t (AHead (c_head s)).
Proof.
  intros Hi Ht. cbn. destruct (c_head s) as [i|] eqn:Hh; [|done]. split; [done|].
  eapply head_in; [apply (inv_chain _ _ Hi)|done].
Qed.

(** The exchange of [allocate] takes the first node of the list. *)
Lemma inv_take s fl t i nx :
  inv s fl -> c_threads s !! t = Some (ANext i nx) -> c_head s = Some i ->
  exists fl', inv (mkCstate (c_next s) nx (<[t := Idle]> (c_threads s)) (i :: c_held s)) fl'.
Proof.
  intros Hi Ht Hh. pose proof Hi as [Hch Hall Hlen Hpc]. destruct (Hpc _ _ Ht) as (Hmt & Hin & Hnx).
  destruct fl as [|j fl]; cbn [chain] in Hch; [congruence|].
  destruct Hch as (Hj & h' & Hh' & Hch). assert (j = i) as -> by congruence.
  assert (h' = nx) as -> by congruence.
  exists fl. constructor; cbn [c_next c_head c_threads c_held]; try done.
  - destruct (in_flight_split _ _ _ Ht) as (rest & H1 & H2 & _). unfold in_flight in *. cbn [c_threads].
    rewrite H2. rewrite H1 in Hall. cbn [returning] in *. rewrite <-Hall. cbn. symmetry. apply Permutation_middle.
  - intros u p Hu. apply list_lookup_insert_Some in Hu as [(<- & <- & _)|(Hne & Hu)]; [done|].
    specialize (Hpc u p Hu). destruct p as [|[k|]|k nk| |]; cbn in *; try done.
    + destruct Hpc as [Hmu _]. destruct (Hne (Hmay _ _ Hmt Hmu)).
    + destruct Hpc as [Hmu _]. destruct (Hne (Hmay _ _ Hmt Hmu)).
Qed.

Lemma inv_start_free s fl t i :
  inv s fl -> c_threads s !! t = Some Idle -> i ∈ c_held s ->
  inv (mkCstate (c_next s) (c_head s) (<[t := FHead i (c_head s)]> (c_threads s)) (remove1 i (c_held s))) fl.
Proof.
  intros [Hch Hall Hlen Hpc] Ht Hin. constructor; cbn [c_next c_head c_threads c_held]; try done.
  - destruct (in_flight_split _ _ _ Ht) as (rest & H1 & H2 & _). unfold in_flight in *. cbn [c_threads].
    rewrite H2. rewrite H1 in Hall. cbn [returning app] in *. rewrite <-Hall.
    apply Permutation_app_head. etrans; [symmetry; apply Permutation_middle|].
    by rewrite app_comm_cons, <-remove1_perm.
  - intros u p Hu. apply list_lookup_insert_Some in Hu as [(<- & <- & _)|(Hne & Hu)]; [done|by apply Hpc].
Qed.

(** The link of a returned node changes nothing another thread relies on. *)
Lemma inv_link s fl t i h :
  inv s fl -> c_threads s !! t = Some (FHead i h) ->
  inv (mkCstate (<[i := h]> (c_next s)) (c_head s) (<[t := FSet i h]> (c_threads s)) (c_held s)) fl.
Proof.
  intros Hi Ht. pose proof (inv_nodup _ _ Hi) as Hnd. pose proof Hi as [Hch Hall Hlen Hpc].
  destruct (in_flight_split _ _ _ Ht) as (rest & H1 & H2 & H3). unfold in_flight in Hnd, Hall.
  rewrite H1 in Hnd, Hall. cbn [returning app] in Hnd, Hall.
  assert (Hni : i ∉ fl /\ i ∉ rest /\ i < n).
  { apply list.NoDup_app in Hnd as (_ & Hd & Hnd). split_and!.
    - intros Hx. apply (Hd i Hx). set_solver.
    - apply list.NoDup_app in Hnd as (_ & _ & Hnd). by apply list.NoDup_cons in Hnd as [? _].
    - assert (Hs : i ∈ seq 0 n) by (rewrite <-Hall; set_solver). apply elem_of_seq in Hs. lia. }
  destruct Hni as (Hni & Hnr & Hlt). constructor; cbn [c_next c_head c_threads c_held].
  - by apply chain_insert.
  - unfold in_flight. cbn [c_threads]. rewrite H2. exact Hall.
  - by rewrite length_insert.
  - intros u p Hu. apply list_lookup_insert_Some in Hu as [(<- & <- & _)|(Hne & Hu)].
    + cbn. apply list_lookup_insert_eq. lia.
    + pose proof (Hpc u p Hu) as Hok. destruct p as [|[k|]|k nk|k hk|k hk]; cbn in *; try done.
      * destruct Hok as (? & ? & ?). split_and!; try done. rewrite list_lookup_insert_ne; [done|]. by intros ->.
      * rewrite list_lookup_insert_ne; [done|]. intros ->. apply Hnr. eapply H3; [done..|]. cbn. set_solver.
Qed.

(** The exchange of [deallocate] puts the node in front. *)
Lemma inv_put s fl t i :
  inv s fl -> c_threads s !! t = Some (FSet i (c_head s)) ->
  inv (mkCstate (c_next s) (Some i) (<[t := Idle]> (c_threads s)) (c_held s)) (i :: fl).
Proof.
  intros [Hch Hall Hlen Hpc] Ht. constructor; cbn [c_next c_head c_threads c_held]; try done.
  - cbn [chain]. split; [done|]. exists (c_head s). split; [|done]. exact (Hpc _ _ Ht).
  - destruct (in_flight_split _ _ _ Ht) as (rest & H1 & H2 & _). unfold in_flight in *. cbn [c_threads].
    rewrite H2. rewrite H1 in Hall. cbn [returning app] in *. rewrite <-Hall, <-!Permutation_middle. done.
  - intros u p Hu. apply list_lookup_insert_Some in Hu as [(<- & <- & _)|(Hne & Hu)]; [done|].
    specialize (Hpc u p Hu). destruct p as [|[k|]|k nk| |]; cbn in *; set_solver.
Qed.

Lemma inv_step s fl s' : inv s fl -> step may s s' -> exists fl', inv s' fl'.
Proof.
  intros Hi Hst. revert Hi. destruct Hst as [t a s0 s1 Hld He]. intros Hi. unfold exec in He. destruct (c_threads s0 !! t) as [q|] eqn:Ht; [|done].
  pose proof (inv_pc _ _ Hi _ _ Ht) as Hok.
  destruct q as [|[i|]|i nx|i h|i h], a as [| |try| |j]; cbn in He; simplify_eq.
  - eexists. eapply inv_move; [done..|]. apply loaded_ok; auto.
  - case_bool_decide; simplify_eq. eexists. by apply inv_start_free.
  - cbn in Hok. eexists. eapply inv_move; [done..|]. cbn. split_and!; [tauto..|].
    destruct (lookup_lt_is_Some_2 (c_next s0) i) as [x Hx]; [|by rewrite Hx].
    pose proof (chain_lt _ _ _ (inv_chain _ _ Hi)) as Hl. rewrite list.Forall_forall in Hl. apply Hl; tauto.
  - eexists. by eapply inv_move.
  - cbn in Hok. destruct try; cbn in He; [case_bool_decide as Hh|]; simplify_eq.
    + by eapply inv_take.
    + eexists. eapply inv_move; [done..|]. apply loaded_ok; tauto.
    + eexists. eapply inv_move; [done..|]. apply loaded_ok; tauto.
  - eexists. by apply inv_link.
  - destruct try; cbn in He; [case_bool_decide as Hh|]; simplify_eq.
    + eexists. by apply inv_put.
    + eexists. by eapply inv_move.
    + eexists. by eapply inv_move.
Qed.

Lemma inv_reach s : rtc (step may) (initial n m) s -> exists fl, inv s fl.
Proof.
  intros Hr. pose proof pool_inv_initial as H0. remember (initial n m) as s0 eqn:E. clear E.
  revert H0. generalize (seq 0 n). induction Hr as [s|s s1 s2 H1 _ IH]; intros fl Hi; [by exists fl|].
  destruct (inv_step _ _ _ Hi H1) as (fl' & Hi'). by eapply IH.
Qed.

(** C23: While one thread calls [allocate] and any number of threads call
    [deallocate], in any interleaving of their accesses to [free_head] and [next],
    the chain from [free_head] is a duplicate-free list of nodes and every node is
    in exactly one place: in that list, handed out, or on its way back.  So a buffer
    is never handed out twice and none is lost; in particular, when no thread is in
    a call and every buffer has been returned, all [n] are in the list. *)
Theorem pool_single_allocator_safe s :
  rtc (step may) (initial n m) s ->
  exists fl, chain (c_next s) (c_head s) fl /\ fl ++ c_held s ++ in_flight s ≡ₚ seq 0 n /\
    NoDup (fl ++ c_held s ++ in_flight s) /\
    (forall t i nx s', c_threads s !! t = Some (ANext i nx) -> exec t (Cas true) s = Some s' ->
       c_held s' <> c_held s -> i ∉ c_held s /\ c_held s' = i :: c_held s) /\
    (c_held s = [] -> Forall (eq Idle) (c_threads s) -> fl ≡ₚ seq 0 n).
Proof.
  intros (fl & Hi)%inv_reach. pose proof (inv_nodup _ _ Hi) as Hnd.
  exists fl. split; [apply (inv_chain _ _ Hi)|]. split; [apply (inv_all _ _ Hi)|]. split; [done|]. split.
  - intros t i nx s' Ht He Hne. destruct (inv_pc _ _ Hi _ _ Ht) as (_ & Hin & _).
    unfold exec in He. rewrite Ht in He. cbn in He. case_bool_decide; simplify_eq.
    split; [|done]. apply list.NoDup_app in Hnd as (_ & Hd & _). intros Hh. apply (Hd i Hin). set_solver.
  - intros Hh Hidle. pose proof (inv_all _ _ Hi) as Hall. rewrite Hh in Hall. cbn in Hall.
    replace (in_flight s) with (@nil nat) in Hall; [by rewrite app_nil_r in Hall|].
    unfold in_flight. clear -Hidle. induction Hidle as [|q l <- _ IH]; [done|]. cbn. exact IH.
Qed.

End Single_allocator.

(** The states of a schedule in which only thread 0 allocates. *)
Lemma run_steps sched s s' :
  Forall (fun ta => snd ta = Load -> fst ta = 0) sched -> run sched s = Some s' ->
  rtc (step (eq 0)) s s'.
Proof.
  intros Hs. revert s. induction Hs as [|[t a] sched Hta _ IH]; intros s Hr; cbn in Hr; [by simplify_eq|].
  destruct (exec t a s) as [s1|] eqn:He; [|done]. eapply rtc_l; [|by apply IH].
  apply (step_exec _ t a); [|done]. intros Ha. symmetry. by apply Hta.
Qed.

(** Thread 0 takes node 0 and reads the head again while thread 1 returns node 0;
    the exchange of thread 0 fails, and thread 0 then takes node 0 anew. *)
Definition two_threads : list (nat * access) :=
  [(0, Load); (0, Next); (0, Cas true); (0, Load); (0, Next); (1, Free 0); (1, Next); (1, Cas true);
   (0, Cas true); (0, Next); (0, Cas true)].

Lemma pool_single_allocator_safe_witness :
  exists s fl, run two_threads (initial 3 2) = Some s /\ c_held s = [0] /\
    chain (c_next s) (c_head s) fl /\ fl ++ c_held s ++ in_flight s ≡ₚ seq 0 3.
Proof.
  destruct (run two_threads (initial 3 2)) as [s|] eqn:Hr; [|vm_compute in Hr; discriminate].
  destruct (pool_single_allocator_safe (eq 0) 3 2 ltac:(congruence) ltac:(lia) s) as (fl & Hc & Hall & _).
  - apply (run_steps two_threads); [|exact Hr]. repeat constructor; cbn; discriminate.
  - exists s, fl. split; [reflexivity|]. split; [|split; assumption].
    vm_compute in Hr. injection Hr as <-. reflexivity.
Defined.

(** The comment of the header calls the pool thread-safe; with two allocating
    threads it is not.  Thread 0 reads head 0 with successor 1 and pauses; thread 1
    takes 0 and 1 and returns 0, so that [free_head] is 0 again with successor 2;
    the exchange of thread 0 succeeds and makes the node in use, 1, the head, and
    its next [allocate] hands the buffer of node 1 out a second time. *)
Theorem pool_two_allocators_hand_out_twice :
  exists s, run
    [(0, Load); (0, Next);
     (1, Load); (1, Next); (1, Cas true); (1, Load); (1, Next); (1, Cas true);
     (1, Free 0); (1, Next); (1, Cas true);
     (0, Cas true); (0, Load); (0, Next); (0, Cas true)] (initial 3 2) = Some s /\
    c_held s = [1; 0; 1].
Proof. eexists. split; vm_compute; reflexivity. Qed.

End PacketPoolConcurrent.
