(* ===== verification/ArrayFaceReceiver.v ===== *)
(** [ArrayFaceReceiver] ([include/qdgz300/m01_receiver/network/array_face_receiver.h],
    [src/m01_receiver/network/array_face_receiver.cpp]): the receive thread of one
    face on the Linux path, from the buffers it takes from its pool to the calls of
    the packet handler, and [PacketBuffer]
    ([include/qdgz300/m01_receiver/network/packet_pool.h]). *)

From stdpp Require Import strings.
From S2P Require Import Prelude Protocol PacketPool.
Open Scope Z_scope.
Import Protocol PacketPool.

Module ArrayFaceReceiver.

(** ** Definitions *)

Definition kPacketBufferSize : Z := 65535.

Record ArrayFaceReceiverConfig := mkArrayFaceReceiverConfig {
  array_id : Z;
  expected_source_id : Z;
  bind_ip : string;
  listen_port : Z;
  cpu_affinity : Z;
  source_filter_enabled : bool;
  recv_batch_size : Z;
  recv_drain_rounds : Z;
  socket_rcvbuf_mb : Z;
  packet_pool_mb : Z;
  enable_ip_freebind : bool;
  numa_node : Z;
  prefetch_hints_enabled : bool;
}.

Definition effective_batch_size (config : ArrayFaceReceiverConfig) : Z :=
  let batch := Z.max 1 (recv_batch_size config) in
  Z.min batch 64.

(** The number of buffers the constructor gives the pool. *)
Definition pool_size (config : ArrayFaceReceiverConfig) : Z :=
  let min_pool_size := u64 (effective_batch_size config * Z.max 4 (recv_drain_rounds config)) in
  let pool_bytes := u64 (packet_pool_mb config * 1024 * 1024) in
  let budget_pool_size := Z.max 1 ((pool_bytes +[64] (kPacketBufferSize - 1)) / kPacketBufferSize) in
  Z.max min_pool_size budget_pool_size.

(** A control message: level, type and first data byte. *)
Record cmsghdr := mkCmsghdr { cmsg_level : Z; cmsg_type : Z; cmsg_data : Z }.

Definition IPPROTO_IP : Z := 0.
Definition IP_TOS : Z := 1.

Fixpoint extract_dscp_from_cmsg (hdr : list cmsghdr) : Z :=
  match hdr with
  | [] => 0
  | cmsg :: hdr =>
    if (cmsg_level cmsg =? IPPROTO_IP) && (cmsg_type cmsg =? IP_TOS)
    then u8 (Z.shiftr (cmsg_data cmsg) 2)
    else extract_dscp_from_cmsg hdr
  end.

(** [offsetof] of the [k]-th field of [CommonHeader]. *)
Definition offsetof (k : nat) : nat := list_sum (take k CommonHeader_layout).
Definition offsetof_packet_type : nat := offsetof 4.
Definition offsetof_source_id : nat := offsetof 6.

(** [buffer] are the bytes at the pointer, [None] for [nullptr]. *)
Definition classify_priority (buffer : option bytes) (length dscp : Z) : PacketPriority :=
  let kHeartbeatDscpCs6 := 48 in
  if dscp =? kHeartbeatDscpCs6 then HIGH
  else
    match buffer with
    | Some bs =>
      if (Z.of_nat offsetof_packet_type <? length) && (nth offsetof_packet_type bs 0 =? 0x04)
      then HIGH else NORMAL
    | None => NORMAL
    end.

(** [PacketBuffer]: [pool_] tells whether the handle has a pool; all handles of a
    receiver have the same one. *)
Record PacketBuffer := mkPacketBuffer { buffer_ : option Z; pool_ : bool }.

Definition PacketBuffer_default : PacketBuffer := mkPacketBuffer None false.

Definition PacketBuffer_destroy (b : PacketBuffer) (p : PacketPool) : PacketPool * option Z :=
  match buffer_ b with
  | Some _ => if pool_ b then deallocate (buffer_ b) p else (p, None)
  | None => (p, None)
  end.

(** The moves return the new value of [*this] and of [other]. *)
Definition PacketBuffer_move (other : PacketBuffer) : PacketBuffer * PacketBuffer :=
  (other, PacketBuffer_default).

(** Move assignment between two different handles. *)
Definition PacketBuffer_assign (this other : PacketBuffer) (p : PacketPool)
    : PacketBuffer * PacketBuffer * (PacketPool * option Z) :=
  (other, PacketBuffer_default, PacketBuffer_destroy this p).

Definition PacketBuffer_get (b : PacketBuffer) : option Z := buffer_ b.

Definition PacketBuffer_release (b : PacketBuffer) : option Z * PacketBuffer :=
  (buffer_ b, mkPacketBuffer None (pool_ b)).

(** [ArrayFaceStatsSink]. *)
Record Stats := mkStats {
  packets_received : Z;
  packets_filtered : Z;
  bytes_received : Z;
  recv_errors : Z;
}.

Record PendingPacket := mkPendingPacket {
  packet_buffer : PacketBuffer;
  packet_len : Z;
  receive_timestamp_ns : Z;
  priority : PacketPriority;
}.

(** A call of the packet handler; [call_data] is what the buffer holds. *)
Record Call := mkCall {
  call_buffer : option Z;
  call_data : bytes;
  call_timestamp : Z;
  call_array : Z;
  call_priority : PacketPriority;
}.

(** The locals of [receive_loop] that outlive a round, the pool, the buffers'
    memory and the counters; then what the loop did to its surroundings: handler
    and capture calls, blocks deleted, and the buffers the handler has taken and
    not yet returned. *)
Record Receiver := mkReceiver {
  pool : PacketPool;
  mem : gmap Z bytes;
  recv_buffers : list (option Z);
  heartbeat_batch : list PendingPacket;
  data_batch : list PendingPacket;
  stats : Stats;
  calls : list Call;
  captured : list (bytes * Z);
  deleted : list Z;
  outside : list Z;
}.

Definition set_pool (p : PacketPool) (d : option Z) (st : Receiver) : Receiver :=
  let '(mkReceiver _ m r h b s c k x o) := st in mkReceiver p m r h b s c k (x ++ option_list d) o.
Definition set_mem (m : gmap Z bytes) (st : Receiver) : Receiver :=
  let '(mkReceiver p _ r h b s c k x o) := st in mkReceiver p m r h b s c k x o.
Definition set_recv (r : list (option Z)) (st : Receiver) : Receiver :=
  let '(mkReceiver p m _ h b s c k x o) := st in mkReceiver p m r h b s c k x o.
Definition set_batches (h b : list PendingPacket) (st : Receiver) : Receiver :=
  let '(mkReceiver p m r _ _ s c k x o) := st in mkReceiver p m r h b s c k x o.
Definition set_stats (f : Stats -> Stats) (st : Receiver) : Receiver :=
  let '(mkReceiver p m r h b s c k x o) := st in mkReceiver p m r h b (f s) c k x o.
Definition add_call (c : Call) (st : Receiver) : Receiver :=
  let '(mkReceiver p m r h b s cs k x o) := st in mkReceiver p m r h b s (cs ++ [c]) k x o.
Definition add_captured (c : bytes * Z) (st : Receiver) : Receiver :=
  let '(mkReceiver p m r h b s cs k x o) := st in mkReceiver p m r h b s cs (k ++ [c]) x o.
Definition set_outside (o : list Z) (st : Receiver) : Receiver :=
  let '(mkReceiver p m r h b s c k x _) := st in mkReceiver p m r h b s c k x o.

Definition inc_error (s : Stats) : Stats :=
  mkStats (packets_received s) (packets_filtered s) (bytes_received s) (inc64 (recv_errors s)).
Definition inc_filtered (s : Stats) : Stats :=
  mkStats (packets_received s) (inc64 (packets_filtered s)) (bytes_received s) (recv_errors s).
Definition inc_received (len : Z) (s : Stats) : Stats :=
  mkStats (inc64 (packets_received s)) (packets_filtered s) (bytes_received s +[64] len) (recv_errors s).

Definition dealloc (b : Z) (st : Receiver) : Receiver :=
  let '(p, d) := deallocate (Some b) (pool st) in set_pool p d st.

Definition destroy (b : PacketBuffer) (st : Receiver) : Receiver :=
  let '(p, d) := PacketBuffer_destroy b (pool st) in set_pool p d st.

(** A datagram as [recvmmsg] delivers it; [msg_len] is the length of [msg_data]. *)
Record mmsghdr := mkMmsghdr { msg_data : bytes; msg_control : list cmsghdr }.

Definition msg_len (m : mmsghdr) : Z := Z.of_nat (length (msg_data m)).

(** The result of [recvmmsg]: [-1] with the error number, or the datagrams, none
    of them included. *)
Inductive RecvResult := RecvError (errno : Z) | Received (msgs : list mmsghdr).

Definition EINTR : Z := 4.
Definition EAGAIN : Z := 11.

(** What a round finds: the result of each [new (nothrow)], of [recvmmsg] (given
    whether [MSG_DONTWAIT] is set), [running_] after a failed call, the clock, and
    whether a capture hook is set. *)
Record RoundInput := mkRoundInput {
  ri_heap : nat -> option Z;
  ri_recv : bool -> RecvResult;
  ri_running : bool;
  ri_now : Z;
  ri_capture : bool;
}.

Section Loop.

(** [config_]; the packet handler, [None] if it is not set: whether it moves from
    the buffer handle and which of the buffers it holds it returns to the pool. *)
Context (config : ArrayFaceReceiverConfig) (handler : option (Call -> bool * list Z)).

Definition batch_size : nat := Z.to_nat (effective_batch_size config).
Definition drain_rounds : Z := Z.max 1 (recv_drain_rounds config).

(** The constructor and the set-up of [receive_loop]. *)
Definition Receiver_init (storage : option Z) : Receiver :=
  mkReceiver (PacketPool_init kPacketBufferSize (Z.to_nat (pool_size config)) storage) ∅
    (replicate batch_size None) [] [] (mkStats 0 0 0 0) [] [] [] [].

(** Phase 1; the result tells whether an allocation failed. *)
Fixpoint alloc_buffers (heap : nat -> option Z) (count i : nat) (st : Receiver) : bool * Receiver :=
  match count with
  | O => (false, st)
  | S count =>
    let '(b, p) := allocate (heap i) (pool st) in
    let st := set_recv (<[i := b]> (recv_buffers st)) (set_pool p None st) in
    match b with
    | None => (true, set_stats inc_error st)
    | Some _ => alloc_buffers heap count (S i) st
    end
  end.

(** [for (buffer : recv_buffers) if (buffer) deallocate(buffer)]: the vector keeps
    its entries. *)
Definition release_buffers (st : Receiver) : Receiver :=
  foldl (fun st b => match b with None => st | Some b => dealloc b st end) st (recv_buffers st).

(** The datagrams arrive in the first buffers. *)
Fixpoint kernel_write (msgs : list mmsghdr) (bufs : list (option Z)) (m : gmap Z bytes) : gmap Z bytes :=
  match msgs, bufs with
  | msg :: msgs, Some b :: bufs => kernel_write msgs bufs (<[b := msg_data msg]> m)
  | _, _ => m
  end.

(** The bytes a handle points to. *)
Definition contents (b : PacketBuffer) (st : Receiver) : option bytes :=
  addr ← PacketBuffer_get b; Some (default [] (mem st !! addr)).

(** [vector::clear] of the two batches. *)
Definition clear_batches (st : Receiver) : Receiver :=
  let st' := foldl (fun st p => destroy (packet_buffer p) st) st (heartbeat_batch st) in
  let st' := foldl (fun st p => destroy (packet_buffer p) st) st' (data_batch st) in
  set_batches [] [] st'.

(** The body of the loop over the datagrams of a batch. *)
Definition process_message (inp : RoundInput) (i : nat) (msg : mmsghdr) (st : Receiver) : Receiver :=
  let packet_len := msg_len msg in
  let packet_buffer := mkPacketBuffer (default None (recv_buffers st !! i)) true in
  let st := set_recv (<[i := None]> (recv_buffers st)) st in
  let data := contents packet_buffer st in
  if source_filter_enabled config &&
     ((packet_len <=? Z.of_nat offsetof_source_id) ||
      negb (nth offsetof_source_id (default [] data) 0 =? expected_source_id config))
  then destroy packet_buffer (set_stats inc_filtered st)
  else
    let dscp := extract_dscp_from_cmsg (msg_control msg) in
    let priority := classify_priority data packet_len dscp in
    let st := if ri_capture inp
              then add_captured (take (length (msg_data msg)) (default [] data), ri_now inp / 1000) st
              else st in
    let st := set_stats (inc_received packet_len) st in
    let '(pending_buffer, _) := PacketBuffer_move packet_buffer in
    let pending := mkPendingPacket pending_buffer packet_len (ri_now inp) priority in
    match priority with
    | HIGH => set_batches (heartbeat_batch st ++ [pending]) (data_batch st) st
    | NORMAL => set_batches (heartbeat_batch st) (data_batch st ++ [pending]) st
    end.

Fixpoint process_messages (inp : RoundInput) (i : nat) (msgs : list mmsghdr) (st : Receiver) : Receiver :=
  match msgs with
  | [] => st
  | msg :: msgs => process_messages inp (S i) msgs (process_message inp i msg st)
  end.

(** The handler, or a thread it has passed a buffer to, returns buffers it holds. *)
Fixpoint client_free (bs : list Z) (st : Receiver) : Receiver :=
  match bs with
  | [] => st
  | b :: bs =>
    if bool_decide (b ∈ outside st) then
      client_free bs (set_outside (filter (fun a => a <> b) (outside st)) (dealloc b st))
    else client_free bs st
  end.

(** One call of the handler. *)
Definition deliver (h : Call -> bool * list Z) (pending : PendingPacket) (st : Receiver)
    : PendingPacket * Receiver :=
  let b := packet_buffer pending in
  let call := mkCall (PacketBuffer_get b)
                (take (Z.to_nat (packet_len pending)) (default [] (contents b st)))
                (receive_timestamp_ns pending) (array_id config) (priority pending) in
  let '(takes, frees) := h call in
  let st := add_call call st in
  let '(rest, st) :=
    if takes then
      let '(taken, moved_from) := PacketBuffer_move b in
      (moved_from, set_outside (option_list (buffer_ taken) ++ outside st) st)
    else (b, st) in
  (mkPendingPacket rest (packet_len pending) (receive_timestamp_ns pending) (priority pending),
   client_free frees st).

Fixpoint deliver_batch (h : Call -> bool * list Z) (l : list PendingPacket) (st : Receiver)
    : list PendingPacket * Receiver :=
  match l with
  | [] => ([], st)
  | p :: l => let '(p, st) := deliver h p st in
              let '(l, st) := deliver_batch h l st in (p :: l, st)
  end.

(** Heartbeats first. *)
Definition deliver_all (st : Receiver) : Receiver :=
  match handler with
  | None => st
  | Some h =>
    let '(hb, st) := deliver_batch h (heartbeat_batch st) st in
    let '(db, st) := deliver_batch h (data_batch st) st in
    set_batches hb db st
  end.

(** The part of a round after a [recvmmsg] that returned datagrams. *)
Definition handle_batch (inp : RoundInput) (msgs : list mmsghdr) (st : Receiver) : Receiver :=
  let st := set_mem (kernel_write msgs (recv_buffers st) (mem st)) st in
  let st := clear_batches st in
  let st := process_messages inp 0 msgs st in
  let st := deliver_all st in
  release_buffers st.

(** One round; the result tells whether the round after it may drain further. *)
Definition round (inp : RoundInput) (drain_round : Z) (st : Receiver) : bool * Receiver :=
  let '(allocation_failed, st) := alloc_buffers (ri_heap inp) batch_size 0 st in
  if allocation_failed then (false, release_buffers st)
  else
    match ri_recv inp (negb (drain_round =? 0)) with
    | RecvError errno =>
      let st := release_buffers st in
      let st := if ri_running inp && negb (errno =? EINTR) && negb (errno =? EAGAIN)
                then set_stats inc_error st else st in
      (false, st)
    | Received [] => (false, release_buffers st)
    | Received msgs => ((batch_size <=? length msgs)%nat, handle_batch inp msgs st)
    end.

(** [receive_loop] over the rounds that find [running_] set. *)
Fixpoint rounds (inputs : list RoundInput) (drain_round : Z) (st : Receiver) : Receiver :=
  match inputs with
  | [] => st
  | inp :: inputs =>
    let '(more, st) := round inp drain_round st in
    let next := if more && (drain_round + 1 <? drain_rounds) then drain_round + 1 else 0 in
    rounds inputs next st
  end.

(** The batches are destroyed when [receive_loop] returns. *)
Definition receive_loop (inputs : list RoundInput) (st : Receiver) : Receiver :=
  clear_batches (rounds inputs 0 st).

End Loop.

(** ** Buffers in use *)

Section Accounting.

Context (ps : Z) (n : nat) (base : Z).
Hypothesis Hps : 0 < ps.
Hypothesis Hn : (0 < n)%nat.
Hypothesis Hbase : 0 <= base.
Hypothesis Hfit : base + ps * Z.of_nat n < 2 ^ 64.

(** The pool is in a state in which exactly the buffers [held] are in use. *)
Definition in_use (p : PacketPool) (held : list Z) : Prop :=
  exists h, reach ps n base p h /\ h ≡ₚ held.

#[local] Instance in_use_proper : Proper ((=) ==> (≡ₚ) ==> iff) in_use.
Proof.
  intros p p' -> h h' Hh. split; intros (l & Hr & Hl); exists l; (split; [done|]); by rewrite Hl, ?Hh.
Qed.

Lemma fresh_block_perm h h' raw : h ≡ₚ h' -> fresh_block ps n base h raw -> fresh_block ps n base h' raw.
Proof. intros Hh [H1 H2]. split; [done|]. by rewrite <-Hh. Qed.

Lemma in_use_alloc p held heap b p' :
  in_use p held -> (forall raw, heap = Some raw -> fresh_block ps n base held raw) ->
  allocate heap p = (Some b, p') -> in_use p' (b :: held).
Proof.
  intros (h & Hr & Hh) Hf Ha. exists (b :: h). split; [|by rewrite Hh].
  eapply reach_alloc; [done| |done]. intros raw ->. eapply fresh_block_perm; [by symmetry|]. by apply Hf.
Qed.

Lemma in_use_free p held b : in_use p (b :: held) -> in_use (fst (deallocate (Some b) p)) held.
Proof.
  intros (h & Hr & Hh). assert (b ∈ h) as Hin by (rewrite Hh; set_solver).
  apply list_elem_of_split in Hin as (l1 & l2 & ->). exists (l1 ++ l2).
  destruct (deallocate (Some b) p) as [p' d] eqn:Hd. split; [by eapply reach_free|].
  apply (Permutation_cons_inv (a := b)). by rewrite Permutation_middle.
Qed.

Lemma in_use_nodup p held : in_use p held -> NoDup held.
Proof.
  intros (h & Hr & <-). apply reach_inv in Hr as (fl & hp & hf & Hi); [|done..].
  by eapply held_apart.
Qed.

Lemma in_use_where p held heap b p' :
  in_use p held -> allocate heap p = (Some b, p') ->
  base <= b < limit ps n base \/ heap = Some (b - FallbackHeader_SIZE).
Proof.
  intros (h & Hr & _) Ha. apply reach_inv in Hr as (fl & hp & hf & Hi); [|done..].
  destruct fl as [|i fl].
  - right. pose proof (pi_chain _ _ _ _ _ _ _ _ Hi) as Hh. cbn in Hh.
    destruct p as [ps' n' pb pe ns fh s m]. cbn in *. subst fh. destruct heap as [raw|]; [|done].
    cbn in Ha. injection Ha as <- _. f_equal. lia.
  - left. destruct (allocate_takes ps n base Hps Hn Hbase Hfit p h (i :: fl) hp hf heap Hi) as (b' & p1 & Ha' & H1 & H2 & _);
      [cbn; lia|]. rewrite Ha in Ha'. injection Ha' as <- _. lia.
Qed.

(** The buffers a batch owns. *)
Definition owner (b : PacketBuffer) : list Z := if pool_ b then option_list (buffer_ b) else [].
Definition owned (l : list PendingPacket) : list Z := l ≫= (fun p => owner (packet_buffer p)).

(** The buffers of [recv_buffers]. *)
Definition live (l : list (option Z)) : list Z := omap id l.

(** Every buffer in use is in [extra], in a batch or with the handler. *)
Definition accounted (st : Receiver) (extra : list Z) : Prop :=
  in_use (pool st) (extra ++ owned (heartbeat_batch st) ++ owned (data_batch st) ++ outside st).

(** What [new (nothrow)] promises for the calls of one round. *)
Definition heap_ok (held : list Z) (heap : nat -> option Z) : Prop :=
  (forall i raw, heap i = Some raw -> fresh_block ps n base held raw) /\
  (forall i j r r', i <> j -> heap i = Some r -> heap j = Some r' ->
     apart r (FallbackHeader_SIZE + ps) r' (FallbackHeader_SIZE + ps)).

(** Only the pool has changed, and blocks have been deleted. *)
Definition pool_changed (st st' : Receiver) : Prop :=
  exists p d, st' = mkReceiver p (mem st) (recv_buffers st) (heartbeat_batch st) (data_batch st)
                      (stats st) (calls st) (captured st) d (outside st).

#[local] Instance pool_changed_preorder : PreOrder pool_changed.
Proof.
  split.
  - intros st. exists (pool st), (deleted st). by destruct st.
  - intros s1 s2 s3 (p & d & ->) (p' & d' & ->). by exists p', d'.
Qed.

Lemma live_app l k : live (l ++ k) = live l ++ live k.
Proof. apply omap_app. Qed.

Lemma live_take_next l i b :
  (i < length l)%nat -> live (take (S i) (<[i := Some b]> l)) ≡ₚ b :: live (take i l).
Proof.
  intros Hi. rewrite (take_S_r _ i (Some b)) by (by apply list_lookup_insert_eq).
  rewrite take_insert_ge by done. rewrite live_app. cbn. by rewrite <-Permutation_cons_append.
Qed.

(** The heap block of one call is fresh although the calls before it took buffers. *)
Lemma fresh_later heap held i l raw :
  heap_ok held heap -> heap i = Some raw ->
  Forall (fun b => base <= b < limit ps n base \/
            exists j, (j < i)%nat /\ heap j = Some (b - FallbackHeader_SIZE)) l ->
  fresh_block ps n base (l ++ held) raw.
Proof.
  intros [H1 H2] Hr Hl. destruct (H1 i raw Hr) as [Hp Hh]. split; [done|].
  apply Forall_app. split; [|done]. eapply list.Forall_impl; [exact Hl|]. cbn.
  intros b [Hb|(j & Hj & Hb)] Hnot; [done|]. apply (H2 i j); [lia|done..].
Qed.

(** Phase 1 without a failure: every entry holds a buffer that is now in use. *)
Lemma alloc_buffers_ok heap held count : forall i st st',
  alloc_buffers heap count i st = (false, st') -> (i + count = length (recv_buffers st))%nat ->
  heap_ok held heap -> in_use (pool st) (live (take i (recv_buffers st)) ++ held) ->
  Forall (fun b => base <= b < limit ps n base \/
            exists j, (j < i)%nat /\ heap j = Some (b - FallbackHeader_SIZE)) (live (take i (recv_buffers st))) ->
  Forall is_Some (take i (recv_buffers st)) ->
  in_use (pool st') (live (recv_buffers st') ++ held) /\ Forall is_Some (recv_buffers st') /\
  length (recv_buffers st') = length (recv_buffers st) /\
  st' = mkReceiver (pool st') (mem st) (recv_buffers st') (heartbeat_batch st) (data_batch st)
          (stats st) (calls st) (captured st) (deleted st) (outside st).
Proof.
  induction count as [|count IH]; intros i st st' Ha Hl Hh Hu Hw Hs; cbn [alloc_buffers] in Ha.
  - injection Ha as <-. rewrite take_ge in Hu, Hs by lia. split_and!; [done..|]. by destruct st.
  - destruct (allocate (heap i) (pool st)) as [[b|] p] eqn:Hal; [|done].
    destruct st as [p0 m r h d s c k x o]. cbn in *. rewrite app_nil_r in Ha.
    assert (Hi : (i < length r)%nat) by lia.
    pose proof (in_use_where _ _ _ _ _ Hu Hal) as Hwb.
    apply (in_use_alloc _ _ (heap i) b p) in Hu; [|intros raw Hraw; by eapply fresh_later|done].
    apply IH in Ha; cbn in *.
    + rewrite length_insert in Ha. done.
    + rewrite length_insert. lia.
    + done.
    + rewrite live_take_next by done. done.
    + rewrite live_take_next by done. apply Forall_cons_2.
      * destruct Hwb as [?|Hwb]; [by left|]. right. exists i. split; [lia|done].
      * eapply list.Forall_impl; [exact Hw|]. cbn. intros a [?|(j & ? & ?)]; [by left|]. right. exists j. split; [lia|done].
    + rewrite (take_S_r _ i (Some b)) by (by apply list_lookup_insert_eq). rewrite take_insert_ge by done.
      apply Forall_app. split; [done|]. by repeat constructor.
Qed.

Lemma dealloc_ok b st held :
  in_use (pool st) (b :: held) -> in_use (pool (dealloc b st)) held /\ pool_changed st (dealloc b st).
Proof.
  intros Hu. apply in_use_free in Hu. unfold dealloc.
  destruct (deallocate (Some b) (pool st)) as [p d]. destruct st. cbn in *. split; [done|].
  eexists _, _. reflexivity.
Qed.

Lemma destroy_ok b st held :
  in_use (pool st) (owner b ++ held) -> in_use (pool (destroy b st)) held /\ pool_changed st (destroy b st).
Proof.
  destruct b as [[a|] [|]]; unfold destroy, PacketBuffer_destroy, owner; cbn.
  1: apply dealloc_ok.
  all: intros Hu; destruct st; cbn in *; (split; [done|]); eexists _, _; reflexivity.
Qed.

Lemma release_list_ok l : forall st held,
  in_use (pool st) (live l ++ held) ->
  let st' := foldl (fun st b => match b with None => st | Some b => dealloc b st end) st l in
  in_use (pool st') held /\ pool_changed st st'.
Proof.
  induction l as [|[b|] l IH]; intros st held Hu; cbn in *; [by split| |by apply IH].
  destruct (dealloc_ok b st _ Hu) as [H1 H2]. destruct (IH _ _ H1) as [H3 H4].
  split; [done|]. by etrans.
Qed.

Lemma destroy_list_ok l : forall st held,
  in_use (pool st) (owned l ++ held) ->
  let st' := foldl (fun st p => destroy (packet_buffer p) st) st l in
  in_use (pool st') held /\ pool_changed st st'.
Proof.
  induction l as [|p l IH]; intros st held Hu; cbn in *; [by split|].
  rewrite <-app_assoc in Hu. destruct (destroy_ok _ st _ Hu) as [H1 H2]. destruct (IH _ _ H1) as [H3 H4].
  split; [done|]. by etrans.
Qed.

Lemma clear_batches_ok st extra :
  accounted st extra -> accounted (clear_batches st) extra /\
  heartbeat_batch (clear_batches st) = [] /\ data_batch (clear_batches st) = [] /\
  mem (clear_batches st) = mem st /\ recv_buffers (clear_batches st) = recv_buffers st /\
  stats (clear_batches st) = stats st /\ calls (clear_batches st) = calls st /\
  outside (clear_batches st) = outside st.
Proof.
  unfold accounted, clear_batches. intros Hu.
  destruct (destroy_list_ok (heartbeat_batch st) st (owned (data_batch st) ++ extra ++ outside st)) as [H1 H2].
  { eapply in_use_proper; [done| |exact Hu]. solve_Permutation. }
  destruct (destroy_list_ok (data_batch st) _ _ H1) as [H3 H4].
  pose proof (transitivity H2 H4) as (p & d & H5). rewrite H5 in *. by cbn in *.
Qed.

(** ** What a batch delivers *)

Context (config : ArrayFaceReceiverConfig) (handler : option (Call -> bool * list Z)).

(** The datagrams that pass the source filter, and the priority of one. *)
Definition passes (m : mmsghdr) : bool :=
  negb (source_filter_enabled config &&
        ((msg_len m <=? Z.of_nat offsetof_source_id) ||
         negb (nth offsetof_source_id (msg_data m) 0 =? expected_source_id config))).

Definition msg_priority (m : mmsghdr) : PacketPriority :=
  classify_priority (Some (msg_data m)) (msg_len m) (extract_dscp_from_cmsg (msg_control m)).

Definition of_priority (q : PacketPriority) (msgs : list mmsghdr) : list mmsghdr :=
  filter (fun m => passes m = true /\ msg_priority m = q) msgs.

#[local] Arguments of_priority : simpl never.
#[local] Arguments passes : simpl never.
#[local] Arguments msg_priority : simpl never.

(** The entry of a batch for a datagram. *)
Definition pending_of (M : gmap Z bytes) (now : Z) (m : mmsghdr) (p : PendingPacket) : Prop :=
  exists b, p = mkPendingPacket (mkPacketBuffer (Some b) true) (msg_len m) now (msg_priority m) /\
            M !! b = Some (msg_data m).

Definition count_stats (s : Stats) (m : mmsghdr) : Stats :=
  if passes m then inc_received (msg_len m) s else inc_filtered s.

Lemma live_take_out l i b : l !! i = Some (Some b) -> live l ≡ₚ b :: live (<[i := None]> l).
Proof.
  intros Hi. pose proof (lookup_lt_Some _ _ _ Hi) as Hlt.
  rewrite insert_take_drop by done. rewrite <-(take_drop_middle l i (Some b)) at 1 by done.
  rewrite !live_app. cbn. by rewrite Permutation_middle.
Qed.

Lemma owned_app l k : owned (l ++ k) = owned l ++ owned k.
Proof. apply bind_app. Qed.

(** What the loop over the datagrams does between two states. *)
Record processed (now : Z) (msgs : list mmsghdr) (st st' : Receiver) : Prop := {
  pr_accounted : accounted st' (live (recv_buffers st'));
  pr_frame : mem st' = mem st /\ calls st' = calls st /\ outside st' = outside st /\
             length (recv_buffers st') = length (recv_buffers st);
  pr_heartbeats : exists l, heartbeat_batch st' = heartbeat_batch st ++ l /\
                            Forall2 (pending_of (mem st) now) (of_priority HIGH msgs) l;
  pr_data : exists l, data_batch st' = data_batch st ++ l /\
                      Forall2 (pending_of (mem st) now) (of_priority NORMAL msgs) l;
  pr_stats : stats st' = foldl count_stats (stats st) msgs;
}.

Lemma of_priority_one q m :
  of_priority q [m] = if passes m && bool_decide (msg_priority m = q) then [m] else [].
Proof.
  unfold of_priority. destruct (passes m) eqn:Hp; cbn [andb].
  - case_bool_decide; [by rewrite filter_cons_True|]. rewrite filter_cons_False; [done|]. tauto.
  - rewrite filter_cons_False; [done|]. rewrite Hp. intros [? _]. done.
Qed.

Lemma process_message_ok inp i m st b :
  recv_buffers st !! i = Some (Some b) -> mem st !! b = Some (msg_data m) ->
  accounted st (live (recv_buffers st)) ->
  processed (ri_now inp) [m] st (process_message config inp i m st) /\
  (forall j, j <> i -> recv_buffers (process_message config inp i m st) !! j = recv_buffers st !! j).
Proof.
  intros Hi Hm Hacc. unfold process_message. rewrite Hi. cbn [default from_option id].
  assert (Hc : contents (mkPacketBuffer (Some b) true) (set_recv (<[i := None]> (recv_buffers st)) st) = Some (msg_data m)).
  { destruct st. cbn in *. by rewrite Hm. }
  rewrite Hc. cbn [default from_option id]. unfold accounted in Hacc. rewrite (live_take_out _ _ _ Hi) in Hacc.
  pose proof (eq_refl (passes m)) as Hpass. unfold passes at 1 in Hpass.
  destruct (_ && _); cbn [negb] in Hpass.
  - destruct (destroy_ok (mkPacketBuffer (Some b) true)
      (set_stats inc_filtered (set_recv (<[i := None]> (recv_buffers st)) st))
      (live (<[i := None]> (recv_buffers st)) ++ owned (heartbeat_batch st) ++ owned (data_batch st) ++ outside st))
      as [H1 (p & d & H2)].
    { by destruct st. }
    rewrite H2 in *. destruct st as [p0 mm r h db s c k x o]. cbn in *. split.
    + constructor; cbn; try done.
      * by rewrite length_insert.
      * exists []. rewrite app_nil_r, of_priority_one, <-Hpass. split; [done|constructor].
      * exists []. rewrite app_nil_r, of_priority_one, <-Hpass. split; [done|constructor].
      * unfold count_stats. by rewrite <-Hpass.
    + intros j Hj. by rewrite list_lookup_insert_ne.
  - change (classify_priority (Some (msg_data m)) (msg_len m) (extract_dscp_from_cmsg (msg_control m)))
      with (msg_priority m).
    destruct st as [p0 mm r h db s c k x o]. cbn in *.
    destruct (ri_capture inp), (msg_priority m) eqn:Hpr; cbn; (split; [|intros j Hj; by rewrite list_lookup_insert_ne]);
      (constructor; cbn; [|by rewrite length_insert|..]).
    all: try (unfold accounted; cbn; rewrite ?owned_app; eapply in_use_proper; [done| |exact Hacc]; cbn; solve_Permutation).
    all: try (unfold count_stats; by rewrite <-Hpass).
    all: rewrite of_priority_one, <-Hpass, Hpr; cbn.
    all: try (exists []; rewrite app_nil_r; split; [done|constructor]).
    all: eexists; (split; [reflexivity|]); repeat constructor; exists b; by rewrite Hpr.
Qed.

(** The datagrams [msgs] are in the buffers from entry [i] on. *)
Definition arrived (M : gmap Z bytes) (bufs : list (option Z)) (i : nat) (msgs : list mmsghdr) : Prop :=
  forall k m, msgs !! k = Some m ->
    exists b, bufs !! (i + k)%nat = Some (Some b) /\ M !! b = Some (msg_data m).

Lemma of_priority_cons q m msgs : of_priority q (m :: msgs) = of_priority q [m] ++ of_priority q msgs.
Proof. unfold of_priority. by rewrite <-list.filter_app. Qed.

Lemma process_messages_ok inp msgs : forall i st,
  arrived (mem st) (recv_buffers st) i msgs -> accounted st (live (recv_buffers st)) ->
  processed (ri_now inp) msgs st (process_messages config inp i msgs st).
Proof.
  induction msgs as [|m msgs IH]; intros i st Harr Hacc; cbn [process_messages].
  - constructor; try done; exists []; rewrite app_nil_r; (split; [done|constructor]).
  - destruct (Harr 0%nat m eq_refl) as (b & Hb & Hm). rewrite Nat.add_0_r in Hb.
    destruct (process_message_ok inp i m st b Hb Hm Hacc) as [[H1 (Hmem & Hca & Ho & Hlen) Hh Hd Hs] Hother].
    remember (process_message config inp i m st) as st1 eqn:E. clear E.
    destruct (IH (S i) st1) as [H1' (Hmem' & Hca' & Ho' & Hlen') Hh' Hd' Hs']; [|done|].
    { intros k m' Hk. destruct (Harr (S k) m' Hk) as (b' & Hb' & Hm'). exists b'. rewrite Hmem. split; [|done].
      rewrite Hother by lia. by replace (S i + k)%nat with (i + S k)%nat by lia. }
    destruct Hh as (l1 & E1 & F1), Hh' as (l1' & E1' & F1'), Hd as (l2 & E2 & F2), Hd' as (l2' & E2' & F2').
    rewrite Hmem in *. constructor; [done|split_and!; congruence| | |].
    + exists (l1 ++ l1'). rewrite of_priority_cons. split; [by rewrite E1', E1, app_assoc|by apply Forall2_app].
    + exists (l2 ++ l2'). rewrite of_priority_cons. split; [by rewrite E2', E2, app_assoc|by apply Forall2_app].
    + rewrite Hs', Hs. done.
Qed.

Lemma kernel_write_other msgs : forall bufs M b,
  Some b ∉ bufs -> kernel_write msgs bufs M !! b = M !! b.
Proof.
  induction msgs as [|m msgs IH]; intros [|[a|] bufs] M b Hb; cbn; try done.
  apply not_elem_of_cons in Hb as [Hne Hb]. rewrite IH by done. apply lookup_insert_ne. congruence.
Qed.

Lemma live_elem b l : Some b ∈ l -> b ∈ live l.
Proof. intros Hb. apply list_elem_of_omap. by exists (Some b). Qed.

(** Every datagram is found in its buffer, since the buffers are different. *)
Lemma kernel_write_arrived msgs : forall bufs M,
  Forall is_Some bufs -> NoDup (live bufs) -> (length msgs <= length bufs)%nat ->
  arrived (kernel_write msgs bufs M) bufs 0 msgs.
Proof.
  induction msgs as [|m msgs IH]; intros [|[a|] bufs] M Hs Hnd Hlen k m' Hk; cbn [length] in *; try done; try lia.
  - apply Forall_cons_1 in Hs as [_ Hs]. cbn in Hnd. apply list.NoDup_cons in Hnd as [Hni Hnd].
    destruct k as [|k]; cbn in *.
    + injection Hk as <-. exists a. split; [done|]. rewrite kernel_write_other; [apply lookup_insert_eq|].
      by intros ?%live_elem.
    + destruct (IH bufs (<[a := msg_data m]> M) Hs Hnd ltac:(lia) k m' Hk) as (b & Hb & Hm). by exists b.
  - apply Forall_cons_1 in Hs as [[? ?] _]. done.
Qed.

Lemma remove_perm (a : Z) l : NoDup l -> a ∈ l -> l ≡ₚ a :: filter (fun b => b <> a) l.
Proof.
  induction 1 as [|b l Hb Hnd IH]; intros Hin; [by apply not_elem_of_nil in Hin|].
  rewrite filter_cons. destruct (decide (b <> a)) as [Hne|He].
  - apply elem_of_cons in Hin as [->|Hin]; [done|]. rewrite (IH Hin) at 1. apply Permutation_swap.
  - assert (b = a) as -> by (destruct (decide (b = a)); tauto). f_equiv.
    rewrite (filter_keep _ l); [done|]. apply list.Forall_forall. intros c Hc ->. done.
Qed.

(** Returns by the client change the pool and what the client holds. *)
Lemma client_free_ok bs : forall st held,
  in_use (pool st) (held ++ outside st) ->
  let st' := client_free bs st in
  in_use (pool st') (held ++ outside st') /\
  mem st' = mem st /\ recv_buffers st' = recv_buffers st /\ heartbeat_batch st' = heartbeat_batch st /\
  data_batch st' = data_batch st /\ stats st' = stats st /\ calls st' = calls st.
Proof.
  induction bs as [|b bs IH]; intros st held Hu; cbn [client_free]; [done|].
  case_bool_decide as Hin; [|by apply IH].
  destruct (dealloc_ok b st (held ++ filter (fun a => a <> b) (outside st))) as [H1 (p & d & H2)].
  { rewrite Permutation_middle, <-remove_perm; [done| |done].
    apply in_use_nodup in Hu. by apply list.NoDup_app in Hu as (_ & _ & ?). }
  rewrite H2 in *. cbn in *. destruct (IH (mkReceiver p (mem st) (recv_buffers st) (heartbeat_batch st)
    (data_batch st) (stats st) (calls st) (captured st) d (filter (fun a => a <> b) (outside st))) held H1) as [H3 H4].
  done.
Qed.

(** A call of the handler but for the address, and the call for a datagram. *)
Definition view (c : Call) : bytes * Z * Z * PacketPriority :=
  (call_data c, call_timestamp c, call_array c, call_priority c).

Definition expected_call (now : Z) (m : mmsghdr) : bytes * Z * Z * PacketPriority :=
  (msg_data m, now, array_id config, msg_priority m).

(** The fields a delivery leaves alone. *)
Definition delivery_frame (st st' : Receiver) : Prop :=
  mem st' = mem st /\ recv_buffers st' = recv_buffers st /\ heartbeat_batch st' = heartbeat_batch st /\
  data_batch st' = data_batch st /\ stats st' = stats st.

(** A call of the handler, whatever the priority. *)
Lemma deliver_call h now b data prio st held p' st' :
  deliver config h (mkPendingPacket (mkPacketBuffer (Some b) true) (Z.of_nat (length data)) now prio) st = (p', st') ->
  mem st !! b = Some data -> in_use (pool st) (b :: held ++ outside st) ->
  in_use (pool st') (owner (packet_buffer p') ++ held ++ outside st') /\ delivery_frame st st' /\
  view <$> calls st' = (view <$> calls st) ++ [(data, now, array_id config, prio)].
Proof.
  intros Hd Hm Hu. unfold deliver in Hd. cbn in Hd, Hu. rewrite Hm in Hd. cbn in Hd. rewrite Nat2Z.id, firstn_all in Hd.
  destruct (h _) as [takes frees]. destruct st as [p0 mm r hb db s c k x o]. cbn in *.
  destruct takes; injection Hd as <- <-; cbn.
  - match goal with |- context [client_free frees ?s] => destruct (client_free_ok frees s held) as (H1 & H2 & H3 & H4 & H5 & H6 & H7) end.
    { cbn. by rewrite <-Permutation_middle. }
    cbn in *. split; [done|]. split; [done|]. rewrite H7, fmap_app. done.
  - match goal with |- context [client_free frees ?s] => destruct (client_free_ok frees s (b :: held)) as (H1 & H2 & H3 & H4 & H5 & H6 & H7) end; [done|].
    cbn in *. split; [done|]. split; [done|]. rewrite H7, fmap_app. done.
Qed.

Lemma deliver_ok h now m p st held p' st' :
  deliver config h p st = (p', st') -> pending_of (mem st) now m p ->
  in_use (pool st) (owner (packet_buffer p) ++ held ++ outside st) ->
  in_use (pool st') (owner (packet_buffer p') ++ held ++ outside st') /\ delivery_frame st st' /\
  view <$> calls st' = (view <$> calls st) ++ [expected_call now m].
Proof. intros Hd (b & -> & Hm) Hu. by apply (deliver_call h now b (msg_data m) (msg_priority m) st held). Qed.

Lemma deliver_batch_ok h now msgs l : forall st held l' st',
  deliver_batch config h l st = (l', st') -> Forall2 (pending_of (mem st) now) msgs l ->
  in_use (pool st) (owned l ++ held ++ outside st) ->
  in_use (pool st') (owned l' ++ held ++ outside st') /\ delivery_frame st st' /\
  view <$> calls st' = (view <$> calls st) ++ (expected_call now <$> msgs).
Proof.
  intros st held l' st' Hd Hf. revert st held l' st' Hd Hf.
  revert msgs. induction l as [|p l IH]; intros msgs st held l' st' Hd Hf Hu.
  - apply Forall2_nil_inv_r in Hf as ->. cbn in Hd. injection Hd as <- <-. by rewrite app_nil_r.
  - apply Forall2_cons_inv_r in Hf as (m & msgs' & Hp & Hf & ->). cbn [deliver_batch] in Hd.
    destruct (deliver config h p st) as [p1 st1] eqn:H1. destruct (deliver_batch config h l st1) as [l1 st2] eqn:H2.
    injection Hd as <- <-.
    destruct (deliver_ok h now m p st (owned l ++ held) p1 st1 H1 Hp) as (Hu1 & Hfr1 & Hc1).
    { eapply in_use_proper; [done| |exact Hu]. cbn. solve_Permutation. }
    destruct (IH msgs' st1 (owner (packet_buffer p1) ++ held) l1 st2 H2) as (Hu2 & Hfr2 & Hc2).
    { destruct Hfr1 as (-> & _). done. }
    { eapply in_use_proper; [done| |exact Hu1]. solve_Permutation. }
    split; [|split].
    + eapply in_use_proper; [done| |exact Hu2]. cbn. solve_Permutation.
    + unfold delivery_frame in *. destruct Hfr1 as (? & ? & ? & ? & ?), Hfr2 as (? & ? & ? & ? & ?). split_and!; congruence.
    + rewrite Hc2, Hc1. by rewrite <-app_assoc.
Qed.

(** The calls for a batch: the heartbeats in the order of arrival, then the rest. *)
Definition batch_calls (now : Z) (msgs : list mmsghdr) : list (bytes * Z * Z * PacketPriority) :=
  if handler then expected_call now <$> (of_priority HIGH msgs ++ of_priority NORMAL msgs) else [].

Lemma deliver_all_ok now msgs st extra :
  Forall2 (pending_of (mem st) now) (of_priority HIGH msgs) (heartbeat_batch st) ->
  Forall2 (pending_of (mem st) now) (of_priority NORMAL msgs) (data_batch st) ->
  accounted st extra ->
  let st' := deliver_all config handler st in
  accounted st' extra /\ mem st' = mem st /\ recv_buffers st' = recv_buffers st /\ stats st' = stats st /\
  view <$> calls st' = (view <$> calls st) ++ batch_calls now msgs.
Proof.
  intros Hh Hd Hu. unfold deliver_all, batch_calls. destruct handler as [h|]; cbn zeta; [|by rewrite app_nil_r].
  destruct (deliver_batch config h (heartbeat_batch st) st) as [hb st1] eqn:H1.
  destruct (deliver_batch config h (data_batch st1) st1) as [db st2] eqn:H2.
  destruct (deliver_batch_ok h now _ _ st (extra ++ owned (data_batch st)) hb st1 H1 Hh) as (Hu1 & Hfr1 & Hc1).
  { unfold accounted in Hu. eapply in_use_proper; [done| |exact Hu]. solve_Permutation. }
  destruct Hfr1 as (E1 & E2 & E3 & E4 & E5). rewrite E4 in *.
  destruct (deliver_batch_ok h now _ _ st1 (owned hb ++ extra) db st2 H2 ltac:(by rewrite E1)) as (Hu2 & Hfr2 & Hc2).
  { eapply in_use_proper; [done| |exact Hu1]. solve_Permutation. }
  destruct Hfr2 as (F1 & F2 & F3 & F4 & F5). destruct st2. cbn in *. split_and!; try congruence.
  - unfold accounted. cbn. eapply in_use_proper; [done| |exact Hu2]. solve_Permutation.
  - rewrite Hc2, Hc1, fmap_app. by rewrite <-app_assoc.
Qed.

(** ** A round and the loop *)

(** What a round is to do: whether to drain further, the handler calls, the counters. *)
Definition round_spec (inp : RoundInput) (drain_round : Z) (s : Stats)
    : bool * list (bytes * Z * Z * PacketPriority) * Stats :=
  match ri_recv inp (negb (drain_round =? 0)) with
  | RecvError errno =>
    (false, [], if ri_running inp && negb (errno =? EINTR) && negb (errno =? EAGAIN) then inc_error s else s)
  | Received msgs =>
    ((batch_size config <=? length msgs)%nat, batch_calls (ri_now inp) msgs, foldl count_stats s msgs)
  end.

Fixpoint rounds_spec (inputs : list RoundInput) (drain_round : Z) (s : Stats)
    : list (bytes * Z * Z * PacketPriority) * Stats :=
  match inputs with
  | [] => ([], s)
  | inp :: inputs =>
    let '(more, cs, s) := round_spec inp drain_round s in
    let next := if more && (drain_round + 1 <? drain_rounds config) then drain_round + 1 else 0 in
    let '(cs', s) := rounds_spec inputs next s in (cs ++ cs', s)
  end.

(** The buffers in use between two rounds. *)
Definition held (st : Receiver) : list Z :=
  owned (heartbeat_batch st) ++ owned (data_batch st) ++ outside st.

(** The promises of [new] and [recvmmsg] for a round in which no allocation fails. *)
Definition input_ok (inp : RoundInput) (st : Receiver) : Prop :=
  heap_ok (held st) (ri_heap inp) /\
  fst (alloc_buffers (ri_heap inp) (batch_size config) 0 st) = false /\
  forall dontwait msgs, ri_recv inp dontwait = Received msgs -> (length msgs <= batch_size config)%nat.

Fixpoint inputs_ok (inputs : list RoundInput) (drain_round : Z) (st : Receiver) : Prop :=
  match inputs with
  | [] => True
  | inp :: inputs =>
    let '(more, st') := round config handler inp drain_round st in
    let next := if more && (drain_round + 1 <? drain_rounds config) then drain_round + 1 else 0 in
    input_ok inp st /\ inputs_ok inputs next st'
  end.

Definition ready (st : Receiver) : Prop :=
  accounted st [] /\ length (recv_buffers st) = batch_size config.

Lemma release_ok st : accounted st (live (recv_buffers st)) ->
  accounted (release_buffers st) [] /\ pool_changed st (release_buffers st).
Proof.
  intros Hu. destruct (release_list_ok (recv_buffers st) st (held st) Hu) as [H1 H2]. split; [|done].
  unfold release_buffers in *. destruct H2 as (p & d & H2). rewrite H2 in *. exact H1.
Qed.

Lemma handle_batch_ok inp msgs st :
  accounted st (live (recv_buffers st)) -> Forall is_Some (recv_buffers st) ->
  (length msgs <= length (recv_buffers st))%nat ->
  let st' := handle_batch config handler inp msgs st in
  accounted st' [] /\ length (recv_buffers st') = length (recv_buffers st) /\
  view <$> calls st' = (view <$> calls st) ++ batch_calls (ri_now inp) msgs /\
  stats st' = foldl count_stats (stats st) msgs.
Proof.
  intros Hu Hs Hlen. unfold handle_batch. cbn zeta.
  assert (Harr : arrived (kernel_write msgs (recv_buffers st) (mem st)) (recv_buffers st) 0 msgs).
  { apply kernel_write_arrived; [done| |done]. apply in_use_nodup in Hu. by apply list.NoDup_app in Hu as (? & _). }
  set (st1 := set_mem (kernel_write msgs (recv_buffers st) (mem st)) st).
  assert (E1 : accounted st1 (live (recv_buffers st1)) /\ mem st1 = kernel_write msgs (recv_buffers st) (mem st) /\
    recv_buffers st1 = recv_buffers st /\ stats st1 = stats st /\ calls st1 = calls st).
  { subst st1. by destruct st. }
  clearbody st1. destruct E1 as (Hu1 & Em & Er & Es & Ec).
  destruct (clear_batches_ok st1 _ Hu1) as (Hu2 & Hh2 & Hd2 & Em2 & Er2 & Es2 & Ec2 & _).
  remember (clear_batches st1) as st2 eqn:E2. clear E2.
  destruct (process_messages_ok inp msgs 0 st2) as [Hu3 (Em3 & Ec3 & _ & El3) (hb & Hhb & Fh) (db & Hdb & Fd) Es3].
  { by rewrite Em2, Er2, Em, Er. }
  { by rewrite Er2. }
  rewrite Hh2 in Hhb. rewrite Hd2 in Hdb. cbn in Hhb, Hdb. subst hb db.
  remember (process_messages config inp 0 msgs st2) as st3 eqn:E3. clear E3.
  destruct (deliver_all_ok (ri_now inp) msgs st3 _ ltac:(by rewrite Em3) ltac:(by rewrite Em3) Hu3) as (Hu4 & Em4 & Er4 & Es4 & Ec4).
  remember (deliver_all config handler st3) as st4 eqn:E4. clear E4. rewrite <-Er4 in Hu4.
  destruct (release_ok st4 Hu4) as (Hu5 & p & d & H5). rewrite H5 in *. cbn in *.
  split; [done|]. split_and!; [congruence|rewrite Ec4; congruence|congruence].
Qed.

Lemma round_ok inp drain_round st :
  ready st -> input_ok inp st ->
  let '(more, st') := round config handler inp drain_round st in
  ready st' /\
  exists cs, round_spec inp drain_round (stats st) = (more, cs, stats st') /\
             view <$> calls st' = (view <$> calls st) ++ cs.
Proof.
  intros [Hu Hl] (Hheap & Hok & Hsize). unfold round, round_spec.
  destruct (alloc_buffers (ri_heap inp) (batch_size config) 0 st) as [failed st1] eqn:Ha. cbn in Hok. subst failed.
  destruct (alloc_buffers_ok (ri_heap inp) (held st) (batch_size config) 0 st st1 Ha) as (Hu1 & Hs1 & Hl1 & E1);
    [by rewrite Hl|done|exact Hu|constructor|constructor|].
  assert (Hacc : accounted st1 (live (recv_buffers st1))).
  { unfold accounted, held in *. rewrite E1. cbn [pool recv_buffers heartbeat_batch data_batch outside]. exact Hu1. }
  assert (Hc : calls st1 = calls st /\ stats st1 = stats st) by (by rewrite E1).
  destruct Hc as [Hc Hst]. clear E1. rewrite Hl in Hl1.
  destruct (release_ok st1 Hacc) as (Hr1 & p & d & Hr2).
  destruct (ri_recv inp (negb (drain_round =? 0))) as [errno|[|m msgs]] eqn:Hrecv.
  - rewrite Hr2 in *. destruct (_ && _ && _); cbn in *; (split; [by split|]); exists [];
      rewrite Hst, Hc, app_nil_r; done.
  - rewrite Hr2 in *. cbn in *. split; [by split|]. exists [].
    rewrite Hst, Hc, app_nil_r. split; [|done]. unfold batch_calls.
    assert (Hb : (batch_size config <=? 0)%nat = false).
    { apply Nat.leb_gt. unfold batch_size, effective_batch_size. lia. }
    rewrite Hb. destruct handler; done.
  - destruct (handle_batch_ok inp (m :: msgs) st1 Hacc Hs1) as (H1 & H2 & H3 & H4).
    { rewrite Hl1. by eapply Hsize. }
    split; [split; [done|congruence]|]. eexists. split; [by rewrite H4, Hst|]. by rewrite H3, Hc.
Qed.

Lemma rounds_ok inputs : forall drain_round st,
  ready st -> inputs_ok inputs drain_round st ->
  let st' := rounds config handler inputs drain_round st in
  ready st' /\
  exists cs, rounds_spec inputs drain_round (stats st) = (cs, stats st') /\
             view <$> calls st' = (view <$> calls st) ++ cs.
Proof.
  induction inputs as [|inp inputs IH]; intros dr st Hr Hin; cbn [rounds rounds_spec inputs_ok] in *.
  - split; [done|]. exists []. by rewrite app_nil_r.
  - pose proof (round_ok inp dr st Hr) as Hro. destruct (round config handler inp dr st) as [more st1].
    destruct Hin as [H1 H2]. destruct (Hro H1) as (Hr1 & cs & E1 & E2). rewrite E1.
    destruct (IH _ st1 Hr1 H2) as (Hr2 & cs' & E3 & E4). split; [done|]. rewrite E3. eexists. split; [reflexivity|].
    rewrite E4, E2. by rewrite app_assoc.
Qed.

Lemma in_use_available p h :
  in_use p h -> available (get_statistics p) = Z.of_nat n - Z.of_nat (in_pool ps n base h).
Proof.
  intros (l & Hr & Hl). apply reach_inv in Hr as (fl & hp & hf & Hi); [|done..].
  assert (Hle : (length fl + length hp = n)%nat).
  { rewrite <-length_app, (pi_all _ _ _ _ _ _ _ _ Hi). apply length_seq. }
  replace (in_pool ps n base h) with (in_pool ps n base l) by (unfold in_pool; by rewrite Hl).
  rewrite (in_pool_count ps n base Hps Hn Hbase Hfit p l fl hp hf Hi). unfold get_statistics.
  rewrite (pi_available _ _ _ _ _ _ _ _ Hi). lia.
Qed.

End Accounting.

Lemma pool_size_pos config : 0 < pool_size config.
Proof. unfold pool_size. lia. Qed.

(** C5: The receive thread of a face over any number of rounds in which no
    allocation fails: the packet handler is called exactly once for every datagram
    that passes the source filter, with the bytes received, the clock of its batch
    and the face's id, the heartbeats of a batch before its other datagrams and
    each group in the order of arrival; the counters are exact; and when the loop
    returns every pool buffer is free but those the handler has taken and not yet
    returned, so that no buffer is lost or returned twice on any path (datagrams,
    none, a failed [recvmmsg], a filtered datagram, a missing handler). *)
Theorem receive_loop_delivers config handler base inputs :
  let n := Z.to_nat (pool_size config) in
  let st := Receiver_init config (Some base) in
  let st' := receive_loop config handler inputs st in
  0 <= base -> base + kPacketBufferSize * pool_size config < 2 ^ 64 ->
  inputs_ok kPacketBufferSize n base config handler inputs 0 st ->
  rounds_spec config handler inputs 0 (mkStats 0 0 0 0) = (view <$> calls st', stats st') /\
  in_use kPacketBufferSize n base (pool st') (outside st') /\
  available (get_statistics (pool st')) =
    pool_size config - Z.of_nat (in_pool kPacketBufferSize n base (outside st')).
Proof.
  intros n st st' Hb Hfit Hin. pose proof (pool_size_pos config) as Hpos.
  assert (Hz : Z.of_nat n = pool_size config) by (apply Z2Nat.id, Z.lt_le_incl, Hpos).
  assert (Hps : 0 < kPacketBufferSize) by (unfold kPacketBufferSize; lia).
  assert (Hn : (0 < n)%nat) by (clear -Hz Hpos; lia).
  assert (Hfit' : base + kPacketBufferSize * Z.of_nat n < 2 ^ 64) by (by rewrite Hz).
  destruct (rounds_ok kPacketBufferSize n base Hps Hn Hb Hfit' config handler inputs 0 st) as (Hr & cs & E1 & E2); [|done|].
  { split; [|apply length_replicate]. exists []. split; [apply reach_init|done]. }
  unfold receive_loop in st'. subst st'.
  destruct (clear_batches_ok kPacketBufferSize n base Hps Hn Hb Hfit' _ _ (proj1 Hr)) as (H1 & H2 & H3 & _ & _ & H4 & H5 & H6).
  rewrite H4, H5, H6. unfold accounted in H1. rewrite H2, H3, H6 in H1. split; [by rewrite E2|].
  split; [done|]. rewrite (in_use_available kPacketBufferSize n base Hps Hn Hb Hfit' _ _ H1). by rewrite Hz.
Qed.

(** A batch of two: a data packet and a heartbeat, then a round without datagrams. *)
Definition demo_config : ArrayFaceReceiverConfig := mkArrayFaceReceiverConfig 1 0x11 "0.0.0.0" 9999 16 false 2 1 256 0 false 1 true.

Definition demo_inputs : list RoundInput :=
  [mkRoundInput (fun _ => None)
     (fun _ => Received [mkMmsghdr [1; 2; 3] []; mkMmsghdr [4; 5] [mkCmsghdr 0 1 192]]) true 7000 false;
   mkRoundInput (fun _ => None) (fun _ => RecvError 11) true 8000 false].

Lemma demo_inputs_ok :
  inputs_ok kPacketBufferSize 8 4096 demo_config (Some (fun _ => (true, []))) demo_inputs 0
    (Receiver_init demo_config (Some 4096)).
Proof.
  assert (Hheap : forall held, heap_ok kPacketBufferSize 8 4096 held (fun _ => None)) by done.
  cbn [inputs_ok demo_inputs].
  destruct (round _ _ _ 0 (Receiver_init _ _)) as [more st1] eqn:H1.
  assert (E : more = true /\ fst (alloc_buffers (fun _ => None) 2 0 st1) = false).
  { vm_compute in H1. injection H1 as <- <-. split; vm_compute; reflexivity. }
  destruct E as [-> E]. clear H1.
  destruct (round _ _ _ _ st1) as [more2 st2]. split; [split; [apply Hheap|split]|].
  - vm_compute. reflexivity.
  - intros dw msgs [= <-]. apply Nat.leb_le. vm_compute. reflexivity.
  - split; [|exact I]. split; [apply Hheap|split; [exact E|]]. intros dw msgs. discriminate.
Qed.

Lemma receive_loop_delivers_witness :
  let st' := receive_loop demo_config (Some (fun _ => (true, []))) demo_inputs (Receiver_init demo_config (Some 4096)) in
  view <$> calls st' = [([4; 5], 7000, 1, HIGH); ([1; 2; 3], 7000, 1, NORMAL)] /\
  available (get_statistics (pool st')) = 6.
Proof.
  intros st'.
  destruct (receive_loop_delivers demo_config (Some (fun _ => (true, []))) 4096 demo_inputs) as (H1 & _ & H2).
  - lia.
  - vm_compute. reflexivity.
  - exact demo_inputs_ok.
  - fold st' in H1, H2. split.
    + vm_compute in H1. vm_compute. reflexivity.
    + vm_compute. reflexivity.
Defined.

(** Batches of three from a pool of twelve; the handler keeps what it gets. *)
Definition full_config : ArrayFaceReceiverConfig := mkArrayFaceReceiverConfig 1 0x11 "0.0.0.0" 9999 16 false 3 1 256 0 false 1 true.

Definition round_of (msgs : list bytes) : RoundInput :=
  mkRoundInput (fun _ => None) (fun _ => Received ((fun d => mkMmsghdr d []) <$> msgs)) true 0 false.

(** [recv_buffers] keeps the pointers the loop has returned, so a failed
    allocation returns a buffer twice.  With eleven of twelve buffers in use and
    the last one returned at the end of a batch (its pointer still in the third
    entry), the next round takes it for the first entry, cannot allocate for the
    second one, and returns both entries; the free list then loops, the next round
    gets one buffer for all three datagrams, and the handler is given the bytes of
    the third datagram three times. *)
Theorem allocation_failure_corrupts_pool :
  let inputs := [round_of [[1]; [2]; [3]]; round_of [[4]; [5]]; round_of [[6]; [7]]; round_of [[8]; [9]];
                 round_of [[10]; [11]]; round_of []; round_of [[21]; [22]; [23]]] in
  let st := receive_loop full_config (Some (fun _ => (true, []))) inputs (Receiver_init full_config (Some 4096)) in
  total_size (get_statistics (pool st)) = 12 /\
  recv_errors (stats st) = 1 /\
  call_data <$> drop 11 (calls st) = [[23]; [23]; [23]] /\
  exists b, call_buffer <$> drop 11 (calls st) = replicate 3 (Some b).
Proof. vm_compute. split_and!; [reflexivity..|]. eexists. reflexivity. Qed.

End ArrayFaceReceiver.
