(* ===== verification/PortableReceiver.v ===== *)
(** The receive loop of [src/m01_receiver/network/array_face_receiver.cpp] for systems without
    [recvmmsg]: one buffer and one [recvfrom] for each datagram.  It is compared with the Linux
    loop of [ArrayFaceReceiver], whose state and buffers it shares. *)

From stdpp Require Import strings.
From S2P Require Import Prelude Protocol PacketPool ArrayFaceReceiver.
Open Scope Z_scope.
Import Protocol PacketPool ArrayFaceReceiver.

Module PortableReceiver.

(** ** Definitions *)

(** The result of [recvfrom]: [-1] with the error number, or the bytes of a datagram. *)
Inductive RecvFrom := RecvFromError (errno : Z) | Datagram (data : bytes).

(** What an iteration that finds [running_] set finds. *)
Record PortableInput := mkPortableInput {
  pi_heap : option Z;
  pi_recv : RecvFrom;
  pi_now : Z;
  pi_capture : bool;
}.

Section Loop.

Context (config : ArrayFaceReceiverConfig) (handler : option (Call -> bool * list Z)).

(** The iteration for a datagram in the buffer [b]. *)
Definition portable_datagram (inp : PortableInput) (b : Z) (data : bytes) (st : Receiver) : Receiver :=
  let packet_len := Z.of_nat (length data) in
  let packet_buffer := mkPacketBuffer (Some b) true in
  let st := set_mem (<[b := data]> (mem st)) st in
  if source_filter_enabled config &&
     ((packet_len <=? Z.of_nat offsetof_source_id) || negb (nth offsetof_source_id data 0 =? expected_source_id config))
  then destroy packet_buffer (set_stats inc_filtered st)
  else
    let st := if pi_capture inp then add_captured (data, pi_now inp / 1000) st else st in
    let st := set_stats (inc_received packet_len) st in
    match handler with
    | None => destroy packet_buffer st
    | Some h =>
      let '(rest, st) := deliver config h (mkPendingPacket packet_buffer packet_len (pi_now inp) NORMAL) st in
      destroy (ArrayFaceReceiver.packet_buffer rest) st
    end.

Definition portable_round (inp : PortableInput) (st : Receiver) : Receiver :=
  let '(b, p) := allocate (pi_heap inp) (pool st) in
  let st := set_pool p None st in
  match b with
  | None => set_stats inc_error st
  | Some b =>
    match pi_recv inp with
    | RecvFromError errno =>
      let st := dealloc b st in
      if negb (errno =? EINTR) && negb (errno =? EAGAIN) then set_stats inc_error st else st
    | Datagram [] => dealloc b st
    | Datagram data => portable_datagram inp b data st
    end
  end.

Definition portable_loop (inputs : list PortableInput) (st : Receiver) : Receiver := foldl (fun st inp => portable_round inp st) st inputs.

(** ** Specification *)

(** The datagram as the other loop gets it, without control messages. *)
Definition msg_of (data : bytes) : mmsghdr := mkMmsghdr data [].

(** The call for a datagram: every priority is the normal one. *)
Definition plain_call (now : Z) (data : bytes) : bytes * Z * Z * PacketPriority := (data, now, array_id config, NORMAL).

Definition portable_spec_round (inp : PortableInput) (s : Stats) : list (bytes * Z * Z * PacketPriority) * Stats :=
  match pi_recv inp with
  | RecvFromError errno => ([], if negb (errno =? EINTR) && negb (errno =? EAGAIN) then inc_error s else s)
  | Datagram [] => ([], s)
  | Datagram data =>
    (if passes config (msg_of data) then (if handler then [plain_call (pi_now inp) data] else []) else [], count_stats config s (msg_of data))
  end.

Fixpoint portable_spec (inputs : list PortableInput) (s : Stats) : list (bytes * Z * Z * PacketPriority) * Stats :=
  match inputs with
  | [] => ([], s)
  | inp :: inputs =>
    let '(cs, s) := portable_spec_round inp s in
    let '(cs', s) := portable_spec inputs s in (cs ++ cs', s)
  end.

(** The input of the Linux loop for an input of this one. *)
Definition linux_input (inp : PortableInput) : RoundInput :=
  mkRoundInput (fun _ => pi_heap inp)
    (fun _ => match pi_recv inp with RecvFromError errno => RecvError errno | Datagram data => Received [msg_of data] end)
    true (pi_now inp) (pi_capture inp).

(** A call but for its priority. *)
Definition no_priority (c : bytes * Z * Z * PacketPriority) : bytes * Z * Z := fst c.

(** ** Lemmas *)

Section Accounting.

Context (ps : Z) (n : nat) (base : Z).
Hypothesis Hps : 0 < ps.
Hypothesis Hn : (0 < n)%nat.
Hypothesis Hbase : 0 <= base.
Hypothesis Hfit : base + ps * Z.of_nat n < 2 ^ 64.

#[local] Abbreviation in_use := (in_use ps n base).

(** No batch, and every buffer in use is with the handler. *)
Definition idle (st : Receiver) : Prop :=
  heartbeat_batch st = [] /\ data_batch st = [] /\ in_use (pool st) (outside st).

(** The promises of [new] for an iteration whose allocation succeeds. *)
Definition portable_ok (inp : PortableInput) (st : Receiver) : Prop :=
  (forall raw, pi_heap inp = Some raw -> fresh_block ps n base (outside st) raw) /\ is_Some (allocate (pi_heap inp) (pool st)).1.

Fixpoint portable_inputs_ok (inputs : list PortableInput) (st : Receiver) : Prop :=
  match inputs with
  | [] => True
  | inp :: inputs => portable_ok inp st /\ portable_inputs_ok inputs (portable_round inp st)
  end.

(** What an iteration leaves behind. *)
Definition step_ok (cs : list (bytes * Z * Z * PacketPriority)) (s : Stats) (st st' : Receiver) : Prop :=
  idle st' /\ view <$> calls st' = (view <$> calls st) ++ cs /\ stats st' = s.

Lemma destroy_idle b st held : heartbeat_batch st = [] -> data_batch st = [] -> in_use (pool st) (owner b ++ held) -> held = outside st ->
  step_ok [] (stats st) st (destroy b st).
Proof.
  intros Hh Hd Hu ->. destruct (destroy_ok ps n base Hps Hn Hbase Hfit b st (outside st) Hu) as [H1 (p & d & E)].
  unfold step_ok, idle. rewrite E in *. cbn in *. by rewrite app_nil_r.
Qed.

Lemma portable_datagram_ok inp b data st : heartbeat_batch st = [] -> data_batch st = [] -> in_use (pool st) (b :: outside st) ->
  step_ok (if passes config (msg_of data) then (if handler then [plain_call (pi_now inp) data] else []) else [])
    (count_stats config (stats st) (msg_of data)) st (portable_datagram inp b data st).
Proof.
  intros Hh Hd Hu. unfold portable_datagram, count_stats. set (len := Z.of_nat (length data)).
  change (passes config (msg_of data)) with
    (negb (source_filter_enabled config && ((len <=? Z.of_nat offsetof_source_id) || negb (nth offsetof_source_id data 0 =? expected_source_id config)))).
  change (msg_len (msg_of data)) with len.
  destruct st as [p m r h db s c k x o]. cbn in Hh, Hd, Hu. subst h db. destruct (source_filter_enabled config && _); cbn [negb].
  - by apply (destroy_idle (mkPacketBuffer (Some b) true) (mkReceiver p (<[b := data]> m) r [] [] (inc_filtered s) c k x o) o).
  - set (st1 := set_stats _ _). assert (E1 : exists k', st1 = mkReceiver p (<[b := data]> m) r [] [] (inc_received len s) c k' x o).
    { subst st1. destruct (pi_capture inp); by eexists. }
    destruct E1 as [k' E1]. rewrite E1. clear st1 E1. destruct handler as [hd|].
    + destruct (deliver config hd _ _) as [p' st'] eqn:Ed.
      apply (deliver_call ps n base Hps Hn Hbase Hfit config hd (pi_now inp) b data NORMAL _ []) in Ed as (H1 & (_ & _ & H2 & H3 & H4) & H5);
        [|apply lookup_insert_eq|exact Hu]. cbn in H1, H2, H3, H4, H5.
      destruct (destroy_idle (ArrayFaceReceiver.packet_buffer p') st' (outside st') H2 H3 H1 eq_refl) as (I1 & I2 & I3).
      split; [exact I1|]. by rewrite I2, I3, H4, H5, app_nil_r.
    + by apply (destroy_idle (mkPacketBuffer (Some b) true) (mkReceiver p (<[b := data]> m) r [] [] (inc_received len s) c k' x o) o).
Qed.

Lemma portable_round_ok inp st : idle st -> portable_ok inp st ->
  let '(cs, s) := portable_spec_round inp (stats st) in step_ok cs s st (portable_round inp st).
Proof.
  intros (Hh & Hd & Hu) [Hheap [b Hb]]. unfold portable_round, portable_spec_round.
  destruct (allocate (pi_heap inp) (pool st)) as [b' p'] eqn:Ea. cbn in Hb. subst b'.
  apply (in_use_alloc ps n base _ _ _ _ _ Hu Hheap) in Ea. destruct st as [p m r h db s c k x o]. cbn in *. subst h db.
  rewrite app_nil_r. destruct (pi_recv inp) as [errno|[|y data]].
  - destruct (destroy_idle (mkPacketBuffer (Some b) true) (mkReceiver p' m r [] [] s c k x o) o eq_refl eq_refl Ea eq_refl) as (I1 & I2 & I3).
    change (destroy (mkPacketBuffer (Some b) true)) with (dealloc b) in *.
    destruct (dealloc b _) as [p1 m1 r1 h1 d1 s1 c1 k1 x1 o1]. cbn in *. subst s1.
    destruct (negb _ && negb _); (split; [exact I1|split; [exact I2|reflexivity]]).
  - exact (destroy_idle (mkPacketBuffer (Some b) true) (mkReceiver p' m r [] [] s c k x o) o eq_refl eq_refl Ea eq_refl).
  - exact (portable_datagram_ok inp b (y :: data) (mkReceiver p' m r [] [] s c k x o) eq_refl eq_refl Ea).
Qed.

Lemma portable_loop_ok inputs : forall st, idle st -> portable_inputs_ok inputs st ->
  let '(cs, s) := portable_spec inputs (stats st) in step_ok cs s st (portable_loop inputs st).
Proof.
  induction inputs as [|inp inputs IH]; intros st Hi Hok; cbn [portable_spec portable_loop foldl portable_inputs_ok] in *.
  - split; [done|]. by rewrite app_nil_r.
  - destruct Hok as [H1 H2]. pose proof (portable_round_ok inp st Hi H1) as Hr.
    destruct (portable_spec_round inp (stats st)) as [cs s]. destruct Hr as (Hi1 & Hc1 & Hs1). specialize (IH _ Hi1 H2). rewrite Hs1 in IH.
    unfold portable_loop in IH. destruct (portable_spec inputs s) as [cs' s']. destruct IH as (Hi2 & Hc2 & Hs2).
    split; [exact Hi2|]. split; [by rewrite Hc2, Hc1, app_assoc|exact Hs2].
Qed.

End Accounting.

(** The Linux loop with batches of one gives the same calls but for the priority, and the same counters, if no datagram is empty. *)
Lemma linux_spec_same inputs : recv_batch_size config <= 1 -> Forall (fun inp => pi_recv inp <> Datagram []) inputs -> forall dr s,
  let '(cs, s1) := rounds_spec config handler (linux_input <$> inputs) dr s in
  let '(cs', s2) := portable_spec inputs s in
  no_priority <$> cs = no_priority <$> cs' /\ s1 = s2.
Proof.
  intros Hb. induction 1 as [|inp inputs Hne _ IH]; intros dr s; [done|]. cbn [fmap list_fmap rounds_spec portable_spec].
  unfold round_spec, portable_spec_round. cbn [linux_input ri_recv ri_running ri_now andb].
  destruct (pi_recv inp) as [errno|data] eqn:Er.
  - cbv iota beta zeta. match goal with |- context [rounds_spec _ _ _ ?d ?t] => specialize (IH d t) end.
    destruct (rounds_spec _ _ _ _ _) as [cs s1]. destruct (portable_spec inputs _) as [cs' s2]. destruct IH as [H1 H2]. done.
  - destruct data as [|y data]; [by destruct Hne|]. cbn [foldl length].
    match goal with |- context [rounds_spec _ _ _ ?d ?t] => specialize (IH d t) end.
    destruct (rounds_spec _ _ _ _ _) as [cs s1]. destruct (portable_spec inputs _) as [cs' s2]. destruct IH as [H1 H2]. split; [|done].
    rewrite !fmap_app, H1. f_equal. unfold batch_calls. destruct handler as [h|]; [|by destruct (passes config _)].
    rewrite !of_priority_one. destruct (passes config (msg_of (y :: data))); cbn [andb]; [|done].
    by destruct (msg_priority (msg_of (y :: data))).
Qed.

End Loop.

(** ** Theorems *)

(** C32: the two builds of the receive loop agree.  For the same datagrams, none of them empty, the portable loop calls the handler with
    the same bytes, time stamps and face in the same order as the Linux loop with batches of one, and counts
    the same; only the priority of heartbeats differs.  At its end every buffer of the pool is free but those the handler holds. *)
Theorem portable_loop_equivalent config handler base inputs :
  let n := Z.to_nat (pool_size config) in
  let st := Receiver_init config (Some base) in
  let portable := portable_loop config handler inputs st in
  let linux := receive_loop config handler (linux_input <$> inputs) st in
  0 <= base -> base + kPacketBufferSize * pool_size config < 2 ^ 64 -> recv_batch_size config <= 1 ->
  Forall (fun inp => pi_recv inp <> Datagram []) inputs ->
  portable_inputs_ok config handler kPacketBufferSize n base inputs st ->
  inputs_ok kPacketBufferSize n base config handler (linux_input <$> inputs) 0 st ->
  no_priority ∘ view <$> calls portable = no_priority ∘ view <$> calls linux /\ stats portable = stats linux /\
  in_use kPacketBufferSize n base (pool portable) (outside portable).
Proof.
  intros n st portable linux Hb Hfit Hbatch Hne Hok Hlin. pose proof (pool_size_pos config) as Hpos.
  assert (Hz : Z.of_nat n = pool_size config) by (apply Z2Nat.id, Z.lt_le_incl, Hpos).
  assert (Hps : 0 < kPacketBufferSize) by (unfold kPacketBufferSize; lia).
  assert (Hn : (0 < n)%nat) by (clear -Hz Hpos; lia).
  assert (Hfit' : base + kPacketBufferSize * Z.of_nat n < 2 ^ 64) by (by rewrite Hz).
  assert (Hinit : in_use kPacketBufferSize n base (pool st) []) by (exists []; split; [apply reach_init|done]).
  destruct (rounds_ok kPacketBufferSize n base Hps Hn Hb Hfit' config handler (linux_input <$> inputs) 0 st) as (Hr & cs & E1 & E2);
    [split; [exact Hinit|apply length_replicate]|done|].
  destruct (clear_batches_ok kPacketBufferSize n base Hps Hn Hb Hfit' _ _ (proj1 Hr)) as (_ & _ & _ & _ & _ & H4 & H5 & _).
  pose proof (portable_loop_ok config handler kPacketBufferSize n base Hps Hn Hb Hfit' inputs st) as Hp.
  pose proof (linux_spec_same config handler inputs Hbatch Hne 0 (stats st)) as Hs. rewrite E1 in Hs.
  destruct (portable_spec config handler inputs (stats st)) as [cs' s']. destruct Hs as [Hs1 Hs2].
  destruct Hp as ((_ & _ & Hu) & Hc & Hst); [by split_and!|done|]. fold portable in Hu, Hc, Hst. unfold linux, receive_loop.
  rewrite !list_fmap_compose, H4, H5, E2, Hc, !fmap_app, Hs1, Hst, <-Hs2. done.
Qed.

(** ** Witnesses *)

Definition portable_demo_config : ArrayFaceReceiverConfig :=
  mkArrayFaceReceiverConfig 1 0x11 "0.0.0.0" 9999 16 false 1 1 256 0 false 1 true.

Definition demo_handler : option (Call -> bool * list Z) := Some (fun _ => (true, [])).

(** A datagram, an interrupted call, a heartbeat. *)
Definition portable_demo : list PortableInput :=
  [mkPortableInput None (Datagram [1; 2; 3]) 7000 false; mkPortableInput None (RecvFromError 4) 8000 false;
   mkPortableInput None (Datagram (replicate 18 0 ++ [4])) 9000 true].

(** The test of the allocations of the Linux loop, when no block comes from the heap. *)
Fixpoint allocations_succeed (config : ArrayFaceReceiverConfig) (inputs : list RoundInput) (dr : Z) (st : Receiver) : bool :=
  match inputs with
  | [] => true
  | inp :: inputs =>
    let '(more, st') := round config demo_handler inp dr st in
    let next := if more && (dr + 1 <? drain_rounds config) then dr + 1 else 0 in
    negb (alloc_buffers (ri_heap inp) (batch_size config) 0 st).1 && allocations_succeed config inputs next st'
  end.

Lemma allocations_ok config ps n base inputs : Forall (fun inp => pi_heap inp = None) inputs -> forall dr st,
  allocations_succeed config (linux_input <$> inputs) dr st = true -> inputs_ok ps n base config demo_handler (linux_input <$> inputs) dr st.
Proof.
  induction 1 as [|inp inputs Hh _ IH]; intros dr st; [done|]. cbn [fmap list_fmap allocations_succeed inputs_ok].
  destruct (round _ _ _ _ _) as [more st']. rewrite andb_true_iff, negb_true_iff. intros [H1 H2]. split; [|by apply IH].
  split; [|split; [exact H1|]].
  - split; cbn; rewrite Hh; discriminate.
  - intros dw msgs. cbn. destruct (pi_recv inp); [discriminate|]. intros [= <-]. cbn. unfold batch_size, effective_batch_size. lia.
Qed.

Lemma portable_loop_equivalent_witness :
  let st := Receiver_init portable_demo_config (Some 4096) in
  view <$> calls (portable_loop portable_demo_config demo_handler portable_demo st) =
    [([1; 2; 3], 7000, 1, NORMAL); (replicate 18 0 ++ [4], 9000, 1, NORMAL)] /\
  stats (portable_loop portable_demo_config demo_handler portable_demo st) =
    stats (receive_loop portable_demo_config demo_handler (linux_input <$> portable_demo) st).
Proof.
  intros st. split; [vm_compute; reflexivity|].
  eapply (portable_loop_equivalent portable_demo_config demo_handler 4096 portable_demo).
  - lia.
  - vm_compute. reflexivity.
  - cbn. lia.
  - repeat constructor; discriminate.
  - cbn [portable_inputs_ok portable_demo]. split_and!; try exact I; (split; [intros raw; discriminate|]); vm_compute; by eexists.
  - apply allocations_ok; [by repeat constructor|vm_compute; reflexivity].
Defined.

(** An empty datagram is dropped without a trace by this loop, while the Linux loop hands it over. *)
Example empty_datagram_dropped :
  let st := Receiver_init portable_demo_config (Some 4096) in
  let inputs := [mkPortableInput None (Datagram []) 7000 false] in
  calls (portable_loop portable_demo_config demo_handler inputs st) = [] /\
  view <$> calls (receive_loop portable_demo_config demo_handler (linux_input <$> inputs) st) = [([], 7000, 1, NORMAL)].
Proof. vm_compute. split; reflexivity. Qed.

End PortableReceiver.
