(* ===== verification/Platform.v ===== *)
(** Threads, memory and streams of the machine: [src/common/numa_utils.cpp], the allocator
    [network/common/numa_allocator.h], the binding of the processing threads in [app_run.cpp] and of the
    writer thread in [pcap_writer.cpp], and the stream pool of [m02_signal_proc/cuda_stream_pool.cpp].
    Results of system calls are inputs; [Build] tells for which platform the code is compiled. *)

From S2P Require Import Prelude.
Open Scope Z_scope.

Module Platform.

(** ** Threads *)

(** [__linux__] and the macro for libnuma. *)
Record Build := mkBuild { linux : bool; libnuma : bool }.

(** The thread: the processors it may run on, the one it runs on, its real-time priority. *)
Record Thread := mkThread { affinity : gset Z; on_cpu : Z; realtime : option Z }.

(** [CPU_SET] on an empty set of 1024 processors. *)
Definition cpu_set (cpus : list Z) : gset Z := list_to_set (filter (fun c => 0 <= c < 1024) cpus).

#[local] Arguments cpu_set : simpl never.

(** [pthread_setaffinity_np]: an error number that leaves the thread, or 0 and the processor the thread continues on. *)
Inductive SetAffinity := AffinityError (errno : Z) | AffinitySet (runs_on : Z).

Definition pthread_setaffinity (cpus : gset Z) (r : SetAffinity) (t : Thread) : Z * Thread :=
  match r with
  | AffinityError errno => (errno, t)
  | AffinitySet cpu => (0, mkThread cpus cpu (realtime t))
  end.

Definition bind_thread_to_cpu (b : Build) (cpu_core : Z) (r : SetAffinity) (t : Thread) : Z * Thread :=
  if linux b then pthread_setaffinity (cpu_set [cpu_core]) r t else (-1, t).

(** [getaffinity_ok]: whether [pthread_getaffinity_np] returns 0. *)
Definition verify_cpu_affinity (b : Build) (getaffinity_ok : bool) (expected_cpu : Z) (t : Thread) : bool :=
  if linux b then
    if negb getaffinity_ok then false
    else if negb (bool_decide (expected_cpu ∈ affinity t)) then false
    else on_cpu t =? expected_cpu
  else false.

(** [pthread_setschedparam]: 0 or an error number. *)
Definition set_realtime_priority (b : Build) (priority rc : Z) (t : Thread) : Z * Thread :=
  if linux b then (rc, if rc =? 0 then mkThread (affinity t) (on_cpu t) (Some priority) else t) else (-1, t).

Definition get_numa_node (b : Build) (numa_node_of_cpu : Z -> Z) (cpu_core : Z) : Z :=
  if linux b && libnuma b then numa_node_of_cpu cpu_core else 0.

Definition get_current_numa_node (b : Build) (numa_node_of_cpu : Z -> Z) (t : Thread) : Z :=
  if linux b && libnuma b then numa_node_of_cpu (on_cpu t) else 0.

(** [bind_processing_thread]; the results are those of the calls it ignores. *)
Record NumaState := mkNumaState { runs_on_node : option Z; preferred_node : option Z }.

Definition bind_processing_thread (b : Build) (cpu_affinity numa_node : Z) (numa_available : Z) (r : SetAffinity)
    (t : Thread) (s : NumaState) : Thread * NumaState :=
  let t := if 0 <=? cpu_affinity then (bind_thread_to_cpu b cpu_affinity r t).2 else t in
  (t, if linux b && libnuma b && negb (numa_available =? -1) then mkNumaState (Some numa_node) (Some numa_node) else s).

Definition pin_writer_thread_to_management_cpus (b : Build) (r : SetAffinity) (t : Thread) : Thread :=
  if linux b then (pthread_setaffinity (cpu_set (seqZ 0 16)) r t).2 else t.

(** What the scheduler promises: a thread runs on a processor of its set. *)
Definition scheduled (t : Thread) : Prop := on_cpu t ∈ affinity t.

(** What [pthread_setaffinity_np] promises: it fails for an empty set, and moves the thread to a processor of the set. *)
Definition set_ok (cpus : gset Z) (r : SetAffinity) : Prop :=
  match r with AffinityError errno => errno <> 0 | AffinitySet cpu => cpu ∈ cpus end.

Lemma elem_of_cpu_set c cpus : c ∈ cpu_set cpus <-> c ∈ cpus /\ 0 <= c < 1024.
Proof. unfold cpu_set. rewrite elem_of_list_to_set, list_elem_of_filter. tauto. Qed.

(** After a call that reports success the thread runs on the processor asked for and on no other, which the
    verification confirms for that processor alone; a call that fails leaves the thread where it was. *)
Theorem binding_verified (b : Build) (cpu : Z) (r : SetAffinity) (t : Thread) (Hl : linux b = true) (Hr : set_ok (cpu_set [cpu]) r) :
  let '(rc, t') := bind_thread_to_cpu b cpu r t in
  if rc =? 0 then 0 <= cpu < 1024 /\ scheduled t' /\ forall c, verify_cpu_affinity b true c t' = bool_decide (c = cpu) else t' = t.
Proof.
  unfold bind_thread_to_cpu, verify_cpu_affinity. rewrite Hl. destruct r as [errno|c0]; cbn in *.
  - by rewrite (proj2 (Z.eqb_neq _ _)).
  - apply elem_of_cpu_set in Hr as [Hc Hrange]. apply list_elem_of_singleton in Hc as ->. split; [done|].
    assert (Hin : cpu ∈ cpu_set [cpu]) by (apply elem_of_cpu_set; by rewrite list_elem_of_singleton). split; [exact Hin|].
    intros c. case_bool_decide as He.
    + apply elem_of_cpu_set in He as [He _]. apply list_elem_of_singleton in He as ->. cbn. by rewrite Z.eqb_refl, bool_decide_eq_true_2.
    + rewrite bool_decide_eq_false_2; [done|]. intros ->. by apply He.
Qed.

(** A thread that may run anywhere passes the verification on the processor it happens to run on. *)
Theorem affinity_not_exclusive (b : Build) (cpu other : Z) (Hl : linux b = true) (Hne : cpu <> other) :
  let t := mkThread {[cpu; other]} cpu None in
  scheduled t /\ verify_cpu_affinity b true cpu t = true /\ other ∈ affinity t.
Proof.
  cbn. unfold scheduled, verify_cpu_affinity. rewrite Hl. cbn. rewrite bool_decide_eq_true_2 by set_solver. rewrite Z.eqb_refl. set_solver.
Qed.

(** A negative processor leaves the processing thread unbound, and one outside of the 1024 of a set is never bound. *)
Theorem processing_thread_bound (b : Build) (cpu node avail : Z) (r : SetAffinity) (t : Thread) (s : NumaState)
    (Hl : linux b = true) (Hr : set_ok (cpu_set [cpu]) r) :
  let t' := (bind_processing_thread b cpu node avail r t s).1 in
  t' = t \/ (0 <= cpu < 1024 /\ affinity t' = {[cpu]} /\ on_cpu t' = cpu).
Proof.
  cbn. destruct (0 <=? cpu); [|by left]. unfold bind_thread_to_cpu. rewrite Hl. destruct r as [errno|c0]; cbn in *; [by left|]. right.
  apply elem_of_cpu_set in Hr as [Hc Hrange]. apply list_elem_of_singleton in Hc as ->. split; [done|]. split; [|done].
  apply set_eq. intros c. rewrite elem_of_cpu_set, list_elem_of_singleton, elem_of_singleton. intuition lia.
Qed.

(** ** Memory *)

(** Where a block comes from, with its size; each must be returned to its origin. *)
Inductive Origin := OnNode (node size : Z) | OnHeap (size : Z).

(** [None] is the null pointer of an allocation that fails. *)
Definition numa_alloc (b : Build) (size node : Z) (succeeds : bool) : option Origin :=
  if negb succeeds then None else Some (if linux b && libnuma b then OnNode node size else OnHeap size).

(** The function that [numa_free] calls: that of libnuma with the size, or [free]. *)
Inductive Release := NodeFree (size : Z) | HeapFree.

Definition numa_free (b : Build) (size : Z) : Release := if linux b && libnuma b then NodeFree size else HeapFree.

Definition matches (o : Origin) (r : Release) : Prop :=
  match o, r with OnNode _ n, NodeFree m => n = m | OnHeap _, HeapFree => True | _, _ => False end.

(** *** [NumaAllocator<T>] with [sizeof(T)] = [width] *)

Record NumaAllocator := mkNumaAllocator { node_ : Z }.

Definition NumaAllocator_default : NumaAllocator := mkNumaAllocator 1.

(** The conversion from an allocator of another type. *)
Definition NumaAllocator_convert (other : NumaAllocator) : NumaAllocator := mkNumaAllocator (node_ other).

Definition NumaAllocator_eqb (x y : NumaAllocator) : bool := node_ x =? node_ y.

Inductive Allocation := NullPointer | BadAlloc | Block (o : Origin).

(** [HAS_LIBNUMA], [numa_available()] and whether the allocation succeeds; [operator new] throws when it does not. *)
Definition numa_allocate (lib : bool) (numa_available : Z) (succeeds : bool) (width n : Z) (a : NumaAllocator) : Allocation :=
  if n =? 0 then NullPointer
  else
    let size := u64 (n * width) in
    if lib && (0 <=? node_ a) && negb (numa_available =? -1)
    then (if succeeds then Block (OnNode (node_ a) size) else BadAlloc)
    else (if succeeds then Block (OnHeap size) else BadAlloc).

(** [None] for the null pointer. *)
Definition numa_deallocate (lib : bool) (numa_available : Z) (width n : Z) (null : bool) (a : NumaAllocator) : option Release :=
  if null then None
  else if lib && (0 <=? node_ a) && negb (numa_available =? -1) then Some (NodeFree (u64 (n * width))) else Some HeapFree.

(** Memory of an allocator is returned to where it came from, by itself, by a copy, by a converted one and by every equal
    one, with the size it was allocated with; a null pointer is not returned. *)
Theorem allocator_interchangeable (lib : bool) (avail : Z) (ok : bool) (width n : Z) (a a' : NumaAllocator) :
  NumaAllocator_eqb a a' = true ->
  match numa_allocate lib avail ok width n a with
  | NullPointer => n = 0
  | BadAlloc => ok = false
  | Block o => exists r, numa_deallocate lib avail width n false (NumaAllocator_convert a') = Some r /\ matches o r
  end.
Proof.
  unfold NumaAllocator_eqb, numa_allocate, numa_deallocate. rewrite Z.eqb_eq. destruct a as [x], a' as [y]. cbn. intros ->.
  destruct (Z.eqb_spec n 0); [done|]. destruct (lib && _ && _), ok; cbn; try done; eexists; by split.
Qed.

(** The size is not checked for overflow: a request whose size does not fit into 64 bits gets a smaller block. *)
Theorem allocation_size (lib : bool) (avail : Z) (width n : Z) (a : NumaAllocator) (o : Origin)
    (Hn : 0 < n) (Hw : 0 < width) (Ho : numa_allocate lib avail true width n a = Block o) :
  let size := match o with OnNode _ s | OnHeap s => s end in
  size <= n * width /\ (size = n * width <-> n * width < 2 ^ 64).
Proof.
  assert (Hs : match o with OnNode _ s | OnHeap s => s end = u64 (n * width)).
  { revert Ho. unfold numa_allocate. rewrite (proj2 (Z.eqb_neq n 0)) by lia. destruct (lib && _ && _); by intros [= <-]. }
  rewrite Hs. clear - Hn Hw. cbn zeta. assert (Hp : 0 < n * width) by nia. pose proof (wrap_range 64 (n * width) ltac:(lia)) as Hr.
  unfold in_range in Hr. split; [unfold wrap; apply Z.mod_le; lia|]. split; [lia|]. intros. apply wrap_small. unfold in_range. lia.
Qed.

(** Both functions of [numa_utils] take the same branch. *)
Theorem numa_alloc_matched (b : Build) (size node : Z) (ok : bool) :
  match numa_alloc b size node ok with Some o => matches o (numa_free b size) | None => ok = false end.
Proof. unfold numa_alloc, numa_free. by destruct ok, (linux b && libnuma b). Qed.

(** ** Streams *)

Definition GPU_STREAM_COUNT : Z := 3.

(** Handles; a null pointer is [None]. *)
Record CudaStreamPool := mkCudaStreamPool { streams_ : list (option Z); events_ : list (option Z) }.

(** The members are initialized with null pointers. *)
Definition CudaStreamPool_new : CudaStreamPool :=
  mkCudaStreamPool (replicate (Z.to_nat GPU_STREAM_COUNT) None) (replicate (Z.to_nat GPU_STREAM_COUNT) None).

(** [for (i = 0; i < GPU_STREAM_COUNT; ++i)] *)
Definition clear_handles (p : CudaStreamPool) : CudaStreamPool :=
  foldl (fun '(mkCudaStreamPool s e) i => mkCudaStreamPool (<[i := None]> s) (<[i := None]> e)) p (seq 0 (Z.to_nat GPU_STREAM_COUNT)).

Definition stream_init (has_gpu : bool) (p : CudaStreamPool) : CudaStreamPool := if has_gpu then p else clear_handles p.

Definition stream_destroy (has_gpu : bool) (p : CudaStreamPool) : CudaStreamPool := if has_gpu then p else clear_handles p.

(** [None] is an access out of bounds. *)
Definition get_stream (index : Z) (p : CudaStreamPool) : option (option Z) :=
  if GPU_STREAM_COUNT <=? index then Some None else streams_ p !! Z.to_nat index.

Definition get_event (index : Z) (p : CudaStreamPool) : option (option Z) :=
  if GPU_STREAM_COUNT <=? index then Some None else events_ p !! Z.to_nat index.

Inductive StreamOp := Init | Destroy.

Definition stream_step (has_gpu : bool) (p : CudaStreamPool) (op : StreamOp) : CudaStreamPool :=
  match op with Init => stream_init has_gpu p | Destroy => stream_destroy has_gpu p end.

(** Neither build ever makes a stream: after any calls every index gives a null pointer, within bounds. *)
Theorem streams_always_null (has_gpu : bool) (ops : list StreamOp) (index : Z) :
  let p := foldl (stream_step has_gpu) CudaStreamPool_new ops in
  0 <= index < 256 -> get_stream index p = Some None /\ get_event index p = Some None.
Proof.
  assert (Hp : foldl (stream_step has_gpu) CudaStreamPool_new ops = CudaStreamPool_new).
  { induction ops as [|op ops IH]; [done|]. cbn [foldl].
    assert (stream_step has_gpu CudaStreamPool_new op = CudaStreamPool_new) as -> by (by destruct op, has_gpu). done. }
  cbn zeta. rewrite Hp. intros Hi. unfold get_stream, get_event, CudaStreamPool_new. cbn [streams_ events_].
  destruct (Z.leb_spec GPU_STREAM_COUNT index); [done|]. rewrite lookup_replicate_2 by (unfold GPU_STREAM_COUNT in *; lia). done.
Qed.

End Platform.
