(* ===== verification/UdpReceiver.v ===== *)
(** The life of the receive threads: socket set-up, CPU binding, start and stop of
    [ArrayFaceReceiver] ([src/m01_receiver/network/array_face_receiver.cpp]) and
    the facade [UdpReceiver] ([include/qdgz300/m01_receiver/network/udp_receiver.h],
    [src/m01_receiver/network/udp_receiver.cpp]).  The receive loop itself is in
    [ArrayFaceReceiver]. *)

From S2P Require Import Prelude Protocol PacketPool ArrayFaceReceiver RxStage.
From stdpp Require Import strings.
Open Scope Z_scope.
Import Protocol ArrayFaceReceiver.

Module UdpReceiver.

(** ** The operating system *)

(** A UDP socket: the options set on it and its address and port. *)
Record Sock := mkSock {
  so_rcvbuf : option Z;
  so_freebind : bool;
  so_rcvtimeo : option (Z * Z);
  so_recvtos : bool;
  so_bound : option (Z * Z);
}.

Definition Sock_new : Sock := mkSock None false None false None.

Definition set_rcvbuf (n : Z) (s : Sock) : Sock :=
  mkSock (Some n) (so_freebind s) (so_rcvtimeo s) (so_recvtos s) (so_bound s).
Definition set_freebind (s : Sock) : Sock :=
  mkSock (so_rcvbuf s) true (so_rcvtimeo s) (so_recvtos s) (so_bound s).
Definition set_rcvtimeo (sec usec : Z) (s : Sock) : Sock :=
  mkSock (so_rcvbuf s) (so_freebind s) (Some (sec, usec)) (so_recvtos s) (so_bound s).
Definition set_recvtos (s : Sock) : Sock :=
  mkSock (so_rcvbuf s) (so_freebind s) (so_rcvtimeo s) true (so_bound s).
Definition set_bound (addr port : Z) (s : Sock) : Sock :=
  mkSock (so_rcvbuf s) (so_freebind s) (so_rcvtimeo s) (so_recvtos s) (Some (addr, port)).

(** The open descriptors. *)
Abbreviation Kernel := (gmap Z Sock).

(** What the system calls of one set-up return: the descriptor or a negative
    number, and whether each later call succeeds. *)
Record SocketReplies := mkSocketReplies {
  rep_socket : Kernel -> Z;
  rep_rcvbuf : bool;
  rep_freebind : bool;
  rep_rcvtimeo : bool;
  rep_recvtos : bool;
  rep_bind : bool;
}.

(** [socket] returns a descriptor that is not open. *)
Definition socket_promise (rep : SocketReplies) : Prop :=
  forall k, rep_socket rep k < 0 \/ k !! rep_socket rep k = None.

(** [UdpReceiverStatistics]: the counters of the loop and the two of the set-up. *)
Record UdpReceiverStatistics := mkUdpStats {
  loop_stats : Stats;
  affinity_failures : Z;
  socket_bind_failures : Z;
}.

Definition UdpStats_zero : UdpReceiverStatistics := mkUdpStats (mkStats 0 0 0 0) 0 0.

Definition count_bind_failure (s : UdpReceiverStatistics) : UdpReceiverStatistics :=
  mkUdpStats (inc_error (loop_stats s)) (affinity_failures s) (inc64 (socket_bind_failures s)).
Definition count_affinity_failure (s : UdpReceiverStatistics) : UdpReceiverStatistics :=
  mkUdpStats (inc_error (loop_stats s)) (inc64 (affinity_failures s)) (socket_bind_failures s).

(** What the receivers share: descriptors, running threads, live packet pools and
    the counters.  A thread and a pool have the number of their receiver. *)
Record World := mkWorld {
  kernel : Kernel;
  workers : gset nat;
  pools : gset nat;
  next_id : nat;
  counters : UdpReceiverStatistics;
}.

Definition with_kernel (k : Kernel) (w : World) : World :=
  mkWorld k (workers w) (pools w) (next_id w) (counters w).
Definition with_workers (t : gset nat) (w : World) : World :=
  mkWorld (kernel w) t (pools w) (next_id w) (counters w).
Definition with_counters (f : UdpReceiverStatistics -> UdpReceiverStatistics) (w : World) : World :=
  mkWorld (kernel w) (workers w) (pools w) (next_id w) (f (counters w)).

(** ** The socket *)

Section Network.

(** [inet_pton(AF_INET, ...)]: the address of a dotted string. *)
Variable inet_pton : string -> option Z.

Definition initialize_socket (c : ArrayFaceReceiverConfig) (rep : SocketReplies) (k : Kernel) : Kernel * Z :=
  let sockfd := rep_socket rep k in
  if sockfd <? 0 then (k, -1)
  else
    let k := <[sockfd := Sock_new]> k in
    let rcvbuf := to_signed 32 (u32 (u64 (socket_rcvbuf_mb c * 1024 * 1024))) in
    if negb (rep_rcvbuf rep) then (delete sockfd k, -1)
    else
      let k := alter (set_rcvbuf rcvbuf) sockfd k in
      if enable_ip_freebind c && negb (rep_freebind rep) then (delete sockfd k, -1)
      else
        let k := if enable_ip_freebind c then alter set_freebind sockfd k else k in
        if negb (rep_rcvtimeo rep) then (delete sockfd k, -1)
        else
          let k := alter (set_rcvtimeo 0 100000) sockfd k in
          let k := if rep_recvtos rep then alter set_recvtos sockfd k else k in
          match inet_pton (bind_ip c) with
          | None => (delete sockfd k, -1)
          | Some addr =>
            if negb (rep_bind rep) then (delete sockfd k, -1)
            else (alter (set_bound addr (listen_port c)) sockfd k, sockfd)
          end.

(** ** CPU binding *)

(** [CPU_SET] and [CPU_ISSET] on a [cpu_set_t] of 1024 processors; a number out
    of range is ignored. *)
Definition CPU_SETSIZE : Z := 1024.
Definition cpu_ok (cpu : Z) : bool := (0 <=? cpu) && (cpu <? CPU_SETSIZE).
Definition CPU_SET (cpu : Z) (s : gset Z) : gset Z := if cpu_ok cpu then {[cpu]} ∪ s else s.
Definition CPU_ISSET (cpu : Z) (s : gset Z) : bool := cpu_ok cpu && bool_decide (cpu ∈ s).

(** What binding a thread asks of the system. *)
Inductive BindCall :=
  | numa_run_on_node (node : Z)
  | numa_set_preferred (node : Z)
  | pthread_setaffinity (cpus : gset Z).

(** [numa]: built with libnuma and [numa_available() != -1]; [set_ok] and [actual]
    are the results of the two affinity calls. *)
Definition bind_current_thread_to_cpu (c : ArrayFaceReceiverConfig) (numa set_ok : bool)
    (actual : option (gset Z)) : list BindCall * bool :=
  let node_calls := if numa then [numa_run_on_node (numa_node c); numa_set_preferred (numa_node c)] else [] in
  let cpuset := CPU_SET (cpu_affinity c) ∅ in
  (node_calls ++ [pthread_setaffinity cpuset],
   if negb set_ok then false
   else match actual with
        | None => false
        | Some actual => CPU_ISSET (cpu_affinity c) actual
        end).

(** ** One receiver *)

Record FaceReceiver := mkFaceReceiver {
  fr_id : nat;
  fr_config : ArrayFaceReceiverConfig;
  fr_running : bool;
  affinity_verified_ : bool;
  sockfd_ : Z;
  worker_joinable : bool;
  packet_pool_ : PacketPool.PacketPool;
}.

(** The constructor: the pool lives as long as the receiver. *)
Definition FaceReceiver_new (c : ArrayFaceReceiverConfig) (storage : option Z) (w : World) : FaceReceiver * World :=
  (mkFaceReceiver (next_id w) c false false (-1) false
     (PacketPool.PacketPool_init kPacketBufferSize (Z.to_nat (pool_size c)) storage),
   mkWorld (kernel w) (workers w) ({[next_id w]} ∪ pools w) (S (next_id w)) (counters w)).

Definition face_start (rep : SocketReplies) (r : FaceReceiver) (w : World) : bool * FaceReceiver * World :=
  let '(mkFaceReceiver id c run aff fd joinable pool) := r in
  if run then (true, r, w)
  else
    let '(k, fd) := initialize_socket c rep (kernel w) in
    let w := with_kernel k w in
    if fd <? 0
    then (false, mkFaceReceiver id c false aff fd joinable pool, with_counters count_bind_failure w)
    else (true, mkFaceReceiver id c true aff fd true pool, with_workers ({[id]} ∪ workers w) w).

(** [join] returns when the receive loop has seen the flag. *)
Definition face_stop (r : FaceReceiver) (w : World) : FaceReceiver * World :=
  let '(mkFaceReceiver id c run aff fd joinable pool) := r in
  if negb run then (r, w)
  else
    let w := if joinable then with_workers (workers w ∖ {[id]}) w else w in
    if 0 <=? fd then (mkFaceReceiver id c false aff (-1) false pool, with_kernel (delete fd (kernel w)) w)
    else (mkFaceReceiver id c false aff fd false pool, w).

(** The destructor: stop, then the members, the pool among them. *)
Definition face_destroy (r : FaceReceiver) (w : World) : World :=
  let '(r, w) := face_stop r w in
  mkWorld (kernel w) (workers w) (pools w ∖ {[fr_id r]}) (next_id w) (counters w).

(** The thread before it enters the loop. *)
Definition run_prologue (affinity_ok : bool) (r : FaceReceiver) (w : World) : FaceReceiver * World :=
  let '(mkFaceReceiver id c run _ fd joinable pool) := r in
  (mkFaceReceiver id c run affinity_ok fd joinable pool,
   if affinity_ok then w else with_counters count_affinity_failure w).

Record RuntimeStats := mkRuntimeStats {
  rs_array_id : Z;
  rs_affinity_verified : bool;
  rs_packet_pool : PacketPool.Statistics;
}.

Definition get_runtime_stats (r : FaceReceiver) : RuntimeStats :=
  mkRuntimeStats (array_id (fr_config r)) (affinity_verified_ r) (PacketPool.get_statistics (packet_pool_ r)).

(** ** The facade *)

Record ArrayFaceBinding := mkArrayFaceBinding {
  b_array_id : Z;
  b_expected_source_id : Z;
  b_bind_ip : string;
  b_listen_port : Z;
  b_cpu_affinity : Z;
  b_source_filter_enabled : bool;
}.

Definition ArrayFaceBinding_default : ArrayFaceBinding := mkArrayFaceBinding 1 0x11 "0.0.0.0" 9999 16 true.

(** [Hook] stands for the capture callbacks, [None] for an empty one. *)
Context {Hook : Type}.

Record UdpReceiverConfig := mkUdpReceiverConfig {
  array_faces : list ArrayFaceBinding;
  u_listen_port : Z;
  u_bind_ip : string;
  u_recv_batch_size : Z;
  u_recv_drain_rounds : Z;
  u_socket_rcvbuf_mb : Z;
  packet_pool_mb_per_face : Z;
  enable_so_reuseport : bool;
  u_enable_ip_freebind : bool;
  worker_threads : Z;
  u_numa_node : Z;
  cpu_affinity_start : Z;
  cpu_affinity_end : Z;
  u_prefetch_hints_enabled : bool;
  capture_hook : option Hook;
}.

Record UdpReceiver := mkUdpReceiver {
  config_ : UdpReceiverConfig;
  callback_ : bool;
  running_ : bool;
  capture_hook_ : option Hook;
  array_receivers : list FaceReceiver;
}.

Definition UdpReceiver_init (config : UdpReceiverConfig) (callback : bool) : UdpReceiver :=
  mkUdpReceiver config callback false (capture_hook config) [].

Definition resolve_bindings (u : UdpReceiver) : list ArrayFaceBinding :=
  match array_faces (config_ u) with
  | [] =>
    [mkArrayFaceBinding 1 0 (b_bind_ip ArrayFaceBinding_default) (u_listen_port (config_ u))
       (Z.max 0 (cpu_affinity_start (config_ u))) false]
  | faces => faces
  end.

Definition face_config (config : UdpReceiverConfig) (b : ArrayFaceBinding) : ArrayFaceReceiverConfig :=
  mkArrayFaceReceiverConfig (b_array_id b) (b_expected_source_id b) (b_bind_ip b) (b_listen_port b)
    (b_cpu_affinity b) (b_source_filter_enabled b) (u_recv_batch_size config) (u_recv_drain_rounds config)
    (u_socket_rcvbuf_mb config) (packet_pool_mb_per_face config) (u_enable_ip_freebind config)
    (u_numa_node config) (u_prefetch_hints_enabled config).

(** The handler given to a receiver: what the callback is called with. *)
Definition packet_handler (u : UdpReceiver) (c : Call) : option RxStage.ReceivedPacket :=
  if callback_ u
  then Some (RxStage.mkReceivedPacket (Some (call_data c)) (Z.of_nat (length (call_data c)))
               (call_timestamp c) (call_array c) (call_priority c))
  else None.

(** [capture_hook_provider]. *)
Definition current_capture_hook (u : UdpReceiver) : option Hook := capture_hook_ u.

(** The loop of [start]: per binding the replies of the system and the storage of
    the pool.  A receiver that does not start is destroyed. *)
Fixpoint start_faces (config : UdpReceiverConfig) (bindings : list ArrayFaceBinding)
    (env : nat -> SocketReplies * option Z) (i : nat) (started : list FaceReceiver) (w : World)
    : bool * list FaceReceiver * World :=
  match bindings with
  | [] => (true, started, w)
  | b :: bindings =>
    let '(receiver, w) := FaceReceiver_new (face_config config b) (env i).2 w in
    let '(ok, receiver, w) := face_start (env i).1 receiver w in
    if ok then start_faces config bindings env (S i) (started ++ [receiver]) w
    else (false, started, face_destroy receiver w)
  end.

(** Stop every receiver, then clear the vector. *)
Fixpoint stop_faces (rs : list FaceReceiver) (w : World) : list FaceReceiver * World :=
  match rs with
  | [] => ([], w)
  | r :: rs => let '(r, w) := face_stop r w in
               let '(rs, w) := stop_faces rs w in (r :: rs, w)
  end.

Definition destroy_faces (rs : list FaceReceiver) (w : World) : World :=
  fold_left (fun w r => face_destroy r w) rs w.

Definition with_receivers (running : bool) (rs : list FaceReceiver) (u : UdpReceiver) : UdpReceiver :=
  mkUdpReceiver (config_ u) (callback_ u) running (capture_hook_ u) rs.

Definition stop (u : UdpReceiver) (w : World) : UdpReceiver * World :=
  if negb (running_ u) then (u, w)
  else
    let '(rs, w) := stop_faces (array_receivers u) w in
    (with_receivers false [] u, destroy_faces rs w).

Definition start (env : nat -> SocketReplies * option Z) (u : UdpReceiver) (w : World) : bool * UdpReceiver * World :=
  if running_ u then (true, u, w)
  else
    let bindings := resolve_bindings u in
    match bindings with
    | [] => (false, with_receivers false (array_receivers u) u, w)
    | _ =>
      let w := destroy_faces (array_receivers u) w in
      let '(started_all, rs, w) := start_faces (config_ u) bindings env 0 [] w in
      let u := with_receivers true rs u in
      if started_all then (true, u, w)
      else let '(u, w) := stop u w in (false, u, w)
    end.

Definition set_capture_hook (hook : option Hook) (u : UdpReceiver) : UdpReceiver :=
  mkUdpReceiver (config_ u) (callback_ u) (running_ u) hook (array_receivers u).

Definition get_face_runtime_stats (u : UdpReceiver) : list RuntimeStats := get_runtime_stats <$> array_receivers u.

(** ** Specification *)

(** The socket a receiver listens on. *)
Definition configured (c : ArrayFaceReceiverConfig) (tos : bool) (addr : Z) : Sock :=
  mkSock (Some (to_signed 32 (u32 (u64 (socket_rcvbuf_mb c * 1024 * 1024))))) (enable_ip_freebind c)
    (Some (0, 100000)) tos (Some (addr, listen_port c)).

(** Every call of the set-up succeeds. *)
Definition setup_ok (c : ArrayFaceReceiverConfig) (rep : SocketReplies) (k : Kernel) : bool :=
  (0 <=? rep_socket rep k) && rep_rcvbuf rep && (negb (enable_ip_freebind c) || rep_freebind rep) &&
  rep_rcvtimeo rep && bool_decide (is_Some (inet_pton (bind_ip c))) && rep_bind rep.

(** ** Lemmas *)

Lemma initialize_socket_spec c rep k :
  socket_promise rep ->
  if setup_ok c rep k
  then exists addr, inet_pton (bind_ip c) = Some addr /\ 0 <= rep_socket rep k /\ k !! rep_socket rep k = None /\
    initialize_socket c rep k = (<[rep_socket rep k := configured c (rep_recvtos rep) addr]> k, rep_socket rep k)
  else initialize_socket c rep k = (k, -1).
Proof.
  intros Hp. unfold setup_ok, initialize_socket. set (fd := rep_socket rep k).
  destruct (Z.leb_spec 0 fd) as [Hfd|Hfd]; cbn [andb].
  2:{ by destruct (Z.ltb_spec fd 0); [|lia]. }
  destruct (Z.ltb_spec fd 0); [lia|].
  assert (Hk : k !! fd = None) by (destruct (Hp k); [unfold fd in *; lia|done]).
  destruct (rep_rcvbuf rep); cbn [andb negb]; [|by rewrite delete_insert_id].
  destruct (enable_ip_freebind c) eqn:Ef; cbn [andb orb negb].
  all: try (destruct (rep_freebind rep); cbn [andb negb]; [|by rewrite delete_alter_eq, delete_insert_id]).
  all: destruct (rep_rcvtimeo rep); cbn [andb negb]; [|by rewrite ?delete_alter_eq, delete_insert_id].
  all: destruct (inet_pton (bind_ip c)) as [addr|];
    [rewrite bool_decide_eq_true_2 by eauto|rewrite bool_decide_eq_false_2 by (by intros [? ?])]; cbn [andb];
    destruct (rep_recvtos rep); try (by rewrite ?delete_alter_eq, delete_insert_id).
  all: destruct (rep_bind rep); cbn [negb]; [|by rewrite ?delete_alter_eq, delete_insert_id].
  all: exists addr; split_and!; try done; f_equal; rewrite !alter_insert_eq; unfold configured; by rewrite Ef.
Qed.

(** A receiver that runs: its socket is configured and its thread started. *)
Record listening (w0 w : World) (r : FaceReceiver) : Prop := {
  li_running : fr_running r = true;
  li_joinable : worker_joinable r = true;
  li_fd : 0 <= sockfd_ r;
  li_new : kernel w0 !! sockfd_ r = None;
  li_sock : exists tos addr, inet_pton (bind_ip (fr_config r)) = Some addr /\
    kernel w !! sockfd_ r = Some (configured (fr_config r) tos addr);
}.

(** [w] is [w0] with the receivers [rs] running. *)
Record attached (w0 : World) (rs : list FaceReceiver) (w : World) : Prop := {
  at_listening : Forall (listening w0 w) rs;
  at_fds : NoDup (sockfd_ <$> rs);
  at_other : forall fd, fd ∉ sockfd_ <$> rs -> kernel w !! fd = kernel w0 !! fd;
  at_workers : workers w = list_to_set (fr_id <$> rs) ∪ workers w0;
  at_pools : pools w = list_to_set (fr_id <$> rs) ∪ pools w0;
  at_ids : forall id, id ∈ fr_id <$> rs -> (next_id w0 <= id < next_id w)%nat;
  at_next : (next_id w0 <= next_id w)%nat;
}.

(** Thread and pool numbers have been given out. *)
Definition world_ok (w : World) : Prop := forall id, id ∈ workers w ∪ pools w -> (id < next_id w)%nat.

(** Descriptors, threads and pools are the same. *)
Definition same_resources (w0 w : World) : Prop :=
  kernel w = kernel w0 /\ workers w = workers w0 /\ pools w = pools w0.

Lemma attached_nil w : attached w [] w.
Proof.
  constructor; cbn; try done; try apply NoDup_nil_2; try set_solver.
Qed.

Lemma stop_faces_spec rs : forall w,
  Forall (fun r => fr_running r = true /\ worker_joinable r = true /\ 0 <= sockfd_ r) rs ->
  exists rs' w', stop_faces rs w = (rs', w') /\ fr_id <$> rs' = fr_id <$> rs /\
    Forall (fun r => fr_running r = false) rs' /\
    (forall fd, kernel w' !! fd = if bool_decide (fd ∈ sockfd_ <$> rs) then None else kernel w !! fd) /\
    workers w' = workers w ∖ list_to_set (fr_id <$> rs) /\ pools w' = pools w /\ counters w' = counters w.
Proof.
  induction rs as [|[id c run aff fd jo pool] rs IH]; intros w Hrs; cbn [stop_faces].
  { exists [], w. split; [done|]. split; [done|]. split; [done|].
    split; [|split; [cbn; set_solver|done]]. intros fd. by rewrite bool_decide_eq_false_2 by set_solver. }
  apply Forall_cons_1 in Hrs as [(Hr & Hj & Hf) Hrs]. cbn in Hr, Hj, Hf. subst run jo. cbn [face_stop negb].
  destruct (Z.leb_spec 0 fd); [|lia].
  destruct (IH (with_kernel (delete fd (kernel (with_workers (workers w ∖ {[id]}) w)))
    (with_workers (workers w ∖ {[id]}) w)) Hrs) as (rs' & w' & -> & Hid & Hst & Hk & Hw & Hp & Hc).
  eexists _, w'. split_and!; [done|by rewrite !fmap_cons, Hid|by apply Forall_cons_2| |rewrite Hw; cbn; set_solver|done|done].
  intros fd'. rewrite Hk. cbn. destruct (decide (fd' = fd)) as [->|Hne].
  - rewrite lookup_delete_eq. rewrite (bool_decide_eq_true_2 (fd ∈ fd :: _)) by set_solver. by case_bool_decide.
  - rewrite lookup_delete_ne by done. by rewrite (bool_decide_ext (fd' ∈ fd :: (sockfd_ <$> rs)) (fd' ∈ sockfd_ <$> rs))
      by set_solver.
Qed.

Lemma destroy_faces_spec rs : forall w,
  Forall (fun r => fr_running r = false) rs ->
  kernel (destroy_faces rs w) = kernel w /\ workers (destroy_faces rs w) = workers w /\
  pools (destroy_faces rs w) = pools w ∖ list_to_set (fr_id <$> rs) /\ counters (destroy_faces rs w) = counters w.
Proof.
  unfold destroy_faces. induction rs as [|[id c run aff fd jo pool] rs IH]; intros w Hrs; cbn [fold_left].
  { split_and!; [done..|set_solver|done]. }
  apply Forall_cons_1 in Hrs as [Hr Hrs]. cbn in Hr. subst run. cbn [face_destroy face_stop negb fr_id].
  destruct (IH (mkWorld (kernel w) (workers w) (pools w ∖ {[id]}) (next_id w) (counters w)) Hrs) as (-> & -> & -> & ->).
  split_and!; [done..| |done]. cbn. set_solver.
Qed.

(** Stopping running receivers gives back everything they hold. *)
Lemma stop_attached u w0 w :
  world_ok w0 -> running_ u = true -> attached w0 (array_receivers u) w ->
  exists w', stop u w = (with_receivers false [] u, w') /\ same_resources w0 w' /\ counters w' = counters w.
Proof.
  intros Hok Hrun [Hl Hn Ho Hw Hp Hi Hx]. unfold stop. rewrite Hrun. cbn [negb].
  destruct (stop_faces_spec (array_receivers u) w) as (rs' & w' & -> & Hid & Hst & Hk & Hw' & Hp' & Hc).
  { eapply Forall_impl; [exact Hl|]. by intros r []. }
  destruct (destroy_faces_spec rs' w' Hst) as (Ek & Ew & Ep & Ec).
  assert (Hfresh : forall id, id ∈ fr_id <$> array_receivers u -> id ∉ workers w0 /\ id ∉ pools w0).
  { intros id Hin. specialize (Hi id Hin). split; intros Hx1; specialize (Hok id); set_solver by lia. }
  eexists. split; [done|]. unfold same_resources. split_and!; [|rewrite Ew, Hw', Hw; set_solver|rewrite Ep, Hp', Hp, Hid; set_solver|congruence].
  rewrite Ek. apply map_eq. intros fd. rewrite Hk. case_bool_decide as Hin; [|by apply Ho].
  apply list_elem_of_fmap in Hin as (r & -> & Hr). rewrite Forall_forall in Hl. by destruct (Hl r Hr).
Qed.

(** One more receiver. *)
Lemma attached_snoc w0 rs w r k tos addr :
  world_ok w0 -> attached w0 rs w ->
  fr_running r = true -> worker_joinable r = true -> 0 <= sockfd_ r -> kernel w !! sockfd_ r = None ->
  inet_pton (bind_ip (fr_config r)) = Some addr -> fr_id r = next_id w ->
  k = <[sockfd_ r := configured (fr_config r) tos addr]> (kernel w) ->
  attached w0 (rs ++ [r])
    (mkWorld k ({[fr_id r]} ∪ workers w) ({[fr_id r]} ∪ pools w) (S (next_id w)) (counters w)).
Proof.
  intros Hok [Hl Hn Ho Hw Hp Hi Hx] Hr Hj Hf Hnone Ha Hid ->.
  assert (Hnew : sockfd_ r ∉ sockfd_ <$> rs).
  { intros (r' & E & Hin)%list_elem_of_fmap. rewrite Forall_forall in Hl.
    destruct (Hl r' Hin) as [_ _ _ _ (? & ? & _ & Hs)]. rewrite <-E in Hs. congruence. }
  constructor; cbn [kernel workers pools next_id counters].
  - apply Forall_app. split.
    + apply Forall_forall. intros r' Hin. rewrite Forall_forall in Hl. destruct (Hl r' Hin) as [? ? ? ? (t & a & ? & ?)].
      constructor; try done. exists t, a. split; [done|]. cbn. rewrite lookup_insert_ne; [done|].
      intros E. apply Hnew. rewrite E. by apply list_elem_of_fmap_2.
    + apply Forall_singleton. constructor; try done; [by rewrite <-Ho|]. exists tos, addr. split; [done|].
      cbn. by rewrite lookup_insert_eq.
  - rewrite fmap_app. apply NoDup_app. split_and!; [done|set_solver|apply NoDup_singleton].
  - intros fd. rewrite fmap_app. intros Hfd. rewrite lookup_insert_ne by set_solver. apply Ho. set_solver.
  - rewrite fmap_app, list_to_set_app_L. cbn. rewrite Hw. set_solver.
  - rewrite fmap_app, list_to_set_app_L. cbn. rewrite Hp. set_solver.
  - intros id. rewrite fmap_app, elem_of_app. cbn. rewrite list_elem_of_singleton, Hid. intros [Hin|Hin]; [specialize (Hi id Hin)|subst id]; lia.
  - lia.
Qed.

Lemma start_faces_spec config env w0 :
  world_ok w0 -> (forall i, socket_promise (env i).1) -> forall bindings i rs w,
  attached w0 rs w ->
  let '(ok, rs', w') := start_faces config bindings env i rs w in
  attached w0 rs' w' /\
  (if ok then fr_config <$> rs' = (fr_config <$> rs) ++ (face_config config <$> bindings) /\ counters w' = counters w
   else counters w' = count_bind_failure (counters w)) /\
  ((forall j b k, bindings !! j = Some b -> setup_ok (face_config config b) (env (i + j)%nat).1 k = true) -> ok = true).
Proof.
  intros Hok Hpr. induction bindings as [|b bindings IH]; intros i rs w Hat; cbn [start_faces].
  { split_and!; [done|by rewrite app_nil_r|done|done]. }
  cbn [FaceReceiver_new face_start fr_id kernel].
  pose proof (initialize_socket_spec (face_config config b) (env i).1 (kernel w) (Hpr i)) as Hinit.
  destruct (setup_ok (face_config config b) (env i).1 (kernel w)) eqn:Eok.
  - destruct Hinit as (addr & Ha & Hfd & Hnone & ->). set (fd := rep_socket (env i).1 (kernel w)) in *.
    destruct (Z.ltb_spec fd 0); [lia|]. unfold with_kernel, with_workers.
    cbn [kernel workers pools next_id counters]. set (r := mkFaceReceiver _ _ _ _ _ _ _).
    match goal with |- context [start_faces _ _ _ _ _ ?v] => set (w1 := v) end.
    assert (Hat1 : attached w0 (rs ++ [r]) w1) by (by eapply (attached_snoc w0 rs w r)).
    specialize (IH (S i) (rs ++ [r]) w1 Hat1).
    destruct (start_faces config bindings env (S i) (rs ++ [r]) w1) as [[ok rs'] w'].
    destruct IH as (Hat' & Hcfg & Hall). split_and!; [done| |].
    + destruct ok; [|done]. destruct Hcfg as [-> Hc]. split; [|done]. rewrite fmap_app, <-app_assoc. done.
    + intros Hs. apply Hall. intros j b' k Hj. rewrite Nat.add_succ_comm. by apply (Hs (S j)).
  - rewrite Hinit. cbn. split_and!.
    + destruct Hat as [Hl Hn Ho Hw Hp Hi Hx]. constructor; cbn; try done.
      * eapply Forall_impl; [exact Hl|]. intros r []. by constructor.
      * apply set_eq. intros id. rewrite elem_of_difference, elem_of_union, !elem_of_singleton, Hp.
        split; [set_solver|]. intros Hin. split; [by right|]. intros ->. apply elem_of_union in Hin as [Hin|Hin].
        -- apply elem_of_list_to_set in Hin. specialize (Hi _ Hin). lia.
        -- specialize (Hok (next_id w)). set_solver by lia.
      * intros id Hid. specialize (Hi id Hid). lia.
      * lia.
    + done.
    + intros Hs. specialize (Hs 0%nat b (kernel w) eq_refl). rewrite Nat.add_0_r, Eok in Hs. done.
Qed.

Lemma resolve_bindings_some u : resolve_bindings u <> [].
Proof. unfold resolve_bindings. by destruct (array_faces (config_ u)). Qed.

End Network.

(** Start, and stop after a successful start. *)
Lemma start_spec {Hook : Type} (inet_pton : string -> option Z)
    (env : nat -> SocketReplies * option Z) (u : @UdpReceiver Hook) (w0 : World)
    (Hrun : running_ u = false) (Hnone : array_receivers u = [])
    (Hw : world_ok w0) (Hpr : forall i, socket_promise (env i).1) :
  let '(ok, u', w') := start inet_pton env u w0 in
  (if ok
   then running_ u' = true /\
     fr_config <$> array_receivers u' = face_config (config_ u) <$> resolve_bindings u /\
     attached inet_pton w0 (array_receivers u') w' /\ counters w' = counters w0 /\
     exists w'', stop u' w' = (u, w'') /\ same_resources w0 w'' /\ counters w'' = counters w0
   else u' = u /\ same_resources w0 w' /\ counters w' = count_bind_failure (counters w0)) /\
  ((forall i b k, resolve_bindings u !! i = Some b ->
      setup_ok inet_pton (face_config (config_ u) b) (env i).1 k = true) -> ok = true).
Proof.
  destruct u as [config cb run hook rs]. cbn in Hrun, Hnone. subst run rs.
  unfold start. cbn [running_ array_receivers config_ destroy_faces fold_left].
  set (u := mkUdpReceiver config cb false hook []).
  pose proof (resolve_bindings_some u) as Hne. destruct (resolve_bindings u) as [|b0 bs] eqn:Eb; [done|].
  rewrite <-Eb. clear Eb Hne. set (bindings := resolve_bindings u).
  pose proof (start_faces_spec inet_pton config env w0 Hw Hpr bindings 0 [] w0 (attached_nil inet_pton w0)) as Hs.
  destruct (start_faces inet_pton config bindings env 0 [] w0) as [[ok rs] w]. destruct Hs as (Hat & Hres & Hall).
  set (u1 := with_receivers true rs u).
  destruct (stop_attached inet_pton u1 w0 w Hw eq_refl Hat) as (w2 & Es & Hsame & Hc). destruct ok.
  - split; [|done]. destruct Hres as [Hcfg Hcnt]. split_and!; [done..|]. exists w2. split; [exact Es|].
    split; [done|congruence].
  - rewrite Es. split; [|exact Hall]. split_and!; [done..|congruence].
Qed.

(** ** Theorems *)

(** C12: the network layer starts entirely or not at all, and gives everything
    back.  Start a stopped receiver, whatever the system calls return (new
    descriptors are not open ones).  If it reports success, there is one running
    thread per binding, with the configuration of that binding, on a socket of its
    own with the configured buffer size, time-out and address, and nothing else
    has changed; stopping it then closes every socket, ends every thread, frees
    every pool and leaves the receiver as it was.  If it reports failure, no
    descriptor, thread or pool is left behind, the receiver is as before, and one
    bind failure is counted.  If all system calls succeed, so does the start. *)
Theorem udp_start_all_or_nothing {Hook : Type} (inet_pton : string -> option Z)
    (env : nat -> SocketReplies * option Z) (u : @UdpReceiver Hook) (w0 : World)
    (Hrun : running_ u = false) (Hnone : array_receivers u = [])
    (Hw : world_ok w0) (Hpr : forall i, socket_promise (env i).1) :
  let '(ok, u', w') := start inet_pton env u w0 in
  (if ok
   then running_ u' = true /\
     fr_config <$> array_receivers u' = face_config (config_ u) <$> resolve_bindings u /\
     attached inet_pton w0 (array_receivers u') w' /\ counters w' = counters w0 /\
     exists w'', stop u' w' = (u, w'') /\ same_resources w0 w'' /\ counters w'' = counters w0
   else u' = u /\ same_resources w0 w' /\ counters w' = count_bind_failure (counters w0)) /\
  ((forall i b k, resolve_bindings u !! i = Some b ->
      setup_ok inet_pton (face_config (config_ u) b) (env i).1 k = true) -> ok = true).
Proof. by apply start_spec. Qed.

(** A system that hands out the next higher descriptor and refuses nothing. *)
Definition next_fd (k : Kernel) : Z := foldr Z.max 2 (elements (dom k)) + 1.

Definition willing : SocketReplies := mkSocketReplies next_fd true true true true true.

Lemma next_fd_above (l : list Z) x : x ∈ l -> x <= foldr Z.max 2 l.
Proof. induction l as [|y l IH]; [by intros ?%elem_of_nil|]. intros [->|Hx]%elem_of_cons; cbn; [|apply IH in Hx]; lia. Qed.

Lemma next_fd_pos (l : list Z) : 2 <= foldr Z.max 2 l.
Proof. induction l; cbn; lia. Qed.

Lemma willing_promise : socket_promise willing.
Proof.
  intros k. right. apply not_elem_of_dom. intros Hin. cbn in Hin.
  pose proof (next_fd_above (elements (dom k)) (next_fd k)) as Hle. rewrite elem_of_elements in Hle.
  specialize (Hle Hin). unfold next_fd in Hle. lia.
Qed.

Definition demo_binding (i : Z) : ArrayFaceBinding := mkArrayFaceBinding i (0x10 + i) "10.0.0.1" 9999 (15 + i) true.

Definition demo_receiver : @UdpReceiver unit :=
  UdpReceiver_init (mkUdpReceiverConfig [demo_binding 1; demo_binding 2; demo_binding 3] 9999 "0.0.0.0"
    64 4 256 64 false false 0 1 16 31 true None) true.

(** Three faces start. *)
Lemma udp_start_all_or_nothing_witness :
  let '(ok, u', w') := start (fun _ => Some 0x0100000A) (fun _ => (willing, None)) demo_receiver
    (mkWorld ∅ ∅ ∅ 0 UdpStats_zero) in
  ok = true /\ length (array_receivers u') = 3%nat /\
  exists w'', stop u' w' = (demo_receiver, w'') /\ same_resources (mkWorld ∅ ∅ ∅ 0 UdpStats_zero) w''.
Proof.
  pose proof (udp_start_all_or_nothing (fun _ => Some 0x0100000A) (fun _ => (willing, None)) demo_receiver
    (mkWorld ∅ ∅ ∅ 0 UdpStats_zero) eq_refl eq_refl ltac:(intros id Hid; set_solver)
    ltac:(intros i; apply willing_promise)) as H.
  destruct (start _ _ _ _) as [[ok u'] w']. destruct H as [Hres Hall].
  assert (Eok : ok = true).
  { apply Hall. intros i b k Hb. unfold setup_ok. cbn. rewrite !andb_true_r.
    apply Z.leb_le. unfold next_fd. pose proof (next_fd_pos (elements (dom k))). lia. }
  rewrite Eok in Hres. destruct Hres as (_ & Hcfg & _ & _ & w'' & Es & Hsame & _).
  split; [exact Eok|]. split; [|by exists w''].
  rewrite <-(length_fmap fr_config), Hcfg. reflexivity.
Defined.

(** Without a list of faces the receiver listens on every address, whatever
    [bind_ip] says. *)
Lemma legacy_ignores_bind_ip {Hook : Type} (u : @UdpReceiver Hook) :
  array_faces (config_ u) = [] ->
  b_bind_ip <$> resolve_bindings u = [b_bind_ip ArrayFaceBinding_default].
Proof. intros H. unfold resolve_bindings. by rewrite H. Qed.

(** From 2048 MB on, the buffer size does not fit the [int] it is passed in: with
    2048 the option is set to [INT_MIN]. *)
Lemma rcvbuf_overflows c tos addr :
  socket_rcvbuf_mb c = 2048 -> so_rcvbuf (configured c tos addr) = Some (- 2 ^ 31).
Proof. intros H. unfold configured. cbn. rewrite H. reflexivity. Qed.

(** Binding is reported exactly when the system accepted the set and the thread
    may run on the processor; a number a [cpu_set_t] cannot hold is never bound. *)
Lemma bind_reports c numa set_ok actual :
  (bind_current_thread_to_cpu c numa set_ok actual).2 = true <->
  set_ok = true /\ 0 <= cpu_affinity c < CPU_SETSIZE /\ exists s, actual = Some s /\ cpu_affinity c ∈ s.
Proof.
  unfold bind_current_thread_to_cpu, CPU_ISSET, cpu_ok. cbn [snd]. destruct set_ok; cbn [negb]; [|naive_solver].
  destruct actual as [s|]; [|naive_solver]. rewrite !andb_true_iff, Z.leb_le, Z.ltb_lt, bool_decide_eq_true.
  naive_solver.
Qed.

End UdpReceiver.
