(* ===== verification/Float.v ===== *)
(** The floating-point arithmetic of [float] and [double]: values are the bit
    patterns of the IEEE 754 formats, operations round to nearest even as the
    Standard Library's [SpecFloat] specifies them.  A result that is not a number
    is the canonical quiet one.  Functions of the mathematical library whose
    rounding is not specified ([cos], [sin], [atan2], [log10]) are parameters of
    the definitions that call them. *)

From S2P Require Import Prelude.
From Stdlib Require Import Floats.SpecFloat.
Open Scope Z_scope.

Module Float.

(** ** Formats *)

(** [prec] bits of precision, exponents below [emax], [mw] bits of mantissa and
    [ew] bits of exponent. *)
Record format := mkFormat { prec : Z; emax : Z; mw : Z; ew : Z }.

Definition binary32 : format := mkFormat 24 128 23 8.
Definition binary64 : format := mkFormat 53 1024 52 11.

Definition min_exp (f : format) : Z := SpecFloat.emin (prec f) (emax f).

Definition of_bits (f : format) (x : Z) : spec_float :=
  let s := Z.testbit x (mw f + ew f) in
  let m := x mod 2 ^ mw f in
  let e := (x / 2 ^ mw f) mod 2 ^ ew f in
  if e =? 2 ^ ew f - 1 then (if m =? 0 then S754_infinity s else S754_nan)
  else if e =? 0 then (if m =? 0 then S754_zero s else S754_finite s (Z.to_pos m) (min_exp f))
  else S754_finite s (Z.to_pos (m + 2 ^ mw f)) (min_exp f + e - 1).

Definition sign_bit (f : format) (s : bool) : Z := if s then 2 ^ (mw f + ew f) else 0.

Definition to_bits (f : format) (x : spec_float) : Z :=
  match x with
  | S754_zero s => sign_bit f s
  | S754_infinity s => sign_bit f s + (2 ^ ew f - 1) * 2 ^ mw f
  | S754_nan => (2 ^ ew f - 1) * 2 ^ mw f + 2 ^ (mw f - 1)
  | S754_finite s m e =>
    if Z.pos m <? 2 ^ mw f then sign_bit f s + Z.pos m
    else sign_bit f s + (e - min_exp f + 1) * 2 ^ mw f + (Z.pos m - 2 ^ mw f)
  end.

(** ** Operations *)

Definition op2 (f : format) (op : Z -> Z -> spec_float -> spec_float -> spec_float) (x y : Z) : Z :=
  to_bits f (op (prec f) (emax f) (of_bits f x) (of_bits f y)).

Definition fadd (f : format) : Z -> Z -> Z := op2 f SFadd.
Definition fsub (f : format) : Z -> Z -> Z := op2 f SFsub.
Definition fmul (f : format) : Z -> Z -> Z := op2 f SFmul.
Definition fdiv (f : format) : Z -> Z -> Z := op2 f SFdiv.
Definition fsqrt (f : format) (x : Z) : Z := to_bits f (SFsqrt (prec f) (emax f) (of_bits f x)).
Definition fabs (f : format) (x : Z) : Z := to_bits f (SFabs (of_bits f x)).
Definition fltb (f : format) (x y : Z) : bool := SFltb (of_bits f x) (of_bits f y).
Definition fleb (f : format) (x y : Z) : bool := SFleb (of_bits f x) (of_bits f y).

(** Conversion of an integer. *)
Definition of_Z (f : format) (n : Z) : Z := to_bits f (binary_normalize (prec f) (emax f) n 0 false).

(** The integer part of a magnitude. *)
Definition truncate (m : positive) (e : Z) : Z := if 0 <=? e then Z.pos m * 2 ^ e else Z.pos m / 2 ^ (- e).

(** Conversion between the formats. *)
Definition convert (f g : format) (x : Z) : Z :=
  to_bits g (match of_bits f x with
             | S754_finite s m e => binary_normalize (prec g) (emax g) (if s then Z.neg m else Z.pos m) e s
             | v => v
             end).

(** ** Laws *)

(** Nothing is less than itself, also no special value. *)
Lemma fltb_irrefl f x : fltb f x x = false.
Proof.
  unfold fltb, SFltb, SFcompare.
  destruct (of_bits f x) as [[]|[]| |[] m e]; try done; rewrite Z.compare_refl, Pos.compare_cont_refl; done.
Qed.

Lemma SFcompare_swap x y : SFcompare y x = CompOpp <$> SFcompare x y.
Proof.
  unfold SFcompare. destruct x as [[]|[]| |[] m e], y as [[]|[]| |[] m' e']; cbn; try done.
  all: rewrite (Z.compare_antisym e e'); destruct (e ?= e')%Z; cbn; try done.
  all: rewrite (Pos.compare_cont_antisym); cbn; try done.
  all: by destruct (Pos.compare_cont Eq m m').
Qed.

(** Two numbers are not less than each other. *)
Lemma fltb_asym f x y : fltb f x y = true -> fltb f y x = false.
Proof.
  unfold fltb, SFltb. rewrite (SFcompare_swap (of_bits f x)).
  destruct (SFcompare (of_bits f x) (of_bits f y)) as [[]|]; done.
Qed.

(** The order of the finite numbers of one sign: by exponent, then by mantissa. *)
Lemma SFleb_pos m e m' e' :
  SFleb (S754_finite false m e) (S754_finite false m' e') = true <-> e < e' \/ (e = e' /\ (m <= m')%positive).
Proof.
  unfold SFleb, SFcompare. change (Pos.compare_cont Eq m m') with (m ?= m')%positive.
  destruct (Z.compare_spec e e'), (Pos.compare_spec m m'); intuition (try done; try lia).
Qed.

Lemma SFleb_neg m e m' e' :
  SFleb (S754_finite true m e) (S754_finite true m' e') = true <-> e' < e \/ (e = e' /\ (m' <= m)%positive).
Proof.
  unfold SFleb, SFcompare. change (Pos.compare_cont Eq m m') with (m ?= m')%positive.
  destruct (Z.compare_spec e e'), (Pos.compare_spec m m'); cbn; intuition (try done; try lia).
Qed.

Lemma fleb_trans f x y z : fleb f x y = true -> fleb f y z = true -> fleb f x z = true.
Proof.
  unfold fleb. generalize (of_bits f x) (of_bits f y) (of_bits f z). clear.
  intros [[]|[]| |[] m e] [[]|[]| |[] m' e'] [[]|[]| |[] m'' e'']; try done;
    rewrite ?SFleb_pos, ?SFleb_neg; lia.
Qed.

(** Less is at most, and not the other way round. *)
Lemma fltb_iff f x y : fltb f x y = true <-> fleb f x y = true /\ fleb f y x = false.
Proof.
  unfold fltb, fleb, SFltb, SFleb. rewrite (SFcompare_swap (of_bits f x) (of_bits f y)).
  destruct (SFcompare (of_bits f x) (of_bits f y)) as [[]|]; cbn; naive_solver.
Qed.

Lemma fltb_trans f x y z : fltb f x y = true -> fltb f y z = true -> fltb f x z = true.
Proof.
  rewrite !fltb_iff. intros [H1 H2] [H3 H4]. split; [by eapply fleb_trans|].
  destruct (fleb f z x) eqn:E; [|done]. rewrite <-H4. symmetry. by eapply fleb_trans.
Qed.

Lemma SFcompare_None x y : SFcompare x y = None -> x = S754_nan \/ y = S754_nan.
Proof.
  destruct x as [[]|[]| |[] m e], y as [[]|[]| |[] m' e']; cbn; try done; auto.
  all: destruct (e ?= e')%Z; try done; by destruct (Pos.compare_cont _ _ _).
Qed.

(** Of two values that compare with something, the one that is not less is at least
    the other. *)
Lemma fltb_false f x y a b :
  fltb f x y = false -> fleb f x a = true -> fltb f y b = true -> fleb f y x = true.
Proof.
  unfold fltb, fleb, SFltb, SFleb. rewrite (SFcompare_swap (of_bits f x) (of_bits f y)).
  destruct (SFcompare (of_bits f x) (of_bits f y)) as [[]|] eqn:E; cbn; try done.
  apply SFcompare_None in E as [-> | ->]; by destruct (of_bits f a), (of_bits f b).
Qed.

Example f64_third : fdiv binary64 (of_Z binary64 1) (of_Z binary64 3) = 0x3FD5555555555555.
Proof. vm_compute. reflexivity. Qed.

Example f32_sqrt2 : fsqrt binary32 (of_Z binary32 2) = 0x3FB504F3.
Proof. vm_compute. reflexivity. Qed.

Example f64_sum : fadd binary64 0x3FB999999999999A 0x3FC999999999999A = 0x3FD3333333333334.
Proof. vm_compute. reflexivity. Qed.

End Float.
