(* ===== verification/FloatLaws.v ===== *)
(** Bounds for the arithmetic of [double]: rounding to nearest does not cross a number of
    the format, so a result whose exact value is within a bound of the format is finite
    and within the bound too. *)

From S2P Require Import Prelude Float.
From Stdlib Require Import Floats.SpecFloat.
Open Scope Z_scope.
Import Float.

Module FloatLaws.

(** Values are compared as integers, in units of [2 ^ - K], which is below every
    exponent of the operands and of their products. *)
Definition K : Z := 5000.
Definition units (m e : Z) : Z := m * 2 ^ (e + K).

(** The format: 53 bits, exponents from -1074 to 971. *)
Definition valid (x : spec_float) : Prop :=
  match x with
  | S754_finite _ m e => -1074 <= e <= 971 /\ Z.pos m < 2 ^ 53 /\ (e = -1074 \/ 2 ^ 52 <= Z.pos m)
  | _ => True
  end.

(** The magnitude of a finite number is at most [B] units. *)
Definition within (B : Z) (x : spec_float) : Prop :=
  match x with
  | S754_zero _ => True
  | S754_finite _ m e => units (Z.pos m) e <= B
  | _ => False
  end.

(** A finite number of the format within [B] units. *)
Definition fits (B : Z) (x : spec_float) : Prop := valid x /\ within B x.

(** A bound that is a number of the format and not the largest. *)
Definition bound (B : Z) : Prop :=
  (exists M E, B = units M E /\ 0 <= M <= 2 ^ 53 /\ -1074 <= E) /\ B <= 2 ^ (1023 + K).

#[local] Abbreviation round := (binary_round_aux 53 1024).
#[local] Abbreviation fexp := (SpecFloat.fexp 53 1024).

Lemma fexp_eq e : fexp e = Z.max (e - 53) (-1074).
Proof. done. Qed.

(** ** Shifts *)

Definition inexact (r : shr_record) : bool := shr_r r || shr_s r.

Lemma loc_inexact r : loc_of_shr_record r = loc_Exact <-> inexact r = false.
Proof. destruct r as [m [] []]; done. Qed.

(** A shift halves, and is inexact when a bit is lost. *)
Lemma shr_1_spec r : 0 <= shr_m r ->
  shr_m (shr_1 r) = shr_m r / 2 /\
  (inexact (shr_1 r) = true -> inexact r = true \/ 2 * (shr_m r / 2) < shr_m r).
Proof.
  destruct r as [m rr ss]. unfold inexact. cbn [shr_m shr_r shr_s]. intros Hm.
  pose proof (Z.div_mod m 2 ltac:(done)). pose proof (Z.mod_pos_bound m 2 ltac:(done)).
  destruct m as [|[p|p|]|p]; [| | | |lia]; cbn [shr_1 shr_m shr_r shr_s]; (split; [|cbn [orb]; intros]).
  1: done. 1: by left. 
  1: { rewrite Pos2Z.inj_xI in *. lia. } 1: { right. rewrite Pos2Z.inj_xI in *. lia. }
  1: { rewrite Pos2Z.inj_xO in *. lia. } 1: by left. 1: done. right. lia.
Qed.

Lemma iter_pos_ind {A} (f : A -> A) (P : nat -> A -> Prop) p : forall n x,
  P n x -> (forall n x, P n x -> P (S n) (f x)) -> P (n + Pos.to_nat p)%nat (iter_pos f p x).
Proof.
  induction p as [p IH|p IH|]; intros n x H0 Hs; cbn [iter_pos].
  - replace (n + Pos.to_nat p~1)%nat with (S n + Pos.to_nat p + Pos.to_nat p)%nat by lia. auto.
  - replace (n + Pos.to_nat p~0)%nat with (n + Pos.to_nat p + Pos.to_nat p)%nat by lia. auto.
  - replace (n + Pos.to_nat 1)%nat with (S n) by lia. auto.
Qed.

(** The number that a record at an exponent stands for is below the bound, and strictly
    so when bits were lost. *)
Definition below (B : Z) (r : shr_record) (e : Z) : Prop :=
  units (shr_m r) e <= B /\ (inexact r = true -> units (shr_m r) e < B).

Lemma units_succ m e : - K <= e -> units m (e + 1) = units (2 * m) e.
Proof. intros. unfold units. replace (e + 1 + K) with (Z.succ (e + K)) by lia. rewrite Z.pow_succ_r by lia. lia. Qed.

Lemma units_le m m' e : - K <= e -> m <= m' -> units m e <= units m' e.
Proof. intros. unfold units. pose proof (Z.pow_pos_nonneg 2 (e + K)). nia. Qed.

Lemma units_lt m m' e : - K <= e -> m < m' -> units m e < units m' e.
Proof. intros. unfold units. pose proof (Z.pow_pos_nonneg 2 (e + K)). nia. Qed.

Lemma shr_below B r e n : 0 <= n -> - K <= e -> 0 <= shr_m r -> below B r e ->
  let '(r', e') := shr r e n in e' = e + n /\ shr_m r' = shr_m r / 2 ^ n /\ below B r' e'.
Proof.
  intros Hn He Hm Hb. destruct n as [|p|p]; [..|lia]; cbn [shr].
  { rewrite Z.add_0_r, Z.div_1_r. done. }
  split; [done|].
  pose proof (iter_pos_ind shr_1 (fun n r' => shr_m r' = shr_m r / 2 ^ Z.of_nat n /\ below B r' (e + Z.of_nat n)) p 0 r) as H.
  cbn [Nat.add] in H. replace (Z.of_nat (Pos.to_nat p)) with (Z.pos p) in H by lia. apply H; clear H.
  { rewrite Z.div_1_r. change (Z.of_nat 0) with 0. by rewrite Z.add_0_r. }
  intros n r' [Hr (Hb1 & Hb2)].
  assert (0 <= shr_m r') as Hr'. { rewrite Hr. apply Z.div_pos; [done|]. apply Z.pow_pos_nonneg; lia. }
  destruct (shr_1_spec r' Hr') as [Hh Hi]. rewrite Nat2Z.inj_succ, <-Z.add_1_r.
  assert (2 * (shr_m r' / 2) <= shr_m r') by (pose proof (Z.div_mod (shr_m r') 2); pose proof (Z.mod_pos_bound (shr_m r') 2); lia).
  split; [|split].
  - rewrite Hh, Hr, Z.pow_add_r, <-Z.div_div by lia. done.
  - rewrite Z.add_assoc, units_succ, Hh by lia. etrans; [|exact Hb1]. by apply units_le; [lia|].
  - intros Hx. rewrite Z.add_assoc, units_succ, Hh by lia. destruct (Hi Hx) as [Hx'|Hlt].
    + eapply Z.le_lt_trans; [|by apply Hb2]. by apply units_le; [lia|].
    + eapply Z.lt_le_trans; [|exact Hb1]. by apply units_lt; [lia|].
Qed.

(** ** Digits *)

Lemma digits2_log2 p : Z.pos (digits2_pos p) = Z.log2 (Z.pos p) + 1.
Proof.
  induction p as [p IH|p IH|]; [| |done]; cbn [digits2_pos]; rewrite Pos2Z.inj_succ, IH.
  - rewrite Pos2Z.inj_xI, Z.log2_succ_double by lia. lia.
  - rewrite Pos2Z.inj_xO, Z.log2_double by lia. lia.
Qed.

Lemma Zdigits2_spec m : 0 < m -> 0 < Zdigits2 m /\ 2 ^ (Zdigits2 m - 1) <= m < 2 ^ Zdigits2 m.
Proof.
  intros Hm. destruct m as [|p|p]; [lia| |lia]. cbn [Zdigits2]. rewrite digits2_log2.
  pose proof (Z.log2_nonneg (Z.pos p)). pose proof (Z.log2_spec (Z.pos p) Hm). rewrite Z.add_simpl_r, Z.add_1_r. lia.
Qed.

Lemma Zdigits2_range m : 0 <= m -> 0 <= Zdigits2 m /\ m < 2 ^ Zdigits2 m.
Proof.
  intros Hm. destruct (decide (m = 0)) as [->|Hne]; [done|]. destruct (Zdigits2_spec m) as (H1 & H2); lia.
Qed.

Lemma Zdigits2_le m d : 0 <= d -> 0 <= m < 2 ^ d -> Zdigits2 m <= d.
Proof.
  intros Hd Hm. destruct (decide (m = 0)) as [->|Hne]; [done|]. destruct (Zdigits2_spec m) as (H1 & H2 & _); [lia|].
  destruct (Z.le_gt_cases (Zdigits2 m) d); [done|]. pose proof (Z.pow_le_mono_r 2 d (Zdigits2 m - 1)). lia.
Qed.

Lemma Zdigits2_ge m d : 0 <= d -> 2 ^ d <= m -> d < Zdigits2 m.
Proof.
  intros Hd Hm. pose proof (Z.pow_pos_nonneg 2 d). destruct (Zdigits2_spec m) as (H1 & _ & H2); [lia|].
  destruct (Z.le_gt_cases (Zdigits2 m) d); [|lia]. pose proof (Z.pow_le_mono_r 2 (Zdigits2 m) d). lia.
Qed.

(** ** Rounding *)

(** The mantissa that is left at the exponent of the format. *)
Lemma shifted_mantissa m e : 0 <= m -> e <= fexp (Zdigits2 m + e) ->
  let e1 := fexp (Zdigits2 m + e) in
  0 <= m / 2 ^ (e1 - e) < 2 ^ 53 /\ (e1 = -1074 \/ 2 ^ 52 <= m / 2 ^ (e1 - e)).
Proof.
  cbv zeta. rewrite fexp_eq. intros Hm He. destruct (Zdigits2_range m Hm) as [Hd Hlt].
  set (e1 := Z.max _ _) in *. assert (0 < 2 ^ (e1 - e)) by (apply Z.pow_pos_nonneg; lia).
  split; [split; [by apply Z.div_pos|]|].
  - apply Z.div_lt_upper_bound; [done|]. rewrite <-Z.pow_add_r by lia.
    eapply Z.lt_le_trans; [exact Hlt|]. apply Z.pow_le_mono_r; lia.
  - destruct (Z.le_gt_cases (Zdigits2 m + e - 53) (-1074)); [left; lia|right].
    assert (e1 = Zdigits2 m + e - 53) as -> by lia. destruct (decide (m = 0)) as [->|Hne]; [cbn in *; lia|].
    destruct (Zdigits2_spec m) as (Hd' & Hge & _); [lia|]. apply Z.div_le_lower_bound; [lia|].
    etrans; [|exact Hge]. rewrite <-Z.pow_add_r by lia. apply Z.pow_le_mono_r; lia.
Qed.

(** One unit more does not cross the bound when the bound was not reached. *)
Lemma step_below B m e :
  bound B -> -1074 <= e -> (e = -1074 \/ 2 ^ 52 <= m) -> units m e < B -> units (m + 1) e <= B.
Proof.
  intros [(M & E & -> & HM & HE) _] He Hm Hlt. unfold units, K in *.
  destruct (Z.le_gt_cases e E) as [Hle|Hgt].
  - assert (HE2 : M * 2 ^ (E + 5000) = (M * 2 ^ (E - e)) * 2 ^ (e + 5000)).
    { rewrite <-Z.mul_assoc, <-Z.pow_add_r by lia. do 2 f_equal. lia. }
    rewrite HE2 in *. pose proof (Z.pow_pos_nonneg 2 (e + 5000) ltac:(lia) ltac:(lia)).
    apply Z.mul_le_mono_nonneg_r; [lia|]. apply Z.mul_lt_mono_pos_r in Hlt; lia.
  - destruct Hm as [->|Hm]; [lia|]. exfalso.
    assert (2 ^ 53 * 2 ^ (E + 5000) <= 2 ^ 52 * 2 ^ (e + 5000)).
    { rewrite <-!Z.pow_add_r by lia. apply Z.pow_le_mono_r; lia. }
    pose proof (Z.pow_pos_nonneg 2 (e + 5000)). pose proof (Z.pow_pos_nonneg 2 (E + 5000)).
    assert (M * 2 ^ (E + 5000) <= 2 ^ 53 * 2 ^ (E + 5000)) by (apply Z.mul_le_mono_nonneg_r; lia).
    assert (2 ^ 52 * 2 ^ (e + 5000) <= m * 2 ^ (e + 5000)) by (apply Z.mul_le_mono_nonneg_r; lia). lia.
Qed.

(** The exponent of a number below the bound. *)
Lemma exponent_small B m e : bound B -> (e = -1074 \/ 2 ^ 52 <= m) -> -1074 <= e -> units m e <= B -> e <= 971.
Proof.
  intros [_ HB] Hm He Hle. destruct Hm as [->|Hm]; [lia|]. unfold units, K in *.
  destruct (Z.le_gt_cases e 971); [done|]. exfalso.
  assert (2 ^ (1024 + 5000) <= 2 ^ 52 * 2 ^ (e + 5000)) by (rewrite <-Z.pow_add_r by lia; apply Z.pow_le_mono_r; lia).
  assert (2 ^ 52 * 2 ^ (e + 5000) <= m * 2 ^ (e + 5000)) by (apply Z.mul_le_mono_nonneg_r; lia).
  assert (2 ^ (1023 + 5000) < 2 ^ (1024 + 5000)) by (apply Z.pow_lt_mono_r; lia). lia.
Qed.

(** What rounding makes of the mantissa. *)
Lemma round_nearest_cases m l : round_nearest_even m l = m \/ (l <> loc_Exact /\ round_nearest_even m l = m + 1).
Proof. destruct l as [|[]]; cbn; [by left| |by left|by right]. destruct (Z.even m); [by left|by right]. Qed.

(** The second normalization: only a carry into the 54th bit shifts. *)
Lemma renormalize B m e : bound B -> 0 <= m <= 2 ^ 53 -> -1074 <= e -> (e = -1074 \/ 2 ^ 52 <= m) -> units m e <= B ->
  let '(r, e') := shr_fexp 53 1024 m e loc_Exact in
  0 <= shr_m r < 2 ^ 53 /\ -1074 <= e' /\ (e' = -1074 \/ 2 ^ 52 <= shr_m r) /\ units (shr_m r) e' <= B.
Proof.
  intros HB Hm He Hn Hle. unfold shr_fexp. rewrite fexp_eq. cbn [shr_record_of_loc].
  destruct (decide (m = 2 ^ 53)) as [->|Hne].
  - replace (Z.max (Zdigits2 (2 ^ 53) + e - 53) (-1074) - e) with 1 by (change (Zdigits2 (2 ^ 53)) with 54; lia).
    pose proof (shr_below B {| shr_m := 2 ^ 53; shr_r := false; shr_s := false |} e 1) as H.
    destruct (shr _ e 1) as [r e']. cbn [shr_m] in H. unfold below, inexact in H. cbn [shr_m shr_r shr_s orb] in H.
    destruct H as (-> & -> & Hle' & _); [lia|unfold K; lia|lia|by split|].
    change (2 ^ 53 / 2 ^ 1) with (2 ^ 52) in *. split_and!; [lia|lia|lia|by right|done].
  - pose proof (Zdigits2_le m 53 ltac:(lia) ltac:(lia)) as Hd.
    assert (Hs : shr {| shr_m := m; shr_r := false; shr_s := false |} e (Z.max (Zdigits2 m + e - 53) (-1074) - e) =
      ({| shr_m := m; shr_r := false; shr_s := false |}, e)).
    { destruct (Z.max (Zdigits2 m + e - 53) (-1074) - e) eqn:E; [done|lia|done]. }
    rewrite Hs. cbn [shr_m]. split_and!; [lia|lia|done|done|done].
Qed.

(** Rounding a number below the bound gives a number of the format below the bound. *)
Lemma round_within B s m e l :
  bound B -> 0 <= m -> - K <= e -> e <= fexp (Zdigits2 m + e) ->
  units m e <= B -> (l <> loc_Exact -> units m e < B) ->
  fits B (round s m e l).
Proof.
  intros HB Hm He Hf Hle Hlt. unfold binary_round_aux, shr_fexp at 1.
  pose proof (shifted_mantissa m e Hm Hf) as Hsm. cbv zeta in Hsm. set (e1 := fexp _) in *.
  assert (Hrm : shr_m (shr_record_of_loc m l) = m) by (by destruct l as [|[]]).
  pose proof (shr_below B (shr_record_of_loc m l) e (e1 - e)) as Hs. rewrite Hrm in Hs.
  destruct (shr _ e (e1 - e)) as [r e'].
  destruct Hs as (-> & Hr & Hb1 & Hb2); [lia|done|done|split; rewrite Hrm; [done|intros Hi; apply Hlt; by intros ->]|].
  replace (e + (e1 - e)) with e1 in * by lia. rewrite <-Hr in Hsm. destruct Hsm as [Hm1 Hn1].
  assert (He1 : -1074 <= e1) by (unfold e1; rewrite fexp_eq; lia).
  set (m2 := round_nearest_even (shr_m r) (loc_of_shr_record r)).
  assert (H2 : 0 <= m2 <= 2 ^ 53 /\ (e1 = -1074 \/ 2 ^ 52 <= m2) /\ units m2 e1 <= B).
  { unfold m2. destruct (round_nearest_cases (shr_m r) (loc_of_shr_record r)) as [-> |[Hi ->]]; [split_and!; [lia|lia|done|done]|].
    assert (units (shr_m r + 1) e1 <= B).
    { apply step_below; [done|done|done|]. apply Hb2. destruct (inexact r) eqn:E; [done|]. by apply loc_inexact in E. }
    split_and!; [lia|lia|destruct Hn1; [by left|right; lia]|done]. }
  destruct H2 as (H2a & H2b & H2c). pose proof (renormalize B m2 e1 HB H2a He1 H2b H2c) as H3.
  destruct (shr_fexp 53 1024 m2 e1 loc_Exact) as [r2 e2]. destruct H3 as (Ha & Hb & Hc & Hd).
  destruct (shr_m r2) as [|p|p]; [done| |lia].
  pose proof (exponent_small B (Z.pos p) e2 HB Hc Hb Hd). change (1024 - 53) with 971.
  rewrite (proj2 (Z.leb_le _ _)) by done. split; [|exact Hd]. cbn. lia.
Qed.

(** ** Operations *)

Lemma iter_xO p d : Z.pos (Pos.iter xO p d) = Z.pos p * 2 ^ Z.pos d.
Proof.
  induction d as [|d IH] using Pos.peano_ind; [cbn; lia|].
  rewrite Pos.iter_succ, Pos2Z.inj_xO, IH, Pos2Z.inj_succ, Z.pow_succ_r by lia. lia.
Qed.

Lemma units_shift m e d : 0 <= d -> - K <= e - d -> units (m * 2 ^ d) (e - d) = units m e.
Proof. intros. unfold units. rewrite <-Z.mul_assoc, <-Z.pow_add_r by lia. do 2 f_equal. lia. Qed.

(** Aligning keeps the value. *)
Lemma shl_align_spec m e e' : - K <= e' -> - K <= e ->
  let '(m', e'') := shl_align m e e' in e'' = Z.min e e' /\ units (Z.pos m') e'' = units (Z.pos m) e /\
    Z.pos m' = Z.pos m * 2 ^ (e - e'').
Proof.
  intros He' He. unfold shl_align. destruct (e' - e) as [|d|d] eqn:E.
  1,2: rewrite Z.sub_diag; split_and!; [lia|done|lia].
  assert (Hd : e - e' = Z.pos d) by lia. rewrite iter_xO, Hd. split; [lia|]. split; [|done].
  replace e' with (e - Z.pos d) by lia. apply units_shift; lia.
Qed.

Lemma binary_round_fits B s m e : bound B -> - K <= e -> units (Z.pos m) e <= B -> fits B (binary_round 53 1024 s m e).
Proof.
  intros HB He Hle. unfold binary_round. set (e' := fexp _).
  assert (He' : -1074 <= e') by (unfold e'; rewrite fexp_eq; lia).
  pose proof (shl_align_spec m e e' ltac:(unfold K; lia) He) as H. destruct (shl_align m e e') as [mz ez].
  destruct H as (Hez & Hu & Hm). apply round_within; [done|done|unfold K in *; lia| |by rewrite Hu|done].
  assert (Hdig : Zdigits2 (Z.pos mz) + ez = Z.pos (digits2_pos m) + e).
  { cbn [Zdigits2]. rewrite !digits2_log2, Hm, Z.log2_mul_pow2 by lia. lia. }
  rewrite Hdig. fold e'. lia.
Qed.

Lemma binary_normalize_fits B n e z : bound B -> - K <= e -> units (Z.abs n) e <= B -> fits B (binary_normalize 53 1024 n e z).
Proof. intros HB He Hle. destruct n as [|p|p]; [done|by apply binary_round_fits..]. Qed.

Lemma fits_mono B B' x : B <= B' -> fits B x -> fits B' x.
Proof. intros Hle [Hv Hw]. split; [done|]. destruct x; cbn in *; try done. lia. Qed.

Lemma units_abs_sum a b c d e : units (Z.abs (cond_Zopp a c + cond_Zopp b d)) e <= units (Z.abs c) e + units (Z.abs d) e.
Proof. unfold units. rewrite <-Z.mul_add_distr_r. apply Z.mul_le_mono_nonneg_r; [apply Z.pow_nonneg; lia|]. destruct a, b; cbn; lia. Qed.

Lemma fits_pos B x : fits B x -> match x with S754_finite _ _ _ => 0 <= B | _ => True end.
Proof.
  intros [Hv Hw]. destruct x; try done. cbn in Hw. unfold units in Hw.
  pose proof (Z.pow_nonneg 2 (e + K)). nia.
Qed.

(** The aligned sum of two finite numbers. *)
Lemma aligned_sum_fits A C B sx mx ex sy my ey :
  bound B -> fits A (S754_finite sx mx ex) -> fits C (S754_finite sy my ey) -> A + C <= B ->
  let ez := Z.min ex ey in
  fits B (binary_normalize 53 1024
    (cond_Zopp sx (Z.pos (fst (shl_align mx ex ez))) + cond_Zopp sy (Z.pos (fst (shl_align my ey ez)))) ez false).
Proof.
  intros HB [[Hex _] Hx] [[Hey _] Hy] HAC ez. cbn [within] in Hx, Hy.
  pose proof (shl_align_spec mx ex ez ltac:(unfold K; lia) ltac:(unfold K; lia)) as H1.
  pose proof (shl_align_spec my ey ez ltac:(unfold K; lia) ltac:(unfold K; lia)) as H2.
  destruct (shl_align mx ex ez) as [m1 e1], (shl_align my ey ez) as [m2 e2]. cbn [fst].
  destruct H1 as (-> & H1 & _), H2 as (-> & H2 & _).
  apply binary_normalize_fits; [done|unfold K; lia|]. etrans; [apply units_abs_sum|].
  change (Z.abs (Z.pos m1)) with (Z.pos m1). change (Z.abs (Z.pos m2)) with (Z.pos m2).
  assert (Z.min ex ez = ez /\ Z.min ey ez = ez) as [E1 E2] by (unfold ez; lia). rewrite E1 in H1. rewrite E2 in H2. lia.
Qed.

Lemma SFadd_fits A C B x y : bound B -> fits A x -> fits C y -> 0 <= A -> 0 <= C -> A + C <= B -> fits B (SFadd 53 1024 x y).
Proof.
  intros HB Hx Hy HA HC HAC. destruct x as [sx|sx| |sx mx ex], y as [sy|sy| |sy my ey]; try (by destruct Hx); try (by destruct Hy); cbn [SFadd].
  - by destruct sx, sy.
  - eapply fits_mono; [|exact Hy]. lia.
  - eapply fits_mono; [|exact Hx]. lia.
  - by eapply aligned_sum_fits.
Qed.

Lemma SFsub_fits A C B x y : bound B -> fits A x -> fits C y -> 0 <= A -> 0 <= C -> A + C <= B -> fits B (SFsub 53 1024 x y).
Proof.
  intros HB Hx Hy HA HC HAC. destruct x as [sx|sx| |sx mx ex], y as [sy|sy| |sy my ey]; try (by destruct Hx); try (by destruct Hy); cbn [SFsub].
  - by destruct sx, sy.
  - apply (fits_mono C); [lia|]. exact Hy.
  - eapply fits_mono; [|exact Hx]. lia.
  - assert (Hs : forall z, - cond_Zopp sy z = cond_Zopp (negb sy) z) by (intros z; destruct sy; cbn; lia).
    rewrite <-Z.add_opp_r, Hs. eapply aligned_sum_fits; [done|exact Hx|exact Hy|done].
Qed.

Lemma units_mul m m' e e' : - K <= e -> - K <= e' -> - K <= e + e' -> units (m * m') (e + e') * 2 ^ K = units m e * units m' e'.
Proof.
  intros. unfold units. transitivity (m * m' * (2 ^ (e + e' + K) * 2 ^ K)); [ring|].
  transitivity (m * m' * (2 ^ (e + K) * 2 ^ (e' + K))); [|ring]. f_equal. rewrite <-!Z.pow_add_r by (unfold K in *; lia). f_equal. lia.
Qed.

(** The exponent of a valid number is the one of the format. *)
Lemma valid_fexp s m e : valid (S754_finite s m e) -> e = fexp (Zdigits2 (Z.pos m) + e).
Proof.
  cbn [valid]. intros (He & Hm & Hn). rewrite fexp_eq. pose proof (Zdigits2_le (Z.pos m) 53 ltac:(lia) ltac:(lia)).
  destruct Hn as [->|Hn]; [lia|]. pose proof (Zdigits2_ge (Z.pos m) 52 ltac:(lia) Hn). lia.
Qed.

Lemma SFmul_fits A C B x y : bound B -> fits A x -> fits C y -> 0 <= A -> A * C <= B * 2 ^ K -> fits B (SFmul 53 1024 x y).
Proof.
  intros HB Hx Hy HA HAC. destruct x as [sx|sx| |sx mx ex], y as [sy|sy| |sy my ey]; try (by destruct Hx); try (by destruct Hy); cbn [SFmul]; try done.
  destruct Hx as [Hvx Hx], Hy as [Hvy Hy]. pose proof (valid_fexp _ _ _ Hvx) as Hfx. pose proof (valid_fexp _ _ _ Hvy) as Hfy.
  destruct Hvx as (Hex & Hmx & _), Hvy as (Hey & Hmy & _). cbn [within] in Hx, Hy.
  apply round_within; [done|done|unfold K; lia| | |done].
  - rewrite !fexp_eq in *.
    assert (Zdigits2 (Z.pos mx) + Zdigits2 (Z.pos my) - 1 <= Zdigits2 (Z.pos (mx * my))).
    { cbn [Zdigits2]. rewrite !digits2_log2, Pos2Z.inj_mul. pose proof (Z.log2_mul_below (Z.pos mx) (Z.pos my)). lia. }
    destruct (Zdigits2_spec (Z.pos mx)); [lia|]. destruct (Zdigits2_spec (Z.pos my)); [lia|]. lia.
  - assert (Hpos : 0 < 2 ^ K) by (apply Z.pow_pos_nonneg; unfold K; lia).
    apply (Z.mul_le_mono_pos_r _ _ (2 ^ K) Hpos). rewrite Pos2Z.inj_mul, units_mul by (unfold K; lia).
    etrans; [|exact HAC]. apply Z.mul_le_mono_nonneg; [|done| |done]; unfold units; pose proof (Z.pow_nonneg 2); lia || (apply Z.mul_nonneg_nonneg; [lia|apply Z.pow_nonneg; lia]).
Qed.

(** The quotient and its exponent. *)
Lemma div_core_spec m1 e1 m2 e2 : 0 < m1 -> 0 < m2 ->
  let '(q, e', l) := SFdiv_core_binary 53 1024 m1 e1 m2 e2 in
  let s := e1 - e2 - e' in
  0 <= s /\ 0 <= q /\ q * m2 <= m1 * 2 ^ s < (q + 1) * m2 /\ (l <> loc_Exact -> q * m2 < m1 * 2 ^ s) /\
  e' <= fexp (Zdigits2 q + e') /\ e' = Z.min (fexp (Zdigits2 m1 + e1 - (Zdigits2 m2 + e2))) (e1 - e2).
Proof.
  intros H1 H2. unfold SFdiv_core_binary. set (e' := Z.min _ _). set (s := e1 - e2 - e').
  assert (Hs : 0 <= s) by (unfold s, e'; lia).
  assert (Hm : match s with Z.pos _ => Z.shiftl m1 s | 0 => m1 | Z.neg _ => 0 end = m1 * 2 ^ s).
  { destruct s as [|p|p] eqn:E; [by rewrite Z.mul_1_r| |lia]. by rewrite Z.shiftl_mul_pow2 by lia. }
  rewrite Hm. pose proof (Z_div_mod (m1 * 2 ^ s) m2 ltac:(lia)) as Hdiv. destruct (Z.div_eucl (m1 * 2 ^ s) m2) as [q r].
  destruct Hdiv as [Hq Hr]. pose proof (Z.pow_pos_nonneg 2 s ltac:(lia) Hs).
  clear Hm. assert (Hse : s = e1 - e2 - e') by done. assert (He' : e' = Z.min (fexp (Zdigits2 m1 + e1 - (Zdigits2 m2 + e2))) (e1 - e2)) by done.
  rewrite <-Hse. clearbody s e'.
  assert (Hq0 : 0 <= q) by nia. split; [done|]. split; [done|]. split; [lia|]. split.
  { unfold new_location, new_location_even, new_location_odd. destruct (Z.eqb_spec r 0) as [->|]; [by destruct (Z.even m2)|lia]. }
  split; [|done].
  destruct (Zdigits2_spec m1 H1) as (Hd1 & Hl1 & _). destruct (Zdigits2_spec m2 H2) as (Hd2 & _ & Hu2).
  assert (Hdq : Zdigits2 m1 + s - Zdigits2 m2 <= Zdigits2 q).
  { destruct (Z.le_gt_cases (Zdigits2 m1 + s - Zdigits2 m2) 0); [pose proof (proj1 (Zdigits2_range q Hq0)); lia|].
    apply Z.lt_pred_le, Zdigits2_ge; [lia|]. apply Z.lt_succ_r. unfold Z.succ, Z.pred.
    apply (Z.mul_lt_mono_pos_l (2 ^ Zdigits2 m2)); [apply Z.pow_pos_nonneg; lia|]. rewrite <-Z.pow_add_r by lia.
    replace (Zdigits2 m2 + (Zdigits2 m1 + s - Zdigits2 m2 + -1)) with (Zdigits2 m1 - 1 + s) by lia.
    rewrite Z.pow_add_r by lia.
    assert (2 ^ (Zdigits2 m1 - 1) * 2 ^ s <= m1 * 2 ^ s) by (apply Z.mul_le_mono_nonneg_r; lia). nia. }
  rewrite !fexp_eq in *. lia.
Qed.

(** The divisor is at least [C] units. *)
Definition at_least (C : Z) (x : spec_float) : Prop :=
  match x with S754_finite _ m e => C <= units (Z.pos m) e | _ => False end.

(** The quotient of two finite numbers before it is rounded. *)
Lemma quotient_below A C B sx mx ex sy my ey :
  fits A (S754_finite sx mx ex) -> valid (S754_finite sy my ey) -> at_least C (S754_finite sy my ey) -> 0 < C ->
  A * 2 ^ K <= B * C ->
  let '(q, e', l) := SFdiv_core_binary 53 1024 (Z.pos mx) ex (Z.pos my) ey in
  - K <= e' /\ - K <= e' + ey /\ units (Z.pos mx * 2 ^ (ex - ey - e')) (e' + ey) = units (Z.pos mx) ex /\
  units q e' <= B /\ (l <> loc_Exact -> units q e' < B).
Proof.
  intros Hx Hvy Hy HC HAC.
  pose proof (div_core_spec (Z.pos mx) ex (Z.pos my) ey ltac:(lia) ltac:(lia)) as H.
  destruct Hx as [(Hex & Hmx & _) Hx], Hvy as (Hey & Hmy & _). cbn [within at_least] in Hx, Hy.
  destruct (SFdiv_core_binary 53 1024 (Z.pos mx) ex (Z.pos my) ey) as [[q e'] l]. cbv zeta in H.
  destruct H as (Hs & Hq & [Hle _] & Hlt & Hf & He').
  assert (Hke : - K <= e' /\ - K <= e' + ey /\ e' + ey <= ex).
  { pose proof (Zdigits2_le (Z.pos mx) 53 ltac:(lia) ltac:(lia)). pose proof (Zdigits2_le (Z.pos my) 53 ltac:(lia) ltac:(lia)).
    pose proof (Zdigits2_range (Z.pos mx) ltac:(lia)). pose proof (Zdigits2_range (Z.pos my) ltac:(lia)).
    rewrite fexp_eq in He'. unfold K. lia. }
  destruct Hke as (Hk1 & Hk2 & Hk3). split; [done|]. split; [done|].
  assert (HuA : units (Z.pos mx * 2 ^ (ex - ey - e')) (e' + ey) = units (Z.pos mx) ex).
  { rewrite <-(units_shift (Z.pos mx) ex (ex - ey - e')) by lia. f_equal. lia. }
  split; [exact HuA|].
  assert (Hqy : units q e' * C <= units (q * Z.pos my) (e' + ey) * 2 ^ K).
  { rewrite units_mul by (unfold K in *; lia). apply Z.mul_le_mono_nonneg_l; [|done].
    unfold units. apply Z.mul_nonneg_nonneg; [done|apply Z.pow_nonneg; lia]. }
  assert (Hk : 0 < 2 ^ K) by (apply Z.pow_pos_nonneg; unfold K; lia). split.
  - apply (Z.mul_le_mono_pos_r _ _ C HC). etrans; [exact Hqy|]. etrans; [|exact HAC]. apply Z.mul_le_mono_pos_r; [done|].
    etrans; [|exact Hx]. rewrite <-HuA. by apply units_le.
  - intros Hl. apply (Z.mul_lt_mono_pos_r C); [done|]. eapply Z.le_lt_trans; [exact Hqy|]. eapply Z.lt_le_trans; [|exact HAC].
    apply Z.mul_lt_mono_pos_r; [done|]. eapply Z.lt_le_trans; [|exact Hx]. rewrite <-HuA. apply units_lt; [done|]. by apply Hlt.
Qed.

Lemma SFdiv_fits A C B x y :
  bound B -> fits A x -> valid y -> at_least C y -> 0 < C -> A * 2 ^ K <= B * C -> fits B (SFdiv 53 1024 x y).
Proof.
  intros HB Hx Hvy Hy HC HAC. destruct x as [sx|sx| |sx mx ex], y as [sy|sy| |sy my ey]; try (by destruct Hx); try done; cbn [SFdiv].
  pose proof (quotient_below A C B sx mx ex sy my ey Hx Hvy Hy HC HAC) as H2.
  pose proof (div_core_spec (Z.pos mx) ex (Z.pos my) ey ltac:(lia) ltac:(lia)) as H.
  destruct (SFdiv_core_binary 53 1024 (Z.pos mx) ex (Z.pos my) ey) as [[q e'] l]. cbv zeta in H.
  destruct H as (_ & Hq & _ & _ & Hf & _), H2 as (Hk & _ & _ & Hle & Hlt). by apply round_within.
Qed.

(** ** Bit patterns *)

Lemma of_bits_fields (s : bool) f m : 0 <= f < 2 ^ 11 -> 0 <= m < 2 ^ 52 ->
  let x := (if s then 2 ^ 63 else 0) + f * 2 ^ 52 + m in
  Z.testbit x 63 = s /\ x mod 2 ^ 52 = m /\ (x / 2 ^ 52) mod 2 ^ 11 = f.
Proof.
  intros Hf Hm x. set (h := (if s then 2 ^ 11 else 0) + f).
  assert (Hx : x = h * 2 ^ 52 + m) by (unfold x, h; destruct s; lia).
  assert (Hd : x / 2 ^ 52 = h) by (rewrite Hx; symmetry; apply (Z.div_unique_pos _ _ _ m); lia).
  split_and!.
  - rewrite Z.testbit_eqb by lia. change 63 with (52 + 11). rewrite Z.pow_add_r, <-Z.div_div, Hd by lia.
    assert (h / 2 ^ 11 = if s then 1 else 0) as ->; [|by destruct s].
    symmetry. unfold h. apply (Z.div_unique_pos _ _ _ f); [lia|]. destruct s; lia.
  - rewrite Hx. symmetry. apply (Z.mod_unique_pos _ _ h); lia.
  - rewrite Hd. unfold h. symmetry. apply (Z.mod_unique_pos _ _ (if s then 1 else 0)); [lia|]. destruct s; lia.
Qed.

Lemma of_bits_valid x : valid (of_bits binary64 x).
Proof.
  unfold of_bits. cbn [mw ew binary64]. change (min_exp binary64) with (-1074).
  pose proof (Z.mod_pos_bound x (2 ^ 52) ltac:(done)). pose proof (Z.mod_pos_bound (x / 2 ^ 52) (2 ^ 11) ltac:(done)).
  set (m := x mod 2 ^ 52) in *. set (f := (x / 2 ^ 52) mod 2 ^ 11) in *. clearbody m f.
  destruct (Z.eqb_spec f (2 ^ 11 - 1)); [by destruct (m =? 0)|].
  destruct (Z.eqb_spec f 0); [destruct (Z.eqb_spec m 0); [done|]|]; cbn [valid]; rewrite Z2Pos.id by lia; lia.
Qed.

(** The fields of a pattern determine its value. *)
Lemma of_bits_value (s : bool) f m : 0 <= f < 2 ^ 11 -> 0 <= m < 2 ^ 52 ->
  of_bits binary64 ((if s then 2 ^ 63 else 0) + f * 2 ^ 52 + m) =
    if f =? 2 ^ 11 - 1 then (if m =? 0 then S754_infinity s else S754_nan)
    else if f =? 0 then (if m =? 0 then S754_zero s else S754_finite s (Z.to_pos m) (-1074))
    else S754_finite s (Z.to_pos (m + 2 ^ 52)) (f - 1075).
Proof.
  intros Hf Hm. pose proof (of_bits_fields s f m Hf Hm) as H. cbv zeta in H. destruct H as (H1 & H2 & H3).
  unfold of_bits. cbn [mw ew binary64]. change (52 + 11) with 63. rewrite H1, H2, H3. change (min_exp binary64) with (-1074).
  destruct (f =? 2 ^ 11 - 1); [done|]. destruct (f =? 0); [done|]. f_equal. lia.
Qed.

Lemma of_to_bits x : valid x -> of_bits binary64 (to_bits binary64 x) = x.
Proof.
  destruct x as [s|s| |s m e]; unfold to_bits, sign_bit; cbn [mw ew binary64]; intros Hv; [by destruct s|by destruct s|done|].
  destruct Hv as (He & Hm & Hn). change (min_exp binary64) with (-1074). change (52 + 11) with 63.
  destruct (Z.ltb_spec (Z.pos m) (2 ^ 52)) as [Hlt|Hge].
  - destruct Hn as [->|]; [|lia]. pose proof (of_bits_value s 0 (Z.pos m) ltac:(lia) ltac:(lia)) as H.
    rewrite Z.mul_0_l, Z.add_0_r in H. by rewrite H.
  - pose proof (of_bits_value s (e + 1075) (Z.pos m - 2 ^ 52) ltac:(lia) ltac:(lia)) as H.
    replace (e - -1074 + 1) with (e + 1075) by lia. rewrite H.
    destruct (Z.eqb_spec (e + 1075) (2 ^ 11 - 1)); [lia|]. destruct (Z.eqb_spec (e + 1075) 0); [lia|].
    rewrite Z.sub_add. f_equal. lia.
Qed.

(** A [double] within [B] units, by its bits. *)
Definition double_within (B x : Z) : Prop := within B (of_bits binary64 x).

Lemma double_fits B x : double_within B x -> fits B (of_bits binary64 x).
Proof. intros H. split; [apply of_bits_valid|exact H]. Qed.

Lemma bits_within B v : fits B v -> double_within B (to_bits binary64 v).
Proof. intros [Hv Hw]. unfold double_within. by rewrite of_to_bits. Qed.

Lemma fadd_within A C B x y : bound B -> double_within A x -> double_within C y -> 0 <= A -> 0 <= C -> A + C <= B ->
  double_within B (fadd binary64 x y).
Proof. intros. apply bits_within. by eapply SFadd_fits; [|apply double_fits..| | |]. Qed.

Lemma fsub_within A C B x y : bound B -> double_within A x -> double_within C y -> 0 <= A -> 0 <= C -> A + C <= B ->
  double_within B (fsub binary64 x y).
Proof. intros. apply bits_within. by eapply SFsub_fits; [|apply double_fits..| | |]. Qed.

Lemma fmul_within A C B x y : bound B -> double_within A x -> double_within C y -> 0 <= A -> A * C <= B * 2 ^ K ->
  double_within B (fmul binary64 x y).
Proof. intros. apply bits_within. by eapply SFmul_fits; [|apply double_fits..| |]. Qed.

Lemma fdiv_within A C B x y :
  bound B -> double_within A x -> at_least C (of_bits binary64 y) -> 0 < C -> A * 2 ^ K <= B * C ->
  double_within B (fdiv binary64 x y).
Proof. intros. apply bits_within. by eapply SFdiv_fits; [|apply double_fits|apply of_bits_valid| | |]. Qed.

Lemma of_Z_within B n : bound B -> units (Z.abs n) 0 <= B -> double_within B (of_Z binary64 n).
Proof. intros. apply bits_within. by apply binary_normalize_fits. Qed.

(** Bounds: integers of the format, and multiples of powers of two. *)
Lemma bound_units M E : 0 <= M <= 2 ^ 53 -> -1074 <= E <= 970 -> bound (units M E).
Proof.
  intros HM HE. split; [exists M, E; split; [done|]; split; [exact HM|lia]|]. unfold units, K.
  etrans; [apply Z.mul_le_mono_nonneg_r; [apply Z.pow_nonneg; lia|exact (proj2 HM)]|].
  rewrite <-Z.pow_add_r by lia. apply Z.pow_le_mono_r; lia.
Qed.

(** ** Exact integers *)

Lemma round_sign s m e l : match round s m e l with S754_finite s' _ _ => s' = s | _ => True end.
Proof.
  unfold binary_round_aux. destruct (shr_fexp _ _ _ _ _) as [r e']. destruct (shr_fexp _ _ _ _ _) as [r2 e2].
  destruct (shr_m r2); [done| |done]. by destruct (_ <=? _).
Qed.

(** A mantissa of 53 bits is not rounded. *)
Lemma round_exact s m e : Zdigits2 (Z.pos m) = 53 -> -1074 <= e <= 971 -> round s (Z.pos m) e loc_Exact = S754_finite s m e.
Proof.
  intros Hd He.
  assert (Hs : shr_fexp 53 1024 (Z.pos m) e loc_Exact = ({| shr_m := Z.pos m; shr_r := false; shr_s := false |}, e)).
  { unfold shr_fexp. rewrite fexp_eq, Hd. replace (Z.max (53 + e - 53) (-1074) - e) with 0 by lia. done. }
  unfold binary_round_aux. rewrite Hs. cbn [shr_m loc_of_shr_record round_nearest_even]. rewrite Hs. cbn [shr_m].
  change (1024 - 53) with 971. by rewrite (proj2 (Z.leb_le _ _)) by lia.
Qed.

Lemma of_Z_exact n : 0 < n < 2 ^ 53 ->
  exists m e, of_bits binary64 (of_Z binary64 n) = S754_finite false m e /\ units (Z.pos m) e = units n 0.
Proof.
  intros Hn. destruct n as [|p|p]; [lia| |lia]. unfold of_Z. cbn [prec emax binary64 binary_normalize]. unfold binary_round.
  pose proof (Zdigits2_le (Z.pos p) 53 ltac:(lia) ltac:(lia)) as Hd. destruct (Zdigits2_spec (Z.pos p)) as (Hd0 & _); [lia|].
  cbn [Zdigits2] in Hd, Hd0. rewrite fexp_eq. set (e' := Z.max _ _). assert (He' : e' = Z.pos (digits2_pos p) - 53) by lia.
  pose proof (shl_align_spec p 0 e' ltac:(unfold K; lia) ltac:(unfold K; lia)) as H. destruct (shl_align p 0 e') as [m e].
  destruct H as (He & Hu & Hm). assert (Hdm : Zdigits2 (Z.pos m) = 53).
  { cbn [Zdigits2]. rewrite digits2_log2, Hm, Z.log2_mul_pow2 by lia. rewrite digits2_log2 in He'. lia. }
  rewrite round_exact by (done || lia). exists m, e. split; [|exact Hu]. apply of_to_bits. cbn [valid].
  destruct (Zdigits2_spec (Z.pos m)) as (_ & Hlo & Hhi); [lia|]. rewrite Hdm in Hlo, Hhi. change (53 - 1) with 52 in Hlo. lia.
Qed.

(** ** Powers of two as bounds *)

Definition pow2 (E : Z) : Z := units 1 E.

Lemma pow2_bound E : -1074 <= E <= 970 -> bound (pow2 E).
Proof. intros. by apply bound_units. Qed.

Lemma pow2_nonneg E : 0 <= pow2 E.
Proof. unfold pow2, units. rewrite Z.mul_1_l. by apply Z.pow_nonneg. Qed.

Lemma pow2_succ E : - K <= E -> pow2 E + pow2 E = pow2 (E + 1).
Proof. intros. unfold pow2. rewrite units_succ by done. unfold units. lia. Qed.

Lemma pow2_mul a b : - K <= a -> - K <= b -> - K <= a + b -> pow2 a * pow2 b = pow2 (a + b) * 2 ^ K.
Proof. intros. unfold pow2. by rewrite <-units_mul by done. Qed.

Lemma fadd_pow2 E x y : -1074 <= E <= 969 -> double_within (pow2 E) x -> double_within (pow2 E) y ->
  double_within (pow2 (E + 1)) (fadd binary64 x y).
Proof.
  intros. eapply fadd_within; [apply pow2_bound; lia|done|done|apply pow2_nonneg|apply pow2_nonneg|].
  rewrite pow2_succ; [done|unfold K; lia].
Qed.

Lemma fsub_pow2 E x y : -1074 <= E <= 969 -> double_within (pow2 E) x -> double_within (pow2 E) y ->
  double_within (pow2 (E + 1)) (fsub binary64 x y).
Proof.
  intros. eapply fsub_within; [apply pow2_bound; lia|done|done|apply pow2_nonneg|apply pow2_nonneg|].
  rewrite pow2_succ; [done|unfold K; lia].
Qed.

Lemma fmul_pow2 a b x y : -1074 <= a + b <= 970 -> - K <= a -> - K <= b -> double_within (pow2 a) x -> double_within (pow2 b) y ->
  double_within (pow2 (a + b)) (fmul binary64 x y).
Proof.
  intros. eapply fmul_within; [apply pow2_bound; lia|done|done|apply pow2_nonneg|].
  rewrite pow2_mul; [done|done|done|unfold K; lia].
Qed.

Lemma within_mono B B' x : B <= B' -> double_within B x -> double_within B' x.
Proof. intros Hle Hx. exact (proj2 (fits_mono B B' _ Hle (double_fits B x Hx))). Qed.

Lemma pow2_mono a b : - K <= a <= b -> pow2 a <= pow2 b.
Proof. intros. unfold pow2, units. rewrite !Z.mul_1_l. apply Z.pow_le_mono_r; lia. Qed.

Lemma units_pow2 n E k : - K <= E -> 0 <= k -> n <= 2 ^ k -> units n E <= pow2 (E + k).
Proof.
  intros. unfold pow2. rewrite <-(units_shift 1 (E + k) k) by lia. rewrite Z.mul_1_l. replace (E + k - k) with E by lia. by apply units_le.
Qed.

Lemma units_add k E : units k E + pow2 E = units (k + 1) E.
Proof. unfold pow2, units. lia. Qed.

Lemma units_div n E : - K <= E -> units n E * 2 ^ K = pow2 E * units n 0.
Proof. intros. unfold pow2. rewrite <-units_mul by (unfold K in *; lia). by rewrite Z.mul_1_l, Z.add_0_r. Qed.

(** ** Lower bounds *)

(** A positive number of the format that is not above the value. *)
Definition lower (L : Z) : Prop := exists M E, L = units M E /\ 0 < M <= 2 ^ 53 /\ -1074 <= E.

Lemma pow2_lower E : -1074 <= E -> lower (pow2 E).
Proof. intros. by exists 1, E. Qed.

(** Dropping bits below the precision does not go below it. *)
Lemma lower_mantissa L m e : lower L -> - K <= e -> (e <= -1074 \/ 2 ^ 52 <= m) ->
  (forall j, 0 <= j -> units j e = L -> j <= m) -> L <= units m e.
Proof.
  intros (M & E & -> & HM & HE) He Hm Hj. destruct (Z.le_gt_cases e E) as [Hle|Hgt].
  - assert (HL : units (M * 2 ^ (E - e)) e = units M E).
    { rewrite <-(units_shift M E (E - e)) by lia. f_equal. lia. }
    rewrite <-HL. apply units_le; [lia|]. apply Hj; [|done]. pose proof (Z.pow_nonneg 2 (E - e)). nia.
  - destruct Hm as [Hm|Hm]; [lia|]. etrans; [apply (units_le M (2 ^ 53) E); [unfold K; lia|lia]|].
    etrans; [|apply (units_le (2 ^ 52) m e); [unfold K; lia|lia]]. unfold units, K. rewrite <-!Z.pow_add_r by lia.
    apply Z.pow_le_mono_r; lia.
Qed.

Lemma renormalize_units m e : 0 <= m <= 2 ^ 53 -> -1074 <= e -> (e = -1074 \/ 2 ^ 52 <= m) ->
  let '(r, e') := shr_fexp 53 1024 m e loc_Exact in units (shr_m r) e' = units m e.
Proof.
  intros Hm He Hn. unfold shr_fexp. rewrite fexp_eq. cbn [shr_record_of_loc]. destruct (decide (m = 2 ^ 53)) as [->|Hne].
  - replace (Z.max (Zdigits2 (2 ^ 53) + e - 53) (-1074) - e) with 1 by (change (Zdigits2 (2 ^ 53)) with 54; lia).
    cbn [shr iter_pos]. change (shr_m (shr_1 {| shr_m := 2 ^ 53; shr_r := false; shr_s := false |})) with (2 ^ 52).
    rewrite units_succ by (unfold K; lia). done.
  - pose proof (Zdigits2_le m 53 ltac:(lia) ltac:(lia)).
    destruct (Z.max (Zdigits2 m + e - 53) (-1074) - e) eqn:E; [done|lia|done].
Qed.

Lemma round_at_least B L s m e l :
  bound B -> lower L -> 0 <= m -> - K <= e -> e <= fexp (Zdigits2 m + e) ->
  units m e <= B -> (l <> loc_Exact -> units m e < B) -> L <= units m e -> at_least L (round s m e l).
Proof.
  intros HB HL Hm He Hf Hle Hlt Hlow. pose proof (round_within B s m e l HB Hm He Hf Hle Hlt) as [_ Hw].
  revert Hw. unfold binary_round_aux, shr_fexp at 1 3.
  pose proof (shifted_mantissa m e Hm Hf) as Hsm. cbv zeta in Hsm. set (e1 := fexp _) in *.
  assert (Hrm : shr_m (shr_record_of_loc m l) = m) by (by destruct l as [|[]]).
  pose proof (shr_below B (shr_record_of_loc m l) e (e1 - e)) as Hs. rewrite Hrm in Hs.
  destruct (shr _ e (e1 - e)) as [r e'].
  destruct Hs as (-> & Hr & _); [lia|done|done|split; rewrite Hrm; [done|intros Hi; apply Hlt; by intros ->]|].
  replace (e + (e1 - e)) with e1 in * by lia. rewrite <-Hr in Hsm. destruct Hsm as [Hm1 Hn1].
  assert (He1 : -1074 <= e1) by (unfold e1; rewrite fexp_eq; lia). clearbody e1.
  assert (H1 : L <= units (shr_m r) e1).
  { apply lower_mantissa; [done|unfold K; lia|lia|]. intros j Hj HjL. rewrite Hr. apply Z.div_le_lower_bound; [apply Z.pow_pos_nonneg; lia|].
    rewrite <-HjL in Hlow. unfold units in Hlow. replace (e1 + K) with ((e1 - e) + (e + K)) in Hlow by lia.
    rewrite Z.pow_add_r, Z.mul_assoc in Hlow by lia. rewrite Z.mul_comm.
    apply Z.mul_le_mono_pos_r in Hlow; [done|]. apply Z.pow_pos_nonneg; lia. }
  set (m2 := round_nearest_even (shr_m r) (loc_of_shr_record r)).
  assert (H2 : shr_m r <= m2 <= shr_m r + 1) by (unfold m2; destruct (round_nearest_cases (shr_m r) (loc_of_shr_record r)) as [->|[_ ->]]; lia).
  pose proof (renormalize_units m2 e1 ltac:(lia) He1 ltac:(destruct Hn1; [by left|right; lia])) as H3.
  destruct (shr_fexp 53 1024 m2 e1 loc_Exact) as [r2 e2].
  assert (H4 : L <= units (shr_m r2) e2) by (rewrite H3; etrans; [exact H1|apply units_le; [unfold K; lia|lia]]).
  assert (Hpos : 0 < L).
  { destruct HL as (M & E & -> & HM & HE). unfold units. apply Z.mul_pos_pos; [lia|]. apply Z.pow_pos_nonneg; unfold K; lia. }
  destruct (shr_m r2) as [|p|p]; [unfold units in H4; lia| |unfold units in H4; pose proof (Z.pow_nonneg 2 (e2 + K)); nia].
  by destruct (_ <=? _).
Qed.

(** The quotient of a number that is at least [G] units by one within [D] units. *)
Lemma SFdiv_at_least B A C D G L x y :
  bound B -> fits A x -> valid y -> at_least C y -> within D y -> 0 < C -> A * 2 ^ K <= B * C ->
  lower L -> at_least G x -> 0 <= L -> L * D <= G * 2 ^ K -> at_least L (SFdiv 53 1024 x y).
Proof.
  intros HB Hx Hvy Hy Hyd HC HAC HL Hg HL0 HLD.
  destruct x as [sx|sx| |sx mx ex], y as [sy|sy| |sy my ey]; try done; cbn [SFdiv].
  pose proof (quotient_below A C B sx mx ex sy my ey Hx Hvy Hy HC HAC) as H2.
  pose proof (div_core_spec (Z.pos mx) ex (Z.pos my) ey ltac:(lia) ltac:(lia)) as H.
  cbn [within at_least] in Hyd, Hg. destruct Hvy as (Hey & Hmy & _).
  destruct (SFdiv_core_binary 53 1024 (Z.pos mx) ex (Z.pos my) ey) as [[q e'] l]. cbv zeta in H.
  destruct H as (Hs & Hq & [_ Hfl] & _ & Hf & _), H2 as (Hk1 & Hk2 & HuA & Hle & Hlt).
  apply (round_at_least B); [done|done|done|done|done|done|done|]. apply lower_mantissa; [done|done| |].
  - rewrite fexp_eq in Hf. destruct (Z.le_gt_cases e' (-1074)); [by left|right].
    destruct (decide (q = 0)) as [->|]; [cbn in Hf; lia|]. destruct (Zdigits2_spec q) as (_ & Hlo & _); [lia|].
    etrans; [|exact Hlo]. apply Z.pow_le_mono_r; lia.
  - intros j Hj HjL. apply Z.lt_succ_r, (Z.mul_lt_mono_pos_r (Z.pos my)); [lia|]. eapply Z.le_lt_trans; [|exact Hfl].
    assert (Hk : 0 < 2 ^ K) by (apply Z.pow_pos_nonneg; unfold K; lia).
    assert (Hu : units (j * Z.pos my) (e' + ey) * 2 ^ K <= units (Z.pos mx * 2 ^ (ex - ey - e')) (e' + ey) * 2 ^ K).
    { rewrite units_mul, HjL, HuA by (unfold K in *; lia). etrans; [apply Z.mul_le_mono_nonneg_l; [done|exact Hyd]|].
      etrans; [exact HLD|]. apply Z.mul_le_mono_pos_r; done. }
    apply Z.mul_le_mono_pos_r in Hu; [|done]. unfold units in Hu. apply Z.mul_le_mono_pos_r in Hu; [done|]. apply Z.pow_pos_nonneg; lia.
Qed.

Lemma fdiv_at_least B A C D G L x y :
  bound B -> double_within A x -> at_least C (of_bits binary64 y) -> double_within D y -> 0 < C -> A * 2 ^ K <= B * C ->
  lower L -> at_least G (of_bits binary64 x) -> 0 <= L -> L * D <= G * 2 ^ K -> at_least L (of_bits binary64 (fdiv binary64 x y)).
Proof.
  intros HB Hx Hy Hyd HC HAC HL Hg HL0 HLD. unfold fdiv, op2. cbn [prec emax binary64].
  rewrite of_to_bits by (exact (proj1 (SFdiv_fits A C B _ _ HB (double_fits A x Hx) (of_bits_valid y) Hy HC HAC))).
  exact (SFdiv_at_least B A C D G L _ _ HB (double_fits A x Hx) (of_bits_valid y) Hy Hyd HC HAC HL Hg HL0 HLD).
Qed.

(** Any positive integer, also one that is rounded, is at least 1. *)
Lemma of_Z_at_least n : 0 < n < 2 ^ 900 -> at_least (pow2 0) (of_bits binary64 (of_Z binary64 n)).
Proof.
  intros Hn. unfold of_Z. cbn [prec emax binary64]. destruct n as [|p|p]; [lia| |lia]. cbn [binary_normalize].
  assert (HB : bound (pow2 900)) by (apply pow2_bound; lia).
  assert (Hu : units (Z.pos p) 0 <= pow2 900) by (apply (units_pow2 (Z.pos p) 0 900); [unfold K; lia|lia|lia]).
  rewrite of_to_bits by (apply (binary_round_fits (pow2 900)); [done|unfold K; lia|done]).
  unfold binary_round. set (e' := fexp _). assert (He' : -1074 <= e') by (unfold e'; rewrite fexp_eq; lia).
  pose proof (shl_align_spec p 0 e' ltac:(unfold K; lia) ltac:(unfold K; lia)) as H. destruct (shl_align p 0 e') as [mz ez].
  destruct H as (Hez & Hum & Hm). apply (round_at_least (pow2 900)); [done|by apply pow2_lower|done|unfold K; lia| |by rewrite Hum|done|].
  - assert (Hdig : Zdigits2 (Z.pos mz) + ez = Z.pos (digits2_pos p) + 0).
    { cbn [Zdigits2]. rewrite !digits2_log2, Hm, Z.log2_mul_pow2 by lia. lia. }
    rewrite Hdig. fold e'. lia.
  - rewrite Hum. unfold pow2. apply units_le; [unfold K; lia|lia].
Qed.

Lemma fdiv_pow2 a b x y : -1074 <= a - b <= 970 -> - K <= a -> - K <= b -> double_within (pow2 a) x ->
  at_least (pow2 b) (of_bits binary64 y) -> double_within (pow2 (a - b)) (fdiv binary64 x y).
Proof.
  intros Hab Ha Hb Hx Hy. eapply (fdiv_within (pow2 a) (pow2 b)); [by apply pow2_bound|done|done| |].
  - unfold pow2, units. rewrite Z.mul_1_l. apply Z.pow_pos_nonneg; lia.
  - rewrite pow2_mul by (unfold K in *; lia). by replace (a - b + b) with a by lia.
Qed.

(** Truncation does not exceed a bound. *)
Lemma truncate_bound N m e : -1074 <= e -> units (Z.pos m) e <= units N 0 -> 0 <= truncate m e <= N.
Proof.
  intros Hv Hw. unfold units in Hw. rewrite Z.add_0_l in Hw. assert (Hk : 0 < 2 ^ K) by (apply Z.pow_pos_nonneg; unfold K; lia).
  unfold truncate. destruct (Z.leb_spec 0 e) as [He|He].
  - rewrite Z.pow_add_r, Z.mul_assoc in Hw by (unfold K; lia). apply Z.mul_le_mono_pos_r in Hw; [|done].
    pose proof (Z.pow_nonneg 2 e). nia.
  - assert (Hp : 0 < 2 ^ (- e)) by (apply Z.pow_pos_nonneg; lia). split; [by apply Z.div_pos|].
    assert (Hek : 2 ^ K = 2 ^ (- e) * 2 ^ (e + K)) by (rewrite <-Z.pow_add_r by (unfold K; lia); f_equal; lia).
    apply Z.div_le_upper_bound; [done|]. rewrite Hek in Hw.
    assert (0 < 2 ^ (e + K)) by (apply Z.pow_pos_nonneg; unfold K; lia).
    apply (Z.mul_le_mono_pos_r _ _ (2 ^ (e + K))); [done|]. lia.
Qed.

Lemma pow2_integer E : 0 <= E -> pow2 E = units (2 ^ E) 0.
Proof. intros. unfold pow2. rewrite <-(units_shift 1 E E) by (unfold K; lia). by rewrite Z.mul_1_l, Z.sub_diag. Qed.

End FloatLaws.
