(* ===== verification/TrackTypes.v ===== *)
(** The data of the planes after the receiver
    ([include/qdgz300/common/types.h], [include/qdgz300/common/constants.h]): plots,
    plot batches, tracks and track frames.  Floating-point fields are their bit
    patterns. *)

From S2P Require Import Prelude Float.
Open Scope Z_scope.

Module TrackTypes.

(** [TrackLifecycle], stored as [uint8_t]. *)
Definition TENTATIVE : Z := 0.
Definition CONFIRMED : Z := 1.
Definition COASTING : Z := 2.
Definition LOST : Z := 3.
Definition DELETED : Z := 4.

Record Plot := mkPlot {
  range_m : Z;
  azimuth_deg : Z;
  elevation_deg : Z;
  doppler_mps : Z;
  snr_db : Z;
  amplitude : Z;
  beam_id : Z;
  plot_array_id : Z;
}.

(** [plots] is [None] for [nullptr]. *)
Record PlotBatch := mkPlotBatch {
  pb_data_ts : Z;
  process_ts : Z;
  pb_array_id : Z;
  pb_cpi_seq : Z;
  plot_count : Z;
  pb_flags : Z;
  plots : option (list Plot);
}.

(** [padding] are the four bytes between [coast_frames] and [create_ts]. *)
Record Track := mkTrack {
  track_id : Z;
  pos_x : Z;
  pos_y : Z;
  pos_z : Z;
  vel_x : Z;
  vel_y : Z;
  vel_z : Z;
  heading_deg : Z;
  confidence : Z;
  lifecycle_state : Z;
  source_array_id : Z;
  handover_flag : Z;
  handover_from : Z;
  coast_frames : Z;
  padding : Z;
  create_ts : Z;
  update_ts : Z;
}.

#[export] Instance Track_eq_dec : EqDecision Track.
Proof. solve_decision. Defined.

Record TrackFrame := mkTrackFrame {
  frame_seq : Z;
  data_timestamp_ns : Z;
  backend_instance_id : Z;
  clock_domain : Z;
  coverage_mask : Z;
  track_count : Z;
  system_quality_flags : Z;
  is_truncated : bool;
  dropped_count : Z;
  tracks : option (list Track);
}.

(** The object representation of a [Track], 96 bytes. *)
Definition Track_layout : layout := [8;8;8;8;8;8;8;8;4;1;1;1;1;4;4;8;8]%nat.

Definition Track_fields (t : Track) : list Z :=
  [track_id t; pos_x t; pos_y t; pos_z t; vel_x t; vel_y t; vel_z t; heading_deg t; confidence t;
   lifecycle_state t; source_array_id t; handover_flag t; handover_from t; coast_frames t; padding t;
   create_ts t; update_ts t].

Definition Track_of_fields (vs : list Z) : Track :=
  match vs with
  | [a; b; c; d; e; f; g; h; i; j; k; l; m; n; o; p; q] => mkTrack a b c d e f g h i j k l m n o p q
  | _ => mkTrack 0 0 0 0 0 0 0 0 0 0 0 0 0 0 0 0 0
  end.

Definition Track_zero : Track := Track_of_fields [].

Definition Track_bytes (t : Track) : bytes := encode_fields Track_layout (Track_fields t).

(** Every field fits its width. *)
Definition Track_ok (t : Track) : Prop := fields_ok Track_layout (Track_fields t).

Definition sizeof_Track : nat := 96.

Lemma length_Track_bytes t : length (Track_bytes t) = sizeof_Track.
Proof. unfold Track_bytes. by rewrite length_encode_fields. Qed.

Lemma Track_of_bytes t rest :
  Track_ok t -> Track_of_fields (decode_fields Track_layout (Track_bytes t ++ rest)) = t.
Proof. intros Hok. unfold Track_bytes. rewrite decode_encode_fields by done. by destruct t. Qed.

End TrackTypes.
