(* ===== verification/SignalProc.v ===== *)
(** Signal processing (M02) on the CPU path: [PinnedBufferPool], [CudaStreamPool],
    [GpuPipeline] and the loop of [GpuDispatcher] ([src/m02_signal_proc/*.cpp]).  An operation on
    a queue is one step; the accesses inside it are interleaved in [SpscConcurrent]. *)

From S2P Require Import Prelude Float TrackTypes SpscQueue.
Open Scope Z_scope.

Module SignalProc.
Import Float TrackTypes BoundedQueue.

(** ** Definitions *)

Definition GPU_STREAM_COUNT : Z := 3.
Definition GPU_INFLIGHT_MAX : Z := 2.
Definition T_GPU_MAX_MS : Z := 50.

Definition FLAG_INCOMPLETE_FRAME : Z := 1.
Definition FLAG_GPU_TIMEOUT : Z := 8.

(** [RawBlock] of [types.h]; [payload] is [None] for [nullptr]. *)
Record RawBlock := mkRawBlock {
  ingest_ts : Z;
  data_ts : Z;
  array_id : Z;
  cpi_seq : Z;
  fragment_count : Z;
  data_size : Z;
  flags : Z;
  payload : option bytes;
}.

Inductive ErrorCode := OK | GPU_H2D_FAILED.

#[export] Instance ErrorCode_eq_dec : EqDecision ErrorCode.
Proof. solve_decision. Defined.

(** *** Detection *)

(** [100.0f], [20.0f]. *)
Definition kAmplitudeThreshold : Z := 0x42C80000.
Definition f20 : Z := 0x41A00000.
Definition kMaxPlotsPerCpi : nat := 512.

Definition align_up (value alignment : Z) : Z := (u64 (value + alignment - 1) / alignment) * alignment.

(** [std::log10] of a [float]. *)
Class Log10 := { log10f : Z -> Z }.

Section Pipeline.

Context `{Log10}.

(** The [float] at byte offset [4 * i]. *)
Definition iq_at (bs : bytes) (i : nat) : Z := le_load (take 4 (drop (4 * i) bs)).

Definition sample_amplitude (bs : bytes) (i : nat) : Z :=
  let i_sample := iq_at bs (2 * i) in
  let q_sample := iq_at bs (2 * i + 1) in
  fsqrt binary32 (fadd binary32 (fmul binary32 i_sample i_sample) (fmul binary32 q_sample q_sample)).

Definition sample_plot (aid : Z) (i : nat) (amp : Z) : Plot :=
  mkPlot (of_Z binary64 (Z.of_nat i)) 0 0 0
    (fmul binary32 f20 (log10f (fdiv binary32 amp kAmplitudeThreshold))) amp 0 aid.

(** The detection loop; [n] samples are left, [detected] is the number of plots. *)
Fixpoint detect (bs : bytes) (aid : Z) (n i : nat) (detected : list Plot) : list Plot :=
  match n with
  | O => detected
  | S n =>
    if (length detected <? kMaxPlotsPerCpi)%nat then
      let amp := sample_amplitude bs i in
      if fleb binary32 amp kAmplitudeThreshold then detect bs aid n (S i) detected
      else detect bs aid n (S i) (detected ++ [sample_plot aid i amp])
    else detected
  end.

(** [num_samples]. *)
Definition num_samples (b : RawBlock) : nat :=
  let iq_pair_bytes := 8 in
  let usable_bytes :=
    match payload b with
    | Some _ => if iq_pair_bytes <=? data_size b then data_size b / iq_pair_bytes * iq_pair_bytes else 0
    | None => 0
    end in
  Z.to_nat (usable_bytes / iq_pair_bytes).

(** The batch of a block, [now] being the clock when it is made. *)
Definition batch_of (now : Z) (b : RawBlock) : PlotBatch :=
  let detected := detect (default [] (payload b)) (array_id b) (num_samples b) 0 [] in
  mkPlotBatch (data_ts b) now (array_id b) (cpi_seq b) (u16 (Z.of_nat (length detected)))
    (if Z.land (flags b) FLAG_INCOMPLETE_FRAME =? 0 then 0 else FLAG_INCOMPLETE_FRAME)
    (match detected with [] => None | _ => Some detected end).

(** *** Slots *)

Record InflightSlot := mkInflightSlot {
  input : option RawBlock;
  output : option PlotBatch;
  occupied : bool;
  completed : bool;
  submit_time : Z;
}.

Definition slot_free : InflightSlot := mkInflightSlot None None false false 0.

(** [inflight_[stream][slot]]. *)
Abbreviation Inflight := (list (list InflightSlot)).

Definition GpuPipeline_init : Inflight := replicate 3 (replicate 2 slot_free).

Fixpoint first_free (l : list InflightSlot) : option nat :=
  match l with
  | [] => None
  | s :: l => if negb (occupied s) then Some 0%nat else S <$> first_free l
  end.

(** [find_free_slot]; [None] for [-1]. *)
Definition find_free_slot (stream_id : Z) (p : Inflight) : option nat :=
  if GPU_STREAM_COUNT <=? stream_id then None
  else first_free (default [] (p !! Z.to_nat stream_id)).

(** [submit_cpi]; [now] and [later] are the two readings of the clock, [alloc] tells
    whether both allocations succeed. *)
Definition submit_cpi (now later : Z) (alloc : bool) (block : option RawBlock) (stream_id : Z) (p : Inflight)
    : ErrorCode * Inflight :=
  match block with
  | None => (GPU_H2D_FAILED, p)
  | Some b =>
    if GPU_STREAM_COUNT <=? stream_id then (GPU_H2D_FAILED, p)
    else
      match find_free_slot stream_id p with
      | None => (GPU_H2D_FAILED, p)
      | Some slot_idx =>
        if negb alloc then (GPU_H2D_FAILED, p)
        else
          (OK, alter (<[slot_idx := mkInflightSlot (Some b) (Some (batch_of now b)) true true later]>)
                 (Z.to_nat stream_id) p)
      end
  end.

(** The loop of [poll_completion]: the result and the slots. *)
Fixpoint poll_slots (l : list InflightSlot) : option (option PlotBatch) * list InflightSlot :=
  match l with
  | [] => (None, [])
  | s :: l =>
    if negb (occupied s) || negb (completed s)
    then let '(r, l) := poll_slots l in (r, s :: l)
    else (Some (output s), slot_free :: l)
  end.

(** [poll_completion] with a non-null result pointer: [None] for [false]. *)
Definition poll_completion (stream_id : Z) (p : Inflight) : option (option PlotBatch) * Inflight :=
  if GPU_STREAM_COUNT <=? stream_id then (None, p)
  else
    let '(r, l) := poll_slots (default [] (p !! Z.to_nat stream_id)) in
    (r, <[Z.to_nat stream_id := l]> p).

(** Milliseconds between two readings of the clock in nanoseconds. *)
Definition elapsed_ms (now t : Z) : Z := Z.quot (now - t) 1000000.

Definition timeout_slot (now : Z) (s : InflightSlot) : InflightSlot :=
  if negb (occupied s) then s
  else if elapsed_ms now (submit_time s) <=? T_GPU_MAX_MS then s
  else slot_free.

Definition handle_timeout (now stream_id : Z) (p : Inflight) : Inflight :=
  if GPU_STREAM_COUNT <=? stream_id then p
  else alter (fmap (timeout_slot now)) (Z.to_nat stream_id) p.

Definition inflight_count (stream_id : Z) (p : Inflight) : Z :=
  if GPU_STREAM_COUNT <=? stream_id then 0
  else Z.of_nat (count_true (occupied <$> default [] (p !! Z.to_nat stream_id))).

Definition has_timeout (now stream_id : Z) (p : Inflight) : bool :=
  if GPU_STREAM_COUNT <=? stream_id then false
  else existsb (fun s => occupied s && negb (completed s) && (T_GPU_MAX_MS <? elapsed_ms now (submit_time s)))
         (default [] (p !! Z.to_nat stream_id)).

(** *** Dispatcher *)

Context {QR QP : Type} `{BoundedQueue RawBlock QR} `{BoundedQueue PlotBatch QP}.

Record SignalProcMetrics := mkSignalProcMetrics {
  gpu_frames_submitted : Z;
  gpu_frames_completed : Z;
  gpu_timeout_total : Z;
}.

(** The dispatcher and, for each stream, the blocks it has taken and the batches it
    has pushed. *)
Record GpuDispatcher := mkGpuDispatcher {
  rawcpi_qs_ : list QR;
  plots_qs_ : list QP;
  pipeline_ : Inflight;
  metrics_ : SignalProcMetrics;
  rr_index_ : Z;
  taken : list (list RawBlock);
  pushed : list (list PlotBatch);
}.

(** The clock readings of a visit (time-out check, batch, slot) and whether memory is
    available. *)
Record VisitInput := mkVisitInput { vi_check : Z; vi_batch : Z; vi_slot : Z; vi_alloc : bool }.

Definition add_completed (m : SignalProcMetrics) : SignalProcMetrics :=
  mkSignalProcMetrics (gpu_frames_submitted m) (inc64 (gpu_frames_completed m)) (gpu_timeout_total m).
Definition add_timeouts (n : Z) (m : SignalProcMetrics) : SignalProcMetrics :=
  mkSignalProcMetrics (gpu_frames_submitted m) (gpu_frames_completed m) (gpu_timeout_total m +[64] n).
Definition add_submitted (m : SignalProcMetrics) : SignalProcMetrics :=
  mkSignalProcMetrics (inc64 (gpu_frames_submitted m)) (gpu_frames_completed m) (gpu_timeout_total m).

(** The result of the poll goes to the output queue. *)
Definition push_result (r : option (option PlotBatch)) (k : nat) (pqs : list QP) (m : SignalProcMetrics)
    (pu : list (list PlotBatch)) : option (list QP * SignalProcMetrics * list (list PlotBatch)) :=
  match r with
  | Some (Some result) =>
    q ← pqs !! k;
    '(_, q) ← bq_push q result;
    Some (<[k := q]> pqs, add_completed m, alter (fun l => l ++ [result]) k pu)
  | _ => Some (pqs, m, pu)
  end.

(** The body of the loop over the streams; [None] if a queue does not exist or a push
    does not return. *)
Definition visit (inp : VisitInput) (q_idx : Z) (d : GpuDispatcher) : option GpuDispatcher :=
  let '(mkGpuDispatcher rqs pqs pl m rr tk pu) := d in
  let k := Z.to_nat q_idx in
  let '(r, pl) := poll_completion q_idx pl in
  '(pqs, m, pu) ← push_result r k pqs m pu;
  let before := inflight_count q_idx pl in
  let pl := handle_timeout (vi_check inp) q_idx pl in
  let after := inflight_count q_idx pl in
  let m := if after <? before then add_timeouts (before - after) m else m in
  if GPU_INFLIGHT_MAX <=? after then Some (mkGpuDispatcher rqs pqs pl m rr tk pu)
  else
    q ← rqs !! k;
    let '(block_opt, q) := bq_pop q in
    let rqs := <[k := q]> rqs in
    match block_opt with
    | None => Some (mkGpuDispatcher rqs pqs pl m rr tk pu)
    | Some block =>
      let tk := alter (fun l => l ++ [block]) k tk in
      let '(ec, pl) := submit_cpi (vi_batch inp) (vi_slot inp) (vi_alloc inp) (Some block) q_idx pl in
      let m := if bool_decide (ec = OK) then add_submitted m else m in
      Some (mkGpuDispatcher rqs pqs pl m rr tk pu)
    end.

(** One round of the loop of [run]. *)
Definition pass (inp : Z -> VisitInput) (d : GpuDispatcher) : option GpuDispatcher :=
  let rr := rr_index_ d in
  d ← visit (inp 0) (u8 ((rr + 0) `mod` GPU_STREAM_COUNT)) d;
  d ← visit (inp 1) (u8 ((rr + 1) `mod` GPU_STREAM_COUNT)) d;
  d ← visit (inp 2) (u8 ((rr + 2) `mod` GPU_STREAM_COUNT)) d;
  let '(mkGpuDispatcher rqs pqs pl m _ tk pu) := d in
  Some (mkGpuDispatcher rqs pqs pl m (u8 ((rr + 1) `mod` GPU_STREAM_COUNT)) tk pu).

(** The loop, with a producer that pushes blocks and a consumer that pops batches. *)
Inductive DispatchOp :=
  | Pass (inp : Z -> VisitInput)
  | Produce (k : nat) (b : RawBlock)
  | Consume (k : nat).

Definition dispatch_step (op : DispatchOp) (d : GpuDispatcher) : option GpuDispatcher :=
  match op with
  | Pass inp => pass inp d
  | Produce k b =>
    let '(mkGpuDispatcher rqs pqs pl m rr tk pu) := d in
    q ← rqs !! k;
    '(_, q) ← bq_push q b;
    Some (mkGpuDispatcher (<[k := q]> rqs) pqs pl m rr tk pu)
  | Consume k =>
    let '(mkGpuDispatcher rqs pqs pl m rr tk pu) := d in
    q ← pqs !! k;
    Some (mkGpuDispatcher rqs (<[k := snd (bq_pop q)]> pqs) pl m rr tk pu)
  end.

Fixpoint run_dispatcher (ops : list DispatchOp) (d : GpuDispatcher) : option GpuDispatcher :=
  match ops with
  | [] => Some d
  | op :: ops => d ← dispatch_step op d; run_dispatcher ops d
  end.

Definition GpuDispatcher_init (rqs : list QR) (pqs : list QP) : GpuDispatcher :=
  mkGpuDispatcher rqs pqs GpuPipeline_init (mkSignalProcMetrics 0 0 0) 0 (replicate 3 []) (replicate 3 []).

End Pipeline.

(** *** Pinned buffers *)

(** [h2d_buffers_] and [d2h_buffers_] are addresses, [None] for [nullptr]. *)
Record PinnedBufferPool := mkPinnedBufferPool {
  h2d_buffers_ : option Z;
  d2h_buffers_ : option Z;
  cpi_size_ : Z;
  stream_count_ : Z;
  pingpong_depth_ : Z;
}.

Definition destroy (p : PinnedBufferPool) : PinnedBufferPool := mkPinnedBufferPool None None 0 0 0.

(** [init]: [h2d] and [d2h] are what [aligned_alloc] returns; the second result is the
    number of bytes asked for. *)
Definition init (h2d d2h : option Z) (cpi_size stream_count pingpong_depth : Z) (p : PinnedBufferPool)
    : PinnedBufferPool * Z :=
  let _ := destroy p in
  let total := u64 (u64 (cpi_size * stream_count) * pingpong_depth) in
  (mkPinnedBufferPool h2d d2h cpi_size stream_count pingpong_depth, align_up total 64).

Definition get_buffer (base : option Z) (p : PinnedBufferPool) (stream_id slot : Z) : option Z :=
  match base with
  | None => None
  | Some b =>
    if (stream_count_ p <=? stream_id) || (pingpong_depth_ p <=? slot) then None
    else Some (b + (stream_id * pingpong_depth_ p + slot) * cpi_size_ p)
  end.

Definition get_h2d_buffer (p : PinnedBufferPool) : Z -> Z -> option Z := get_buffer (h2d_buffers_ p) p.
Definition get_d2h_buffer (p : PinnedBufferPool) : Z -> Z -> option Z := get_buffer (d2h_buffers_ p) p.

(** ** Properties of the dispatcher *)

Section Dispatching.

Context `{Log10} {QR QP : Type} `{BoundedQueue RawBlock QR} `{BoundedQueue PlotBatch QP}.

(** A slot that holds nothing, or a completed batch. *)
Definition slot_holds (s : InflightSlot) (pend : option PlotBatch) : Prop :=
  match pend with
  | None => s = slot_free
  | Some pb => occupied s = true /\ completed s = true /\ output s = Some pb
  end.

(** What stream [k] holds: the blocks in its queue, the blocks taken, the batch in
    the pipeline and the batches pushed.  Only the first slot is ever used. *)
Definition stream_is (d : GpuDispatcher) (k : nat) (inq tk : list RawBlock) (pend : option PlotBatch)
    (pu : list PlotBatch) : Prop :=
  exists rq pq s,
    rawcpi_qs_ d !! k = Some rq /\ bq_inv rq /\ bq_contents rq = inq /\
    plots_qs_ d !! k = Some pq /\ bq_inv pq /\
    pipeline_ d !! k = Some [s; slot_free] /\ slot_holds s pend /\
    taken d !! k = Some tk /\ pushed d !! k = Some pu.

Definition batch_rel (b : RawBlock) (pb : PlotBatch) : Prop := exists now, pb = batch_of now b.

Lemma poll_completion_spec k s pend (p : list (list InflightSlot)) :
  (k < 3)%nat -> p !! k = Some [s; slot_free] -> slot_holds s pend ->
  poll_completion (Z.of_nat k) p = (Some <$> pend, <[k := [slot_free; slot_free]]> p).
Proof.
  intros Hk Hp Hs. unfold poll_completion.
  case_tests; [unfold GPU_STREAM_COUNT in *; lia|]. rewrite Nat2Z.id, Hp. cbn [default from_option id].
  destruct pend as [pb|]; cbn [slot_holds] in Hs.
  - destruct Hs as (Ho & Hc & Hout). cbn [poll_slots]. rewrite Ho, Hc, Hout. done.
  - subst s. done.
Qed.

(** After the poll both slots are free, so the time-out check finds nothing. *)
Lemma after_poll k (p : list (list InflightSlot)) :
  (k < 3)%nat -> p !! k = Some [slot_free; slot_free] ->
  inflight_count (Z.of_nat k) p = 0 /\ (forall now, handle_timeout now (Z.of_nat k) p = p).
Proof.
  intros Hk Hp. unfold inflight_count, handle_timeout.
  case_tests; [unfold GPU_STREAM_COUNT in *; lia|]. rewrite Nat2Z.id, Hp. split; [done|].
  intros now. apply list_eq. intros i. destruct (decide (i = k)) as [->|Hi].
  - by rewrite list_lookup_alter_eq, Hp.
  - by rewrite list_lookup_alter_ne.
Qed.

Lemma submit_cpi_free now later k b (p : list (list InflightSlot)) :
  (k < 3)%nat -> p !! k = Some [slot_free; slot_free] ->
  exists s, submit_cpi now later true (Some b) (Z.of_nat k) p = (OK, <[k := [s; slot_free]]> p) /\
    slot_holds s (Some (batch_of now b)).
Proof.
  intros Hk Hp. unfold submit_cpi, find_free_slot.
  case_tests; [unfold GPU_STREAM_COUNT in *; lia|]. rewrite Nat2Z.id, Hp.
  exists (mkInflightSlot (Some b) (Some (batch_of now b)) true true later).
  split; [|by cbn]. cbn [default from_option id first_free slot_free occupied negb]. f_equal.
  apply list_eq. intros i. destruct (decide (i = k)) as [->|Hi].
  - rewrite list_lookup_alter_eq, Hp, list_lookup_insert_eq by (by eapply lookup_lt_Some). done.
  - by rewrite list_lookup_alter_ne, list_lookup_insert_ne.
Qed.

Lemma push_result_spec k pend pqs m (pus : list (list PlotBatch)) pq pu :
  pqs !! k = Some pq -> bq_inv pq -> pus !! k = Some pu ->
  exists pqs' m' pus' pq', push_result (Some <$> pend) k pqs m pus = Some (pqs', m', pus') /\
    pqs' !! k = Some pq' /\ bq_inv pq' /\ pus' !! k = Some (pu ++ option_list pend) /\
    (forall j, j <> k -> pqs' !! j = pqs !! j /\ pus' !! j = pus !! j) /\
    gpu_timeout_total m' = gpu_timeout_total m.
Proof.
  intros Hpq Hi Hpu. destruct pend as [pb|]; cbn [push_result fmap option_fmap option_map option_list].
  - rewrite Hpq. cbn [mbind option_bind].
    destruct (bq_push_law pq pb Hi) as (b & q' & -> & Hq' & _). cbn [mbind option_bind].
    eexists _, _, _, q'. split; [reflexivity|]. pose proof (lookup_lt_Some _ _ _ Hpq).
    rewrite list_lookup_insert_eq, list_lookup_alter_eq, Hpu by done. split_and!; try done.
    intros j Hj. by rewrite list_lookup_insert_ne, list_lookup_alter_ne.
  - eexists _, _, _, pq. rewrite app_nil_r. by split_and!.
Qed.

(** The batch of the previous visit is pushed and the next block is taken. *)
Lemma visit_spec inp k d inq tk pend pu :
  (k < 3)%nat -> vi_alloc inp = true -> stream_is d k inq tk pend pu ->
  exists d', visit inp (Z.of_nat k) d = Some d' /\
    stream_is d' k (tail inq) (tk ++ option_list (head inq)) (batch_of (vi_batch inp) <$> head inq)
      (pu ++ option_list pend) /\
    (forall j inq tk pend pu, j <> k -> stream_is d j inq tk pend pu -> stream_is d' j inq tk pend pu) /\
    rr_index_ d' = rr_index_ d /\
    gpu_timeout_total (metrics_ d') = gpu_timeout_total (metrics_ d).
Proof.
  intros Hk Ha (rq & pq & s & Hrq & Hrqi & Hin & Hpq & Hpqi & Hpl & Hs & Htk & Hpu).
  destruct d as [rqs pqs pl m rr tks pus]. cbn in Hrq, Hpq, Hpl, Htk, Hpu. unfold visit. rewrite Nat2Z.id.
  rewrite (poll_completion_spec k s pend pl Hk Hpl Hs).
  pose proof (lookup_lt_Some _ _ _ Hpl) as Hlen. pose proof (lookup_lt_Some _ _ _ Hrq) as Hlr.
  set (pl1 := <[k := _]> pl).
  assert (Hpl1 : pl1 !! k = Some [slot_free; slot_free]) by (by apply list_lookup_insert_eq).
  destruct (after_poll k pl1 Hk Hpl1) as [Hc Ht].
  destruct (push_result_spec k pend pqs m pus pq pu Hpq Hpqi Hpu)
    as (pqs' & m' & pus' & pq' & -> & Hpq' & Hpqi' & Hpu' & Hoth & Hm). cbn [mbind option_bind].
  rewrite Ht, Hc. change (GPU_INFLIGHT_MAX <=? 0) with false. change (0 <? 0) with false. cbv iota.
  rewrite Hrq. cbn [mbind option_bind].
  destruct (bq_pop_law rq Hrqi) as (Hri & Hp & _). destruct (bq_pop rq) as [r rq']. cbn [fst snd] in *.
  rewrite Hin in Hp. destruct inq as [|b inq]; cbn [Fifo.fifo_pop] in Hp; injection Hp as -> Hcont;
    cbn [head tail option_list fmap option_fmap option_map].
  - eexists. split; [reflexivity|]. split_and!; [| |done|done].
    + exists rq', pq', slot_free. cbn [rawcpi_qs_ plots_qs_ pipeline_ taken pushed].
      rewrite list_lookup_insert_eq, app_nil_r by done. by split_and!.
    + intros j inq' tk' pend' pu' Hj (rq2 & pq2 & s2 & Hx). cbn [rawcpi_qs_ plots_qs_ pipeline_ taken pushed] in Hx.
      exists rq2, pq2, s2. cbn [rawcpi_qs_ plots_qs_ pipeline_ taken pushed]. destruct (Hoth j Hj) as [-> ->].
      unfold pl1. rewrite !list_lookup_insert_ne by done. done.
  - destruct (submit_cpi_free (vi_batch inp) (vi_slot inp) k b pl1 Hk Hpl1) as (s' & Hsub & Hs').
    rewrite Ha, Hsub. eexists. split; [reflexivity|]. split_and!; [| |done|done].
    + exists rq', pq', s'. cbn [rawcpi_qs_ plots_qs_ pipeline_ taken pushed].
      rewrite list_lookup_insert_eq, list_lookup_alter_eq, Htk by done.
      rewrite list_lookup_insert_eq by (unfold pl1; by rewrite length_insert). by split_and!.
    + intros j inq' tk' pend' pu' Hj (rq2 & pq2 & s2 & Hx). cbn [rawcpi_qs_ plots_qs_ pipeline_ taken pushed] in Hx.
      exists rq2, pq2, s2. cbn [rawcpi_qs_ plots_qs_ pipeline_ taken pushed]. destruct (Hoth j Hj) as [-> ->].
      unfold pl1. rewrite !list_lookup_insert_ne, list_lookup_alter_ne by done. done.
Qed.

(** All three streams are in order, and the stream to visit first is one of them. *)
Definition dispatcher_ok (d : GpuDispatcher) : Prop :=
  0 <= rr_index_ d < 3 /\ gpu_timeout_total (metrics_ d) = 0 /\
  forall k, (k < 3)%nat -> exists inq tk pend pu, stream_is d k inq tk pend pu.

Definition pass_input_ok (inp : Z -> VisitInput) : Prop := forall i, vi_alloc (inp i) = true.

(** One visit, within a round: stream [k] moves on and the others stay. *)
Lemma visit_ok inp k d :
  (k < 3)%nat -> vi_alloc inp = true -> dispatcher_ok d ->
  exists d', visit inp (Z.of_nat k) d = Some d' /\ dispatcher_ok d' /\ rr_index_ d' = rr_index_ d /\
    (forall inq tk pend pu, stream_is d k inq tk pend pu ->
      stream_is d' k (tail inq) (tk ++ option_list (head inq)) (batch_of (vi_batch inp) <$> head inq)
        (pu ++ option_list pend)) /\
    (forall j inq tk pend pu, j <> k -> stream_is d j inq tk pend pu -> stream_is d' j inq tk pend pu).
Proof.
  intros Hk Ha (Hrr & Ht & Hall). destruct (Hall k Hk) as (inq & tk & pend & pu & Hst).
  destruct (visit_spec inp k d inq tk pend pu Hk Ha Hst) as (d' & E & Hs & Hoth & Hr & Hm).
  exists d'. split_and!; [done| |done| |done].
  - split; [by rewrite Hr|]. split; [by rewrite Hm|]. intros j Hj. destruct (decide (j = k)) as [->|Hjk].
    + by eexists _, _, _, _.
    + destruct (Hall j Hj) as (? & ? & ? & ? & ?). eexists _, _, _, _. by apply Hoth.
  - intros inq' tk' pend' pu' Hst'. destruct (visit_spec inp k d _ _ _ _ Hk Ha Hst') as (d2 & E2 & Hs2 & _).
    rewrite E in E2. by injection E2 as <-.
Qed.

Lemma pass_spec inp d :
  pass_input_ok inp -> dispatcher_ok d ->
  exists d', pass inp d = Some d' /\ dispatcher_ok d' /\
    forall k inq tk pend pu, (k < 3)%nat -> stream_is d k inq tk pend pu ->
      exists now, stream_is d' k (tail inq) (tk ++ option_list (head inq)) (batch_of now <$> head inq)
        (pu ++ option_list pend).
Proof.
  intros Ha Hd.
  assert (exists a b c, (a < 3 /\ b < 3 /\ c < 3 /\ a <> b /\ b <> c /\ a <> c)%nat /\
    u8 ((rr_index_ d + 0) `mod` GPU_STREAM_COUNT) = Z.of_nat a /\
    u8 ((rr_index_ d + 1) `mod` GPU_STREAM_COUNT) = Z.of_nat b /\
    u8 ((rr_index_ d + 2) `mod` GPU_STREAM_COUNT) = Z.of_nat c) as (a & b & c & Habc & Ea & Eb & Ec).
  { destruct Hd as [Hrr _]. assert (rr_index_ d = 0 \/ rr_index_ d = 1 \/ rr_index_ d = 2) as [->|[->| ->]] by lia.
    - exists 0%nat, 1%nat, 2%nat. split; [lia|done].
    - exists 1%nat, 2%nat, 0%nat. split; [lia|done].
    - exists 2%nat, 0%nat, 1%nat. split; [lia|done]. }
  unfold pass. rewrite Ea, Eb, Ec.
  destruct (visit_ok (inp 0) a d) as (d1 & -> & Hd1 & Hr1 & Hs1 & Ho1); [lia|apply Ha|done|]. cbn [mbind option_bind].
  destruct (visit_ok (inp 1) b d1) as (d2 & -> & Hd2 & Hr2 & Hs2 & Ho2); [lia|apply Ha|done|]. cbn [mbind option_bind].
  destruct (visit_ok (inp 2) c d2) as (d3 & -> & Hd3 & Hr3 & Hs3 & Ho3); [lia|apply Ha|done|]. cbn [mbind option_bind].
  destruct d3 as [rqs pqs pl m rr tks pus]. eexists. split; [reflexivity|].
  set (d' := mkGpuDispatcher _ _ _ _ _ _ _).
  assert (Hsame : forall k inq tk pend pu,
    stream_is (mkGpuDispatcher rqs pqs pl m rr tks pus) k inq tk pend pu -> stream_is d' k inq tk pend pu) by done.
  split.
  - destruct Hd3 as (_ & Ht & Hall). split_and!; [| |done|].
    1,2: unfold d'; cbn [rr_index_]; lia.
    intros k Hk. destruct (Hall k Hk) as (? & ? & ? & ? & ?). by eexists _, _, _, _.
  - intros k inq tk pend pu Hk Hst.
    assert (k = a \/ k = b \/ k = c) as [->|[->| ->]] by lia.
    + exists (vi_batch (inp 0)). by apply Hsame, Ho3, Ho2, Hs1; try lia.
    + exists (vi_batch (inp 1)). by apply Hsame, Ho3, Hs2, Ho1; try lia.
    + exists (vi_batch (inp 2)). by apply Hsame, Hs3, Ho2, Ho1; try lia.
Qed.

(** The blocks that arrive on stream [k]. *)
Definition produced (k : nat) (op : DispatchOp) : list RawBlock :=
  match op with Produce j b => if bool_decide (j = k) then [b] else [] | _ => [] end.

Definition op_ok (op : DispatchOp) : Prop :=
  match op with Pass inp => pass_input_ok inp | Produce k _ | Consume k => (k < 3)%nat end.

(** The blocks taken match the batches made, and come from the blocks produced. *)
Definition stream_inv (d : GpuDispatcher) (prod : list RawBlock) (k : nat) : Prop :=
  exists inq tk pend pu, stream_is d k inq tk pend pu /\
    Forall2 batch_rel tk (pu ++ option_list pend) /\ (tk ++ inq) `sublist_of` prod.

Lemma stream_inv_next d' prod k now inq tk pend pu :
  Forall2 batch_rel tk (pu ++ option_list pend) -> (tk ++ inq) `sublist_of` prod ->
  stream_is d' k (tail inq) (tk ++ option_list (head inq)) (batch_of now <$> head inq) (pu ++ option_list pend) ->
  stream_inv d' prod k.
Proof.
  intros Hf Hsub Hst. eexists _, _, _, _. split; [exact Hst|]. destruct inq as [|b inq]; cbn in Hst |- *.
  - rewrite !app_nil_r in *. done.
  - split; [apply Forall2_app; [done|by repeat constructor; eexists]|]. by rewrite <-app_assoc.
Qed.

Lemma stream_inv_mono d prod prod' k :
  prod `sublist_of` prod' -> stream_inv d prod k -> stream_inv d prod' k.
Proof. intros Hp (inq & tk & pend & pu & Hst & Hf & Hs). exists inq, tk, pend, pu. split_and!; [done..|]. by etrans. Qed.

Lemma produce_ok d k b :
  (k < 3)%nat -> dispatcher_ok d ->
  exists d', dispatch_step (Produce k b) d = Some d' /\ dispatcher_ok d' /\
    (forall j prod, (j < 3)%nat -> stream_inv d prod j -> stream_inv d' (prod ++ produced j (Produce k b)) j).
Proof.
  intros Hk (Hrr & Ht & Hall). destruct (Hall k Hk) as (inq & tk & pend & pu & rq & pq & s & Hrq & Hrqi & Hin & Hst).
  destruct d as [rqs pqs pl m rr tks pus]. cbn [dispatch_step]. cbn [rawcpi_qs_] in Hrq. rewrite Hrq. cbn [mbind option_bind].
  destruct (bq_push_law rq b Hrqi) as (ok & rq' & -> & Hrqi' & Hc & _). cbn [mbind option_bind].
  pose proof (lookup_lt_Some _ _ _ Hrq) as Hlr.
  assert (Hstep : forall j inq tk pend pu, stream_is (mkGpuDispatcher rqs pqs pl m rr tks pus) j inq tk pend pu ->
    exists inq', stream_is (mkGpuDispatcher (<[k := rq']> rqs) pqs pl m rr tks pus) j inq' tk pend pu /\
      inq' `sublist_of` inq ++ produced j (Produce k b)).
  { intros j inq1 tk1 pend1 pu1 (rq1 & pq1 & s1 & Hrq1 & Hi1 & <- & Hx). cbn [rawcpi_qs_] in Hrq1.
    cbn [produced]. case_bool_decide as Hj.
    - subst j. rewrite Hrq in Hrq1. injection Hrq1 as <-. exists (bq_contents rq'). split.
      + exists rq', pq1, s1. cbn [rawcpi_qs_]. rewrite list_lookup_insert_eq by done.
        by refine (conj _ (conj _ (conj _ Hx))).
      + rewrite Hc. apply Fifo.push_drop_sublist.
    - exists (bq_contents rq1). rewrite app_nil_r. split; [|done].
      exists rq1, pq1, s1. cbn [rawcpi_qs_]. rewrite list_lookup_insert_ne by done.
      by refine (conj _ (conj _ (conj _ Hx))). }
  eexists. split; [reflexivity|]. split; [split_and!|].
  - apply Hrr.
  - apply Hrr.
  - done.
  - intros j Hj. destruct (Hall j Hj) as (? & ? & ? & ? & Hx). destruct (Hstep _ _ _ _ _ Hx) as (? & ? & _).
    by eexists _, _, _, _.
  - intros j prod Hj (inq1 & tk1 & pend1 & pu1 & Hst1 & Hf & Hsub).
    destruct (Hstep _ _ _ _ _ Hst1) as (inq' & Hst' & Hs'). exists inq', tk1, pend1, pu1. split_and!; [done..|].
    etrans; [by apply sublist_app|]. rewrite app_assoc. by apply sublist_app.
Qed.

Lemma consume_ok d k :
  (k < 3)%nat -> dispatcher_ok d ->
  exists d', dispatch_step (Consume k) d = Some d' /\ dispatcher_ok d' /\
    (forall j inq tk pend pu, stream_is d j inq tk pend pu -> stream_is d' j inq tk pend pu).
Proof.
  intros Hk (Hrr & Ht & Hall). destruct (Hall k Hk) as (inq & tk & pend & pu & rq & pq & s & Hrq & Hrqi & Hin & Hpq & Hpqi & _).
  destruct d as [rqs pqs pl m rr tks pus]. cbn [dispatch_step]. cbn [plots_qs_] in Hpq. rewrite Hpq. cbn [mbind option_bind].
  pose proof (lookup_lt_Some _ _ _ Hpq) as Hlp. destruct (bq_pop_law pq Hpqi) as (Hqi' & _).
  eexists. split; [reflexivity|]. set (d' := mkGpuDispatcher _ _ _ _ _ _ _).
  assert (Hstep : forall j inq tk pend pu,
    stream_is (mkGpuDispatcher rqs pqs pl m rr tks pus) j inq tk pend pu -> stream_is d' j inq tk pend pu).
  { intros j inq1 tk1 pend1 pu1 (rq1 & pq1 & s1 & Hrq1 & Hi1 & Hc1 & Hp1 & Hpi1 & Hx).
    destruct (decide (j = k)) as [->|Hj].
    - exists rq1, (bq_pop pq).2, s1. unfold d'. cbn [plots_qs_].
      rewrite list_lookup_insert_eq by done.
      by refine (conj _ (conj _ (conj _ (conj _ (conj _ Hx))))).
    - exists rq1, pq1, s1. unfold d'. cbn [plots_qs_]. rewrite list_lookup_insert_ne by done.
      by refine (conj _ (conj _ (conj _ (conj _ (conj _ Hx))))). }
  split; [|done]. split; [done|]. split; [done|].
  intros j Hj. destruct (Hall j Hj) as (? & ? & ? & ? & Hx). eexists _, _, _, _. by apply Hstep.
Qed.

Lemma dispatch_step_ok op d :
  op_ok op -> dispatcher_ok d ->
  exists d', dispatch_step op d = Some d' /\ dispatcher_ok d' /\
    (forall j prod, (j < 3)%nat -> stream_inv d prod j -> stream_inv d' (prod ++ produced j op) j).
Proof.
  intros Hop Hd. destruct op as [inp|k b|k]; cbn [op_ok] in Hop.
  - destruct (pass_spec inp d Hop Hd) as (d' & E & Hd' & Hs). exists d'. split_and!; [done..|].
    intros j prod Hj (inq & tk & pend & pu & Hst & Hf & Hsub). destruct (Hs _ _ _ _ _ Hj Hst) as (now & Hst').
    cbn [produced]. rewrite app_nil_r. by eapply stream_inv_next.
  - by apply produce_ok.
  - destruct (consume_ok d k Hop Hd) as (d' & E & Hd' & Hs). exists d'. split_and!; [done..|].
    intros j prod Hj (inq & tk & pend & pu & Hst & Hx). cbn [produced]. rewrite app_nil_r.
    exists inq, tk, pend, pu. split; [by apply Hs|done].
Qed.

Lemma run_dispatcher_ok ops d :
  Forall op_ok ops -> dispatcher_ok d ->
  exists d', run_dispatcher ops d = Some d' /\ dispatcher_ok d' /\
    (forall j prod, (j < 3)%nat -> stream_inv d prod j -> stream_inv d' (prod ++ (ops ≫= produced j)) j).
Proof.
  intros Hops. revert d. induction Hops as [|op ops Hop _ IH]; intros d Hd; cbn [run_dispatcher].
  - exists d. split_and!; [done..|]. intros j prod _. by rewrite app_nil_r.
  - destruct (dispatch_step_ok op d Hop Hd) as (d1 & -> & Hd1 & Hs1). cbn [mbind option_bind].
    destruct (IH d1 Hd1) as (d' & -> & Hd' & Hs'). exists d'. split_and!; [done..|].
    intros j prod Hj Hi. rewrite bind_cons, app_assoc. by apply Hs', Hs1.
Qed.

Lemma init_ok (rqs : list QR) (pqs : list QP) :
  length rqs = 3%nat -> length pqs = 3%nat ->
  Forall (fun q => bq_inv q /\ bq_contents q = []) rqs -> Forall bq_inv pqs ->
  dispatcher_ok (GpuDispatcher_init rqs pqs) /\
  forall k, (k < 3)%nat -> stream_inv (GpuDispatcher_init rqs pqs) [] k.
Proof.
  intros Hr Hp Hri Hpi.
  assert (Hs : forall k, (k < 3)%nat -> stream_is (GpuDispatcher_init rqs pqs) k [] [] None []).
  { intros k Hk. destruct (lookup_lt_is_Some_2 rqs k ltac:(lia)) as [rq Hrq].
    destruct (lookup_lt_is_Some_2 pqs k ltac:(lia)) as [pq Hpq].
    pose proof (Forall_lookup_1 _ _ _ _ Hri Hrq) as [? ?]. pose proof (Forall_lookup_1 _ _ _ _ Hpi Hpq).
    exists rq, pq, slot_free. cbn [GpuDispatcher_init rawcpi_qs_ plots_qs_ pipeline_ taken pushed].
    unfold GpuPipeline_init. rewrite !lookup_replicate_2 by lia. by split_and!. }
  split.
  - split; [cbn; lia|]. split; [done|]. intros k Hk. eexists _, _, _, _. by apply Hs.
  - intros k Hk. eexists _, _, _, _. split; [by apply Hs|]. split; [constructor|done].
Qed.

(** C6: in order and exactly once.  Whatever the arrivals, the rounds of the dispatcher
    and the reads of its output, and whatever the clock says, the loop never blocks,
    and on every stream the batches pushed, with the one still in the pipeline, are
    those of the blocks taken, one for each and in their order; the blocks taken and
    those still queued are blocks produced, in their order; and no time-out is ever
    counted, as long as memory is available.  The queues are any implementation of
    the drop-oldest interface. *)
Theorem dispatcher_in_order (rqs : list QR) (pqs : list QP) (ops : list DispatchOp)
    (Hr : length rqs = 3%nat) (Hp : length pqs = 3%nat)
    (Hri : Forall (fun q => bq_inv q /\ bq_contents q = []) rqs) (Hpi : Forall bq_inv pqs)
    (Hops : Forall op_ok ops) :
  exists d', run_dispatcher ops (GpuDispatcher_init rqs pqs) = Some d' /\
    gpu_timeout_total (metrics_ d') = 0 /\
    forall k, (k < 3)%nat -> exists inq tk pend pu, stream_is d' k inq tk pend pu /\
      Forall2 batch_rel tk (pu ++ option_list pend) /\ (tk ++ inq) `sublist_of` (ops ≫= produced k).
Proof.
  destruct (init_ok rqs pqs Hr Hp Hri Hpi) as [Hi Hs].
  destruct (run_dispatcher_ok ops _ Hops Hi) as (d' & E & (_ & Ht & _) & Hs'). exists d'. split_and!; [done..|].
  intros k Hk. by apply (Hs' k [] Hk), Hs.
Qed.

(** Rounds alone empty the queue and the pipeline. *)
Lemma passes_drain inps d k inq tk pend pu :
  Forall pass_input_ok inps -> dispatcher_ok d -> (k < 3)%nat -> (length inq < length inps)%nat ->
  stream_is d k inq tk pend pu ->
  exists d' new, run_dispatcher (Pass <$> inps) d = Some d' /\ dispatcher_ok d' /\
    stream_is d' k [] (tk ++ inq) None (pu ++ option_list pend ++ new) /\ Forall2 batch_rel inq new.
Proof.
  intros Hinps. revert d inq tk pend pu. induction Hinps as [|inp inps Hinp Hinps IH];
    intros d inq tk pend pu Hd Hk Hlen Hst; cbn [length] in Hlen; [lia|].
  cbn [fmap list_fmap run_dispatcher dispatch_step].
  destruct (pass_spec inp d Hinp Hd) as (d1 & -> & Hd1 & Hs). cbn [mbind option_bind].
  destruct (Hs _ _ _ _ _ Hk Hst) as (now & Hst1). destruct inps as [|inp' inps].
  - destruct inq; cbn [length] in Hlen; [|lia]. exists d1, []. cbn in Hst1. rewrite !app_nil_r in *. done.
  - destruct inq as [|b inq]; cbn [head tail option_list fmap option_fmap option_map length] in Hst1, Hlen.
    + destruct (IH d1 [] _ _ _ Hd1 Hk ltac:(cbn; lia) Hst1) as (d' & new & E & Hd' & Hst' & Hf).
      exists d', []. inversion Hf; subst. cbn [option_list app] in Hst'. rewrite !app_nil_r in *. done.
    + destruct (IH d1 inq _ _ _ Hd1 Hk ltac:(cbn [length] in *; lia) Hst1) as (d' & new & E & Hd' & Hst' & Hf).
      exists d', (batch_of now b :: new). split; [done|]. split; [done|].
      rewrite <-!app_assoc in Hst'. split; [done|]. constructor; [by eexists|done].
Qed.

(** C13: every block is processed.  From any state the loop reaches, once nothing more
    arrives, one round more than the queue of a stream holds is enough: its queue and
    its pipeline are empty, every queued block was taken, and the batch that was in
    the pipeline and one batch for each queued block, in order, have been pushed,
    as long as memory is available. *)
Theorem dispatcher_drains (rqs : list QR) (pqs : list QP) (ops : list DispatchOp) d
    (inps : list (Z -> VisitInput)) (k : nat) inq tk pend pu
    (Hr : length rqs = 3%nat) (Hp : length pqs = 3%nat)
    (Hri : Forall (fun q => bq_inv q /\ bq_contents q = []) rqs) (Hpi : Forall bq_inv pqs)
    (Hops : Forall op_ok ops) (Hrun : run_dispatcher ops (GpuDispatcher_init rqs pqs) = Some d)
    (Hk : (k < 3)%nat) (Hst : stream_is d k inq tk pend pu)
    (Hin : Forall pass_input_ok inps) (Hlen : (length inq < length inps)%nat) :
  exists d' new, run_dispatcher (Pass <$> inps) d = Some d' /\
    stream_is d' k [] (tk ++ inq) None (pu ++ option_list pend ++ new) /\ Forall2 batch_rel inq new.
Proof.
  destruct (init_ok rqs pqs Hr Hp Hri Hpi) as [Hi _].
  destruct (run_dispatcher_ok ops _ Hops Hi) as (d1 & E & Hd & _). rewrite Hrun in E. injection E as <-.
  destruct (passes_drain inps d k inq tk pend pu Hin Hd Hk Hlen Hst) as (d' & new & E' & _ & Hs' & Hf).
  by exists d', new.
Qed.

(** *** Detection *)

Definition detected_at (bs : bytes) (aid : Z) (i : nat) : option Plot :=
  let amp := sample_amplitude bs i in
  if fleb binary32 amp kAmplitudeThreshold then None else Some (sample_plot aid i amp).

Lemma detect_omap bs aid n i acc :
  (length acc <= kMaxPlotsPerCpi)%nat ->
  detect bs aid n i acc = take kMaxPlotsPerCpi (acc ++ omap (detected_at bs aid) (seq i n)).
Proof.
  revert i acc. induction n as [|n IH]; intros i acc Hacc; cbn [detect seq omap list_omap].
  - rewrite app_nil_r. by rewrite take_ge.
  - destruct (Nat.ltb_spec (length acc) kMaxPlotsPerCpi) as [Hlt|Hge].
    + unfold detected_at at 1. destruct (fleb _ _ _).
      * by rewrite IH.
      * rewrite IH by (rewrite length_app; cbn; lia). by rewrite <-app_assoc.
    + rewrite take_app_le by lia. by rewrite take_ge.
Qed.

(** Detection is a filter.  The batch of a block holds the plots of the complete
    I/Q samples of the block whose amplitude exceeds the threshold (or is not a number), in the order of
    the samples, cut after [kMaxPlotsPerCpi]; the 16-bit plot count is exactly their number, and the
    plots pointer is null exactly when there is none. *)
Theorem batch_is_filtered_block now b :
  let found := take kMaxPlotsPerCpi
    (omap (detected_at (default [] (payload b)) (array_id b)) (seq 0 (num_samples b))) in
  default [] (plots (batch_of now b)) = found /\
  (plots (batch_of now b) = None <-> found = []) /\
  plot_count (batch_of now b) = Z.of_nat (length found).
Proof.
  intros found. unfold batch_of. rewrite detect_omap by (cbn; lia). cbn [app]. fold found.
  split_and!; cbn [plots plot_count].
  - by destruct found.
  - by destruct found.
  - apply wrap_small. assert (length found <= kMaxPlotsPerCpi)%nat by (unfold found; rewrite length_take; lia).
    unfold kMaxPlotsPerCpi, in_range in *. lia.
Qed.

End Dispatching.

(** ** Pinned buffers *)

Lemma buffer_index_bound s k n depth : 0 <= s < n -> 0 <= k < depth -> 0 <= s * depth + k < n * depth.
Proof. nia. Qed.

Lemma buffer_index_inj s k s' k' depth :
  0 <= k < depth -> 0 <= k' < depth -> s * depth + k = s' * depth + k' -> s = s' /\ k = k'.
Proof. intros. assert (s = s') by nia. subst. lia. Qed.

(** The pinned buffers do not overlap.  After an [init] whose sizes do not overflow,
    every stream and slot within range gets a buffer that lies within the bytes asked for,
    two different pairs get disjoint buffers, the number of bytes is a multiple of the
    alignment, and a stream or slot out of range gets none. *)
Theorem pinned_buffers_disjoint (h2d d2h cpi_size stream_count depth : Z) p0
    (Hc : 0 <= cpi_size) (Hs : 0 <= stream_count < 2 ^ 8) (Hd : 0 <= depth < 2 ^ 8)
    (Htot : cpi_size * stream_count * depth + 63 < 2 ^ 64) :
  let '(p, bytes) := init (Some h2d) (Some d2h) cpi_size stream_count depth p0 in
  bytes `mod` 64 = 0 /\
  (forall s k, 0 <= s -> 0 <= k ->
    (exists a, get_h2d_buffer p s k = Some a /\ h2d <= a /\ a + cpi_size <= h2d + bytes) <->
      s < stream_count /\ k < depth) /\
  (forall s k s' k' a a', 0 <= s -> 0 <= k -> 0 <= s' -> 0 <= k' -> (s, k) <> (s', k') ->
    get_h2d_buffer p s k = Some a -> get_h2d_buffer p s' k' = Some a' ->
    a + cpi_size <= a' \/ a' + cpi_size <= a).
Proof.
  unfold init. set (total := u64 (u64 _ * _)). set (p := mkPinnedBufferPool _ _ _ _ _).
  assert (0 <= cpi_size * stream_count <= cpi_size * stream_count * depth \/ depth = 0) as Hov by nia.
  assert (Htotal : total = cpi_size * stream_count * depth).
  { unfold total. destruct Hov as [Hov| ->].
    - rewrite (wrap_small 64 (cpi_size * _)) by (unfold in_range; lia). apply wrap_small. unfold in_range. lia.
    - rewrite !Z.mul_0_r. done. }
  assert (Hbytes : exists q, align_up total 64 = q * 64 /\ total <= q * 64).
  { exists (u64 (total + 64 - 1) / 64). unfold align_up. split; [done|].
    rewrite wrap_small by (unfold in_range; nia). Z.to_euclidean_division_equations; lia. }
  destruct Hbytes as (q & -> & Hq). split_and!.
  - by apply Z.mod_mul.
  - intros s k Hs0 Hk0. unfold get_h2d_buffer, get_buffer, p. cbn [h2d_buffers_ stream_count_ pingpong_depth_ cpi_size_].
    case_tests; cbn [orb]; (split; [intros (a & E & Hlo & Hhi)|intros [? ?]]); try lia; try discriminate.
    eexists. split; [reflexivity|].
    pose proof (buffer_index_bound s k stream_count depth ltac:(lia) ltac:(lia)). nia.
  - intros s k s' k' a a' ? ? ? ? Hne. unfold get_h2d_buffer, get_buffer, p.
    cbn [h2d_buffers_ stream_count_ pingpong_depth_ cpi_size_].
    case_tests; cbn [orb]; try discriminate. intros [= <-] [= <-].
    assert (s * depth + k <> s' * depth + k') as Hidx
      by (intros E; apply buffer_index_inj in E; [destruct E; subst; done|lia..]).
    assert (s * depth + k + 1 <= s' * depth + k' \/ s' * depth + k' + 1 <= s * depth + k) as [?|?] by lia; nia.
Qed.

(** ** Witnesses *)

Module Demo.

Instance demo_log : Log10 := { log10f x := x }.
Instance demo_rq : BoundedQueue RawBlock (SPSCQueue.SPSCQueue RawBlock) :=
  QueueInstances.SPSCQueue_bounded 4 3 1 (fun i => (i =? 0)%nat) ltac:(lia) eq_refl ltac:(lia).
Instance demo_pq : BoundedQueue PlotBatch (SPSCQueue.SPSCQueue PlotBatch) :=
  QueueInstances.SPSCQueue_bounded 2 3 1 (fun i => (i =? 0)%nat) ltac:(lia) eq_refl ltac:(lia).

(** One sample of amplitude 500. *)
Definition demo_block (n : Z) : RawBlock :=
  mkRawBlock 0 n 1 n 1 8 0 (Some (le_store 4 0x43960000 ++ le_store 4 0x43C80000)).
Definition demo_rqs := replicate 3 (SPSCQueue.SPSCQueue_init 4 (demo_block 0)).
Definition demo_pqs := replicate 3 (SPSCQueue.SPSCQueue_init 2 (batch_of 0 (demo_block 0))).
Definition demo_visit (t : Z) : Z -> VisitInput := fun _ => mkVisitInput t t t true.
Definition demo_ops : list DispatchOp :=
  [Produce 0 (demo_block 1); Produce 0 (demo_block 2); Pass (demo_visit 10); Produce 0 (demo_block 3)].

Lemma demo_rqs_ok : Forall (fun q => bq_inv q /\ bq_contents q = []) demo_rqs.
Proof. apply Forall_replicate, SPSCQueue.init_wf. by exists 2. Qed.

Lemma demo_pqs_ok : Forall bq_inv demo_pqs.
Proof. apply Forall_replicate, (SPSCQueue.init_wf 2). by exists 1. Qed.

Lemma demo_ops_ok : Forall op_ok demo_ops.
Proof. repeat constructor; cbn; try lia; try (intros i; reflexivity). Qed.

End Demo.

Import Demo.

(** The pool of the pipeline: three streams, two slots. *)
Lemma pinned_buffers_disjoint_witness :
  let p := (init (Some 4096) (Some 65536) 1000 3 2 (mkPinnedBufferPool None None 0 0 0)).1 in
  exists a a', get_h2d_buffer p 1 1 = Some a /\ get_h2d_buffer p 2 0 = Some a' /\
    (a + 1000 <= a' \/ a' + 1000 <= a).
Proof.
  pose proof (pinned_buffers_disjoint 4096 65536 1000 3 2 (mkPinnedBufferPool None None 0 0 0)
    ltac:(lia) ltac:(lia) ltac:(lia) ltac:(lia)) as (_ & _ & Hdis).
  eexists _, _. split; [reflexivity|]. split; [reflexivity|].
  apply (Hdis 1 1 2 0); try lia; try reflexivity. discriminate.
Defined.

(** Three blocks on the first stream, one round. *)
Lemma dispatcher_in_order_witness :
  exists d', run_dispatcher demo_ops (GpuDispatcher_init demo_rqs demo_pqs) = Some d' /\
    gpu_timeout_total (metrics_ d') = 0 /\ gpu_frames_submitted (metrics_ d') = 1.
Proof.
  destruct (dispatcher_in_order demo_rqs demo_pqs demo_ops eq_refl eq_refl demo_rqs_ok demo_pqs_ok demo_ops_ok)
    as (d' & E & Ht & _).
  exists d'. split; [exact E|]. split; [exact Ht|].
  vm_compute in E. injection E as <-. reflexivity.
Defined.

(** Then three rounds: the two queued blocks follow. *)
Lemma dispatcher_drains_witness :
  exists d d' new, run_dispatcher demo_ops (GpuDispatcher_init demo_rqs demo_pqs) = Some d /\
    run_dispatcher (Pass <$> [demo_visit 20; demo_visit 30; demo_visit 40]) d = Some d' /\
    Forall2 batch_rel [demo_block 2; demo_block 3] new.
Proof.
  destruct (run_dispatcher demo_ops (GpuDispatcher_init demo_rqs demo_pqs)) as [d|] eqn:Hrun;
    [|vm_compute in Hrun; discriminate].
  assert (Hst : stream_is d 0 [demo_block 2; demo_block 3] [demo_block 1]
    (Some (batch_of 10 (demo_block 1))) []).
  { destruct (run_dispatcher_ok demo_ops (GpuDispatcher_init demo_rqs demo_pqs) demo_ops_ok)
      as (d' & E & (_ & _ & Hall) & _);
      [by apply init_ok; try done; [apply demo_rqs_ok|apply demo_pqs_ok]|]. rewrite Hrun in E. injection E as <-.
    destruct (Hall 0%nat ltac:(lia)) as (inq & tk & pend & pu & Hst).
    vm_compute in Hrun. injection Hrun as <-.
    destruct Hst as (rq & pq & s & Hrq & Hi & Hc & Hpq & Hpi & Hpl & Hs & Htk & Hpu).
    exists rq, pq, s. cbn in Hrq, Hpq, Hpl. injection Hrq as <-. injection Hpl as <-.
    split_and!; try done. }
  destruct (dispatcher_drains demo_rqs demo_pqs demo_ops d [demo_visit 20; demo_visit 30; demo_visit 40] 0
    [demo_block 2; demo_block 3] [demo_block 1] (Some (batch_of 10 (demo_block 1))) [] eq_refl eq_refl
    demo_rqs_ok demo_pqs_ok demo_ops_ok Hrun ltac:(lia) Hst
    ltac:(repeat constructor) ltac:(cbn; lia)) as (d' & new & E & _ & Hf).
  by exists d, d', new.
Defined.

End SignalProc.
