(* ===== verification/Tracks.v ===== *)
(** Data processing (M03): [KalmanFilter], [PlotAssociator], [TrackManager],
    [FusionEngine] and [TrackFrameBuilder] ([src/m03_data_proc/*.cpp]). *)

From S2P Require Import Prelude Float TrackTypes.
From stdpp Require Import sorting.
Open Scope Z_scope.

Module Tracks.
Import Float TrackTypes.

(** ** Definitions *)

(** Constants of type [double] and [float]. *)
Definition kPi : Z := 0x400921FB54442D18.
Definition d180 : Z := 0x4066800000000000.
Definition d360 : Z := 0x4076800000000000.
Definition double_max : Z := 0x7FEFFFFFFFFFFFFF.
Definition position_gain : Z := 0x3FE3333333333333.
Definition velocity_gain : Z := 0x3FD999999999999A.
Definition f0_2 : Z := 0x3E4CCCCD.
Definition f1_0 : Z := 0x3F800000.
Definition D_HANDOVER_M : Z := 0x4059000000000000.
Definition V_HANDOVER_MS : Z := 0x4024000000000000.
Definition THETA_HANDOVER_DEG : Z := 0x402E000000000000.

#[local] Notation "x ⊞ y" := (fadd binary64 x y) (at level 50, left associativity).
#[local] Notation "x ⊟ y" := (fsub binary64 x y) (at level 50, left associativity).
#[local] Notation "x ⊠ y" := (fmul binary64 x y) (at level 40, left associativity).
#[local] Notation "x ⊘ y" := (fdiv binary64 x y) (at level 40, left associativity).

(** [sqrt(a*a + b*b + c*c)]. *)
Definition norm3 (a b c : Z) : Z := fsqrt binary64 (a ⊠ a ⊞ b ⊠ b ⊞ c ⊠ c).

Record KalmanFilter := mkKalmanFilter {
  initialized_ : bool;
  x_ : Z; y_ : Z; z_ : Z;
  vx_ : Z; vy_ : Z; vz_ : Z;
}.

Definition KalmanFilter_default : KalmanFilter := mkKalmanFilter false 0 0 0 0 0 0.

Definition init (x y z : Z) (k : KalmanFilter) : KalmanFilter := mkKalmanFilter true x y z 0 0 0.

Definition predict (dt : Z) (k : KalmanFilter) : KalmanFilter :=
  if negb (initialized_ k) then k
  else mkKalmanFilter true (x_ k ⊞ vx_ k ⊠ dt) (y_ k ⊞ vy_ k ⊠ dt) (z_ k ⊞ vz_ k ⊠ dt)
         (vx_ k) (vy_ k) (vz_ k).

Definition update (ox oy oz : Z) (k : KalmanFilter) : KalmanFilter :=
  if negb (initialized_ k) then init ox oy oz k
  else
    let dx := ox ⊟ x_ k in
    let dy := oy ⊟ y_ k in
    let dz := oz ⊟ z_ k in
    mkKalmanFilter true
      (x_ k ⊞ position_gain ⊠ dx) (y_ k ⊞ position_gain ⊠ dy) (z_ k ⊞ position_gain ⊠ dz)
      (vx_ k ⊞ velocity_gain ⊠ dx) (vy_ k ⊞ velocity_gain ⊠ dy) (vz_ k ⊞ velocity_gain ⊠ dz).

Record TrackPrediction := mkTrackPrediction { tp_track_id : Z; tp_x : Z; tp_y : Z; tp_z : Z }.

Record Association := mkAssociation { as_track_id : Z; plot_index : nat; distance : Z }.

Record TrackManagerConfig := mkTrackManagerConfig {
  confirm_hits : Z;
  coast_after_misses : Z;
  lost_after_misses : Z;
  association_gate_m : Z;
  predict_dt_sec : Z;
}.

(** The defaults: 3, 3, 10, 120.0 and 0.05. *)
Definition TrackManagerConfig_default : TrackManagerConfig :=
  mkTrackManagerConfig 3 3 10 0x405E000000000000 0x3FA999999999999A.

Record TrackState := mkTrackState {
  snapshot : Track;
  kf : KalmanFilter;
  hits : Z;
  misses : Z;
}.

Record TrackManager := mkTrackManager {
  next_track_id_ : Z;
  states_ : list TrackState;
  tracks_ : list Track;
}.

Definition TrackManager_init : TrackManager := mkTrackManager 1 [] [].

(** The functions of [<cmath>] whose results the standard leaves to the library. *)
Class Libm := { cos : Z -> Z; sin : Z -> Z; atan2 : Z -> Z -> Z }.

Section Manager.

Context `{Libm} (config_ : TrackManagerConfig).

Definition filter_heading_deg (k : KalmanFilter) : Z := atan2 (vy_ k) (vx_ k) ⊠ d180 ⊘ kPi.

Definition plot_to_cartesian (p : Plot) : Z * Z * Z :=
  let az := azimuth_deg p ⊠ kPi ⊘ d180 in
  let el := elevation_deg p ⊠ kPi ⊘ d180 in
  let cos_el := cos el in
  (range_m p ⊠ cos_el ⊠ cos az, range_m p ⊠ cos_el ⊠ sin az, range_m p ⊠ sin el).

(** The distance of a plot from a prediction. *)
Definition plot_distance (p : Plot) (pr : TrackPrediction) : Z :=
  let '(x, y, z) := plot_to_cartesian p in
  norm3 (x ⊟ tp_x pr) (y ⊟ tp_y pr) (z ⊟ tp_z pr).

(** The inner loop over the plots, from index [i] on. *)
Fixpoint best_plot (pr : TrackPrediction) (used : list nat) (ps : list Plot) (i : nat)
    (best : Z * option nat) : Z * option nat :=
  match ps with
  | [] => best
  | p :: ps =>
    if bool_decide (i ∈ used) then best_plot pr used ps (S i) best
    else
      let d := plot_distance p pr in
      let best := if fltb binary64 d (fst best) then (d, Some i) else best in
      best_plot pr used ps (S i) best
  end.

(** The loop over the predictions; [None] stands for [best_plot == plots.size()]. *)
Fixpoint associate_loop (prs : list TrackPrediction) (ps : list Plot) (gate : Z) (used : list nat)
    : list Association * list nat :=
  match prs with
  | [] => ([], used)
  | pr :: prs =>
    match best_plot pr used ps 0 (double_max, None) with
    | (d, Some i) =>
      if fleb binary64 d gate then
        let '(l, used) := associate_loop prs ps gate (i :: used) in
        (mkAssociation (tp_track_id pr) i d :: l, used)
      else associate_loop prs ps gate used
    | (_, None) => associate_loop prs ps gate used
    end
  end.

(** [associate]: the associations and [unassociated_plots_]. *)
Definition associate (prs : list TrackPrediction) (ps : list Plot) (gate : Z)
    : list Association * list nat :=
  let '(l, used) := associate_loop prs ps gate [] in
  (l, filter (fun i => i ∉ used) (seq 0 (length ps))).

(** The plots and the latest time of the batches; [None] for a null pointer. *)
Definition collect (batches : list (option PlotBatch)) : list Plot * Z :=
  foldl (fun acc b =>
    match b with
    | Some batch =>
      match plots batch with
      | Some ps => (fst acc ++ take (Z.to_nat (plot_count batch)) ps, Z.max (snd acc) (pb_data_ts batch))
      | None => acc
      end
    | None => acc
    end) ([], 0) batches.

Definition predict_state (st : TrackState) : TrackState :=
  mkTrackState (snapshot st) (predict (predict_dt_sec config_) (kf st)) (hits st) (misses st).

Definition prediction (st : TrackState) : TrackPrediction :=
  mkTrackPrediction (track_id (snapshot st)) (x_ (kf st)) (y_ (kf st)) (z_ (kf st)).

(** [std::min(1.0f, 0.2f * hits)]. *)
Definition hit_confidence (h : Z) : Z :=
  let c := fmul binary32 f0_2 (of_Z binary32 h) in
  if fltb binary32 c f1_0 then c else f1_0.

(** The body of the loop over the associations, for the state found. *)
Definition hit_state (p : Plot) (ts : Z) (st : TrackState) : TrackState :=
  let '(x, y, z) := plot_to_cartesian p in
  let k := update x y z (kf st) in
  let h := hits st +[32] 1 in
  let s := snapshot st in
  let life :=
    if (lifecycle_state s =? TENTATIVE) && (confirm_hits config_ <=? h) then CONFIRMED
    else if lifecycle_state s =? COASTING then CONFIRMED
    else lifecycle_state s in
  mkTrackState
    (mkTrack (track_id s) (x_ k) (y_ k) (z_ k) (vx_ k) (vy_ k) (vz_ k) (filter_heading_deg k)
       (hit_confidence h) life (plot_array_id p) (handover_flag s) (handover_from s) (coast_frames s)
       (padding s) (create_ts s) ts)
    k h 0.

(** The body of the loop over the tracks without a plot. *)
Definition miss_state (ts : Z) (st : TrackState) : TrackState :=
  let m := misses st +[32] 1 in
  let s := snapshot st in
  let life :=
    if lost_after_misses config_ <=? m then LOST
    else if coast_after_misses config_ <=? m then COASTING
    else lifecycle_state s in
  mkTrackState
    (mkTrack (track_id s) (pos_x s) (pos_y s) (pos_z s) (vel_x s) (vel_y s) (vel_z s) (heading_deg s)
       (confidence s) life (source_array_id s) (handover_flag s) (handover_from s) m (padding s)
       (create_ts s) ts)
    (kf st) (hits st) m.

Definition new_state (id : Z) (p : Plot) (ts : Z) : TrackState :=
  let '(x, y, z) := plot_to_cartesian p in
  mkTrackState
    (mkTrack id x y z 0 0 0 0 f0_2 TENTATIVE (plot_array_id p) 0 0 0 0 ts ts)
    (init x y z KalmanFilter_default) 1 0.

(** [std::find_if] of a track id. *)
Fixpoint find_state (id : Z) (sts : list TrackState) : option nat :=
  match sts with
  | [] => None
  | st :: sts => if track_id (snapshot st) =? id then Some 0%nat else S <$> find_state id sts
  end.

Definition plot_zero : Plot := mkPlot 0 0 0 0 0 0 0 0.

(** The loop over the associations. *)
Definition apply_association (ps : list Plot) (ts : Z) (acc : list TrackState * list bool) (a : Association)
    : list TrackState * list bool :=
  let '(sts, matched) := acc in
  match find_state (as_track_id a) sts with
  | None => acc
  | Some i => (alter (hit_state (nth (plot_index a) ps plot_zero) ts) i sts, <[i := true]> matched)
  end.

(** The loop over the unassociated plots. *)
Fixpoint add_tracks (ps : list Plot) (ts : Z) (idx : list nat) (next : Z) : list TrackState * Z :=
  match idx with
  | [] => ([], next)
  | i :: idx =>
    let '(sts, next') := add_tracks ps ts idx (next +[64] 1) in
    (new_state next (nth i ps plot_zero) ts :: sts, next')
  end.

Definition sync_snapshots (sts : list TrackState) : list Track :=
  snapshot <$> filter (fun st => lifecycle_state (snapshot st) <> LOST) sts.

Definition process_plots (batches : list (option PlotBatch)) (m : TrackManager) : list Track * TrackManager :=
  let '(ps, latest_ts) := collect batches in
  let sts := predict_state <$> states_ m in
  let '(associations, unassociated) := associate (prediction <$> sts) ps (association_gate_m config_) in
  let '(sts, matched) :=
    foldl (apply_association ps latest_ts) (sts, replicate (length sts) false) associations in
  let sts := zip_with (fun (b : bool) st => if b then st else miss_state latest_ts st) matched sts in
  let '(new, next) := add_tracks ps latest_ts unassociated (next_track_id_ m) in
  let sts := sts ++ new in
  (sync_snapshots sts, mkTrackManager next sts (sync_snapshots sts)).

End Manager.

(** ** Fusion *)

(** [normalize_heading_delta]: the loop ends when the difference is at most 180 degrees;
    [None] when the fuel runs out. *)
Fixpoint reduce_heading (fuel : nat) (delta : Z) : option Z :=
  if fltb binary64 d180 delta then
    match fuel with
    | O => None
    | S fuel => reduce_heading fuel (delta ⊟ d360)
    end
  else Some delta.

Definition normalize_heading_delta (fuel : nat) (a b : Z) : option Z :=
  d ← reduce_heading fuel (fabs binary64 (a ⊟ b)); Some (fabs binary64 d).

Definition should_fuse (fuel : nat) (a b : Track) : option bool :=
  let d := norm3 (pos_x a ⊟ pos_x b) (pos_y a ⊟ pos_y b) (pos_z a ⊟ pos_z b) in
  let v := norm3 (vel_x a ⊟ vel_x b) (vel_y a ⊟ vel_y b) (vel_z a ⊟ vel_z b) in
  if negb (fleb binary64 d D_HANDOVER_M) then Some false
  else if negb (fleb binary64 v V_HANDOVER_MS) then Some false
  else
    h ← normalize_heading_delta fuel (heading_deg a) (heading_deg b);
    Some (fleb binary64 h THETA_HANDOVER_DEG).

Definition with_handover (t : Track) : Track :=
  let '(mkTrack a b c d e f g h i j k _ m n o p q) := t in mkTrack a b c d e f g h i j k 1 m n o p q.

(** The loop over [j]: the survivor and the flags of the tracks after [i]. *)
Fixpoint fuse_with (fuel : nat) (survivor : Track) (rest : list (Track * bool)) : option (Track * list (Track * bool)) :=
  match rest with
  | [] => Some (survivor, [])
  | (t, merged) :: rest =>
    near ← (if (merged : bool) then Some false else should_fuse fuel survivor t);
    if (near : bool) then
      let s := if fltb binary32 (confidence survivor) (confidence t) then t else survivor in
      '(s, rest) ← fuse_with fuel (with_handover s) rest;
      Some (s, (t, true) :: rest)
    else
      '(s, rest) ← fuse_with fuel survivor rest;
      Some (s, (t, merged) :: rest)
  end.

(** The loop over [i]; [n] is the number of tracks left. *)
Fixpoint fuse_loop (fuel n : nat) (l : list (Track * bool)) : option (list Track) :=
  match n, l with
  | S n, (t, merged) :: rest =>
    if merged : bool then fuse_loop fuel n rest
    else
      '(s, rest) ← fuse_with fuel t rest;
      r ← fuse_loop fuel n rest;
      Some (s :: r)
  | _, _ => Some []
  end.

Definition fuse (fuel : nat) (ts : list Track) : option (list Track) :=
  fuse_loop fuel (length ts) ((fun t => (t, false)) <$> ts).

(** [TrackFrameBuilder::build]. *)
Definition build (seq : Z) (ts : list Track) (coverage : Z) : TrackFrame :=
  mkTrackFrame seq (match ts with [] => 0 | t :: _ => update_ts t end) 1 0 (Z.land coverage 0xFF)
    (u16 (Z.of_nat (length ts))) 0 false 0 (match ts with [] => None | _ => Some ts end).

(** ** Association *)

Section Association.

Context `{Libm}.

(** [best_plot] finds an unused plot nearer than the start value, and none of the
    unused plots is nearer than the one it finds. *)
Lemma best_plot_sound pr used ps : forall i d0 o0 d o,
  best_plot pr used ps i (d0, o0) = (d, o) ->
  (d = d0 /\ o = o0 \/
   exists k p, o = Some (i + k)%nat /\ ps !! k = Some p /\ (i + k)%nat ∉ used /\
     d = plot_distance p pr).
Proof.
  induction ps as [|p ps IH]; intros i d0 o0 d o Hb; cbn [best_plot] in Hb.
  - injection Hb as <- <-. by left.
  - assert (Hshift : forall d1 o1, best_plot pr used ps (S i) (d1, o1) = (d, o) ->
      (d = d1 /\ o = o1) \/ exists k q, o = Some (i + k)%nat /\ (p :: ps) !! k = Some q /\ (i + k)%nat ∉ used /\
        d = plot_distance q pr).
    { intros d1 o1 Hb1. destruct (IH _ _ _ _ _ Hb1) as [?|(k & q & -> & Hk & Hu & ->)]; [by left|].
      right. exists (S k), q. replace (i + S k)%nat with (S i + k)%nat by lia. done. }
    case_bool_decide as Hin; [by apply Hshift|].
    destruct (fltb binary64 (plot_distance p pr) (fst (d0, o0))).
    + destruct (Hshift _ _ Hb) as [[-> ->]|?]; [|by right]. right. exists 0%nat, p. rewrite Nat.add_0_r. done.
    + by apply Hshift.
Qed.

(** No unused plot is nearer than the one found, and that one is nearer than the start
    value. *)
Lemma best_plot_nearest pr used ps : forall i d0 o0 d o,
  best_plot pr used ps i (d0, o0) = (d, o) ->
  (d = d0 \/ fltb binary64 d d0 = true) /\
  forall k p, ps !! k = Some p -> (i + k)%nat ∉ used -> fltb binary64 (plot_distance p pr) d = false.
Proof.
  induction ps as [|p ps IH]; intros i d0 o0 d o Hb; cbn [best_plot] in Hb.
  - injection Hb as <- <-. by split; [left|].
  - assert (Hshift : forall d1 o1, best_plot pr used ps (S i) (d1, o1) = (d, o) -> (d = d1 \/ fltb binary64 d d1 = true) /\
      forall k q, ps !! k = Some q -> (i + S k)%nat ∉ used -> fltb binary64 (plot_distance q pr) d = false).
    { intros d1 o1 Hb1. destruct (IH _ _ _ _ _ Hb1) as [Hd Hn]. split; [done|]. intros k q Hk Hu.
      apply (Hn k q Hk). by replace (S i + k)%nat with (i + S k)%nat by lia. }
    case_bool_decide as Hin.
    + destruct (Hshift _ _ Hb) as [Hd Hn]. split; [done|]. intros [|k] q Hk Hu; [by rewrite Nat.add_0_r in Hu|by eapply Hn].
    + cbn [fst] in Hb. destruct (fltb binary64 (plot_distance p pr) d0) eqn:Hlt; destruct (Hshift _ _ Hb) as [Hd Hn]; split.
      * right. destruct Hd as [->|Hd]; [done|]. by eapply fltb_trans.
      * intros [|k] q Hk Hu; [|by eapply Hn]. injection Hk as <-.
        destruct Hd as [->|Hd]; [apply fltb_irrefl|by apply fltb_asym].
      * done.
      * intros [|k] q Hk Hu; [|by eapply Hn]. injection Hk as <-. destruct Hd as [->|Hd]; [done|].
        destruct (fltb binary64 (plot_distance p pr) d) eqn:E; [|done]. rewrite <-Hlt. symmetry. by eapply fltb_trans.
Qed.

(** The specification of the association, aligned with the predictions: in their order, each
    takes the nearest plot that none before it has taken, if it lies within the gate. *)
Inductive Nearest (ps : list Plot) (gate : Z) : list nat -> list TrackPrediction -> list (option nat) -> Prop :=
  | nearest_nil used : Nearest ps gate used [] []
  | nearest_hit used pr prs k p assoc :
      ps !! k = Some p -> k ∉ used -> fleb binary64 (plot_distance p pr) gate = true ->
      (forall k' p', ps !! k' = Some p' -> k' ∉ used -> fltb binary64 (plot_distance p' pr) (plot_distance p pr) = false) ->
      Nearest ps gate (k :: used) prs assoc -> Nearest ps gate used (pr :: prs) (Some k :: assoc)
  | nearest_miss used pr prs assoc :
      (forall k' p', ps !! k' = Some p' -> k' ∉ used -> fltb binary64 (plot_distance p' pr) double_max = true ->
         fleb binary64 (plot_distance p' pr) gate = false) ->
      Nearest ps gate used prs assoc -> Nearest ps gate used (pr :: prs) (None :: assoc).

(** The associations of the predictions, from the plots they take. *)
Fixpoint associations_of (ps : list Plot) (prs : list TrackPrediction) (assoc : list (option nat)) : list Association :=
  match prs, assoc with
  | pr :: prs, Some k :: assoc =>
    mkAssociation (tp_track_id pr) k (plot_distance (nth k ps plot_zero) pr) :: associations_of ps prs assoc
  | _ :: prs, None :: assoc => associations_of ps prs assoc
  | _, _ => []
  end.

Lemma associate_loop_nearest gate ps prs : forall used l used',
  associate_loop prs ps gate used = (l, used') ->
  exists assoc, Nearest ps gate used prs assoc /\ l = associations_of ps prs assoc /\
    used' ≡ₚ omap id assoc ++ used /\ length assoc = length prs.
Proof.
  induction prs as [|pr prs IH]; intros used l used' Hl; cbn [associate_loop] in Hl.
  - injection Hl as <- <-. exists []. split_and!; [constructor|done..].
  - destruct (best_plot pr used ps 0 (double_max, None)) as [d o] eqn:Hb.
    destruct (best_plot_nearest _ _ _ _ _ _ _ _ Hb) as [Hd Hn].
    assert (Hmiss : (forall k' p', ps !! k' = Some p' -> k' ∉ used -> fltb binary64 (plot_distance p' pr) double_max = true ->
         fleb binary64 (plot_distance p' pr) gate = false) -> associate_loop prs ps gate used = (l, used') ->
      exists assoc, Nearest ps gate used (pr :: prs) assoc /\ l = associations_of ps (pr :: prs) assoc /\
        used' ≡ₚ omap id assoc ++ used /\ length assoc = length (pr :: prs)).
    { intros Hm Hl'. destruct (IH _ _ _ Hl') as (assoc & H1 & H2 & H3 & H4). exists (None :: assoc).
      split_and!; [by apply nearest_miss|done|done|cbn; lia]. }
    destruct (best_plot_sound _ _ _ _ _ _ _ _ Hb) as [[-> ->]|(k & p & -> & Hk & Hu & ->)].
    { apply Hmiss; [|done]. intros k' p' Hk' Hu' Hlt. by rewrite (Hn k' p' Hk' Hu') in Hlt. }
    cbn [Nat.add] in *. destruct (fleb binary64 (plot_distance p pr) gate) eqn:Hg.
    + destruct (associate_loop prs ps gate (k :: used)) as [l1 used1] eqn:Hl1. injection Hl as <- <-.
      destruct (IH _ _ _ Hl1) as (assoc & H1 & -> & H3 & H4). exists (Some k :: assoc). split_and!.
      * by eapply nearest_hit.
      * cbn. by rewrite (nth_lookup_Some _ _ _ _ Hk).
      * rewrite H3. cbn. by rewrite Permutation_middle.
      * cbn. lia.
    + apply Hmiss; [|done]. intros k' p' Hk' Hu' Hlt. destruct (fleb binary64 (plot_distance p' pr) gate) eqn:Hg'; [|done].
      rewrite <-Hg. symmetry. eapply fleb_trans; [|exact Hg']. destruct Hd as [E|Hd]; [rewrite E in *; by rewrite (Hn k' p' Hk' Hu') in Hlt|].
      eapply fltb_false; [by eapply Hn|exact Hg'|exact Hd].
Qed.

(** What [associate_loop] returns: ids of the predictions in order, plots that were
    not used before and not twice, within the gate. *)
Lemma associate_loop_sound gate ps prs : forall used l used',
  associate_loop prs ps gate used = (l, used') ->
  sublist (as_track_id <$> l) (tp_track_id <$> prs) /\
  used' ≡ₚ (plot_index <$> l) ++ used /\
  (NoDup used -> NoDup used') /\
  Forall (fun a => plot_index a < length ps)%nat l /\
  Forall (fun a => fleb binary64 (distance a) gate = true /\
            exists pr p, pr ∈ prs /\ tp_track_id pr = as_track_id a /\ ps !! plot_index a = Some p /\
              distance a = plot_distance p pr) l.
Proof.
  induction prs as [|pr prs IH]; intros used l used' Hl; cbn [associate_loop] in Hl.
  - injection Hl as <- <-. split_and!; [constructor|done|done|constructor|constructor].
  - assert (Hw : forall l, Forall (fun a => fleb binary64 (distance a) gate = true /\
        exists pr0 p, pr0 ∈ prs /\ tp_track_id pr0 = as_track_id a /\ ps !! plot_index a = Some p /\
              distance a = plot_distance p pr0) l ->
      Forall (fun a => fleb binary64 (distance a) gate = true /\
        exists pr0 p, pr0 ∈ pr :: prs /\ tp_track_id pr0 = as_track_id a /\ ps !! plot_index a = Some p /\
              distance a = plot_distance p pr0) l).
    { intros l1 Hl1. eapply list.Forall_impl; [exact Hl1|]. intros a (Hg & q & p & Hq & Hr). split; [done|].
      exists q, p. split; [set_solver|done]. }
    assert (Hcons : forall l1, sublist (as_track_id <$> l1) (tp_track_id <$> prs) ->
      sublist (as_track_id <$> l1) (tp_track_id <$> pr :: prs)) by (intros; by apply sublist_cons).
    destruct (best_plot pr used ps 0 (double_max, None)) as [d [i|]] eqn:Hb.
    2: { destruct (IH _ _ _ Hl) as (H1 & H2 & H3 & H4 & H5). split_and!; auto. }
    destruct (fleb binary64 d gate) eqn:Hg.
    2: { destruct (IH _ _ _ Hl) as (H1 & H2 & H3 & H4 & H5). split_and!; auto. }
    destruct (associate_loop prs ps gate (i :: used)) as [l1 used1] eqn:Hl1. injection Hl as <- <-.
    destruct (IH _ _ _ Hl1) as (H1 & H2 & H3 & H4 & H5).
    destruct (best_plot_sound _ _ _ _ _ _ _ _ Hb) as [[_ ?]|(k & p & [= ->] & Hk & Hu & ->)]; [done|].
    cbn [Nat.add] in *. split_and!.
    + cbn. by apply sublist_skip.
    + rewrite H2. cbn. by rewrite Permutation_middle.
    + intros Hnd. apply H3. by apply NoDup_cons_2.
    + apply Forall_cons_2; [by apply lookup_lt_Some in Hk|done].
    + apply Forall_cons_2; [|by apply Hw]. split; [done|]. exists pr, p. split; [set_solver|done].
Qed.

End Association.

(** ** Life cycle *)

Section Lifecycle.

Context `{Libm} (config : TrackManagerConfig).

(** What the life cycle of a track depends on: id, state, hits and misses. *)
Definition life (st : TrackState) : Z * Z * Z * Z :=
  (track_id (snapshot st), lifecycle_state (snapshot st), hits st, misses st).

(** One step of a track that was hit or missed. *)
Definition life_step (hit : bool) (a : Z * Z * Z * Z) : Z * Z * Z * Z :=
  let '(id, state, h, m) := a in
  if hit then
    let h := h +[32] 1 in
    (id, (if ((state =? TENTATIVE) && (confirm_hits config <=? h)) || (state =? COASTING)
          then CONFIRMED else state), h, 0)
  else
    let m := m +[32] 1 in
    (id, (if lost_after_misses config <=? m then LOST
          else if coast_after_misses config <=? m then COASTING else state), h, m).

Lemma life_predict st : life (predict_state config st) = life st.
Proof. done. Qed.

Lemma life_hit p ts st : life (hit_state config p ts st) = life_step true (life st).
Proof.
  unfold hit_state. destruct (plot_to_cartesian p) as [[x y] z]. unfold life. cbn.
  destruct (_ =? TENTATIVE), (confirm_hits config <=? _), (_ =? COASTING); done.
Qed.

Lemma life_miss ts st : life (miss_state config ts st) = life_step false (life st).
Proof. done. Qed.

Lemma life_new id p ts : life (new_state id p ts) = (id, TENTATIVE, 1, 0).
Proof. unfold new_state. by destruct (plot_to_cartesian p) as [[x y] z]. Qed.

Definition ids (sts : list TrackState) : list Z := (fun st => track_id (snapshot st)) <$> sts.

(** Ids grow along the list and are below the next one. *)
Definition wf (m : TrackManager) : Prop :=
  StronglySorted Z.lt (ids (states_ m)) /\ Forall (fun id => 1 <= id < next_track_id_ m) (ids (states_ m)) /\
  1 <= next_track_id_ m.

Lemma find_state_Some id sts i :
  NoDup (ids sts) -> ids sts !! i = Some id -> find_state id sts = Some i.
Proof.
  revert i. induction sts as [|st sts IH]; intros i Hnd Hi; [done|]. cbn in Hnd, Hi.
  apply list.NoDup_cons in Hnd as [Hni Hnd]. cbn [find_state]. destruct i as [|i]; cbn in Hi.
  - injection Hi as <-. by rewrite Z.eqb_refl.
  - destruct (Z.eqb_spec (track_id (snapshot st)) id) as [E|_].
    + destruct Hni. rewrite E. by eapply list_elem_of_lookup_2.
    + by rewrite (IH i).
Qed.

Lemma ids_alter f i sts : (forall st, track_id (snapshot (f st)) = track_id (snapshot st)) ->
  ids (alter f i sts) = ids sts.
Proof.
  intros Hf. unfold ids. apply list_eq. intros j. rewrite !list_lookup_fmap.
  destruct (decide (i = j)) as [->|Hne].
  - rewrite list_lookup_alter_eq. destruct (sts !! j); cbn; [|done]. by rewrite Hf.
  - by rewrite list_lookup_alter_ne.
Qed.

Lemma hit_state_id p ts st : track_id (snapshot (hit_state config p ts st)) = track_id (snapshot st).
Proof. unfold hit_state. by destruct (plot_to_cartesian p) as [[x y] z]. Qed.

(** What a track becomes: hit by its own plot, or missed. *)
Definition settle (ps : list Plot) (ts : Z) (st : TrackState) (a : option nat) : TrackState :=
  match a with Some k => hit_state config (nth k ps plot_zero) ts st | None => miss_state config ts st end.

Definition touch (ps : list Plot) (ts : Z) (st : TrackState) (a : option nat) : TrackState :=
  match a with Some k => hit_state config (nth k ps plot_zero) ts st | None => st end.

Definition is_hit (a : option nat) : bool := match a with Some _ => true | None => false end.

Lemma alter_middle {A} (f : A -> A) pre x (l : list A) : alter f (length pre) (pre ++ x :: l) = pre ++ f x :: l.
Proof. induction pre as [|y pre IH]; [done|]. cbn. by f_equal. Qed.

(** The loop over the associations hits each track with its own plot. *)
Lemma apply_associations ps ts : forall sts assoc pre mpre,
  length assoc = length sts -> NoDup (ids (pre ++ sts)) -> length mpre = length pre ->
  foldl (apply_association config ps ts) (pre ++ sts, mpre ++ replicate (length sts) false)
    (associations_of ps (prediction <$> sts) assoc) =
  (pre ++ zip_with (touch ps ts) sts assoc, mpre ++ (is_hit <$> assoc)).
Proof.
  induction sts as [|st sts IH]; intros [|a assoc] pre mpre Hl Hnd Hm; try done. cbn in Hl.
  assert (Hgo : forall st' b, track_id (snapshot st') = track_id (snapshot st) ->
    foldl (apply_association config ps ts) (pre ++ st' :: sts, mpre ++ b :: replicate (length sts) false)
      (associations_of ps (prediction <$> sts) assoc) =
    (pre ++ st' :: zip_with (touch ps ts) sts assoc, mpre ++ b :: (is_hit <$> assoc))).
  { intros st' b Hid. specialize (IH assoc (pre ++ [st']) (mpre ++ [b])). rewrite <-!app_assoc in IH. apply IH; [lia| |].
    - unfold ids in *. rewrite fmap_app in *. cbn in *. by rewrite Hid.
    - rewrite !length_app. cbn. lia. }
  destruct a as [k|]; cbn [fmap list_fmap associations_of foldl length replicate zip_with touch is_hit]; [|by apply Hgo].
  unfold apply_association at 2. cbn [as_track_id plot_index prediction tp_track_id].
  rewrite (find_state_Some _ _ (length pre) Hnd).
  2: { unfold ids. rewrite fmap_app, lookup_app_r, length_fmap, Nat.sub_diag by (by rewrite length_fmap). done. }
  rewrite alter_middle. rewrite <-Hm at 1. rewrite insert_app_r_alt, Nat.sub_diag by done. apply Hgo, hit_state_id.
Qed.

Lemma settle_touch ps ts : forall (sts : list TrackState) (assoc : list (option nat)),
  zip_with (fun (b : bool) st => if b then st else miss_state config ts st) (is_hit <$> assoc) (zip_with (touch ps ts) sts assoc) =
  zip_with (settle ps ts) sts assoc.
Proof.
  induction sts as [|st sts IH]; intros [|[k|] assoc]; try done; cbn; f_equal; apply IH.
Qed.

Lemma add_tracks_eq ps ts idx : forall next, 0 <= next -> next + Z.of_nat (length idx) < 2 ^ 64 ->
  add_tracks ps ts idx next =
  (imap (fun j k => new_state (next + Z.of_nat j) (nth k ps plot_zero) ts) idx, next + Z.of_nat (length idx)).
Proof.
  induction idx as [|i idx IH]; intros next Hn Hb; cbn [add_tracks length imap] in *.
  - by rewrite Z.add_0_r.
  - assert (Hw : next +[64] 1 = next + 1) by (apply wrap_small; unfold in_range; lia).
    rewrite Hw, IH by lia. rewrite Z.add_0_r. f_equal; [|lia]. f_equal. apply imap_ext. intros j k _.
    by replace (next + 1 + Z.of_nat j) with (next + Z.of_nat (S j)) by lia.
Qed.

(** The life cycle of the tracks there were, and of the new ones. *)
Lemma life_settle ps ts sts : forall assoc,
  life <$> zip_with (settle ps ts) sts assoc = zip_with life_step (is_hit <$> assoc) (life <$> sts).
Proof.
  induction sts as [|st sts IH]; intros [|[k|] assoc]; try done; cbn; f_equal; [apply life_hit|apply IH|apply IH].
Qed.

Lemma life_added ps ts next idx :
  life <$> imap (fun j k => new_state (next + Z.of_nat j) (nth k ps plot_zero) ts) idx =
  (fun k => (next + Z.of_nat k, TENTATIVE, 1, 0)) <$> seq 0 (length idx).
Proof.
  revert next. induction idx as [|i idx IH]; intros next; [done|]. cbn [imap length seq fmap list_fmap]. rewrite life_new. f_equal.
  rewrite (imap_ext _ (fun j k => new_state ((next + 1) + Z.of_nat j) (nth k ps plot_zero) ts)).
  2: { intros j k _. by replace (next + 1 + Z.of_nat j) with (next + Z.of_nat (S j)) by lia. }
  change (list_fmap _ _ life) with (fmap (M := list) life). rewrite IH, <-fmap_S_seq, <-list_fmap_compose.
  apply list_fmap_ext. intros j k _. cbn. do 3 f_equal. lia.
Qed.

Lemma zip_ids (hit : list bool) (l : list (Z * Z * Z * Z)) :
  length hit = length l ->
  (fun a => fst (fst (fst a))) <$> zip_with life_step hit l = (fun a => fst (fst (fst a))) <$> l.
Proof.
  revert hit. induction l as [|[[[id st] h] m] l IH]; intros [|b hit] Hl; try done. cbn in *. f_equal; [by destruct b|].
  apply IH. lia.
Qed.

Lemma ids_life sts : ids sts = (fun a => fst (fst (fst a))) <$> (life <$> sts).
Proof. unfold ids. by rewrite <-list_fmap_compose. Qed.

Lemma seq_lt_sorted next n :
  StronglySorted Z.lt ((fun k => next + Z.of_nat k) <$> seq 0 n) /\
  Forall (fun id => next <= id < next + Z.of_nat n) ((fun k => next + Z.of_nat k) <$> seq 0 n).
Proof.
  split.
  - generalize 0%nat as a. induction n as [|n IH]; intros a; cbn; constructor; [apply IH|].
    apply Forall_fmap, list.Forall_forall. intros k Hk. apply elem_of_seq in Hk. cbn. lia.
  - apply Forall_fmap, list.Forall_forall. intros k Hk. apply elem_of_seq in Hk. cbn. lia.
Qed.

(** The tracks after a call, given those before it. *)
Definition lives (m : TrackManager) : list (Z * Z * Z * Z) := life <$> states_ m.

Lemma wf_extend m m' (hit : list bool) new :
  wf m -> length hit = length (states_ m) ->
  lives m' = zip_with life_step hit (lives m) ++
             ((fun k => (next_track_id_ m + Z.of_nat k, TENTATIVE, 1, 0)) <$> seq 0 new) ->
  next_track_id_ m' = next_track_id_ m + Z.of_nat new -> wf m'.
Proof.
  intros (Hs & Hf & Hn) Hl Hm Hn'. unfold wf. rewrite ids_life. fold (lives m'). rewrite Hm, fmap_app, zip_ids, <-list_fmap_compose.
  2: { unfold lives. by rewrite length_fmap. }
  unfold lives. rewrite <-ids_life. destruct (seq_lt_sorted (next_track_id_ m) new) as [Hs2 Hf2].
  change ((fun a => fst (fst (fst a))) ∘ (fun k => (next_track_id_ m + Z.of_nat k, TENTATIVE, 1, 0)))
    with (fun k => next_track_id_ m + Z.of_nat k). rewrite Hn'. split_and!; [| |lia].
  - apply StronglySorted_app_2; [|done|done]. rewrite list.Forall_forall in Hf, Hf2. intros a b Ha Hb.
    specialize (Hf a Ha). specialize (Hf2 b Hb). cbn in *. lia.
  - apply Forall_app_2; (eapply list.Forall_impl; [eassumption|]); cbn; lia.
Qed.

Lemma sorted_nodup (l : list Z) : StronglySorted Z.lt l -> NoDup l.
Proof.
  induction 1 as [|x l _ IH Hx]; [constructor|]. apply NoDup_cons_2; [|done].
  intros Hin. rewrite list.Forall_forall in Hx. specialize (Hx x Hin). lia.
Qed.

(** What one call does. *)
Record call_spec (batches : list (option PlotBatch)) (m m' : TrackManager) (assoc : list (option nat)) (fresh : list nat)
    : Prop := {
  cs_nearest : Nearest (fst (collect batches)) (association_gate_m config) []
    (prediction <$> (predict_state config <$> states_ m)) assoc;
  cs_plots : omap id assoc ++ fresh ≡ₚ seq 0 (length (fst (collect batches)));
  cs_order : StronglySorted lt fresh;
  cs_states : states_ m' =
    zip_with (settle (fst (collect batches)) (snd (collect batches))) (predict_state config <$> states_ m) assoc ++
    imap (fun j k => new_state (next_track_id_ m + Z.of_nat j) (nth k (fst (collect batches)) plot_zero) (snd (collect batches)))
      fresh;
  cs_next : next_track_id_ m' = next_track_id_ m + Z.of_nat (length fresh);
}.

Lemma used_unused (used : list nat) n :
  NoDup used -> Forall (fun i => i < n)%nat used -> used ++ filter (fun i => i ∉ used) (seq 0 n) ≡ₚ seq 0 n.
Proof.
  intros Hu Hlt. rewrite list.Forall_forall in Hlt. apply NoDup_Permutation; [|apply NoDup_seq|].
  - apply list.NoDup_app. split_and!; [done| |apply list.NoDup_filter, NoDup_seq].
    intros i Hi Hf. apply list_elem_of_filter in Hf as [? _]. done.
  - intros i. rewrite elem_of_app, list_elem_of_filter. split.
    + intros [Hi|[_ ?]]; [|done]. apply elem_of_seq. specialize (Hlt i Hi). lia.
    + intros Hi. destruct (decide (i ∈ used)); auto.
Qed.

Lemma seq_sorted_lt a n : StronglySorted lt (seq a n).
Proof.
  revert a. induction n as [|n IH]; intros a; cbn; constructor; [apply IH|].
  apply list.Forall_forall. intros k Hk. apply elem_of_seq in Hk. lia.
Qed.

Lemma sorted_filter (P : nat -> Prop) `{forall x, Decision (P x)} l : StronglySorted lt l -> StronglySorted lt (filter P l).
Proof.
  induction 1 as [|x l _ IH Hx]; [constructor|]. rewrite list.filter_cons. case_decide; [|done]. constructor; [done|].
  apply list.Forall_forall. intros y Hy. apply list_elem_of_filter in Hy as [_ Hy]. rewrite list.Forall_forall in Hx. auto.
Qed.

Lemma process_plots_ok batches m out m' :
  wf m -> next_track_id_ m + Z.of_nat (length (fst (collect batches))) < 2 ^ 64 ->
  process_plots config batches m = (out, m') ->
  (exists assoc fresh, length assoc = length (states_ m) /\ call_spec batches m m' assoc fresh) /\
  out = snapshot <$> filter (fun st => lifecycle_state (snapshot st) <> LOST) (states_ m').
Proof.
  intros (Hs & Hf & Hn) Hb Hp. unfold process_plots in Hp. set (sts0 := predict_state config <$> states_ m) in *.
  assert (Hids : ids sts0 = ids (states_ m)) by (unfold ids, sts0; by rewrite <-list_fmap_compose).
  destruct (collect batches) as [ps ts] eqn:Hc. cbn [fst] in Hb. unfold associate in Hp.
  destruct (associate_loop _ ps (association_gate_m config) []) as [l used] eqn:Ha.
  destruct (associate_loop_sound _ _ _ _ _ _ Ha) as (_ & Hu & Hnd & Hlt & _). rewrite app_nil_r in Hu. specialize (Hnd NoDup_nil_2).
  destruct (associate_loop_nearest _ _ _ _ _ _ Ha) as (assoc & Hnear & -> & Huse & Hlen). rewrite app_nil_r in Huse.
  rewrite length_fmap in Hlen.
  pose proof (apply_associations ps ts sts0 assoc [] [] Hlen) as Hfold. cbn [app] in Hfold.
  rewrite Hfold, settle_touch in Hp; [|rewrite Hids; by apply sorted_nodup|done].
  assert (Hperm : used ++ filter (fun i => i ∉ used) (seq 0 (length ps)) ≡ₚ seq 0 (length ps)).
  { apply used_unused; [done|]. rewrite Hu. by apply Forall_fmap. }
  assert (Hle : (length (filter (fun i => i ∉ used) (seq 0 (length ps))) <= length ps)%nat).
  { apply Permutation_length in Hperm. rewrite length_app, length_seq in Hperm. lia. }
  rewrite add_tracks_eq in Hp by lia. injection Hp as <- <-. split; [|done]. exists assoc, (filter (fun i => i ∉ used) (seq 0 (length ps))).
  split; [by rewrite Hlen; apply length_fmap|]. split; rewrite ?Hc; cbn [fst snd states_ next_track_id_]; try done.
  - by rewrite <-Huse.
  - apply sorted_filter, seq_sorted_lt.
Qed.

(** The life cycle of the tracks. *)
Lemma call_lives batches m m' assoc fresh : call_spec batches m m' assoc fresh ->
  lives m' = zip_with life_step (is_hit <$> assoc) (lives m) ++
             ((fun k => (next_track_id_ m + Z.of_nat k, TENTATIVE, 1, 0)) <$> seq 0 (length fresh)).
Proof.
  intros [_ _ _ Hst _]. unfold lives. rewrite Hst, fmap_app, life_settle, life_added. do 2 f_equal.
  by rewrite <-list_fmap_compose.
Qed.

(** The managers that calls lead to, as long as the ids do not run out. *)
Inductive reachable : TrackManager -> Prop :=
  | reachable_init : reachable TrackManager_init
  | reachable_call batches m out m' :
      reachable m -> next_track_id_ m + Z.of_nat (length (fst (collect batches))) < 2 ^ 64 ->
      process_plots config batches m = (out, m') -> reachable m'.

Lemma reachable_wf m : reachable m -> wf m.
Proof.
  induction 1 as [|batches m out m' _ IH Hb Hp].
  - split_and!; [constructor|constructor|cbn; lia].
  - destruct (process_plots_ok _ _ _ _ IH Hb Hp) as [(assoc & fresh & Hl & Hc) _].
    eapply (wf_extend m m' (is_hit <$> assoc)); [done|by rewrite length_fmap|by apply (call_lives batches)|apply Hc].
Qed.

(** C11: One call of [process_plots] in any state the manager can reach, as long as the ids do
    not run out.  The tracks, moved on by the filter, take plots in their
    order: each the nearest of the plots left, if it is within the gate.  Every plot is taken by one
    track or starts one, and only one.  A track that takes a plot is updated with this
    very plot, any other is missed; the plots left over start tentative tracks at
    their places with the next ids, in their order.  So every track takes the step of the life cycle for a
    hit or a miss; ids stay unique and grow in the order of creation; and the call
    returns the tracks that are not lost, in that order. *)
Theorem track_lifecycle_refined batches m out m' :
  reachable m -> next_track_id_ m + Z.of_nat (length (fst (collect batches))) < 2 ^ 64 ->
  process_plots config batches m = (out, m') ->
  (exists (assoc : list (option nat)) (fresh : list nat),
     length assoc = length (states_ m) /\ call_spec batches m m' assoc fresh /\
     lives m' = zip_with life_step (is_hit <$> assoc) (lives m) ++
                ((fun k => (next_track_id_ m + Z.of_nat k, TENTATIVE, 1, 0)) <$> seq 0 (length fresh))) /\
  StronglySorted Z.lt (ids (states_ m')) /\
  out = snapshot <$> filter (fun st => lifecycle_state (snapshot st) <> LOST) (states_ m').
Proof.
  intros Hr Hb Hp. pose proof (reachable_wf _ Hr) as Hwf.
  destruct (process_plots_ok _ _ _ _ Hwf Hb Hp) as [(assoc & fresh & Hl & Hc) Hout].
  pose proof (call_lives _ _ _ _ _ Hc) as Hlv. split_and!; [by exists assoc, fresh| |done].
  eapply (wf_extend m m' (is_hit <$> assoc)); [done|by rewrite length_fmap|exact Hlv|apply Hc].
Qed.

(** The association of plots to tracks: at most one plot for a track and one track
    for a plot, in the order of the predictions; each plot lies within the gate of
    its track at the distance recorded; and the plots left over are exactly those
    that are not associated. *)
Theorem associations_sound prs ps gate l rest :
  associate prs ps gate = (l, rest) -> NoDup (tp_track_id <$> prs) ->
  NoDup (as_track_id <$> l) /\ sublist (as_track_id <$> l) (tp_track_id <$> prs) /\
  NoDup (plot_index <$> l) /\
  (plot_index <$> l) ++ rest ≡ₚ seq 0 (length ps) /\
  Forall (fun a => fleb binary64 (distance a) gate = true /\
            exists pr p, pr ∈ prs /\ tp_track_id pr = as_track_id a /\ ps !! plot_index a = Some p /\
              distance a = plot_distance p pr) l.
Proof.
  unfold associate. destruct (associate_loop prs ps gate []) as [l0 used] eqn:Ha. intros [= <- <-] Hnd.
  destruct (associate_loop_sound _ _ _ _ _ _ Ha) as (Hsub & Hu & Hndu & Hlt & Hg). rewrite app_nil_r in Hu.
  specialize (Hndu NoDup_nil_2). split; [by eapply sublist_NoDup|]. split; [done|]. split; [by rewrite <-Hu|].
  split; [|done]. rewrite <-Hu. apply used_unused; [done|]. rewrite Hu. by apply Forall_fmap.
Qed.

End Lifecycle.

(** ** Fusion *)

Section Fusion.

Context (fuel : nat).

Definition pick (s t : Track) : Track := if fltb binary32 (confidence s) (confidence t) then t else s.

(** [Fused s g s']: the survivor [s] absorbs the tracks [g], each near the survivor of
    its turn, and ends as [s']. *)
Inductive Fused : Track -> list Track -> Track -> Prop :=
  | fused_nil s : Fused s [] s
  | fused_cons s t g s' :
      should_fuse fuel s t = Some true -> Fused (with_handover (pick s t)) g s' -> Fused s (t :: g) s'.

(** The heading loop ends for every pair of headings. *)
Definition headings_ok (hs : list Z) : Prop :=
  forall a b, a ∈ hs -> b ∈ hs -> is_Some (normalize_heading_delta fuel a b).

Definition unmerged (l : list (Track * bool)) : list Track :=
  omap (fun '(t, merged) => if (merged : bool) then None else Some t) l.

Lemma with_handover_heading t : heading_deg (with_handover t) = heading_deg t.
Proof. by destruct t. Qed.

Lemma with_handover_id t : track_id (with_handover t) = track_id t.
Proof. by destruct t. Qed.

Lemma should_fuse_total hs a b :
  headings_ok hs -> heading_deg a ∈ hs -> heading_deg b ∈ hs -> is_Some (should_fuse fuel a b).
Proof.
  intros Hh Ha Hb. unfold should_fuse. repeat (case_match; [by eexists|]).
  destruct (Hh _ _ Ha Hb) as [h ->]. by eexists.
Qed.

Lemma fuse_with_spec hs rest : forall s,
  headings_ok hs -> heading_deg s ∈ hs -> Forall (fun x => heading_deg (fst x) ∈ hs) rest ->
  exists s' rest' g, fuse_with fuel s rest = Some (s', rest') /\ Fused s g s' /\
    fst <$> rest' = fst <$> rest /\ unmerged rest ≡ₚ g ++ unmerged rest'.
Proof.
  induction rest as [|[t merged] rest IH]; intros s Hh Hs Hr; cbn [fuse_with].
  - exists s, [], []. split_and!; [done|constructor|done|done].
  - inversion Hr as [|? ? Ht Hr']; subst. cbn [fst] in Ht.
    assert (exists near, (if merged then Some false else should_fuse fuel s t) = Some near /\
      (near = true -> merged = false /\ should_fuse fuel s t = Some true)) as (near & -> & Hnear).
    { destruct merged; [by exists false|]. destruct (should_fuse_total hs s t Hh Hs Ht) as [near E].
      exists near. split; [done|]. by intros ->. }
    cbn [mbind option_bind]. destruct near.
    + destruct Hnear as [-> Hf]; [done|].
      destruct (IH (with_handover (pick s t))) as (s' & rest' & g & E & Hg & Hm & Hp); [done| |done|].
      { rewrite with_handover_heading. unfold pick. by case_match. }
      unfold pick in E. rewrite E. cbn [mbind option_bind]. exists s', ((t, true) :: rest'), (t :: g).
      split_and!; [done|by constructor|cbn; by rewrite Hm|]. cbn. by f_equiv.
    + destruct (IH s Hh Hs Hr') as (s' & rest' & g & -> & Hg & Hm & Hp). cbn [mbind option_bind].
      exists s', ((t, merged) :: rest'), g. split_and!; [done|done|cbn; by rewrite Hm|].
      destruct merged; cbn; [done|]. rewrite Hp. by solve_Permutation.
Qed.

Lemma fuse_loop_spec hs n : forall l,
  headings_ok hs -> Forall (fun x => heading_deg (fst x) ∈ hs) l -> n = length l ->
  exists out gs, fuse_loop fuel n l = Some out /\ concat gs ≡ₚ unmerged l /\
    Forall2 (fun g s' => exists s r, g = s :: r /\ Fused s r s') gs out.
Proof.
  induction n as [|n IH]; intros [|[t merged] l] Hh Hl Hn; try discriminate; cbn [fuse_loop].
  - by exists [], [].
  - injection Hn as Hn. inversion Hl as [|? ? Ht Hl']; subst. destruct merged.
    + destruct (IH l Hh Hl' eq_refl) as (out & gs & E & Hc & Hf). by exists out, gs.
    + destruct (fuse_with_spec hs l t Hh Ht Hl') as (s' & l' & g & -> & Hg & Hm & Hp). cbn [mbind option_bind].
      assert (Hl2 : Forall (fun x => heading_deg (fst x) ∈ hs) l').
      { apply (Forall_fmap fst (fun t => heading_deg t ∈ hs)). rewrite Hm. by apply Forall_fmap. }
      assert (Hn2 : length l = length l') by (apply (f_equal length) in Hm; by rewrite !length_fmap in Hm).
      destruct (IH l' Hh Hl2 Hn2) as (out & gs & -> & Hc & Hf). cbn [mbind option_bind].
      exists (s' :: out), ((t :: g) :: gs). split_and!; [done| |constructor; [by exists t, g|done]].
      cbn. rewrite Hc, Hp. done.
Qed.

Lemma Fused_id s g s' : Fused s g s' -> track_id s' ∈ track_id <$> s :: g.
Proof.
  induction 1 as [s|s t g s' _ _ IH]; [set_solver|].
  rewrite fmap_cons in IH. rewrite with_handover_id in IH. unfold pick in IH. case_match; set_solver.
Qed.

(** The survivors of disjoint groups are different tracks. *)
Lemma groups_NoDup gs out :
  Forall2 (fun g s' => exists s r, g = s :: r /\ Fused s r s') gs out ->
  NoDup (track_id <$> concat gs) -> NoDup (track_id <$> out) /\ track_id <$> out ⊆ track_id <$> concat gs.
Proof.
  induction 1 as [|g s' gs out (s & r & -> & Hg) _ IH]; [done|].
  cbn [concat]. rewrite fmap_app. intros (Hn1 & Hd & Hn2)%list.NoDup_app. destruct (IH Hn2) as [Ho Hs].
  apply Fused_id in Hg. rewrite fmap_cons. split; [constructor; [|done]|set_solver].
  intros Hin. apply (Hd (track_id s')); [done|]. by apply Hs.
Qed.

(** Fusion partitions the tracks.  When the heading loop ends for every pair of
    headings, [fuse] returns, and its tracks are the survivors of a partition of the
    input: each group consists of a first track and of tracks near the survivor of their turn, and
    its survivor is the most confident so far, the earlier of equals, with the handover flag
    set exactly by a merge.  No track is lost or counted twice, and unique ids stay unique. *)
Theorem fuse_partitions (ts : list Track) (Hh : headings_ok (heading_deg <$> ts)) :
  exists out gs, fuse fuel ts = Some out /\ concat gs ≡ₚ ts /\
    Forall2 (fun g s' => exists s r, g = s :: r /\ Fused s r s') gs out /\
    (NoDup (track_id <$> ts) -> NoDup (track_id <$> out)).
Proof.
  destruct (fuse_loop_spec (heading_deg <$> ts) (length ts) ((fun t => (t, false)) <$> ts) Hh)
    as (out & gs & E & Hc & Hf).
  { apply Forall_fmap, list.Forall_forall. intros t Ht. by apply list_elem_of_fmap_2. }
  { by rewrite length_fmap. }
  assert (Hu : unmerged ((fun t => (t, false)) <$> ts) = ts).
  { unfold unmerged. clear. induction ts as [|t ts IH]; [done|]. cbn. by f_equal. }
  rewrite Hu in Hc. exists out, gs. split_and!; [done..|].
  intros Hnd. apply (groups_NoDup gs out Hf). by rewrite Hc.
Qed.

End Fusion.

(** ** A run on the x axis *)

(** The mathematical library at the angle 0. *)
#[local] Instance libm0 : Libm := {| cos := fun _ => 0x3FF0000000000000; sin := fun _ => 0; atan2 := fun _ _ => 0 |}.

(** A batch with one plot at 1000 m. *)
Definition one_plot : list (option PlotBatch) :=
  [Some (mkPlotBatch 5 6 1 1 1 0 (Some [mkPlot 0x408F400000000000 0 0 0 0 0 0 1]))].

Definition call (batches : list (option PlotBatch)) (m : TrackManager) : TrackManager :=
  snd (process_plots TrackManagerConfig_default batches m).

Lemma call_reachable batches m :
  reachable TrackManagerConfig_default m ->
  (next_track_id_ m + Z.of_nat (length (fst (collect batches))) <? 2 ^ 64) = true ->
  reachable TrackManagerConfig_default (call batches m).
Proof.
  intros Hr Hb. unfold call. destruct (process_plots _ batches m) as [out m'] eqn:E.
  eapply reachable_call; [done| |done]. by apply Z.ltb_lt.
Qed.

Lemma track_lifecycle_refined_witness :
  exists out m', process_plots TrackManagerConfig_default one_plot (call one_plot TrackManager_init) = (out, m') /\
    lives m' = [(1, TENTATIVE, 2, 0)] /\ StronglySorted Z.lt (ids (states_ m')).
Proof.
  destruct (process_plots TrackManagerConfig_default one_plot (call one_plot TrackManager_init)) as [out m'] eqn:E.
  exists out, m'. split; [reflexivity|]. split.
  - vm_compute in E. injection E as <- <-. vm_compute. reflexivity.
  - apply (track_lifecycle_refined TrackManagerConfig_default one_plot (call one_plot TrackManager_init) out m').
    + apply call_reachable; [apply reachable_init|vm_compute; reflexivity].
    + vm_compute. reflexivity.
    + exact E.
Defined.

Lemma associations_sound_witness :
  exists l rest, associate [mkTrackPrediction 7 0x408F400000000000 0 0]
      [mkPlot 0x40C3880000000000 0 0 0 0 0 0 1; mkPlot 0x408F400000000000 0 0 0 0 0 0 1]
      (association_gate_m TrackManagerConfig_default) = (l, rest) /\
    plot_index <$> l = [1%nat] /\ NoDup (plot_index <$> l).
Proof.
  destruct (associate [mkTrackPrediction 7 0x408F400000000000 0 0]
      [mkPlot 0x40C3880000000000 0 0 0 0 0 0 1; mkPlot 0x408F400000000000 0 0 0 0 0 0 1]
      (association_gate_m TrackManagerConfig_default)) as [l rest] eqn:E.
  exists l, rest. split; [reflexivity|]. split.
  - vm_compute in E. injection E as <- <-. reflexivity.
  - apply (associations_sound _ _ _ l rest E). apply NoDup_singleton.
Defined.

(** Two tracks 10 m apart merge, the third is far away. *)
Lemma fuse_partitions_witness :
  let t id x c := mkTrack id x 0 0 0 0 0 0 c 1 1 0 0 0 0 7 7 in
  exists out, fuse 1 [t 1 0 0x3E4CCCCD; t 2 0x4024000000000000 f1_0; t 3 0x408F400000000000 f1_0] = Some out /\
    track_id <$> out = [2; 3] /\ NoDup (track_id <$> out).
Proof.
  intros t.
  destruct (fuse_partitions 1 [t 1 0 0x3E4CCCCD; t 2 0x4024000000000000 f1_0; t 3 0x408F400000000000 f1_0])
    as (out & gs & E & _ & _ & Hn).
  { intros a b Ha Hb. assert (a = 0 /\ b = 0) as [-> ->] by set_solver. vm_compute. by eexists. }
  exists out. split; [exact E|]. split.
  - vm_compute in E. injection E as <-. reflexivity.
  - apply Hn. apply (bool_decide_eq_true_1 _). vm_compute. reflexivity.
Defined.

Definition target : Plot := mkPlot 0x408F400000000000 0 0 0 0 0 0 1.

(** The filter of a track that has settled on the target. *)
Definition settled : KalmanFilter := mkKalmanFilter true 0x408F400000000000 0 0 0 0 0.

(** The manager knows one track, a lost one that has settled on the target. *)
Definition holds_lost (m : TrackManager) : Prop :=
  exists s h mi, states_ m = [mkTrackState s settled h mi] /\ lifecycle_state s = LOST /\ tracks_ m = [].

Lemma settled_predict : predict (predict_dt_sec TrackManagerConfig_default) settled = settled.
Proof. vm_compute. reflexivity. Qed.

Lemma settled_update :
  plot_to_cartesian target = (0x408F400000000000, 0, 0) /\ update 0x408F400000000000 0 0 settled = settled.
Proof. split; vm_compute; reflexivity. Qed.

(** The target is associated with the settled track, whatever its id. *)
Lemma settled_associate id :
  associate [mkTrackPrediction id 0x408F400000000000 0 0] [target]
    (association_gate_m TrackManagerConfig_default) = ([mkAssociation id 0 0], []).
Proof. vm_compute. reflexivity. Qed.

Lemma holds_lost_call m : holds_lost m -> holds_lost (call one_plot m).
Proof.
  intros (s & h & mi & Hst & Hl & Ht). unfold call, process_plots. rewrite Hst.
  change (collect one_plot) with ([target], 5). cbn [fmap list_fmap].
  unfold predict_state at 1 2. cbn [snapshot kf hits misses]. rewrite settled_predict.
  unfold prediction. cbn [snapshot kf settled x_ y_ z_]. rewrite settled_associate.
  cbn [length replicate foldl]. unfold apply_association. cbn [find_state snapshot as_track_id].
  rewrite Z.eqb_refl. cbn [alter list_alter plot_index nth insert list_insert zip_with add_tracks app snd].
  destruct settled_update as [Hc Hu]. unfold hit_state. rewrite Hc. cbn [kf snapshot hits]. rewrite Hu, Hl.
  cbn [LOST TENTATIVE COASTING Z.eqb andb]. eexists _, _, _. split; [reflexivity|]. split; reflexivity.
Qed.

(** A lost track keeps its place and is still offered plots, but a hit does not
    bring it back: a target that is detected once, missed ten times and then
    detected in any number of calls at the same place is not reported again, since
    every plot of it hits the lost track. *)
Theorem lost_track_swallows_target k :
  let gone := Nat.iter 10 (call []) (call one_plot TrackManager_init) in
  let m := Nat.iter k (call one_plot) gone in
  tracks_ m = [] /\ length (states_ m) = 1%nat.
Proof.
  intros gone m. assert (Hm : holds_lost m).
  { subst m. induction k as [|k IH]; [|by apply holds_lost_call].
    subst gone. eexists _, _, _. vm_compute. split; [reflexivity|]. split; reflexivity. }
  destruct Hm as (s & h & mi & -> & _ & ->). done.
Qed.

End Tracks.
