(* ===== verification/Gateway.v ===== *)
(** The gateway (M04): [TrackDataSerializer], [OutputThrottle], [HmiSessionManager],
    [UdpSender] and [TcpServer] ([src/m04_gateway/*.cpp]). *)

From S2P Require Import Prelude Float TrackTypes.
From Stdlib Require Import Sorted.
From stdpp Require Import strings sorting.
Open Scope Z_scope.

Module Gateway.
Import TrackTypes.

(** ** Serializer *)

(** [append_bytes] of a [w]-byte integer. *)
Definition append_bytes (w : nat) (value : Z) (out : bytes) : bytes := out ++ le_store w value.

(** [read_bytes]: the bytes and the new offset, [None] for the exception. *)
Definition read_bytes (w : nat) (data : bytes) (len offset : nat) : option (bytes * nat) :=
  if (len <? offset + w)%nat then None else Some (take w (drop offset data), (offset + w)%nat).

Definition bool_byte (b : bool) : Z := if b then 1 else 0.

(** [serialize]; [None] if [tracks] is [nullptr] or shorter than [track_count]. *)
Definition serialize (frame : TrackFrame) : option bytes :=
  let out := append_bytes 8 (frame_seq frame) [] in
  let out := append_bytes 8 (data_timestamp_ns frame) out in
  let out := append_bytes 8 (backend_instance_id frame) out in
  let out := append_bytes 1 (clock_domain frame) out in
  let out := append_bytes 1 (coverage_mask frame) out in
  let out := append_bytes 2 (track_count frame) out in
  let out := append_bytes 4 (system_quality_flags frame) out in
  let out := append_bytes 1 (bool_byte (is_truncated frame)) out in
  let out := append_bytes 2 (dropped_count frame) out in
  let n := Z.to_nat (track_count frame) in
  match n with
  | O => Some out
  | S _ =>
    ts ← tracks frame;
    if (length ts <? n)%nat then None
    else Some (foldl (fun out t => out ++ Track_bytes t) out (take n ts))
  end.

(** The loop that reads the tracks. *)
Fixpoint read_tracks (n : nat) (data : bytes) (len offset : nat) : option (list Track) :=
  match n with
  | O => Some []
  | S n =>
    '(bs, offset) ← read_bytes sizeof_Track data len offset;
    ts ← read_tracks n data len offset;
    Some (Track_of_fields (decode_fields Track_layout bs) :: ts)
  end.

Definition deserialize (data : bytes) (len : nat) : option TrackFrame :=
  '(f1, o) ← read_bytes 8 data len 0;
  '(f2, o) ← read_bytes 8 data len o;
  '(f3, o) ← read_bytes 8 data len o;
  '(f4, o) ← read_bytes 1 data len o;
  '(f5, o) ← read_bytes 1 data len o;
  '(f6, o) ← read_bytes 2 data len o;
  '(f7, o) ← read_bytes 4 data len o;
  '(f8, o) ← read_bytes 1 data len o;
  '(f9, o) ← read_bytes 2 data len o;
  let count := le_load f6 in
  ts ← (if 0 <? count then Some <$> read_tracks (Z.to_nat count) data len o else Some None);
  Some (mkTrackFrame (le_load f1) (le_load f2) (le_load f3) (le_load f4) (le_load f5) count
          (le_load f7) (negb (le_load f8 =? 0)) (le_load f9) ts).

(** [UdpSender::send_frame]: the stored payload and the result. *)
Definition send_frame (frame : TrackFrame) : option (bytes * bool) :=
  payload ← serialize frame;
  Some (payload, negb (bool_decide (payload = []))).

(** ** Throttle *)

Record OutputThrottle := mkOutputThrottle { min_frame_gap_ms_ : Z; last_frame_seq_ : Z }.

Definition should_send (seq : Z) (t : OutputThrottle) : bool * OutputThrottle :=
  if last_frame_seq_ t =? 0 then (true, mkOutputThrottle (min_frame_gap_ms_ t) seq)
  else if seq <=? last_frame_seq_ t then (false, t)
  else if (0 <? min_frame_gap_ms_ t) && (seq -[64] last_frame_seq_ t <? 1) then (false, t)
  else (true, mkOutputThrottle (min_frame_gap_ms_ t) seq).

(** [lhs.confidence > rhs.confidence]. *)
Definition more_confident (a b : Track) : bool :=
  Float.fltb Float.binary32 (confidence b) (confidence a).

(** [truncate]; [sort] is [std::sort] with [more_confident]; [None] where [tracks] does
    not have [track_count] elements. *)
Definition truncate (sort : list Track -> list Track) (frame : TrackFrame) (max_tracks : Z)
    : option TrackFrame :=
  let '(mkTrackFrame seq ts inst dom cov count q trunc drop trk) := frame in
  let n := Z.to_nat count in
  if count <=? max_tracks then
    if 0 <? count then
      l ← trk;
      if (length l <? n)%nat then None
      else Some (mkTrackFrame seq ts inst dom cov count q trunc drop (Some (take n l)))
    else Some (mkTrackFrame seq ts inst dom cov count q trunc drop None)
  else
    l ← trk;
    if (length l <? n)%nat then None
    else
      let sorted := sort (take n l) in
      Some (mkTrackFrame seq ts inst dom cov (u16 max_tracks) q true (u16 (count -[64] max_tracks))
              (Some (take (Z.to_nat max_tracks) sorted))).

(** ** Sessions *)

Record HmiSession := mkHmiSession {
  session_id : Z;
  peer_name : string;
  last_pong_ns : Z;
  alive : bool;
}.

Abbreviation Sessions := (gmap Z HmiSession).

Definition upsert (id : Z) (peer : string) (now_ns : Z) (m : Sessions) : Sessions :=
  <[id := mkHmiSession id peer now_ns true]> m.

Definition mark_pong (id now_ns : Z) (m : Sessions) : Sessions :=
  match m !! id with
  | None => m
  | Some s => <[id := mkHmiSession (session_id s) (peer_name s) now_ns true]> m
  end.

Definition sweep_session (now_ns timeout_ns : Z) (s : HmiSession) : HmiSession :=
  if last_pong_ns s +[64] timeout_ns <? now_ns
  then mkHmiSession (session_id s) (peer_name s) (last_pong_ns s) false else s.

Definition sweep_timeouts (now_ns timeout_ns : Z) (m : Sessions) : Sessions :=
  sweep_session now_ns timeout_ns <$> m.

Definition alive_count (m : Sessions) : nat :=
  size (filter (fun kv : Z * HmiSession => alive kv.2 = true) m).

(** [TcpServer::handle_command_for_test]. *)
Record CommandAck := mkCommandAck { success : bool; error_code : Z; error_message : string }.

Definition handle_command (handler : option (string -> CommandAck)) (payload : string) : CommandAck :=
  match handler with
  | None => mkCommandAck false 1 "command handler not configured"
  | Some h => h payload
  end.

(** ** Round trip *)

Definition header_layout : layout := [8;8;8;1;1;2;4;1;2]%nat.

Definition header_fields (f : TrackFrame) : list Z :=
  [frame_seq f; data_timestamp_ns f; backend_instance_id f; clock_domain f; coverage_mask f; track_count f;
   system_quality_flags f; bool_byte (is_truncated f); dropped_count f].

(** A frame whose fields fit their widths and that has the tracks it counts. *)
Definition frame_ok (f : TrackFrame) : Prop :=
  fields_ok header_layout (header_fields f) /\
  match tracks f with
  | None => track_count f = 0
  | Some ts => track_count f = Z.of_nat (length ts) /\ ts <> [] /\ Forall Track_ok ts
  end.

Definition tracks_bytes (ts : list Track) : bytes := concat (Track_bytes <$> ts).

Lemma length_tracks_bytes ts : length (tracks_bytes ts) = (length ts * sizeof_Track)%nat.
Proof.
  unfold tracks_bytes. induction ts as [|t ts IH]; cbn [fmap list_fmap concat length]; [done|].
  rewrite length_app, length_Track_bytes, IH. lia.
Qed.

Lemma foldl_tracks ts out : foldl (fun out t => out ++ Track_bytes t) out ts = out ++ tracks_bytes ts.
Proof.
  unfold tracks_bytes. revert out. induction ts as [|t ts IH]; intros out; cbn; [by rewrite app_nil_r|].
  rewrite IH. by rewrite <-app_assoc.
Qed.

(** What [serialize] writes. *)
Definition frame_bytes (f : TrackFrame) : bytes :=
  encode_fields header_layout (header_fields f) ++ tracks_bytes (default [] (tracks f)).

Lemma serialize_bytes f : frame_ok f -> serialize f = Some (frame_bytes f).
Proof.
  intros [_ Hts]. unfold serialize, frame_bytes, append_bytes.
  replace (encode_fields header_layout (header_fields f)) with
    (((((((((([] ++ le_store 8 (frame_seq f)) ++ le_store 8 (data_timestamp_ns f)) ++ le_store 8 (backend_instance_id f)) ++
      le_store 1 (clock_domain f)) ++ le_store 1 (coverage_mask f)) ++ le_store 2 (track_count f)) ++
      le_store 4 (system_quality_flags f)) ++ le_store 1 (bool_byte (is_truncated f))) ++ le_store 2 (dropped_count f)))
    by (cbn [header_layout header_fields encode_fields]; by rewrite <-!app_assoc, ?app_nil_l, ?app_nil_r).
  destruct (tracks f) as [ts|].
  - destruct Hts as (Hc & Hne & _). rewrite Hc, Nat2Z.id. destruct ts as [|t ts]; [done|].
    cbn [length mbind option_bind]. rewrite (proj2 (Nat.ltb_ge _ _)) by done.
    rewrite take_ge, foldl_tracks by done. done.
  - rewrite Hts. unfold tracks_bytes. cbn [Z.to_nat default from_option fmap list_fmap concat]. by rewrite app_nil_r.
Qed.

Lemma length_frame_bytes f :
  length (frame_bytes f) = (35 + length (default [] (tracks f)) * sizeof_Track)%nat.
Proof.
  unfold frame_bytes. rewrite length_app, length_tracks_bytes, length_encode_fields by done. done.
Qed.

(** The header is read as a packed struct. *)
Lemma deserialize_header data len :
  deserialize data len =
  if (len <? 35)%nat then None
  else
    match decode_fields header_layout data with
    | [f1; f2; f3; f4; f5; count; f7; f8; f9] =>
      ts ← (if 0 <? count then Some <$> read_tracks (Z.to_nat count) data len 35 else Some None);
      Some (mkTrackFrame f1 f2 f3 f4 f5 count f7 (negb (f8 =? 0)) f9 ts)
    | _ => None
    end.
Proof.
  unfold deserialize, read_bytes.
  destruct (Nat.ltb_spec len 35) as [Hlt|Hge].
  - repeat (match goal with |- context [(len <? ?k)%nat] => destruct (Nat.ltb_spec len k) end;
            [done|cbn [mbind option_bind Nat.add]]). lia.
  - repeat (rewrite (proj2 (Nat.ltb_ge len _)) by lia; cbn [mbind option_bind Nat.add]).
    cbn [decode_fields header_layout]. rewrite !drop_drop. cbn [Nat.add]. rewrite drop_0. done.
Qed.

Lemma read_tracks_ok ts : forall pre rest len,
  Forall Track_ok ts -> (length pre + length ts * sizeof_Track <= len)%nat ->
  read_tracks (length ts) (pre ++ tracks_bytes ts ++ rest) len (length pre) = Some ts.
Proof.
  induction ts as [|t ts IH]; intros pre rest len Hok Hlen; [done|].
  apply Forall_cons_1 in Hok as [Ht Hok]. cbn [length read_tracks] in *. unfold read_bytes.
  rewrite (proj2 (Nat.ltb_ge _ _)) by (unfold sizeof_Track in *; lia). cbn [mbind option_bind].
  rewrite drop_app_length. change (tracks_bytes (t :: ts)) with (Track_bytes t ++ tracks_bytes ts).
  rewrite <-app_assoc, take_app_length' by by rewrite length_Track_bytes.
  specialize (IH (pre ++ Track_bytes t) rest len Hok). rewrite <-app_assoc, length_app, length_Track_bytes in IH.
  rewrite IH by lia. cbn [mbind option_bind]. rewrite <-(app_nil_r (Track_bytes t)), Track_of_bytes by done. done.
Qed.

Lemma read_tracks_short n : forall data len offset,
  (len < offset + n * sizeof_Track)%nat -> (0 < n)%nat -> read_tracks n data len offset = None.
Proof.
  induction n as [|n IH]; intros data len offset Hlen Hn; [lia|]. cbn [read_tracks]. unfold read_bytes.
  destruct (Nat.ltb_spec len (offset + sizeof_Track)); [done|]. cbn [mbind option_bind].
  destruct n as [|n]; [unfold sizeof_Track in *; lia|]. rewrite IH; [done|unfold sizeof_Track in *; lia|lia].
Qed.

(** C28: A track frame that is serialized and read back is the same frame, whatever
    follows it in the buffer; the message has 35 bytes and 96 for each track; and
    when the buffer is cut short anywhere, [deserialize] throws instead of
    returning a frame. *)
Theorem track_frame_roundtrip f rest len :
  frame_ok f ->
  let n := length (default [] (tracks f)) in
  exists bs, serialize f = Some bs /\ length bs = (35 + 96 * n)%nat /\
    ((length bs <= len)%nat -> deserialize (bs ++ rest) len = Some f) /\
    ((len < length bs)%nat -> deserialize (bs ++ rest) len = None).
Proof.
  intros Hok n. exists (frame_bytes f). subst n. pose proof Hok as [Hf Hts].
  assert (Hlen : length (frame_bytes f) = (35 + 96 * length (default [] (tracks f)))%nat).
  { rewrite length_frame_bytes. unfold sizeof_Track. lia. }
  split; [by apply serialize_bytes|]. split; [done|].
  assert (Hd : decode_fields header_layout (frame_bytes f ++ rest) = header_fields f).
  { unfold frame_bytes. rewrite <-app_assoc. by apply decode_encode_fields. }
  assert (Hpre : length (encode_fields header_layout (header_fields f)) = 35%nat) by (by rewrite length_encode_fields).
  rewrite deserialize_header, Hd. cbn [header_fields]. split; intros Hl.
  - rewrite (proj2 (Nat.ltb_ge _ _)) by lia.
    destruct (tracks f) as [ts|] eqn:Et.
    + destruct Hts as (Hc & Hne & Hall). rewrite Hc. destruct (Z.ltb_spec 0 (Z.of_nat (length ts))).
      * rewrite Nat2Z.id. unfold frame_bytes. rewrite Et. cbn [default from_option].
        rewrite <-app_assoc. rewrite <-Hpre at 1. rewrite read_tracks_ok; [|done|].
        -- cbn. destruct f as [? ? ? ? ? ? ? [] ? ?]; cbn in *; subst; done.
        -- rewrite Hpre. unfold sizeof_Track. cbn [default from_option] in *. lia.
      * destruct ts; [done|cbn [length] in *; lia].
    + rewrite Hts. cbn. destruct f as [? ? ? ? ? ? ? [] ? ?]; cbn in *; subst; done.
  - destruct (Nat.ltb_spec len 35); [done|]. destruct (tracks f) as [ts|]; [|cbn [default from_option id length] in *; lia].
    destruct Hts as (Hc & Hne & Hall). rewrite Hc. destruct ts as [|t ts]; [done|].
    destruct (Z.ltb_spec 0 (Z.of_nat (length (t :: ts)))); [|cbn [length] in *; lia].
    rewrite Nat2Z.id, read_tracks_short; [done|unfold sizeof_Track; cbn [default from_option id length] in *; lia|cbn; lia].
Qed.

(** ** Throttle *)

(** The sequence numbers that [should_send] lets through. *)
Fixpoint sent (seqs : list Z) (t : OutputThrottle) : list Z :=
  match seqs with
  | [] => []
  | seq :: seqs => let '(b, t) := should_send seq t in (if b then [seq] else []) ++ sent seqs t
  end.

(** The records of a list: the elements greater than [last] and all before them. *)
Fixpoint records (last : Z) (seqs : list Z) : list Z :=
  match seqs with
  | [] => []
  | seq :: seqs => if seq <=? last then records last seqs else seq :: records seq seqs
  end.

Lemma should_send_spec seq t :
  is_u64 seq -> seq <> 0 -> is_u64 (last_frame_seq_ t) ->
  should_send seq t =
  if seq <=? last_frame_seq_ t then (false, t) else (true, mkOutputThrottle (min_frame_gap_ms_ t) seq).
Proof.
  intros Hs Hn Ht. unfold should_send.
  destruct (Z.eqb_spec (last_frame_seq_ t) 0) as [E|E].
  - rewrite E. destruct (Z.leb_spec seq 0); [wrap_lia|done].
  - destruct (Z.leb_spec seq (last_frame_seq_ t)); [done|].
    destruct (Z.ltb_spec (seq -[64] last_frame_seq_ t) 1); [wrap_lia|]. by rewrite andb_false_r.
Qed.

Lemma sent_records gap seqs : forall last,
  is_u64 last -> Forall (fun s => is_u64 s /\ s <> 0) seqs ->
  sent seqs (mkOutputThrottle gap last) = records last seqs.
Proof.
  induction seqs as [|seq seqs IH]; intros last Hl Hs; [done|].
  apply Forall_cons_1 in Hs as [[Hu Hn] Hs]. cbn [sent records].
  rewrite should_send_spec by done. cbn [last_frame_seq_ min_frame_gap_ms_].
  destruct (seq <=? last); cbn; [by apply IH|]. by rewrite IH.
Qed.

Lemma records_sorted seqs : forall last, StronglySorted Z.lt (records last seqs) /\ Forall (Z.lt last) (records last seqs).
Proof.
  induction seqs as [|seq seqs IH]; intros last; cbn [records]; [split; constructor|].
  destruct (Z.leb_spec seq last) as [Hle|Hlt]; [apply IH|]. destruct (IH seq) as [H1 H2]. split.
  - by constructor.
  - apply Forall_cons_2; [done|]. eapply list.Forall_impl; [exact H2|]. cbn. lia.
Qed.

(** Whatever the configured minimum gap, the throttle lets exactly the frames
    through whose non-zero sequence number exceeds all before it: the numbers
    sent are strictly increasing, a new maximum is never held back, and the gap
    setting has no effect. *)
Theorem throttle_sends_new_maxima gap seqs :
  Forall (fun s => is_u64 s /\ s <> 0) seqs ->
  sent seqs (mkOutputThrottle gap 0) = records 0 seqs /\
  StronglySorted Z.lt (sent seqs (mkOutputThrottle gap 0)) /\
  (forall i s, seqs !! i = Some s -> Forall (fun x => x < s) (take i seqs) ->
     s ∈ sent seqs (mkOutputThrottle gap 0)).
Proof.
  intros Hs. rewrite sent_records by (done || (unfold in_range; lia)). split; [done|]. split; [apply records_sorted|].
  assert (Hgt : Forall (fun s => 0 < s) seqs).
  { eapply list.Forall_impl; [exact Hs|]. cbn. unfold in_range. lia. }
  clear Hs. intros i s Hi. assert (Hl : 0 < s) by (eapply Forall_lookup_1 in Hgt; [exact Hgt|done]).
  revert Hl Hi. clear Hgt. generalize 0 as last. revert i. induction seqs as [|seq seqs IH]; intros i last Hl Hi Hb; [done|].
  cbn [records]. destruct i as [|i]; cbn in Hi.
  - injection Hi as ->. destruct (Z.leb_spec s last); [lia|]. set_solver.
  - cbn [take] in Hb. apply Forall_cons_1 in Hb as [Hlt Hb].
    destruct (seq <=? last); [by eapply IH|]. apply elem_of_cons. right. by eapply IH.
Qed.

Lemma throttle_sends_new_maxima_witness :
  sent [5; 5; 3; 9; 8; 10] (mkOutputThrottle 1000 0) = [5; 9; 10].
Proof.
  destruct (throttle_sends_new_maxima 1000 [5; 5; 3; 9; 8; 10]) as [H _].
  - repeat constructor; vm_compute; try discriminate; reflexivity.
  - exact H.
Defined.

(** ** Truncation *)

(** What the standard promises of [std::sort] on a range. *)
Definition sorts (sort : list Track -> list Track) (l : list Track) : Prop :=
  sort l ≡ₚ l /\ StronglySorted (fun a b => more_confident b a = false) (sort l).

(** A frame with more tracks than the limit keeps exactly the limit, and no track
    that is dropped has more confidence than one that is kept; the kept and the
    dropped ones are the tracks of the frame, the counts say how many of each there
    are, and the truncated frame serializes to at most [35 + 96 * max_tracks]
    bytes (1187 for twelve tracks, within the 1200 of a datagram). *)
Theorem truncate_keeps_most_confident sort f max_tracks ts :
  sorts sort ts -> frame_ok f -> tracks f = Some ts -> 0 <= max_tracks < track_count f ->
  exists f' kept dropped,
    truncate sort f max_tracks = Some f' /\ tracks f' = Some kept /\ ts ≡ₚ kept ++ dropped /\
    Forall (fun k => Forall (fun d => more_confident d k = false) dropped) kept /\
    track_count f' = max_tracks /\ Z.of_nat (length kept) = max_tracks /\
    is_truncated f' = true /\ dropped_count f' = Z.of_nat (length dropped) /\
    (0 < max_tracks -> exists bs, serialize f' = Some bs /\ Z.of_nat (length bs) = 35 + 96 * max_tracks).
Proof.
  intros Hsort [Hf Hts] Et Hm. rewrite Et in Hts. destruct Hts as (Hc & Hne & Hok).
  destruct f as [seq tm inst dom cov count q trunc drop trk]. cbn [tracks track_count] in *. subst trk.
  unfold truncate. cbn [mbind option_bind].
  unfold fields_ok, header_layout, header_fields in Hf. cbn in Hf.
  rewrite !Forall2_cons in Hf. destruct Hf as (Hf1 & Hf2 & Hf3 & Hf4 & Hf5 & Hf6 & Hf7 & Hf8 & Hf9 & _).
  assert (Hr : 0 <= max_tracks < count /\ count < 65536) by (split; [lia|wrap_lia]).
  destruct (Z.leb_spec count max_tracks); [lia|]. rewrite Hc, Nat2Z.id.
  rewrite (proj2 (Nat.ltb_ge _ _)) by done. rewrite firstn_all.
  destruct Hsort as [Hp Hs]. set (k := Z.to_nat max_tracks).
  exists (mkTrackFrame seq tm inst dom cov (u16 max_tracks) q true (u16 (Z.of_nat (length ts) -[64] max_tracks)) (Some (take k (sort ts)))), (take k (sort ts)), (List.skipn k (sort ts)).
  assert (Hlen : length (sort ts) = length ts) by (by rewrite Hp).
  assert (Hlk : Z.of_nat (length (take k (sort ts))) = max_tracks) by (rewrite length_take; subst k; lia).
  assert (Hld : Z.of_nat (length (List.skipn k (sort ts))) = count - max_tracks).
  { rewrite length_drop. subst k. lia. }
  assert (Hmx : u16 max_tracks = max_tracks) by (apply wrap_small; unfold in_range; lia).
  split_and!; cbn [tracks track_count is_truncated dropped_count]; try done.
  - rewrite take_drop. by symmetry.
  - rewrite <-(take_drop k (sort ts)) in Hs. apply StronglySorted_app in Hs as (Hs & _ & _).
    apply list.Forall_forall. intros a Ha. apply list.Forall_forall. intros b Hb. by apply Hs.
  - rewrite Hld. wrap_lia.
  - intros Hpos. rewrite serialize_bytes.
    + eexists. split; [reflexivity|]. rewrite length_frame_bytes. cbn [tracks default from_option id]. unfold sizeof_Track. lia.
    + split.
      * unfold fields_ok, header_layout, header_fields. cbn. rewrite !Forall2_cons. split_and!; try done; try wrap_lia.
      * cbn [tracks track_count]. split; [lia|]. split; [intros E; rewrite E in Hlk; cbn in Hlk; lia|].
        apply Forall_take. by rewrite Hp.
Qed.

(** ** Sessions *)

Inductive SessionOp := Upsert (id : Z) (peer : string) (now : Z) | Pong (id now : Z) | Sweep (now timeout : Z).

Definition session_step (m : Sessions) (op : SessionOp) : Sessions :=
  match op with
  | Upsert id peer now => upsert id peer now m
  | Pong id now => mark_pong id now m
  | Sweep now timeout => sweep_timeouts now timeout m
  end.

Definition run_sessions (ops : list SessionOp) : Sessions := foldl session_step ∅ ops.

(** The operation is a contact of the session at that time. *)
Definition contact (id now : Z) (op : SessionOp) : Prop :=
  match op with
  | Upsert i _ t | Pong i t => i = id /\ t = now
  | Sweep _ _ => False
  end.

(** No sweep of [ops] finds a session last heard of at [last] expired, and none of
    them is a contact of it. *)
Definition unexpired (last : Z) (op : SessionOp) : bool :=
  match op with Sweep now timeout => negb (last +[64] timeout <? now) | _ => true end.

Definition quiet (id : Z) (op : SessionOp) : Prop :=
  match op with Upsert i _ _ | Pong i _ => i <> id | Sweep _ _ => True end.

(** The session was last heard of at its [last_pong_ns] and is alive exactly if it
    has not expired since. *)
Definition heard (ops : list SessionOp) (id : Z) (s : HmiSession) : Prop :=
  exists pre op post, ops = pre ++ op :: post /\ contact id (last_pong_ns s) op /\
    Forall (quiet id) post /\ alive s = forallb (unexpired (last_pong_ns s)) post.

(** After any sequence of operations, a session that exists was last contacted
    (registered or answered a ping) exactly at its [last_pong_ns], and it is alive
    exactly if no sweep since then found that time expired. *)
Theorem session_alive_iff_unexpired ops id s :
  run_sessions ops !! id = Some s ->
  session_id s = id /\ heard ops id s.
Proof.
  unfold run_sessions. revert s. induction ops as [|op ops IH] using rev_ind; intros s Hs; [done|].
  rewrite foldl_app in Hs. cbn in Hs. set (m := foldl session_step ∅ ops) in *.
  assert (Hkeep : quiet id op -> forall s0, m !! id = Some s0 -> session_id s = session_id s0 ->
    last_pong_ns s = last_pong_ns s0 -> alive s = alive s0 && unexpired (last_pong_ns s0) op ->
    session_id s = id /\ heard (ops ++ [op]) id s).
  { intros Hq s0 Hs0 E1 E2 E3. destruct (IH s0 Hs0) as (Hid & pre & o & post & -> & Hc & Hqs & Ha).
    split; [by rewrite E1|]. exists pre, o, (post ++ [op]). rewrite E2, <-app_assoc. split; [done|]. split; [done|].
    split; [by apply Forall_app_2; [|repeat constructor]|]. rewrite forallb_app, E3, Ha. cbn. by rewrite andb_true_r. }
  destruct op as [i peer now|i now|now timeout]; cbn [session_step] in Hs.
  - unfold upsert in Hs. destruct (decide (i = id)) as [->|Hne].
    + rewrite lookup_insert_eq in Hs. injection Hs as <-. split; [done|]. exists ops, (Upsert id peer now), [].
      repeat split; constructor.
    + rewrite lookup_insert_ne in Hs by done. eapply Hkeep; [done..|]. cbn. by rewrite andb_true_r.
  - unfold mark_pong in Hs. destruct (m !! i) as [s0|] eqn:E; [destruct (decide (i = id)) as [->|Hne]|].
    + rewrite lookup_insert_eq in Hs. injection Hs as <-. destruct (IH s0 E) as (Hid & _). split; [done|].
      exists ops, (Pong id now), []. repeat split; constructor.
    + rewrite lookup_insert_ne in Hs by done. eapply Hkeep; [done..|]. cbn. by rewrite andb_true_r.
    + assert (i <> id) by (intros ->; congruence). eapply Hkeep; [done..|]. cbn. by rewrite andb_true_r.
  - unfold sweep_timeouts in Hs. rewrite lookup_fmap in Hs. destruct (m !! id) as [s0|] eqn:E; [|done].
    cbn in Hs. injection Hs as <-. eapply Hkeep; [done|done| | |].
    all: unfold sweep_session; cbn [unexpired]; destruct (_ <? now); cbn; by rewrite ?andb_false_r, ?andb_true_r.
Qed.

Lemma session_alive_iff_unexpired_witness :
  exists s, run_sessions [Upsert 4 "hmi" 100; Sweep 150 30; Pong 4 160; Sweep 180 30] !! 4 = Some s /\
    last_pong_ns s = 160 /\ session_id s = 4.
Proof.
  eexists. split; [vm_compute; reflexivity|]. split; [reflexivity|].
  apply (session_alive_iff_unexpired [Upsert 4 "hmi" 100; Sweep 150 30; Pong 4 160; Sweep 180 30] 4).
  vm_compute. reflexivity.
Defined.

(** Two tracks with confidence 0.2 and 0.6, the limit is one. *)
Definition demo_track (id conf : Z) : Track := mkTrack id 0 0 0 0 0 0 0 conf 1 1 0 0 0 0 7 7.

Definition demo_frame : TrackFrame :=
  mkTrackFrame 3 7 1 0 7 2 0 false 0 (Some [demo_track 1 0x3E4CCCCD; demo_track 2 0x3F19999A]).

Lemma demo_frame_ok : frame_ok demo_frame.
Proof.
  split; [unfold fields_ok; repeat constructor; vm_compute; try discriminate; reflexivity|].
  cbn [tracks demo_frame track_count]. split; [done|]. split; [done|].
  repeat constructor; vm_compute; try discriminate; reflexivity.
Qed.

Lemma track_frame_roundtrip_witness :
  exists bs, serialize demo_frame = Some bs /\ length bs = 227%nat /\
    deserialize (bs ++ [1; 2; 3]) 230 = Some demo_frame.
Proof.
  destruct (track_frame_roundtrip demo_frame [1; 2; 3] 230 demo_frame_ok) as (bs & H1 & H2 & H3 & _).
  exists bs. split; [exact H1|]. split; [exact H2|]. apply H3. rewrite H2. vm_compute. lia.
Defined.

Lemma truncate_keeps_most_confident_witness :
  exists f', truncate (@rev Track) demo_frame 1 = Some f' /\ tracks f' = Some [demo_track 2 0x3F19999A] /\
    dropped_count f' = 1.
Proof.
  destruct (truncate_keeps_most_confident (@rev Track) demo_frame 1
              [demo_track 1 0x3E4CCCCD; demo_track 2 0x3F19999A]) as (f' & kept & dropped & H1 & H2 & _).
  - split; [apply Permutation_swap|]. repeat constructor.
  - exact demo_frame_ok.
  - reflexivity.
  - vm_compute. split; congruence.
  - exists f'. split; [exact H1|]. vm_compute in H1. injection H1 as <-. split; reflexivity.
Defined.

End Gateway.
