(* ===== verification/Text.v ===== *)
(** Text output of the standard library: decimal integers, the general and the
    fixed format of a [double] with six digits, and the reading of text by lines.
    The formats round the exact value of the number to the nearest decimal, ties
    to even, as the conversions [%g] and [%f] do. *)

From S2P Require Import Prelude Float.
From stdpp Require Import strings pretty.
From Stdlib Require Import Ascii Floats.SpecFloat.
Open Scope Z_scope.
Import Float.

Module Text.

(** ** Characters *)

Definition nl : string := String "010"%char EmptyString.
Definition quote : string := String (Ascii.ascii_of_nat 34) EmptyString.

(** Every character of the text satisfies the test. *)
Fixpoint chars_in (ok : Ascii.ascii -> bool) (s : string) : bool :=
  match s with
  | EmptyString => true
  | String c s => ok c && chars_in ok s
  end.

(** Neither a blank nor a line feed: a name or a value of a sample. *)
Definition word_char (c : Ascii.ascii) : bool :=
  negb (bool_decide (c = " "%char)) && negb (bool_decide (c = "010"%char)).

Definition line_char (c : Ascii.ascii) : bool := negb (bool_decide (c = "010"%char)).

Definition digit_char (c : Ascii.ascii) : bool := bool_decide (is_Some (Ascii.is_nat c)).

Fixpoint zeros (n : nat) : string :=
  match n with O => "" | S n => "0" +:+ zeros n end.

(** The longest prefix of characters that satisfy the test, and the rest. *)
Fixpoint span (ok : Ascii.ascii -> bool) (s : string) : string * string :=
  match s with
  | EmptyString => (EmptyString, EmptyString)
  | String c s' => if ok c then let '(a, b) := span ok s' in (String c a, b) else (EmptyString, s)
  end.

(** ** Integers *)

Definition decimal (n : Z) : string := pretty (Z.to_N n).

Definition pad (width : nat) (s : string) : string := zeros (width - String.length s) +:+ s.

(** ** Numbers *)

(** [num / den] rounded to an integer, ties to even. *)
Definition round_even (num den : Z) : Z :=
  let q := num / den in
  let r := num mod den in
  if 2 * r <? den then q
  else if den <? 2 * r then q + 1
  else if Z.even q then q else q + 1.

(** The value of a finite number, as numerator and denominator. *)
Definition ratio (m : positive) (e : Z) : Z * Z :=
  if 0 <=? e then (Z.pos m * 2 ^ e, 1) else (Z.pos m, 2 ^ (- e)).

(** The scaling of a ratio by a power of ten, of either sign. *)
Definition scaled (num den k : Z) : Z :=
  if 0 <=? k then round_even (num * 10 ^ k) den else round_even num (den * 10 ^ (- k)).

(** The decimal exponent of a ratio; a [double] is not below 10^-324. *)
Fixpoint exponent_below (fuel : nat) (num den k : Z) : Z :=
  match fuel with
  | O => k
  | S fuel => if den <=? num * 10 ^ (- k) then k else exponent_below fuel num den (k - 1)
  end.

Definition exponent10 (num den : Z) : Z :=
  if den <=? num then Z.of_nat (String.length (decimal (num / den))) - 1
  else exponent_below 400 num den (-1).

Fixpoint strip_zeros (s : string) : string :=
  match s with
  | EmptyString => EmptyString
  | String c s =>
    match strip_zeros s with
    | EmptyString => if bool_decide (c = "0"%char) then EmptyString else String c EmptyString
    | s => String c s
    end
  end.

Definition fraction (s : string) : string :=
  match strip_zeros s with EmptyString => "" | s => "." +:+ s end.

Definition sign (s : bool) : string := if s then "-" else "".

(** Six significant digits of a positive number, with its decimal exponent. *)
Definition six_digits (num den : Z) : Z * Z :=
  let x := exponent10 num den in
  let d := scaled num den (5 - x) in
  if d =? 10 ^ 6 then (10 ^ 5, x + 1) else (d, x).

Definition general_ratio (num den : Z) : string :=
  let '(d, x) := six_digits num den in
  let ds := decimal d in
  if (-4 <=? x) && (x <? 6) then
    if 0 <=? x then
      String.substring 0 (Z.to_nat x + 1) ds
        +:+ fraction (String.substring (Z.to_nat x + 1) (5 - Z.to_nat x) ds)
    else "0" +:+ fraction (zeros (Z.to_nat (- x - 1)) +:+ ds)
  else
    String.substring 0 1 ds +:+ fraction (String.substring 1 5 ds)
      +:+ "e" +:+ (if 0 <=? x then "+" else "-") +:+ pad 2 (decimal (Z.abs x)).

(** [out << x] with the default flags. *)
Definition general (x : Z) : string :=
  match of_bits binary64 x with
  | S754_zero s => sign s +:+ "0"
  | S754_infinity s => sign s +:+ "inf"
  | S754_nan => "nan"
  | S754_finite s m e => let '(num, den) := ratio m e in sign s +:+ general_ratio num den
  end.

(** [out << std::fixed << std::setprecision(k) << x], for a positive precision. *)
Definition fixed_at (k : nat) (x : Z) : string :=
  match of_bits binary64 x with
  | S754_zero s => sign s +:+ "0." +:+ zeros k
  | S754_infinity s => sign s +:+ "inf"
  | S754_nan => "nan"
  | S754_finite s m e =>
    let '(num, den) := ratio m e in
    let d := scaled num den (Z.of_nat k) in
    sign s +:+ decimal (d / 10 ^ Z.of_nat k) +:+ "." +:+ pad k (decimal (d mod 10 ^ Z.of_nat k))
  end.

(** The precision of a stream that was not given one. *)
Definition fixed : Z -> string := fixed_at 6.

Example general_tenth : general 0x3FB999999999999A = "0.1".
Proof. vm_compute. reflexivity. Qed.

Example general_rss : general (of_Z binary64 123456789) = "1.23457e+08".
Proof. vm_compute. reflexivity. Qed.

Example general_carry : general (of_Z binary64 999999) = "999999" /\ general (of_Z binary64 9999995) = "1e+07".
Proof. vm_compute. done. Qed.

Example general_small : general 0x3F1A36E2EB1C432D = "0.0001" /\ general 0x3EE4F8B588E368F1 = "1e-05" /\ general 1 = "4.94066e-324".
Proof. vm_compute. done. Qed.

Example fixed_half : fixed 0xBFE0000000000000 = "-0.500000".
Proof. vm_compute. done. Qed.

(** ** Reading by lines *)

(** The lines of a text; the last one may lack its line feed. *)
Fixpoint lines_from (acc : string) (s : string) : list string :=
  match s with
  | EmptyString => match acc with EmptyString => [] | _ => [acc] end
  | String c s =>
    if bool_decide (c = "010"%char) then acc :: lines_from EmptyString s
    else lines_from (acc +:+ String c EmptyString) s
  end.

Definition lines (s : string) : list string := lines_from EmptyString s.

(** ** Laws *)

Lemma append_assoc (s1 s2 s3 : string) : (s1 +:+ s2) +:+ s3 = s1 +:+ (s2 +:+ s3).
Proof. induction s1 as [|c s1 IH]; [done|]. change (String c ((s1 +:+ s2) +:+ s3) = String c (s1 +:+ (s2 +:+ s3))). by rewrite IH. Qed.

Lemma append_nil_r (s : string) : s +:+ "" = s.
Proof. induction s as [|c s IH]; [done|]. change (String c (s +:+ "") = String c s). by rewrite IH. Qed.

Lemma append_cons c s t : String c s +:+ t = String c (s +:+ t).
Proof. done. Qed.

Lemma length_append s t : String.length (s +:+ t) = (String.length s + String.length t)%nat.
Proof. induction s as [|c s IH]; [done|]. rewrite append_cons. cbn. by rewrite IH. Qed.

Lemma chars_in_app ok s t : chars_in ok (s +:+ t) = chars_in ok s && chars_in ok t.
Proof. induction s as [|c s IH]; [done|]. rewrite append_cons. cbn. by rewrite IH, andb_assoc. Qed.

Lemma span_app ok s rest :
  chars_in ok s = true -> match rest with EmptyString => True | String c _ => ok c = false end ->
  span ok (s +:+ rest) = (s, rest).
Proof.
  intros Hs Hr. induction s as [|c s IH].
  - change (span ok rest = (EmptyString, rest)). destruct rest as [|c r]; [done|]. cbn. by rewrite Hr.
  - cbn [chars_in] in Hs. apply andb_true_iff in Hs as [Hc Hs]. rewrite append_cons. cbn [span]. by rewrite Hc, IH.
Qed.

Lemma chars_in_mono (p q : Ascii.ascii -> bool) s :
  (forall c, p c = true -> q c = true) -> chars_in p s = true -> chars_in q s = true.
Proof.
  intros Hpq. induction s as [|c s IH]; [done|]. cbn. rewrite !andb_true_iff. intros [??]. auto.
Qed.

Lemma digit_word c : digit_char c = true -> word_char c = true.
Proof. by destruct c as [[] [] [] [] [] [] [] []]. Qed.

Lemma word_line c : word_char c = true -> line_char c = true.
Proof. unfold word_char. rewrite andb_true_iff. by intros []. Qed.

Lemma pretty_N_go_digits x s :
  chars_in digit_char s = true -> chars_in digit_char (pretty_N_go x s) = true.
Proof.
  revert s. induction (N.lt_wf_0 x) as [x _ IH]. intros s Hs.
  destruct (decide (x = 0)%N) as [->|Hx]; [done|].
  rewrite pretty_N_go_step by lia. apply IH; [apply N.div_lt; lia|].
  cbn. rewrite Hs, andb_true_r. unfold pretty_N_char. by repeat case_match.
Qed.

Lemma decimal_digits n : chars_in digit_char (decimal n) = true.
Proof.
  unfold decimal, pretty, pretty_N. case_decide; [done|]. by apply pretty_N_go_digits.
Qed.

Lemma decimal_inj n m : 0 <= n -> 0 <= m -> decimal n = decimal m -> n = m.
Proof. intros ?? H. apply (pretty_N_inj (Z.to_N n) (Z.to_N m)) in H. lia. Qed.

Lemma digit_value d : (d < 10)%N -> Ascii.is_nat (pretty_N_char d) = Some (N.to_nat d).
Proof. intros H. do 10 (destruct d as [|d] using N.peano_ind; [done|clear IHd]). lia. Qed.

Lemma pretty_N_go_app x s rest : pretty_N_go x s +:+ rest = pretty_N_go x (s +:+ rest).
Proof.
  revert s. induction (N.lt_wf_0 x) as [x _ IH]. intros s.
  destruct (decide (x = 0)%N) as [->|Hx]; [done|].
  rewrite !(pretty_N_go_step x) by lia. rewrite IH by (apply N.div_lt; lia). done.
Qed.

Lemma zeros_digits n : chars_in digit_char (zeros n) = true.
Proof. by induction n as [|n IH]; [|cbn - [String.append]; rewrite chars_in_app, IH]. Qed.

Lemma substring_in ok s i n : chars_in ok s = true -> chars_in ok (String.substring i n s) = true.
Proof.
  revert i n. induction s as [|c s IH]; intros [|i] [|n]; cbn; try done; rewrite ?andb_true_iff; intros [Hc Hs].
  - split; [done|]. by apply IH.
  - by apply IH.
  - by apply IH.
Qed.

Lemma strip_zeros_in ok s : chars_in ok s = true -> chars_in ok (strip_zeros s) = true.
Proof.
  induction s as [|c s IH]; [done|]. cbn. rewrite andb_true_iff. intros [Hc Hs]. specialize (IH Hs).
  destruct (strip_zeros s) as [|c' s']; [by case_bool_decide; cbn; rewrite ?Hc|].
  change (ok c && chars_in ok (String c' s') = true). by rewrite Hc.
Qed.

Lemma word_digits s : chars_in digit_char s = true -> chars_in word_char s = true.
Proof. apply chars_in_mono, digit_word. Qed.

Lemma fraction_word s : chars_in digit_char s = true -> chars_in word_char (fraction s) = true.
Proof.
  intros Hs%strip_zeros_in%word_digits. unfold fraction.
  destruct (strip_zeros s) as [|c t]; [done|]. rewrite chars_in_app. by rewrite Hs.
Qed.

Create HintDb text.
#[local] Hint Resolve word_digits decimal_digits zeros_digits substring_in fraction_word : text.

Lemma sign_word s : chars_in word_char (sign s) = true.
Proof. by destruct s. Qed.

Lemma pad_digits k n : chars_in digit_char (pad k (decimal n)) = true.
Proof. unfold pad. by rewrite chars_in_app, zeros_digits, decimal_digits. Qed.

Lemma general_ratio_word num den : chars_in word_char (general_ratio num den) = true.
Proof.
  unfold general_ratio. destruct (six_digits num den) as [d x].
  destruct (_ && _); [destruct (0 <=? x)|]; rewrite !chars_in_app, !andb_true_iff.
  - auto 6 with text.
  - split; [done|]. apply fraction_word. by rewrite chars_in_app, zeros_digits, decimal_digits.
  - repeat split; auto 6 with text; [by destruct (0 <=? x)|]. apply word_digits, pad_digits.
Qed.

(** A printed number has no blank and no line feed. *)
Lemma general_word x : chars_in word_char (general x) = true.
Proof.
  unfold general. destruct (of_bits binary64 x) as [[]|[]| |s m e]; try done.
  destruct (ratio m e). by rewrite chars_in_app, sign_word, general_ratio_word.
Qed.

Lemma fixed_at_word k x : chars_in word_char (fixed_at k x) = true.
Proof.
  unfold fixed_at. destruct (of_bits binary64 x) as [s|[]| |s m e]; try done.
  { rewrite !chars_in_app, sign_word, (word_digits (zeros k)) by apply zeros_digits. done. }
  destruct (ratio m e). rewrite !chars_in_app, sign_word, !andb_true_iff.
  repeat split; auto using word_digits, decimal_digits, pad_digits.
Qed.

Lemma fixed_word x : chars_in word_char (fixed x) = true.
Proof. apply fixed_at_word. Qed.

Lemma decimal_word n : chars_in word_char (decimal n) = true.
Proof. auto with text. Qed.

Lemma chars_line s : chars_in word_char s = true -> chars_in line_char s = true.
Proof. apply chars_in_mono, word_line. Qed.

(** *** Lines *)

Lemma lines_from_line acc l rest :
  chars_in line_char l = true -> lines_from acc (l +:+ nl +:+ rest) = (acc +:+ l) :: lines rest.
Proof.
  revert acc. induction l as [|c l IH]; intros acc.
  - intros _. cbn. by rewrite append_nil_r.
  - cbn [chars_in]. rewrite andb_true_iff. intros [Hc Hl]. rewrite append_cons. cbn [lines_from].
    unfold line_char in Hc. case_bool_decide; [done|]. rewrite IH by done.
    rewrite append_assoc. done.
Qed.

Lemma lines_line l rest : chars_in line_char l = true -> lines (l +:+ nl +:+ rest) = l :: lines rest.
Proof. apply lines_from_line. Qed.

(** A text of whole lines. *)
Inductive whole_lines : string -> list string -> Prop :=
  | whole_nil : whole_lines "" []
  | whole_cons l rest ls : chars_in line_char l = true -> whole_lines rest ls ->
      whole_lines (l +:+ nl +:+ rest) (l :: ls).

Lemma whole_lines_app s ls t ls' : whole_lines s ls -> whole_lines t ls' -> whole_lines (s +:+ t) (ls ++ ls').
Proof.
  intros Hs Ht. induction Hs as [|l rest ls Hl _ IH]; [done|].
  rewrite !append_assoc. by constructor.
Qed.

(** Whole lines are read back, whatever follows. *)
Lemma lines_whole s ls rest : whole_lines s ls -> lines (s +:+ rest) = ls ++ lines rest.
Proof.
  intros Hs. induction Hs as [|l s ls Hl _ IH]; [done|].
  rewrite !append_assoc, lines_line by done. cbn. by rewrite IH.
Qed.

End Text.
