(* ===== verification/Metrics.v ===== *)
(** The metrics registry: [src/m01_receiver/monitoring/metrics.cpp] and
    [include/qdgz300/m01_receiver/monitoring/metrics.h].

    The registry is a store of atomic cells.  A method is the list of its atomic
    accesses, in program order, and threads calling methods are interleaved access
    by access ([exec]).  The text of a scrape is built from the values it loads:
    every cell is loaded once for the samples and the histogram cells a second
    time for the quantiles, each at a moment of its own, so the two functions
    [load] and [load'] stand for any interleaving of a scrape with the updates.  The
    HTTP server is in [MetricsServer]. *)

From S2P Require Import Prelude Float Text.
From stdpp Require Import strings.
From Stdlib Require Import Ascii Floats.SpecFloat.
Open Scope Z_scope.
Import Float Text.

Module Metrics.

(** ** Indices and labels *)

(** [enum class PacketTypeIndex : size_t] and [DropReasonIndex : size_t] are
    values of [size_t]; the enumerators name some of them. *)
Module PacketTypeIndex.
Definition DATA : Z := 0.
Definition HEARTBEAT : Z := 1.
Definition UNKNOWN : Z := 2.
Definition COUNT : Z := 3.
End PacketTypeIndex.

Module DropReasonIndex.
Definition INVALID_MAGIC : Z := 0.
Definition VERSION_MISMATCH : Z := 1.
Definition DEST_ID_MISMATCH : Z := 2.
Definition LENGTH_MISMATCH : Z := 3.
Definition NON_DATA_PACKET : Z := 4.
Definition SEQUENCE_DUPLICATE : Z := 5.
Definition SEQUENCE_OUT_OF_WINDOW : Z := 6.
Definition BUFFER_OVERFLOW : Z := 7.
Definition TIMEOUT : Z := 8.
Definition CLOCK_UNLOCKED : Z := 9.
Definition LATE_FRAGMENT : Z := 10.
Definition REASM_DUPLICATE_FRAG : Z := 11.
Definition REASM_TIMEOUT : Z := 12.
Definition MAX_CONTEXTS_EXCEEDED : Z := 13.
Definition REASM_BYTES_OVERFLOW : Z := 14.
Definition COUNT : Z := 15.
End DropReasonIndex.

Definition PACKET_TYPE_INDEX_COUNT : Z := PacketTypeIndex.COUNT.
Definition DROP_REASON_INDEX_COUNT : Z := DropReasonIndex.COUNT.

Definition PACKET_TYPE_LABELS : list string := ["data"; "heartbeat"; "unknown"].

Definition DROP_REASON_LABELS : list string :=
  ["INVALID_MAGIC"; "VERSION_MISMATCH"; "DEST_ID_MISMATCH"; "LENGTH_MISMATCH"; "NON_DATA_PACKET";
   "SEQUENCE_DUPLICATE"; "SEQUENCE_OUT_OF_WINDOW"; "BUFFER_OVERFLOW"; "TIMEOUT"; "CLOCK_UNLOCKED";
   "LATE_FRAGMENT"; "REASM_DUPLICATE_FRAG"; "REASM_TIMEOUT"; "MAX_CONTEXTS_EXCEEDED";
   "REASM_BYTES_OVERFLOW"].

Definition SIGNAL_LABELS : list string := ["SIGHUP"; "SIGTERM"; "SIGINT"].
Definition FACE_METRIC_COUNT : Z := 3.

Definition is_valid_packet_type_index (idx : Z) : bool := idx <? PACKET_TYPE_INDEX_COUNT.
Definition is_valid_drop_reason_index (idx : Z) : bool := idx <? DROP_REASON_INDEX_COUNT.

Definition packet_type_index_from_string (packet_type : string) : Z :=
  if bool_decide (packet_type = "data") then PacketTypeIndex.DATA
  else if bool_decide (packet_type = "heartbeat") then PacketTypeIndex.HEARTBEAT
  else PacketTypeIndex.UNKNOWN.

Definition drop_reason_index_from_string (reason : string) : Z :=
  if bool_decide (reason = "INVALID_MAGIC") then DropReasonIndex.INVALID_MAGIC
  else if bool_decide (reason = "VERSION_MISMATCH") then DropReasonIndex.VERSION_MISMATCH
  else if bool_decide (reason = "DEST_ID_MISMATCH") then DropReasonIndex.DEST_ID_MISMATCH
  else if bool_decide (reason = "LENGTH_MISMATCH") then DropReasonIndex.LENGTH_MISMATCH
  else if bool_decide (reason = "NON_DATA_PACKET") then DropReasonIndex.NON_DATA_PACKET
  else if bool_decide (reason = "SEQUENCE_DUPLICATE") then DropReasonIndex.SEQUENCE_DUPLICATE
  else if bool_decide (reason = "SEQUENCE_OUT_OF_WINDOW") then DropReasonIndex.SEQUENCE_OUT_OF_WINDOW
  else if bool_decide (reason = "BUFFER_OVERFLOW") then DropReasonIndex.BUFFER_OVERFLOW
  else if bool_decide (reason = "TIMEOUT") then DropReasonIndex.TIMEOUT
  else if bool_decide (reason = "CLOCK_UNLOCKED") then DropReasonIndex.CLOCK_UNLOCKED
  else if bool_decide (reason = "LATE_FRAGMENT") then DropReasonIndex.LATE_FRAGMENT
  else if bool_decide (reason = "REASM_DUPLICATE_FRAG") then DropReasonIndex.REASM_DUPLICATE_FRAG
  else if bool_decide (reason = "REASM_TIMEOUT") then DropReasonIndex.REASM_TIMEOUT
  else if bool_decide (reason = "MAX_CONTEXTS_EXCEEDED") then DropReasonIndex.MAX_CONTEXTS_EXCEEDED
  else if bool_decide (reason = "REASM_BYTES_OVERFLOW") then DropReasonIndex.REASM_BYTES_OVERFLOW
  else if bool_decide (reason = "parse_failed") then DropReasonIndex.LENGTH_MISMATCH
  else if bool_decide (reason = "validation_failed") then DropReasonIndex.LENGTH_MISMATCH
  else DropReasonIndex.LENGTH_MISMATCH.

Fixpoint index_of (s : string) (i : nat) (labels : list string) : option nat :=
  match labels with
  | [] => None
  | l :: labels => if bool_decide (s = l) then Some i else index_of s (S i) labels
  end.

Definition signal_index_from_string (signal_name : string) : option nat := index_of signal_name 0 SIGNAL_LABELS.

(** ** Buckets *)

Definition DATA_DELAY_BUCKET_BOUNDS : list Z :=
  [0x3F50624DD2F1A9FC; 0x3F747AE147AE147B; 0x3F847AE147AE147B; 0x3FA999999999999A;
   0x3FB999999999999A; 0x3FE0000000000000; 0x3FF0000000000000; 0x4014000000000000].

Definition PROCESSING_LATENCY_BUCKET_BOUNDS : list Z := [100; 500; 1000; 5000; 10000; 50000; 100000; 500000].

Definition PACKET_POOL_ALLOC_LATENCY_BUCKET_BOUNDS : list Z :=
  [100; 500; 1000; 5000; 10000; 50000; 100000; 500000].

(** ** The cells *)

(** The atomic members of [MetricsCollector::Impl]; an array has a cell for each
    index. *)
Inductive cell :=
  | packets_received
  | packets_by_type_atomic (i : nat)
  | packets_by_reason_atomic (i : nat)
  | bytes_received
  | applied_late
  | clock_unlocked
  | missing_fragments_total
  | config_reload_total
  | signal_received_total (i : nat)
  | heartbeat_packets_processed
  | heartbeat_sent_total
  | socket_packets_received_total
  | socket_bytes_received_total
  | socket_receive_batches_total
  | socket_source_filtered_total
  | socket_receive_errors_total
  | pipeline_packets_entered_total
  | pipeline_parse_ok_total
  | pipeline_validate_ok_total
  | active_contexts
  | buffer_current
  | buffer_max
  | uptime_seconds
  | memory_rss_bytes
  | numa_local_memory_pct
  | heartbeat_queue_depth
  | heartbeat_state
  | face_rx_queue_depth (i : nat)
  | face_rx_queue_high_watermark (i : nat)
  | face_rx_queue_drops (i : nat)
  | face_packet_pool_total (i : nat)
  | face_packet_pool_available (i : nat)
  | face_packet_pool_fallback_alloc (i : nat)
  | data_delay_bucket_counts (i : nat)
  | data_delay_count
  | data_delay_sum
  | processing_latency_bucket_counts (i : nat)
  | processing_latency_count
  | processing_latency_sum_us
  | packet_pool_alloc_latency_bucket_counts (i : nat)
  | packet_pool_alloc_latency_count
  | packet_pool_alloc_latency_sum_ns.

#[export] Instance cell_eq_dec : EqDecision cell.
Proof. solve_decision. Defined.

(** The size of the array a cell belongs to; a plain member is an array of one. *)
Definition in_array (c : cell) : bool :=
  match c with
  | packets_by_type_atomic i => Z.of_nat i <? PACKET_TYPE_INDEX_COUNT
  | packets_by_reason_atomic i => Z.of_nat i <? DROP_REASON_INDEX_COUNT
  | signal_received_total i => (i <? length SIGNAL_LABELS)%nat
  | face_rx_queue_depth i | face_rx_queue_high_watermark i | face_rx_queue_drops i
  | face_packet_pool_total i | face_packet_pool_available i | face_packet_pool_fallback_alloc i =>
    Z.of_nat i <? FACE_METRIC_COUNT
  | data_delay_bucket_counts i => (i <? length DATA_DELAY_BUCKET_BOUNDS + 1)%nat
  | processing_latency_bucket_counts i => (i <? length PROCESSING_LATENCY_BUCKET_BOUNDS + 1)%nat
  | packet_pool_alloc_latency_bucket_counts i =>
    (i <? length PACKET_POOL_ALLOC_LATENCY_BUCKET_BOUNDS + 1)%nat
  | _ => true
  end.

(** The element types: [uint64_t] (and [size_t]), [int], [double]. *)
Inductive cell_type := UInt64 | Int32 | Double.

Definition type_of (c : cell) : cell_type :=
  match c with
  | uptime_seconds | numa_local_memory_pct | data_delay_sum => Double
  | heartbeat_state => Int32
  | _ => UInt64
  end.

Definition has_type (t : cell_type) (v : Z) : Prop :=
  match t with
  | UInt64 => is_u64 v
  | Int32 => - 2 ^ 31 <= v < 2 ^ 31
  | Double => True
  end.

Definition store := cell -> Z.

Definition Impl_init : store := fun _ => 0.

Definition update (s : store) (c : cell) (v : Z) : store := fun c' => if decide (c' = c) then v else s c'.

(** ** Accesses *)

(** [fetch_add], [store] and the successful exchange of [atomic_add_double]. *)
Inductive access :=
  | FetchAdd (c : cell) (n : Z)
  | Put (c : cell) (v : Z)
  | AddDouble (c : cell) (delta : Z).

Definition cell_of (a : access) : cell :=
  match a with FetchAdd c _ | Put c _ | AddDouble c _ => c end.

Definition perform (a : access) (s : store) : store :=
  match a with
  | FetchAdd c n => update s c (s c +[64] n)
  | Put c v => update s c v
  | AddDouble c d => update s c (fadd binary64 (s c) d)
  end.

Definition run (l : list access) (s : store) : store := fold_left (fun s a => perform a s) l s.

(** The loop of [atomic_add_double] against other threads: for every attempt the
    value the target then has, and whether the exchange fails spuriously.  The
    result is the value found and the value stored; [None] when the attempts
    listed all fail. *)
Fixpoint cas_add (current delta : Z) (attempts : list (Z * bool)) : option (Z * Z) :=
  match attempts with
  | [] => None
  | (target, spurious) :: attempts =>
    if (target =? current) && negb spurious then Some (target, fadd binary64 current delta)
    else cas_add target delta attempts
  end.

Definition atomic_add_double (first delta : Z) (attempts : list (Z * bool)) : option (Z * Z) :=
  cas_add first delta attempts.

(** ** The methods *)

Definition increment_packets_received (count : Z) : list access := [FetchAdd packets_received count].

Definition increment_packets_received_by_type (idx count : Z) : list access :=
  if negb (is_valid_packet_type_index idx) then []
  else [FetchAdd (packets_by_type_atomic (Z.to_nat idx)) count].

Definition increment_packets_received_str (packet_type : string) (count : Z) : list access :=
  increment_packets_received_by_type (packet_type_index_from_string packet_type) count.

Definition increment_packets_dropped_by_reason (idx count : Z) : list access :=
  if negb (is_valid_drop_reason_index idx) then []
  else [FetchAdd (packets_by_reason_atomic (Z.to_nat idx)) count].

Definition increment_packets_dropped (reason : string) (count : Z) : list access :=
  increment_packets_dropped_by_reason (drop_reason_index_from_string reason) count.

Definition increment_bytes_received (n : Z) : list access := [FetchAdd bytes_received n].
Definition increment_applied_late (count : Z) : list access := [FetchAdd applied_late count].
Definition increment_clock_unlocked (count : Z) : list access := [FetchAdd clock_unlocked count].
Definition increment_config_reloads (count : Z) : list access := [FetchAdd config_reload_total count].

Definition increment_signal_received (signal_name : string) (count : Z) : list access :=
  match signal_index_from_string signal_name with
  | None => []
  | Some idx => [FetchAdd (signal_received_total idx) count]
  end.

Definition increment_heartbeat_packets_processed (count : Z) : list access :=
  [FetchAdd heartbeat_packets_processed count].
Definition increment_heartbeat_sent (count : Z) : list access := [FetchAdd heartbeat_sent_total count].
Definition increment_socket_packets_received (count : Z) : list access :=
  [FetchAdd socket_packets_received_total count].
Definition increment_socket_bytes_received (n : Z) : list access := [FetchAdd socket_bytes_received_total n].
Definition increment_socket_receive_batches (count : Z) : list access :=
  [FetchAdd socket_receive_batches_total count].
Definition increment_socket_source_filtered (count : Z) : list access :=
  [FetchAdd socket_source_filtered_total count].
Definition increment_socket_receive_errors (count : Z) : list access :=
  [FetchAdd socket_receive_errors_total count].
Definition increment_pipeline_packets_entered (count : Z) : list access :=
  [FetchAdd pipeline_packets_entered_total count].
Definition increment_pipeline_parse_ok (count : Z) : list access := [FetchAdd pipeline_parse_ok_total count].
Definition increment_pipeline_validate_ok (count : Z) : list access :=
  [FetchAdd pipeline_validate_ok_total count].

Definition set_active_reorder_contexts (count : Z) : list access := [Put active_contexts count].
Definition set_missing_fragments_total (count : Z) : list access := [Put missing_fragments_total count].
Definition set_buffer_usage (current max : Z) : list access := [Put buffer_current current; Put buffer_max max].
Definition set_uptime_seconds (seconds : Z) : list access := [Put uptime_seconds seconds].
Definition set_memory_rss_bytes (rss_bytes : Z) : list access := [Put memory_rss_bytes rss_bytes].

Definition zero64 : Z := 0.
Definition hundred64 : Z := 0x4059000000000000.

Definition clamp_pct (pct : Z) : Z :=
  let pct := if fltb binary64 pct zero64 then zero64 else pct in
  if fltb binary64 hundred64 pct then hundred64 else pct.

Definition set_numa_local_memory_pct (pct : Z) : list access := [Put numa_local_memory_pct (clamp_pct pct)].
Definition set_heartbeat_queue_depth (depth : Z) : list access := [Put heartbeat_queue_depth depth].
Definition set_heartbeat_state (state : Z) : list access := [Put heartbeat_state state].

(** The guard of the per-face setters. *)
Definition face_guard (array_id : Z) (accesses : nat -> list access) : list access :=
  if (array_id =? 0) || (FACE_METRIC_COUNT <? array_id) then [] else accesses (Z.to_nat (array_id - 1)).

Definition set_face_rx_queue_depth (array_id depth : Z) : list access :=
  face_guard array_id (fun i => [Put (face_rx_queue_depth i) depth]).
Definition set_face_rx_queue_high_watermark (array_id depth : Z) : list access :=
  face_guard array_id (fun i => [Put (face_rx_queue_high_watermark i) depth]).
Definition set_face_rx_queue_drops (array_id drops : Z) : list access :=
  face_guard array_id (fun i => [Put (face_rx_queue_drops i) drops]).
Definition set_face_packet_pool_stats (array_id total available fallback_alloc : Z) : list access :=
  face_guard array_id (fun i =>
    [Put (face_packet_pool_total i) total; Put (face_packet_pool_available i) available;
     Put (face_packet_pool_fallback_alloc i) fallback_alloc]).

(** The first bound that is not exceeded; the number of bounds if all are. *)
Fixpoint first_bucket (le : Z -> Z -> bool) (bounds : list Z) (x : Z) : nat :=
  match bounds with
  | [] => 0
  | b :: bounds => if le x b then 0 else S (first_bucket le bounds x)
  end.

Definition clamp_delay (delay_seconds : Z) : Z :=
  if fltb binary64 delay_seconds zero64 then zero64 else delay_seconds.

Definition observe_data_delay (delay_seconds : Z) : list access :=
  let d := clamp_delay delay_seconds in
  [FetchAdd (data_delay_bucket_counts (first_bucket (fleb binary64) DATA_DELAY_BUCKET_BOUNDS d)) 1;
   FetchAdd data_delay_count 1; AddDouble data_delay_sum d].

Definition observe_processing_latency (latency_us : Z) : list access :=
  [FetchAdd (processing_latency_bucket_counts (first_bucket Z.leb PROCESSING_LATENCY_BUCKET_BOUNDS latency_us)) 1;
   FetchAdd processing_latency_count 1; FetchAdd processing_latency_sum_us latency_us].

Definition observe_packet_pool_allocation_latency_ns (latency_ns : Z) : list access :=
  [FetchAdd (packet_pool_alloc_latency_bucket_counts
      (first_bucket Z.leb PACKET_POOL_ALLOC_LATENCY_BUCKET_BOUNDS latency_ns)) 1;
   FetchAdd packet_pool_alloc_latency_count 1; FetchAdd packet_pool_alloc_latency_sum_ns latency_ns].

(** *** The system metrics *)

Fixpoint skip_spaces (s : string) : string :=
  match s with
  | String c s' => if Ascii.is_space c then skip_spaces s' else s
  | EmptyString => EmptyString
  end.

Fixpoint read_digits (acc : option Z) (s : string) : option Z :=
  match s with
  | EmptyString => acc
  | String c s =>
    match Ascii.is_nat c with
    | Some d => read_digits (Some (default 0 acc * 10 + Z.of_nat d)) s
    | None => acc
    end
  end.

(** [iss >> kb] for a [size_t]: 0 without digits, the largest value on overflow,
    the negated value behind a minus sign. *)
Definition extract_size (s : string) : Z :=
  let s := skip_spaces s in
  let '(negative, s) :=
    match s with
    | String "-" s' => (true, s')
    | String "+" s' => (false, s')
    | _ => (false, s)
    end in
  match read_digits None s with
  | None => 0
  | Some n => if 2 ^ 64 <=? n then 2 ^ 64 - 1 else if negative then wrap 64 (- n) else n
  end.

(** The result for the lines of the file. *)
Fixpoint rss_of_lines (ls : list string) : Z :=
  match ls with
  | [] => 0
  | l :: ls =>
    if String.prefix "VmRSS:" l then wrap 64 (extract_size (String.substring 6 (String.length l - 6) l) * 1024)
    else rss_of_lines ls
  end.

(** The argument is the content of [/proc/self/status], if it opens. *)
Definition read_process_rss_bytes (status : option string) : Z :=
  match status with None => 0 | Some text => rss_of_lines (lines text) end.

(** [now] and [startup_time] in nanoseconds. *)
Definition collect_system_metrics (now startup_time : Z) (status : option string) : list access :=
  set_uptime_seconds (fdiv binary64 (of_Z binary64 (now - startup_time)) (of_Z binary64 1000000000))
    ++ set_memory_rss_bytes (read_process_rss_bytes status).

Example rss_line : read_process_rss_bytes (Some ("Name: x" +:+ nl +:+ "VmRSS:   1234 kB" +:+ nl)) = 1263616.
Proof. vm_compute. reflexivity. Qed.

(** ** Calls *)

(** A call of a method, with its arguments. *)
Inductive call :=
  | CPacketsReceived (n : Z)
  | CPacketsReceivedByType (idx n : Z)
  | CPacketsReceivedStr (packet_type : string) (n : Z)
  | CPacketsDroppedByReason (idx n : Z)
  | CPacketsDropped (reason : string) (n : Z)
  | CBytesReceived (n : Z)
  | CAppliedLate (n : Z)
  | CClockUnlocked (n : Z)
  | CConfigReloads (n : Z)
  | CSignalReceived (signal_name : string) (n : Z)
  | CHeartbeatPacketsProcessed (n : Z)
  | CHeartbeatSent (n : Z)
  | CSocketPacketsReceived (n : Z)
  | CSocketBytesReceived (n : Z)
  | CSocketReceiveBatches (n : Z)
  | CSocketSourceFiltered (n : Z)
  | CSocketReceiveErrors (n : Z)
  | CPipelinePacketsEntered (n : Z)
  | CPipelineParseOk (n : Z)
  | CPipelineValidateOk (n : Z)
  | CActiveReorderContexts (n : Z)
  | CMissingFragmentsTotal (n : Z)
  | CBufferUsage (current max : Z)
  | CUptimeSeconds (seconds : Z)
  | CMemoryRssBytes (n : Z)
  | CNumaLocalMemoryPct (pct : Z)
  | CHeartbeatQueueDepth (n : Z)
  | CHeartbeatState (state : Z)
  | CFaceRxQueueDepth (array_id n : Z)
  | CFaceRxQueueHighWatermark (array_id n : Z)
  | CFaceRxQueueDrops (array_id n : Z)
  | CFacePacketPoolStats (array_id total available fallback : Z)
  | CDataDelay (seconds : Z)
  | CProcessingLatency (us : Z)
  | CPacketPoolAllocationLatency (ns : Z)
  | CSystemMetrics (now startup_time : Z) (status : option string).

Definition accesses (c : call) : list access :=
  match c with
  | CPacketsReceived n => increment_packets_received n
  | CPacketsReceivedByType idx n => increment_packets_received_by_type idx n
  | CPacketsReceivedStr t n => increment_packets_received_str t n
  | CPacketsDroppedByReason idx n => increment_packets_dropped_by_reason idx n
  | CPacketsDropped r n => increment_packets_dropped r n
  | CBytesReceived n => increment_bytes_received n
  | CAppliedLate n => increment_applied_late n
  | CClockUnlocked n => increment_clock_unlocked n
  | CConfigReloads n => increment_config_reloads n
  | CSignalReceived name n => increment_signal_received name n
  | CHeartbeatPacketsProcessed n => increment_heartbeat_packets_processed n
  | CHeartbeatSent n => increment_heartbeat_sent n
  | CSocketPacketsReceived n => increment_socket_packets_received n
  | CSocketBytesReceived n => increment_socket_bytes_received n
  | CSocketReceiveBatches n => increment_socket_receive_batches n
  | CSocketSourceFiltered n => increment_socket_source_filtered n
  | CSocketReceiveErrors n => increment_socket_receive_errors n
  | CPipelinePacketsEntered n => increment_pipeline_packets_entered n
  | CPipelineParseOk n => increment_pipeline_parse_ok n
  | CPipelineValidateOk n => increment_pipeline_validate_ok n
  | CActiveReorderContexts n => set_active_reorder_contexts n
  | CMissingFragmentsTotal n => set_missing_fragments_total n
  | CBufferUsage current max => set_buffer_usage current max
  | CUptimeSeconds seconds => set_uptime_seconds seconds
  | CMemoryRssBytes n => set_memory_rss_bytes n
  | CNumaLocalMemoryPct pct => set_numa_local_memory_pct pct
  | CHeartbeatQueueDepth n => set_heartbeat_queue_depth n
  | CHeartbeatState state => set_heartbeat_state state
  | CFaceRxQueueDepth id n => set_face_rx_queue_depth id n
  | CFaceRxQueueHighWatermark id n => set_face_rx_queue_high_watermark id n
  | CFaceRxQueueDrops id n => set_face_rx_queue_drops id n
  | CFacePacketPoolStats id total available fallback => set_face_packet_pool_stats id total available fallback
  | CDataDelay seconds => observe_data_delay seconds
  | CProcessingLatency us => observe_processing_latency us
  | CPacketPoolAllocationLatency ns => observe_packet_pool_allocation_latency_ns ns
  | CSystemMetrics now startup_time status => collect_system_metrics now startup_time status
  end.

(** The arguments have the types of the parameters. *)
Definition call_ok (c : call) : Prop :=
  match c with
  | CPacketsReceived n | CPacketsReceivedStr _ n | CPacketsDropped _ n | CBytesReceived n | CAppliedLate n
  | CClockUnlocked n | CConfigReloads n | CSignalReceived _ n | CHeartbeatPacketsProcessed n
  | CHeartbeatSent n | CSocketPacketsReceived n | CSocketBytesReceived n | CSocketReceiveBatches n
  | CSocketSourceFiltered n | CSocketReceiveErrors n | CPipelinePacketsEntered n | CPipelineParseOk n
  | CPipelineValidateOk n | CActiveReorderContexts n | CMissingFragmentsTotal n | CHeartbeatQueueDepth n
  | CMemoryRssBytes n | CProcessingLatency n | CPacketPoolAllocationLatency n => is_u64 n
  | CPacketsReceivedByType idx n | CPacketsDroppedByReason idx n => is_u64 idx /\ is_u64 n
  | CBufferUsage current max => is_u64 current /\ is_u64 max
  | CHeartbeatState state => - 2 ^ 31 <= state < 2 ^ 31
  | CFaceRxQueueDepth id n | CFaceRxQueueHighWatermark id n | CFaceRxQueueDrops id n => is_u8 id /\ is_u64 n
  | CFacePacketPoolStats id total available fallback =>
    is_u8 id /\ is_u64 total /\ is_u64 available /\ is_u64 fallback
  | CUptimeSeconds _ | CNumaLocalMemoryPct _ | CDataDelay _ | CSystemMetrics _ _ _ => True
  end.

(** ** Threads *)

(** Every thread has the accesses it still performs; one step performs the next
    access of one thread.  The trace lists the accesses performed. *)
Inductive exec : list (list access) -> store -> list access -> list (list access) -> store -> Prop :=
  | exec_refl ts s : exec ts s [] ts s
  | exec_step ts i a rest s l ts' s' :
      ts !! i = Some (a :: rest) ->
      exec (<[i := rest]> ts) (perform a s) l ts' s' ->
      exec ts s (a :: l) ts' s'.

(** All threads have returned. *)
Definition finished (ts : list (list access)) : Prop := Forall (eq []) ts.

(** The program of a thread: its calls, one after another. *)
Definition thread (calls : list call) : list access := mjoin (accesses <$> calls).

(** What the accesses add to a cell. *)
Definition added (c : cell) (l : list access) : Z :=
  sumZ (omap (fun a => match a with
                       | FetchAdd c' n => if decide (c' = c) then Some n else None
                       | _ => None
                       end) l).

(** The cell is only changed by [fetch_add]. *)
Definition only_added (c : cell) (a : access) : bool :=
  match a with FetchAdd _ _ => true | Put c' _ | AddDouble c' _ => bool_decide (c' <> c) end.

(** The access stays inside its array and keeps the type of the cell. *)
Definition access_ok (a : access) : Prop :=
  in_array (cell_of a) = true /\
  match a with
  | FetchAdd c _ => type_of c = UInt64
  | Put c v => has_type (type_of c) v
  | AddDouble c _ => type_of c = Double
  end.

Definition typed (s : store) : Prop := forall c, has_type (type_of c) (s c).

(** ** Laws *)

Lemma update_eq s c v : update s c v c = v.
Proof. unfold update. by rewrite decide_True. Qed.

Lemma update_ne s c c' v : c' <> c -> update s c v c' = s c'.
Proof. intros. unfold update. by rewrite decide_False. Qed.

Lemma cell_of_perform a s c : c <> cell_of a -> perform a s c = s c.
Proof. destruct a; apply update_ne. Qed.

(** *** Interleaving *)

Lemma join_insert {A} (ts : list (list A)) i a rest :
  ts !! i = Some (a :: rest) -> mjoin ts ≡ₚ a :: mjoin (<[i := rest]> ts).
Proof.
  revert i. induction ts as [|t ts IH]; intros [|i] H; cbn in *; simplify_eq; [done|].
  rewrite (IH i H). by rewrite Permutation_middle.
Qed.

(** The store is what the trace leaves, and the trace with what is left is a
    permutation of the programs. *)
Lemma exec_run ts s l ts' s' :
  exec ts s l ts' s' -> s' = run l s /\ mjoin ts ≡ₚ l ++ mjoin ts'.
Proof.
  induction 1 as [|ts i a rest s l ts' s' Hi _ [-> IH]]; [done|].
  split; [done|]. rewrite (join_insert _ _ _ _ Hi), IH. done.
Qed.

Lemma finished_join ts : finished ts -> mjoin ts = [].
Proof. by induction 1 as [|t ts <- _ IH]. Qed.

Lemma exec_finished ts s l ts' s' :
  exec ts s l ts' s' -> finished ts' -> s' = run l s /\ mjoin ts ≡ₚ l.
Proof. intros [Hs Hp]%exec_run Hf. by rewrite (finished_join _ Hf), app_nil_r in Hp. Qed.

(** Every set of threads can be run to the end. *)
Lemma exec_exists ts s : exists l ts' s', exec ts s l ts' s' /\ finished ts'.
Proof.
  remember (length (mjoin ts)) as n eqn:Hn. revert ts s Hn. induction n as [|n IH]; intros ts s Hn.
  - exists [], ts, s. split; [constructor|]. unfold finished.
    induction ts as [|[|a t] ts IH]; cbn in *; [constructor| |lia]. constructor; [done|]. by apply IH.
  - assert (exists i a rest, ts !! i = Some (a :: rest)) as (i & a & rest & Hi).
    { clear -Hn. induction ts as [|[|a t] ts IH]; cbn in Hn; [lia| |by exists 0%nat, a, t].
      destruct (IH Hn) as (i & a & rest & ?). by exists (S i), a, rest. }
    destruct (IH (<[i:=rest]> ts) (perform a s)) as (l & ts' & s' & He & Hf).
    { pose proof (Permutation_length (join_insert _ _ _ _ Hi)) as Hl. cbn in Hl. lia. }
    exists (a :: l), ts', s'. split; [by econstructor|done].
Qed.

(** *** Counters *)

Lemma added_app c l l' : added c (l ++ l') = added c l + added c l'.
Proof. unfold added. by rewrite omap_app, sumZ_app. Qed.

#[export] Instance added_proper c : Proper (Permutation ==> eq) (added c).
Proof. intros l l' H. unfold added. by rewrite H. Qed.

Lemma added_cons c a l : added c (a :: l) = added c [a] + added c l.
Proof. apply (added_app c [a]). Qed.

Lemma added_join c (ls : list (list access)) : added c (mjoin ls) = sumZ (added c <$> ls).
Proof. induction ls as [|l ls IH]; [done|]. change (added c (l ++ mjoin ls) = added c l + sumZ (added c <$> ls)). by rewrite added_app, IH. Qed.

Lemma perform_added c a s :
  only_added c a = true -> perform a s c = match a with FetchAdd c' n => if decide (c' = c) then s c +[64] n else s c | _ => s c end.
Proof.
  destruct a as [c' n|c' v|c' d]; cbn; intros H.
  - case_decide; [subst; apply update_eq|by apply update_ne].
  - apply update_ne. by case_bool_decide.
  - apply update_ne. by case_bool_decide.
Qed.

(** A counter holds the sum of what was added, modulo 2^64. *)
Lemma run_added c l s :
  Forall (fun a => only_added c a = true) l -> is_u64 (s c) -> run l s c = s c +[64] added c l.
Proof.
  intros Hl. revert s. induction Hl as [|a l Ha _ IH]; intros s Hs.
  { symmetry. unfold added. cbn. rewrite Z.add_0_r. by apply wrap_small. }
  rewrite (added_cons c a). change (run (a :: l) s c) with (run l (perform a s) c).
  rewrite IH; rewrite perform_added by done.
  - destruct a as [c' n|c' v|c' d]; unfold added at 2; cbn; try case_decide; cbn;
      autorewrite with wrap; f_equal; lia.
  - destruct a; try done. case_decide; [|done]. by apply wrap_range.
Qed.

(** The cells that are only incremented. *)
Definition counter_cell (c : cell) : bool :=
  match c with
  | missing_fragments_total | active_contexts | buffer_current | buffer_max | uptime_seconds | memory_rss_bytes
  | numa_local_memory_pct | heartbeat_queue_depth | heartbeat_state | face_rx_queue_depth _
  | face_rx_queue_high_watermark _ | face_rx_queue_drops _ | face_packet_pool_total _
  | face_packet_pool_available _ | face_packet_pool_fallback_alloc _ | data_delay_sum => false
  | _ => true
  end.

(** Unfold the methods and split their guards. *)
Ltac method_cases :=
  cbn [accesses];
  unfold increment_packets_received_str, increment_packets_dropped, increment_packets_received_by_type,
    increment_packets_dropped_by_reason, increment_signal_received, set_face_rx_queue_depth,
    set_face_rx_queue_high_watermark, set_face_rx_queue_drops, set_face_packet_pool_stats, face_guard;
  repeat match goal with
  | |- context [if ?b then _ else _] => destruct b
  | |- context [match ?o with Some _ => _ | None => _ end] => destruct o
  end.

Lemma accesses_counter c call :
  counter_cell c = true -> Forall (fun a => only_added c a = true) (accesses call).
Proof.
  intros Hc. destruct call; method_cases; repeat constructor; cbn;
    apply bool_decide_eq_true_2; intros <-; discriminate.
Qed.

Lemma thread_counter c calls :
  counter_cell c = true -> Forall (fun a => only_added c a = true) (thread calls).
Proof.
  intros Hc. unfold thread. apply Forall_join, Forall_fmap. apply Forall_true. intros. by apply accesses_counter.
Qed.

Lemma thread_app calls calls' : thread (calls ++ calls') = thread calls ++ thread calls'.
Proof. unfold thread. by rewrite fmap_app, join_app. Qed.

Lemma thread_join tss : thread (mjoin tss) = mjoin (thread <$> tss).
Proof.
  induction tss as [|t tss IH]; [done|].
  change (thread (t ++ mjoin tss) = thread t ++ mjoin (thread <$> tss)). by rewrite thread_app, IH.
Qed.

(** When all threads have returned, a counter holds the sum of what the calls add,
    whatever the interleaving. *)
Lemma counter_exact c tss l ts' s' :
  counter_cell c = true -> exec (thread <$> tss) Impl_init l ts' s' -> finished ts' ->
  s' c = u64 (added c (thread (mjoin tss))).
Proof.
  intros Hc He Hf. destruct (exec_finished _ _ _ _ _ He Hf) as [-> Hp]. rewrite thread_join.
  rewrite run_added; [by rewrite Hp| |by split].
  rewrite <-Hp. apply Forall_join, Forall_fmap. apply Forall_true. intros. by apply thread_counter.
Qed.

(** *** Types and bounds *)

Lemma index_of_bound s i labels k : index_of s i labels = Some k -> (k < i + length labels)%nat.
Proof.
  revert i. induction labels as [|l labels IH]; intros i; [done|]. cbn. case_bool_decide; intros H'.
  - simplify_eq. lia.
  - apply IH in H'. lia.
Qed.

Lemma first_bucket_bound le bounds x : (first_bucket le bounds x <= length bounds)%nat.
Proof. induction bounds as [|b bounds IH]; cbn; [done|]. destruct (le x b); lia. Qed.

Lemma face_guard_ok id (f : nat -> list access) :
  is_u8 id -> (forall i, (i < 3)%nat -> Forall access_ok (f i)) -> Forall access_ok (face_guard id f).
Proof.
  unfold face_guard, FACE_METRIC_COUNT, in_range. intros Hid Hf. destruct (Z.eqb_spec id 0); cbn; [constructor|].
  destruct (Z.ltb_spec 3 id); [constructor|]. apply Hf. lia.
Qed.

Lemma rss_range status : is_u64 (read_process_rss_bytes status).
Proof.
  destruct status as [text|]; cbn; [|wrap_lia]. induction (lines text) as [|l ls IH]; cbn; [wrap_lia|].
  destruct (String.prefix _ _); [|done]. by apply wrap_range.
Qed.

Ltac access_bounds :=
  split; [cbn [in_array cell_of]; unfold FACE_METRIC_COUNT;
          first [done|apply Z.ltb_lt; cbn; lia|apply Nat.ltb_lt; cbn in *; lia] | cbn; try done].

Ltac each_access := repeat (apply Forall_cons; split); [..|by apply Forall_nil]; access_bounds; try tauto.

Lemma by_type_ok idx n : 0 <= idx -> Forall access_ok (increment_packets_received_by_type idx n).
Proof.
  intros. unfold increment_packets_received_by_type, is_valid_packet_type_index.
  destruct (Z.ltb_spec idx PACKET_TYPE_INDEX_COUNT); first [by apply Forall_nil|each_access].
Qed.

Lemma by_reason_ok idx n : 0 <= idx -> Forall access_ok (increment_packets_dropped_by_reason idx n).
Proof.
  intros. unfold increment_packets_dropped_by_reason, is_valid_drop_reason_index.
  destruct (Z.ltb_spec idx DROP_REASON_INDEX_COUNT); first [by apply Forall_nil|each_access].
Qed.

Lemma packet_type_index_nonneg s : 0 <= packet_type_index_from_string s.
Proof. unfold packet_type_index_from_string. by repeat case_bool_decide. Qed.

Lemma drop_reason_index_nonneg s : 0 <= drop_reason_index_from_string s.
Proof. unfold drop_reason_index_from_string. by repeat case_bool_decide. Qed.

Lemma signal_ok name n : Forall access_ok (increment_signal_received name n).
Proof.
  unfold increment_signal_received. destruct (signal_index_from_string name) as [k|] eqn:Hk; [|constructor].
  apply index_of_bound in Hk. each_access.
Qed.

Lemma observe_ok le bounds x k :
  (k = length bounds)%nat -> (first_bucket le bounds x <? k + 1)%nat = true.
Proof. intros ->. apply Nat.ltb_lt. pose proof (first_bucket_bound le bounds x). lia. Qed.

(** Every access of every method is inside its array and type correct. *)
Lemma accesses_ok c : call_ok c -> Forall access_ok (accesses c).
Proof.
  destruct c; cbn [call_ok accesses]; intros H;
    try (by each_access).
  - apply by_type_ok. apply H.
  - apply by_type_ok, packet_type_index_nonneg.
  - apply by_reason_ok. apply H.
  - apply by_reason_ok, drop_reason_index_nonneg.
  - apply signal_ok.
  - apply face_guard_ok; [tauto|]. intros. each_access.
  - apply face_guard_ok; [tauto|]. intros. each_access.
  - apply face_guard_ok; [tauto|]. intros. each_access.
  - apply face_guard_ok; [tauto|]. intros. each_access.
  - repeat (apply Forall_cons; split); [..|by apply Forall_nil]; (split; [|done]); [by apply observe_ok|done..].
  - repeat (apply Forall_cons; split); [..|by apply Forall_nil]; (split; [|done]); [by apply observe_ok|done..].
  - repeat (apply Forall_cons; split); [..|by apply Forall_nil]; (split; [|done]); [by apply observe_ok|done..].
  - repeat (apply Forall_cons; split); [..|by apply Forall_nil]; (split; [done|]); [done|apply rss_range].
Qed.

Lemma thread_ok calls : Forall call_ok calls -> Forall access_ok (thread calls).
Proof.
  unfold thread. induction 1 as [|c calls Hc _ IH]; [constructor|]. cbn. apply Forall_app. auto using accesses_ok.
Qed.

Lemma perform_typed a s : access_ok a -> typed s -> typed (perform a s).
Proof.
  intros [_ Ha] Hs c. destruct (decide (c = cell_of a)) as [->|Hc]; [|rewrite cell_of_perform by done; apply Hs].
  destruct a as [c n|c v|c d]; cbn in *; rewrite update_eq; [|done|by rewrite Ha].
  rewrite Ha. by apply wrap_range.
Qed.

Lemma run_typed l s : Forall access_ok l -> typed s -> typed (run l s).
Proof. intros Hl. revert s. induction Hl; cbn; auto using perform_typed. Qed.

Lemma Impl_init_typed : typed Impl_init.
Proof. intros c. destruct c; cbn; try done; by split. Qed.

(** C20: whatever the threads call, and however their atomic accesses interleave, at
    every moment each access performed so far lies inside its array and every
    cell holds a value of its type; and some schedule runs every thread to its
    end. *)
Theorem registry_typed tss :
  Forall (Forall call_ok) tss ->
  (forall l ts' s', exec (thread <$> tss) Impl_init l ts' s' ->
     Forall (fun a => in_array (cell_of a) = true) l /\ typed s') /\
  (exists l ts' s', exec (thread <$> tss) Impl_init l ts' s' /\ finished ts').
Proof.
  intros Htss. split; [|apply exec_exists].
  intros l ts' s' [-> Hp]%exec_run.
  assert (Forall access_ok (l ++ mjoin ts')) as [Hl _]%Forall_app.
  { rewrite <-Hp. apply Forall_join. apply Forall_fmap. eapply Forall_impl; [exact Htss|]. apply thread_ok. }
  split; [by eapply Forall_impl; [apply Hl|]; intros a []|]. apply run_typed; auto using Impl_init_typed.
Qed.

Lemma registry_typed_witness :
  (forall l ts' s',
     exec (thread <$> [[CPacketsDroppedByReason 15 1; CProcessingLatency 700]; [CFaceRxQueueDepth 4 1]]) Impl_init l ts' s' ->
     Forall (fun a => in_array (cell_of a) = true) l /\ typed s') /\
  (exists l ts' s',
     exec (thread <$> [[CPacketsDroppedByReason 15 1; CProcessingLatency 700]; [CFaceRxQueueDepth 4 1]]) Impl_init l ts' s'
     /\ finished ts').
Proof.
  apply (registry_typed [[CPacketsDroppedByReason 15 1; CProcessingLatency 700]; [CFaceRxQueueDepth 4 1]]).
  repeat constructor; cbn; wrap_lia.
Defined.

End Metrics.
