(* ===== verification/MetricsText.v ===== *)
(** The text a scrape of the metrics registry returns: the Prometheus exposition of
    [build_metrics_payload] in [src/m01_receiver/monitoring/metrics.cpp], and a
    reader of that format against which it is verified. *)

From S2P Require Import Prelude Float Text Metrics.
From stdpp Require Import strings.
From Stdlib Require Import Ascii Floats.SpecFloat.
Open Scope Z_scope.
Import Float Text Metrics.

Module MetricsText.

(** ** Lines *)

(** [out << "# HELP " ...] and [out << "# TYPE " ...]. *)
Definition append_meta (out name help kind : string) : string :=
  out +:+ ("# HELP " +:+ name +:+ " " +:+ help +:+ nl) +:+ ("# TYPE " +:+ name +:+ " " +:+ kind +:+ nl).

Definition append_counter (out name help : string) (value : Z) : string :=
  append_meta out name help "counter" +:+ (name +:+ " " +:+ decimal value +:+ nl).

Definition append_gauge (out name help : string) (value : Z) : string :=
  append_meta out name help "gauge" +:+ (name +:+ " " +:+ general value +:+ nl).

(** One sample with a label. *)
Definition sample_line (name label text value : string) : string :=
  name +:+ "{" +:+ label +:+ "=" +:+ quote +:+ text +:+ quote +:+ "} " +:+ value +:+ nl.

(** The body of the loops over the faces, from index [i] on. *)
Fixpoint append_faces (out name : string) (values : nat -> Z) (i n : nat) : string :=
  match n with
  | O => out
  | S n =>
    append_faces (out +:+ sample_line name "face" (decimal (Z.of_nat (i + 1))) (decimal (values i))) name values (S i) n
  end.

Definition append_face_gauge (out name help : string) (values : nat -> Z) : string :=
  append_faces (append_meta out name help "gauge") name values 0 (Z.to_nat FACE_METRIC_COUNT).

Definition append_face_counter (out name help : string) (values : nat -> Z) : string :=
  append_faces (append_meta out name help "counter") name values 0 (Z.to_nat FACE_METRIC_COUNT).

(** The three loops over a table of labels. *)
Fixpoint append_labels (out name label : string) (labels : list string) (values : nat -> Z) (i : nat) : string :=
  match labels with
  | [] => out
  | t :: labels =>
    append_labels (out +:+ sample_line name label t (decimal (values i))) name label labels values (S i)
  end.

Definition append_labelled (out name help label : string) (labels : list string) (values : nat -> Z) : string :=
  append_labels (append_meta out name help "counter") name label labels values 0.

(** The loop over the bounds: the text and the cumulative count at its end. *)
Fixpoint append_buckets (show : Z -> string) (out name : string) (bounds : list Z) (counts : nat -> Z) (i : nat)
    (cumulative : Z) : string * Z :=
  match bounds with
  | [] => (out, cumulative)
  | b :: bounds =>
    let cumulative := cumulative +[64] counts i in
    append_buckets show (out +:+ sample_line (name +:+ "_bucket") "le" (show b) (decimal cumulative)) name bounds
      counts (S i) cumulative
  end.

Definition append_histogram (show : Z -> string) (out name help : string) (bounds : list Z) (counts : nat -> Z)
    (count : Z) (sum : string) : string :=
  let '(out, cumulative) := append_buckets show (append_meta out name help "histogram") name bounds counts 0 0 in
  let cumulative := cumulative +[64] counts (length bounds) in
  out +:+ sample_line (name +:+ "_bucket") "le" "+Inf" (decimal cumulative)
    +:+ (name +:+ "_sum " +:+ sum +:+ nl) +:+ (name +:+ "_count " +:+ decimal count +:+ nl).

Definition append_histogram_double (out name help : string) (bounds : list Z) (counts : nat -> Z) (count sum : Z)
    : string :=
  append_histogram general out name help bounds counts count (general sum).

Definition append_histogram_uint64 (out name help : string) (bounds : list Z) (counts : nat -> Z) (count sum : Z)
    : string :=
  append_histogram decimal out name help bounds counts count (decimal sum).

(** ** Quantiles *)

Fixpoint quantile_loop (rank : Z) (buckets : list (Z * Z)) (prev_cum prev_bound : Z) : option Z :=
  match buckets with
  | [] => None
  | (bound, cum) :: buckets =>
    if fleb binary64 rank (of_Z binary64 cum) then
      let bucket_count := if prev_cum <? cum then cum - prev_cum else 0 in
      if bucket_count =? 0 then Some bound
      else
        let pos_in_bucket :=
          fdiv binary64 (fsub binary64 rank (of_Z binary64 prev_cum)) (of_Z binary64 bucket_count) in
        Some (fadd binary64 prev_bound (fmul binary64 (fsub binary64 bound prev_bound) pos_in_bucket))
    else quantile_loop rank buckets cum bound
  end.

Definition histogram_quantile_from_cumulative (buckets : list (Z * Z)) (total_count q : Z) : Z :=
  if (total_count =? 0) || bool_decide (buckets = []) then 0
  else
    let rank := fmul binary64 q (of_Z binary64 total_count) in
    default (default 0 (fst <$> last buckets)) (quantile_loop rank buckets 0 0).

(** The loop that fills the vector of bounds with their cumulative counts. *)
Fixpoint cumulate (bounds : list Z) (counts : nat -> Z) (i : nat) (cumulative : Z) : list (Z * Z) :=
  match bounds with
  | [] => []
  | b :: bounds =>
    let cumulative := cumulative +[64] counts i in
    (b, cumulative) :: cumulate bounds counts (S i) cumulative
  end.

Definition cumulative_pairs (bounds : list Z) (counts : nat -> Z) : list (Z * Z) := cumulate bounds counts 0 0.

Definition cumulative_pairs_uint64 (bounds : list Z) (counts : nat -> Z) : list (Z * Z) :=
  cumulate (of_Z binary64 <$> bounds) counts 0 0.

Definition q50 : Z := 0x3FE0000000000000.
Definition q99 : Z := 0x3FEFAE147AE147AE.
Definition q999 : Z := 0x3FEFF7CED916872B.

(** ** The external file *)

(** The value of the environment variable, if set. *)
Definition external_metrics_file_path (override_path : option string) : string :=
  match override_path with
  | Some p =>
    if bool_decide (p = EmptyString) then "/opt/qdgz300_backend/data/metrics/qdgz300_spool_mover.prom" else p
  | None => "/opt/qdgz300_backend/data/metrics/qdgz300_spool_mover.prom"
  end.

Fixpoint last_char (s : string) : option Ascii.ascii :=
  match s with
  | EmptyString => None
  | String c EmptyString => Some c
  | String _ s => last_char s
  end.

(** [files] gives the content of the files that open. *)
Definition read_external_metrics_payload (override_path : option string) (files : string -> option string) : string :=
  match files (external_metrics_file_path override_path) with
  | None => EmptyString
  | Some payload =>
    match last_char payload with
    | Some c => if bool_decide (c = "010"%char) then payload else payload +:+ nl
    | None => payload
    end
  end.

(** ** The payload *)

(** The counters. *)
Definition payload_counters (out : string) (load : cell -> Z) : string :=
  let out := append_counter out "receiver_packets_received_total" "Total received packets" (load packets_received) in
  let out := append_counter out "receiver_bytes_received_total" "Total received bytes" (load bytes_received) in
  let out := append_counter out "receiver_applied_late_total" "Total applied-late events" (load applied_late) in
  let out := append_counter out "receiver_clock_unlocked_total" "Total clock unlocked events" (load clock_unlocked) in
  let out := append_counter out "receiver_config_reload_total" "Total successful config reloads" (load config_reload_total) in
  let out := append_counter out "heartbeat_packets_processed" "Total heartbeat packets processed" (load heartbeat_packets_processed) in
  let out := append_counter out "receiver_heartbeat_sent_total" "Total heartbeat packets sent" (load heartbeat_sent_total) in
  let out := append_counter out "receiver_missing_fragments_total" "Total missing fragments after reassembly timeout" (load missing_fragments_total) in
  let out := append_counter out "receiver_socket_packets_received_total" "UDP packets received from socket before protocol filtering" (load socket_packets_received_total) in
  let out := append_counter out "receiver_socket_bytes_received_total" "UDP payload bytes received from socket before protocol filtering" (load socket_bytes_received_total) in
  let out := append_counter out "receiver_socket_receive_batches_total" "recvmmsg batches received from socket" (load socket_receive_batches_total) in
  let out := append_counter out "receiver_socket_source_filtered_total" "UDP packets dropped by source filter before pipeline" (load socket_source_filtered_total) in
  let out := append_counter out "receiver_socket_receive_errors_total" "UDP socket receive errors before pipeline" (load socket_receive_errors_total) in
  let out := append_counter out "receiver_pipeline_packets_entered_total" "Packets entering the receiver pipeline callback" (load pipeline_packets_entered_total) in
  let out := append_counter out "receiver_pipeline_parse_ok_total" "Packets successfully parsed in the receiver pipeline" (load pipeline_parse_ok_total) in
  let out := append_counter out "receiver_pipeline_validate_ok_total" "Packets successfully validated in the receiver pipeline" (load pipeline_validate_ok_total) in
  out.

(** The counters by signal, packet type and reason. *)
Definition payload_labelled (out : string) (load : cell -> Z) : string :=
  let out := append_labelled out "receiver_signal_received_total" "Received UNIX signals by name" "signal" SIGNAL_LABELS (fun i => load (signal_received_total i)) in
  let out := append_labelled out "receiver_packets_received_total" "Received packets by packet type" "packet_type" PACKET_TYPE_LABELS (fun i => load (packets_by_type_atomic i)) in
  let out := append_labelled out "receiver_packets_dropped_total" "Dropped packets by reason" "reason" DROP_REASON_LABELS (fun i => load (packets_by_reason_atomic i)) in
  out.

(** The gauges. *)
Definition payload_gauges (out : string) (load : cell -> Z) : string :=
  let out := append_gauge out "receiver_reasm_contexts_active" "Active reassembly contexts" (of_Z binary64 (load active_contexts)) in
  let out := append_gauge out "receiver_buffer_usage_current" "Current buffer usage" (of_Z binary64 (load buffer_current)) in
  let out := append_gauge out "receiver_buffer_usage_max" "Configured max buffer size" (of_Z binary64 (load buffer_max)) in
  let out := append_gauge out "receiver_uptime_seconds" "Process uptime in seconds" (load uptime_seconds) in
  let out := append_gauge out "receiver_memory_rss_bytes" "Process RSS memory usage in bytes" (of_Z binary64 (load memory_rss_bytes)) in
  let out := append_gauge out "numa_local_memory_pct" "Percentage of memory allocated from local NUMA node" (load numa_local_memory_pct) in
  let out := append_gauge out "heartbeat_queue_depth" "Current heartbeat queue depth" (of_Z binary64 (load heartbeat_queue_depth)) in
  let out := append_gauge out "receiver_heartbeat_state" "Heartbeat link state (0=DISCONNECTED,1=CONNECTING,2=CONNECTED)" (of_Z binary64 (load heartbeat_state)) in
  out.

(** The metrics of the faces. *)
Definition payload_faces (out : string) (load : cell -> Z) : string :=
  let out := append_face_gauge out "receiver_rx_queue_depth" "Current per-face RxStage queue depth" (fun i => load (face_rx_queue_depth i)) in
  let out := append_face_gauge out "receiver_rx_queue_high_watermark" "Observed per-face RxStage queue high watermark" (fun i => load (face_rx_queue_high_watermark i)) in
  let out := append_face_counter out "receiver_rx_queue_drops_total" "Per-face RxStage queue drop-oldest count" (fun i => load (face_rx_queue_drops i)) in
  let out := append_face_gauge out "receiver_packet_pool_total_buffers" "Per-face PacketPool total buffer count" (fun i => load (face_packet_pool_total i)) in
  let out := append_face_gauge out "receiver_packet_pool_available_buffers" "Per-face PacketPool available buffer count" (fun i => load (face_packet_pool_available i)) in
  let out := append_face_counter out "receiver_packet_pool_fallback_alloc_total" "Per-face PacketPool fallback allocation count" (fun i => load (face_packet_pool_fallback_alloc i)) in
  out.

(** The three histograms. *)
Definition payload_histograms (out : string) (load : cell -> Z) : string :=
  let out := append_histogram_double out "receiver_data_delay_seconds_histogram" "Data delay in seconds"
    DATA_DELAY_BUCKET_BOUNDS (fun i => load (data_delay_bucket_counts i)) (load data_delay_count) (load data_delay_sum) in
  let out := append_histogram_uint64 out "receiver_processing_latency_us_histogram" "Processing latency in microseconds"
    PROCESSING_LATENCY_BUCKET_BOUNDS (fun i => load (processing_latency_bucket_counts i))
    (load processing_latency_count) (load processing_latency_sum_us) in
  let out := append_histogram_uint64 out "packet_pool_allocation_latency_ns" "Packet pool allocation latency in nanoseconds"
    PACKET_POOL_ALLOC_LATENCY_BUCKET_BOUNDS (fun i => load (packet_pool_alloc_latency_bucket_counts i))
    (load packet_pool_alloc_latency_count) (load packet_pool_alloc_latency_sum_ns) in
  out.

(** The quantiles of the data delay and of the processing latency. *)
Definition payload_quantiles (out : string) (load' : cell -> Z) : string :=
  let data_cumulative :=
    cumulative_pairs DATA_DELAY_BUCKET_BOUNDS (fun i => load' (data_delay_bucket_counts i)) in
  let data_total := load' data_delay_count in
  let out := append_gauge out "receiver_data_delay_seconds_p50" "Approximate P50 data delay"
    (histogram_quantile_from_cumulative data_cumulative data_total q50) in
  let out := append_gauge out "receiver_data_delay_seconds_p99" "Approximate P99 data delay"
    (histogram_quantile_from_cumulative data_cumulative data_total q99) in
  let out := append_gauge out "receiver_data_delay_seconds_p999" "Approximate P99.9 data delay"
    (histogram_quantile_from_cumulative data_cumulative data_total q999) in
  let latency_cumulative :=
    cumulative_pairs_uint64 PROCESSING_LATENCY_BUCKET_BOUNDS (fun i => load' (processing_latency_bucket_counts i)) in
  let total := load' processing_latency_count in
  let out := append_gauge out "receiver_processing_latency_us_p50" "Approximate P50 processing latency"
    (histogram_quantile_from_cumulative latency_cumulative total q50) in
  let out := append_gauge out "receiver_processing_latency_us_p99" "Approximate P99 processing latency"
    (histogram_quantile_from_cumulative latency_cumulative total q99) in
  let out := append_gauge out "receiver_processing_latency_us_p999" "Approximate P99.9 processing latency"
    (histogram_quantile_from_cumulative latency_cumulative total q999) in
  out.

(** [load] are the values loaded for the samples, [load'] those loaded for the
    quantiles, [external] what [read_external_metrics_payload] returns. *)
Definition build_metrics_payload (load load' : cell -> Z) (external : string) : string :=
  let out := payload_counters EmptyString load in
  let out := payload_labelled out load in
  let out := payload_gauges out load in
  let out := payload_faces out load in
  let out := payload_histograms out load in
  let out := payload_quantiles out load' in
  out +:+ external.

(** ** The reader *)

(** The part before the last blank and the part behind it. *)
Fixpoint split_last (s : string) : option (string * string) :=
  match s with
  | EmptyString => None
  | String c s =>
    match split_last s with
    | Some (k, v) => Some (String c k, v)
    | None => if bool_decide (c = " "%char) then Some (EmptyString, s) else None
    end
  end.

(** A line is empty, a comment, or a sample: its name with the labels, and its
    value. *)
Definition sample_of (l : string) : option (string * string) :=
  match l with
  | String "#" _ => None
  | _ => split_last l
  end.

Definition samples (text : string) : list (string * string) := omap sample_of (lines text).

(** The rest of the line behind a prefix. *)
Fixpoint strip_prefix (p s : string) : option string :=
  match p, s with
  | EmptyString, _ => Some s
  | String c p, String d s => if bool_decide (c = d) then strip_prefix p s else None
  | String _ _, EmptyString => None
  end.

(** A declaration of a family: its name and its type. *)
Definition type_of (l : string) : option (string * string) := strip_prefix "# TYPE " l ≫= split_last.

Definition declarations (text : string) : list (string * string) := omap type_of (lines text).

(** The name of a sample without the labels. *)
Fixpoint bare_name (k : string) : string :=
  match k with
  | EmptyString => EmptyString
  | String c k => if bool_decide (c = "{"%char) then EmptyString else String c (bare_name k)
  end.

(** The sample with the key [k] belongs to a family the text declares: a histogram has
    samples under the three names derived from its own. *)
Definition belongs (k : string) (family : string * string) : bool :=
  let '(name, kind) := family in
  if bool_decide (kind = "histogram") then
    bool_decide (bare_name k ∈ [name +:+ "_bucket"; name +:+ "_sum"; name +:+ "_count"])
  else bool_decide (bare_name k = name).

(** ** The samples *)

Definition labelled_key (name label text : string) : string :=
  name +:+ "{" +:+ label +:+ "=" +:+ quote +:+ text +:+ quote +:+ "}".

Definition labelled_samples (name label : string) (labels : list string) (values : nat -> Z)
    : list (string * string) :=
  imap (fun i t => (labelled_key name label t, decimal (values i))) labels.

Definition face_samples (name : string) (values : nat -> Z) : list (string * string) :=
  labelled_samples name "face" ["1"; "2"; "3"] values.

(** The cumulative count up to and including bucket [i], modulo 2^64. *)
Definition cumulative (counts : nat -> Z) (i : nat) : Z := u64 (sumZ (counts <$> seq 0 (i + 1))).

Definition histogram_samples (show : Z -> string) (name : string) (bounds : list Z) (counts : nat -> Z) (count : Z)
    (sum : string) : list (string * string) :=
  imap (fun i b => (labelled_key (name +:+ "_bucket") "le" (show b), decimal (cumulative counts i))) bounds
    ++ [(labelled_key (name +:+ "_bucket") "le" "+Inf", decimal (cumulative counts (length bounds)));
        (name +:+ "_sum", sum); (name +:+ "_count", decimal count)].

Definition data_quantile (load : cell -> Z) (q : Z) : Z :=
  histogram_quantile_from_cumulative
    (cumulative_pairs DATA_DELAY_BUCKET_BOUNDS (fun i => load (data_delay_bucket_counts i))) (load data_delay_count) q.

Definition latency_quantile (load : cell -> Z) (q : Z) : Z :=
  histogram_quantile_from_cumulative
    (cumulative_pairs_uint64 PROCESSING_LATENCY_BUCKET_BOUNDS (fun i => load (processing_latency_bucket_counts i)))
    (load processing_latency_count) q.

(** The samples of the registry, in the order of the text. *)
Definition registry_samples (load load' : cell -> Z) : list (string * string) :=
  [("receiver_packets_received_total", decimal (load packets_received))]
    ++ [("receiver_bytes_received_total", decimal (load bytes_received))]
    ++ [("receiver_applied_late_total", decimal (load applied_late))]
    ++ [("receiver_clock_unlocked_total", decimal (load clock_unlocked))]
    ++ [("receiver_config_reload_total", decimal (load config_reload_total))]
    ++ [("heartbeat_packets_processed", decimal (load heartbeat_packets_processed))]
    ++ [("receiver_heartbeat_sent_total", decimal (load heartbeat_sent_total))]
    ++ [("receiver_missing_fragments_total", decimal (load missing_fragments_total))]
    ++ [("receiver_socket_packets_received_total", decimal (load socket_packets_received_total))]
    ++ [("receiver_socket_bytes_received_total", decimal (load socket_bytes_received_total))]
    ++ [("receiver_socket_receive_batches_total", decimal (load socket_receive_batches_total))]
    ++ [("receiver_socket_source_filtered_total", decimal (load socket_source_filtered_total))]
    ++ [("receiver_socket_receive_errors_total", decimal (load socket_receive_errors_total))]
    ++ [("receiver_pipeline_packets_entered_total", decimal (load pipeline_packets_entered_total))]
    ++ [("receiver_pipeline_parse_ok_total", decimal (load pipeline_parse_ok_total))]
    ++ [("receiver_pipeline_validate_ok_total", decimal (load pipeline_validate_ok_total))]
    ++ labelled_samples "receiver_signal_received_total" "signal" SIGNAL_LABELS (fun i => load (signal_received_total i))
    ++ labelled_samples "receiver_packets_received_total" "packet_type" PACKET_TYPE_LABELS (fun i => load (packets_by_type_atomic i))
    ++ labelled_samples "receiver_packets_dropped_total" "reason" DROP_REASON_LABELS (fun i => load (packets_by_reason_atomic i))
    ++ [("receiver_reasm_contexts_active", general (of_Z binary64 (load active_contexts)))]
    ++ [("receiver_buffer_usage_current", general (of_Z binary64 (load buffer_current)))]
    ++ [("receiver_buffer_usage_max", general (of_Z binary64 (load buffer_max)))]
    ++ [("receiver_uptime_seconds", general (load uptime_seconds))]
    ++ [("receiver_memory_rss_bytes", general (of_Z binary64 (load memory_rss_bytes)))]
    ++ [("numa_local_memory_pct", general (load numa_local_memory_pct))]
    ++ [("heartbeat_queue_depth", general (of_Z binary64 (load heartbeat_queue_depth)))]
    ++ [("receiver_heartbeat_state", general (of_Z binary64 (load heartbeat_state)))]
    ++ face_samples "receiver_rx_queue_depth" (fun i => load (face_rx_queue_depth i))
    ++ face_samples "receiver_rx_queue_high_watermark" (fun i => load (face_rx_queue_high_watermark i))
    ++ face_samples "receiver_rx_queue_drops_total" (fun i => load (face_rx_queue_drops i))
    ++ face_samples "receiver_packet_pool_total_buffers" (fun i => load (face_packet_pool_total i))
    ++ face_samples "receiver_packet_pool_available_buffers" (fun i => load (face_packet_pool_available i))
    ++ face_samples "receiver_packet_pool_fallback_alloc_total" (fun i => load (face_packet_pool_fallback_alloc i))
    ++ histogram_samples general "receiver_data_delay_seconds_histogram" DATA_DELAY_BUCKET_BOUNDS
       (fun i => load (data_delay_bucket_counts i)) (load data_delay_count) (general (load data_delay_sum))
    ++ histogram_samples decimal "receiver_processing_latency_us_histogram" PROCESSING_LATENCY_BUCKET_BOUNDS
       (fun i => load (processing_latency_bucket_counts i)) (load processing_latency_count)
       (decimal (load processing_latency_sum_us))
    ++ histogram_samples decimal "packet_pool_allocation_latency_ns" PACKET_POOL_ALLOC_LATENCY_BUCKET_BOUNDS
       (fun i => load (packet_pool_alloc_latency_bucket_counts i)) (load packet_pool_alloc_latency_count)
       (decimal (load packet_pool_alloc_latency_sum_ns))
    ++ [("receiver_data_delay_seconds_p50", general (data_quantile load' q50))]
    ++ [("receiver_data_delay_seconds_p99", general (data_quantile load' q99))]
    ++ [("receiver_data_delay_seconds_p999", general (data_quantile load' q999))]
    ++ [("receiver_processing_latency_us_p50", general (latency_quantile load' q50))]
    ++ [("receiver_processing_latency_us_p99", general (latency_quantile load' q99))]
    ++ [("receiver_processing_latency_us_p999", general (latency_quantile load' q999))].

(** The families the registry declares, in the order of the text. *)
Definition registry_types : list (string * string) :=
  [("receiver_packets_received_total", "counter"); ("receiver_bytes_received_total", "counter");
   ("receiver_applied_late_total", "counter"); ("receiver_clock_unlocked_total", "counter");
   ("receiver_config_reload_total", "counter"); ("heartbeat_packets_processed", "counter");
   ("receiver_heartbeat_sent_total", "counter"); ("receiver_missing_fragments_total", "counter");
   ("receiver_socket_packets_received_total", "counter"); ("receiver_socket_bytes_received_total", "counter");
   ("receiver_socket_receive_batches_total", "counter"); ("receiver_socket_source_filtered_total", "counter");
   ("receiver_socket_receive_errors_total", "counter"); ("receiver_pipeline_packets_entered_total", "counter");
   ("receiver_pipeline_parse_ok_total", "counter"); ("receiver_pipeline_validate_ok_total", "counter");
   ("receiver_signal_received_total", "counter"); ("receiver_packets_received_total", "counter");
   ("receiver_packets_dropped_total", "counter");
   ("receiver_reasm_contexts_active", "gauge"); ("receiver_buffer_usage_current", "gauge");
   ("receiver_buffer_usage_max", "gauge"); ("receiver_uptime_seconds", "gauge");
   ("receiver_memory_rss_bytes", "gauge"); ("numa_local_memory_pct", "gauge");
   ("heartbeat_queue_depth", "gauge"); ("receiver_heartbeat_state", "gauge");
   ("receiver_rx_queue_depth", "gauge"); ("receiver_rx_queue_high_watermark", "gauge");
   ("receiver_rx_queue_drops_total", "counter"); ("receiver_packet_pool_total_buffers", "gauge");
   ("receiver_packet_pool_available_buffers", "gauge"); ("receiver_packet_pool_fallback_alloc_total", "counter");
   ("receiver_data_delay_seconds_histogram", "histogram"); ("receiver_processing_latency_us_histogram", "histogram");
   ("packet_pool_allocation_latency_ns", "histogram");
   ("receiver_data_delay_seconds_p50", "gauge"); ("receiver_data_delay_seconds_p99", "gauge");
   ("receiver_data_delay_seconds_p999", "gauge"); ("receiver_processing_latency_us_p50", "gauge");
   ("receiver_processing_latency_us_p99", "gauge"); ("receiver_processing_latency_us_p999", "gauge")].

(** ** Laws *)

(** *** Samples of lines *)

Lemma split_last_word v : chars_in word_char v = true -> split_last v = None.
Proof.
  induction v as [|c v IH]; [done|]. cbn. rewrite andb_true_iff. intros [Hc Hv]. rewrite IH by done.
  unfold word_char in Hc. by case_bool_decide.
Qed.

Lemma split_last_sample k v : chars_in word_char v = true -> split_last (k +:+ " " +:+ v) = Some (k, v).
Proof.
  intros Hv. induction k as [|c k IH].
  - change (split_last (String " " v) = Some (EmptyString, v)). cbn. by rewrite split_last_word.
  - rewrite append_cons. cbn [split_last]. by rewrite IH.
Qed.

(** A name that begins a sample: a word that is not a comment. *)
Definition name_ok (s : string) : bool :=
  match s with
  | EmptyString => false
  | String c _ => negb (bool_decide (c = "#"%char))
  end && chars_in word_char s.

Lemma sample_of_line k v :
  name_ok k = true -> chars_in word_char v = true -> sample_of (k +:+ " " +:+ v) = Some (k, v).
Proof.
  intros Hk Hv. rewrite <-(split_last_sample k v) by done.
  destruct k as [|c k]; [done|]. rewrite append_cons. unfold name_ok in Hk. apply andb_true_iff in Hk as [Hc _].
  destruct c as [[] [] [] [] [] [] [] []]; done.
Qed.

Lemma name_ok_word k : name_ok k = true -> chars_in word_char k = true.
Proof. unfold name_ok. rewrite andb_true_iff. by intros []. Qed.

Lemma name_ok_app k s : name_ok k = true -> chars_in word_char s = true -> name_ok (k +:+ s) = true.
Proof.
  unfold name_ok. rewrite chars_in_app, !andb_true_iff. intros [Hk ->] ->. by destruct k.
Qed.

#[local] Hint Resolve name_ok_word decimal_word general_word chars_line : text.

(** *** Declarations of lines *)

Lemma strip_prefix_app p s : strip_prefix p (p +:+ s) = Some s.
Proof. induction p as [|c p IH]; [done|]. rewrite append_cons. cbn. by rewrite bool_decide_true. Qed.

Lemma type_of_line name kind : chars_in word_char kind = true -> type_of ("# TYPE " +:+ name +:+ " " +:+ kind) = Some (name, kind).
Proof. intros Hk. unfold type_of. rewrite strip_prefix_app. by apply split_last_sample. Qed.

(** A sample is no declaration. *)
Lemma type_of_sample k s : name_ok k = true -> type_of (k +:+ s) = None.
Proof.
  destruct k as [|c k]; [done|]. unfold name_ok. rewrite andb_true_iff, negb_true_iff, bool_decide_eq_false. intros [Hc _].
  rewrite append_cons. unfold type_of. cbn [strip_prefix]. by rewrite bool_decide_false by congruence.
Qed.

(** *** Appending *)

(** The text grows by whole lines with these declarations and these samples. *)
Definition emits (out out' : string) (d l : list (string * string)) : Prop :=
  exists s ls, out' = out +:+ s /\ whole_lines s ls /\ omap type_of ls = d /\ omap sample_of ls = l.

Lemma emits_refl out : emits out out [] [].
Proof. exists "", []. rewrite append_nil_r. split_and!; [done|constructor|done|done]. Qed.

Lemma emits_trans out out' out'' d d' l l' :
  emits out out' d l -> emits out' out'' d' l' -> emits out out'' (d ++ d') (l ++ l').
Proof.
  intros (s & ls & -> & Hs & <- & <-) (s' & ls' & -> & Hs' & <- & <-).
  exists (s +:+ s'), (ls ++ ls'). rewrite append_assoc, !omap_app. split_and!; auto using whole_lines_app.
Qed.

Lemma emits_line out l :
  chars_in line_char l = true -> emits out (out +:+ (l +:+ nl)) (option_list (type_of l)) (option_list (sample_of l)).
Proof.
  intros Hl. exists (l +:+ nl), [l]. split_and!; [done|..].
  - rewrite <-(append_nil_r nl) at 1. by repeat constructor.
  - cbn. by destruct (type_of l).
  - cbn. by destruct (sample_of l).
Qed.

Lemma emits_sample out k v :
  name_ok k = true -> chars_in word_char v = true -> emits out (out +:+ (k +:+ " " +:+ v +:+ nl)) [] [(k, v)].
Proof.
  intros Hk Hv. pose proof (emits_line out (k +:+ " " +:+ v)) as H.
  rewrite sample_of_line, type_of_sample in H by done. rewrite !append_assoc in H. apply H.
  rewrite !chars_in_app, !andb_true_iff. auto with text.
Qed.

Lemma emits_comment out l name s :
  sample_of (l +:+ name +:+ " " +:+ s) = None -> chars_in line_char l = true ->
  chars_in word_char name = true -> chars_in line_char s = true ->
  emits out (out +:+ (l +:+ name +:+ " " +:+ s +:+ nl)) (option_list (type_of (l +:+ name +:+ " " +:+ s))) [].
Proof.
  intros Hl ???. pose proof (emits_line out (l +:+ name +:+ " " +:+ s)) as H'.
  rewrite Hl in H'. rewrite !append_assoc in H'. apply H'.
  rewrite !chars_in_app, !andb_true_iff. auto with text.
Qed.

Lemma emits_meta out name help kind :
  chars_in word_char name = true -> chars_in line_char help = true -> chars_in word_char kind = true ->
  emits out (append_meta out name help kind) [(name, kind)] [].
Proof.
  intros. unfold append_meta. rewrite <-append_assoc. rewrite <-(app_nil_r []).
  apply (emits_trans _ (out +:+ ("# HELP " +:+ name +:+ " " +:+ help +:+ nl)) _ []); [by apply (emits_comment _ "# HELP ")|].
  pose proof (emits_comment (out +:+ ("# HELP " +:+ name +:+ " " +:+ help +:+ nl)) "# TYPE " name kind) as H'.
  rewrite type_of_line in H' by done. apply H'; auto with text.
Qed.

(** A family: its declaration and then samples only. *)
Lemma emits_family out out' name help kind l :
  name_ok name = true -> chars_in line_char help = true -> chars_in word_char kind = true ->
  emits (append_meta out name help kind) out' [] l -> emits out out' [(name, kind)] l.
Proof. intros ??? H'. apply (emits_trans _ _ _ [_] [] [] l (emits_meta out name help kind ltac:(auto with text) ltac:(done) ltac:(done)) H'). Qed.

Lemma emits_counter out name help v :
  name_ok name = true -> chars_in line_char help = true ->
  emits out (append_counter out name help v) [(name, "counter")] [(name, decimal v)].
Proof. intros. eapply emits_family; [done..|]. apply emits_sample; auto with text. Qed.

Lemma emits_gauge out name help v :
  name_ok name = true -> chars_in line_char help = true ->
  emits out (append_gauge out name help v) [(name, "gauge")] [(name, general v)].
Proof. intros. eapply emits_family; [done..|]. apply emits_sample; auto with text. Qed.

Lemma key_ok name label text :
  name_ok name = true -> chars_in word_char label = true -> chars_in word_char text = true ->
  name_ok (labelled_key name label text) = true.
Proof.
  intros. apply name_ok_app; [done|]. rewrite !chars_in_app, !andb_true_iff. auto 10.
Qed.

Lemma emits_label out name label text v :
  name_ok name = true -> chars_in word_char label = true -> chars_in word_char text = true ->
  chars_in word_char v = true ->
  emits out (out +:+ sample_line name label text v) [] [(labelled_key name label text, v)].
Proof.
  intros. replace (sample_line name label text v) with (labelled_key name label text +:+ " " +:+ v +:+ nl).
  - apply emits_sample; [|done]. by apply key_ok.
  - unfold sample_line, labelled_key. by rewrite !append_assoc.
Qed.

Lemma emits_labels out name label labels values i :
  name_ok name = true -> chars_in word_char label = true -> Forall (fun t => chars_in word_char t = true) labels ->
  emits out (append_labels out name label labels values i) []
    (imap (fun j t => (labelled_key name label t, decimal (values (i + j)%nat))) labels).
Proof.
  intros Hn Hl Hls. revert out i. induction Hls as [|t labels Ht _ IH]; intros out i; [apply emits_refl|].
  cbn [append_labels imap]. rewrite Nat.add_0_r.
  eapply (emits_trans _ _ _ [] [] [_]); [by apply emits_label; auto with text|].
  erewrite (imap_ext (_ ∘ S)); [apply IH|]. intros j t' _. cbn. by rewrite Nat.add_succ_r.
Qed.

Lemma append_faces_labels out name values i :
  append_faces out name values i 3 =
  append_labels out name "face" ((fun j => decimal (Z.of_nat (j + 1))) <$> seq i 3) values i.
Proof. done. Qed.

Lemma emits_labelled out name help label labels values :
  name_ok name = true -> chars_in line_char help = true -> chars_in word_char label = true ->
  Forall (fun t => chars_in word_char t = true) labels ->
  emits out (append_labelled out name help label labels values) [(name, "counter")]
    (labelled_samples name label labels values).
Proof. intros. eapply emits_family; [done..|]. by apply emits_labels. Qed.

Lemma emits_faces out name help kind values :
  name_ok name = true -> chars_in line_char help = true -> chars_in word_char kind = true ->
  emits out (append_faces (append_meta out name help kind) name values 0 3) [(name, kind)] (face_samples name values).
Proof.
  intros. eapply emits_family; [done..|]. rewrite append_faces_labels. apply emits_labels; [done|done|].
  by repeat constructor.
Qed.

(** *** Histograms *)

Lemma cumulative_step counts i c :
  c = u64 (sumZ (counts <$> seq 0 i)) -> c +[64] counts i = cumulative counts i.
Proof.
  intros ->. unfold cumulative. rewrite Nat.add_1_r, seq_S, fmap_app, sumZ_app. autorewrite with wrap.
  cbn. do 2 f_equal. lia.
Qed.

Lemma cumulative_next counts i : cumulative counts i = u64 (sumZ (counts <$> seq 0 (S i))).
Proof. unfold cumulative. by rewrite Nat.add_1_r. Qed.

Lemma emits_buckets show out name bounds counts i c :
  name_ok name = true -> Forall (fun b => chars_in word_char (show b) = true) bounds ->
  c = u64 (sumZ (counts <$> seq 0 i)) ->
  emits out (fst (append_buckets show out name bounds counts i c)) []
    (imap (fun j b => (labelled_key (name +:+ "_bucket") "le" (show b), decimal (cumulative counts (i + j)))) bounds) /\
  snd (append_buckets show out name bounds counts i c) = u64 (sumZ (counts <$> seq 0 (i + length bounds))).
Proof.
  intros Hn Hb. revert out i c. induction Hb as [|b bounds Hb _ IH]; intros out i c Hc.
  - cbn. rewrite Nat.add_0_r. split; [apply emits_refl|done].
  - cbn [append_buckets imap]. rewrite (cumulative_step counts i c Hc).
    destruct (IH (out +:+ sample_line (name +:+ "_bucket") "le" (show b) (decimal (cumulative counts i))) (S i) _
      (cumulative_next counts i)) as [He Hs].
    split; [|rewrite Hs; cbn [length]; by rewrite Nat.add_succ_r].
    rewrite Nat.add_0_r. eapply (emits_trans _ _ _ [] [] [_]).
    + apply emits_label; auto with text. by apply name_ok_app.
    + erewrite (imap_ext (_ ∘ S)); [apply He|]. intros j b' _. cbn. by rewrite Nat.add_succ_r.
Qed.

Lemma emits_histogram show out name help bounds counts count sum :
  name_ok name = true -> chars_in line_char help = true -> chars_in word_char sum = true ->
  Forall (fun b => chars_in word_char (show b) = true) bounds ->
  emits out (append_histogram show out name help bounds counts count sum) [(name, "histogram")]
    (histogram_samples show name bounds counts count sum).
Proof.
  intros Hn Hh Hs Hb. unfold append_histogram.
  destruct (emits_buckets show (append_meta out name help "histogram") name bounds counts 0 0 Hn Hb eq_refl) as [He Hc].
  destruct (append_buckets _ _ _ _ _ _ _) as [out' c]. cbn [fst snd] in He, Hc. rewrite Nat.add_0_l in Hc.
  rewrite (cumulative_step _ _ _ Hc).
  eapply emits_family; [done..|]. eapply (emits_trans _ _ _ [] []); [exact He|]. rewrite <-append_assoc, <-append_assoc.
  eapply (emits_trans _ _ _ [] [] [_]); [by apply emits_label; auto with text; apply name_ok_app|].
  pose proof (fun o => emits_sample o (name +:+ "_sum") sum) as H1.
  pose proof (fun o => emits_sample o (name +:+ "_count") (decimal count)) as H2.
  setoid_rewrite append_assoc in H1. setoid_rewrite append_assoc in H2.
  eapply (emits_trans _ _ _ [] [] [_] [_]); [apply H1|apply H2]; auto using name_ok_app with text.
Qed.

Lemma shown_words (show : Z -> string) bounds : (forall b, chars_in word_char (show b) = true) ->
  Forall (fun b => chars_in word_char (show b) = true) bounds.
Proof. intros. by apply Forall_true. Qed.

Ltac emit :=
  eapply emits_trans;
    [|first [apply emits_counter | apply emits_gauge | apply emits_labelled | apply emits_faces | apply emits_histogram];
      first [reflexivity | apply general_word | apply decimal_word
            | apply shown_words; first [apply general_word | apply decimal_word] | by repeat constructor]].

Lemma emits_declared out out' d d' l : emits out out' d l -> d = d' -> emits out out' d' l.
Proof. by intros ? <-. Qed.

Lemma payload_emits load load' external :
  exists s, build_metrics_payload load load' external = s +:+ external /\ emits "" s registry_types (registry_samples load load').
Proof.
  eexists. split; [reflexivity|]. eapply emits_declared.
  - unfold registry_samples. rewrite !(assoc_L (++)). repeat emit. apply emits_counter; reflexivity.
  - reflexivity.
Qed.

(** *** Buckets *)

Section Buckets.

Context (le : Z -> Z -> bool).
Context (le_trans : forall x y z, le x y = true -> le y z = true -> le x z = true).

(** The bounds ascend. *)
Definition ascending (bounds : list Z) : Prop :=
  forall i j a b, (i <= j)%nat -> bounds !! i = Some a -> bounds !! j = Some b -> le a b = true.

Lemma first_bucket_le bounds x i b :
  bounds !! i = Some b -> le x b = true -> (first_bucket le bounds x <= i)%nat.
Proof.
  revert i. induction bounds as [|a bounds IH]; intros [|i] Hi Hx; cbn in *; simplify_eq.
  - by rewrite Hx.
  - destruct (le x a); [lia|]. specialize (IH i Hi Hx). lia.
Qed.

Lemma first_bucket_sat bounds x a : bounds !! first_bucket le bounds x = Some a -> le x a = true.
Proof. induction bounds as [|b bounds IH]; cbn; [done|]. destruct (le x b) eqn:E; cbn; [congruence|auto]. Qed.

(** The bucket of a value is at most [i] exactly when the value is at most the
    bound of bucket [i]. *)
Lemma first_bucket_iff bounds x i b :
  ascending bounds -> bounds !! i = Some b -> (first_bucket le bounds x <= i)%nat <-> le x b = true.
Proof.
  intros Ha Hi. split; [|by apply first_bucket_le]. intros Hle.
  assert (first_bucket le bounds x < length bounds)%nat as [a Hj]%lookup_lt_is_Some_2.
  { apply lookup_lt_Some in Hi. lia. }
  eapply le_trans; [by eapply first_bucket_sat|]. by eapply Ha.
Qed.

(** How many values fall into bucket [j]. *)
Definition in_bucket (bounds : list Z) (xs : list Z) (j : nat) : Z :=
  Z.of_nat (length (filter (fun x => first_bucket le bounds x = j) xs)).

Definition up_to (xs : list Z) (b : Z) : Z := Z.of_nat (length (filter (fun x => le x b = true) xs)).

Lemma in_bucket_cons bounds x xs j :
  in_bucket bounds (x :: xs) j = (if decide (first_bucket le bounds x = j) then 1 else 0) + in_bucket bounds xs j.
Proof. unfold in_bucket. rewrite filter_cons. case_decide; cbn; lia. Qed.

Lemma sum_indicator k n : sumZ ((fun j => if decide (k = j) then 1 else 0) <$> seq 0 n) = if decide (k < n)%nat then 1 else 0.
Proof.
  induction n as [|n IH]; [done|]. rewrite seq_S, fmap_app, sumZ_app, IH. cbn.
  repeat case_decide; lia.
Qed.

Lemma sum_buckets bounds xs n :
  sumZ (in_bucket bounds xs <$> seq 0 n) = Z.of_nat (length (filter (fun x => (first_bucket le bounds x < n)%nat) xs)).
Proof.
  induction xs as [|x xs IH].
  { unfold in_bucket. cbn. induction (seq 0 n) as [|? ? IH']; [done|]. exact IH'. }
  rewrite filter_cons. transitivity (sumZ ((fun j => if decide (first_bucket le bounds x = j) then 1 else 0) <$> seq 0 n)
    + sumZ (in_bucket bounds xs <$> seq 0 n)).
  - clear IH. induction (seq 0 n) as [|j js IHj]; [done|]. cbn. rewrite in_bucket_cons. unfold sumZ in IHj. cbn in IHj. lia.
  - rewrite sum_indicator, IH. case_decide; cbn; lia.
Qed.

(** The cumulative count at a bound counts the values up to it. *)
Lemma cumulative_up_to bounds xs i b :
  ascending bounds -> bounds !! i = Some b -> sumZ (in_bucket bounds xs <$> seq 0 (i + 1)) = up_to xs b.
Proof.
  intros Ha Hi. rewrite sum_buckets. unfold up_to. do 2 f_equal. apply list_filter_iff. intros x.
  rewrite <-(first_bucket_iff bounds x i b Ha Hi). lia.
Qed.

(** All buckets together count every value. *)
Lemma cumulative_all bounds xs : sumZ (in_bucket bounds xs <$> seq 0 (length bounds + 1)) = Z.of_nat (length xs).
Proof.
  rewrite sum_buckets. do 2 f_equal. induction xs as [|x xs IH]; [done|]. rewrite filter_cons, decide_True; [by rewrite IH|].
  pose proof (first_bucket_bound le bounds x). lia.
Qed.

End Buckets.

(** ** Observations *)

Definition processing_latencies (calls : list call) : list Z :=
  omap (fun c => match c with CProcessingLatency us => Some us | _ => None end) calls.

Definition allocation_latencies (calls : list call) : list Z :=
  omap (fun c => match c with CPacketPoolAllocationLatency ns => Some ns | _ => None end) calls.

Definition data_delays (calls : list call) : list Z :=
  omap (fun c => match c with CDataDelay d => Some (clamp_delay d) | _ => None end) calls.

Lemma added_one c c' n l : added c (FetchAdd c' n :: l) = (if decide (c' = c) then n else 0) + added c l.
Proof. rewrite added_cons. unfold added at 1. cbn. case_decide; cbn; lia. Qed.

Ltac added_cases :=
  unfold observe_data_delay, observe_processing_latency, observe_packet_pool_allocation_latency_ns;
  rewrite !added_one; unfold added; cbn [omap list_omap sumZ foldr]; repeat case_decide; simplify_eq; try done; try lia.

Lemma added_processing call :
  (forall j, added (processing_latency_bucket_counts j) (accesses call) =
     match call with
     | CProcessingLatency us => if decide (first_bucket Z.leb PROCESSING_LATENCY_BUCKET_BOUNDS us = j) then 1 else 0
     | _ => 0
     end) /\
  added processing_latency_count (accesses call) = match call with CProcessingLatency _ => 1 | _ => 0 end /\
  added processing_latency_sum_us (accesses call) = match call with CProcessingLatency us => us | _ => 0 end.
Proof. destruct call; method_cases; split_and!; intros; try reflexivity; added_cases. Qed.

Lemma added_allocation call :
  (forall j, added (packet_pool_alloc_latency_bucket_counts j) (accesses call) =
     match call with
     | CPacketPoolAllocationLatency ns =>
       if decide (first_bucket Z.leb PACKET_POOL_ALLOC_LATENCY_BUCKET_BOUNDS ns = j) then 1 else 0
     | _ => 0
     end) /\
  added packet_pool_alloc_latency_count (accesses call) =
    match call with CPacketPoolAllocationLatency _ => 1 | _ => 0 end /\
  added packet_pool_alloc_latency_sum_ns (accesses call) =
    match call with CPacketPoolAllocationLatency ns => ns | _ => 0 end.
Proof. destruct call; method_cases; split_and!; intros; try reflexivity; added_cases. Qed.

Lemma added_delay call :
  (forall j, added (data_delay_bucket_counts j) (accesses call) =
     match call with
     | CDataDelay d =>
       if decide (first_bucket (fleb binary64) DATA_DELAY_BUCKET_BOUNDS (clamp_delay d) = j) then 1 else 0
     | _ => 0
     end) /\
  added data_delay_count (accesses call) = match call with CDataDelay _ => 1 | _ => 0 end.
Proof. destruct call; method_cases; split_and!; intros; try reflexivity; added_cases. Qed.

(** What the calls add to the cells of a histogram: the values observed are [xs]. *)
Definition observed (le : Z -> Z -> bool) (bounds : list Z) (bucket : nat -> cell) (count : cell) (calls : list call)
    (xs : list Z) : Prop :=
  (forall j, added (bucket j) (thread calls) = in_bucket le bounds xs j) /\
  added count (thread calls) = Z.of_nat (length xs).

Lemma thread_cons c calls : thread (c :: calls) = accesses c ++ thread calls.
Proof. done. Qed.

Lemma observed_processing calls :
  observed Z.leb PROCESSING_LATENCY_BUCKET_BOUNDS processing_latency_bucket_counts processing_latency_count calls
    (processing_latencies calls) /\
  added processing_latency_sum_us (thread calls) = sumZ (processing_latencies calls).
Proof.
  induction calls as [|c calls [[IHb IHc] IHs]]; [done|].
  destruct (added_processing c) as (Hb & Hc & Hs). unfold observed. setoid_rewrite thread_cons. setoid_rewrite added_app.
  setoid_rewrite Hb. setoid_rewrite IHb. rewrite Hc, Hs, IHc, IHs.
  destruct c; try done.
  change (processing_latencies (CProcessingLatency us :: calls)) with (us :: processing_latencies calls).
  cbn [length]. split_and!; [intros; by rewrite in_bucket_cons|lia|done].
Qed.

Lemma observed_allocation calls :
  observed Z.leb PACKET_POOL_ALLOC_LATENCY_BUCKET_BOUNDS packet_pool_alloc_latency_bucket_counts
    packet_pool_alloc_latency_count calls (allocation_latencies calls) /\
  added packet_pool_alloc_latency_sum_ns (thread calls) = sumZ (allocation_latencies calls).
Proof.
  induction calls as [|c calls [[IHb IHc] IHs]]; [done|].
  destruct (added_allocation c) as (Hb & Hc & Hs). unfold observed. setoid_rewrite thread_cons. setoid_rewrite added_app.
  setoid_rewrite Hb. setoid_rewrite IHb. rewrite Hc, Hs, IHc, IHs.
  destruct c; try done.
  change (allocation_latencies (CPacketPoolAllocationLatency ns :: calls)) with (ns :: allocation_latencies calls).
  cbn [length]. split_and!; [intros; by rewrite in_bucket_cons|lia|done].
Qed.

Lemma observed_delay calls :
  observed (fleb binary64) DATA_DELAY_BUCKET_BOUNDS data_delay_bucket_counts data_delay_count calls (data_delays calls).
Proof.
  induction calls as [|c calls [IHb IHc]]; [done|].
  destruct (added_delay c) as (Hb & Hc). unfold observed. setoid_rewrite thread_cons. setoid_rewrite added_app.
  setoid_rewrite Hb. setoid_rewrite IHb. rewrite Hc, IHc.
  destruct c; try done.
  change (data_delays (CDataDelay seconds :: calls)) with (clamp_delay seconds :: data_delays calls).
  cbn [length]. split_and!; [intros; by rewrite in_bucket_cons|lia].
Qed.

(** The text shows the histogram of the values [xs]: at every bound the number of
    values up to it, and the number of all values. *)
Definition shows_histogram (show : Z -> string) (le : Z -> Z -> bool) (name : string) (bounds xs : list Z) (sum : string)
    (text : list (string * string)) : Prop :=
  (forall b, b ∈ bounds -> (labelled_key (name +:+ "_bucket") "le" (show b), decimal (u64 (up_to le xs b))) ∈ text) /\
  (labelled_key (name +:+ "_bucket") "le" "+Inf", decimal (u64 (Z.of_nat (length xs)))) ∈ text /\
  (name +:+ "_sum", sum) ∈ text /\
  (name +:+ "_count", decimal (u64 (Z.of_nat (length xs)))) ∈ text.

Lemma sum_wrap (f g : nat -> Z) js : (forall j, f j = u64 (g j)) -> u64 (sumZ (f <$> js)) = u64 (sumZ (g <$> js)).
Proof.
  intros Hf. induction js as [|j js IH]; [done|].
  change (u64 (f j + sumZ (f <$> js)) = u64 (g j + sumZ (g <$> js))).
  rewrite <-(wrap_add_r 64 (f j)), IH, Hf by lia. by autorewrite with wrap.
Qed.

Lemma histogram_samples_shown show le name bounds xs sum counts count text :
  (forall x y z, le x y = true -> le y z = true -> le x z = true) -> ascending le bounds ->
  (forall j, counts j = u64 (in_bucket le bounds xs j)) -> count = u64 (Z.of_nat (length xs)) ->
  (forall p, p ∈ histogram_samples show name bounds counts count sum -> p ∈ text) ->
  shows_histogram show le name bounds xs sum text.
Proof.
  intros Htr Ha Hc -> Hin. unfold histogram_samples in Hin. setoid_rewrite elem_of_app in Hin.
  split_and!.
  - intros b [i Hi]%list_elem_of_lookup. apply Hin. left. apply list_elem_of_lookup. exists i.
    rewrite list_lookup_imap, Hi. cbn [fmap option_fmap option_map]. unfold cumulative. rewrite (sum_wrap _ _ _ Hc).
    by rewrite (cumulative_up_to _ Htr _ xs i b).
  - apply Hin. right. unfold cumulative. rewrite (sum_wrap _ _ _ Hc), cumulative_all. apply list_elem_of_here.
  - apply Hin. right. apply list_elem_of_further, list_elem_of_here.
  - apply Hin. right. do 2 apply list_elem_of_further. apply list_elem_of_here.
Qed.

(** The bounds of the three histograms ascend. *)
Definition ascendingb (le : Z -> Z -> bool) (bounds : list Z) : bool :=
  forallb (fun i => forallb (fun j => le (nth i bounds 0) (nth j bounds 0)) (seq i (length bounds - i)))
    (seq 0 (length bounds)).

Lemma ascendingb_ok le bounds : ascendingb le bounds = true -> ascending le bounds.
Proof.
  unfold ascendingb. rewrite forallb_forall. intros H i j a b Hij Hi Hj.
  pose proof (lookup_lt_Some _ _ _ Hi). pose proof (lookup_lt_Some _ _ _ Hj).
  specialize (H i ltac:(apply in_seq; lia)). rewrite forallb_forall in H.
  specialize (H j ltac:(apply in_seq; lia)). by rewrite (nth_lookup_Some _ _ _ _ Hi), (nth_lookup_Some _ _ _ _ Hj) in H.
Qed.

Lemma Zleb_trans x y z : (x <=? y) = true -> (y <=? z) = true -> (x <=? z) = true.
Proof. rewrite !Z.leb_le. lia. Qed.

(** The sum of the delays is built by one addition for each of them, in some order. *)
Lemma run_double c l s :
  Forall (fun a => match a with FetchAdd c' _ | Put c' _ => c' <> c | AddDouble _ _ => True end) l ->
  run l s c = fold_left (fadd binary64)
    (omap (fun a => match a with AddDouble c' d => if decide (c' = c) then Some d else None | _ => None end) l) (s c).
Proof.
  intros Hl. revert s. induction Hl as [|a l Ha _ IH]; intros s; [done|].
  change (run (a :: l) s c) with (run l (perform a s) c). rewrite IH.
  destruct a as [c' n|c' v|c' d]; cbn; [by rewrite update_ne..|]. case_decide as E.
  - subst. by rewrite update_eq.
  - by rewrite update_ne.
Qed.

Lemma delays_of_thread calls :
  omap (fun a => match a with AddDouble c' d => if decide (c' = data_delay_sum) then Some d else None | _ => None end)
    (thread calls) = data_delays calls.
Proof.
  induction calls as [|c calls IH]; [done|]. rewrite thread_cons, omap_app, IH.
  assert (data_delays (c :: calls) =
    option_list (match c with CDataDelay d => Some (clamp_delay d) | _ => None end) ++ data_delays calls) as ->
    by by destruct c.
  f_equal. destruct c; method_cases; reflexivity.
Qed.

Lemma delay_sum_untouched call :
  Forall (fun a => match a with FetchAdd c' _ | Put c' _ => c' <> data_delay_sum | AddDouble _ _ => True end) (accesses call).
Proof. destruct call; method_cases; repeat constructor; discriminate. Qed.

Lemma delay_sum_exact tss l ts' s' :
  exec (thread <$> tss) Impl_init l ts' s' -> finished ts' ->
  exists ds, ds ≡ₚ data_delays (mjoin tss) /\ s' data_delay_sum = fold_left (fadd binary64) ds 0.
Proof.
  intros He Hf. destruct (exec_finished _ _ _ _ _ He Hf) as [-> Hp]. rewrite <-thread_join in Hp.
  eexists. split; [|apply run_double].
  - by rewrite <-Hp, delays_of_thread.
  - rewrite <-Hp. unfold thread. apply Forall_join, Forall_fmap, Forall_true. intros. apply delay_sum_untouched.
Qed.

(** *** The theorems *)

Ltac part_of_registry :=
  let p := fresh in let H := fresh in
  intros p H; unfold registry_samples;
  repeat first [exact H | apply elem_of_app; left; exact H | apply elem_of_app; right].

Lemma payload_reads load load' external :
  samples (build_metrics_payload load load' external) = registry_samples load load' ++ samples external /\
  declarations (build_metrics_payload load load' external) = registry_types ++ declarations external.
Proof.
  destruct (payload_emits load load' external) as (s & -> & s' & ls & -> & Hw & <- & <-).
  change ("" +:+ s') with s'. unfold samples, declarations. by rewrite (lines_whole _ _ _ Hw), !omap_app.
Qed.

(** The names of the samples do not depend on the values. *)
Lemma registry_keys load load' :
  (registry_samples load load').*1 = (registry_samples (fun _ => 0) (fun _ => 0)).*1.
Proof. reflexivity. Qed.

Lemma registry_keys_nodup : NoDup (registry_samples (fun _ => 0) (fun _ => 0)).*1.
Proof. apply (bool_decide_unpack _). vm_compute. exact I. Qed.

Lemma registry_types_nodup : NoDup (tail registry_types).*1.
Proof. apply (bool_decide_unpack _). vm_compute. exact I. Qed.

Lemma registry_declared load load' :
  Forall (fun k => existsb (belongs k) registry_types = true) (registry_samples load load').*1.
Proof. rewrite registry_keys. apply (bool_decide_unpack _). vm_compute. exact I. Qed.

(** C19: whatever a scrape loads, and whatever the external file holds, a reader of
    the text format gets back exactly the samples of the registry, in order, each
    with the text of its value (an integer in all its digits, a double with at most
    six significant digits), followed by those of the external file, and the declarations of the
    registry's families, followed by those of the external file. The names of the
    registry's samples are pairwise different, and each belongs to a declared family. A
    family is declared once, but for one: [receiver_packets_received_total] is
    declared first as the total and again for the packet types, which the format does not
    allow. *)
Theorem scrape_reads_back load load' external :
  let text := build_metrics_payload load load' external in
  samples text = registry_samples load load' ++ samples external /\
  declarations text = registry_types ++ declarations external /\
  NoDup (registry_samples load load').*1 /\
  Forall (fun k => existsb (belongs k) registry_types = true) (registry_samples load load').*1 /\
  NoDup (tail registry_types).*1 /\
  head registry_types = Some ("receiver_packets_received_total", "counter") /\
  ("receiver_packets_received_total", "counter") ∈ tail registry_types.
Proof.
  intros text. subst text. destruct (payload_reads load load' external) as [-> ->]. split_and!; try done.
  - rewrite registry_keys. apply registry_keys_nodup.
  - apply registry_declared.
  - apply registry_types_nodup.
  - apply (bool_decide_unpack _). vm_compute. exact I.
Qed.

Lemma counts_exact le bounds bucket count xs tss l ts' s' :
  (forall j, counter_cell (bucket j) = true) -> counter_cell count = true ->
  exec (thread <$> tss) Impl_init l ts' s' -> finished ts' ->
  observed le bounds bucket count (mjoin tss) xs ->
  (forall j, s' (bucket j) = u64 (in_bucket le bounds xs j)) /\ s' count = u64 (Z.of_nat (length xs)).
Proof.
  intros Hb Hc He Hf [Ho Hn]. split.
  - intros j. by rewrite (counter_exact _ _ _ _ _ (Hb j) He Hf), Ho.
  - by rewrite (counter_exact _ _ _ _ _ Hc He Hf), Hn.
Qed.

(** C18: threads call any methods, their atomic accesses interleaved in any way; once
    they have returned, a scrape shows the exact histograms of the processing
    latencies, of the allocation latencies and of the data delays: at every bound the
    number of values up to it, under +Inf and as count the number of all values,
    and the sum; counters are modulo 2^64, and the sum of the delays is the rounded
    sum in some order. *)
Theorem histograms_exact tss l ts' s' external :
  exec (thread <$> tss) Impl_init l ts' s' -> finished ts' ->
  let calls := mjoin tss in
  let text := samples (build_metrics_payload s' s' external) in
  shows_histogram decimal Z.leb "receiver_processing_latency_us_histogram" PROCESSING_LATENCY_BUCKET_BOUNDS
    (processing_latencies calls) (decimal (u64 (sumZ (processing_latencies calls)))) text /\
  shows_histogram decimal Z.leb "packet_pool_allocation_latency_ns" PACKET_POOL_ALLOC_LATENCY_BUCKET_BOUNDS
    (allocation_latencies calls) (decimal (u64 (sumZ (allocation_latencies calls)))) text /\
  exists ds, ds ≡ₚ data_delays calls /\
    shows_histogram general (fleb binary64) "receiver_data_delay_seconds_histogram" DATA_DELAY_BUCKET_BOUNDS
      (data_delays calls) (general (fold_left (fadd binary64) ds 0)) text.
Proof.
  intros He Hf calls text. subst text. rewrite (proj1 (payload_reads _ _ _)).
  destruct (observed_processing calls) as [Hp Hps], (observed_allocation calls) as [Ha Has].
  pose proof (counter_exact processing_latency_sum_us _ _ _ _ eq_refl He Hf) as Hs1.
  pose proof (counter_exact packet_pool_alloc_latency_sum_ns _ _ _ _ eq_refl He Hf) as Hs2.
  fold calls in Hs1, Hs2. rewrite Hps in Hs1. rewrite Has in Hs2. rewrite <-Hs1, <-Hs2.
  destruct (delay_sum_exact _ _ _ _ He Hf) as (ds & Hds & Hsum).
  destruct (counts_exact _ _ processing_latency_bucket_counts processing_latency_count _ _ _ _ _
    (fun _ => eq_refl) eq_refl He Hf Hp) as [Hp1 Hp2].
  destruct (counts_exact _ _ packet_pool_alloc_latency_bucket_counts packet_pool_alloc_latency_count _ _ _ _ _
    (fun _ => eq_refl) eq_refl He Hf Ha) as [Ha1 Ha2].
  destruct (counts_exact _ _ data_delay_bucket_counts data_delay_count _ _ _ _ _
    (fun _ => eq_refl) eq_refl He Hf (observed_delay calls)) as [Hd1 Hd2].
  split_and!; [| |exists ds; split; [done|rewrite <-Hsum]].
  - eapply histogram_samples_shown; [exact Zleb_trans|by apply ascendingb_ok|exact Hp1|exact Hp2|].
    intros p Hin. apply elem_of_app. left. revert p Hin. part_of_registry.
  - eapply histogram_samples_shown; [exact Zleb_trans|by apply ascendingb_ok|exact Ha1|exact Ha2|].
    intros p Hin. apply elem_of_app. left. revert p Hin. part_of_registry.
  - eapply histogram_samples_shown; [apply fleb_trans|by apply ascendingb_ok|exact Hd1|exact Hd2|].
    intros p Hin. apply elem_of_app. left. revert p Hin. part_of_registry.
Qed.

(** Two threads observe one latency each, their accesses alternating. *)
Definition demo_threads : list (list call) := [[CProcessingLatency 700]; [CProcessingLatency 90]].

Definition demo_trace : list access :=
  [FetchAdd (processing_latency_bucket_counts 2) 1; FetchAdd (processing_latency_bucket_counts 0) 1;
   FetchAdd processing_latency_count 1; FetchAdd processing_latency_count 1;
   FetchAdd processing_latency_sum_us 90; FetchAdd processing_latency_sum_us 700].

Lemma demo_exec : exec (thread <$> demo_threads) Impl_init demo_trace [[]; []] (run demo_trace Impl_init).
Proof.
  eapply (exec_step _ 0); [vm_compute; reflexivity|]. eapply (exec_step _ 1); [vm_compute; reflexivity|].
  eapply (exec_step _ 0); [vm_compute; reflexivity|]. eapply (exec_step _ 1); [vm_compute; reflexivity|].
  eapply (exec_step _ 1); [vm_compute; reflexivity|]. eapply (exec_step _ 0); [vm_compute; reflexivity|].
  apply exec_refl.
Qed.

Lemma histograms_exact_witness :
  let text := samples (build_metrics_payload (run demo_trace Impl_init) (run demo_trace Impl_init) "") in
  shows_histogram decimal Z.leb "receiver_processing_latency_us_histogram" PROCESSING_LATENCY_BUCKET_BOUNDS
    [700; 90] "790" text /\
  up_to Z.leb [700; 90] 500 = 1 /\ up_to Z.leb [700; 90] 1000 = 2.
Proof.
  split; [|done].
  exact (proj1 (histograms_exact demo_threads demo_trace [[]; []] _ "" demo_exec ltac:(by repeat constructor))).
Defined.

(** A gauge of a large count is printed with six digits: two sizes of the process
    that differ by 4 KiB give the same text. *)
Example gauge_rounds_bytes :
  general (of_Z binary64 1234567168) <> "1234567168" /\
  general (of_Z binary64 1234567168) = general (of_Z binary64 1234571264).
Proof. vm_compute. done. Qed.

End MetricsText.
