(* ===== verification/MetricsServer.v ===== *)
(** The HTTP endpoint of the metrics registry ([run_http_server], [start] and [stop]
    of [src/m01_receiver/monitoring/metrics.cpp]) and the exporter of registered
    descriptors ([src/logging/metrics_exporter.cpp], [include/qdgz300/common/metrics.h]).
    Results of system calls are inputs of the steps; what is sent and which
    descriptors are closed is recorded. *)

From S2P Require Import Prelude Float Text Metrics MetricsText.
From stdpp Require Import strings pretty.
From Stdlib Require Import Ascii.
Open Scope Z_scope.
Import Float Text Metrics MetricsText.

Module MetricsServer.

(** ** Set-up *)

(** The members [initialize] sets; the time in nanoseconds. *)
Record Endpoint := mkEndpoint { port : Z; bind_ip : string; startup_time : Z }.

Definition initialize (port : Z) (bind_ip : string) (now : Z) (e : Endpoint) : Endpoint := mkEndpoint port bind_ip now.

(** ** Opening the listener *)

(** What [socket], [inet_pton], [bind] and [listen] return. *)
Record Syscalls := mkSyscalls { sys_socket : Z; sys_pton : bool; sys_bind : bool; sys_listen : bool }.

(** The members the two threads share, the descriptors closed so far, and whether
    the thread object is joinable. *)
Record Server := mkServer { started : bool; listen_fd : Z; joinable : bool; closed : list Z }.

Definition Server_init : Server := mkServer false (-1) false [].

Definition close_listener (s : Server) : Server :=
  mkServer (started s) (-1) (joinable s) (closed s ++ [listen_fd s]).

Definition give_up_listening (s : Server) : Server :=
  let s := close_listener s in mkServer false (listen_fd s) (joinable s) (closed s).

(** The part of [run_http_server] before its loop; [true] when the loop is
    entered. *)
Definition open_listener (sys : Syscalls) (s : Server) : bool * Server :=
  let s := mkServer (started s) (sys_socket sys) (joinable s) (closed s) in
  if listen_fd s <? 0 then (false, mkServer false (listen_fd s) (joinable s) (closed s))
  else if negb (sys_pton sys) then (false, give_up_listening s)
  else if negb (sys_bind sys) then (false, give_up_listening s)
  else if negb (sys_listen sys) then (false, give_up_listening s)
  else (true, s).

(** ** Requests *)

Definition crlf : string := String "013"%char (String "010"%char EmptyString).

(** [std::string(request_buf)]: the characters before the first null. *)
Fixpoint c_string (s : string) : string :=
  match s with
  | EmptyString => EmptyString
  | String c s => if bool_decide (c = "000"%char) then EmptyString else String c (c_string s)
  end.

Definition response (body : string) : string :=
  "HTTP/1.0 200 OK" +:+ crlf
  +:+ "Content-Type: text/plain; version=0.0.4; charset=utf-8" +:+ crlf
  +:+ "Content-Length: " +:+ decimal (Z.of_nat (String.length body)) +:+ crlf
  +:+ "Connection: close" +:+ crlf +:+ crlf
  +:+ body.

Definition k404 : string :=
  "HTTP/1.0 404 Not Found" +:+ crlf +:+ "Content-Length: 0" +:+ crlf +:+ "Connection: close" +:+ crlf +:+ crlf.

(** The answer to the bytes received; [body] is the payload built at this moment. *)
Definition answer (received : string) (body : string) : string :=
  if String.prefix "GET /metrics" (c_string received) then response body else k404.

(** One turn of the loop: the value of [started] at its head, and what happened. *)
Inductive Turn :=
  | AcceptFailed (still_started : bool)
  | Accepted (client_fd : Z) (received : option string) (body : string).

(** The loop: what is sent to which client, the clients closed, and whether it has
    ended. *)
Fixpoint serve (turns : list (bool * Turn)) : list (Z * string) * list Z * bool :=
  match turns with
  | [] => ([], [], false)
  | (false, _) :: _ => ([], [], true)
  | (true, AcceptFailed still_started) :: turns => if still_started then serve turns else ([], [], true)
  | (true, Accepted fd None _) :: turns =>
    let '(sent, cl, e) := serve turns in (sent, fd :: cl, e)
  | (true, Accepted fd (Some r) body) :: turns =>
    let '(sent, cl, e) := serve turns in ((fd, answer (String.substring 0 1023 r) body) :: sent, fd :: cl, e)
  end.

(** The whole thread function: what is sent, and the shared members at its end. *)
Definition run_http_server (sys : Syscalls) (turns : list (bool * Turn)) (s : Server) : list (Z * string) * Server :=
  let '(ok, s) := open_listener sys s in
  if ok then
    let '(sent, clients, ended) := serve turns in
    let s := mkServer (started s) (listen_fd s) (joinable s) (closed s ++ clients) in
    (sent, if ended && (0 <=? listen_fd s) then close_listener s else s)
  else ([], s).

(** ** Start and stop *)

(** [None]: the program is terminated, since a joinable thread is assigned to. *)
Definition start (s : Server) : option Server :=
  if started s then Some s
  else if joinable s then None
  else Some (mkServer true (listen_fd s) true (closed s)).

(** [stop], with the server thread ending before the join returns. *)
Definition stop (s : Server) : Server :=
  if negb (started s) && negb (joinable s) then mkServer false (listen_fd s) (joinable s) (closed s)
  else
    let s := mkServer false (listen_fd s) (joinable s) (closed s) in
    let s := if 0 <=? listen_fd s then close_listener s else s in
    mkServer (started s) (listen_fd s) false (closed s).

(** *** Closing the listener from two threads *)

(** [if (listen_fd >= 0) { close(listen_fd); listen_fd = -1; }] at the end of
    [run_http_server] and in [stop], access by access. *)
Inductive ClosePc := CTest | CClose | CWrite | CDone.

Record Closing := mkClosing { shared_fd : Z; pc_server : ClosePc; pc_stop : ClosePc; close_log : list Z }.

Definition close_step (pc : ClosePc) (fd : Z) (log : list Z) : ClosePc * Z * list Z :=
  match pc with
  | CTest => (if 0 <=? fd then CClose else CDone, fd, log)
  | CClose => (CWrite, fd, log ++ [fd])
  | CWrite => (CDone, -1, log)
  | CDone => (CDone, fd, log)
  end.

(** [true] is a step of the server thread. *)
Definition closing_step (server : bool) (c : Closing) : Closing :=
  if server then
    let '(pc, fd, log) := close_step (pc_server c) (shared_fd c) (close_log c) in mkClosing fd pc (pc_stop c) log
  else
    let '(pc, fd, log) := close_step (pc_stop c) (shared_fd c) (close_log c) in mkClosing fd (pc_server c) pc log.

Definition closing_run (schedule : list bool) (c : Closing) : Closing := fold_left (fun c b => closing_step b c) schedule c.

Definition Closing_init (fd : Z) : Closing := mkClosing fd CTest CTest [].

(** ** Laws *)

(** Every descriptor opened is either the listener or closed. *)
Lemma open_listener_no_leak sys s :
  0 <= sys_socket sys ->
  let '(ok, s') := open_listener sys s in
  (ok = true /\ listen_fd s' = sys_socket sys /\ closed s' = closed s /\ started s' = started s) \/
  (ok = false /\ listen_fd s' = -1 /\ closed s' = closed s ++ [sys_socket sys] /\ started s' = false).
Proof.
  intros H. unfold open_listener. cbn [listen_fd]. destruct (Z.ltb_spec (sys_socket sys) 0); [lia|].
  destruct (sys_pton sys), (sys_bind sys), (sys_listen sys); cbn; auto.
Qed.

(** Every client is closed once, after at most one answer. *)
Lemma serve_closes turns :
  let '(sent, clients, _) := serve turns in sent.*1 `sublist_of` clients.
Proof.
  induction turns as [|[[] [st|fd [r|] body]] turns IH]; cbn; try done; try by destruct st.
  - destruct (serve turns) as [[sent clients] e]. cbn. by constructor.
  - destruct (serve turns) as [[sent clients] e]. by constructor.
Qed.

(** The listener is opened, and closed once when the loop ends. *)
Lemma listener_closed sys turns s :
  0 <= sys_socket sys -> (serve turns).2 = true ->
  let '(_, s') := run_http_server sys turns s in
  listen_fd s' = -1 /\ exists clients, closed s' = closed s ++ clients ++ [sys_socket sys].
Proof.
  intros Hs He. unfold run_http_server. pose proof (open_listener_no_leak sys s Hs) as Ho.
  destruct (open_listener sys s) as [ok s1]. destruct Ho as [(-> & Hf & Hc & _)|(-> & Hf & Hc & _)].
  - destruct (serve turns) as [[sent clients] e]. cbn in He. subst e. cbn. rewrite Hf.
    destruct (Z.leb_spec 0 (sys_socket sys)); [|lia]. cbn. split; [done|]. exists clients. by rewrite Hc, (assoc_L (++)).
  - split; [done|]. exists []. by rewrite Hc.
Qed.

(** *** The response *)

(** A reader of a response: the lines of the head up to the empty one, and the
    rest. *)
Fixpoint read_head (acc : string) (head : list string) (s : string) : option (list string * string) :=
  match s with
  | EmptyString => None
  | String "013" (String "010" s') =>
    if bool_decide (acc = EmptyString) then Some (head, s') else read_head EmptyString (head ++ [acc]) s'
  | String c s' => read_head (acc +:+ String c EmptyString) head s'
  end.

Definition content_length (l : string) : option Z :=
  if String.prefix "Content-Length: " l then Some (extract_size (String.substring 16 (String.length l - 16) l))
  else None.

(** The head and the body, which has the length the head announces. *)
Definition read_response (s : string) : option (list string * string) :=
  '(hd, rest) ← read_head EmptyString [] s;
  n ← head (omap content_length hd);
  if Z.of_nat (String.length rest) <? n then None else Some (hd, String.substring 0 (Z.to_nat n) rest).

Definition head_char (c : Ascii.ascii) : bool := negb (bool_decide (c = "013"%char)).

Lemma read_head_char acc hd c s :
  head_char c = true -> read_head acc hd (String c s) = read_head (acc +:+ String c EmptyString) hd s.
Proof. destruct c as [[] [] [] [] [] [] [] []]; done. Qed.

Lemma read_head_line acc l hd rest :
  chars_in head_char l = true -> acc +:+ l <> EmptyString ->
  read_head acc hd (l +:+ crlf +:+ rest) = read_head EmptyString (hd ++ [acc +:+ l]) rest.
Proof.
  revert acc. induction l as [|c l IH]; intros acc.
  - intros _ Hne. rewrite append_nil_r in *. change (EmptyString +:+ crlf +:+ rest) with
      (String "013" (String "010" rest)). cbn. by rewrite bool_decide_eq_false_2.
  - cbn [chars_in]. rewrite andb_true_iff. intros [Hc Hl] Hne. rewrite append_cons, read_head_char by done.
    rewrite IH; [by rewrite append_assoc|done|]. rewrite append_assoc. exact Hne.
Qed.

Lemma read_head_end hd rest : read_head EmptyString hd (crlf +:+ rest) = Some (hd, rest).
Proof. done. Qed.

(** *** Reading a printed number *)

Lemma read_digits_pretty x a s :
  (0 < x)%N -> default 0 a = 0 -> read_digits a (pretty_N_go x s) = read_digits (Some (Z.of_N x)) s.
Proof.
  revert a s. induction (N.lt_wf_0 x) as [x _ IH]. intros a s Hx Ha.
  rewrite pretty_N_go_step by done.
  assert (forall a', default 0 a' = Z.of_N (x `div` 10) ->
    read_digits a' (String (pretty_N_char (x `mod` 10)) s) = read_digits (Some (Z.of_N x)) s) as Hstep.
  { intros a' Ha'. cbn. rewrite digit_value by (apply N.mod_lt; lia). rewrite Ha'. do 2 f_equal.
    pose proof (N.div_mod x 10 ltac:(done)). lia. }
  destruct (decide (x `div` 10 = 0)%N) as [E|E].
  - rewrite E, pretty_N_go_0. apply Hstep. rewrite E. by rewrite Ha.
  - rewrite IH; [by apply Hstep|apply N.div_lt; lia|by apply N.neq_0_lt_0|exact Ha].
Qed.

Lemma read_digits_decimal n : 0 <= n -> read_digits None (decimal n) = Some n.
Proof.
  intros Hn. unfold decimal, pretty, pretty_N. case_decide as E.
  - assert (n = 0) as -> by lia. done.
  - rewrite read_digits_pretty by (done || lia). cbn. f_equal. lia.
Qed.

Lemma digit_not_sign c s : digit_char c = true ->
  skip_spaces (String c s) = String c s /\ (extract_size (String c s) =
    match read_digits None (String c s) with
    | None => 0
    | Some n => if 2 ^ 64 <=? n then 2 ^ 64 - 1 else n
    end).
Proof. destruct c as [[] [] [] [] [] [] [] []]; done. Qed.

(** A printed number is read back. *)
Lemma extract_decimal n : is_u64 n -> extract_size (decimal n) = n.
Proof.
  intros Hn. pose proof (read_digits_decimal n ltac:(apply Hn)) as Hr. pose proof (decimal_digits n) as Hd.
  destruct (decimal n) as [|c s]; [done|]. cbn in Hd. apply andb_true_iff in Hd as [Hc _].
  destruct (digit_not_sign c s Hc) as [_ ->]. rewrite Hr. destruct Hn. by case_tests; [lia|].
Qed.

Lemma substring_all s : String.substring 0 (String.length s) s = s.
Proof. induction s as [|c s IH]; [done|]. cbn. by rewrite IH. Qed.

Lemma head_digits n : chars_in head_char (decimal n) = true.
Proof. eapply chars_in_mono; [|apply decimal_digits]. intros c. by destruct c as [[] [] [] [] [] [] [] []]. Qed.

Lemma omap_one {A B} (f : A -> option B) (x : A) : omap f [x] = option_list (f x).
Proof. cbn. by destruct (f x). Qed.

Lemma prefix_app l s : String.prefix l (l +:+ s) = true.
Proof.
  induction l as [|c l IH]; [by destruct s|]. rewrite append_cons. cbn.
  destruct (Ascii.ascii_dec c c); [exact IH|done].
Qed.

Lemma content_length_line s : content_length (EmptyString +:+ "Content-Length: " +:+ s) = Some (extract_size s).
Proof.
  change (EmptyString +:+ "Content-Length: " +:+ s) with ("Content-Length: " +:+ s).
  unfold content_length.
  replace (String.length ("Content-Length: " +:+ s) - 16)%nat with (String.length s) by (rewrite length_append; cbn; lia).
  transitivity (Some (extract_size (String.substring 0 (String.length s) s))); [|by rewrite substring_all].
  by rewrite prefix_app.
Qed.

(** C0: the answer to a request for the metrics reads back as its body: the head ends
    where the body begins, and announces its length. *)
Theorem response_reads_back received body :
  String.prefix "GET /metrics" (c_string received) = true -> is_u64 (Z.of_nat (String.length body)) ->
  exists hd, read_response (answer received body) = Some ("HTTP/1.0 200 OK" :: hd, body).
Proof.
  intros Hr Hb. unfold answer. rewrite Hr. eexists. unfold read_response, response.
  rewrite read_head_line by done. rewrite read_head_line by done.
  rewrite <-(append_assoc "Content-Length: ").
  rewrite read_head_line; [|by rewrite chars_in_app, head_digits|done].
  rewrite read_head_line by done. rewrite read_head_end. cbn [mbind option_bind].
  rewrite !omap_app, !omap_one, content_length_line, extract_decimal by done.
  change (content_length _) with (@None Z). cbn. rewrite Z.ltb_irrefl, Nat2Z.id, substring_all. reflexivity.
Qed.

Lemma response_reads_back_witness :
  exists hd, read_response (answer ("GET /metrics HTTP/1.1" +:+ crlf) "up 1") = Some ("HTTP/1.0 200 OK" :: hd, "up 1").
Proof. apply response_reads_back; [reflexivity|by split]. Defined.

(** *** Life cycle *)

(** After [stop] the server can be started again. *)
Lemma stop_then_start s : exists s', start (stop s) = Some s' /\ started s' = true /\ joinable s' = true.
Proof.
  unfold stop, start. destruct (started s), (joinable s); cbn; repeat case_match; cbn; eauto.
Qed.

Lemma stop_idempotent s : stop (stop s) = stop s.
Proof. unfold stop. destruct (started s), (joinable s); cbn; repeat case_match; cbn; done. Qed.

(** A start that follows a failed set-up of the server terminates the program: the
    server thread has cleared [started], but the thread object is still joinable. *)
Lemma restart_after_failure_terminates sys :
  0 <= sys_socket sys -> sys_bind sys = false ->
  exists s, start Server_init = Some s /\ start (snd (open_listener sys s)) = None.
Proof.
  intros Hs Hb. exists (mkServer true (-1) true []). split; [done|].
  unfold open_listener. cbn [listen_fd]. destruct (Z.ltb_spec (sys_socket sys) 0); [lia|].
  destruct (sys_pton sys); cbn; rewrite ?Hb; done.
Qed.

(** Two threads close the listener: under some schedule both close it. *)
Example listener_closed_twice :
  exists schedule, close_log (closing_run schedule (Closing_init 7)) = [7; 7] /\
    pc_server (closing_run schedule (Closing_init 7)) = CDone /\ pc_stop (closing_run schedule (Closing_init 7)) = CDone.
Proof. by exists [true; false; true; false; true; false]. Qed.

End MetricsServer.

Module MetricsExporter.

(** ** Atomic metrics *)

(** [AtomicCounter] and [AtomicGauge]; the value of a gauge is an [int64_t]. *)
Definition counter_increment (delta value : Z) : Z := value +[64] delta.
Definition counter_reset (value : Z) : Z := 0.
Definition gauge_set (val value : Z) : Z := val.
Definition gauge_increment (delta value : Z) : Z := to_signed 64 (value +[64] delta).
Definition gauge_decrement (delta value : Z) : Z := to_signed 64 (value -[64] delta).

(** ** The exporter *)

Inductive MetricType := COUNTER | GAUGE.

(** [read] is the value the callback returns at the export; [None] without a
    callback. *)
Record MetricDescriptor := mkMetricDescriptor { name : string; help : string; type : MetricType; read : option Z }.

Definition register_metric (d : MetricDescriptor) (metrics : list MetricDescriptor) : list MetricDescriptor :=
  metrics ++ [d].

Definition register_metrics (ds metrics : list MetricDescriptor) : list MetricDescriptor :=
  fold_left (fun ms d => register_metric d ms) ds metrics.

Definition type_name (t : MetricType) : string := match t with COUNTER => "counter" | GAUGE => "gauge" end.

Definition export_one (out : string) (m : MetricDescriptor) : string :=
  out +:+ ("# HELP " +:+ name m +:+ " " +:+ help m +:+ nl)
    +:+ ("# TYPE " +:+ name m +:+ " " +:+ type_name (type m) +:+ nl)
    +:+ (name m +:+ " " +:+ fixed (default 0 (read m)) +:+ nl).

Definition export_text (metrics : list MetricDescriptor) : string := fold_left export_one metrics EmptyString.

Definition metric_count (metrics : list MetricDescriptor) : nat := length metrics.
Definition clear (metrics : list MetricDescriptor) : list MetricDescriptor := [].

(** ** Laws *)

(** A name is a word and not a comment, the help is one line. *)
Definition descriptor_ok (m : MetricDescriptor) : Prop :=
  name_ok (name m) = true /\ chars_in line_char (help m) = true.

Lemma emits_export out m : descriptor_ok m -> emits out (export_one out m) [(name m, type_name (type m))] [(name m, fixed (default 0 (read m)))].
Proof.
  intros [Hn Hh]. unfold export_one. rewrite <-(append_assoc ("# HELP " +:+ _)), <-(append_assoc out).
  eapply emits_family; [done|done|by destruct (type m)|]. apply emits_sample; [done|apply fixed_word].
Qed.

Lemma register_metrics_app ds metrics : register_metrics ds metrics = metrics ++ ds.
Proof.
  unfold register_metrics. revert metrics. induction ds as [|d ds IH]; intros ms; cbn; [by rewrite app_nil_r|].
  rewrite IH. unfold register_metric. by rewrite <-(assoc_L (++)).
Qed.

(** The export reads back as the registered metrics with their types and values, in
    the order of registration. *)
Lemma export_reads_back ds :
  Forall descriptor_ok ds ->
  samples (export_text (register_metrics ds [])) = (fun m => (name m, fixed (default 0 (read m)))) <$> ds /\
  declarations (export_text (register_metrics ds [])) = (fun m => (name m, type_name (type m))) <$> ds.
Proof.
  intros Hd. rewrite register_metrics_app. cbn [app].
  assert (forall out, emits out (fold_left export_one ds out) ((fun m => (name m, type_name (type m))) <$> ds)
    ((fun m => (name m, fixed (default 0 (read m)))) <$> ds)) as He.
  { induction Hd as [|m ds Hm _ IH]; intros out; [apply emits_refl|].
    eapply (emits_trans _ _ _ [_] _ [_]); [by apply emits_export|apply IH]. }
  destruct (He EmptyString) as (s & ls & Hs & Hw & <- & <-). unfold export_text. rewrite Hs. change (EmptyString +:+ s) with s.
  unfold samples, declarations. by rewrite <-(append_nil_r s), (lines_whole _ _ _ Hw), !app_nil_r.
Qed.

(** Increments and decrements of a gauge cancel, also across the ends of the range. *)
Lemma gauge_increment_decrement delta value :
  - 2 ^ 63 <= value < 2 ^ 63 -> gauge_decrement delta (gauge_increment delta value) = value.
Proof.
  intros Hv. unfold gauge_decrement, gauge_increment, to_signed.
  assert (forall x, wrap 64 ((if 2 ^ (64 - 1) <=? wrap 64 x then wrap 64 x - 2 ^ 64 else wrap 64 x) - delta) = wrap 64 (x - delta)) as E.
  { intros x. case_match; [|by autorewrite with wrap]. unfold wrap.
    replace (x mod 2 ^ 64 - 2 ^ 64 - delta) with (x mod 2 ^ 64 - delta + (-1) * 2 ^ 64) by lia.
    rewrite Z_mod_plus_full. by rewrite Zminus_mod_idemp_l. }
  rewrite E. replace (value + delta - delta) with value by lia. case_tests; wrap_lia.
Qed.

End MetricsExporter.
