(* ===== verification/Signals.v ===== *)
(** The signal flags ([src/m01_receiver/signal_handler.cpp]) and the part of the
    main loop that reads them ([src/m01_receiver/app_run.cpp], [app_run]).  The
    handlers and the loop meet in five atomic variables; their accesses are
    interleaved in any way. *)

From S2P Require Import Prelude Metrics.
From stdpp Require Import strings.
Open Scope Z_scope.

Module Signals.

(** ** The flags *)

Record Signals := mkSignals {
  g_running : bool;
  g_reload_requested : bool;
  g_sigint_received : Z;
  g_sigterm_received : Z;
  g_sighup_received : Z;
}.

Definition reset_signal_flags (s : Signals) : Signals := mkSignals true false 0 0 0.

Definition SIGHUP : Z := 1.
Definition SIGINT : Z := 2.
Definition SIGTERM : Z := 15.

(** The accesses of a handler, in program order. *)
Inductive SigAccess := AddInt | AddTerm | AddHup | StopRunning | RequestReload.

Definition signal_handler_impl (signal : Z) : list SigAccess :=
  if (signal =? SIGINT) || (signal =? SIGTERM) then
    (if signal =? SIGINT then [AddInt] else [AddTerm]) ++ [StopRunning]
  else if signal =? SIGHUP then [AddHup; RequestReload]
  else [].

Definition perform (a : SigAccess) (s : Signals) : Signals :=
  let '(mkSignals run rel i t h) := s in
  match a with
  | AddInt => mkSignals run rel (inc64 i) t h
  | AddTerm => mkSignals run rel i (inc64 t) h
  | AddHup => mkSignals run rel i t (inc64 h)
  | StopRunning => mkSignals false rel i t h
  | RequestReload => mkSignals run true i t h
  end.

(** [install_signal_handlers]: the signals that have a handler. *)
Definition installed : list Z := [SIGINT; SIGTERM; SIGHUP].

(** ** The loop *)

(** The next access of the main thread: the loop condition, the three loads, the
    exchange of the reload flag, the rest of the iteration. *)
Inductive Pc := PWhile | PInt | PTerm | PHup | PReload | PWork | PExited.

#[export] Instance Pc_eq_dec : EqDecision Pc.
Proof. solve_decision. Defined.

(** [last_*] are the members of [AppContext]; [metrics] is the registry; [reloads]
    counts the calls of [ConfigManager::reload]. *)
Record Loop := mkLoop {
  flags : Signals;
  handlers : list (list SigAccess);
  pc : Pc;
  last_sigint_received : Z;
  last_sigterm_received : Z;
  last_sighup_received : Z;
  metrics : Metrics.store;
  reloads : nat;
}.

Definition Loop_init (m : Metrics.store) (s : Signals) : Loop :=
  mkLoop (reset_signal_flags s) [] PWhile 0 0 0 m 0.

(** [if (now > last) { increment_signal_received(name, now - last); last = now; }] *)
Definition report (name : string) (now last : Z) (m : Metrics.store) : Z * Metrics.store :=
  if last <? now then (now, Metrics.run (Metrics.increment_signal_received name (now -[64] last)) m)
  else (last, m).

(** One access of the main thread; [reload_ok n] is the result of the [n]-th reload. *)
Definition main_step (reload_ok : nat -> bool) (l : Loop) : Loop :=
  let '(mkLoop s hs p li lt lh m n) := l in
  match p with
  | PWhile => mkLoop s hs (if g_running s then PInt else PExited) li lt lh m n
  | PInt => let '(li, m) := report "SIGINT" (g_sigint_received s) li m in mkLoop s hs PTerm li lt lh m n
  | PTerm => let '(lt, m) := report "SIGTERM" (g_sigterm_received s) lt m in mkLoop s hs PHup li lt lh m n
  | PHup => let '(lh, m) := report "SIGHUP" (g_sighup_received s) lh m in mkLoop s hs PReload li lt lh m n
  | PReload =>
    let '(mkSignals run rel i t h) := s in
    let s := mkSignals run false i t h in
    if rel
    then mkLoop s hs PWork li lt lh
           (if reload_ok n then Metrics.run (Metrics.increment_config_reloads 1) m else m) (S n)
    else mkLoop s hs PWork li lt lh m n
  | PWork => mkLoop s hs PWhile li lt lh m n
  | PExited => l
  end.

(** A signal arrives; a handler makes its next access; the main thread does. *)
Inductive Event := Raise (signal : Z) | Handler (i : nat) | Main.

Definition step (reload_ok : nat -> bool) (l : Loop) (e : Event) : Loop :=
  match e with
  | Raise signal =>
    let '(mkLoop s hs p li lt lh m n) := l in
    if bool_decide (signal ∈ installed) then mkLoop s (hs ++ [signal_handler_impl signal]) p li lt lh m n else l
  | Handler i =>
    let '(mkLoop s hs p li lt lh m n) := l in
    match hs !! i with
    | Some (a :: rest) => mkLoop (perform a s) (<[i := rest]> hs) p li lt lh m n
    | _ => l
    end
  | Main => main_step reload_ok l
  end.

Definition run (reload_ok : nat -> bool) (l : Loop) (es : list Event) : Loop := fold_left (step reload_ok) es l.

(** ** Specification *)

(** The three kinds of signals, their counters, marks and cells. *)
Inductive Kind := KInt | KTerm | KHup.

Definition kind_signal (k : Kind) : Z := match k with KInt => SIGINT | KTerm => SIGTERM | KHup => SIGHUP end.
Definition kind_access (k : Kind) : SigAccess := match k with KInt => AddInt | KTerm => AddTerm | KHup => AddHup end.
Definition received (k : Kind) (s : Signals) : Z :=
  match k with KInt => g_sigint_received s | KTerm => g_sigterm_received s | KHup => g_sighup_received s end.
Definition last (k : Kind) (l : Loop) : Z :=
  match k with KInt => last_sigint_received l | KTerm => last_sigterm_received l | KHup => last_sighup_received l end.
Definition kind_cell (k : Kind) : Metrics.cell :=
  Metrics.signal_received_total (match k with KHup => 0 | KTerm => 1 | KInt => 2 end)%nat.
Definition kind_pc (k : Kind) : Pc := match k with KInt => PInt | KTerm => PTerm | KHup => PHup end.

#[export] Instance SigAccess_eq_dec : EqDecision SigAccess.
Proof. solve_decision. Defined.

#[export] Instance Event_eq_dec : EqDecision Event.
Proof. solve_decision. Defined.

(** Signals of a kind that have arrived, and handlers that have not counted yet. *)
Definition raised (k : Kind) (es : list Event) : Z :=
  Z.of_nat (length (filter (fun e => e = Raise (kind_signal k)) es)).
Definition uncounted (k : Kind) (hs : list (list SigAccess)) : Z :=
  Z.of_nat (length (filter (fun a => a = kind_access k) (mjoin hs))).

(** The invariant of the loop, for the signals that have arrived in [es]. *)
Record loop_inv (m0 : Metrics.store) (es : list Event) (l : Loop) : Prop := {
  iv_received : forall k, received k (flags l) + uncounted k (handlers l) = raised k es;
  iv_last : forall k, 0 <= last k l <= received k (flags l);
  iv_cell : forall k, metrics l (kind_cell k) = m0 (kind_cell k) +[64] last k l;
}.

(** ** Lemmas *)

Lemma cell_inj k k' : kind_cell k = kind_cell k' -> k = k'.
Proof. by destruct k, k'. Qed.

Lemma report_accesses k n :
  Metrics.increment_signal_received (match k with KInt => "SIGINT" | KTerm => "SIGTERM" | KHup => "SIGHUP" end) n =
  [Metrics.FetchAdd (kind_cell k) n].
Proof. by destruct k. Qed.

(** A report brings the mark up to the counter and adds the difference to the cell. *)
Lemma report_spec k now lst m m0 :
  0 <= lst <= now -> now < 2 ^ 64 -> m (kind_cell k) = m0 (kind_cell k) +[64] lst ->
  let '(lst', m') := report (match k with KInt => "SIGINT" | KTerm => "SIGTERM" | KHup => "SIGHUP" end) now lst m in
  lst' = now /\ m' (kind_cell k) = m0 (kind_cell k) +[64] now /\
  forall k', k' <> k -> m' (kind_cell k') = m (kind_cell k').
Proof.
  intros Hl Hn Hc. unfold report. rewrite report_accesses. destruct (Z.ltb_spec lst now) as [Hlt|Hge].
  - split_and!; [done| |].
    + unfold Metrics.run. cbn [fold_left Metrics.perform]. rewrite Metrics.update_eq, Hc.
      rewrite (wrap_small 64 (now - lst)) by (unfold in_range; lia). rewrite wrap_add_l by lia. f_equal. lia.
    + intros k' Hk. unfold Metrics.run. cbn [fold_left Metrics.perform]. apply Metrics.update_ne.
      intros E. apply Hk. by apply cell_inj.
  - assert (lst = now) by lia. subst. by split_and!.
Qed.

Lemma received_perform a k s :
  is_u64 (received k s + 1) ->
  received k (perform a s) = received k s + (if decide (a = kind_access k) then 1 else 0).
Proof.
  intros Hu. destruct s, a, k; cbn in *; rewrite ?Z.add_0_r; try done; unfold inc64; by apply wrap_small.
Qed.

Lemma uncounted_take k hs i a rest :
  hs !! i = Some (a :: rest) ->
  uncounted k hs = (if decide (a = kind_access k) then 1 else 0) + uncounted k (<[i := rest]> hs).
Proof.
  intros Hi. unfold uncounted. rewrite (Metrics.join_insert _ _ _ _ Hi), filter_cons.
  case_decide; cbn [length]; lia.
Qed.

Lemma uncounted_add k hs signal :
  signal ∈ installed ->
  uncounted k (hs ++ [signal_handler_impl signal]) = uncounted k hs + (if decide (signal = kind_signal k) then 1 else 0).
Proof.
  intros Hin. unfold uncounted. rewrite join_app, filter_app, length_app, Nat2Z.inj_add. f_equal.
  repeat (apply elem_of_cons in Hin as [->|Hin]; [by destruct k|]). by apply elem_of_nil in Hin.
Qed.

Lemma raised_snoc k es e : raised k (es ++ [e]) = raised k es + (if decide (e = Raise (kind_signal k)) then 1 else 0).
Proof.
  unfold raised. rewrite filter_app, length_app, Nat2Z.inj_add. f_equal.
  rewrite filter_cons, filter_nil. by case_decide.
Qed.

Lemma raised_le k es : raised k es <= Z.of_nat (length es).
Proof. unfold raised. pose proof (length_filter (fun e => e = Raise (kind_signal k)) es). lia. Qed.

(** The step that reports the signals of kind [k]. *)
Ltac report_case k :=
  match goal with
  | Hl : forall k, 0 <= last k _ <= _, Hb : forall k, received k _ < _, Hc : forall k, _ = _ +[64] last k _,
    Hres : forall k, raised k _ = _ |- _ =>
    let Hrep := fresh in let m' := fresh in let Hc2 := fresh in let k' := fresh in
    pose proof (report_spec k _ _ _ _ (Hl k) (Hb k) (Hc k)) as Hrep; cbn in Hrep;
    destruct (report _ _ _ _) as [? m']; destruct Hrep as (-> & ? & Hc2);
    constructor; cbn [flags handlers metrics]; intros k';
    [by rewrite Hres
    |pose proof (Hl k'); destruct k'; cbn in *; lia
    |pose proof (Hc k'); destruct k'; rewrite ?Hc2 by done; done]
  end.

Lemma main_inv ok m0 es l :
  Z.of_nat (length es) < 2 ^ 64 -> loop_inv m0 es l -> loop_inv m0 (es ++ [Main]) (main_step ok l).
Proof.
  intros Hlen [Hr Hl Hc].
  assert (Hb : forall k, received k (flags l) < 2 ^ 64).
  { intros k. pose proof (Hr k) as Hrk. pose proof (raised_le k es). unfold uncounted in Hrk. lia. }
  assert (Hres : forall k, raised k (es ++ [Main]) = raised k es) by (intros k; rewrite raised_snoc; by rewrite Z.add_0_r).
  destruct l as [s hs p li lt lh m n]. cbn [flags handlers metrics] in *.
  destruct p; cbn [main_step].
  - constructor; [intros k; by rewrite Hres|done|done].
  - report_case KInt.
  - report_case KTerm.
  - report_case KHup.
  - destruct s as [run rel i t h].
    assert (Hinv : forall m' n', (forall k, m' (kind_cell k) = m (kind_cell k)) ->
      loop_inv m0 (es ++ [Main]) (mkLoop (mkSignals run false i t h) hs PWork li lt lh m' n')).
    { intros m' n' Hm. constructor; cbn [flags handlers metrics].
      - intros k. rewrite Hres. by rewrite <-(Hr k).
      - intros k. specialize (Hl k). by destruct k.
      - intros k. rewrite Hm, Hc. by destruct k. }
    destruct rel; apply Hinv; [|done]. intros k. destruct (ok n); [|done].
    unfold Metrics.run. cbn. by destruct k.
  - constructor; [intros k; by rewrite Hres|done|done].
  - constructor; [intros k; by rewrite Hres|done|done].
Qed.

Lemma step_inv ok m0 es l e :
  Z.of_nat (length es) + 1 < 2 ^ 64 -> loop_inv m0 es l -> loop_inv m0 (es ++ [e]) (step ok l e).
Proof.
  intros Hlen Hinv. destruct e as [signal|i|]; [| |apply main_inv; [lia|done]].
  - destruct Hinv as [Hr Hl Hc]. destruct l as [s hs p li lt lh m n]. cbn [step]. case_bool_decide as Hin.
    + constructor; cbn [flags handlers metrics]; [|done|done]. intros k.
      rewrite raised_snoc, uncounted_add by done. specialize (Hr k). cbn in Hr.
      repeat case_decide; try lia; congruence.
    + constructor; [|done|done]. intros k. rewrite raised_snoc, decide_False.
      * by rewrite Z.add_0_r.
      * intros [= ->]. apply Hin. by destruct k; repeat constructor.
  - destruct Hinv as [Hr Hl Hc]. assert (Hres : forall k, raised k (es ++ [Handler i]) = raised k es).
    { intros k. rewrite raised_snoc. by rewrite Z.add_0_r. }
    destruct l as [s hs p li lt lh m n]. cbn [step]. cbn [flags handlers metrics] in *.
    destruct (hs !! i) as [[|a rest]|] eqn:Ei; try (constructor; [intros k; by rewrite Hres|done|done]).
    assert (Hp : forall k, received k (perform a s) = received k s + (if decide (a = kind_access k) then 1 else 0)).
    { intros k. apply received_perform. pose proof (Hr k) as Hrk. pose proof (raised_le k es). specialize (Hl k).
      unfold uncounted in Hrk. unfold in_range. lia. }
    constructor; cbn [flags handlers metrics]; [| |done]; intros k.
    + rewrite Hres, <-(Hr k), Hp, (uncounted_take k hs i a rest Ei). lia.
    + specialize (Hl k). rewrite Hp. case_decide; destruct k; cbn in *; lia.
Qed.

Lemma run_inv ok m0 es : forall es0 l,
  Z.of_nat (length es0 + length es) < 2 ^ 64 -> loop_inv m0 es0 l -> loop_inv m0 (es0 ++ es) (run ok l es).
Proof.
  induction es as [|e es IH]; intros es0 l Hlen Hinv; [by rewrite app_nil_r|].
  cbn [run fold_left] in *. fold (run ok (step ok l e) es).
  replace (es0 ++ e :: es) with ((es0 ++ [e]) ++ es) by (by rewrite <-app_assoc).
  apply IH; [rewrite length_app; cbn in *; lia|]. apply step_inv; [cbn in *; lia|done].
Qed.

Lemma init_inv m sg : (forall k, is_u64 (m (kind_cell k))) -> loop_inv m [] (Loop_init m sg).
Proof.
  intros Hm. constructor; [by intros []|by intros []; cbn|]. intros k. cbn.
  assert (last k (Loop_init m sg) = 0) as -> by (by destruct k). by rewrite Z.add_0_r, wrap_small.
Qed.

(** Main-thread accesses until the reload flag has been read, and until the loop
    condition has. *)
Definition to_reload (p : Pc) : nat :=
  match p with PReload => 1 | PHup => 2 | PTerm => 3 | PInt => 4 | PWhile => 5 | PWork => 6 | PExited => 0 end.
Definition to_while (p : Pc) : nat :=
  match p with PWhile => 1 | PWork => 2 | PReload => 3 | PHup => 4 | PTerm => 5 | PInt => 6 | PExited => 0 end.

Definition mains (es : list Event) : nat := length (filter (fun e => e = Main) es).

Lemma mains_cons e es : mains (e :: es) = ((if decide (e = Main) then 1 else 0) + mains es)%nat.
Proof. unfold mains. rewrite filter_cons. by case_decide. Qed.

(** A step other than the main thread's leaves the position, and the flags can
    only move one way. *)
Lemma other_step ok l e :
  e <> Main ->
  pc (step ok l e) = pc l /\ reloads (step ok l e) = reloads l /\ metrics (step ok l e) = metrics l /\
  (g_running (flags l) = false -> g_running (flags (step ok l e)) = false) /\
  (g_reload_requested (flags l) = true -> g_reload_requested (flags (step ok l e)) = true).
Proof.
  intros He. destruct l as [[ru re i t h] hs p li lt lh m n]. destruct e as [signal|j|]; [..|done]; cbn [step].
  - by case_bool_decide.
  - destruct (hs !! j) as [[|a rest]|]; try done. by destruct a.
Qed.

Lemma main_step_flags ok l :
  g_running (flags (main_step ok l)) = g_running (flags l) /\
  (reloads l <= reloads (main_step ok l))%nat /\
  (pc l <> PReload -> flags (main_step ok l) = flags l /\ reloads (main_step ok l) = reloads l).
Proof.
  destruct l as [[ru re i t h] hs p li lt lh m n]. destruct p; cbn [main_step]; try (by split_and!).
  1-3: destruct (report _ _ _ _); by split_and!.
  destruct re; split_and!; try done; cbn; lia.
Qed.

Lemma running_back ok es : forall l,
  g_running (flags l) = false -> g_running (flags (run ok l es)) = false.
Proof.
  induction es as [|e es IH]; intros l Hr; [done|]. cbn [run fold_left]. apply IH.
  destruct (decide (e = Main)) as [->|He]; [|by apply other_step].
  cbn [step]. by rewrite (proj1 (main_step_flags ok l)).
Qed.

Lemma reloads_le ok es : forall l, (reloads l <= reloads (run ok l es))%nat.
Proof.
  induction es as [|e es IH]; intros l; [done|]. cbn [run fold_left]. etrans; [|apply IH].
  destruct (decide (e = Main)) as [->|He]; [apply main_step_flags|].
  destruct (other_step ok l e He) as (_ & -> & _). done.
Qed.

(** ** Theorems *)

(** C26: signals are counted once.  Let signals arrive and their handlers run in
    any interleaving with the main loop, fewer than 2^64 events in all.  At every
    moment, for each of SIGINT, SIGTERM and SIGHUP, the exported counter has grown
    by exactly the number the loop has reported so far, which is never more than
    the handlers have counted, which is never more than have arrived; and when the
    loop reads a counter, everything counted by then is reported. *)
Theorem signals_reported_once (reload_ok : nat -> bool) (m0 : Metrics.store) (s0 : Signals)
    (es : list Event) (k : Kind)
    (Hm : forall k, is_u64 (m0 (kind_cell k))) (Hlen : Z.of_nat (length es) < 2 ^ 64) :
  let l := run reload_ok (Loop_init m0 s0) es in
  metrics l (kind_cell k) = m0 (kind_cell k) +[64] last k l /\
  0 <= last k l <= received k (flags l) /\ received k (flags l) <= raised k es /\
  (pc l = kind_pc k -> last k (main_step reload_ok l) = received k (flags l)).
Proof.
  intros l. pose proof (run_inv reload_ok m0 es [] (Loop_init m0 s0) Hlen (init_inv m0 s0 Hm)) as Hinv.
  fold l in Hinv. cbn [app] in Hinv. destruct Hinv as [Hr Hl Hc]. specialize (Hr k). pose proof (Hl k) as Hlk.
  split_and!; [apply Hc|lia|lia|unfold uncounted in Hr; lia|]. intros Hpc. revert Hpc Hl Hlk Hr.
  generalize l. clear. intros [s hs p li lt lh m n] Hpc Hl Hlk _. cbn in Hpc, Hlk. subst p.
  destruct k; cbn [kind_pc main_step]; unfold report; cbn in *;
    match goal with |- context [?a <? ?b] => destruct (Z.ltb_spec a b) end; cbn; lia.
Qed.

(** SIGINT, SIGHUP, and the main loop around them. *)
Lemma signals_reported_once_witness :
  let es := [Raise SIGHUP; Handler 0; Main; Main; Main; Handler 0; Main; Main; Main; Raise SIGINT; Handler 1; Main] in
  let l := run (fun _ => true) (Loop_init Metrics.Impl_init (mkSignals true false 0 0 0)) es in
  metrics l (kind_cell KHup) = 1 /\ received KInt (flags l) <= raised KInt es.
Proof.
  intros es l.
  destruct (signals_reported_once (fun _ => true) Metrics.Impl_init (mkSignals true false 0 0 0) es KHup) as (E & _).
  - intros k. vm_compute. split; congruence.
  - vm_compute. reflexivity.
  - destruct (signals_reported_once (fun _ => true) Metrics.Impl_init (mkSignals true false 0 0 0) es KInt) as (_ & _ & Hr & _).
    + intros k. vm_compute. split; congruence.
    + vm_compute. reflexivity.
    + split; [|exact Hr]. etrans; [exact E|]. vm_compute. reflexivity.
Defined.

(** C27: signals are served within one iteration.  From any state of the loop: once
    the reload flag is set, the configuration is reloaded before the main thread
    has made six further accesses, unless the loop ends first, however the
    handlers interleave; and once the running flag is cleared, the loop has ended
    when the main thread has made six further accesses. *)
Theorem signals_served (reload_ok : nat -> bool) (l : Loop) (es : list Event) :
  (mains es >= 6)%nat ->
  (g_reload_requested (flags l) = true ->
     (reloads l < reloads (run reload_ok l es))%nat \/ g_running (flags (run reload_ok l es)) = false \/
     pc l = PExited) /\
  (g_running (flags l) = false -> pc (run reload_ok l es) = PExited).
Proof.
  intros Hes. split.
  - intros Hre. destruct (decide (pc l = PExited)) as [|Hx]; [by right; right|].
    assert (Hd : (to_reload (pc l) <= mains es)%nat) by (destruct (pc l); cbn; lia). clear Hes.
    revert l Hre Hx Hd. induction es as [|e es IH]; intros l Hre Hx Hd.
    { destruct (pc l); cbn in Hd; unfold mains in Hd; cbn in Hd; try lia; done. }
    rewrite mains_cons in Hd. cbn [run fold_left]. fold (run reload_ok (step reload_ok l e) es).
    destruct (decide (e = Main)) as [->|He].
    + destruct (main_step_flags reload_ok l) as (Hru & Hle & Hsame).
      destruct (decide (pc l = PReload)) as [Hp|Hp].
      * left. eapply Nat.lt_le_trans; [|apply reloads_le]. destruct l as [[ru re i t h] hs p li lt lh m n].
        cbn in Hp, Hre. subst. cbn. lia.
      * destruct (Hsame Hp) as [Hf Hn]. cbn [step]. rewrite <-Hn.
        destruct (decide (pc (main_step reload_ok l) = PExited)) as [Hex|Hex].
        -- right. left. apply running_back. rewrite Hf. destruct l as [[ru re i t h] hs p li lt lh m n].
           destruct p; cbn in Hex, Hx, Hp; try done; try (destruct (report _ _ _ _); done). by destruct ru.
        -- destruct (IH (main_step reload_ok l)) as [|[|]]; [by rewrite Hf|done| |by left|by right; left|done].
           destruct l as [[ru re i t h] hs p li lt lh m n]. destruct p; cbn in *; try done;
             try (destruct (report _ _ _ _); cbn; lia); try lia. destruct ru; cbn in *; [lia|done].
    + destruct (other_step reload_ok l e He) as (Hpc & Hn & _ & _ & Hr). rewrite <-Hn.
      destruct (IH (step reload_ok l e)) as [|[|Hx2]]; [by apply Hr|by rewrite Hpc|rewrite Hpc; lia|by left|by right; left|].
      by rewrite Hpc in Hx2.
  - intros Hru. assert (Hd : (to_while (pc l) <= mains es)%nat) by (destruct (pc l); cbn; lia). clear Hes.
    revert l Hru Hd. induction es as [|e es IH]; intros l Hru Hd.
    { destruct (pc l) eqn:Ep; cbn in Hd; unfold mains in Hd; cbn in Hd; try lia. exact Ep. }
    rewrite mains_cons in Hd. cbn [run fold_left]. fold (run reload_ok (step reload_ok l e) es).
    destruct (decide (e = Main)) as [->|He].
    + apply IH; [cbn [step]; by rewrite (proj1 (main_step_flags reload_ok l))|].
      destruct l as [[ru re i t h] hs p li lt lh m n]. cbn in Hru. subst ru.
      destruct p; cbn in *; try (destruct (report _ _ _ _); cbn); try (destruct re; cbn); lia.
    + destruct (other_step reload_ok l e He) as (Hpc & _ & _ & Hr & _). apply IH; [by apply Hr|rewrite Hpc; lia].
Qed.

(** A reload and a stop request that arrive in the middle of an iteration. *)
Lemma signals_served_witness :
  let l := mkLoop (mkSignals false true 1 0 1) [] PTerm 0 0 0 Metrics.Impl_init 0 in
  let es := [Main; Main; Main; Handler 3; Main; Main; Main] in
  pc (run (fun _ => true) l es) = PExited /\ reloads (run (fun _ => true) l es) = 1%nat.
Proof.
  intros l es. split; [|vm_compute; reflexivity].
  apply (signals_served (fun _ => true) l es); [|reflexivity]. vm_compute. lia.
Defined.

(** The loop is past the report of kind [k] in its iteration. *)
Definition past_report (k : Kind) (p : Pc) : Prop :=
  match k with KInt => p <> PInt | KTerm => p <> PInt /\ p <> PTerm | KHup => p <> PInt /\ p <> PTerm /\ p <> PHup end.

(** A termination signal is normally never reported: unless its handler clears
    the running flag between the loop condition and the load of that counter in
    the same iteration, the loop ends without another report of that kind. *)
Theorem termination_signal_unreported (reload_ok : nat -> bool) (l : Loop) (es : list Event) (k : Kind)
    (Hrun : g_running (flags l) = false) (Hp : past_report k (pc l)) :
  metrics (run reload_ok l es) (kind_cell k) = metrics l (kind_cell k).
Proof.
  revert l Hrun Hp. induction es as [|e es IH]; intros l Hrun Hp; [done|].
  cbn [run fold_left]. fold (run reload_ok (step reload_ok l e) es). destruct (decide (e = Main)) as [->|He].
  - cbn [step]. rewrite IH; [| |].
    + destruct l as [[ru re i t h] hs p li lt lh m n]. cbn in Hrun. subst ru.
      destruct p, k; cbn in *; try done; try (exfalso; clear -Hp; intuition congruence);
        unfold report; repeat match goal with |- context [if ?b then _ else _] => destruct b end; done.
    + by rewrite (proj1 (main_step_flags reload_ok l)).
    + destruct l as [[ru re i t h] hs p li lt lh m n]. cbn in Hrun. subst ru.
      destruct p; cbn in *; try done; try (destruct (report _ _ _ _)); try (destruct re); cbn; clear -Hp; destruct k; cbn in *; intuition congruence.
  - destruct (other_step reload_ok l e He) as (Hpc & _ & Hm & Hr & _).
    rewrite IH; [by rewrite Hm|by apply Hr|by rewrite Hpc].
Qed.

End Signals.
