(* ===== verification/Json.v ===== *)
(** A reader of JSON objects with strings and numbers as members, against which the
    lines of the loggers are verified. *)

From S2P Require Import Prelude Float Text.
From stdpp Require Import strings pretty.
From Stdlib Require Import Ascii.
Open Scope Z_scope.
Import Text.

Module Json.

Inductive value := JString (s : string) | JNumber (n : Z).

Definition control_char (c : Ascii.ascii) : bool := (N_of_ascii c <? 32)%N.

(** The rest of a string literal, behind its opening quote: its value and the text
    behind its closing quote.  Control characters must be escaped. *)
Fixpoint read_string (acc s : string) : option (string * string) :=
  match s with
  | EmptyString => None
  | String c s =>
    if bool_decide (c = ascii_of_nat 34) then Some (acc, s)
    else if bool_decide (c = "\"%char) then
      match s with
      | EmptyString => None
      | String e s =>
        if bool_decide (e = ascii_of_nat 34) || bool_decide (e = "\"%char) || bool_decide (e = "/"%char)
        then read_string (acc +:+ String e EmptyString) s
        else if bool_decide (e = "n"%char) then read_string (acc +:+ String "010"%char EmptyString) s
        else if bool_decide (e = "r"%char) then read_string (acc +:+ String "013"%char EmptyString) s
        else if bool_decide (e = "t"%char) then read_string (acc +:+ String "009"%char EmptyString) s
        else None
      end
    else if control_char c then None
    else read_string (acc +:+ String c EmptyString) s
  end.

Fixpoint read_number (acc : Z) (s : string) : Z * string :=
  match s with
  | EmptyString => (acc, EmptyString)
  | String c s' =>
    match Ascii.is_nat c with
    | Some d => read_number (acc * 10 + Z.of_nat d) s'
    | None => (acc, s)
    end
  end.

Definition read_value (s : string) : option (value * string) :=
  match s with
  | EmptyString => None
  | String c s' =>
    if bool_decide (c = ascii_of_nat 34) then '(v, rest) ← read_string EmptyString s'; Some (JString v, rest)
    else if digit_char c then let '(n, rest) := read_number 0 s in Some (JNumber n, rest)
    else None
  end.

Definition expect (c : Ascii.ascii) (s : string) : option string :=
  match s with
  | String c' s => if bool_decide (c' = c) then Some s else None
  | EmptyString => None
  end.

(** The members up to the closing brace, which ends the text. *)
Fixpoint read_members (fuel : nat) (s : string) : option (list (string * value)) :=
  match fuel with
  | O => None
  | S fuel =>
    s ← expect (ascii_of_nat 34) s;
    '(k, s) ← read_string EmptyString s;
    s ← expect ":"%char s;
    '(v, s) ← read_value s;
    match s with
    | String c s =>
      if bool_decide (c = ","%char) then ms ← read_members fuel s; Some ((k, v) :: ms)
      else if bool_decide (c = "}"%char) then (if bool_decide (s = EmptyString) then Some [(k, v)] else None)
      else None
    | EmptyString => None
    end
  end.

Definition read_object (s : string) : option (list (string * value)) :=
  s ← expect "{"%char s; read_members (String.length s) s.

(** *** Laws *)

(** A character that stands for itself. *)
Definition plain_char (c : Ascii.ascii) : bool :=
  negb (bool_decide (c = ascii_of_nat 34)) && negb (bool_decide (c = "\"%char)) && negb (control_char c).

Lemma read_string_char acc c s :
  plain_char c = true -> read_string acc (String c s) = read_string (acc +:+ String c EmptyString) s.
Proof.
  unfold plain_char. rewrite !andb_true_iff, !negb_true_iff. intros [[H1 H2] H3]. cbn [read_string].
  by rewrite H1, H2, H3.
Qed.

Lemma read_string_quote acc rest : read_string acc (quote +:+ rest) = Some (acc, rest).
Proof. done. Qed.

Lemma read_string_plain acc l rest :
  chars_in plain_char l = true -> read_string acc (l +:+ quote +:+ rest) = Some (acc +:+ l, rest).
Proof.
  revert acc. induction l as [|c l IH]; intros acc; cbn [chars_in].
  - intros _. by rewrite append_nil_r.
  - rewrite andb_true_iff. intros [Hc Hl]. rewrite append_cons, read_string_char, IH by done. by rewrite append_assoc.
Qed.

Lemma digit_plain c : digit_char c = true -> plain_char c = true.
Proof. by destruct c as [[] [] [] [] [] [] [] []]. Qed.

Lemma read_number_pretty x s : (0 < x)%N -> read_number 0 (pretty_N_go x s) = read_number (Z.of_N x) s.
Proof.
  revert s. induction (N.lt_wf_0 x) as [x _ IH]. intros s Hx. rewrite pretty_N_go_step by done.
  assert (read_number (Z.of_N (x `div` 10)) (String (pretty_N_char (x `mod` 10)) s) = read_number (Z.of_N x) s) as Hstep.
  { cbn. rewrite digit_value by (apply N.mod_lt; lia). f_equal. pose proof (N.div_mod x 10 ltac:(done)). lia. }
  destruct (decide (x `div` 10 = 0)%N) as [E|E].
  - by rewrite E, pretty_N_go_0 in *.
  - by rewrite IH; [..|by apply N.neq_0_lt_0]; [apply Hstep|apply N.div_lt; lia].
Qed.

Lemma read_number_decimal n c rest :
  0 <= n -> Ascii.is_nat c = None -> read_number 0 (decimal n +:+ String c rest) = (n, String c rest).
Proof.
  intros Hn Hc. unfold decimal, pretty, pretty_N. case_decide as E.
  - assert (n = 0) as -> by lia. change (read_number 0 (String "0" (String c rest)) = (0, String c rest)).
    cbn. by rewrite Hc.
  - rewrite pretty_N_go_app, read_number_pretty by lia.
    change (EmptyString +:+ String c rest) with (String c rest). cbn. rewrite Hc. f_equal. lia.
Qed.

Lemma read_value_string v s rest :
  read_string EmptyString s = Some (v, rest) -> read_value (quote +:+ s) = Some (JString v, rest).
Proof. intros H. change (quote +:+ s) with (String (ascii_of_nat 34) s). cbn. by rewrite H. Qed.

Lemma read_value_number n c rest :
  0 <= n -> Ascii.is_nat c = None -> read_value (decimal n +:+ String c rest) = Some (JNumber n, String c rest).
Proof.
  intros Hn Hc. pose proof (read_number_decimal n c rest Hn Hc) as Hr. pose proof (decimal_digits n) as Hd.
  destruct (decimal n) as [|d s] eqn:E.
  { change (EmptyString +:+ String c rest) with (String c rest) in Hr. cbn in Hr. rewrite Hc in Hr. assert (n = 0) as -> by congruence. done. }
  cbn in Hd. apply andb_true_iff in Hd as [Hd _]. rewrite append_cons in *. unfold read_value.
  rewrite bool_decide_eq_false_2 by (intros ->; done). by rewrite Hd, Hr.
Qed.

(** A member and what follows it. *)
Lemma read_members_next fuel k s v rest :
  chars_in plain_char k = true -> read_value s = Some (v, "," +:+ rest) ->
  read_members (S fuel) (quote +:+ k +:+ quote +:+ ":" +:+ s) = ms ← read_members fuel rest; Some ((k, v) :: ms).
Proof.
  intros Hk Hv. cbn [read_members]. change (expect _ (quote +:+ ?x)) with (Some x). cbn [mbind option_bind].
  rewrite read_string_plain by done. cbn [mbind option_bind]. change (expect _ (":" +:+ s)) with (Some s).
  cbn [mbind option_bind]. rewrite Hv. cbn. done.
Qed.

Lemma read_members_last fuel k s v :
  chars_in plain_char k = true -> read_value s = Some (v, "}") ->
  read_members (S fuel) (quote +:+ k +:+ quote +:+ ":" +:+ s) = Some [(k, v)].
Proof.
  intros Hk Hv. cbn [read_members]. change (expect _ (quote +:+ ?x)) with (Some x). cbn [mbind option_bind].
  rewrite read_string_plain by done. cbn [mbind option_bind]. change (expect _ (":" +:+ s)) with (Some s).
  cbn [mbind option_bind]. rewrite Hv. cbn. done.
Qed.

Lemma read_members_mono fuel fuel' s ms :
  (fuel <= fuel')%nat -> read_members fuel s = Some ms -> read_members fuel' s = Some ms.
Proof.
  revert fuel' s ms. induction fuel as [|fuel IH]; intros [|fuel'] s ms Hle; [done|done|lia|]. cbn [read_members].
  destruct (expect (ascii_of_nat 34) s) as [s1|]; [|done]. cbn [mbind option_bind].
  destruct (read_string EmptyString s1) as [[k s2]|]; [|done]. cbn [mbind option_bind].
  destruct (expect _ s2) as [s3|]; [|done]. cbn [mbind option_bind].
  destruct (read_value s3) as [[v s4]|]; [|done]. cbn [mbind option_bind].
  destruct s4 as [|c s4]; [done|]. case_bool_decide; [|done].
  destruct (read_members fuel s4) as [ms'|] eqn:E; [|done]. by rewrite (IH fuel' s4 ms') by (done || lia).
Qed.

(** Fuel for the length of the text is enough. *)
Lemma read_object_members fuel s ms :
  (fuel <= String.length s)%nat -> read_members fuel s = Some ms -> read_object ("{" +:+ s) = Some ms.
Proof.
  intros Hle H. unfold read_object. change (expect _ ("{" +:+ s)) with (Some s). cbn [mbind option_bind].
  by eapply read_members_mono.
Qed.

Lemma read_value_plain v rest :
  chars_in plain_char v = true -> read_value (quote +:+ v +:+ quote +:+ rest) = Some (JString v, rest).
Proof. intros. by apply read_value_string, read_string_plain. Qed.

End Json.
