(* ===== verification/JsonTree.v ===== *)
(** JSON texts as the standard defines them (strings, numbers, objects and arrays): a
    grammar with free white space, and a reader that is proved to read every text of the
    grammar.  The reports of the tools are verified against it. *)

From S2P Require Import Prelude Float FloatLaws Text Json.
From stdpp Require Import strings pretty.
From Stdlib Require Import Ascii Floats.SpecFloat.
Open Scope Z_scope.
Import Float Text.

Module JsonTree.

(** A number is kept as its text. *)
Inductive value :=
  | JStr (s : string)
  | JNum (t : string)
  | JBool (b : bool)
  | JObj (ms : list (string * value))
  | JArr (vs : list value).

(** ** Characters and numbers *)

Definition ws_char (c : ascii) : bool :=
  bool_decide (c = " "%char) || bool_decide (c = "010"%char) || bool_decide (c = "013"%char) || bool_decide (c = "009"%char).

Definition num_char (c : ascii) : bool :=
  digit_char c || bool_decide (c = "."%char) || bool_decide (c = "-"%char) || bool_decide (c = "+"%char)
  || bool_decide (c = "e"%char) || bool_decide (c = "E"%char).

Definition strip (cs : list ascii) (s : string) : string :=
  match s with String c s' => if bool_decide (c ∈ cs) then s' else s | EmptyString => s end.

Definition exp_part (s : string) : bool :=
  match s with
  | EmptyString => true
  | String c s =>
    (bool_decide (c = "e"%char) || bool_decide (c = "E"%char)) &&
    let '(ds, rest) := span digit_char (strip ["+"%char; "-"%char] s) in
    negb (bool_decide (ds = EmptyString)) && bool_decide (rest = EmptyString)
  end.

Definition frac_part (s : string) : bool :=
  match s with
  | String c s' =>
    if bool_decide (c = "."%char)
    then let '(ds, rest) := span digit_char s' in negb (bool_decide (ds = EmptyString)) && exp_part rest
    else exp_part s
  | EmptyString => true
  end.

(** No leading zeros. *)
Definition int_part (s : string) : bool :=
  match s with
  | EmptyString => false
  | String c s => if bool_decide (c = "0"%char) then bool_decide (s = EmptyString) else true
  end.

Definition number (t : string) : bool :=
  let '(i, rest) := span digit_char (strip ["-"%char] t) in int_part i && frac_part rest.

(** ** The reader *)

Definition skip_ws (s : string) : string := snd (span ws_char s).

(** The rest of a text behind a word. *)
Fixpoint behind (w s : string) : option string :=
  match w, s with
  | EmptyString, _ => Some s
  | String c w, String d s => if bool_decide (c = d) then behind w s else None
  | String _ _, EmptyString => None
  end.

Definition read_scalar (s : string) : option (value * string) :=
  match s with
  | EmptyString => None
  | String c s' =>
    if bool_decide (c = ascii_of_nat 34) then '(v, rest) ← Json.read_string EmptyString s'; Some (JStr v, rest)
    else if bool_decide (c = "t"%char) then rest ← behind "rue" s'; Some (JBool true, rest)
    else if bool_decide (c = "f"%char) then rest ← behind "alse" s'; Some (JBool false, rest)
    else let '(t, rest) := span num_char s in if number t then Some (JNum t, rest) else None
  end.

(** A value, the members of an object up to its brace, the elements of an array up to
    its bracket.  Every call takes a character, so the length of the text is enough fuel. *)
Fixpoint read_val (fuel : nat) (s : string) {struct fuel} : option (value * string) :=
  match fuel with
  | O => None
  | S fuel =>
    match skip_ws s with
    | EmptyString => None
    | String c s' =>
      if bool_decide (c = "{"%char) then
        match Json.expect "}"%char (skip_ws s') with
        | Some rest => Some (JObj [], rest)
        | None => '(ms, rest) ← read_mems fuel s'; Some (JObj ms, rest)
        end
      else if bool_decide (c = "["%char) then
        match Json.expect "]"%char (skip_ws s') with
        | Some rest => Some (JArr [], rest)
        | None => '(vs, rest) ← read_elems fuel s'; Some (JArr vs, rest)
        end
      else read_scalar (String c s')
    end
  end
with read_mems (fuel : nat) (s : string) {struct fuel} : option (list (string * value) * string) :=
  match fuel with
  | O => None
  | S fuel =>
    s ← Json.expect (ascii_of_nat 34) (skip_ws s);
    '(k, s) ← Json.read_string EmptyString s;
    s ← Json.expect ":"%char (skip_ws s);
    '(v, s) ← read_val fuel s;
    match Json.expect ","%char (skip_ws s) with
    | Some s => '(ms, rest) ← read_mems fuel s; Some ((k, v) :: ms, rest)
    | None => s ← Json.expect "}"%char (skip_ws s); Some ([(k, v)], s)
    end
  end
with read_elems (fuel : nat) (s : string) {struct fuel} : option (list value * string) :=
  match fuel with
  | O => None
  | S fuel =>
    '(v, s) ← read_val fuel s;
    match Json.expect ","%char (skip_ws s) with
    | Some s => '(vs, rest) ← read_elems fuel s; Some (v :: vs, rest)
    | None => s ← Json.expect "]"%char (skip_ws s); Some ([v], s)
    end
  end.

(** A whole text: one value and white space around it. *)
Definition read_json (s : string) : option value :=
  '(v, rest) ← read_val (S (String.length s)) s;
  if bool_decide (skip_ws rest = EmptyString) then Some v else None.

(** ** The grammar *)

Definition ws (s : string) : Prop := chars_in ws_char s = true.

(** The characters between the quotes of a literal, and its value. *)
Definition literal (v s : string) : Prop :=
  forall acc rest, Json.read_string acc (s +:+ quote +:+ rest) = Some (acc +:+ v, rest).

Inductive text_of : value -> string -> Prop :=
  | TStr v s : literal v s -> text_of (JStr v) (quote +:+ s +:+ quote)
  | TNum t : number t = true -> chars_in num_char t = true -> text_of (JNum t) t
  | TBool (b : bool) : text_of (JBool b) (if b then "true" else "false")
  | TObj0 w : ws w -> text_of (JObj []) ("{" +:+ w +:+ "}")
  | TObj ms s : mems_of ms s -> text_of (JObj ms) ("{" +:+ s +:+ "}")
  | TArr0 w : ws w -> text_of (JArr []) ("[" +:+ w +:+ "]")
  | TArr vs s : elems_of vs s -> text_of (JArr vs) ("[" +:+ s +:+ "]")
with mems_of : list (string * value) -> string -> Prop :=
  | MOne k ks v vs w1 w2 w3 w4 : ws w1 -> literal k ks -> ws w2 -> ws w3 -> text_of v vs -> ws w4 ->
      mems_of [(k, v)] (w1 +:+ quote +:+ ks +:+ quote +:+ w2 +:+ ":" +:+ w3 +:+ vs +:+ w4)
  | MCons k ks v vs w1 w2 w3 w4 ms s : ws w1 -> literal k ks -> ws w2 -> ws w3 -> text_of v vs -> ws w4 -> mems_of ms s ->
      mems_of ((k, v) :: ms) (w1 +:+ quote +:+ ks +:+ quote +:+ w2 +:+ ":" +:+ w3 +:+ vs +:+ w4 +:+ "," +:+ s)
with elems_of : list value -> string -> Prop :=
  | EOne v vs w1 w2 : ws w1 -> text_of v vs -> ws w2 -> elems_of [v] (w1 +:+ vs +:+ w2)
  | ECons v vs w1 w2 l s : ws w1 -> text_of v vs -> ws w2 -> elems_of l s ->
      elems_of (v :: l) (w1 +:+ vs +:+ w2 +:+ "," +:+ s).

Scheme text_of_mut := Induction for text_of Sort Prop
  with mems_of_mut := Induction for mems_of Sort Prop
  with elems_of_mut := Induction for elems_of Sort Prop.
Combined Scheme json_mutind from text_of_mut, mems_of_mut, elems_of_mut.

(** ** Every text of the grammar is read *)

(** What may follow a number. *)
Definition delim (rest : string) : Prop :=
  match rest with EmptyString => True | String c _ => num_char c = false end.

Lemma skip_ws_app w s : ws w -> skip_ws (w +:+ s) = skip_ws s.
Proof.
  unfold ws, skip_ws. induction w as [|c w IH]; [done|]. cbn [chars_in]. rewrite andb_true_iff. intros [Hc Hw].
  rewrite append_cons. cbn [span]. rewrite Hc. destruct (span ws_char (w +:+ s)) eqn:E. cbn [snd]. by apply IH.
Qed.

Lemma skip_ws_char c s : ws_char c = false -> skip_ws (String c s) = String c s.
Proof. unfold skip_ws. cbn [span]. by intros ->. Qed.

Lemma ws_not_num c : ws_char c = true -> num_char c = false.
Proof. by destruct c as [[] [] [] [] [] [] [] []]. Qed.

Lemma num_not_ws c : num_char c = true -> ws_char c = false.
Proof. by destruct c as [[] [] [] [] [] [] [] []]. Qed.

Lemma num_plain c : num_char c = true -> c <> ascii_of_nat 34 /\ c <> "{"%char /\ c <> "["%char /\ c <> "t"%char /\ c <> "f"%char.
Proof. destruct c as [[] [] [] [] [] [] [] []]; cbn; intros; try discriminate; repeat split; discriminate. Qed.

Lemma delim_ws w c rest : ws w -> num_char c = false -> delim (w +:+ String c rest).
Proof.
  intros Hw Hc. destruct w as [|d w]; [exact Hc|]. unfold ws in Hw. cbn [chars_in] in Hw. apply andb_true_iff in Hw as [Hd _].
  by apply ws_not_num.
Qed.

(** A text starts with a character that is no white space and closes nothing. *)
Definition starts (s : string) : Prop :=
  exists c s', s = String c s' /\ ws_char c = false /\ c <> "}"%char /\ c <> "]"%char.

Lemma number_nonempty t : number t = true -> t <> EmptyString.
Proof. by intros H ->. Qed.

Lemma starts_char c s : ws_char c = false -> c <> "}"%char -> c <> "]"%char -> starts (String c s).
Proof. intros. by exists c, s. Qed.

Lemma text_starts v s : text_of v s -> starts s.
Proof.
  intros H. destruct H as [v s _|t Hn Ht|[]| | | |]; try (apply starts_char; done).
  destruct t as [|c t]; [by apply number_nonempty in Hn|]. cbn [chars_in] in Ht. apply andb_true_iff in Ht as [Hc _].
  apply starts_char; [by apply num_not_ws|..]; intros ->; discriminate Hc.
Qed.

Lemma mems_starts ms s : mems_of ms s -> exists w r, ws w /\ s = w +:+ quote +:+ r.
Proof. intros H. destruct H; eexists _, _; (split; [|reflexivity]); done. Qed.

Lemma elems_starts vs s : elems_of vs s -> exists w r t, ws w /\ starts r /\ s = w +:+ r +:+ t.
Proof.
  intros H. destruct H as [v vs w1 w2 Hw Ht _|v vs w1 w2 l s Hw Ht _ _];
  eexists _, _, _; (split; [exact Hw|split; [exact (text_starts v vs Ht)|reflexivity]]).
Qed.

Lemma expect_char c s : Json.expect c (String c s) = Some s.
Proof. cbn. by rewrite bool_decide_eq_true_2. Qed.

Lemma expect_other c d s : d <> c -> Json.expect c (String d s) = None.
Proof. intros. cbn. by rewrite bool_decide_eq_false_2. Qed.

(** The next character behind white space. *)
Lemma next_char w c s : ws w -> ws_char c = false -> skip_ws (w +:+ String c s) = String c s.
Proof. intros. by rewrite skip_ws_app, skip_ws_char. Qed.

Lemma read_val_ws fuel w s : ws w -> read_val fuel (w +:+ s) = read_val fuel s.
Proof. intros Hw. destruct fuel as [|fuel]; [done|]. cbn [read_val]. by rewrite skip_ws_app. Qed.

Lemma read_scalar_str v s rest : literal v s -> read_scalar (String (ascii_of_nat 34) (s +:+ quote +:+ rest)) = Some (JStr v, rest).
Proof. intros H. unfold read_scalar. rewrite bool_decide_eq_true_2 by done. rewrite H. done. Qed.

Lemma read_scalar_num t rest :
  number t = true -> chars_in num_char t = true -> delim rest -> read_scalar (t +:+ rest) = Some (JNum t, rest).
Proof.
  intros Hn Ht Hr. pose proof (span_app num_char t rest Ht Hr) as Hs.
  destruct t as [|c t]; [by apply number_nonempty in Hn|]. cbn [chars_in] in Ht. apply andb_true_iff in Ht as [Hc _].
  apply num_plain in Hc as (Hq & _ & _ & Ht & Hf). rewrite append_cons in *. unfold read_scalar.
  rewrite !bool_decide_eq_false_2, Hs, Hn by done. done.
Qed.

(** A scalar is read as such. *)
Lemma read_val_scalar fuel c s :
  ws_char c = false -> c <> "{"%char -> c <> "["%char -> read_val (S fuel) (String c s) = read_scalar (String c s).
Proof. intros. cbn [read_val]. rewrite skip_ws_char by done. by rewrite !bool_decide_eq_false_2. Qed.

Lemma read_val_num fuel t rest :
  number t = true -> chars_in num_char t = true -> delim rest -> read_val (S fuel) (t +:+ rest) = Some (JNum t, rest).
Proof.
  intros Hn Ht Hr. pose proof (read_scalar_num t rest Hn Ht Hr) as E.
  destruct t as [|c t]; [by apply number_nonempty in Hn|]. cbn [chars_in] in Ht. apply andb_true_iff in Ht as [Hc _].
  pose proof (num_not_ws c Hc). apply num_plain in Hc as (_ & H1 & H2 & _). rewrite append_cons in *. by rewrite read_val_scalar.
Qed.

(** Nothing that can start a member or an element closes the object or the array. *)
Lemma not_closed c w s rest :
  ws w -> starts s -> c = "}"%char \/ c = "]"%char -> Json.expect c (skip_ws (w +:+ s +:+ rest)) = None.
Proof.
  intros Hw (d & r & -> & Hd & H1 & H2) Hc. rewrite append_cons, next_char by done. apply expect_other. by destruct Hc as [->| ->].
Qed.

Lemma length_quote s : String.length (quote +:+ s) = S (String.length s).
Proof. done. Qed.

(** The member in front of [rest]. *)
Lemma read_mem fuel k ks v vs w1 w2 w3 rest :
  ws w1 -> literal k ks -> ws w2 -> ws w3 -> read_val fuel (vs +:+ rest) = Some (v, rest) ->
  read_mems (S fuel) (w1 +:+ quote +:+ ks +:+ quote +:+ w2 +:+ ":" +:+ w3 +:+ vs +:+ rest) =
    match Json.expect ","%char (skip_ws rest) with
    | Some s => '(ms, rest) ← read_mems fuel s; Some ((k, v) :: ms, rest)
    | None => s ← Json.expect "}"%char (skip_ws rest); Some ([(k, v)], s)
    end.
Proof.
  intros H1 Hk H2 H3 Hv. cbn [read_mems]. change (quote +:+ ?x) with (String (ascii_of_nat 34) x) at 1.
  rewrite next_char, expect_char by done. cbn [mbind option_bind]. rewrite Hk. cbn [mbind option_bind].
  change (":" +:+ ?x) with (String ":"%char x). rewrite next_char, expect_char by done. cbn [mbind option_bind].
  rewrite read_val_ws, Hv by done. done.
Qed.

Lemma read_texts :
  (forall v s, text_of v s -> forall fuel rest, (String.length s <= fuel)%nat -> delim rest -> read_val fuel (s +:+ rest) = Some (v, rest)) /\
  (forall ms s, mems_of ms s -> forall fuel rest, (String.length s < fuel)%nat -> read_mems fuel (s +:+ "}" +:+ rest) = Some (ms, rest)) /\
  (forall vs s, elems_of vs s -> forall fuel rest, (String.length s < fuel)%nat -> read_elems fuel (s +:+ "]" +:+ rest) = Some (vs, rest)).
Proof.
  apply json_mutind.
  - intros v s Hl [|fuel] rest Hf _; [rewrite length_quote in Hf; lia|]. rewrite !append_assoc.
    change (quote +:+ ?x) with (String (ascii_of_nat 34) x) at 1. rewrite read_val_scalar by done. by apply read_scalar_str.
  - intros t Hn Ht [|fuel] rest Hf Hr; [|by apply read_val_num]. by destruct t; [apply number_nonempty in Hn|cbn in Hf; lia].
  - intros [] [|fuel] rest Hf _; [cbn in Hf; lia|done|cbn in Hf; lia|done].
  - intros w Hw [|fuel] rest Hf _; [by rewrite length_append in Hf; cbn in Hf; lia|]. rewrite !append_assoc.
    change ("{" +:+ ?x) with (String "{"%char x). cbn [read_val]. rewrite skip_ws_char, bool_decide_eq_true_2 by done.
    change ("}" +:+ rest) with (String "}"%char rest). by rewrite next_char, expect_char.
  - intros ms s Hm IH [|fuel] rest Hf _; [by rewrite length_append in Hf; cbn in Hf; lia|]. rewrite !append_assoc.
    change ("{" +:+ ?x) with (String "{"%char x). cbn [read_val]. rewrite skip_ws_char, bool_decide_eq_true_2 by done.
    destruct (mems_starts ms s Hm) as (w & r & Hw & E).
    assert (Json.expect "}"%char (skip_ws (s +:+ "}" +:+ rest)) = None) as ->.
    { rewrite E, append_assoc. apply not_closed; [done| |by left]. by apply starts_char. }
    rewrite IH; [done|]. rewrite !length_append in Hf. cbn in Hf. lia.
  - intros w Hw [|fuel] rest Hf _; [by rewrite length_append in Hf; cbn in Hf; lia|]. rewrite !append_assoc.
    change ("[" +:+ ?x) with (String "["%char x). cbn [read_val]. rewrite skip_ws_char by done.
    rewrite bool_decide_eq_false_2, bool_decide_eq_true_2 by done.
    change ("]" +:+ rest) with (String "]"%char rest). by rewrite next_char, expect_char.
  - intros vs s Hm IH [|fuel] rest Hf _; [by rewrite length_append in Hf; cbn in Hf; lia|]. rewrite !append_assoc.
    change ("[" +:+ ?x) with (String "["%char x). cbn [read_val]. rewrite skip_ws_char by done.
    rewrite bool_decide_eq_false_2, bool_decide_eq_true_2 by done.
    destruct (elems_starts vs s Hm) as (w & r & t & Hw & Hr & E).
    assert (Json.expect "]"%char (skip_ws (s +:+ "]" +:+ rest)) = None) as ->.
    { rewrite E, !append_assoc. apply not_closed; [done|done|by right]. }
    rewrite IH; [done|]. rewrite !length_append in Hf. cbn in Hf. lia.
  - intros k ks v vs w1 w2 w3 w4 H1 Hk H2 H3 Hv IH H4 [|fuel] rest Hf; [lia|]. rewrite !append_assoc.
    rewrite !length_append in Hf. cbn in Hf. change ("}" +:+ rest) with (String "}"%char rest).
    rewrite (read_mem fuel k ks v vs) by (done || (apply IH; [lia|by apply delim_ws])).
    by rewrite !next_char, expect_other, expect_char.
  - intros k ks v vs w1 w2 w3 w4 ms s H1 Hk H2 H3 Hv IH H4 Hms IHms [|fuel] rest Hf; [lia|]. rewrite !append_assoc.
    rewrite !length_append in Hf. cbn in Hf. change ("," +:+ ?x) with (String ","%char x).
    rewrite (read_mem fuel k ks v vs) by (done || (apply IH; [lia|by apply delim_ws])).
    rewrite next_char, expect_char by done. rewrite IHms by lia. done.
  - intros v vs w1 w2 H1 Hv IH H2 [|fuel] rest Hf; [lia|]. rewrite !append_assoc.
    rewrite !length_append in Hf. cbn [read_elems]. rewrite read_val_ws by done.
    change ("]" +:+ rest) with (String "]"%char rest). rewrite IH by (lia || by apply delim_ws). cbn [mbind option_bind].
    by rewrite !next_char, expect_other, expect_char.
  - intros v vs w1 w2 l s H1 Hv IH H2 Hl IHl [|fuel] rest Hf; [lia|]. rewrite !append_assoc.
    rewrite !length_append in Hf. cbn in Hf. cbn [read_elems]. rewrite read_val_ws by done.
    change ("," +:+ ?x) with (String ","%char x). rewrite IH by (lia || by apply delim_ws). cbn [mbind option_bind].
    rewrite next_char, expect_char by done. rewrite IHl by lia. done.
Qed.

(** The reader reads every text of the grammar, with white space around it. *)
Lemma read_json_text v s w1 w2 : ws w1 -> text_of v s -> ws w2 -> read_json (w1 +:+ s +:+ w2) = Some v.
Proof.
  intros H1 Hs H2. unfold read_json. rewrite read_val_ws by done.
  rewrite (proj1 read_texts v s Hs); [|rewrite !length_append; lia|].
  - cbn [mbind option_bind]. pose proof (skip_ws_app w2 EmptyString H2) as E. rewrite append_nil_r in E. by rewrite E.
  - destruct w2 as [|c w2]; [done|]. unfold ws in H2. cbn [chars_in] in H2. apply andb_true_iff in H2 as [Hc _]. by apply ws_not_num.
Qed.

(** ** Numbers and strings of the grammar *)

Lemma pretty_N_char_nonzero d : (0 < d < 10)%N -> pretty_N_char d <> "0"%char.
Proof. intros H. do 10 (destruct d as [|d] using N.peano_ind; [try lia; try discriminate|clear IHd]). lia. Qed.

Lemma pretty_N_go_head x s : (0 < x)%N -> exists c s', pretty_N_go x s = String c s' /\ c <> "0"%char.
Proof.
  revert s. induction (N.lt_wf_0 x) as [x _ IH]. intros s Hx. rewrite pretty_N_go_step by done.
  destruct (decide (x `div` 10 = 0)%N) as [E|E].
  - rewrite E, pretty_N_go_0. eexists _, _. split; [reflexivity|]. apply pretty_N_char_nonzero.
    pose proof (N.div_mod x 10 ltac:(done)). pose proof (N.mod_lt x 10 ltac:(done)). lia.
  - apply IH; [apply N.div_lt; lia|]. by apply N.neq_0_lt_0.
Qed.

(** A decimal has no leading zero. *)
Lemma decimal_int n : int_part (decimal n) = true.
Proof.
  unfold decimal, pretty, pretty_N. case_decide as E; [done|].
  destruct (pretty_N_go_head (Z.to_N n) "" ltac:(lia)) as (c & s & -> & Hc). cbn. by rewrite bool_decide_eq_false_2.
Qed.

Lemma decimal_head n : exists c s, decimal n = String c s /\ digit_char c = true.
Proof.
  pose proof (decimal_int n) as H. pose proof (decimal_digits n) as Hd. destruct (decimal n) as [|c s]; [done|].
  cbn [chars_in] in Hd. apply andb_true_iff in Hd as [Hc _]. by exists c, s.
Qed.

Lemma strip_digit cs c s : c ∉ cs -> strip cs (String c s) = String c s.
Proof. intros. cbn. by rewrite bool_decide_eq_false_2. Qed.

Lemma digit_not_minus c : digit_char c = true -> c ∉ ["-"%char].
Proof. intros H E. apply list_elem_of_singleton in E as ->. discriminate H. Qed.

(** An optional sign, digits, and a fraction. *)
Lemma number_digits s i rest :
  chars_in digit_char i = true -> int_part i = true ->
  match rest with EmptyString => True | String c _ => digit_char c = false end -> frac_part rest = true ->
  number (sign s +:+ i +:+ rest) = true.
Proof.
  intros Hi Hp Hr Hf. unfold number.
  assert (strip ["-"%char] (sign s +:+ i +:+ rest) = i +:+ rest) as ->.
  { destruct s; [done|]. change (sign false +:+ ?x) with x. destruct i as [|c t]; [done|].
    rewrite append_cons. apply strip_digit, digit_not_minus. cbn in Hi. by apply andb_true_iff in Hi as [Hc _]. }
  rewrite span_app by done. by rewrite Hp, Hf.
Qed.

Lemma number_parts s n rest :
  match rest with EmptyString => True | String c _ => digit_char c = false end -> frac_part rest = true ->
  number (sign s +:+ decimal n +:+ rest) = true.
Proof. apply number_digits; [apply decimal_digits|apply decimal_int]. Qed.

Lemma decimal_number n : number (decimal n) = true.
Proof. pose proof (number_parts false n EmptyString I eq_refl) as H. by rewrite append_nil_r in H. Qed.

Lemma point_frac ds : ds <> EmptyString -> chars_in digit_char ds = true -> frac_part ("." +:+ ds) = true.
Proof.
  intros Hne Hd. change ("." +:+ ds) with (String "."%char ds). unfold frac_part. rewrite bool_decide_eq_true_2 by done.
  pose proof (span_app digit_char ds EmptyString Hd I) as E. rewrite append_nil_r in E. rewrite E.
  by rewrite bool_decide_eq_false_2.
Qed.

(** Neither infinite nor not a number. *)
Definition finite (x : Z) : bool :=
  match of_bits binary64 x with S754_zero _ | S754_finite _ _ _ => true | _ => false end.

Lemma within_finite B x : FloatLaws.double_within B x -> finite x = true.
Proof. unfold FloatLaws.double_within, finite. by destruct (of_bits binary64 x). Qed.

Lemma pad_nonempty k n : pad (S k) (decimal n) <> EmptyString.
Proof.
  destruct (decimal_head n) as (c & s & E & _). unfold pad. intros H.
  assert (Hl : String.length (zeros (S k - String.length (decimal n)) +:+ decimal n) = 0%nat) by (by rewrite H).
  rewrite length_append, E in Hl. cbn in Hl. lia.
Qed.

(** A finite number in the fixed format is a number of JSON. *)
Lemma fixed_number k x : finite x = true -> number (fixed_at (S k) x) = true.
Proof.
  unfold finite, fixed_at. destruct (of_bits binary64 x) as [s|s| |s m e]; try done; intros _.
  - change ("0." +:+ zeros (S k)) with (decimal 0 +:+ ("." +:+ zeros (S k))). apply number_parts; [done|].
    by apply point_frac, zeros_digits.
  - destruct (ratio m e) as [num den]. apply number_parts; [done|]. by apply point_frac; [apply pad_nonempty|apply pad_digits].
Qed.

Lemma digit_num c : digit_char c = true -> num_char c = true.
Proof. unfold num_char. by intros ->. Qed.

Lemma digits_num s : chars_in digit_char s = true -> chars_in num_char s = true.
Proof. apply chars_in_mono, digit_num. Qed.

Lemma sign_num s : chars_in num_char (sign s) = true.
Proof. by destruct s. Qed.

Lemma fixed_num_chars k x : finite x = true -> chars_in num_char (fixed_at k x) = true.
Proof.
  unfold finite, fixed_at. destruct (of_bits binary64 x) as [s|s| |s m e]; try done; intros _.
  - by rewrite !chars_in_app, sign_num, (digits_num (zeros k)) by apply zeros_digits.
  - destruct (ratio m e) as [num den]. rewrite !chars_in_app, sign_num.
    rewrite (digits_num (decimal _)) by apply decimal_digits. by rewrite (digits_num (pad _ _)) by apply pad_digits.
Qed.

Lemma text_decimal n : text_of (JNum (decimal n)) (decimal n).
Proof. constructor; [apply decimal_number|apply digits_num, decimal_digits]. Qed.

Lemma text_fixed k x : finite x = true -> text_of (JNum (fixed_at (S k) x)) (fixed_at (S k) x).
Proof. intros. constructor; [by apply fixed_number|by apply fixed_num_chars]. Qed.

(** Digits in front of the point have no leading zero. *)
Lemma int_part_prefix k n : int_part (String.substring 0 (S k) (decimal n)) = true.
Proof.
  pose proof (decimal_int n) as H. destruct (decimal_head n) as (c & s & E & _). rewrite E in *. cbn in *.
  destruct (bool_decide (c = "0"%char)); [|done]. apply bool_decide_eq_true in H as ->. by destruct k.
Qed.

(** What may follow a fraction: nothing, or an exponent. *)
Definition exponent (s : string) : Prop :=
  s = EmptyString \/ exists m ds, s = "e" +:+ (if m : bool then "+" else "-") +:+ ds /\ ds <> EmptyString /\ chars_in digit_char ds = true.

Lemma exponent_part s : exponent s -> exp_part s = true /\ match s with EmptyString => True | String c _ => digit_char c = false end /\
  frac_part s = true /\ chars_in num_char s = true.
Proof.
  intros [->|(m & ds & -> & Hne & Hd)]; [done|].
  pose proof (span_app digit_char ds EmptyString Hd I) as E. rewrite append_nil_r in E.
  assert (He : exp_part ("e" +:+ (if m then "+" else "-") +:+ ds) = true).
  { destruct m; (change (exp_part _) with (let '(x, rest) := span digit_char ds in negb (bool_decide (x = EmptyString)) && bool_decide (rest = EmptyString)));
      by rewrite E, bool_decide_eq_false_2. }
  split; [done|]. split; [by destruct m|]. split; [by destruct m|]. rewrite !chars_in_app, (digits_num ds) by done. by destruct m.
Qed.

Lemma fraction_part ds e : chars_in digit_char ds = true -> exponent e ->
  match fraction ds +:+ e with EmptyString => True | String c _ => digit_char c = false end /\
  frac_part (fraction ds +:+ e) = true /\ chars_in num_char (fraction ds +:+ e) = true.
Proof.
  intros Hd%strip_zeros_in He. destruct (exponent_part e He) as (H1 & H2 & H3 & H4).
  unfold fraction. destruct (strip_zeros ds) as [|c t] eqn:E; [done|]. split; [done|].
  split; [|by rewrite !chars_in_app, (digits_num (String c t)), H4].
  rewrite append_assoc. change ("." +:+ ?x) with (String "."%char x). unfold frac_part. rewrite bool_decide_eq_true_2 by done.
  rewrite span_app by done. by rewrite H1.
Qed.

Lemma number_fraction s i ds e : chars_in digit_char i = true -> int_part i = true -> chars_in digit_char ds = true -> exponent e ->
  number (sign s +:+ i +:+ fraction ds +:+ e) = true /\ chars_in num_char (sign s +:+ i +:+ fraction ds +:+ e) = true.
Proof.
  intros Hi Hp Hd He. destruct (fraction_part ds e Hd He) as (H1 & H2 & H3). split; [by apply number_digits|].
  by rewrite chars_in_app, sign_num, chars_in_app, (digits_num i), H3.
Qed.

(** A finite number in the default format is a number of JSON. *)
Lemma text_general x : finite x = true -> text_of (JNum (general x)) (general x).
Proof.
  unfold finite, general. destruct (of_bits binary64 x) as [s|s| |s m e]; try done; intros _; [by destruct s; constructor|].
  destruct (ratio m e) as [num den]. unfold general_ratio. destruct (six_digits num den) as [d k].
  assert (Hn : forall i ds, chars_in digit_char i = true -> int_part i = true -> chars_in digit_char ds = true ->
    text_of (JNum (sign s +:+ i +:+ fraction ds)) (sign s +:+ i +:+ fraction ds)).
  { intros i ds Hi Hp Hd. destruct (number_fraction s i ds EmptyString) as [H1 H2]; try done; [by left|].
    rewrite append_nil_r in *. by constructor. }
  destruct (_ && _); [destruct (0 <=? k)|].
  - apply Hn; [by apply substring_in, decimal_digits| |by apply substring_in, decimal_digits].
    rewrite Nat.add_1_r. apply int_part_prefix.
  - apply Hn; [done|done|]. by rewrite chars_in_app, zeros_digits, decimal_digits.
  - destruct (number_fraction s (String.substring 0 1 (decimal d)) (String.substring 1 5 (decimal d))
      ("e" +:+ (if 0 <=? k then "+" else "-") +:+ pad 2 (decimal (Z.abs k)))) as [H1 H2]; [..|by constructor].
    + by apply substring_in, decimal_digits.
    + apply int_part_prefix.
    + by apply substring_in, decimal_digits.
    + right. exists (0 <=? k), (pad 2 (decimal (Z.abs k))). split; [done|]. split; [apply pad_nonempty|apply pad_digits].
Qed.

Lemma literal_plain s : chars_in Json.plain_char s = true -> literal s s.
Proof. intros H acc rest. by apply Json.read_string_plain. Qed.

(** A member as the tools print them: its key, a colon and a blank, its value. *)
Definition member (k vs : string) : string := quote +:+ k +:+ quote +:+ ": " +:+ vs.

(** A member on a line of its own, in front of others or in front of the closing brace. *)
Lemma line_cons ind k ks v vs ms s :
  ws ind -> literal k ks -> text_of v vs -> mems_of ms s ->
  mems_of ((k, v) :: ms) (nl +:+ ind +:+ member ks vs +:+ "," +:+ s).
Proof.
  intros Hi Hk Hv Hs. unfold member. rewrite !append_assoc. change (": " +:+ ?x) with (EmptyString +:+ ":" +:+ " " +:+ x).
  rewrite <-(append_assoc nl ind). change ("," +:+ s) with (EmptyString +:+ "," +:+ s). by apply MCons.
Qed.

Lemma line_last ind ind' k ks v vs :
  ws ind -> ws ind' -> literal k ks -> text_of v vs -> mems_of [(k, v)] (nl +:+ ind +:+ member ks vs +:+ nl +:+ ind').
Proof.
  intros Hi Hi' Hk Hv. unfold member. rewrite !append_assoc. change (": " +:+ ?x) with (EmptyString +:+ ":" +:+ " " +:+ x).
  rewrite <-(append_assoc nl ind). by apply MOne.
Qed.

(** [s] are the members of an object, its closing brace, and [t]. *)
Definition closes (ms : list (string * value)) (s t : string) : Prop := exists b, mems_of ms b /\ s = b +:+ "}" +:+ t.

Lemma closes_cons ind k ks v vs ms s t :
  ws ind -> literal k ks -> text_of v vs -> closes ms s t ->
  closes ((k, v) :: ms) (nl +:+ ind +:+ member ks vs +:+ "," +:+ s) t.
Proof.
  intros Hi Hk Hv (b & Hb & ->). exists (nl +:+ ind +:+ member ks vs +:+ "," +:+ b). split; [by apply line_cons|].
  by rewrite !append_assoc.
Qed.

Lemma closes_last ind ind' k ks v vs t :
  ws ind -> ws ind' -> literal k ks -> text_of v vs ->
  closes [(k, v)] (nl +:+ ind +:+ member ks vs +:+ nl +:+ ind' +:+ "}" +:+ t) t.
Proof.
  intros Hi Hi' Hk Hv. exists (nl +:+ ind +:+ member ks vs +:+ nl +:+ ind'). split; [by apply line_last|].
  by rewrite !append_assoc.
Qed.

Lemma closes_text ms s : closes ms s EmptyString -> text_of (JObj ms) ("{" +:+ s).
Proof. intros (b & Hb & ->). by constructor. Qed.

(** The same within a line. *)
Lemma closes_inline w k ks v vs ms s t :
  ws w -> literal k ks -> text_of v vs -> closes ms s t -> closes ((k, v) :: ms) (w +:+ member ks vs +:+ "," +:+ s) t.
Proof.
  intros Hw Hk Hv (b & Hb & ->). exists (w +:+ member ks vs +:+ "," +:+ b). split; [|by rewrite !append_assoc].
  unfold member. rewrite !append_assoc. change (": " +:+ ?x) with (EmptyString +:+ ":" +:+ " " +:+ x).
  change ("," +:+ b) with (EmptyString +:+ "," +:+ b). by apply MCons.
Qed.

Lemma closes_inline_last w k ks v vs t :
  ws w -> literal k ks -> text_of v vs -> closes [(k, v)] (w +:+ member ks vs +:+ "}" +:+ t) t.
Proof.
  intros Hw Hk Hv. exists (w +:+ member ks vs +:+ EmptyString). split; [|by rewrite !append_assoc].
  unfold member. rewrite !append_assoc. change (": " +:+ ?x) with (EmptyString +:+ ":" +:+ " " +:+ x).
  by apply MOne.
Qed.

(** [s] are the elements of an array, its closing bracket, and [t]. *)
Definition ends (vs : list value) (s t : string) : Prop := exists b, elems_of vs b /\ s = b +:+ "]" +:+ t.

Lemma ends_cons ind v vs l s t : ws ind -> text_of v vs -> ends l s t -> ends (v :: l) (nl +:+ ind +:+ vs +:+ "," +:+ s) t.
Proof.
  intros Hi Hv (b & Hb & ->). exists (nl +:+ ind +:+ vs +:+ "," +:+ b). split; [|by rewrite !append_assoc].
  rewrite <-(append_assoc nl ind). change ("," +:+ b) with (EmptyString +:+ "," +:+ b). by apply ECons.
Qed.

Lemma ends_last ind ind' v vs t : ws ind -> ws ind' -> text_of v vs -> ends [v] (nl +:+ ind +:+ vs +:+ nl +:+ ind' +:+ "]" +:+ t) t.
Proof.
  intros Hi Hi' Hv. exists (nl +:+ ind +:+ vs +:+ nl +:+ ind'). split; [|by rewrite !append_assoc].
  rewrite <-(append_assoc nl ind). by apply EOne.
Qed.

(** The same within a line. *)
Lemma ends_inline w v vs l s t : ws w -> text_of v vs -> ends l s t -> ends (v :: l) (w +:+ vs +:+ "," +:+ s) t.
Proof.
  intros Hw Hv (b & Hb & ->). exists (w +:+ vs +:+ "," +:+ b). split; [|by rewrite !append_assoc].
  change ("," +:+ b) with (EmptyString +:+ "," +:+ b). by apply ECons.
Qed.

Lemma ends_inline_last w v vs t : ws w -> text_of v vs -> ends [v] (w +:+ vs +:+ "]" +:+ t) t.
Proof.
  intros Hw Hv. exists (w +:+ vs +:+ EmptyString). split; [by apply EOne|]. by rewrite !append_assoc.
Qed.

Lemma ends_text vs s : ends vs s EmptyString -> text_of (JArr vs) ("[" +:+ s).
Proof. intros (b & Hb & ->). by constructor. Qed.

(** A text that is an object and a line feed. *)
Lemma closes_read ms s : closes ms s nl -> read_json ("{" +:+ s) = Some (JObj ms).
Proof.
  intros (b & Hb & ->). pose proof (read_json_text (JObj ms) ("{" +:+ b +:+ "}") EmptyString nl) as H.
  rewrite !append_assoc in H. apply H; [done|by constructor|done].
Qed.

Example read_nested :
  read_json ("{ " +:+ member "a" "-1.50e+3" +:+ ", " +:+ member "b" "[{}, 0]" +:+ " }" +:+ nl) =
    Some (JObj [("a", JNum "-1.50e+3"); ("b", JArr [JObj []; JNum "0"])]).
Proof. vm_compute. reflexivity. Qed.

Example rejects_inf : read_json ("{" +:+ member "a" "inf" +:+ "}") = None /\ read_json "01" = None /\ read_json "1." = None.
Proof. vm_compute. done. Qed.

End JsonTree.
