(* ===== verification/CText.v ===== *)
(** The conversions of the C library from text to integers, base ten, on a platform
    whose [long] has 64 bits ([strtol], [strtoull]): the value and the text that is left,
    which is the whole text when nothing converts. *)

From S2P Require Import Prelude Float Text Json.
From stdpp Require Import strings pretty.
From Stdlib Require Import Ascii.
Open Scope Z_scope.
Import Text.

Module CText.

(** [isspace]. *)
Definition space_char (c : ascii) : bool :=
  bool_decide (c = " "%char) || ((9 <=? N_of_ascii c) && (N_of_ascii c <=? 13))%N.

(** White space, a sign and digits: whether the sign is a minus, the value of the
    digits and what follows. *)
Definition subject (s : string) : option (bool * Z * string) :=
  let '(_, s) := span space_char s in
  let '(neg, s) :=
    match s with
    | String c s' =>
      if bool_decide (c = "-"%char) then (true, s') else if bool_decide (c = "+"%char) then (false, s') else (false, s)
    | EmptyString => (false, s)
    end in
  match span digit_char s with
  | (EmptyString, _) => None
  | (ds, rest) => Some (neg, fst (Json.read_number 0 ds), rest)
  end.

(** [strtod]: the [double] (its bits) and the text that is left. *)
Class Strtod := strtod : string -> Z * string.

Definition LONG_MAX : Z := 2 ^ 63 - 1.
Definition LONG_MIN : Z := - 2 ^ 63.
Definition ULLONG_MAX : Z := 2 ^ 64 - 1.

Definition strtol (s : string) : Z * string :=
  match subject s with
  | None => (0, s)
  | Some (neg, n, rest) => (Z.max LONG_MIN (Z.min LONG_MAX (if neg then - n else n)), rest)
  end.

(** A minus negates the value in the type of the result. *)
Definition strtoull (s : string) : Z * string :=
  match subject s with
  | None => (0, s)
  | Some (neg, n, rest) => (if ULLONG_MAX <? n then ULLONG_MAX else if neg then u64 (- n) else n, rest)
  end.

(** ** Laws *)

Lemma digit_no_space c : digit_char c = true -> space_char c = false /\ c <> "-"%char /\ c <> "+"%char.
Proof. destruct c as [[] [] [] [] [] [] [] []]; cbn; intros; try discriminate; repeat split; discriminate. Qed.

Lemma read_number_decimal_end n : 0 <= n -> Json.read_number 0 (decimal n) = (n, EmptyString).
Proof.
  intros Hn. unfold decimal, pretty, pretty_N. case_decide as E; [by assert (n = 0) as -> by lia|].
  rewrite Json.read_number_pretty by lia. cbn. f_equal. lia.
Qed.

Lemma decimal_nonempty n : decimal n <> EmptyString.
Proof.
  unfold decimal, pretty, pretty_N. case_decide as E; [done|]. intros H.
  assert (Hl : forall x s, s <> EmptyString -> pretty_N_go x s <> EmptyString).
  { intros x. induction (N.lt_wf_0 x) as [x _ IH]. intros s Hs. destruct (decide (x = 0)%N) as [->|Hx]; [done|].
    rewrite pretty_N_go_step by lia. apply IH; [apply N.div_lt; lia|done]. }
  rewrite pretty_N_go_step in H by lia. by apply Hl in H.
Qed.

Lemma subject_digits ds rest :
  ds <> EmptyString -> chars_in digit_char ds = true ->
  match rest with EmptyString => True | String c _ => digit_char c = false end ->
  subject (ds +:+ rest) = Some (false, fst (Json.read_number 0 ds), rest).
Proof.
  intros Hne Hd Hr. destruct ds as [|c s]; [done|]. pose proof Hd as Hd'. cbn [chars_in] in Hd'.
  apply andb_true_iff in Hd' as [Hc _]. apply digit_no_space in Hc as (Hsp & Hm & Hp).
  unfold subject. rewrite append_cons at 1. cbn [span]. rewrite Hsp.
  rewrite !bool_decide_eq_false_2 by done. rewrite <-append_cons, span_app by done. done.
Qed.

Lemma subject_decimal n : 0 <= n -> subject (decimal n) = Some (false, n, EmptyString).
Proof.
  intros Hn. pose proof (subject_digits (decimal n) EmptyString (decimal_nonempty n) (decimal_digits n) I) as H.
  rewrite append_nil_r in H. by rewrite H, read_number_decimal_end.
Qed.

(** A printed number is read back. *)
Lemma strtol_decimal n : 0 <= n <= LONG_MAX -> strtol (decimal n) = (n, EmptyString).
Proof. intros Hn. unfold strtol. rewrite subject_decimal by lia. unfold LONG_MIN, LONG_MAX in *. f_equal. lia. Qed.

Lemma strtoull_decimal n : 0 <= n <= ULLONG_MAX -> strtoull (decimal n) = (n, EmptyString).
Proof.
  intros Hn. unfold strtoull. rewrite subject_decimal by lia. unfold ULLONG_MAX in *.
  destruct (_ <? _) eqn:E; [lia|done].
Qed.

Lemma read_number_pos l a : 0 <= a -> 0 <= fst (Json.read_number a l).
Proof.
  revert a. induction l as [|d l IH]; intros a Ha; [done|]. cbn [Json.read_number].
  destruct (Ascii.is_nat d); [apply IH; lia|done].
Qed.

Lemma strtoull_range s : 0 <= fst (strtoull s) <= ULLONG_MAX.
Proof.
  unfold strtoull. destruct (subject s) as [[[neg n] rest]|] eqn:E; [|by unfold ULLONG_MAX]. cbn [fst].
  assert (0 <= n).
  { unfold subject in E. destruct (span space_char s) as [? t]. destruct (match t with EmptyString => _ | String _ _ => _ end) as [neg' t'].
    destruct (span digit_char t') as [ds r]. destruct ds as [|c ds]; [done|]. injection E as _ <- _.
    exact (read_number_pos (String c ds) 0 ltac:(lia)). }
  destruct (ULLONG_MAX <? n) eqn:En; [by unfold ULLONG_MAX|]. unfold ULLONG_MAX in *. destruct neg; [|lia].
  pose proof (wrap_range 64 (- n) ltac:(lia)) as Hw. unfold in_range in Hw. lia.
Qed.

(** Blanks and signs are accepted, a minus wraps around, a large value saturates, an empty
    text leaves nothing and so looks converted. *)
Example strtoull_cases :
  strtoull " +7" = (7, "") /\ strtoull "-1" = (ULLONG_MAX, "") /\ strtoull "99999999999999999999" = (ULLONG_MAX, "") /\
  strtoull "" = (0, "") /\ strtoull " " = (0, " ") /\ strtoull "12x" = (12, "x").
Proof. vm_compute. done. Qed.

End CText.
