(* ===== verification/AsyncLogger.v ===== *)
(** The asynchronous logger of [src/logging/async_logger.cpp]: JSON lines with run and
    trace identifiers.  The logging library is not modelled: a logger object is its
    level, [should_log] is the documented comparison of levels, and what is handed
    to it is recorded.  The broken-down time is an input. *)

From S2P Require Import Prelude Float Text Json.
From stdpp Require Import strings.
From Stdlib Require Import Ascii.
Open Scope Z_scope.
Import Text.

Module AsyncLogger.

Inductive LogLevel := TRACE | DEBUG | INFO | WARN | ERROR | CRITICAL | OFF.

(** [spdlog::level::level_enum]. *)
Inductive level_enum := l_trace | l_debug | l_info | l_warn | l_err | l_critical | l_off.

Definition rank (l : level_enum) : Z :=
  match l with l_trace => 0 | l_debug => 1 | l_info => 2 | l_warn => 3 | l_err => 4 | l_critical => 5 | l_off => 6 end.

Definition to_spdlog_level (level : LogLevel) : level_enum :=
  match level with
  | TRACE => l_trace | DEBUG => l_debug | INFO => l_info | WARN => l_warn
  | ERROR => l_err | CRITICAL => l_critical | OFF => l_off
  end.

Definition level_to_json_string (lvl : level_enum) : string :=
  match lvl with
  | l_trace => "TRACE" | l_debug => "DEBUG" | l_info => "INFO" | l_warn => "WARN"
  | l_err => "ERROR" | l_critical => "CRITICAL" | l_off => "OFF"
  end.

(** [spdlog::logger::should_log]. *)
Definition should_log (lvl level : level_enum) : bool := rank level <=? rank lvl.

(** The broken-down time in UTC and the milliseconds since the epoch. *)
Record Time := mkTime {
  tm_year : Z; tm_mon : Z; tm_mday : Z; tm_hour : Z; tm_min : Z; tm_sec : Z; epoch_ms : Z
}.

(** [%04d-%02d-%02dT%02d:%02d:%02d.%03dZ]. *)
Definition timestamp (t : Time) : string :=
  pad 4 (decimal (tm_year t + 1900)) +:+ "-" +:+ pad 2 (decimal (tm_mon t + 1)) +:+ "-" +:+ pad 2 (decimal (tm_mday t))
    +:+ "T" +:+ pad 2 (decimal (tm_hour t)) +:+ ":" +:+ pad 2 (decimal (tm_min t)) +:+ ":" +:+ pad 2 (decimal (tm_sec t))
    +:+ "." +:+ pad 3 (decimal (epoch_ms t mod 1000)) +:+ "Z".

(** The loop over the message. *)
Fixpoint escape (msg : string) : string :=
  match msg with
  | EmptyString => EmptyString
  | String c msg =>
    (if bool_decide (c = ascii_of_nat 34) then "\" +:+ quote
     else if bool_decide (c = "\"%char) then "\\"
     else if bool_decide (c = "010"%char) then "\n"
     else String c EmptyString) +:+ escape msg
  end.

(** The static members; [logger_] is the level of the library's logger, if there is
    one, and [out_] what it was given. *)
Record State := mkState {
  logger_ : option level_enum;
  run_id_ : Z;
  current_level_ : LogLevel;
  out_ : list (level_enum * string);
}.

Definition State_init : State := mkState None 0 INFO [].

Definition build_json_line (t : Time) (level : level_enum) (run_id trace_id : Z) (module msg detail_json : string)
    : string :=
  "{" +:+ quote +:+ "ts" +:+ quote +:+ ":" +:+ quote +:+ timestamp t +:+ quote
  +:+ "," +:+ quote +:+ "level" +:+ quote +:+ ":" +:+ quote +:+ level_to_json_string level +:+ quote
  +:+ "," +:+ quote +:+ "run_id" +:+ quote +:+ ":" +:+ decimal run_id
  +:+ "," +:+ quote +:+ "trace_id" +:+ quote +:+ ":" +:+ decimal trace_id
  +:+ "," +:+ quote +:+ "module" +:+ quote +:+ ":" +:+ quote +:+ module +:+ quote
  +:+ "," +:+ quote +:+ "msg" +:+ quote +:+ ":" +:+ quote +:+ escape msg +:+ quote
  +:+ (if bool_decide (detail_json = EmptyString) then EmptyString
       else "," +:+ quote +:+ "detail" +:+ quote +:+ ":" +:+ detail_json)
  +:+ "}".

(** [sinks_open]: whether the library can be set up (an exception otherwise). *)
Definition initialize (sinks_open : bool) (level : LogLevel) (run_id : Z) (s : State) : bool * State :=
  if sinks_open then (true, mkState (Some (to_spdlog_level level)) run_id level (out_ s)) else (false, s).

Definition shutdown (s : State) : State := mkState None (run_id_ s) (current_level_ s) (out_ s).

Definition set_level (level : LogLevel) (s : State) : State :=
  mkState (match logger_ s with Some _ => Some (to_spdlog_level level) | None => None end)
    (run_id_ s) level (out_ s).

(** The body shared by [log_trace] to [log_critical] and [log_structured]. *)
Definition log_at (t : Time) (level : level_enum) (trace_id : Z) (module msg detail_json : string) (s : State) : State :=
  match logger_ s with
  | Some lvl =>
    if should_log level lvl
    then mkState (logger_ s) (run_id_ s) (current_level_ s)
           (out_ s ++ [(level, build_json_line t level (run_id_ s) trace_id module msg detail_json)])
    else s
  | None => s
  end.

Definition log_trace (t : Time) (trace_id : Z) (module msg : string) : State -> State :=
  log_at t l_trace trace_id module msg EmptyString.
Definition log_debug (t : Time) (trace_id : Z) (module msg : string) : State -> State :=
  log_at t l_debug trace_id module msg EmptyString.
Definition log_info (t : Time) (trace_id : Z) (module msg : string) : State -> State :=
  log_at t l_info trace_id module msg EmptyString.
Definition log_warn (t : Time) (trace_id : Z) (module msg : string) : State -> State :=
  log_at t l_warn trace_id module msg EmptyString.
Definition log_error (t : Time) (trace_id : Z) (module msg : string) : State -> State :=
  log_at t l_err trace_id module msg EmptyString.
Definition log_critical (t : Time) (trace_id : Z) (module msg : string) : State -> State :=
  log_at t l_critical trace_id module msg EmptyString.
Definition log_structured (t : Time) (level : LogLevel) (trace_id : Z) (module msg detail_json : string)
    : State -> State :=
  log_at t (to_spdlog_level level) trace_id module msg detail_json.

(** *** Laws *)

Import Json.

(** What the escaping of messages covers: every character but the control
    characters other than the line feed. *)
Definition message_char (c : Ascii.ascii) : bool := bool_decide (c = "010"%char) || negb (control_char c).

Lemma read_escape acc msg rest :
  chars_in message_char msg = true -> read_string acc (escape msg +:+ quote +:+ rest) = Some (acc +:+ msg, rest).
Proof.
  revert acc. induction msg as [|c msg IH]; intros acc; cbn [chars_in].
  - intros _. change (escape EmptyString) with EmptyString. by rewrite append_nil_r.
  - rewrite andb_true_iff. intros [Hc Hm]. cbn [escape]. rewrite append_assoc.
    transitivity (read_string (acc +:+ String c EmptyString) (escape msg +:+ quote +:+ rest)).
    2: { rewrite IH by done. by rewrite append_assoc. }
    unfold message_char in Hc. repeat case_bool_decide; subst; try done.
    apply read_string_char. unfold plain_char. rewrite !bool_decide_eq_false_2 by done. exact Hc.
Qed.

Lemma pad_plain k n : chars_in plain_char (pad k (decimal n)) = true.
Proof. eapply chars_in_mono; [apply digit_plain|apply pad_digits]. Qed.

Lemma timestamp_plain t : chars_in plain_char (timestamp t) = true.
Proof. unfold timestamp. by rewrite !chars_in_app, !pad_plain. Qed.

Lemma level_plain l : chars_in plain_char (level_to_json_string l) = true.
Proof. by destruct l. Qed.

Lemma read_value_decimal n rest : 0 <= n -> read_value (decimal n +:+ "," +:+ rest) = Some (JNumber n, "," +:+ rest).
Proof. intros. by apply read_value_number. Qed.

(** A line without details is a JSON object whose members are what was logged, if the
    module is plain text and the message has no control character but line feeds. *)
Lemma json_line_reads_back t level run_id trace_id module msg :
  0 <= run_id -> 0 <= trace_id -> chars_in plain_char module = true -> chars_in message_char msg = true ->
  read_object (build_json_line t level run_id trace_id module msg EmptyString) =
  Some [("ts", JString (timestamp t)); ("level", JString (level_to_json_string level)); ("run_id", JNumber run_id);
        ("trace_id", JNumber trace_id); ("module", JString module); ("msg", JString msg)].
Proof.
  intros Hr Ht Hmod Hmsg. unfold build_json_line. apply (read_object_members 6).
  { rewrite !length_append. cbn. lia. }
  erewrite read_members_next; [|done|by apply read_value_plain, timestamp_plain].
  erewrite read_members_next; [|done|by apply read_value_plain, level_plain].
  erewrite read_members_next; [|done|by apply read_value_decimal].
  erewrite read_members_next; [|done|by apply read_value_decimal].
  erewrite read_members_next; [|done|by apply read_value_plain].
  erewrite read_members_last; [done|done|]. apply read_value_string. by apply read_escape.
Qed.

(** A tab in a message gives a line that is no JSON object. *)
Example tab_breaks_line :
  read_object (build_json_line (mkTime 126 0 1 0 0 0 0) l_info 1 2 "m" ("a" +:+ String "009"%char "b") EmptyString) = None.
Proof. vm_compute. reflexivity. Qed.

(** Calls are written in order, each with its level, and exactly those at or above
    the level of the logger. *)
Lemma log_at_out t level trace_id module msg detail s :
  out_ (log_at t level trace_id module msg detail s) =
  out_ s ++ (match logger_ s with
             | Some lvl => if should_log level lvl
                           then [(level, build_json_line t level (run_id_ s) trace_id module msg detail)] else []
             | None => []
             end) /\
  logger_ (log_at t level trace_id module msg detail s) = logger_ s.
Proof.
  unfold log_at. destruct (logger_ s) as [lvl|] eqn:E; [destruct (should_log level lvl)|]; cbn; rewrite ?app_nil_r; auto.
Qed.

(** The level is the one set last, and the library's logger has it. *)
Lemma set_level_consistent level s :
  current_level_ (set_level level s) = level /\
  (is_Some (logger_ s) -> logger_ (set_level level s) = Some (to_spdlog_level level)).
Proof. split; [done|]. intros [l Hl]. unfold set_level. cbn. by rewrite Hl. Qed.

End AsyncLogger.
