(* ===== verification/Logger.v ===== *)
(** The logger of M01, [src/m01_receiver/monitoring/logger.cpp]: text or JSON.  The
    logging library is not modelled: a logger object is its sink, its level and its
    pattern, and what is handed to it is recorded.  The formatted time and the result
    of [snprintf] are inputs. *)

From S2P Require Import Prelude Float Text Json.
From stdpp Require Import strings.
From Stdlib Require Import Ascii.
Open Scope Z_scope.
Import Text.

Module Logger.

Inductive LogLevel := DEBUG | INFO | WARN | ERROR.

Definition rank (l : LogLevel) : Z := match l with DEBUG => 0 | INFO => 1 | WARN => 2 | ERROR => 3 end.

Definition to_level_name (l : LogLevel) : string :=
  match l with DEBUG => "DEBUG" | INFO => "INFO" | WARN => "WARN" | ERROR => "ERROR" end.

(** The patterns given to the library: the bare message, or time and level before
    it, with or without colour. *)
Inductive Pattern := PBare | PText | PColor.

(** [sink_file] is the file written to, if it is not the console. *)
Record State := mkState {
  current_level : LogLevel;
  json_format : bool;
  pattern : Pattern;
  sink_file : option string;
  library_level : LogLevel;
  out : list (LogLevel * Pattern * string);
}.

Definition Logger_init : State := mkState INFO false PColor None INFO [].

Definition initialize (level : LogLevel) (log_file : string) (s : State) : State :=
  if bool_decide (log_file = EmptyString)
  then mkState level (json_format s) PColor None level (out s)
  else mkState level (json_format s) PText (Some log_file) level (out s).

Definition set_level (level : LogLevel) (s : State) : State :=
  mkState level (json_format s) (pattern s) (sink_file s) level (out s).

Definition set_json_format (enabled : bool) (s : State) : State :=
  mkState (current_level s) enabled (if enabled then PBare else PColor) (sink_file s) (library_level s) (out s).

Definition is_enabled (level : LogLevel) (s : State) : bool := rank (current_level s) <=? rank level.

Fixpoint escape_json (input : string) : string :=
  match input with
  | EmptyString => EmptyString
  | String c input =>
    (if bool_decide (c = "\"%char) then "\\"
     else if bool_decide (c = ascii_of_nat 34) then "\" +:+ quote
     else if bool_decide (c = "010"%char) then "\n"
     else if bool_decide (c = "013"%char) then "\r"
     else if bool_decide (c = "009"%char) then "\t"
     else String c EmptyString) +:+ escape_json input
  end.

Definition hex_digit (n : Z) : string :=
  String.substring (Z.to_nat n) 1 "0123456789abcdef".

(** [0x] and two hexadecimal digits, then the other two in decimal. *)
Definition trace_id_of (source_id control_epoch seq_no : Z) : string :=
  "0x" +:+ hex_digit (source_id / 16) +:+ hex_digit (source_id mod 16)
    +:+ ":" +:+ decimal control_epoch +:+ ":" +:+ decimal seq_no.

Definition json_message (time : string) (level : LogLevel) (trace_id : option string) (message : string) : string :=
  "{" +:+ quote +:+ "time" +:+ quote +:+ ":" +:+ quote +:+ time +:+ quote
  +:+ "," +:+ quote +:+ "level" +:+ quote +:+ ":" +:+ quote +:+ to_level_name level +:+ quote
  +:+ "," +:+ quote +:+ "trace_id" +:+ quote +:+ ":" +:+ quote +:+ default EmptyString trace_id +:+ quote
  +:+ "," +:+ quote +:+ "msg" +:+ quote +:+ ":" +:+ quote +:+ escape_json message +:+ quote +:+ "}".

(** The message handed to the library is printed when its level is not below the
    library's. *)
Definition log (time : string) (level : LogLevel) (message : string) (trace_id : option string) (s : State) : State :=
  if negb (is_enabled level s) then s
  else
    let final_message :=
      if json_format s then json_message time level trace_id message
      else match trace_id with
           | Some (String c t) => "[trace_id=" +:+ String c t +:+ "] " +:+ message
           | _ => message
           end in
    if rank (library_level s) <=? rank level
    then mkState (current_level s) (json_format s) (pattern s) (sink_file s) (library_level s)
           (out s ++ [(level, pattern s, final_message)])
    else s.

(** [logf] and [logf_with_trace]: [formatted] is what [snprintf] gives; a message of
    no characters is not logged. *)
Definition logf (time : string) (level : LogLevel) (formatted : string) (trace_id : option string) (s : State) : State :=
  if bool_decide (formatted = EmptyString) then s else log time level formatted trace_id s.

(** *** Laws *)

Import Json.

Definition message_char (c : Ascii.ascii) : bool :=
  bool_decide (c = "010"%char) || bool_decide (c = "013"%char) || bool_decide (c = "009"%char) || negb (control_char c).

Lemma read_escape_json acc msg rest :
  chars_in message_char msg = true -> read_string acc (escape_json msg +:+ quote +:+ rest) = Some (acc +:+ msg, rest).
Proof.
  revert acc. induction msg as [|c msg IH]; intros acc; cbn [chars_in].
  - intros _. change (escape_json EmptyString) with EmptyString. by rewrite append_nil_r.
  - rewrite andb_true_iff. intros [Hc Hm]. cbn [escape_json]. rewrite append_assoc.
    transitivity (read_string (acc +:+ String c EmptyString) (escape_json msg +:+ quote +:+ rest)).
    2: { rewrite IH by done. by rewrite append_assoc. }
    unfold message_char in Hc. repeat case_bool_decide; subst; try done.
    apply read_string_char. unfold plain_char. rewrite !bool_decide_eq_false_2 by done. exact Hc.
Qed.

Lemma hex_digit_plain n : chars_in plain_char (hex_digit n) = true.
Proof. apply substring_in. vm_compute. reflexivity. Qed.

Lemma trace_id_plain a b c : chars_in plain_char (trace_id_of a b c) = true.
Proof.
  unfold trace_id_of. rewrite !chars_in_app, !hex_digit_plain.
  assert (forall n, chars_in plain_char (decimal n) = true) as ->; [|by rewrite (chars_in_mono _ _ _ digit_plain (decimal_digits c))].
  intros n. eapply chars_in_mono; [apply digit_plain|apply decimal_digits].
Qed.

(** A message logged in JSON, with the trace identifier of a packet or without
    one, is an object whose members are the time, the level, the identifier and the
    message itself; exactly the messages at or above the level are written. *)
Theorem json_log_reads_back time level message trace s :
  chars_in plain_char time = true -> chars_in message_char message = true -> json_format s = true ->
  library_level s = current_level s ->
  let trace_id := (fun '(a, b, c) => trace_id_of a b c) <$> trace in
  let s' := log time level message trace_id s in
  json_format s' = true /\ library_level s' = current_level s' /\
  (rank level < rank (current_level s) -> out s' = out s) /\
  (rank (current_level s) <= rank level ->
   exists line, out s' = out s ++ [(level, pattern s, line)] /\
     read_object line = Some [("time", JString time); ("level", JString (to_level_name level));
       ("trace_id", JString (default EmptyString trace_id)); ("msg", JString message)]).
Proof.
  intros Ht Hm Hj Hl trace_id. unfold log, is_enabled. rewrite Hl, Hj.
  destruct (Z.leb_spec (rank (current_level s)) (rank level)) as [Hle|Hlt]; cbn [negb].
  2: { split_and!; auto. lia. }
  cbn [json_format library_level current_level out]. split_and!; [done|done|lia|]. intros _. eexists. split; [done|].
  unfold json_message. apply (read_object_members 4); [rewrite !length_append; cbn; lia|].
  erewrite read_members_next; [|done|by apply read_value_plain].
  erewrite read_members_next; [|done|by apply read_value_plain; destruct level].
  erewrite read_members_next; [|done|].
  2: { apply read_value_plain. destruct trace as [[[a b] c]|]; [apply trace_id_plain|done]. }
  erewrite read_members_last; [done|done|]. apply read_value_string. by apply read_escape_json.
Qed.

Lemma json_log_reads_back_witness :
  let s' := log "2026-01-01T00:00:00Z" WARN ("drop " +:+ quote +:+ nl) (Some (trace_id_of 17 3 99))
              (set_json_format true Logger_init) in
  exists line, out s' = [(WARN, PBare, line)] /\
    read_object line = Some [("time", JString "2026-01-01T00:00:00Z"); ("level", JString "WARN");
      ("trace_id", JString "0x11:3:99"); ("msg", JString ("drop " +:+ quote +:+ nl))].
Proof.
  destruct (json_log_reads_back "2026-01-01T00:00:00Z" WARN ("drop " +:+ quote +:+ nl) (Some (17, 3, 99))
    (set_json_format true Logger_init) eq_refl eq_refl eq_refl eq_refl) as (_ & _ & _ & H).
  exact (H ltac:(done)).
Defined.

(** A logger that is initialised after JSON was asked for keeps writing JSON objects,
    but with the time and the level of the text pattern before each of them. *)
Example initialize_keeps_json :
  let s := initialize INFO "rx.log" (set_json_format true Logger_init) in
  json_format s = true /\ pattern s = PText.
Proof. done. Qed.

End Logger.
