(* ===== verification/ErrorCodes.v ===== *)
(** The error codes of [include/qdgz300/common/error_codes.h] and their names. *)

From S2P Require Import Prelude.
From stdpp Require Import strings.
Open Scope Z_scope.

Module ErrorCodes.

(** The enumerators with their values and the names [error_name] returns. *)
Definition error_table : list (Z * string) :=
  [(0, "OK"); (1001, "RECV_SOCKET_INIT_FAILED"); (1002, "RECV_BIND_FAILED");
   (1003, "RECV_AFFINITY_MISMATCH"); (1010, "RECV_MAGIC_MISMATCH"); (1011, "RECV_VERSION_MISMATCH");
   (1012, "RECV_PACKET_TYPE_UNKNOWN"); (1013, "RECV_PAYLOAD_LEN_MISMATCH"); (1014, "RECV_SOURCE_ID_INVALID");
   (1020, "RECV_CRC_FAILED"); (1030, "RECV_REASM_TIMEOUT"); (1031, "RECV_REASM_OVERSIZE");
   (1032, "RECV_REASM_TOTALFRAGS_EXCEED"); (1033, "RECV_LATE_FRAGMENT"); (1034, "RECV_DUPLICATE_FRAGMENT");
   (1040, "RECV_QUEUE_FULL"); (1050, "RECV_MEMORY_POOL_EXHAUSTED"); (2001, "GPU_STREAM_INIT_FAILED");
   (2010, "GPU_H2D_FAILED"); (2011, "GPU_KERNEL_LAUNCH_FAILED"); (2012, "GPU_D2H_FAILED");
   (2020, "GPU_COMPUTE_TIMEOUT"); (2021, "GPU_COMPUTE_TIMEOUT_PERSISTENT");
   (2030, "GPU_PINNED_ALLOC_FAILED"); (3001, "TRACK_ASSOCIATION_FAILED"); (3010, "TRACK_ID_OVERFLOW");
   (3020, "FUSION_HANDOVER_FAILED"); (4001, "GW_TCP_BIND_FAILED"); (4002, "GW_TCP_ACCEPT_FAILED");
   (4010, "GW_HANDSHAKE_FAILED"); (4020, "GW_SERIALIZE_FAILED"); (4021, "GW_TRUNCATED");
   (4030, "GW_UDP_SEND_FAILED"); (4040, "GW_OUTPUT_QUEUE_FULL"); (5001, "ORC_INVALID_TRANSITION");
   (5002, "ORC_TRANSITION_TOO_FAST"); (5010, "ORC_COMMAND_BRIDGE_TIMEOUT");
   (5011, "ORC_COMMAND_BRIDGE_MAX_RETRY"); (5020, "ORC_EVENT_THROTTLED"); (6001, "CFG_VALIDATION_FAILED");
   (6002, "CFG_FROZEN_PARAM_MODIFIED"); (6010, "CFG_SNAPSHOT_VERSION_CONFLICT"); (7001, "TIME_SYNC_LOST");
   (7002, "TIME_HOLDOVER_EXPIRED"); (8001, "HEALTH_BOOT_CHECK_FAILED"); (8002, "HEALTH_WARMUP_TIMEOUT");
   (8010, "HEALTH_RUNTIME_ANOMALY"); (9001, "MEMORY_POOL_EXHAUSTED"); (9002, "QUEUE_OVERFLOW_PERSISTENT");
   (9003, "INPUT_SENSOR_MISSING"); (9004, "REASM_TIMEOUT_VIOLATION")].

Definition error_name (code : Z) : string :=
  match list_find (fun e => e.1 = code) error_table with
  | Some (_, (_, n)) => n
  | None => "UNKNOWN"
  end.

(** Different codes have different names, and no code is called unknown. *)
Lemma error_name_inj c c' :
  c ∈ error_table.*1 -> c' ∈ error_table.*1 -> error_name c = error_name c' -> c = c'.
Proof.
  assert (forallb (fun a => forallb (fun b => bool_decide (error_name a = error_name b -> a = b)) error_table.*1)
    error_table.*1 = true) as H by (vm_compute; reflexivity).
  rewrite forallb_forall in H. intros Hc%list_elem_of_In Hc'%list_elem_of_In. specialize (H c Hc).
  rewrite forallb_forall in H. specialize (H c' Hc'). by apply bool_decide_eq_true in H.
Qed.

Lemma error_name_known c : c ∈ error_table.*1 -> error_name c <> "UNKNOWN".
Proof.
  assert (forallb (fun a => bool_decide (error_name a <> "UNKNOWN")) error_table.*1 = true) as H by (vm_compute; reflexivity).
  rewrite forallb_forall in H. intros Hc%list_elem_of_In. specialize (H c Hc). by apply bool_decide_eq_true in H.
Qed.

End ErrorCodes.
