(* ===== verification/NumaPool.v ===== *)
(** The object pool [NUMAPool] of [include/qdgz300/common/memory_pool.h]: slots of one
    block of memory, whose first word links the free ones.  A slot is known by its
    index; the word of a slot in use belongs to its user, who may write to it.  The
    exchange loops are taken as one step each; their interleaving is the one of
    [PacketPoolConcurrent], the code being the same. *)

From S2P Require Import Prelude PacketPool.
Import PacketPool.
Open Scope Z_scope.

Module NumaPool.

(** ** Definitions *)

(** [sizeof(FreeNode)] and [alignof(FreeNode)]: one pointer. *)
Definition FreeNode_SIZE : Z := 8.
Definition FreeNode_ALIGN : Z := 8.

Definition slot_bytes (sizeof_T : Z) : Z := if FreeNode_SIZE <? sizeof_T then sizeof_T else FreeNode_SIZE.
Definition slot_align (alignof_T : Z) : Z := if FreeNode_ALIGN <? alignof_T then alignof_T else FreeNode_ALIGN.

Definition aligned_slot (sizeof_T alignof_T : Z) : Z :=
  Z.land (slot_bytes sizeof_T + slot_align alignof_T - 1) (Z.lnot (slot_align alignof_T - 1)).

Record NUMAPool := mkNUMAPool {
  raw_memory_ : option Z;
  raw_size_ : Z;
  slot_size_ : Z;
  total_count_ : nat;
  free_head_ : option nat;
  available_ : nat;
  next_ : list (option nat);
}.

(** The loop of the constructor: slot [i] is linked to the slot before it. *)
Fixpoint link (i n : nat) (prev : option nat) : list (option nat) * option nat :=
  match n with
  | O => ([], prev)
  | S n => let '(ns, hd) := link (S i) n (Some i) in (prev :: ns, hd)
  end.

(** [memory] is what [numa_alloc] returns. *)
Definition NUMAPool_init (sizeof_T alignof_T : Z) (count : nat) (memory : option Z) : NUMAPool :=
  let slot := aligned_slot sizeof_T alignof_T in
  let raw_size := wrap 64 (slot * Z.of_nat count) in
  if raw_size =? 0 then mkNUMAPool None raw_size slot count None 0 []
  else match memory with
       | None => mkNUMAPool None raw_size slot 0 None 0 []
       | Some _ =>
         let '(ns, hd) := link 0 count None in
         mkNUMAPool memory raw_size slot count hd count ns
       end.

Definition slot_address (p : NUMAPool) (i : nat) : Z := default 0 (raw_memory_ p) + Z.of_nat i * slot_size_ p.

Definition allocate (p : NUMAPool) : option Z * NUMAPool :=
  match free_head_ p with
  | None => (None, p)
  | Some i =>
    (Some (slot_address p i),
     mkNUMAPool (raw_memory_ p) (raw_size_ p) (slot_size_ p) (total_count_ p) (default None (next_ p !! i))
       (available_ p - 1) (next_ p))
  end.

(** The slot of a pointer of the pool. *)
Definition slot_of (p : NUMAPool) (ptr : Z) : nat :=
  Z.to_nat ((ptr - default 0 (raw_memory_ p)) / slot_size_ p).

Definition deallocate (ptr : option Z) (p : NUMAPool) : NUMAPool :=
  match ptr with
  | None => p
  | Some a =>
    let i := slot_of p a in
    mkNUMAPool (raw_memory_ p) (raw_size_ p) (slot_size_ p) (total_count_ p) (Some i) (available_ p + 1)
      (<[i := free_head_ p]> (next_ p))
  end.

Definition available (p : NUMAPool) : nat := available_ p.
Definition total (p : NUMAPool) : nat := total_count_ p.

Definition owns (ptr : Z) (p : NUMAPool) : bool :=
  let base := default 0 (raw_memory_ p) in (base <=? ptr) && (ptr <? base + raw_size_ p).

(** The user of a slot writes to its first word. *)
Definition scribble (i : nat) (x : option nat) (p : NUMAPool) : NUMAPool :=
  mkNUMAPool (raw_memory_ p) (raw_size_ p) (slot_size_ p) (total_count_ p) (free_head_ p) (available_ p)
    (<[i := x]> (next_ p)).

(** ** The size of a slot *)

Lemma land_lnot_align x k : 0 <= k -> Z.land x (Z.lnot (2 ^ k - 1)) = x / 2 ^ k * 2 ^ k.
Proof.
  intros Hk. rewrite <-Z.ldiff_land.
  replace (2 ^ k - 1) with (Z.ones k) by (rewrite Z.ones_equiv; lia).
  rewrite Z.ldiff_ones_r by done. by rewrite Z.shiftr_div_pow2, Z.shiftl_mul_pow2.
Qed.

(** A slot holds an object and a link, and slots keep the alignment of both. *)
Lemma aligned_slot_ok sizeof_T k :
  0 < sizeof_T -> 0 <= k ->
  sizeof_T <= aligned_slot sizeof_T (2 ^ k) /\ FreeNode_SIZE <= aligned_slot sizeof_T (2 ^ k) /\
  (2 ^ k | aligned_slot sizeof_T (2 ^ k)) /\ (FreeNode_ALIGN | aligned_slot sizeof_T (2 ^ k)).
Proof.
  intros Hs Hk. unfold aligned_slot, slot_align, slot_bytes, FreeNode_ALIGN, FreeNode_SIZE.
  assert (exists j, (if 8 <? 2 ^ k then 2 ^ k else 8) = 2 ^ j /\ k <= j /\ 3 <= j) as (j & -> & Hkj & Hj).
  { destruct (Z.ltb_spec 8 (2 ^ k)) as [H|H].
    - exists k. split_and!; [done|lia|]. apply (Z.pow_lt_mono_r_iff 2 3 k) in H; lia.
    - exists 3. split_and!; [done| |lia]. apply (Z.pow_le_mono_r_iff 2 k 3); lia. }
  rewrite land_lnot_align by lia.
  assert (0 < 2 ^ j) by (apply Z.pow_pos_nonneg; lia).
  assert ((2 ^ k | 2 ^ j)) by (exists (2 ^ (j - k)); rewrite <-Z.pow_add_r by lia; f_equal; lia).
  assert ((8 | 2 ^ j)) by (exists (2 ^ (j - 3)); change 8 with (2 ^ 3); rewrite <-Z.pow_add_r by lia; f_equal; lia).
  set (s := if 8 <? sizeof_T then sizeof_T else 8).
  assert (sizeof_T <= s /\ 8 <= s) as [? ?] by (unfold s; case_tests; lia).
  pose proof (Z.div_mod (s + 2 ^ j - 1) (2 ^ j) ltac:(lia)). pose proof (Z.mod_pos_bound (s + 2 ^ j - 1) (2 ^ j) ltac:(lia)).
  split_and!; [lia|lia|by apply Z.divide_mul_r..].
Qed.

(** ** The first list *)

Lemma link_spec i n prev :
  let '(ns, hd) := link i n prev in
  length ns = n /\ hd = (if (n =? 0)%nat then prev else Some (i + n - 1)%nat) /\
  forall j, (j < n)%nat -> ns !! j = Some (if (j =? 0)%nat then prev else Some (i + j - 1)%nat).
Proof.
  revert i prev. induction n as [|n IH]; intros i prev; cbn [link]; [split_and!; [done|done|lia]|].
  specialize (IH (S i) (Some i)). destruct (link (S i) n (Some i)) as [ns hd]. destruct IH as (Hl & -> & Hj).
  split_and!; [cbn; by rewrite Hl| |].
  - cbn. destruct (Nat.eqb_spec n 0); f_equal; lia.
  - intros [|j] Hlt; [done|]. cbn [lookup list_lookup]. rewrite Hj by lia. cbn. destruct (Nat.eqb_spec j 0); do 2 f_equal; lia.
Qed.

Lemma link_chain n : chain (link 0 n None).1 (link 0 n None).2 (rev (seq 0 n)).
Proof.
  pose proof (link_spec 0 n None) as H. destruct (link 0 n None) as [ns hd]. cbn [fst snd].
  destruct H as (Hl & -> & Hj).
  assert (forall k, (k <= n)%nat -> chain ns (if (k =? 0)%nat then None else Some (0 + k - 1)%nat) (rev (seq 0 k))) as Hk;
    [|by apply Hk].
  induction k as [|k IH]; intros Hk; [done|]. rewrite seq_S, rev_app_distr. cbn [rev app chain Nat.eqb].
  split; [f_equal; lia|]. eexists. split; [apply Hj; lia|]. apply IH. lia.
Qed.

(** ** Any sequence of calls *)

Section Use.

Context (sizeof_T k : Z) (n : nat) (base : Z).
Hypothesis Hsize : 0 < sizeof_T.
Hypothesis Hk : 0 <= k.
Hypothesis Hn : (0 < n)%nat.
Hypothesis Hbase : 0 < base.
Hypothesis Hfit : base + aligned_slot sizeof_T (2 ^ k) * Z.of_nat n < 2 ^ 64.

Definition slot : Z := aligned_slot sizeof_T (2 ^ k).

(** The pool and the pointers in use, after any calls and any writes of the users
    to the slots they hold. *)
Inductive reach : NUMAPool -> list Z -> Prop :=
  | reach_init : reach (NUMAPool_init sizeof_T (2 ^ k) n (Some base)) []
  | reach_alloc p held a p' : reach p held -> allocate p = (Some a, p') -> reach p' (a :: held)
  | reach_exhausted p held p' : reach p held -> allocate p = (None, p') -> reach p' held
  | reach_free p l1 a l2 : reach p (l1 ++ a :: l2) -> reach (deallocate (Some a) p) (l1 ++ l2)
  | reach_free_null p held : reach p held -> reach (deallocate None p) held
  | reach_write p held a x : reach p held -> a ∈ held -> reach (scribble (slot_of p a) x p) held.

Record numa_inv (p : NUMAPool) (held : list Z) (fl hp : list nat) : Prop := {
  ni_mem : raw_memory_ p = Some base;
  ni_size : raw_size_ p = slot * Z.of_nat n;
  ni_slot : slot_size_ p = slot;
  ni_total : total_count_ p = n;
  ni_len : length (next_ p) = n;
  ni_chain : chain (next_ p) (free_head_ p) fl;
  ni_perm : fl ++ hp ≡ₚ seq 0 n;
  ni_held : held = (fun i => base + Z.of_nat i * slot) <$> hp;
  ni_avail : available_ p = length fl;
}.

Lemma slot_pos : 0 < slot.
Proof. pose proof (aligned_slot_ok sizeof_T k Hsize Hk). unfold slot, FreeNode_SIZE in *. lia. Qed.

Lemma numa_init : numa_inv (NUMAPool_init sizeof_T (2 ^ k) n (Some base)) [] (rev (seq 0 n)) [].
Proof.
  pose proof slot_pos. unfold slot in *. unfold NUMAPool_init. rewrite wrap_small by (unfold in_range; nia).
  destruct (Z.eqb_spec (aligned_slot sizeof_T (2 ^ k) * Z.of_nat n) 0); [nia|].
  pose proof (link_spec 0 n None) as Hs. pose proof (link_chain n) as Hc. destruct (link 0 n None) as [ns hd].
  constructor; cbn; try done; [apply Hs|rewrite app_nil_r; by rewrite <-Permutation_rev|by rewrite length_rev, length_seq].
Qed.

Lemma slot_of_address p held fl hp i :
  numa_inv p held fl hp -> slot_of p (base + Z.of_nat i * slot) = i.
Proof.
  intros I. pose proof slot_pos. unfold slot_of. rewrite (ni_mem _ _ _ _ I), (ni_slot _ _ _ _ I). cbn.
  replace (base + Z.of_nat i * slot - base) with (Z.of_nat i * slot) by lia. rewrite Z.div_mul by lia. lia.
Qed.

Lemma numa_nodup p held fl hp : numa_inv p held fl hp -> NoDup (fl ++ hp).
Proof. intros I. rewrite (ni_perm _ _ _ _ I). apply NoDup_seq. Qed.

Lemma numa_alloc_inv p held fl hp a p' :
  numa_inv p held fl hp -> allocate p = (Some a, p') -> exists i fl', fl = i :: fl' /\ numa_inv p' (a :: held) fl' (i :: hp).
Proof.
  intros I. unfold allocate. pose proof (ni_chain _ _ _ _ I) as Hc. destruct (free_head_ p) as [i|]; [|done]. intros [= <- <-].
  destruct fl as [|j fl]; [done|]. destruct Hc as ([= ->] & h & Hj & Hc). exists j, fl. split; [done|].
  destruct I. constructor; cbn; try done.
  - by rewrite Hj.
  - by rewrite <-Permutation_middle.
  - unfold slot_address. rewrite ni_mem0, ni_slot0. cbn. by rewrite ni_held0.
  - rewrite ni_avail0. cbn. lia.
Qed.

Lemma numa_free_inv p l1 a l2 fl hp :
  numa_inv p (l1 ++ a :: l2) fl hp ->
  exists i hp1 hp2, hp = hp1 ++ i :: hp2 /\ numa_inv (deallocate (Some a) p) (l1 ++ l2) (i :: fl) (hp1 ++ hp2).
Proof.
  intros I. pose proof (ni_held _ _ _ _ I) as Hh. symmetry in Hh.
  apply fmap_app_inv in Hh as (hp1 & hp' & -> & Hh & ->). symmetry in Hh.
  apply fmap_cons_inv in Hh as (i & hp2 & -> & -> & ->).
  exists i, hp1, hp2. split; [done|]. pose proof (numa_nodup _ _ _ _ I) as Hnd.
  pose proof (slot_of_address _ _ _ _ i I) as Hi. destruct I.
  assert (i < n)%nat as Hlt.
  { assert (i ∈ seq 0 n) as H by (rewrite <-ni_perm0; set_solver). apply elem_of_seq in H. lia. }
  unfold deallocate. rewrite Hi. constructor; cbn; try done.
  - by rewrite length_insert.
  - split; [done|]. exists (free_head_ p). split; [apply list_lookup_insert_eq; lia|].
    apply chain_insert; [|done]. apply NoDup_app in Hnd as (_ & Hd & _). intros Hin. apply (Hd i Hin). set_solver.
  - rewrite <-ni_perm0. by rewrite <-Permutation_middle, (assoc_L (++)), <-Permutation_middle, (assoc_L (++)).
  - by rewrite fmap_app.
  - lia.
Qed.

Lemma numa_write_inv p held fl hp a x :
  numa_inv p held fl hp -> a ∈ held -> numa_inv (scribble (slot_of p a) x p) held fl hp.
Proof.
  intros I Ha. pose proof (numa_nodup _ _ _ _ I) as Hnd. rewrite (ni_held _ _ _ _ I) in Ha.
  apply list_elem_of_fmap in Ha as (i & -> & Hi). rewrite (slot_of_address _ _ _ _ i I).
  destruct I. constructor; cbn; try done; [by rewrite length_insert|]. apply chain_insert; [|done].
  apply NoDup_app in Hnd as (_ & Hd & _). intros Hin. by apply (Hd i Hin).
Qed.

Lemma numa_reach_inv p held : reach p held -> exists fl hp, numa_inv p held fl hp.
Proof.
  induction 1 as [|p held a p' _ (fl & hp & I) Ha|p held p' _ (fl & hp & I) Ha|p l1 a l2 _ (fl & hp & I)
    |p held _ (fl & hp & I)|p held a x _ (fl & hp & I) Ha].
  - eexists _, _. apply numa_init.
  - destruct (numa_alloc_inv _ _ _ _ _ _ I Ha) as (i & fl' & _ & I'). eauto.
  - unfold allocate in Ha. destruct (free_head_ p); [done|]. injection Ha as <-. eauto.
  - destruct (numa_free_inv _ _ _ _ _ _ I) as (i & hp1 & hp2 & _ & I'). eauto.
  - eauto.
  - eauto using numa_write_inv.
Qed.

(** After any calls, and whatever the users write to their slots, the objects in
    use are aligned, lie inside the block and do not overlap; the count of free
    slots is exact; and an allocation fails exactly when all slots are in use. *)
Theorem numa_pool_exclusive p held :
  reach p held ->
  (forall a, a ∈ held -> base <= a /\ a + sizeof_T <= base + raw_size_ p /\ ((2 ^ k | base) -> (2 ^ k | a)) /\
     owns a p = true) /\
  (forall i j a b, held !! i = Some a -> held !! j = Some b -> i <> j -> a + sizeof_T <= b \/ b + sizeof_T <= a) /\
  (available p + length held = total p)%nat /\ total p = n /\
  (fst (allocate p) = None <-> length held = n).
Proof.
  intros (fl & hp & I)%numa_reach_inv. pose proof slot_pos as Hp. pose proof (numa_nodup _ _ _ _ I) as Hnd.
  destruct (aligned_slot_ok sizeof_T k Hsize Hk) as (Hs & _ & Hd & _). fold slot in Hs, Hd.
  assert (Hlen : (length fl + length hp = n)%nat).
  { rewrite <-length_app, (Permutation_length (ni_perm _ _ _ _ I)). apply length_seq. }
  assert (Hlt : forall i, i ∈ hp -> (i < n)%nat).
  { intros i Hi. assert (i ∈ seq 0 n) as H by (rewrite <-(ni_perm _ _ _ _ I); set_solver). apply elem_of_seq in H. lia. }
  apply NoDup_app in Hnd as (_ & _ & Hnd). unfold available, total, owns. destruct I. rewrite ni_mem0, ni_size0, ni_held0. cbn.
  split_and!.
  - intros a (i & -> & Hi%Hlt)%list_elem_of_fmap. rewrite andb_true_iff, Z.leb_le, Z.ltb_lt. split_and!; try nia.
    intros Hb. apply Z.divide_add_r; [done|]. by apply Z.divide_mul_r.
  - intros i j a b. rewrite !list_lookup_fmap. intros Ha Hb Hij.
    destruct (hp !! i) as [x|] eqn:Ex, (hp !! j) as [y|] eqn:Ey; try done. injection Ha as <-. injection Hb as <-.
    assert (x <> y) by (intros ->; apply Hij; by eapply NoDup_lookup). nia.
  - rewrite length_fmap. lia.
  - done.
  - rewrite length_fmap. unfold allocate. destruct fl as [|i fl]; cbn in ni_chain0.
    + rewrite ni_chain0. cbn in *. split; [lia|done].
    + destruct ni_chain0 as (-> & _). cbn in *. split; [done|lia].
Qed.

(** The first object is the last slot of the block. *)
Lemma first_allocation_is_last_slot :
  fst (allocate (NUMAPool_init sizeof_T (2 ^ k) n (Some base))) = Some (base + Z.of_nat (n - 1) * slot).
Proof.
  pose proof numa_init as I. unfold allocate. pose proof (ni_chain _ _ _ _ I) as Hc.
  assert (rev (seq 0 n) = (n - 1)%nat :: rev (seq 0 (n - 1))) as E.
  { replace n with (S (n - 1)) at 1 by lia. by rewrite seq_S, rev_app_distr. }
  rewrite E in Hc. destruct Hc as (-> & _). cbn [fst]. unfold slot_address.
  by rewrite (ni_mem _ _ _ _ I), (ni_slot _ _ _ _ I).
Qed.

End Use.

(** A pool of two objects of 12 bytes: one is taken, written to and returned. *)
Lemma numa_pool_exclusive_witness :
  exists p held, reach 12 2 2 4096 p held /\ held = [4096] /\
    (forall a, a ∈ held -> 4096 <= a /\ a + 12 <= 4096 + raw_size_ p /\ ((2 ^ 2 | 4096) -> (2 ^ 2 | a)) /\ owns a p = true) /\
    (forall i j a b, held !! i = Some a -> held !! j = Some b -> i <> j -> a + 12 <= b \/ b + 12 <= a) /\
    (available p + length held = total p)%nat /\ total p = 2%nat /\
    (fst (allocate p) = None <-> length held = 2%nat).
Proof.
  set (p0 := NUMAPool_init 12 (2 ^ 2) 2 (Some 4096)).
  set (p1 := snd (allocate p0)). set (p2 := scribble 1 (Some 77%nat) p1).
  set (p3 := snd (allocate p2)). set (p4 := deallocate (Some 4112) p3).
  assert (reach 12 2 2 4096 p4 [4096]) as R.
  { apply (reach_free 12 2 2 4096 p3 [4096] 4112 []).
    apply (reach_alloc 12 2 2 4096 p2 [4112] 4096 p3); [|reflexivity].
    apply (reach_write 12 2 2 4096 p1 [4112] 4112 (Some 77%nat)); [|by apply list_elem_of_here].
    apply (reach_alloc 12 2 2 4096 p0 [] 4112 p1); [|reflexivity]. apply reach_init. }
  exists p4, [4096]. split; [exact R|]. split; [reflexivity|].
  exact (numa_pool_exclusive 12 2 2 4096 ltac:(lia) ltac:(lia) ltac:(lia) ltac:(lia) ltac:(reflexivity) p4 [4096] R).
Defined.

End NumaPool.
