(* ===== verification/RawBlocks.v ===== *)
(** From ordered packets to raw blocks and to their consumer:
    [RawBlockAdapter] ([src/m01_receiver/delivery/rawblock_adapter.cpp]), [RawBlock]
    ([include/qdgz300/m01_receiver/delivery/raw_block.h]) and [StubConsumer]
    ([src/m01_receiver/delivery/stub_consumer.cpp]), over any drop-oldest queue.
    An operation on the queue is one step; the accesses inside it are interleaved in
    [SpscConcurrent]. *)

From S2P Require Import Prelude Protocol Reorderer SpscQueue.
From stdpp Require Import sorting.
Open Scope Z_scope.

Module RawBlocks.
Import Protocol Reorderer BoundedQueue.

(** ** Blocks *)

Definition RAW_BLOCK_PAYLOAD_SIZE : Z := 2 * 1024 * 1024.

Definition INCOMPLETE_FRAME : Z := 1.
Definition SNAPSHOT_PRESENT : Z := 2.
Definition HEARTBEAT_RELATED : Z := 4.

(** [blk_payload] are the leading bytes of the array; those behind them are zero, as
    [make_shared] leaves them. *)
Record RawBlock := mkRawBlock {
  blk_ingest_ts : Z;
  blk_data_ts : Z;
  blk_array_id : Z;
  blk_cpi_seq : Z;
  blk_fragment_count : Z;
  blk_data_size : Z;
  blk_flags : Z;
  blk_payload : bytes;
}.

Definition has_flag (b : RawBlock) (flag : Z) : bool := negb (Z.land (blk_flags b) flag =? 0).

(** The first [data_size] bytes of the array. *)
Definition blk_data (b : RawBlock) : bytes := resize (Z.to_nat (blk_data_size b)) 0 (blk_payload b).

(** ** [RawBlockAdapter] *)

(** The block of a packet; [now] is the steady clock in nanoseconds. *)
Definition adapt (now array_id : Z) (p : OrderedPacket) : RawBlock :=
  let size := out_payload_size p in
  let flags := if is_zero_filled p || is_incomplete_frame p then INCOMPLETE_FRAME else 0 in
  let copy_size := Z.min size RAW_BLOCK_PAYLOAD_SIZE in
  let payload := match owned_payload p with Some bs => take (Z.to_nat copy_size) bs | None => [] end in
  let truncated := RAW_BLOCK_PAYLOAD_SIZE <? size in
  mkRawBlock now (u64 (timestamp (header (packet p)) * 1000000)) array_id (out_sequence_number p) 1
    (if truncated then RAW_BLOCK_PAYLOAD_SIZE else u32 size)
    (if truncated then Z.lor flags INCOMPLETE_FRAME else flags) payload.

Section Consumer.

Context {Q : Type} `{BoundedQueue RawBlock Q}.

(** [adapt_and_push]; a null queue drops the packet. *)
Definition adapt_and_push (now array_id : Z) (p : OrderedPacket) (q : option Q) : option (bool * option Q) :=
  match q with
  | None => Some (false, None)
  | Some q => '(r, q) ← bq_push q (adapt now array_id p); Some (r, Some q)
  end.

Definition dropped_count (q : option Q) : Z := match q with Some q => bq_drops q | None => 0 end.

(** ** [StubConsumer] *)

Record StubConsumerStatistics := mkStats {
  total_blocks : Z;
  complete_frames : Z;
  incomplete_frames : Z;
  total_bytes : Z;
  last_cpi_seq : Z;
}.

(** [output] is what the output file holds, [None] for no open file. *)
Record StubConsumer := mkStubConsumer {
  write_to_file : bool;
  stats_interval_ms : Z;
  sc_queue : option Q;
  sc_stats : StubConsumerStatistics;
  period_blocks : Z;
  period_complete : Z;
  period_incomplete : Z;
  last_stats_time_ms : Z;
  output : option bytes;
}.

Definition header_layout : layout := [8; 8; 1; 4; 2; 4; 4]%nat.

Definition header_bytes (b : RawBlock) : bytes :=
  encode_fields header_layout
    [blk_ingest_ts b; blk_data_ts b; blk_array_id b; blk_cpi_seq b; blk_fragment_count b; blk_data_size b; blk_flags b].

(** [write] appends the first bytes of its argument, as many as its result says. *)
Definition append_written (r : Z) (data file : bytes) : bytes := file ++ take (Z.to_nat r) data.

(** [write_block_to_file]; [r] are the results of the two calls of [write]. *)
Definition write_block_to_file (r : Z * Z) (b : RawBlock) (file : bytes) : bytes :=
  let file := append_written (fst r) (header_bytes b) file in
  if negb (fst r =? 31) then file
  else if 0 <? blk_data_size b then append_written (snd r) (blk_data b) file
  else file.

Definition count_block (b : RawBlock) (s : StubConsumerStatistics) : StubConsumerStatistics :=
  let '(mkStats tb cf icf by_ _) := s in
  let inc := has_flag b INCOMPLETE_FRAME in
  mkStats (inc64 tb) (if inc then cf else inc64 cf) (if inc then inc64 icf else icf)
    (by_ +[64] blk_data_size b) (blk_cpi_seq b).

Definition process_block (r : Z * Z) (b : RawBlock) (c : StubConsumer) : StubConsumer :=
  let '(mkStubConsumer w si q st pb pc pi lt out) := c in
  let inc := has_flag b INCOMPLETE_FRAME in
  mkStubConsumer w si q (count_block b st) (inc64 pb) (if inc then pc else inc64 pc) (if inc then inc64 pi else pi) lt
    (if w then write_block_to_file r b <$> out else out).

(** What [print_statistics] logs: the counters of the period, the drops of the
    queue, the last sequence number (and the depth of the queue). *)
Definition print_statistics (c : StubConsumer) : option (list Z) * StubConsumer :=
  let '(mkStubConsumer w si q st pb pc pi lt out) := c in
  if pb =? 0 then (None, c)
  else (Some [pb; pc; pi; dropped_count q; last_cpi_seq st], mkStubConsumer w si q st 0 0 0 lt out).

(** One iteration of the loop of [run]; [now] is the system clock in milliseconds,
    [r] what [write] returns for a block. *)
Definition iterate (now : Z) (r : RawBlock -> Z * Z) (c : StubConsumer) : option (list Z) * StubConsumer :=
  let '(mkStubConsumer w si q st pb pc pi lt out) := c in
  let '(block, q) :=
    match q with Some q => let '(b, q) := bq_pop q in (b, Some q) | None => (None, None) end in
  let c := mkStubConsumer w si q st pb pc pi lt out in
  let c := match block with Some b => process_block (r b) b c | None => c end in
  if si <=? now -[64] lt then
    let '(line, mkStubConsumer w si q st pb pc pi _ out) := print_statistics c in
    (line, mkStubConsumer w si q st pb pc pi now out)
  else (None, c).

(** [start] of a new consumer; [opened] tells whether the output file can be opened
    ([O_TRUNC] empties it), and the result is [None] when it cannot. *)
Definition start (write_to_file : bool) (output_file_empty opened : bool) (interval now : Z) (q : option Q)
    : option StubConsumer :=
  if write_to_file && (output_file_empty || negb opened) then None
  else Some (mkStubConsumer write_to_file interval q (mkStats 0 0 0 0 0) 0 0 0 now
               (if write_to_file then Some [] else None)).

(** The packets of the face and the iterations of the consumer, in any order. *)
Inductive BlockOp :=
  | Deliver (now : Z) (p : OrderedPacket)
  | Iterate (now : Z) (r : RawBlock -> Z * Z).

Definition block_step (array_id : Z) (op : BlockOp) (c : StubConsumer) : option StubConsumer :=
  match op with
  | Deliver now p =>
    let '(mkStubConsumer w si q st pb pc pi lt out) := c in
    '(_, q) ← adapt_and_push now array_id p q;
    Some (mkStubConsumer w si q st pb pc pi lt out)
  | Iterate now r => Some (snd (iterate now r c))
  end.

Fixpoint run_blocks (array_id : Z) (ops : list BlockOp) (c : StubConsumer) : option StubConsumer :=
  match ops with
  | [] => Some c
  | op :: ops => c ← block_step array_id op c; run_blocks array_id ops c
  end.

End Consumer.

(** ** Reading the file back *)

Definition block_of_fields (vs : list Z) (data : bytes) : option RawBlock :=
  match vs with
  | [its; dts; aid; seq; fc; ds; fl] => Some (mkRawBlock its dts aid seq fc ds fl data)
  | _ => None
  end.

(** A reader of the file: headers and as many bytes as each says; [n] bounds the
    number of records. *)
Fixpoint read_file (n : nat) (file : bytes) : option (list RawBlock) :=
  match file with
  | [] => Some []
  | _ =>
    match n with
    | O => None
    | S n =>
      if (length file <? 31)%nat then None
      else
        let vs := decode_fields header_layout file in
        let size := Z.to_nat (nth 5 vs 0) in
        let rest := drop 31 file in
        if (length rest <? size)%nat then None
        else
          b ← block_of_fields vs (take size rest);
          bs ← read_file n (drop size rest);
          Some (b :: bs)
    end
  end.

(** *** Records *)

Definition block_ok (b : RawBlock) : Prop :=
  fields_ok header_layout
    [blk_ingest_ts b; blk_data_ts b; blk_array_id b; blk_cpi_seq b; blk_fragment_count b; blk_data_size b; blk_flags b].

(** The block with exactly its data as payload. *)
Definition stored (b : RawBlock) : RawBlock :=
  mkRawBlock (blk_ingest_ts b) (blk_data_ts b) (blk_array_id b) (blk_cpi_seq b) (blk_fragment_count b)
    (blk_data_size b) (blk_flags b) (blk_data b).

Definition record_bytes (b : RawBlock) : bytes := header_bytes b ++ blk_data b.

Lemma length_header_bytes b : length (header_bytes b) = 31%nat.
Proof. done. Qed.

Lemma length_blk_data b : length (blk_data b) = Z.to_nat (blk_data_size b).
Proof. apply length_resize. Qed.

Lemma read_file_step n file :
  (31 <= length file)%nat ->
  read_file (S n) file =
    let vs := decode_fields header_layout file in
    let size := Z.to_nat (nth 5 vs 0) in
    let rest := drop 31 file in
    if (length rest <? size)%nat then None
    else
      b ← block_of_fields vs (take size rest);
      bs ← read_file n (drop size rest);
      Some (b :: bs).
Proof.
  intros Hl. destruct file as [|x file]; cbn [length] in Hl; [lia|]. unfold read_file at 1; fold read_file.
  destruct (Nat.ltb_spec (length (x :: file)) 31) as [?|_]; [cbn [length] in *; lia|]. done.
Qed.

Lemma read_file_records bs n :
  Forall block_ok bs -> (length bs <= n)%nat -> read_file n (concat (record_bytes <$> bs)) = Some (stored <$> bs).
Proof.
  intros Hbs. revert n. induction Hbs as [|b bs Hb Hbs IH]; intros n Hn; [by destruct n|].
  destruct n as [|n]; cbn [length] in Hn; [lia|]. cbn [fmap list_fmap concat].
  unfold record_bytes at 1. rewrite <-app_assoc. set (rest := blk_data b ++ _).
  rewrite read_file_step by (rewrite length_app, length_header_bytes; lia). cbv zeta.
  assert (Hdec := decode_encode_fields header_layout _ rest Hb). fold (header_bytes b) in Hdec.
  rewrite Hdec. cbn [nth].
  rewrite drop_app_length' by done.
  destruct (Nat.ltb_spec (length rest) (Z.to_nat (blk_data_size b))) as [Hlt|_].
  { unfold rest in Hlt. rewrite length_app, length_blk_data in Hlt. lia. }
  unfold rest. rewrite take_app_length', drop_app_length' by (by rewrite length_blk_data).
  cbn [block_of_fields mbind option_bind]. rewrite IH by lia. done.
Qed.

(** What the two calls append for a block: the start of its record, and the whole record
    when both are complete. *)
Lemma write_block_appends r b file :
  exists part, write_block_to_file r b file = file ++ part /\ part `prefix_of` record_bytes b /\
    (r = (31, blk_data_size b) -> part = record_bytes b).
Proof.
  unfold write_block_to_file, append_written, record_bytes. destruct r as [h d]. cbn [fst snd].
  destruct (Z.eqb_spec h 31) as [->|Hne]; cbn [negb].
  - destruct (Z.ltb_spec 0 (blk_data_size b)) as [Hlt|Hle].
    + rewrite take_ge by done. exists (header_bytes b ++ take (Z.to_nat d) (blk_data b)). rewrite app_assoc.
      split_and!; [done|apply prefix_app, prefix_take|]. intros [= ->]. by rewrite take_ge by (by rewrite length_blk_data).
    + assert (blk_data b = []) as -> by (unfold blk_data; by rewrite Z2Nat.nonpos, resize_0 by done).
      exists (header_bytes b). rewrite app_nil_r, take_ge by done. by split_and!.
  - exists (take (Z.to_nat h) (header_bytes b)). split_and!; [done| |by intros [= ? _]].
    etrans; [apply prefix_take|by apply prefix_app_r].
Qed.

(** *** The consumer *)

Section ConsumerProps.

Context {Q : Type} `{BoundedQueue RawBlock Q}.

(** The statistics of the blocks processed. *)
Definition stats_of (bs : list RawBlock) : StubConsumerStatistics :=
  let inc := count_true ((fun b => has_flag b INCOMPLETE_FRAME) <$> bs) in
  mkStats (u64 (Z.of_nat (length bs))) (u64 (Z.of_nat (length bs - inc))) (u64 (Z.of_nat inc))
    (u64 (sumZ (blk_data_size <$> bs))) (default 0 (blk_cpi_seq <$> last bs)).

Definition full_write (op : BlockOp) : Prop :=
  match op with Iterate _ r => forall b, r b = (31, blk_data_size b) | Deliver _ _ => True end.

Definition adapted (array_id : Z) (op : BlockOp) : list RawBlock :=
  match op with Deliver now p => [adapt now array_id p] | Iterate _ _ => [] end.

(** The consumer has processed [done], and its file holds the starts of their records,
    the whole records if all writes were [full]. *)
Definition consumer_inv (full : Prop) (c : StubConsumer) (done pushed : list RawBlock) : Prop :=
  exists q parts, sc_queue c = Some q /\ bq_inv q /\ (done ++ bq_contents q) `sublist_of` pushed /\
    sc_stats c = stats_of done /\ write_to_file c = true /\ output c = Some (concat parts) /\
    Forall2 prefix parts (record_bytes <$> done) /\ (full -> parts = record_bytes <$> done).

Lemma count_block_stats b bs : count_block b (stats_of bs) = stats_of (bs ++ [b]).
Proof.
  unfold count_block, stats_of. rewrite !fmap_app, count_true_app, length_app, sumZ_app, last_snoc.
  pose proof (count_true_length ((fun b => has_flag b INCOMPLETE_FRAME) <$> bs)) as Hle. rewrite length_fmap in Hle.
  cbn [fmap list_fmap count_true length option_fmap option_map default from_option id sumZ foldr].
  set (n := count_true _) in *. set (t := sumZ _).
  destruct (has_flag b INCOMPLETE_FRAME); unfold inc64; rewrite !wrap_add_l by lia; f_equal; f_equal; cbn; lia.
Qed.

Lemma deliver_inv full array_id now p c done pushed :
  consumer_inv full c done pushed ->
  exists c', block_step array_id (Deliver now p) c = Some c' /\
    consumer_inv full c' done (pushed ++ [adapt now array_id p]).
Proof.
  intros (q & parts & Hq & Hi & Hsub & Hst & Hw & Hout & Hparts & Hfull). destruct c as [w si q0 st pb pc pi lt out].
  cbn in Hq, Hst, Hw, Hout. subst q0 st w out. cbn [block_step adapt_and_push].
  destruct (bq_push_law q (adapt now array_id p) Hi) as (r & q' & -> & Hi' & Hc & _). cbn [mbind option_bind].
  eexists. split; [reflexivity|]. exists q', parts. split_and!; try done.
  etrans; [apply sublist_app; [reflexivity|rewrite Hc; apply Fifo.push_drop_sublist]|].
  rewrite app_assoc. by apply sublist_app.
Qed.

(** The statistics line changes neither the queue nor the file. *)
Lemma iterate_inv (full : Prop) now r c done pushed :
  (full -> forall b, r b = (31, blk_data_size b)) -> consumer_inv full c done pushed ->
  exists done', consumer_inv full (iterate now r c).2 done' pushed.
Proof.
  intros Hr (q & parts & Hq & Hi & Hsub & Hst & Hw & Hout & Hparts & Hfull). destruct c as [w si q0 st pb pc pi lt out].
  cbn in Hq, Hst, Hw, Hout. subst q0 st w out. unfold iterate.
  destruct (bq_pop_law q Hi) as (Hi' & Hp & _). destruct (bq_pop q) as [block q']. cbn [fst snd] in *.
  assert (Hline : forall c done', consumer_inv full c done' pushed ->
    consumer_inv full (if si <=? now -[64] lt then
      let '(line, mkStubConsumer w si q st pb pc pi _ out) := print_statistics c in
      (line, mkStubConsumer w si q st pb pc pi now out) else (None, c)).2 done' pushed).
  { intros c done' Hc. destruct (si <=? now -[64] lt); [|done]. destruct c as [w2 si2 q2 st2 pb2 pc2 pi2 lt2 out2].
    unfold print_statistics. by destruct (pb2 =? 0). }
  destruct (bq_contents q) as [|b l] eqn:Ec; cbn [Fifo.fifo_pop] in Hp; injection Hp as -> Hc.
  - exists done. apply Hline. exists q', parts. cbn. rewrite Hc. by split_and!.
  - exists (done ++ [b]). apply Hline. unfold process_block.
    destruct (write_block_appends (r b) b (concat parts)) as (part & E & Hpre & Hall). exists q', (parts ++ [part]). cbn.
    rewrite Hc, <-app_assoc, E, concat_app, fmap_app. cbn. rewrite app_nil_r. split_and!; try done.
    + apply count_block_stats.
    + apply Forall2_app; [done|by repeat constructor].
    + intros Hf. by rewrite (Hfull Hf), (Hall (Hr Hf b)).
Qed.

Lemma run_blocks_inv (full : Prop) array_id ops : forall c done pushed,
  (full -> Forall full_write ops) -> consumer_inv full c done pushed ->
  exists c' done', run_blocks array_id ops c = Some c' /\
    consumer_inv full c' done' (pushed ++ (ops ≫= adapted array_id)).
Proof.
  induction ops as [|op ops IH]; intros c done pushed Hf Hc; cbn [run_blocks].
  - exists c, done. by rewrite app_nil_r.
  - assert (Hf' : full -> Forall full_write ops) by (by intros [_ ?]%Hf%Forall_cons). destruct op as [now p|now r].
    + destruct (deliver_inv full array_id now p c done pushed Hc) as (c1 & -> & Hc1). cbn [mbind option_bind].
      destruct (IH c1 _ _ Hf' Hc1) as (c' & done' & E & Hc'). exists c', done'. split; [done|].
      by rewrite bind_cons, app_assoc.
    + destruct (iterate_inv full now r c done pushed) as (done1 & Hc1); [by intros [? _]%Hf%Forall_cons|done|].
      destruct (IH _ _ _ Hf' Hc1) as (c' & done' & E & Hc'). by exists c', done'.
Qed.

(** A packet as the reorderer emits it: the fields fit their types. *)
Definition deliver_ok (array_id : Z) (op : BlockOp) : Prop :=
  match op with
  | Deliver now p => is_u64 now /\ is_u8 array_id /\ is_u32 (out_sequence_number p) /\ 0 <= out_payload_size p
  | Iterate _ _ => True
  end.

Lemma adapt_size_range now array_id p :
  0 <= out_payload_size p -> 0 <= blk_data_size (adapt now array_id p) <= RAW_BLOCK_PAYLOAD_SIZE /\
    blk_data_size (adapt now array_id p) = Z.min (out_payload_size p) RAW_BLOCK_PAYLOAD_SIZE.
Proof.
  intros Hp. unfold adapt, RAW_BLOCK_PAYLOAD_SIZE. cbn [blk_data_size].
  case_tests; [lia|]. rewrite wrap_small by (unfold in_range; lia). lia.
Qed.

Lemma adapt_flags now array_id p :
  blk_flags (adapt now array_id p) = 0 \/ blk_flags (adapt now array_id p) = 1.
Proof.
  unfold adapt, INCOMPLETE_FRAME. cbn [blk_flags].
  destruct (RAW_BLOCK_PAYLOAD_SIZE <? out_payload_size p), (is_zero_filled p || is_incomplete_frame p); cbn; auto.
Qed.

Lemma adapt_ok array_id now p :
  is_u64 now -> is_u8 array_id -> is_u32 (out_sequence_number p) -> 0 <= out_payload_size p ->
  block_ok (adapt now array_id p).
Proof.
  intros Hn Ha Hs Hp. destruct (adapt_size_range now array_id p Hp) as [Hsz _].
  pose proof (adapt_flags now array_id p) as Hfl. unfold RAW_BLOCK_PAYLOAD_SIZE in Hsz.
  unfold block_ok, header_layout, fields_ok. repeat apply Forall2_cons_2; [..|constructor];
    try done; try (unfold in_range; lia). apply wrap_range. lia.
Qed.

(** The block of a packet.  For a packet that owns [payload_size] bytes, the block
    carries the first 2 MB of them, its size is exactly the number of bytes carried,
    and it is flagged incomplete exactly when the packet is zero-filled or incomplete
    or did not fit. *)
Theorem adapt_carries_payload now array_id p bs
    (Hown : owned_payload p = Some bs) (Hsz : out_payload_size p = Z.of_nat (length bs)) :
  let b := adapt now array_id p in
  blk_data b = take (Z.to_nat RAW_BLOCK_PAYLOAD_SIZE) bs /\
  blk_data_size b = Z.of_nat (length (blk_data b)) /\ blk_data_size b <= RAW_BLOCK_PAYLOAD_SIZE /\
  has_flag b INCOMPLETE_FRAME =
    is_zero_filled p || is_incomplete_frame p || (RAW_BLOCK_PAYLOAD_SIZE <? Z.of_nat (length bs)) /\
  blk_cpi_seq b = out_sequence_number p /\ blk_array_id b = array_id.
Proof.
  intros b. destruct (adapt_size_range now array_id p ltac:(lia)) as [Hr Hm]. fold b in Hr, Hm.
  assert (Hd : blk_data b = take (Z.to_nat RAW_BLOCK_PAYLOAD_SIZE) bs).
  { unfold blk_data. rewrite Hm. unfold b, adapt. cbn [blk_payload]. rewrite Hown, Hsz.
    rewrite resize_all_alt; [|rewrite length_take; lia].
    destruct (decide (Z.of_nat (length bs) <= RAW_BLOCK_PAYLOAD_SIZE)).
    - rewrite !take_ge by lia. done.
    - f_equal. lia. }
  split_and!; [done| |lia| |done|done].
  - rewrite Hd, length_take, Hm, Hsz. lia.
  - unfold has_flag, b, adapt, INCOMPLETE_FRAME. cbn [blk_flags]. rewrite Hsz.
    destruct (RAW_BLOCK_PAYLOAD_SIZE <? Z.of_nat (length bs)), (is_zero_filled p || is_incomplete_frame p); done.
Qed.

Lemma adapted_ok array_id ops :
  Forall (deliver_ok array_id) ops -> Forall block_ok (ops ≫= adapted array_id).
Proof.
  induction 1 as [|op ops Hop _ IH]; [constructor|]. rewrite bind_cons. apply Forall_app. split; [|done].
  destruct op as [now p|]; [|constructor]. destruct Hop as (? & ? & ? & ?). apply Forall_singleton. by apply adapt_ok.
Qed.

Lemma length_records bs : (length bs <= length (concat (record_bytes <$> bs)))%nat.
Proof.
  induction bs as [|b bs IH]; [done|]. cbn [fmap list_fmap concat]. unfold record_bytes at 1.
  rewrite !length_app, length_header_bytes. cbn [length]. lia.
Qed.

(** C15: what the file of the consumer holds.  Packets are delivered and the consumer
    iterates in any order, over any drop-oldest queue, a push and a pop not
    overlapping, and [write] may write any part of what it is given.  The run does
    not block; the consumer processes blocks of packets delivered, in order and
    each at most once; the statistics are those of exactly these blocks; and the
    file is the concatenation of one start of the record of each, however many bytes
    the writes left out.  If every write is complete, the file reads back as the blocks
    processed, with their data. *)
Theorem consumer_file_roundtrip (q : Q) array_id ops interval now c
    (Hq : bq_inv q) (Hempty : bq_contents q = [])
    (Hstart : start true false true interval now (Some q) = Some c)
    (Hok : Forall (deliver_ok array_id) ops) :
  exists c' done file parts, run_blocks array_id ops c = Some c' /\ output c' = Some file /\
    done `sublist_of` (ops ≫= adapted array_id) /\ sc_stats c' = stats_of done /\
    file = concat parts /\ Forall2 prefix parts (record_bytes <$> done) /\
    (Forall full_write ops -> read_file (length file) file = Some (stored <$> done)).
Proof.
  injection Hstart as <-.
  destruct (run_blocks_inv (Forall full_write ops) array_id ops
    (mkStubConsumer true interval (Some q) (mkStats 0 0 0 0 0) 0 0 0 now (Some [])) [] [] id)
    as (c' & done & E & q' & parts & _ & _ & Hsub & Hst & _ & Hout & Hparts & Hfull).
  { exists q, []. rewrite Hempty. by split_and!. }
  cbn [app] in Hsub. assert (Hs : done `sublist_of` (ops ≫= adapted array_id)).
  { etrans; [|done]. by apply sublist_inserts_r. }
  exists c', done, (concat parts), parts. split_and!; try done. intros Hf. rewrite (Hfull Hf).
  apply read_file_records; [|apply length_records].
  apply list.Forall_forall. intros b Hb. pose proof (adapted_ok array_id ops Hok) as Ha.
  rewrite list.Forall_forall in Ha. apply Ha. by eapply elem_of_sublist.
Qed.

End ConsumerProps.

(** ** Witnesses *)

Module Demo.

Instance demo_bq : BoundedQueue RawBlock (SPSCQueue.SPSCQueue RawBlock) :=
  QueueInstances.SPSCQueue_bounded 4 3 1 (fun i => (i =? 0)%nat) ltac:(lia) eq_refl ltac:(lia).

Definition demo_packet (n : Z) : OrderedPacket :=
  mkOrderedPacket ParsedPacket_zero (Some [n; 2; 3]) 3 false (n =? 2) n.
Definition demo_queue := SPSCQueue.SPSCQueue_init 4 (adapt 0 1 (demo_packet 0)).
Definition all_written : RawBlock -> Z * Z := fun b => (31, blk_data_size b).
Definition demo_ops : list BlockOp :=
  [Deliver 5 (demo_packet 1); Deliver 6 (demo_packet 2); Iterate 1000 all_written; Iterate 3000 all_written].

End Demo.

Import Demo.

Lemma adapt_carries_payload_witness :
  blk_data (adapt 5 1 (demo_packet 2)) = take (Z.to_nat RAW_BLOCK_PAYLOAD_SIZE) [2; 2; 3] /\
  has_flag (adapt 5 1 (demo_packet 2)) INCOMPLETE_FRAME = true.
Proof.
  destruct (adapt_carries_payload 5 1 (demo_packet 2) [2; 2; 3] eq_refl eq_refl) as (Hd & _ & _ & Hf & _).
  split; [exact Hd|]. rewrite Hf. reflexivity.
Defined.

(** Two blocks, one of them incomplete. *)
Lemma consumer_file_roundtrip_witness :
  exists c c' done file, start true false true 1000 0 (Some demo_queue) = Some c /\
    run_blocks 1 demo_ops c = Some c' /\ output c' = Some file /\
    read_file (length file) file = Some (stored <$> done) /\
    sc_stats c' = mkStats 2 1 1 6 2.
Proof.
  assert (Hw : SPSCQueue.queue_wf 4 demo_queue /\ SPSCQueue.contents 4 demo_queue = [])
    by (apply SPSCQueue.init_wf; by exists 2).
  destruct (start true false true 1000 0 (Some demo_queue)) as [c|] eqn:Hs; [|discriminate].
  destruct (consumer_file_roundtrip (H := demo_bq) demo_queue 1 demo_ops 1000 0 c (proj1 Hw) (proj2 Hw) Hs)
    as (c' & done & file & parts & E & Ho & _ & _ & _ & _ & Hr).
  { repeat constructor; cbn; lia. }
  exists c, c', done, file. split_and!; try done; [apply Hr; by repeat constructor|].
  injection Hs as <-. vm_compute in E. injection E as <-. reflexivity.
Defined.

(** The first write stops inside the header: the file does not read back, although both
    blocks are counted. *)
Example short_write_breaks_file :
  match run_blocks (H := demo_bq) 1
      [Deliver 5 (demo_packet 1); Deliver 6 (demo_packet 2); Iterate 1000 (fun _ => (30, 0)); Iterate 3000 all_written]
      (mkStubConsumer true 1000 (Some demo_queue) (mkStats 0 0 0 0 0) 0 0 0 0 (Some [])) with
  | Some c => total_blocks (sc_stats c) = 2 /\ exists file, output c = Some file /\ read_file (length file) file = None
  | None => False
  end.
Proof. vm_compute. split; [reflexivity|]. eexists. split; reflexivity. Qed.

End RawBlocks.
