(* ===== verification/Delivery.v ===== *)
(** The delivery back ends ([src/m01_receiver/delivery/delivery_interface.cpp]):
    [CallbackDelivery], the ring of [SharedMemoryDelivery] and [UnixSocketDelivery].
    The lock of the shared ring makes a delivery one step. *)

From S2P Require Import Prelude Protocol Reorderer.
Open Scope Z_scope.

Module Delivery.
Import Protocol Reorderer.

Record Statistics := mkStatistics {
  delivered_packets : Z;
  delivery_errors : Z;
  bytes_delivered : Z;
}.

Definition Statistics_zero : Statistics := mkStatistics 0 0 0.

Definition inc_error (s : Statistics) : Statistics :=
  mkStatistics (delivered_packets s) (inc64 (delivery_errors s)) (bytes_delivered s).
Definition inc_delivered (n : Z) (s : Statistics) : Statistics :=
  mkStatistics (inc64 (delivered_packets s)) (delivery_errors s) (bytes_delivered s +[64] n).

Definition packet_payload_len (p : OrderedPacket) : Z := payload_len (header (packet p)).

(** ** [CallbackDelivery] *)

(** [calls] are the packets the callback was given. *)
Record CallbackDelivery := mkCallbackDelivery { callback_set : bool; calls : list OrderedPacket; cb_stats : Statistics }.

Definition callback_deliver (p : OrderedPacket) (d : CallbackDelivery) : bool * CallbackDelivery :=
  let '(mkCallbackDelivery set cs st) := d in
  if negb set then (false, mkCallbackDelivery set cs (inc_error st))
  else (true, mkCallbackDelivery set (cs ++ [p]) (inc_delivered (packet_payload_len p) st)).

(** ** [SharedMemoryDelivery] *)

Definition kMagic : Z := 0x53484D31.
Definition kVersion : Z := 1.
Definition kRecordMarker : Z := 0x52454344.
Definition kWrapMarker : Z := 0x57524150.

(** [RecordHeader]: marker, payload size, sequence number, zero-fill flag, reserved. *)
Definition RecordHeader_layout : layout := [4; 4; 4; 1; 3]%nat.
Definition sizeof_RecordHeader : Z := 16.

(** The ring and the two positions of the header. *)
Record ShmRing := mkShmRing { shm_ring : bytes; shm_head : Z; shm_tail : Z }.

Definition ring_size (r : ShmRing) : Z := Z.of_nat (length (shm_ring r)).

Definition used_space (head tail ring_size : Z) : Z :=
  if tail <=? head then head - tail else ring_size - (tail - head).

Definition free_space (head tail ring_size : Z) : Z := ring_size - used_space head tail ring_size - 1.

(** [memcpy] into a buffer; writing beyond its end would make it longer. *)
Definition splice (offset : nat) (src buf : bytes) : bytes :=
  take offset buf ++ src ++ drop (offset + length src) buf.

Definition write_ring (offset : Z) (src : bytes) (ring : bytes) : bytes :=
  let size := Z.of_nat (length ring) in
  if offset + Z.of_nat (length src) <=? size then splice (Z.to_nat offset) src ring
  else
    let first := Z.to_nat (size - offset) in
    splice 0 (drop first src) (splice (Z.to_nat offset) (take first src) ring).

Definition read_ring (offset : Z) (n : nat) (ring : bytes) : bytes :=
  let size := Z.of_nat (length ring) in
  if offset + Z.of_nat n <=? size then take n (drop (Z.to_nat offset) ring)
  else
    let first := Z.to_nat (size - offset) in
    take first (drop (Z.to_nat offset) ring) ++ take (n - first) ring.

Definition drop_oldest_unlocked (r : ShmRing) : bool * ShmRing :=
  let '(mkShmRing ring head tail) := r in
  if head =? tail then (false, r)
  else
    let rec := decode_fields RecordHeader_layout (read_ring tail 16 ring) in
    if nth 0 rec 0 =? kWrapMarker then (true, mkShmRing ring head 0)
    else if negb (nth 0 rec 0 =? kRecordMarker) then (false, mkShmRing ring head head)
    else (true, mkShmRing ring head ((tail + (sizeof_RecordHeader + nth 1 rec 0)) `mod` Z.of_nat (length ring))).

(** The loop that makes room, at most [fuel] iterations of it: [None] while it is
    still running.  It may run forever; [deliver_step] below is the loop without a bound. *)
Fixpoint make_room (fuel : nat) (required : Z) (r : ShmRing) : option (bool * ShmRing) :=
  if required <=? free_space (shm_head r) (shm_tail r) (ring_size r) then Some (true, r)
  else
    match fuel with
    | O => None
    | S fuel =>
      let '(ok, r) := drop_oldest_unlocked r in
      if (ok : bool) then make_room fuel required r else Some (false, r)
    end.

Definition record_header (marker size seq zero : Z) : bytes :=
  encode_fields RecordHeader_layout [marker; size; seq; zero; 0].

(** The wrap marker, when the record does not fit before the end. *)
Definition wrap_if_needed (required : Z) (r : ShmRing) : ShmRing :=
  let '(mkShmRing ring head tail) := r in
  let size := Z.of_nat (length ring) in
  if (size <? head + sizeof_RecordHeader) || (size <? head + required)
  then mkShmRing (write_ring head (record_header kWrapMarker 0 0 0) ring) 0 tail
  else r.

(** Header and payload at the head. *)
Definition put_record (p : OrderedPacket) (r : ShmRing) : ShmRing :=
  let '(mkShmRing ring head tail) := r in
  let size := Z.of_nat (length ring) in
  let n := packet_payload_len p in
  let ring := write_ring head
    (record_header kRecordMarker n (out_sequence_number p) (if is_zero_filled p then 1 else 0)) ring in
  let head := (head + sizeof_RecordHeader) `mod` size in
  match payload (packet p) with
  | Some bs =>
    if 0 <? n then mkShmRing (write_ring head (take (Z.to_nat n) bs) ring) ((head + n) `mod` size) tail
    else mkShmRing ring head tail
  | None => mkShmRing ring head tail
  end.

(** The object: [None] when it is not ready. *)
Record SharedMemoryDelivery := mkSharedMemoryDelivery { shm : option ShmRing; shm_stats : Statistics }.

(** The constructor: [header_size] is the size of the header on the platform, [mapped]
    whether the segment could be opened, sized and mapped; [existing] the ring of a segment that is
    initialised already. *)
Definition SharedMemoryDelivery_init (header_size : Z) (name_ok : bool) (mapped : bool) (shm_size : Z)
    (existing : option ShmRing) : SharedMemoryDelivery :=
  if negb name_ok || (shm_size <=? header_size + sizeof_RecordHeader + 1) || negb mapped
  then mkSharedMemoryDelivery None Statistics_zero
  else
    mkSharedMemoryDelivery
      (Some (default (mkShmRing (replicate (Z.to_nat (shm_size - header_size)) 0) 0 0) existing))
      Statistics_zero.

Definition shm_deliver (fuel : nat) (p : OrderedPacket) (d : SharedMemoryDelivery)
    : option (bool * SharedMemoryDelivery) :=
  let '(mkSharedMemoryDelivery s st) := d in
  match s with
  | None => Some (false, mkSharedMemoryDelivery s (inc_error st))
  | Some r =>
    let required := sizeof_RecordHeader + packet_payload_len p in
    if ring_size r <=? required then Some (false, mkSharedMemoryDelivery s (inc_error st))
    else
      '(ok, r) ← make_room fuel required r;
      if (ok : bool) then
        Some (true, mkSharedMemoryDelivery (Some (put_record p (wrap_if_needed required r)))
                      (inc_delivered (packet_payload_len p) st))
      else Some (false, mkSharedMemoryDelivery (Some r) (inc_error st))
  end.

Fixpoint shm_deliver_all (fuel : nat) (ps : list OrderedPacket) (d : SharedMemoryDelivery)
    : option (list bool * SharedMemoryDelivery) :=
  match ps with
  | [] => Some ([], d)
  | p :: ps =>
    '(ok, d) ← shm_deliver fuel p d;
    '(oks, d) ← shm_deliver_all fuel ps d;
    Some (ok :: oks, d)
  end.

(** ** [UnixSocketDelivery] *)

(** [next_reconnect] in nanoseconds, [None] for the minimal time point. *)
Record UnixSocketDelivery := mkUnix {
  reconnect_interval_ms : Z;
  current_backoff_ms : Z;
  next_reconnect : option Z;
  connected : bool;
  ux_stats : Statistics;
}.

(** What the system does: the results of [socket] and [connect], and the clock when a
    reconnection is scheduled. *)
Record ConnectInput := mkConnectInput { ci_now : Z; ci_path_empty : bool; ci_path_fits : bool; ci_socket : bool; ci_connect : bool; ci_later : Z }.

Definition schedule_reconnect (now : Z) (u : UnixSocketDelivery) : UnixSocketDelivery :=
  let '(mkUnix ri cb _ c st) := u in
  mkUnix ri (Z.min (u32 (cb * 2)) 5000) (Some (now + cb * 1000000)) c st.

Definition connect_with_backoff (i : ConnectInput) (u : UnixSocketDelivery) : bool * UnixSocketDelivery :=
  let '(mkUnix ri cb nr c st) := u in
  if ci_path_empty i then (false, u)
  else if match nr with Some t => ci_now i <? t | None => false end then (false, u)
  else
    let closed := mkUnix ri cb nr false st in
    if negb (ci_socket i) then (false, schedule_reconnect (ci_later i) closed)
    else if negb (ci_path_fits i) then (false, schedule_reconnect (ci_later i) closed)
    else if negb (ci_connect i) then (false, schedule_reconnect (ci_later i) closed)
    else (true, mkUnix ri (Z.max ri 1) None true st).

Definition UnixSocketDelivery_init (i : ConnectInput) (interval : Z) : UnixSocketDelivery :=
  snd (connect_with_backoff i (mkUnix (Z.max interval 1) (Z.max interval 1) None false Statistics_zero)).

Definition wire_of (p : OrderedPacket) : bytes :=
  let n := packet_payload_len p in
  le_store 4 n ++ le_store 4 0 ++
    match payload (packet p) with
    | Some bs => take (Z.to_nat n) bs
    | None => replicate (Z.to_nat n) 0
    end.

(** The result of [send]: everything sent, or [errno]. *)
Inductive SendResult := Sent | SendAgain | SendGone | SendOther.

Definition with_unix_stats (f : Statistics -> Statistics) (u : UnixSocketDelivery) : UnixSocketDelivery :=
  mkUnix (reconnect_interval_ms u) (current_backoff_ms u) (next_reconnect u) (connected u) (f (ux_stats u)).

(** [deliver]: the result, the datagram handed to the socket if there is one, and the new state. *)
Definition unix_deliver (i : ConnectInput) (sent : SendResult) (now : Z) (p : OrderedPacket) (u : UnixSocketDelivery)
    : bool * option bytes * UnixSocketDelivery :=
  let '(ok, u) := if connected u then (true, u) else connect_with_backoff i u in
  if negb ok then (false, None, with_unix_stats inc_error u)
  else
    match sent with
    | Sent => (true, Some (wire_of p), with_unix_stats (inc_delivered (packet_payload_len p)) u)
    | SendAgain | SendOther => (false, None, with_unix_stats inc_error u)
    | SendGone =>
      let closed := mkUnix (reconnect_interval_ms u) (current_backoff_ms u) (next_reconnect u) false (ux_stats u) in
      (false, None, with_unix_stats inc_error (schedule_reconnect now closed))
    end.

Definition unix_flush (u : UnixSocketDelivery) : option bytes * UnixSocketDelivery :=
  if negb (connected u) then (None, u)
  else (Some (le_store 4 0 ++ le_store 4 0xFFFFFFFF),
        mkUnix (reconnect_interval_ms u) (current_backoff_ms u) (next_reconnect u) false (ux_stats u)).

(** ** The ring stays within its memory *)

(** What a caller passes: the payload pointer has the bytes its header announces. *)
Definition packet_ok (p : OrderedPacket) : Prop :=
  is_u16 (packet_payload_len p) /\ is_u32 (out_sequence_number p) /\
  forall bs, payload (packet p) = Some bs -> packet_payload_len p <= Z.of_nat (length bs).

Definition ring_inv (size : Z) (r : ShmRing) : Prop :=
  ring_size r = size /\ 16 < size /\ 0 <= shm_head r < size /\ 0 <= shm_tail r < size.

Lemma length_splice offset src buf :
  (offset + length src <= length buf)%nat -> length (splice offset src buf) = length buf.
Proof. intros. unfold splice. rewrite !length_app, length_take, length_drop. lia. Qed.

Lemma length_write_ring offset src ring :
  0 <= offset <= Z.of_nat (length ring) -> (length src <= length ring)%nat ->
  length (write_ring offset src ring) = length ring.
Proof.
  intros Ho Hs. unfold write_ring. case_tests.
  - apply length_splice. lia.
  - rewrite !length_splice; rewrite ?length_splice, ?length_take, ?length_drop; try lia.
    all: rewrite ?length_take; lia.
Qed.

Lemma drop_oldest_inv size r : ring_inv size r -> ring_inv size (drop_oldest_unlocked r).2.
Proof.
  intros (Hs & H16 & Hh & Ht). destruct r as [ring head tail]. unfold ring_size in Hs. cbn in Hs, Hh, Ht.
  unfold drop_oldest_unlocked. case_tests; cbn [negb snd]; unfold ring_inv, ring_size; cbn [shm_ring shm_head shm_tail];
    (split; [|split; [|split]]); try lia. rewrite <-Hs. apply Z.mod_pos_bound. lia.
Qed.

Lemma wrap_if_needed_inv size required r : ring_inv size r -> ring_inv size (wrap_if_needed required r).
Proof.
  intros (Hs & H16 & Hh & Ht). destruct r as [ring head tail]. unfold ring_size in Hs. cbn in Hs, Hh, Ht.
  unfold wrap_if_needed. destruct (_ || _); unfold ring_inv, ring_size; cbn [shm_ring shm_head shm_tail];
    split_and!; try lia. rewrite length_write_ring; [lia|lia|]. change (length (record_header _ _ _ _)) with 16%nat. lia.
Qed.

Lemma put_record_inv size p r :
  packet_ok p -> sizeof_RecordHeader + packet_payload_len p < size -> ring_inv size r -> ring_inv size (put_record p r).
Proof.
  intros (Hl & Hq & Hb) Hreq (Hs & H16 & Hh & Ht). destruct r as [ring head tail]. unfold ring_size in Hs. cbn in Hs, Hh, Ht.
  unfold put_record. set (hdr := record_header _ _ _ _).
  unfold sizeof_RecordHeader, in_range in *.
  assert (Hlen : length (write_ring head hdr ring) = length ring)
    by (apply length_write_ring; [lia|unfold hdr; change (length (record_header _ _ _ _)) with 16%nat; lia]).
  assert (Hm : forall x, 0 <= x `mod` Z.of_nat (length ring) < size) by (intros x; rewrite <-Hs; apply Z.mod_pos_bound; lia).
  destruct (payload (packet p)) as [bs|]; [case_tests|]; unfold ring_inv, ring_size; cbn [shm_ring shm_head shm_tail];
    (split; [|split; [|split]]); try lia; try apply Hm.
  rewrite length_write_ring; rewrite ?Hlen; try lia.
  - specialize (Hm (head + 16)). lia.
  - rewrite length_take. lia.
Qed.

(** *** Every access of a delivery *)

(** The ranges of one call of [write_ring] or [read_ring]. *)
Definition copies (offset n size : Z) : list (Z * Z) :=
  if offset + n <=? size then [(offset, n)] else [(offset, size - offset); (0, n - (size - offset))].

Definition required_space (p : OrderedPacket) : Z := sizeof_RecordHeader + packet_payload_len p.

(** The ranges of the ring written when there is room. *)
Definition stored_ranges (p : OrderedPacket) (r : ShmRing) : list (Z * Z) :=
  let size := ring_size r in
  let required := required_space p in
  let wraps := (size <? shm_head r + sizeof_RecordHeader) || (size <? shm_head r + required) in
  let head := if wraps then 0 else shm_head r in
  (if wraps then copies (shm_head r) sizeof_RecordHeader size else []) ++
  copies head sizeof_RecordHeader size ++
  match payload (packet p) with
  | Some _ =>
    if 0 <? packet_payload_len p then copies ((head + sizeof_RecordHeader) `mod` size) (packet_payload_len p) size else []
  | None => []
  end.

(** One iteration of the loop, or the store behind it: the ring, the packet if the
    loop goes on, and the ranges of the ring accessed. *)
Definition loop_iteration (p : OrderedPacket) (r : ShmRing) : ShmRing * option OrderedPacket * list (Z * Z) :=
  if required_space p <=? free_space (shm_head r) (shm_tail r) (ring_size r)
  then (put_record p (wrap_if_needed (required_space p) r), None, stored_ranges p r)
  else
    let '(ok, r') := drop_oldest_unlocked r in
    (r', if (ok : bool) then Some p else None,
     if shm_head r =? shm_tail r then [] else copies (shm_tail r) sizeof_RecordHeader (ring_size r)).

(** Deliveries one after the other: the packet being delivered, and all ranges
    accessed so far. *)
Record Deliveries := mkDeliveries { dv_ring : ShmRing; delivering : option OrderedPacket; accessed : list (Z * Z) }.

Inductive deliver_step : Deliveries -> Deliveries -> Prop :=
  | deliver_begins p r t :
      packet_ok p -> required_space p < ring_size r -> deliver_step (mkDeliveries r None t) (mkDeliveries r (Some p) t)
  | deliver_iterates p r t r' next a :
      loop_iteration p r = (r', next, a) -> deliver_step (mkDeliveries r (Some p) t) (mkDeliveries r' next (t ++ a)).

(** A range inside the ring. *)
Definition within (size : Z) (a : Z * Z) : Prop := 0 <= fst a /\ 0 <= snd a /\ fst a + snd a <= size.

Record deliveries_inv (size : Z) (s : Deliveries) : Prop := {
  dvi_ring : ring_inv size (dv_ring s);
  dvi_packet : forall p, delivering s = Some p -> packet_ok p /\ required_space p < size;
  dvi_accessed : Forall (within size) (accessed s);
}.

Lemma copies_within offset n size : 0 <= offset <= size -> 0 <= n <= size -> Forall (within size) (copies offset n size).
Proof. intros. unfold copies. case_tests; repeat constructor; cbn; lia. Qed.

Lemma stored_ranges_within size p r :
  packet_ok p -> required_space p < size -> ring_inv size r -> Forall (within size) (stored_ranges p r).
Proof.
  intros (Hl & _) Hreq (Hs & H16 & Hh & Ht). unfold stored_ranges, required_space, sizeof_RecordHeader, in_range in *. rewrite Hs.
  assert (Hm : forall x, 0 <= x `mod` size < size) by (intros x; apply Z.mod_pos_bound; lia).
  assert (Hc : forall x n, 0 <= n <= size -> Forall (within size) (copies (x `mod` size) n size)).
  { intros x n Hn. apply copies_within; [|done]. specialize (Hm x). lia. }
  destruct (_ || _); repeat (apply Forall_app; split); try (apply copies_within; lia); try constructor.
  all: destruct (payload (packet p)); [|constructor]; case_tests; [|constructor]; apply Hc; lia.
Qed.

Lemma deliver_step_inv size s s' : deliveries_inv size s -> deliver_step s s' -> deliveries_inv size s'.
Proof.
  intros [Hr Hp Ha] Hst. destruct Hst as [p r t Hok Hreq|p r t r' next a Hit]; cbn [dv_ring delivering accessed] in *.
  - split; cbn; [done| |done]. intros p' [= <-]. destruct Hr as [<- _]. done.
  - destruct (Hp p eq_refl) as [Hok Hreq]. unfold loop_iteration in Hit. destruct (_ <=? _).
    + injection Hit as <- <- <-. split; cbn; [by apply put_record_inv, wrap_if_needed_inv|done|].
      apply Forall_app. split; [done|by apply stored_ranges_within].
    + pose proof (drop_oldest_inv size r Hr) as Hd. destruct (drop_oldest_unlocked r) as [ok r1]. cbn [snd] in Hd.
      injection Hit as <- <- <-. split; cbn; [done|by destruct ok; intros p' [= <-]|].
      apply Forall_app. split; [done|]. destruct Hr as (Hs & H16 & Hh & Ht). rewrite Hs. destruct (_ =? _); [constructor|].
      apply copies_within; [lia|]. unfold sizeof_RecordHeader. lia.
Qed.

Lemma deliveries_reachable_inv size s s' : deliveries_inv size s -> rtc deliver_step s s' -> deliveries_inv size s'.
Proof. intros Hs Hr. induction Hr as [|s1 s2 s3 H1 _ IH]; [done|]. apply IH. by eapply deliver_step_inv. Qed.

(** [make_room] is a run of the loop. *)
Lemma make_room_steps fuel p : forall r ok r' t,
  make_room fuel (required_space p) r = Some (ok, r') ->
  exists t', rtc deliver_step (mkDeliveries r (Some p) t)
    (mkDeliveries (if (ok : bool) then put_record p (wrap_if_needed (required_space p) r') else r') None t').
Proof.
  induction fuel as [|fuel IH]; intros r ok r' t; cbn [make_room].
  all: destruct (required_space p <=? free_space (shm_head r) (shm_tail r) (ring_size r)) eqn:Ef;
    [intros [= <- <-]; eexists; apply rtc_once, deliver_iterates; unfold loop_iteration; by rewrite Ef|].
  - done.
  - destruct (drop_oldest_unlocked r) as [[] r1] eqn:Ed; intros Hm.
    + destruct (IH r1 ok r' (t ++ (if shm_head r =? shm_tail r then [] else copies (shm_tail r) sizeof_RecordHeader (ring_size r))) Hm)
        as (t' & Hr). exists t'. eapply rtc_l; [|exact Hr]. apply deliver_iterates. unfold loop_iteration. by rewrite Ef, Ed.
    + injection Hm as <- <-. eexists. apply rtc_once, deliver_iterates. unfold loop_iteration. by rewrite Ef, Ed.
Qed.

Lemma shm_deliver_steps fuel p r st ok d' t :
  packet_ok p -> shm_deliver fuel p (mkSharedMemoryDelivery (Some r) st) = Some (ok, d') ->
  exists r' t', shm d' = Some r' /\ rtc deliver_step (mkDeliveries r None t) (mkDeliveries r' None t').
Proof.
  intros Hp. cbn [shm_deliver]. fold (required_space p). destruct (Z.leb_spec (ring_size r) (required_space p)) as [|Hreq].
  { intros [= <- <-]. by eexists _, _. }
  destruct (make_room fuel (required_space p) r) as [[ok1 r1]|] eqn:E; cbn [mbind option_bind]; [|done].
  destruct (make_room_steps fuel p r ok1 r1 t E) as (t' & Hr).
  destruct ok1; intros [= <- <-]; eexists _, t'; (split; [done|]); (eapply rtc_l; [by apply deliver_begins|exact Hr]).
Qed.

Lemma shm_deliver_all_steps fuel ps : forall r st oks d' t,
  Forall packet_ok ps -> shm_deliver_all fuel ps (mkSharedMemoryDelivery (Some r) st) = Some (oks, d') ->
  exists r' t', shm d' = Some r' /\ rtc deliver_step (mkDeliveries r None t) (mkDeliveries r' None t').
Proof.
  induction ps as [|p ps IH]; intros r st oks d' t Hps; cbn [shm_deliver_all]; [by intros [= <- <-]; eexists _, _|].
  inversion Hps as [|? ? Hp Hps']; subst.
  destruct (shm_deliver fuel p _) as [[ok [s1 st1]]|] eqn:E; cbn [mbind option_bind]; [|done].
  destruct (shm_deliver_steps fuel p r st ok _ t Hp E) as (r1 & t1 & E1 & Hr1). cbn [shm] in E1. subst s1.
  destruct (shm_deliver_all fuel ps _) as [[oks1 d2]|] eqn:E2; cbn [mbind option_bind]; [|done]. intros [= <- <-].
  destruct (IH r1 st1 oks1 d2 t1 Hps' E2) as (r' & t' & ? & ?). exists r', t'. split; [done|by etrans].
Qed.

(** ** Reading the ring *)

(** A consumer of the ring: the records from the tail to the head; [n] bounds their number. *)
Fixpoint read_records (n : nat) (r : ShmRing) : option (list (Z * bool * bytes)) :=
  let '(mkShmRing ring head tail) := r in
  if head =? tail then Some []
  else
    match n with
    | O => None
    | S n =>
      match decode_fields RecordHeader_layout (read_ring tail 16 ring) with
      | [marker; size; seq; zero; _] =>
        if marker =? kWrapMarker then read_records n (mkShmRing ring head 0)
        else if negb (marker =? kRecordMarker) then None
        else
          let at_ := (tail + 16) `mod` Z.of_nat (length ring) in
          rest ← read_records n (mkShmRing ring head ((at_ + size) `mod` Z.of_nat (length ring)));
          Some ((seq, negb (zero =? 0), read_ring at_ (Z.to_nat size) ring) :: rest)
      | _ => None
      end
    end.

(** What a packet leaves in the ring. *)
Definition packet_data (p : OrderedPacket) : bytes :=
  match payload (packet p) with Some bs => take (Z.to_nat (packet_payload_len p)) bs | None => [] end.

Definition packet_header (p : OrderedPacket) : bytes :=
  record_header kRecordMarker (packet_payload_len p) (out_sequence_number p) (if is_zero_filled p then 1 else 0).

Definition packet_bytes (p : OrderedPacket) : bytes := packet_header p ++ packet_data p.

Definition packet_record (p : OrderedPacket) : Z * bool * bytes :=
  (out_sequence_number p, is_zero_filled p, packet_data p).

(** The payload is there, unless its length is 0. *)
Definition packet_full (p : OrderedPacket) : Prop :=
  packet_ok p /\ Z.of_nat (length (packet_data p)) = packet_payload_len p.

Lemma splice_app pre src post :
  splice (length pre) src (pre ++ post) = pre ++ src ++ drop (length src) post.
Proof. unfold splice. rewrite take_app_length, drop_app_add. done. Qed.

Lemma write_ring_app pre src post :
  (length src <= length post)%nat ->
  write_ring (Z.of_nat (length pre)) src (pre ++ post) = pre ++ src ++ drop (length src) post.
Proof.
  intros Hl. unfold write_ring. rewrite length_app. case_tests; [|lia]. rewrite Nat2Z.id. apply splice_app.
Qed.

Lemma read_ring_app pre mid post :
  read_ring (Z.of_nat (length pre)) (length mid) (pre ++ mid ++ post) = mid.
Proof.
  unfold read_ring. rewrite !length_app. case_tests; [|lia].
  by rewrite Nat2Z.id, drop_app_length, take_app_length.
Qed.

(** A record at the head of a ring that has room behind it. *)
Lemma put_record_app p pre post :
  packet_full p -> (length (packet_bytes p) < length post)%nat ->
  put_record p (mkShmRing (pre ++ post) (Z.of_nat (length pre)) 0) =
    mkShmRing ((pre ++ packet_bytes p) ++ drop (length (packet_bytes p)) post)
      (Z.of_nat (length (pre ++ packet_bytes p))) 0.
Proof.
  intros [(Hl & _ & _) Hd] Hlen. unfold packet_bytes in *. rewrite !length_app in *.
  change (length (packet_header p)) with 16%nat in *.
  unfold put_record. fold (packet_header p).
  rewrite write_ring_app by (change (length (packet_header p)) with 16%nat; lia).
  change (length (packet_header p)) with 16%nat. unfold sizeof_RecordHeader.
  assert (Hmod : forall x, 0 <= x < Z.of_nat (length pre + length post) ->
    x `mod` Z.of_nat (length (pre ++ post)) = x) by (intros; rewrite length_app; by apply Z.mod_small).
  rewrite !Hmod by lia.
  assert (Hat : Z.of_nat (length pre) + 16 = Z.of_nat (length (pre ++ packet_header p)))
    by (rewrite length_app; change (length (packet_header p)) with 16%nat; lia).
  unfold packet_data in *. destruct (payload (packet p)) as [bs|]; [destruct (Z.ltb_spec 0 (packet_payload_len p))|].
  - rewrite Hat. rewrite (app_assoc pre). rewrite write_ring_app by (rewrite length_drop; lia).
    rewrite <-!app_assoc, drop_drop. f_equal. lia.
  - assert (packet_payload_len p = 0) as Hz by (unfold in_range in Hl; lia). rewrite Hz in *. cbn [Z.to_nat take length].
    rewrite app_nil_r, <-app_assoc, Nat.add_0_r. f_equal. lia.
  - cbn [length]. rewrite app_nil_r, <-app_assoc, Nat.add_0_r. f_equal. lia.
Qed.

Definition packets_bytes (ps : list OrderedPacket) : bytes := concat (packet_bytes <$> ps).

Lemma record_header_decode marker size seq zero :
  fields_ok RecordHeader_layout [marker; size; seq; zero; 0] ->
  decode_fields RecordHeader_layout (record_header marker size seq zero) = [marker; size; seq; zero; 0].
Proof.
  intros H. pose proof (decode_encode_fields _ _ [] H) as E. by rewrite app_nil_r in E.
Qed.

Lemma packet_header_decode p :
  packet_ok p ->
  decode_fields RecordHeader_layout (packet_header p) =
    [kRecordMarker; packet_payload_len p; out_sequence_number p; if is_zero_filled p then 1 else 0; 0].
Proof.
  intros (Hl & Hs & _). apply record_header_decode. unfold fields_ok, RecordHeader_layout.
  repeat apply Forall2_cons_2; [..|constructor]; try done; unfold in_range in *; try (destruct (is_zero_filled p); lia); lia.
Qed.

Lemma read_records_app n ps : forall pre post,
  Forall packet_full ps -> (length ps <= n)%nat -> post <> [] ->
  read_records n (mkShmRing (pre ++ packets_bytes ps ++ post) (Z.of_nat (length (pre ++ packets_bytes ps)))
    (Z.of_nat (length pre))) = Some (packet_record <$> ps).
Proof.
  revert ps. induction n as [|n IH]; intros [|p ps] pre post Hps Hn Hpost; cbn [length] in Hn; try lia.
  - cbn [read_records packets_bytes concat fmap list_fmap]. rewrite app_nil_r, Z.eqb_refl. done.
  - cbn [read_records packets_bytes concat fmap list_fmap]. rewrite app_nil_r, Z.eqb_refl. done.
  - inversion Hps as [|? ? [Hok Hd] Hps']; subst. pose proof Hok as (Hl & _ & _).
    unfold packets_bytes. cbn [fmap list_fmap concat]. fold (packets_bytes ps). unfold packet_bytes at 1 2.
    set (rest := packets_bytes ps ++ post).
    assert (Hrest : (0 < length rest)%nat) by (unfold rest; rewrite length_app; destruct post; cbn [length]; [done|lia]).
    replace (pre ++ ((packet_header p ++ packet_data p) ++ packets_bytes ps) ++ post)
      with (pre ++ packet_header p ++ packet_data p ++ rest) by (unfold rest; by rewrite <-!app_assoc).
    cbn [read_records].
    destruct (Z.eqb_spec (Z.of_nat (length (pre ++ (packet_header p ++ packet_data p) ++ packets_bytes ps)))
      (Z.of_nat (length pre))) as [E|_].
    { rewrite !length_app in E. change (length (packet_header p)) with 16%nat in E. lia. }
    change 16%nat with (length (packet_header p)). rewrite read_ring_app, packet_header_decode by done.
    change (kRecordMarker =? kWrapMarker) with false. change (kRecordMarker =? kRecordMarker) with true.
    cbn [negb]. cbv iota zeta.
    set (R := Z.of_nat (length (pre ++ packet_header p ++ packet_data p ++ rest))).
    assert (HR : R = Z.of_nat (length pre) + 16 + packet_payload_len p + Z.of_nat (length rest)).
    { unfold R. rewrite !length_app. change (length (packet_header p)) with 16%nat. lia. }
    unfold in_range in Hl. rewrite (Z.mod_small (Z.of_nat (length pre) + 16) R) by lia.
    rewrite (Z.mod_small _ R) by lia.
    assert (Hat : Z.of_nat (length pre) + 16 = Z.of_nat (length (pre ++ packet_header p)))
      by (rewrite length_app; change (length (packet_header p)) with 16%nat; lia).
    assert (Hnext : Z.of_nat (length pre) + 16 + packet_payload_len p =
      Z.of_nat (length (pre ++ packet_header p ++ packet_data p)))
      by (rewrite !length_app; change (length (packet_header p)) with 16%nat; lia).
    rewrite Hnext, Hat. unfold rest.
    specialize (IH ps (pre ++ packet_header p ++ packet_data p) post Hps' ltac:(lia) Hpost).
    rewrite <-!app_assoc in IH. rewrite <-!app_assoc. rewrite IH. cbn [mbind option_bind].
    replace (Z.to_nat (packet_payload_len p)) with (length (packet_data p)) by lia.
    rewrite (app_assoc pre), read_ring_app. unfold packet_record at 2.
    by destruct (is_zero_filled p).
Qed.

Lemma packet_bytes_length p : packet_full p -> Z.of_nat (length (packet_bytes p)) = 16 + packet_payload_len p.
Proof.
  intros [_ Hd]. unfold packet_bytes. rewrite length_app. change (length (packet_header p)) with 16%nat. lia.
Qed.

Lemma shm_deliver_room p pre post st :
  packet_full p -> (length (packet_bytes p) < length post)%nat ->
  shm_deliver 0 p (mkSharedMemoryDelivery (Some (mkShmRing (pre ++ post) (Z.of_nat (length pre)) 0)) st) =
    Some (true, mkSharedMemoryDelivery
      (Some (mkShmRing ((pre ++ packet_bytes p) ++ drop (length (packet_bytes p)) post)
        (Z.of_nat (length (pre ++ packet_bytes p))) 0)) (inc_delivered (packet_payload_len p) st)).
Proof.
  intros Hp Hl. pose proof (packet_bytes_length p Hp) as Hb. pose proof Hp as [(Hu & _) _]. unfold in_range in Hu.
  unfold shm_deliver, ring_size. cbn [shm_ring]. rewrite length_app. unfold sizeof_RecordHeader.
  destruct (Z.leb_spec (Z.of_nat (length pre + length post)) (16 + packet_payload_len p)) as [|_]; [lia|].
  cbn [make_room shm_head shm_tail]. unfold free_space, used_space, ring_size. cbn [shm_ring].
  rewrite length_app. destruct (Z.leb_spec 0 (Z.of_nat (length pre))) as [_|]; [|lia].
  match goal with |- context [?a <=? ?b] => destruct (Z.leb_spec a b) as [_|]; [|lia] end.
  cbn [mbind option_bind]. unfold wrap_if_needed, sizeof_RecordHeader. rewrite length_app.
  match goal with |- context [?a <? ?b] => destruct (Z.ltb_spec a b) as [|_]; [lia|] end.
  match goal with |- context [?a <? ?b] => destruct (Z.ltb_spec a b) as [|_]; [lia|] end.
  cbn [orb]. by rewrite put_record_app.
Qed.

Lemma shm_deliver_all_room ps : forall pre post st,
  Forall packet_full ps -> (length (packets_bytes ps) < length post)%nat ->
  exists st', shm_deliver_all 0 ps (mkSharedMemoryDelivery (Some (mkShmRing (pre ++ post) (Z.of_nat (length pre)) 0)) st) =
    Some (replicate (length ps) true, mkSharedMemoryDelivery
      (Some (mkShmRing ((pre ++ packets_bytes ps) ++ drop (length (packets_bytes ps)) post)
        (Z.of_nat (length (pre ++ packets_bytes ps))) 0)) st').
Proof.
  unfold packets_bytes.
  induction ps as [|p ps IH]; intros pre post st Hps Hl; cbn [shm_deliver_all fmap list_fmap concat length replicate] in *.
  - exists st. by rewrite !app_nil_r, drop_0.
  - inversion Hps as [|? ? Hp Hps']; subst. rewrite length_app in Hl.
    rewrite shm_deliver_room by (done || lia). cbn [mbind option_bind].
    destruct (IH (pre ++ packet_bytes p) (drop (length (packet_bytes p)) post)
      (inc_delivered (packet_payload_len p) st) Hps') as (st' & ->); [rewrite length_drop; lia|].
    cbn [mbind option_bind]. exists st'. by rewrite drop_drop, <-length_app, <-!app_assoc.
Qed.

(** The shared ring before it wraps.  Packets whose records fit into a new ring are
    all delivered, without dropping anything, and a consumer that reads from the tail finds
    exactly them, in order, with their sequence numbers, flags and payloads. *)
Theorem shm_fifo_before_wrap (header_size shm_size : Z) (ps : list OrderedPacket)
    (Hh : 0 <= header_size) (Hsize : header_size + 17 < shm_size) (Hps : Forall packet_full ps)
    (Hfit : Z.of_nat (length (packets_bytes ps)) < shm_size - header_size) :
  exists d' r, shm_deliver_all 0 ps (SharedMemoryDelivery_init header_size true true shm_size None) =
      Some (replicate (length ps) true, d') /\
    shm d' = Some r /\ read_records (length ps) r = Some (packet_record <$> ps).
Proof.
  unfold SharedMemoryDelivery_init, sizeof_RecordHeader. cbn [negb orb]. case_tests; [lia|]. cbn [orb negb default from_option id].
  set (post := replicate _ 0). assert (Hl : (length (packets_bytes ps) < length post)%nat)
    by (unfold post; rewrite length_replicate; lia).
  destruct (shm_deliver_all_room ps [] post Statistics_zero Hps Hl) as (st' & E). cbn [app length] in E.
  eexists _, _. split; [exact E|]. split; [reflexivity|].
  apply (read_records_app (length ps) ps [] _ Hps ltac:(lia)).
  intros Hnil. apply (f_equal length) in Hnil. rewrite length_drop in Hnil. cbn in Hnil. lia.
Qed.

(** C31: the shared ring stays within its memory.  The segment is new, or it was initialised
    earlier with a ring of the same size and has its positions inside.  Packets are
    delivered one after the other, each with the bytes its header announces.  After any number of iterations of
    the loop that makes room, whether or not the loop ends, every range of bytes that was
    read or written lies inside the ring and both positions do, also when the oldest records are
    dropped and when a record or a marker crosses the end.  The deliveries that return
    are runs of this loop. *)
Theorem shm_ring_in_bounds (header_size shm_size : Z) existing r0
    (Hh : 0 <= header_size)
    (Hex : forall r, existing = Some r -> ring_inv (shm_size - header_size) r)
    (Hready : shm (SharedMemoryDelivery_init header_size true true shm_size existing) = Some r0) :
  (forall s, rtc deliver_step (mkDeliveries r0 None []) s ->
     Forall (within (shm_size - header_size)) (accessed s) /\
     Z.of_nat (length (shm_ring (dv_ring s))) = shm_size - header_size /\
     0 <= shm_head (dv_ring s) < shm_size - header_size /\ 0 <= shm_tail (dv_ring s) < shm_size - header_size) /\
  (forall fuel ps oks d', Forall packet_ok ps ->
     shm_deliver_all fuel ps (SharedMemoryDelivery_init header_size true true shm_size existing) = Some (oks, d') ->
     exists s, rtc deliver_step (mkDeliveries r0 None []) s /\ delivering s = None /\ shm d' = Some (dv_ring s)).
Proof.
  assert (Hi : ring_inv (shm_size - header_size) r0).
  { revert Hready. unfold SharedMemoryDelivery_init, sizeof_RecordHeader. cbn [negb]. case_tests; cbn [orb shm]; [done|].
    intros [= <-]. destruct existing as [r|]; cbn [default from_option id]; [by apply Hex|].
    unfold ring_inv, ring_size. cbn [shm_ring shm_head shm_tail]. rewrite length_replicate. lia. }
  split.
  - intros s Hs. destruct (deliveries_reachable_inv (shm_size - header_size) (mkDeliveries r0 None []) s) as [(Hl & _ & Hp) _ Ha];
      [by split|done|]. done.
  - intros fuel ps oks d' Hps Hrun.
    destruct (SharedMemoryDelivery_init header_size true true shm_size existing) as [s st]. cbn [shm] in Hready. subst s.
    destruct (shm_deliver_all_steps fuel ps r0 st oks d' [] Hps Hrun) as (r' & t' & E & Hr).
    by exists (mkDeliveries r' None t').
Qed.

(** ** Defects of the ring *)

(** A packet with the payload [bs]. *)
Definition shm_packet (seq : Z) (bs : bytes) : OrderedPacket :=
  mkOrderedPacket
    (mkParsedPacket (mkCommonHeader 0 seq 0 (Z.of_nat (length bs)) 0 0 0 0 0 0 0 0 [0; 0; 0; 0]) (Some bs) 0)
    None (Z.of_nat (length bs)) false false seq.

Lemma shm_packet_full seq bs :
  is_u32 seq -> Z.of_nat (length bs) < 2 ^ 16 -> packet_full (shm_packet seq bs).
Proof.
  intros Hs Hl. unfold packet_full, packet_ok, packet_data, packet_payload_len. cbn.
  rewrite Nat2Z.id, take_ge by lia. split_and!; try done; [unfold in_range; lia..|].
  intros bs' [= <-]. lia.
Qed.

Definition data14 : bytes := replicate 14 7.

Definition four_packets : list OrderedPacket :=
  [shm_packet 1 data14; shm_packet 2 data14; shm_packet 3 data14; shm_packet 4 data14].

Lemma four_packets_ok : Forall packet_ok four_packets.
Proof. repeat apply Forall_cons_2; [by apply shm_packet_full..|constructor]. Qed.

(** A ring of 100 bytes. *)
Definition small_ring : SharedMemoryDelivery := SharedMemoryDelivery_init 0 true true 100 None.

(** The room that is checked ignores the bytes left over at the end.  In a ring of 100
    bytes the fourth record of 30 bytes drops the oldest one, wraps, and is accepted
    although it ends at the tail: the delivery reports four successes, and a consumer finds
    the ring empty, having lost the three records that should be there. *)
Theorem shm_wrap_loses_records :
  exists d' r, shm_deliver_all 3 four_packets small_ring = Some ([true; true; true; true], d') /\
    shm d' = Some r /\ delivered_packets (shm_stats d') = 4 /\ delivery_errors (shm_stats d') = 0 /\
    read_records 4 r = Some [].
Proof.
  match goal with |- exists d' r, ?run = _ /\ _ => destruct run as [[oks d']|] eqn:E end;
    vm_compute in E; [|discriminate]. injection E as <- <-.
  eexists _, _. split; [reflexivity|]. split; [reflexivity|]. split; [reflexivity|]. split; vm_compute; reflexivity.
Qed.

(** A payload that contains a record header. *)
Definition crafted : bytes := replicate 14 0 ++ le_store 4 kRecordMarker ++ [84].

(** The same overrun lets the payload of a packet be taken for a record header: one whose size is a
    multiple of the ring makes the loop that makes room run for ever, with the lock held. *)
Definition stuck : option (list bool * SharedMemoryDelivery) :=
  shm_deliver_all 3 [shm_packet 1 data14; shm_packet 2 data14; shm_packet 3 data14; shm_packet 4 crafted] small_ring.

Lemma make_room_stuck required r :
  drop_oldest_unlocked r = (true, r) -> free_space (shm_head r) (shm_tail r) (ring_size r) < required ->
  forall fuel, make_room fuel required r = None.
Proof.
  intros Hd Hf. induction fuel as [|fuel IH]; cbn [make_room]; (case_tests; [lia|]); [done|]. by rewrite Hd.
Qed.

(** A payload can hang the delivery.  After four deliveries, the last with a crafted
    payload of 19 bytes, every delivery of 80 bytes runs for ever, however long it is
    given. *)
Theorem shm_crafted_payload_hangs fuel :
  exists d', stuck = Some ([true; true; true; true], d') /\
    shm_deliver fuel (shm_packet 5 (replicate 80 7)) d' = None.
Proof.
  destruct stuck as [[oks d']|] eqn:E; [|vm_compute in E; discriminate].
  vm_compute in E. injection E as <- <-. eexists. split; [reflexivity|].
  unfold shm_deliver. change (packet_payload_len _) with 80.
  match goal with |- context [make_room fuel ?req ?r] =>
    assert (Hs : make_room fuel req r = None) by (apply make_room_stuck; vm_compute; reflexivity) end.
  match goal with |- (if ?c then _ else _) = _ => replace c with false by (vm_compute; reflexivity) end.
  by rewrite Hs.
Qed.

(** ** Reconnection *)

(** A connection attempt that the system refuses, made when the time has come. *)
Definition due (i : ConnectInput) (u : UnixSocketDelivery) : Prop :=
  match next_reconnect u with Some t => t <= ci_now i | None => True end.

Definition refused (i : ConnectInput) : Prop :=
  ci_path_empty i = false /\ ci_socket i && ci_path_fits i && ci_connect i = false.

(** Attempts one after the other, each when it is due, all refused. *)
Inductive refused_run : UnixSocketDelivery -> list ConnectInput -> UnixSocketDelivery -> Prop :=
  | refused_run_nil u : refused_run u [] u
  | refused_run_snoc u is_ u1 i :
      refused_run u is_ u1 -> refused i -> due i u1 -> refused_run u (is_ ++ [i]) (connect_with_backoff i u1).2.

Lemma connect_refused i u :
  refused i -> due i u ->
  connect_with_backoff i u =
    (false, schedule_reconnect (ci_later i)
      (mkUnix (reconnect_interval_ms u) (current_backoff_ms u) (next_reconnect u) false (ux_stats u))).
Proof.
  intros [Hp Hr] Hd. destruct u as [ri cb nr c st]. unfold connect_with_backoff. rewrite Hp.
  unfold due in Hd. cbn in Hd.
  assert ((match nr with Some t => ci_now i <? t | None => false end) = false) as ->.
  { destruct nr; [|done]. case_tests; [lia|done]. }
  destruct (ci_socket i), (ci_path_fits i), (ci_connect i); cbn in Hr |- *; done.
Qed.

(** The socket reconnects with an exponential back-off.  With an interval of at most
    five seconds, the wait after the n-th refused attempt in a row is the interval times
    [2^(n-1)], at most five seconds; an attempt that comes earlier is not made and changes
    nothing; and a successful one resets the wait to the interval. *)
Theorem unix_backoff_doubles u is_ i u'
    (Hi : 1 <= reconnect_interval_ms u <= 5000) (Hu : current_backoff_ms u = reconnect_interval_ms u)
    (Hrun : refused_run u is_ u') (Href : refused i) (Hdue : due i u') :
  let wait := Z.min (reconnect_interval_ms u * 2 ^ Z.of_nat (length is_)) 5000 in
  let u2 := (connect_with_backoff i u').2 in
  connected u2 = false /\ next_reconnect u2 = Some (ci_later i + wait * 1000000) /\
  (forall j, ci_now j < ci_later i + wait * 1000000 -> connect_with_backoff j u2 = (false, u2)) /\
  (forall j, ci_path_empty j = false -> ci_socket j && ci_path_fits j && ci_connect j = true -> due j u2 ->
    let u3 := (connect_with_backoff j u2).2 in
    connected u3 = true /\ current_backoff_ms u3 = reconnect_interval_ms u).
Proof.
  assert (Hinv : current_backoff_ms u' = Z.min (reconnect_interval_ms u * 2 ^ Z.of_nat (length is_)) 5000 /\
    reconnect_interval_ms u' = reconnect_interval_ms u).
  { clear Href Hdue i. induction Hrun as [|u is_ u1 i Hrun IH Href Hdue].
    - cbn. rewrite Hu. lia.
    - destruct (IH Hi Hu) as [Hc Hr]. rewrite connect_refused by done. destruct u1 as [ri cb nr c st]. cbn in Hc, Hr |- *.
      split; [|done]. rewrite Hc, length_app. cbn [length].
      rewrite Nat2Z.inj_add, Z.pow_add_r by lia. change (2 ^ Z.of_nat 1) with 2.
      assert (0 < 2 ^ Z.of_nat (length is_)) by (apply Z.pow_pos_nonneg; lia).
      rewrite wrap_small by (unfold in_range; nia). nia. }
  destruct Hinv as [Hc Hr]. intros wait u2. unfold u2. rewrite connect_refused by done.
  destruct u' as [ri cb nr c st]. cbn in Hc, Hr. cbn [snd schedule_reconnect reconnect_interval_ms current_backoff_ms next_reconnect ux_stats].
  rewrite Hc. fold wait. split_and!; [done|done| |].
  - intros j Hj. unfold connect_with_backoff. destruct (ci_path_empty j); [done|]. case_tests; [done|lia].
  - intros j Hpe Hok Hd. unfold due in Hd. cbn in Hd. unfold connect_with_backoff. rewrite Hpe.
    destruct (Z.ltb_spec (ci_now j) (ci_later i + wait * 1000000)); [lia|].
    destruct (ci_socket j), (ci_path_fits j), (ci_connect j); cbn in Hok |- *; try discriminate. split; [done|lia].
Qed.

(** ** Witnesses *)

Lemma shm_fifo_before_wrap_witness :
  exists d' r, shm_deliver_all 0 [shm_packet 1 data14; shm_packet 2 [1; 2]] (SharedMemoryDelivery_init 192 true true 292 None) =
      Some ([true; true], d') /\
    shm d' = Some r /\ read_records 2 r = Some [(1, false, data14); (2, false, [1; 2])].
Proof.
  apply (shm_fifo_before_wrap 192 292 [shm_packet 1 data14; shm_packet 2 [1; 2]]); [lia|lia| |vm_compute; reflexivity].
  repeat constructor; by apply shm_packet_full.
Defined.

(** The run that loses records stays in bounds all the same. *)
Lemma shm_ring_in_bounds_witness :
  exists r0 oks d' s, shm small_ring = Some r0 /\ shm_deliver_all 3 four_packets small_ring = Some (oks, d') /\
    rtc deliver_step (mkDeliveries r0 None []) s /\ shm d' = Some (dv_ring s) /\ Forall (within 100) (accessed s).
Proof.
  destruct (shm_deliver_all 3 four_packets small_ring) as [[oks d']|] eqn:E; [|vm_compute in E; discriminate].
  destruct (shm small_ring) as [r0|] eqn:Er; [|vm_compute in Er; discriminate].
  destruct (shm_ring_in_bounds 0 100 None r0 ltac:(lia) ltac:(discriminate) Er) as [Hb Hs].
  destruct (Hs 3%nat four_packets oks d' four_packets_ok E) as (s & Hr & _ & Ed).
  exists r0, oks, d', s. split_and!; [reflexivity|reflexivity|exact Hr|exact Ed|]. apply (proj1 (Hb s Hr)).
Defined.

(** Refused at 0 and 100 ms: the wait is then 200 ms. *)
Lemma unix_backoff_doubles_witness :
  let u := mkUnix 100 100 None false Statistics_zero in
  let i t := mkConnectInput t false true true false t in
  let u2 := (connect_with_backoff (i 100000000) (connect_with_backoff (i 0) u).2).2 in
  next_reconnect u2 = Some (100000000 + 200 * 1000000).
Proof.
  intros u i u2.
  destruct (unix_backoff_doubles u [i 0] (i 100000000) (connect_with_backoff (i 0) u).2) as (_ & Hn & _).
  - cbn. lia.
  - reflexivity.
  - apply (refused_run_snoc u [] u (i 0)); [constructor|split; reflexivity|exact I].
  - split; reflexivity.
  - cbn. lia.
  - exact Hn.
Defined.

End Delivery.
