(* ===== verification/Emulator.v ===== *)
(** The packet generator of the FPGA emulator
    ([tools/fpga_emulator/packet_generator.cpp]), against the receiver's parser and
    validator.  Clock readings and random numbers are arguments. *)

From S2P Require Import Prelude Crc32c Protocol Validator.
Open Scope Z_scope.

Module Emulator.
Import Crc32c Protocol Validator.

(** ** Definitions *)

Definition DACS_01 : Z := 0x11.
Definition SPS : Z := 0x01.

Record GeneratorConfig := mkGeneratorConfig {
  gen_source_id : Z;
  gen_dest_id : Z;
  cpi_frags : Z;
  frag_payload_bytes : Z;
  drops : bool;
  reorder_depth : nat;
}.

Record PacketGenerator := mkPacketGenerator {
  next_sequence_ : Z;
  next_frame_counter_ : Z;
  next_cpi_count_ : Z;
  cpi_since_heartbeat_ : Z;
}.

Definition PacketGenerator_init : PacketGenerator := mkPacketGenerator 1 1 1 0.

(** The constructor for single-fragment packets. *)
Definition single_config (payload_bytes : Z) : GeneratorConfig :=
  mkGeneratorConfig DACS_01 SPS 1
    (if payload_bytes <? DataSpecificHeader_SIZE then DataSpecificHeader_SIZE else payload_bytes) false 0.

(** [fill_common_header]: the 32 bytes, and the next sequence number. *)
Definition fill_common_header (cfg : GeneratorConfig) (now payload_len packet_type : Z) (g : PacketGenerator)
    : CommonHeader * PacketGenerator :=
  let '(mkPacketGenerator seq fc cc hb) := g in
  (mkCommonHeader PROTOCOL_MAGIC seq now payload_len packet_type PROTOCOL_VERSION (gen_source_id cfg) (gen_dest_id cfg)
     1 0 0 0 [0; 0; 0; 0],
   mkPacketGenerator (seq +[32] 1) fc cc hb).

Definition append_crc32c (packet : bytes) : bytes :=
  packet ++ le_store 4 (crc32c (Some packet) (length packet)).

(** The header of the single packet. *)
Definition data_header (frame_counter now payload_bytes : Z) : DataSpecificHeader :=
  set_channel_mask_data_type_compat
    (mkDataSpecificHeader frame_counter frame_counter 0 0 256 now 0 0 1 0 1
       (u16 (payload_bytes - DataSpecificHeader_SIZE))) 0x0001 0x00.

(** The pattern bytes from index [i] on. *)
Definition pattern (i : Z) (n : nat) : bytes := (fun k => Z.land (i + Z.of_nat k) 0xFF) <$> seq 0 n.

(** [make_data_packet]; [None] when the specific header does not fit into the payload and is
    copied past the end of the packet. *)
Definition make_data_packet (cfg : GeneratorConfig) (now now' : Z) (g : PacketGenerator)
    : option (bytes * PacketGenerator) :=
  let payload_bytes := frag_payload_bytes cfg in
  if payload_bytes <? DataSpecificHeader_SIZE then None
  else
    let '(h, mkPacketGenerator seq fc cc hb) :=
      fill_common_header cfg now (u16 payload_bytes) (PacketType_to_u8 DATA) g in
    Some (CommonHeader_bytes h ++ DataSpecificHeader_bytes (data_header fc now' payload_bytes) ++
            pattern 72 (Z.to_nat (payload_bytes - DataSpecificHeader_SIZE)),
          mkPacketGenerator seq (fc +[32] 1) cc hb).

(** The header of fragment [frag_idx]. *)
Definition frag_header (cfg : GeneratorConfig) (frame_counter cpi_count data_ts frag_idx : Z) : DataSpecificHeader :=
  set_channel_mask_data_type_compat
    (mkDataSpecificHeader frame_counter cpi_count 0 (u32 (frag_idx * 256)) 256 data_ts 0 0 1 frag_idx (cpi_frags cfg)
       (u16 (frag_payload_bytes cfg))) 0x0001 0x00.

Definition tail_snapshot (cpi_count : Z) : ExecutionSnapshot :=
  mkExecutionSnapshot (cpi_count `mod` 3600) 0 1 0 0 0 0 0 0 0 0 0 0 0 0.

(** One fragment of a CPI. *)
Definition make_fragment (cfg : GeneratorConfig) (frame_counter cpi_count data_ts now frag_idx : Z) (g : PacketGenerator)
    : bytes * PacketGenerator :=
  let is_tail := frag_idx + 1 =? cpi_frags cfg in
  let snapshot := if is_tail then ExecutionSnapshot_bytes (tail_snapshot cpi_count) else [] in
  let specific_and_body := DataSpecificHeader_SIZE + Z.of_nat (length snapshot) + frag_payload_bytes cfg in
  let '(h, g) := fill_common_header cfg now (u16 specific_and_body) (PacketType_to_u8 DATA) g in
  (append_crc32c (CommonHeader_bytes h ++
     DataSpecificHeader_bytes (frag_header cfg frame_counter cpi_count data_ts frag_idx) ++ snapshot ++
     pattern (cpi_count + frag_idx) (Z.to_nat (frag_payload_bytes cfg))), g).

(** The loop over the fragments; [now] is the clock for each. *)
Fixpoint make_fragments (cfg : GeneratorConfig) (frame_counter cpi_count data_ts : Z) (now : Z -> Z) (idxs : list Z)
    (g : PacketGenerator) : list bytes * PacketGenerator :=
  match idxs with
  | [] => ([], g)
  | i :: idxs =>
    let '(pkt, g) := make_fragment cfg frame_counter cpi_count data_ts (now i) i g in
    let '(pkts, g) := make_fragments cfg frame_counter cpi_count data_ts now idxs g in
    (pkt :: pkts, g)
  end.

Definition make_cpi_packets (cfg : GeneratorConfig) (data_ts : Z) (now : Z -> Z) (g : PacketGenerator)
    : list bytes * PacketGenerator :=
  let '(mkPacketGenerator seq fc cc hb) := g in
  let g := mkPacketGenerator seq (fc +[32] 1) (cc +[32] 1) hb in
  let '(pkts, mkPacketGenerator seq fc' cc' hb) :=
    make_fragments cfg fc cc data_ts now (seqZ 0 (cpi_frags cfg)) g in
  (pkts, mkPacketGenerator seq fc' cc' (hb +[32] 1)).

(** The first 44 bytes of the heartbeat payload: alive, temperature 45, mode 1. *)
Definition heartbeat_data : bytes :=
  encode_fields [4; 4; 2; 1; 1; 4; 4; 16; 1; 1; 1; 1; 2; 2]%nat [1; 0; 45; 1; 0; 0; 0; 0; 0; 0; 0; 0; 0; 0].

Definition make_heartbeat_packet (cfg : GeneratorConfig) (now : Z) (g : PacketGenerator) : bytes * PacketGenerator :=
  let '(h, mkPacketGenerator seq fc cc _) :=
    fill_common_header cfg now HEARTBEAT_PAYLOAD_SIZE (PacketType_to_u8 HEARTBEAT) g in
  (CommonHeader_bytes h ++ heartbeat_data ++ le_store 4 (crc32c (Some heartbeat_data) 44),
   mkPacketGenerator seq fc cc 0).

(** *** Impairments *)

(** The packets whose random number is at least the drop rate. *)
Fixpoint keep_some {A} (keep : list bool) (packets : list A) : list A :=
  match keep, packets with
  | k :: keep, p :: packets => if (k : bool) then p :: keep_some keep packets else keep_some keep packets
  | _, _ => []
  end.

Definition swap {A} (i j : nat) (l : list A) : list A :=
  match l !! i, l !! j with
  | Some x, Some y => <[i := y]> (<[j := x]> l)
  | _, _ => l
  end.

(** The loop of swaps from index [i] on; [js] are the random indices. *)
Fixpoint shuffle {A} (js : list nat) (i : nat) (l : list A) : list A :=
  match js with
  | [] => l
  | j :: js => shuffle js (S i) (if (i =? j)%nat then l else swap i j l)
  end.

Definition apply_impairments {A} (cfg : GeneratorConfig) (keep : list bool) (js : list nat) (packets : list A) : list A :=
  let packets := if drops cfg then keep_some keep packets else packets in
  if (1 <? reorder_depth cfg)%nat && (1 <? length packets)%nat then shuffle js 0 packets else packets.

(** ** What the receiver makes of the packets *)

Definition config_ok (cfg : GeneratorConfig) : Prop := is_u8 (gen_source_id cfg) /\ is_u8 (gen_dest_id cfg).

Definition generator_ok (g : PacketGenerator) : Prop :=
  is_u32 (next_sequence_ g) /\ is_u32 (next_frame_counter_ g) /\ is_u32 (next_cpi_count_ g).

Lemma fill_common_header_ok cfg now len type g :
  config_ok cfg -> generator_ok g -> is_u64 now -> is_u16 len -> is_u8 type ->
  CommonHeader_ok (fill_common_header cfg now len type g).1.
Proof.
  intros [Hs Hd] (Hq & _ & _) Hn Hl Ht. destruct g as [seq fc cc hb]. cbn in Hq.
  unfold CommonHeader_ok, fields_ok, CommonHeader_layout, fill_common_header, CommonHeader_fields, PROTOCOL_MAGIC, PROTOCOL_VERSION.
  cbn [fst magic sequence_number timestamp payload_len packet_type protocol_version source_id dest_id control_epoch
    ext_flags reserved1 reserved2 reserved3 app].
  repeat apply Forall2_cons_2; [..|constructor]; try done; unfold in_range; lia.
Qed.

(** A packet that is exactly the header and the payload it announces is accepted. *)
Lemma parse_exact h pl :
  CommonHeader_ok h -> magic h = PROTOCOL_MAGIC -> protocol_version h = PROTOCOL_VERSION ->
  payload_len h <= MAX_PAYLOAD_SIZE -> Z.of_nat (length pl) = payload_len h ->
  parse (Some (CommonHeader_bytes h ++ pl)) (Z.of_nat (length (CommonHeader_bytes h ++ pl))) =
    Some (mkParsedPacket h (Some pl) (COMMON_HEADER_SIZE + payload_len h)).
Proof.
  intros Hh Hm Hv Hle Hl. pose proof (length_CommonHeader_bytes h Hh) as H32.
  unfold parse, parse_common_header, basic_validation. change (Z.to_nat COMMON_HEADER_SIZE) with 32%nat.
  rewrite take_app_length', drop_app_length' by done. rewrite length_app, H32.
  assert (Hload : CommonHeader_load (CommonHeader_bytes h) = h).
  { rewrite <-(app_nil_r (CommonHeader_bytes h)). by apply CommonHeader_load_bytes. }
  rewrite Hload, Hm, Hv. unfold COMMON_HEADER_SIZE in *. change (Z.shiftr PROTOCOL_VERSION 4) with PROTOCOL_VERSION_MAJOR.
  rewrite !Z.eqb_refl. cbn [negb]. case_tests; cbn [negb]; try lia. do 2 f_equal. lia.
Qed.

(** A packet that is longer than its header announces is not. *)
Lemma parse_too_long h pl :
  CommonHeader_ok h -> Z.of_nat (length pl) <> payload_len h ->
  parse (Some (CommonHeader_bytes h ++ pl)) (Z.of_nat (length (CommonHeader_bytes h ++ pl))) = None.
Proof.
  intros Hh Hl. pose proof (length_CommonHeader_bytes h Hh) as H32.
  unfold parse, parse_common_header, basic_validation. change (Z.to_nat COMMON_HEADER_SIZE) with 32%nat.
  rewrite take_app_length', drop_app_length' by done. rewrite length_app, H32.
  assert (Hload : CommonHeader_load (CommonHeader_bytes h) = h).
  { rewrite <-(app_nil_r (CommonHeader_bytes h)). by apply CommonHeader_load_bytes. }
  rewrite Hload. unfold COMMON_HEADER_SIZE. destruct (_ <? 32); [done|].
  destruct (negb (magic h =? _)); [done|]. destruct (negb (_ =? PROTOCOL_VERSION_MAJOR)); [done|].
  destruct (MAX_PAYLOAD_SIZE <? _); [done|]. case_tests; [lia|done].
Qed.

Lemma length_pattern i n : length (pattern i n) = n.
Proof. unfold pattern. by rewrite length_fmap, length_seq. Qed.

Lemma data_header_ok fc now n : is_u32 fc -> is_u64 now -> DataSpecificHeader_ok (data_header fc now n).
Proof.
  intros Hf Hn. unfold DataSpecificHeader_ok, fields_ok, DataSpecificHeader_layout, data_header, DataSpecificHeader_fields,
    set_channel_mask_data_type_compat.
  cbn [frame_counter cpi_count pulse_index sample_offset sample_count data_timestamp health_summary reserved_health
    beam_id frag_index total_frags tail_frag_payload_bytes].
  repeat apply Forall2_cons_2; [..|constructor]; try done; try (unfold in_range; lia); apply wrap_range; lia.
Qed.

(** Single packets and heartbeats are accepted.  A data packet of the generator whose
    payload fits a datagram is parsed and validated by a receiver with the
    destination's id, with the generator's sequence number and with the specific header it was given, as a single fragment whose tail size is
    its body; a heartbeat is too, checksum included, where heartbeats are admitted. *)
Theorem generated_packets_accepted cfg now now' g v pkt g'
    (Hcfg : config_ok cfg) (Hg : generator_ok g) (Hn : is_u64 now) (Hn' : is_u64 now')
    (Hdst : addressed v (fill_common_header cfg now 0 0 g).1)
    (Hsz : frag_payload_bytes cfg <= MAX_PAYLOAD_SIZE)
    (Hmk : make_data_packet cfg now now' g = Some (pkt, g')) :
  (exists p, parse (Some pkt) (Z.of_nat (length pkt)) = Some p /\ validate v p = OK /\
     sequence_number (header p) = next_sequence_ g /\
     exists pl, payload p = Some pl /\
       let s := DataSpecificHeader_load pl in
       is_single_fragment s = true /\ frame_counter s = next_frame_counter_ g /\
       tail_frag_payload_bytes s = payload_len (header p) - DataSpecificHeader_SIZE) /\
  (scope_ v = DATA_AND_HEARTBEAT ->
   let hb := (make_heartbeat_packet cfg now g).1 in
   exists p, parse (Some hb) (Z.of_nat (length hb)) = Some p /\ validate v p = OK).
Proof.
  destruct g as [seq fc cc hb]. destruct Hdst as [Hd1 Hd2]. cbn [fill_common_header fst dest_id] in Hd1, Hd2.
  assert (Hcheck : check_dest_id v (gen_dest_id cfg) = true).
  { unfold check_dest_id. case_tests; [done|..]; cbn; lia. }
  pose proof Hg as (_ & Hfc & _). cbn in Hfc.
  split.
  - unfold make_data_packet in Hmk. unfold DataSpecificHeader_SIZE in *.
    destruct (Z.ltb_spec (frag_payload_bytes cfg) 40) as [|H40]; [done|]. unfold MAX_PAYLOAD_SIZE, COMMON_HEADER_SIZE in Hsz.
    assert (Hu : u16 (frag_payload_bytes cfg) = frag_payload_bytes cfg) by (apply wrap_small; unfold in_range; lia).
    pose proof (fill_common_header_ok cfg now (u16 (frag_payload_bytes cfg)) (PacketType_to_u8 DATA) (mkPacketGenerator seq fc cc hb)
      Hcfg Hg Hn ltac:(apply wrap_range; lia) ltac:(by cbn)) as Hh.
    cbn [fill_common_header fst] in Hh.
    apply (f_equal (fun o => default [] (fst <$> o))) in Hmk.
    cbn [fill_common_header fmap option_fmap option_map fst default from_option id] in Hmk. subst pkt. rewrite Hu in Hh |- *.
    set (s := data_header fc now' (frag_payload_bytes cfg)). set (body := pattern _ _).
    match goal with |- context [CommonHeader_bytes ?h] => set (hd := h) in * end.
    assert (Hlen : Z.of_nat (length (DataSpecificHeader_bytes s ++ body)) = payload_len hd).
    { unfold body. rewrite length_app, length_DataSpecificHeader_bytes, length_pattern. unfold hd. cbn [payload_len]. lia. }
    assert (Hmax : payload_len hd <= MAX_PAYLOAD_SIZE) by (unfold hd, MAX_PAYLOAD_SIZE, COMMON_HEADER_SIZE; cbn [payload_len]; lia).
    eexists. split; [exact (parse_exact hd _ Hh eq_refl eq_refl Hmax Hlen)|].
    split; [|split; [reflexivity|]].
    { rewrite validate_parsed by reflexivity. unfold hd. cbn [header dest_id]. rewrite Hcheck. cbn [negb].
      rewrite bool_decide_eq_true_2 by (by left). by rewrite bool_decide_eq_true_2. }
    eexists. split; [reflexivity|]. cbv zeta. rewrite DataSpecificHeader_load_bytes by (by apply data_header_ok).
    split_and!; [done|done|]. cbn. apply wrap_small. unfold in_range. lia.
  - intros Hsc hbp. unfold hbp, make_heartbeat_packet. cbn [fill_common_header fst].
    pose proof (fill_common_header_ok cfg now HEARTBEAT_PAYLOAD_SIZE (PacketType_to_u8 HEARTBEAT) (mkPacketGenerator seq fc cc hb)
      Hcfg Hg Hn ltac:(by cbn) ltac:(by cbn)) as Hh. cbn [fill_common_header fst] in Hh.
    match goal with |- context [CommonHeader_bytes ?h] => set (hd := h) in * end.
    set (pl := heartbeat_data ++ _).
    eexists. split; [exact (parse_exact hd pl Hh eq_refl eq_refl ltac:(vm_compute; discriminate) eq_refl)|].
    rewrite validate_parsed by reflexivity. unfold hd. cbn [header dest_id]. rewrite Hcheck. cbn [negb].
    rewrite bool_decide_eq_true_2 by (by right). rewrite bool_decide_eq_false_2 by done.
    cbn [payload]. unfold pl. vm_compute. reflexivity.
Qed.

Lemma make_fragment_rejected cfg fc cc ts now i g :
  config_ok cfg -> generator_ok g -> is_u64 now -> 0 <= frag_payload_bytes cfg ->
  let '(pkt, g') := make_fragment cfg fc cc ts now i g in
  parse (Some pkt) (Z.of_nat (length pkt)) = None /\ generator_ok g'.
Proof.
  intros Hcfg Hg Hn Hb. unfold make_fragment. set (snap := if i + 1 =? cpi_frags cfg then ExecutionSnapshot_bytes (tail_snapshot cc) else []).
  set (n := DataSpecificHeader_SIZE + Z.of_nat (length snap) + frag_payload_bytes cfg).
  pose proof (fill_common_header_ok cfg now (u16 n) (PacketType_to_u8 DATA) g Hcfg Hg Hn ltac:(apply wrap_range; lia) ltac:(by cbn)) as Hh.
  assert (Hlen : payload_len (fill_common_header cfg now (u16 n) (PacketType_to_u8 DATA) g).1 = u16 n) by (by destruct g).
  assert (Hg' : generator_ok (fill_common_header cfg now (u16 n) (PacketType_to_u8 DATA) g).2).
  { destruct g as [q f c hb]. destruct Hg as (Hq & Hf & Hc). split_and!; [|done|done]. cbn. apply wrap_range. lia. }
  destruct (fill_common_header _ _ _ _ _) as [h g']. cbn [fst snd] in *. split; [|done].
  unfold append_crc32c. rewrite <-!app_assoc. apply parse_too_long; [done|]. rewrite Hlen.
  rewrite !length_app, length_DataSpecificHeader_bytes, length_pattern, length_le_store.
  assert (u16 n <= n) by (apply Z.mod_le; [unfold n, DataSpecificHeader_SIZE; lia|done]).
  unfold n, DataSpecificHeader_SIZE in *. lia.
Qed.

Lemma make_fragments_rejected cfg fc cc ts now idxs : forall g,
  config_ok cfg -> generator_ok g -> (forall i, is_u64 (now i)) -> 0 <= frag_payload_bytes cfg ->
  Forall (fun pkt => parse (Some pkt) (Z.of_nat (length pkt)) = None) (make_fragments cfg fc cc ts now idxs g).1 /\
  length (make_fragments cfg fc cc ts now idxs g).1 = length idxs.
Proof.
  induction idxs as [|i idxs IH]; intros g Hcfg Hg Hn Hb; cbn [make_fragments]; [by split|].
  pose proof (make_fragment_rejected cfg fc cc ts (now i) i g Hcfg Hg (Hn i) Hb) as Hf.
  destruct (make_fragment _ _ _ _ _ _ _) as [pkt g1]. destruct Hf as [Hp Hg1].
  destruct (IH g1 Hcfg Hg1 Hn Hb) as [IHf IHl]. destruct (make_fragments _ _ _ _ _ _ _) as [pkts g2].
  cbn [fst] in *. split; [by constructor|]. cbn. by rewrite IHl.
Qed.

(** No fragment of a CPI is accepted.  Whatever the configuration, every packet of
    [make_cpi_packets] is rejected by the receiver's parser: the generator appends a
    checksum of four bytes that the length in the header does not count, and the parser
    requires the two to agree. *)
Theorem cpi_packets_rejected cfg data_ts now g
    (Hcfg : config_ok cfg) (Hg : generator_ok g) (Hn : forall i, is_u64 (now i)) (Hb : 0 <= frag_payload_bytes cfg)
    (Hf : 0 <= cpi_frags cfg) :
  let pkts := (make_cpi_packets cfg data_ts now g).1 in
  Z.of_nat (length pkts) = cpi_frags cfg /\
  Forall (fun pkt => parse (Some pkt) (Z.of_nat (length pkt)) = None) pkts.
Proof.
  destruct g as [q f c hb]. unfold make_cpi_packets. destruct Hg as (Hq & Hf' & Hc).
  set (g1 := mkPacketGenerator q (f +[32] 1) (c +[32] 1) hb).
  assert (Hg1 : generator_ok g1) by (split_and!; [done|cbn; apply wrap_range; lia..]).
  destruct (make_fragments_rejected cfg f c data_ts now (seqZ 0 (cpi_frags cfg)) g1 Hcfg Hg1 Hn Hb) as [Hr Hl].
  destruct (make_fragments _ _ _ _ _ _ _) as [pkts [q2 f2 c2 hb2]]. cbn [fst] in *. split; [|done].
  rewrite Hl, length_seqZ. lia.
Qed.

(** ** Impairments *)

Section Impairments.

Context {A : Type}.
Implicit Types l : list A.

Lemma keep_some_sublist keep l : keep_some keep l `sublist_of` l.
Proof.
  revert keep. induction l as [|x l IH]; intros [|[] keep]; cbn; try apply sublist_nil_l.
  - by apply sublist_skip.
  - by apply sublist_cons.
Qed.

Lemma length_swap i j l : length (swap i j l) = length l.
Proof. unfold swap. repeat case_match; by rewrite ?length_insert. Qed.

Lemma swap_perm i j l : swap i j l ≡ₚ l.
Proof.
  unfold swap. destruct (l !! i) as [x|] eqn:Hi; [|done]. destruct (l !! j) as [y|] eqn:Hj; [|done].
  by apply Permutation_insert_swap.
Qed.

(** Where the packet at position [k] came from, after the swaps below [i]. *)
Definition moved (depth i : nat) l0 l : Prop :=
  l ≡ₚ l0 /\ forall k x, l !! k = Some x -> exists j, l0 !! j = Some x /\
    (j < (if (k <? i)%nat then k + depth else Nat.max (k + 1) (i + depth - 1)))%nat.

Lemma moved_swap depth i j l0 l :
  (1 <= depth)%nat -> (i <= j < i + depth)%nat -> moved depth i l0 l -> moved depth (S i) l0 (if (i =? j)%nat then l else swap i j l).
Proof.
  intros Hd Hj [Hp Hm].
  assert (Hkeep : forall k x, l !! k = Some x -> exists j, l0 !! j = Some x /\
    (j < (if (k <? S i)%nat then k + depth else Nat.max (k + 1) (S i + depth - 1)))%nat).
  { intros k x Hk. destruct (Hm k x Hk) as (j' & H0 & Hlt). exists j'. split; [done|].
    destruct (Nat.ltb_spec k i), (Nat.ltb_spec k (S i)); lia. }
  destruct (Nat.eqb_spec i j) as [->|Hne]; [done|]. split; [by rewrite swap_perm|].
  unfold swap. destruct (l !! i) as [x|] eqn:Hi; [|done]. destruct (l !! j) as [y|] eqn:Hjl; [|done].
  intros k z Hk. pose proof (lookup_lt_Some _ _ _ Hi) as Hil. pose proof (lookup_lt_Some _ _ _ Hjl) as Hjl'.
  destruct (decide (k = i)) as [->|Hki].
  - rewrite list_lookup_insert_eq in Hk by (by rewrite length_insert). injection Hk as <-.
    destruct (Hm j y Hjl) as (j' & H0 & Hlt). exists j'. split; [done|].
    destruct (Nat.ltb_spec j i), (Nat.ltb_spec i (S i)); lia.
  - rewrite list_lookup_insert_ne in Hk by done. destruct (decide (k = j)) as [->|Hkj].
    + rewrite list_lookup_insert_eq in Hk by done. injection Hk as <-.
      destruct (Hm i x Hi) as (j' & H0 & Hlt). exists j'. split; [done|].
      destruct (Nat.ltb_spec i i), (Nat.ltb_spec j (S i)); lia.
    + rewrite list_lookup_insert_ne in Hk by done. by apply Hkeep.
Qed.

(** The random indices lie in their windows. *)
Fixpoint windows_ok (depth i : nat) (js : list nat) : Prop :=
  match js with [] => True | j :: js => (i <= j < i + depth)%nat /\ windows_ok depth (S i) js end.

Lemma shuffle_moved depth js : forall i l0 l,
  (1 <= depth)%nat -> windows_ok depth i js -> moved depth i l0 l -> moved depth (i + length js) l0 (shuffle js i l).
Proof.
  induction js as [|j js IH]; intros i l0 l Hd Hw Hm; cbn [shuffle length].
  - by rewrite Nat.add_0_r.
  - destruct Hw as [Hj Hw]. rewrite <-Nat.add_succ_comm. apply IH; [done|done|]. by apply moved_swap.
Qed.

(** What the impairments do.  The packets that come out are a permutation of some of
    those that went in, all of them when nothing is dropped, and no packet overtakes more than [reorder_depth - 1] places: the one
    at position [i] was at a position below [i + reorder_depth] among those kept. *)
Theorem impairments_bounded cfg (keep : list bool) (js : list nat) l
    (Hw : windows_ok (reorder_depth cfg) 0 js)
    (Hl : length js = length (if drops cfg then keep_some keep l else l)) :
  exists kept, kept `sublist_of` l /\ (drops cfg = false -> kept = l) /\
    apply_impairments cfg keep js l ≡ₚ kept /\
    forall i x, apply_impairments cfg keep js l !! i = Some x ->
      exists j, kept !! j = Some x /\ (j < i + Nat.max 1 (reorder_depth cfg))%nat.
Proof.
  set (kept := if drops cfg then keep_some keep l else l) in *. exists kept.
  split; [unfold kept; destruct (drops cfg); [apply keep_some_sublist|done]|].
  split; [unfold kept; by intros ->|]. unfold apply_impairments. fold kept.
  destruct (Nat.ltb_spec 1 (reorder_depth cfg)) as [Hd|Hd]; cbn [andb].
  2:{ split; [done|]. intros i x Hi. exists i. split; [done|lia]. }
  destruct (1 <? length kept)%nat.
  2:{ split; [done|]. intros i x Hi. exists i. split; [done|lia]. }
  assert (Hm0 : moved (reorder_depth cfg) 0 kept kept).
  { split; [done|]. intros k x Hk. exists k. split; [done|]. destruct (Nat.ltb_spec k 0); lia. }
  destruct (shuffle_moved (reorder_depth cfg) js 0 kept kept ltac:(lia) Hw Hm0) as [Hp Hm].
  split; [done|]. intros i x Hi. destruct (Hm i x Hi) as (j & H0 & Hlt). exists j. split; [done|].
  apply lookup_lt_Some in Hi. rewrite Hp, <-Hl in Hi. cbn [Nat.add] in Hlt. destruct (Nat.ltb_spec i (length js)); lia.
Qed.

End Impairments.

(** ** Witnesses *)

Definition demo_cfg : GeneratorConfig := mkGeneratorConfig 0x11 0x01 3 8 true 2.

Lemma generated_packets_accepted_witness :
  exists pkt g' p, make_data_packet (single_config 44) 1000 1001 PacketGenerator_init = Some (pkt, g') /\
    parse (Some pkt) (Z.of_nat (length pkt)) = Some p /\ validate (mkValidator 1 DATA_AND_HEARTBEAT) p = OK.
Proof.
  destruct (make_data_packet (single_config 44) 1000 1001 PacketGenerator_init) as [[pkt g']|] eqn:E; [|vm_compute in E; discriminate].
  destruct (generated_packets_accepted (single_config 44) 1000 1001 PacketGenerator_init
    (mkValidator 1 DATA_AND_HEARTBEAT) pkt g') as [(p & Hp & Hv & _) _].
  - split; vm_compute; split; congruence.
  - split; [|split]; vm_compute; split; congruence.
  - vm_compute; split; congruence.
  - vm_compute; split; congruence.
  - split; [discriminate|left; reflexivity].
  - vm_compute. congruence.
  - exact E.
  - exists pkt, g', p. split; [reflexivity|]. split; [exact Hp|exact Hv].
Defined.

Lemma cpi_packets_rejected_witness :
  length (make_cpi_packets demo_cfg 7 (fun _ => 8) PacketGenerator_init).1 = 3%nat /\
  Forall (fun pkt => parse (Some pkt) (Z.of_nat (length pkt)) = None)
    (make_cpi_packets demo_cfg 7 (fun _ => 8) PacketGenerator_init).1.
Proof.
  destruct (cpi_packets_rejected demo_cfg 7 (fun _ => 8) PacketGenerator_init) as [Hl Hf].
  - split; vm_compute; split; congruence.
  - split; [|split]; vm_compute; split; congruence.
  - intros i. vm_compute; split; congruence.
  - vm_compute. congruence.
  - vm_compute. congruence.
  - split; [apply Nat2Z.inj; exact Hl|exact Hf].
Defined.

Lemma impairments_bounded_witness :
  apply_impairments demo_cfg [true; false; true; true] [1; 1; 2]%nat [1; 2; 3; 4] = [3; 1; 4] /\
  exists kept, kept `sublist_of` [1; 2; 3; 4] /\ [3; 1; 4] ≡ₚ kept.
Proof.
  split; [reflexivity|].
  destruct (impairments_bounded demo_cfg [true; false; true; true] [1; 1; 2]%nat [1; 2; 3; 4]) as (kept & Hs & _ & Hp & _).
  - cbn. lia.
  - reflexivity.
  - exists kept. split; [exact Hs|exact Hp].
Defined.

End Emulator.
