(* ===== verification/WireFormats.v ===== *)
(** The remaining packed structs of [m01_receiver/protocol/protocol_types.h] and those of
    [common/types.h], with their C types, and what the program relies on: a struct is read
    back from its bytes and written back to them, members lie where the assertions say, the
    checksum that [Validator] tests is the last member of a heartbeat, the names of drop reasons are those
    that the metrics know.  The two headers [CommonHeader] of the sources are different formats. *)

From S2P Require Import Prelude Crc32c Protocol Validator ControlTypes Metrics Emulator.
From stdpp Require Import strings.
Open Scope Z_scope.
Import Crc32c Protocol Validator Emulator.

Module WireFormats.

(** ** Packed structs *)

(** Integer types: their sizes in bytes, unsigned or signed. *)
Inductive ctype := U (w : nat) | I (w : nat).

Definition size_of (t : ctype) : nat := match t with U w | I w => w end.

Definition in_type (t : ctype) (v : Z) : Prop :=
  match t with
  | U w => 0 <= v < 2 ^ (8 * Z.of_nat w)
  | I w => - 2 ^ (8 * Z.of_nat w - 1) <= v < 2 ^ (8 * Z.of_nat w - 1)
  end.

(** The bits of a value, and the value of bits. *)
Definition bits_of (t : ctype) (v : Z) : Z := wrap (8 * Z.of_nat (size_of t)) v.

Definition value_of (t : ctype) (b : Z) : Z :=
  match t with U _ => b | I w => to_signed (8 * Z.of_nat w) b end.

Abbreviation quad := (Z * Z * Z * Z)%type.

(** A packed struct: its members, an array as its elements. *)
Class Packed (A : Type) := {
  members : list (string * ctype);
  members_pos : Forall (fun m => (0 < size_of (snd m))%nat) members;
  to_list : A -> list Z;
  of_list : list Z -> A;
  length_to_list a : length (to_list a) = length members;
  to_of_list vs : length vs = length members -> to_list (of_list vs) = vs;
  of_to_list a : of_list (to_list a) = a;
}.

Arguments members _ {_}.

Section Struct.

Context {A : Type} `{Packed A}.

Definition types : list ctype := snd <$> members A.

Definition struct_layout : layout := size_of <$> types.

(** Every member holds a value of its type. *)
Definition typed (a : A) : Prop := Forall2 in_type types (to_list a).

(** The bytes of an object, and [memcpy] into an object. *)
Definition store (a : A) : bytes := encode_fields struct_layout (zip_with bits_of types (to_list a)).

Definition load (bs : bytes) : A := of_list (zip_with value_of types (decode_fields struct_layout bs)).

End Struct.

(** [sizeof] and [offsetof]. *)
Definition sizeof (A : Type) `{Packed A} : Z := Z.of_nat (sum_list (struct_layout (A := A))).

Fixpoint offset_in (name : string) (ms : list (string * ctype)) : option Z :=
  match ms with
  | [] => None
  | (n, t) :: ms => if bool_decide (n = name) then Some 0 else (fun o => Z.of_nat (size_of t) + o) <$> offset_in name ms
  end.

Definition offsetof (A : Type) `{Packed A} (name : string) : option Z := offset_in name (members A).

Ltac split_list Hl vs :=
  destruct vs as [|?v vs]; [first [discriminate Hl|reflexivity]|first [discriminate Hl|injection Hl as Hl; split_list Hl vs]].

(** The laws of a packed struct. *)
Ltac packed :=
  lazymatch goal with
  | |- Forall _ _ => repeat constructor; cbn; lia
  | |- forall vs, length vs = _ -> _ => let vs := fresh "vs" in let Hl := fresh "Hl" in intros vs Hl; split_list Hl vs
  | |- _ => by intros []
  end.

(** ** The structs of [protocol_types.h] *)

Record ControlTableHeader := mkControlTableHeader {
  ct_frame_counter : Z;
  frame_beam_total : Z;
  beams_per_second : Z;
  cpi_count_base : Z;
}.

#[export, refine] Instance ControlTableHeader_packed : Packed ControlTableHeader := {|
  members := [("frame_counter", U 4); ("frame_beam_total", U 2); ("beams_per_second", U 2); ("cpi_count_base", U 4)];
  to_list a := [ct_frame_counter a; frame_beam_total a; beams_per_second a; cpi_count_base a];
  of_list vs := match vs with [a; b; c; d] => mkControlTableHeader a b c d | _ => mkControlTableHeader 0 0 0 0 end;
|}.
Proof. all: packed. Defined.

Record ControlBeamItem := mkControlBeamItem {
  cb_beam_id : Z;
  beam_work_status : Z;
  antenna_broadening_sel : Z;
  cb_azimuth_angle : Z;
  cb_elevation_angle : Z;
  cb_work_freq_index : Z;
  cb_mgc_gain : Z;
  period_combo_mode : Z;
  long_code_waveform : Z;
  short_code_waveform : Z;
  cb_signal_bandwidth : Z;
  cb_pulse_width : Z;
  cb_pulse_period : Z;
  cb_accumulation_count : Z;
  sim_target_range : Z;
  sim_target_velocity : Z;
  short_code_sample_count : Z;
  long_code_sample_count : Z;
  data_rate_mbps : Z;
  cb_reserved : Z;
}.

#[export, refine] Instance ControlBeamItem_packed : Packed ControlBeamItem := {|
  members :=
    [("beam_id", U 2); ("beam_work_status", U 1); ("antenna_broadening_sel", U 1); ("azimuth_angle", I 2); ("elevation_angle", I 2);
     ("work_freq_index", U 1); ("mgc_gain", U 2); ("period_combo_mode", U 1); ("long_code_waveform", U 1);
     ("short_code_waveform", U 1); ("signal_bandwidth", U 2); ("pulse_width", U 2); ("pulse_period", U 2);
     ("accumulation_count", U 2); ("sim_target_range", U 2); ("sim_target_velocity", I 2); ("short_code_sample_count", U 2);
     ("long_code_sample_count", U 2); ("data_rate_mbps", U 1); ("reserved", U 1)];
  to_list a :=
    [cb_beam_id a; beam_work_status a; antenna_broadening_sel a; cb_azimuth_angle a; cb_elevation_angle a; cb_work_freq_index a;
     cb_mgc_gain a; period_combo_mode a; long_code_waveform a; short_code_waveform a; cb_signal_bandwidth a; cb_pulse_width a;
     cb_pulse_period a; cb_accumulation_count a; sim_target_range a; sim_target_velocity a; short_code_sample_count a;
     long_code_sample_count a; data_rate_mbps a; cb_reserved a];
  of_list vs :=
    match vs with
    | [a; b; c; d; e; f; g; h; i; j; k; l; m; n; o; p; q; r; s; t] => mkControlBeamItem a b c d e f g h i j k l m n o p q r s t
    | _ => mkControlBeamItem 0 0 0 0 0 0 0 0 0 0 0 0 0 0 0 0 0 0 0 0
    end;
|}.
Proof. all: packed. Defined.

#[export, refine] Instance ScheduleApplyAckPayload_packed : Packed DupCmdCache.ScheduleApplyAckPayload := {|
  members :=
    [("ack_frame_counter", U 4); ("acked_sequence_number", U 4); ("ack_result", U 1); ("error_code", U 1); ("error_detail", U 2);
     ("applied_timestamp", U 8); ("payload_crc32c", U 4)];
  to_list a :=
    [DupCmdCache.ack_frame_counter a; DupCmdCache.acked_sequence_number a; DupCmdCache.ack_result a; DupCmdCache.error_code a;
     DupCmdCache.error_detail a; DupCmdCache.applied_timestamp a; DupCmdCache.payload_crc32c a];
  of_list vs :=
    match vs with
    | [a; b; c; d; e; f; g] => DupCmdCache.mkScheduleApplyAckPayload a b c d e f g
    | _ => DupCmdCache.mkScheduleApplyAckPayload 0 0 0 0 0 0 0
    end;
|}.
Proof. all: packed. Defined.

Record HeartbeatPayload := mkHeartbeatPayload {
  system_status_alive : Z;
  system_status_state : Z;
  core_temp : Z;
  op_mode : Z;
  time_coord_source : Z;
  device_number : quad;
  time_offset : Z;
  error_counters : quad;
  lo_lock_flags : Z;
  supply_current : Z;
  tr_comm_status : Z;
  reserved_align2 : Z;
  voltage_stability_flags : Z;
  panel_temp : Z;
  hb_crc32c : Z;
}.

#[export, refine] Instance HeartbeatPayload_packed : Packed HeartbeatPayload := {|
  members :=
    [("system_status_alive", U 4); ("system_status_state", U 4); ("core_temp", I 2); ("op_mode", U 1); ("time_coord_source", U 1);
     ("device_number", U 1); ("device_number[1]", U 1); ("device_number[2]", U 1); ("device_number[3]", U 1); ("time_offset", I 4);
     ("error_counters", U 4); ("error_counters[1]", U 4); ("error_counters[2]", U 4); ("error_counters[3]", U 4);
     ("lo_lock_flags", U 1); ("supply_current", U 1); ("tr_comm_status", U 1); ("reserved_align2", U 1);
     ("voltage_stability_flags", U 2); ("panel_temp", I 2); ("crc32c", U 4)];
  to_list a :=
    let '(d0, d1, d2, d3) := device_number a in
    let '(e0, e1, e2, e3) := error_counters a in
    [system_status_alive a; system_status_state a; core_temp a; op_mode a; time_coord_source a; d0; d1; d2; d3; time_offset a;
     e0; e1; e2; e3; lo_lock_flags a; supply_current a; tr_comm_status a; reserved_align2 a; voltage_stability_flags a;
     panel_temp a; hb_crc32c a];
  of_list vs :=
    match vs with
    | [a; b; c; d; e; d0; d1; d2; d3; f; e0; e1; e2; e3; g; h; i; j; k; l; m] =>
      mkHeartbeatPayload a b c d e (d0, d1, d2, d3) f (e0, e1, e2, e3) g h i j k l m
    | _ => mkHeartbeatPayload 0 0 0 0 0 (0, 0, 0, 0) 0 (0, 0, 0, 0) 0 0 0 0 0 0 0
    end;
|}.
Proof.
  all: first [by intros [???? ? [[[]]] ? [[[]]] ???????]|packed].
Defined.

Record RmaHeader := mkRmaHeader {
  session_id : Z;
  session_token : Z;
  cmd_type : Z;
  cmd_flags : Z;
  cmd_seq : Z;
}.

#[export, refine] Instance RmaHeader_packed : Packed RmaHeader := {|
  members := [("session_id", U 4); ("session_token", U 8); ("cmd_type", U 1); ("cmd_flags", U 1); ("cmd_seq", U 2)];
  to_list a := [session_id a; session_token a; cmd_type a; cmd_flags a; cmd_seq a];
  of_list vs := match vs with [a; b; c; d; e] => mkRmaHeader a b c d e | _ => mkRmaHeader 0 0 0 0 0 end;
|}.
Proof. all: packed. Defined.

(** ** The structs of [common/types.h] *)

Module Common.

Record CommonHeader := mkCommonHeader {
  magic : Z;
  protocol_version : Z;
  packet_type : Z;
  source_id : Z;
  dest_id : Z;
  reserved_0 : Z;
  payload_len : Z;
  sequence_number : Z;
  timestamp : Z;
  control_epoch : Z;
  link_epoch : Z;
  reserved_1 : Z;
}.

#[global, refine] Instance CommonHeader_packed : Packed CommonHeader := {|
  members :=
    [("magic", U 4); ("protocol_version", U 2); ("packet_type", U 1); ("source_id", U 1); ("dest_id", U 1); ("reserved_0", U 1);
     ("payload_len", U 2); ("sequence_number", U 4); ("timestamp", U 8); ("control_epoch", U 4); ("link_epoch", U 2);
     ("reserved_1", U 2)];
  to_list a :=
    [magic a; protocol_version a; packet_type a; source_id a; dest_id a; reserved_0 a; payload_len a; sequence_number a;
     timestamp a; control_epoch a; link_epoch a; reserved_1 a];
  of_list vs :=
    match vs with
    | [a; b; c; d; e; f; g; h; i; j; k; l] => mkCommonHeader a b c d e f g h i j k l
    | _ => mkCommonHeader 0 0 0 0 0 0 0 0 0 0 0 0
    end;
|}.
Proof. all: packed. Defined.

Record DataSpecificHeader := mkDataSpecificHeader {
  frame_counter : Z;
  cpi_count : Z;
  pulse_index : Z;
  sample_offset : Z;
  sample_count : Z;
  data_timestamp : Z;
  health_summary : Z;
  channel_mask : Z;
  data_type : Z;
  beam_id : Z;
  frag_index : Z;
  total_frags : Z;
  tail_frag_payload_bytes : Z;
}.

#[global, refine] Instance DataSpecificHeader_packed : Packed DataSpecificHeader := {|
  members :=
    [("frame_counter", U 4); ("cpi_count", U 4); ("pulse_index", U 4); ("sample_offset", U 4); ("sample_count", U 4);
     ("data_timestamp", U 8); ("health_summary", U 2); ("channel_mask", U 1); ("data_type", U 1); ("beam_id", U 2);
     ("frag_index", U 2); ("total_frags", U 2); ("tail_frag_payload_bytes", U 2)];
  to_list a :=
    [frame_counter a; cpi_count a; pulse_index a; sample_offset a; sample_count a; data_timestamp a; health_summary a;
     channel_mask a; data_type a; beam_id a; frag_index a; total_frags a; tail_frag_payload_bytes a];
  of_list vs :=
    match vs with
    | [a; b; c; d; e; f; g; h; i; j; k; l; m] => mkDataSpecificHeader a b c d e f g h i j k l m
    | _ => mkDataSpecificHeader 0 0 0 0 0 0 0 0 0 0 0 0 0
    end;
|}.
Proof. all: packed. Defined.

(** The members of its snapshot and of its heartbeat. *)
Definition ExecutionSnapshot_members : list (string * ctype) :=
  [("azimuth_angle", I 2); ("elevation_angle", I 2); ("work_freq_index", U 1); ("reserved", U 1); ("mgc_gain", U 2);
   ("signal_bandwidth", U 2); ("pulse_width", U 2); ("pulse_period", U 2); ("accumulation_count", U 2); ("tilt_sensor_x", I 4);
   ("tilt_sensor_y", I 4); ("heading_angle", U 4); ("bds_longitude", I 4); ("bds_latitude", I 4); ("bds_altitude", I 4)].

Definition HeartbeatPayload_members : list (string * ctype) :=
  [("system_status_alive", U 4); ("system_status_state", U 4); ("core_temp", I 2); ("op_mode", U 1); ("time_coord_source", U 1);
   ("device_number", U 1); ("device_number[1]", U 1); ("device_number[2]", U 1); ("device_number[3]", U 1); ("time_offset", I 4);
   ("error_counters", U 4); ("error_counters[1]", U 4); ("error_counters[2]", U 4); ("error_counters[3]", U 4);
   ("lo_lock_flags", U 1); ("supply_current", U 1); ("tr_comm_status", U 1); ("reserved_align2", U 1);
   ("voltage_stability_flags", U 2); ("panel_temp", I 2); ("crc32c", U 4)].

End Common.

(** ** The structs that [Protocol] reads itself *)

#[export, refine] Instance ExecutionSnapshot_packed : Packed ExecutionSnapshot := {|
  members :=
    [("azimuth_angle", I 2); ("elevation_angle", I 2); ("work_freq_index", U 1); ("reserved", U 1); ("mgc_gain", U 2);
     ("signal_bandwidth", U 2); ("pulse_width", U 2); ("pulse_period", U 2); ("accumulation_count", U 2); ("tilt_sensor_x", I 4);
     ("tilt_sensor_y", I 4); ("heading_angle", U 4); ("bds_longitude", I 4); ("bds_latitude", I 4); ("bds_altitude", I 4)];
  to_list a :=
    [azimuth_angle a; elevation_angle a; work_freq_index a; snapshot_reserved a; mgc_gain a; signal_bandwidth a; pulse_width a;
     pulse_period a; accumulation_count a; tilt_sensor_x a; tilt_sensor_y a; heading_angle a; bds_longitude a; bds_latitude a;
     bds_altitude a];
  of_list vs :=
    match vs with
    | [a; b; c; d; e; f; g; h; i; j; k; l; m; n; o] => mkExecutionSnapshot a b c d e f g h i j k l m n o
    | _ => ExecutionSnapshot_zero
    end;
|}.
Proof. all: packed. Defined.

(** ** Drop reasons *)

Inductive DropReason :=
  | INVALID_MAGIC | VERSION_MISMATCH | DEST_ID_MISMATCH | LENGTH_MISMATCH | NON_DATA_PACKET | SEQUENCE_DUPLICATE
  | SEQUENCE_OUT_OF_WINDOW | BUFFER_OVERFLOW | TIMEOUT | CLOCK_UNLOCKED | LATE_FRAGMENT | REASM_DUPLICATE_FRAG
  | REASM_TIMEOUT | MAX_CONTEXTS_EXCEEDED | REASM_BYTES_OVERFLOW | DropReason_other (v : Z).

Definition DropReason_to_string (reason : DropReason) : string :=
  match reason with
  | INVALID_MAGIC => "INVALID_MAGIC"
  | VERSION_MISMATCH => "VERSION_MISMATCH"
  | DEST_ID_MISMATCH => "DEST_ID_MISMATCH"
  | LENGTH_MISMATCH => "LENGTH_MISMATCH"
  | NON_DATA_PACKET => "NON_DATA_PACKET"
  | SEQUENCE_DUPLICATE => "SEQUENCE_DUPLICATE"
  | SEQUENCE_OUT_OF_WINDOW => "SEQUENCE_OUT_OF_WINDOW"
  | BUFFER_OVERFLOW => "BUFFER_OVERFLOW"
  | TIMEOUT => "TIMEOUT"
  | CLOCK_UNLOCKED => "CLOCK_UNLOCKED"
  | LATE_FRAGMENT => "LATE_FRAGMENT"
  | REASM_DUPLICATE_FRAG => "REASM_DUPLICATE_FRAG"
  | REASM_TIMEOUT => "REASM_TIMEOUT"
  | MAX_CONTEXTS_EXCEEDED => "MAX_CONTEXTS_EXCEEDED"
  | REASM_BYTES_OVERFLOW => "REASM_BYTES_OVERFLOW"
  | DropReason_other _ => "UNKNOWN"
  end.

(** The number of an enumerator. *)
Definition DropReason_index (reason : DropReason) : Z :=
  match reason with
  | INVALID_MAGIC => 0 | VERSION_MISMATCH => 1 | DEST_ID_MISMATCH => 2 | LENGTH_MISMATCH => 3 | NON_DATA_PACKET => 4
  | SEQUENCE_DUPLICATE => 5 | SEQUENCE_OUT_OF_WINDOW => 6 | BUFFER_OVERFLOW => 7 | TIMEOUT => 8 | CLOCK_UNLOCKED => 9
  | LATE_FRAGMENT => 10 | REASM_DUPLICATE_FRAG => 11 | REASM_TIMEOUT => 12 | MAX_CONTEXTS_EXCEEDED => 13
  | REASM_BYTES_OVERFLOW => 14 | DropReason_other v => v
  end.

(** ** Hashes of keys *)

(** [std::hash] of an integer. *)
Class StdHash := std_hash : Z -> Z.

(** [h ^= hash(x) + 0x9e3779b97f4a7c15 + (h << 6) + (h >> 2)], in 64 bits. *)
Definition hash_combine `{StdHash} (h x : Z) : Z :=
  Z.lxor h (((u64 (std_hash x) +[64] 0x9e3779b97f4a7c15) +[64] u64 (Z.shiftl h 6)) +[64] Z.shiftr h 2).

Definition ReassemblyKeyHash `{StdHash} (key : ReassemblyKey) : Z :=
  let h := u64 (std_hash (key_control_epoch key)) in
  let h := hash_combine h (key_source_id key) in
  let h := hash_combine h (key_frame_counter key) in
  let h := hash_combine h (key_beam_id key) in
  let h := hash_combine h (key_cpi_count key) in
  let h := hash_combine h (key_pulse_index key) in
  let h := hash_combine h (key_channel_mask key) in
  hash_combine h (key_data_type key).

Definition DupCmdKeyHasher `{StdHash} (key : DupCmdCache.DupCmdKey) : Z :=
  let h := u64 (std_hash (DupCmdCache.dk_source_id key)) in
  let h := hash_combine h (DupCmdCache.dk_control_epoch key) in
  hash_combine h (DupCmdCache.dk_sequence_number key).

(** ** Lemmas *)

Lemma bits_range t v : (0 < size_of t)%nat -> 0 <= bits_of t v < 2 ^ (8 * Z.of_nat (size_of t)).
Proof. intros. apply wrap_range. lia. Qed.

Lemma value_of_bits t v : (0 < size_of t)%nat -> in_type t v -> value_of t (bits_of t v) = v.
Proof.
  intros Hp Hv. unfold bits_of. destruct t as [w|w]; cbn [value_of in_type size_of] in *; [by apply wrap_small|].
  assert (Hs : 2 ^ (8 * Z.of_nat w) = 2 * 2 ^ (8 * Z.of_nat w - 1)).
  { rewrite <-(Z.pow_succ_r 2) by lia. f_equal. lia. }
  unfold to_signed, wrap. set (P := 2 ^ (8 * Z.of_nat w - 1)) in *. rewrite Hs.
  destruct (Z_lt_le_dec v 0).
  - rewrite <-(Z_mod_plus_full v 1), Z.mod_small by lia. destruct (Z.leb_spec P (v + 1 * (2 * P))); lia.
  - rewrite Z.mod_small by lia. destruct (Z.leb_spec P v); lia.
Qed.

Lemma bits_of_value t b : (0 < size_of t)%nat -> 0 <= b < 2 ^ (8 * Z.of_nat (size_of t)) -> bits_of t (value_of t b) = b.
Proof.
  intros Hp Hb. unfold bits_of. destruct t as [w|w]; cbn [value_of size_of] in *; [by apply wrap_small|].
  apply to_signed_wrap; [lia|exact Hb].
Qed.

Section Laws.

Context {A : Type} `{Packed A}.

Lemma types_pos : Forall (fun t => (0 < size_of t)%nat) (types (A := A)).
Proof. unfold types. apply Forall_fmap, members_pos. Qed.

Lemma length_types a : length (types (A := A)) = length (to_list a).
Proof. unfold types. by rewrite length_fmap, length_to_list. Qed.

Lemma fields_of_values (ts : list ctype) vs : Forall (fun t => (0 < size_of t)%nat) ts -> length ts = length vs ->
  fields_ok (size_of <$> ts) (zip_with bits_of ts vs).
Proof.
  revert vs. induction ts as [|t ts IH]; intros [|v vs] Hp Hl; try done; [constructor|].
  apply Forall_cons in Hp as [Ht Hp]. constructor; [by apply bits_range|]. apply IH; [done|]. cbn in Hl. lia.
Qed.

Lemma values_of_fields (ts : list ctype) vs : Forall (fun t => (0 < size_of t)%nat) ts -> Forall2 in_type ts vs ->
  zip_with value_of ts (zip_with bits_of ts vs) = vs.
Proof.
  intros Hp H2. induction H2 as [|t v ts vs Hv _ IH]; [done|]. apply Forall_cons in Hp as [Ht Hp]. cbn.
  by rewrite value_of_bits, IH.
Qed.

Lemma fields_of_fields (ts : list ctype) bs : Forall (fun t => (0 < size_of t)%nat) ts -> fields_ok (size_of <$> ts) bs ->
  zip_with bits_of ts (zip_with value_of ts bs) = bs.
Proof.
  revert bs. induction ts as [|t ts IH]; intros bs Hp Hb; inversion Hb as [|? b ? bs' Hb1 Hb2]; subst; [done|].
  apply Forall_cons in Hp as [Ht Hp]. cbn. by rewrite bits_of_value, IH.
Qed.

Lemma length_struct (a : A) : Z.of_nat (length (store a)) = sizeof A.
Proof.
  unfold store, sizeof. rewrite length_encode_fields; [done|]. unfold struct_layout.
  rewrite length_fmap, length_zip_with, (length_types a). lia.
Qed.

(** A struct is read back from its bytes, whatever follows them, and bytes are written back as they were. *)
Theorem wire_roundtrip (a : A) (rest bs : bytes) :
  (typed a -> load (store a ++ rest) = a) /\ (Z.of_nat (length bs) = sizeof A -> bytes_ok bs -> store (load bs : A) = bs).
Proof.
  split.
  - intros Ht. unfold load, store. rewrite decode_encode_fields by (apply fields_of_values; [apply types_pos|apply length_types]).
    rewrite values_of_fields by (exact Ht || apply types_pos). apply of_to_list.
  - intros Hl Hb. unfold sizeof in Hl. apply Nat2Z.inj in Hl. unfold store, load.
    rewrite to_of_list, fields_of_fields.
    + by apply encode_decode_fields.
    + apply types_pos.
    + apply decode_fields_ok; [by rewrite Hl|done].
    + rewrite length_zip_with, length_decode_fields. unfold struct_layout, types. rewrite !length_fmap. lia.
Qed.

End Laws.

(** ** Theorems *)

(** The assertions on sizes and offsets hold. *)
Theorem layouts_as_asserted :
  sizeof ControlTableHeader = 12 /\ sizeof ControlBeamItem = 32 /\ sizeof DupCmdCache.ScheduleApplyAckPayload = 24 /\
  sizeof HeartbeatPayload = HEARTBEAT_PAYLOAD_SIZE /\ sizeof RmaHeader = 16 /\ sizeof ExecutionSnapshot = ExecutionSnapshot_SIZE /\
  sizeof Common.CommonHeader = COMMON_HEADER_SIZE /\ sizeof Common.DataSpecificHeader = DataSpecificHeader_SIZE /\
  offsetof HeartbeatPayload "crc32c" = Some (Z.of_nat kHeartbeatCrcOffset) /\
  offsetof Common.DataSpecificHeader "tail_frag_payload_bytes" = Some 38.
Proof. vm_compute. by repeat split. Qed.

(** The snapshot and the heartbeat of [common/types.h] are those of the protocol. *)
Theorem common_structs_same :
  Common.ExecutionSnapshot_members = members ExecutionSnapshot /\ Common.HeartbeatPayload_members = members HeartbeatPayload.
Proof. by split. Qed.

Lemma snapshot_load_eq bs : ExecutionSnapshot_load bs = load bs.
Proof. reflexivity. Qed.

(** *** Heartbeats *)

Lemma heartbeat_crc_member (p : HeartbeatPayload) rest : typed p -> le_load (take 4 (drop 44 (store p ++ rest))) = hb_crc32c p.
Proof.
  intros Hp. destruct (wire_roundtrip p rest []) as [Hr _]. rewrite <-(Hr Hp) at 2. unfold load. cbn. by rewrite !drop_drop.
Qed.

Lemma crc32c_prefix bs rest n : (n <= length bs)%nat -> crc32c (Some (bs ++ rest)) n = crc32c (Some bs) n.
Proof. intros. unfold crc32c. by rewrite take_app_le. Qed.

(** The validator accepts a heartbeat exactly when its member [crc32c] is the checksum of the members before it. *)
Theorem heartbeat_checked (p : HeartbeatPayload) (rest : bytes) (Hp : typed p) :
  verify_heartbeat_crc (Some (store p ++ rest)) (sizeof HeartbeatPayload) = true <-> hb_crc32c p = crc32c (Some (store p)) 44.
Proof.
  rewrite verify_heartbeat_crc_spec. unfold heartbeat_sealed. rewrite heartbeat_crc_member by done.
  pose proof (length_struct p) as Hl. assert (Hs : sizeof HeartbeatPayload = 48) by done. rewrite crc32c_prefix by lia.
  rewrite Hs. unfold HEARTBEAT_PAYLOAD_SIZE. split; [by intros []|intros ->; by split].
Qed.

(** The checksum written into a heartbeat. *)
Definition seal (p : HeartbeatPayload) : HeartbeatPayload :=
  let '(mkHeartbeatPayload a b c d e f g h i j k l m n _) := p in
  mkHeartbeatPayload a b c d e f g h i j k l m n (crc32c (Some (store p)) 44).

Lemma store_crc a b c d e f g h i j k l m n x y :
  take 44 (store (mkHeartbeatPayload a b c d e f g h i j k l m n x)) = take 44 (store (mkHeartbeatPayload a b c d e f g h i j k l m n y)).
Proof. destruct f as [[[]]], h as [[[]]]. reflexivity. Qed.

Lemma crc32c_u32 bs n : bytes_ok bs -> is_u32 (crc32c (Some bs) n).
Proof.
  intros Hb. rewrite crc32c_take_ref by done. apply lxor_range; [lia| |done]. apply crc_ref_range; [done|by apply bytes_ok_take].
Qed.

Theorem sealed_heartbeat_accepted (p : HeartbeatPayload) (rest : bytes) (Hp : typed p) :
  verify_heartbeat_crc (Some (store (seal p) ++ rest)) (sizeof HeartbeatPayload) = true.
Proof.
  apply heartbeat_checked.
  - unfold typed in *. destruct p as [? ? ? ? ? [[[]]] ? [[[]]] ? ? ? ? ? ? ?]. cbn - [crc32c store] in Hp |- *.
    repeat (apply Forall2_cons in Hp as [? Hp]; apply Forall2_cons_2; [done|]).
    apply Forall2_cons_2; [apply crc32c_u32, encode_fields_ok|constructor].
  - unfold seal. destruct p as [a b c d e f g h i j k l m n o]. cbn [hb_crc32c]. unfold crc32c. do 2 f_equal. apply store_crc.
Qed.

(** The heartbeat of the emulator is a sealed one: alive, 45 degrees, mode 1, and zeros. *)
Theorem emulator_heartbeat (cfg : GeneratorConfig) (now : Z) (g : PacketGenerator) :
  exists hd, (make_heartbeat_packet cfg now g).1 =
    hd ++ store (seal (mkHeartbeatPayload 1 0 45 1 0 (0, 0, 0, 0) 0 (0, 0, 0, 0) 0 0 0 0 0 0 0)) /\ Z.of_nat (length hd) = COMMON_HEADER_SIZE.
Proof.
  destruct g as [sq fc cc hb]. unfold make_heartbeat_packet. cbn [fill_common_header fst].
  eexists. split; [f_equal; vm_compute; reflexivity|reflexivity].
Qed.

(** *** The two headers *)

(** Little-endian digits. *)
Lemma digits_end x : x `mod` 256 + 256 * 0 = x `mod` 256.
Proof. lia. Qed.

Lemma digits_join x m : 0 < m -> x `mod` 256 + 256 * ((x / 256) `mod` m) = x `mod` (256 * m).
Proof. intros. by rewrite Z.rem_mul_r by lia. Qed.

(** Read with the header of [common/types.h], a packet of the receiver has the magic number in place and nothing else: the
    identity of the source is the top byte of the sequence number, the length a part of the time stamp. *)
Theorem common_header_differs (h : CommonHeader) (rest : bytes) (Hh : CommonHeader_ok h) :
  let c : Common.CommonHeader := load (CommonHeader_bytes h ++ rest) in
  Common.magic c = magic h /\ Common.protocol_version c = sequence_number h `mod` 2 ^ 16 /\
  Common.source_id c = sequence_number h / 2 ^ 24 /\ Common.payload_len c = (timestamp h / 2 ^ 16) `mod` 2 ^ 16 /\
  Common.sequence_number c = timestamp h / 2 ^ 32.
Proof.
  destruct h as [mg sq ts pl ty pv src dst ep ext r1 r2 r3]. unfold CommonHeader_ok, fields_ok in Hh. cbn [CommonHeader_fields] in Hh.
  repeat (apply Forall2_cons in Hh as [?Hf Hh]). unfold in_range in *. clear Hh.
  change (2 ^ (8 * Z.of_nat 4)) with 4294967296 in *. change (2 ^ (8 * Z.of_nat 8)) with 18446744073709551616 in *.
  cbn in *. change (2 ^ 16) with 65536. change (2 ^ 24) with 16777216. change (2 ^ 32) with 4294967296. rewrite !digits_end, !digits_join by lia.
  change (256 * 256) with 65536. change (256 * 65536) with 16777216. change (256 * 16777216) with 4294967296.
  clear - Hf Hf0 Hf1. split_and!; Z.div_mod_to_equations; lia.
Qed.

(** The headers of data packets differ in one 16-bit word: 12 bits of channels and 4 of type, or 8 and 8. *)
Theorem common_data_header_differs (h : DataSpecificHeader) (rest : bytes) (Hh : DataSpecificHeader_ok h) :
  let c : Common.DataSpecificHeader := load (DataSpecificHeader_bytes h ++ rest) in
  [Common.frame_counter c; Common.cpi_count c; Common.pulse_index c; Common.sample_offset c; Common.sample_count c;
   Common.data_timestamp c; Common.health_summary c; Common.beam_id c; Common.frag_index c; Common.total_frags c;
   Common.tail_frag_payload_bytes c] =
  [frame_counter h; cpi_count h; pulse_index h; sample_offset h; sample_count h; data_timestamp h; health_summary h; beam_id h;
   frag_index h; total_frags h; tail_frag_payload_bytes h] /\
  Common.channel_mask c = get_channel_mask h `mod` 2 ^ 8 /\
  Common.data_type c = 16 * get_data_type_raw h + get_channel_mask h / 2 ^ 8.
Proof.
  destruct h as [f1 f2 f3 f4 f5 f6 f7 f8 f9 f10 f11 f12]. unfold DataSpecificHeader_ok, fields_ok in Hh.
  repeat (apply Forall2_cons in Hh as [?Hf Hh]). unfold in_range in *. unfold get_channel_mask, get_data_type_raw.
  change (2 ^ (8 * Z.of_nat 4)) with 4294967296 in *. change (2 ^ (8 * Z.of_nat 8)) with 18446744073709551616 in *.
  change (2 ^ (8 * Z.of_nat 2)) with 65536 in *. rewrite channel_field_mod, type_field_shift, Z.shiftr_div_pow2 by done.
  unfold RESERVED_HEALTH_DATA_TYPE_SHIFT. change (2 ^ 12) with 4096. rewrite Z.div_mul by done. unfold wrap.
  change (2 ^ 16) with 65536. change (2 ^ 8) with 256. cbn in *. rewrite !digits_end, !digits_join by lia.
  change (256 * 256) with 65536. change (256 * 65536) with 16777216. change (256 * 16777216) with 4294967296.
  change (256 * 4294967296) with 1099511627776. change (256 * 1099511627776) with 281474976710656.
  change (256 * 281474976710656) with 72057594037927936. change (256 * 72057594037927936) with 18446744073709551616.
  split_and!; [by rewrite !Z.mod_small by done|Z.div_mod_to_equations; lia..].
Qed.

(** *** Drop reasons *)

(** The metrics know every drop reason by its name, and count it under its number and label; a number without an
    enumerator is counted as a length mismatch. *)
Theorem drop_reasons_known (r : DropReason) :
  let index := Metrics.drop_reason_index_from_string (DropReason_to_string r) in
  match r with
  | DropReason_other _ => index = DropReason_index LENGTH_MISMATCH
  | _ => index = DropReason_index r /\ Metrics.DROP_REASON_LABELS !! Z.to_nat index = Some (DropReason_to_string r)
  end.
Proof. destruct r; vm_compute; by repeat split. Qed.

(** *** Hashes *)

Lemma hash_combine_u64 `{StdHash} h x : is_u64 h -> is_u64 (hash_combine h x).
Proof. intros. apply lxor_range; [lia|done|]. apply wrap_range. lia. Qed.

(** The hashes stay in 64 bits. *)
Theorem key_hashes_u64 `{StdHash} (k : ReassemblyKey) (d : DupCmdCache.DupCmdKey) :
  is_u64 (ReassemblyKeyHash k) /\ is_u64 (DupCmdKeyHasher d).
Proof. split; repeat apply hash_combine_u64; apply wrap_range; lia. Qed.

End WireFormats.
