(* ===== verification/Pcap.v ===== *)
(** Capture files: the format that [PcapWriter] writes
    ([src/m01_receiver/capture/pcap_writer.cpp]) and the readers of the tools
    ([tools/pcap_replay.cpp], [tools/pcap_analyze.cpp], whose reading functions are the
    same), with the tests the two programs make on a record; the programs are in
    [PcapReplay] and [PcapAnalyze].  A file is a list of bytes; the exceptions of the readers are error values. *)

From S2P Require Import Prelude Float Protocol.
From stdpp Require Import list.
Open Scope Z_scope.

Module Pcap.
Import Float Protocol.

(** ** Writing *)

Definition kPcapMagic : Z := 0xA1B2C3D4.
Definition kPcapVersionMajor : Z := 2.
Definition kPcapVersionMinor : Z := 4.
Definition kPcapThisZone : Z := 0.
Definition kPcapSigFigs : Z := 0.
Definition kPcapSnapLen : Z := 65535.
Definition kPcapLinkTypeUser0 : Z := 147.
Definition kPcapGlobalHeaderSize : Z := 24.
Definition kPcapRecordHeaderSize : Z := 16.

Definition write_global_header : bytes :=
  encode_fields [4; 2; 2; 4; 4; 4; 4]%nat
    [kPcapMagic; kPcapVersionMajor; kPcapVersionMinor; kPcapThisZone; kPcapSigFigs; kPcapSnapLen; kPcapLinkTypeUser0].

Definition write_record_header (ts_sec ts_usec incl_len orig_len : Z) : bytes :=
  encode_fields [4; 4; 4; 4]%nat [ts_sec; ts_usec; incl_len; orig_len].

(** A packet waiting to be written. *)
Record PendingPacket := mkPendingPacket { timestamp_us : Z; data : bytes }.

(** The record of a packet. *)
Definition record_bytes (p : PendingPacket) : bytes :=
  let incl_len := u32 (Z.of_nat (length (data p))) in
  write_record_header (u32 (timestamp_us p / 1000000)) (u32 (timestamp_us p `mod` 1000000)) incl_len incl_len ++ data p.

Definition file_bytes (ps : list PendingPacket) : bytes := write_global_header ++ concat (record_bytes <$> ps).

(** ** Reading *)

Definition byte_at (bs : bytes) (i : nat) : Z := nth i bs 0.

Definition read_u16 (bs : bytes) (offset : nat) (little_endian : bool) : Z :=
  if little_endian
  then Z.lor (byte_at bs offset) (u16 (Z.shiftl (byte_at bs (offset + 1)) 8))
  else Z.lor (u16 (Z.shiftl (byte_at bs offset) 8)) (byte_at bs (offset + 1)).

Definition read_u32 (bs : bytes) (offset : nat) (little_endian : bool) : Z :=
  if little_endian
  then Z.lor (Z.lor (Z.lor (byte_at bs offset) (Z.shiftl (byte_at bs (offset + 1)) 8))
         (Z.shiftl (byte_at bs (offset + 2)) 16)) (Z.shiftl (byte_at bs (offset + 3)) 24)
  else Z.lor (Z.lor (Z.lor (Z.shiftl (byte_at bs offset) 24) (Z.shiftl (byte_at bs (offset + 1)) 16))
         (Z.shiftl (byte_at bs (offset + 2)) 8)) (byte_at bs (offset + 3)).

Record PcapFormat := mkPcapFormat {
  little_endian : bool;
  timestamp_nanoseconds : bool;
  snaplen : Z;
  network : Z;
}.

(** The format of the file and what follows the header. *)
Definition read_global_header (file : bytes) : option (PcapFormat * bytes) :=
  let header := take 24 file in
  if negb (length header =? 24)%nat then None
  else
    let magic_le := read_u32 header 0 true in
    let magic_be := read_u32 header 0 false in
    fmt ←
      (if magic_le =? 0xA1B2C3D4 then Some (true, false)
       else if magic_le =? 0xA1B23C4D then Some (true, true)
       else if magic_be =? 0xA1B2C3D4 then Some (false, false)
       else if magic_be =? 0xA1B23C4D then Some (false, true)
       else None);
    let '(le, ns) := fmt in
    if negb (read_u16 header 4 le =? 2) || negb (read_u16 header 6 le =? 4) then None
    else Some (mkPcapFormat le ns (read_u32 header 16 le) (read_u32 header 20 le), drop 24 file).

Record PcapRecord := mkPcapRecord { ts_sec : Z; ts_frac : Z; payload : bytes }.

Inductive ReadError := TruncatedHeader | InvalidLengths | TruncatedPayload.

Inductive ReadResult := End_of_file | Bad (e : ReadError) | Good (r : PcapRecord) (rest : bytes).

Definition read_record (fmt : PcapFormat) (file : bytes) : ReadResult :=
  let raw := take 16 file in
  if (length raw =? 0)%nat then End_of_file
  else if negb (length raw =? 16)%nat then Bad TruncatedHeader
  else
    let u32_at offset := read_u32 raw offset (little_endian fmt) in
    let incl_len := u32_at 8%nat in
    let orig_len := u32_at 12%nat in
    if (incl_len =? 0) || (orig_len =? 0) || (snaplen fmt <? incl_len) || (orig_len <? incl_len)
    then Bad InvalidLengths
    else
      let body := drop 16 file in
      let n := Z.to_nat incl_len in
      if (length body <? n)%nat then Bad TruncatedPayload
      else Good (mkPcapRecord (u32_at 0%nat) (u32_at 4%nat) (take n body)) (drop n body).

(** The records up to the end of the file or up to an exception; every record takes
    bytes, so [length file] rounds are enough. *)
Fixpoint read_records (n : nat) (fmt : PcapFormat) (file : bytes) : list PcapRecord * option ReadError :=
  match n with
  | O => ([], None)
  | S n =>
    match read_record fmt file with
    | End_of_file => ([], None)
    | Bad e => ([], Some e)
    | Good r rest => let '(rs, e) := read_records n fmt rest in (r :: rs, e)
    end
  end.

(** The records of a file, and the exception that ends it if there is one; [None] when the header is not accepted. *)
Definition read_file (file : bytes) : option (PcapFormat * list PcapRecord * option ReadError) :=
  '(fmt, rest) ← read_global_header file;
  let '(rs, e) := read_records (length file) fmt rest in
  Some (fmt, rs, e).

(** [epoch_seconds]. *)
Definition d1e9 : Z := 0x41CDCD6500000000.
Definition d1e6 : Z := 0x412E848000000000.

Definition epoch_seconds (ns : bool) (r : PcapRecord) : Z :=
  let divisor := if ns then d1e9 else d1e6 in
  fadd binary64 (of_Z binary64 (ts_sec r)) (fdiv binary64 (of_Z binary64 (ts_frac r)) divisor).

Lemma epoch_seconds_eq ns r :
  epoch_seconds ns r =
    fadd binary64 (of_Z binary64 (ts_sec r)) (fdiv binary64 (of_Z binary64 (ts_frac r)) (if ns then d1e9 else d1e6)).
Proof. done. Qed.

(** ** [pcap_replay] *)

(** The options of the time window, as [double] bit patterns. *)
Record ReplayOptions := mkReplayOptions { start_time_epoch : option Z; end_time_epoch : option Z }.

Definition should_send (opt : ReplayOptions) (epoch : Z) : bool :=
  if match start_time_epoch opt with Some t => fltb binary64 epoch t | None => false end then false
  else if match end_time_epoch opt with Some t => fltb binary64 t epoch | None => false end then false
  else true.

Record ReplayStats := mkReplayStats {
  sent_packets : Z;
  sent_bytes : Z;
  file_packets : Z;
  filtered_packets : Z;
}.

(** ** [pcap_analyze] *)

Record TypeCounter := mkTypeCounter { tc_packets : Z; tc_bytes : Z }.

(** What two consecutive sequence numbers count as. *)
Definition is_wraparound (prev seq : Z) : bool := (seq <? prev) && (0x80000000 <? prev -[32] seq).
Definition is_gap (prev seq : Z) : bool := negb (seq <? prev) && (1 <? seq -[32] prev).

(** ** The format, in either byte order *)

(** An integer of [n] bytes in the byte order of the machine that wrote the file. *)
Definition store (le : bool) (n : nat) (x : Z) : bytes := if le then le_store n x else rev (le_store n x).

Definition header_as (le ns : bool) : bytes :=
  store le 4 (if ns then 0xA1B23C4D else kPcapMagic) ++ store le 2 2 ++ store le 2 4 ++ store le 4 0 ++ store le 4 0 ++
  store le 4 kPcapSnapLen ++ store le 4 kPcapLinkTypeUser0.

Definition record_as (le : bool) (r : PcapRecord) : bytes :=
  let n := Z.of_nat (length (payload r)) in
  store le 4 (ts_sec r) ++ store le 4 (ts_frac r) ++ store le 4 n ++ store le 4 n ++ payload r.

Definition record_ok (r : PcapRecord) : Prop :=
  is_u32 (ts_sec r) /\ is_u32 (ts_frac r) /\ 0 < Z.of_nat (length (payload r)) <= kPcapSnapLen.

Lemma length_store le n x : length (store le n x) = n.
Proof. destruct le; cbn; [|rewrite length_rev]; apply length_le_store. Qed.

Lemma lor4 b0 b1 b2 b3 :
  byte_ok b0 -> byte_ok b1 -> byte_ok b2 -> byte_ok b3 ->
  Z.lor (Z.lor (Z.lor b0 (Z.shiftl b1 8)) (Z.shiftl b2 16)) (Z.shiftl b3 24) = le_load [b0; b1; b2; b3].
Proof.
  unfold byte_ok. intros. rewrite (lor_shiftl_add 8 b0 b1) by (unfold in_range; lia).
  change (2 ^ 8) with 256. rewrite (lor_shiftl_add 16 _ b2) by (unfold in_range; lia).
  change (2 ^ 16) with 65536. rewrite (lor_shiftl_add 24 _ b3) by (unfold in_range; lia).
  change (2 ^ 24) with 16777216. cbn [le_load]. lia.
Qed.

Lemma lor4_be b0 b1 b2 b3 :
  Z.lor (Z.lor (Z.lor b3 b2) b1) b0 = Z.lor (Z.lor (Z.lor b0 b1) b2) b3.
Proof.
  rewrite (Z.lor_comm (Z.lor (Z.lor b0 b1) b2) b3), (Z.lor_comm (Z.lor b0 b1) b2), (Z.lor_comm b0 b1).
  by rewrite !Z.lor_assoc.
Qed.

Lemma byte_at_app pre bs post i : (i < length bs)%nat -> byte_at (pre ++ bs ++ post) (length pre + i) = byte_at bs i.
Proof. intros Hi. unfold byte_at. rewrite app_nth2_plus, app_nth1 by done. done. Qed.

Lemma byte_at_app_0 pre bs post : (0 < length bs)%nat -> byte_at (pre ++ bs ++ post) (length pre) = byte_at bs 0.
Proof. intros Hi. rewrite <-(byte_at_app pre bs post 0) by done. by rewrite Nat.add_0_r. Qed.

(** Both orders read back. *)
Lemma read_u32_store le pre x post :
  read_u32 (pre ++ store le 4 x ++ post) (length pre) le = u32 x.
Proof.
  assert (Hb : exists b0 b1 b2 b3, le_store 4 x = [b0; b1; b2; b3] /\ byte_ok b0 /\ byte_ok b1 /\ byte_ok b2 /\ byte_ok b3).
  { pose proof (le_store_ok 4 x) as Hok. cbn [le_store] in Hok |- *. eexists _, _, _, _. split; [reflexivity|].
    inversion Hok as [|? ? H0 Hok1]; subst. inversion Hok1 as [|? ? H1 Hok2]; subst.
    inversion Hok2 as [|? ? H2 Hok3]; subst. by inversion Hok3. }
  destruct Hb as (b0 & b1 & b2 & b3 & Hs & H0 & H1 & H2 & H3).
  assert (Hx : u32 x = le_load [b0; b1; b2; b3]) by (by rewrite <-Hs, le_load_store).
  unfold read_u32. rewrite !byte_at_app, byte_at_app_0 by (rewrite length_store; lia).
  rewrite Hx, <-lor4 by done. destruct le; unfold store; rewrite Hs; unfold byte_at; cbn [rev app nth]; [done|].
  by rewrite lor4_be.
Qed.

Lemma read_u16_store le pre x post :
  read_u16 (pre ++ store le 2 x ++ post) (length pre) le = u16 x.
Proof.
  assert (Hb : exists b0 b1, le_store 2 x = [b0; b1] /\ byte_ok b0 /\ byte_ok b1).
  { pose proof (le_store_ok 2 x) as Hok. cbn [le_store] in Hok |- *. eexists _, _. split; [reflexivity|].
    inversion Hok as [|? ? H0 Hok1]; subst. by inversion Hok1. }
  destruct Hb as (b0 & b1 & Hs & H0 & H1).
  assert (Hx : u16 x = le_load [b0; b1]) by (by rewrite <-Hs, le_load_store).
  assert (Hsh : u16 (Z.shiftl b1 8) = Z.shiftl b1 8).
  { apply wrap_small. unfold in_range, byte_ok in *. rewrite Z.shiftl_mul_pow2 by lia. change (2 ^ 8) with 256. lia. }
  assert (Hlor : Z.lor b0 (Z.shiftl b1 8) = le_load [b0; b1]).
  { unfold byte_ok in *. rewrite lor_shiftl_add by (unfold in_range; lia). cbn [le_load]. change (2 ^ 8) with 256. lia. }
  unfold read_u16. rewrite !byte_at_app, byte_at_app_0 by (rewrite length_store; lia).
  rewrite Hx. destruct le; unfold store; rewrite Hs; unfold byte_at; cbn [rev app nth]; rewrite Hsh; [done|].
  by rewrite Z.lor_comm.
Qed.

Definition format_as (le ns : bool) : PcapFormat := mkPcapFormat le ns kPcapSnapLen kPcapLinkTypeUser0.

Lemma read_record_as le ns r rest :
  record_ok r -> read_record (format_as le ns) (record_as le r ++ rest) = Good r rest.
Proof.
  intros (Hs & Hf & Hn). unfold read_record, record_as, kPcapSnapLen in *.
  set (n := Z.of_nat (length (payload r))) in *.
  set (s0 := store le 4 (ts_sec r)). set (s1 := store le 4 (ts_frac r)). set (s2 := store le 4 n).
  assert (Hl : length (s0 ++ s1 ++ s2 ++ s2) = 16%nat) by (unfold s0, s1, s2; by rewrite !length_app, !length_store).
  replace ((s0 ++ s1 ++ s2 ++ s2 ++ payload r) ++ rest) with ((s0 ++ s1 ++ s2 ++ s2) ++ payload r ++ rest)
    by (by rewrite <-!app_assoc).
  rewrite take_app_length', drop_app_length', Hl by done. cbn [Nat.eqb negb little_endian format_as].
  assert (H0 : read_u32 (s0 ++ s1 ++ s2 ++ s2) 0 le = ts_sec r).
  { etrans; [exact (read_u32_store le [] (ts_sec r) (s1 ++ s2 ++ s2))|by apply wrap_small]. }
  assert (H4 : read_u32 (s0 ++ s1 ++ s2 ++ s2) 4 le = ts_frac r).
  { replace 4%nat with (length s0) by apply length_store. 
    etrans; [exact (read_u32_store le s0 (ts_frac r) (s2 ++ s2))|by apply wrap_small]. }
  assert (H8 : read_u32 (s0 ++ s1 ++ s2 ++ s2) 8 le = n).
  { replace 8%nat with (length (s0 ++ s1)) by (unfold s0, s1; by rewrite length_app, !length_store).
    rewrite (app_assoc s0). etrans; [exact (read_u32_store le (s0 ++ s1) n s2)|apply wrap_small; unfold in_range; lia]. }
  assert (H12 : read_u32 (s0 ++ s1 ++ s2 ++ s2) 12 le = n).
  { replace 12%nat with (length (s0 ++ s1 ++ s2)) by (unfold s0, s1, s2; by rewrite !length_app, !length_store).
    replace (s0 ++ s1 ++ s2 ++ s2) with ((s0 ++ s1 ++ s2) ++ s2 ++ []) by (by rewrite app_nil_r, <-!app_assoc).
    etrans; [exact (read_u32_store le (s0 ++ s1 ++ s2) n [])|apply wrap_small; unfold in_range; lia]. }
  rewrite H0, H4, H8, H12. cbn [snaplen format_as]. unfold kPcapSnapLen.
  destruct (Z.eqb_spec n 0); [lia|]. destruct (Z.ltb_spec 65535 n); [lia|]. destruct (Z.ltb_spec n n); [lia|]. cbn [orb].
  assert (Hnat : Z.to_nat n = length (payload r)) by (unfold n; lia). rewrite Hnat, length_app.
  destruct (Nat.ltb_spec (length (payload r) + length rest) (length (payload r))); [lia|].
  rewrite take_app_length, drop_app_length. by destruct r.
Qed.

Lemma read_records_as le ns rs n :
  Forall record_ok rs -> (length rs < n)%nat ->
  read_records n (format_as le ns) (concat (record_as le <$> rs)) = (rs, None).
Proof.
  intros Hrs. revert n. induction Hrs as [|r rs Hr _ IH]; intros [|n] Hn; cbn [length] in Hn; try lia; [done|].
  cbn [fmap list_fmap concat read_records]. rewrite read_record_as by done. by rewrite IH by lia.
Qed.

Lemma length_header_as le ns : length (header_as le ns) = 24%nat.
Proof. unfold header_as. by rewrite !length_app, !length_store. Qed.

Lemma read_global_header_as le ns rest :
  read_global_header (header_as le ns ++ rest) = Some (format_as le ns, rest).
Proof.
  unfold read_global_header. rewrite take_app_length', drop_app_length' by (by rewrite length_header_as).
  rewrite length_header_as. destruct le, ns; reflexivity.
Qed.

Lemma length_record_as le r : (1 <= length (record_as le r))%nat.
Proof. unfold record_as. rewrite !length_app, !length_store. lia. Qed.

Lemma length_records_as le rs : (length rs <= length (concat (record_as le <$> rs)))%nat.
Proof.
  induction rs as [|r rs IH]; [done|]. cbn [fmap list_fmap concat length]. rewrite length_app.
  pose proof (length_record_as le r). lia.
Qed.

(** The tools read a capture in either byte order and with either resolution of the time
    stamps: all records, in order, with nothing left over. *)
Lemma read_file_as le ns rs :
  Forall record_ok rs ->
  read_file (header_as le ns ++ concat (record_as le <$> rs)) = Some (format_as le ns, rs, None).
Proof.
  intros Hrs. unfold read_file. rewrite read_global_header_as. cbn [mbind option_bind].
  pose proof (length_records_as le rs). rewrite read_records_as; [done|done|].
  rewrite length_app, length_header_as. lia.
Qed.

(** The record of a packet. *)
Definition record_of (p : PendingPacket) : PcapRecord :=
  mkPcapRecord (u32 (timestamp_us p / 1000000)) (timestamp_us p `mod` 1000000) (data p).

Definition pending_ok (p : PendingPacket) : Prop := 0 < Z.of_nat (length (data p)) <= kPcapSnapLen.

Lemma record_of_ok p : pending_ok p -> record_ok (record_of p).
Proof.
  intros Hp. split; [apply wrap_range; lia|]. split; [|exact Hp].
  cbn [record_of ts_frac]. pose proof (Z.mod_pos_bound (timestamp_us p) 1000000). unfold in_range. lia.
Qed.

Lemma record_bytes_as p : pending_ok p -> record_bytes p = record_as true (record_of p).
Proof.
  intros Hp. unfold pending_ok, kPcapSnapLen in Hp. unfold record_bytes, record_as, record_of, write_record_header.
  cbn [payload ts_sec ts_frac encode_fields]. rewrite (wrap_small 32 (Z.of_nat _)) by (unfold in_range; lia).
  rewrite (wrap_small 32 (timestamp_us p `mod` 1000000))
    by (pose proof (Z.mod_pos_bound (timestamp_us p) 1000000); unfold in_range; lia).
  unfold store. by rewrite <-!app_assoc.
Qed.

Lemma file_bytes_as ps :
  Forall pending_ok ps -> file_bytes ps = header_as true false ++ concat (record_as true <$> (record_of <$> ps)).
Proof.
  intros Hps. unfold file_bytes. f_equal. induction Hps as [|p ps Hp _ IH]; [done|].
  cbn [fmap list_fmap concat]. by rewrite record_bytes_as, IH.
Qed.

(** *** Any file *)

Lemma byte_at_ok bs i : bytes_ok bs -> byte_ok (byte_at bs i).
Proof.
  intros Hb. unfold byte_at. destruct (nth_in_or_default i bs 0) as [Hin|E]; [|by rewrite E].
  unfold bytes_ok in Hb. rewrite Forall_forall in Hb. apply Hb. by apply list_elem_of_In.
Qed.

Lemma read_u32_range bs off le : bytes_ok bs -> is_u32 (read_u32 bs off le).
Proof.
  intros Hb. pose proof (fun i => byte_at_ok bs i Hb) as H. unfold read_u32.
  destruct le; [rewrite lor4 by apply H|rewrite lor4_be, lor4 by apply H].
  all: eapply (le_load_bound [_; _; _; _]); repeat constructor; apply H.
Qed.

(** The times of the records of a file are 32-bit integers, and there are fewer records than bytes. *)
Lemma read_records_range n fmt bs : bytes_ok bs ->
  Forall (fun r => is_u32 (ts_sec r) /\ is_u32 (ts_frac r)) (fst (read_records n fmt bs)) /\
  (length (fst (read_records n fmt bs)) <= n)%nat.
Proof.
  revert bs. induction n as [|n IH]; intros bs Hb; cbn [read_records]; [split; [constructor|done]|].
  destruct (read_record fmt bs) as [|e|r rest] eqn:E; [split; [constructor|cbn; lia]..|].
  assert (Hr : (is_u32 (ts_sec r) /\ is_u32 (ts_frac r)) /\ bytes_ok rest).
  { unfold read_record in E. repeat case_match; try done; simplify_eq. cbn [ts_sec ts_frac].
    split; [split; apply read_u32_range; by apply bytes_ok_take|by repeat apply bytes_ok_drop]. }
  destruct Hr as [Hr Hrest]. specialize (IH rest Hrest). destruct (read_records n fmt rest) as [rs e]. cbn [fst length] in *.
  destruct IH as [IH1 IH2]. split; [by constructor|lia].
Qed.

Lemma read_global_header_rest bs fmt rest : read_global_header bs = Some (fmt, rest) -> rest = drop 24 bs.
Proof.
  unfold read_global_header. destruct (negb _); [done|]. intros H. apply bind_Some in H as ([le ns] & _ & H).
  by destruct (_ || _); simplify_eq.
Qed.

Lemma read_file_range bs fmt rs e : bytes_ok bs -> read_file bs = Some (fmt, rs, e) ->
  Forall (fun r => is_u32 (ts_sec r) /\ is_u32 (ts_frac r)) rs /\ (length rs <= length bs)%nat.
Proof.
  intros Hb H. unfold read_file in H. apply bind_Some in H as ([fmt' rest] & ->%read_global_header_rest & H).
  pose proof (read_records_range (length bs) fmt' (drop 24 bs) (bytes_ok_drop 24 bs Hb)) as Hr.
  destruct (read_records _ _ _) as [rs' e']. by simplify_eq.
Qed.

(** ** The tools *)

(** The records outside the time window. *)
Definition out_of_window (opt : ReplayOptions) (ns : bool) (rs : list PcapRecord) : nat :=
  count_true ((fun r => negb (should_send opt (epoch_seconds ns r))) <$> rs).

Definition total_length (l : list bytes) : Z := sumZ ((fun b => Z.of_nat (length b)) <$> l).

Lemma total_length_cons b l : total_length (b :: l) = Z.of_nat (length b) + total_length l.
Proof. done. Qed.

(** The packets of a capture that the receiver's parser accepts, with their sizes. *)
Definition parsed_of (r : PcapRecord) : option (CommonHeader * Z) :=
  let n := Z.of_nat (length (payload r)) in
  p ← parse (Some (payload r)) n; Some (header p, n).

(** Consecutive elements of a list. *)
Definition steps {A} (l : list A) : list (A * A) := zip l (tail l).

Lemma steps_snoc {A} (l : list A) x :
  steps (l ++ [x]) = steps l ++ (match last l with Some y => [(y, x)] | None => [] end).
Proof.
  destruct l as [|y l]; [done|]. unfold steps. cbn [tail app]. revert y.
  induction l as [|z l IH]; intros y; [done|]. specialize (IH z). cbn [app zip_with last] in *. by rewrite IH.
Qed.

Lemma omap_length_le {A B} (f : A -> option B) l : (length (omap f l) <= length l)%nat.
Proof. induction l as [|x l IH]; cbn; [done|]. destruct (f x); cbn; lia. Qed.

Lemma u64_succ n : inc64 (u64 (Z.of_nat n)) = u64 (Z.of_nat (S n)).
Proof. unfold inc64. rewrite wrap_add_l by lia. f_equal. lia. Qed.

(** Counting the pairs of consecutive elements when one is added. *)
Lemma count_steps_snoc (f : Z -> Z -> bool) (seqs : list Z) x :
  u64 (Z.of_nat (count_true (uncurry f <$> steps (seqs ++ [x])))) =
    let n := u64 (Z.of_nat (count_true (uncurry f <$> steps seqs))) in
    match last seqs with Some q => if f q x then inc64 n else n | None => n end.
Proof.
  cbv zeta. rewrite steps_snoc, fmap_app, count_true_app. destruct (last seqs) as [q|]; cbn [fmap list_fmap count_true uncurry].
  - destruct (f q x); [rewrite u64_succ|]; do 2 f_equal; lia.
  - do 2 f_equal. lia.
Qed.

(** ** Witnesses *)

Module Demo.

(** A valid header-only packet with sequence number [seq], and a record of it. *)
Definition demo_payload (seq : Z) : bytes :=
  CommonHeader_bytes (mkCommonHeader PROTOCOL_MAGIC seq 0 0 3 PROTOCOL_VERSION 0x11 1 0 0 0 0 [0; 0; 0; 0]).
Definition demo_records : list PcapRecord :=
  [mkPcapRecord 10 0 (demo_payload 1); mkPcapRecord 11 500000 (demo_payload 2); mkPcapRecord 12 0 [7]; mkPcapRecord 13 0 (demo_payload 5)].

Lemma demo_records_ok : Forall record_ok demo_records.
Proof. repeat apply Forall_cons_2; [..|constructor]; (split; [done|split; [done|vm_compute; split; congruence]]). Qed.

End Demo.

End Pcap.
