(* ===== verification/Capture.v ===== *)
(** The capture writer ([src/m01_receiver/capture/pcap_writer.cpp]): packets pass the
    filters into a bounded queue, a thread writes them to a partial file, files rotate by
    size, and a sealed file gets its final name; old ones are removed.  What the file
    system does is an input.  The steps are those between two locks of the mutex, so any
    interleaving of the callers and the writer is a sequence of them.  [Pcap] has the
    format and the readers. *)

From S2P Require Import Prelude Protocol Pcap.
From stdpp Require Import list.
Open Scope Z_scope.

Module Capture.
Import Pcap.

(** ** Definitions *)

Definition kPacketTypeOffset : nat := 18.
Definition kSourceIdOffset : nat := 20.
Definition kBytesPerMb : Z := 1024 * 1024.

Record PcapWriterConfig := mkPcapWriterConfig {
  enabled : bool;
  max_file_size_mb : Z;
  max_files : Z;
  pending_queue_capacity : Z;
  filter_packet_types : list Z;
  filter_source_ids : list Z;
}.

(** Files are numbered by [file_index_], which their names contain.  [current] is the
    partial file, [None] when its path is empty; [sealed] are the files with their final
    name; [holding] is the packet the writer has taken from the queue, [running] tells whether its thread
    runs, and [log] are all the packets that entered the queue. *)
Record PcapWriter := mkPcapWriter {
  is_open : bool;
  current : option (nat * bytes);
  current_file_size_ : Z;
  pending_packets_ : list PendingPacket;
  packets_written_ : Z;
  enqueued_packets_ : Z;
  dropped_queue_full_ : Z;
  write_errors_ : Z;
  rotated_files_ : Z;
  recording_ : bool;
  accepting_packets_ : bool;
  file_index_ : nat;
  recent_files_ : list nat;
  sealed : list (nat * bytes);
  holding : option PendingPacket;
  running : bool;
  log : list PendingPacket;
}.

Definition PcapWriter_init : PcapWriter :=
  mkPcapWriter false None 0 [] 0 0 0 0 0 false false 0 [] [] None false [].

(** What the file system does during a step: whether the renaming at a rotation and at the
    end, the directories, the opening and the header succeed, and after how many bytes a record fails. *)
Record Env := mkEnv {
  rename_ok : bool;
  final_rename_ok : bool;
  dirs_ok : bool;
  open_ok : bool;
  header_ok : bool;
  write_fails : option nat;
}.

Definition max_file_size_bytes (cfg : PcapWriterConfig) : Z := u64 (max_file_size_mb cfg * kBytesPerMb).

Definition passes_filters (cfg : PcapWriterConfig) (raw : bytes) : bool :=
  match filter_packet_types cfg with
  | [] => true
  | ts => (kPacketTypeOffset <? length raw)%nat && bool_decide (nth kPacketTypeOffset raw 0 ∈ ts)
  end &&
  match filter_source_ids cfg with
  | [] => true
  | ids => (kSourceIdOffset <? length raw)%nat && bool_decide (nth kSourceIdOffset raw 0 ∈ ids)
  end.

Definition open_new_file (e : Env) (w : PcapWriter) : bool * PcapWriter :=
  let '(mkPcapWriter op cur sz pend wr en dr er rot rec acc fi rf sl ho ru lg) := w in
  if negb (dirs_ok e) then (false, w)
  else if negb (open_ok e) then (false, mkPcapWriter false None sz pend wr en dr er rot rec acc (S fi) rf sl ho ru lg)
  else if negb (header_ok e)
  then (false, mkPcapWriter false None kPcapGlobalHeaderSize pend wr en dr er rot rec acc (S fi) rf sl ho ru lg)
  else (true, mkPcapWriter true (Some (fi, write_global_header)) kPcapGlobalHeaderSize pend wr en dr er rot rec acc (S fi)
                rf sl ho ru lg).

(** The oldest files are removed until [keep] are left. *)
Fixpoint retain (keep : nat) (recent : list nat) (files : list (nat * bytes)) : list nat * list (nat * bytes) :=
  match recent with
  | [] => ([], files)
  | old :: rest =>
    if (keep <? length recent)%nat then retain keep rest (filter (fun f => fst f <> old) files)
    else (recent, files)
  end.

Definition keep_count (cfg : PcapWriterConfig) : nat := Z.to_nat (Z.max 1 (max_files cfg)).

Definition seal_current_file (cfg : PcapWriterConfig) (renames : bool) (w : PcapWriter) : bool * PcapWriter :=
  let '(mkPcapWriter _ cur sz pend wr en dr er rot rec acc fi rf sl ho ru lg) := w in
  match cur with
  | None => (true, mkPcapWriter false None sz pend wr en dr er rot rec acc fi rf sl ho ru lg)
  | Some (id, contents) =>
    if negb renames then (false, mkPcapWriter false cur sz pend wr en dr er rot rec acc fi rf sl ho ru lg)
    else
      let '(rf, sl) := retain (keep_count cfg) (rf ++ [id]) (sl ++ [(id, contents)]) in
      (true, mkPcapWriter false None 0 pend wr en dr er rot rec acc fi rf sl ho ru lg)
  end.

Definition mark_write_error (w : PcapWriter) : PcapWriter :=
  let '(mkPcapWriter _ cur sz pend wr en dr er rot _ _ fi rf sl ho ru lg) := w in
  mkPcapWriter false cur sz pend wr en dr (inc64 er) rot false false fi rf sl ho ru lg.

Definition add_rotated (w : PcapWriter) : PcapWriter :=
  let '(mkPcapWriter op cur sz pend wr en dr er rot rec acc fi rf sl ho ru lg) := w in
  mkPcapWriter op cur sz pend wr en dr er (inc64 rot) rec acc fi rf sl ho ru lg.

Definition rotate_file_if_needed (cfg : PcapWriterConfig) (e : Env) (record_size : Z) (w : PcapWriter) : PcapWriter :=
  if negb (is_open w) then w
  else if current_file_size_ w +[64] record_size <=? max_file_size_bytes cfg then w
  else
    let '(ok, w) := seal_current_file cfg (rename_ok e) w in
    if negb ok then mark_write_error w
    else
      let w := add_rotated w in
      let '(ok, w) := open_new_file e w in
      if (ok : bool) then w else mark_write_error w.

(** [start] when nothing is recording and no thread is left. *)
Definition start (cfg : PcapWriterConfig) (e : Env) (w : PcapWriter) : bool * PcapWriter :=
  if negb (enabled cfg) then (false, w)
  else if recording_ w then (true, w)
  else
    let '(ok, w) := open_new_file e w in
    if negb ok then (false, w)
    else
      let '(mkPcapWriter op cur sz _ _ _ _ _ _ _ _ fi rf sl ho _ _) := w in
      (true, mkPcapWriter op cur sz [] 0 0 0 0 0 true true fi rf sl ho true []).

Definition write_packet (cfg : PcapWriterConfig) (raw : bytes) (ts : Z) (w : PcapWriter) : PcapWriter :=
  let '(mkPcapWriter op cur sz pend wr en dr er rot rec acc fi rf sl ho ru lg) := w in
  if negb acc then w
  else if (length raw =? 0)%nat then w
  else if negb (passes_filters cfg raw) then w
  else
    let packet := mkPendingPacket ts raw in
    if Z.max 1 (pending_queue_capacity cfg) <=? Z.of_nat (length pend)
    then mkPcapWriter op cur sz pend wr en (inc64 dr) er rot rec acc fi rf sl ho ru lg
    else mkPcapWriter op cur sz (pend ++ [packet]) wr (inc64 en) dr er rot rec acc fi rf sl ho ru (lg ++ [packet]).

(** The end of the thread. *)
Definition writer_exit (cfg : PcapWriterConfig) (e : Env) (w : PcapWriter) : PcapWriter :=
  let '(_, mkPcapWriter op cur sz pend wr en dr er rot _ acc fi rf sl _ _ lg) :=
    seal_current_file cfg (final_rename_ok e) w in
  mkPcapWriter op cur sz pend wr en dr er rot false acc fi rf sl None false lg.

(** The record is written, or a part of it. *)
Definition append_record (e : Env) (p : PendingPacket) (w : PcapWriter) : bool * PcapWriter :=
  let '(mkPcapWriter op cur sz pend wr en dr er rot rec acc fi rf sl ho ru lg) := w in
  let write bs := (fun '(id, contents) => (id : nat, contents ++ bs)) <$> cur in
  match write_fails e with
  | Some n => (false, mkPcapWriter op (write (take n (record_bytes p))) sz pend wr en dr er rot rec acc fi rf sl ho ru lg)
  | None =>
    (true, mkPcapWriter op (write (record_bytes p)) (sz +[64] (kPcapRecordHeaderSize + Z.of_nat (length (data p))))
             pend (inc64 wr) en dr er rot rec acc fi rf sl None ru lg)
  end.

(** The second half of the loop, with the packet taken. *)
Definition process_packet (cfg : PcapWriterConfig) (e : Env) (p : PendingPacket) (w : PcapWriter) : PcapWriter :=
  if negb (is_open w) then writer_exit cfg e (mark_write_error w)
  else
    let w := rotate_file_if_needed cfg e (kPcapRecordHeaderSize + Z.of_nat (length (data p))) w in
    if negb (is_open w) then writer_exit cfg e w
    else
      let '(ok, w) := append_record e p w in
      if (ok : bool) then w else writer_exit cfg e (mark_write_error w).

(** The first half of the loop: the writer waits, takes a packet or ends. *)
Definition take_packet (cfg : PcapWriterConfig) (e : Env) (w : PcapWriter) : PcapWriter :=
  let '(mkPcapWriter op cur sz pend wr en dr er rot rec acc fi rf sl ho ru lg) := w in
  match pend with
  | [] => if acc then w else writer_exit cfg e w
  | p :: pend => mkPcapWriter op cur sz pend wr en dr er rot rec acc fi rf sl (Some p) ru lg
  end.

Definition writer_step (cfg : PcapWriterConfig) (e : Env) (w : PcapWriter) : PcapWriter :=
  if negb (running w) then w
  else match holding w with Some p => process_packet cfg e p w | None => take_packet cfg e w end.

(** [stop]: packets are refused, then the thread is joined, then the file is sealed. *)
Definition begin_stop (w : PcapWriter) : PcapWriter :=
  let '(mkPcapWriter op cur sz pend wr en dr er rot rec _ fi rf sl ho ru lg) := w in
  mkPcapWriter op cur sz pend wr en dr er rot rec false fi rf sl ho ru lg.

Definition finish_stop (cfg : PcapWriterConfig) (e : Env) (w : PcapWriter) : PcapWriter :=
  let '(_, mkPcapWriter op cur sz _ wr en dr er rot _ acc fi rf sl ho ru lg) := seal_current_file cfg (final_rename_ok e) w in
  mkPcapWriter op cur sz [] wr en dr er rot false acc fi rf sl ho ru lg.

Inductive CaptureOp :=
  | WritePacket (raw : bytes) (ts : Z)
  | WriterStep (e : Env).

Definition capture_step (cfg : PcapWriterConfig) (op : CaptureOp) (w : PcapWriter) : PcapWriter :=
  match op with
  | WritePacket raw ts => write_packet cfg raw ts w
  | WriterStep e => writer_step cfg e w
  end.

Definition run_capture (cfg : PcapWriterConfig) (ops : list CaptureOp) (w : PcapWriter) : PcapWriter :=
  foldl (fun w op => capture_step cfg op w) w ops.

(** ** Files and their retention *)

(** The files of the groups of packets [gs], by their numbers. *)
Definition files (gs : list (list PendingPacket)) : list (nat * bytes) := imap (fun i g => (i, file_bytes g)) gs.

Lemma length_files gs : length (files gs) = length gs.
Proof. apply length_imap. Qed.

Lemma files_snoc gs g : files (gs ++ [g]) = files gs ++ [(length gs, file_bytes g)].
Proof. unfold files. rewrite imap_app. cbn. by rewrite Nat.add_0_r. Qed.

Lemma files_ids gs : (files gs).*1 = seq 0 (length gs).
Proof.
  induction gs as [|g gs IH] using rev_ind; [done|].
  rewrite files_snoc, fmap_app, IH, length_app. cbn. by rewrite Nat.add_1_r, seq_S.
Qed.

Lemma retain_last keep (sl : list (nat * bytes)) :
  NoDup sl.*1 -> retain keep sl.*1 sl = ((drop (length sl - keep) sl).*1, drop (length sl - keep) sl).
Proof.
  induction sl as [|[id c] sl IH]; [done|]. cbn [fmap list_fmap fst]. intros [Hni Hnd]%NoDup_cons.
  cbn [retain length]. rewrite length_fmap. destruct (Nat.ltb_spec keep (S (length sl))) as [Hlt|Hge].
  - rewrite list.filter_cons_False by (cbn; tauto).
    assert (filter (fun f : nat * bytes => fst f <> id) sl = sl) as ->.
    { clear IH Hnd Hlt. induction sl as [|[i c'] sl IH]; [done|]. cbn [fmap list_fmap fst] in Hni.
      apply not_elem_of_cons in Hni as [Hne Hni]. rewrite list.filter_cons_True by (cbn; congruence). f_equal. by apply IH. }
    rewrite IH by done. replace (S (length sl) - keep)%nat with (S (length sl - keep)) by lia. done.
  - replace (S (length sl) - keep)%nat with 0%nat by lia. done.
Qed.

(** One more file behind the [keep] last of [fs], which are numbered from 0. *)
Lemma retain_snoc keep (fs : list (nat * bytes)) f :
  (1 <= keep)%nat -> (fs ++ [f]).*1 = seq 0 (S (length fs)) ->
  let sl := drop (length fs - keep) fs in
  let sl' := drop (S (length fs) - keep) (fs ++ [f]) in
  retain keep (sl.*1 ++ [fst f]) (sl ++ [f]) = (sl'.*1, sl').
Proof.
  intros Hk Hid sl sl'. assert (E : sl ++ [f] = drop (length fs - keep) (fs ++ [f])).
  { unfold sl. by rewrite drop_app_le by lia. }
  replace (sl.*1 ++ [fst f]) with ((sl ++ [f]).*1) by (by rewrite fmap_app).
  rewrite E, retain_last.
  - unfold sl'. rewrite drop_drop, length_drop, length_app. cbn [length].
    replace (length fs - keep + (length fs + 1 - (length fs - keep) - keep))%nat with (S (length fs) - keep)%nat by lia. done.
  - rewrite fmap_drop, Hid. eapply sublist_NoDup; [apply NoDup_seq|apply sublist_drop].
Qed.

(** Sealing one more file. *)
Lemma retain_files keep gs g :
  (1 <= keep)%nat ->
  let sl := drop (length gs - keep) (files gs) in
  let sl' := drop (length (gs ++ [g]) - keep) (files (gs ++ [g])) in
  retain keep (sl.*1 ++ [length gs]) (sl ++ [(length gs, file_bytes g)]) = (sl'.*1, sl').
Proof.
  intros Hk. pose proof (retain_snoc keep (files gs) (length gs, file_bytes g) Hk) as H.
  rewrite length_files, <-files_snoc in H. rewrite length_app, Nat.add_1_r. apply H.
  by rewrite files_ids, length_app, Nat.add_1_r.
Qed.

(** ** The writer *)

Definition env_good (e : Env) : Prop :=
  rename_ok e = true /\ final_rename_ok e = true /\ dirs_ok e = true /\ open_ok e = true /\ header_ok e = true /\
  write_fails e = None.

(** A file keeps below the limit unless it holds a single record. *)
Definition size_ok (cfg : PcapWriterConfig) (g : list PendingPacket) : Prop :=
  Z.of_nat (length (file_bytes g)) <= max_file_size_bytes cfg \/ (length g <= 1)%nat.

Definition config_ok (cfg : PcapWriterConfig) : Prop := 0 <= max_file_size_mb cfg < 2 ^ 43.

(** What holds whether or not the thread still runs: [gs] are the packets of the sealed
    files, [g] those of the open one, [q] those taken or queued. *)
Record common_inv (cfg : PcapWriterConfig) (w : PcapWriter) (gs : list (list PendingPacket)) (g q : list PendingPacket) : Prop := {
  ci_log : log w = concat gs ++ g ++ q;
  ci_ok : Forall pending_ok (log w);
  ci_sealed : sealed w = drop (length gs - keep_count cfg) (files gs);
  ci_recent : recent_files_ w = (sealed w).*1;
  ci_written : packets_written_ w = u64 (Z.of_nat (length (concat gs ++ g)));
  ci_enqueued : enqueued_packets_ w = u64 (Z.of_nat (length (log w)));
  ci_errors : write_errors_ w = 0;
  ci_sizes : Forall (size_ok cfg) gs;
}.

Record cap_inv (cfg : PcapWriterConfig) (w : PcapWriter) (gs : list (list PendingPacket)) (g : list PendingPacket) : Prop := {
  iv_common : common_inv cfg w gs g (option_list (holding w) ++ pending_packets_ w);
  iv_running : running w = true;
  iv_open : is_open w = true;
  iv_current : current w = Some (length gs, file_bytes g);
  iv_index : file_index_ w = S (length gs);
  iv_size : current_file_size_ w = Z.of_nat (length (file_bytes g));
  iv_size_ok : size_ok cfg g;
  iv_rotated : rotated_files_ w = u64 (Z.of_nat (length gs));
}.

Lemma keep_count_pos cfg : (1 <= keep_count cfg)%nat.
Proof. unfold keep_count. lia. Qed.

Lemma length_record_bytes p : Z.of_nat (length (record_bytes p)) = 16 + Z.of_nat (length (data p)).
Proof. unfold record_bytes. rewrite length_app. change (length (write_record_header _ _ _ _)) with 16%nat. lia. Qed.

Lemma file_bytes_snoc g p : file_bytes (g ++ [p]) = file_bytes g ++ record_bytes p.
Proof. unfold file_bytes. rewrite fmap_app, concat_app. cbn [fmap list_fmap concat]. by rewrite app_nil_r, app_assoc. Qed.

Lemma length_file_bytes_nil : length (file_bytes []) = 24%nat.
Proof. done. Qed.

(** A file that keeps its limit, or has one record, is far from overflowing its size. *)
Lemma size_ok_bound cfg g p :
  config_ok cfg -> size_ok cfg g -> Forall pending_ok (g ++ [p]) ->
  0 <= Z.of_nat (length (file_bytes g)) + (16 + Z.of_nat (length (data p))) < 2 ^ 64.
Proof.
  intros Hc Hs [Hg Hp]%Forall_app. rewrite Forall_singleton in Hp. unfold pending_ok, kPcapSnapLen in *.
  unfold config_ok in Hc. assert (Hm : max_file_size_bytes cfg <= 2 ^ 63).
  { unfold max_file_size_bytes, kBytesPerMb. rewrite wrap_small by (unfold in_range; lia). lia. }
  destruct Hs as [Hs|Hs]; [lia|].
  assert (Z.of_nat (length (file_bytes g)) <= 70000).
  { destruct g as [|p' [|]]; cbn [length] in Hs; [rewrite length_file_bytes_nil; lia| |lia].
    change [p'] with ([] ++ [p']). rewrite file_bytes_snoc, length_app, length_file_bytes_nil.
    rewrite Forall_singleton in Hg. pose proof (length_record_bytes p'). lia. }
  lia.
Qed.

Lemma write_packet_inv cfg raw ts w gs g :
  Z.of_nat (length raw) <= kPcapSnapLen -> cap_inv cfg w gs g -> cap_inv cfg (write_packet cfg raw ts w) gs g.
Proof.
  intros Hlen [[Hlog Hok Hsl Hrf Hwr Hen Her Hsz] Hru Hop Hcur Hfi Hcs Hso Hro].
  destruct w as [op cur sz pend wr en dr er rot rec acc fi rf sl ho ru lg].
  cbn [is_open current current_file_size_ pending_packets_ packets_written_ enqueued_packets_ dropped_queue_full_ write_errors_
    rotated_files_ recording_ accepting_packets_ file_index_ recent_files_ sealed holding running log] in *.
  unfold write_packet. destruct acc; cbn [negb]; [|by repeat split].
  destruct (Nat.eqb_spec (length raw) 0) as [|Hne]; [by repeat split|].
  destruct (passes_filters cfg raw); cbn [negb]; [|by repeat split].
  destruct (_ <=? _); [by repeat split|]. split; try done. split; try done; cbn [log holding pending_packets_ enqueued_packets_].
  - rewrite Hlog. by rewrite <-!app_assoc.
  - apply Forall_app. split; [done|]. apply Forall_singleton. unfold pending_ok. cbn. lia.
  - rewrite Hen, u64_succ, length_app. do 2 f_equal. cbn. lia.
Qed.

Ltac proj_writer :=
  cbn [is_open current current_file_size_ pending_packets_ packets_written_ enqueued_packets_ dropped_queue_full_ write_errors_
    rotated_files_ recording_ accepting_packets_ file_index_ recent_files_ sealed holding running log] in *.

(** Sealing the open file. *)
Lemma seal_inv cfg w gs g q :
  common_inv cfg w gs g q -> current w = Some (length gs, file_bytes g) -> size_ok cfg g ->
  exists w', seal_current_file cfg true w = (true, w') /\ common_inv cfg w' (gs ++ [g]) [] q /\
    is_open w' = false /\ current w' = None /\ pending_packets_ w' = pending_packets_ w /\ holding w' = holding w /\
    running w' = running w /\ file_index_ w' = file_index_ w /\ rotated_files_ w' = rotated_files_ w /\
    accepting_packets_ w' = accepting_packets_ w.
Proof.
  intros [Hlog Hok Hsl Hrf Hwr Hen Her Hsz] Hcur Hso.
  destruct w as [op cur sz pend wr en dr er rot rec acc fi rf sl ho ru lg]. proj_writer. subst cur rf sl.
  unfold seal_current_file. cbn [negb].
  rewrite (retain_files (keep_count cfg) gs g (keep_count_pos cfg)).
  eexists. split; [reflexivity|]. split; [|by split_and!].
  split; proj_writer; try done; rewrite ?concat_app; cbn [concat]; rewrite ?app_nil_r.
  - by rewrite Hlog, <-app_assoc.
  - done.
  - apply Forall_app. split; [done|]. by apply Forall_singleton.
Qed.

Lemma rotate_inv cfg e w gs g p :
  config_ok cfg -> env_good e -> cap_inv cfg w gs g -> holding w = Some p ->
  exists w' gs' g', rotate_file_if_needed cfg e (kPcapRecordHeaderSize + Z.of_nat (length (data p))) w = w' /\
    cap_inv cfg w' gs' g' /\ holding w' = Some p /\ size_ok cfg (g' ++ [p]) /\
    pending_packets_ w' = pending_packets_ w /\ accepting_packets_ w' = accepting_packets_ w.
Proof.
  intros Hcfg (Hren & _ & Hdir & Hopn & Hhdr & _) Hinv Hho. destruct Hinv as [Hc Hru Hop Hcur Hfi Hcs Hso Hro].
  unfold rotate_file_if_needed, kPcapRecordHeaderSize. rewrite Hop, Hcs. cbn [negb].
  assert (Hall : Forall pending_ok (g ++ [p])).
  { pose proof (ci_ok _ _ _ _ _ Hc) as Hok. rewrite (ci_log _ _ _ _ _ Hc), Hho in Hok. cbn [option_list app] in Hok.
    apply Forall_app in Hok as [_ Hok]. apply Forall_app in Hok as [Hg Hp]. apply Forall_cons in Hp as [Hp _].
    apply Forall_app. split; [done|by apply Forall_singleton]. }
  rewrite wrap_small by (by apply (size_ok_bound cfg)).
  destruct (Z.leb_spec (Z.of_nat (length (file_bytes g)) + (16 + Z.of_nat (length (data p)))) (max_file_size_bytes cfg)) as [Hle|Hgt].
  - exists w, gs, g. split_and!; [done|by split|done| |done|done]. left. rewrite file_bytes_snoc, length_app.
    pose proof (length_record_bytes p). lia.
  - rewrite Hren. destruct (seal_inv cfg w gs g _ Hc Hcur Hso) as (w1 & -> & Hc1 & _ & _ & Hp1 & Hh1 & Hru1 & Hfi1 & Hro1 & Ha1).
    cbn [negb]. destruct w1 as [op cur sz pend wr en dr er rot rec acc fi rf sl ho ru lg]. proj_writer.
    unfold add_rotated, open_new_file. rewrite Hdir, Hopn, Hhdr. cbn [negb]. eexists _, (gs ++ [g]), []. split; [reflexivity|].
    split; [|split_and!; [proj_writer; congruence|by right|done|done]].
    destruct Hc1 as [Hlog1 Hok1 Hsl1 Hrf1 Hwr1 Hen1 Her1 Hsz1]. proj_writer. subst pend ho ru fi rot.
    split; proj_writer; try done; rewrite ?length_app; cbn [length].
    + by rewrite Hfi, Nat.add_1_r.
    + rewrite Hfi. lia.
    + right. cbn. lia.
    + rewrite Hro, u64_succ. do 2 f_equal. lia.
Qed.

Lemma append_inv cfg e w gs g p :
  config_ok cfg -> write_fails e = None -> cap_inv cfg w gs g -> holding w = Some p -> size_ok cfg (g ++ [p]) ->
  exists w', append_record e p w = (true, w') /\ cap_inv cfg w' gs (g ++ [p]) /\
    holding w' = None /\ pending_packets_ w' = pending_packets_ w /\ accepting_packets_ w' = accepting_packets_ w.
Proof.
  intros Hcfg Hwf [Hc Hru Hop Hcur Hfi Hcs Hso Hro] Hho Hso'.
  pose proof (ci_ok _ _ _ _ _ Hc) as Hall. rewrite (ci_log _ _ _ _ _ Hc), Hho in Hall. cbn [option_list app] in Hall.
  apply Forall_app in Hall as [_ Hall]. apply Forall_app in Hall as [Hg Hp]. apply Forall_cons in Hp as [Hp _].
  assert (Hgp : Forall pending_ok (g ++ [p])) by (apply Forall_app; split; [done|by apply Forall_singleton]).
  destruct w as [op cur sz pend wr en dr er rot rec acc fi rf sl ho ru lg]. unfold append_record. rewrite Hwf.
  destruct Hc as [Hlog Hok Hsl Hrf Hwr Hen Her Hsz]. proj_writer. subst cur sz wr en lg ho.
  eexists. split; [reflexivity|]. split; [|by split_and!].
  split; proj_writer; try done.
  - split; proj_writer; try done; cbn [option_list app].
    + by rewrite <-app_assoc.
    + rewrite u64_succ. do 2 f_equal. rewrite !length_app. cbn. lia.
  - cbn [fmap option_fmap option_map]. by rewrite file_bytes_snoc.
  - unfold kPcapRecordHeaderSize. rewrite wrap_small by (by apply (size_ok_bound cfg)).
    rewrite file_bytes_snoc, length_app. pose proof (length_record_bytes p). lia.
Qed.

(** What is left to do before the thread can end. *)
Definition work (w : PcapWriter) : nat := 2 * length (pending_packets_ w) + length (option_list (holding w)).

(** One step of the writer while there is something to do or packets are accepted. *)
Lemma writer_step_inv cfg e w gs g :
  config_ok cfg -> env_good e -> cap_inv cfg w gs g -> (0 < work w)%nat \/ accepting_packets_ w = true ->
  exists gs' g', cap_inv cfg (writer_step cfg e w) gs' g' /\
    accepting_packets_ (writer_step cfg e w) = accepting_packets_ w /\ (work (writer_step cfg e w) <= work w - 1)%nat.
Proof.
  intros Hcfg He Hinv Hgo. pose proof Hinv as [Hc Hru Hop Hcur Hfi Hcs Hso Hro].
  unfold writer_step. rewrite Hru. cbn [negb]. destruct (holding w) as [p|] eqn:Hho.
  - unfold process_packet. rewrite Hop. cbn [negb].
    destruct (rotate_inv cfg e w gs g p Hcfg He Hinv Hho) as (w1 & gs1 & g1 & -> & Hi1 & Hh1 & Hs1 & Hp1 & Ha1).
    rewrite (iv_open _ _ _ _ Hi1). cbn [negb].
    destruct (append_inv cfg e w1 gs1 g1 p Hcfg ltac:(apply He) Hi1 Hh1 Hs1) as (w2 & -> & Hi2 & Hh2 & Hp2 & Ha2).
    exists gs1, (g1 ++ [p]). split_and!; [done|congruence|]. unfold work. rewrite Hh2, Hp2, Hp1, Hho. cbn. lia.
  - unfold work in Hgo. rewrite Hho in Hgo. unfold work. rewrite Hho. clear Hru Hop Hcur Hfi Hcs Hso Hro.
    destruct Hc as [Hlog Hok Hsl Hrf Hwr Hen Her Hsz]. destruct Hinv as [_ Hru Hop Hcur Hfi Hcs Hso Hro].
    destruct w as [op cur sz pend wr en dr er rot rec acc fi rf sl ho ru lg]. unfold take_packet. proj_writer. subst ho.
    destruct pend as [|p pend].
    + destruct acc; [|cbn in Hgo; destruct Hgo; [lia|done]]. exists gs, g. split; [|split; [done|cbn; lia]].
      by split.
    + exists gs, g. split; [|split; [done|cbn; lia]]. by split.
Qed.

(** *** Runs *)

Lemma write_packet_accepting cfg raw ts w : accepting_packets_ (write_packet cfg raw ts w) = accepting_packets_ w.
Proof. destruct w. unfold write_packet. by repeat (case_match; [done|]); try case_match. Qed.

Lemma begin_stop_inv cfg w gs g :
  cap_inv cfg w gs g -> cap_inv cfg (begin_stop w) gs g /\ accepting_packets_ (begin_stop w) = false /\
    work (begin_stop w) = work w /\ log (begin_stop w) = log w.
Proof.
  intros [[Hlog Hok Hsl Hrf Hwr Hen Her Hsz] Hru Hop Hcur Hfi Hcs Hso Hro].
  destruct w as [op cur sz pend wr en dr er rot rec acc fi rf sl ho ru lg]. unfold begin_stop. proj_writer.
  split; [|done]. split; try done; by split.
Qed.

(** The writer's thread touches neither the log nor the count of refused packets. *)
Definition same_queue_log (w w' : PcapWriter) : Prop :=
  log w' = log w /\ dropped_queue_full_ w' = dropped_queue_full_ w.

Lemma open_new_file_log e w : same_queue_log w (open_new_file e w).2.
Proof. destruct w. unfold open_new_file. by repeat (case_match; [done|]). Qed.

Lemma seal_log cfg b w : same_queue_log w (seal_current_file cfg b w).2.
Proof.
  destruct w as [op cur sz pend wr en dr er rot rec acc fi rf sl ho ru lg]. unfold seal_current_file.
  destruct cur as [[id c]|]; [|done]. destruct b; cbn [negb]; [|done]. by destruct (retain _ _ _).
Qed.

Lemma writer_exit_log cfg e w : same_queue_log w (writer_exit cfg e w).
Proof.
  unfold writer_exit. pose proof (seal_log cfg (final_rename_ok e) w) as Hs.
  destruct (seal_current_file _ _ _) as [ok [op cur sz pend wr en dr er rot rec acc fi rf sl ho ru lg]]. done.
Qed.

Lemma rotate_log cfg e n w : same_queue_log w (rotate_file_if_needed cfg e n w).
Proof.
  unfold rotate_file_if_needed. destruct (negb (is_open w)); [done|]. case_match; [done|].
  pose proof (seal_log cfg (rename_ok e) w) as Hs. destruct (seal_current_file _ _ _) as [[] w1]; cbn [negb snd] in *.
  - pose proof (open_new_file_log e (add_rotated w1)) as Ho.
    destruct (open_new_file e (add_rotated w1)) as [ok w2]; cbn [snd] in Ho. unfold same_queue_log in *.
    assert (log (add_rotated w1) = log w1 /\ dropped_queue_full_ (add_rotated w1) = dropped_queue_full_ w1) as [E1 E2] by (by destruct w1).
    destruct ok; [|destruct w2; cbn in *]; split; destruct Hs, Ho; congruence.
  - destruct w1. done.
Qed.

Lemma writer_step_log cfg e w : same_queue_log w (writer_step cfg e w).
Proof.
  unfold writer_step. destruct (negb (running w)); [done|]. destruct (holding w) as [p|].
  - unfold process_packet. destruct (negb (is_open w)).
    { pose proof (writer_exit_log cfg e (mark_write_error w)) as Hx. destruct w. exact Hx. }
    pose proof (rotate_log cfg e (kPcapRecordHeaderSize + Z.of_nat (length (data p))) w) as Hr.
    destruct (negb (is_open _)).
    { destruct (writer_exit_log cfg e (rotate_file_if_needed cfg e (kPcapRecordHeaderSize + Z.of_nat (length (data p))) w)), Hr.
      split; congruence. }
    revert Hr. generalize (rotate_file_if_needed cfg e (kPcapRecordHeaderSize + Z.of_nat (length (data p))) w).
    intros w1 Hr. unfold append_record. destruct w1. destruct (write_fails e); [|exact Hr].
    match goal with |- same_queue_log w (writer_exit cfg e ?w2) => destruct (writer_exit_log cfg e w2) as [E1 E2] end.
    destruct Hr as [F1 F2]. split; [rewrite E1; exact F1|rewrite E2; exact F2].
  - pose proof (writer_exit_log cfg e w) as Hx. destruct w as [op cur sz pend wr en dr er rot rec acc fi rf sl ho ru lg].
    unfold take_packet. destruct pend; [destruct acc|]; done.
Qed.

(** The packets a caller offers that are not empty and pass the filters. *)
Definition offered (cfg : PcapWriterConfig) (op : CaptureOp) : list PendingPacket :=
  match op with
  | WritePacket raw ts =>
    if (length raw =? 0)%nat || negb (passes_filters cfg raw) then [] else [mkPendingPacket ts raw]
  | WriterStep _ => []
  end.

Definition accounted (w : PcapWriter) (off : list PendingPacket) : Prop :=
  log w `sublist_of` off /\ dropped_queue_full_ w = u64 (Z.of_nat (length off - length (log w))).

Lemma accounted_step cfg op w off :
  accepting_packets_ w = true -> accounted w off -> accounted (capture_step cfg op w) (off ++ offered cfg op).
Proof.
  intros Ha [Hs Hd]. destruct op as [raw ts|e]; cbn [capture_step offered].
  - destruct w as [op cur sz pend wr en dr er rot rec acc fi rf sl ho ru lg]. proj_writer. subst acc. unfold write_packet. cbn [negb].
    pose proof (sublist_length _ _ Hs) as Hle.
    destruct (length raw =? 0)%nat; cbn [orb]; [by rewrite app_nil_r|].
    destruct (passes_filters cfg raw); cbn [negb]; [|by rewrite app_nil_r]. destruct (_ <=? _); split; proj_writer.
    + by apply sublist_inserts_r.
    + rewrite Hd, u64_succ, length_app. do 2 f_equal. cbn. lia.
    + by apply sublist_app.
    + rewrite Hd, !length_app. do 2 f_equal. cbn. lia.
  - destruct (writer_step_log cfg e w) as [E1 E2]. rewrite app_nil_r. split; congruence.
Qed.

Lemma run_steps_log cfg es w : same_queue_log w (run_capture cfg (WriterStep <$> es) w).
Proof.
  unfold run_capture. revert w. induction es as [|e es IH]; intros w; [done|]. cbn [fmap list_fmap foldl capture_step].
  destruct (IH (writer_step cfg e w)), (writer_step_log cfg e w). split; congruence.
Qed.

Lemma start_inv cfg e :
  enabled cfg = true -> env_good e ->
  exists w, start cfg e PcapWriter_init = (true, w) /\ cap_inv cfg w [] [] /\ accepting_packets_ w = true /\ accounted w [].
Proof.
  intros Hen (_ & _ & Hd & Ho & Hh & _). unfold start. rewrite Hen. unfold open_new_file. cbn [negb recording_ PcapWriter_init].
  rewrite Hd, Ho, Hh. cbn [negb]. eexists. split; [reflexivity|]. split; [|by split].
  split; try done. right. cbn. lia.
Qed.

Lemma start_any cfg e w :
  start cfg e PcapWriter_init = (true, w) -> (exists gs g, cap_inv cfg w gs g) /\ accepting_packets_ w = true /\ accounted w [].
Proof.
  intros Hs. destruct (enabled cfg) eqn:Hen; [|unfold start in Hs; by rewrite Hen in Hs].
  destruct (start_inv cfg (mkEnv true true true true true None) Hen ltac:(by split_and!)) as (w' & E & Hi & Ha & Hac).
  assert (w = w') as ->; [|split_and!; [by exists [], []|done|done]].
  revert Hs E. unfold start, open_new_file. rewrite Hen. cbn.
  destruct (dirs_ok e), (open_ok e), (header_ok e); cbn; congruence.
Qed.

(** *** When the file system fails *)

(** The files of the groups [gs] when a failed write left the bytes [cut] of one more
    record behind those of the last. *)
Definition cut_files (gs : list (list PendingPacket)) (cut : bytes) : list (nat * bytes) :=
  imap (fun i g => (i, file_bytes g ++ if decide (S i = length gs) then cut else [])) gs.

(** The spool directory holds the last files of [fs]: all have their final name, or
    all but the last. *)
Definition on_disk (cfg : PcapWriterConfig) (w : PcapWriter) (fs : list (nat * bytes)) : Prop :=
  recent_files_ w = (sealed w).*1 /\
  ((current w = None /\ sealed w = drop (length fs - keep_count cfg) fs) \/
   exists fs' f, fs = fs' ++ [f] /\ current w = Some f /\ sealed w = drop (length fs' - keep_count cfg) fs').

(** The writer has given up the packets [lost]: its thread is at its end. *)
Record closing (cfg : PcapWriterConfig) (w : PcapWriter) (gs : list (list PendingPacket)) (lost : list PendingPacket)
    (cut : bytes) : Prop := {
  cl_log : log w = concat gs ++ lost;
  cl_ok : Forall pending_ok (log w);
  cl_written : packets_written_ w = u64 (Z.of_nat (length (concat gs)));
  cl_enqueued : enqueued_packets_ w = u64 (Z.of_nat (length (log w)));
  cl_errors : write_errors_ w = if decide (lost = []) then 0 else 1;
  cl_cut : cut `prefix_of` concat (record_bytes <$> take 1 lost);
  cl_sizes : Forall (size_ok cfg) gs;
  cl_files : on_disk cfg w (cut_files gs cut);
  cl_rotated : lost = [] -> rotated_files_ w = u64 (Z.of_nat (length gs - 1));
  cl_accepting : accepting_packets_ w = false;
}.

Lemma cut_files_nil gs : cut_files gs [] = files gs.
Proof. apply imap_ext. intros i g _. cbn. case_decide; by rewrite app_nil_r. Qed.

Lemma cut_files_snoc gs g cut : cut_files (gs ++ [g]) cut = files gs ++ [(length gs, file_bytes g ++ cut)].
Proof.
  unfold cut_files, files. rewrite imap_app. cbn [imap]. rewrite Nat.add_0_r, length_app, Nat.add_1_r, decide_True by done.
  f_equal. apply imap_ext. intros i x Hi. apply lookup_lt_Some in Hi. rewrite decide_False by lia. by rewrite app_nil_r.
Qed.

Lemma cut_files_ids gs cut : (cut_files gs cut).*1 = seq 0 (length gs).
Proof.
  destruct gs as [|g gs _] using rev_ind; [done|].
  rewrite cut_files_snoc, fmap_app, files_ids, length_app, Nat.add_1_r, seq_S. done.
Qed.

Lemma length_cut_files gs cut : length (cut_files gs cut) = length gs.
Proof. apply length_imap. Qed.

(** The end of the thread and [stop] seal what is left, if the renaming works. *)
Lemma seal_on_disk cfg b w fs :
  fs.*1 = seq 0 (length fs) -> on_disk cfg w fs ->
  exists ok w', seal_current_file cfg b w = (ok, w') /\ on_disk cfg w' fs /\ (b = true -> current w' = None) /\
    (current w = None -> current w' = None) /\
    log w' = log w /\ packets_written_ w' = packets_written_ w /\ enqueued_packets_ w' = enqueued_packets_ w /\
    write_errors_ w' = write_errors_ w /\ rotated_files_ w' = rotated_files_ w /\ accepting_packets_ w' = accepting_packets_ w /\
    dropped_queue_full_ w' = dropped_queue_full_ w /\ running w' = running w.
Proof.
  intros Hid [Hrf Hd]. destruct w as [op cur sz pend wr en dr er rot rec acc fi rf sl ho ru lg]. proj_writer. subst rf.
  unfold seal_current_file. destruct cur as [[id c]|].
  - destruct Hd as [[[=] _]|(fs' & f & -> & [= <-] & ->)]. destruct b; cbn [negb].
    + rewrite length_app, Nat.add_1_r in Hid.
      pose proof (retain_snoc (keep_count cfg) fs' (id, c) (keep_count_pos cfg) Hid) as Hret.
      cbn [fst] in Hret. rewrite Hret.
      eexists _, _. split; [reflexivity|]. split; [|by split_and!]. split; [done|]. left. split; [done|].
      by rewrite length_app, Nat.add_1_r.
    + eexists _, _. split; [reflexivity|]. split; [|by split_and!]. split; [done|]. right. by exists fs', (id, c).
  - destruct Hd as [[_ ->]|(? & ? & _ & [=] & _)].
    eexists _, _. split; [reflexivity|]. split; [|by split_and!]. split; [done|]. by left.
Qed.

Lemma writer_exit_closing cfg e w gs lost cut :
  closing cfg w gs lost cut -> closing cfg (writer_exit cfg e w) gs lost cut /\ running (writer_exit cfg e w) = false.
Proof.
  intros [Hlog Hok Hwr Hen Her Hcut Hsz Hf Hro Ha].
  destruct (seal_on_disk cfg (final_rename_ok e) w (cut_files gs cut)) as
    (ok & w' & E & Hf' & _ & _ & El & Ew & Een & Eer & Ero & Ea & _); [by rewrite cut_files_ids, length_cut_files|done|].
  unfold writer_exit. rewrite E. destruct w' as [op cur sz pend wr en dr er rot rec acc fi rf sl ho ru lg]. proj_writer.
  subst. split; [|done]. split; proj_writer; done.
Qed.

Lemma finish_stop_closing cfg e w gs lost cut :
  closing cfg w gs lost cut -> running w = false ->
  let f := finish_stop cfg e w in
  closing cfg f gs lost cut /\ running f = false /\ (final_rename_ok e = true -> current f = None) /\
  dropped_queue_full_ f = dropped_queue_full_ w.
Proof.
  intros [Hlog Hok Hwr Hen Her Hcut Hsz Hf Hro Ha] Hru.
  destruct (seal_on_disk cfg (final_rename_ok e) w (cut_files gs cut)) as
    (ok & w' & E & Hf' & Hn & _ & El & Ew & Een & Eer & Ero & Ea & Ed & Er); [by rewrite cut_files_ids, length_cut_files|done|].
  intros f. subst f. unfold finish_stop. rewrite E. destruct w' as [op cur sz pend wr en dr er rot rec acc fi rf sl ho ru lg]. proj_writer.
  subst. split; [split; proj_writer; done|]. by split_and!.
Qed.

(** The packets written to the files of [gs], and those left. *)
Record tally (cfg : PcapWriterConfig) (w : PcapWriter) (gs : list (list PendingPacket)) (q : list PendingPacket) : Prop := {
  ta_log : log w = concat gs ++ q;
  ta_ok : Forall pending_ok (log w);
  ta_written : packets_written_ w = u64 (Z.of_nat (length (concat gs)));
  ta_enqueued : enqueued_packets_ w = u64 (Z.of_nat (length (log w)));
  ta_errors : write_errors_ w = 0;
  ta_sizes : Forall (size_ok cfg) gs;
}.

(** The open file counted among the others. *)
Lemma common_tally cfg w gs g q : common_inv cfg w gs g q -> size_ok cfg g -> tally cfg w (gs ++ [g]) q.
Proof.
  intros [Hlog Hok _ _ Hwr Hen Her Hsz] Hg. split; try done; rewrite ?concat_app; cbn [concat]; rewrite ?app_nil_r.
  - by rewrite <-app_assoc.
  - done.
  - apply Forall_app. split; [done|by apply Forall_singleton].
Qed.

Lemma common_tally_closed cfg w gs q : common_inv cfg w gs [] q -> tally cfg w gs q.
Proof. intros [Hlog Hok _ _ Hwr Hen Her Hsz]. rewrite app_nil_r in Hwr. by split. Qed.

(** A failure while the packet [p] is held: it and the packets in the queue are lost. *)
Lemma mark_closing cfg w gs p q cut :
  tally cfg w gs (p :: q) -> cut `prefix_of` record_bytes p -> on_disk cfg w (cut_files gs cut) ->
  closing cfg (mark_write_error w) gs (p :: q) cut.
Proof.
  intros [Hlog Hok Hwr Hen Her Hsz] Hcut Hd.
  destruct w as [op cur sz pend wr en dr er rot rec acc fi rf sl ho ru lg]. proj_writer. unfold mark_write_error.
  subst er. split; proj_writer; try done. cbn [take fmap list_fmap concat]. by rewrite app_nil_r.
Qed.

Lemma open_on_disk cfg w gs g cut :
  sealed w = drop (length gs - keep_count cfg) (files gs) -> recent_files_ w = (sealed w).*1 ->
  current w = Some (length gs, file_bytes g ++ cut) -> on_disk cfg w (cut_files (gs ++ [g]) cut).
Proof.
  intros Hsl Hrf Hcur. split; [done|]. right. rewrite cut_files_snoc. eexists _, _.
  split_and!; [done|done|]. by rewrite length_files.
Qed.

Lemma open_new_file_fails cfg e w gs p q :
  common_inv cfg w gs [] (p :: q) -> current w = None ->
  (dirs_ok e && open_ok e && header_ok e = true \/
   exists w', open_new_file e w = (false, w') /\ is_open (mark_write_error w') = false /\
     closing cfg (mark_write_error w') gs (p :: q) []).
Proof.
  intros Hc Hcur. destruct (dirs_ok e && open_ok e && header_ok e) eqn:Ee; [by left|right].
  destruct Hc as [Hlog Hok Hsl Hrf Hwr Hen Her Hsz].
  destruct w as [op cur sz pend wr en dr er rot rec acc fi rf sl ho ru lg]. proj_writer. unfold open_new_file. subst cur.
  destruct (dirs_ok e), (open_ok e), (header_ok e); cbn in Ee |- *; try done; eexists; (split; [reflexivity|]);
    (split; [done|]); apply mark_closing; try (apply prefix_nil); try (by apply common_tally_closed; split);
    (split; [done|]); left; (split; [done|]); proj_writer; by rewrite cut_files_nil, length_files.
Qed.

Lemma rotate_any cfg e w gs g p :
  config_ok cfg -> cap_inv cfg w gs g -> holding w = Some p ->
  let w' := rotate_file_if_needed cfg e (kPcapRecordHeaderSize + Z.of_nat (length (data p))) w in
  (exists gs' g', cap_inv cfg w' gs' g' /\ holding w' = Some p /\ size_ok cfg (g' ++ [p]) /\
    pending_packets_ w' = pending_packets_ w /\ accepting_packets_ w' = accepting_packets_ w) \/
  (is_open w' = false /\ exists gs' lost, closing cfg w' gs' lost [] /\ lost <> []).
Proof.
  intros Hcfg Hinv Hho w'.
  assert (Hgood : forall e', env_good e' -> rotate_file_if_needed cfg e' (kPcapRecordHeaderSize + Z.of_nat (length (data p))) w = w' ->
    exists gs' g', cap_inv cfg w' gs' g' /\ holding w' = Some p /\ size_ok cfg (g' ++ [p]) /\
    pending_packets_ w' = pending_packets_ w /\ accepting_packets_ w' = accepting_packets_ w).
  { intros e' He' E. destruct (rotate_inv cfg e' w gs g p Hcfg He' Hinv Hho) as (w1 & gs' & g' & E' & H').
    rewrite E in E'. subst w1. by exists gs', g'. }
  subst w'. revert Hgood. unfold rotate_file_if_needed. pose proof Hinv as [Hc Hru Hop Hcur Hfi Hcs Hso Hro]. rewrite Hop. cbn [negb].
  set (good := mkEnv true true true true true None). assert (Hg : env_good good) by (by split_and!).
  destruct (_ <=? _) eqn:Ele.
  { intros Hgood. left. apply (Hgood good Hg). done. }
  rewrite Hho in Hc. cbn [option_list app] in Hc. pose proof (common_tally _ _ _ _ _ Hc Hso) as Ht.
  destruct (rename_ok e) eqn:Er.
  - destruct (seal_inv cfg w gs g _ Hc Hcur Hso) as (w1 & Es & Hc1 & _ & Hcur1 & _). rewrite Es. cbn [negb].
    assert (Hc2 : common_inv cfg (add_rotated w1) (gs ++ [g]) [] (p :: pending_packets_ w)).
    { destruct Hc1. destruct w1. by split. }
    destruct (open_new_file_fails cfg e (add_rotated w1) (gs ++ [g]) p _ Hc2) as [Ee|(w2 & E2 & Ho2 & Hcl)]; [by destruct w1| |].
    + intros Hgood. left. apply (Hgood good Hg). cbn [rename_ok good]. rewrite Es. cbn [negb].
      destruct w1. unfold add_rotated, open_new_file. destruct (dirs_ok e), (open_ok e), (header_ok e); try done.
    + intros _. right. rewrite E2. split; [done|]. by exists (gs ++ [g]), (p :: pending_packets_ w).
  - intros _. right. destruct Hc as [_ _ Hsl Hrf _ _ _ _], Ht.
    destruct w as [op cur sz pend wr en dr er rot rec acc fi rf sl ho ru lg]. proj_writer. subst cur. unfold seal_current_file. cbn [negb].
    split; [done|]. exists (gs ++ [g]), (p :: pend). split; [|done]. apply mark_closing; [by split|apply prefix_nil|].
    apply open_on_disk; proj_writer; [done|done|]. by rewrite app_nil_r.
Qed.

(** The record is cut. *)
Lemma append_cut cfg e w gs g p n :
  write_fails e = Some n -> cap_inv cfg w gs g -> holding w = Some p ->
  exists w', append_record e p w = (false, w') /\
    closing cfg (mark_write_error w') (gs ++ [g]) (p :: pending_packets_ w) (take n (record_bytes p)).
Proof.
  intros Hwf [Hc Hru Hop Hcur Hfi Hcs Hso Hro] Hho. rewrite Hho in Hc. cbn [option_list app] in Hc.
  destruct (common_tally _ _ _ _ _ Hc Hso), Hc as [_ _ Hsl Hrf _ _ _ _].
  destruct w as [op cur sz pend wr en dr er rot rec acc fi rf sl ho ru lg]. proj_writer. subst cur.
  unfold append_record. rewrite Hwf. eexists. split; [reflexivity|].
  apply mark_closing; [by split|apply prefix_take|]. by apply open_on_disk.
Qed.

Lemma process_any cfg e w gs g p :
  config_ok cfg -> cap_inv cfg w gs g -> holding w = Some p ->
  let w' := process_packet cfg e p w in
  (exists gs' g', cap_inv cfg w' gs' g' /\ accepting_packets_ w' = accepting_packets_ w /\ (work w' <= work w - 1)%nat) \/
  (running w' = false /\ ~ env_good e /\ exists gs' lost cut, closing cfg w' gs' lost cut /\ lost <> []).
Proof.
  intros Hcfg Hinv Hho w'. subst w'. unfold process_packet. rewrite (iv_open _ _ _ _ Hinv). cbn [negb].
  pose proof (fun He => rotate_inv cfg e w gs g p Hcfg He Hinv Hho) as Hgood.
  destruct (rotate_any cfg e w gs g p Hcfg Hinv Hho) as [(gs1 & g1 & Hi1 & Hh1 & Hs1 & Hp1 & Ha1)|(Ho & gs1 & lost & Hcl & Hne)].
  - revert Hi1 Hh1 Hp1 Ha1. generalize (rotate_file_if_needed cfg e (kPcapRecordHeaderSize + Z.of_nat (length (data p))) w).
    intros w1 Hi1 Hh1 Hp1 Ha1. rewrite (iv_open _ _ _ _ Hi1). cbn [negb]. destruct (write_fails e) as [n|] eqn:Hwf.
    + right. destruct (append_cut cfg e w1 gs1 g1 p n Hwf Hi1 Hh1) as (w2 & -> & Hcl).
      destruct (writer_exit_closing cfg e _ _ _ _ Hcl) as [Hcl' Hru']. split; [done|]. split; [|by eexists _, _, _].
      intros (_ & _ & _ & _ & _ & E). congruence.
    + left. destruct (append_inv cfg e w1 gs1 g1 p Hcfg Hwf Hi1 Hh1 Hs1) as (w2 & -> & Hi2 & Hh2 & Hp2 & Ha2).
      exists gs1, (g1 ++ [p]). split_and!; [done|congruence|]. unfold work. rewrite Hh2, Hp2, Hp1, Hho. cbn. lia.
  - right. rewrite Ho. cbn [negb]. destruct (writer_exit_closing cfg e _ _ _ _ Hcl) as [Hcl' Hru']. split; [done|].
    split; [|by eexists _, _, _]. intros He. destruct (Hgood He) as (w1 & gs' & g' & E & Hi & _).
    rewrite E in Ho. by rewrite (iv_open _ _ _ _ Hi) in Ho.
Qed.

(** The thread runs, or it has ended. *)
Definition capturing (cfg : PcapWriterConfig) (w : PcapWriter) : Prop := exists gs g, cap_inv cfg w gs g.

Definition ended (cfg : PcapWriterConfig) (w : PcapWriter) (gs : list (list PendingPacket)) (lost : list PendingPacket)
    (cut : bytes) : Prop :=
  closing cfg w gs lost cut /\ running w = false.

Lemma take_packet_env cfg e e' w :
  holding w = None -> (0 < work w)%nat \/ accepting_packets_ w = true -> take_packet cfg e w = take_packet cfg e' w.
Proof.
  destruct w as [op cur sz pend wr en dr er rot rec acc fi rf sl ho ru lg]. unfold work. proj_writer. intros -> Hgo.
  destruct pend, acc; try done. cbn in Hgo. destruct Hgo; [lia|done].
Qed.

Lemma take_packet_ends cfg e w :
  holding w = None -> ~ ((0 < work w)%nat \/ accepting_packets_ w = true) ->
  take_packet cfg e w = writer_exit cfg e w /\ pending_packets_ w = [] /\ accepting_packets_ w = false.
Proof.
  destruct w as [op cur sz pend wr en dr er rot rec acc fi rf sl ho ru lg]. unfold work. proj_writer. intros -> Hend.
  destruct pend, acc; [tauto|done|tauto|]. exfalso. apply Hend. left. cbn. lia.
Qed.

(** One step of the writer, whatever the file system does. *)
Lemma writer_step_any cfg e w :
  config_ok cfg -> capturing cfg w ->
  let w' := writer_step cfg e w in
  (capturing cfg w' /\ accepting_packets_ w' = accepting_packets_ w /\ (work w' <= work w - 1)%nat /\
     ((0 < work w)%nat \/ accepting_packets_ w = true)) \/
  (exists gs lost cut, ended cfg w' gs lost cut /\ (env_good e -> lost = []) /\ (lost = [] -> accepting_packets_ w = false)).
Proof.
  intros Hcfg (gs & g & Hinv) w'. subst w'. unfold writer_step. rewrite (iv_running _ _ _ _ Hinv). cbn [negb].
  destruct (holding w) as [p|] eqn:Hho.
  - destruct (process_any cfg e w gs g p Hcfg Hinv Hho) as [(gs1 & g1 & Hi & Ha & Hw)|(Hru & He & gs1 & lost & cut & Hcl & Hne)].
    + left. split_and!; [by exists gs1, g1|done|done|]. left. unfold work. rewrite Hho. cbn. lia.
    + right. exists gs1, lost, cut. by split_and!.
  - set (good := mkEnv true true true true true None).
    destruct (decide ((0 < work w)%nat \/ accepting_packets_ w = true)) as [Hgo|Hend].
    + left. destruct (writer_step_inv cfg good w gs g Hcfg) as (gs1 & g1 & Hi & Ha & Hw); [by split_and!|done|done|].
      unfold writer_step in Hi, Ha, Hw. rewrite (iv_running _ _ _ _ Hinv), Hho in Hi, Ha, Hw. cbn [negb] in Hi, Ha, Hw.
      rewrite (take_packet_env cfg e good w Hho Hgo). split_and!; [by exists gs1, g1|done..].
    + right. destruct (take_packet_ends cfg e w Hho Hend) as (-> & Hp & Ha).
      destruct Hinv as [Hc Hru Hop Hcur Hfi Hcs Hso Hro]. rewrite Hho, Hp in Hc. cbn [option_list app] in Hc.
      destruct (common_tally _ _ _ _ _ Hc Hso), Hc as [_ _ Hsl Hrf _ _ _ _].
      exists (gs ++ [g]), [], []. split_and!; [|done|done]. apply writer_exit_closing. split; try done.
      * apply open_on_disk; [done|done|]. by rewrite app_nil_r.
      * intros _. rewrite Hro, length_app. do 2 f_equal. cbn. lia.
Qed.

(** *** Any run *)

Lemma ended_stays cfg op w gs lost cut : ended cfg w gs lost cut -> capture_step cfg op w = w.
Proof.
  intros [Hcl Hru]. pose proof (cl_accepting _ _ _ _ _ Hcl) as Ha. destruct op as [raw ts|e]; cbn [capture_step].
  - destruct w. proj_writer. subst. done.
  - unfold writer_step. by rewrite Hru.
Qed.

Lemma run_ended cfg ops w gs lost cut : ended cfg w gs lost cut -> run_capture cfg ops w = w.
Proof.
  intros He. unfold run_capture. induction ops as [|op ops IH]; [done|]. cbn [foldl]. by rewrite (ended_stays _ _ _ _ _ _ He).
Qed.

(** Packets fit a record; the file system does as asked. *)
Definition op_sized (op : CaptureOp) : Prop :=
  match op with WritePacket raw _ => Z.of_nat (length raw) <= kPcapSnapLen | WriterStep _ => True end.

Definition op_good (op : CaptureOp) : Prop :=
  match op with WritePacket _ _ => True | WriterStep e => env_good e end.

(** While packets are accepted, or after a failure. *)
Definition open_or_failed (cfg : PcapWriterConfig) (w : PcapWriter) (off : list PendingPacket) (good : Prop) : Prop :=
  log w `sublist_of` off /\
  ((capturing cfg w /\ accepting_packets_ w = true /\ accounted w off) \/
   exists gs lost cut, ended cfg w gs lost cut /\ lost <> [] /\ ~ good).

Lemma step_open_or_failed cfg op w off good :
  config_ok cfg -> op_sized op -> open_or_failed cfg w off good ->
  open_or_failed cfg (capture_step cfg op w) (off ++ offered cfg op) (good /\ op_good op).
Proof.
  intros Hcfg Hop [Hlog [(Hi & Ha & Hac)|(gs & lost & cut & He & Hne & Hg)]].
  - pose proof (accounted_step cfg op w off Ha Hac) as Hac'. split; [apply Hac'|].
    destruct op as [raw ts|e]; cbn [capture_step op_good op_sized] in *.
    + left. destruct Hi as (gs & g & Hi). split_and!; [exists gs, g; by apply write_packet_inv|by rewrite write_packet_accepting|done].
    + destruct (writer_step_any cfg e w Hcfg Hi) as [(Hi' & Ha' & _)|(gs & lost & cut & He & Hg & Hn)].
      * left. split_and!; [done|congruence|done].
      * right. assert (Hne : lost <> []) by (intros ->; by rewrite Hn in Ha). exists gs, lost, cut.
        split_and!; [done|done|]. intros [_ Hgood]. by apply Hne, Hg.
  - rewrite (ended_stays _ _ _ _ _ _ He). split; [by apply sublist_inserts_r|]. right. exists gs, lost, cut.
    split_and!; [done|done|tauto].
Qed.

Lemma run_open_or_failed cfg ops : forall w off good,
  config_ok cfg -> Forall op_sized ops -> open_or_failed cfg w off good ->
  open_or_failed cfg (run_capture cfg ops w) (off ++ (ops ≫= offered cfg)) (good /\ Forall op_good ops).
Proof.
  unfold run_capture. induction ops as [|op ops IH]; intros w off good Hcfg Hops Ho.
  - rewrite app_nil_r. destruct Ho as [Hl [Ho|(gs & lost & cut & He & Hne & Hg)]]; (split; [done|]); [by left|right].
    exists gs, lost, cut. split_and!; [done|done|tauto].
  - inversion Hops; subst. cbn [foldl]. rewrite bind_cons, app_assoc.
    destruct (IH _ _ _ Hcfg ltac:(done) (step_open_or_failed cfg op w off good Hcfg ltac:(done) Ho)) as [Hl Hr].
    split; [done|]. destruct Hr as [Hr|(gs & lost & cut & He & Hne & Hg)]; [by left|right].
    exists gs, lost, cut. split_and!; [done|done|]. rewrite Forall_cons. tauto.
Qed.

(** The thread ends after as many steps as there is work, and one more. *)
Lemma drain_any cfg es : forall w,
  config_ok cfg -> capturing cfg w -> accepting_packets_ w = false -> (work w < length es)%nat ->
  exists gs lost cut, ended cfg (run_capture cfg (WriterStep <$> es) w) gs lost cut /\ (Forall env_good es -> lost = []).
Proof.
  induction es as [|e es IH]; intros w Hcfg Hi Ha Hw; cbn [length] in Hw; [lia|].
  change (run_capture cfg (WriterStep <$> e :: es) w) with (run_capture cfg (WriterStep <$> es) (writer_step cfg e w)).
  destruct (writer_step_any cfg e w Hcfg Hi) as [(Hi' & Ha' & Hw' & Hgo)|(gs & lost & cut & He & Hg & _)].
  - destruct (IH (writer_step cfg e w)) as (gs & lost & cut & He & Hg); [done|done|congruence|destruct Hgo; [lia|congruence]|].
    exists gs, lost, cut. split; [done|]. intros [_ ?]%Forall_cons. by apply Hg.
  - rewrite (run_ended _ _ _ _ _ _ He). exists gs, lost, cut. split; [done|]. intros [? _]%Forall_cons. by apply Hg.
Qed.

Lemma begin_stop_ended cfg w gs lost cut : ended cfg w gs lost cut -> begin_stop w = w.
Proof. intros [Hcl _]. pose proof (cl_accepting _ _ _ _ _ Hcl) as Ha. destruct w. proj_writer. by subst. Qed.

(** [stop] ends the thread and hands the directory over. *)
Lemma stop_any cfg es e1 w off good :
  config_ok cfg -> open_or_failed cfg w off good -> (work w < length es)%nat ->
  let f := finish_stop cfg e1 (run_capture cfg (WriterStep <$> es) (begin_stop w)) in
  exists gs lost cut, ended cfg f gs lost cut /\ (good -> Forall env_good es -> lost = []) /\
    log f `sublist_of` off /\ (final_rename_ok e1 = true -> current f = None) /\
    (lost = [] -> dropped_queue_full_ f = u64 (Z.of_nat (length off - length (log f)))).
Proof.
  intros Hcfg [Hsub Ho] Hw f. destruct (run_steps_log cfg es (begin_stop w)) as [Hl Hd].
  assert (El : log (begin_stop w) = log w) by (by destruct w).
  assert (Ed : dropped_queue_full_ (begin_stop w) = dropped_queue_full_ w) by (by destruct w).
  assert (exists gs lost cut, ended cfg (run_capture cfg (WriterStep <$> es) (begin_stop w)) gs lost cut /\
    (good -> Forall env_good es -> lost = []) /\ (lost = [] -> accounted w off)) as (gs & lost & cut & [Hcl Hru] & Hg & Hac).
  { destruct Ho as [((gs & g & Hi) & Ha & Hac)|(gs & lost & cut & He & Hne & Hg)].
    - destruct (begin_stop_inv cfg w gs g Hi) as (Hi2 & Ha2 & Hw2 & _).
      destruct (drain_any cfg es (begin_stop w) Hcfg ltac:(by exists gs, g) Ha2 ltac:(lia)) as (gs' & lost & cut & He & Hg).
      exists gs', lost, cut. by split_and!.
    - rewrite (begin_stop_ended _ _ _ _ _ He), (run_ended _ _ _ _ _ _ He). exists gs, lost, cut. by split_and!. }
  destruct (finish_stop_closing cfg e1 _ _ _ _ Hcl Hru) as (Hclf & Hruf & Hcur & Hdf). fold f in Hclf, Hruf, Hcur, Hdf.
  assert (Elf : log f = log w).
  { rewrite <-El, <-Hl, (cl_log _ _ _ _ _ Hcl). apply (cl_log _ _ _ _ _ Hclf). }
  exists gs, lost, cut. split_and!; [done|done|by rewrite Elf|done|].
  intros E. destruct (Hac E) as [_ Hdr]. by rewrite Hdf, Hd, Ed, Elf.
Qed.

(** Where nothing was lost, nothing was cut. *)
Lemma ended_complete cfg w gs cut : ended cfg w gs [] cut -> cut = [].
Proof. intros [Hcl _]. by apply prefix_nil_inv, (cl_cut _ _ _ _ _ Hcl). Qed.

(** Packets that fit a record read back from their file. *)
Lemma groups_read_back gs q w : log w = concat gs ++ q -> Forall pending_ok (log w) ->
  Forall (fun g => Pcap.read_file (file_bytes g) = Some (format_as true false, record_of <$> g, None)) gs.
Proof.
  intros -> [Hok _]%Forall_app. induction gs as [|g gs IH]; [constructor|].
  cbn [concat] in Hok. apply Forall_app in Hok as [Hg Hgs]. constructor; [|by apply IH].
  rewrite file_bytes_as by done. apply read_file_as. apply Forall_fmap. eapply list.Forall_impl; [exact Hg|].
  intros p. apply record_of_ok.
Qed.



(** The second record is cut after five bytes: the error is counted, the third packet is lost with it, and the file that
    gets the final name ends inside the record. *)
Example cut_record_is_sealed :
  let cfg := mkPcapWriterConfig true 1 2 16 [] [] in
  let e := mkEnv true true true true true None in
  let bad := mkEnv true true true true true (Some 5%nat) in
  let f := finish_stop cfg e (run_capture cfg (WriterStep <$> replicate 8 e) (begin_stop (run_capture cfg
    [WritePacket [1; 2; 3] 5000007; WritePacket [4] 6000000; WritePacket [5] 6000001; WriterStep e; WriterStep e; WriterStep e; WriterStep bad]
    (start cfg e PcapWriter_init).2))) in
  write_errors_ f = 1 /\ packets_written_ f = 1 /\ enqueued_packets_ f = 3 /\
  exists c, (sealed f).*2 = [c] /\
    c = file_bytes [mkPendingPacket 5000007 [1; 2; 3]] ++ take 5 (record_bytes (mkPendingPacket 6000000 [4])) /\
    forall rs, Pcap.read_file c <> Some (format_as true false, rs, None).
Proof.
  cbv zeta. split_and!; [vm_compute; reflexivity..|]. eexists. split_and!; [vm_compute; reflexivity..|].
  intros rs. vm_compute. congruence.
Qed.

End Capture.
