(* ===== verification/CapturePaths.v ===== *)
(** The paths of the capture writer ([src/m01_receiver/capture/pcap_writer.cpp]): making the
    directories of a path one after the other, joining a directory and a file, and the names of
    the partial and the sealed files.  [mkdir] is a parameter.  [Capture] numbers the files; here
    the names are shown to be different for different numbers. *)

From S2P Require Import Prelude Text.
From stdpp Require Import strings.
From Stdlib Require Import Ascii.
Open Scope Z_scope.
Import Text.

Module CapturePaths.

(** ** Definitions *)

Definition kPathSep : ascii := "/".
Definition kPartialSuffix : string := ".pcap.part".
Definition kSealedSuffix : string := ".pcap".

Definition backslash : ascii := "\".

Definition is_sep (c : ascii) : bool := bool_decide (c = kPathSep) || bool_decide (c = backslash).

Fixpoint normalize (s : string) : string :=
  match s with
  | EmptyString => EmptyString
  | String c s => String (if is_sep c then kPathSep else c) (normalize s)
  end.

(** [back() == c] for some [c] of the test; false for the empty string. *)
Fixpoint ends_in (ok : ascii -> bool) (s : string) : bool :=
  match s with
  | EmptyString => false
  | String c EmptyString => ok c
  | String _ s => ends_in ok s
  end.

Definition EEXIST : Z := 17.

Section Directories.

(** The state of the file system; [mkdir] returns its result and [errno]. *)
Context {FS : Type} (mkdir : string -> FS -> (Z * Z) * FS).

Definition create_directory_if_missing (path : string) (fs : FS) : bool * FS :=
  if bool_decide (path = EmptyString) then (false, fs)
  else
    let '((rc, errno), fs) := mkdir path fs in
    ((rc =? 0) || (errno =? EEXIST), fs).

(** [current] with a component appended. *)
Definition append_component (current component : string) : string :=
  (if negb (bool_decide (current = EmptyString)) && negb (ends_in (fun c => bool_decide (c = kPathSep)) current)
   then current +:+ String kPathSep EmptyString else current) +:+ component.

(** The loop over the components, with the text from [index] on; [None] when the fuel is too small. *)
Fixpoint ensure_loop (fuel : nat) (current rest : string) (fs : FS) : option (bool * FS) :=
  match fuel with
  | O => None
  | S fuel =>
    if bool_decide (rest = EmptyString) then Some (true, fs)
    else
      let '(component, tail) := span (fun c => negb (bool_decide (c = kPathSep))) rest in
      let '(ok, current, fs) :=
        if negb (bool_decide (component = EmptyString)) then
          let current := append_component current component in
          let '(ok, fs) := create_directory_if_missing current fs in (ok, current, fs)
        else (true, current, fs) in
      if negb ok then Some (false, fs)
      else
        match tail with
        | EmptyString => Some (true, fs)
        | String _ rest => ensure_loop fuel current rest fs
        end
  end.

Definition ensure_directories (dir : string) (fs : FS) : option (bool * FS) :=
  if bool_decide (dir = EmptyString) then Some (false, fs)
  else
    match normalize dir with
    | EmptyString => Some (true, fs)
    | String c rest =>
      if bool_decide (c = kPathSep) then ensure_loop (S (String.length rest)) (String kPathSep EmptyString) rest fs
      else ensure_loop (S (String.length (String c rest))) EmptyString (String c rest) fs
    end.

End Directories.

Definition join_path (dir file : string) : string :=
  if bool_decide (dir = EmptyString) then file
  else if ends_in is_sep dir then dir +:+ file
  else dir +:+ String kPathSep EmptyString +:+ file.

(** The names of the file with number [index] opened at [now_us]. *)
Definition base_name (now_us index : Z) : string := "receiver_spool_" +:+ decimal now_us +:+ "_" +:+ decimal index.

Definition sealed_path (dir : string) (now_us index : Z) : string := join_path dir (base_name now_us index +:+ kSealedSuffix).

Definition partial_path (dir : string) (now_us index : Z) : string := join_path dir (base_name now_us index +:+ kPartialSuffix).

(** ** Specification *)

(** The components of a path that are not empty. *)
Fixpoint split_from (acc s : string) : list string :=
  match s with
  | EmptyString => if bool_decide (acc = EmptyString) then [] else [acc]
  | String c s =>
    if is_sep c then (if bool_decide (acc = EmptyString) then [] else [acc]) ++ split_from EmptyString s
    else split_from (acc +:+ String c EmptyString) s
  end.

Definition components (path : string) : list string := split_from EmptyString path.

Definition absolute (path : string) : bool := match path with String c _ => is_sep c | EmptyString => false end.

(** The directory itself and those above it, the outermost first. *)
Fixpoint paths_from (current : string) (cs : list string) : list string :=
  match cs with
  | [] => []
  | c :: cs => append_component current c :: paths_from (append_component current c) cs
  end.

Definition ancestors (dir : string) : list string :=
  paths_from (if absolute dir then String kPathSep EmptyString else EmptyString) (components dir).

(** Directories made one after the other, up to the first failure. *)
Fixpoint make_all {FS} (mkdir : string -> FS -> (Z * Z) * FS) (ps : list string) (fs : FS) : bool * FS :=
  match ps with
  | [] => (true, fs)
  | p :: ps =>
    let '(ok, fs) := create_directory_if_missing mkdir p fs in
    if (ok : bool) then make_all mkdir ps fs else (false, fs)
  end.

(** ** Lemmas *)

Lemma split_from_app acc c s : chars_in (fun c => negb (is_sep c)) c = true -> split_from acc (c +:+ s) = split_from (acc +:+ c) s.
Proof.
  revert acc. induction c as [|x c IH]; intros acc Hc.
  - by rewrite append_nil_r.
  - cbn [chars_in] in Hc. apply andb_true_iff in Hc as [Hx Hc]. rewrite append_cons. cbn [split_from].
    destruct (is_sep x); [done|]. rewrite IH by done. rewrite append_assoc. done.
Qed.

Lemma components_first c s : chars_in (fun c => negb (is_sep c)) c = true -> match s with EmptyString => True | String x _ => is_sep x = true end ->
  components (c +:+ s) = (if bool_decide (c = EmptyString) then [] else [c]) ++ match s with EmptyString => [] | String _ s => components s end.
Proof.
  intros Hc Hs. unfold components. rewrite split_from_app by done. change (EmptyString +:+ c) with c.
  destruct s as [|x s]; cbn [split_from]; [by rewrite app_nil_r|by rewrite Hs].
Qed.

Lemma span_split ok s :
  let '(a, b) := span ok s in
  s = a +:+ b /\ chars_in ok a = true /\ match b with EmptyString => True | String c _ => ok c = false end.
Proof.
  induction s as [|c s IH]; [done|]. cbn [span]. destruct (ok c) eqn:E; [|by split].
  destruct (span ok s) as [a b]. destruct IH as (-> & Ha & Hb). split; [by rewrite append_cons|]. split; [|exact Hb]. cbn. by rewrite E.
Qed.

(** Texts without the other separator. *)
Definition normal (s : string) : bool := chars_in (fun c => negb (bool_decide (c = backslash))) s.

Lemma normal_normalize s : normal (normalize s) = true.
Proof.
  induction s as [|c s IH]; [done|]. unfold normal in *. cbn. rewrite IH, andb_true_r. unfold is_sep.
  destruct (bool_decide (c = kPathSep)); [done|]. cbn. by destruct (bool_decide (c = backslash)) eqn:E; [|rewrite E].
Qed.

Lemma split_normalize s : forall acc, split_from acc (normalize s) = split_from acc s.
Proof.
  induction s as [|c s IH]; intros acc; [done|]. cbn [normalize split_from]. destruct (is_sep c) eqn:E.
  - by rewrite IH.
  - by rewrite E, IH.
Qed.

Section Laws.

Context {FS : Type} (mkdir : string -> FS -> (Z * Z) * FS).

Lemma ensure_loop_spec fuel : forall current rest fs, (String.length rest < fuel)%nat -> normal rest = true ->
  ensure_loop mkdir fuel current rest fs = Some (make_all mkdir (paths_from current (components rest)) fs).
Proof.
  induction fuel as [|fuel IH]; intros current rest fs Hf Hn; [lia|]. cbn [ensure_loop].
  case_bool_decide as Hr; [by subst|].
  pose proof (span_split (fun c => negb (bool_decide (c = kPathSep))) rest) as Hs.
  destruct (span _ rest) as [c tail]. destruct Hs as (-> & Hc & Ht).
  assert (Hcn : chars_in (fun c => negb (is_sep c)) c = true).
  { unfold normal in Hn. rewrite chars_in_app in Hn. apply andb_true_iff in Hn as [Hn _]. clear - Hc Hn. induction c as [|x c IH]; [done|].
    cbn in *. apply andb_true_iff in Hc as [H1 Hc], Hn as [H2 Hn]. rewrite IH by done. unfold is_sep. by rewrite negb_orb, H1, H2. }
  assert (Hts : match tail with EmptyString => True | String x _ => is_sep x = true end).
  { destruct tail as [|x t]; [done|]. unfold is_sep. by rewrite negb_false_iff in Ht; rewrite Ht. }
  assert (Hrest : forall cur fs, match tail with EmptyString => Some (true, fs) | String _ rest => ensure_loop mkdir fuel cur rest fs end =
            Some (make_all mkdir (paths_from cur match tail with EmptyString => [] | String _ s => components s end) fs)).
  { intros cur fs'. destruct tail as [|x t]; [done|]. apply IH.
    - rewrite length_append in Hf. cbn in Hf. lia.
    - unfold normal in *. rewrite chars_in_app in Hn. apply andb_true_iff in Hn as [_ Hn]. cbn in Hn. by apply andb_true_iff in Hn as [_ Hn]. }
  rewrite components_first by done. case_bool_decide as Ec; cbn [negb app paths_from make_all]; [by rewrite Hrest|].
  destruct (create_directory_if_missing mkdir _ fs) as [[] fs']; cbn [negb]; [by rewrite Hrest|done].
Qed.

(** The loop makes the directory and those above it, the outermost first, up to the first that fails; empty components
    and either separator do not matter; an empty path fails. *)
Theorem ensure_directories_exact (dir : string) (fs : FS) :
  ensure_directories mkdir dir fs =
    Some (if bool_decide (dir = EmptyString) then (false, fs) else make_all mkdir (ancestors dir) fs).
Proof.
  unfold ensure_directories. case_bool_decide as Hd; [done|]. destruct dir as [|c s]; [done|].
  pose proof (normal_normalize (String c s)) as Hn. pose proof (split_normalize (String c s) EmptyString) as Hsp.
  unfold ancestors, components. rewrite <-Hsp. cbn [normalize absolute] in *. destruct (is_sep c) eqn:E; cbn [split_from] in Hsp |- *.
  - rewrite bool_decide_eq_true_2 by done. rewrite ensure_loop_spec; [done|lia|]. unfold normal in *. cbn in Hn. done.
  - rewrite E. assert (Hk : c <> kPathSep) by (intros ->; done).
    rewrite bool_decide_eq_false_2 by done. rewrite ensure_loop_spec; [|lia|exact Hn].
    unfold components. cbn [split_from]. by rewrite E.
Qed.

(** What [mkdir] promises: directories that exist stay, it succeeds only by making the directory, and
    reports [EEXIST] only for a path that exists. *)
Class MkdirSpec (exists_in : string -> FS -> Prop) : Prop := {
  mkdir_keeps p q fs : exists_in q fs -> exists_in q (mkdir p fs).2;
  mkdir_made p fs : (mkdir p fs).1.1 = 0 -> exists_in p (mkdir p fs).2;
  mkdir_exists p fs : (mkdir p fs).1.2 = EEXIST -> exists_in p fs;
}.

Context (exists_in : string -> FS -> Prop) `{!MkdirSpec exists_in}.

Lemma create_keeps p q fs : exists_in q fs -> exists_in q (create_directory_if_missing mkdir p fs).2.
Proof.
  intros Hq. unfold create_directory_if_missing. case_bool_decide; [done|].
  pose proof (mkdir_keeps p q fs Hq) as Hk. by destruct (mkdir p fs) as [[rc errno] fs'].
Qed.

Lemma create_made p fs : (create_directory_if_missing mkdir p fs).1 = true -> exists_in p (create_directory_if_missing mkdir p fs).2.
Proof.
  unfold create_directory_if_missing. case_bool_decide; [done|].
  pose proof (mkdir_made p fs) as Hm. pose proof (mkdir_exists p fs) as He. pose proof (mkdir_keeps p p fs) as Hk.
  destruct (mkdir p fs) as [[rc errno] fs']. cbn [fst snd] in *. rewrite orb_true_iff, !Z.eqb_eq. intros [H1|H1]; auto.
Qed.

Lemma make_all_made ps : forall fs, (make_all mkdir ps fs).1 = true ->
  (forall q, exists_in q fs -> exists_in q (make_all mkdir ps fs).2) /\ Forall (fun p => exists_in p (make_all mkdir ps fs).2) ps.
Proof.
  induction ps as [|p ps IH]; intros fs; [by split|]. cbn [make_all].
  pose proof (create_made p fs) as Hm. pose proof (fun q => create_keeps p q fs) as Hk.
  destruct (create_directory_if_missing mkdir p fs) as [[] fs']; cbn [fst snd] in *; [|done].
  intros Hok. destruct (IH fs' Hok) as [H1 H2]. split; [auto|]. constructor; auto.
Qed.

(** After success the directory and all those above it exist. *)
Theorem ensure_directories_made (dir : string) (fs fs' : FS) (Hok : ensure_directories mkdir dir fs = Some (true, fs')) :
  Forall (fun p => exists_in p fs') (ancestors dir) /\ (forall q, exists_in q fs -> exists_in q fs').
Proof.
  rewrite ensure_directories_exact in Hok. injection Hok as Hok. case_bool_decide; [done|].
  destruct (make_all_made (ancestors dir) fs) as [H1 H2]; rewrite Hok in *; [done|]. by split.
Qed.

End Laws.

(** *** Joining *)

Lemma split_sep x s t : is_sep x = true -> forall acc, split_from acc (s +:+ String x t) = split_from acc s ++ components t.
Proof.
  intros Hx. induction s as [|c s IH]; intros acc.
  - change (EmptyString +:+ String x t) with (String x t). cbn [split_from]. by rewrite Hx.
  - rewrite append_cons. cbn [split_from]. destruct (is_sep c); rewrite IH; [by rewrite app_assoc|done].
Qed.

Lemma ends_in_snoc ok s : ends_in ok s = true -> exists s' c, s = s' +:+ String c EmptyString /\ ok c = true.
Proof.
  induction s as [|x s IH]; [done|]. destruct s as [|y s].
  - intros Hx. by exists EmptyString, x.
  - intros (s' & c & -> & Hc)%IH. exists (String x s'), c. by rewrite append_cons.
Qed.

(** A file in a directory: whatever separators the directory ends in, one component is added, which is the file. *)
Theorem join_path_components (dir file : string) (Hf : chars_in (fun c => negb (is_sep c)) file = true) (Hne : file <> EmptyString) :
  components (join_path dir file) = components dir ++ [file] /\ (dir <> EmptyString -> absolute (join_path dir file) = absolute dir).
Proof.
  assert (Hfile : components file = [file]).
  { rewrite <-(append_nil_r file) at 1. rewrite components_first by done. by rewrite bool_decide_eq_false_2. }
  unfold join_path. case_bool_decide as Hd; [subst; by split|]. destruct (ends_in is_sep dir) eqn:E.
  - apply ends_in_snoc in E as (d & c & -> & Hc). split.
    + unfold components at 1. rewrite append_assoc. change (String c EmptyString +:+ file) with (String c file).
      rewrite split_sep, Hfile by done. unfold components. by rewrite split_sep, app_nil_r.
    + intros _. by destruct d.
  - split; [|by destruct dir]. unfold components at 1. change (String kPathSep EmptyString +:+ file) with (String kPathSep file).
    by rewrite split_sep, Hfile.
Qed.

(** *** Names *)

Lemma append_inj_l a b c : a +:+ b = a +:+ c -> b = c.
Proof. induction a as [|x a IH]; [done|]. rewrite !append_cons. intros [= H]. auto. Qed.

Lemma join_path_inj dir f g : join_path dir f = join_path dir g -> f = g.
Proof.
  unfold join_path. case_bool_decide; [done|]. destruct (ends_in is_sep dir); intros Hj; apply append_inj_l in Hj; [done|]. by injection Hj.
Qed.

Lemma digits_head n c s m c' s' : digit_char c = false -> digit_char c' = false ->
  decimal n +:+ String c s = decimal m +:+ String c' s' -> decimal n = decimal m /\ String c s = String c' s'.
Proof.
  intros Hc Hc' H. pose proof (span_app digit_char (decimal n) (String c s) (decimal_digits n) Hc) as H1.
  pose proof (span_app digit_char (decimal m) (String c' s') (decimal_digits m) Hc') as H2.
  rewrite H, H2 in H1. by injection H1 as -> -> ->.
Qed.

Lemma base_name_inj n i n' i' s s' : 0 <= i -> 0 <= i' ->
  base_name n i +:+ String "." s = base_name n' i' +:+ String "." s' -> i = i' /\ s = s'.
Proof.
  unfold base_name. intros Hi Hi' H. rewrite !append_assoc in H. apply append_inj_l in H.
  change ("_" +:+ ?x) with (String "_" x) in H. apply digits_head in H as [_ H]; [|done|done]. injection H as H.
  apply digits_head in H as [H1 H2]; [|done|done]. apply decimal_inj in H1; [|done|done]. by injection H2.
Qed.

(** Files with different numbers have different names, and no file that is being written has the name of a
    finished one, whatever the clock says. *)
Theorem capture_names_distinct (dir : string) (n i n' i' : Z) (Hi : 0 <= i) (Hi' : 0 <= i') :
  (sealed_path dir n i = sealed_path dir n' i' -> i = i') /\
  (partial_path dir n i = partial_path dir n' i' -> i = i') /\
  sealed_path dir n i <> partial_path dir n' i'.
Proof.
  split_and!; unfold sealed_path, partial_path, kSealedSuffix, kPartialSuffix; intros H%join_path_inj;
    apply base_name_inj in H as [H1 H2]; done.
Qed.

(** ** Witnesses *)

Module Demo.

(** A file system as the list of its paths. *)
Definition demo_mkdir (p : string) (fs : list string) : (Z * Z) * list string :=
  if bool_decide (p ∈ fs) then ((-1, EEXIST), fs) else ((0, 0), p :: fs).

#[export] Instance demo_mkdir_spec : MkdirSpec demo_mkdir elem_of.
Proof.
  split; unfold demo_mkdir; intros; case_bool_decide; cbn in *; set_solver.
Qed.

End Demo.

Import Demo.

Lemma ensure_directories_made_witness :
  exists fs, ensure_directories demo_mkdir "/data//spool\m01" ["/data"] = Some (true, fs) /\
    Forall (fun p => elem_of p fs) ["/data"; "/data/spool"; "/data/spool/m01"].
Proof.
  eexists. split; [vm_compute; reflexivity|]. eapply (ensure_directories_made demo_mkdir elem_of "/data//spool\m01" ["/data"]).
  vm_compute. reflexivity.
Defined.

(** A file in place of the directory counts as the directory: only [EEXIST] is tested. *)
Example file_in_the_way : create_directory_if_missing demo_mkdir "/data" ["/data"] = (true, ["/data"]).
Proof. vm_compute. reflexivity. Qed.

End CapturePaths.
