(* ===== verification/PcapReplay.v ===== *)
(** The program [tools/pcap_replay.cpp]: its arguments, the pacing and the output of a
    pass over the capture, and the loop over passes.  The readers and [should_send] are
    those of [Pcap].  Inputs are what the system calls return: the clock, [sendto],
    the file at every opening, the socket and [inet_pton]. *)

From S2P Require Import Prelude Float Text CText Protocol Pcap.
From stdpp Require Import strings.
From Stdlib Require Import Ascii.
Open Scope Z_scope.
Import Float Text CText Pcap.

Module PcapReplay.

(** ** Options *)

Record Options := mkOptions {
  pcap_file : string;
  target_ip : string;
  target_port : Z;
  speed : Z;
  loop : bool;
  count : option Z;
  window : ReplayOptions;  (* [start_time_epoch], [end_time_epoch] *)
}.

Definition d0 : Z := 0.
Definition d1 : Z := 0x3FF0000000000000.

Definition Options_default : Options :=
  mkOptions "" "127.0.0.1" 9999 d1 false None (mkReplayOptions None None).

(** The text in front of and behind the last occurrence of a character. *)
Fixpoint split_last (c : ascii) (s : string) : option (string * string) :=
  match s with
  | EmptyString => None
  | String d s' =>
    match split_last c s' with
    | Some (a, b) => Some (String d a, b)
    | None => if bool_decide (d = c) then Some (EmptyString, s') else None
    end
  end.

Definition parse_target (text : string) : option (string * Z) :=
  '(ip, port_text) ← split_last ":"%char text;
  if bool_decide (ip = EmptyString) || bool_decide (port_text = EmptyString) then None
  else
    let '(parsed, rest) := CText.strtol port_text in
    if negb (bool_decide (rest = EmptyString)) || (parsed <? 1) || (65535 <? parsed) then None
    else Some (ip, u16 parsed).

Definition parse_uint64 (text : string) : option Z :=
  let '(parsed, rest) := CText.strtoull text in
  if bool_decide (rest = EmptyString) then Some parsed else None.

Section Args.
Context `{Strtod}.

Definition parse_double (text : string) : option Z :=
  let '(value, rest) := strtod text in
  if bool_decide (rest = EmptyString) then Some value else None.

(** The options behind the file. *)
Fixpoint parse_options (args : list string) (o : Options) : option Options :=
  let '(mkOptions file ip port sp lp cnt (mkReplayOptions st en)) := o in
  match args with
  | [] => Some o
  | arg :: args =>
    if bool_decide (arg = "--target") then
      match args with
      | [] => None
      | a :: args => '(ip, port) ← parse_target a; parse_options args (mkOptions file ip port sp lp cnt (mkReplayOptions st en))
      end
    else if bool_decide (arg = "--speed") || bool_decide (arg = "--rate-multiplier") then
      match args with
      | [] => None
      | a :: args =>
        sp ← parse_double a;
        if fltb binary64 sp d0 then None
        else parse_options args (mkOptions file ip port sp lp cnt (mkReplayOptions st en))
      end
    else if bool_decide (arg = "--target-ip") then
      match args with
      | [] => None
      | a :: args => parse_options args (mkOptions file a port sp lp cnt (mkReplayOptions st en))
      end
    else if bool_decide (arg = "--loop") then parse_options args (mkOptions file ip port sp true cnt (mkReplayOptions st en))
    else if bool_decide (arg = "--count") then
      match args with
      | [] => None
      | a :: args =>
        n ← parse_uint64 a;
        if n =? 0 then None else parse_options args (mkOptions file ip port sp lp (Some n) (mkReplayOptions st en))
      end
    else if bool_decide (arg = "--start-time") then
      match args with
      | [] => None
      | a :: args => t ← parse_double a; parse_options args (mkOptions file ip port sp lp cnt (mkReplayOptions (Some t) en))
      end
    else if bool_decide (arg = "--end-time") then
      match args with
      | [] => None
      | a :: args => t ← parse_double a; parse_options args (mkOptions file ip port sp lp cnt (mkReplayOptions st (Some t)))
      end
    else None
  end.

(** The arguments behind the program's name. *)
Definition parse_args (args : list string) : option Options :=
  match args with
  | [] => None
  | file :: args =>
    let '(mkOptions _ ip port sp lp cnt w) := Options_default in
    o ← parse_options args (mkOptions file ip port sp lp cnt w);
    match start_time_epoch (window o), end_time_epoch (window o) with
    | Some st, Some en => if fltb binary64 en st then None else Some o
    | _, _ => Some o
    end
  end.

End Args.

Definition usage : string :=
  "Usage: pcap_replay <pcap_file> [options]" +:+ nl
  +:+ "  --target <ip:port>       Target address (default: 127.0.0.1:9999)" +:+ nl
  +:+ "  --target-ip <ip>         Target IP only (port unchanged, default: 127.0.0.1)" +:+ nl
  +:+ "  --speed <factor>         Replay speed factor (default: 1.0, 0=as-fast-as-possible)" +:+ nl
  +:+ "  --rate-multiplier <N>    Alias for --speed" +:+ nl
  +:+ "  --loop                   Loop replay" +:+ nl
  +:+ "  --count <N>              Stop after N iterations" +:+ nl
  +:+ "  --start-time <epoch>     Replay packets after this epoch seconds" +:+ nl
  +:+ "  --end-time <epoch>       Replay packets before this epoch seconds" +:+ nl.

(** ** A pass over the capture *)

(** What the program does: it sleeps (seconds, as a [double]), sends a datagram, writes to its
    output or its error stream, and closes its socket. *)
Inductive Event := Slept (seconds : Z) | SentTo (b : bytes) | Out (s : string) | Err (s : string) | Closed.

(** The system calls: the nanoseconds at the n-th read of the clock, the results of the
    calls of [sendto], the file at the n-th opening if it opens, the new socket, and whether an address is valid. *)
Record Env := mkEnv {
  clock : nat -> Z;
  sendto : nat -> Z;
  open_file : nat -> option bytes;
  socket : Z;
  inet_pton_ok : string -> bool;
}.

(** [std::chrono::duration<double>(a - b).count()]. *)
Definition elapsed_seconds (a b : Z) : Z := fdiv binary64 (of_Z binary64 (a - b)) d1e9.

Definition d8 : Z := 0x4020000000000000.

(** [bytes * 8.0 / elapsed / 1000000.0], 0 when nothing elapsed. *)
Definition avg_mbps (sent elapsed : Z) : Z :=
  if fltb binary64 d0 elapsed
  then fdiv binary64 (fdiv binary64 (fmul binary64 (of_Z binary64 sent) d8) elapsed) d1e6
  else d0.

Record Pass := mkPass {
  stats : ReplayStats;
  prev_packet_epoch : option Z;
  window_start : Z;
  window_bytes : Z;
  reads : nat;    (* of the clock *)
  sends : nat;    (* calls of [sendto] *)
}.

Definition send_failed_line : string := "sendto failed, skipping one packet" +:+ nl.

Definition stats_line (s : ReplayStats) (bytes_in_window elapsed : Z) : string :=
  "[stats] sent_packets=" +:+ decimal (sent_packets s) +:+ " sent_bytes=" +:+ decimal (sent_bytes s)
  +:+ " current_rate_mbps="
  +:+ fixed_at 3 (fdiv binary64 (fmul binary64 (fdiv binary64 (of_Z binary64 bytes_in_window) elapsed) d8) d1e6) +:+ nl.

(** The wait in front of a packet. *)
Definition pacing (opt : Options) (prev : option Z) (epoch : Z) : list Event :=
  match prev with
  | Some p =>
    if fltb binary64 d0 (speed opt) then
      let delta := fsub binary64 epoch p in
      if fltb binary64 d0 delta then [Slept (fdiv binary64 delta (speed opt))] else []
    else []
  | None => []
  end.

Section Replay.
Context (env : Env).

(** One record: the body of the loop. *)
Definition replay_packet (opt : Options) (ns : bool) (r : PcapRecord) (s : Pass) : list Event * Pass :=
  let '(mkPass (mkReplayStats sp sb fp flt) prev ws wb rd sn) := s in
  let fp := inc64 fp in
  let epoch := epoch_seconds ns r in
  if negb (should_send (window opt) epoch) then ([], mkPass (mkReplayStats sp sb fp (inc64 flt)) prev ws wb rd sn)
  else
    let waits := pacing opt prev epoch in
    if sendto env sn <? 0
    then (waits ++ [Err send_failed_line], mkPass (mkReplayStats sp sb fp flt) (Some epoch) ws wb rd (S sn))
    else
      let n := Z.of_nat (length (payload r)) in
      let st := mkReplayStats (inc64 sp) (sb +[64] n) fp flt in
      let wb := wb +[64] n in
      let now := clock env rd in
      let window_elapsed := elapsed_seconds now ws in
      if fleb binary64 d1 window_elapsed
      then (waits ++ [SentTo (payload r); Out (stats_line st wb window_elapsed)], mkPass st (Some epoch) now 0 (S rd) (S sn))
      else (waits ++ [SentTo (payload r)], mkPass st (Some epoch) ws wb (S rd) (S sn)).

Fixpoint replay_packets (opt : Options) (ns : bool) (rs : list PcapRecord) (s : Pass) : list Event * Pass :=
  match rs with
  | [] => ([], s)
  | r :: rs =>
    let '(ev, s) := replay_packet opt ns r s in
    let '(ev', s) := replay_packets opt ns rs s in
    (ev ++ ev', s)
  end.

Definition pass_line (s : ReplayStats) (elapsed : Z) : string :=
  "[pass] file_packets=" +:+ decimal (file_packets s) +:+ " filtered_packets=" +:+ decimal (filtered_packets s)
  +:+ " sent_packets=" +:+ decimal (sent_packets s) +:+ " sent_bytes=" +:+ decimal (sent_bytes s)
  +:+ " avg_rate_mbps=" +:+ fixed_at 3 (avg_mbps (sent_bytes s) elapsed) +:+ nl.

(** How a pass ends: it returns [false], an exception leaves it, it is done. *)
Inductive PassEnd := PassFailed | PassThrew (e : ReadError) | PassDone (s : ReplayStats).

(** The reads of the clock and the calls of [sendto] so far are passed along. *)
Definition replay_pass (opt : Options) (pass rd sn : nat) : list Event * PassEnd * nat * nat :=
  match open_file env pass with
  | None => ([Err ("Failed to open PCAP file: " +:+ pcap_file opt +:+ nl)], PassFailed, rd, sn)
  | Some file =>
    match read_file file with
    | None => ([Err ("Invalid/unsupported PCAP global header in file: " +:+ pcap_file opt +:+ nl)], PassFailed, rd, sn)
    | Some (fmt, rs, e) =>
      let wall_start := clock env rd in
      let '(ev, s) :=
        replay_packets opt (timestamp_nanoseconds fmt) rs (mkPass (mkReplayStats 0 0 0 0) None wall_start 0 (S rd) sn) in
      match e with
      | Some e => (ev, PassThrew e, reads s, sends s)
      | None =>
        let elapsed := elapsed_seconds (clock env (reads s)) wall_start in
        (ev ++ [Out (pass_line (stats s) elapsed)], PassDone (stats s), S (reads s), sends s)
      end
    end
  end.

(** ** The program *)

Definition add_stats (t s : ReplayStats) : ReplayStats :=
  mkReplayStats (sent_packets t +[64] sent_packets s) (sent_bytes t +[64] sent_bytes s)
    (file_packets t +[64] file_packets s) (filtered_packets t +[64] filtered_packets s).

(** The loop over the passes: it returns 1, ends with its totals, is left by an
    exception, or still runs after [fuel] passes. *)
Inductive LoopEnd :=
  | LoopFailed
  | LoopDone (iteration : Z) (total : ReplayStats) (rd : nat)
  | LoopThrew (e : ReadError)
  | LoopRunning (iteration : Z) (total : ReplayStats).

Fixpoint passes (fuel : nat) (opt : Options) (target iteration : Z) (total : ReplayStats) (pass rd sn : nat)
    : list Event * LoopEnd :=
  if negb ((target =? 0) || (iteration <? target)) then ([], LoopDone iteration total rd)
  else
    match fuel with
    | O => ([], LoopRunning iteration total)
    | S fuel =>
      let '(ev, en, rd, sn) := replay_pass opt pass rd sn in
      match en with
      | PassFailed => (ev, LoopFailed)
      | PassThrew e => (ev, LoopThrew e)
      | PassDone s =>
        let total := add_stats total s in
        let iteration := inc64 iteration in
        if negb (loop opt) && negb (bool_decide (is_Some (count opt))) then (ev, LoopDone iteration total rd)
        else let '(ev', en) := passes fuel opt target iteration total (S pass) rd sn in (ev ++ ev', en)
      end
    end.

Definition avg_pps (packets elapsed : Z) : Z :=
  if fltb binary64 d0 elapsed then fdiv binary64 (of_Z binary64 packets) elapsed else d0.

Definition done_line (iteration : Z) (t : ReplayStats) (elapsed : Z) : string :=
  "[done] iterations=" +:+ decimal iteration +:+ " total_file_packets=" +:+ decimal (file_packets t)
  +:+ " total_filtered_packets=" +:+ decimal (filtered_packets t) +:+ " total_sent_packets=" +:+ decimal (sent_packets t)
  +:+ " total_sent_bytes=" +:+ decimal (sent_bytes t) +:+ " elapsed_sec=" +:+ fixed_at 3 elapsed
  +:+ " avg_pps=" +:+ fixed_at 1 (avg_pps (sent_packets t) elapsed)
  +:+ " avg_mbps=" +:+ fixed_at 3 (avg_mbps (sent_bytes t) elapsed) +:+ nl.

Definition iterations_target (opt : Options) : Z :=
  match count opt with Some n => n | None => if loop opt then 0 else 1 end.

(** The program exits, is terminated by the exception that leaves [main], or still runs. *)
Inductive Ended := Exit (code : Z) | Terminated (e : ReadError) | Running.

Definition main `{Strtod} (fuel : nat) (args : list string) : list Event * Ended :=
  match parse_args args with
  | None => ([Err usage], Exit 1)
  | Some opt =>
    if socket env =? -1 then ([Err ("Failed to create UDP socket" +:+ nl)], Exit 1)
    else if negb (inet_pton_ok env (target_ip opt)) then ([Err ("Invalid target IP: " +:+ target_ip opt +:+ nl); Closed], Exit 1)
    else
      let wall_start := clock env 0 in
      let '(ev, en) := passes fuel opt (iterations_target opt) 0 (mkReplayStats 0 0 0 0) 0 1 0 in
      match en with
      | LoopFailed => (ev ++ [Closed], Exit 1)
      | LoopThrew e => (ev, Terminated e)
      | LoopRunning _ _ => (ev, Running)
      | LoopDone iteration total rd =>
        (ev ++ [Closed; Out (done_line iteration total (elapsed_seconds (clock env rd) wall_start))], Exit 0)
      end
  end.

End Replay.

(** ** Specification *)

Definition datagrams (ev : list Event) : list bytes := omap (fun e => match e with SentTo b => Some b | _ => None end) ev.
Definition sleeps (ev : list Event) : list Z := omap (fun e => match e with Slept d => Some d | _ => None end) ev.

(** The records of the time window. *)
Definition in_window (opt : Options) (ns : bool) (rs : list PcapRecord) : list PcapRecord :=
  filter (fun r => should_send (window opt) (epoch_seconds ns r) = true) rs.

(** The payloads of the records whose [sendto] succeeds; the first one is call [k]. *)
Definition sent_of (env : Env) (k : nat) (rs : list PcapRecord) : list bytes :=
  omap (fun '(i, r) => if sendto env i <? 0 then None else Some (payload r)) (zip (seq k (length rs)) rs).

(** The waits between consecutive records. *)
Definition waits (opt : Options) (epochs : list Z) : list Z :=
  steps epochs ≫= (fun '(a, b) => sleeps (pacing opt (Some a) b)).

(** What [k] passes count. *)
Definition totals (env : Env) (opt : Options) (ns : bool) (rs : list PcapRecord) (k : nat) : ReplayStats :=
  let out := sent_of env 0 (concat (replicate k (in_window opt ns rs))) in
  mkReplayStats (u64 (Z.of_nat (length out))) (u64 (total_length out)) (u64 (Z.of_nat (k * length rs)))
    (u64 (Z.of_nat (k * out_of_window (window opt) ns rs))).

(** ** Lemmas *)

Lemma datagrams_app l l' : datagrams (l ++ l') = datagrams l ++ datagrams l'.
Proof. apply omap_app. Qed.

Lemma sleeps_app l l' : sleeps (l ++ l') = sleeps l ++ sleeps l'.
Proof. apply omap_app. Qed.

Lemma datagrams_pacing opt prev e : datagrams (pacing opt prev e) = [].
Proof. unfold pacing. destruct prev; [|done]. by repeat case_match. Qed.

Lemma sent_of_cons env k r rs :
  sent_of env k (r :: rs) = (if sendto env k <? 0 then [] else [payload r]) ++ sent_of env (S k) rs.
Proof. unfold sent_of. cbn. by destruct (sendto env k <? 0). Qed.

Lemma sent_of_app env k l l' : sent_of env k (l ++ l') = sent_of env k l ++ sent_of env (k + length l) l'.
Proof.
  revert k. induction l as [|r l IH]; intros k; [by rewrite Nat.add_0_r|].
  cbn [app length]. by rewrite !sent_of_cons, IH, <-app_assoc, Nat.add_succ_r.
Qed.

(** The waits when the packet in front was at [prev]. *)
Definition waits_after (opt : Options) (prev : option Z) (epochs : list Z) : list Z :=
  match epochs with [] => [] | e :: _ => sleeps (pacing opt prev e) ++ waits opt epochs end.

Lemma waits_cons opt e es : waits opt (e :: es) = waits_after opt (Some e) es.
Proof. by destruct es. Qed.

Lemma in_window_cons opt ns r rs :
  in_window opt ns (r :: rs) = (if should_send (window opt) (epoch_seconds ns r) then [r] else []) ++ in_window opt ns rs.
Proof.
  unfold in_window. destruct (should_send (window opt) (epoch_seconds ns r)) eqn:E.
  - by rewrite list.filter_cons_True.
  - by rewrite list.filter_cons_False by congruence.
Qed.

(** What a list of records adds to the statistics. *)
Definition counted (a b c d : Z) (opt : Options) (ns : bool) (rs : list PcapRecord) (out : list bytes) : ReplayStats :=
  mkReplayStats (u64 (a + Z.of_nat (length out))) (u64 (b + total_length out)) (u64 (c + Z.of_nat (length rs)))
    (u64 (d + Z.of_nat (out_of_window (window opt) ns rs))).

(** Runs the remaining records and specializes the induction hypothesis to them. *)
Ltac run_records IH :=
  lazymatch goal with |- context [replay_packets ?env ?opt ?ns ?rs ?s0] =>
    let E := fresh "E" in
    destruct (replay_packets env opt ns rs s0) as [ev s'] eqn:E;
    lazymatch s0 with mkPass (mkReplayStats (u64 ?a) (u64 ?b) (u64 ?c) (u64 ?d)) ?p ?w ?x ?y ?z =>
      specialize (IH a b c d p w x y z) end;
    cbv zeta in IH; rewrite E in IH; destruct IH as (Hd & Hw & Hs & Hn)
  end.

Lemma replay_packets_spec env opt ns rs : forall a b c d prev ws wb rd sn,
  let s := mkPass (mkReplayStats (u64 a) (u64 b) (u64 c) (u64 d)) prev ws wb rd sn in
  let '(ev, s') := replay_packets env opt ns rs s in
  let sent := sent_of env sn (in_window opt ns rs) in
  datagrams ev = sent /\ sleeps ev = waits_after opt prev (epoch_seconds ns <$> in_window opt ns rs) /\
  stats s' = counted a b c d opt ns rs sent /\ sends s' = (sn + length (in_window opt ns rs))%nat.
Proof.
  induction rs as [|r rs IH]; intros a b c d prev ws wb rd sn; cbn [replay_packets].
  - unfold counted, sent_of, in_window, out_of_window, total_length. cbn. by rewrite !Z.add_0_r, Nat.add_0_r.
  - unfold replay_packet, inc64. rewrite !wrap_add_l by lia. rewrite in_window_cons.
    destruct (should_send (window opt) (epoch_seconds ns r)) eqn:Esend; cbn [negb app].
    + destruct (sendto env sn <? 0) eqn:Es; [|destruct (fleb _ _ _)]; run_records IH.
      all: rewrite !datagrams_app, !sleeps_app, datagrams_pacing, Hd, Hw, Hs, Hn, sent_of_cons, Es; cbn [app fmap list_fmap waits_after length].
      all: rewrite waits_cons; split_and!; [done|by rewrite ?app_nil_r| |lia].
      all: unfold counted, out_of_window; cbn [fmap list_fmap count_true length]; rewrite Esend; cbn [negb];
        rewrite ?total_length_cons; f_equal; f_equal; lia.
    + run_records IH. rewrite Hd, Hw, Hs, Hn. split_and!; [done|done| |done].
      unfold counted, out_of_window. cbn [fmap list_fmap count_true length]. rewrite Esend. cbn [negb]. f_equal; f_equal; lia.
Qed.

Section Program.
Context (env : Env) (opt : Options) (le ns : bool) (rs : list PcapRecord).
Context (Hfile : forall k, open_file env k = Some (header_as le ns ++ concat (record_as le <$> rs))).
Context (Hrs : Forall record_ok rs).

Let chosen : list PcapRecord := in_window opt ns rs.

(** A pass. *)
Lemma replay_pass_spec pass rd sn :
  exists ev rd', replay_pass env opt pass rd sn =
      (ev, PassDone (counted 0 0 0 0 opt ns rs (sent_of env sn chosen)), rd', (sn + length chosen)%nat) /\
    datagrams ev = sent_of env sn chosen /\ sleeps ev = waits opt (epoch_seconds ns <$> chosen).
Proof using Hfile Hrs.
  unfold replay_pass. rewrite Hfile, read_file_as by done. cbn [timestamp_nanoseconds format_as].
  pose proof (replay_packets_spec env opt ns rs 0 0 0 0 None (clock env rd) 0 (S rd) sn) as H. cbv zeta in H.
  change (u64 0) with 0 in H. destruct (replay_packets _ _ _ _ _) as [ev s]. destruct H as (Hd & Hw & Hs & Hn).
  eexists _, _. split; [by rewrite Hs, Hn|]. rewrite datagrams_app, sleeps_app, Hd, Hw. cbn. rewrite !app_nil_r.
  split; [done|]. unfold chosen. by destruct (in_window opt ns rs).
Qed.

Lemma chosen_succ k : concat (replicate (S k) chosen) = concat (replicate k chosen) ++ chosen.
Proof. rewrite replicate_S_end, concat_app. cbn. by rewrite app_nil_r. Qed.

Lemma length_chosen k : length (concat (replicate k chosen)) = (k * length chosen)%nat.
Proof. induction k as [|k IH]; [done|]. cbn [replicate concat]. rewrite length_app, IH. lia. Qed.

Lemma total_length_app l l' : total_length (l ++ l') = total_length l + total_length l'.
Proof. unfold total_length. by rewrite fmap_app, sumZ_app. Qed.

Lemma totals_succ k :
  add_stats (totals env opt ns rs k) (counted 0 0 0 0 opt ns rs (sent_of env (k * length chosen) chosen)) =
    totals env opt ns rs (S k).
Proof.
  unfold totals, add_stats, counted. fold chosen. cbn [sent_packets sent_bytes file_packets filtered_packets].
  rewrite chosen_succ, sent_of_app, length_app, total_length_app, length_chosen. cbn [Nat.add].
  rewrite !wrap_add_l, !wrap_add_r by lia. f_equal; f_equal; lia.
Qed.

(** Whether another pass follows one that is done. *)
Definition repeats : bool := loop opt || bool_decide (is_Some (count opt)).

(** From pass [k] on, [m] more passes. *)
Lemma passes_spec target m : forall k rd,
  (target = 0 \/ Z.of_nat (k + m) <= target < 2 ^ 64) -> (repeats = true \/ m = 0%nat \/ (m = 1%nat /\ target = 1 /\ k = 0%nat)) ->
  exists ev en, passes env m opt target (u64 (Z.of_nat k)) (totals env opt ns rs k) k rd (k * length chosen) = (ev, en) /\
    datagrams ev = sent_of env (k * length chosen) (concat (replicate m chosen)) /\
    sleeps ev = concat (replicate m (waits opt (epoch_seconds ns <$> chosen))) /\
    (if bool_decide (target = Z.of_nat (k + m)) && negb (bool_decide (target = 0))
     then exists rd', en = LoopDone target (totals env opt ns rs (k + m)) rd'
     else en = LoopRunning (u64 (Z.of_nat (k + m))) (totals env opt ns rs (k + m))).
Proof using Hfile Hrs.
  induction m as [|m IH]; intros k rd Ht Hrep.
  - exists []. cbn [passes]. rewrite Nat.add_0_r in *. destruct (target =? 0) eqn:E0.
    { apply Z.eqb_eq in E0 as ->. eexists. split; [done|]. split; [done|]. split; [done|].
      rewrite (bool_decide_eq_true_2 (0 = 0)), andb_false_r by done. done. }
    apply Z.eqb_neq in E0. destruct Ht as [|Ht]; [done|]. rewrite wrap_small by (unfold in_range; lia). cbn [orb].
    rewrite (bool_decide_eq_false_2 (target = 0)), andb_true_r by done.
    destruct (Z.ltb_spec (Z.of_nat k) target); cbn [negb]; (eexists; split; [done|]; split; [done|]; split; [done|]).
    + by rewrite bool_decide_eq_false_2 by lia.
    + rewrite bool_decide_eq_true_2 by lia. exists rd. by replace target with (Z.of_nat k) by lia.
  - cbn [passes].
    assert (((target =? 0) || (u64 (Z.of_nat k) <? target)) = true) as ->.
    { destruct Ht as [->|Ht]; [done|]. rewrite wrap_small by (unfold in_range; lia).
      apply orb_true_iff. right. lia. }
    cbn [negb]. destruct (replay_pass_spec k rd (k * length chosen)) as (ev & rd' & -> & Hd & Hw).
    rewrite totals_succ, u64_succ. replace (k * length chosen + length chosen)%nat with (S k * length chosen)%nat by lia.
    assert (Hall : forall ev', datagrams ev' = sent_of env (S k * length chosen) (concat (replicate m chosen)) ->
      datagrams (ev ++ ev') = sent_of env (k * length chosen) (concat (replicate (S m) chosen))).
    { intros ev' E. rewrite datagrams_app, Hd, E. cbn [replicate concat]. rewrite sent_of_app. do 2 f_equal. lia. }
    assert (negb (loop opt) && negb (bool_decide (is_Some (count opt))) = negb repeats) as ->
      by (unfold repeats; by rewrite negb_orb).
    destruct repeats eqn:Er; cbn [negb].
    + destruct (IH (S k) rd') as (ev' & en & -> & Hd' & Hw' & Hen); [lia|by left|].
      eexists _, _. split; [reflexivity|]. split; [by apply Hall|]. rewrite sleeps_app, Hw, Hw'. split; [done|].
      replace (k + S m)%nat with (S k + m)%nat by lia. done.
    + destruct Hrep as [|[|(Hm & -> & ->)]]; [done|done|]. assert (m = 0%nat) as -> by lia.
      eexists _, _. split; [reflexivity|]. rewrite <-(app_nil_r ev) at 1. split; [by apply Hall|]. split; [by cbn; rewrite app_nil_r|].
      by exists rd'.
Qed.

End Program.

(** A count that was accepted is positive and fits its type. *)
Definition count_ok (o : Options) : Prop := forall n, count o = Some n -> 0 < n < 2 ^ 64.

Lemma parse_uint64_range a n : parse_uint64 a = Some n -> 0 <= n < 2 ^ 64.
Proof.
  unfold parse_uint64. pose proof (CText.strtoull_range a) as Hr. destruct (CText.strtoull a) as [v rest]. cbn [fst] in Hr.
  unfold CText.ULLONG_MAX in Hr. case_bool_decide; [|done]. intros [= <-]. lia.
Qed.

Lemma parse_options_count `{Strtod} n args : (length args <= n)%nat -> forall o o',
  parse_options args o = Some o' -> count_ok o -> count_ok o'.
Proof.
  revert args. induction n as [|n IH]; intros [|arg args] Hn [file ip port sp lp cnt [st en]] o' E Ho; cbn [length] in Hn; try lia;
    cbn [parse_options] in E; [by injection E as <-|by injection E as <-|].
  repeat case_match; try discriminate E; simplify_option_eq; repeat case_match; simplify_option_eq;
    try (eapply IH; [|eassumption|]; [cbn [length] in *; lia|exact Ho]).
  eapply IH; [|eassumption|]; [cbn [length] in *; lia|]. intros k [= <-]. unfold count_ok in Ho.
  lazymatch goal with Hp : parse_uint64 _ = Some _, Hz : (_ =? 0) = false |- _ => apply parse_uint64_range in Hp; apply Z.eqb_neq in Hz; lia end.
Qed.

Lemma parse_args_count `{Strtod} args o : parse_args args = Some o -> count_ok o.
Proof.
  destruct args as [|file args]; [done|]. unfold parse_args. cbn [Options_default]. intros E.
  destruct (parse_options args _) as [o1|] eqn:E1; [|done]. cbn [mbind option_bind] in E.
  eapply parse_options_count in E1; [|reflexivity|done]. repeat case_match; by simplify_eq.
Qed.

(** The passes the options ask for; [None] for an endless replay. *)
Definition passes_of (opt : Options) : option nat :=
  match count opt with
  | Some n => Some (Z.to_nat n)
  | None => if loop opt then None else Some 1%nat
  end.

(** ** Theorems *)

(** C37: the replay program is exact.  For arguments that it accepts with a valid target address, a
    socket that can be created and a well-formed capture, in either byte order and with either resolution, it makes as many passes as [--count] asks for, one
    without [--count] and [--loop]: it sends the payloads of the records of the time
    window whose [sendto] succeeds, unchanged, in order and once for every pass, waits
    between two packets of a pass for their distance in time divided by the speed, exits with 0, and its last line reports the totals.
    With [--loop] alone it never stops: after any number of passes it still runs, and has
    sent the datagrams of that many passes. *)
Theorem replay_program_exact `{Strtod} (env : Env) (args : list string) (opt : Options) (le ns : bool) (rs : list PcapRecord)
    (Hargs : parse_args args = Some opt) (Hsock : socket env <> -1) (Hip : inet_pton_ok env (target_ip opt) = true)
    (Hfile : forall k, open_file env k = Some (header_as le ns ++ concat (record_as le <$> rs)))
    (Hrs : Forall record_ok rs) :
  let chosen := in_window opt ns rs in
  let sent k := sent_of env 0 (concat (replicate k chosen)) in
  let slept k := concat (replicate k (waits opt (epoch_seconds ns <$> chosen))) in
  match passes_of opt with
  | Some n => exists ev elapsed, main env n args = (ev, Exit 0) /\ datagrams ev = sent n /\ sleeps ev = slept n /\
      last ev = Some (Out (done_line (Z.of_nat n) (totals env opt ns rs n) elapsed))
  | None => forall fuel, exists ev, main env fuel args = (ev, Running) /\ datagrams ev = sent fuel /\ sleeps ev = slept fuel
  end.
Proof.
  cbv zeta. pose proof (parse_args_count args opt Hargs) as Hcount. unfold main. rewrite Hargs, Hip.
  rewrite (proj2 (Z.eqb_neq _ _) Hsock). cbn [negb].
  change (mkReplayStats 0 0 0 0) with (totals env opt ns rs 0).
  assert (Hrun := fun target m => passes_spec env opt le ns rs Hfile Hrs target m 0 1). cbn [Nat.mul Nat.add] in Hrun.
  change (u64 (Z.of_nat 0)) with 0 in Hrun.
  unfold passes_of, iterations_target, repeats in *. unfold count_ok in Hcount. destruct (count opt) as [n|].
  - specialize (Hcount n eq_refl). destruct (Hrun n (Z.to_nat n)) as (ev & en & E & Hd & Hw & Hen); [lia|left; by rewrite orb_true_r|].
    rewrite bool_decide_eq_true_2, bool_decide_eq_false_2 in Hen by lia. destruct Hen as [rd ->].
    rewrite E. eexists _, _. split; [reflexivity|]. rewrite datagrams_app, sleeps_app, Hd, Hw, last_app.
    cbn. rewrite !app_nil_r. split_and!; [done|done|]. do 3 f_equal. lia.
  - destruct (loop opt).
    + intros fuel. destruct (Hrun 0 fuel) as (ev & en & E & Hd & Hw & Hen); [by left|by left|].
      rewrite (bool_decide_eq_true_2 (0 = 0)), andb_false_r in Hen by done. rewrite E, Hen. by eexists.
    + destruct (Hrun 1 1%nat) as (ev & en & E & Hd & Hw & Hen); [lia|by right; right|].
      rewrite bool_decide_eq_true_2, bool_decide_eq_false_2 in Hen by lia. destruct Hen as [rd ->].
      rewrite E. eexists _, _. split; [reflexivity|]. rewrite datagrams_app, sleeps_app, Hd, Hw, last_app.
      cbn. by rewrite !app_nil_r.
Qed.

(** A pass does not close the socket. *)
Lemma replay_packets_open env opt ns rs : forall s0, Forall (fun e => e <> Closed) (fst (replay_packets env opt ns rs s0)).
Proof.
  induction rs as [|r rs IH]; intros s0; cbn [replay_packets]; [constructor|].
  destruct (replay_packet env opt ns r s0) as [ev1 s1] eqn:E1. specialize (IH s1).
  destruct (replay_packets env opt ns rs s1) as [ev2 s2]. cbn [fst] in *. apply Forall_app_2; [|done].
  destruct s0 as [[sp sb fp flt] prev ws wb rd sn]. unfold replay_packet, pacing in E1.
  repeat case_match; simplify_eq; cbn [app]; repeat constructor; discriminate.
Qed.

(** A capture whose records end in an error terminates the program: the exception of the
    reader leaves [main], after the packets in front of the error were sent. *)
Theorem replay_terminated `{Strtod} (env : Env) (args : list string) (opt : Options) (fuel : nat) (file : bytes)
    (fmt : PcapFormat) (rs : list PcapRecord) (e : ReadError)
    (Hargs : parse_args args = Some opt) (Hsock : socket env <> -1) (Hip : inet_pton_ok env (target_ip opt) = true)
    (Hfile : open_file env 0 = Some file) (Hread : read_file file = Some (fmt, rs, Some e)) :
  exists ev, main env (S fuel) args = (ev, Terminated e) /\
    datagrams ev = sent_of env 0 (in_window opt (timestamp_nanoseconds fmt) rs) /\ Closed ∉ ev.
Proof.
  pose proof (parse_args_count args opt Hargs) as Hcount. unfold main. rewrite Hargs, Hip.
  rewrite (proj2 (Z.eqb_neq _ _) Hsock). cbn [negb passes].
  assert (((iterations_target opt =? 0) || (0 <? iterations_target opt)) = true) as ->.
  { unfold iterations_target. unfold count_ok in Hcount. destruct (count opt) as [n|]; [|by destruct (loop opt)].
    specialize (Hcount n eq_refl). apply orb_true_iff. right. lia. }
  cbn [negb]. unfold replay_pass. rewrite Hfile, Hread.
  pose proof (replay_packets_spec env opt (timestamp_nanoseconds fmt) rs 0 0 0 0 None (clock env 1) 0 2 0) as Hs. cbv zeta in Hs.
  change (u64 0) with 0 in Hs. destruct (replay_packets _ _ _ _ _) as [ev s] eqn:E. destruct Hs as (Hd & _).
  exists ev. split; [done|]. split; [done|]. clear Hd.
  pose proof (replay_packets_open env opt (timestamp_nanoseconds fmt) rs (mkPass (mkReplayStats 0 0 0 0) None (clock env 1) 0 2 0)) as Hc.
  rewrite E in Hc. intros Hin. exact (proj1 (Forall_forall _ _) Hc Closed Hin eq_refl).
Qed.

(** *** Addresses *)

Lemma split_last_none c s : chars_in (fun d => negb (bool_decide (d = c))) s = true -> split_last c s = None.
Proof.
  induction s as [|d s IH]; [done|]. cbn [chars_in split_last]. rewrite andb_true_iff, negb_true_iff. intros [Hd Hs].
  by rewrite IH, Hd.
Qed.

Lemma split_last_at c a b :
  chars_in (fun d => negb (bool_decide (d = c))) b = true -> split_last c (a +:+ String c b) = Some (a, b).
Proof.
  intros Hb. induction a as [|d a IH].
  - change (EmptyString +:+ String c b) with (String c b). cbn [split_last]. by rewrite split_last_none, bool_decide_eq_true_2.
  - rewrite append_cons. cbn [split_last]. by rewrite IH.
Qed.

Lemma digit_no_colon c : digit_char c = true -> negb (bool_decide (c = ":"%char)) = true.
Proof. by destruct c as [[] [] [] [] [] [] [] []]. Qed.

(** A printed address is parsed: the port is what stands behind the last colon. *)
Theorem parse_target_printed (ip : string) (port : Z) (Hip : ip <> EmptyString) (Hport : 1 <= port <= 65535) :
  parse_target (ip +:+ ":" +:+ decimal port) = Some (ip, port).
Proof.
  unfold parse_target. change (":" +:+ decimal port) with (String ":"%char (decimal port)).
  rewrite split_last_at by (apply (chars_in_mono digit_char); [apply digit_no_colon|apply decimal_digits]).
  cbn [mbind option_bind]. rewrite (bool_decide_eq_false_2 (ip = _)) by done.
  rewrite (bool_decide_eq_false_2 (decimal port = _)) by apply CText.decimal_nonempty. cbn [orb].
  rewrite CText.strtol_decimal by (unfold CText.LONG_MAX; lia). rewrite bool_decide_eq_true_2 by done. cbn [negb orb].
  destruct (Z.ltb_spec port 1), (Z.ltb_spec 65535 port); try lia. cbn [orb]. f_equal. f_equal. apply wrap_small. unfold in_range. lia.
Qed.

(** ** Witnesses *)

Module Demo.
Import Pcap.Demo.

(** Conversion of the decimal integers, for the examples. *)
#[export] Instance demo_strtod : Strtod := fun s => let '(n, rest) := CText.strtol s in (of_Z binary64 n, rest).

(** The second [sendto] fails. *)
Definition demo_env : Env :=
  mkEnv (fun n => 1000000 * Z.of_nat n) (fun n => if (n =? 1)%nat then -1 else 32)
    (fun _ => Some (header_as true false ++ concat (record_as true <$> demo_records))) 3 (fun ip => bool_decide (ip = "10.0.0.1")).

Definition demo_args : list string := ["a.pcap"; "--target"; "10.0.0.1:7000"; "--start-time"; "11"; "--count"; "2"; "--speed"; "2"].

Definition demo_options : Options :=
  mkOptions "a.pcap" "10.0.0.1" 7000 0x4000000000000000 false (Some 2) (mkReplayOptions (Some 0x4026000000000000) None).

Lemma demo_parsed : parse_args demo_args = Some demo_options.
Proof. vm_compute. reflexivity. Qed.

End Demo.

Import Demo Pcap.Demo.

(** Three records are in the window; the waits of 0.5 s and 1 s are halved. *)
Lemma replay_program_exact_witness :
  exists ev, main demo_env 2 demo_args = (ev, Exit 0) /\
    datagrams ev = [demo_payload 2; demo_payload 5; demo_payload 2; [7]; demo_payload 5] /\
    sleeps ev = [0x3FD0000000000000; 0x3FE0000000000000; 0x3FD0000000000000; 0x3FE0000000000000].
Proof.
  destruct (replay_program_exact demo_env demo_args demo_options true false demo_records demo_parsed ltac:(done) eq_refl
    (fun _ => eq_refl) demo_records_ok) as (ev & el & E & Hd & Hw & _).
  exists ev. split; [exact E|]. rewrite Hd, Hw. split; vm_compute; reflexivity.
Defined.

(** An empty text is accepted as the speed 0. *)
Example empty_speed : speed <$> parse_args ["a.pcap"; "--speed"; ""] = Some 0.
Proof. vm_compute. reflexivity. Qed.

Example target_cases :
  parse_target "host:80:90" = Some ("host:80", 90) /\ parse_target "a:" = None /\ parse_target ":1" = None /\
  parse_target "a:65536" = None /\ parse_target "a: 7" = Some ("a", 7).
Proof. vm_compute. done. Qed.

End PcapReplay.
