(* ===== verification/PcapAnalyze.v ===== *)
(** The program [tools/pcap_analyze.cpp]: from a capture to its report, the statistics
    of the delays, the JSON text, and the exit code.  The readers are those of [Pcap]. *)

From S2P Require Import Prelude Float FloatLaws Text Json JsonTree Protocol Pcap Logger.
From stdpp Require Import strings sorting.
From Stdlib Require Import Ascii Floats.SpecFloat.
Open Scope Z_scope.
Import Float Text Protocol Pcap JsonTree.

Module PcapAnalyze.

(** ** Options *)

Record Options := mkOptions { pcap_file : string; output_json : option string }.

Fixpoint parse_options (args : list string) (o : Options) : option Options :=
  match args with
  | [] => Some o
  | arg :: args =>
    if bool_decide (arg = "--output") then
      match args with
      | [] => None
      | a :: args => parse_options args (mkOptions (pcap_file o) (Some a))
      end
    else None
  end.

(** The arguments behind the program's name. *)
Definition parse_args (args : list string) : option Options :=
  match args with
  | [] => None
  | file :: args => parse_options args (mkOptions file None)
  end.

Definition usage : string := "Usage: pcap_analyze <pcap_file> [--output <json_file>]" +:+ nl.

(** ** Labels *)

Definition hex_digit (n : Z) : string := String.substring (Z.to_nat n) 1 "0123456789ABCDEF".

(** [std::uppercase << std::hex << std::setw(2) << std::setfill('0')] of a byte. *)
Definition hex2 (n : Z) : string := hex_digit (n / 16) +:+ hex_digit (n mod 16).

Definition packet_type_label (packet_type : Z) : string :=
  match PacketType_of_u8 packet_type with
  | CONTROL => "CONTROL(0x01)"
  | ACK => "ACK(0x02)"
  | DATA => "DATA(0x03)"
  | HEARTBEAT => "HEARTBEAT(0x04)"
  | RMA => "RMA(0xFF)"
  | _ => "UNKNOWN(0x" +:+ hex2 packet_type +:+ ")"
  end.

Definition source_id_label (source_id : Z) : string := "0x" +:+ hex2 source_id.

(** ** Statistics of the delays *)

Definition d0 : Z := 0.
Definition d1 : Z := 0x3FF0000000000000.
Definition d1000 : Z := 0x408F400000000000.
Definition d50 : Z := 0x3FE0000000000000.   (* 0.50 *)
Definition d99 : Z := 0x3FEFAE147AE147AE.   (* 0.99 *)

(** [static_cast<size_t>]; undefined when the truncated value does not fit. *)
Definition to_size (x : Z) : option Z :=
  match of_bits binary64 x with
  | S754_zero _ => Some 0
  | S754_finite s m e =>
    let t := truncate m e in
    if s then (if t =? 0 then Some 0 else None) else if t <? 2 ^ 64 then Some t else None
  | _ => None
  end.

(** [None] when the conversion is undefined or an index leaves the vector. *)
Definition percentile_sorted (sorted : list Z) (p : Z) : option Z :=
  match sorted with
  | [] => Some d0
  | _ =>
    let size := Z.of_nat (length sorted) in
    let pos := fmul binary64 p (of_Z binary64 (size - 1)) in
    idx ← to_size pos;
    let next := Z.min (idx + 1) (size - 1) in
    let frac := fsub binary64 pos (of_Z binary64 idx) in
    a ← sorted !! Z.to_nat idx;
    b ← sorted !! Z.to_nat next;
    Some (fadd binary64 (fmul binary64 a (fsub binary64 d1 frac)) (fmul binary64 b frac))
  end.

Record DelayStats := mkDelayStats { ds_min : Z; ds_max : Z; ds_mean : Z; ds_p50 : Z; ds_p99 : Z }.

Definition DelayStats_init : DelayStats := mkDelayStats d0 d0 d0 d0 d0.

(** The order of [std::sort]: the one is not greater than the other. *)
Definition not_greater (x y : Z) : Prop := fltb binary64 y x = false.

#[export] Instance not_greater_dec : RelDecision not_greater.
Proof. intros x y. unfold not_greater. apply _. Defined.

Definition compute_delay_stats (delays_ms : list Z) : option DelayStats :=
  let sorted := merge_sort not_greater delays_ms in
  match sorted, last sorted with
  | first :: _, Some back =>
    let sum := foldl (fadd binary64) d0 sorted in
    p50 ← percentile_sorted sorted d50;
    p99 ← percentile_sorted sorted d99;
    Some (mkDelayStats first back (fdiv binary64 sum (of_Z binary64 (Z.of_nat (length sorted)))) p50 p99)
  | _, _ => Some DelayStats_init
  end.

(** ** The report *)

Record Report := mkReport {
  file : string;
  total_packets : Z;
  total_bytes : Z;
  duration_seconds : Z;
  packet_types : gmap string Z;
  packet_type_bytes : gmap string Z;
  source_ids : gmap string Z;
  sequence_gaps : Z;
  sequence_wraparounds : Z;
  invalid_packets : Z;
  inter_packet_delay_ms : DelayStats;
}.

(** The local variables of the loop, with the fields of the report it updates. *)
Record Scan := mkScan {
  first_ts : option Z;
  last_ts : option Z;
  prev_ts : option Z;
  prev_seq : option Z;
  packet_type_counters : gmap string TypeCounter;
  delays_ms : list Z;
  sc_packets : Z;
  sc_bytes : Z;
  sc_sources : gmap string Z;
  sc_gaps : Z;
  sc_wraps : Z;
  sc_invalid : Z;
}.

Definition Scan_init : Scan := mkScan None None None None ∅ [] 0 0 ∅ 0 0 0.

Definition analyze_record (ns : bool) (r : PcapRecord) (s : Scan) : Scan :=
  let '(mkScan first _ prev prev_seq types delays tp tb sources gaps wraps invalid) := s in
  let ts := epoch_seconds ns r in
  let first := match first with Some t => Some t | None => Some ts end in
  let delays := match prev with Some p => delays ++ [fmul binary64 (fsub binary64 ts p) d1000] | None => delays end in
  let n := Z.of_nat (length (payload r)) in
  let tp := inc64 tp in
  let tb := tb +[64] n in
  match parse (Some (payload r)) n with
  | None => mkScan first (Some ts) (Some ts) prev_seq types delays tp tb sources gaps wraps (inc64 invalid)
  | Some p =>
    let h := header p in
    let type_key := packet_type_label (packet_type h) in
    let c := default (mkTypeCounter 0 0) (types !! type_key) in
    let types := <[type_key := mkTypeCounter (inc64 (tc_packets c)) (tc_bytes c +[64] n)]> types in
    let src_key := source_id_label (source_id h) in
    let sources := <[src_key := inc64 (default 0 (sources !! src_key))]> sources in
    let seq := sequence_number h in
    let wraps := match prev_seq with Some q => if is_wraparound q seq then inc64 wraps else wraps | None => wraps end in
    let gaps := match prev_seq with Some q => if is_gap q seq then inc64 gaps else gaps | None => gaps end in
    mkScan first (Some ts) (Some ts) (Some seq) types delays tp tb sources gaps wraps invalid
  end.

Definition scan (ns : bool) (rs : list PcapRecord) : Scan := foldl (fun s r => analyze_record ns r s) Scan_init rs.

Definition duration (s : Scan) : Z :=
  match first_ts s, last_ts s with
  | Some f, Some l => if fleb binary64 f l then fsub binary64 l f else d0
  | _, _ => d0
  end.

(** [false] with a message, an exception, undefined behaviour, or the report. *)
Inductive Analysis := Failed (message : string) | Threw (e : ReadError) | Undefined | Analyzed (r : Report).

Definition analyze_file (path : string) (content : option bytes) : Analysis :=
  match content with
  | None => Failed ("Failed to open PCAP file: " +:+ path +:+ nl)
  | Some bs =>
    match read_file bs with
    | None => Failed ("Invalid/unsupported PCAP global header in file: " +:+ path +:+ nl)
    | Some (_, _, Some e) => Threw e
    | Some (fmt, rs, None) =>
      let s := scan (timestamp_nanoseconds fmt) rs in
      match compute_delay_stats (delays_ms s) with
      | None => Undefined
      | Some st =>
        Analyzed (mkReport path (sc_packets s) (sc_bytes s) (duration s)
          (tc_packets <$> packet_type_counters s) (tc_bytes <$> packet_type_counters s) (sc_sources s)
          (sc_gaps s) (sc_wraps s) (sc_invalid s) st)
      end
    end
  end.

(** ** JSON *)

(** The same function as the logger's. *)
Definition escape_json : string -> string := Logger.escape_json.

(** The entries of a [std::map] in the order of their keys. *)
Definition key_le {A} (x y : string * A) : Prop := String.leb (fst x) (fst y) = true.

#[export] Instance key_le_dec {A} : RelDecision (@key_le A).
Proof. intros x y. unfold key_le. apply _. Defined.

Definition entries (m : gmap string Z) : list (string * Z) := merge_sort key_le (map_to_list m).

Fixpoint blanks (n : nat) : string := match n with O => "" | S n => " " +:+ blanks n end.

Fixpoint entry_lines (indent : nat) (l : list (string * Z)) : string :=
  match l with
  | [] => ""
  | (key, value) :: l =>
    blanks indent +:+ member (escape_json key) (decimal value) +:+ (match l with [] => "" | _ => "," end) +:+ nl
      +:+ entry_lines indent l
  end.

Definition append_json_map (m : gmap string Z) (indent : nat) : string :=
  match entries m with
  | [] => "{}"
  | l => "{" +:+ nl +:+ entry_lines indent l +:+ blanks (indent - 2) +:+ "}"
  end.

Definition build_json (r : Report) : string :=
  let d := inter_packet_delay_ms r in
  "{" +:+ nl
  +:+ "  " +:+ member "file" (quote +:+ escape_json (file r) +:+ quote) +:+ "," +:+ nl
  +:+ "  " +:+ member "total_packets" (decimal (total_packets r)) +:+ "," +:+ nl
  +:+ "  " +:+ member "total_bytes" (decimal (total_bytes r)) +:+ "," +:+ nl
  +:+ "  " +:+ member "duration_seconds" (fixed (duration_seconds r)) +:+ "," +:+ nl
  +:+ "  " +:+ member "packet_types" (append_json_map (packet_types r) 4) +:+ "," +:+ nl
  +:+ "  " +:+ member "packet_type_bytes" (append_json_map (packet_type_bytes r) 4) +:+ "," +:+ nl
  +:+ "  " +:+ member "source_ids" (append_json_map (source_ids r) 4) +:+ "," +:+ nl
  +:+ "  " +:+ member "sequence_gaps" (decimal (sequence_gaps r)) +:+ "," +:+ nl
  +:+ "  " +:+ member "sequence_wraparounds" (decimal (sequence_wraparounds r)) +:+ "," +:+ nl
  +:+ "  " +:+ member "invalid_packets" (decimal (invalid_packets r)) +:+ "," +:+ nl
  +:+ "  " +:+ member "inter_packet_delay_ms" ("{" +:+ nl
    +:+ "    " +:+ member "min" (fixed (ds_min d)) +:+ "," +:+ nl
    +:+ "    " +:+ member "max" (fixed (ds_max d)) +:+ "," +:+ nl
    +:+ "    " +:+ member "mean" (fixed (ds_mean d)) +:+ "," +:+ nl
    +:+ "    " +:+ member "p50" (fixed (ds_p50 d)) +:+ "," +:+ nl
    +:+ "    " +:+ member "p99" (fixed (ds_p99 d)) +:+ nl
    +:+ "  }") +:+ nl
  +:+ "}" +:+ nl.

(** ** The program *)

Definition what (e : ReadError) : string :=
  match e with
  | TruncatedHeader => "truncated pcap record header"
  | InvalidLengths => "invalid pcap record lengths"
  | TruncatedPayload => "truncated pcap packet payload"
  end.

Inductive Event := Out (s : string) | Err (s : string) | Wrote (path s : string).

(** A stream keeps all that is inserted, or only so many characters of it. *)
Definition kept (limit : option nat) (s : string) : string :=
  match limit with Some n => String.substring 0 n s | None => s end.

(** [None] for undefined behaviour; [content] is the capture if it opens, [opened] tells
    which files open for writing and what they keep, [console] what the standard output keeps. *)
Definition main (args : list string) (content : string -> option bytes) (opened : string -> option (option nat))
    (console : option nat) : option (list Event * Z) :=
  match parse_args args with
  | None => Some ([Err usage], 1)
  | Some opt =>
    match analyze_file (pcap_file opt) (content (pcap_file opt)) with
    | Failed message => Some ([Err message], 1)
    | Threw e => Some ([Err ("Analyze failed: " +:+ what e +:+ nl)], 1)
    | Undefined => None
    | Analyzed report =>
      let json := build_json report in
      match output_json opt with
      | Some path =>
        match opened path with
        | None => Some ([Err ("Failed to write output file: " +:+ path +:+ nl)], 1)
        | Some limit => Some ([Wrote path (kept limit json)], 0)
        end
      | None => Some ([Out (kept console json)], 0)
      end
    end
  end.

(** ** Specification *)

(** The parsed packets with a label, by their type and by their source. *)
Definition of_type (label : string) (hs : list (CommonHeader * Z)) : list (CommonHeader * Z) :=
  filter (fun h => packet_type_label (packet_type (fst h)) = label) hs.
Definition of_source (label : string) (hs : list (CommonHeader * Z)) : list (CommonHeader * Z) :=
  filter (fun h => source_id_label (source_id (fst h)) = label) hs.

(** The counter of a group of packets; no entry for none. *)
Definition counter (l : list (CommonHeader * Z)) : option TypeCounter :=
  match l with [] => None | _ => Some (mkTypeCounter (u64 (Z.of_nat (length l))) (u64 (sumZ (snd <$> l)))) end.

Definition delay (step : Z * Z) : Z := fmul binary64 (fsub binary64 (snd step) (fst step)) d1000.

(** What the loop has found. *)
Record scan_ok (ns : bool) (rs : list PcapRecord) (s : Scan) : Prop := {
  sk_first : first_ts s = head (epoch_seconds ns <$> rs);
  sk_last : last_ts s = last (epoch_seconds ns <$> rs);
  sk_prev : prev_ts s = last (epoch_seconds ns <$> rs);
  sk_seq : prev_seq s = last ((fun h => sequence_number (fst h)) <$> omap parsed_of rs);
  sk_types : forall l, packet_type_counters s !! l = counter (of_type l (omap parsed_of rs));
  sk_delays : delays_ms s = delay <$> steps (epoch_seconds ns <$> rs);
  sk_packets : sc_packets s = u64 (Z.of_nat (length rs));
  sk_bytes : sc_bytes s = u64 (total_length (payload <$> rs));
  sk_sources : forall l, sc_sources s !! l = tc_packets <$> counter (of_source l (omap parsed_of rs));
  sk_gaps : sc_gaps s = u64 (Z.of_nat (count_true (uncurry is_gap <$> steps ((fun h => sequence_number (fst h)) <$> omap parsed_of rs))));
  sk_wraps : sc_wraps s = u64 (Z.of_nat (count_true (uncurry is_wraparound <$> steps ((fun h => sequence_number (fst h)) <$> omap parsed_of rs))));
  sk_invalid : sc_invalid s = u64 (Z.of_nat (length rs - length (omap parsed_of rs)));
}.

(** ** Lemmas: the loop *)

#[local] Opaque parse epoch_seconds.

Lemma counter_snoc l h :
  counter (l ++ [h]) =
    let c := default (mkTypeCounter 0 0) (counter l) in
    Some (mkTypeCounter (inc64 (tc_packets c)) (tc_bytes c +[64] snd h)).
Proof.
  cbv zeta. unfold counter. destruct l as [|h' l].
  - cbn. unfold inc64. by rewrite Z.add_0_r.
  - cbn [app default from_option id tc_packets tc_bytes]. rewrite u64_succ, wrap_add_l by lia.
    rewrite app_comm_cons, fmap_app, sumZ_app, length_app. do 2 f_equal; f_equal; cbn; lia.
Qed.

(** Adding a packet to the counter of its key. *)
Lemma counters_insert (key : CommonHeader * Z -> string) (m : gmap string TypeCounter) hs h :
  (forall l, m !! l = counter (filter (fun x => key x = l) hs)) ->
  let c := default (mkTypeCounter 0 0) (m !! key h) in
  forall l, <[key h := mkTypeCounter (inc64 (tc_packets c)) (tc_bytes c +[64] snd h)]> m !! l =
    counter (filter (fun x => key x = l) (hs ++ [h])).
Proof.
  intros Hm c l. rewrite list.filter_app. destruct (decide (key h = l)) as [<-|Hne].
  - rewrite lookup_insert_eq, list.filter_cons_True by done. cbn [filter list_filter]. rewrite counter_snoc. unfold c. by rewrite Hm.
  - rewrite lookup_insert_ne, list.filter_cons_False by done. cbn [filter list_filter]. by rewrite app_nil_r.
Qed.

Lemma sources_insert (key : CommonHeader * Z -> string) (m : gmap string Z) hs h :
  (forall l, m !! l = tc_packets <$> counter (filter (fun x => key x = l) hs)) ->
  forall l, <[key h := inc64 (default 0 (m !! key h))]> m !! l = tc_packets <$> counter (filter (fun x => key x = l) (hs ++ [h])).
Proof.
  intros Hm l. rewrite list.filter_app. destruct (decide (key h = l)) as [<-|Hne].
  - rewrite lookup_insert_eq, list.filter_cons_True by done. cbn [filter list_filter]. rewrite counter_snoc, Hm.
    by destruct (counter _).
  - rewrite lookup_insert_ne, list.filter_cons_False by done. cbn [filter list_filter]. by rewrite app_nil_r.
Qed.

Lemma head_snoc {A} (l : list A) x : head (l ++ [x]) = match head l with Some y => Some y | None => Some x end.
Proof. by destruct l. Qed.

Lemma analyze_record_ok ns rs r s : scan_ok ns rs s -> scan_ok ns (rs ++ [r]) (analyze_record ns r s).
Proof.
  intros [H1 H2 H3 H4 H5 H6 H7 H8 H9 H10 H11 H12]. destruct s as [first last' prev pseq types delays tp tb sources gaps wraps invalid].
  cbn [first_ts last_ts prev_ts prev_seq packet_type_counters delays_ms sc_packets sc_bytes sc_sources sc_gaps sc_wraps sc_invalid] in *.
  assert (Htp : inc64 tp = u64 (Z.of_nat (length (rs ++ [r])))).
  { rewrite H7, u64_succ, length_app. do 2 f_equal. cbn. lia. }
  assert (Htb : tb +[64] Z.of_nat (length (payload r)) = u64 (total_length (payload <$> rs ++ [r]))).
  { rewrite H8. unfold total_length. rewrite wrap_add_l, !fmap_app, sumZ_app by lia. f_equal. cbn. lia. }
  assert (Hf : match first with Some t => Some t | None => Some (epoch_seconds ns r) end = head (epoch_seconds ns <$> rs ++ [r])).
  { rewrite H1, fmap_app. symmetry. apply head_snoc. }
  assert (Hl : Some (epoch_seconds ns r) = last (epoch_seconds ns <$> rs ++ [r])) by (rewrite fmap_app; symmetry; apply last_snoc).
  assert (Hd : match prev with Some p => delays ++ [fmul binary64 (fsub binary64 (epoch_seconds ns r) p) d1000] | None => delays end =
    delay <$> steps (epoch_seconds ns <$> rs ++ [r])).
  { rewrite H3, H6, fmap_app. cbn [fmap list_fmap]. rewrite steps_snoc. destruct (last (epoch_seconds ns <$> rs)); [by rewrite fmap_app|by rewrite app_nil_r]. }
  pose proof (omap_length_le parsed_of rs) as Hle. set (hs := omap parsed_of rs) in *.
  assert (Hhs : omap parsed_of (rs ++ [r]) = hs ++ option_list (parsed_of r)).
  { rewrite omap_app. cbn [omap list_omap]. by destruct (parsed_of r). }
  unfold analyze_record.
  assert (Hp : parsed_of r = (fun p => (header p, Z.of_nat (length (payload r)))) <$> parse (Some (payload r)) (Z.of_nat (length (payload r)))) by done.
  rewrite Hp in Hhs.
  destruct (parse (Some (payload r)) (Z.of_nat (length (payload r)))) as [p|]; cbn [fmap option_fmap option_map] in Hhs;
    try change (option_list (Some ?x)) with [x] in Hhs; split;
    cbn [first_ts last_ts prev_ts prev_seq packet_type_counters delays_ms sc_packets sc_bytes sc_sources sc_gaps sc_wraps sc_invalid];
    try done; rewrite Hhs; cbn [option_list]; rewrite ?app_nil_r; try done.
  - rewrite fmap_app. symmetry. apply last_snoc.
  - exact (counters_insert (fun h => packet_type_label (packet_type (fst h))) types hs (header p, _) H5).
  - exact (sources_insert (fun h => source_id_label (source_id (fst h))) sources hs (header p, _) H9).
  - rewrite fmap_app. cbn [fmap list_fmap fst]. by rewrite count_steps_snoc, H10, H4.
  - rewrite fmap_app. cbn [fmap list_fmap fst]. by rewrite count_steps_snoc, H11, H4.
  - rewrite H12, !length_app. do 2 f_equal. cbn. lia.
  - rewrite H12, u64_succ, length_app. do 2 f_equal. cbn. lia.
Qed.

Lemma scan_exact ns rs : scan_ok ns rs (scan ns rs).
Proof.
  unfold scan. induction rs as [|r rs IH] using rev_ind; [by split|]. rewrite foldl_app. by apply analyze_record_ok.
Qed.

(** ** Lemmas: the statistics *)

Import FloatLaws.

(** Literals. *)
Definition withinb (B x : Z) : bool :=
  match of_bits binary64 x with S754_zero _ => true | S754_finite _ m e => units (Z.pos m) e <=? B | _ => false end.

Lemma withinb_ok B x : withinb B x = true -> double_within B x.
Proof. unfold withinb, double_within. destruct (of_bits binary64 x); cbn; try done. apply Z.leb_le. Qed.

Definition ts_ok (r : PcapRecord) : Prop := is_u32 (ts_sec r) /\ is_u32 (ts_frac r).

Lemma epoch_within ns r : ts_ok r -> double_within (pow2 33) (epoch_seconds ns r).
Proof.
  intros [Hs Hf]. unfold in_range in *. rewrite epoch_seconds_eq.
  assert (Hz : forall n, 0 <= n < 2 ^ 32 -> double_within (pow2 32) (of_Z binary64 n)).
  { intros n Hn. apply of_Z_within; [by apply pow2_bound|]. apply (units_pow2 (Z.abs n) 0 32); [by unfold K|lia|lia]. }
  apply (fadd_pow2 32); [lia|by apply Hz|].
  eapply (fdiv_within (pow2 32) (pow2 0)); [by apply pow2_bound|by apply Hz| | |].
  - destruct ns; vm_compute; discriminate.
  - vm_compute. reflexivity.
  - vm_compute. discriminate.
Qed.

Lemma steps_elem {A} (P : A -> Prop) (l : list A) x : Forall P l -> x ∈ steps l -> P (fst x) /\ P (snd x).
Proof.
  intros Hl Hx. destruct x as [a b]. apply elem_of_zip_l in Hx as Ha. apply elem_of_zip_r in Hx as Hb.
  rewrite Forall_forall in Hl. split; apply Hl; [done|]. by destruct l as [|y l]; [|right].
Qed.

Lemma delays_within ns rs : Forall ts_ok rs -> Forall (double_within (pow2 44)) (delay <$> steps (epoch_seconds ns <$> rs)).
Proof.
  intros Hrs. apply Forall_fmap, Forall_forall. intros x Hx. unfold compose.
  apply (steps_elem (double_within (pow2 33))) in Hx as [Ha Hb].
  - unfold delay. apply (fmul_pow2 34 10); [lia|unfold K; lia|unfold K; lia|by apply (fsub_pow2 33)|]. by apply withinb_ok; vm_compute.
  - apply Forall_fmap. eapply Forall_impl; [exact Hrs|]. intros r Hr. by apply epoch_within.
Qed.

(** Truncation of a number that is not negative. *)
Lemma to_size_within N x : 0 <= N < 2 ^ 64 -> double_within (units N 0) x ->
  match of_bits binary64 x with S754_finite true _ _ => False | _ => True end -> exists t, to_size x = Some t /\ 0 <= t <= N.
Proof.
  intros HN. unfold double_within, to_size. pose proof (of_bits_valid x) as Hv.
  destruct (of_bits binary64 x) as [s|s| |[] m e]; cbn [within valid] in *; try done; intros Hw _; [by exists 0; split; [|lia]|].
  assert (Ht : 0 <= truncate m e <= N) by (apply truncate_bound; [lia|done]).
  eexists. rewrite (proj2 (Z.ltb_lt _ _)) by lia. done.
Qed.

#[local] Opaque pow2 units.

(** A product of two numbers that are not negative is not negative. *)
Lemma fmul_sign x y :
  match of_bits binary64 x with S754_finite true _ _ => False | _ => True end ->
  match of_bits binary64 y with S754_finite true _ _ => False | _ => True end ->
  fits (pow2 970) (SFmul 53 1024 (of_bits binary64 x) (of_bits binary64 y)) ->
  match of_bits binary64 (fmul binary64 x y) with S754_finite true _ _ => False | _ => True end.
Proof.
  intros Hx Hy [Hv _]. unfold fmul, op2. cbn [prec emax binary64]. rewrite of_to_bits by done. revert Hx Hy. clear Hv.
  destruct (of_bits binary64 x) as [sx|sx| |[] mx ex], (of_bits binary64 y) as [sy|sy| |[] my ey]; try done; cbn [SFmul xorb]; intros _ _.
  pose proof (round_sign false (Z.pos (mx * my)) (ex + ey) loc_Exact) as H.
  by destruct (binary_round_aux _ _ _ _ _ _) as [| | |[]].
Qed.

(** The position of a percentile in a vector of [n] elements. *)
Lemma position_within n p : 0 < n < 2 ^ 53 -> double_within (pow2 0) p ->
  double_within (units (n - 1) 0) (fmul binary64 p (of_Z binary64 (n - 1))).
Proof.
  intros Hn Hp. eapply fmul_within; [apply bound_units; lia|exact Hp| |apply pow2_nonneg|by rewrite Z.mul_comm].
  apply of_Z_within; [apply bound_units; lia|]. apply units_le; [by unfold K|lia].
Qed.

(** It is an index of the vector. *)
Lemma position_index n p : 0 < n < 2 ^ 53 -> double_within (pow2 0) p ->
  match of_bits binary64 p with S754_finite true _ _ => False | _ => True end ->
  exists idx, to_size (fmul binary64 p (of_Z binary64 (n - 1))) = Some idx /\ 0 <= idx <= n - 1.
Proof.
  intros Hn Hp Hs. apply (to_size_within (n - 1)); [lia|by apply position_within|].
  assert (Hz : double_within (units (n - 1) 0) (of_Z binary64 (n - 1))).
  { apply of_Z_within; [apply bound_units; lia|]. apply units_le; [by unfold K|lia]. }
  apply fmul_sign; [done| |].
  - destruct (decide (n = 1)) as [E1|]; [by rewrite E1|]. destruct (of_Z_exact (n - 1)) as (m & e & -> & _); [lia|done].
  - eapply (SFmul_fits (pow2 0) (units (n - 1) 0)); [by apply pow2_bound|by apply double_fits|by apply double_fits|apply pow2_nonneg|].
    pose proof (units_pow2 (n - 1) 0 53 ltac:(by unfold K) ltac:(lia) ltac:(lia)).
    etrans; [apply Z.mul_le_mono_nonneg_l; [apply pow2_nonneg|eassumption]|].
    rewrite pow2_mul by (unfold K; lia). apply Z.mul_le_mono_nonneg_r; [by apply Z.pow_nonneg|]. apply pow2_mono. unfold K; lia.
Qed.

(** The percentile is finite. *)
Lemma percentile_total l p :
  0 < Z.of_nat (length l) < 2 ^ 53 -> Forall (double_within (pow2 44)) l ->
  double_within (pow2 0) p -> match of_bits binary64 p with S754_finite true _ _ => False | _ => True end ->
  exists x, percentile_sorted l p = Some x /\ double_within (pow2 100) x.
Proof.
  intros Hn Hl Hp Hs. unfold percentile_sorted. destruct l as [|x0 l0] eqn:El; [cbn in Hn; lia|]. rewrite <-El in *. clear El x0 l0.
  set (n := Z.of_nat (length l)) in *. set (pos := fmul binary64 p (of_Z binary64 (n - 1))).
  assert (Hz : forall k, 0 <= k <= n - 1 -> double_within (units (n - 1) 0) (of_Z binary64 k)).
  { intros k Hk. apply of_Z_within; [apply bound_units; lia|]. apply units_le; [by unfold K|lia]. }
  assert (Hpos : double_within (units (n - 1) 0) pos) by by apply position_within.
  destruct (position_index n p Hn Hp Hs) as (idx & Hidx & Hr). fold pos in Hidx.
  rewrite Hidx. cbn [mbind option_bind].
  assert (Hlook : forall k, 0 <= k <= n - 1 -> exists a, l !! Z.to_nat k = Some a /\ double_within (pow2 44) a).
  { intros k Hk. destruct (lookup_lt_is_Some_2 l (Z.to_nat k)) as [a Ha]; [unfold n in *; lia|].
    exists a. split; [done|]. by eapply Forall_lookup_1. }
  destruct (Hlook idx Hr) as (a & -> & Ha). destruct (Hlook (Z.min (idx + 1) (n - 1)) ltac:(lia)) as (c & -> & Hc).
  cbn [mbind option_bind]. eexists. split; [reflexivity|].
  assert (Hu : units (n - 1) 0 <= pow2 53) by (apply (units_pow2 (n - 1) 0 53); [by unfold K|lia|lia]).
  set (frac := fsub binary64 pos (of_Z binary64 idx)).
  assert (Hfrac : double_within (pow2 54) frac).
  { apply (fsub_pow2 53); [lia|by eapply within_mono|eapply within_mono; [exact Hu|by apply Hz]]. }
  assert (H1 : double_within (pow2 55) (fsub binary64 d1 frac)).
  { apply (fsub_pow2 54); [lia| |exact Hfrac]. by apply withinb_ok; vm_compute. }
  apply (fadd_pow2 99); [lia| |].
  - apply (fmul_pow2 44 55); [lia|unfold K; lia|unfold K; lia|exact Ha|exact H1].
  - apply (fmul_pow2 44 55); [lia|unfold K; lia|unfold K; lia|exact Hc|]. eapply within_mono; [|exact Hfrac]. apply pow2_mono. unfold K; lia.
Qed.

Lemma sum_within l : Forall (double_within (pow2 44)) l -> forall k acc,
  0 <= k -> k + Z.of_nat (length l) <= 2 ^ 53 -> double_within (units k 44) acc ->
  double_within (units (k + Z.of_nat (length l)) 44) (foldl (fadd binary64) acc l).
Proof.
  induction 1 as [|x l Hx _ IH]; intros k acc Hk Hn Ha; cbn [foldl length] in *.
  { change (Z.of_nat 0) with 0. rewrite Z.add_0_r. exact Ha. }
  replace (k + Z.of_nat (S (length l))) with (k + 1 + Z.of_nat (length l)) by lia. apply IH; [lia|lia|].
  eapply fadd_within; [apply bound_units; lia|exact Ha|exact Hx| |apply pow2_nonneg|].
  - exact (units_le 0 k 44 ltac:(by unfold K) Hk).
  - rewrite units_add. done.
Qed.

#[export] Instance not_greater_total : Total not_greater.
Proof. intros x y. unfold not_greater. destruct (fltb binary64 y x) eqn:E; [right|by left]. by apply fltb_asym. Qed.

(** Among finite numbers nothing is unordered. *)
Lemma not_greater_le x y : finite x = true -> finite y = true -> not_greater x y -> fleb binary64 x y = true.
Proof.
  unfold finite, not_greater, fltb, fleb, SFltb, SFleb. rewrite (SFcompare_swap (of_bits binary64 x)).
  destruct (of_bits binary64 x) as [sx|sx| |sx mx ex], (of_bits binary64 y) as [sy|sy| |sy my ey]; try done; intros _ _;
    destruct (SFcompare _ _) as [[]|] eqn:E; done.
Qed.

Lemma sorted_strongly l : Sorted not_greater l -> Forall (fun x => finite x = true) l ->
  StronglySorted (fun x y => fleb binary64 x y = true) l.
Proof.
  intros Hs Hf. apply Sorted_StronglySorted; [intros x y z; apply fleb_trans|].
  induction Hs as [|x l Hs IH Hh]; [constructor|]. apply Forall_cons_1 in Hf as [Hx Hf]. constructor; [by apply IH|].
  destruct Hh as [|y l Hxy]; constructor. apply Forall_cons_1 in Hf as [Hy _]. by apply not_greater_le.
Qed.

Lemma sorted_bounds l : Sorted not_greater l -> Forall (fun x => finite x = true) l -> forall a z, head l = Some a -> last l = Some z ->
  Forall (fun x => fleb binary64 a x = true /\ fleb binary64 x z = true) l.
Proof.
  intros Hs Hf. pose proof (sorted_strongly l Hs Hf) as Hs'. clear Hs.
  induction Hs' as [|x l Hs IH Hx]; intros a z Ha Hz; [done|]. injection Ha as <-. apply Forall_cons_1 in Hf as [Hfx Hf].
  assert (Hxx : fleb binary64 x x = true) by (apply not_greater_le; [done|done|apply fltb_irrefl]).
  destruct l as [|y l]; [injection Hz as <-; by repeat constructor|]. change (last (y :: l) = Some z) in Hz.
  specialize (IH Hf y z eq_refl Hz). apply Forall_cons_2.
  - split; [done|]. apply Forall_cons_1 in Hx as [Hxy _], IH as [[_ Hyz] _]. exact (fleb_trans binary64 x y z Hxy Hyz).
  - apply Forall_and. split; [done|]. eapply Forall_impl; [exact IH|]. by intros ? [].
Qed.

(** The constants 0.50 and 0.99: the doubles nearest to the quotients. *)
Definition half : Z := fdiv binary64 (of_Z binary64 1) (of_Z binary64 2).
Definition ninety_nine_hundredths : Z := fdiv binary64 (of_Z binary64 99) (of_Z binary64 100).

(** [x] is the [p]-quantile of [sorted] by linear interpolation between the two elements around
    the position [p] times the last index, in double precision. *)
Definition interpolates (p : Z) (sorted : list Z) (x : Z) : Prop :=
  exists idx a b,
    let position := fmul binary64 p (of_Z binary64 (Z.of_nat (length sorted - 1))) in
    let frac := fsub binary64 position (of_Z binary64 (Z.of_nat idx)) in
    to_size position = Some (Z.of_nat idx) /\ sorted !! idx = Some a /\
    sorted !! Nat.min (idx + 1) (length sorted - 1) = Some b /\
    x = fadd binary64 (fmul binary64 a (fsub binary64 (of_Z binary64 1) frac)) (fmul binary64 b frac).

(** The statistics of a vector of delays. *)
Record stats_ok (l : list Z) (st : DelayStats) : Prop := {
  so_finite : Forall (fun x => finite x = true) [ds_min st; ds_max st; ds_mean st; ds_p50 st; ds_p99 st];
  so_empty : l = [] -> st = DelayStats_init;
  so_min : l <> [] -> ds_min st ∈ l /\ Forall (fun x => fleb binary64 (ds_min st) x = true) l;
  so_max : l <> [] -> ds_max st ∈ l /\ Forall (fun x => fleb binary64 x (ds_max st) = true) l;
  so_middle : l <> [] -> exists sorted, sorted ≡ₚ l /\ StronglySorted (fun x y => fleb binary64 x y = true) sorted /\
    ds_mean st = fdiv binary64 (foldl (fadd binary64) 0 sorted) (of_Z binary64 (Z.of_nat (length l))) /\
    interpolates half sorted (ds_p50 st) /\ interpolates ninety_nine_hundredths sorted (ds_p99 st);
}.

(** What [percentile_sorted] returns on a vector that is not empty. *)
Lemma percentile_interpolates l p x : l <> [] -> percentile_sorted l p = Some x -> interpolates p l x.
Proof.
  intros Hne Hx. unfold percentile_sorted in Hx. destruct l as [|x0 l0] eqn:El; [done|]. rewrite <-El in *.
  assert (Hlen : (0 < length l)%nat) by (rewrite El; cbn; lia). clear El x0 l0.
  destruct (to_size _) as [idx|] eqn:Ei; cbn [mbind option_bind] in Hx; [|done].
  assert (Hidx : 0 <= idx).
  { revert Ei. unfold to_size. destruct (of_bits binary64 _) as [s|s| |s m e]; try done; [by intros [= <-]|].
    assert (0 <= truncate m e).
    { unfold truncate. destruct (Z.leb_spec 0 e); [|apply Z.div_pos; [lia|apply Z.pow_pos_nonneg; lia]].
      apply Z.mul_nonneg_nonneg; [lia|]. apply Z.pow_nonneg. lia. }
    destruct s; case_match; try done; intros [= <-]; lia. }
  destruct (l !! Z.to_nat idx) as [a|] eqn:Ea; cbn [mbind option_bind] in Hx; [|done].
  destruct (l !! Z.to_nat (Z.min (idx + 1) (Z.of_nat (length l) - 1))) as [b|] eqn:Eb; cbn [mbind option_bind] in Hx; [|done].
  injection Hx as <-. exists (Z.to_nat idx), a, b. cbv zeta. rewrite Z2Nat.id by done.
  replace (Z.of_nat (length l - 1)) with (Z.of_nat (length l) - 1) by lia. split_and!; [done|done| |done].
  rewrite <-Eb. f_equal. lia.
Qed.

Lemma compute_delay_stats_ok l :
  Forall (double_within (pow2 44)) l -> Z.of_nat (length l) < 2 ^ 53 ->
  exists st, compute_delay_stats l = Some st /\ stats_ok l st.
Proof.
  intros Hl Hn. unfold compute_delay_stats. pose proof (merge_sort_Permutation not_greater l) as Hp.
  pose proof (Sorted_merge_sort not_greater l) as Hs. set (sorted := merge_sort not_greater l) in *.
  assert (Hl' : Forall (double_within (pow2 44)) sorted) by (by rewrite Hp).
  assert (Hf : Forall (fun x => finite x = true) sorted) by (eapply Forall_impl; [exact Hl'|]; intros x; apply within_finite).
  assert (Hlen : length sorted = length l) by (by rewrite Hp).
  destruct sorted as [|a s'] eqn:E.
  { assert (l = []) as -> by (by destruct l). exists DelayStats_init. split; [done|]. split; [by repeat constructor|done..]. }
  rewrite <-E in *. destruct (last sorted) as [z|] eqn:Ez; [|by rewrite last_None, E in Ez].
  assert (Hne : l <> []) by (intros ->; rewrite E in Hlen; done).
  assert (Hcnt : 0 < Z.of_nat (length sorted) < 2 ^ 53) by (rewrite E in *; cbn [length] in *; lia).
  destruct (percentile_total sorted d50) as (p50 & E50 & H50); [done|done|by apply withinb_ok; vm_compute|by vm_compute|].
  destruct (percentile_total sorted d99) as (p99 & E99 & H99); [done|done|by apply withinb_ok; vm_compute|by vm_compute|].
  rewrite E50, E99. cbn [mbind option_bind].
  assert (Hmean : double_within (pow2 44) (fdiv binary64 (foldl (fadd binary64) d0 sorted) (of_Z binary64 (Z.of_nat (length sorted))))).
  { destruct (of_Z_exact (Z.of_nat (length sorted)) Hcnt) as (m & e & Em & Hu).
    eapply (fdiv_within (units (Z.of_nat (length sorted)) 44) (units (Z.of_nat (length sorted)) 0)); [by apply pow2_bound| | | |].
    - apply (sum_within sorted Hl' 0 d0); [lia|lia|done].
    - rewrite Em. cbn [at_least]. by rewrite Hu.
    - exact (units_lt 0 _ 0 ltac:(by unfold K) (proj1 Hcnt)).
    - by rewrite units_div. }
  pose proof (sorted_bounds sorted Hs Hf a z ltac:(by rewrite E) Ez) as Hb. rewrite Hp in Hb.
  eexists. split; [reflexivity|]. split; cbn [ds_min ds_max ds_mean ds_p50 ds_p99].
  - rewrite E in Hf. apply Forall_cons_1 in Hf as [Ha _]. apply last_Some_elem_of in Ez. rewrite Hp in Ez.
    assert (finite z = true) by (rewrite Forall_forall in Hl; by apply (within_finite (pow2 44)), Hl).
    repeat apply Forall_cons_2; [done|done|by eapply within_finite..|constructor].
  - done.
  - intros _. split; [rewrite <-Hp, E; left|]. eapply Forall_impl; [exact Hb|]. by intros ? [].
  - intros _. split; [rewrite <-Hp; by apply last_Some_elem_of|]. eapply Forall_impl; [exact Hb|]. by intros ? [].
  - intros _. exists sorted. assert (Hn' : sorted <> []) by (by rewrite E). split_and!; [done|by apply sorted_strongly|by rewrite <-Hlen|..].
    + by apply percentile_interpolates.
    + by apply percentile_interpolates.
Qed.

(** ** Lemmas: the text *)

(** The report as a JSON value. *)
Definition map_tree (m : gmap string Z) : value := JObj ((fun '(k, v) => (k, JNum (decimal v))) <$> entries m).

Definition stats_tree (d : DelayStats) : value :=
  JObj [("min", JNum (fixed (ds_min d))); ("max", JNum (fixed (ds_max d))); ("mean", JNum (fixed (ds_mean d)));
        ("p50", JNum (fixed (ds_p50 d))); ("p99", JNum (fixed (ds_p99 d)))].

Definition report_tree (r : Report) : value :=
  JObj [("file", JStr (file r)); ("total_packets", JNum (decimal (total_packets r))); ("total_bytes", JNum (decimal (total_bytes r)));
        ("duration_seconds", JNum (fixed (duration_seconds r))); ("packet_types", map_tree (packet_types r));
        ("packet_type_bytes", map_tree (packet_type_bytes r)); ("source_ids", map_tree (source_ids r));
        ("sequence_gaps", JNum (decimal (sequence_gaps r))); ("sequence_wraparounds", JNum (decimal (sequence_wraparounds r)));
        ("invalid_packets", JNum (decimal (invalid_packets r))); ("inter_packet_delay_ms", stats_tree (inter_packet_delay_ms r))].

(** Text that the escaping covers: control characters only as line feeds, carriage returns and tabulators. *)
Definition printable (s : string) : Prop := chars_in Logger.message_char s = true.

Lemma literal_escape s : printable s -> literal s (escape_json s).
Proof. intros H acc rest. by apply Logger.read_escape_json. Qed.

Lemma blanks_ws n : ws (blanks n).
Proof. induction n as [|n IH]; [done|]. exact IH. Qed.

Lemma entries_perm m : entries m ≡ₚ map_to_list m.
Proof. apply merge_sort_Permutation. Qed.

Lemma entry_lines_close ind l t : l <> [] -> Forall (fun x => printable (fst x)) l ->
  closes ((fun '(k, v) => (k, JNum (decimal v))) <$> l) (nl +:+ entry_lines ind l +:+ blanks (ind - 2) +:+ "}" +:+ t) t.
Proof.
  intros Hne Hl. induction Hl as [|[k v] l Hk Hl IH]; [done|]. cbn [entry_lines fmap list_fmap]. destruct l as [|kv l].
  - rewrite !append_assoc. change ("" +:+ ?x) with x. cbn [entry_lines]. change ("" +:+ ?x) with x.
    apply closes_last; [apply blanks_ws|apply blanks_ws|by apply literal_escape|apply text_decimal].
  - rewrite !append_assoc. apply closes_cons; [apply blanks_ws|by apply literal_escape|apply text_decimal|by apply IH].
Qed.

Lemma map_text m ind : map_Forall (fun k _ => printable k) m -> text_of (map_tree m) (append_json_map m ind).
Proof.
  intros Hm. unfold map_tree, append_json_map. pose proof (entries_perm m) as Hp.
  assert (Hl : Forall (fun x => printable (fst x)) (entries m)).
  { rewrite Hp. apply map_Forall_to_list in Hm. eapply Forall_impl; [exact Hm|]. by intros [k v]. }
  destruct (entries m) as [|kv l] eqn:E; [by apply (TObj0 EmptyString)|].
  apply closes_text. pose proof (entry_lines_close ind (kv :: l) EmptyString ltac:(done) Hl) as H.
  by rewrite !append_nil_r in H.
Qed.

Lemma stats_text d : Forall (fun x => finite x = true) [ds_min d; ds_max d; ds_mean d; ds_p50 d; ds_p99 d] ->
  text_of (stats_tree d) ("{" +:+ nl
    +:+ "    " +:+ member "min" (fixed (ds_min d)) +:+ "," +:+ nl
    +:+ "    " +:+ member "max" (fixed (ds_max d)) +:+ "," +:+ nl
    +:+ "    " +:+ member "mean" (fixed (ds_mean d)) +:+ "," +:+ nl
    +:+ "    " +:+ member "p50" (fixed (ds_p50 d)) +:+ "," +:+ nl
    +:+ "    " +:+ member "p99" (fixed (ds_p99 d)) +:+ nl
    +:+ "  }").
Proof.
  intros (H1 & (H2 & (H3 & (H4 & (H5 & _)%Forall_cons_1)%Forall_cons_1)%Forall_cons_1)%Forall_cons_1)%Forall_cons_1.
  apply closes_text. repeat (apply closes_cons; [done|by apply literal_plain|by apply text_fixed|]).
  by apply (closes_last "    " "  "); [..|apply literal_plain|apply text_fixed].
Qed.

(** The text of a report reads back. *)
Lemma build_json_read r :
  printable (file r) -> finite (duration_seconds r) = true ->
  let d := inter_packet_delay_ms r in
  Forall (fun x => finite x = true) [ds_min d; ds_max d; ds_mean d; ds_p50 d; ds_p99 d] ->
  map_Forall (fun k _ => printable k) (packet_types r) -> map_Forall (fun k _ => printable k) (packet_type_bytes r) ->
  map_Forall (fun k _ => printable k) (source_ids r) ->
  read_json (build_json r) = Some (report_tree r).
Proof.
  intros Hfile Hdur d Hd Ht Hb Hs. unfold build_json, report_tree. apply closes_read. fold d.
  apply closes_cons; [done|by apply literal_plain|by constructor; apply literal_escape|].
  do 2 (apply closes_cons; [done|by apply literal_plain|apply text_decimal|]).
  apply closes_cons; [done|by apply literal_plain|by apply text_fixed|].
  do 3 (apply closes_cons; [done|by apply literal_plain|by apply map_text|]).
  do 3 (apply closes_cons; [done|by apply literal_plain|apply text_decimal|]).
  by apply (closes_last "  " ""); [..|apply literal_plain|apply stats_text].
Qed.

(** ** The report of a capture *)

Record report_ok (ns : bool) (rs : list PcapRecord) (path : string) (r : Report) : Prop := {
  ro_file : file r = path;
  ro_packets : total_packets r = u64 (Z.of_nat (length rs));
  ro_bytes : total_bytes r = u64 (total_length (payload <$> rs));
  ro_invalid : invalid_packets r = u64 (Z.of_nat (length rs - length (omap parsed_of rs)));
  ro_types : forall l, packet_types r !! l = tc_packets <$> counter (of_type l (omap parsed_of rs));
  ro_type_bytes : forall l, packet_type_bytes r !! l = tc_bytes <$> counter (of_type l (omap parsed_of rs));
  ro_sources : forall l, source_ids r !! l = tc_packets <$> counter (of_source l (omap parsed_of rs));
  ro_gaps : sequence_gaps r =
    u64 (Z.of_nat (count_true (uncurry is_gap <$> steps ((fun h => sequence_number (fst h)) <$> omap parsed_of rs))));
  ro_wraps : sequence_wraparounds r =
    u64 (Z.of_nat (count_true (uncurry is_wraparound <$> steps ((fun h => sequence_number (fst h)) <$> omap parsed_of rs))));
  ro_duration : duration_seconds r =
    match head (epoch_seconds ns <$> rs), last (epoch_seconds ns <$> rs) with
    | Some a, Some z => if fleb binary64 a z then fsub binary64 z a else d0
    | _, _ => d0
    end;
  ro_delays : stats_ok (delay <$> steps (epoch_seconds ns <$> rs)) (inter_packet_delay_ms r);
}.

Lemma length_steps {A} (l : list A) : (length (steps l) <= length l)%nat.
Proof. unfold steps. rewrite length_zip_with. lia. Qed.

(** The report exists: no index leaves its vector. *)
Lemma analyze_scan path bs fmt rs :
  read_file bs = Some (fmt, rs, None) -> Forall ts_ok rs -> Z.of_nat (length rs) < 2 ^ 53 ->
  exists r, analyze_file path (Some bs) = Analyzed r /\ report_ok (timestamp_nanoseconds fmt) rs path r.
Proof.
  intros Hread Hrs Hn. unfold analyze_file. rewrite Hread. set (ns := timestamp_nanoseconds fmt).
  pose proof (scan_exact ns rs) as [H1 H2 H3 H4 H5 H6 H7 H8 H9 H10 H11 H12]. rewrite H6.
  destruct (compute_delay_stats_ok (delay <$> steps (epoch_seconds ns <$> rs))) as (st & -> & Hst).
  - by apply delays_within.
  - rewrite length_fmap. pose proof (length_steps (epoch_seconds ns <$> rs)) as Hl. rewrite length_fmap in Hl. lia.
  - eexists. split; [reflexivity|]. split; cbn [file total_packets total_bytes invalid_packets packet_types packet_type_bytes
      source_ids sequence_gaps sequence_wraparounds duration_seconds inter_packet_delay_ms]; try done.
    + intros l. by rewrite lookup_fmap, H5.
    + intros l. by rewrite lookup_fmap, H5.
    + unfold duration. by rewrite H1, H2.
Qed.

Lemma hex2_plain n : chars_in Json.plain_char (hex2 n) = true.
Proof. unfold hex2, hex_digit. rewrite chars_in_app. by rewrite !substring_in by (vm_compute; reflexivity). Qed.

Lemma plain_printable s : chars_in Json.plain_char s = true -> printable s.
Proof. apply chars_in_mono. by intros [[] [] [] [] [] [] [] []]. Qed.

Lemma label_printable t : printable (packet_type_label t).
Proof.
  apply plain_printable. unfold packet_type_label. destruct (PacketType_of_u8 t); try done.
  by rewrite !chars_in_app, hex2_plain.
Qed.

Lemma source_label_printable i : printable (source_id_label i).
Proof. apply plain_printable. unfold source_id_label. by rewrite chars_in_app, hex2_plain. Qed.

(** Only labels of packets are keys. *)
Lemma counter_keys {A} (key : CommonHeader * Z -> string) (f : TypeCounter -> A) (m : gmap string A) hs :
  (forall h, printable (key h)) -> (forall l, m !! l = f <$> counter (filter (fun h => key h = l) hs)) ->
  map_Forall (fun k _ => printable k) m.
Proof.
  intros Hk Hm l v Hl. rewrite Hm in Hl. destruct (filter (fun h => key h = l) hs) as [|h l'] eqn:E; [done|].
  assert (Hin : h ∈ filter (fun h => key h = l) hs) by (rewrite E; left). apply list_elem_of_filter in Hin as [<- _]. apply Hk.
Qed.

Lemma report_reads_back ns rs path r :
  Forall ts_ok rs -> printable path -> report_ok ns rs path r -> read_json (build_json r) = Some (report_tree r).
Proof.
  intros Hrs Hp [H1 H2 H3 H4 H5 H6 H7 H8 H9 H10 [H11 _ _ _ _]]. apply build_json_read; [by rewrite H1| |done|..].
  - rewrite H10. assert (He : Forall (double_within (pow2 33)) (epoch_seconds ns <$> rs)).
    { apply Forall_fmap. eapply Forall_impl; [exact Hrs|]. intros x. apply epoch_within. }
    destruct (head _) as [a|] eqn:Ea; [|done]. destruct (last _) as [z|] eqn:Ez; [|done]. destruct (fleb _ _ _); [|done].
    apply (within_finite (pow2 34)), (fsub_pow2 33); [lia|..]; rewrite Forall_forall in He; apply He.
    + by apply last_Some_elem_of.
    + by apply head_Some_elem_of.
  - exact (counter_keys (fun h => packet_type_label (packet_type (fst h))) tc_packets _ _ (fun h => label_printable _) H5).
  - exact (counter_keys (fun h => packet_type_label (packet_type (fst h))) tc_bytes _ _ (fun h => label_printable _) H6).
  - exact (counter_keys (fun h => source_id_label (source_id (fst h))) tc_packets _ _ (fun h => source_label_printable _) H7).
Qed.

(** Different types have different labels, and so have different sources. *)
Lemma labels_injective a b : byte_ok a -> byte_ok b ->
  (packet_type_label a = packet_type_label b -> a = b) /\ (source_id_label a = source_id_label b -> a = b).
Proof.
  intros Ha Hb.
  assert (Hall : forall f : Z -> string, bool_decide (NoDup (f <$> seqZ 0 256)) = true -> f a = f b -> a = b).
  { intros f Hf E. apply bool_decide_eq_true_1 in Hf. unfold byte_ok in *.
    assert (Hl : forall k, 0 <= k < 256 -> (f <$> seqZ 0 256) !! Z.to_nat k = Some (f k)).
    { intros k Hk. rewrite list_lookup_fmap, lookup_seqZ_lt by lia. cbn. do 2 f_equal. lia. }
    pose proof (Hl a Ha) as La. pose proof (Hl b Hb) as Lb. rewrite E in La. pose proof (NoDup_lookup _ _ _ _ Hf La Lb). lia. }
  split; apply Hall; vm_compute; reflexivity.
Qed.

(** ** Theorems *)

(** C39: the report of the analyzer is exact and reads back.  For a well-formed capture of fewer than 2^53 packets, in
    either byte order and with either resolution, whose name has no control character that JSON must escape and
    the program does not, and an output file that opens, if one is asked for, [main] inserts one text into the output and exits with 0,
    also when the output keeps only a part of it.  A JSON reader reads the whole text
    back as the report, and the report is the reference one: totals, packets the parser rejects, packets and
    bytes of each type and source, gaps and wrap-arounds among consecutive sequence
    numbers, the duration, and the delay statistics: the minimum and the maximum bound every delay, the mean is the rounded
    sum of the sorted delays over their number, and p50 and p99 interpolate linearly at 0.50 and 0.99 of the last index of
    the sorted delays; all are finite.  The indices of the percentiles never leave the vector. *)
Theorem analyze_report_reads_back (args : list string) (opt : Options) (content : string -> option bytes)
    (opened : string -> option (option nat)) (console : option nat)
    (le ns : bool) (rs : list PcapRecord)
    (Hargs : parse_args args = Some opt)
    (Hcontent : content (pcap_file opt) = Some (header_as le ns ++ concat (record_as le <$> rs)))
    (Hrs : Forall record_ok rs) (Hn : Z.of_nat (length rs) < 2 ^ 53) (Hname : printable (pcap_file opt))
    (Hout : forall path, output_json opt = Some path -> opened path <> None) :
  exists r text,
    main args content opened console =
      Some ([match output_json opt with
             | Some path => Wrote path (kept (default None (opened path)) text)
             | None => Out (kept console text)
             end], 0) /\
    read_json text = Some (report_tree r) /\ report_ok ns rs (pcap_file opt) r.
Proof.
  assert (Hts : Forall ts_ok rs) by (eapply Forall_impl; [exact Hrs|]; intros r (? & ? & _); by split).
  destruct (analyze_scan (pcap_file opt) (header_as le ns ++ concat (record_as le <$> rs)) (format_as le ns) rs) as (r & E & Hr);
    [by apply read_file_as|done|done|].
  exists r, (build_json r). split; [|split; [by eapply report_reads_back|exact Hr]].
  unfold main. rewrite Hargs, Hcontent, E. destruct (output_json opt) as [path|]; [|done].
  specialize (Hout path eq_refl). by destruct (opened path).
Qed.

(** On any file of bytes, whatever it holds, the analyzer has defined behaviour and exits with 0 or 1. *)
Theorem analyze_defined (args : list string) (content : string -> option bytes) (opened : string -> option (option nat))
    (console : option nat)
    (Hcontent : forall path bs, content path = Some bs -> bytes_ok bs /\ Z.of_nat (length bs) < 2 ^ 53) :
  exists ev code, main args content opened console = Some (ev, code) /\ (code = 0 \/ code = 1).
Proof.
  unfold main. destruct (parse_args args) as [opt|]; [|eauto 6].
  destruct (content (pcap_file opt)) as [bs|] eqn:Ec; [|cbn; eauto 6]. destruct (Hcontent _ _ Ec) as [Hb Hl].
  destruct (read_file bs) as [[[fmt rs] [e|]]|] eqn:Er; [unfold analyze_file; rewrite Er; eauto 6| |unfold analyze_file; rewrite Er; eauto 6].
  destruct (read_file_range bs fmt rs None Hb Er) as [Hts Hlen].
  destruct (analyze_scan (pcap_file opt) bs fmt rs Er Hts ltac:(lia)) as (r & -> & _).
  destruct (output_json opt) as [path|]; [|eauto 6]. destruct (opened path); eauto 6.
Qed.

(** A file name with a control character that is not escaped makes a text that is no JSON. *)
Example control_character_in_name :
  let name := String "001"%char EmptyString in
  exists text, main [name] (fun _ => Some (header_as true false)) (fun _ => None) None = Some ([Out text], 0) /\ read_json text = None.
Proof. eexists. split; vm_compute; reflexivity. Qed.

(** A full disk: ten characters are kept, and the program reports success. *)
Example cut_report_succeeds :
  exists text, main ["a.pcap"; "--output"; "r.json"] (fun _ => Some (header_as true false)) (fun _ => Some (Some 10%nat)) None =
    Some ([Wrote "r.json" text], 0) /\ read_json text = None.
Proof. eexists. split; vm_compute; reflexivity. Qed.

(** ** Witnesses *)

Import Pcap.Demo.

Lemma analyze_report_reads_back_witness :
  exists r text,
    main ["a.pcap"; "--output"; "r.json"] (fun _ => Some (header_as false true ++ concat (record_as false <$> demo_records)))
      (fun _ => Some None) None =
      Some ([Wrote "r.json" text], 0) /\
    read_json text = Some (report_tree r) /\ report_ok true demo_records "a.pcap" r.
Proof.
  exact (analyze_report_reads_back ["a.pcap"; "--output"; "r.json"] (mkOptions "a.pcap" (Some "r.json"))
    (fun _ => Some (header_as false true ++ concat (record_as false <$> demo_records))) (fun _ => Some None) None false true demo_records
    eq_refl eq_refl demo_records_ok ltac:(done) eq_refl ltac:(done)).
Defined.

(** One packet is invalid, and two sequence numbers are missing. *)
Example analyze_demo :
  exists r, analyze_file "a.pcap" (Some (header_as true false ++ concat (record_as true <$> demo_records))) = Analyzed r /\
    (total_packets r, invalid_packets r, sequence_gaps r, sequence_wraparounds r) = (4, 1, 1, 0) /\
    fixed (ds_p99 (inter_packet_delay_ms r)) = "1490.000000".
Proof. eexists. split; [vm_compute; reflexivity|]. split; vm_compute; reflexivity. Qed.

End PcapAnalyze.
