(* ===== verification/EmulatorMain.v ===== *)
(** The emulator program [tools/fpga_emulator/emulator_main.cpp]: its arguments, the
    sockets, the senders of the two modes, the report and the exit code.  The packets are
    those of [Emulator].  Inputs are the results of the system calls, the random numbers, the wall clock of
    the packets, and the time that passes: every read of the steady clock comes some
    nanoseconds after the one before, and a sleep ends no earlier than asked. *)

From S2P Require Import Prelude Float FloatLaws Text Json JsonTree CText Protocol Validator Emulator.
From stdpp Require Import strings.
From Stdlib Require Import Ascii Floats.SpecFloat.
Open Scope Z_scope.
Import Float Text CText JsonTree Protocol Validator Emulator.

Module EmulatorMain.

(** ** Configuration *)

Record Config := mkConfig {
  target_ip : string;
  target_port : Z;
  bind_device : string;
  bind_ips : list string;
  cpu_list : list Z;
  cpi_frags : Z;
  frame_rate : Z;
  drop_rate : Z;
  reorder_depth : Z;
  duration_sec : Z;
  arrays : Z;
  frag_payload_bytes : Z;
  heartbeat_interval_ms : Z;
  pps : Z;
  payload_bytes : Z;
  threads : Z;
  output_json : string;
}.

Definition d0 : Z := 0.
Definition d1 : Z := 0x3FF0000000000000.
Definition d8 : Z := 0x4020000000000000.
Definition d01 : Z := 0x3FB999999999999A.   (* 0.1 *)
Definition d20 : Z := 0x4034000000000000.
Definition d60 : Z := 0x404E000000000000.
Definition d1e6 : Z := 0x412E848000000000.
Definition d1e9 : Z := 0x41CDCD6500000000.

Definition Config_default : Config :=
  mkConfig "127.0.0.1" 9999 "" [] [] 128 d20 d0 0 d60 3 1400 1000 d0 256 1 "".

(** *** Conversions, with a fall-back for text that does not convert *)

Definition parse_double `{Strtod} (s : string) (fallback : Z) : Z :=
  let '(value, rest) := strtod s in
  if bool_decide (rest = s) || negb (bool_decide (rest = EmptyString)) then fallback else value.

Definition parse_size (s : string) (fallback : Z) : Z :=
  let '(value, rest) := strtoull s in
  if bool_decide (rest = s) || negb (bool_decide (rest = EmptyString)) then fallback else value.

Definition parse_u16 (s : string) (fallback : Z) : Z :=
  let v := parse_size s fallback in if 65535 <? v then fallback else u16 v.

(** [std::getline] with a comma: no token behind a final comma. *)
Fixpoint tokens_from (acc s : string) : list string :=
  match s with
  | EmptyString => match acc with EmptyString => [] | _ => [acc] end
  | String c s => if bool_decide (c = ","%char) then acc :: tokens_from EmptyString s else tokens_from (acc +:+ String c EmptyString) s
  end.

(** [static_cast<int>]. *)
Definition s32 (n : Z) : Z := let w := u32 n in if w <? 2 ^ 31 then w else w - 2 ^ 32.

Definition parse_cpu (token : string) : option Z :=
  if bool_decide (token = EmptyString) then None
  else
    let '(value, rest) := strtol token in
    if bool_decide (rest = token) || negb (bool_decide (rest = EmptyString)) || (value <? 0) then None else Some (s32 value).

Definition parse_cpu_list (text : string) : option (list Z) := mapM parse_cpu (tokens_from EmptyString text).

(** *** Arguments *)

Inductive OptionResult := NoSuchOption | BadCpuList | OptionSet (c : Config).

(** An option with a value. *)
Definition set_option `{Strtod} (arg v : string) (c : Config) : OptionResult :=
  let '(mkConfig ip port dev ips cpus frags rate drop reord dur arr fpay hb rps pay thr out) := c in
  if bool_decide (arg = "--target-ip") then OptionSet (mkConfig v port dev ips cpus frags rate drop reord dur arr fpay hb rps pay thr out)
  else if bool_decide (arg = "--target-port") then
    OptionSet (mkConfig ip (parse_u16 v port) dev ips cpus frags rate drop reord dur arr fpay hb rps pay thr out)
  else if bool_decide (arg = "--bind-ip") then
    OptionSet (mkConfig ip port dev (ips ++ [v]) cpus frags rate drop reord dur arr fpay hb rps pay thr out)
  else if bool_decide (arg = "--bind-device") then OptionSet (mkConfig ip port v ips cpus frags rate drop reord dur arr fpay hb rps pay thr out)
  else if bool_decide (arg = "--cpu-list") then
    match parse_cpu_list v with
    | None => BadCpuList
    | Some cpus => OptionSet (mkConfig ip port dev ips cpus frags rate drop reord dur arr fpay hb rps pay thr out)
    end
  else if bool_decide (arg = "--cpi-frags") then
    OptionSet (mkConfig ip port dev ips cpus (parse_u16 v frags) rate drop reord dur arr fpay hb rps pay thr out)
  else if bool_decide (arg = "--frame-rate") then
    OptionSet (mkConfig ip port dev ips cpus frags (parse_double v rate) drop reord dur arr fpay hb rps pay thr out)
  else if bool_decide (arg = "--drop-rate") then
    OptionSet (mkConfig ip port dev ips cpus frags rate (parse_double v drop) reord dur arr fpay hb rps pay thr out)
  else if bool_decide (arg = "--reorder-depth") then
    OptionSet (mkConfig ip port dev ips cpus frags rate drop (parse_size v reord) dur arr fpay hb rps pay thr out)
  else if bool_decide (arg = "--duration") then
    OptionSet (mkConfig ip port dev ips cpus frags rate drop reord (parse_double v dur) arr fpay hb rps pay thr out)
  else if bool_decide (arg = "--arrays") then
    OptionSet (mkConfig ip port dev ips cpus frags rate drop reord dur (Z.min 3 (Z.max 1 (parse_size v arr))) fpay hb rps pay thr out)
  else if bool_decide (arg = "--frag-payload") then
    OptionSet (mkConfig ip port dev ips cpus frags rate drop reord dur arr (parse_size v fpay) hb rps pay thr out)
  else if bool_decide (arg = "--heartbeat-ms") then
    OptionSet (mkConfig ip port dev ips cpus frags rate drop reord dur arr fpay (u32 (parse_size v hb)) rps pay thr out)
  else if bool_decide (arg = "--pps") then
    OptionSet (mkConfig ip port dev ips cpus frags rate drop reord dur arr fpay hb (parse_double v rps) pay thr out)
  else if bool_decide (arg = "--payload-bytes") then
    OptionSet (mkConfig ip port dev ips cpus frags rate drop reord dur arr fpay hb rps (parse_size v pay) thr out)
  else if bool_decide (arg = "--threads") then
    OptionSet (mkConfig ip port dev ips cpus frags rate drop reord dur arr fpay hb rps pay (Z.max 1 (parse_size v thr)) out)
  else if bool_decide (arg = "--output") then OptionSet (mkConfig ip port dev ips cpus frags rate drop reord dur arr fpay hb rps pay thr v)
  else NoSuchOption.

(** The exits of [parse_args]: help, an argument that is unknown or lacks its value, a bad list of processors. *)
Inductive Parsed := Accepted (c : Config) | Help | Unknown (arg : string) | InvalidCpuList.

Fixpoint parse_loop `{Strtod} (args : list string) (c : Config) : Parsed :=
  match args with
  | [] => Accepted c
  | arg :: rest =>
    match match rest with v :: rest' => Some (set_option arg v c, rest') | [] => None end, rest with
    | Some (OptionSet c', _), _ :: rest' => parse_loop rest' c'
    | Some (BadCpuList, _), _ => InvalidCpuList
    | _, _ => if bool_decide (arg = "--help") then Help else Unknown arg
    end
  end.

Definition with_output (path : string) (c : Config) : Config :=
  let '(mkConfig ip port dev ips cpus frags rate drop reord dur arr fpay hb rps pay thr _) := c in
  mkConfig ip port dev ips cpus frags rate drop reord dur arr fpay hb rps pay thr path.

Definition parse_args `{Strtod} (args : list string) : Parsed :=
  match parse_loop args Config_default with
  | Accepted c => Accepted (if bool_decide (output_json c = EmptyString) then with_output "fpga_emulator_report.json" c else c)
  | r => r
  end.

(** ** Threads *)

Inductive Event :=
  | SentTo (b : bytes) | SendFailed (b : bytes) | BeatSent (b : bytes) | BeatFailed (b : bytes) | SleptUntil (t : Z) | Closed | Out (s : string) | Err (s : string)
  | Wrote (path s : string).

(** What the random numbers and the wall clock give for one CPI. *)
Record CpiInput := mkCpiInput { data_ts : Z; frag_now : Z -> Z; keep : list bool; places : list nat }.

(** The surroundings of a sending thread. *)
Record ThreadEnv := mkThreadEnv {
  affinity_ok : bool;
  socket_rc : Z * Z;           (* descriptor, errno *)
  device_rc : Z * Z;
  bind_rc : Z * Z;
  inet_pton_ok : string -> bool;
  start_time : Z;              (* of the thread *)
  elapsed : nat -> N;          (* between reads of the steady clock *)
  sendto : nat -> Z;
  cpi_input : nat -> CpiInput;
  packet_now : nat -> Z * Z;   (* wall clock for a single packet or a heartbeat *)
}.

(** A descriptor, or the text of the error; what was closed on the way. *)
Definition create_udp_socket (env : ThreadEnv) (device ip : string) : (Z + string) * list Event :=
  let '(sockfd, errno) := socket_rc env in
  if sockfd <? 0 then (inr ("socket() failed errno=" +:+ decimal errno), [])
  else
    let '(rc, errno) := device_rc env in
    if negb (bool_decide (device = EmptyString)) && negb (rc =? 0)
    then (inr ("SO_BINDTODEVICE(" +:+ device +:+ ") failed errno=" +:+ decimal errno), [Closed])
    else if negb (bool_decide (ip = EmptyString)) then
      if negb (inet_pton_ok env ip) then (inr ("invalid bind-ip: " +:+ ip), [Closed])
      else
        let '(rc, errno) := bind_rc env in
        if negb (rc =? 0) then (inr ("bind(" +:+ ip +:+ ") errno=" +:+ decimal errno), [Closed]) else (inl sockfd, [])
    else (inl sockfd, []).

Definition bind_ip_of (c : Config) (i : nat) : string := default EmptyString (bind_ips c !! i).

(** The processor of a thread, if processors are given. *)
Definition cpu_of (c : Config) (i : nat) : option Z :=
  match cpu_list c with [] => None | l => l !! (i mod length l)%nat end.

Record ArrayStats := mkArrayStats {
  packets_sent : Z;
  bytes_sent : Z;
  cpis_sent : Z;
  heartbeats_sent : Z;
  send_errors : Z;
}.

Definition ArrayStats_init : ArrayStats := mkArrayStats 0 0 0 0 0.

(** ** Durations *)

(** Truncation to a 64-bit integer; undefined when it does not fit. *)
Definition to_i64 (x : Z) : option Z :=
  match of_bits binary64 x with
  | S754_zero _ => Some 0
  | S754_finite s m e =>
    let t := truncate m e in
    let v := if s then - t else t in
    if (- 2 ^ 63 <=? v) && (v <? 2 ^ 63) then Some v else None
  | _ => None
  end.

(** [duration_cast<nanoseconds>(duration<double>(x))]. *)
Definition to_ns (x : Z) : option Z := to_i64 (fmul binary64 x d1e9).

(** [std::max] of two numbers, the first one if they are not ordered. *)
Definition fmax (a b : Z) : Z := if fltb binary64 a b then b else a.

Definition cpi_interval (c : Config) : option Z := to_ns (fdiv binary64 d1 (fmax d01 (frame_rate c))).

Definition pps_interval (c : Config) : option Z :=
  to_ns (fdiv binary64 d1 (fmax d1 (fdiv binary64 (pps c) (of_Z binary64 (threads c))))).

(** ** The sender of an array *)

Record Sender := mkSender {
  time : Z;                (* of the steady clock *)
  reads : nat;             (* of the steady clock *)
  sends : nat;
  rounds : nat;
  beats : nat;
  next_cpi_tick : Z;
  next_heartbeat : Z;
  gen : PacketGenerator;
  stats : ArrayStats;
  trace : list Event;
}.

(** [steady_clock::now()]. *)
Definition now (env : ThreadEnv) (s : Sender) : Sender :=
  let '(mkSender t rd sn ro be nt nh g st tr) := s in
  mkSender (t + Z.of_N (elapsed env rd)) (S rd) sn ro be nt nh g st tr.

(** A packet of a CPI. *)
Definition send_one (env : ThreadEnv) (s : Sender) (pkt : bytes) : Sender :=
  let '(mkSender t rd sn ro be nt nh g (mkArrayStats p b c h e) tr) := s in
  let n := Z.of_nat (length pkt) in
  if sendto env sn =? n
  then mkSender t rd (S sn) ro be nt nh g (mkArrayStats (inc64 p) (b +[64] n) c h e) (tr ++ [SentTo pkt])
  else mkSender t rd (S sn) ro be nt nh g (mkArrayStats p b c h (inc64 e)) (tr ++ [SendFailed pkt]).

Definition send_all (env : ThreadEnv) (pkts : list bytes) (s : Sender) : Sender := foldl (send_one env) s pkts.

Definition gen_config (c : Config) (array_index : nat) : GeneratorConfig :=
  mkGeneratorConfig (u8 (0x11 + Z.of_nat array_index)) 0x01 (cpi_frags c) (frag_payload_bytes c)
    (fltb binary64 d0 (drop_rate c)) (Z.to_nat (reorder_depth c)).

(** The packets of the next CPI, impaired. *)
Definition cpi_packets (gc : GeneratorConfig) (inp : CpiInput) (g : PacketGenerator) : list bytes * PacketGenerator :=
  let '(pkts, g) := make_cpi_packets gc (data_ts inp) (frag_now inp) g in
  (apply_impairments gc (keep inp) (places inp) pkts, g).

(** The heartbeat at the end of a round. *)
Definition heartbeat (c : Config) (gc : GeneratorConfig) (env : ThreadEnv) (s : Sender) : Sender :=
  if 0 <? heartbeat_interval_ms c then
    let '(mkSender t rd sn ro be nt nh g (mkArrayStats p b cp h e) tr) := now env s in
    if nh <=? t then
      let '(hb, g) := make_heartbeat_packet gc (fst (packet_now env be)) g in
      let nh := nh + heartbeat_interval_ms c * 1000000 in
      if sendto env sn =? Z.of_nat (length hb)
      then mkSender t rd (S sn) ro (S be) nt nh g (mkArrayStats p b cp (inc64 h) e) (tr ++ [BeatSent hb])
      else mkSender t rd (S sn) ro (S be) nt nh g (mkArrayStats p b cp h e) (tr ++ [BeatFailed hb])
    else mkSender t rd sn ro be nt nh g (mkArrayStats p b cp h e) tr
  else s.

(** [stats.cpis_sent.fetch_add(1)]. *)
Definition count_cpi (s : Sender) : Sender :=
  let '(mkSender t rd sn ro be nt nh g (mkArrayStats p b cp h e) tr) := s in
  mkSender t rd sn ro be nt nh g (mkArrayStats p b (inc64 cp) h e) tr.

(** A round of the loop: wait, send a CPI, perhaps a heartbeat. *)
Definition cpi_round (c : Config) (gc : GeneratorConfig) (interval : Z) (env : ThreadEnv) (s : Sender) : Sender :=
  let '(mkSender t rd sn ro be nt nh g st tr) := s in
  let '(pkts, g) := cpi_packets gc (cpi_input env ro) g in
  let s := mkSender (Z.max t nt) rd sn (S ro) be (nt + interval) nh g st (tr ++ [SleptUntil nt]) in
  heartbeat c gc env (count_cpi (send_all env pkts s)).

(** The loop, and whether it ended within [fuel] rounds. *)
Fixpoint cpi_loop (fuel : nat) (c : Config) (gc : GeneratorConfig) (interval end_at : Z) (env : ThreadEnv) (s : Sender) : Sender * bool :=
  let s := now env s in
  if time s <? end_at then
    match fuel with
    | O => (s, false)
    | S fuel => cpi_loop fuel c gc interval end_at env (cpi_round c gc interval env s)
    end
  else (s, true).

(** How a thread ends: with its events and statistics, not within its fuel, or undefined. *)
Inductive ThreadEnd := Ended (ev : list Event) (st : ArrayStats) | StillRunning | UndefinedThread.

Definition signed (n : Z) : string := if n <? 0 then "-" +:+ decimal (- n) else decimal n.

Definition affinity_message (i : nat) (cpu : Z) : string :=
  "array " +:+ decimal (Z.of_nat i + 1) +:+ " failed to bind cpu " +:+ signed cpu +:+ nl.

Definition affinity_events (message : nat -> Z -> string) (c : Config) (i : nat) (env : ThreadEnv) : list Event :=
  match cpu_of c i with
  | Some cpu => if affinity_ok env then [] else [Err (message i cpu)]
  | None => []
  end.

Definition sender_start (c : Config) (env : ThreadEnv) : Sender :=
  let t0 := start_time env + Z.of_N (elapsed env 0) in
  let t1 := t0 + Z.of_N (elapsed env 1) in
  mkSender t1 2 0 0 0 t0 (t1 + heartbeat_interval_ms c * 1000000) PacketGenerator_init ArrayStats_init [].

Definition run_array_sender (fuel : nat) (c : Config) (array_index : nat) (end_at : Z) (env : ThreadEnv) : ThreadEnd :=
  let ev := affinity_events affinity_message c array_index env in
  match create_udp_socket env (bind_device c) (bind_ip_of c array_index) with
  | (inr error, closed) => Ended (ev ++ closed ++ [Err ("array " +:+ decimal (Z.of_nat array_index + 1) +:+ " socket error: " +:+ error +:+ nl)]) ArrayStats_init
  | (inl _, _) =>
    if negb (inet_pton_ok env (target_ip c)) then Ended (ev ++ [Err ("invalid --target-ip: " +:+ target_ip c +:+ nl); Closed]) ArrayStats_init
    else
      match cpi_interval c with
      | None => UndefinedThread
      | Some interval =>
        let '(s, finished) := cpi_loop fuel c (gen_config c array_index) interval end_at env (sender_start c env) in
        if finished then Ended (ev ++ trace s ++ [Closed]) (stats s) else StillRunning
      end
  end.

(** ** The sender of single packets *)

Record PpsSender := mkPpsSender {
  p_time : Z;
  p_reads : nat;
  p_sends : nat;
  next_tick : Z;
  p_gen : PacketGenerator;
  sent_ok : Z;
  send_fail : Z;
  p_trace : list Event;
}.

Definition p_now (env : ThreadEnv) (s : PpsSender) : PpsSender :=
  let '(mkPpsSender t rd sn nt g ok fail tr) := s in
  mkPpsSender (t + Z.of_N (elapsed env rd)) (S rd) sn nt g ok fail tr.

(** [None] when the generator writes out of bounds. *)
Definition pps_round (c : Config) (interval : Z) (env : ThreadEnv) (s : PpsSender) : option PpsSender :=
  let '(mkPpsSender t rd sn nt g ok fail tr) := s in
  let '(n1, n2) := packet_now env sn in
  '(pkt, g) ← make_data_packet (single_config (payload_bytes c)) n1 n2 g;
  Some (if sendto env sn =? Z.of_nat (length pkt)
        then mkPpsSender (Z.max t nt) rd (S sn) (nt + interval) g (inc64 ok) fail (tr ++ [SleptUntil nt; SentTo pkt])
        else mkPpsSender (Z.max t nt) rd (S sn) (nt + interval) g ok (inc64 fail) (tr ++ [SleptUntil nt; SendFailed pkt])).

Fixpoint pps_loop (fuel : nat) (c : Config) (interval end_at : Z) (env : ThreadEnv) (s : PpsSender) : option (PpsSender * bool) :=
  let s := p_now env s in
  if p_time s <? end_at then
    match fuel with
    | O => Some (s, false)
    | S fuel => s ← pps_round c interval env s; pps_loop fuel c interval end_at env s
    end
  else Some (s, true).

(** The two counters of a thread are the ones it adds to the shared ones. *)
Definition run_pps_sender (fuel : nat) (c : Config) (thread_idx : nat) (end_at : Z) (env : ThreadEnv) : ThreadEnd :=
  let result ev ok fail := Ended ev (mkArrayStats ok 0 0 0 fail) in
  match (if affinity_ok env then None else cpu_of c thread_idx) with
  | Some cpu => result [Err ("thread " +:+ decimal (Z.of_nat thread_idx) +:+ " failed to bind cpu " +:+ signed cpu +:+ nl)] 0 0
  | None =>
    match create_udp_socket env (bind_device c) (bind_ip_of c thread_idx) with
    | (inr error, closed) => result (closed ++ [Err ("thread " +:+ decimal (Z.of_nat thread_idx) +:+ " socket error: " +:+ error +:+ nl)]) 0 0
    | (inl _, _) =>
      if negb (inet_pton_ok env (target_ip c)) then result [Closed] 0 0
      else
        match pps_interval c with
        | None => UndefinedThread
        | Some interval =>
          let t0 := start_time env + Z.of_N (elapsed env 0) in
          match pps_loop fuel c interval end_at env (mkPpsSender t0 1 0 t0 PacketGenerator_init 0 0 []) with
          | None => UndefinedThread
          | Some (s, false) => StillRunning
          | Some (s, true) => result (p_trace s ++ [Closed]) (sent_ok s) (send_fail s)
          end
        end
    end
  end.

(** ** The report *)

Definition sum64 (f : ArrayStats -> Z) (l : list ArrayStats) : Z := foldl (fun acc s => acc +[64] f s) 0 l.

(** [packets / elapsed] and [bytes * 8.0 / elapsed / 1e6], 0 when no time passed. *)
Definition rate (packets el : Z) : Z := if fltb binary64 d0 el then fdiv binary64 (of_Z binary64 packets) el else d0.
Definition mbps (total el : Z) : Z :=
  if fltb binary64 d0 el then fdiv binary64 (fdiv binary64 (fmul binary64 (of_Z binary64 total) d8) el) d1e6 else d0.

Definition array_entry (a : nat) (s : ArrayStats) : string :=
  "{" +:+ member "array" (decimal (Z.of_nat a + 1)) +:+ "," +:+ " " +:+ member "packets" (decimal (packets_sent s))
  +:+ "," +:+ " " +:+ member "bytes" (decimal (bytes_sent s)) +:+ "," +:+ " " +:+ member "cpis" (decimal (cpis_sent s))
  +:+ "," +:+ " " +:+ member "heartbeats" (decimal (heartbeats_sent s)) +:+ "," +:+ " " +:+ member "errors" (decimal (send_errors s)) +:+ "}".

(** The lines of the arrays from index [a] on. *)
Fixpoint array_lines (a : nat) (l : list ArrayStats) : string :=
  match l with
  | [] => ""
  | s :: l => "    " +:+ array_entry a s +:+ (match l with [] => "" | _ => "," end) +:+ nl +:+ array_lines (S a) l
  end.

Definition cpi_report (c : Config) (el : Z) (l : list ArrayStats) : string :=
  let total_packets := sum64 packets_sent l in
  let total_bytes := sum64 bytes_sent l in
  "{" +:+ nl
  +:+ "  " +:+ member "tool" (quote +:+ "fpga_emulator" +:+ quote) +:+ "," +:+ nl
  +:+ "  " +:+ member "mode" (quote +:+ "cpi" +:+ quote) +:+ "," +:+ nl
  +:+ "  " +:+ member "target_ip" (quote +:+ target_ip c +:+ quote) +:+ "," +:+ nl
  +:+ "  " +:+ member "target_port" (decimal (target_port c)) +:+ "," +:+ nl
  +:+ "  " +:+ member "arrays" (decimal (arrays c)) +:+ "," +:+ nl
  +:+ "  " +:+ member "cpi_frags" (decimal (cpi_frags c)) +:+ "," +:+ nl
  +:+ "  " +:+ member "frame_rate_hz" (fixed_at 2 (frame_rate c)) +:+ "," +:+ nl
  +:+ "  " +:+ member "drop_rate" (fixed_at 4 (drop_rate c)) +:+ "," +:+ nl
  +:+ "  " +:+ member "reorder_depth" (decimal (reorder_depth c)) +:+ "," +:+ nl
  +:+ "  " +:+ member "duration_sec" (fixed_at 2 el) +:+ "," +:+ nl
  +:+ "  " +:+ member "total_packets" (decimal total_packets) +:+ "," +:+ nl
  +:+ "  " +:+ member "total_bytes" (decimal total_bytes) +:+ "," +:+ nl
  +:+ "  " +:+ member "total_cpis" (decimal (sum64 cpis_sent l)) +:+ "," +:+ nl
  +:+ "  " +:+ member "total_heartbeats" (decimal (sum64 heartbeats_sent l)) +:+ "," +:+ nl
  +:+ "  " +:+ member "send_errors" (decimal (sum64 send_errors l)) +:+ "," +:+ nl
  +:+ "  " +:+ member "actual_pps" (fixed_at 2 (rate total_packets el)) +:+ "," +:+ nl
  +:+ "  " +:+ member "throughput_mbps" (fixed_at 2 (mbps total_bytes el)) +:+ "," +:+ nl
  +:+ "  " +:+ member "per_array" ("[" +:+ nl +:+ array_lines 0 l +:+ "  ]") +:+ nl
  +:+ "}" +:+ nl.

(** The numbers in front of [std::fixed] have the general format. *)
Definition pps_report (c : Config) (actual_pps sent failed : Z) : string :=
  "{" +:+ nl
  +:+ "  " +:+ member "tool" (quote +:+ "fpga_emulator" +:+ quote) +:+ "," +:+ nl
  +:+ "  " +:+ member "mode" (quote +:+ "pps" +:+ quote) +:+ "," +:+ nl
  +:+ "  " +:+ member "target_ip" (quote +:+ target_ip c +:+ quote) +:+ "," +:+ nl
  +:+ "  " +:+ member "target_port" (decimal (target_port c)) +:+ "," +:+ nl
  +:+ "  " +:+ member "target_pps" (general (pps c)) +:+ "," +:+ nl
  +:+ "  " +:+ member "actual_pps" (fixed_at 2 actual_pps) +:+ "," +:+ nl
  +:+ "  " +:+ member "duration_sec" (fixed_at 2 (duration_sec c)) +:+ "," +:+ nl
  +:+ "  " +:+ member "payload_bytes" (decimal (payload_bytes c)) +:+ "," +:+ nl
  +:+ "  " +:+ member "threads" (decimal (threads c)) +:+ "," +:+ nl
  +:+ "  " +:+ member "sent_packets" (decimal sent) +:+ "," +:+ nl
  +:+ "  " +:+ member "failed_packets" (decimal failed) +:+ nl
  +:+ "}" +:+ nl.

(** ** The program *)

(** The steady clock at the start and when all threads have been joined, the threads, and how the
    report file behaves: whether it opens, and whether the text is written. *)
Record MainEnv := mkMainEnv {
  started : Z;
  finished : Z;
  thread_env : nat -> ThreadEnv;
  file_opens : bool;
  file_good : bool;
}.

(** The exit code, the events in front of the threads, of each thread, and behind them. *)
Inductive Outcome := Exit (code : Z) (before : list Event) (threads : list (list Event)) (after : list Event) | Running | Undefined.

(** All threads, in the order of their indices; the events of different threads interleave. *)
Fixpoint join (ends : list ThreadEnd) : Outcome + (list (list Event) * list ArrayStats) :=
  match ends with
  | [] => inr ([], [])
  | Ended ev st :: ends =>
    match join ends with inr (evs, sts) => inr (ev :: evs, st :: sts) | inl o => inl o end
  | StillRunning :: ends => match join ends with inl Undefined => inl Undefined | _ => inl Running end
  | UndefinedThread :: _ => inl Undefined
  end.

(** The report printed, written, and its path printed; the code is [ok_code] unless writing fails. *)
Definition finish (c : Config) (env : MainEnv) (text : string) (ok_code : Z) : Z * list Event :=
  let written := if file_opens env then [Wrote (output_json c) text] else [] in
  if file_opens env && file_good env
  then (ok_code, Out text :: written ++ [Out ("report_path=" +:+ output_json c +:+ nl)])
  else (1, Out text :: written ++ [Err ("failed to write report: " +:+ output_json c +:+ nl)]).

Definition elapsed_seconds (env : MainEnv) : Z := fdiv binary64 (of_Z binary64 (finished env - started env)) d1e9.

Definition cpi_banner (c : Config) : string :=
  "[fpga_emulator] CPI mode: arrays=" +:+ decimal (arrays c) +:+ " cpi_frags=" +:+ decimal (cpi_frags c)
  +:+ " frame_rate=" +:+ general (frame_rate c) +:+ "Hz" +:+ " duration=" +:+ general (duration_sec c) +:+ "s"
  +:+ " drop_rate=" +:+ general (drop_rate c) +:+ " reorder_depth=" +:+ decimal (reorder_depth c)
  +:+ " heartbeat_ms=" +:+ decimal (heartbeat_interval_ms c) +:+ nl.

Definition pps_banner (c : Config) : string :=
  "[fpga_emulator] Legacy PPS mode: pps=" +:+ general (pps c) +:+ " threads=" +:+ decimal (threads c)
  +:+ " duration=" +:+ general (duration_sec c) +:+ "s" +:+ nl.

(** The end of the run; undefined when the duration or the sum leaves its type. *)
Definition end_at (c : Config) (env : MainEnv) : option Z :=
  d ← to_ns (duration_sec c);
  if (started env + d <? 2 ^ 63) && (- 2 ^ 63 <=? started env + d) then Some (started env + d) else None.

Definition cpi_mode (fuel : nat) (c : Config) (env : MainEnv) (stop : Z) : Outcome :=
  match join ((fun a => run_array_sender fuel c a stop (thread_env env a)) <$> seq 0 (Z.to_nat (arrays c))) with
  | inl o => o
  | inr (evs, sts) =>
    let text := cpi_report c (elapsed_seconds env) sts in
    let '(code, after) := finish c env text (if 0 <? sum64 send_errors sts then 1 else 0) in
    Exit code [Out (cpi_banner c)] evs after
  end.

Definition pps_mode (fuel : nat) (c : Config) (env : MainEnv) (stop : Z) : Outcome :=
  match join ((fun t => run_pps_sender fuel c t stop (thread_env env t)) <$> seq 0 (Z.to_nat (threads c))) with
  | inl o => o
  | inr (evs, sts) =>
    let sent := sum64 packets_sent sts in
    let failed := sum64 send_errors sts in
    let text := pps_report c (rate sent (elapsed_seconds env)) sent failed in
    let '(code, after) := finish c env text (if 0 <? failed then 1 else 0) in
    Exit code [Out (pps_banner c)] evs after
  end.

Definition usage (argv0 : string) : string :=
  "Usage: " +:+ argv0 +:+ " [OPTIONS]" +:+ nl +:+ nl
  +:+ "CPI mode (default):" +:+ nl
  +:+ "  --cpi-frags <N>       Fragments per CPI (default: 128)" +:+ nl
  +:+ "  --frame-rate <Hz>     CPI frame rate per array (default: 20)" +:+ nl
  +:+ "  --drop-rate <float>   Drop probability 0.0~1.0 (default: 0.0)" +:+ nl
  +:+ "  --reorder-depth <N>   Reorder injection depth (default: 0)" +:+ nl
  +:+ "  --duration <sec>      Send duration (default: 60)" +:+ nl
  +:+ "  --arrays <1|2|3>      Number of array faces (default: 3)" +:+ nl
  +:+ "  --frag-payload <N>    Raw payload bytes per fragment (default: 1400)" +:+ nl
  +:+ "  --heartbeat-ms <N>    Heartbeat interval ms (default: 1000, 0=off)" +:+ nl
  +:+ nl +:+ "Legacy PPS mode:" +:+ nl
  +:+ "  --pps <rate>          Enable legacy PPS mode" +:+ nl
  +:+ "  --payload-bytes <N>   Legacy payload size (default: 256)" +:+ nl
  +:+ "  --threads <N>         Legacy sender threads (default: 1)" +:+ nl
  +:+ nl +:+ "Common:" +:+ nl
  +:+ "  --target-ip <ip>      Target IP (default: 127.0.0.1)" +:+ nl
  +:+ "  --target-port <port>  Target port (default: 9999)" +:+ nl
  +:+ "  --bind-ip <ip>        Source IP (repeatable for multi-array)" +:+ nl
  +:+ "  --bind-device <if>    Bind to network device" +:+ nl
  +:+ "  --cpu-list <c0,c1..>  CPU affinity list" +:+ nl
  +:+ "  --output <path>       JSON report output" +:+ nl
  +:+ "  --help                Show this message" +:+ nl.

Definition main `{Strtod} (fuel : nat) (argv0 : string) (args : list string) (env : MainEnv) : Outcome :=
  match parse_args args with
  | Help => Exit 0 [Out (usage argv0)] [] []
  | Unknown arg => Exit 2 [Err ("unknown argument: " +:+ arg +:+ nl); Out (usage argv0)] [] []
  | InvalidCpuList => Exit 2 [Err ("invalid --cpu-list" +:+ nl); Out (usage argv0)] [] []
  | Accepted c =>
    match end_at c env with
    | None => Undefined
    | Some stop => if fleb binary64 (pps c) d0 then cpi_mode fuel c env stop else pps_mode fuel c env stop
    end
  end.

(** ** Lemmas: the loop of an array *)

Definition sent (ev : list Event) : list bytes := omap (fun e => match e with SentTo b => Some b | _ => None end) ev.
Definition failed (ev : list Event) : list bytes := omap (fun e => match e with SendFailed b => Some b | _ => None end) ev.
Definition beats_of (ev : list Event) : list bytes := omap (fun e => match e with BeatSent b => Some b | _ => None end) ev.
Definition volume (l : list bytes) : Z := sumZ ((fun b => Z.of_nat (length b)) <$> l).

(** The counters are those of the events, with [k] CPIs. *)
Definition tally (k : nat) (ev : list Event) : ArrayStats :=
  mkArrayStats (u64 (Z.of_nat (length (sent ev)))) (u64 (volume (sent ev))) (u64 (Z.of_nat k))
    (u64 (Z.of_nat (length (beats_of ev)))) (u64 (Z.of_nat (length (failed ev)))).

(** The packets of the CPIs that were sent or failed. *)
Definition attempts (ev : list Event) : nat := (length (sent ev) + length (failed ev))%nat.

Lemma inc64_count {A} (l : list A) (x : A) : inc64 (u64 (Z.of_nat (length l))) = u64 (Z.of_nat (length (l ++ [x]))).
Proof. unfold inc64. rewrite wrap_add_l, length_app by lia. f_equal. cbn. lia. Qed.

Lemma volume_snoc l b : u64 (volume l) +[64] Z.of_nat (length b) = u64 (volume (l ++ [b])).
Proof. unfold volume. rewrite wrap_add_l, fmap_app, sumZ_app by lia. f_equal. cbn. lia. Qed.

(** What sending a packet leaves as it was, and what it counts. *)
Lemma send_one_spec env pkt s k : stats s = tally k (trace s) ->
  let s' := send_one env s pkt in
  stats s' = tally k (trace s') /\
  time s' = time s /\ rounds s' = rounds s /\ next_cpi_tick s' = next_cpi_tick s /\ attempts (trace s') = S (attempts (trace s)).
Proof.
  destruct s as [t rd sn ro be nt nh g st tr]. cbn [stats trace]. intros ->. unfold send_one, attempts, tally, sent, failed, beats_of.
  destruct (sendto env sn =? _); cbn [stats time rounds next_cpi_tick trace]; rewrite !omap_app; cbn [omap list_omap]; rewrite ?app_nil_r.
  - split; [by rewrite (inc64_count _ pkt), volume_snoc|]. rewrite length_app. cbn [length]. split_and!; try done. lia.
  - split; [by rewrite (inc64_count _ pkt)|]. rewrite length_app. cbn [length]. split_and!; try done. lia.
Qed.

Lemma send_all_spec env pkts : forall s k, stats s = tally k (trace s) ->
  let s' := send_all env pkts s in
  stats s' = tally k (trace s') /\
  time s' = time s /\ rounds s' = rounds s /\ next_cpi_tick s' = next_cpi_tick s /\
  attempts (trace s') = (attempts (trace s) + length pkts)%nat.
Proof.
  unfold send_all. induction pkts as [|pkt pkts IH]; intros s k Hc; cbn [foldl length]; cbv zeta; [by split_and!|].
  pose proof (send_one_spec env pkt s k Hc) as H1. cbv zeta in H1. destruct H1 as (Hst & Ht & Hr & Hn & Ha). destruct (IH (send_one env s pkt) k Hst) as (H1 & H2 & H3 & H4 & H5).
  split_and!; [exact H1|by rewrite H2|by rewrite H3|by rewrite H4|rewrite H5, Ha; lia].
Qed.

(** The heartbeat. *)
Lemma heartbeat_spec c gc env s k : stats s = tally k (trace s) ->
  let s' := heartbeat c gc env s in
  stats s' = tally k (trace s') /\ time s <= time s' /\ rounds s' = rounds s /\ next_cpi_tick s' = next_cpi_tick s /\
  attempts (trace s') = attempts (trace s).
Proof.
  intros Hc. unfold heartbeat. destruct (0 <? heartbeat_interval_ms c); [|cbv zeta; by split_and!].
  destruct s as [t rd sn ro be nt nh g st tr]. cbn [stats trace] in Hc. subst st. unfold tally. cbn [now].
  set (t' := t + _). assert (Ht : t <= t') by (unfold t'; lia). destruct (nh <=? t').
  2: { cbn [stats time rounds next_cpi_tick trace]. by split_and!. }
  destruct (make_heartbeat_packet gc _ g) as [hb g']. unfold attempts, sent, failed, beats_of.
  destruct (sendto env sn =? _); cbn [stats time rounds next_cpi_tick trace]; rewrite !omap_app; cbn [omap list_omap]; rewrite ?app_nil_r.
  - split_and!; try done. by rewrite (inc64_count _ hb).
  - by split_and!.
Qed.

(** A round. *)
Lemma cpi_round_spec c gc iv env s :
  stats s = tally (rounds s) (trace s) ->
  let s' := cpi_round c gc iv env s in
  stats s' = tally (rounds s') (trace s') /\ Z.max (time s) (next_cpi_tick s) <= time s' /\ rounds s' = S (rounds s) /\
  next_cpi_tick s' = next_cpi_tick s + iv /\
  attempts (trace s') = (attempts (trace s) + length (cpi_packets gc (cpi_input env (rounds s)) (gen s)).1)%nat.
Proof.
  intros Hc. destruct s as [t rd sn ro be nt nh g st tr]. cbn [stats rounds trace time next_cpi_tick gen] in *. subst st.
  unfold cpi_round. destruct (cpi_packets gc (cpi_input env ro) g) as [pkts g']. cbn [fst].
  set (s0 := mkSender _ _ _ _ _ _ _ _ _ _).
  assert (Hsl : forall f : Event -> option bytes, f (SleptUntil nt) = None -> omap f (tr ++ [SleptUntil nt]) = omap f tr).
  { intros f Hf. rewrite omap_app. cbn. rewrite Hf. by rewrite app_nil_r. }
  assert (H0 : stats s0 = tally ro (trace s0)) by (unfold s0, tally, sent, failed, beats_of; cbn [stats trace]; by rewrite !Hsl).
  assert (Ha0 : attempts (trace s0) = attempts tr) by (unfold s0, attempts, sent, failed; cbn [trace]; by rewrite !Hsl).
  pose proof (send_all_spec env pkts s0 ro H0) as (H1 & H2 & H3 & H4 & H5). cbv zeta in *.
  set (s1 := send_all env pkts s0) in *.
  assert (Hc1 : stats (count_cpi s1) = tally (S ro) (trace (count_cpi s1)) /\ time (count_cpi s1) = time s1 /\ rounds (count_cpi s1) = rounds s1 /\
    next_cpi_tick (count_cpi s1) = next_cpi_tick s1 /\ trace (count_cpi s1) = trace s1).
  { destruct s1 as [t1 rd1 sn1 ro1 be1 nt1 nh1 g1 st1 tr1]. cbn [stats trace] in H1. subst st1. unfold tally.
    cbn [count_cpi stats trace time rounds next_cpi_tick]. split_and!; try done. f_equal. unfold inc64. rewrite wrap_add_l by lia. f_equal. lia. }
  destruct Hc1 as (C1 & C2 & C3 & C4 & C5).
  pose proof (heartbeat_spec c gc env (count_cpi s1) (S ro) C1) as (G1 & G2 & G3 & G4 & G5). cbv zeta in *.
  unfold s0 in H2, H3, H4. cbn [time rounds next_cpi_tick] in H2, H3, H4.
  rewrite G3, C3, H3. split_and!; [exact G1|lia|done|by rewrite G4, C4, H4|by rewrite G5, C5, H5, Ha0].
Qed.

(** The packets of a CPI: all fragments, or fewer when some are dropped. *)
Lemma length_make_fragments gc fc cc ts nw idxs : forall g, length (make_fragments gc fc cc ts nw idxs g).1 = length idxs.
Proof.
  induction idxs as [|i idxs IH]; intros g; cbn [make_fragments]; [done|].
  destruct (make_fragment gc fc cc ts (nw i) i g) as [pkt g1]. specialize (IH g1).
  destruct (make_fragments gc fc cc ts nw idxs g1). cbn in *. by rewrite IH.
Qed.

Lemma length_shuffle {A} js : forall i (l : list A), length (shuffle js i l) = length l.
Proof. induction js as [|j js IH]; intros i l; cbn [shuffle]; [done|]. rewrite IH. destruct (i =? j)%nat; [done|apply length_swap]. Qed.

Lemma length_cpi_packets gc inp g :
  let n := length (cpi_packets gc inp g).1 in
  (n <= Z.to_nat (Emulator.cpi_frags gc))%nat /\ (drops gc = false -> n = Z.to_nat (Emulator.cpi_frags gc)).
Proof.
  unfold cpi_packets, make_cpi_packets. destruct g as [sq fc cc hb].
  pose proof (length_make_fragments gc fc cc (data_ts inp) (frag_now inp) (seqZ 0 (Emulator.cpi_frags gc)) (mkPacketGenerator sq (fc +[32] 1) (cc +[32] 1) hb)) as Hl.
  destruct (make_fragments _ _ _ _ _ _ _) as [pkts [? ? ? ?]]. cbn [fst] in *. rewrite length_seqZ in Hl. unfold apply_impairments.
  set (kept := if drops gc then keep_some (keep inp) pkts else pkts).
  assert (Hk : (length kept <= length pkts)%nat /\ (drops gc = false -> length kept = length pkts)).
  { unfold kept. destruct (drops gc); [|done]. split; [apply sublist_length, keep_some_sublist|done]. }
  destruct (_ && _); rewrite ?length_shuffle; cbv zeta; rewrite <-Hl; exact Hk.
Qed.

(** What holds between the rounds: the counters are exact, no CPI is early, no more packets than fragments, all of
    them if none is dropped; every round but the first two began before the end. *)
Record paced (gc : GeneratorConfig) (iv stop t0 : Z) (s : Sender) : Prop := {
  pc_stats : stats s = tally (rounds s) (trace s);
  pc_tick : next_cpi_tick s = t0 + Z.of_nat (rounds s) * iv;
  pc_time : rounds s = 0%nat \/ t0 + (Z.of_nat (rounds s) - 1) * iv <= time s;
  pc_rounds : (rounds s <= 1)%nat \/ (Z.of_nat (rounds s) - 2) * iv < stop - t0;
  pc_attempts : (attempts (trace s) <= rounds s * Z.to_nat (Emulator.cpi_frags gc))%nat;
  pc_all : drops gc = false -> attempts (trace s) = (rounds s * Z.to_nat (Emulator.cpi_frags gc))%nat;
}.

Lemma now_paced gc iv stop t0 env s : paced gc iv stop t0 s -> paced gc iv stop t0 (now env s).
Proof. destruct s. intros []. split; cbn in *; try done. lia. Qed.

Lemma now_rounds env s : rounds (now env s) = rounds s.
Proof. by destruct s. Qed.

Lemma cpi_loop_spec c gc iv stop t0 env fuel : 0 < iv -> forall s, paced gc iv stop t0 s ->
  let '(s', fin) := cpi_loop fuel c gc iv stop env s in
  paced gc iv stop t0 s' /\ (fin = false -> rounds s' = (rounds s + fuel)%nat /\ time s' < stop).
Proof.
  intros Hiv. induction fuel as [|fuel IH]; intros s Hs; cbn [cpi_loop]; apply (now_paced _ _ _ _ env) in Hs;
    rewrite <-(now_rounds env s); set (s1 := now env s) in *; destruct (Z.ltb_spec (time s1) stop) as [Hlt|Hge].
  - cbn. split; [exact Hs|]. intros _. split; [lia|exact Hlt].
  - cbn. by split.
  - destruct Hs as [H1 H2 H3 H4 H5 H6]. pose proof (cpi_round_spec c gc iv env s1 H1) as (R1 & R2 & R3 & R4 & R5). cbv zeta in *.
    pose proof (length_cpi_packets gc (cpi_input env (rounds s1)) (gen s1)) as [L1 L2]. cbv zeta in *.
    specialize (IH (cpi_round c gc iv env s1)).
    assert (Hp : paced gc iv stop t0 (cpi_round c gc iv env s1)).
    { split; [exact R1|rewrite R4, R3, H2; lia|right; rewrite R3; lia| |rewrite R5, R3; lia|intros Hd; rewrite R5, R3, L2, H6 by done; lia].
      rewrite R3. destruct H3 as [->|H3]; [by left|right; lia]. }
    specialize (IH Hp). destruct (cpi_loop _ _ _ _ _ _ _) as [s' fin]. destruct IH as [IH1 IH2]. split; [done|].
    intros Hf. destruct (IH2 Hf) as [E1 E2]. split; [rewrite E1, R3; lia|done].
  - cbn. by split.
Qed.

(** Enough fuel ends the loop. *)
Lemma cpi_loop_ends c gc iv stop t0 env fuel s :
  0 < iv -> paced gc iv stop t0 s -> rounds s = 0%nat -> stop - t0 <= (Z.of_nat fuel - 1) * iv -> (0 < fuel)%nat ->
  (cpi_loop fuel c gc iv stop env s).2 = true.
Proof.
  intros Hiv Hs H0 Hf Hpos. pose proof (cpi_loop_spec c gc iv stop t0 env fuel Hiv s Hs) as H.
  destruct (cpi_loop fuel c gc iv stop env s) as [s' [|]]; [done|]. destruct H as [Hp Hr]. destruct (Hr eq_refl) as [E Hlt].
  destruct Hp as [_ _ Ht _ _ _]. rewrite E, H0 in Ht. cbn [Nat.add] in Ht. lia.
Qed.

Lemma sender_start_paced c gc iv stop env : paced gc iv stop (start_time env + Z.of_N (elapsed env 0)) (sender_start c env).
Proof. unfold sender_start. split; cbn; try done; try lia; by left. Qed.

(** ** Lemmas: the report *)

Import FloatLaws.

#[local] Opaque pow2.

Definition at_leastb (C x : Z) : bool :=
  match of_bits binary64 x with S754_finite _ m e => C <=? units (Z.pos m) e | _ => false end.

Lemma at_leastb_ok C x : at_leastb C x = true -> at_least C (of_bits binary64 x).
Proof. unfold at_leastb, at_least. destruct (of_bits binary64 x); try done. apply Z.leb_le. Qed.

Lemma of_Z_pow2 n k : 0 <= n <= 2 ^ k -> 0 <= k <= 900 -> double_within (pow2 k) (of_Z binary64 n).
Proof.
  intros Hn Hk. apply of_Z_within; [apply pow2_bound; lia|]. rewrite Z.abs_eq by lia.
  apply (units_pow2 n 0 k); [unfold K; lia|lia|lia].
Qed.

(** The seconds between two reads of the clock, when positive. *)
Lemma seconds_bounds n : 0 < n < 2 ^ 63 ->
  let el := fdiv binary64 (of_Z binary64 n) d1e9 in
  double_within (pow2 63) el /\ at_least (pow2 (-30)) (of_bits binary64 el).
Proof.
  intros Hn. assert (Hz : double_within (pow2 63) (of_Z binary64 n)) by (apply of_Z_pow2; lia).
  assert (Hc : at_least (pow2 0) (of_bits binary64 d1e9)) by (apply at_leastb_ok; vm_compute; reflexivity).
  assert (Hd : double_within (pow2 30) d1e9) by (vm_compute; discriminate).
  assert (HAC : pow2 63 * 2 ^ K <= pow2 63 * pow2 0) by (rewrite pow2_mul by (unfold K; lia); apply Z.le_refl).
  assert (H0 : 0 < pow2 0) by (vm_compute; reflexivity).
  cbv zeta. split; [exact (fdiv_within (pow2 63) (pow2 0) (pow2 63) _ _ (pow2_bound 63 ltac:(lia)) Hz Hc H0 HAC)|].
  apply (fdiv_at_least (pow2 63) (pow2 63) (pow2 0) (pow2 30) (pow2 0)); [apply pow2_bound; lia|exact Hz|exact Hc|exact Hd|exact H0|exact HAC|apply pow2_lower; lia| |apply pow2_nonneg|].
  - apply of_Z_at_least. split; [lia|]. eapply Z.lt_trans; [exact (proj2 Hn)|]. by apply Z.pow_lt_mono_r.
  - rewrite pow2_mul by (unfold K; lia). apply Z.le_refl.
Qed.

Lemma elapsed_zero : fltb binary64 d0 (fdiv binary64 (of_Z binary64 0) d1e9) = false /\ finite (fdiv binary64 (of_Z binary64 0) d1e9) = true.
Proof. split; vm_compute; reflexivity. Qed.

Lemma rates_finite n total : 0 <= n < 2 ^ 63 -> 0 <= total < 2 ^ 64 ->
  let el := fdiv binary64 (of_Z binary64 n) d1e9 in
  finite el = true /\ finite (rate total el) = true /\ finite (mbps total el) = true.
Proof.
  intros Hn Ht el. unfold rate, mbps. destruct (decide (n = 0)) as [->|Hne].
  { destruct elapsed_zero as [E1 E2]. unfold el. rewrite E1. by split_and!. }
  destruct (seconds_bounds n) as [Hw Hl]; [lia|]. fold el in Hw, Hl. split; [by eapply within_finite|].
  assert (Hz : double_within (pow2 64) (of_Z binary64 total)) by (apply of_Z_pow2; lia).
  destruct (fltb binary64 d0 el); [|done]. split.
  - eapply within_finite. apply (fdiv_pow2 64 (-30)); [lia|unfold K; lia|unfold K; lia|done|done].
  - eapply within_finite. apply (fdiv_pow2 97 0); [lia|unfold K; lia|unfold K; lia| |apply at_leastb_ok; vm_compute; reflexivity].
    apply (fdiv_pow2 67 (-30)); [lia|unfold K; lia|unfold K; lia| |done].
    apply (fmul_pow2 64 3); [lia|unfold K; lia|unfold K; lia|done|]. vm_compute. discriminate.
Qed.

Lemma sum64_range f l : 0 <= sum64 f l < 2 ^ 64.
Proof.
  unfold sum64. assert (H : forall acc, 0 <= acc < 2 ^ 64 -> 0 <= foldl (fun acc s => acc +[64] f s) acc l < 2 ^ 64).
  { induction l as [|s l IH]; intros acc Ha; cbn [foldl]; [done|]. apply IH. apply (wrap_range 64). lia. }
  by apply H.
Qed.

(** The report as a JSON value. *)
Definition array_tree (a : nat) (s : ArrayStats) : value :=
  JObj [("array", JNum (decimal (Z.of_nat a + 1))); ("packets", JNum (decimal (packets_sent s))); ("bytes", JNum (decimal (bytes_sent s)));
        ("cpis", JNum (decimal (cpis_sent s))); ("heartbeats", JNum (decimal (heartbeats_sent s))); ("errors", JNum (decimal (send_errors s)))].

Fixpoint array_trees (a : nat) (l : list ArrayStats) : list value :=
  match l with [] => [] | s :: l => array_tree a s :: array_trees (S a) l end.

Definition cpi_tree (c : Config) (el : Z) (l : list ArrayStats) : value :=
  let total_packets := sum64 packets_sent l in
  let total_bytes := sum64 bytes_sent l in
  JObj [("tool", JStr "fpga_emulator"); ("mode", JStr "cpi"); ("target_ip", JStr (target_ip c)); ("target_port", JNum (decimal (target_port c)));
        ("arrays", JNum (decimal (arrays c))); ("cpi_frags", JNum (decimal (cpi_frags c))); ("frame_rate_hz", JNum (fixed_at 2 (frame_rate c)));
        ("drop_rate", JNum (fixed_at 4 (drop_rate c))); ("reorder_depth", JNum (decimal (reorder_depth c)));
        ("duration_sec", JNum (fixed_at 2 el)); ("total_packets", JNum (decimal total_packets)); ("total_bytes", JNum (decimal total_bytes));
        ("total_cpis", JNum (decimal (sum64 cpis_sent l))); ("total_heartbeats", JNum (decimal (sum64 heartbeats_sent l)));
        ("send_errors", JNum (decimal (sum64 send_errors l))); ("actual_pps", JNum (fixed_at 2 (rate total_packets el)));
        ("throughput_mbps", JNum (fixed_at 2 (mbps total_bytes el))); ("per_array", JArr (array_trees 0 l))].

Lemma array_entry_text a s : text_of (array_tree a s) (array_entry a s).
Proof.
  apply closes_text. apply (closes_inline ""); [done|by apply literal_plain|apply text_decimal|].
  do 4 (apply closes_inline; [done|by apply literal_plain|apply text_decimal|]).
  by apply (closes_inline_last " "); [|apply literal_plain|apply text_decimal].
Qed.

Lemma array_lines_end l : l <> [] -> forall a, ends (array_trees a l) (nl +:+ array_lines a l +:+ "  ]") EmptyString.
Proof.
  intros Hne. induction l as [|s l IH]; intros a; [done|]. cbn [array_lines array_trees]. rewrite !append_assoc. destruct l as [|s' l].
  - change ("" +:+ ?x) with x. cbn [array_lines array_trees]. change ("" +:+ ?x) with x.
    apply (ends_last "    " "  "); [done|done|apply array_entry_text].
  - apply (ends_cons "    "); [done|apply array_entry_text|by apply IH].
Qed.

Ltac report_line := apply closes_cons; [done|by apply literal_plain|first [apply text_decimal|by apply text_fixed|by constructor; apply literal_plain]|].

Lemma cpi_report_read c n l :
  chars_in Json.plain_char (target_ip c) = true -> finite (frame_rate c) = true -> finite (drop_rate c) = true -> 0 <= n < 2 ^ 63 -> l <> [] ->
  let el := fdiv binary64 (of_Z binary64 n) d1e9 in
  read_json (cpi_report c el l) = Some (cpi_tree c el l).
Proof.
  intros Hip Hf Hd Hn Hl el.
  destruct (rates_finite n (sum64 packets_sent l) Hn (sum64_range _ _)) as (He & Hr & _).
  destruct (rates_finite n (sum64 bytes_sent l) Hn (sum64_range _ _)) as (_ & _ & Hm). fold el in He, Hr, Hm. clearbody el.
  unfold cpi_report, cpi_tree. apply closes_read. do 17 report_line.
  apply (closes_last "  " ""); [done|done|by apply literal_plain|]. apply ends_text. by apply array_lines_end.
Qed.

(** ** Lemmas: the threads *)

(** The thread has a socket and a target. *)
Definition connected (c : Config) (a : nat) (env : ThreadEnv) : Prop :=
  inet_pton_ok env (target_ip c) = true /\ exists fd, (create_udp_socket env (bind_device c) (bind_ip_of c a)).1 = inl fd.

(** What an array has sent in [k] CPIs: its statistics are exact, every CPI has at most all its fragments, and
    all of them if none is dropped; no more CPIs than the rate allows; none without a socket; the socket is closed. *)
Record array_ok (c : Config) (iv stop : Z) (a : nat) (env : ThreadEnv) (k : nat) (ev : list Event) (st : ArrayStats) : Prop := {
  ao_stats : st = tally k ev;
  ao_attempts : (attempts ev <= k * Z.to_nat (cpi_frags c))%nat;
  ao_all : fltb binary64 d0 (drop_rate c) = false -> attempts ev = (k * Z.to_nat (cpi_frags c))%nat;
  ao_rate : (k <= 1)%nat \/ (Z.of_nat k - 2) * iv < stop - start_time env;
  ao_silent : ~ connected c a env -> k = 0%nat /\ beats_of ev = [];
  ao_closed : connected c a env -> last ev = Some Closed;
}.

(** Events that are no datagrams. *)
Lemma quiet_app (f : Event -> option bytes) l l' : (forall e, e ∈ l' -> f e = None) -> omap f (l ++ l') = omap f l.
Proof.
  intros H. rewrite omap_app. replace (omap f l') with (@nil bytes); [by rewrite app_nil_r|].
  induction l' as [|e l' IH]; [done|]. cbn. rewrite H by left. apply IH. intros e' He'. apply H. by right.
Qed.

Lemma quiet_list (f : Event -> option bytes) l : (forall e, e ∈ l -> f e = None) -> omap f l = [].
Proof. intros H. exact (quiet_app f [] l H). Qed.

(** Only messages and the closing of the socket. *)
Definition message (e : Event) : Prop := e = Closed \/ exists s, e = Err s.

Lemma tally_messages pre k ev post : Forall message pre -> Forall message post -> tally k (pre ++ ev ++ post) = tally k ev /\
  attempts (pre ++ ev ++ post) = attempts ev /\ beats_of (pre ++ ev ++ post) = beats_of ev.
Proof.
  intros Hpre Hpost. rewrite !Forall_forall in *.
  assert (H : forall f : Event -> option bytes, f Closed = None -> (forall s, f (Err s) = None) -> omap f (pre ++ ev ++ post) = omap f ev).
  { intros f H1 H2. rewrite omap_app, quiet_list, quiet_app; [done|..]; intros e He.
    - by destruct (Hpost e He) as [->|[s ->]].
    - by destruct (Hpre e He) as [->|[s ->]]. }
  unfold tally, attempts, sent, failed, beats_of. by rewrite !H.
Qed.

Lemma affinity_messages c a env : Forall message (affinity_events affinity_message c a env).
Proof.
  unfold affinity_events. destruct (cpu_of c a); [|constructor]. destruct (affinity_ok env); [constructor|].
  constructor; [|constructor]. right. by eexists.
Qed.

Lemma create_messages env dev ip : Forall message (create_udp_socket env dev ip).2.
Proof.
  unfold create_udp_socket. repeat case_match; cbn; try (by constructor); (constructor; [by left|constructor]).
Qed.

(** A thread that cannot send. *)
Lemma silent_array c iv stop a env ev :
  Forall message ev -> ~ connected c a env -> array_ok c iv stop a env 0 ev ArrayStats_init.
Proof.
  intros Hm Hn. destruct (tally_messages [] 0 [] ev ltac:(constructor) Hm) as (H1 & H2 & H3). cbn [app] in *.
  split; [by rewrite H1|by rewrite H2|by rewrite H2|left; lia|by rewrite H3|done].
Qed.

Lemma run_array_sender_spec fuel c a stop env iv :
  cpi_interval c = Some iv -> 0 < iv -> stop - start_time env <= (Z.of_nat fuel - 1) * iv -> (0 < fuel)%nat ->
  exists k ev st, run_array_sender fuel c a stop env = Ended ev st /\ array_ok c iv stop a env k ev st.
Proof.
  intros Hiv Hpos Hfuel Hf. unfold run_array_sender. pose proof (affinity_messages c a env) as Ham.
  pose proof (create_messages env (bind_device c) (bind_ip_of c a)) as Hcm.
  destruct (create_udp_socket env (bind_device c) (bind_ip_of c a)) as [[fd|error] closed] eqn:Ec.
  2: { exists 0%nat. eexists _, _. split; [reflexivity|]. apply silent_array.
       - apply Forall_app_2; [done|]. apply Forall_app_2; [exact Hcm|]. constructor; [right; by eexists|constructor].
       - intros [_ [fd E]]. by rewrite Ec in E. }
  destruct (inet_pton_ok env (target_ip c)) eqn:Ep; cbn [negb].
  2: { exists 0%nat. eexists _, _. split; [reflexivity|]. apply silent_array; [|intros [E _]; congruence].
       apply Forall_app_2; [done|]. constructor; [right; by eexists|]. constructor; [by left|constructor]. }
  rewrite Hiv. set (gc := gen_config c a). set (t0 := start_time env + Z.of_N (elapsed env 0)).
  pose proof (sender_start_paced c gc iv stop env) as Hs. fold t0 in Hs.
  pose proof (cpi_loop_ends c gc iv stop t0 env fuel (sender_start c env) Hpos Hs eq_refl ltac:(unfold t0; lia) Hf) as Hend.
  pose proof (cpi_loop_spec c gc iv stop t0 env fuel Hpos (sender_start c env) Hs) as H.
  destruct (cpi_loop fuel c gc iv stop env (sender_start c env)) as [s fin]. cbn [snd] in Hend. subst fin.
  destruct H as [[H1 _ _ H4 H5 H6] _]. exists (rounds s). eexists _, _. split; [reflexivity|].
  destruct (tally_messages (affinity_events affinity_message c a env) (rounds s) (trace s) [Closed] Ham) as (T1 & T2 & T3).
  { constructor; [by left|constructor]. }
  split.
  - by rewrite T1.
  - rewrite T2. exact H5.
  - rewrite T2. exact H6.
  - destruct H4 as [H4|H4]; [by left|right; unfold t0 in H4; lia].
  - intros Hn. destruct Hn. split; [done|]. exists fd. by rewrite Ec.
  - intros _. by rewrite app_assoc, last_snoc.
Qed.

(** All threads end. *)
Lemma join_ended (P : nat -> list Event -> ArrayStats -> Prop) (run : nat -> ThreadEnd) n : forall k,
  (forall a, (k <= a < k + n)%nat -> exists ev st, run a = Ended ev st /\ P a ev st) ->
  exists evs sts, join (run <$> seq k n) = inr (evs, sts) /\ length sts = n /\
    Forall2 (fun '(a, ev) st => P a ev st) (zip (seq k n) evs) sts /\ length evs = n.
Proof.
  induction n as [|n IH]; intros k H; cbn [seq fmap list_fmap join].
  { exists [], []. by repeat split. }
  destruct (H k) as (ev & st & E & HP); [lia|]. rewrite E.
  destruct (IH (S k)) as (evs & sts & -> & Hl & Hf & Hl'); [intros a Ha; apply H; lia|].
  exists (ev :: evs), (st :: sts). cbn. split; [done|]. split; [by rewrite Hl|]. split; [by constructor|by rewrite Hl'].
Qed.

(** Sums of counters that wrap around. *)
Lemma sum64_wrap (f : ArrayStats -> Z) (g : list Event -> Z) evs sts :
  Forall2 (fun ev st => f st = u64 (g ev)) evs sts -> sum64 f sts = u64 (sumZ (g <$> evs)).
Proof.
  intros H. unfold sum64. cut (forall acc, foldl (fun acc s => acc +[64] f s) (u64 acc) sts = u64 (acc + sumZ (g <$> evs))).
  { intros Hc. exact (Hc 0). }
  induction H as [|ev st evs sts Hx _ IH]; intros acc; cbn [foldl fmap list_fmap sumZ foldr]; [by rewrite Z.add_0_r|].
  rewrite Hx, wrap_add_l, wrap_add_r, IH by lia. f_equal. unfold sumZ. cbn [foldr]. lia.
Qed.

(** The options keep the number of arrays between 1 and 3. *)
Definition arrays_ok (c : Config) : Prop := 1 <= arrays c <= 3.

Lemma set_option_arrays `{Strtod} arg v c c' : arrays_ok c -> set_option arg v c = OptionSet c' -> arrays_ok c'.
Proof.
  intros Hc. destruct c. unfold set_option, arrays_ok in *. cbn [arrays] in Hc. intros E.
  repeat case_match; try discriminate E; injection E as <-; cbn [arrays]; lia.
Qed.

Lemma parse_loop_arrays `{Strtod} n args : (length args <= n)%nat -> forall c c',
  arrays_ok c -> parse_loop args c = Accepted c' -> arrays_ok c'.
Proof.
  revert args. induction n as [|n IH]; intros [|arg args] Hn c c' Hc E; cbn [length] in Hn; try lia; cbn [parse_loop] in E;
    [by injection E as <-|by injection E as <-|].
  destruct args as [|v args]; [by destruct (bool_decide _)|].
  destruct (set_option arg v c) as [| |c1] eqn:Es; [by destruct (bool_decide _)|done|].
  apply (IH args ltac:(cbn in Hn; lia) c1 c'); [by eapply set_option_arrays|done].
Qed.

Lemma parse_args_arrays `{Strtod} args c : parse_args args = Accepted c -> arrays_ok c.
Proof.
  unfold parse_args. destruct (parse_loop args Config_default) as [c1| | |] eqn:E; try done. intros [= <-].
  apply (parse_loop_arrays (length args)) in E; [|done|by unfold arrays_ok; cbn; lia].
  unfold arrays_ok in *. case_bool_decide; [by destruct c1|done].
Qed.

(** ** Theorems *)


(** Without a socket or a valid target nothing is sent, and the program still exits with 0: only failed
    sends count as errors. *)
Theorem emulator_hides_socket_errors `{Strtod} (fuel : nat) (argv0 : string) (args : list string) (env : MainEnv) (c : Config) (stop iv : Z)
    (Hargs : parse_args args = Accepted c) (Hmode : fleb binary64 (pps c) d0 = true)
    (Hstop : end_at c env = Some stop) (Hiv : cpi_interval c = Some iv) (Hpos : 0 < iv)
    (Hfuel : stop - started env <= (Z.of_nat fuel - 1) * iv) (Hf : (0 < fuel)%nat)
    (Hthreads : forall a, started env <= start_time (thread_env env a))
    (Hfile : file_opens env = true /\ file_good env = true)
    (Hnone : forall a, ~ connected c a (thread_env env a)) :
  exists evs after, main fuel argv0 args env = Exit 0 [Out (cpi_banner c)] evs after /\ Forall (fun ev => attempts ev = 0%nat) evs.
Proof.
  unfold main. rewrite Hargs, Hstop, Hmode. unfold cpi_mode.
  destruct (join_ended (fun a ev st => attempts ev = 0%nat /\ st = tally 0 ev)
    (fun a => run_array_sender fuel c a stop (thread_env env a)) (Z.to_nat (arrays c)) 0) as (evs & sts & -> & Hl & Hall & Hle).
  { intros a _. destruct (run_array_sender_spec fuel c a stop (thread_env env a) iv Hiv Hpos) as (k & ev & st & E & Hok);
      [specialize (Hthreads a); lia|done|]. exists ev, st. split; [exact E|].
    destruct Hok as [Hst Ha _ _ Hs _]. destruct (Hs (Hnone a)) as [-> _]. split; [lia|exact Hst]. }
  assert (Hev : Forall2 (fun ev st => attempts ev = 0%nat /\ st = tally 0 ev) evs sts).
  { apply Forall2_flip. rewrite <-(snd_zip (seq 0 (Z.to_nat (arrays c))) evs) by (rewrite length_seq; lia).
    apply Forall2_fmap_r, Forall2_flip. eapply Forall2_impl; [exact Hall|]. by intros [a ev] st. }
  assert (Hsum : sum64 send_errors sts = 0).
  { rewrite (sum64_wrap send_errors (fun _ => 0) evs).
    - assert (Hz : forall l : list (list Event), sumZ ((fun _ => 0) <$> l) = 0) by (intros l; induction l; [done|]; cbn; done).
      by rewrite Hz.
    - eapply Forall2_impl; [exact Hev|]. intros ev st [Ha ->]. unfold attempts in Ha. cbn. by replace (length (failed ev)) with 0%nat by lia. }
  destruct Hfile as [H1 H2]. unfold finish. rewrite H1, H2, Hsum. cbn [andb Z.ltb Z.compare]. eexists _, _. split; [reflexivity|].
  eapply (Forall2_Forall_l _ _ evs sts); [exact Hev|]. apply Forall_forall. by intros st _ ev [].
Qed.

(** *** Defined behaviour *)

(** Positive numbers are ordered by their value. *)
Lemma units_ordered m e m' e' :
  valid (S754_finite false m e) -> valid (S754_finite false m' e') -> e < e' \/ (e = e' /\ Z.pos m <= Z.pos m') ->
  units (Z.pos m) e <= units (Z.pos m') e'.
Proof.
  intros (He & Hm & _) (He' & _ & Hn') [Hlt|[-> Hle]]; [|apply units_le; [unfold K; lia|done]].
  destruct Hn' as [->|Hn']; [lia|]. unfold units, K.
  assert (2 ^ 53 * 2 ^ (e + 5000) <= 2 ^ 52 * 2 ^ (e' + 5000)) by (rewrite <-!Z.pow_add_r by lia; apply Z.pow_le_mono_r; lia).
  assert (Z.pos m * 2 ^ (e + 5000) <= 2 ^ 53 * 2 ^ (e + 5000)) by (apply Z.mul_le_mono_nonneg_r; [apply Z.pow_nonneg|]; lia).
  assert (2 ^ 52 * 2 ^ (e' + 5000) <= Z.pos m' * 2 ^ (e' + 5000)) by (apply Z.mul_le_mono_nonneg_r; [apply Z.pow_nonneg|]; lia). lia.
Qed.

(** The greater of 0.1 and any number is infinite or at least 1/16. *)
Lemma fmax_bound x : of_bits binary64 (fmax d01 x) = S754_infinity false \/ at_least (pow2 (-4)) (of_bits binary64 (fmax d01 x)).
Proof.
  assert (H01 : at_least (pow2 (-4)) (of_bits binary64 d01)) by (apply at_leastb_ok; vm_compute; reflexivity).
  unfold fmax. destruct (fltb binary64 d01 x) eqn:E; [|by right]. unfold fltb in E.
  pose proof (of_bits_valid x) as Hv. pose proof (of_bits_valid d01) as Hv0.
  change (of_bits binary64 d01) with (S754_finite false 7205759403792794 (-56)) in *.
  destruct (of_bits binary64 x) as [s|[]| |[] m e]; try done; [by left|right].
  cbn [at_least] in *. etrans; [exact H01|]. apply units_ordered; [done|done|].
  unfold SFltb, SFcompare in E. change (Pos.compare_cont Eq 7205759403792794 m) with (7205759403792794 ?= m)%positive in E.
  destruct (Z.compare_spec (-56) e); [right|by left|done]. split; [done|].
  destruct (Pos.compare_spec 7205759403792794 m); try done; lia.
Qed.

Lemma to_i64_defined x : double_within (pow2 34) x -> exists v, to_i64 x = Some v.
Proof.
  unfold double_within, to_i64. pose proof (of_bits_valid x) as Hv. destruct (of_bits binary64 x) as [s|s| |s m e]; cbn [within valid] in *; try done; [by eexists|].
  intros Hw. rewrite pow2_integer in Hw by lia. pose proof (truncate_bound (2 ^ 34) m e (proj1 (proj1 Hv)) Hw) as Ht.
  eexists. rewrite (proj2 (Z.leb_le _ _)), (proj2 (Z.ltb_lt _ _)) by (destruct s; lia). reflexivity.
Qed.

(** The interval between CPIs is defined for every frame rate. *)
Lemma cpi_interval_defined c : exists iv, cpi_interval c = Some iv.
Proof.
  unfold cpi_interval, to_ns. destruct (fmax_bound (frame_rate c)) as [Hinf|Hl].
  - exists 0. assert (Hz : fdiv binary64 d1 (fmax d01 (frame_rate c)) = 0) by (unfold fdiv, op2; rewrite Hinf; vm_compute; reflexivity).
    rewrite Hz. vm_compute. reflexivity.
  - apply to_i64_defined. apply (fmul_pow2 4 30); [lia|unfold K; lia|unfold K; lia| |vm_compute; discriminate].
    apply (fdiv_pow2 0 (-4)); [lia|unfold K; lia|unfold K; lia|vm_compute; discriminate|exact Hl].
Qed.

Lemma join_defined l : Forall (fun t => t <> UndefinedThread) l -> join l <> inl Undefined.
Proof.
  induction 1 as [|t l Ht _ IH]; [done|]. destruct t; cbn [join]; [..|done].
  - destruct (join l) as [o|[evs sts]]; [|done]. intros [= ->]. by apply IH.
  - by destruct (join l) as [[]|].
Qed.

(** In CPI mode the behaviour is defined for every configuration whose end is a time. *)
Theorem emulator_cpi_defined `{Strtod} (fuel : nat) (argv0 : string) (args : list string) (env : MainEnv) (c : Config) (stop : Z)
    (Hargs : parse_args args = Accepted c) (Hmode : fleb binary64 (pps c) d0 = true) (Hstop : end_at c env = Some stop) :
  main fuel argv0 args env <> Undefined.
Proof.
  unfold main. rewrite Hargs, Hstop, Hmode. unfold cpi_mode.
  pose proof (join_defined ((fun a => run_array_sender fuel c a stop (thread_env env a)) <$> seq 0 (Z.to_nat (arrays c)))) as Hj.
  destruct (join _) as [o|[evs sts]]; [|by destruct (finish _ _ _ _)].
  intros ->. apply Hj; [|done]. apply Forall_fmap, Forall_forall. intros a _. unfold compose, run_array_sender.
  destruct (create_udp_socket _ _ _) as [[fd|e] cl]; [|done]. destruct (inet_pton_ok _ _); cbn [negb]; [|done].
  destruct (cpi_interval_defined c) as [iv ->]. by destruct (cpi_loop _ _ _ _ _ _ _) as [s []].
Qed.

(** *** Single packets *)

(** A receiver with the generator's destination parses and validates the packet. *)
Definition received (pkt : bytes) : Prop :=
  exists p, parse (Some pkt) (Z.of_nat (length pkt)) = Some p /\ validate (mkValidator SPS DATA_AND_HEARTBEAT) p = OK.

Lemma data_packet_made c n1 n2 g : generator_ok g -> is_u64 n1 -> is_u64 n2 -> payload_bytes c <= MAX_PAYLOAD_SIZE ->
  exists pkt g', make_data_packet (single_config (payload_bytes c)) n1 n2 g = Some (pkt, g') /\ generator_ok g' /\ received pkt.
Proof.
  intros Hg H1 H2 Hp. set (cfg := single_config (payload_bytes c)).
  assert (Hb : DataSpecificHeader_SIZE <= Emulator.frag_payload_bytes cfg <= MAX_PAYLOAD_SIZE).
  { unfold cfg, single_config. cbn [Emulator.frag_payload_bytes].
    destruct (Z.ltb_spec (payload_bytes c) DataSpecificHeader_SIZE); [split; [lia|]|lia]. vm_compute. discriminate. }
  assert (Hok : exists pkt g', make_data_packet cfg n1 n2 g = Some (pkt, g') /\ generator_ok g').
  { unfold make_data_packet. destruct (Z.ltb_spec (Emulator.frag_payload_bytes cfg) DataSpecificHeader_SIZE); [lia|].
    destruct g as [sq fc cc hb]. cbn [fill_common_header]. eexists _, _. split; [reflexivity|].
    destruct Hg as (_ & _ & Hc). split_and!; [cbn; apply wrap_range; lia|cbn; apply wrap_range; lia|exact Hc]. }
  destruct Hok as (pkt & g' & E & Hg'). exists pkt, g'. split; [exact E|]. split; [exact Hg'|].
  destruct (generated_packets_accepted cfg n1 n2 g (mkValidator SPS DATA_AND_HEARTBEAT) pkt g') as [(p & Hp1 & Hp2 & _) _];
    [split; vm_compute; split; congruence|exact Hg|exact H1|exact H2| |exact (proj2 Hb)|exact E|by exists p].
  destruct g. split; [discriminate|left; reflexivity].
Qed.

Record pps_paced (c : Config) (iv stop t0 : Z) (s : PpsSender) : Prop := {
  pp_ok : sent_ok s = u64 (Z.of_nat (length (sent (p_trace s))));
  pp_fail : send_fail s = u64 (Z.of_nat (length (failed (p_trace s))));
  pp_count : attempts (p_trace s) = p_sends s;
  pp_tick : next_tick s = t0 + Z.of_nat (p_sends s) * iv;
  pp_time : p_sends s = 0%nat \/ t0 + (Z.of_nat (p_sends s) - 1) * iv <= p_time s;
  pp_rounds : (p_sends s <= 1)%nat \/ (Z.of_nat (p_sends s) - 2) * iv < stop - t0;
  pp_gen : generator_ok (p_gen s);
  pp_received : Forall received (sent (p_trace s) ++ failed (p_trace s));
}.

Lemma pps_round_spec c iv stop t0 env s :
  (forall n, is_u64 (fst (packet_now env n)) /\ is_u64 (snd (packet_now env n))) -> payload_bytes c <= MAX_PAYLOAD_SIZE -> 0 < iv ->
  pps_paced c iv stop t0 s -> p_time s < stop ->
  exists s', pps_round c iv env s = Some s' /\ pps_paced c iv stop t0 s' /\ p_sends s' = S (p_sends s).
Proof.
  intros Hn Hp Hiv [H1 H2 H3 H4 H5 H6 H7 H8] Hlt. destruct s as [t rd sn nt g ok fl tr].
  cbn [sent_ok send_fail p_trace p_sends next_tick p_time p_gen] in *. unfold pps_round. destruct (packet_now env sn) as [n1 n2] eqn:En.
  destruct (Hn sn) as [Hn1 Hn2]. rewrite En in Hn1, Hn2. cbn [fst snd] in Hn1, Hn2.
  destruct (data_packet_made c n1 n2 g H7 Hn1 Hn2 Hp) as (pkt & g' & -> & Hg' & Hr). cbn [mbind option_bind].
  eexists. split; [reflexivity|]. unfold attempts, sent, failed in *.
  split; [|by destruct (sendto env sn =? _)]. apply Forall_app in H8 as [Hs1 Hs2].
  assert (Hround : (S sn <= 1)%nat \/ (Z.of_nat (S sn) - 2) * iv < stop - t0) by (destruct H5 as [->|H5]; [left; lia|right; lia]).
  destruct (sendto env sn =? _); split; cbn [sent_ok send_fail p_trace p_sends next_tick p_time p_gen];
    unfold attempts, sent, failed; rewrite ?omap_app; cbn [omap list_omap]; rewrite ?app_nil_r.
  - by rewrite H1, (inc64_count _ pkt).
  - exact H2.
  - rewrite length_app. cbn [length]. lia.
  - rewrite H4. lia.
  - right. lia.
  - exact Hround.
  - exact Hg'.
  - repeat apply Forall_app_2; [done|by constructor|done].
  - exact H1.
  - by rewrite H2, (inc64_count _ pkt).
  - rewrite length_app. cbn [length]. lia.
  - rewrite H4. lia.
  - right. lia.
  - exact Hround.
  - exact Hg'.
  - repeat apply Forall_app_2; [done|done|by constructor].
Qed.

Lemma p_now_paced c iv stop t0 env s : pps_paced c iv stop t0 s -> pps_paced c iv stop t0 (p_now env s).
Proof. destruct s. intros []. split; cbn in *; try done. lia. Qed.

Lemma pps_loop_spec c iv stop t0 env fuel :
  (forall n, is_u64 (fst (packet_now env n)) /\ is_u64 (snd (packet_now env n))) -> payload_bytes c <= MAX_PAYLOAD_SIZE -> 0 < iv ->
  forall s, pps_paced c iv stop t0 s ->
  exists s' fin, pps_loop fuel c iv stop env s = Some (s', fin) /\ pps_paced c iv stop t0 s' /\
    (fin = false -> p_sends s' = (p_sends s + fuel)%nat /\ p_time s' < stop).
Proof.
  intros Hn Hp Hiv. induction fuel as [|fuel IH]; intros s Hs; cbn [pps_loop]; apply (p_now_paced _ _ _ _ env) in Hs;
    assert (Hsn : p_sends (p_now env s) = p_sends s) by (by destruct s); rewrite <-Hsn; set (s1 := p_now env s) in *;
    destruct (Z.ltb_spec (p_time s1) stop) as [Hlt|Hge].
  - exists s1, false. split; [reflexivity|]. split; [exact Hs|]. intros _. split; [lia|exact Hlt].
  - exists s1, true. by split.
  - destruct (pps_round_spec c iv stop t0 env s1 Hn Hp Hiv Hs Hlt) as (s2 & -> & Hs2 & E2). cbn [mbind option_bind].
    destruct (IH s2 Hs2) as (s' & fin & -> & H1 & H2). exists s', fin. split; [done|]. split; [exact H1|].
    intros Hf. destruct (H2 Hf) as [E Hl]. split; [lia|exact Hl].
  - exists s1, true. by split.
Qed.

(** What a thread has sent: exact counters, every packet one that the receiver accepts, no more than the rate allows. *)
Record pps_ok (iv stop : Z) (env : ThreadEnv) (ev : list Event) (st : ArrayStats) : Prop := {
  po_stats : packets_sent st = u64 (Z.of_nat (length (sent ev))) /\ send_errors st = u64 (Z.of_nat (length (failed ev)));
  po_rate : (attempts ev <= 1)%nat \/ (Z.of_nat (attempts ev) - 2) * iv < stop - start_time env;
  po_received : Forall received (sent ev ++ failed ev);
}.

Lemma silent_pps iv stop env ev : Forall message ev -> pps_ok iv stop env ev (mkArrayStats 0 0 0 0 0).
Proof.
  intros Hm. destruct (tally_messages [] 0 [] ev ltac:(constructor) Hm) as (H1 & H2 & _). cbn [app] in *.
  unfold attempts in H2. cbn in H2. assert (Hs : sent ev = [] /\ failed ev = []).
  { split; apply nil_length_inv; lia. }
  destruct Hs as [Hs Hf]. split; [by rewrite Hs, Hf|unfold attempts; rewrite Hs, Hf; left; cbn; lia|by rewrite Hs, Hf].
Qed.

Lemma run_pps_sender_spec fuel c a stop env iv :
  pps_interval c = Some iv -> 0 < iv -> stop - start_time env <= (Z.of_nat fuel - 1) * iv -> (0 < fuel)%nat ->
  (forall n, is_u64 (fst (packet_now env n)) /\ is_u64 (snd (packet_now env n))) -> payload_bytes c <= MAX_PAYLOAD_SIZE ->
  exists ev st, run_pps_sender fuel c a stop env = Ended ev st /\ pps_ok iv stop env ev st.
Proof.
  intros Hiv Hpos Hfuel Hf Hn Hp. unfold run_pps_sender.
  pose proof (create_messages env (bind_device c) (bind_ip_of c a)) as Hcm.
  assert (Herr : forall s, message (Err s)) by (intros s; right; by eexists).
  destruct (if affinity_ok env then None else cpu_of c a) as [cpu|].
  { eexists _, _. split; [reflexivity|]. apply silent_pps. by constructor. }
  destruct (create_udp_socket env (bind_device c) (bind_ip_of c a)) as [[fd|error] closed].
  2: { eexists _, _. split; [reflexivity|]. apply silent_pps, Forall_app_2; [exact Hcm|by constructor]. }
  destruct (inet_pton_ok env (target_ip c)); cbn [negb].
  2: { eexists _, _. split; [reflexivity|]. apply silent_pps. constructor; [by left|constructor]. }
  rewrite Hiv. set (t0 := start_time env + Z.of_N (elapsed env 0)). set (s0 := mkPpsSender _ _ _ _ _ _ _ _).
  assert (H0 : pps_paced c iv stop t0 s0).
  { split; [done|done|done|cbn; lia|by left|left; cbn; lia|split; [|split]; vm_compute; split; congruence|constructor]. }
  destruct (pps_loop_spec c iv stop t0 env fuel Hn Hp Hpos s0 H0) as (s & fin & -> & [H1 H2 H3 H4 H5 H6 H7 H8] & Hfin).
  assert (fin = true) as ->.
  { destruct fin; [done|]. destruct (Hfin eq_refl) as [E Hlt]. rewrite E in H5. cbn [s0 p_sends Nat.add] in H5. unfold t0 in H5. lia. }
  eexists _, _. split; [reflexivity|]. destruct (tally_messages [] 0 (p_trace s) [Closed] ltac:(constructor)) as (_ & T2 & _).
  { constructor; [by left|constructor]. }
  cbn [app] in T2.
  assert (Hq : sent (p_trace s ++ [Closed]) = sent (p_trace s) /\ failed (p_trace s ++ [Closed]) = failed (p_trace s)).
  { split; apply quiet_app; intros e ->%list_elem_of_singleton; done. }
  destruct Hq as [Q1 Q2]. split; [by rewrite Q1, Q2|rewrite T2, H3|by rewrite Q1, Q2].
  destruct H6 as [H6|H6]; [by left|right; unfold t0 in H6; lia].
Qed.

(** In the mode for single packets every thread stops and its counters are exact; the packets are ones that
    the receiver accepts, at most two more than the duration holds intervals; the exit code is 0 exactly when the report was written and no
    send failed. *)
Theorem emulator_pps_run `{Strtod} (fuel : nat) (argv0 : string) (args : list string) (env : MainEnv) (c : Config) (stop iv : Z)
    (Hargs : parse_args args = Accepted c) (Hmode : fleb binary64 (pps c) d0 = false)
    (Hstop : end_at c env = Some stop) (Hiv : pps_interval c = Some iv) (Hpos : 0 < iv)
    (Hfuel : stop - started env <= (Z.of_nat fuel - 1) * iv) (Hf : (0 < fuel)%nat) (Hsize : payload_bytes c <= MAX_PAYLOAD_SIZE)
    (Hthreads : forall a, started env <= start_time (thread_env env a) /\
       forall n, is_u64 (fst (packet_now (thread_env env a) n)) /\ is_u64 (snd (packet_now (thread_env env a) n))) :
  exists evs sts code after,
    main fuel argv0 args env = Exit code [Out (pps_banner c)] evs after /\
    Forall2 (fun '(a, ev) st => pps_ok iv stop (thread_env env a) ev st) (zip (seq 0 (Z.to_nat (threads c))) evs) sts /\
    (code = 0 <-> file_opens env = true /\ file_good env = true /\ sum64 send_errors sts = 0).
Proof.
  unfold main. rewrite Hargs, Hstop, Hmode. unfold pps_mode.
  destruct (join_ended (fun a ev st => pps_ok iv stop (thread_env env a) ev st)
    (fun t => run_pps_sender fuel c t stop (thread_env env t)) (Z.to_nat (threads c)) 0) as (evs & sts & -> & Hl & Hall & Hle).
  { intros a _. destruct (Hthreads a) as [Ht Hn]. apply run_pps_sender_spec; [done|done|lia|done|done|done]. }
  assert (Hr := sum64_range send_errors sts). set (text := pps_report _ _ _ _).
  destruct (finish c env text (if 0 <? sum64 send_errors sts then 1 else 0)) as [code after] eqn:E.
  exists evs, sts, code, after. split; [done|]. split; [exact Hall|].
  unfold finish in E. destruct (file_opens env), (file_good env); cbn [andb] in E; injection E as <- _;
    destruct (Z.ltb_spec 0 (sum64 send_errors sts)); intuition (try discriminate; lia).
Qed.

(** ** Witnesses *)

Module Demo.

#[export] Instance demo_strtod : Strtod := fun s => let '(n, rest) := strtol s in (of_Z binary64 n, rest).

(** Every send succeeds but the second one of each thread; 32 bytes of header, 40 of the specific one, the
    snapshot of the only fragment, 8 of data and 4 of the checksum. *)
Definition demo_thread : ThreadEnv :=
  mkThreadEnv true (3, 0) (0, 0) (0, 0) (fun _ => true) 1000 (fun _ => 500%N) (fun n => if (n =? 1)%nat then -1 else 124)
    (fun _ => mkCpiInput 7 (fun _ => 8) [] []) (fun _ => (9, 9)).

Definition demo_env : MainEnv := mkMainEnv 1000 2000001000 (fun _ => demo_thread) true true.

Definition demo_args : list string :=
  ["--arrays"; "2"; "--cpi-frags"; "1"; "--frag-payload"; "8"; "--frame-rate"; "1"; "--duration"; "2"; "--output"; "r.json"].

Definition demo_config : Config :=
  mkConfig "127.0.0.1" 9999 "" [] [] 1 d1 d0 0 0x4000000000000000 2 8 1000 d0 256 1 "r.json".

Lemma demo_arguments : parse_args demo_args = Accepted demo_config.
Proof. vm_compute. reflexivity. Qed.

End Demo.

Import Demo.


Example demo_run :
  match main 3 "emu" demo_args demo_env with
  | Exit code _ evs _ => (code, (fun ev => (length (sent ev), length (failed ev), length (beats_of ev))) <$> evs) = (1, [(2, 1, 0); (2, 1, 0)]%nat)
  | _ => False
  end.
Proof. vm_compute. reflexivity. Qed.

End EmulatorMain.
