(* ===== verification/Bench.v ===== *)
(** The simulated load of the benchmark programs, [tools/benchmarks/bench_simulation.h]: for each
    channel a producer and a consumer thread on an atomic depth, a sampler, the statistics of a scenario and
    its JSON text.  The atomic accesses to the depth of a channel are the steps; the order in which the threads
    make them, the random numbers, the times and the text of [numastat] are inputs. *)

From S2P Require Import Prelude Float FloatLaws Text Json JsonTree Protocol Logger Pcap PcapAnalyze.
From stdpp Require Import strings sorting.
From Stdlib Require Import Ascii Floats.SpecFloat.
Open Scope Z_scope.
Import Float FloatLaws Text JsonTree PcapAnalyze.

Module Bench.

(** ** Data *)

Record ScenarioConfig := mkScenarioConfig {
  cfg_name : string;
  cfg_channels : nat;
  cfg_duration_seconds : Z;
  target_pps_per_channel : Z;
  channel_capacity_pps : Z;
  packet_size_bytes : Z;
  cpi_fragments : Z;
  reassembly_queue_timeout_depth : Z;
  cfg_numa_nodes : list Z;
}.

Record ThreadCpuUtilization := mkThreadCpuUtilization { thread_name : string; utilization_pct : Z }.

Record QueueDepthStats := mkQueueDepthStats { p50 : Z; p99 : Z; max_depth : Z }.

Record ScenarioResult := mkScenarioResult {
  name : string;
  channels : Z;
  duration_seconds : Z;
  offered_pps : Z;
  measured_pps : Z;
  throughput_mbps : Z;
  generated_packets : Z;
  dropped_packets : Z;
  delivered_packets : Z;
  loss_rate : Z;
  cpi_total : Z;
  cpi_success : Z;
  cpi_reassembly_success_rate : Z;
  reassembly_timeout_total : Z;
  queue_depth : QueueDepthStats;
  cpu_per_thread : list ThreadCpuUtilization;
  numa_nodes : list Z;
  memory_bandwidth_mb_s_estimate : Z;
  numastat_snapshot : string;
}.

Definition d0 : Z := 0.
Definition d1 : Z := 0x3FF0000000000000.
Definition d8 : Z := 0x4020000000000000.
Definition d10 : Z := 0x4024000000000000.
Definition d100 : Z := 0x4059000000000000.
Definition d012 : Z := 0x3FBEB851EB851EB8.   (* 0.12 *)
Definition d008 : Z := 0x3FB47AE147AE147B.   (* 0.08 *)
Definition d050 : Z := 0x3FE0000000000000.   (* 0.50 *)
Definition d099 : Z := 0x3FEFAE147AE147AE.   (* 0.99 *)
Definition d1e6 : Z := 0x412E848000000000.
Definition d1e9 : Z := 0x41CDCD6500000000.

(** [std::max] and [std::min] of two numbers. *)
Definition fmax (a b : Z) : Z := if fltb binary64 a b then b else a.
Definition fmin (a b : Z) : Z := if fltb binary64 b a then b else a.

(** The text of 0.0 for [None] of an empty vector; [None] is an index out of bounds or a conversion out of range. *)
Definition percentile (values : list Z) (q : Z) : option Z :=
  match values with
  | [] => Some d0
  | _ =>
    let q := fmax d0 (fmin d1 q) in
    let sorted := merge_sort Z.le values in
    idx ← to_size (fmul binary64 q (of_Z binary64 (Z.of_nat (length values) - 1)));
    x ← sorted !! Z.to_nat idx;
    Some (of_Z binary64 x)
  end.

(** ** The threads of a channel *)

Definition overload_ratio (c : ScenarioConfig) : Z :=
  if fltb binary64 d0 (channel_capacity_pps c) then fdiv binary64 (target_pps_per_channel c) (channel_capacity_pps c) else d10.

Definition drop_prob (c : ScenarioConfig) : Z := fmax d0 (fmul binary64 (fsub binary64 (overload_ratio c) d1) d012).

Definition timeout_prob (c : ScenarioConfig) : Z := fmax d0 (fmul binary64 (fsub binary64 (overload_ratio c) d1) d008).

(** Where the producer is: before a packet, or before its test of the depth. *)
Inductive Producer := PIdle | PTest.

(** Where the consumer is: before the test of its loop, before its load, or with the loaded depth; or at its end. *)
Inductive Consumer := CTest | CLoad | CLoaded (depth : Z) | CDone.

Record Channel := mkChannel {
  depth : Z;
  generated : Z;
  dropped : Z;
  delivered : Z;
  total : Z;
  success : Z;
  timeouts : Z;
  frag_idx : Z;
  cpi_failed : bool;
  producer : Producer;
  consumer : Consumer;
  samples : list Z;
}.

Definition Channel_init : Channel := mkChannel 0 0 0 0 0 0 0 0 false PIdle CTest [].

(** The steps: a packet with its random number, the test of the depth with its random number, those of
    the consumer's loop, with what it finds in [running], and a sample. *)
Inductive ChannelEvent := Produce (pick : Z) | TestDepth (pick : Z) | TestLoop (running : bool) | LoadDepth | Take | Sample.

(** The producer: a packet that is dropped or delivered. *)
Definition produce (c : ScenarioConfig) (pick : Z) (ch : Channel) : Channel :=
  let '(mkChannel d g dr dl t s to f fl _ co sa) := ch in
  if fltb binary64 pick (drop_prob c)
  then mkChannel d (inc64 g) (inc64 dr) dl t s to f true PTest co sa
  else mkChannel (inc64 d) (inc64 g) dr (inc64 dl) t s to f fl PTest co sa.

(** The producer: the test of the depth, and the end of a CPI. *)
Definition test_depth (c : ScenarioConfig) (pick : Z) (ch : Channel) : Channel :=
  let '(mkChannel d g dr dl t s to f fl _ co sa) := ch in
  let failed := fl || (reassembly_queue_timeout_depth c <? d) || fltb binary64 pick (timeout_prob c) in
  let f := inc64 f in
  if cpi_fragments c <=? f then
    if failed then mkChannel d g dr dl (inc64 t) s (inc64 to) 0 false PIdle co sa
    else mkChannel d g dr dl (inc64 t) (inc64 s) to 0 false PIdle co sa
  else mkChannel d g dr dl t s to f failed PIdle co sa.

Definition consume (ch : Channel) (loaded : Z) : Channel :=
  let '(mkChannel d g dr dl t s to f fl pr _ sa) := ch in
  mkChannel (if 0 <? loaded then d -[64] 1 else d) g dr dl t s to f fl pr CTest sa.

Definition set_consumer (co : Consumer) (ch : Channel) : Channel :=
  let '(mkChannel d g dr dl t s to f fl pr _ sa) := ch in mkChannel d g dr dl t s to f fl pr co sa.

Definition sample (ch : Channel) : Channel :=
  let '(mkChannel d g dr dl t s to f fl pr co sa) := ch in mkChannel d g dr dl t s to f fl pr co (sa ++ [d]).

(** [None] when the thread of the step is somewhere else. *)
Definition channel_step (c : ScenarioConfig) (ch : Channel) (e : ChannelEvent) : option Channel :=
  match e, producer ch, consumer ch with
  | Produce pick, PIdle, _ => Some (produce c pick ch)
  | TestDepth pick, PTest, _ => Some (test_depth c pick ch)
  | TestLoop running, _, CTest => Some (set_consumer (if running || (0 <? depth ch) then CLoad else CDone) ch)
  | LoadDepth, _, CLoad => Some (set_consumer (CLoaded (depth ch)) ch)
  | Take, _, CLoaded d => Some (consume ch d)
  | Sample, _, _ => Some (sample ch)
  | _, _, _ => None
  end.

Fixpoint channel_run (c : ScenarioConfig) (es : list ChannelEvent) (ch : Channel) : option Channel :=
  match es with
  | [] => Some ch
  | e :: es => ch ← channel_step c ch e; channel_run c es ch
  end.

(** ** A scenario *)

(** The order of the steps of every channel, the steady clock at both ends, the time the threads were busy, and the
    output of [numastat]. *)
Record ScenarioEnv := mkScenarioEnv {
  steps_of : nat -> list ChannelEvent;
  t_begin : Z;
  t_finish : Z;
  producer_busy_ns : nat -> Z;
  consumer_busy_ns : nat -> Z;
  numastat_text : option string;   (* [None] when the pipe does not open *)
}.

Definition read_numastat_snapshot (env : ScenarioEnv) : string :=
  match numastat_text env with
  | None => "numastat unavailable"
  | Some text => if bool_decide (text = EmptyString) then "numastat empty output" else text
  end.

Definition sum64 (f : Channel -> Z) (l : list Channel) : Z := foldl (fun acc ch => acc +[64] f ch) 0 l.

Definition ratio_or_zero (a b : Z) : Z := if 0 <? b then fdiv binary64 (of_Z binary64 a) (of_Z binary64 b) else d0.

Definition utilization (busy elapsed_ns : Z) : Z :=
  if fltb binary64 d0 elapsed_ns then fdiv binary64 (fmul binary64 d100 (of_Z binary64 busy)) elapsed_ns else d0.

Definition max_element (l : list Z) : Z := match l with [] => 0 | x :: l => foldl Z.max x l end.

(** The result of the threads that have been joined. *)
Definition summarize (c : ScenarioConfig) (env : ScenarioEnv) (chs : list Channel) : option ScenarioResult :=
  let elapsed := fdiv binary64 (of_Z binary64 (t_finish env - t_begin env)) d1e9 in
  let elapsed_ns := fmul binary64 elapsed d1e9 in
  let all := chs ≫= samples in
  let g := sum64 generated chs in
  let dr := sum64 dropped chs in
  let dl := sum64 delivered chs in
  let mbps := if fltb binary64 d0 elapsed
    then fdiv binary64 (fdiv binary64 (fmul binary64 (fmul binary64 (of_Z binary64 dl) (of_Z binary64 (packet_size_bytes c))) d8) elapsed) d1e6
    else d0 in
  q50 ← percentile all d050;
  q99 ← percentile all d099;
  Some (mkScenarioResult (cfg_name c) (Z.of_nat (cfg_channels c)) (cfg_duration_seconds c)
    (fmul binary64 (target_pps_per_channel c) (of_Z binary64 (Z.of_nat (cfg_channels c))))
    (if fltb binary64 d0 elapsed then fdiv binary64 (of_Z binary64 dl) elapsed else d0) mbps
    g dr dl (ratio_or_zero dr g) (sum64 total chs) (sum64 success chs) (ratio_or_zero (sum64 success chs) (sum64 total chs))
    (sum64 timeouts chs) (mkQueueDepthStats q50 q99 (max_element all))
    (seq 0 (cfg_channels c) ≫= (fun ch =>
       [mkThreadCpuUtilization ("producer_ch" +:+ decimal (Z.of_nat ch)) (utilization (producer_busy_ns env ch) elapsed_ns);
        mkThreadCpuUtilization ("consumer_ch" +:+ decimal (Z.of_nat ch)) (utilization (consumer_busy_ns env ch) elapsed_ns)]))
    (cfg_numa_nodes c) (fdiv binary64 mbps d8) (read_numastat_snapshot env)).

(** [None] when the order of steps is none of the threads. *)
Definition run_scenario (c : ScenarioConfig) (env : ScenarioEnv) : option ScenarioResult :=
  chs ← mapM (fun ch => channel_run c (steps_of env ch) Channel_init) (seq 0 (cfg_channels c));
  summarize c env chs.

(** ** Lemmas: a channel *)

(** The fragments of a CPI. *)
Definition fragments (c : ScenarioConfig) : Z := Z.max 1 (cpi_fragments c).

(** The state after [n] steps: no counter has wrapped, every packet is dropped or delivered, every CPI succeeded or not, and the
    depth is what was delivered and not taken; a consumer that loaded a depth that is not 0 finds something to take. *)
Record channel_ok (c : ScenarioConfig) (n : Z) (ch : Channel) : Prop := {
  co_counts : 0 <= dropped ch /\ 0 <= delivered ch /\ generated ch = dropped ch + delivered ch /\ generated ch <= n;
  co_cpis : 0 <= success ch /\ 0 <= timeouts ch /\ total ch = success ch + timeouts ch;
  co_frags : 0 <= frag_idx ch < fragments c;
  co_total : generated ch = total ch * fragments c + frag_idx ch + (match producer ch with PTest => 1 | PIdle => 0 end);
  co_depth : 0 <= depth ch <= delivered ch;
  co_loaded : match consumer ch with CLoaded d => 0 < d -> 0 < depth ch | _ => True end;
  co_samples : Forall (fun d => 0 <= d <= delivered ch) (samples ch);
  co_length : Z.of_nat (length (samples ch)) <= n;
}.

Lemma inc64_small n : 0 <= n < 2 ^ 64 - 1 -> inc64 n = n + 1.
Proof. intros. unfold inc64. apply wrap_small. unfold in_range. lia. Qed.

Lemma samples_grow l n m : n <= m -> Forall (fun d => 0 <= d <= n) l -> Forall (fun d => 0 <= d <= m) l.
Proof. intros Hn Hl. eapply Forall_impl; [exact Hl|]. cbn. lia. Qed.

Lemma channel_init_ok c : channel_ok c 0 Channel_init.
Proof. split; cbn; try done; try lia; unfold fragments; lia. Qed.

(** The bounds that the counters of a state have. *)
Lemma co_bounds c n ch : channel_ok c n ch -> 0 <= n < 2 ^ 64 - 1 ->
  0 <= total ch <= n /\ 0 <= frag_idx ch <= n.
Proof.
  intros [Hc Hp Hf Ht Hd Hl Hs Hz] Hn. assert (1 <= fragments c) by (unfold fragments; lia).
  destruct (producer ch); nia.
Qed.

Lemma producer_step_ok c n pick ch : 0 <= n < 2 ^ 64 - 1 -> channel_ok c n ch -> producer ch = PIdle ->
  channel_ok c (n + 1) (produce c pick ch).
Proof.
  intros Hn Hok Hp. destruct ch as [d g dr dl t s to f fl pr co sa]. pose proof (co_bounds _ _ _ Hok Hn) as Hb.
  destruct Hok as [Hc Hq Hf Ht Hd Hl Hs Hz]. cbn in *. subst pr.
  destruct (fltb binary64 pick (drop_prob c)); split; cbn; rewrite ?inc64_small by lia; try done; try lia.
  - destruct co; try done; lia.
  - eapply samples_grow; [|exact Hs]; lia.
Qed.

Lemma test_depth_ok c n pick ch : 0 <= n < 2 ^ 64 - 1 -> channel_ok c n ch -> producer ch = PTest ->
  channel_ok c (n + 1) (test_depth c pick ch).
Proof.
  intros Hn Hok Hp. destruct ch as [d g dr dl t s to f fl pr co sa]. pose proof (co_bounds _ _ _ Hok Hn) as Hb.
  destruct Hok as [Hc Hq Hf Ht Hd Hl Hs Hz]. cbn in *. subst pr.
  rewrite (inc64_small f) by lia. assert (1 <= fragments c) by (unfold fragments; lia).
  destruct (Z.leb_spec (cpi_fragments c) (f + 1)) as [He|He].
  - assert (fragments c = f + 1) by (unfold fragments in *; lia).
    destruct (_ || _ || _); split; cbn; rewrite ?inc64_small by lia; try done; try lia; nia.
  - assert (fragments c = cpi_fragments c) by (unfold fragments in *; lia).
    split; cbn; try done; lia.
Qed.

Lemma channel_step_ok c n ch e ch' : 0 <= n < 2 ^ 64 - 1 -> channel_ok c n ch -> channel_step c ch e = Some ch' ->
  channel_ok c (n + 1) ch'.
Proof.
  intros Hn Hok Hst. unfold channel_step in Hst.
  destruct e as [pick|pick|running| | |], (producer ch) eqn:Hp, (consumer ch) eqn:Hco; try done; injection Hst as <-;
    try (by apply producer_step_ok); try (by apply test_depth_ok);
    destruct ch as [d g dr dl t s to f fl pr co sa], Hok as [Hc Hq Hf Ht Hd Hl Hs Hz]; cbn in *; subst pr co;
    try (split; cbn; try done; try lia; [by destruct (_ || _)]);
    try (split; cbn; try done; lia);
    try (split; cbn; try done; try lia; try (by apply Forall_app; split; [|apply Forall_singleton]); rewrite length_app; cbn; lia).
  all: destruct (Z.ltb_spec 0 depth0); [assert (d -[64] 1 = d - 1) as -> by (apply wrap_small; unfold in_range; lia)|]; split; cbn; try done; lia.
Qed.

Lemma channel_run_ok c es n ch ch' : 0 <= n -> n + Z.of_nat (length es) < 2 ^ 64 -> channel_ok c n ch ->
  channel_run c es ch = Some ch' -> channel_ok c (n + Z.of_nat (length es)) ch'.
Proof.
  revert n ch. induction es as [|e es IH]; intros n ch Hn Hl Hok Hr; cbn in *.
  - injection Hr as <-. by rewrite Z.add_0_r.
  - apply bind_Some in Hr as (ch1 & Hst & Hr).
    replace (n + Z.of_nat (S (length es))) with (n + 1 + Z.of_nat (length es)) by lia.
    eapply IH; [..|exact Hr]; [lia|lia|]. eapply channel_step_ok; [|exact Hok|exact Hst]. lia.
Qed.

(** ** Lemmas: percentiles *)

#[local] Opaque pow2 units.

(** A number between 0 and 1. *)
Lemma unit_within q : fltb binary64 d0 q = true -> fltb binary64 q d1 = true ->
  double_within (pow2 0) q /\ match of_bits binary64 q with S754_finite true _ _ => False | _ => True end.
Proof.
  unfold fltb, double_within. pose proof (of_bits_valid q) as Hv.
  change (of_bits binary64 d0) with (S754_zero false). change (of_bits binary64 d1) with (S754_finite false 4503599627370496 (-52)).
  destruct (of_bits binary64 q) as [s|s| |[] m e]; unfold SFltb; cbn [SFcompare within valid] in *;
    intros H0 H1; try discriminate; try (by destruct s; discriminate).
  split; [|exact I].
  assert (He : e <= -53 \/ e = -52 /\ Z.pos m <= 2 ^ 52).
  { revert H1. destruct (Z.compare_spec e (-52)) as [->|Hlt|Hlt]; intros H1; [|left; lia|discriminate].
    right. split; [reflexivity|]. destruct (Pos.compare_cont Eq m 4503599627370496) eqn:E; try discriminate.
    change (2 ^ 52) with (Z.pos 4503599627370496). apply Z.lt_le_incl. exact E. }
  destruct Hv as (Hr & Hm & _). destruct He as [He|[-> Hm']].
  - etrans; [exact (units_le (Z.pos m) (2 ^ 53) e ltac:(unfold K; lia) ltac:(lia))|].
    etrans; [apply (units_pow2 (2 ^ 53) e 53); [unfold K; lia..]|]. apply pow2_mono. unfold K; lia.
  - etrans; [apply (units_pow2 (Z.pos m) (-52) 52); [by unfold K|lia|exact Hm']|]. reflexivity.
Qed.

(** What [percentile] makes of its second argument. *)
Lemma clamp_within q : double_within (pow2 0) (fmax d0 (fmin d1 q)) /\
  match of_bits binary64 (fmax d0 (fmin d1 q)) with S754_finite true _ _ => False | _ => True end.
Proof.
  assert (H0 : double_within (pow2 0) d0) by (by apply withinb_ok; vm_compute).
  assert (H1 : double_within (pow2 0) d1) by (by apply withinb_ok; vm_compute).
  unfold fmin. destruct (fltb binary64 q d1) eqn:E1; unfold fmax.
  - destruct (fltb binary64 d0 q) eqn:E0; [by apply unit_within|done].
  - change (fltb binary64 d0 d1) with true. done.
Qed.

(** The percentile of a vector: 0 for an empty one, or an element; never an access out of bounds. *)
Lemma percentile_elem l q : Z.of_nat (length l) < 2 ^ 53 ->
  exists x, percentile l q = Some x /\ (l = [] /\ x = d0 \/ exists v, v ∈ l /\ x = of_Z binary64 v).
Proof.
  intros Hn. unfold percentile. destruct l as [|x0 l0] eqn:El; [by eexists; split; [|left]|]. rewrite <-El in *.
  assert (0 < Z.of_nat (length l)) by (subst; cbn; lia). clear El x0 l0.
  destruct (clamp_within q) as [Hq Hs].
  destruct (position_index (Z.of_nat (length l)) _ ltac:(lia) Hq Hs) as (idx & -> & Hidx). cbn [mbind option_bind].
  destruct (lookup_lt_is_Some_2 (merge_sort Z.le l) (Z.to_nat idx)) as [v Hv].
  { rewrite (merge_sort_Permutation Z.le l). lia. }
  rewrite Hv. cbn. eexists. split; [done|]. right. exists v. split; [|done].
  rewrite <-(merge_sort_Permutation Z.le l). by eapply list_elem_of_lookup_2.
Qed.

(** ** Lemmas: the sums *)

Fixpoint total_of {A} (f : A -> Z) (l : list A) : Z :=
  match l with [] => 0 | x :: l => f x + total_of f l end.

Lemma sum64_total f chs : Forall (fun ch => 0 <= f ch) chs -> total_of f chs < 2 ^ 64 -> sum64 f chs = total_of f chs.
Proof.
  intros Hp Hb. unfold sum64.
  assert (H : forall acc, 0 <= acc -> acc + total_of f chs < 2 ^ 64 ->
    foldl (fun acc ch => acc +[64] f ch) acc chs = acc + total_of f chs); [|by rewrite H by lia].
  clear Hb. assert (Hnn : forall l, Forall (fun ch => 0 <= f ch) l -> 0 <= total_of f l).
  { induction 1; cbn; lia. }
  induction Hp as [|ch chs Hc Hp IH]; intros acc Ha Hb; cbn in *; [lia|]. specialize (Hnn _ Hp).
  assert (acc +[64] f ch = acc + f ch) as -> by (apply wrap_small; unfold in_range; lia). rewrite IH by lia. lia.
Qed.

Lemma total_add {A} (f g h : A -> Z) chs : Forall (fun ch => f ch = g ch + h ch) chs -> total_of f chs = total_of g chs + total_of h chs.
Proof. induction 1; cbn; lia. Qed.

Lemma total_le {A} (f g : A -> Z) chs : Forall (fun ch => f ch <= g ch) chs -> total_of f chs <= total_of g chs.
Proof. induction 1; cbn; lia. Qed.

Lemma total_nonneg {A} (f : A -> Z) l : Forall (fun x => 0 <= f x) l -> 0 <= total_of f l.
Proof. induction 1; cbn; lia. Qed.

Lemma total_elem {A} (f : A -> Z) l x : Forall (fun x => 0 <= f x) l -> x ∈ l -> f x <= total_of f l.
Proof.
  intros Hl Hx. induction Hl as [|y l Hy Hl IH]; [by apply elem_of_nil in Hx|]. pose proof (total_nonneg f l Hl).
  apply elem_of_cons in Hx as [->|Hx]; cbn; [lia|]. specialize (IH Hx). lia.
Qed.

Lemma total_scale {A} (f : A -> Z) k l : total_of f l * k = total_of (fun x => f x * k) l.
Proof. induction l; cbn; lia. Qed.

Lemma max_element_bound l B : 0 <= B -> Forall (fun d => 0 <= d <= B) l -> 0 <= max_element l <= B.
Proof.
  intros HB Hl. destruct Hl as [|x l Hx Hl]; cbn; [lia|]. revert x Hx. induction Hl as [|y l Hy Hl IH]; intros x Hx; cbn; [lia|].
  apply IH. lia.
Qed.

(** ** Lemmas: the channels of a scenario *)

(** Every channel ends in a state of its invariant, for the number of its steps. *)
Definition channels_ok (c : ScenarioConfig) (env : ScenarioEnv) (ids : list nat) (chs : list Channel) : Prop :=
  Forall2 (fun id ch => channel_ok c (Z.of_nat (length (steps_of env id))) ch) ids chs.

Definition steps_total (env : ScenarioEnv) (ids : list nat) : Z := total_of (fun id => Z.of_nat (length (steps_of env id))) ids.

Lemma steps_total_nonneg env ids : 0 <= steps_total env ids.
Proof. apply total_nonneg, Forall_forall. intros. lia. Qed.

Lemma channels_run_ok c env ids chs : steps_total env ids < 2 ^ 64 ->
  mapM (fun ch => channel_run c (steps_of env ch) Channel_init) ids = Some chs -> channels_ok c env ids chs.
Proof.
  intros Hb Hm. apply mapM_Some in Hm. unfold channels_ok. revert Hb. induction Hm as [|id ch ids chs Hr Hm IH]; intros Hb; constructor.
  - unfold steps_total in Hb. cbn in Hb. pose proof (steps_total_nonneg env ids). unfold steps_total in *.
    apply (channel_run_ok c _ 0 Channel_init); [lia|lia|apply channel_init_ok|done].
  - apply IH. unfold steps_total in *. cbn in Hb. lia.
Qed.

Section Channels.
Context (c : ScenarioConfig) (env : ScenarioEnv) (ids : list nat) (chs : list Channel).
Context (Hok : channels_ok c env ids chs) (Hb : steps_total env ids < 2 ^ 64).

(** A bound by the number of steps carries over to the sums. *)
Lemma channels_bound (f : Channel -> Z) : (forall n ch, channel_ok c n ch -> 0 <= f ch <= n) ->
  Forall (fun ch => 0 <= f ch) chs /\ total_of f chs <= steps_total env ids.
Proof using Hok.
  intros Hf. unfold steps_total, channels_ok in *. clear Hb. induction Hok as [|id ch ids' chs' H H' IH]; cbn; [by split|].
  destruct (IH H') as [Hn Ht]. apply Hf in H. split; [constructor; [lia|done]|lia].
Qed.

Lemma channels_forall (P : Channel -> Prop) : (forall n ch, channel_ok c n ch -> P ch) -> Forall P chs.
Proof using Hok. intros HP. unfold channels_ok in Hok. clear Hb. induction Hok; constructor; eauto. Qed.

Lemma channels_sum (f : Channel -> Z) : (forall n ch, channel_ok c n ch -> 0 <= f ch <= n) -> sum64 f chs = total_of f chs.
Proof using Hok Hb. intros Hf. destruct (channels_bound f Hf). apply sum64_total; [done|lia]. Qed.

End Channels.

(** The counters of a state are bounded by its steps. *)
Lemma co_counter_bounds c n ch : channel_ok c n ch ->
  0 <= generated ch <= n /\ 0 <= dropped ch <= n /\ 0 <= delivered ch <= n /\ 0 <= total ch <= n /\ 0 <= success ch <= n /\
  0 <= timeouts ch <= n /\ total ch * fragments c <= generated ch.
Proof.
  intros [Hc Hq Hf Ht Hd Hl Hs Hz]. assert (1 <= fragments c) by (unfold fragments; lia).
  destruct (producer ch); nia.
Qed.

Lemma all_samples c env ids chs : channels_ok c env ids chs ->
  Forall (fun d => 0 <= d <= total_of delivered chs) (chs ≫= samples) /\
  Z.of_nat (length (chs ≫= samples)) <= steps_total env ids.
Proof.
  intros Hok. unfold steps_total, channels_ok in *. induction Hok as [|id ch ids chs H Hok [IHf IHl]]; cbn; [by split|].
  destruct (channels_bound c env ids chs Hok delivered) as [Hn _]; [intros n ch' Hch; by apply co_counter_bounds in Hch; lia|].
  apply total_nonneg in Hn. pose proof (co_counter_bounds _ _ _ H) as Hcb. destruct H as [Hc Hq Hf Ht Hd Hl Hs Hz].
  split; [apply Forall_app; split; (eapply samples_grow; [|eassumption]); lia|]. rewrite length_app. cbn in IHl. lia.
Qed.

(** The percentiles that a scenario reports. *)
Definition depth_value (l : list Z) (x : Z) : Prop := l = [] /\ x = d0 \/ exists v, v ∈ l /\ x = of_Z binary64 v.

Lemma max_element_le l x : x ∈ l -> x <= max_element l.
Proof.
  assert (H : forall l a x, x = a \/ x ∈ l -> x <= foldl Z.max a l).
  { clear. induction l as [|y l IH]; intros a x [->|Hx]; cbn; [lia|by apply elem_of_nil in Hx| |].
    - etrans; [|apply IH; by left]. lia.
    - apply elem_of_cons in Hx as [->|Hx]; [|apply IH; by right]. etrans; [|apply IH; by left]. lia. }
  destruct l as [|a l]; [by rewrite elem_of_nil|]. rewrite elem_of_cons. apply H.
Qed.

Lemma depth_value_le l x : Forall (fun d => 0 <= d) l -> depth_value l x -> exists d, x = of_Z binary64 d /\ 0 <= d <= max_element l.
Proof.
  intros Hl [[-> ->]|(v & Hv & ->)]; [by exists 0|]. exists v. split; [done|]. rewrite Forall_forall in Hl. split; [by apply Hl|].
  by apply max_element_le.
Qed.

Lemma length_bind_pairs {A B} (f : A -> list B) l : (forall x, length (f x) = 2%nat) -> length (l ≫= f) = (2 * length l)%nat.
Proof. intros Hf. induction l as [|x l IH]; cbn; [done|]. rewrite length_app, Hf. cbn in IH. lia. Qed.

(** The result is made of the sums. *)
Lemma summarize_returns c env chs : Z.of_nat (length (chs ≫= samples)) < 2 ^ 53 ->
  exists r, summarize c env chs = Some r /\
    generated_packets r = sum64 generated chs /\ dropped_packets r = sum64 dropped chs /\ delivered_packets r = sum64 delivered chs /\
    cpi_total r = sum64 total chs /\ cpi_success r = sum64 success chs /\ reassembly_timeout_total r = sum64 timeouts chs /\
    depth_value (chs ≫= samples) (p50 (queue_depth r)) /\ depth_value (chs ≫= samples) (p99 (queue_depth r)) /\
    max_depth (queue_depth r) = max_element (chs ≫= samples) /\ length (cpu_per_thread r) = (2 * cfg_channels c)%nat.
Proof.
  intros Hn. unfold summarize. destruct (percentile_elem _ d050 Hn) as (x & -> & Hx), (percentile_elem _ d099 Hn) as (y & -> & Hy).
  cbn [mbind option_bind]. eexists. split; [reflexivity|]. cbn. do 6 (split; [reflexivity|]). do 2 (split; [assumption|]). split; [reflexivity|].
  rewrite (length_bind_pairs _ (seq 0 _)) by done. rewrite length_seq. lia.
Qed.

(** ** Theorems *)

(** Whatever order the threads of the channels take, a scenario returns a result, which counts every packet as dropped or
    delivered and every CPI as successful or timed out; the depths it sampled are those of packets it delivered, and the
    percentiles are depths up to the largest. *)
Theorem scenario_accounting (c : ScenarioConfig) (env : ScenarioEnv) :
  (forall ch, (ch < cfg_channels c)%nat -> is_Some (channel_run c (steps_of env ch) Channel_init)) ->
  steps_total env (seq 0 (cfg_channels c)) < 2 ^ 53 ->
  exists r, run_scenario c env = Some r /\
    generated_packets r = dropped_packets r + delivered_packets r /\
    cpi_total r = cpi_success r + reassembly_timeout_total r /\
    cpi_total r * fragments c <= generated_packets r <= steps_total env (seq 0 (cfg_channels c)) /\
    (forall q, q = p50 (queue_depth r) \/ q = p99 (queue_depth r) -> exists d, q = of_Z binary64 d /\ 0 <= d <= max_depth (queue_depth r)) /\
    0 <= max_depth (queue_depth r) <= delivered_packets r /\
    length (cpu_per_thread r) = (2 * cfg_channels c)%nat.
Proof.
  intros Hrun Hb. set (ids := seq 0 (cfg_channels c)) in *.
  destruct (mapM (fun ch => channel_run c (steps_of env ch) Channel_init) ids) as [chs|] eqn:Hm.
  2: { apply mapM_None, Exists_exists in Hm as (id & Hid & Hno). apply elem_of_seq in Hid.
       destruct (Hrun id) as [x Hx]; [lia|congruence]. }
  assert (Hok : channels_ok c env ids chs) by (apply channels_run_ok; [lia|done]).
  destruct (all_samples c env ids chs Hok) as [Hs Hl].
  destruct (summarize_returns c env chs ltac:(lia)) as (r & Hr & Hg & Hdr & Hdl & Ht & Hsu & Hto & H50 & H99 & Hmx & Hcpu).
  exists r. split; [unfold run_scenario; fold ids; by rewrite Hm|]. rewrite Hg, Hdr, Hdl, Ht, Hsu, Hto, Hmx, Hcpu.
  rewrite !(channels_sum c env ids chs Hok ltac:(lia)) by (intros n ch Hch; apply co_counter_bounds in Hch; lia).
  repeat split.
  - apply total_add, (channels_forall c env ids); [done|]. intros n ch []. lia.
  - apply total_add, (channels_forall c env ids); [done|]. intros n ch []. lia.
  - rewrite total_scale. apply total_le, (channels_forall c env ids); [done|]. intros n ch Hch. apply co_counter_bounds in Hch. lia.
  - apply (channels_bound c env ids); [done|]. intros n ch Hch. apply co_counter_bounds in Hch. lia.
  - intros q Hq. apply depth_value_le; [eapply Forall_impl; [exact Hs|]; cbn; lia|]. by destruct Hq as [->| ->].
  - apply (max_element_bound _ (total_of delivered chs)); [|done]. apply total_nonneg, (channels_forall c env ids); [done|]. intros n ch []. lia.
  - apply (max_element_bound _ (total_of delivered chs)); [|done]. apply total_nonneg, (channels_forall c env ids); [done|]. intros n ch []. lia.
Qed.

(** One round of the consumer. *)
Definition consumer_round : list ChannelEvent := [TestLoop false; LoadDepth; Take].

Lemma consumer_round_takes c ch rest : 0 < depth ch < 2 ^ 64 -> consumer ch = CTest ->
  channel_run c (consumer_round ++ rest) ch = channel_run c rest (consume ch (depth ch)) /\
  depth (consume ch (depth ch)) = depth ch - 1 /\ consumer (consume ch (depth ch)) = CTest.
Proof.
  intros Hd Hc. destruct ch as [d g dr dl t s to f fl pr co sa]. cbn in *. subst co.
  rewrite (proj2 (Z.ltb_lt 0 d)) by lia. cbn. rewrite (proj2 (Z.ltb_lt 0 d)) by lia.
  assert (d -[64] 1 = d - 1) as -> by (apply wrap_small; unfold in_range; lia). by destruct pr.
Qed.

(** Once [running] is false and nothing more is produced, the consumer ends after one round for each packet left, and
    leaves the channel empty. *)
Theorem consumer_drains (c : ScenarioConfig) (ch : Channel) :
  0 <= depth ch < 2 ^ 64 -> consumer ch = CTest ->
  exists ch', channel_run c (concat (replicate (Z.to_nat (depth ch)) consumer_round) ++ [TestLoop false]) ch = Some ch' /\
    consumer ch' = CDone /\ depth ch' = 0.
Proof.
  intros Hd Hc. remember (Z.to_nat (depth ch)) as n eqn:Hn. revert ch Hd Hc Hn.
  induction n as [|n IH]; intros ch Hd Hc Hn; cbn [replicate concat].
  - assert (H0 : depth ch = 0) by lia. exists (set_consumer CDone ch). cbn. rewrite Hc, H0. cbn.
    destruct ch; cbn in *. by destruct producer0.
  - rewrite <-(assoc_L (++)). destruct (consumer_round_takes c ch (concat (replicate n consumer_round) ++ [TestLoop false])) as (-> & Hd' & Hc'); [lia|done|].
    apply IH; [lia|done|lia].
Qed.

(** The producer may still hand over its last packet after the consumer saw the end: the packet counts as delivered, and
    stays in the channel. *)
Example packet_left_behind (c : ScenarioConfig) :
  drop_prob c = d0 ->
  exists ch', channel_run c [TestLoop false; Produce d0] Channel_init = Some ch' /\
    delivered ch' = 1 /\ depth ch' = 1 /\ consumer ch' = CDone.
Proof. intros H. cbn. rewrite H. eexists. split; [reflexivity|]. done. Qed.

(** A scenario at twice the capacity of its one channel: the first packet is delivered and taken, the second one dropped, so that the
    first CPI of two fragments times out. *)
Definition demo_config : ScenarioConfig :=
  mkScenarioConfig "demo" 1 d1 (of_Z binary64 200) (of_Z binary64 100) 1400 2 16 [0].

Definition demo_env : ScenarioEnv :=
  mkScenarioEnv (fun _ => [Sample; Produce d099; TestDepth d099; Sample; TestLoop true; Produce d0; LoadDepth; TestDepth d099; Take; TestLoop false])
    0 1000000000 (fun _ => 500000000) (fun _ => 0) (Some "").

Example demo_scenario :
  run_scenario demo_config demo_env =
    Some (mkScenarioResult "demo" 1 d1 (of_Z binary64 200) d1 (fdiv binary64 (of_Z binary64 11200) d1e6) 2 1 1 d050 1 0 d0 1 (mkQueueDepthStats d0 d0 1)
      [mkThreadCpuUtilization "producer_ch0" (of_Z binary64 50); mkThreadCpuUtilization "consumer_ch0" d0] [0]
      (fdiv binary64 (fdiv binary64 (of_Z binary64 11200) d1e6) d8) "numastat empty output").
Proof. vm_compute. reflexivity. Qed.

End Bench.
