(* ===== verification/BenchReport.v ===== *)
(** The text of a benchmark's result, [scenario_to_json] of [tools/benchmarks/bench_simulation.h], the file it is
    written to, and the conversions that [capacity_test.cpp] and [stress_test.cpp] share; and that the text is JSON
    that reads back as the result. *)

From S2P Require Import Prelude Float FloatLaws Text CText Json JsonTree Logger PcapAnalyze Bench.
From stdpp Require Import strings.
From Stdlib Require Import Ascii.
Open Scope Z_scope.
Import Float Text CText JsonTree PcapAnalyze Bench.

Module BenchReport.

(** ** The text *)

(** The same function as the logger's. *)
Definition json_escape : string -> string := Logger.escape_json.

Definition quoted (s : string) : string := quote +:+ json_escape s +:+ quote.

(** An [int]. *)
Definition int_text (n : Z) : string := if n <? 0 then "-" +:+ decimal (- n) else decimal n.

(** The elements of an array, each on a line that ends in a comma except the last. *)
Fixpoint comma_lines (ts : list string) : string :=
  match ts with
  | [] => ""
  | t :: ts => t +:+ (match ts with [] => "" | _ => "," end) +:+ nl +:+ comma_lines ts
  end.

(** The elements of an array within a line. *)
Fixpoint comma_list (ts : list string) : string :=
  match ts with
  | [] => ""
  | t :: ts => t +:+ (match ts with [] => "" | _ => ", " end) +:+ comma_list ts
  end.

Definition thread_entry (pad2 : string) (t : ThreadCpuUtilization) : string :=
  pad2 +:+ "  " +:+ "{" +:+ member "thread" (quoted (thread_name t)) +:+ ", " +:+ member "utilization_pct" (fixed_at 6 (utilization_pct t)) +:+ "}".

Definition scenario_to_json (r : ScenarioResult) (indent : nat) : string :=
  let pad := blanks indent in
  let pad2 := blanks (indent + 2) in
  let pad4 := pad2 +:+ "  " in
  pad +:+ "{" +:+ nl
  +:+ pad2 +:+ member "name" (quoted (name r)) +:+ "," +:+ nl
  +:+ pad2 +:+ member "channels" (decimal (channels r)) +:+ "," +:+ nl
  +:+ pad2 +:+ member "duration_seconds" (fixed_at 3 (duration_seconds r)) +:+ "," +:+ nl
  +:+ pad2 +:+ member "offered_pps" (fixed_at 2 (offered_pps r)) +:+ "," +:+ nl
  +:+ pad2 +:+ member "measured_pps" (fixed_at 2 (measured_pps r)) +:+ "," +:+ nl
  +:+ pad2 +:+ member "throughput_mbps" (fixed_at 2 (throughput_mbps r)) +:+ "," +:+ nl
  +:+ pad2 +:+ member "packet_loss_rate" (fixed_at 6 (loss_rate r)) +:+ "," +:+ nl
  +:+ pad2 +:+ member "packets" ("{" +:+ nl
    +:+ pad4 +:+ member "generated" (decimal (generated_packets r)) +:+ "," +:+ nl
    +:+ pad4 +:+ member "delivered" (decimal (delivered_packets r)) +:+ "," +:+ nl
    +:+ pad4 +:+ member "dropped" (decimal (dropped_packets r)) +:+ nl
    +:+ pad2 +:+ "}") +:+ "," +:+ nl
  +:+ pad2 +:+ member "cpi_reassembly" ("{" +:+ nl
    +:+ pad4 +:+ member "total" (decimal (cpi_total r)) +:+ "," +:+ nl
    +:+ pad4 +:+ member "success" (decimal (cpi_success r)) +:+ "," +:+ nl
    +:+ pad4 +:+ member "success_rate" (fixed_at 6 (cpi_reassembly_success_rate r)) +:+ "," +:+ nl
    +:+ pad4 +:+ member "timeout_total" (decimal (reassembly_timeout_total r)) +:+ nl
    +:+ pad2 +:+ "}") +:+ "," +:+ nl
  +:+ pad2 +:+ member "queue_depth" ("{" +:+ nl
    +:+ pad4 +:+ member "p50" (fixed_at 6 (p50 (queue_depth r))) +:+ "," +:+ nl
    +:+ pad4 +:+ member "p99" (fixed_at 6 (p99 (queue_depth r))) +:+ "," +:+ nl
    +:+ pad4 +:+ member "max" (decimal (max_depth (queue_depth r))) +:+ nl
    +:+ pad2 +:+ "}") +:+ "," +:+ nl
  +:+ pad2 +:+ member "cpu_utilization_per_thread" ("[" +:+ nl
    +:+ comma_lines (thread_entry pad2 <$> cpu_per_thread r)
    +:+ pad2 +:+ "]") +:+ "," +:+ nl
  +:+ pad2 +:+ member "memory_bandwidth" ("{" +:+ nl
    +:+ pad4 +:+ member "mb_per_s_estimate" (fixed_at 6 (memory_bandwidth_mb_s_estimate r)) +:+ "," +:+ nl
    +:+ pad4 +:+ member "numastat_snapshot" (quoted (numastat_snapshot r)) +:+ nl
    +:+ pad2 +:+ "}") +:+ "," +:+ nl
  +:+ pad2 +:+ member "numa_nodes" ("[" +:+ comma_list (int_text <$> numa_nodes r) +:+ "]") +:+ nl
  +:+ pad +:+ "}".

(** Whether the file opens, and whether its stream is good behind the text. *)
Record FileEnv := mkFileEnv { is_open : bool; good : bool }.

(** The result, and what was written to the file of this name. *)
Definition write_text_file (env : FileEnv) (path content : string) : bool * list (string * string) :=
  if is_open env then (good env, [(path, content)]) else (false, []).

(** ** Conversions, with a fall-back *)

(** The argument is not a null pointer: it is one of [argv]. *)
Definition parse_size (value : string) (fallback : Z) : Z :=
  let '(parsed, rest) := strtoull value in
  if bool_decide (rest = value) || negb (bool_decide (rest = EmptyString)) then fallback else parsed.

Definition parse_double `{Strtod} (value : string) (fallback : Z) : Z :=
  let '(parsed, rest) := strtod value in
  if bool_decide (rest = value) || negb (bool_decide (rest = EmptyString)) then fallback else parsed.

(** ** The result as a JSON value *)

Definition thread_tree (t : ThreadCpuUtilization) : value :=
  JObj [("thread", JStr (thread_name t)); ("utilization_pct", JNum (fixed_at 6 (utilization_pct t)))].

Definition scenario_tree (r : ScenarioResult) : value :=
  JObj [("name", JStr (name r)); ("channels", JNum (decimal (channels r)));
    ("duration_seconds", JNum (fixed_at 3 (duration_seconds r))); ("offered_pps", JNum (fixed_at 2 (offered_pps r)));
    ("measured_pps", JNum (fixed_at 2 (measured_pps r))); ("throughput_mbps", JNum (fixed_at 2 (throughput_mbps r)));
    ("packet_loss_rate", JNum (fixed_at 6 (loss_rate r)));
    ("packets", JObj [("generated", JNum (decimal (generated_packets r))); ("delivered", JNum (decimal (delivered_packets r)));
       ("dropped", JNum (decimal (dropped_packets r)))]);
    ("cpi_reassembly", JObj [("total", JNum (decimal (cpi_total r))); ("success", JNum (decimal (cpi_success r)));
       ("success_rate", JNum (fixed_at 6 (cpi_reassembly_success_rate r))); ("timeout_total", JNum (decimal (reassembly_timeout_total r)))]);
    ("queue_depth", JObj [("p50", JNum (fixed_at 6 (p50 (queue_depth r)))); ("p99", JNum (fixed_at 6 (p99 (queue_depth r))));
       ("max", JNum (decimal (max_depth (queue_depth r))))]);
    ("cpu_utilization_per_thread", JArr (thread_tree <$> cpu_per_thread r));
    ("memory_bandwidth", JObj [("mb_per_s_estimate", JNum (fixed_at 6 (memory_bandwidth_mb_s_estimate r)));
       ("numastat_snapshot", JStr (numastat_snapshot r))]);
    ("numa_nodes", JArr ((fun n => JNum (int_text n)) <$> numa_nodes r))].

(** A result that can be written as JSON: its numbers are finite, and its texts printable. *)
Record reportable (r : ScenarioResult) : Prop := {
  rep_name : printable (name r);
  rep_numastat : printable (numastat_snapshot r);
  rep_numbers : Forall (fun x => finite x = true) [duration_seconds r; offered_pps r; measured_pps r; throughput_mbps r; loss_rate r;
    cpi_reassembly_success_rate r; p50 (queue_depth r); p99 (queue_depth r); memory_bandwidth_mb_s_estimate r];
  rep_threads : Forall (fun t => printable (thread_name t) /\ finite (utilization_pct t) = true) (cpu_per_thread r);
}.

(** ** Lemmas: arrays *)

Lemma text_quoted s : printable s -> text_of (JStr s) (quoted s).
Proof. intros. constructor. by apply literal_escape. Qed.

Lemma text_int n : text_of (JNum (int_text n)) (int_text n).
Proof.
  unfold int_text. destruct (n <? 0); [|apply text_decimal]. constructor.
  - pose proof (number_parts true (- n) EmptyString I eq_refl) as H. by rewrite append_nil_r in H.
  - rewrite chars_in_app. by rewrite (digits_num (decimal _)) by apply decimal_digits.
Qed.

(** A text behind white space. *)
Definition indented (v : value) (t : string) : Prop := exists w o, ws w /\ t = w +:+ o /\ text_of v o.

Lemma comma_lines_end vs ts ind' t : ws ind' -> ts <> [] -> Forall2 indented vs ts ->
  ends vs (nl +:+ comma_lines ts +:+ ind' +:+ "]" +:+ t) t.
Proof.
  intros Hi Hne H. induction H as [|v x vs ts (w & o & Hw & -> & Hv) H IH]; [done|]. cbn [comma_lines]. rewrite !append_assoc.
  destruct H as [|v' x' vs ts H' H].
  - cbn [comma_lines]. change ("" +:+ ?x) with x. by apply ends_last.
  - by apply ends_cons; [| |apply IH].
Qed.

Lemma comma_lines_text vs ts ind' : ws ind' -> Forall2 indented vs ts -> text_of (JArr vs) ("[" +:+ nl +:+ comma_lines ts +:+ ind' +:+ "]").
Proof.
  intros Hi H. destruct (decide (ts = [])) as [->|Hne].
  - apply Forall2_nil_inv_r in H as ->. cbn [comma_lines]. change ("" +:+ ?x) with x. rewrite <-(append_assoc nl). by apply TArr0.
  - apply ends_text. pose proof (comma_lines_end vs ts ind' EmptyString Hi Hne H) as He. by rewrite append_nil_r in He.
Qed.

Lemma comma_list_end vs ts t : ts <> [] -> Forall2 text_of vs ts -> forall w, ws w -> ends vs (w +:+ comma_list ts +:+ "]" +:+ t) t.
Proof.
  intros Hne H. induction H as [|v x vs ts Hv H IH]; [done|]. intros w Hw. cbn [comma_list]. rewrite !append_assoc.
  destruct H as [|v' x' vs ts H' H].
  - cbn [comma_list]. change ("" +:+ ?x) with x. by apply ends_inline_last.
  - change (", " +:+ ?x) with ("," +:+ " " +:+ x). by apply ends_inline; [| |apply IH].
Qed.

Lemma comma_list_text vs ts : Forall2 text_of vs ts -> text_of (JArr vs) ("[" +:+ comma_list ts +:+ "]").
Proof.
  intros H. destruct (decide (ts = [])) as [->|Hne].
  - apply Forall2_nil_inv_r in H as ->. by apply (TArr0 "").
  - apply ends_text. pose proof (comma_list_end vs ts EmptyString Hne H "" eq_refl) as He. by rewrite append_nil_r in He.
Qed.

Lemma Forall2_fmap_same {A} (P : value -> string -> Prop) (f : A -> value) (g : A -> string) l :
  Forall (fun x => P (f x) (g x)) l -> Forall2 P (f <$> l) (g <$> l).
Proof. induction 1; by constructor. Qed.

Lemma thread_entry_text ind t : ws ind -> printable (thread_name t) -> finite (utilization_pct t) = true ->
  indented (thread_tree t) (thread_entry ind t).
Proof.
  intros Hi Hn Hf. exists (ind +:+ "  "). eexists. split; [by unfold ws in *; rewrite chars_in_app, Hi|].
  split; [unfold thread_entry; by rewrite append_assoc|]. apply closes_text.
  apply (closes_inline ""); [done|by apply literal_plain|by apply text_quoted|].
  by apply (closes_inline_last " "); [|apply literal_plain|apply text_fixed].
Qed.

(** ** Lemmas: the text of a result *)

Ltac json_value := first [apply text_decimal|by apply text_fixed|by apply text_quoted|by apply text_general|by constructor; apply literal_plain].
Ltac json_member := apply closes_cons; [done|by apply literal_plain|json_value|].
Ltac json_last := apply closes_last; [done|done|by apply literal_plain|json_value].
Tactic Notation "json_object" integer(n) := apply closes_cons; [done|by apply literal_plain|apply closes_text; do n json_member; json_last|].

Lemma scenario_text r indent : reportable r -> indented (scenario_tree r) (scenario_to_json r indent).
Proof.
  intros [Hn Hs Hf Ht]. apply Forall_cons_1 in Hf as [H1 Hf]. apply Forall_cons_1 in Hf as [H2 Hf]. apply Forall_cons_1 in Hf as [H3 Hf].
  apply Forall_cons_1 in Hf as [H4 Hf]. apply Forall_cons_1 in Hf as [H5 Hf]. apply Forall_cons_1 in Hf as [H6 Hf].
  apply Forall_cons_1 in Hf as [H7 Hf]. apply Forall_cons_1 in Hf as [H8 Hf]. apply Forall_cons_1 in Hf as [H9 _].
  unfold scenario_to_json. cbv zeta. pose proof (blanks_ws indent) as Hp. pose proof (blanks_ws (indent + 2)) as Hp2.
  revert Hp Hp2. generalize (blanks indent) (blanks (indent + 2)). intros pad pad2 Hp Hp2.
  assert (Hp4 : ws (pad2 +:+ "  ")) by (unfold ws in *; by rewrite chars_in_app, Hp2).
  eexists pad, _. split; [done|]. split; [reflexivity|]. apply closes_text.
  do 7 json_member. json_object 2. json_object 3. json_object 2.
  apply closes_cons; [done|by apply literal_plain| |].
  { apply comma_lines_text; [done|]. apply Forall2_fmap_same. eapply Forall_impl; [exact Ht|]. intros t [Hn' Hu]. by apply thread_entry_text. }
  json_object 1. apply closes_last; [done|done|by apply literal_plain|]. apply comma_list_text, Forall2_fmap_same, Forall_forall.
  intros n _. apply text_int.
Qed.

(** ** Theorems *)

(** The text of a result with finite numbers and printable texts is JSON, whatever its indentation, and reads back as the result. *)
Theorem scenario_reads_back (r : ScenarioResult) (indent : nat) : reportable r -> read_json (scenario_to_json r indent) = Some (scenario_tree r).
Proof.
  intros Hr. destruct (scenario_text r indent Hr) as (w & o & Hw & -> & Ho).
  pose proof (read_json_text (scenario_tree r) o w EmptyString Hw Ho eq_refl) as H. by rewrite append_nil_r in H.
Qed.

Example demo_reads_back : exists r, run_scenario demo_config demo_env = Some r /\ read_json (scenario_to_json r 4) = Some (scenario_tree r).
Proof.
  eexists. split; [exact demo_scenario|]. apply scenario_reads_back. split; [done|done| |]; repeat constructor; by vm_compute.
Qed.

End BenchReport.
