(* ===== verification/CapacityTest.v ===== *)
(** The program [tools/benchmarks/capacity_test.cpp]: its arguments, the three fixed scenarios, the binary search for the highest
    rate that keeps the thresholds, its report and its exit code.  The runs of the scenarios, the clock and the file are inputs. *)

From S2P Require Import Prelude Float FloatLaws Text CText Json JsonTree PcapAnalyze Bench BenchReport.
From stdpp Require Import strings.
From Stdlib Require Import Ascii.
Open Scope Z_scope.
Import Float Text CText JsonTree PcapAnalyze Bench BenchReport.

Module CapacityTest.

(** ** The arguments *)

Record Options := mkOptions {
  duration_seconds : Z;
  base_pps_per_channel : Z;
  packet_size_bytes : Z;
  output_json : string;
  loss_threshold : Z;
  cpi_success_threshold : Z;
}.

Definition d6 : Z := 0x4018000000000000.
Definition d06 : Z := 0x3FE3333333333333.    (* 0.6 *)
Definition d115 : Z := 0x3FF2666666666666.   (* 1.15 *)
Definition d150 : Z := 0x3FF8000000000000.   (* 1.50 *)

(** 12.0, 120000.0, 0.02 and 0.98. *)
Definition Options_default : Options :=
  mkOptions 0x4028000000000000 0x40FD4C0000000000 1400 "" 0x3F947AE147AE147B 0x3FEF5C28F5C28F5C.

(** An option with a value; [None] for any other argument. *)
Definition set_option `{Strtod} (arg v : string) (o : Options) : option Options :=
  let '(mkOptions dur base size out loss cpi) := o in
  if bool_decide (arg = "--duration") then Some (mkOptions (parse_double v dur) base size out loss cpi)
  else if bool_decide (arg = "--base-pps") then Some (mkOptions dur (parse_double v base) size out loss cpi)
  else if bool_decide (arg = "--packet-size") then Some (mkOptions dur base (parse_size v size) out loss cpi)
  else if bool_decide (arg = "--loss-threshold") then Some (mkOptions dur base size out (parse_double v loss) cpi)
  else if bool_decide (arg = "--cpi-threshold") then Some (mkOptions dur base size out loss (parse_double v cpi))
  else if bool_decide (arg = "--output") then Some (mkOptions dur base size v loss cpi)
  else None.

(** An argument that is no option, or an option without a value, is skipped. *)
Fixpoint parse_loop `{Strtod} (args : list string) (o : Options) : Options :=
  match args with
  | [] => o
  | arg :: args' =>
    match args' with
    | [] => o
    | v :: rest => match set_option arg v o with Some o' => parse_loop rest o' | None => parse_loop args' o end
    end
  end.

Definition default_output_path (ts : Z) : string := "capacity_report_" +:+ int_text ts +:+ ".json".

(** The seconds of the system clock name the report when the arguments do not. *)
Definition parse_args `{Strtod} (args : list string) (ts : Z) : Options :=
  let '(mkOptions dur base size out loss cpi) as o := parse_loop args Options_default in
  if bool_decide (out = EmptyString) then mkOptions dur base size (default_output_path ts) loss cpi else o.

(** ** The scenarios *)

Definition pass_threshold (r : ScenarioResult) (loss_threshold cpi_success_threshold : Z) : bool :=
  fleb binary64 (loss_rate r) loss_threshold && fleb binary64 cpi_success_threshold (cpi_reassembly_success_rate r).

Definition single_receiver_limit (o : Options) : ScenarioConfig :=
  mkScenarioConfig "single_receiver_limit" 1 (duration_seconds o) (fmul binary64 (base_pps_per_channel o) d115) (base_pps_per_channel o)
    (packet_size_bytes o) 8 2048 [0].

Definition dual_receiver_concurrency_numa (o : Options) : ScenarioConfig :=
  mkScenarioConfig "dual_receiver_concurrency_numa" 2 (duration_seconds o) (base_pps_per_channel o) (base_pps_per_channel o)
    (packet_size_bytes o) 8 3072 [0; 1].

Definition three_receiver_full_load (o : Options) : ScenarioConfig :=
  mkScenarioConfig "three_receiver_full_load" 3 (duration_seconds o) (base_pps_per_channel o) (base_pps_per_channel o)
    (packet_size_bytes o) 8 4096 [0; 1; 1].

(** ** The search *)

Record StaircaseProbe := mkStaircaseProbe {
  multiplier : Z;
  probe_pps : Z;
  probe_loss : Z;
  probe_success : Z;
  pass : bool;
}.

Record Search := mkSearch {
  low : Z;
  high : Z;
  best : Z;
  best_result : ScenarioResult;
  staircase : list StaircaseProbe;
}.

Definition ScenarioResult_default : ScenarioResult :=
  mkScenarioResult "" 0 d0 d0 d0 d0 0 0 0 d0 0 0 d0 0 (mkQueueDepthStats d0 d0 0) [] [] d0 "".

Definition Search_init : Search := mkSearch d050 d150 d050 ScenarioResult_default [].

Definition midpoint (low high : Z) : Z := fmul binary64 (fadd binary64 low high) d050.

Definition probe_config (o : Options) (round : nat) (mid : Z) : ScenarioConfig :=
  mkScenarioConfig ("staircase_probe_round_" +:+ decimal (Z.of_nat round)) 3 (fmax d6 (fmul binary64 (duration_seconds o) d06))
    (fmul binary64 (base_pps_per_channel o) mid) (base_pps_per_channel o) (packet_size_bytes o) 8 4096 [0; 1; 1].

(** One round, whose run of the scenario is [env]. *)
Definition search_round (o : Options) (env : ScenarioEnv) (round : nat) (st : Search) : option Search :=
  let mid := midpoint (low st) (high st) in
  probe ← run_scenario (probe_config o round mid) env;
  let ok := pass_threshold probe (loss_threshold o) (cpi_success_threshold o) in
  let probes := staircase st ++ [mkStaircaseProbe mid (measured_pps probe) (loss_rate probe) (cpi_reassembly_success_rate probe) ok] in
  Some (if ok then mkSearch mid (high st) mid probe probes else mkSearch (low st) mid (best st) (best_result st) probes).

Fixpoint search_rounds (o : Options) (envs : nat -> ScenarioEnv) (rounds : list nat) (st : Search) : option Search :=
  match rounds with
  | [] => Some st
  | round :: rounds => st ← search_round o (envs round) round st; search_rounds o envs rounds st
  end.

Definition capacity_search (o : Options) (envs : nat -> ScenarioEnv) : option Search := search_rounds o envs (seq 0 8) Search_init.

(** ** The report *)

Definition rename (n : string) (r : ScenarioResult) : ScenarioResult :=
  let '(mkScenarioResult _ ch du ofp me th ge dr de lo ct cs cr rt qd cpu nn mb ns) := r in
  mkScenarioResult n ch du ofp me th ge dr de lo ct cs cr rt qd cpu nn mb ns.

Definition probe_entry (p : StaircaseProbe) : string :=
  "      {" +:+ member "multiplier" (general (multiplier p)) +:+ ", " +:+ member "measured_pps" (general (probe_pps p))
  +:+ ", " +:+ member "loss_rate" (general (probe_loss p)) +:+ ", " +:+ member "cpi_success_rate" (general (probe_success p))
  +:+ ", " +:+ member "pass" (if pass p then "true" else "false") +:+ "}".

Definition capacity_report (o : Options) (st : Search) (scenarios : list ScenarioResult) : string :=
  "{" +:+ nl
  +:+ "  " +:+ member "tool" (quote +:+ "bench_capacity" +:+ quote) +:+ "," +:+ nl
  +:+ "  " +:+ member "objective" (quote +:+ "capacity and bottleneck discovery for receiver paths" +:+ quote) +:+ "," +:+ nl
  +:+ "  " +:+ member "config" ("{" +:+ nl
    +:+ "    " +:+ member "duration_seconds" (general (duration_seconds o)) +:+ "," +:+ nl
    +:+ "    " +:+ member "base_pps_per_channel" (general (base_pps_per_channel o)) +:+ "," +:+ nl
    +:+ "    " +:+ member "packet_size_bytes" (decimal (packet_size_bytes o)) +:+ "," +:+ nl
    +:+ "    " +:+ member "loss_threshold" (general (loss_threshold o)) +:+ "," +:+ nl
    +:+ "    " +:+ member "cpi_success_threshold" (general (cpi_success_threshold o)) +:+ nl
    +:+ "  " +:+ "}") +:+ "," +:+ nl
  +:+ "  " +:+ member "capacity_search" ("{" +:+ nl
    +:+ "    " +:+ member "best_rate_multiplier" (general (best st)) +:+ "," +:+ nl
    +:+ "    " +:+ member "binary_search_rounds" (decimal (Z.of_nat (length (staircase st)))) +:+ "," +:+ nl
    +:+ "    " +:+ member "probes" ("[" +:+ nl +:+ comma_lines (probe_entry <$> staircase st) +:+ "    " +:+ "]") +:+ nl
    +:+ "  " +:+ "}") +:+ "," +:+ nl
  +:+ "  " +:+ member "scenarios" ("[" +:+ nl +:+ comma_lines ((fun r => scenario_to_json r 4) <$> scenarios) +:+ "  " +:+ "]") +:+ nl
  +:+ "}" +:+ nl.

(** ** The program *)

Inductive Event := Out (text : string) | Err (text : string) | Written (path text : string).

(** The seconds of the system clock, the runs of the scenarios in the order of their calls, and the file. *)
Record Env := mkEnv { system_seconds : Z; runs : nat -> ScenarioEnv; report_file : FileEnv }.

(** The exit code and what was printed and written; [None] when a run is no order of the threads' steps. *)
Definition main `{Strtod} (args : list string) (env : Env) : option (Z * list Event) :=
  let o := parse_args args (system_seconds env) in
  r1 ← run_scenario (single_receiver_limit o) (runs env 0);
  r2 ← run_scenario (dual_receiver_concurrency_numa o) (runs env 1);
  r3 ← run_scenario (three_receiver_full_load o) (runs env 2);
  st ← capacity_search o (fun round => runs env (3 + round));
  let text := capacity_report o st [r1; r2; r3; rename "staircase_capacity_limit" (best_result st)] in
  let '(ok, files) := write_text_file (report_file env) (output_json o) text in
  let written := (fun '(path, content) => Written path content) <$> files in
  Some (if ok then (0, written ++ [Out text; Out ("report_path=" +:+ output_json o +:+ nl)])
        else (1, written ++ [Err ("failed to write JSON report: " +:+ output_json o +:+ nl)])).

(** ** Lemmas: the search *)

(** The rate of [i] parts of 256. *)
Definition grid (i : Z) : Z := fdiv binary64 (of_Z binary64 i) (of_Z binary64 256).

Lemma grid_ends : grid 128 = d050 /\ grid 384 = d150.
Proof. by vm_compute. Qed.

(** The halves of the intervals of round [k]. *)
Definition halves_ok (k : nat) : bool :=
  let w := 2 ^ Z.of_nat (7 - k) in
  forallb (fun t => let a := 128 + Z.of_nat t * (2 * w) in midpoint (grid a) (grid (a + 2 * w)) =? grid (a + w)) (seq 0 (Nat.pow 2 k)).

Lemma halves k : (k < 8)%nat -> halves_ok k = true.
Proof. intros Hk. do 8 (destruct k as [|k]; [vm_compute; reflexivity|]). lia. Qed.

Lemma midpoint_grid (k : nat) (w t : Z) : (k < 8)%nat -> w = 2 ^ Z.of_nat (7 - k) -> 0 <= t < 2 ^ Z.of_nat k ->
  midpoint (grid (128 + t * (2 * w))) (grid (128 + t * (2 * w) + 2 * w)) = grid (128 + t * (2 * w) + w).
Proof.
  intros Hk -> Ht. pose proof (halves k Hk) as H. unfold halves_ok in H. rewrite forallb_forall in H.
  specialize (H (Z.to_nat t)). rewrite Z2Nat.id in H by lia. apply Z.eqb_eq, H, in_seq.
  pose proof (Nat2Z.inj_pow 2 k) as Hpow. change (Z.of_nat 2) with 2 in Hpow. lia.
Qed.

#[local] Opaque grid midpoint.

(** The probes of a search whose interval is [a .. b]: those that passed are at most [a], the others at least [b]. *)
Definition probes_ok (a b : Z) (l : list StaircaseProbe) : Prop :=
  Forall (fun p => exists j, multiplier p = grid j /\ (if pass p then j <= a else b <= j)) l.

(** The best result is that of a probe that passed, or the default when none did. *)
Definition best_of (o : Options) (st : Search) : Prop :=
  Forall (fun p => pass p = false) (staircase st) /\ best st = d050 /\ best_result st = ScenarioResult_default \/
  exists p, p ∈ staircase st /\ pass p = true /\ multiplier p = best st /\ probe_loss p = loss_rate (best_result st) /\
    probe_success p = cpi_reassembly_success_rate (best_result st) /\
    pass_threshold (best_result st) (loss_threshold o) (cpi_success_threshold o) = true.

(** After [k] rounds the interval is one of [2 ^ k] of equal width. *)
Record search_ok (o : Options) (k : nat) (st : Search) : Prop := {
  so_interval : exists t, 0 <= t < 2 ^ Z.of_nat k /\
    let w := 2 ^ Z.of_nat (8 - k) in let a := 128 + t * w in
    low st = grid a /\ high st = grid (a + w) /\ probes_ok a (a + w) (staircase st);
  so_best : best st = low st;
  so_result : best_of o st;
  so_length : length (staircase st) = k;
}.

Lemma search_init_ok o : search_ok o 0 Search_init.
Proof.
  destruct grid_ends as [H1 H2]. split; [|reflexivity|left; split; [constructor|split; reflexivity]|reflexivity].
  exists 0. split; [lia|]. cbn [low high staircase Search_init]. rewrite <-H1, <-H2. split; [reflexivity|]. split; [reflexivity|constructor].
Qed.

Lemma probes_shrink a b a' b' l : a <= a' -> b' <= b -> probes_ok a b l -> probes_ok a' b' l.
Proof.
  intros Ha Hb Hl. eapply Forall_impl; [exact Hl|]. intros p (j & Hj & Hp). exists j. split; [done|]. destruct (pass p); lia.
Qed.

Lemma search_round_ok o env k st st' : (k < 8)%nat -> search_ok o k st -> search_round o env k st = Some st' -> search_ok o (S k) st'.
Proof.
  intros Hk [(t & Ht & Hlow & Hhigh & Hp) Hb Hr Hl] Hst. unfold search_round in Hst.
  apply bind_Some in Hst as (probe & Hrun & Hst). cbv zeta in Hlow, Hhigh, Hp.
  set (w := 2 ^ Z.of_nat (8 - S k)) in *. assert (Hw : 2 ^ Z.of_nat (8 - k) = 2 * w).
  { unfold w. rewrite <-Z.pow_succ_r by lia. f_equal. lia. }
  assert (0 < w) by (apply Z.pow_pos_nonneg; lia). rewrite Hw in *.
  assert (Hmid : midpoint (low st) (high st) = grid (128 + t * (2 * w) + w)).
  { rewrite Hlow, Hhigh. apply (midpoint_grid k); [done|unfold w; f_equal; lia|done]. }
  rewrite Hmid in Hst. assert (Hpow : 2 ^ Z.of_nat (S k) = 2 * 2 ^ Z.of_nat k) by (rewrite Nat2Z.inj_succ; apply Z.pow_succ_r; lia).
  destruct (pass_threshold probe _ _) eqn:Ep; injection Hst as <-; split; cbn [low high best best_result staircase];
    try (rewrite length_app; cbn; lia); try reflexivity; try exact Hb.
  - exists (2 * t + 1). split; [lia|]. cbv zeta. fold w. replace (128 + (2 * t + 1) * w) with (128 + t * (2 * w) + w) by lia.
    split; [done|]. split; [rewrite Hhigh; f_equal; lia|].
    apply Forall_app. split; [eapply probes_shrink; [| |exact Hp]; lia|]. apply Forall_singleton. eexists. split; [done|]. cbn. lia.
  - right. eexists. split; [apply elem_of_app; right; by left|]. done.
  - exists (2 * t). split; [lia|]. cbv zeta. fold w. replace (128 + 2 * t * w) with (128 + t * (2 * w)) by lia.
    split; [done|]. split; [done|].
    apply Forall_app. split; [eapply probes_shrink; [| |exact Hp]; lia|]. apply Forall_singleton. eexists. split; [done|]. cbn. lia.
  - destruct Hr as [(Hf & Hb' & Hd)|(p & Hpe & Hpp)]; [left|right; exists p; split; [apply elem_of_app; by left|done]].
    split; [|done]. by apply Forall_app; split; [|apply Forall_singleton].
Qed.

Lemma search_rounds_ok o envs n k st st' : (k + n <= 8)%nat -> search_ok o k st -> search_rounds o envs (seq k n) st = Some st' ->
  search_ok o (k + n) st'.
Proof.
  revert k st. induction n as [|n IH]; intros k st Hn Hok Hr; cbn in Hr.
  - injection Hr as <-. by rewrite Nat.add_0_r.
  - apply bind_Some in Hr as (st1 & H1 & Hr). rewrite <-Nat.add_succ_comm. apply (IH (S k) st1); [lia| |done].
    eapply search_round_ok; [|exact Hok|exact H1]. lia.
Qed.

(** ** Theorems *)

(** The search ends with an interval of one 256th: every rate it probed is a number of 256ths, the ones that kept the
    thresholds are at most [best], the others above it; [best] is the multiplier of a probe that passed, or 0.5 when none did. *)
Theorem capacity_search_brackets (o : Options) (envs : nat -> ScenarioEnv) (st : Search) :
  capacity_search o envs = Some st ->
  exists i, 128 <= i < 384 /\ best st = grid i /\ length (staircase st) = 8%nat /\ best_of o st /\
    Forall (fun p => exists j, multiplier p = grid j /\ (pass p = true <-> j <= i)) (staircase st).
Proof.
  intros Hs. apply search_rounds_ok in Hs as [(t & Ht & Hlow & Hhigh & Hp) Hb Hr Hl]; [|lia|apply search_init_ok].
  exists (128 + t). change (2 ^ Z.of_nat (0 + 8)) with 256 in Ht. change (2 ^ Z.of_nat (8 - (0 + 8))) with 1 in Hlow, Hp. rewrite Z.mul_1_r in *.
  split; [lia|]. split; [congruence|]. split; [done|]. split; [done|].
  eapply Forall_impl; [exact Hp|]. cbn. intros p (j & Hj & Hpj). exists j. split; [done|]. destruct (pass p); [done|]. split; [done|lia].
Qed.

(** When every run is one of the threads, the search returns. *)
Theorem capacity_search_returns (o : Options) (envs : nat -> ScenarioEnv) :
  (forall round mid, is_Some (run_scenario (probe_config o round mid) (envs round))) -> is_Some (capacity_search o envs).
Proof.
  intros H. unfold capacity_search. generalize Search_init. induction (seq 0 8) as [|k l IH]; intros st; [done|].
  cbn [search_rounds]. unfold search_round at 1. destruct (H k (midpoint (low st) (high st))) as [r ->]. cbn [mbind option_bind]. apply IH.
Qed.

(** *** The report *)

Definition probe_tree (p : StaircaseProbe) : value :=
  JObj [("multiplier", JNum (general (multiplier p))); ("measured_pps", JNum (general (probe_pps p))); ("loss_rate", JNum (general (probe_loss p)));
        ("cpi_success_rate", JNum (general (probe_success p))); ("pass", JBool (pass p))].

Definition capacity_tree (o : Options) (st : Search) (scenarios : list ScenarioResult) : value :=
  JObj [("tool", JStr "bench_capacity"); ("objective", JStr "capacity and bottleneck discovery for receiver paths");
    ("config", JObj [("duration_seconds", JNum (general (duration_seconds o))); ("base_pps_per_channel", JNum (general (base_pps_per_channel o)));
       ("packet_size_bytes", JNum (decimal (packet_size_bytes o))); ("loss_threshold", JNum (general (loss_threshold o)));
       ("cpi_success_threshold", JNum (general (cpi_success_threshold o)))]);
    ("capacity_search", JObj [("best_rate_multiplier", JNum (general (best st)));
       ("binary_search_rounds", JNum (decimal (Z.of_nat (length (staircase st))))); ("probes", JArr (probe_tree <$> staircase st))]);
    ("scenarios", JArr (scenario_tree <$> scenarios))].

Definition probe_finite (p : StaircaseProbe) : Prop :=
  finite (multiplier p) = true /\ finite (probe_pps p) = true /\ finite (probe_loss p) = true /\ finite (probe_success p) = true.

Definition options_finite (o : Options) : Prop :=
  finite (duration_seconds o) = true /\ finite (base_pps_per_channel o) = true /\ finite (loss_threshold o) = true /\
  finite (cpi_success_threshold o) = true.

Lemma probe_entry_text p : probe_finite p -> indented (probe_tree p) (probe_entry p).
Proof.
  intros (H1 & H2 & H3 & H4). exists "      ". eexists. split; [done|]. split; [reflexivity|]. apply closes_text.
  apply (closes_inline ""); [done|by apply literal_plain|by apply text_general|].
  do 3 (apply (closes_inline " "); [done|by apply literal_plain|by apply text_general|]).
  apply (closes_inline_last " "); [done|by apply literal_plain|constructor].
Qed.

(** The report is JSON that reads back as the options, the search and the results. *)
Theorem capacity_report_reads_back (o : Options) (st : Search) (scenarios : list ScenarioResult) :
  options_finite o -> finite (best st) = true -> Forall probe_finite (staircase st) -> Forall reportable scenarios ->
  read_json (capacity_report o st scenarios) = Some (capacity_tree o st scenarios).
Proof.
  intros (H1 & H2 & H3 & H4) Hb Hp Hs. unfold capacity_report, capacity_tree. apply closes_read.
  do 2 json_member. json_object 4. apply closes_cons; [done|by apply literal_plain| |].
  { apply closes_text. do 2 json_member. apply closes_last; [done|done|by apply literal_plain|].
    apply comma_lines_text, Forall2_fmap_same; [done|]. eapply Forall_impl; [exact Hp|]. apply probe_entry_text. }
  apply (closes_last "  " ""); [done|done|by apply literal_plain|].
  apply comma_lines_text, Forall2_fmap_same; [done|]. eapply Forall_impl; [exact Hs|]. intros r Hr. by apply scenario_text.
Qed.

(** *** The program *)

(** The program runs eleven scenarios and writes the report: the exit code is 0 exactly when the report was written, and then the
    file has the text that is printed. *)
Theorem capacity_exit `{Strtod} (args : list string) (env : Env) :
  (forall k c, is_Some (run_scenario c (runs env k))) ->
  let o := parse_args args (system_seconds env) in
  exists code events, main args env = Some (code, events) /\
    (code = 0 <-> is_open (report_file env) && good (report_file env) = true) /\
    (code = 0 -> exists st rs, length rs = 4%nat /\ events =
       [Written (output_json o) (capacity_report o st rs); Out (capacity_report o st rs); Out ("report_path=" +:+ output_json o +:+ nl)]) /\
    (code <> 0 -> code = 1 /\ last events = Some (Err ("failed to write JSON report: " +:+ output_json o +:+ nl))).
Proof.
  intros Hr o. unfold main. fold o. destruct (Hr 0%nat (single_receiver_limit o)) as [r1 ->]. cbn [mbind option_bind].
  destruct (Hr 1%nat (dual_receiver_concurrency_numa o)) as [r2 ->]. cbn [mbind option_bind].
  destruct (Hr 2%nat (three_receiver_full_load o)) as [r3 ->]. cbn [mbind option_bind].
  destruct (capacity_search_returns o (fun round => runs env (3 + round))) as [st ->]; [intros; apply Hr|]. cbn [mbind option_bind].
  set (rs := [r1; r2; r3; rename "staircase_capacity_limit" (best_result st)]).
  unfold write_text_file. destruct (is_open (report_file env)), (good (report_file env)); cbn [andb]; eexists _, _;
    (split; [reflexivity|]); (split; [done|]); (split; [|intros; done]); try done; intros _. by exists st, rs.
Qed.

(** Nothing is received: no probe passes, and the report names 0.5, which was never probed, as the best rate. *)
Definition silent_env : ScenarioEnv := mkScenarioEnv (fun _ => []) 0 1000000000 (fun _ => 0) (fun _ => 0) None.

Example capacity_unprobed :
  exists st, capacity_search Options_default (fun _ => silent_env) = Some st /\ best st = d050 /\ best_result st = ScenarioResult_default /\
    multiplier <$> staircase st = grid <$> [256; 192; 160; 144; 136; 132; 130; 129].
Proof. eexists. split; [vm_compute; reflexivity|]. split; [reflexivity|]. split; [reflexivity|]. vm_compute. reflexivity. Qed.

End CapacityTest.
