(* ===== verification/StressTest.v ===== *)
(** The program [tools/benchmarks/stress_test.cpp]: its arguments with the list of rates, a scenario at full load and one for each
    rate, its report and its exit code.  The runs of the scenarios, the clock and the file are inputs. *)

From S2P Require Import Prelude Float FloatLaws Text CText Json JsonTree PcapAnalyze Bench BenchReport.
From stdpp Require Import strings.
From Stdlib Require Import Ascii.
Open Scope Z_scope.
Import Float Text CText JsonTree PcapAnalyze Bench BenchReport.

Module StressTest.

(** ** The arguments *)

Record Options := mkOptions {
  duration_seconds : Z;
  base_pps_per_channel : Z;
  packet_size_bytes : Z;
  rate_steps : string;
  output_json : string;
}.

Definition d5 : Z := 0x4014000000000000.
Definition d075 : Z := 0x3FE8000000000000.   (* 0.75 *)
Definition d110 : Z := 0x3FF199999999999A.   (* 1.10 *)

(** 20.0 and 120000.0. *)
Definition Options_default : Options := mkOptions 0x4034000000000000 0x40FD4C0000000000 1400 "0.50,0.75,1.00,1.10" "".

(** The tokens that [std::getline] finds: behind the last comma there is one only when a character is left. *)
Fixpoint tokens (acc s : string) : list string :=
  match s with
  | EmptyString => match acc with EmptyString => [] | _ => [acc] end
  | String c s => if bool_decide (c = ","%char) then acc :: tokens EmptyString s else tokens (acc +:+ String c EmptyString) s
  end.

Definition parse_steps `{Strtod} (text : string) : list Z :=
  match (fun token => parse_double token d1) <$> filter (fun token => token <> EmptyString) (tokens EmptyString text) with
  | [] => [d050; d075; d1; d110]
  | steps => steps
  end.

(** An option with a value; [None] for any other argument. *)
Definition set_option `{Strtod} (arg v : string) (o : Options) : option Options :=
  let '(mkOptions dur base size steps out) := o in
  if bool_decide (arg = "--duration") then Some (mkOptions (parse_double v dur) base size steps out)
  else if bool_decide (arg = "--base-pps") then Some (mkOptions dur (parse_double v base) size steps out)
  else if bool_decide (arg = "--packet-size") then Some (mkOptions dur base (parse_size v size) steps out)
  else if bool_decide (arg = "--rate-steps") then Some (mkOptions dur base size v out)
  else if bool_decide (arg = "--output") then Some (mkOptions dur base size steps v)
  else None.

(** An argument that is no option, or an option without a value, is skipped. *)
Fixpoint parse_loop `{Strtod} (args : list string) (o : Options) : Options :=
  match args with
  | [] => o
  | arg :: args' =>
    match args' with
    | [] => o
    | v :: rest => match set_option arg v o with Some o' => parse_loop rest o' | None => parse_loop args' o end
    end
  end.

Definition default_output_path (ts : Z) : string := "stress_report_" +:+ int_text ts +:+ ".json".

(** The seconds of the system clock name the report when the arguments do not. *)
Definition parse_args `{Strtod} (args : list string) (ts : Z) : Options :=
  let '(mkOptions dur base size steps out) as o := parse_loop args Options_default in
  if bool_decide (out = EmptyString) then mkOptions dur base size steps (default_output_path ts) else o.

(** ** The scenarios *)

Definition three_channel_full_load (o : Options) : ScenarioConfig :=
  mkScenarioConfig "three_channel_full_load" 3 (duration_seconds o) (base_pps_per_channel o) (base_pps_per_channel o)
    (packet_size_bytes o) 8 4096 [0; 1; 1].

Definition rate_gradient (o : Options) (step : Z) : ScenarioConfig :=
  mkScenarioConfig ("rate_gradient_" +:+ fixed step) 3 (fmax d5 (fmul binary64 (duration_seconds o) d050))
    (fmul binary64 (base_pps_per_channel o) step) (base_pps_per_channel o) (packet_size_bytes o) 8 4096 [0; 1; 1].

(** The scenarios of the rates, whose runs start at number [k]. *)
Fixpoint run_steps (o : Options) (runs : nat -> ScenarioEnv) (k : nat) (steps : list Z) : option (list ScenarioResult) :=
  match steps with
  | [] => Some []
  | step :: steps =>
    r ← run_scenario (rate_gradient o step) (runs k);
    rs ← run_steps o runs (S k) steps;
    Some (r :: rs)
  end.

(** ** The report *)

Definition stress_report (o : Options) (steps : list Z) (scenarios : list ScenarioResult) : string :=
  "{" +:+ nl
  +:+ "  " +:+ member "tool" (quote +:+ "bench_stress" +:+ quote) +:+ "," +:+ nl
  +:+ "  " +:+ member "objective" (quote +:+ "three-channel stress with rate gradients and core KPI collection" +:+ quote) +:+ "," +:+ nl
  +:+ "  " +:+ member "config" ("{" +:+ nl
    +:+ "    " +:+ member "duration_seconds" (general (duration_seconds o)) +:+ "," +:+ nl
    +:+ "    " +:+ member "base_pps_per_channel" (general (base_pps_per_channel o)) +:+ "," +:+ nl
    +:+ "    " +:+ member "packet_size_bytes" (decimal (packet_size_bytes o)) +:+ "," +:+ nl
    +:+ "    " +:+ member "rate_steps" ("[" +:+ comma_list (general <$> steps) +:+ "]") +:+ nl
    +:+ "  " +:+ "}") +:+ "," +:+ nl
  +:+ "  " +:+ member "scenarios" ("[" +:+ nl +:+ comma_lines ((fun r => scenario_to_json r 4) <$> scenarios) +:+ "  " +:+ "]") +:+ nl
  +:+ "}" +:+ nl.

(** ** The program *)

Inductive Event := Out (text : string) | Err (text : string) | Written (path text : string).

(** The seconds of the system clock, the runs of the scenarios in the order of their calls, and the file. *)
Record Env := mkEnv { system_seconds : Z; runs : nat -> ScenarioEnv; report_file : FileEnv }.

(** The exit code and what was printed and written; [None] when a run is no order of the threads' steps. *)
Definition main `{Strtod} (args : list string) (env : Env) : option (Z * list Event) :=
  let o := parse_args args (system_seconds env) in
  let steps := parse_steps (rate_steps o) in
  r ← run_scenario (three_channel_full_load o) (runs env 0);
  rs ← run_steps o (runs env) 1 steps;
  let text := stress_report o steps (r :: rs) in
  let '(ok, files) := write_text_file (report_file env) (output_json o) text in
  let written := (fun '(path, content) => Written path content) <$> files in
  Some (if ok then (0, written ++ [Out text; Out ("report_path=" +:+ output_json o +:+ nl)])
        else (1, written ++ [Err ("failed to write JSON report: " +:+ output_json o +:+ nl)])).

(** ** Lemmas *)

(** Tokens with commas between them. *)
Fixpoint join (ts : list string) : string :=
  match ts with
  | [] => EmptyString
  | t :: ts => match ts with [] => t | _ => t +:+ "," +:+ join ts end
  end.

(** A token: characters, none of them a comma. *)
Definition token (t : string) : Prop := t <> EmptyString /\ chars_in (fun c => negb (bool_decide (c = ","%char))) t = true.

Lemma tokens_token t rest : chars_in (fun c => negb (bool_decide (c = ","%char))) t = true -> forall acc,
  tokens acc (t +:+ rest) = tokens (acc +:+ t) rest.
Proof.
  induction t as [|c t IH]; intros Ht acc; [by rewrite append_nil_r|]. cbn [chars_in] in Ht. apply andb_true_iff in Ht as [Hc Ht].
  rewrite append_cons. cbn [tokens]. destruct (bool_decide (c = ","%char)); [done|]. rewrite IH, append_assoc by done. done.
Qed.

Lemma tokens_join ts : Forall token ts -> tokens EmptyString (join ts) = ts.
Proof.
  intros H. induction H as [|t ts [Hne Ht] H IH]; [done|]. cbn [join]. destruct ts as [|t' ts].
  - pose proof (tokens_token t EmptyString Ht EmptyString) as E. rewrite append_nil_r in E. rewrite E.
    change (EmptyString +:+ t) with t. cbn. by destruct t.
  - rewrite tokens_token by done. change (EmptyString +:+ t) with t. change ("," +:+ ?x) with (String ","%char x).
    cbn [tokens]. rewrite bool_decide_eq_true_2 by done. by rewrite IH.
Qed.

Lemma run_steps_length o runs k steps rs : run_steps o runs k steps = Some rs -> length rs = length steps.
Proof.
  revert k rs. induction steps as [|s steps IH]; intros k rs Hr; cbn [run_steps] in Hr; [by injection Hr as <-|].
  apply bind_Some in Hr as (r & _ & Hr). apply bind_Some in Hr as (rs' & Hr' & [= <-]). cbn. f_equal. by apply (IH (S k)).
Qed.

Lemma run_steps_returns o runs : (forall k c, is_Some (run_scenario c (runs k))) -> forall steps k, is_Some (run_steps o runs k steps).
Proof.
  intros H steps. induction steps as [|s steps IH]; intros k; [done|]. cbn [run_steps]. destruct (H k (rate_gradient o s)) as [r ->].
  cbn [mbind option_bind]. destruct (IH (S k)) as [rs ->]. done.
Qed.

(** ** Theorems *)

(** A list of rates is read as its tokens, in order; a text without a token stands for the four default rates, so there always is a rate. *)
Theorem parse_steps_exact `{Strtod} (ts : list string) : Forall token ts -> ts <> [] ->
  parse_steps (join ts) = (fun t => parse_double t d1) <$> ts.
Proof.
  intros Ht Hne. unfold parse_steps. rewrite tokens_join by done.
  assert (filter (fun t : string => t <> EmptyString) ts = ts) as ->.
  { clear Hne. induction Ht as [|t ts [Hn _] Ht IH]; [done|]. by rewrite filter_cons_True, IH. }
  by destruct ts.
Qed.

Theorem parse_steps_nonempty `{Strtod} (text : string) : parse_steps text <> [].
Proof. unfold parse_steps. by destruct (_ <$> _). Qed.

(** *** The report *)

Definition stress_tree (o : Options) (steps : list Z) (scenarios : list ScenarioResult) : value :=
  JObj [("tool", JStr "bench_stress"); ("objective", JStr "three-channel stress with rate gradients and core KPI collection");
    ("config", JObj [("duration_seconds", JNum (general (duration_seconds o))); ("base_pps_per_channel", JNum (general (base_pps_per_channel o)));
       ("packet_size_bytes", JNum (decimal (packet_size_bytes o))); ("rate_steps", JArr ((fun x => JNum (general x)) <$> steps))]);
    ("scenarios", JArr (scenario_tree <$> scenarios))].

(** The report is JSON that reads back as the options, the rates and the results. *)
Theorem stress_report_reads_back (o : Options) (steps : list Z) (scenarios : list ScenarioResult) :
  finite (duration_seconds o) = true -> finite (base_pps_per_channel o) = true -> Forall (fun x => finite x = true) steps ->
  Forall reportable scenarios -> read_json (stress_report o steps scenarios) = Some (stress_tree o steps scenarios).
Proof.
  intros H1 H2 Hx Hs. unfold stress_report, stress_tree. apply closes_read.
  do 2 json_member. apply closes_cons; [done|by apply literal_plain| |].
  { apply closes_text. do 3 json_member. apply closes_last; [done|done|by apply literal_plain|].
    apply comma_list_text, Forall2_fmap_same. eapply Forall_impl; [exact Hx|]. apply text_general. }
  apply (closes_last "  " ""); [done|done|by apply literal_plain|].
  apply comma_lines_text, Forall2_fmap_same; [done|]. eapply Forall_impl; [exact Hs|]. intros r Hr. by apply scenario_text.
Qed.

(** The program runs the full load and one scenario for each rate, and writes the report: the exit code is 0 exactly when the
    report was written, and then the file has the text that is printed. *)
Theorem stress_exit `{Strtod} (args : list string) (env : Env) :
  (forall k c, is_Some (run_scenario c (runs env k))) ->
  let o := parse_args args (system_seconds env) in
  let steps := parse_steps (rate_steps o) in
  exists code events, main args env = Some (code, events) /\
    (code = 0 <-> is_open (report_file env) && good (report_file env) = true) /\
    (code = 0 -> exists rs, length rs = S (length steps) /\ events =
       [Written (output_json o) (stress_report o steps rs); Out (stress_report o steps rs); Out ("report_path=" +:+ output_json o +:+ nl)]) /\
    (code <> 0 -> code = 1 /\ last events = Some (Err ("failed to write JSON report: " +:+ output_json o +:+ nl))).
Proof.
  intros Hr o steps. unfold main. fold o steps. destruct (Hr 0%nat (three_channel_full_load o)) as [r ->]. cbn [mbind option_bind].
  destruct (run_steps_returns o (runs env) Hr steps 1) as [rs Hrs]. rewrite Hrs. cbn [mbind option_bind]. apply run_steps_length in Hrs.
  unfold write_text_file. destruct (is_open (report_file env)), (good (report_file env)); cbn [andb]; eexists _, _;
    (split; [reflexivity|]); (split; [done|]); (split; [|intros; done]); try done; intros _.
  exists (r :: rs). split; [cbn; by rewrite Hrs|done].
Qed.

Example steps_cases :
  tokens "" "0.5,,1," = ["0.5"; ""; "1"] /\ tokens "" "" = [] /\ tokens "" "," = [""] /\ join ["0.5"; "1"] = "0.5,1".
Proof. by vm_compute. Qed.

End StressTest.
