(* ===== verification/FpgaRxLimit.v ===== *)
(** The program [tools/benchmarks/fpga_rx_limit.cpp]: the packets its senders make and the check of its receiver, a trial at one
    rate, the search for the highest rate, its report and its exit code.  The results of the socket calls, the clocks and the
    file are inputs. *)

From S2P Require Import Prelude Float FloatLaws Text CText Json JsonTree Protocol Validator Emulator PcapAnalyze Bench BenchReport.
From stdpp Require Import strings.
From Stdlib Require Import Ascii.
Open Scope Z_scope.
Import Float Text CText JsonTree Protocol Validator BenchReport.

Module FpgaRxLimit.

(** ** Configuration *)

Record BenchConfig := mkBenchConfig {
  bind_ip : string;
  port : Z;
  payload_bytes : Z;
  trial_duration_sec : Z;
  warmup_sec : Z;
  sender_threads : Z;
  loss_threshold : Z;
  binary_search_rounds : Z;
  start_pps : Z;
  max_pps : Z;
  output_json : string;
}.

Definition d0 : Z := 0.
Definition d1 : Z := 0x3FF0000000000000.
Definition d2 : Z := 0x4000000000000000.
Definition d8 : Z := 0x4020000000000000.
Definition d05 : Z := 0x3FE0000000000000.   (* 0.5 *)
Definition d1e6 : Z := 0x412E848000000000.
Definition d1e9 : Z := 0x41CDCD6500000000.

(** 4.0, 1.0, 0.01, 10000.0 and 2000000.0. *)
Definition BenchConfig_default : BenchConfig :=
  mkBenchConfig "127.0.0.1" 9999 256 0x4010000000000000 d1 2 0x3F847AE147AE147B 8 0x40C3880000000000 0x413E848000000000 "".

Definition default_report_path (ts : Z) : string := "fpga_rx_limit_report_" +:+ int_text ts +:+ ".json".

Definition parse_u16 (s : string) (fallback : Z) : Z :=
  let v := parse_size s fallback in if 65535 <? v then fallback else u16 v.

(** An option with a value; [None] for any other argument. *)
Definition set_option `{Strtod} (arg v : string) (c : BenchConfig) : option BenchConfig :=
  let '(mkBenchConfig ip po pay dur warm thr loss rounds start mx out) := c in
  if bool_decide (arg = "--bind-ip") then Some (mkBenchConfig v po pay dur warm thr loss rounds start mx out)
  else if bool_decide (arg = "--port") then Some (mkBenchConfig ip (parse_u16 v po) pay dur warm thr loss rounds start mx out)
  else if bool_decide (arg = "--payload-bytes") then Some (mkBenchConfig ip po (parse_size v pay) dur warm thr loss rounds start mx out)
  else if bool_decide (arg = "--duration") then Some (mkBenchConfig ip po pay (parse_double v dur) warm thr loss rounds start mx out)
  else if bool_decide (arg = "--warmup") then Some (mkBenchConfig ip po pay dur (parse_double v warm) thr loss rounds start mx out)
  else if bool_decide (arg = "--sender-threads") then Some (mkBenchConfig ip po pay dur warm (Z.max 1 (parse_size v thr)) loss rounds start mx out)
  else if bool_decide (arg = "--loss-threshold") then Some (mkBenchConfig ip po pay dur warm thr (parse_double v loss) rounds start mx out)
  else if bool_decide (arg = "--start-pps") then Some (mkBenchConfig ip po pay dur warm thr loss rounds (parse_double v start) mx out)
  else if bool_decide (arg = "--max-pps") then Some (mkBenchConfig ip po pay dur warm thr loss rounds start (parse_double v mx) out)
  else if bool_decide (arg = "--rounds") then Some (mkBenchConfig ip po pay dur warm thr loss (Z.max 1 (parse_size v rounds)) start mx out)
  else if bool_decide (arg = "--output") then Some (mkBenchConfig ip po pay dur warm thr loss rounds start mx v)
  else None.

(** An argument that is no option, or an option without a value, is skipped. *)
Fixpoint parse_loop `{Strtod} (args : list string) (c : BenchConfig) : BenchConfig :=
  match args with
  | [] => c
  | arg :: args' =>
    match args' with
    | [] => c
    | v :: rest => match set_option arg v c with Some c' => parse_loop rest c' | None => parse_loop args' c end
    end
  end.

Definition parse_args `{Strtod} (args : list string) (ts : Z) : BenchConfig :=
  let '(mkBenchConfig ip po pay dur warm thr loss rounds start mx out) as c := parse_loop args BenchConfig_default in
  if bool_decide (out = EmptyString) then mkBenchConfig ip po pay dur warm thr loss rounds start mx (default_report_path ts) else c.

(** ** Packets *)

(** The check of the receiver thread. *)
Definition is_data_packet_valid (data : bytes) : bool :=
  let len := Z.of_nat (length data) in
  if len <? COMMON_HEADER_SIZE + DataSpecificHeader_SIZE then false
  else
    let h := CommonHeader_load data in
    if negb (magic h =? PROTOCOL_MAGIC) then false
    else if negb (protocol_version h =? PROTOCOL_VERSION) then false
    else if negb (packet_type h =? PacketType_to_u8 DATA) then false
    else if negb (len =? COMMON_HEADER_SIZE + payload_len h) then false
    else
      let s := DataSpecificHeader_load (drop (Z.to_nat COMMON_HEADER_SIZE) data) in
      if (total_frags s =? 0) || (total_frags s <=? frag_index s) then false else true.

(** The packet of a sender, with the two readings of the clock; the specific header and the pattern are those of the emulator's
    single packets. *)
Definition make_packet_template (payload_bytes now now' : Z) : bytes :=
  let payload_bytes := if payload_bytes <? DataSpecificHeader_SIZE then DataSpecificHeader_SIZE else payload_bytes in
  CommonHeader_bytes (mkCommonHeader PROTOCOL_MAGIC 1 now (u16 payload_bytes) (PacketType_to_u8 DATA) PROTOCOL_VERSION
    Emulator.DACS_01 Emulator.SPS 1 0 0 0 [0; 0; 0; 0])
  ++ DataSpecificHeader_bytes (Emulator.data_header 1 now' payload_bytes)
  ++ Emulator.pattern 72 (Z.to_nat (payload_bytes - DataSpecificHeader_SIZE)).

(** The headers before a packet is sent again: its number and its frame from the shared counters, and the clock. *)
Definition stamp (seq now frame now' : Z) (pkt : bytes) : bytes :=
  let h := CommonHeader_load pkt in
  let s := DataSpecificHeader_load (drop 32 pkt) in
  CommonHeader_bytes (mkCommonHeader (magic h) (u32 seq) now (payload_len h) (packet_type h) (protocol_version h) (source_id h) (dest_id h)
    (control_epoch h) (ext_flags h) (reserved1 h) (reserved2 h) (reserved3 h))
  ++ DataSpecificHeader_bytes (mkDataSpecificHeader (u32 frame) (u32 frame) (pulse_index s) (sample_offset s) (sample_count s) now'
    (health_summary s) (reserved_health s) (beam_id s) (frag_index s) (total_frags s) (tail_frag_payload_bytes s))
  ++ drop 72 pkt.

(** ** A trial *)

Record TrialResult := mkTrialResult {
  target_pps : Z;
  sent_pps : Z;
  recv_pps : Z;
  throughput_mbps : Z;
  sent_packets : Z;
  recv_packets : Z;
  recv_valid_packets : Z;
  loss_rate : Z;
  pass : bool;
}.

Definition TrialResult_at (target : Z) : TrialResult := mkTrialResult target d0 d0 d0 0 0 0 d0 false.

(** What the trial meets: whether its receive socket opens and is bound; what [sendto] of all senders and [recv] return up to the first
    and up to the second snapshot ([None] is a time-out or an error); and the nanoseconds between the snapshots. *)
Record TrialEnv := mkTrialEnv {
  socket_ok : bool;
  bind_ok : bool;
  sends_warm : list Z;
  sends_measured : list Z;
  recvs_warm : list (option bytes);
  recvs_measured : list (option bytes);
  elapsed_ns : Z;
}.

(** The counter of the senders. *)
Definition count_sends (results : list Z) (sent : Z) : Z := foldl (fun sent n => if 0 <? n then inc64 sent else sent) sent results.

(** The counters of the receiver: all packets, and the valid ones. *)
Definition receive (results : list (option bytes)) (counts : Z * Z) : Z * Z :=
  foldl (fun '(packets, valid) r =>
    match r with
    | None | Some [] => (packets, valid)
    | Some data => (inc64 packets, if is_data_packet_valid data then inc64 valid else valid)
    end) counts results.

Definition difference (after before : Z) : Z := if before <=? after then after - before else 0.

Definition run_trial (c : BenchConfig) (target : Z) (env : TrialEnv) : TrialResult :=
  if negb (socket_ok env) || negb (bind_ok env) then TrialResult_at target
  else
    let sent_begin := count_sends (sends_warm env) 0 in
    let recv_begin := receive (recvs_warm env) (0, 0) in
    let sent_end := count_sends (sends_measured env) sent_begin in
    let recv_end := receive (recvs_measured env) recv_begin in
    let elapsed := fdiv binary64 (of_Z binary64 (elapsed_ns env)) d1e9 in
    let sent := difference sent_end sent_begin in
    let received := difference (fst recv_end) (fst recv_begin) in
    let valid := difference (snd recv_end) (snd recv_begin) in
    let rate n := if fltb binary64 d0 elapsed then fdiv binary64 (of_Z binary64 n) elapsed else d0 in
    mkTrialResult target (rate sent) (rate valid)
      (fdiv binary64 (fmul binary64 (fmul binary64 (rate valid) (of_Z binary64 (COMMON_HEADER_SIZE +[64] payload_bytes c))) d8) d1e6)
      sent received valid
      (if 0 <? sent then fsub binary64 d1 (fdiv binary64 (of_Z binary64 valid) (of_Z binary64 sent)) else d1) false.

(** ** The search *)

Record SearchResult := mkSearchResult { best_target_pps : Z; best_trial : TrialResult; probes : list TrialResult }.

Definition with_pass (ok : bool) (t : TrialResult) : TrialResult :=
  let '(mkTrialResult a b c d e f g h _) := t in mkTrialResult a b c d e f g h ok.

(** The trial number [k], judged and recorded; a trial that passes is the best so far. *)
Definition probe (c : BenchConfig) (envs : nat -> TrialEnv) (target : Z) (r : SearchResult) : bool * SearchResult :=
  let t := run_trial c target (envs (length (probes r))) in
  let ok := fleb binary64 (loss_rate t) (loss_threshold c) in
  let t := with_pass ok t in
  (ok, if ok then mkSearchResult target t (probes r ++ [t]) else mkSearchResult (best_target_pps r) (best_trial r) (probes r ++ [t])).

(** Doubling up to the first rate that fails or the highest rate: [low], [high] and the result; [None] when the fuel runs out. *)
Fixpoint climb (fuel : nat) (c : BenchConfig) (envs : nat -> TrialEnv) (low high : Z) (r : SearchResult) : option (Z * Z * SearchResult) :=
  match fuel with
  | O => None
  | S fuel =>
    if fltb binary64 high (max_pps c) then
      let next := Bench.fmin (max_pps c) (fmul binary64 high d2) in
      let '(ok, r) := probe c envs next r in
      if ok then climb fuel c envs next next r else Some (low, next, r)
    else Some (low, high, r)
  end.

Fixpoint bisect (rounds : nat) (c : BenchConfig) (envs : nat -> TrialEnv) (l r : Z) (res : SearchResult) : SearchResult :=
  match rounds with
  | O => res
  | S rounds =>
    let mid := fmul binary64 (fadd binary64 l r) d05 in
    let '(ok, res) := probe c envs mid res in
    if ok then bisect rounds c envs mid r res else bisect rounds c envs l mid res
  end.

Definition SearchResult_init : SearchResult := mkSearchResult d0 (TrialResult_at d0) [].

Definition find_limit (fuel : nat) (c : BenchConfig) (envs : nat -> TrialEnv) : option SearchResult :=
  let low := start_pps c in
  let high := Bench.fmin (max_pps c) (start_pps c) in
  let '(_, r) := probe c envs low SearchResult_init in
  '(low, high, r) ← climb fuel c envs low high r;
  if (match last (probes r) with Some t => pass t | None => false end) && fleb binary64 (max_pps c) high then Some r
  else Some (bisect (Z.to_nat (binary_search_rounds c)) c envs (Bench.fmax (start_pps c) low) high r).

(** ** The report *)

Definition probe_entry (p : TrialResult) : string :=
  "    {" +:+ member "target_pps" (fixed_at 2 (target_pps p)) +:+ ", " +:+ member "sent_pps" (fixed_at 2 (sent_pps p))
  +:+ ", " +:+ member "recv_pps" (fixed_at 2 (recv_pps p)) +:+ ", " +:+ member "throughput_mbps" (fixed_at 2 (throughput_mbps p))
  +:+ ", " +:+ member "loss_rate" (fixed_at 2 (loss_rate p)) +:+ ", " +:+ member "pass" (if pass p then "true" else "false") +:+ "}".

Definition build_report_json (c : BenchConfig) (sr : SearchResult) : string :=
  "{" +:+ nl
  +:+ "  " +:+ member "tool" (quote +:+ "fpga_rx_limit" +:+ quote) +:+ "," +:+ nl
  +:+ "  " +:+ member "config" ("{" +:+ nl
    +:+ "    " +:+ member "bind_ip" (quote +:+ bind_ip c +:+ quote) +:+ "," +:+ nl
    +:+ "    " +:+ member "port" (decimal (port c)) +:+ "," +:+ nl
    +:+ "    " +:+ member "payload_bytes" (decimal (payload_bytes c)) +:+ "," +:+ nl
    +:+ "    " +:+ member "sender_threads" (decimal (sender_threads c)) +:+ "," +:+ nl
    +:+ "    " +:+ member "trial_duration_sec" (general (trial_duration_sec c)) +:+ "," +:+ nl
    +:+ "    " +:+ member "loss_threshold" (general (loss_threshold c)) +:+ nl
    +:+ "  " +:+ "}") +:+ "," +:+ nl
  +:+ "  " +:+ member "limit_result" ("{" +:+ nl
    +:+ "    " +:+ member "best_target_pps" (fixed_at 2 (best_target_pps sr)) +:+ "," +:+ nl
    +:+ "    " +:+ member "best_sent_pps" (fixed_at 2 (sent_pps (best_trial sr))) +:+ "," +:+ nl
    +:+ "    " +:+ member "best_recv_pps" (fixed_at 2 (recv_pps (best_trial sr))) +:+ "," +:+ nl
    +:+ "    " +:+ member "best_throughput_mbps" (fixed_at 2 (throughput_mbps (best_trial sr))) +:+ "," +:+ nl
    +:+ "    " +:+ member "best_loss_rate" (fixed_at 2 (loss_rate (best_trial sr))) +:+ "," +:+ nl
    +:+ "    " +:+ member "best_sent_packets" (decimal (sent_packets (best_trial sr))) +:+ "," +:+ nl
    +:+ "    " +:+ member "best_recv_valid_packets" (decimal (recv_valid_packets (best_trial sr))) +:+ nl
    +:+ "  " +:+ "}") +:+ "," +:+ nl
  +:+ "  " +:+ member "probes" ("[" +:+ nl +:+ comma_lines (probe_entry <$> probes sr) +:+ "  " +:+ "]") +:+ nl
  +:+ "}" +:+ nl.

(** ** The program *)

Inductive Event := Out (text : string) | Err (text : string) | Written (path text : string).

Record Env := mkEnv { system_seconds : Z; trials : nat -> TrialEnv; report_file : FileEnv }.

(** The exit code and the output; [None] when the fuel of the search runs out. *)
Definition main `{Strtod} (fuel : nat) (args : list string) (env : Env) : option (Z * list Event) :=
  let c := parse_args args (system_seconds env) in
  sr ← find_limit fuel c (trials env);
  let report := build_report_json c sr in
  let '(ok, files) := write_text_file (report_file env) (output_json c) report in
  let written := (fun '(path, content) => Written path content) <$> files in
  Some (if ok then (0, Out report :: written ++ [Out ("report_path=" +:+ output_json c +:+ nl)])
        else (2, Out report :: written ++ [Err ("failed to write report: " +:+ output_json c +:+ nl)])).

(** ** Lemmas: packets *)

(** A packet of a sender: its headers, with the fields that the check reads, and the pattern. *)
Definition sender_packet (n : Z) (pkt : bytes) : Prop :=
  exists h s, CommonHeader_ok h /\ DataSpecificHeader_ok s /\ magic h = PROTOCOL_MAGIC /\ protocol_version h = PROTOCOL_VERSION /\
    packet_type h = PacketType_to_u8 DATA /\ payload_len h = n /\ dest_id h = Emulator.SPS /\ frag_index s = 0 /\ total_frags s = 1 /\
    pkt = CommonHeader_bytes h ++ DataSpecificHeader_bytes s ++ Emulator.pattern 72 (Z.to_nat (n - DataSpecificHeader_SIZE)).

Lemma length_sender_packet n pkt : 40 <= n -> sender_packet n pkt -> Z.of_nat (length pkt) = COMMON_HEADER_SIZE + n.
Proof.
  intros Hn (h & s & Hh & _ & _ & _ & _ & _ & _ & _ & _ & ->). unfold COMMON_HEADER_SIZE, DataSpecificHeader_SIZE.
  rewrite !length_app, length_CommonHeader_bytes, length_DataSpecificHeader_bytes, Emulator.length_pattern by done. lia.
Qed.

Lemma header_drop h rest : CommonHeader_ok h -> drop 32 (CommonHeader_bytes h ++ rest) = rest.
Proof. intros Hh. apply drop_app_length'. by rewrite length_CommonHeader_bytes. Qed.

Lemma sender_packet_valid n pkt : 40 <= n -> sender_packet n pkt -> is_data_packet_valid pkt = true.
Proof.
  intros Hn Hp. pose proof (length_sender_packet n pkt Hn Hp) as Hl. unfold is_data_packet_valid. rewrite Hl.
  destruct Hp as (h & s & Hh & Hs & Hm & Hv & Ht & Hlen & _ & Hf & Htf & ->).
  rewrite CommonHeader_load_bytes by done. change (Z.to_nat COMMON_HEADER_SIZE) with 32%nat. rewrite header_drop by done.
  rewrite DataSpecificHeader_load_bytes by done. rewrite Hm, Hv, Ht, Hlen, Hf, Htf, !Z.eqb_refl. cbn [negb].
  unfold DataSpecificHeader_SIZE. by rewrite (proj2 (Z.ltb_ge _ _)) by (unfold COMMON_HEADER_SIZE; lia).
Qed.

Lemma template_sender n now now' : 0 <= n < 2 ^ 16 -> is_u64 now -> is_u64 now' ->
  sender_packet (Z.max 40 n) (make_packet_template n now now').
Proof.
  intros Hn Hnow Hnow'. unfold make_packet_template, DataSpecificHeader_SIZE.
  assert ((if n <? 40 then 40 else n) = Z.max 40 n) as -> by (destruct (Z.ltb_spec n 40); lia).
  assert (Hu : u16 (Z.max 40 n) = Z.max 40 n) by (apply wrap_small; unfold in_range; lia). rewrite Hu.
  match goal with |- sender_packet _ (CommonHeader_bytes ?h ++ DataSpecificHeader_bytes ?s ++ _) => exists h, s end.
  split; [|split; [|do 5 (split; [reflexivity|]); split; [|split; [|reflexivity]]]].
  - unfold CommonHeader_ok, fields_ok, CommonHeader_layout, CommonHeader_fields, PROTOCOL_MAGIC, PROTOCOL_VERSION.
    repeat apply Forall2_cons_2; [..|constructor]; try done; unfold in_range; cbn; lia.
  - by apply Emulator.data_header_ok.
  - done.
  - done.
Qed.

Lemma stamp_sender n pkt seq now frame now' : is_u64 now -> is_u64 now' -> sender_packet n pkt -> sender_packet n (stamp seq now frame now' pkt).
Proof.
  intros Hnow Hnow' (h & s & Hh & Hs & Hm & Hv & Ht & Hlen & Hd & Hf & Htf & ->). unfold stamp.
  rewrite CommonHeader_load_bytes by done. rewrite header_drop by done. rewrite DataSpecificHeader_load_bytes by done.
  set (body := Emulator.pattern _ _).
  assert (drop 72 (CommonHeader_bytes h ++ DataSpecificHeader_bytes s ++ body) = body) as ->.
  { change 72%nat with (32 + 40)%nat. rewrite <-drop_drop, header_drop by done.
    apply drop_app_length'. by rewrite length_DataSpecificHeader_bytes. }
  match goal with |- sender_packet _ (CommonHeader_bytes ?h ++ DataSpecificHeader_bytes ?s ++ _) => exists h, s end.
  split; [|split; [|do 7 (split; [done|]); reflexivity]].
  - unfold CommonHeader_ok, fields_ok, CommonHeader_layout, CommonHeader_fields in *. cbn in *.
    do 12 (apply Forall2_cons_1 in Hh as [? Hh]). repeat (apply Forall2_cons_2; [done || by apply wrap_range|]). done.
  - unfold DataSpecificHeader_ok, fields_ok, DataSpecificHeader_layout, DataSpecificHeader_fields in *. cbn in *.
    do 12 (apply Forall2_cons_1 in Hs as [? Hs]). repeat (apply Forall2_cons_2; [done || by apply wrap_range|]). done.
Qed.

(** ** Theorems: packets *)

(** What the receiver thread counts as valid, the receiver of M01 parses, as a data packet, if it is not longer than M01 admits. *)
Theorem valid_packets_parsed (data : bytes) : is_data_packet_valid data = true -> Z.of_nat (length data) <= COMMON_HEADER_SIZE + MAX_PAYLOAD_SIZE ->
  exists p, parse (Some data) (Z.of_nat (length data)) = Some p /\ get_packet_type (header p) = DATA /\ total_size p = Z.of_nat (length data).
Proof.
  unfold is_data_packet_valid, parse, basic_validation, parse_common_header, COMMON_HEADER_SIZE, DataSpecificHeader_SIZE. intros Hv Hmax.
  destruct (Z.ltb_spec (Z.of_nat (length data)) (32 + 40)) as [|H72]; [done|].
  rewrite (proj2 (Z.ltb_ge (Z.of_nat (length data)) 32)) by lia.
  assert (Hload : CommonHeader_load (take (Z.to_nat 32) data) = CommonHeader_load data).
  { unfold CommonHeader_load. by rewrite decode_fields_take by (cbn; lia). }
  rewrite Hload. set (h := CommonHeader_load data) in *.
  destruct (magic h =? PROTOCOL_MAGIC); [|done]. destruct (Z.eqb_spec (protocol_version h) PROTOCOL_VERSION) as [Hver|]; [|done].
  destruct (Z.eqb_spec (packet_type h) (PacketType_to_u8 DATA)) as [Ht|]; [|done].
  destruct (Z.eqb_spec (Z.of_nat (length data)) (32 + payload_len h)) as [Hl|]; [|done].
  rewrite Hver. cbn [negb]. change (Z.shiftr PROTOCOL_VERSION 4 =? PROTOCOL_VERSION_MAJOR) with true. cbn [negb].
  rewrite (proj2 (Z.ltb_ge _ _)) by lia. rewrite (proj2 (Z.eqb_eq _ _)) by lia. cbn [negb].
  eexists. split; [reflexivity|]. split; [|done]. cbn [header]. unfold get_packet_type. by rewrite Ht.
Qed.

(** Every packet of a sender, however often it was stamped, counts as valid; and M01 parses it and, with the destination's id,
    validates it, if its payload is not longer than M01 admits. *)
Theorem sent_packets_valid (n now now' : Z) (stamps : list (Z * Z * Z * Z)) :
  0 <= n < 2 ^ 16 -> is_u64 now -> is_u64 now' -> Forall (fun '(_, t, _, t') => is_u64 t /\ is_u64 t') stamps ->
  let pkt := foldl (fun pkt '(seq, t, frame, t') => stamp seq t frame t' pkt) (make_packet_template n now now') stamps in
  is_data_packet_valid pkt = true /\
  (n <= MAX_PAYLOAD_SIZE -> exists p, parse (Some pkt) (Z.of_nat (length pkt)) = Some p /\
     forall v, local_device_id_ v = Emulator.SPS -> validate v p = OK).
Proof.
  intros Hn Hnow Hnow' Hs pkt.
  assert (Hp : sender_packet (Z.max 40 n) pkt).
  { unfold pkt. pose proof (template_sender n now now' Hn Hnow Hnow') as Hp. revert Hp. generalize (make_packet_template n now now').
    clear pkt. induction Hs as [|[[[seq t] frame] t'] l [Ht Ht'] Hs IH]; intros p Hp; [done|]. apply IH. by apply stamp_sender. }
  split; [by apply (sender_packet_valid (Z.max 40 n)); [lia|]|]. intros Hmax.
  pose proof (length_sender_packet (Z.max 40 n) pkt ltac:(lia) Hp) as Hl. unfold MAX_PAYLOAD_SIZE, COMMON_HEADER_SIZE in Hmax.
  destruct Hp as (h & s & Hh & Hs' & Hm & Hv & Ht & Hlen & Hd & _ & _ & E). rewrite E in Hl |- *.
  eexists. split.
  { apply Emulator.parse_exact; [done|done|done|unfold MAX_PAYLOAD_SIZE, COMMON_HEADER_SIZE; lia|].
    rewrite length_app, length_CommonHeader_bytes in Hl by done. unfold COMMON_HEADER_SIZE in Hl. lia. }
  intros v Hid. rewrite validate_parsed; cbn [header total_size]; [|done|by rewrite Hv|done].
  assert (check_dest_id v (dest_id h) = true) as -> by (unfold check_dest_id; rewrite Hd, Hid; done).
  assert (Hty : get_packet_type h = DATA) by (unfold get_packet_type; by rewrite Ht). cbn [negb].
  rewrite bool_decide_eq_true_2 by (by left). by rewrite bool_decide_eq_true_2.
Qed.

(** ** Theorems: the search *)

(** A result of the search: it has no passing probe and no best rate, or the best trial is a recorded probe that keeps the threshold. *)
Definition best_recorded (c : BenchConfig) (r : SearchResult) : Prop :=
  Forall (fun t => pass t = fleb binary64 (loss_rate t) (loss_threshold c)) (probes r) /\
  ((best_target_pps r = d0 /\ Forall (fun t => pass t = false) (probes r)) \/
   (best_trial r ∈ probes r /\ pass (best_trial r) = true /\ target_pps (best_trial r) = best_target_pps r)).

Lemma run_trial_target c target env : target_pps (run_trial c target env) = target.
Proof. unfold run_trial. by destruct (_ || _). Qed.

Lemma probe_recorded c envs target r ok r' : best_recorded c r -> probe c envs target r = (ok, r') -> best_recorded c r'.
Proof.
  intros [Hp Hb] E. unfold probe in E. pose proof (run_trial_target c target (envs (length (probes r)))) as Htg.
  set (t := run_trial _ _ _) in *. clearbody t. injection E as Eok <-.
  assert (Ht : pass (with_pass ok t) = ok /\ loss_rate (with_pass ok t) = loss_rate t /\ target_pps (with_pass ok t) = target) by (by destruct t).
  rewrite Eok. destruct Ht as (H1 & H2 & H3). destruct ok; (split; [apply Forall_app; split; [done|]; apply Forall_singleton; cbn [probes]; congruence|]); cbn [best_target_pps best_trial probes].
  - right. split; [apply elem_of_app; right; by left|done].
  - destruct Hb as [[Hb Hf]|(Hb & Hb')]; [left|right]; (split; [|done || (apply Forall_app; split; [done|by apply Forall_singleton])]); try done.
    apply elem_of_app. by left.
Qed.

Lemma climb_recorded c envs fuel low high r low' high' r' : best_recorded c r -> climb fuel c envs low high r = Some (low', high', r') ->
  best_recorded c r'.
Proof.
  revert low high r. induction fuel as [|fuel IH]; intros low high r Hr E; [done|]. cbn [climb] in E.
  destruct (fltb binary64 high (max_pps c)); [|by injection E as _ _ <-].
  destruct (probe c envs _ r) as [ok r1] eqn:Ep. apply probe_recorded in Ep; [|done]. destruct ok; [by eapply IH|by injection E as _ _ <-].
Qed.

Lemma bisect_recorded c envs rounds l r res : best_recorded c res -> best_recorded c (bisect rounds c envs l r res).
Proof.
  revert l r res. induction rounds as [|n IH]; intros l r res Hr; [done|]. cbn [bisect].
  destruct (probe c envs _ res) as [ok r1] eqn:Ep. apply probe_recorded in Ep; [|done]. destruct ok; by apply IH.
Qed.

(** The rate that the search reports was probed and kept the threshold, or it is 0 and no probe kept it. *)
Theorem find_limit_recorded (fuel : nat) (c : BenchConfig) (envs : nat -> TrialEnv) (r : SearchResult) :
  find_limit fuel c envs = Some r -> best_recorded c r.
Proof.
  unfold find_limit. destruct (probe c envs (start_pps c) SearchResult_init) as [ok r0] eqn:E0.
  assert (H0 : best_recorded c r0).
  { eapply probe_recorded; [|exact E0]. split; [constructor|]. left. split; [reflexivity|constructor]. }
  intros E. apply bind_Some in E as ([[low high] r1] & Ec & E). apply climb_recorded in Ec; [|done].
  destruct (_ && _); injection E as <-; [done|by apply bisect_recorded].
Qed.

(** The rates of the doubling. *)
Fixpoint doubled (n : nat) (mx high : Z) : Z :=
  match n with O => high | S n => doubled n mx (Bench.fmin mx (fmul binary64 high d2)) end.

Lemma climb_returns c envs n : forall low high r, fltb binary64 (doubled n (max_pps c) high) (max_pps c) = false ->
  is_Some (climb (S n) c envs low high r).
Proof.
  induction n as [|n IH]; intros low high r Hd; cbn [climb].
  - cbn [doubled] in Hd. rewrite Hd. done.
  - destruct (fltb binary64 high (max_pps c)); [|done]. destruct (probe c envs _ r) as [ok r1]. destruct ok; [|done]. by apply IH.
Qed.

(** The search returns, whatever the trials measure, with one unit of fuel more than doublings that reach the highest rate ... *)
Theorem find_limit_returns (n : nat) (c : BenchConfig) (envs : nat -> TrialEnv) :
  fltb binary64 (doubled n (max_pps c) (Bench.fmin (max_pps c) (start_pps c))) (max_pps c) = false ->
  is_Some (find_limit (S n) c envs).
Proof.
  intros Hd. unfold find_limit. destruct (probe c envs (start_pps c) SearchResult_init) as [ok r0].
  destruct (climb_returns c envs n (start_pps c) _ r0 Hd) as [[[low high] r] ->]. cbn [mbind option_bind]. by destruct (_ && _).
Qed.

(** ... eight with the default rates. *)
Example default_doublings : fltb binary64 (doubled 8 (max_pps BenchConfig_default)
  (Bench.fmin (max_pps BenchConfig_default) (start_pps BenchConfig_default))) (max_pps BenchConfig_default) = false.
Proof. by vm_compute. Qed.

(** A rate of 0 is never doubled to another: when every trial at 0 keeps the threshold, the search does not return. *)
Theorem zero_start_never_returns (fuel : nat) (c : BenchConfig) (envs : nat -> TrialEnv) :
  start_pps c = d0 -> max_pps c = max_pps BenchConfig_default ->
  (forall k, fleb binary64 (loss_rate (run_trial c d0 (envs k))) (loss_threshold c) = true) -> find_limit fuel c envs = None.
Proof.
  intros Hs Hm Hp. unfold find_limit. rewrite Hs, Hm. change (Bench.fmin (max_pps BenchConfig_default) d0) with d0.
  destruct (probe c envs d0 SearchResult_init) as [ok r0].
  assert (H : climb fuel c envs d0 d0 r0 = None); [|by rewrite H]. revert r0.
  induction fuel as [|fuel IH]; intros r; [done|]. cbn [climb]. rewrite Hm.
  change (fltb binary64 d0 (max_pps BenchConfig_default)) with true.
  change (Bench.fmin (max_pps BenchConfig_default) (fmul binary64 d0 d2)) with d0. cbv iota zeta.
  destruct (probe c envs d0 r) as [ok' r'] eqn:E. unfold probe in E. rewrite Hp in E. injection E as <- <-. apply IH.
Qed.

(** The trial of a receive socket that does not open or is not bound keeps every threshold: it has measured nothing, and its loss is 0. *)
Lemma unbound_trial c target env : socket_ok env && bind_ok env = false -> run_trial c target env = TrialResult_at target.
Proof. unfold run_trial. by destruct (socket_ok env), (bind_ok env). Qed.

Lemma unbound_probe c envs target r : (forall k, socket_ok (envs k) && bind_ok (envs k) = false) ->
  probe c envs target r = probe c (fun _ => mkTrialEnv false false [] [] [] [] 0) target r.
Proof. intros H. unfold probe. by rewrite (unbound_trial c target (envs _)) by done. Qed.

Lemma unbound_climb c envs fuel : (forall k, socket_ok (envs k) && bind_ok (envs k) = false) -> forall low high r,
  climb fuel c envs low high r = climb fuel c (fun _ => mkTrialEnv false false [] [] [] [] 0) low high r.
Proof.
  intros H. induction fuel as [|fuel IH]; intros low high r; [done|]. cbn [climb]. destruct (fltb _ _ _); [|done].
  rewrite unbound_probe by done. destruct (probe _ _ _ _) as [[] r1]; [apply IH|done].
Qed.

(** With the default configuration and a port that is taken, the program reports the highest rate as the limit, without a packet sent or received. *)
Theorem unbound_reports_maximum (envs : nat -> TrialEnv) : (forall k, socket_ok (envs k) && bind_ok (envs k) = false) ->
  exists r, find_limit 9 BenchConfig_default envs = Some r /\ best_target_pps r = max_pps BenchConfig_default /\
    pass (best_trial r) = true /\ Forall (fun t => sent_packets t = 0 /\ recv_packets t = 0) (probes r).
Proof.
  intros H. unfold find_limit. rewrite unbound_probe by done.
  destruct (probe BenchConfig_default (fun _ => mkTrialEnv false false [] [] [] [] 0) _ _) as [ok r0] eqn:E. vm_compute in E. injection E as <- <-.
  rewrite unbound_climb by done. eexists. split; [vm_compute; reflexivity|]. split; [reflexivity|]. split; [reflexivity|].
  repeat constructor.
Qed.

(** ** Theorems: the report and the program *)

Definition probe_tree (p : TrialResult) : value :=
  JObj [("target_pps", JNum (fixed_at 2 (target_pps p))); ("sent_pps", JNum (fixed_at 2 (sent_pps p))); ("recv_pps", JNum (fixed_at 2 (recv_pps p)));
        ("throughput_mbps", JNum (fixed_at 2 (throughput_mbps p))); ("loss_rate", JNum (fixed_at 2 (loss_rate p))); ("pass", JBool (pass p))].

Definition report_tree (c : BenchConfig) (sr : SearchResult) : value :=
  JObj [("tool", JStr "fpga_rx_limit");
    ("config", JObj [("bind_ip", JStr (bind_ip c)); ("port", JNum (decimal (port c))); ("payload_bytes", JNum (decimal (payload_bytes c)));
       ("sender_threads", JNum (decimal (sender_threads c))); ("trial_duration_sec", JNum (general (trial_duration_sec c)));
       ("loss_threshold", JNum (general (loss_threshold c)))]);
    ("limit_result", JObj [("best_target_pps", JNum (fixed_at 2 (best_target_pps sr))); ("best_sent_pps", JNum (fixed_at 2 (sent_pps (best_trial sr))));
       ("best_recv_pps", JNum (fixed_at 2 (recv_pps (best_trial sr)))); ("best_throughput_mbps", JNum (fixed_at 2 (throughput_mbps (best_trial sr))));
       ("best_loss_rate", JNum (fixed_at 2 (loss_rate (best_trial sr)))); ("best_sent_packets", JNum (decimal (sent_packets (best_trial sr))));
       ("best_recv_valid_packets", JNum (decimal (recv_valid_packets (best_trial sr))))]);
    ("probes", JArr (probe_tree <$> probes sr))].

Definition trial_finite (t : TrialResult) : Prop :=
  finite (target_pps t) = true /\ finite (sent_pps t) = true /\ finite (recv_pps t) = true /\ finite (throughput_mbps t) = true /\
  finite (loss_rate t) = true.

Lemma trial_entry_text p : trial_finite p -> indented (probe_tree p) (probe_entry p).
Proof.
  intros (H1 & H2 & H3 & H4 & H5). exists "    ". eexists. split; [done|]. split; [reflexivity|]. apply closes_text.
  apply (closes_inline ""); [done|by apply literal_plain|by apply text_fixed|].
  do 4 (apply (closes_inline " "); [done|by apply literal_plain|by apply text_fixed|]).
  apply (closes_inline_last " "); [done|by apply literal_plain|constructor].
Qed.

(** The report is JSON that reads back as the configuration, the best trial and the probes, if the address needs no escapes. *)
Theorem limit_report_reads_back (c : BenchConfig) (sr : SearchResult) :
  chars_in Json.plain_char (bind_ip c) = true -> finite (trial_duration_sec c) = true -> finite (loss_threshold c) = true ->
  finite (best_target_pps sr) = true -> trial_finite (best_trial sr) -> Forall trial_finite (probes sr) ->
  read_json (build_report_json c sr) = Some (report_tree c sr).
Proof.
  intros Hip H1 H2 H3 (_ & H4 & H5 & H6 & H7) Hp. unfold build_report_json, report_tree. apply closes_read.
  json_member. json_object 5. json_object 6. apply (closes_last "  " ""); [done|done|by apply literal_plain|].
  apply comma_lines_text, Forall2_fmap_same; [done|]. eapply Forall_impl; [exact Hp|]. apply trial_entry_text.
Qed.

(** The exit code is 0 exactly when the report was written, and 2 otherwise; the report is printed in both cases. *)
Theorem limit_exit `{Strtod} (fuel : nat) (args : list string) (env : Env) (sr : SearchResult) :
  let c := parse_args args (system_seconds env) in
  find_limit fuel c (trials env) = Some sr ->
  exists code events, main fuel args env = Some (code, Out (build_report_json c sr) :: events) /\
    (code = 0 <-> is_open (report_file env) && good (report_file env) = true) /\ (code = 0 \/ code = 2) /\
    (code = 0 -> events = [Written (output_json c) (build_report_json c sr); Out ("report_path=" +:+ output_json c +:+ nl)]).
Proof.
  intros c Hs. unfold main. fold c. rewrite Hs. cbn [mbind option_bind]. unfold write_text_file.
  destruct (is_open (report_file env)), (good (report_file env)); cbn [andb]; eexists _, _; (split; [reflexivity|]); (split; [done|]);
    (split; [by left + right|done]).
Qed.

End FpgaRxLimit.
