(* ===== verification/M01RxLimit.v ===== *)
(** The program [tools/benchmarks/m01_rx_limit.cpp]: its arguments, the handler that parses and validates what the receiver
    delivers, the report and the exit codes.  What is received, the clock and the file are inputs. *)

From S2P Require Import Prelude Float FloatLaws Text CText Json JsonTree Protocol Validator Bench BenchReport.
From stdpp Require Import strings.
From Stdlib Require Import Ascii.
Open Scope Z_scope.
Import Float Text CText JsonTree Protocol Validator BenchReport.

Module M01RxLimit.

(** ** Configuration *)

Record Config := mkConfig {
  bind_ip : string;
  port : Z;
  local_device_id : Z;
  measure_sec : Z;
  warmup_sec : Z;
  startup_timeout_sec : Z;
  output_json : string;
}.

(** 3.0, 0.3 and 5.0. *)
Definition Config_default : Config :=
  mkConfig "0.0.0.0" 9999 0x01 0x4008000000000000 0x3FD3333333333333 0x4014000000000000 "m01_rx_limit_result.json".

(** An option with a value; [None] for any other argument.  Port and id are converted to their widths without a check. *)
Definition set_option `{Strtod} (arg v : string) (c : Config) : option Config :=
  let '(mkConfig ip po id mea war sta out) := c in
  if bool_decide (arg = "--bind-ip") then Some (mkConfig v po id mea war sta out)
  else if bool_decide (arg = "--port") then Some (mkConfig ip (u16 (parse_size v po)) id mea war sta out)
  else if bool_decide (arg = "--local-device-id") then Some (mkConfig ip po (u8 (parse_size v id)) mea war sta out)
  else if bool_decide (arg = "--measure-sec") then Some (mkConfig ip po id (parse_double v mea) war sta out)
  else if bool_decide (arg = "--startup-timeout-sec") then Some (mkConfig ip po id mea war (parse_double v sta) out)
  else if bool_decide (arg = "--warmup-sec") then Some (mkConfig ip po id mea (parse_double v war) sta out)
  else if bool_decide (arg = "--output") then Some (mkConfig ip po id mea war sta v)
  else None.

Fixpoint parse_loop `{Strtod} (args : list string) (c : Config) : Config :=
  match args with
  | [] => c
  | arg :: args' =>
    match args' with
    | [] => c
    | v :: rest => match set_option arg v c with Some c' => parse_loop rest c' | None => parse_loop args' c end
    end
  end.

Definition parse_args `{Strtod} (args : list string) : Config := parse_loop args Config_default.

(** ** The handler *)

(** [recv_total] and [recv_valid]. *)
Definition handler (v : Validator) (counts : Z * Z) (pkt : bytes) : Z * Z :=
  let '(total, valid) := counts in
  let total := inc64 total in
  match parse (Some pkt) (Z.of_nat (length pkt)) with
  | None => (total, valid)
  | Some p => if negb (bool_decide (validate v p = OK)) then (total, valid) else (total, inc64 valid)
  end.

Definition handle_all (v : Validator) (pkts : list bytes) (counts : Z * Z) : Z * Z := foldl (handler v) counts pkts.

(** ** The report *)

Definition report (c : Config) (total valid valid_pps : Z) : string :=
  "{" +:+ nl
  +:+ "  " +:+ member "tool" (quote +:+ "m01_rx_limit" +:+ quote) +:+ "," +:+ nl
  +:+ "  " +:+ member "bind_ip" (quote +:+ bind_ip c +:+ quote) +:+ "," +:+ nl
  +:+ "  " +:+ member "port" (decimal (port c)) +:+ "," +:+ nl
  +:+ "  " +:+ member "warmup_sec" (general (warmup_sec c)) +:+ "," +:+ nl
  +:+ "  " +:+ member "measure_sec" (general (measure_sec c)) +:+ "," +:+ nl
  +:+ "  " +:+ member "received_total" (decimal total) +:+ "," +:+ nl
  +:+ "  " +:+ member "received_valid" (decimal valid) +:+ "," +:+ nl
  +:+ "  " +:+ member "valid_pps" (fixed_at 2 valid_pps) +:+ nl
  +:+ "}" +:+ nl.

(** ** The program *)

Inductive Event := Out (text : string) | Err (text : string) | Written (path text : string).

(** Whether the receiver starts, the packets it delivers up to the first and up to the second pair of loads, the nanoseconds
    that are measured, and the file. *)
Record Env := mkEnv {
  started : bool;
  warm : list bytes;
  measured : list bytes;
  elapsed_ns : Z;
  report_file : FileEnv;
}.

Definition main `{Strtod} (args : list string) (env : Env) : Z * list Event :=
  let c := parse_args args in
  if negb (started env) then (2, [Err ("receiver start failed on port " +:+ decimal (port c) +:+ nl)])
  else
    let v := mkValidator (local_device_id c) DATA_AND_HEARTBEAT in
    let '(base_total, base_valid) := handle_all v (warm env) (0, 0) in
    let '(end_total, end_valid) := handle_all v (measured env) (base_total, base_valid) in
    let total := end_total -[64] base_total in
    let valid := end_valid -[64] base_valid in
    let elapsed := fdiv binary64 (of_Z binary64 (elapsed_ns env)) Bench.d1e9 in
    let valid_pps := if fltb binary64 Bench.d0 elapsed then fdiv binary64 (of_Z binary64 valid) elapsed else Bench.d0 in
    let text := report c total valid valid_pps in
    let '(ok, files) := write_text_file (report_file env) (output_json c) text in
    let written := (fun '(path, content) => Written path content) <$> files in
    if ok then (0, Out text :: written ++ [Out ("report_path=" +:+ output_json c +:+ nl)])
    else (4, Out text :: written ++ [Err ("failed to write report: " +:+ output_json c +:+ nl)]).

(** ** Lemmas *)

(** The receiver's pipeline would accept the packet. *)
Definition accepted (v : Validator) (pkt : bytes) : bool :=
  match parse (Some pkt) (Z.of_nat (length pkt)) with Some p => bool_decide (validate v p = OK) | None => false end.

Definition accepted_count (v : Validator) (pkts : list bytes) : Z := Z.of_nat (count_true (accepted v <$> pkts)).

Lemma accepted_count_le v pkts : 0 <= accepted_count v pkts <= Z.of_nat (length pkts).
Proof.
  unfold accepted_count. induction pkts as [|p pkts IH]; cbn; [lia|]. destruct (accepted v p); lia.
Qed.

Lemma handle_all_counts v pkts total valid : 0 <= total -> 0 <= valid -> total + Z.of_nat (length pkts) < 2 ^ 64 ->
  valid + Z.of_nat (length pkts) < 2 ^ 64 ->
  handle_all v pkts (total, valid) = (total + Z.of_nat (length pkts), valid + accepted_count v pkts).
Proof.
  revert total valid. induction pkts as [|p pkts IH]; intros total valid Ht Hv Hbt Hbv.
  { unfold handle_all, accepted_count. cbn. by rewrite !Z.add_0_r. }
  assert (Hh : handler v (total, valid) p = (total + 1, valid + (if accepted v p then 1 else 0))).
  { unfold handler, accepted. cbn [length] in *. rewrite (Bench.inc64_small total), (Bench.inc64_small valid) by lia.
    destruct (parse _ _) as [q|]; [|by rewrite Z.add_0_r]. destruct (bool_decide _); cbn [negb]; [done|by rewrite Z.add_0_r]. }
  unfold handle_all in *. cbn [foldl]. rewrite Hh. cbn [length] in *. rewrite IH by (destruct (accepted v p); lia).
  unfold accepted_count. cbn [fmap list_fmap count_true]. f_equal; [lia|]. destruct (accepted v p); lia.
Qed.

Definition report_tree (c : Config) (total valid valid_pps : Z) : value :=
  JObj [("tool", JStr "m01_rx_limit"); ("bind_ip", JStr (bind_ip c)); ("port", JNum (decimal (port c)));
    ("warmup_sec", JNum (general (warmup_sec c))); ("measure_sec", JNum (general (measure_sec c)));
    ("received_total", JNum (decimal total)); ("received_valid", JNum (decimal valid)); ("valid_pps", JNum (fixed_at 2 valid_pps))].

Lemma report_text c total valid pps : chars_in Json.plain_char (bind_ip c) = true -> finite (warmup_sec c) = true ->
  finite (measure_sec c) = true -> finite pps = true -> read_json (report c total valid pps) = Some (report_tree c total valid pps).
Proof.
  intros Hip H1 H2 H3. unfold report, report_tree. apply closes_read. do 7 json_member.
  by apply (closes_last "  " ""); [| |apply literal_plain|apply text_fixed].
Qed.

(** ** Theorems *)

(** The program counts the packets of the measured time, and as valid exactly those that M01 parses and validates; its exit code is 2
    when the receiver does not start, 0 when the report was written, and 4 otherwise. *)
Theorem limit_counts_accepted `{Strtod} (args : list string) (env : Env) :
  Z.of_nat (length (warm env ++ measured env)) < 2 ^ 64 ->
  let c := parse_args args in
  let v := mkValidator (local_device_id c) DATA_AND_HEARTBEAT in
  let '(code, events) := main args env in
  if started env then
    (exists pps rest, events = Out (report c (Z.of_nat (length (measured env))) (accepted_count v (measured env)) pps) :: rest) /\
    code = (if is_open (report_file env) && good (report_file env) then 0 else 4)
  else code = 2 /\ events = [Err ("receiver start failed on port " +:+ decimal (port c) +:+ nl)].
Proof.
  rewrite length_app. intros Hb c v. unfold main. fold c. destruct (started env); cbn [negb]; [|done]. fold v.
  pose proof (accepted_count_le v (warm env)). pose proof (accepted_count_le v (measured env)).
  rewrite handle_all_counts by lia. rewrite handle_all_counts by lia.
  replace (0 + Z.of_nat (length (warm env)) + Z.of_nat (length (measured env)) -[64] (0 + Z.of_nat (length (warm env)))) with (Z.of_nat (length (measured env)))
    by (symmetry; unfold wrap; replace (_ - _) with (Z.of_nat (length (measured env))) by lia; apply Z.mod_small; lia).
  replace (0 + accepted_count v (warm env) + accepted_count v (measured env) -[64] (0 + accepted_count v (warm env))) with (accepted_count v (measured env))
    by (symmetry; unfold wrap; replace (_ - _) with (accepted_count v (measured env)) by lia; apply Z.mod_small; lia).
  unfold write_text_file. destruct (is_open (report_file env)), (good (report_file env)); (split; [|done]); by eexists _, _.
Qed.

(** A port above 65535 is taken modulo 2^16, where the other programs keep their default. *)
Example port_wraps `{Strtod} : port (parse_args ["--port"; "70000"]) = 4464.
Proof. by vm_compute. Qed.

End M01RxLimit.
