(* ===== verification/PoolBench.v ===== *)
(** The programs [tools/benchmarks/throughput.cpp] and [tools/benchmarks/numa_affinity.cpp]: the work of a thread on the packet pool
    and on the checksum, the numbers they print, and their exit codes.  The clocks, the blocks of the heap and the environment
    are inputs; the byte that is written into a buffer is not kept. *)

From S2P Require Import Prelude Float FloatLaws Text CText Crc32c PacketPool PcapAnalyze Bench BenchReport.
From stdpp Require Import strings sorting.
From Stdlib Require Import Ascii.
Open Scope Z_scope.
Import Float Text CText Crc32c PacketPool BenchReport.

Module PoolBench.

(** ** [throughput.cpp] *)

Record BenchResult := mkBenchResult { seconds : Z; packets_per_second : Z; cycles_per_packet : Z }.

Definition pool_size_of (threads : Z) : Z := Z.max (u64 (threads * 4096)) 16384.

(** One iteration of a worker: a buffer is taken and given back; without one there is nothing to give back. *)
Definition pool_iteration (p : PacketPool) (heap : option Z) : PacketPool :=
  match allocate heap p with
  | (None, p) => p
  | (Some buf, p) => fst (deallocate (Some buf) p)
  end.

(** The iterations of one worker; [heaps] is what [new] returns if the pool is exhausted. *)
Definition pool_worker (heaps : list (option Z)) (p : PacketPool) : PacketPool := foldl pool_iteration p heaps.

(** The iterations of all workers on the payload, in any order. *)
Definition crc_worker (iterations : nat) (payload : bytes) (sink : Z) : Z :=
  Nat.iter iterations (fun sink => Z.lxor sink (crc32c (Some payload) (length payload))) sink.

(** The result from the readings of the steady clock and of the cycle counter, which is 0 on other machines than ARM. *)
Definition bench_result (threads iterations_per_thread t0 t1 c0 c1 : Z) : BenchResult :=
  let seconds := fdiv binary64 (of_Z binary64 (t1 - t0)) Bench.d1e9 in
  let packets := of_Z binary64 (u64 (threads * iterations_per_thread)) in
  mkBenchResult seconds (if fltb binary64 Bench.d0 seconds then fdiv binary64 packets seconds else Bench.d0)
    (if (c0 <? c1) && fltb binary64 Bench.d0 packets then fdiv binary64 (of_Z binary64 (c1 - c0)) packets else Bench.d0).

Definition parse_size_arg : string -> Z -> Z := parse_size.

(** The iterations and the size of a packet. *)
Fixpoint parse_loop (args : list string) (o : Z * Z) : Z * Z :=
  match args with
  | [] => o
  | arg :: args' =>
    match args' with
    | [] => o
    | v :: rest =>
      if bool_decide (arg = "--iterations") then parse_loop rest (parse_size_arg v (fst o), snd o)
      else if bool_decide (arg = "--packet-size") then parse_loop rest (fst o, parse_size_arg v (snd o))
      else parse_loop args' o
    end
  end.

Inductive Event := Out (text : string) | Err (text : string).

(** The readings of the clocks of the four runs, and the variable [RECEIVER_BENCH_MIN_PPS]. *)
Record Env := mkEnv { readings : nat -> Z * Z * Z * Z; min_pps : option string }.

Definition run (env : Env) (k : nat) (threads iterations : Z) : BenchResult :=
  let '(t0, t1, c0, c1) := readings env k in bench_result threads iterations t0 t1 c0 c1.

Definition result_line (label : string) (r : BenchResult) : Event :=
  Out (label +:+ " pps=" +:+ general (packets_per_second r) +:+ " cpp=" +:+ general (cycles_per_packet r) +:+ nl).

Definition throughput_main `{Strtod} (args : list string) (env : Env) : Z * list Event :=
  let '(iterations, packet_size) := parse_loop args (100000, 1400) in
  let pool_multi := run env 1 8 iterations in
  let lines :=
    [Out ("throughput_bench packet_size=" +:+ decimal packet_size +:+ " iterations=" +:+ decimal iterations +:+ nl);
     result_line "packet_pool 1T" (run env 0 1 iterations); result_line "packet_pool 8T" pool_multi;
     result_line "crc32c     1T" (run env 2 1 iterations); result_line "crc32c     8T" (run env 3 8 iterations)] in
  match min_pps env with
  | Some text =>
    let limit := fst (strtod text) in
    if fltb binary64 (packets_per_second pool_multi) limit
    then (1, lines ++ [Err ("packet_pool throughput regression: " +:+ general (packets_per_second pool_multi) +:+ " < " +:+ general limit +:+ nl)])
    else (0, lines)
  | None => (0, lines)
  end.

(** ** [numa_affinity.cpp] *)

Record Options := mkOptions { iterations : Z; packet_size : Z; threads : Z; numa_node : Z }.

Definition Options_default : Options := mkOptions 200000 1400 8 1.

(** [None] is an index out of bounds or a conversion out of range. *)
Definition latency_percentile (samples : list Z) (p : Z) : option Z :=
  match samples with
  | [] => Some Bench.d0
  | _ =>
    let sorted := merge_sort Z.le samples in
    idx ← PcapAnalyze.to_size (fmul binary64 p (of_Z binary64 (Z.of_nat (length samples) - 1)));
    x ← sorted !! Z.to_nat idx;
    Some (of_Z binary64 x)
  end.

Definition parse_arg : string -> Z -> Z := parse_size.

Fixpoint affinity_args (args : list string) (o : Options) : Options :=
  match args with
  | [] => o
  | arg :: args' =>
    match args' with
    | [] => o
    | v :: rest =>
      let '(mkOptions it size thr node) := o in
      if bool_decide (arg = "--iterations") then affinity_args rest (mkOptions (parse_arg v it) size thr node)
      else if bool_decide (arg = "--packet-size") then affinity_args rest (mkOptions it (parse_arg v size) thr node)
      else if bool_decide (arg = "--threads") then affinity_args rest (mkOptions it size (Z.max 1 (parse_arg v thr)) node)
      else affinity_args args' o
    end
  end.

Definition total_ops (o : Options) : Z := u64 (iterations o * threads o).

Definition affinity_pool_size (o : Options) : Z := Z.max (total_ops o / 4) 4096.

(** The latency of every 32nd iteration, from the readings of the clock in front of and behind it. *)
Definition sampled (times : list (Z * Z)) : list Z :=
  imap (fun i x => (i, x)) times ≫= (fun '(i, (s, e)) => if (i mod 32 =? 0)%nat then [e -[64] s] else []).

(** The output, from the readings of the clock of every thread and at both ends. *)
Definition affinity_main (args : list string) (times : list (list (Z * Z))) (begin_ns end_ns : Z) : option (list Event) :=
  let o := affinity_args args Options_default in
  let merged := times ≫= sampled in
  let elapsed_s := fdiv binary64 (of_Z binary64 (end_ns -[64] begin_ns)) Bench.d1e9 in
  let throughput := if fltb binary64 Bench.d0 elapsed_s then fdiv binary64 (of_Z binary64 (total_ops o)) elapsed_s else Bench.d0 in
  p99 ← latency_percentile merged Bench.d099;
  Some [Out ("numa_affinity_bench iterations=" +:+ decimal (iterations o) +:+ " threads=" +:+ decimal (threads o)
             +:+ " packet_size=" +:+ decimal (packet_size o) +:+ nl);
        Out ("throughput_pps=" +:+ general throughput +:+ nl);
        Out ("p99_latency_ms=" +:+ general (fdiv binary64 p99 Bench.d1e6) +:+ nl);
        Out ("cross_node_access_pct=" +:+ general Bench.d0 +:+ nl);
        Out ("run_hint=numactl --cpunodebind=1 --membind=1 ./build/tools/benchmarks/numa_affinity --iterations 200000 --threads 8" +:+ nl)].

(** ** Theorems *)

(** A worker that is alone with its pool never runs into the heap, and leaves the pool as full as it found it, however often it iterates. *)
Theorem lone_worker_stays_in_pool (ps : Z) (n : nat) (base : Z) (heaps : list (option Z)) :
  0 < ps -> (0 < n)%nat -> 0 <= base -> base + ps * Z.of_nat n < 2 ^ 64 ->
  let p := pool_worker heaps (PacketPool_init ps n (Some base)) in
  reach ps n base p [] /\ available (stats p) = Z.of_nat n /\ allocated (stats p) = 0 /\ fallback_alloc (stats p) = 0.
Proof.
  intros Hps Hn Hb Hfit p.
  assert (H : reach ps n base p [] /\ fallback_alloc (stats p) = 0).
  { unfold p, pool_worker. assert (H0 : reach ps n base (PacketPool_init ps n (Some base)) []) by constructor.
    assert (Hf0 : fallback_alloc (stats (PacketPool_init ps n (Some base))) = 0).
    { unfold PacketPool_init. rewrite (proj2 (Z.eqb_neq ps 0)), (proj2 (Nat.eqb_neq n 0)) by lia. done. }
    clear p. revert H0 Hf0. generalize (PacketPool_init ps n (Some base)).
    induction heaps as [|heap heaps IH]; intros p Hr Hf; [done|]. cbn [foldl].
    destruct (reach_inv ps n base Hps Hn Hb Hfit p [] Hr) as (fl & hp & hf & Hi).
    pose proof (in_pool_count ps n base Hps Hn Hb Hfit _ _ _ _ _ Hi) as Hc.
    assert (Hle : (length fl + length hp = n)%nat) by (rewrite <-length_app, (pi_all _ _ _ _ _ _ _ _ Hi); apply length_seq).
    cbn in Hc. destruct (allocate_takes ps n base Hps Hn Hb Hfit p [] fl hp hf None Hi ltac:(lia)) as (b & p' & Ha & _ & _ & _ & Hfb).
    assert (Ha' : allocate heap p = (Some b, p')).
    { pose proof Ha as Ha2. unfold allocate in Ha2 |- *. destruct (with_stats inc_alloc p). by destruct free_head0. }
    unfold pool_iteration. rewrite Ha'. destruct (deallocate (Some b) p') as [p2 d] eqn:Ed. cbn [fst]. apply IH.
    - assert (Hr1 : reach ps n base p' [b]) by (eapply (reach_alloc ps n base p [] None); [done|done|done]).
      by apply (reach_free ps n base p' [] b [] p2 d).
    - assert (fallback_alloc (stats p2) = fallback_alloc (stats p')) as -> by (unfold deallocate in Ed; destruct p'; cbn in Ed;
        repeat (destruct (_ : bool) in Ed); injection Ed as <- _; done). congruence. }
  destruct H as [Hr Hf]. split; [done|]. destruct (reach_inv ps n base Hps Hn Hb Hfit p [] Hr) as (fl & hp & hf & Hi).
  pose proof (in_pool_count ps n base Hps Hn Hb Hfit _ _ _ _ _ Hi) as Hc. cbn in Hc.
  assert (Hle : (length fl + length hp = n)%nat) by (rewrite <-length_app, (pi_all _ _ _ _ _ _ _ _ Hi); apply length_seq).
  rewrite (pi_available _ _ _ _ _ _ _ _ Hi), (pi_allocated _ _ _ _ _ _ _ _ Hi). split_and!; [lia|lia|done].
Qed.

(** The workers of the checksum leave the checksum of the payload after an odd number of iterations in all, and 0 after an even number. *)
Theorem crc_sink_parity (n : nat) (payload : bytes) :
  crc_worker n payload 0 = if Nat.even n then 0 else crc32c (Some payload) (length payload).
Proof.
  unfold crc_worker. set (c := crc32c _ _). induction n as [|n IH]; [done|].
  change (Nat.iter (S n) ?f ?x) with (f (Nat.iter n f x)). rewrite IH, Nat.even_succ, <-Nat.negb_even. destruct (Nat.even n); cbn [negb].
  - by rewrite Z.lxor_0_l.
  - apply Z.lxor_nilpotent.
Qed.

(** Between 0 and 1 the percentile is the one of the other benchmarks, so it is a latency that was measured. *)
Theorem latency_percentile_elem (samples : list Z) : Z.of_nat (length samples) < 2 ^ 53 ->
  exists x, latency_percentile samples Bench.d099 = Some x /\
    (samples = [] /\ x = Bench.d0 \/ exists v, v ∈ samples /\ x = of_Z binary64 v).
Proof. exact (Bench.percentile_elem samples Bench.d099). Qed.

(** The program reports a regression by its exit code exactly when the variable is set and eight threads were slower. *)
Theorem throughput_exit `{Strtod} (args : list string) (env : Env) :
  let pps := packets_per_second (run env 1 8 (fst (parse_loop args (100000, 1400)))) in
  fst (throughput_main args env) =
    match min_pps env with Some text => if fltb binary64 pps (fst (strtod text)) then 1 else 0 | None => 0 end.
Proof.
  cbv zeta. unfold throughput_main. destruct (parse_loop args (100000, 1400)) as [it size]. cbn [fst].
  destruct (min_pps env) as [text|]; [|done]. by destruct (fltb _ _ _).
Qed.

(** The number of operations wraps around: 2^62 iterations on each of four threads are reported as none. *)
Example operations_wrap : total_ops (affinity_args ["--iterations"; "4611686018427387904"; "--threads"; "4"] Options_default) = 0.
Proof. by vm_compute. Qed.

Example every_32nd : sampled (replicate 65 (5, 7)) = [2; 2; 2].
Proof. by vm_compute. Qed.

End PoolBench.
