(* ===== verification/AppInit.v ===== *)
(** Start-up of the receiver: [app_init] ([src/m01_receiver/app_init.cpp],
    [include/qdgz300/m01_receiver/app_init.h]).  The pipeline of one face is built
    by [FacePipeline.build_face]; this file has the choice of faces, processors,
    delivery, capture and consumers, and the routing of received packets. *)

From S2P Require Import Prelude Config Logger FacePipeline FaceShutdown ArrayFaceReceiver UdpReceiver RxStage RawBlocks Capture MetricsServer.
From stdpp Require Import strings.
Open Scope Z_scope.
Import UdpReceiver.

Module AppInit.

(** ** Definitions *)

Record AppOptions := mkAppOptions { config_file : string; dry_run : bool }.

Definition AppOptions_default : AppOptions := mkAppOptions "config/receiver.yaml" false.

Definition parse_log_level (level : string) : Logger.LogLevel :=
  if bool_decide (level = "DEBUG") then Logger.DEBUG
  else if bool_decide (level = "WARN") then Logger.WARN
  else if bool_decide (level = "ERROR") then Logger.ERROR
  else Logger.INFO.

(** *** Processors *)

(** The processors 16 to 31. *)
Definition data_cpus : list Z := (fun i => 16 + Z.of_nat i) <$> seq 0 16.

(** [for (cpu = 16; cpu <= 31 && resolved.size() < num_faces; ++cpu)]. *)
Fixpoint take_free (cpus : list Z) (reserved : gset Z) (num_faces : nat) (resolved : list Z) : list Z :=
  match cpus with
  | [] => resolved
  | cpu :: cpus =>
    if negb (length resolved <? num_faces)%nat then resolved
    else if bool_decide (cpu ∈ reserved) then take_free cpus reserved num_faces resolved
    else take_free cpus reserved num_faces (resolved ++ [cpu])
  end.

(** [while (resolved.size() < num_faces)]; [missing] is the number of turns. *)
Fixpoint fill_up (missing : nat) (network_map resolved : list Z) : list Z :=
  match missing with
  | O => resolved
  | S missing =>
    let fallback_cpu :=
      match network_map with
      | [] => to_signed 32 (u32 (16 + Z.of_nat (length resolved)))
      | _ => default 0 (network_map !! (length resolved mod length network_map)%nat)
      end in
    fill_up missing network_map (resolved ++ [fallback_cpu])
  end.

Definition resolve_processing_cpu_affinity_map (c : Config.ReceiverConfig) (num_faces : nat) : list Z :=
  let configured := Config.processing_cpu_affinity_map (Config.performance c) in
  if (length configured =? num_faces)%nat then configured
  else
    let network_map := Config.cpu_affinity_map (Config.network c) in
    let reserved : gset Z := list_to_set network_map in
    let resolved := take_free data_cpus reserved num_faces [] in
    fill_up (num_faces - length resolved) network_map resolved.

(** *** Faces *)

Definition has_three_face_topology (n : Config.Network) : bool :=
  (length (Config.bind_ips n) =? 3)%nat && (length (Config.source_id_map n) =? 3)%nat &&
  (length (Config.cpu_affinity_map n) =? 3)%nat.

Definition num_faces (n : Config.Network) : nat := if has_three_face_topology n then 3%nat else 1%nat.

Definition face_binding (n : Config.Network) (i : nat) : ArrayFaceBinding :=
  mkArrayFaceBinding (u8 (Z.of_nat i + 1)) (default 0 (Config.source_id_map n !! i))
    (default EmptyString (Config.bind_ips n !! i)) (Config.listen_port n)
    (default 0 (Config.cpu_affinity_map n !! i)) (Config.source_filter_enabled n).

Definition fallback_binding (n : Config.Network) : ArrayFaceBinding :=
  mkArrayFaceBinding 1 0x11 (Config.bind_ip n) (Config.listen_port n) 16 false.

Definition array_face_bindings (n : Config.Network) : list ArrayFaceBinding :=
  if has_three_face_topology n then face_binding n <$> seq 0 3 else [fallback_binding n].

(** The capture hook is one closure, which reads the current writer. *)
Definition udp_config (c : Config.ReceiverConfig) (hook : option unit) : @UdpReceiverConfig unit :=
  let n := Config.network c in let p := Config.performance c in
  mkUdpReceiverConfig (array_face_bindings n) (Config.listen_port n) (Config.bind_ip n)
    (Config.recvmmsg_batch_size n) (Config.recv_drain_rounds p) (Config.socket_rcvbuf_mb n)
    (Config.packet_pool_mb_per_face p) false (Config.enable_ip_freebind n) 0 (Config.numa_node p) 16 31
    (Config.prefetch_hints_enabled p) hook.

(** *** Outputs *)

Inductive DeliveryInterface :=
  | SharedMemoryDelivery (shm_name : string) (shm_size : Z)
  | UnixSocketDelivery (socket_path : string) (reconnect_interval_ms : Z)
  | CallbackDelivery.

Definition choose_delivery (d : Config.Delivery) : DeliveryInterface :=
  if bool_decide (Config.method d = "shared_memory")
  then SharedMemoryDelivery (Config.shm_name d) (u64 (Config.shm_size_mb d * 1024 * 1024))
  else if bool_decide (Config.method d = "unix_socket")
  then UnixSocketDelivery (Config.socket_path d) (Config.reconnect_interval_ms d)
  else CallbackDelivery.

Record StubConsumerConfig := mkStubConsumerConfig {
  sc_array_id : Z;
  sc_print_summary : bool;
  sc_write_to_file : bool;
  sc_output_file : string;
  sc_stats_interval_ms : Z;
}.

Definition consumer_enabled (c : Config.ReceiverConfig) : bool :=
  Config.print_summary (Config.consumer c) || Config.write_to_file (Config.consumer c).

Definition consumer_config (c : Config.ReceiverConfig) (array_id : Z) : StubConsumerConfig :=
  let k := Config.consumer c in
  mkStubConsumerConfig array_id (Config.print_summary k) (Config.write_to_file k) (Config.output_dir k)
    (Config.stats_interval_ms k).

(** [capture_cfg]; the capacity of the queue keeps its default. *)
Definition capture_config (k : Config.Capture) : Capture.PcapWriterConfig :=
  Capture.mkPcapWriterConfig (Config.capture_enabled k) (Config.max_file_size_mb k) (Config.max_files k) 4096
    (Config.filter_packet_types k) (Config.filter_source_ids k).

(** *** The context *)

(** The high-water marks of [FacePipeline]. *)
Record Marks := mkMarks {
  last_reasm_late_fragments : Z;
  last_reasm_duplicate_fragments : Z;
  last_reasm_frames_incomplete : Z;
  last_reasm_contexts_overflow : Z;
  last_reasm_bytes_overflow : Z;
  last_reorder_duplicates : Z;
  last_reorder_zero_filled : Z;
}.

Definition Marks_zero : Marks := mkMarks 0 0 0 0 0 0 0.

(** A face with the members [FacePipeline.FacePipeline] does not have; [adapter]
    tells whether its raw-block path exists. *)
Record AppFace := mkAppFace {
  face : FacePipeline.FacePipeline;
  processing_cpu_affinity : Z;
  adapter : bool;
  marks : Marks;
}.

Record AppContext := mkAppContext {
  ctx_config_file : string;
  ctx_dry_run : bool;
  delivery_interface : DeliveryInterface;
  udp_receiver : @UdpReceiver unit;
  face_pipelines : list AppFace;
  stub_consumers : list StubConsumerConfig;
  pcap_writer : option (Capture.PcapWriterConfig * Capture.PcapWriter);
}.

(** The objects outside the context that [app_init] sets up. *)
Record Singletons := mkSingletons {
  config_manager : Config.ConfigManager;
  logger : Logger.State;
  endpoint : MetricsServer.Endpoint;
}.

Section Init.

Context `{Config.Yaml}.

(** The files of configuration, the clocks, and what the file system does when the
    capture file is opened. *)
Variables (LoadFile : string -> option Config.Node) (reorder_clock : nat -> Z) (now : Z) (capture_env : Capture.Env).

Definition build_faces (c : Config.ReceiverConfig) : list AppFace :=
  let n := num_faces (Config.network c) in
  let cpus := resolve_processing_cpu_affinity_map c n in
  (fun i => mkAppFace (FacePipeline.build_face reorder_clock c i) (default 0 (cpus !! i)) (consumer_enabled c) Marks_zero)
    <$> seq 0 n.

Definition build_consumers (c : Config.ReceiverConfig) : list StubConsumerConfig :=
  if consumer_enabled c
  then (fun f => consumer_config c (FacePipeline.array_id (face f))) <$> build_faces c
  else [].

(** Phase 6: the published writer and the hook. *)
Definition start_capture (k : Config.Capture) : option (Capture.PcapWriterConfig * Capture.PcapWriter) * option unit :=
  if Config.capture_enabled k then
    let cfg := capture_config k in
    let '(ok, w) := Capture.start cfg capture_env Capture.PcapWriter_init in
    if ok then (Some (cfg, w), Some tt) else (None, None)
  else (None, None).

(** The result is the return code and, if it is zero, the context; [None] when an
    exception escapes from the configuration. *)
Definition app_init (options : AppOptions) (s : Singletons) : option (Z * option AppContext * Singletons) :=
  let '(o, cm) := Config.load_from_file LoadFile (config_file options) (config_manager s) in
  match o with
  | Config.Thrown => None
  | Config.Returned false => Some (1, None, mkSingletons cm (logger s) (endpoint s))
  | Config.Returned true =>
    let c := Config.get_config cm in
    let logger := Logger.initialize (parse_log_level (Config.level (Config.logging c)))
                    (Config.log_file (Config.logging c)) (logger s) in
    let endpoint := MetricsServer.initialize (Config.metrics_port (Config.monitoring c))
                      (Config.metrics_bind_ip (Config.monitoring c)) now (endpoint s) in
    let '(writer, hook) := start_capture (Config.capture c) in
    Some (0, Some (mkAppContext (config_file options) (dry_run options) (choose_delivery (Config.delivery c))
                     (UdpReceiver_init (udp_config c hook) true) (build_faces c) (build_consumers c) writer),
          mkSingletons cm logger endpoint)
  end.

End Init.

(** The packet callback: the index of the face, as a [size_t]; [None] drops the
    packet. *)
Definition route (faces : nat) (array_id : Z) : option nat :=
  let face_idx := array_id -[64] 1 in
  if Z.of_nat faces <=? face_idx then None else Some (Z.to_nat face_idx).

(** ** Lemmas *)

(** The scan finds the first free processors. *)
Lemma take_free_spec cpus reserved n : forall resolved,
  (length resolved <= n)%nat ->
  take_free cpus reserved n resolved =
  resolved ++ take (n - length resolved) (filter (fun cpu => cpu ∉ reserved) cpus).
Proof.
  induction cpus as [|cpu cpus IH]; intros resolved Hl; cbn [take_free].
  { by rewrite filter_nil, take_nil, app_nil_r. }
  destruct (Nat.ltb_spec (length resolved) n) as [Hlt|Hge]; cbn [negb].
  - case_bool_decide as Hin.
    + rewrite IH by done. by rewrite filter_cons_False by (intros Hn; apply Hn; exact Hin).
    + rewrite IH by (rewrite length_app; cbn; lia). rewrite filter_cons_True by done.
      rewrite length_app, <-app_assoc. cbn [length]. replace (n - length resolved)%nat with (S (n - (length resolved + 1))) by lia.
      done.
  - replace (n - length resolved)%nat with 0%nat by lia. by rewrite take_0, app_nil_r.
Qed.

Lemma fill_up_length missing net : forall resolved, length (fill_up missing net resolved) = (missing + length resolved)%nat.
Proof. induction missing as [|m IH]; intros resolved; cbn [fill_up]; [done|]. rewrite IH, length_app. cbn. lia. Qed.

Lemma NoDup_data_cpus : NoDup data_cpus.
Proof. apply (bool_decide_eq_true_1 (NoDup data_cpus)). vm_compute. reflexivity. Qed.

(** A few reserved processors leave enough free ones. *)
Lemma free_cpus_many (net : list Z) :
  (16 - length net <= length (filter (fun cpu => cpu ∉ (list_to_set net : gset Z)) data_cpus))%nat.
Proof.
  assert (Hsplit : forall l : list Z, length l = (length (filter (fun cpu => cpu ∈ (list_to_set net : gset Z)) l) +
    length (filter (fun cpu => cpu ∉ (list_to_set net : gset Z)) l))%nat).
  { intros l. induction l as [|x l IH]; [done|]. rewrite !filter_cons. repeat case_decide; cbn [length]; try done; lia. }
  assert (Hres : (length (filter (fun cpu => cpu ∈ (list_to_set net : gset Z)) data_cpus) <= length net)%nat).
  { apply submseteq_length, NoDup_submseteq; [apply NoDup_filter, NoDup_data_cpus|].
    intros x [Hx _]%list_elem_of_filter. by apply elem_of_list_to_set in Hx. }
  specialize (Hsplit data_cpus). change (length data_cpus) with 16%nat in Hsplit. lia.
Qed.

Lemma num_faces_valid c : Config.config_valid c -> num_faces (Config.network c) = Config.num_faces (Config.network c) /\
  (num_faces (Config.network c) <= 3)%nat /\ (length (Config.cpu_affinity_map (Config.network c)) <= 3)%nat.
Proof.
  intros Hv. pose proof (Config.cv_faces _ Hv) as Hf. unfold num_faces, has_three_face_topology, Config.num_faces.
  destruct Hf as [(-> & -> & ->)|(Hb & _ & _ & Hs & Hc & _)]; [by cbn; lia|].
  apply Permutation_length in Hs. rewrite Hb, Hc, Hs. cbn [length Nat.eqb andb].
  destruct (Config.bind_ips _); [done|]. cbn in Hb |- *. lia.
Qed.

Lemma elem_of_data_cpus x : x ∈ data_cpus -> 16 <= x <= 31.
Proof. unfold data_cpus. intros (i & -> & Hi)%list_elem_of_fmap. apply elem_of_seq in Hi. lia. Qed.

(** The processors of the processing threads. *)
Lemma resolve_spec c :
  Config.config_valid c ->
  let n := num_faces (Config.network c) in
  let cpus := resolve_processing_cpu_affinity_map c n in
  length cpus = n /\ NoDup cpus /\ Forall (fun cpu => 0 <= cpu) cpus /\
  (Config.processing_cpu_affinity_map (Config.performance c) = [] ->
     Forall (fun cpu => 16 <= cpu <= 31 /\ cpu ∉ Config.cpu_affinity_map (Config.network c)) cpus).
Proof.
  intros Hv n cpus. destruct (num_faces_valid c Hv) as (Hn & Hn3 & Hc3). unfold cpus, resolve_processing_cpu_affinity_map.
  pose proof (Config.cv_cpus _ Hv) as Hcp. cbn zeta in Hcp.
  destruct (Nat.eqb_spec (length (Config.processing_cpu_affinity_map (Config.performance c))) n) as [Heq|Hne].
  { destruct Hcp as [Hnil|[[Hnd Hnn] _]].
    - rewrite Hnil in Heq. cbn in Heq. unfold n, num_faces in Heq. by destruct (has_three_face_topology _).
    - split_and!; [done..|]. intros Hnil. rewrite Hnil in Heq. unfold n, num_faces in Heq.
      by destruct (has_three_face_topology _). }
  destruct Hcp as [Hnil|[_ Hlen]]; [|by rewrite Hlen, <-Hn in Hne].
  rewrite take_free_spec by (cbn; lia). cbn [app length]. rewrite Nat.sub_0_r.
  set (free := filter _ data_cpus).
  assert (Hfree : (n <= length free)%nat).
  { pose proof (free_cpus_many (Config.cpu_affinity_map (Config.network c))) as Hf. fold free in Hf. unfold n. lia. }
  rewrite length_take, Nat.min_l, Nat.sub_diag by lia. cbn [fill_up].
  assert (Hall : Forall (fun cpu => 16 <= cpu <= 31 /\ cpu ∉ Config.cpu_affinity_map (Config.network c)) (take n free)).
  { apply Forall_take, Forall_forall. intros x [Hx Hd]%list_elem_of_filter. split; [by apply elem_of_data_cpus|].
    intros Hin. apply Hx. by apply elem_of_list_to_set. }
  split_and!; [rewrite length_take; lia| |eapply Forall_impl; [exact Hall|]; cbn; lia|done].
  eapply sublist_NoDup; [|apply sublist_take]. apply NoDup_filter, NoDup_data_cpus.
Qed.

Lemma route_spec n i : (i < n)%nat -> Z.of_nat n < 255 -> route n (u8 (Z.of_nat i + 1)) = Some i.
Proof.
  intros Hi Hn. unfold route. rewrite (wrap_small 8) by (unfold in_range; lia).
  rewrite (wrap_small 64) by (unfold in_range; lia). destruct (Z.leb_spec (Z.of_nat n) (Z.of_nat i + 1 - 1)); [lia|].
  f_equal. lia.
Qed.

Lemma bindings_length n : length (array_face_bindings n) = num_faces n.
Proof. unfold array_face_bindings, num_faces. by destruct (has_three_face_topology n). Qed.

Lemma bindings_lookup n i b :
  array_face_bindings n !! i = Some b -> (i < num_faces n)%nat /\ b_array_id b = u8 (Z.of_nat i + 1).
Proof.
  intros Hb. split; [rewrite <-bindings_length; by eapply lookup_lt_Some|].
  unfold array_face_bindings in Hb. destruct (has_three_face_topology n).
  - apply list_lookup_fmap_Some in Hb as (j & -> & Hj). apply lookup_seq in Hj as [-> _]. done.
  - destruct i; [|done]. by injection Hb as <-.
Qed.

(** What [app_init] does when the configuration loads. *)
Lemma app_init_unfold `{Config.Yaml} LoadFile clock now env options s cm :
  Config.load_from_file LoadFile (config_file options) (config_manager s) = (Config.Returned true, cm) ->
  let c := Config.get_config cm in
  let wh := start_capture env (Config.capture c) in
  exists s', app_init LoadFile clock now env options s =
    Some (0, Some (mkAppContext (config_file options) (dry_run options) (choose_delivery (Config.delivery c))
                    (UdpReceiver_init (udp_config c wh.2) true) (build_faces clock c) (build_consumers clock c) wh.1), s').
Proof.
  intros Hl c wh. unfold app_init. rewrite Hl. fold c. unfold wh. destruct (start_capture env (Config.capture c)) as [w h].
  by eexists.
Qed.

Lemma build_faces_lookup clock c i f :
  build_faces clock c !! i = Some f ->
  face f = FacePipeline.build_face clock c i /\
  processing_cpu_affinity f = default 0 (resolve_processing_cpu_affinity_map c (num_faces (Config.network c)) !! i) /\
  (i < num_faces (Config.network c))%nat.
Proof.
  unfold build_faces. intros (j & -> & Hj)%list_lookup_fmap_Some. apply lookup_seq in Hj as [-> Hj]. done.
Qed.

Lemma faces_length clock c : length (build_faces clock c) = num_faces (Config.network c).
Proof. unfold build_faces. by rewrite length_fmap, length_seq. Qed.

(** The processors the faces got are the resolved ones. *)
Lemma build_faces_cpus clock c :
  Config.config_valid c ->
  processing_cpu_affinity <$> build_faces clock c = resolve_processing_cpu_affinity_map c (num_faces (Config.network c)).
Proof.
  intros Hv. destruct (resolve_spec c Hv) as (Hlen & _). apply list_eq. intros i. rewrite list_lookup_fmap.
  destruct (build_faces clock c !! i) as [f|] eqn:E; cbn.
  - destruct (build_faces_lookup _ _ _ _ E) as (_ & -> & Hi). rewrite <-Hlen in Hi.
    by destruct (lookup_lt_is_Some_2 _ _ Hi) as [x ->].
  - apply lookup_ge_None in E. rewrite faces_length in E. symmetry. apply lookup_ge_None. lia.
Qed.

Lemma bindings_sources c :
  Config.config_valid c -> NoDup (b_expected_source_id <$> array_face_bindings (Config.network c)).
Proof.
  intros Hv. unfold array_face_bindings, has_three_face_topology.
  destruct (Config.cv_faces _ Hv) as [(-> & _)|(_ & _ & _ & Hs & _)]; [apply NoDup_singleton|].
  destruct (_ && _) eqn:E; [|apply NoDup_singleton].
  assert (Hd : NoDup (Config.source_id_map (Config.network c))).
  { rewrite Hs. apply (bool_decide_eq_true_1 _). vm_compute. reflexivity. }
  apply Permutation_length in Hs. destruct (Config.source_id_map (Config.network c)) as [|x [|y [|z [|]]]] eqn:Es; try done.
  cbn. by rewrite Es.
Qed.

(** With three faces the receive threads are on the processors listed. *)
Lemma three_faces_cpus net :
  num_faces net = 3%nat -> b_cpu_affinity <$> array_face_bindings net = Config.cpu_affinity_map net.
Proof.
  unfold num_faces, array_face_bindings, has_three_face_topology. destruct (_ && _) eqn:E; [|done]. intros _.
  apply andb_true_iff in E as [_ E]. destruct (Config.cpu_affinity_map net) as [|a [|b [|d [|]]]] eqn:Em; try discriminate E.
  cbn. by rewrite Em.
Qed.

Lemma one_face_cpus c :
  num_faces (Config.network c) <> 3%nat -> Config.cpu_affinity_map (Config.network c) = [] ->
  Config.processing_cpu_affinity_map (Config.performance c) = [] ->
  resolve_processing_cpu_affinity_map c (num_faces (Config.network c)) = [16] /\
  b_cpu_affinity <$> array_face_bindings (Config.network c) = [16].
Proof.
  unfold num_faces, array_face_bindings. destruct (has_three_face_topology _); [done|]. intros _ Hn Hp.
  unfold resolve_processing_cpu_affinity_map. rewrite Hn, Hp. split; reflexivity.
Qed.

(** ** Theorems *)

(** C7: start-up wires every face to its own socket, processor and consumer.  When
    the configuration file loads, [app_init] returns 0 and a context with as many
    faces as bindings of sockets; binding, face and, if there are consumers,
    consumer number [i] have the same array id, the packet callback routes what
    binding [i] receives to face [i] and nothing else there, and the bindings
    expect distinct sources.  The processing threads have distinct processors.
    Without an explicit assignment these are isolated ones (16 to 31) and not
    among those the configuration lists for receiving; with three faces no
    receive thread is therefore on one of them, while with a single face and
    nothing listed the receive thread and the processing thread are both
    on processor 16.  The capture hook is set exactly
    when a writer is published.  When the file does not load, the result is 1 and
    no context, and the configuration in force stays as it was.  (Reading the file
    does not throw.) *)
Theorem app_init_wires_faces `{Config.Yaml} (LoadFile : string -> option Config.Node) (clock : nat -> Z) (now : Z)
    (env : Capture.Env) (options : AppOptions) (s : Singletons) (cm : Config.ConfigManager) (ok : bool)
    (Hload : Config.load_from_file LoadFile (config_file options) (config_manager s) = (Config.Returned ok, cm)) :
  let net := Config.network (Config.get_config cm) in
  if ok then exists ctx s',
    app_init LoadFile clock now env options s = Some (0, Some ctx, s') /\
    let bindings := array_faces (config_ (udp_receiver ctx)) in
    let cpus := processing_cpu_affinity <$> face_pipelines ctx in
    length (face_pipelines ctx) = length bindings /\
    NoDup (b_expected_source_id <$> bindings) /\
    (stub_consumers ctx = [] \/ length (stub_consumers ctx) = length bindings) /\
    (forall i b f, bindings !! i = Some b -> face_pipelines ctx !! i = Some f ->
       FacePipeline.array_id (face f) = b_array_id b /\
       (forall k, stub_consumers ctx !! i = Some k -> sc_array_id k = b_array_id b) /\
       forall j, route (length (face_pipelines ctx)) (b_array_id b) = Some j <-> j = i) /\
    NoDup cpus /\ Forall (fun cpu => 0 <= cpu) cpus /\
    (Config.processing_cpu_affinity_map (Config.performance (Config.get_config cm)) = [] ->
       Forall (fun cpu => 16 <= cpu <= 31 /\ cpu ∉ Config.cpu_affinity_map net) cpus /\
       (length bindings = 3%nat -> Forall (fun cpu => cpu ∉ b_cpu_affinity <$> bindings) cpus) /\
       (length bindings <> 3%nat -> Config.cpu_affinity_map net = [] -> cpus = [16] /\ b_cpu_affinity <$> bindings = [16])) /\
    (is_Some (capture_hook_ (udp_receiver ctx)) <-> is_Some (pcap_writer ctx))
  else exists s', app_init LoadFile clock now env options s = Some (1, None, s') /\ config_manager s' = config_manager s.
Proof.
  intros net. pose proof (Config.load_from_file_cases LoadFile (config_file options) (config_manager s)) as Hc.
  rewrite Hload in Hc. destruct ok; [|destruct Hc as [[? _]|[_ ->]]; [done|]; eexists; unfold app_init; rewrite Hload; done].
  destruct Hc as [(_ & cfg & _ & Hv & Ecm)|[? _]]; [|done].
  destruct (app_init_unfold LoadFile clock now env options s cm Hload) as (s' & Ei).
  eexists _, s'. split; [exact Ei|]. cbn [udp_receiver face_pipelines stub_consumers pcap_writer UdpReceiver_init config_
    capture_hook_ udp_config array_faces capture_hook].
  replace cfg with (Config.get_config cm) in Hv by (rewrite Ecm; done). clear Ecm Ei Hload s'.
  set (c := Config.get_config cm) in *. fold c in net. unfold net.
  rewrite build_faces_cpus by done. rewrite faces_length, bindings_length.
  destruct (resolve_spec c Hv) as (_ & Hnd & Hnn & Hiso). destruct (num_faces_valid c Hv) as (_ & Hn3 & _).
  split_and!; [done|by apply bindings_sources| | |done|done| |].
  - unfold build_consumers. destruct (consumer_enabled c); [right|by left]. by rewrite length_fmap, faces_length.
  - intros i b f Hb Hf. destruct (bindings_lookup _ _ _ Hb) as [Hi ->]. destruct (build_faces_lookup _ _ _ _ Hf) as (Ef & _).
    split_and!.
    + by rewrite Ef.
    + unfold build_consumers. intros k Hk. destruct (consumer_enabled c); [|done].
      rewrite list_lookup_fmap, Hf in Hk. injection Hk as <-. cbn. by rewrite Ef.
    + intros j. rewrite route_spec by lia. split; [by injection 1|by intros ->].
  - intros Hpm. specialize (Hiso Hpm). split_and!; [done| |].
    + intros H3. eapply Forall_impl; [exact Hiso|]. intros cpu [_ Hni]. by rewrite three_faces_cpus.
    + intros H3 Hmap. by apply one_face_cpus.
  - unfold start_capture. destruct (Config.capture_enabled _); [|by split; intros [? [=]]].
    destruct (Capture.start _ _ _) as [[] w]; [by split; eexists|by split; intros [? [=]]].
Qed.

(** A configuration with three faces. *)
Definition three_faces : Config.tree :=
  let sq l := Config.Seq (Config.Scalar <$> l) in
  Config.Map [("network", Config.Map [("bind_ips", sq ["10.0.0.1"; "10.0.0.2"; "10.0.0.3"]);
                 ("source_id_map", sq ["17"; "18"; "19"]); ("cpu_affinity_map", sq ["16"; "17"; "18"])])].

Lemma app_init_wires_faces_witness :
  exists ctx s', app_init (H := Config.tree_yaml) (fun _ => Some three_faces) (fun _ => 0) 0
      (Capture.mkEnv true true true true true None) AppOptions_default
      (mkSingletons Config.ConfigManager_init Logger.Logger_init (MetricsServer.mkEndpoint 0 EmptyString 0)) =
    Some (0, Some ctx, s') /\
    length (face_pipelines ctx) = 3%nat /\ processing_cpu_affinity <$> face_pipelines ctx = [19; 20; 21] /\
    NoDup (processing_cpu_affinity <$> face_pipelines ctx).
Proof.
  set (fs := fun _ : string => Some three_faces).
  set (s := mkSingletons Config.ConfigManager_init Logger.Logger_init (MetricsServer.mkEndpoint 0 EmptyString 0)).
  set (l := Config.load_from_file (H := Config.tree_yaml) fs (config_file AppOptions_default) (config_manager s)).
  assert (El : l = (Config.Returned true, l.2)) by (vm_compute; reflexivity).
  destruct (app_init_wires_faces (H := Config.tree_yaml) fs (fun _ => 0) 0 (Capture.mkEnv true true true true true None)
    AppOptions_default s _ true El) as (ctx & s' & Ei & _ & _ & _ & _ & Hnd & _).
  exists ctx, s'. split; [exact Ei|].
  assert (Ecpus : [19; 20; 21] = processing_cpu_affinity <$> face_pipelines ctx).
  { apply (f_equal (fun r => match r with Some (_, Some ctx, _) => processing_cpu_affinity <$> face_pipelines ctx | _ => [] end)) in Ei.
    etransitivity; [|exact Ei]. vm_compute. reflexivity. }
  rewrite <-(length_fmap processing_cpu_affinity). split_and!; [by rewrite <-Ecpus|by rewrite <-Ecpus|exact Hnd].
Defined.

(** All consumers are given the same output path. *)
Theorem consumers_share_output clock c k1 k2 :
  k1 ∈ build_consumers clock c -> k2 ∈ build_consumers clock c -> sc_output_file k1 = sc_output_file k2.
Proof.
  unfold build_consumers. destruct (consumer_enabled c); [|by intros ?%elem_of_nil].
  by intros (? & -> & _)%list_elem_of_fmap (? & -> & _)%list_elem_of_fmap.
Qed.

End AppInit.
