(* ===== verification/AppLoop.v ===== *)
(** The running receiver: the processing threads and the main loop
    ([src/m01_receiver/app_run.cpp], [app_run], its reload callback and its
    metrics).  The steps of the faces are those of [FacePipeline]; the loop's
    handling of signals is in [Signals]; start and shutdown are in [AppRun]. *)

From S2P Require Import Prelude Protocol Reassembler ReassemblerProps ReassemblerLaws Reorderer ReordererLaws SpscQueue.
From S2P Require Import RxStage Config FacePipeline FaceShutdown PacketPool UdpReceiver Float Text Metrics Logger RawBlocks Pcap Capture.
From S2P Require Import AppInit.
From stdpp Require Import strings.
Open Scope Z_scope.
Import Protocol Reassembler RxStage FacePipeline AppInit.

Module AppLoop.

#[local] Existing Instance Metrics.cell_eq_dec.

(** ** Definitions *)

(** *** One packet *)

Definition packet_type_index (packet_type : Z) : Z :=
  if packet_type =? PacketType_to_u8 DATA then Metrics.PacketTypeIndex.DATA
  else if packet_type =? PacketType_to_u8 HEARTBEAT then Metrics.PacketTypeIndex.HEARTBEAT
  else Metrics.PacketTypeIndex.UNKNOWN.

(** [static_cast<double>(now_ms - timestamp) / 1000.0]. *)
Definition delay_seconds (now_ms timestamp : Z) : Z :=
  Float.fdiv Float.binary64 (Float.of_Z Float.binary64 (now_ms -[64] timestamp)) (Float.of_Z Float.binary64 1000).

(** The accesses of the processing thread for one envelope, before and after the
    dispatch. *)
Definition entry_metrics (env : RxEnvelope) : list Metrics.access :=
  Metrics.increment_pipeline_packets_entered 1 ++ Metrics.increment_packets_received 1 ++
  Metrics.increment_packets_received_by_type (packet_type_index (packet_type (env_header env))) 1 ++
  Metrics.increment_bytes_received (packet_length env) ++
  Metrics.increment_pipeline_parse_ok 1 ++ Metrics.increment_pipeline_validate_ok 1.

Definition exit_metrics (env : RxEnvelope) (processing_us now_ms : Z) : list Metrics.access :=
  let timestamp := timestamp (env_header env) in
  Metrics.observe_processing_latency processing_us ++
  (if 0 <? timestamp then
     if timestamp <=? now_ms then Metrics.observe_data_delay (delay_seconds now_ms timestamp) else []
   else []).

(** *** The reports of the main loop *)

(** The seven statistics that are reported as drops. *)
Inductive Reported :=
  | LateFragments | DuplicateFragments | FramesIncomplete | ContextsOverflow | BytesOverflow
  | ReorderDuplicates | ReorderZeroFilled.

#[export] Instance Reported_eq_dec : EqDecision Reported.
Proof. solve_decision. Defined.

(** In the order of the code: each statistic of the reassembler is loaded by
    itself, those of the reorderer come from one snapshot. *)
Definition reported : list (list Reported) :=
  [[LateFragments]; [DuplicateFragments]; [FramesIncomplete]; [ContextsOverflow]; [BytesOverflow];
   [ReorderDuplicates; ReorderZeroFilled]].

Definition reason (k : Reported) : Z :=
  match k with
  | LateFragments => Metrics.DropReasonIndex.LATE_FRAGMENT
  | DuplicateFragments => Metrics.DropReasonIndex.REASM_DUPLICATE_FRAG
  | FramesIncomplete => Metrics.DropReasonIndex.REASM_TIMEOUT
  | ContextsOverflow => Metrics.DropReasonIndex.MAX_CONTEXTS_EXCEEDED
  | BytesOverflow => Metrics.DropReasonIndex.REASM_BYTES_OVERFLOW
  | ReorderDuplicates => Metrics.DropReasonIndex.SEQUENCE_DUPLICATE
  | ReorderZeroFilled => Metrics.DropReasonIndex.TIMEOUT
  end.

Definition statistic (k : Reported) (p : Processing) : Z :=
  let reasm_stats := stats_ (reassembler p) in
  let reorder_stats := Reorderer.get_statistics (reorderer p) in
  match k with
  | LateFragments => late_fragments reasm_stats
  | DuplicateFragments => duplicate_fragments reasm_stats
  | FramesIncomplete => frames_incomplete reasm_stats
  | ContextsOverflow => contexts_overflow reasm_stats
  | BytesOverflow => reasm_bytes_overflow reasm_stats
  | ReorderDuplicates => Reorderer.packets_duplicate reorder_stats
  | ReorderZeroFilled => Reorderer.packets_zero_filled reorder_stats
  end.

Definition mark (k : Reported) (m : Marks) : Z :=
  match k with
  | LateFragments => last_reasm_late_fragments m
  | DuplicateFragments => last_reasm_duplicate_fragments m
  | FramesIncomplete => last_reasm_frames_incomplete m
  | ContextsOverflow => last_reasm_contexts_overflow m
  | BytesOverflow => last_reasm_bytes_overflow m
  | ReorderDuplicates => last_reorder_duplicates m
  | ReorderZeroFilled => last_reorder_zero_filled m
  end.

Definition set_mark (k : Reported) (v : Z) (m : Marks) : Marks :=
  let '(mkMarks a b c d e f g) := m in
  match k with
  | LateFragments => mkMarks v b c d e f g
  | DuplicateFragments => mkMarks a v c d e f g
  | FramesIncomplete => mkMarks a b v d e f g
  | ContextsOverflow => mkMarks a b c v e f g
  | BytesOverflow => mkMarks a b c d v f g
  | ReorderDuplicates => mkMarks a b c d e v g
  | ReorderZeroFilled => mkMarks a b c d e f v
  end.

(** [if (now > last) { increment(reason, now - last); last = now; }] *)
Definition report_one (p : Processing) (m : Marks) (k : Reported) : Marks * list Metrics.access :=
  let now := statistic k p in
  if mark k m <? now
  then (set_mark k now m, Metrics.increment_packets_dropped_by_reason (reason k) (now -[64] mark k m))
  else (m, []).

Fixpoint report_all (p : Processing) (m : Marks) (ks : list Reported) : Marks * list Metrics.access :=
  match ks with
  | [] => (m, [])
  | k :: ks =>
    let '(m, l) := report_one p m k in
    let '(m, l') := report_all p m ks in (m, l ++ l')
  end.

Definition rx_gauges (f : AppFace) : list Metrics.access :=
  let rx := rx_stage (face f) in
  let rx_stats := get_stats rx in
  let queue_depth := SPSCQueue.size QUEUE_CAPACITY (queue_ rx) in
  let id := array_id (face f) in
  Metrics.set_face_rx_queue_depth id queue_depth ++
  Metrics.set_face_rx_queue_high_watermark id (queue_high_watermark rx_stats) ++
  Metrics.set_face_rx_queue_drops id (queue_drops rx_stats).

Definition pool_gauges (r : UdpReceiver.RuntimeStats) : list Metrics.access :=
  let s := UdpReceiver.rs_packet_pool r in
  Metrics.set_face_packet_pool_stats (UdpReceiver.rs_array_id r) (PacketPool.total_size s) (PacketPool.available s)
    (PacketPool.fallback_alloc s).

(** *** The state *)

(** What the main loop does in an iteration behind the signals, step by step.  A
    step reads the state that the other threads change at most once; what it does
    with the value concerns only the loop's own variables and the registry.  The
    scan of a face for timeouts is one step, although the code takes no lock. *)
Inductive Instr :=
  | Scan (i : nat)
  | LoadCreated (i : nat)
  | LoadDestroyed (i : nat)
  | LoadMissing (i : nat)
  | Report (ks : list Reported) (i : nat)
  | SetTotals
  | RxGauges (i : nat)
  | PoolGauges
  | System.

(** The reports of face [i]; which operand of [created - destroyed] is loaded first
    is left to the compiler. *)
Definition face_reports (i : nat) : list Instr :=
  [LoadCreated i; LoadDestroyed i; LoadMissing i] ++ ((fun ks => Report ks i) <$> reported).

Definition iteration (n : nat) : list Instr :=
  (Scan <$> seq 0 n) ++ (seq 0 n ≫= face_reports) ++ [SetTotals] ++ (RxGauges <$> seq 0 n) ++ [PoolGauges; System].

(** The variables of the main loop: what is left of the iteration, the value of
    [contexts_created] just loaded, the two totals, the time of the last system
    metrics. *)
Record LoopState := mkLoopState {
  todo : list Instr;
  created : Z;
  total_active_contexts : Z;
  total_missing : Z;
  last_system_metrics : Z;
}.

(** [accesses] are the accesses to the registry so far, [entered] the envelopes
    processed, [reads] the values of the reported statistics the main loop has
    read: of which face, which statistic, and the value. *)
Record RunState := mkRunState {
  faces : list AppFace;
  accesses : list Metrics.access;
  entered : list RxEnvelope;
  reads : list (nat * Reported * Z);
  loop : LoopState;
}.

(** What a step of the main loop finds: the traversal order of a context map, the
    packet pools, the clocks and the process status. *)
Record LoopInput := mkLoopInput {
  order : list ReassemblyKey;
  runtimes : list UdpReceiver.RuntimeStats;
  steady_now : Z;
  startup_time : Z;
  proc_status : option string;
}.

Definition with_marks (m : Marks) (f : AppFace) : AppFace :=
  let '(mkAppFace fp cpu ad _) := f in mkAppFace fp cpu ad m.

Section Loop.

Variables (now reasm_clock reorder_clock : nat -> Z) (fuel : nat) (spurious_push spurious_mark : nat -> bool).

Let face_step := face_step now reasm_clock reorder_clock fuel spurious_push spurious_mark.

Definition step_face (op : FaceOp) (f : AppFace) : option AppFace :=
  fp ← face_step (face f) op;
  Some (mkAppFace fp (processing_cpu_affinity f) (adapter f) (marks f)).

Definition system_metrics (t : LoopInput) : list Metrics.access :=
  Metrics.collect_system_metrics (steady_now t) (startup_time t) (proc_status t) ++ Metrics.increment_heartbeat_sent 1.

(** One step of the main loop; [rest] is what is left afterwards. *)
Definition run_instr (t : LoopInput) (ins : Instr) (rest : list Instr) (s : RunState) : option RunState :=
  let '(mkRunState fs acc ent rd (mkLoopState _ cr ta tm last)) := s in
  match ins with
  | Scan i =>
    f ← fs !! i; f ← step_face (Timeouts (order t)) f;
    Some (mkRunState (<[i := f]> fs) acc ent rd (mkLoopState rest cr ta tm last))
  | LoadCreated i =>
    f ← fs !! i;
    Some (mkRunState fs acc ent rd (mkLoopState rest (contexts_created (stats_ (reassembler (processing (face f))))) ta tm last))
  | LoadDestroyed i =>
    f ← fs !! i;
    let destroyed := contexts_destroyed (stats_ (reassembler (processing (face f)))) in
    Some (mkRunState fs acc ent rd (mkLoopState rest cr (ta +[64] (cr -[64] destroyed)) tm last))
  | LoadMissing i =>
    f ← fs !! i;
    let missing := total_missing_fragments (stats_ (reassembler (processing (face f)))) in
    Some (mkRunState fs acc ent rd (mkLoopState rest cr ta (tm +[64] missing) last))
  | Report ks i =>
    f ← fs !! i;
    let p := processing (face f) in
    let '(m, l) := report_all p (marks f) ks in
    Some (mkRunState (<[i := with_marks m f]> fs) (acc ++ l) ent (rd ++ ((fun k => (i, k, statistic k p)) <$> ks))
            (mkLoopState rest cr ta tm last))
  | SetTotals =>
    Some (mkRunState fs (acc ++ Metrics.set_active_reorder_contexts ta ++ Metrics.set_missing_fragments_total tm) ent rd
            (mkLoopState rest cr ta tm last))
  | RxGauges i =>
    f ← fs !! i; Some (mkRunState fs (acc ++ rx_gauges f) ent rd (mkLoopState rest cr ta tm last))
  | PoolGauges =>
    Some (mkRunState fs (acc ++ (runtimes t ≫= pool_gauges)) ent rd (mkLoopState rest cr ta tm last))
  | System =>
    Some (if 5000000000 <=? steady_now t - last
          then mkRunState fs (acc ++ system_metrics t) ent rd (mkLoopState rest cr ta tm (steady_now t))
          else mkRunState fs acc ent rd (mkLoopState rest cr ta tm last))
  end.

(** A turn of the main loop: the next step, or the beginning of an iteration. *)
Definition loop_step (t : LoopInput) (s : RunState) : option RunState :=
  match todo (loop s) with
  | ins :: rest => run_instr t ins rest s
  | [] => Some (mkRunState (faces s) (accesses s) (entered s) (reads s)
                  (mkLoopState (iteration (length (faces s))) 0 0 0 (last_system_metrics (loop s))))
  end.

(** The packet callback of the network layer. *)
Definition on_received (raw : ReceivedPacket) (s : RunState) : option RunState :=
  match route (length (faces s)) (rp_array_id raw) with
  | None => Some s
  | Some i =>
    match faces s !! i with
    | None => None
    | Some f => f ← step_face (Receive raw) f;
                Some (mkRunState (<[i := f]> (faces s)) (accesses s) (entered s) (reads s) (loop s))
    end
  end.

(** One turn of the processing thread of face [i]. *)
Definition process_one (i : nat) (processing_us now_ms : Z) (s : RunState) : option RunState :=
  match faces s !! i with
  | None => Some s
  | Some f =>
    f' ← step_face Process f;
    let fs := <[i := f']> (faces s) in
    Some (match (pop_envelope (rx_stage (face f))).1 with
          | None => mkRunState fs (accesses s) (entered s) (reads s) (loop s)
          | Some env =>
            mkRunState fs (accesses s ++ entry_metrics env ++ exit_metrics env processing_us now_ms)
              (entered s ++ [env]) (reads s) (loop s)
          end)
  end.

(** The reload callback, for the faces. *)
Definition reload_face (c : Config.ReceiverConfig) (f : AppFace) : AppFace :=
  let '(mkAppFace (mkFacePipeline aid rx (mkProcessing d r ro b hs out)) cpu ad m) := f in
  mkAppFace (mkFacePipeline aid rx (mkProcessing d
    (set_timeout_ms r (Config.reasm_timeout_ms (Config.reassembly c)))
    (Reorderer.set_timeout_ms ro (Config.reorder_timeout_ms (Config.reorder c))) b hs out)) cpu ad m.

Inductive RunEvent :=
  | Received (raw : ReceivedPacket)
  | Processed (i : nat) (processing_us now_ms : Z)
  | MainStep (t : LoopInput)
  | Reloaded (c : Config.ReceiverConfig).

Definition run_step (s : RunState) (e : RunEvent) : option RunState :=
  match e with
  | Received raw => on_received raw s
  | Processed i us ms => process_one i us ms s
  | MainStep t => loop_step t s
  | Reloaded c =>
    Some (mkRunState (reload_face c <$> faces s) (accesses s) (entered s) (reads s) (loop s))
  end.

Fixpoint run_loop (s : RunState) (es : list RunEvent) : option RunState :=
  match es with
  | [] => Some s
  | e :: es => s ← run_step s e; run_loop s es
  end.

End Loop.

Definition RunState_init (fs : list AppFace) (steady_now : Z) : RunState :=
  mkRunState fs [] [] [] (mkLoopState [] 0 0 0 steady_now).

(** *** The reload of the capture *)

(** [stop] of a writer: its thread takes the steps [es]. *)
Definition stop_writer (es : list Capture.Env) (e1 : Capture.Env) (w : Capture.PcapWriterConfig * Capture.PcapWriter) :
    Capture.PcapWriterConfig * Capture.PcapWriter :=
  (w.1, Capture.finish_stop w.1 e1 (Capture.run_capture w.1 (Capture.WriterStep <$> es) (Capture.begin_stop w.2))).

(** The published writer, the hook of the receiver, and the writers that have been
    stopped.  A writer that is replaced is stopped by its destructor. *)
Record CaptureState := mkCaptureState {
  published : option (Capture.PcapWriterConfig * Capture.PcapWriter);
  receiver : @UdpReceiver.UdpReceiver unit;
  stopped : list (Capture.PcapWriterConfig * Capture.PcapWriter);
}.

Definition retire (es : list Capture.Env) (e1 : Capture.Env)
    (w : option (Capture.PcapWriterConfig * Capture.PcapWriter)) : list (Capture.PcapWriterConfig * Capture.PcapWriter) :=
  option_list (stop_writer es e1 <$> w).

Definition apply_capture_runtime_config (k : Config.Capture) (e0 : Capture.Env) (es : list Capture.Env) (e1 : Capture.Env)
    (s : CaptureState) : CaptureState :=
  let '(mkCaptureState old u done) := s in
  if negb (Config.capture_enabled k)
  then mkCaptureState None (UdpReceiver.set_capture_hook None u) (done ++ retire es e1 old)
  else
    let cfg := capture_config k in
    let '(ok, w) := Capture.start cfg e0 Capture.PcapWriter_init in
    if negb ok then s
    else mkCaptureState (Some (cfg, w)) (UdpReceiver.set_capture_hook (Some tt) u) (done ++ retire es e1 old).

(** The closure behind the hook: it reads the published writer. *)
Definition captured (raw : bytes) (ts : Z) (s : CaptureState) : CaptureState :=
  let '(mkCaptureState w u done) := s in
  match UdpReceiver.current_capture_hook u, w with
  | Some _, Some (cfg, w) => mkCaptureState (Some (cfg, Capture.write_packet cfg raw ts w)) u done
  | _, _ => s
  end.

(** The whole reload callback: the level of the logger, the faces, the capture. *)
Definition on_reload (c : Config.ReceiverConfig) (e0 : Capture.Env) (es : list Capture.Env) (e1 : Capture.Env)
    (lg : Logger.State) (fs : list AppFace) (s : CaptureState) : Logger.State * list AppFace * CaptureState :=
  (Logger.set_level (parse_log_level (Config.level (Config.logging c))) lg, reload_face c <$> fs,
   apply_capture_runtime_config (Config.capture c) e0 es e1 s).

(** *** The start message *)

Definition format_listen_config (n : Config.Network) : string :=
  match Config.bind_ips n with
  | [] => Config.bind_ip n +:+ ":" +:+ Text.decimal (Config.listen_port n)
  | ips => foldl (fun oss '(i, ip) =>
             (if (i =? 0)%nat then oss else oss +:+ " | ") +:+ "[ArrayFace#" +:+ Text.decimal (Z.of_nat i) +:+ "] " +:+
             ip +:+ ":" +:+ Text.decimal (Config.listen_port n))
           EmptyString (imap pair ips)
  end.

(** ** Specification *)

Definition reason_cell (k : Reported) : Metrics.cell := Metrics.packets_by_reason_atomic (Z.to_nat (reason k)).

(** The largest value of the statistic [k] of face [i] among the values read. *)
Definition peak (k : Reported) (i : nat) (reads : list (nat * Reported * Z)) : Z :=
  foldl (fun m '(j, k', v) => if bool_decide (j = i /\ k' = k) then Z.max m v else m) 0 reads.

Definition open_contexts (f : AppFace) : Z := Z.of_nat (size (contexts_ (reassembler (processing (face f))))).

Definition queued (f : AppFace) : list RxEnvelope := SPSCQueue.contents QUEUE_CAPACITY (queue_ (rx_stage (face f))).

(** The counters the theorem is about. *)
Definition is_counter (c : Metrics.cell) : bool :=
  match c with
  | Metrics.packets_by_reason_atomic _ | Metrics.packets_received | Metrics.bytes_received
  | Metrics.pipeline_packets_entered_total => true
  | _ => false
  end.

Definition run_event_ok (e : RunEvent) : Prop := match e with Received raw => FaceShutdown.raw_ok raw | _ => True end.

(** A step of the main loop on one of [n] faces; no statistic is reported twice. *)
Definition instr_ok (n : nat) (ins : Instr) : Prop :=
  match ins with
  | Scan i | LoadCreated i | LoadDestroyed i | LoadMissing i | RxGauges i => (i < n)%nat
  | Report ks i => (i < n)%nat /\ NoDup ks
  | _ => True
  end.

Record run_inv (s : RunState) : Prop := {
  ri_faces : Forall (fun f => FaceShutdown.face_ok (face f)) (faces s);
  ri_ids : forall i f, faces s !! i = Some f -> array_id (face f) = u8 (Z.of_nat i + 1);
  ri_few : (length (faces s) <= 3)%nat;
  ri_todo : Forall (instr_ok (length (faces s))) (todo (loop s));
  ri_marks : forall k i f, faces s !! i = Some f -> mark k (marks f) = peak k i (reads s);
  ri_added : forall c, is_counter c = true -> Forall (fun a => Metrics.only_added c a = true) (accesses s);
  ri_drops : forall k, u64 (Metrics.added (reason_cell k) (accesses s)) =
                       u64 (sumZ ((fun f => mark k (marks f)) <$> faces s));
  ri_entered : Metrics.added Metrics.pipeline_packets_entered_total (accesses s) = Z.of_nat (length (entered s)) /\
               Metrics.added Metrics.packets_received (accesses s) = Z.of_nat (length (entered s)) /\
               Metrics.added Metrics.bytes_received (accesses s) = sumZ (packet_length <$> entered s);
}.

(** ** Lemmas *)

(** *** Reports *)

Lemma u64_plus a a' b b' : u64 a = u64 a' -> u64 b = u64 b' -> u64 (a + b) = u64 (a' + b').
Proof. intros Ha Hb. by rewrite <-(wrap_add_l 64 a), <-(wrap_add_r 64 _ b), Ha, Hb, wrap_add_l, wrap_add_r by lia. Qed.

Lemma mark_set k k' v m : mark k (set_mark k' v m) = if decide (k = k') then v else mark k m.
Proof. by destruct m, k, k'. Qed.

Lemma reason_inj k k' : reason_cell k = reason_cell k' -> k = k'.
Proof. by destruct k, k'. Qed.

Lemma reason_access k n : Metrics.increment_packets_dropped_by_reason (reason k) n = [Metrics.FetchAdd (reason_cell k) n].
Proof. by destruct k. Qed.

Lemma added_fetch c c' n : Metrics.added c [Metrics.FetchAdd c' n] = if decide (c' = c) then n else 0.
Proof. unfold Metrics.added. cbn. case_decide; cbn; lia. Qed.

(** What reporting does to a mark, and to the counter of its reason. *)
Lemma report_one_spec p m k' m' l :
  report_one p m k' = (m', l) ->
  forall k, mark k m' = (if decide (k = k') then Z.max (mark k m) (statistic k p) else mark k m) /\
    u64 (Metrics.added (reason_cell k) l) = u64 (mark k m' - mark k m).
Proof.
  unfold report_one. intros E k. destruct (Z.ltb_spec (mark k' m) (statistic k' p)) as [Hlt|Hge]; injection E as <- <-.
  - rewrite mark_set, reason_access, added_fetch. split; [case_decide; subst; lia|].
    case_decide as Hd; case_decide as Hk; subst.
    + rewrite (wrap_wrap 64) by lia. done.
    + destruct Hk. symmetry. by apply reason_inj.
    + destruct Hd. done.
    + by rewrite Z.sub_diag.
  - split; [case_decide; subst; lia|]. by rewrite Z.sub_diag.
Qed.

Lemma report_all_spec p ks : forall m m' l,
  NoDup ks -> report_all p m ks = (m', l) ->
  forall k, mark k m' = (if decide (k ∈ ks) then Z.max (mark k m) (statistic k p) else mark k m) /\
    u64 (Metrics.added (reason_cell k) l) = u64 (mark k m' - mark k m).
Proof.
  induction ks as [|k' ks IH]; intros m m' l Hnd E k; cbn [report_all] in E.
  { injection E as <- <-. split; [done|]. by rewrite Z.sub_diag. }
  apply NoDup_cons in Hnd as [Hni Hnd].
  destruct (report_one p m k') as [m1 l1] eqn:E1. destruct (report_all p m1 ks) as [m2 l2] eqn:E2. injection E as <- <-.
  destruct (report_one_spec _ _ _ _ _ E1 k) as [H1 A1]. destruct (IH _ _ _ Hnd E2 k) as [H2 A2].
  split.
  - rewrite H2, H1. repeat case_decide; subst; set_solver by lia.
  - rewrite Metrics.added_app. rewrite (u64_plus _ _ _ _ A1 A2). f_equal. lia.
Qed.

(** A report only adds to the counters of the reasons. *)
Definition is_report (a : Metrics.access) : Prop := exists k n, a = Metrics.FetchAdd (reason_cell k) n.

Lemma report_all_accesses p ks : forall m, Forall is_report (report_all p m ks).2.
Proof.
  induction ks as [|k ks IH]; intros m; cbn [report_all]; [constructor|].
  assert (H1 : Forall is_report (report_one p m k).2).
  { unfold report_one. case_match; [|constructor]. rewrite reason_access. apply Forall_singleton. by eexists _, _. }
  destruct (report_one p m k) as [m1 l1]. specialize (IH m1). destruct (report_all p m1 ks) as [m2 l2]. by apply Forall_app.
Qed.

(** Contexts in use, from the counters. *)
Definition counted_contexts (f : AppFace) : Z :=
  let s := stats_ (reassembler (processing (face f))) in contexts_created s - contexts_destroyed s.

(** *** Accesses *)

Lemma is_report_only_added c l : Forall is_report l -> Forall (fun a => Metrics.only_added c a = true) l.
Proof. intros H. eapply Forall_impl; [exact H|]. by intros a (k & n & ->). Qed.

(** The other accesses leave the counters of drops alone. *)
Definition neutral (c : Metrics.cell) (l : list Metrics.access) : Prop := Forall (fun a => Metrics.cell_of a <> c) l.

Lemma neutral_only_added c l : neutral c l -> Forall (fun a => Metrics.only_added c a = true) l.
Proof. intros Hn. eapply Forall_impl; [exact Hn|]. intros [c' n|c' v|c' d] H; cbn in *; [done|by apply bool_decide_eq_true_2..]. Qed.

Lemma neutral_added c l : neutral c l -> Metrics.added c l = 0.
Proof.
  induction 1 as [|a l Ha _ IH]; [done|]. rewrite Metrics.added_cons, IH. destruct a; [|done..].
  by rewrite added_fetch, decide_False by exact Ha.
Qed.

Lemma neutral_run c l s : neutral c l -> Metrics.run l s c = s c.
Proof.
  intros Hl. revert s. induction Hl as [|a l Ha _ IH]; intros s; [done|].
  change (Metrics.run (a :: l) s c) with (Metrics.run l (Metrics.perform a s) c). rewrite IH.
  by apply Metrics.cell_of_perform.
Qed.

Lemma neutral_bind {A} c (f : A -> list Metrics.access) xs : (forall x, neutral c (f x)) -> neutral c (xs ≫= f).
Proof. intros Hf. induction xs as [|x xs IH]; [constructor|]. apply Forall_app. split; [apply Hf|exact IH]. Qed.

Lemma neutral_guard c id f : (forall i, neutral c (f i)) -> neutral c (Metrics.face_guard id f).
Proof. intros Hf. unfold Metrics.face_guard. case_match; [constructor|apply Hf]. Qed.

Lemma neutral_rx c f : is_counter c = true \/ c = Metrics.active_contexts -> neutral c (rx_gauges f).
Proof.
  intros Hc. repeat apply Forall_app_2; apply neutral_guard; intros i; apply Forall_singleton; cbn; intros <-;
    by destruct Hc.
Qed.

Lemma neutral_pool c r :
  match c with Metrics.face_packet_pool_total _ | Metrics.face_packet_pool_available _ | Metrics.face_packet_pool_fallback_alloc _ => False
  | _ => True end -> neutral c (pool_gauges r).
Proof. intros Hc. apply neutral_guard. intros i. repeat apply Forall_cons_2; [cbn; by intros <-..|constructor]. Qed.

Lemma neutral_system c t :
  match c with Metrics.uptime_seconds | Metrics.memory_rss_bytes | Metrics.heartbeat_sent_total => False | _ => True end ->
  neutral c (system_metrics t).
Proof. intros Hc. repeat apply Forall_cons_2; [cbn; by intros <-..|constructor]. Qed.

(** *** Steps *)

(** A face after one of its threads has done something. *)
Record evolves (f f' : AppFace) : Prop := {
  ev_ok : FaceShutdown.face_ok (face f');
  ev_id : array_id (face f') = array_id (face f);
  ev_marks : marks f' = marks f;
}.

Definition with_faces (fs : list AppFace) (s : RunState) : RunState :=
  mkRunState fs (accesses s) (entered s) (reads s) (loop s).

Lemma evolves_marks fs fs' k : Forall2 evolves fs fs' ->
  (fun f => mark k (marks f)) <$> fs' = (fun f => mark k (marks f)) <$> fs.
Proof. induction 1 as [|f f' fs fs' [_ _ Hm] _ IH]; [done|]. rewrite !fmap_cons, IH. by rewrite Hm. Qed.

(** Steps of the faces keep the invariant. *)
Lemma run_inv_faces s fs' : run_inv s -> Forall2 evolves (faces s) fs' -> run_inv (with_faces fs' s).
Proof.
  intros [Hok Hid Hfew Hsc Hmk Had Hdr Hen] Hall. pose proof (Forall2_length _ _ _ Hall) as Hlen.
  constructor; cbn [with_faces faces accesses entered reads loop]; try done.
  - clear -Hall. induction Hall as [|f f' fs fs' [] _ IH]; by constructor.
  - intros i f' Hf. destruct (Forall2_lookup_r _ _ _ _ _ Hall Hf) as (f & Ef & [_ -> _]). by apply Hid.
  - lia.
  - by rewrite <-Hlen.
  - intros k i f' Hf. destruct (Forall2_lookup_r _ _ _ _ _ Hall Hf) as (f & Ef & [_ _ ->]). by apply Hmk.
  - intros k. by rewrite (evolves_marks _ _ k Hall).
Qed.

Lemma evolves_insert fs i f f' :
  Forall (fun f => FaceShutdown.face_ok (face f)) fs -> fs !! i = Some f -> evolves f f' ->
  Forall2 evolves fs (<[i := f']> fs).
Proof.
  intros Hok Hi Hf. rewrite <-(list_insert_id fs i f Hi) at 1. apply Forall2_insert; [|done].
  clear -Hok. induction Hok; by constructor.
Qed.

Lemma added_neutral_app c l l' : neutral c l' -> Metrics.added c (l ++ l') = Metrics.added c l.
Proof. intros H. by rewrite Metrics.added_app, (neutral_added c l' H), Z.add_0_r. Qed.

Definition with_accesses (l : list Metrics.access) (s : RunState) : RunState :=
  mkRunState (faces s) (accesses s ++ l) (entered s) (reads s) (loop s).

Lemma run_inv_accesses l s :
  run_inv s -> (forall c, is_counter c = true -> neutral c l) -> run_inv (with_accesses l s).
Proof.
  intros [Hok Hid Hfew Hto Hmk Had Hdr (He1 & He2 & He3)] Hl.
  constructor; cbn [with_accesses faces accesses entered reads loop]; try done.
  - intros c Hc. apply Forall_app_2; [by apply Had|by apply neutral_only_added, Hl].
  - intros r. rewrite added_neutral_app by (by apply Hl). apply Hdr.
  - by rewrite !(added_neutral_app _ _ l) by (by apply Hl).
Qed.

Lemma entry_added env :
  Metrics.added Metrics.pipeline_packets_entered_total (entry_metrics env) = 1 /\
  Metrics.added Metrics.packets_received (entry_metrics env) = 1 /\
  Metrics.added Metrics.bytes_received (entry_metrics env) = packet_length env.
Proof.
  unfold entry_metrics, packet_type_index. case_match; [|case_match]; split_and!; unfold Metrics.added; cbn;
    repeat first [rewrite decide_True by done | rewrite decide_False by done]; cbn; lia.
Qed.

Lemma entry_drops k env : neutral (reason_cell k) (entry_metrics env).
Proof.
  unfold entry_metrics, packet_type_index.
  case_match; [|case_match]; repeat (apply Forall_cons_2; [by destruct k|]); constructor.
Qed.

Lemma entry_only_added c env : Forall (fun a => Metrics.only_added c a = true) (entry_metrics env).
Proof.
  unfold entry_metrics, packet_type_index. case_match; [|case_match]; repeat (apply Forall_cons_2; [done|]); constructor.
Qed.

Lemma exit_neutral c env us ms : is_counter c = true -> neutral c (exit_metrics env us ms).
Proof.
  intros Hc. unfold exit_metrics. apply Forall_app_2; [|case_match; [case_match|]; [|constructor..]].
  all: repeat apply Forall_cons_2; [cbn; by intros <-..|constructor].
Qed.

Lemma iteration_ok n : Forall (instr_ok n) (iteration n).
Proof.
  assert (Hseq : forall g : nat -> Instr, (forall i, (i < n)%nat -> instr_ok n (g i)) -> Forall (instr_ok n) (g <$> seq 0 n)).
  { intros g Hg. apply Forall_fmap, Forall_forall. intros i Hi. apply elem_of_seq in Hi. apply Hg. lia. }
  unfold iteration. repeat apply Forall_app_2; [by apply Hseq| |by repeat constructor|by apply Hseq|by repeat constructor].
  apply Forall_bind, Forall_forall. intros i Hi. apply elem_of_seq in Hi. unfold face_reports, reported. cbn [fmap list_fmap app].
  repeat apply Forall_cons_2; try (cbn; lia); [..|apply Forall_nil_2].
  all: (split; [lia|]); apply (bool_decide_eq_true_1 (NoDup _)); reflexivity.
Qed.

Section Run.

Variables (now reasm_clock reorder_clock : nat -> Z) (fuel k : nat) (spurious_push spurious_mark : nat -> bool).
Hypotheses (Hp : spurious_push k = false) (Hm : spurious_mark k = false) (Hf : (k + 2 <= fuel)%nat).

Let step := step_face now reasm_clock reorder_clock fuel spurious_push spurious_mark.

Lemma step_face_total f op :
  FaceShutdown.face_ok (face f) -> FaceShutdown.face_op_ok op -> exists f', step op f = Some f' /\ evolves f f'.
Proof.
  intros Hok Hop. unfold step, step_face.
  destruct (FaceShutdown.face_step_total now reasm_clock reorder_clock fuel k spurious_push spurious_mark Hp Hm Hf
    (face f) op Hok Hop) as (fp & E & Hfp).
  rewrite E. cbn [mbind option_bind]. eexists. split; [done|]. constructor; [done| |done].
  cbn [face]. revert E. destruct f as [[aid rx p] cpu ad m]. cbn [face array_id]. destruct op; cbn [face_step].
  - destruct (on_packet _ _ _ _ _); [|done]. by intros [= <-].
  - destruct (pop_envelope rx) as [[env|] rx']; [|by intros [= <-]].
    destruct (process_envelope _ _ _ _ _); [|done]. by intros [= <-].
  - destruct (pop_envelope rx) as [[env|] rx']; [|by intros [= <-]].
    destruct (drain_envelope _ _ _ _ _); [|done]. by intros [= <-].
  - destruct (check_timeouts_face _ _ _ _); [|done]. by intros [= <-].
Qed.

Lemma on_received_inv raw s :
  run_inv s -> FaceShutdown.raw_ok raw ->
  exists s', on_received now reasm_clock reorder_clock fuel spurious_push spurious_mark raw s = Some s' /\ run_inv s'.
Proof.
  intros Hs Hraw. unfold on_received, route.
  destruct (Z.leb_spec (Z.of_nat (length (faces s))) (rp_array_id raw -[64] 1)) as [Hge|Hlt]; [by eexists|].
  assert (Hi : (Z.to_nat (rp_array_id raw -[64] 1) < length (faces s))%nat).
  { pose proof (wrap_range 64 (rp_array_id raw - 1) ltac:(lia)) as Hr. unfold in_range in Hr. lia. }
  destruct (lookup_lt_is_Some_2 _ _ Hi) as [f Ef]. rewrite Ef.
  pose proof (ri_faces _ Hs) as Hok.
  destruct (step_face_total f (Receive raw)) as (f' & E & Hev); [|done|].
  { rewrite Forall_lookup in Hok. exact (Hok _ _ Ef). }
  unfold step in E. rewrite E. cbn [mbind option_bind]. eexists. split; [done|].
  apply (run_inv_faces s (<[_ := f']> (faces s))); [done|]. by eapply evolves_insert.
Qed.

(** The accesses of the processing thread for one envelope. *)
Lemma run_inv_entered s env us ms :
  run_inv s ->
  run_inv (mkRunState (faces s) (accesses s ++ entry_metrics env ++ exit_metrics env us ms) (entered s ++ [env])
             (reads s) (loop s)).
Proof.
  intros [Hok Hid Hfew Hsc Hmk Had Hdr (He1 & He2 & He3)]. destruct (entry_added env) as (A1 & A2 & A3).
  constructor; cbn [faces accesses entered reads loop]; try done.
  - intros c Hc. apply Forall_app_2; [by apply Had|].
    apply Forall_app_2; [apply entry_only_added|by apply neutral_only_added, exit_neutral].
  - intros r. rewrite added_neutral_app; [apply Hdr|]. apply Forall_app_2; [apply entry_drops|by apply exit_neutral].
  - rewrite !Metrics.added_app, !(neutral_added _ (exit_metrics env us ms)) by (by apply exit_neutral).
    rewrite A1, A2, A3, He1, He2, He3, length_app, fmap_app, sumZ_app. cbn [length fmap list_fmap]. unfold sumZ at 3.
    cbn [foldr]. lia.
Qed.

Lemma process_one_inv i us ms s :
  run_inv s ->
  exists s', process_one now reasm_clock reorder_clock fuel spurious_push spurious_mark i us ms s = Some s' /\ run_inv s'.
Proof.
  intros Hs. unfold process_one. destruct (faces s !! i) as [f|] eqn:Ef; [|by eexists].
  pose proof (ri_faces _ Hs) as Hok.
  destruct (step_face_total f Process) as (f' & E & Hev); [|done|].
  { rewrite Forall_lookup in Hok. exact (Hok _ _ Ef). }
  unfold step in E. rewrite E. cbn [mbind option_bind]. eexists. split; [done|].
  assert (Hs' : run_inv (with_faces (<[i := f']> (faces s)) s)) by (apply run_inv_faces; [done|]; by eapply evolves_insert).
  destruct (pop_envelope (rx_stage (face f))).1 as [env|]; [|exact Hs'].
  exact (run_inv_entered _ env us ms Hs').
Qed.

(** *** Steps of the main loop *)

Lemma peak_app r i l l' :
  peak r i (l ++ l') = foldl (fun m '(j, k', v) => if bool_decide (j = i /\ k' = r) then Z.max m v else m) (peak r i l) l'.
Proof. unfold peak. by rewrite foldl_app. Qed.

(** The values of the statistics [ks] of one face. *)
Lemma peak_reads r i j l ks p :
  NoDup ks ->
  peak r i (l ++ ((fun k => (j, k, statistic k p)) <$> ks)) =
  if decide (i = j /\ r ∈ ks) then Z.max (peak r i l) (statistic r p) else peak r i l.
Proof.
  intros Hnd. rewrite peak_app. generalize (peak r i l). clear l. induction Hnd as [|k' ks Hni _ IH]; intros m; cbn [fmap list_fmap foldl].
  { rewrite decide_False; [done|]. intros [_ Hr]. by apply not_elem_of_nil in Hr. }
  rewrite IH. case_bool_decide as Hjk; repeat case_decide; try done.
  all: try (destruct Hjk; subst); set_solver.
Qed.

(** A change of the loop's variables only. *)
Lemma run_inv_loop l s : run_inv s -> Forall (instr_ok (length (faces s))) (todo l) ->
  run_inv (mkRunState (faces s) (accesses s) (entered s) (reads s) l).
Proof. intros [Hok Hid Hfew Hto Hmk Had Hdr Hen] Hl. by constructor. Qed.

(** The reports of one face. *)
Lemma run_inv_report ks i f m l s :
  run_inv s -> NoDup ks -> faces s !! i = Some f -> report_all (processing (face f)) (marks f) ks = (m, l) ->
  run_inv (mkRunState (<[i := with_marks m f]> (faces s)) (accesses s ++ l) (entered s)
    (reads s ++ ((fun k => (i, k, statistic k (processing (face f)))) <$> ks)) (loop s)).
Proof.
  intros [Hok Hid Hfew Hto Hmk Had Hdr (He1 & He2 & He3)] Hnd Hi E.
  pose proof (report_all_accesses (processing (face f)) ks (marks f)) as Hl. rewrite E in Hl. cbn [snd] in Hl.
  assert (Hface : face (with_marks m f) = face f /\ marks (with_marks m f) = m) by (by destruct f). destruct Hface as [Hface Hm'].
  pose proof (lookup_lt_Some _ _ _ Hi) as Hlt.
  constructor; cbn [faces accesses entered reads loop]; rewrite ?length_insert; try done.
  - apply Forall_insert; [done|]. rewrite Hface. rewrite Forall_lookup in Hok. exact (Hok _ _ Hi).
  - intros j g Hg. apply list_lookup_insert_Some in Hg as [(<- & <- & _)|[_ Hg]]; [rewrite Hface|]; by apply Hid.
  - intros r j g Hg. rewrite peak_reads by done. apply list_lookup_insert_Some in Hg as [(<- & <- & _)|[Hne Hg]].
    + rewrite Hm'. destruct (report_all_spec _ _ _ _ _ Hnd E r) as [-> _]. rewrite (Hmk r i f Hi).
      repeat case_decide; tauto.
    + rewrite decide_False by (intros [-> _]; done). by apply Hmk.
  - intros c Hc. apply Forall_app_2; [by apply Had|by apply is_report_only_added].
  - intros r. rewrite Metrics.added_app. destruct (report_all_spec _ _ _ _ _ Hnd E r) as [_ Ha].
    rewrite (u64_plus _ _ _ _ (Hdr r) Ha), list_fmap_insert, (sumZ_insert _ i (mark r (marks f))), Hm'.
    + f_equal. lia.
    + by rewrite list_lookup_fmap, Hi.
  - rewrite !Metrics.added_app. assert (Hz : forall c, (forall r, reason_cell r <> c) -> Metrics.added c l = 0).
    { intros c Hc. apply neutral_added. eapply Forall_impl; [exact Hl|]. intros a (r & n & ->). cbn. apply Hc. }
    rewrite !Hz by (by intros []). rewrite !Z.add_0_r. done.
Qed.

Lemma run_instr_inv t ins rest s :
  run_inv s -> todo (loop s) = ins :: rest ->
  exists s', run_instr now reasm_clock reorder_clock fuel spurious_push spurious_mark t ins rest s = Some s' /\ run_inv s' /\
    todo (loop s') = rest /\ length (faces s') = length (faces s).
Proof.
  intros Hs Htodo. pose proof (ri_todo _ Hs) as Hall. rewrite Htodo in Hall. apply Forall_cons_1 in Hall as [Hins Hrest].
  assert (Hlk : forall i, (i < length (faces s))%nat -> exists f, faces s !! i = Some f) by (intros i; apply lookup_lt_is_Some_2).
  pose proof (fun l => run_inv_loop l s Hs) as Hloop. pose proof (fun acc => run_inv_accesses acc s) as Hacc.
  destruct s as [fs acc0 ent rd [td cr ta tm last]]. cbn [faces loop todo accesses entered reads] in *. subst td.
  destruct ins as [i|i|i|i|ks i| |i| |]; cbn [run_instr instr_ok] in *.
  - destruct (Hlk i Hins) as [f Ef]. rewrite Ef. cbn [mbind option_bind].
    pose proof (ri_faces _ Hs) as Hok. cbn in Hok. destruct (step_face_total f (Timeouts (order t))) as (f' & E & Hev); [|done|].
    { rewrite Forall_lookup in Hok. exact (Hok _ _ Ef). }
    unfold step in E. rewrite E. cbn [mbind option_bind]. eexists. split; [done|]. cbn [faces]. rewrite length_insert. split_and!; [|done..].
    exact (run_inv_faces _ (<[i := f']> fs) (Hloop (mkLoopState rest cr ta tm last) Hrest) (evolves_insert _ _ _ _ Hok Ef Hev)).
  - destruct (Hlk i Hins) as [f ->]. eexists. split; [done|]. split_and!; [by apply Hloop|done..].
  - destruct (Hlk i Hins) as [f ->]. eexists. split; [done|]. split_and!; [by apply Hloop|done..].
  - destruct (Hlk i Hins) as [f ->]. eexists. split; [done|]. split_and!; [by apply Hloop|done..].
  - destruct Hins as [Hi Hnd]. destruct (Hlk i Hi) as [f Ef]. rewrite Ef. cbn [mbind option_bind].
    destruct (report_all (processing (face f)) (marks f) ks) as [m l] eqn:E. eexists. split; [done|]. cbn [faces]. rewrite length_insert.
    split_and!; [|done..]. exact (run_inv_report ks i f m l _ (Hloop (mkLoopState rest cr ta tm last) Hrest) Hnd Ef E).
  - eexists. split; [done|]. split_and!; [|done..]. apply (run_inv_accesses _ _ (Hloop (mkLoopState rest cr ta tm last) Hrest)).
    intros c Hc. repeat apply Forall_cons_2; [cbn; by intros <-..|constructor].
  - destruct (Hlk i Hins) as [f ->]. eexists. split; [done|]. split_and!; [|done..].
    apply (run_inv_accesses _ _ (Hloop (mkLoopState rest cr ta tm last) Hrest)). intros c Hc. apply neutral_rx. by left.
  - eexists. split; [done|]. split_and!; [|done..]. apply (run_inv_accesses _ _ (Hloop (mkLoopState rest cr ta tm last) Hrest)).
    intros c Hc. apply neutral_bind. intros r. apply neutral_pool. by destruct c.
  - eexists. split; [done|]. destruct (5000000000 <=? steady_now t - last); split_and!; try done.
    + apply (run_inv_accesses _ _ (Hloop (mkLoopState rest cr ta tm (steady_now t)) Hrest)). intros c Hc. apply neutral_system. by destruct c.
    + by apply Hloop.
Qed.

Lemma loop_step_inv t s :
  run_inv s ->
  exists s', loop_step now reasm_clock reorder_clock fuel spurious_push spurious_mark t s = Some s' /\ run_inv s' /\
    length (faces s') = length (faces s).
Proof.
  intros Hs. unfold loop_step. destruct (todo (loop s)) as [|ins rest] eqn:E.
  - eexists. split; [done|]. split; [|done]. apply run_inv_loop; [done|]. apply iteration_ok.
  - destruct (run_instr_inv t ins rest s Hs E) as (s' & -> & Hs' & _ & Hl). by exists s'.
Qed.

Lemma reload_evolves c f : FaceShutdown.face_ok (face f) -> evolves f (reload_face c f).
Proof.
  destruct f as [[aid rx [d r ro b hs out]] cpu ad m]. intros [Hq He [[Hw Hcb Hk] [Hrw Hrcb] Hh Ha Hb]].
  cbn [face processing rx_stage reassembler reorderer delivered] in *.
  constructor; [|done..]. cbn [reload_face face]. constructor; [done..|]. cbn [processing].
  constructor; [|constructor; [by apply ReordererLaws.set_timeout_wf|done]|done..].
  constructor; [destruct Hw; by constructor|done..].
Qed.

Lemma run_step_inv s e :
  run_inv s -> run_event_ok e ->
  exists s', run_step now reasm_clock reorder_clock fuel spurious_push spurious_mark s e = Some s' /\ run_inv s'.
Proof.
  intros Hs He. destruct e as [raw|i us ms|t|c]; cbn [run_step].
  - by apply on_received_inv.
  - by apply process_one_inv.
  - destruct (loop_step_inv t s Hs) as (s' & E & Hs' & _). by exists s'.
  - eexists. split; [done|]. apply (run_inv_faces s (reload_face c <$> faces s)); [done|].
    pose proof (ri_faces _ Hs) as Hok. clear -Hok. induction Hok; [constructor|]. constructor; [by apply reload_evolves|done].
Qed.

(** The number of faces is fixed. *)
Lemma run_step_length s e s' :
  run_step now reasm_clock reorder_clock fuel spurious_push spurious_mark s e = Some s' -> length (faces s) = length (faces s').
Proof.
  destruct e as [raw|i us ms|t|c]; cbn [run_step].
  - unfold on_received. case_match; [|by intros [= <-]]. case_match; [|done].
    destruct (step_face _ _ _ _ _ _ _ _); [|done]. cbn [mbind option_bind]. intros [= <-]. cbn. by rewrite length_insert.
  - unfold process_one. case_match; [|by intros [= <-]]. destruct (step_face _ _ _ _ _ _ _ _); [|done].
    cbn [mbind option_bind]. intros [= <-]. case_match; cbn; by rewrite length_insert.
  - unfold loop_step. destruct s as [fs acc ent rd [[|ins rest] cr ta tm last]]; cbn [loop todo]; [by intros [= <-]|].
    destruct ins; cbn [run_instr]; try (by intros [= <-]); try (destruct (fs !! i); [|done]; cbn [mbind option_bind]; by intros [= <-]).
    + destruct (fs !! i); [|done]. cbn [mbind option_bind]. destruct (step_face _ _ _ _ _ _ _ _); [|done].
      cbn [mbind option_bind]. intros [= <-]. cbn. by rewrite length_insert.
    + destruct (fs !! i); [|done]. cbn [mbind option_bind]. destruct (report_all _ _ _). intros [= <-]. cbn. by rewrite length_insert.
    + intros [= <-]. by case_match.
  - intros [= <-]. cbn. by rewrite length_fmap.
Qed.

Lemma run_loop_inv es : forall s,
  run_inv s -> Forall run_event_ok es ->
  exists s', run_loop now reasm_clock reorder_clock fuel spurious_push spurious_mark s es = Some s' /\ run_inv s'.
Proof.
  induction es as [|e es IH]; intros s Hs Hes; cbn [run_loop]; [by eexists|].
  apply Forall_cons_1 in Hes as [He Hes]. destruct (run_step_inv s e Hs He) as (s1 & -> & H1). cbn [mbind option_bind].
  by apply IH.
Qed.

Lemma run_loop_app es es' : forall s,
  run_loop now reasm_clock reorder_clock fuel spurious_push spurious_mark s (es ++ es') =
  run_loop now reasm_clock reorder_clock fuel spurious_push spurious_mark s es ≫=
    (fun s => run_loop now reasm_clock reorder_clock fuel spurious_push spurious_mark s es').
Proof.
  induction es as [|e es IH]; intros s; cbn [app run_loop]; [done|].
  destruct (run_step _ _ _ _ _ _ s e); [|done]. cbn [mbind option_bind]. apply IH.
Qed.

Lemma run_loop_length es : forall s s',
  run_loop now reasm_clock reorder_clock fuel spurious_push spurious_mark s es = Some s' -> length (faces s) = length (faces s').
Proof.
  induction es as [|e es IH]; intros s s'; cbn [run_loop]; [by intros [= <-]|].
  destruct (run_step _ _ _ _ _ _ s e) as [s1|] eqn:E; [|done]. cbn [mbind option_bind]. intros E2.
  rewrite (run_step_length _ _ _ E). by apply IH.
Qed.

End Run.

(** *** Gauges *)

Lemma metrics_run_app l l' s : Metrics.run (l ++ l') s = Metrics.run l' (Metrics.run l s).
Proof. apply fold_left_app. Qed.

(** The last store to a cell counts. *)
Lemma put_last c v l l' s : neutral c l' -> Metrics.run (l ++ Metrics.Put c v :: l') s c = v.
Proof.
  intros Hl. rewrite metrics_run_app. change (Metrics.run (Metrics.Put c v :: l') ?s) with (Metrics.run l' (Metrics.perform (Metrics.Put c v) s)).
  rewrite neutral_run by done. apply Metrics.update_eq.
Qed.

Lemma neutral_run_app c l l' s : neutral c l' -> Metrics.run (l ++ l') s c = Metrics.run l s c.
Proof. intros Hl. by rewrite metrics_run_app, neutral_run. Qed.

Lemma rx_gauges_face i f :
  array_id (face f) = u8 (Z.of_nat i + 1) -> (i < 3)%nat ->
  exists w d, rx_gauges f = [Metrics.Put (Metrics.face_rx_queue_depth i) (SPSCQueue.size QUEUE_CAPACITY (queue_ (rx_stage (face f))));
    Metrics.Put (Metrics.face_rx_queue_high_watermark i) w; Metrics.Put (Metrics.face_rx_queue_drops i) d].
Proof.
  intros Hid Hi. unfold rx_gauges, Metrics.set_face_rx_queue_depth, Metrics.set_face_rx_queue_high_watermark,
    Metrics.set_face_rx_queue_drops. rewrite Hid, wrap_small by (unfold in_range; lia).
  unfold Metrics.face_guard, Metrics.FACE_METRIC_COUNT.
  destruct (Z.eqb_spec (Z.of_nat i + 1) 0); [lia|]. destruct (Z.ltb_spec 3 (Z.of_nat i + 1)); [lia|]. cbn [orb app].
  rewrite Z.add_simpl_r, Nat2Z.id. by eexists _, _.
Qed.

(** *** An undisturbed iteration *)

(** What the loop's variables and two gauges of the registry show: the value of
    [contexts_created] loaded, the total, the gauge of contexts, and the depth
    gauge of face [i]. *)
Definition Shown : Type := Z * Z * Z * Z.

Definition shown (i : nat) (m0 : Metrics.store) (s : RunState) : Shown :=
  (created (loop s), total_active_contexts (loop s), Metrics.run (accesses s) m0 Metrics.active_contexts,
   Metrics.run (accesses s) m0 (Metrics.face_rx_queue_depth i)).

Definition created_of (fp : FacePipeline) : Z := contexts_created (stats_ (reassembler (processing fp))).
Definition destroyed_of (fp : FacePipeline) : Z := contexts_destroyed (stats_ (reassembler (processing fp))).
Definition depth_of (fp : FacePipeline) : Z := SPSCQueue.size QUEUE_CAPACITY (queue_ (rx_stage fp)).

(** What a step other than a scan does to them, with the faces [fps]. *)
Definition effect (fps : list FacePipeline) (i : nat) (o : Shown) (ins : Instr) : Shown :=
  let '(c, t, g, d) := o in
  match ins with
  | LoadCreated j => (default 0 (created_of <$> fps !! j), t, g, d)
  | LoadDestroyed j => (c, t +[64] (c -[64] default 0 (destroyed_of <$> fps !! j)), g, d)
  | SetTotals => (c, t, t, d)
  | RxGauges j => if decide (j = i) then (c, t, g, default 0 (depth_of <$> fps !! j)) else o
  | _ => o
  end.

Definition is_scan (ins : Instr) : bool := match ins with Scan _ => true | _ => false end.

Lemma counted_fold fps i j : forall a t c g d,
  (a + j <= length fps)%nat -> is_u64 t ->
  exists c', foldl (effect fps i) (c, t, g, d) (seq a j ≫= face_reports) =
    (c', u64 (t + sumZ ((fun fp => created_of fp - destroyed_of fp) <$> take j (drop a fps))), g, d).
Proof.
  induction j as [|j IH]; intros a t c g d Hj Ht.
  { exists c. cbn. by rewrite Z.add_0_r, wrap_small. }
  destruct (lookup_lt_is_Some_2 fps a ltac:(lia)) as [fp Hfp]. change (seq a (S j)) with (a :: seq (S a) j).
  rewrite bind_cons, foldl_app. cbn [face_reports reported fmap list_fmap app foldl effect]. rewrite Hfp.
  cbn [fmap option_fmap option_map default from_option id]. rewrite wrap_add_r by lia.
  destruct (IH (S a) (t +[64] (created_of fp - destroyed_of fp)) (created_of fp) g d) as (c' & ->); [lia|apply wrap_range; lia|].
  exists c'. rewrite (drop_S fps fp a Hfp). cbn [take fmap list_fmap]. unfold sumZ at 2. cbn [foldr]. fold (sumZ ((fun fp => created_of fp - destroyed_of fp) <$> take j (drop (S a) fps))).
  rewrite wrap_add_l by lia. do 4 f_equal. lia.
Qed.

Lemma depth_fold fps i js : forall o,
  foldl (effect fps i) o (RxGauges <$> js) =
  if decide (i ∈ js) then (o.1, default 0 (depth_of <$> fps !! i)) else o.
Proof.
  induction js as [|j js IH]; intros [[[c t] g] d]; cbn [fmap list_fmap foldl]; [by rewrite decide_False by (by apply not_elem_of_nil)|].
  rewrite IH. cbn [effect]. destruct (decide (j = i)) as [->|]; repeat case_decide; try done; set_solver.
Qed.

Section Iteration.

Variables (now reasm_clock reorder_clock : nat -> Z) (fuel k : nat) (spurious_push spurious_mark : nat -> bool).
Hypotheses (Hp : spurious_push k = false) (Hm : spurious_mark k = false) (Hf : (k + 2 <= fuel)%nat).

Let turn := loop_step now reasm_clock reorder_clock fuel spurious_push spurious_mark.
Let turns ts s := run_loop now reasm_clock reorder_clock fuel spurious_push spurious_mark s (MainStep <$> ts).

Lemma with_marks_face m f : face (with_marks m f) = face f.
Proof. by destruct f. Qed.

Lemma turn_quiet t ins rest s i m0 :
  run_inv s -> todo (loop s) = ins :: rest -> is_scan ins = false ->
  exists s', turn t s = Some s' /\ run_inv s' /\ todo (loop s') = rest /\ face <$> faces s' = face <$> faces s /\
    shown i m0 s' = effect (face <$> faces s) i (shown i m0 s) ins.
Proof.
  intros Hs E Hns. destruct (run_instr_inv now reasm_clock reorder_clock fuel k spurious_push spurious_mark Hp Hm Hf t ins rest s Hs E)
    as (s' & Es & Hs' & Et & _). exists s'. unfold turn, loop_step. rewrite E. split_and!; [done..| |].
  - destruct s as [fs acc ent rd [td cr ta tm last]]. destruct ins; cbn [run_instr] in Es; try done.
    all: try (destruct (fs !! i0) as [f|] eqn:Ef; [|done]; cbn [mbind option_bind] in Es).
    all: try (by injection Es as <-).
    + destruct (report_all _ _ _) as [m l]. injection Es as <-. cbn. rewrite list_fmap_insert, with_marks_face.
      apply list_insert_id. by rewrite list_lookup_fmap, Ef.
    + injection Es as <-. by case_match.
  - pose proof (ri_ids _ Hs) as Hid. pose proof (ri_few _ Hs) as Hfew.
    destruct s as [fs acc ent rd [td cr ta tm last]]. cbn [faces] in Hid, Hfew. destruct ins; cbn [run_instr] in Es; try done.
    all: try (destruct (fs !! i0) as [f|] eqn:Ef; [|done]; cbn [mbind option_bind] in Es).
    all: unfold shown; cbn [faces loop created total_active_contexts accesses effect]; rewrite ?list_lookup_fmap, ?Ef.
    all: try (injection Es as <-; done).
    + destruct (report_all _ _ _) as [m l] eqn:Er. injection Es as <-. cbn [loop created total_active_contexts accesses].
      pose proof (report_all_accesses (processing (face f)) ks (marks f)) as Hl. rewrite Er in Hl. cbn [snd] in Hl.
      rewrite !neutral_run_app; [done|..]; (eapply Forall_impl; [exact Hl|]; intros a (r & n & ->); done).
    + injection Es as <-. cbn [loop created total_active_contexts accesses].
      change (Metrics.set_active_reorder_contexts ta ++ Metrics.set_missing_fragments_total tm) with
        (Metrics.Put Metrics.active_contexts ta :: Metrics.set_missing_fragments_total tm).
      rewrite put_last, neutral_run_app by (by repeat constructor). done.
    + injection Es as <-. cbn [loop created total_active_contexts accesses]. rewrite neutral_run_app by (apply neutral_rx; by right).
      pose proof (lookup_lt_Some _ _ _ Ef) as Hlt.
      destruct (rx_gauges_face i0 f (Hid _ _ Ef) ltac:(lia)) as (w & d & ->). case_decide as Hd.
      * subst i0. by rewrite put_last by (by repeat constructor).
      * rewrite neutral_run_app; [done|]. repeat apply Forall_cons_2; [cbn; congruence..|constructor].
    + injection Es as <-. cbn [loop created total_active_contexts accesses].
      rewrite !neutral_run_app; [done|..]; (apply neutral_bind; intros r; by apply neutral_pool).
    + injection Es as <-. case_match; [|done]. cbn [loop created total_active_contexts accesses].
      rewrite !neutral_run_app; [done|..]; by apply neutral_system.
Qed.

Lemma turns_quiet il rest i m0 : forall ts s,
  run_inv s -> todo (loop s) = il ++ rest -> Forall (fun ins => is_scan ins = false) il -> length ts = length il ->
  exists s', turns ts s = Some s' /\ run_inv s' /\ todo (loop s') = rest /\ face <$> faces s' = face <$> faces s /\
    shown i m0 s' = foldl (effect (face <$> faces s) i) (shown i m0 s) il.
Proof.
  induction il as [|ins il IH]; intros [|t ts] s Hs E Hns Hl; try done; [by exists s|].
  apply Forall_cons_1 in Hns as [Hn Hns]. cbn [app] in E.
  destruct (turn_quiet t ins (il ++ rest) s i m0 Hs E Hn) as (s1 & E1 & H1 & T1 & F1 & O1).
  destruct (IH ts s1 H1 T1 Hns ltac:(cbn in Hl; lia)) as (s2 & E2 & H2 & T2 & F2 & O2). exists s2.
  split_and!; [|done|done|by rewrite F2|by rewrite O2, F1, O1].
  unfold turns. cbn [fmap list_fmap run_loop run_step]. unfold turn in E1. rewrite E1. exact E2.
Qed.

Lemma turns_scan rest : forall j a ts s,
  run_inv s -> todo (loop s) = (Scan <$> seq a j) ++ rest -> length ts = j ->
  exists s', turns ts s = Some s' /\ run_inv s' /\ todo (loop s') = rest /\ length (faces s') = length (faces s) /\
    total_active_contexts (loop s') = total_active_contexts (loop s).
Proof.
  induction j as [|j IH]; intros a [|t ts] s Hs E Hl; try done; [by exists s|].
  cbn [seq fmap list_fmap app] in E.
  destruct (run_instr_inv now reasm_clock reorder_clock fuel k spurious_push spurious_mark Hp Hm Hf t _ _ s Hs E)
    as (s1 & E1 & H1 & T1 & L1).
  assert (A1 : total_active_contexts (loop s1) = total_active_contexts (loop s)).
  { clear -E1. destruct s as [fs acc ent rd [td cr ta tm last]]. cbn [run_instr] in E1. destruct (fs !! a); [|done].
    cbn [mbind option_bind] in E1. destruct (step_face _ _ _ _ _ _ _ _); [|done]. by injection E1 as <-. }
  destruct (IH (S a) ts s1 H1 T1 ltac:(cbn in Hl; lia)) as (s2 & E2 & H2 & T2 & L2 & A2). exists s2.
  split_and!; [|done|done|congruence|congruence].
  unfold turns. cbn [fmap list_fmap run_loop run_step]. unfold loop_step. rewrite E, E1. exact E2.
Qed.

Lemma turns_app ts1 ts2 s s1 : turns ts1 s = Some s1 -> turns (ts1 ++ ts2) s = turns ts2 s1.
Proof.
  unfold turns. revert s. induction ts1 as [|t ts1 IH]; intros s; cbn [app fmap list_fmap run_loop]; [by intros [= ->]|].
  destruct (run_step _ _ _ _ _ _ s _); [|done]. cbn [mbind option_bind]. apply IH.
Qed.

(** The whole iteration. *)
Lemma iteration_shows ts s i m0 :
  run_inv s -> todo (loop s) = [] -> length ts = S (length (iteration (length (faces s)))) ->
  exists s' c t d, turns ts s = Some s' /\ run_inv s' /\
    shown i m0 s' = (c, t, u64 (sumZ ((fun fp => created_of fp - destroyed_of fp) <$> (face <$> faces s'))), d) /\
    ((i < length (faces s))%nat -> d = default 0 (depth_of <$> (face <$> faces s') !! i)).
Proof.
  intros Hs E Hl. destruct ts as [|t0 ts]; [done|]. injection Hl as Hl. set (n := length (faces s)) in *.
  set (s0 := mkRunState (faces s) (accesses s) (entered s) (reads s) (mkLoopState (iteration n) 0 0 0 (last_system_metrics (loop s)))).
  assert (E0 : turns (t0 :: ts) s = turns ts s0).
  { unfold turns. cbn [fmap list_fmap run_loop run_step]. unfold loop_step. rewrite E. done. }
  assert (H0 : run_inv s0) by (apply (run_inv_loop (mkLoopState (iteration n) 0 0 0 _)); [done|apply iteration_ok]).
  rewrite E0. clear E0.
  set (il := (seq 0 n ≫= face_reports) ++ [SetTotals] ++ (RxGauges <$> seq 0 n) ++ [PoolGauges; System]).
  assert (Hlen : length ts = (n + length il)%nat).
  { rewrite Hl. unfold iteration. fold il. by rewrite length_app, length_fmap, length_seq. }
  destruct (turns_scan il n 0 (take n ts) s0 H0 eq_refl) as (s1 & E1 & H1 & T1 & L1 & A1); [rewrite length_take; lia|].
  rewrite <-(take_drop n ts), (turns_app _ _ _ _ E1).
  destruct (turns_quiet il [] i m0 (drop n ts) s1 H1) as (s2 & E2 & H2 & _ & F2 & O2); [by rewrite app_nil_r| | |].
  { unfold il. repeat apply Forall_app_2; [|by repeat constructor| |by repeat constructor].
    - apply Forall_bind, Forall_forall. intros j _. cbn. by repeat constructor.
    - by apply Forall_fmap, Forall_forall. }
  { rewrite length_drop. lia. }
  rewrite E2. set (fps := face <$> faces s1) in *.
  assert (Hfps : length fps = n) by (unfold fps; by rewrite length_fmap).
  unfold il in O2. rewrite !foldl_app in O2. unfold shown at 2 in O2. rewrite A1 in O2. cbn [s0 loop total_active_contexts] in O2.
  destruct (counted_fold fps i n 0 0 (created (loop s1)) (Metrics.run (accesses s1) m0 Metrics.active_contexts)
    (Metrics.run (accesses s1) m0 (Metrics.face_rx_queue_depth i))) as (c' & Ec); [lia|unfold in_range; lia|].
  rewrite Ec in O2. cbn [foldl effect] in O2. rewrite depth_fold in O2.
  rewrite drop_0, take_ge in O2 by lia. exists s2. rewrite O2, F2. case_decide as Hin; eexists _, _, _; (split_and!; [done|done|done|]).
  - done.
  - intros Hi. destruct Hin. apply elem_of_seq. lia.
Qed.

End Iteration.

(** ** Theorems *)

Lemma run_inv_init clock c t0 :
  Config.config_typed c -> Config.config_valid c ->
  Config.sample_count_fixed (Config.reassembly c) < 2 ^ 32 ->
  Config.max_reasm_bytes_per_key (Config.reassembly c) < 2 ^ 40 ->
  1 <= Config.max_contexts (Config.reassembly c) < 2 ^ 40 ->
  Config.window_size (Config.reorder c) <= 2 ^ 31 ->
  run_inv (RunState_init (build_faces clock c) t0).
Proof.
  intros Ht Hv Hsc Hby Hctx Hwin.
  assert (Hmk : forall k f, f ∈ build_faces clock c -> mark k (marks f) = 0).
  { intros k f (i & -> & _)%list_elem_of_fmap. by destruct k. }
  constructor; cbn [RunState_init faces accesses entered reads loop todo]; try done.
  - apply Forall_forall. intros f (i & -> & _)%list_elem_of_fmap. by apply FaceShutdown.build_face_ok.
  - intros i f Hf. by destruct (build_faces_lookup _ _ _ _ Hf) as (-> & _).
  - rewrite faces_length. by apply num_faces_valid.
  - intros k i f Hf. rewrite Hmk; [done|]. by eapply list_elem_of_lookup_2.
  - intros k. f_equal. induction (build_faces clock c) as [|f fs IH]; [done|]. rewrite fmap_cons. cbn [sumZ foldr].
    rewrite (Hmk k f) by (by left). apply IH. intros k' g Hg. apply Hmk. by right.
Qed.

(** The registry is exact about what runs.  *)
Lemma open_contexts_counted fs :
  Forall (fun f => FaceShutdown.face_ok (face f)) fs ->
  u64 (sumZ (counted_contexts <$> fs)) = u64 (sumZ (open_contexts <$> fs)).
Proof.
  induction 1 as [|f fs Hf _ IH]; [done|]. rewrite !fmap_cons. cbn [sumZ foldr]. apply u64_plus; [|exact IH].
  pose proof (FaceShutdown.po_balance _ (FaceShutdown.fo_processing _ Hf)) as Hb. unfold ReassemblerLaws.balance in Hb.
  unfold counted_contexts, open_contexts in *.
  set (x := contexts_created _ - _) in *. set (y := Z.of_nat _) in *.
  replace x with ((x - y) + y) by lia. rewrite <-wrap_add_l, Hb by lia. done.
Qed.

(** C4: the metrics tell what the running receiver does.  Start the faces of a
    validated configuration of reasonable size and let the network threads, the
    processing threads, the main loop and reloads of the configuration take any
    steps in any order; the main loop takes an iteration in many steps, each
    statistic being loaded in one of its own, while one packet and one face's
    scan for timeouts are one step each (the code has no lock that keeps the two
    apart).  Nothing faults.  Whatever the
    registry held before: the packet counters have grown by the number of
    envelopes processed and by their bytes; each of the seven drop counters has
    grown by the sum, over the faces, of the largest value of the statistic that
    the main loop has read, so that nothing is counted twice or lost however the
    loads fall among the steps of the other threads.  If no other thread takes a
    step during an iteration, the context gauge is afterwards the number of open
    reassembly contexts of all faces and each face's depth gauge the length of
    its queue. *)
Theorem loop_metrics_exact (now reasm_clock reorder_clock : nat -> Z) (fuel k : nat)
    (spurious_push spurious_mark : nat -> bool) (c : Config.ReceiverConfig) (t0 : Z) (es : list RunEvent)
    (Hp : spurious_push k = false) (Hm : spurious_mark k = false) (Hf : (k + 2 <= fuel)%nat)
    (Ht : Config.config_typed c) (Hv : Config.config_valid c)
    (Hsc : Config.sample_count_fixed (Config.reassembly c) < 2 ^ 32)
    (Hby : Config.max_reasm_bytes_per_key (Config.reassembly c) < 2 ^ 40)
    (Hctx : 1 <= Config.max_contexts (Config.reassembly c) < 2 ^ 40)
    (Hwin : Config.window_size (Config.reorder c) <= 2 ^ 31)
    (Hes : Forall run_event_ok es) :
  exists s, run_loop now reasm_clock reorder_clock fuel spurious_push spurious_mark
              (RunState_init (build_faces reorder_clock c) t0) es = Some s /\
    forall m0, Metrics.typed m0 ->
    let m := Metrics.run (accesses s) m0 in
    m Metrics.pipeline_packets_entered_total =
      m0 Metrics.pipeline_packets_entered_total +[64] Z.of_nat (length (entered s)) /\
    m Metrics.packets_received = m0 Metrics.packets_received +[64] Z.of_nat (length (entered s)) /\
    m Metrics.bytes_received = m0 Metrics.bytes_received +[64] sumZ (packet_length <$> entered s) /\
    (forall r, m (reason_cell r) = m0 (reason_cell r) +[64] sumZ (imap (fun i _ => peak r i (reads s)) (faces s))) /\
    (forall es' ts s', es = es' ++ (MainStep <$> ts) ->
       run_loop now reasm_clock reorder_clock fuel spurious_push spurious_mark
         (RunState_init (build_faces reorder_clock c) t0) es' = Some s' ->
       todo (loop s') = [] -> length ts = S (length (iteration (length (faces s')))) ->
       m Metrics.active_contexts = u64 (sumZ (open_contexts <$> faces s)) /\
       forall i f, faces s !! i = Some f -> m (Metrics.face_rx_queue_depth i) = Z.of_nat (length (queued f))).
Proof.
  pose proof (run_inv_init reorder_clock c t0 Ht Hv Hsc Hby Hctx Hwin) as H0.
  destruct (run_loop_inv now reasm_clock reorder_clock fuel k spurious_push spurious_mark Hp Hm Hf es _ H0 Hes) as (s & E & Hs).
  exists s. split; [exact E|]. intros m0 Hm0 m. pose proof Hs as [Hok Hid Hfew Hsc' Hmk Had Hdr (He1 & He2 & He3)].
  assert (Hc : forall c, is_counter c = true -> m c = m0 c +[64] Metrics.added c (accesses s)).
  { intros cl Hcl. apply Metrics.run_added; [by apply Had|]. specialize (Hm0 cl). by destruct cl. }
  split_and!; [by rewrite Hc, ?He1, ?He2, ?He3 by done..| |].
  - intros r. rewrite Hc by done. rewrite <-wrap_add_r, Hdr, wrap_add_r by lia. do 3 f_equal.
    apply list_eq. intros i. rewrite list_lookup_fmap, list_lookup_imap.
    destruct (faces s !! i) as [f|] eqn:Ef; [|done]. cbn. f_equal. by apply Hmk.
  - intros es' ts s' -> E' Htodo Hts. apply Forall_app in Hes as [Hes _].
    destruct (run_loop_inv now reasm_clock reorder_clock fuel k spurious_push spurious_mark Hp Hm Hf es' _ H0 Hes) as (s1 & E1 & Hs1).
    rewrite E' in E1. injection E1 as <-. rewrite run_loop_app, E' in E. cbn [mbind option_bind] in E.
    assert (Hshow : forall i, m Metrics.active_contexts = u64 (sumZ (open_contexts <$> faces s)) /\
      (forall f, faces s !! i = Some f -> m (Metrics.face_rx_queue_depth i) = Z.of_nat (length (queued f)))).
    { intros i. destruct (iteration_shows now reasm_clock reorder_clock fuel k spurious_push spurious_mark Hp Hm Hf ts s' i m0 Hs1 Htodo Hts)
        as (s2 & c2 & t2 & d & E2 & _ & O2 & Hd). rewrite E in E2. injection E2 as <-. unfold shown in O2. injection O2 as _ _ Og Od.
      split.
      - unfold m. rewrite Og, <-open_contexts_counted by done. by rewrite <-list_fmap_compose.
      - intros f Hfi. unfold m. rewrite Od, Hd, list_lookup_fmap, Hfi.
        + cbn. unfold depth_of, queued. apply size_contents. rewrite Forall_lookup in Hok. exact (FaceShutdown.fo_queue _ (Hok _ _ Hfi)).
        + apply run_loop_length in E. rewrite E. by eapply lookup_lt_Some. }
    split; [apply (Hshow 0%nat)|]. intros i f Hfi. by apply Hshow.
Qed.

(** One face receives one of two fragments, processes it, and the main loop runs
    once: one packet counted, one context open, the queue empty. *)
Definition demo_input : LoopInput := mkLoopInput [] [] 0 0 None.

Definition demo_events : list RunEvent :=
  [Received (sample_raw 1 (replicate 40 0) [4;5]); Processed 0 3 0] ++ (MainStep <$> replicate 15 demo_input).

Lemma loop_metrics_exact_witness :
  exists s, run_loop (fun _ => 0) (fun _ => 0) (fun _ => 0) 2 (fun _ => false) (fun _ => false)
      (RunState_init (build_faces (fun _ => 0) Config.ReceiverConfig_default) 0) demo_events = Some s /\
    let m := Metrics.run (accesses s) Metrics.Impl_init in
    m Metrics.pipeline_packets_entered_total = 1 /\ m Metrics.active_contexts = 1.
Proof.
  destruct (loop_metrics_exact (fun _ => 0) (fun _ => 0) (fun _ => 0) 2 0 (fun _ => false) (fun _ => false)
    Config.ReceiverConfig_default 0 demo_events) as (s & E & H).
  - reflexivity.
  - reflexivity.
  - lia.
  - apply Config.default_typed.
  - apply Config.validate_spec; [apply Config.default_typed|vm_compute; reflexivity].
  - vm_compute. reflexivity.
  - vm_compute. reflexivity.
  - vm_compute. split; congruence.
  - vm_compute. congruence.
  - repeat apply Forall_cons_2; [|exact I..|apply Forall_nil_2].
    intros bs [= <-]. split; [apply bytes_okb_ok; vm_compute; reflexivity|]. vm_compute. split; congruence.
  - exists s. split; [exact E|]. destruct (H _ Metrics.Impl_init_typed) as (H1 & _ & _ & _ & H5).
    destruct (run_loop (fun _ => 0) (fun _ => 0) (fun _ => 0) 2 (fun _ => false) (fun _ => false)
      (RunState_init (build_faces (fun _ => 0) Config.ReceiverConfig_default) 0) (take 2 demo_events)) as [s'|] eqn:E'; [|discriminate E'].
    assert (Hs' : (todo (loop s'), length (faces s'), length (faces s)) = ([], 1%nat, 1%nat)).
    { transitivity (match run_loop (fun _ => 0) (fun _ => 0) (fun _ => 0) 2 (fun _ => false) (fun _ => false)
        (RunState_init (build_faces (fun _ => 0) Config.ReceiverConfig_default) 0) (take 2 demo_events),
        run_loop (fun _ => 0) (fun _ => 0) (fun _ => 0) 2 (fun _ => false) (fun _ => false)
        (RunState_init (build_faces (fun _ => 0) Config.ReceiverConfig_default) 0) demo_events with
        | Some s', Some s => (todo (loop s'), length (faces s'), length (faces s)) | _, _ => ([], O, O) end); [by rewrite E', E|].
      vm_compute. reflexivity. }
    injection Hs' as Ht' Hl' Hl.
    destruct (H5 (take 2 demo_events) (replicate 15 demo_input) s' eq_refl E' Ht') as [Ha _].
    { rewrite Hl'. reflexivity. }
    cbn zeta. rewrite H1, Ha.
    assert (Ed : (length (entered s), open_contexts <$> faces s) = (1%nat, [1])).
    { transitivity (match run_loop (fun _ => 0) (fun _ => 0) (fun _ => 0) 2 (fun _ => false) (fun _ => false)
        (RunState_init (build_faces (fun _ => 0) Config.ReceiverConfig_default) 0) demo_events with
        | Some s => (length (entered s), open_contexts <$> faces s) | None => (O, []) end); [by rewrite E|].
      vm_compute. reflexivity. }
    injection Ed as -> ->. split; reflexivity.
Defined.

(** A frame of a single fragment. *)
Definition one_fragment_frame (counter : Z) : ReceivedPacket :=
  let pl := DataSpecificHeader_bytes (mkDataSpecificHeader counter 2 3 0 0 0 0 0 5 0 1 2) ++ replicate 40 0 ++ [4; 5] in
  mkReceivedPacket (Some (CommonHeader_bytes (mkCommonHeader PROTOCOL_MAGIC counter 0 (Z.of_nat (length pl)) 3 0x31 0x11 1 0 0 0 0
    [0;0;0;0]) ++ pl)) (32 + Z.of_nat (length pl)) 7 1 NORMAL.

(** A context that is made and finished between the two loads makes the gauge of
    contexts wrap around. *)
Example context_gauge_wraps :
  match run_loop (fun _ => 0) (fun _ => 0) (fun _ => 0) 2 (fun _ => false) (fun _ => false)
      (RunState_init (build_faces (fun _ => 0) Config.ReceiverConfig_default) 0)
      ((MainStep <$> replicate 3 demo_input) ++ [Received (one_fragment_frame 1); Processed 0 3 0] ++
       (MainStep <$> replicate 12 demo_input)) with
  | Some s => Metrics.run (accesses s) Metrics.Impl_init Metrics.active_contexts = 2 ^ 64 - 1 /\ open_contexts <$> faces s = [0]
  | None => False
  end.
Proof. vm_compute. split; reflexivity. Qed.

(** *** Reloads of the capture *)

(** A reload of the configuration, a packet offered to the hook, a step of the
    published writer's thread. *)
Inductive CaptureEvent :=
  | CaptureReload (k : Config.Capture) (e0 : Capture.Env) (es : list Capture.Env) (e1 : Capture.Env)
  | CapturePacket (raw : bytes) (ts : Z)
  | CaptureWriter (e : Capture.Env).

Definition capture_event (s : CaptureState) (e : CaptureEvent) : CaptureState :=
  match e with
  | CaptureReload k e0 es e1 => apply_capture_runtime_config k e0 es e1 s
  | CapturePacket raw ts => captured raw ts s
  | CaptureWriter e =>
    let '(mkCaptureState w u done) := s in
    mkCaptureState ((fun '(cfg, w) => (cfg, Capture.writer_step cfg e w)) <$> w) u done
  end.

Definition run_captures (s : CaptureState) (es : list CaptureEvent) : CaptureState := foldl capture_event s es.

(** Packets fit in a record, sizes are below 2^43 MB, and a writer's thread is given
    the steps it needs to finish. *)
Definition capture_event_ok (s : CaptureState) (e : CaptureEvent) : Prop :=
  match e with
  | CaptureReload k e0 es e1 =>
    Capture.config_ok (capture_config k) /\ forall cfg w, published s = Some (cfg, w) -> (Capture.work w < length es)%nat
  | CapturePacket raw _ => Z.of_nat (length raw) <= Pcap.kPcapSnapLen
  | CaptureWriter e => True
  end.

(** The file system does what it is asked. *)
Definition capture_event_good (e : CaptureEvent) : Prop :=
  match e with
  | CaptureReload k e0 es e1 => Capture.env_good e0 /\ Forall Capture.env_good es /\ Capture.env_good e1
  | CapturePacket _ _ => True
  | CaptureWriter e => Capture.env_good e
  end.

Fixpoint capture_events_ok (s : CaptureState) (es : list CaptureEvent) : Prop :=
  match es with
  | [] => True
  | e :: es => capture_event_ok s e /\ capture_events_ok (capture_event s e) es
  end.

(** A writer that was replaced or switched off: its thread has ended, and under the
    condition [good] it lost nothing and left no partial file. *)
Definition retired_ok (good : Prop) (w : Capture.PcapWriterConfig * Capture.PcapWriter) : Prop :=
  exists gs lost cut, Capture.ended w.1 w.2 gs lost cut /\ (good -> lost = [] /\ Capture.current w.2 = None).

Record capture_ok (good : Prop) (s : CaptureState) : Prop := {
  co_hook : is_Some (UdpReceiver.current_capture_hook (receiver s)) <-> is_Some (published s);
  co_published : forall cfg w, published s = Some (cfg, w) -> Capture.config_ok cfg /\
    exists off, Capture.open_or_failed cfg w off good;
  co_stopped : Forall (retired_ok good) (stopped s);
}.

Lemma stop_writer_retired (good : Prop) es e1 cfg w off :
  Capture.config_ok cfg -> (Capture.work w < length es)%nat -> Capture.open_or_failed cfg w off good ->
  (good -> Forall Capture.env_good es /\ Capture.env_good e1) -> retired_ok good (stop_writer es e1 (cfg, w)).
Proof.
  intros Hcfg Hwork Ho Hg. destruct (Capture.stop_any cfg es e1 w off good Hcfg Ho Hwork) as (gs & lost & cut & He & Hl & _ & Hcur & _).
  exists gs, lost, cut. split; [exact He|]. intros Hgood. destruct (Hg Hgood) as [Hes He1]. split; [by apply Hl|]. apply Hcur, He1.
Qed.

Lemma capture_ok_step (good : Prop) cfg op w off :
  Capture.config_ok cfg -> Capture.op_sized op -> (good -> Capture.op_good op) -> Capture.open_or_failed cfg w off good ->
  exists off', Capture.open_or_failed cfg (Capture.capture_step cfg op w) off' good.
Proof.
  intros Hcfg Hs Hg Ho. eexists. destruct (Capture.step_open_or_failed cfg op w off good Hcfg Hs Ho) as [Hl Hr].
  split; [exact Hl|]. destruct Hr as [Hr|(gs & lost & cut & He & Hne & Hn)]; [by left|right].
  exists gs, lost, cut. split_and!; [done|done|tauto].
Qed.

(** A writer that has just been started. *)
Lemma started_open good cfg e w :
  Capture.start cfg e Capture.PcapWriter_init = (true, w) -> Capture.open_or_failed cfg w [] good.
Proof. intros Hs. destruct (Capture.start_any cfg e w Hs) as (Hi & Ha & Hac). split; [apply Hac|]. left. by split_and!. Qed.

Lemma capture_event_ok_inv (good : Prop) s e :
  capture_ok good s -> capture_event_ok s e -> (good -> capture_event_good e) -> capture_ok good (capture_event s e).
Proof.
  destruct s as [w u done']. intros [Hh Hpub Hst] He Hg. cbn [published receiver stopped] in *.
  destruct e as [k e0 es e1|raw ts|e]; cbn [capture_event capture_event_good] in *.
  - destruct He as [Hcfg Hwork]. unfold apply_capture_runtime_config.
    assert (Hret : Forall (retired_ok good) (done' ++ retire es e1 w)).
    { apply Forall_app. split; [done|]. unfold retire. destruct w as [[cfg w]|]; [|constructor].
      destruct (Hpub _ _ eq_refl) as (Hc & off & Ho). apply Forall_singleton.
      apply (stop_writer_retired good es e1 cfg w off); [done|by eapply Hwork|done|tauto]. }
    destruct (Config.capture_enabled k) eqn:Een; cbn [negb].
    + destruct (Capture.start (capture_config k) e0 Capture.PcapWriter_init) as [[] w1] eqn:Es; cbn [negb]; [|by constructor].
      constructor; cbn [published receiver stopped]; [by split; eexists| |done].
      intros cfg w2 [= <- <-]. split; [done|]. exists []. by eapply started_open.
    + constructor; cbn [published receiver stopped]; [by split; intros [? [=]]|done|done].
  - unfold captured. destruct (UdpReceiver.current_capture_hook u) eqn:Eh; [|constructor; cbn; [rewrite Eh; exact Hh|done..]].
    destruct w as [[cfg w]|]; [|constructor; cbn; [rewrite Eh; exact Hh|done..]].
    constructor; cbn [published receiver stopped]; [rewrite Eh; by split; eexists| |done].
    intros cfg' w' [= <- <-]. destruct (Hpub _ _ eq_refl) as (Hcfg & off & Ho). split; [done|].
    by apply (capture_ok_step good cfg (Capture.WritePacket raw ts) w off).
  - constructor; cbn [published receiver stopped]; [|clear Hh|done].
    + rewrite Hh. destruct w; [by split; eexists|done].
    + intros cfg' w'. destruct w as [[cfg w]|]; [|done]. intros [= <- <-].
      destruct (Hpub _ _ eq_refl) as (Hcfg & off & Ho). split; [done|].
      by apply (capture_ok_step good cfg (Capture.WriterStep e) w off).
Qed.

Lemma run_captures_ok (good : Prop) es : forall s,
  capture_ok good s -> capture_events_ok s es -> (good -> Forall capture_event_good es) -> capture_ok good (run_captures s es).
Proof.
  unfold run_captures. induction es as [|e es IH]; intros s H0 Hes Hg; [done|]. destruct Hes as [He Hes]. cbn [foldl].
  apply IH; [|done|by intros [_ ?]%Hg%Forall_cons].
  apply capture_event_ok_inv; [done|done|]. by intros [? _]%Hg%Forall_cons.
Qed.


(** Capture is switched on, records one packet, and is switched off again. *)
Definition demo_env : Capture.Env := Capture.mkEnv true true true true true None.

Definition demo_capture (on : bool) : Config.Capture := Config.mkCapture on "spool" "archive" 20 20 10 10 1 4 [] [].

Definition demo_reloads : list CaptureEvent :=
  [CaptureReload (demo_capture true) demo_env [] demo_env; CapturePacket [1; 2; 3] 5;
   CaptureReload (demo_capture false) demo_env (replicate 3 demo_env) demo_env].


End AppLoop.
