(* ===== verification/AppRun.v ===== *)
(** Start and shutdown of the receiver: [app_run] before its loop, [app_shutdown]
    ([src/m01_receiver/app_run.cpp]) and the life of a stub consumer
    ([src/m01_receiver/delivery/stub_consumer.cpp]).  The loop is in [AppLoop]. *)

From S2P Require Import Prelude Protocol Reassembler ReassemblerProps Reorderer ReordererProps SpscQueue RxStage Config.
From S2P Require Import FacePipeline FaceShutdown UdpReceiver Metrics MetricsServer Logger Signals RawBlocks Capture AppInit AppLoop.
From stdpp Require Import strings.
Open Scope Z_scope.
Import Protocol Reassembler RxStage FacePipeline AppInit AppLoop.

Module AppRun.

(** ** Stub consumers *)

Record Consumer := mkConsumer {
  cn_config : StubConsumerConfig;
  cn_running : bool;
  output_fd_ : Z;
  cn_joinable : bool;
}.

Definition Consumer_new (c : StubConsumerConfig) : Consumer := mkConsumer c false (-1) false.

(** [fd] is what [open] returns. *)
Definition open_output_file (fd : Z) (c : Consumer) : bool * Consumer :=
  let '(mkConsumer cfg run old joinable) := c in
  if bool_decide (sc_output_file cfg = EmptyString) then (false, c)
  else (negb (fd <? 0), mkConsumer cfg run fd joinable).

Definition consumer_start (fd : Z) (c : Consumer) : bool * Consumer :=
  let '(mkConsumer cfg run old joinable) := c in
  if run then (true, c)
  else
    let '(ok, mkConsumer cfg _ old joinable) :=
      if sc_write_to_file cfg then open_output_file fd (mkConsumer cfg true old joinable)
      else (true, mkConsumer cfg true old joinable) in
    if negb ok then (false, mkConsumer cfg false old joinable) else (true, mkConsumer cfg true old true).

Definition close_output_file (c : Consumer) : Consumer :=
  let '(mkConsumer cfg run fd joinable) := c in
  if 0 <=? fd then mkConsumer cfg run (-1) joinable else c.

(** [stop]; [join] returns when the loop has seen the flag. *)
Definition consumer_stop (c : Consumer) : Consumer :=
  let '(mkConsumer cfg run fd joinable) := c in
  if negb run then c else close_output_file (mkConsumer cfg false fd false).

(** The text of the flags; the buffer has 64 bytes. *)
Definition flags_to_string (flags : Z) : string :=
  let add (flag : Z) (name : string) '(buffer, has_any) :=
    if negb (Z.land flags flag =? 0)
    then ((if has_any : bool then buffer +:+ "|" else buffer) +:+ name, true) else (buffer, has_any) in
  let '(buffer, has_any) :=
    add RawBlocks.HEARTBEAT_RELATED "HEARTBEAT"
      (add RawBlocks.SNAPSHOT_PRESENT "SNAPSHOT"
        (add RawBlocks.INCOMPLETE_FRAME "INCOMPLETE" (EmptyString, false))) in
  if has_any then buffer else "NONE".

(** ** The application *)

Record App := mkApp {
  dry_run : bool;
  udp : @UdpReceiver.UdpReceiver unit;
  world : UdpReceiver.World;
  processing_running : bool;
  processing_threads : nat;
  consumers : list Consumer;
  writer : option (Capture.PcapWriterConfig * Capture.PcapWriter);
  retired : list (Capture.PcapWriterConfig * Capture.PcapWriter);
  state : RunState;
  server : MetricsServer.Server;
  callbacks : nat;
  signals : Signals.Signals;
  forced_contexts : Z;
  drained_packets : Z;
  delivery_flushed : bool;
  started : bool;
  messages : list string;
}.

(** The application after [app_init]. *)
Definition App_init (c : AppContext) (w : UdpReceiver.World) (srv : MetricsServer.Server) (cbs : nat) (sg : Signals.Signals)
    (steady_now : Z) : App :=
  mkApp (ctx_dry_run c) (udp_receiver c) w false 0 (Consumer_new <$> stub_consumers c) (pcap_writer c) []
    (RunState_init (face_pipelines c) steady_now) srv cbs sg 0 0 false false [].

Definition on_state (f : RunState -> RunState) (a : App) : App :=
  let '(mkApp dr u w pr th cs wr rt st srv cb sg fc dp df stt ms) := a in mkApp dr u w pr th cs wr rt (f st) srv cb sg fc dp df stt ms.

Definition log_metrics (l : list Metrics.access) (a : App) : App := on_state (with_accesses l) a.

Section Program.

(** The network, the clocks of the pipeline, the fuel of a drain, the traversal
    order of a context map, the steps of a writer's thread, and the file system
    when it ends. *)
Variables (inet_pton : string -> option Z) (env : nat -> UdpReceiver.SocketReplies * option Z).
Variables (now reasm_clock reorder_clock : nat -> Z) (drain_fuel : nat).
Variables (order : gmap ReassemblyKey ReassemblyContext -> list ReassemblyKey).
Variables (writer_steps : list Capture.Env) (writer_end : Capture.Env).

Fixpoint each_face (f : FacePipeline -> option FacePipeline) (fs : list AppFace) : option (list AppFace) :=
  match fs with
  | [] => Some []
  | mkAppFace fp cpu ad m :: fs => fp ← f fp; fs ← each_face f fs; Some (mkAppFace fp cpu ad m :: fs)
  end.

(** *** Stages *)

(** Each array receiver owns the packet pool of its face; [stop] destroys the
    receivers, and the pools with them. *)
Definition pools_exist (u : @UdpReceiver.UdpReceiver unit) : bool :=
  match UdpReceiver.array_receivers u with [] => false | _ :: _ => true end.

Definition stop_consumers (a : App) : option App :=
  let '(mkApp dr u w pr th cs wr rt st srv cb sg fc dp df stt ms) := a in
  Some (mkApp dr u w pr th (consumer_stop <$> cs) wr rt st srv cb sg fc dp df stt ms).

Definition stop_network (a : App) : option App :=
  let '(mkApp dr u w pr th cs wr rt st srv cb sg fc dp df stt ms) := a in
  let '(u, w) := UdpReceiver.stop u w in
  Some (mkApp dr u w pr th cs wr rt st srv cb sg fc dp df stt ms).

(** The flag is cleared; each thread drains its queue and is joined. *)
Definition join_processing (a : App) : option App :=
  let '(mkApp dr u w pr th cs wr rt st srv cb sg fc dp df stt ms) := a in
  fs ← each_face (FaceShutdown.drain_all now reasm_clock reorder_clock (pools_exist u) drain_fuel) (faces st);
  Some (mkApp dr u w false 0 cs wr rt (mkRunState fs (accesses st) (entered st) (reads st) (loop st))
          srv cb sg fc dp df stt ms).

Definition stop_capture (a : App) : option App :=
  let '(mkApp dr u w pr th cs wr rt st srv cb sg fc dp df stt ms) := a in
  Some (mkApp dr u w pr th cs None (rt ++ retire writer_steps writer_end wr) st srv cb sg fc dp df stt ms).

Fixpoint flush_faces (pools : bool) (fs : list AppFace) : option (list AppFace * Z) :=
  match fs with
  | [] => Some ([], 0)
  | mkAppFace (mkFacePipeline aid rx p) cpu ad m :: fs =>
    '(p, n) ← FaceShutdown.flush_reassembler reasm_clock reorder_clock pools (order (contexts_ (reassembler p))) p;
    '(fs, total) ← flush_faces pools fs;
    Some (mkAppFace (mkFacePipeline aid rx p) cpu ad m :: fs, n +[64] total)
  end.

Definition flush_reassemblers (a : App) : option App :=
  let '(mkApp dr u w pr th cs wr rt st srv cb sg fc dp df stt ms) := a in
  '(fs, n) ← flush_faces (pools_exist u) (faces st);
  Some (mkApp dr u w pr th cs wr rt (mkRunState fs (accesses st) (entered st) (reads st) (loop st))
          srv cb sg n dp df stt ms).

Fixpoint flush_windows (fs : list AppFace) : list AppFace * Z :=
  match fs with
  | [] => ([], 0)
  | mkAppFace (mkFacePipeline aid rx p) cpu ad m :: fs =>
    let '(p, n) := FaceShutdown.flush_reorderer p in
    let '(fs, total) := flush_windows fs in
    (mkAppFace (mkFacePipeline aid rx p) cpu ad m :: fs, n +[64] total)
  end.

Definition flush_reorderers (a : App) : option App :=
  let '(mkApp dr u w pr th cs wr rt st srv cb sg fc dp df stt ms) := a in
  let '(fs, n) := flush_windows (faces st) in
  Some (mkApp dr u w pr th cs wr rt (mkRunState fs (accesses st) (entered st) (reads st) (loop st))
          srv cb sg fc n df stt ms).

Definition flush_delivery (a : App) : option App :=
  let '(mkApp dr u w pr th cs wr rt st srv cb sg fc dp df stt ms) := a in
  Some (mkApp dr u w pr th cs wr rt st srv cb sg fc dp true stt ms).

Definition stop_metrics (a : App) : option App :=
  let '(mkApp dr u w pr th cs wr rt st srv cb sg fc dp df stt ms) := a in
  Some (log_metrics (Metrics.set_heartbeat_state 0)
          (mkApp dr u w pr th cs wr rt st (MetricsServer.stop srv) cb sg fc dp df stt ms)).

(** *** [app_shutdown] *)

Inductive ShutdownResult :=
  | ShutDown (a : App)
  | ForcedExit (stage : string) (a : App)
  | Faulted.

Definition SHUTDOWN_DEADLINE : Z := 3000000000.

(** The stages, each followed by [enforce_shutdown_timeout]. *)
Definition stages : list (string * (App -> option App)) :=
  [("stub_consumers.stop", stop_consumers); ("udp_receiver.stop", stop_network);
   ("processing_threads.join", join_processing); ("pcap_writer.stop", stop_capture);
   ("reassembler.flush_all", flush_reassemblers); ("reorderer.flush", flush_reorderers);
   ("delivery.flush", flush_delivery); ("metrics.stop", stop_metrics)].

(** [clock i] is the [i]-th reading of the steady clock. *)
Fixpoint run_stages (clock : nat -> Z) (deadline : Z) (i : nat) (l : list (string * (App -> option App))) (a : App)
    : ShutdownResult :=
  match l with
  | [] => ShutDown a
  | (name, stage) :: l =>
    match stage a with
    | None => Faulted
    | Some a => if deadline <? clock i then ForcedExit name a else run_stages clock deadline (S i) l a
    end
  end.

Definition set_started (b : bool) (a : App) : App :=
  let '(mkApp dr u w pr th cs wr rt st srv cb sg fc dp df _ ms) := a in mkApp dr u w pr th cs wr rt st srv cb sg fc dp df b ms.

Definition app_shutdown (clock : nat -> Z) (a : App) : ShutdownResult :=
  if negb (started a) then ShutDown a
  else match run_stages clock (clock O + SHUTDOWN_DEADLINE) 1 stages a with
       | ShutDown a => ShutDown (set_started false a)
       | r => r
       end.

(** *** [app_run] up to its loop *)

Inductive StartResult :=
  | Returned (code : Z) (a : App)
  | Running (a : App)
  | Terminated.

(** Start the consumers in order; [fds i] is what [open] returns for the [i]-th. *)
Fixpoint start_consumers (fds : nat -> Z) (i : nat) (cs : list Consumer) : bool * list Consumer :=
  match cs with
  | [] => (true, [])
  | c :: cs =>
    let '(ok, c) := consumer_start (fds i) c in
    if negb ok then (false, c :: cs)
    else let '(ok, cs) := start_consumers fds (S i) cs in (ok, c :: cs)
  end.

Definition dry_run_text : string := "DRY RUN OK".

Definition app_run_start (network : Config.Network) (fds : nat -> Z) (steady_now startup_time : Z) (status : option string)
    (a : App) : StartResult :=
  let '(mkApp dr u w pr th cs wr rt st srv cb sg fc dp df stt ms) := a in
  if dr then Returned 0 (mkApp dr u w pr th cs wr rt st srv cb sg fc dp df stt (ms ++ [dry_run_text]))
  else
    let cb := S cb in
    let sg := Signals.reset_signal_flags sg in
    let st := with_accesses (Metrics.set_heartbeat_state 1 ++ Metrics.collect_system_metrics steady_now startup_time status) st in
    match MetricsServer.start srv with
    | None => Terminated
    | Some srv =>
      let '(ok, u, w) := UdpReceiver.start inet_pton env u w in
      if negb ok then Returned 1 (mkApp dr u w pr th cs wr rt st srv cb sg fc dp df stt ms)
      else
        let th := length (faces st) in
        let '(ok, cs) := start_consumers fds 0 cs in
        if negb ok then
          let a := mkApp dr u w true th (consumer_stop <$> cs) wr rt st srv cb sg fc dp df stt ms in
          match (a ← join_processing a; stop_network a) with None => Terminated | Some a => Returned 1 a end
        else
          Running (mkApp dr u w true th cs wr rt (with_accesses (Metrics.set_heartbeat_state 2) st) srv cb sg fc dp df true
                     (ms ++ ["Receiver started: " +:+ format_listen_config network]))
    end.

End Program.

(** ** The running application *)

Inductive AppEvent := LoopEvent (e : RunEvent) | CaptureEv (e : CaptureEvent).

Definition captures (a : App) : CaptureState := mkCaptureState (writer a) (udp a) (retired a).

Section Events.

Variables (now reasm_clock reorder_clock : nat -> Z) (fuel : nat) (spurious_push spurious_mark : nat -> bool).

Definition app_event (a : App) (e : AppEvent) : option App :=
  let '(mkApp dr u w pr th cs wr rt st srv cb sg fc dp df stt ms) := a in
  match e with
  | LoopEvent e =>
    st ← run_step now reasm_clock reorder_clock fuel spurious_push spurious_mark st e;
    Some (mkApp dr u w pr th cs wr rt st srv cb sg fc dp df stt ms)
  | CaptureEv e =>
    let '(mkCaptureState wr u rt) := capture_event (mkCaptureState wr u rt) e in
    Some (mkApp dr u w pr th cs wr rt st srv cb sg fc dp df stt ms)
  end.

Fixpoint app_events (a : App) (es : list AppEvent) : option App :=
  match es with
  | [] => Some a
  | e :: es => a ← app_event a e; app_events a es
  end.

Definition app_event_ok (a : App) (e : AppEvent) : Prop :=
  match e with LoopEvent e => run_event_ok e | CaptureEv e => capture_event_ok (captures a) e end.

(** No file operation of the capture fails. *)
Definition app_event_good (e : AppEvent) : Prop :=
  match e with LoopEvent _ => True | CaptureEv e => capture_event_good e end.

Fixpoint app_events_ok (a : App) (es : list AppEvent) : Prop :=
  match es with
  | [] => True
  | e :: es => app_event_ok a e /\ forall a', app_event a e = Some a' -> app_events_ok a' es
  end.

End Events.

(** ** Specification *)

Section Spec.

Variable (inet_pton : string -> option Z).

(** Running on top of the resources of [w0]; under the condition [good] no file
    operation of the capture has failed. *)
Record app_live (good : Prop) (w0 : UdpReceiver.World) (a : App) : Prop := {
  al_state : run_inv (state a);
  al_running : UdpReceiver.running_ (udp a) = true;
  al_network : UdpReceiver.attached inet_pton w0 (UdpReceiver.array_receivers (udp a)) (world a);
  al_capture : capture_ok good (captures a);
  al_consumers : Forall (fun c => cn_running c = true) (consumers a);
  al_threads : processing_threads a = length (faces (state a));
  al_started : started a = true;
}.

(** No face holds a packet of its pool. *)
Definition app_idle (a : App) : Prop := Forall (fun f => FaceShutdown.idle (face f)) (faces (state a)).

#[export] Instance app_idle_dec a : Decision (app_idle a).
Proof. unfold app_idle. apply _. Defined.

(** Nothing is left: sockets, threads, pools, files, queued packets, open contexts
    or buffered frames. *)
Record released (good : Prop) (w0 : UdpReceiver.World) (a : App) : Prop := {
  rl_resources : UdpReceiver.same_resources w0 (world a);
  rl_udp : UdpReceiver.running_ (udp a) = false /\ UdpReceiver.array_receivers (udp a) = [];
  rl_threads : processing_running a = false /\ processing_threads a = 0%nat;
  rl_consumers : Forall (fun c => cn_running c = false /\ output_fd_ c < 0) (consumers a);
  rl_capture : writer a = None /\ Forall (retired_ok good) (retired a);
  rl_faces : Forall (fun f => queued f = [] /\ contexts_ (reassembler (processing (face f))) = ∅ /\
     (forall d, (d < length (Reorderer.ring_slots (reorderer (processing (face f)))))%nat ->
        ReordererProps.stored_at (reorderer (processing (face f))) d = None) /\
     FaceShutdown.settled (processing (face f))) (faces (state a));
  rl_server : MetricsServer.started (server a) = false /\ MetricsServer.joinable (server a) = false;
  rl_started : started a = false;
  rl_heartbeat : forall m, Metrics.run (accesses (state a)) m Metrics.heartbeat_state = 0;
}.

End Spec.

(** ** Lemmas *)

(** *** Consumers *)

Lemma consumer_stop_stopped c :
  cn_running c = true \/ output_fd_ c < 0 ->
  cn_running (consumer_stop c) = false /\ output_fd_ (consumer_stop c) < 0.
Proof.
  destruct c as [cfg [] fd jo]; cbn; intros H; [|by destruct H].
  unfold close_output_file. destruct (Z.leb_spec 0 fd); cbn; split; try done; lia.
Qed.

Lemma consumers_stopped cs :
  Forall (fun c => cn_running c = true \/ output_fd_ c < 0) cs ->
  Forall (fun c => cn_running c = false /\ output_fd_ c < 0) (consumer_stop <$> cs).
Proof. intros H. apply Forall_fmap. eapply Forall_impl; [exact H|]. intros c. apply consumer_stop_stopped. Qed.

(** Starting the consumers: all run, or one has no file and none is left with an
    open file that does not run. *)
Lemma start_consumers_spec fds cs : forall i,
  Forall (fun c => cn_running c = false /\ output_fd_ c < 0) cs ->
  let '(ok, cs') := start_consumers fds i cs in
  Forall (fun c => cn_running c = true \/ output_fd_ c < 0) cs' /\ (ok = true -> Forall (fun c => cn_running c = true) cs').
Proof.
  induction cs as [|[cfg run fd jo] cs IH]; intros i Hcs; cbn [start_consumers]; [done|].
  apply Forall_cons_1 in Hcs as [[Hr Hfd] Hcs]. cbn in Hr, Hfd. subst run.
  assert (Hall : Forall (fun c => cn_running c = true \/ output_fd_ c < 0) cs).
  { eapply Forall_impl; [exact Hcs|]. intros c [_ ?]. by right. }
  specialize (IH (S i) Hcs). destruct (start_consumers fds (S i) cs) as [ok cs']. destruct IH as [H1 H2].
  cbn [consumer_start]. destruct (sc_write_to_file cfg); cbn [open_output_file negb].
  - case_bool_decide; cbn [negb]; [split; [|done]; constructor; [by right|done]|].
    destruct (Z.ltb_spec (fds i) 0); cbn [negb].
    + split; [|done]. constructor; [by right|done].
    + split; [constructor; [by left|done]|]. intros Hok. constructor; [done|by apply H2].
  - split; [constructor; [by left|done]|]. intros Hok. constructor; [done|by apply H2].
Qed.

(** *** Faces *)

Lemma queue_fuel f n :
  FaceShutdown.face_ok f -> (Z.to_nat QUEUE_CAPACITY <= n)%nat ->
  (length (SPSCQueue.contents QUEUE_CAPACITY (queue_ (rx_stage f))) < n)%nat.
Proof.
  intros [Hq _ _] Hn. rewrite SPSCQueue.length_contents by done. pose proof (SPSCQueue.count_lt _ _ Hq).
  unfold QUEUE_CAPACITY in *. lia.
Qed.

Definition face_live (f : AppFace) : Prop := FaceShutdown.face_ok (face f).

Definition contexts_of (f : AppFace) : gmap ReassemblyKey ReassemblyContext := contexts_ (reassembler (processing (face f))).

Lemma drain_faces_total now c1 c2 pools n fs :
  (Z.to_nat QUEUE_CAPACITY <= n)%nat -> Forall face_live fs ->
  pools = true \/ Forall (fun f => queued f = []) fs ->
  exists fs', each_face (FaceShutdown.drain_all now c1 c2 pools n) fs = Some fs' /\
    Forall (fun f => face_live f /\ queued f = []) fs' /\
    (Forall (fun f => queued f = []) fs -> contexts_of <$> fs' = contexts_of <$> fs).
Proof.
  intros Hn. induction 1 as [|[fp cpu ad m] fs Hf _ IH]; intros Hpool; cbn [each_face]; [by eexists; split_and!; [|constructor|]|].
  destruct IH as (fs' & E & Hfs & Hsame). { rewrite Forall_cons in Hpool. tauto. }
  destruct (FaceShutdown.drain_all_total now c1 c2 pools n fp Hf) as (fp' & -> & Hok & Hq & Hp).
  { by apply queue_fuel. }
  { rewrite Forall_cons in Hpool. unfold queued in Hpool. cbn in Hpool. tauto. }
  cbn [mbind option_bind]. rewrite E. cbn [mbind option_bind]. eexists. split_and!; [done|by constructor|].
  intros [Hz Hall]%Forall_cons_1. cbn [fmap list_fmap]. f_equal; [|by apply Hsame]. unfold contexts_of. cbn [face]. by rewrite Hp.
Qed.

Lemma drain_faces_fault now c1 c2 n fs :
  (Z.to_nat QUEUE_CAPACITY <= n)%nat -> Forall face_live fs -> ~ Forall (fun f => queued f = []) fs ->
  each_face (FaceShutdown.drain_all now c1 c2 false n) fs = None.
Proof.
  intros Hn. induction 1 as [|[fp cpu ad m] fs Hf _ IH]; intros Hne; cbn [each_face]; [by destruct Hne|].
  destruct (decide (SPSCQueue.contents QUEUE_CAPACITY (queue_ (rx_stage fp)) = [])) as [Hz|Hz].
  - destruct (FaceShutdown.drain_all now c1 c2 false n fp); [|done]. cbn [mbind option_bind]. rewrite IH; [done|].
    intros Hall. apply Hne. by constructor.
  - by rewrite FaceShutdown.drain_all_faults.
Qed.

Lemma flush_faces_total c1 c2 pools order fs :
  (forall m key, m !! key <> None -> key ∈ order m) ->
  Forall (fun f => face_live f /\ queued f = []) fs ->
  pools = true \/ Forall (map_Forall (fun _ c => context_buffers c = [])) (contexts_of <$> fs) ->
  exists fs' n, flush_faces c1 c2 order pools fs = Some (fs', n) /\
    Forall (fun f => (face_live f /\ queued f = []) /\ contexts_ (reassembler (processing (face f))) = ∅) fs'.
Proof.
  intros Hord. induction 1 as [|[[aid rx p] cpu ad m] fs [Hf Hq] _ IH]; intros Hpool; cbn [flush_faces]; [by eexists _, _; split; [|constructor]|].
  cbn [fmap list_fmap] in Hpool. rewrite Forall_cons in Hpool. destruct IH as (fs' & n & E & Hfs); [tauto|]. destruct Hf as [Hqw He Hp].
  destruct (FaceShutdown.flush_reassembler_total c1 c2 pools (order (contexts_ (reassembler p))) p Hp) as (p' & -> & Hp' & Hc).
  { apply Hord. }
  { unfold contexts_of in Hpool. cbn in Hpool. unfold FaceShutdown.no_buffers. tauto. }
  cbn [mbind option_bind]. rewrite E. cbn [mbind option_bind]. eexists _, _. split; [done|].
  constructor; [|done]. split; [split; [by constructor|done]|done].
Qed.

Lemma flush_faces_fault c1 c2 order fs :
  (forall m key, m !! key <> None -> key ∈ order m) ->
  ~ Forall (map_Forall (fun _ c => context_buffers c = [])) (contexts_of <$> fs) ->
  flush_faces c1 c2 order false fs = None.
Proof.
  intros Hord. induction fs as [|[[aid rx p] cpu ad m] fs IH]; intros Hne; cbn [flush_faces]; [by destruct Hne; constructor|].
  destruct (decide (map_Forall (fun _ c => context_buffers c = []) (contexts_ (reassembler p)))) as [Hz|Hz].
  - destruct (FaceShutdown.flush_reassembler _ _ _ _ _) as [[p' n]|]; [|done]. cbn [mbind option_bind]. rewrite IH; [done|].
    intros Hall. apply Hne. by constructor.
  - rewrite FaceShutdown.flush_reassembler_faults; [done|apply Hord|done].
Qed.

Lemma idle_faces fs :
  Forall (fun f => FaceShutdown.idle (face f)) fs <->
  Forall (fun f => queued f = []) fs /\ Forall (map_Forall (fun _ c => context_buffers c = [])) (contexts_of <$> fs).
Proof.
  unfold FaceShutdown.idle, contexts_of, queued. rewrite Forall_fmap. induction fs as [|f fs IH]; [by repeat split; constructor|].
  rewrite !Forall_cons, IH. cbn. tauto.
Qed.

Lemma flush_windows_total fs :
  Forall (fun f => (face_live f /\ queued f = []) /\ contexts_ (reassembler (processing (face f))) = ∅) fs ->
  exists fs' n, flush_windows fs = (fs', n) /\
    Forall (fun f => queued f = [] /\ contexts_ (reassembler (processing (face f))) = ∅ /\
     (forall d, (d < length (Reorderer.ring_slots (reorderer (processing (face f)))))%nat ->
        ReordererProps.stored_at (reorderer (processing (face f))) d = None) /\
     FaceShutdown.settled (processing (face f))) fs'.
Proof.
  induction 1 as [|[[aid rx p] cpu ad m] fs [[Hf Hq] Hc] _ (fs' & n & E & Hfs)]; cbn [flush_windows]; [by eexists _, _; split; [|constructor]|].
  destruct (FaceShutdown.flush_reorderer_total p (FaceShutdown.fo_processing _ Hf)) as (p' & k & -> & Hp' & Hr & _ & Hst).
  rewrite E. eexists _, _. split; [done|]. constructor; [|done]. cbn [face processing] in *. rewrite Hr.
  split_and!; [done..|]. by apply FaceShutdown.empty_window_settled.
Qed.

(** *** Events *)

Lemma capture_event_receivers s e :
  UdpReceiver.running_ (receiver (capture_event s e)) = UdpReceiver.running_ (receiver s) /\
  UdpReceiver.array_receivers (receiver (capture_event s e)) = UdpReceiver.array_receivers (receiver s).
Proof.
  destruct s as [w u dn], e as [k e0 es e1|raw ts|e]; cbn [capture_event]; [|unfold captured; by repeat case_match|done].
  unfold apply_capture_runtime_config. destruct (negb _); [done|]. destruct (Capture.start _ _ _) as [[] w']; done.
Qed.

Section Live.

Variables (inet_pton : string -> option Z).
Variables (now reasm_clock reorder_clock : nat -> Z) (fuel k : nat) (spurious_push spurious_mark : nat -> bool).
Hypotheses (Hp : spurious_push k = false) (Hm : spurious_mark k = false) (Hf : (k + 2 <= fuel)%nat).

Lemma app_event_live (good : Prop) w0 a e :
  app_live inet_pton good w0 a -> app_event_ok a e -> (good -> app_event_good e) ->
  exists a', app_event now reasm_clock reorder_clock fuel spurious_push spurious_mark a e = Some a' /\ app_live inet_pton good w0 a'.
Proof.
  destruct a as [dr u w pr th cs wr rt st srv cb sg fc dp df stt ms]. intros [Hst Hrun Hnet Hcap Hcs Hth Hs] He Hg.
  cbn [state udp world writer retired consumers processing_threads started] in *.
  destruct e as [e|e]; cbn [app_event app_event_ok app_event_good captures writer udp retired] in *.
  - destruct (run_step_inv now reasm_clock reorder_clock fuel k spurious_push spurious_mark Hp Hm Hf st e Hst He) as (st' & E & Hst').
    rewrite E. cbn [mbind option_bind]. eexists. split; [done|]. constructor; cbn; try done.
    rewrite Hth. by apply (run_step_length now reasm_clock reorder_clock fuel spurious_push spurious_mark _ _ _ E).
  - assert (Hcap' : capture_ok good (capture_event (mkCaptureState wr u rt) e)) by exact (capture_event_ok_inv good _ e Hcap He Hg).
    pose proof (capture_event_receivers (mkCaptureState wr u rt) e) as [Hr Ha].
    destruct (capture_event (mkCaptureState wr u rt) e) as [wr' u' rt']. cbn [receiver] in Hr, Ha. eexists. split; [done|].
    constructor; cbn [state udp world writer retired consumers processing_threads started captures]; [done|congruence|by rewrite Ha|exact Hcap'|done..].
Qed.

Lemma app_events_live (good : Prop) w0 es : forall a,
  app_live inet_pton good w0 a -> app_events_ok now reasm_clock reorder_clock fuel spurious_push spurious_mark a es ->
  (good -> Forall app_event_good es) ->
  exists a', app_events now reasm_clock reorder_clock fuel spurious_push spurious_mark a es = Some a' /\ app_live inet_pton good w0 a'.
Proof.
  induction es as [|e es IH]; intros a Ha Hes Hg; cbn [app_events]; [by eexists|]. destruct Hes as [He Hes].
  destruct (app_event_live good w0 a e Ha He) as (a1 & E & H1); [by intros [? _]%Hg%Forall_cons|].
  rewrite E. cbn [mbind option_bind]. apply IH; [done|by apply Hes|by intros [_ ?]%Hg%Forall_cons].
Qed.

End Live.

(** *** Shutdown *)

Lemma server_stopped srv :
  MetricsServer.started (MetricsServer.stop srv) = false /\ MetricsServer.joinable (MetricsServer.stop srv) = false.
Proof.
  destruct srv as [st fd jo cl]. unfold MetricsServer.stop. cbn [MetricsServer.started MetricsServer.joinable MetricsServer.listen_fd].
  destruct (negb st && negb jo) eqn:E; cbn; [|by case_match].
  apply andb_true_iff in E as [_ Hjo]. by destruct jo.
Qed.

Lemma heartbeat_last l v m : Metrics.run (l ++ Metrics.set_heartbeat_state v) m Metrics.heartbeat_state = v.
Proof. apply put_last. constructor. Qed.

(** Go past one stage, or stop at its check. *)
Ltac check_clock i :=
  cbn [mbind option_bind];
  match goal with |- context [?d <? ?c i] =>
    destruct (Z.ltb_spec d (c i)); [exists i; split; [lia|done]|] end.

Lemma pools_gone u : pools_exist (UdpReceiver.with_receivers false [] u) = false.
Proof. by destruct u. Qed.

Lemma shutdown_total inet_pton now c1 c2 n order steps fin clock (good : Prop) w0 a :
  app_live inet_pton good w0 a -> UdpReceiver.world_ok w0 ->
  (Z.to_nat QUEUE_CAPACITY <= n)%nat -> (forall m key, m !! key <> None -> key ∈ order m) ->
  (good -> Forall Capture.env_good steps /\ Capture.env_good fin) ->
  (forall cfg w, writer a = Some (cfg, w) -> (Capture.work w < length steps)%nat) ->
  match app_shutdown now c1 c2 n order steps fin clock a with
  | ShutDown a' => app_idle a /\ released good w0 a'
  | ForcedExit _ _ => exists i, (1 <= i <= 8)%nat /\ clock O + SHUTDOWN_DEADLINE < clock i
  | Faulted => ~ app_idle a
  end.
Proof.
  destruct a as [dr u w pr th cs wr rt st srv cb sg fc dp df stt ms]. intros [Hst Hrun Hnet Hcap Hcs Hth Hs] Hw Hn Hord Hsteps Hwork.
  cbn [state udp world writer retired consumers processing_threads started] in *. subst stt.
  destruct (UdpReceiver.stop_attached inet_pton u w0 w Hw Hrun Hnet) as (w1 & Eu & Hres & _).
  pose proof (ri_faces _ Hst) as Hlive. unfold app_idle. cbn [state]. pose proof (idle_faces (faces st)) as Hidle.
  unfold app_shutdown, stages. cbn [started negb run_stages stop_consumers]. check_clock 1%nat.
  cbn [run_stages stop_network]. rewrite Eu. check_clock 2%nat. cbn [run_stages join_processing]. rewrite pools_gone.
  destruct (decide (Forall (fun f => queued f = []) (faces st))) as [Hq|Hq].
  2: { rewrite (drain_faces_fault now c1 c2 n (faces st) Hn Hlive Hq). cbn. tauto. }
  destruct (drain_faces_total now c1 c2 false n (faces st) Hn Hlive (or_intror Hq)) as (fs1 & E1 & Hfs1 & Hsame).
  rewrite E1. specialize (Hsame Hq). check_clock 3%nat. cbn [run_stages stop_capture]. check_clock 4%nat.
  cbn [run_stages flush_reassemblers faces]. rewrite pools_gone.
  destruct (decide (Forall (map_Forall (fun _ c => context_buffers c = [])) (contexts_of <$> faces st))) as [Hb|Hb].
  2: { rewrite (flush_faces_fault c1 c2 order fs1 Hord) by (by rewrite Hsame). cbn. tauto. }
  destruct (flush_faces_total c1 c2 false order fs1 Hord Hfs1) as (fs2 & n2 & E2 & Hfs2); [right; by rewrite Hsame|].
  destruct (flush_windows_total fs2 Hfs2) as (fs3 & n3 & E3 & Hfs3). rewrite E2. check_clock 5%nat.
  cbn [run_stages flush_reorderers faces]. rewrite E3. check_clock 6%nat.
  cbn [run_stages flush_delivery]. check_clock 7%nat.
  cbn [run_stages stop_metrics log_metrics on_state]. check_clock 8%nat. cbn [set_started]. split; [tauto|].
  constructor; cbn [world udp processing_running processing_threads consumers writer retired state server started faces
    with_accesses accesses]; try done.
  - apply consumers_stopped. eapply Forall_impl; [exact Hcs|]. intros c Hc. by left.
  - split; [done|]. destruct Hcap as [_ Hpub Hstopped]. cbn in Hpub, Hstopped. apply Forall_app. split; [done|].
    destruct wr as [[cfg wr]|]; [|constructor]. destruct (Hpub _ _ eq_refl) as (Hcfg & off & Ho).
    apply Forall_singleton. exact (stop_writer_retired good steps fin cfg wr off Hcfg (Hwork _ _ eq_refl) Ho Hsteps).
  - apply server_stopped.
  - intros m. apply heartbeat_last.
Qed.

(** *** Start *)

Lemma start_neutral c t t0 status :
  is_counter c = true -> neutral c (Metrics.set_heartbeat_state 1 ++ Metrics.collect_system_metrics t t0 status).
Proof. intros Hc. repeat apply Forall_cons_2; [cbn; by intros <-..|constructor]. Qed.

(** A fresh application. *)
Record app_fresh (w0 : UdpReceiver.World) (a : App) : Prop := {
  af_state : run_inv (state a);
  af_queued : Forall (fun f => queued f = []) (faces (state a));
  af_idle : UdpReceiver.running_ (udp a) = false;
  af_none : UdpReceiver.array_receivers (udp a) = [];
  af_world : world a = w0;
  af_capture : forall good, capture_ok good (captures a);
  af_consumers : Forall (fun c => cn_running c = false /\ output_fd_ c < 0) (consumers a);
  af_threads : processing_threads a = 0%nat;
  af_server : MetricsServer.started (server a) = false /\ MetricsServer.joinable (server a) = false;
  af_started : started a = false;
}.

(** What a start that fails leaves. *)
Record not_started (w0 : UdpReceiver.World) (a : App) : Prop := {
  ns_resources : UdpReceiver.same_resources w0 (world a);
  ns_udp : UdpReceiver.running_ (udp a) = false;
  ns_threads : processing_threads a = 0%nat;
  ns_consumers : Forall (fun c => cn_running c = false /\ output_fd_ c < 0) (consumers a);
  ns_started : started a = false;
  ns_server : MetricsServer.joinable (server a) = negb (dry_run a);
}.

Lemma start_total inet_pton env now c1 c2 n network fds t t0 status w0 a :
  app_fresh w0 a -> UdpReceiver.world_ok w0 -> (forall i, UdpReceiver.socket_promise (env i).1) ->
  (Z.to_nat QUEUE_CAPACITY <= n)%nat ->
  match app_run_start inet_pton env now c1 c2 n network fds t t0 status a with
  | Returned code a' => code = (if dry_run a then 0 else 1) /\ not_started w0 a'
  | Running a' => (forall good, app_live inet_pton good w0 a') /\ dry_run a = false
  | Terminated => False
  end.
Proof.
  destruct a as [dr u w pr th cs wr rt st srv cb sg fc dp df stt ms].
  intros [Hst Hq0 Hidle Hnone Hw0 Hcap Hcs Hth Hsrv Hs] Hw Hpr Hn.
  cbn [state udp world writer retired consumers processing_threads started server dry_run] in *. subst w th stt.
  assert (Hpre : Forall (fun c => cn_running c = true \/ output_fd_ c < 0) cs).
  { eapply Forall_impl; [exact Hcs|]. intros c [_ ?]. by right. }
  unfold app_run_start. destruct dr; [by split; [done|constructor; cbn; try done; apply Hsrv]|].
  assert (exists srv', MetricsServer.start srv = Some srv' /\ MetricsServer.joinable srv' = true) as (srv' & -> & Hsrv').
  { unfold MetricsServer.start. destruct Hsrv as [-> ->]. by eexists. }
  pose proof (UdpReceiver.start_spec inet_pton env u w0 Hidle Hnone Hw Hpr) as Hu.
  destruct (UdpReceiver.start inet_pton env u w0) as [[ok u'] w'] eqn:Es. destruct Hu as [Hu _].
  destruct ok; cbn [negb].
  2: { destruct Hu as (-> & Hres & _). split; [done|]. constructor; cbn; try done. }
  destruct Hu as (Hrun & _ & Hatt & _ & w2 & Estop & Hsame & _).
  pose proof (start_consumers_spec fds cs 0 Hcs) as Hc. destruct (start_consumers fds 0 cs) as [ok cs']. destruct Hc as [Hc1 Hc2].
  destruct ok; cbn [negb].
  - split; [|done]. intros good. constructor; cbn [state udp world captures writer retired consumers processing_threads started]; try done.
    + apply run_inv_accesses; [apply run_inv_accesses; [done|]|].
      * intros c. apply start_neutral.
      * intros c Hc. apply Forall_singleton. cbn. by intros <-.
    + assert (Hhook : UdpReceiver.current_capture_hook u' = UdpReceiver.current_capture_hook u).
      { destruct (UdpReceiver.stop_attached inet_pton u' w0 w' Hw Hrun Hatt) as (w3 & E3 & _). rewrite Estop in E3.
        by injection E3 as ->. }
      destruct (Hcap good) as [Hh Hpub Hstp]. constructor; [cbn; by rewrite Hhook|done..].
    + by apply Hc2.
  - cbn [join_processing faces with_accesses].
    destruct (drain_faces_total now c1 c2 (pools_exist u') n (faces st) Hn (ri_faces _ Hst) (or_intror Hq0)) as (fs1 & -> & _).
    cbn [mbind option_bind stop_network]. rewrite Estop. split; [done|].
    constructor; cbn; try done. by apply consumers_stopped.
Qed.

Lemma init_queued clock c t0 : Forall (fun f => queued f = []) (faces (RunState_init (build_faces clock c) t0)).
Proof.
  apply Forall_forall. intros f (i & -> & _)%list_elem_of_fmap.
  by destruct (SPSCQueue.init_wf QUEUE_CAPACITY RxEnvelope_default) as [_ Hc]; [by exists 16|].
Qed.

(** What [app_init] hands to [app_run]. *)
Lemma init_fresh `{Config.Yaml} LoadFile clock t cenv options s s' ctx w0 srv cbs sg t0 :
  app_init LoadFile clock t cenv options s = Some (0, Some ctx, s') ->
  let c := Config.get_config (config_manager s') in
  Config.sample_count_fixed (Config.reassembly c) < 2 ^ 32 ->
  Config.max_reasm_bytes_per_key (Config.reassembly c) < 2 ^ 40 ->
  1 <= Config.max_contexts (Config.reassembly c) < 2 ^ 40 ->
  Config.window_size (Config.reorder c) <= 2 ^ 31 ->
  Config.max_file_size_mb (Config.capture c) < 2 ^ 43 ->
  MetricsServer.started srv = false /\ MetricsServer.joinable srv = false ->
  app_fresh w0 (App_init ctx w0 srv cbs sg t0) /\ ctx_dry_run ctx = AppInit.dry_run options.
Proof.
  intros Hinit c Hsc Hby Hctx Hwin Hfile Hsrv.
  pose proof (Config.load_from_file_cases LoadFile (config_file options) (config_manager s)) as Hl. unfold app_init in Hinit.
  destruct (Config.load_from_file LoadFile (config_file options) (config_manager s)) as [[[]|] cm]; [|done|done].
  destruct Hl as [(_ & cfg & Hread & Hv & Ecm)|[? _]]; [|done].
  assert (Eg : Config.get_config cm = cfg) by (rewrite Ecm; done). cbv zeta in Hinit. rewrite Eg in Hinit.
  destruct (start_capture cenv (Config.capture cfg)) as [wr hook] eqn:Ew. injection Hinit as <- <-.
  cbn [config_manager] in *. unfold c in *. rewrite Eg in *. clear c Eg Ecm.
  apply Config.read_config_typed in Hread as Ht. split; [|done].
  constructor; cbn [App_init state udp world captures writer retired consumers processing_threads server started
    udp_receiver face_pipelines stub_consumers pcap_writer]; try done.
  - by apply run_inv_init.
  - apply init_queued.
  - intros good. unfold start_capture in Ew. destruct (Config.capture_enabled (Config.capture cfg)) eqn:Een;
      [destruct (Capture.start (capture_config (Config.capture cfg)) cenv _) as [[] w] eqn:Es|]; injection Ew as <- <-;
      [|constructor; cbn; [by split; intros [? [=]]|done|constructor]..].
    constructor; cbn; [by split; eexists| |constructor].
    intros cfg' w' [= <- <-]. split; [|exists []; by eapply started_open]. unfold Capture.config_ok. cbn.
    destruct Ht. unfold in_range in *. lia.
  - apply Forall_fmap, Forall_forall. intros k _. done.
Qed.

(** ** Theorems *)


(** Three faces start and are shut down at once. *)
Definition demo_world : UdpReceiver.World := UdpReceiver.mkWorld ∅ ∅ ∅ 0 UdpReceiver.UdpStats_zero.

Lemma demo_world_ok : UdpReceiver.world_ok demo_world.
Proof. intros id Hid. set_solver. Qed.

Definition demo_singletons : Singletons :=
  mkSingletons Config.ConfigManager_init Logger.Logger_init (MetricsServer.mkEndpoint 0 EmptyString 0).

Definition demo_init : option (Z * option AppContext * Singletons) :=
  app_init (H := Config.tree_yaml) (fun _ => Some three_faces) (fun _ => 0) 0 demo_env AppOptions_default demo_singletons.

Definition map_order (m : gmap ReassemblyKey ReassemblyContext) : list ReassemblyKey := (map_to_list m).*1.

Lemma map_order_complete m key : m !! key <> None -> key ∈ map_order m.
Proof.
  intros Hk. destruct (m !! key) as [x|] eqn:E; [|done].
  apply list_elem_of_fmap. exists (key, x). split; [done|]. by apply elem_of_map_to_list.
Qed.

Definition demo_start (network : Config.Network) (ctx : AppContext) : StartResult :=
  app_run_start (fun _ => Some 0x0100000A) (fun _ => (UdpReceiver.willing, None)) (fun _ => 0) (fun _ => 0) (fun _ => 0)
    (Z.to_nat QUEUE_CAPACITY) network (fun _ => 3) 0 0 None
    (App_init ctx demo_world MetricsServer.Server_init 0 (Signals.mkSignals true false 0 0 0) 0).

Definition demo_shutdown : App -> ShutdownResult :=
  app_shutdown (fun _ => 0) (fun _ => 0) (fun _ => 0) (Z.to_nat QUEUE_CAPACITY) map_order [] demo_env (fun _ => 0).

(** Checks on the demonstration, for evaluation. *)
Definition sizes_ok (c : Config.ReceiverConfig) : bool :=
  (Config.sample_count_fixed (Config.reassembly c) <? 2 ^ 32) && (Config.max_reasm_bytes_per_key (Config.reassembly c) <? 2 ^ 40) &&
  (1 <=? Config.max_contexts (Config.reassembly c)) && (Config.max_contexts (Config.reassembly c) <? 2 ^ 40) &&
  (Config.window_size (Config.reorder c) <=? 2 ^ 31) && (Config.max_file_size_mb (Config.capture c) <? 2 ^ 43).

Definition demo_ok (r : option (Z * option AppContext * Singletons)) : bool :=
  match r with
  | Some (code, Some ctx, s) =>
    let c := Config.get_config (config_manager s) in
    (code =? 0) && sizes_ok c &&
    match demo_start (Config.network c) ctx with
    | Running a => bool_decide (is_Some (writer a) -> False) && bool_decide (app_idle a)
    | _ => false
    end
  | _ => false
  end.


(** The second stage gives the packet pools back while the queues still hold what
    they held: the drain of the third stage works on packets whose pool is gone. *)
Theorem pools_freed_before_drain inet_pton good w0 a a' :
  app_live inet_pton good w0 a -> UdpReceiver.world_ok w0 -> stop_network a = Some a' ->
  UdpReceiver.pools (world a') = UdpReceiver.pools w0 /\ queued <$> faces (state a') = queued <$> faces (state a).
Proof.
  destruct a as [dr u w pr th cs wr rt st srv cb sg fc dp df stt ms]. intros [_ Hrun Hnet _ _ _ _] Hw E.
  cbn [udp world] in Hrun, Hnet. destruct (UdpReceiver.stop_attached inet_pton u w0 w Hw Hrun Hnet) as (w1 & Eu & (_ & _ & Hp) & _).
  cbn [stop_network] in E. rewrite Eu in E. injection E as <-. by split.
Qed.

(** One fragment of two is received and processed; its context holds its buffer
    when the program is told to stop, and the shutdown faults. *)
Definition demo_events (l : list AppEvent) (r : option (Z * option AppContext * Singletons)) : option App :=
  match r with
  | Some (_, Some ctx, s) =>
    match demo_start (Config.network (Config.get_config (config_manager s))) ctx with
    | Running a => app_events (fun _ => 0) (fun _ => 0) (fun _ => 0) 2 (fun _ => false) (fun _ => false) a l
    | _ => None
    end
  | _ => None
  end.

Example shutdown_uses_freed_buffers :
  match demo_events [LoopEvent (Received (sample_raw 1 (replicate 40 0) [4;5])); LoopEvent (Processed 0 3 0)] demo_init with
  | Some a => match demo_shutdown a with Faulted => True | _ => False end
  | None => False
  end.
Proof. vm_compute. exact I. Qed.

(** The frames that are handed over during the shutdown reach no consumer: those
    have stopped in the first stage.  The frames 1 and 3 arrive; the second waits
    in the window when the consumers stop, and the flush then delivers it. *)
Definition demo_outputs (r : option (Z * option AppContext * Singletons)) : option (list nat * list bool * list nat) :=
  a ← demo_events [LoopEvent (Received (one_fragment_frame 1)); LoopEvent (Processed 0 3 0);
                   LoopEvent (Received (one_fragment_frame 3)); LoopEvent (Processed 0 3 0)] r;
  a1 ← stop_consumers a;
  match demo_shutdown a with
  | ShutDown a2 =>
    let outputs a := (fun f => length (delivered (processing (face f)))) <$> faces (state a) in
    Some (outputs a1, cn_running <$> consumers a1, outputs a2)
  | _ => None
  end.

Example shutdown_output_unconsumed : demo_outputs demo_init = Some ([1; 0; 0], [false; false; false], [2; 0; 0])%nat.
Proof. vm_compute. reflexivity. Qed.

(** The text of the flags fits in its buffer. *)
Lemma flags_text_fits flags : (String.length (flags_to_string flags) < 64)%nat.
Proof.
  unfold flags_to_string.
  destruct (Z.land flags RawBlocks.INCOMPLETE_FRAME =? 0), (Z.land flags RawBlocks.SNAPSHOT_PRESENT =? 0),
    (Z.land flags RawBlocks.HEARTBEAT_RELATED =? 0); vm_compute; lia.
Qed.

End AppRun.
