(* ===== verification/Main.v ===== *)
(** The entry of the program: [src/m01_receiver/main.cpp], from the arguments to
    the exit code. *)

From S2P Require Import Prelude Protocol Reassembler ReassemblerProps RxStage Config UdpReceiver Metrics MetricsServer Logger Signals RawBlocks Capture.
From S2P Require Import Text AppInit AppLoop AppRun.
From stdpp Require Import strings.
From Stdlib Require Import Ascii.
Open Scope Z_scope.
Import Protocol Reassembler AppInit AppLoop AppRun.

Module Main.

(** ** Arguments *)

Record CliOptions := mkCliOptions { config_file : string; dry_run : bool; show_version : bool }.

Definition CliOptions_default : CliOptions := mkCliOptions "config/receiver.yaml" false false.

(** The arguments are accepted, refused, or ask for the usage and the exit. *)
Inductive Parsed := Accepted (o : CliOptions) | Refused | HelpExit.

Definition starts_with_dash (arg : string) : bool :=
  match arg with String c _ => bool_decide (c = "-"%char) | EmptyString => false end.

(** The arguments behind the program's name. *)
Fixpoint parse_cli_options (args : list string) (opts : CliOptions) : Parsed :=
  match args with
  | [] => Accepted opts
  | arg :: args =>
    let '(mkCliOptions file dry ver) := opts in
    if bool_decide (arg = "--config") then
      match args with
      | [] => Refused
      | path :: args => parse_cli_options args (mkCliOptions path dry ver)
      end
    else if bool_decide (arg = "--dry-run") then parse_cli_options args (mkCliOptions file true ver)
    else if bool_decide (arg = "--version") then parse_cli_options args (mkCliOptions file dry true)
    else if bool_decide (arg = "--help") then HelpExit
    else if negb (bool_decide (arg = EmptyString)) && negb (starts_with_dash arg)
    then parse_cli_options args (mkCliOptions arg dry ver)
    else Refused
  end.

Definition usage (argv0 : string) : string :=
  "Usage: " +:+ argv0 +:+ " [--config <path>] [--dry-run] [--version]" +:+ Text.nl.

(** The build's version, commit and time. *)
Record Build := mkBuild { app_version : string; git_commit : string; build_time_utc : string }.

Definition version_line (b : Build) : string :=
  "receiver_app version=" +:+ app_version b +:+ " git=" +:+ git_commit b +:+ " build_time_utc=" +:+ build_time_utc b +:+ Text.nl.

(** ** The program *)

(** What it has printed, and its exit code; [Crashed] when an exception escapes or
    the pipeline faults. *)
Inductive MainResult := Exit (code : Z) (out : list string) | Crashed.

(** [run_rc != 0 ? run_rc : shutdown_rc]. *)
Definition final_code (run_rc shutdown_rc : Z) : Z := if negb (run_rc =? 0) then run_rc else shutdown_rc.

(** [app_init], [app_run] and [app_shutdown] are given by what they do: [init] by
    its result, [run] by the code with which [app_run] returns and the state it
    leaves (nothing when it faults), [shutdown] by how it ends. *)
Definition main (build : Build) (argv0 : string) (args : list string)
    (init : AppOptions -> option (Z * option AppContext * Singletons))
    (run : AppContext -> Singletons -> option (Z * App)) (shutdown : App -> ShutdownResult) : MainResult :=
  match parse_cli_options args CliOptions_default with
  | HelpExit => Exit 0 [usage argv0]
  | Refused => Exit 2 [usage argv0]
  | Accepted cli =>
    let out := (if show_version cli then [version_line build] else []) ++ [version_line build] in
    match init (mkAppOptions (config_file cli) (dry_run cli)) with
    | None => Crashed
    | Some (init_rc, Some ctx, s) =>
      if negb (init_rc =? 0) then Exit init_rc out
      else match run ctx s with
           | None => Crashed
           | Some (run_rc, a) =>
             match shutdown a with
             | ShutDown a' => Exit (final_code run_rc 0) (out ++ messages a')
             | ForcedExit _ a' => Exit 1 (out ++ messages a')
             | Faulted => Crashed
             end
           end
    | Some (init_rc, None, _) => if negb (init_rc =? 0) then Exit init_rc out else Crashed
    end
  end.

(** [app_run]: the start, the loop (given by its events), the return. *)
Definition app_run (start : AppContext -> Singletons -> StartResult) (loop : App -> option App)
    (ctx : AppContext) (s : Singletons) : option (Z * App) :=
  match start ctx s with
  | Returned code a => Some (code, a)
  | Running a => a ← loop a; Some (0, a)
  | Terminated => None
  end.

(** ** Specification *)

(** A command line, item by item. *)
Inductive Item := IConfig (path : string) | IPath (path : string) | IDryRun | IVersion.

#[export] Instance Item_eq_dec : EqDecision Item.
Proof. solve_decision. Defined.

Definition item_ok (i : Item) : Prop :=
  match i with IPath p => p <> EmptyString /\ starts_with_dash p = false | _ => True end.

Definition item_args (i : Item) : list string :=
  match i with IConfig p => ["--config"; p] | IPath p => [p] | IDryRun => ["--dry-run"] | IVersion => ["--version"] end.

Definition item_path (i : Item) : option string := match i with IConfig p | IPath p => Some p | _ => None end.

Definition options_of (items : list Item) : CliOptions :=
  mkCliOptions (default (config_file CliOptions_default) (last (omap item_path items)))
    (bool_decide (IDryRun ∈ items)) (bool_decide (IVersion ∈ items)).

(** ** Lemmas *)

Definition apply_item (o : CliOptions) (i : Item) : CliOptions :=
  let '(mkCliOptions file dry ver) := o in
  match i with
  | IConfig p | IPath p => mkCliOptions p dry ver
  | IDryRun => mkCliOptions file true ver
  | IVersion => mkCliOptions file dry true
  end.

Lemma parse_items items : forall o, Forall item_ok items ->
  parse_cli_options (items ≫= item_args) o = Accepted (foldl apply_item o items).
Proof.
  induction items as [|i items IH]; intros [file dry ver] Hi; [done|]. apply Forall_cons_1 in Hi as [Hi Hitems].
  rewrite bind_cons. destruct i as [p|p| |]; cbn [item_args app parse_cli_options apply_item foldl].
  - rewrite bool_decide_eq_true_2 by done. by apply IH.
  - destruct Hi as [Hne Hd]. rewrite (bool_decide_eq_false_2 (p = EmptyString)), Hd by done.
    rewrite !bool_decide_eq_false_2 by (intros ->; discriminate Hd). cbn. by apply IH.
  - rewrite (bool_decide_eq_false_2 ("--dry-run" = "--config")), bool_decide_eq_true_2 by done. by apply IH.
  - rewrite (bool_decide_eq_false_2 ("--version" = "--config")), (bool_decide_eq_false_2 ("--version" = "--dry-run")),
      bool_decide_eq_true_2 by done. by apply IH.
Qed.

Lemma items_exist n args : (length args <= n)%nat -> forall o o', parse_cli_options args o = Accepted o' ->
  exists items, Forall item_ok items /\ args = items ≫= item_args.
Proof.
  revert args. induction n as [|n IH]; intros [|arg args] Hn o o' E; cbn [length] in Hn; try lia; [by exists []|by exists []|].
  destruct o as [file dry ver]. cbn [parse_cli_options] in E.
  assert (Hcons : forall i args' o1, (length args' <= n)%nat -> item_ok i -> parse_cli_options args' o1 = Accepted o' ->
    exists items, Forall item_ok items /\ item_args i ++ args' = items ≫= item_args).
  { intros i args' o1 Hl Hi E'. destruct (IH args' Hl o1 o' E') as (items & Hok & ->). exists (i :: items). by split; [constructor|]. }
  case_bool_decide as H1; [subst; destruct args as [|path args]; [done|]; apply (Hcons (IConfig path) args _ ltac:(cbn in Hn; lia) I E)|].
  case_bool_decide as H2; [subst; apply (Hcons IDryRun args _ ltac:(lia) I E)|].
  case_bool_decide as H3; [subst; apply (Hcons IVersion args _ ltac:(lia) I E)|].
  case_bool_decide as H4; [done|]. case_bool_decide as H5; [done|]. cbn [negb andb] in E.
  destruct (starts_with_dash arg) eqn:Hd; [done|]. apply (Hcons (IPath arg) args _ ltac:(lia) (conj H5 Hd) E).
Qed.

Lemma foldl_items items : foldl apply_item CliOptions_default items = options_of items.
Proof.
  induction items as [|i items IH] using rev_ind; [done|]. rewrite foldl_snoc, IH. unfold options_of.
  rewrite omap_app. assert (Hin : forall x : Item, bool_decide (x ∈ items ++ [i]) = bool_decide (x ∈ items) || bool_decide (x = i)).
  { intros x. rewrite (bool_decide_ext _ (x ∈ items \/ x = i)) by (rewrite elem_of_app, list_elem_of_singleton; done). by apply bool_decide_or. }
  rewrite !Hin. destruct i as [p|p| |]; cbn [apply_item omap list_omap item_path].
  all: rewrite ?last_snoc, ?app_nil_r; cbn; rewrite ?orb_true_r, ?orb_false_r; done.
Qed.

(** ** Theorems *)

(** The arguments are accepted exactly when they are a sequence of [--config] with
    a path, [--dry-run], [--version] and non-empty words without a dash; the
    configuration file is then the last path given. *)
Theorem cli_accepted (args : list string) (o : CliOptions) :
  parse_cli_options args CliOptions_default = Accepted o <->
  exists items, Forall item_ok items /\ args = items ≫= item_args /\ o = options_of items.
Proof.
  split.
  - intros E. destruct (items_exist (length args) args ltac:(lia) _ _ E) as (items & Hok & ->). exists items.
    rewrite parse_items, foldl_items in E by done. injection E as <-. done.
  - intros (items & Hok & -> & ->). rewrite parse_items by done. by rewrite foldl_items.
Qed.

(** Two paths: the second one is used. *)
Example last_path_wins : parse_cli_options ["a.yaml"; "b.yaml"] CliOptions_default = Accepted (mkCliOptions "b.yaml" false false).
Proof. reflexivity. Qed.

(** [--version] does not end the program: it prints the version twice and goes on
    to [app_init]. *)
Theorem version_continues build argv0 init run shutdown rc s :
  init (mkAppOptions "config/receiver.yaml" false) = Some (rc, None, s) -> rc <> 0 ->
  main build argv0 ["--version"] init run shutdown = Exit rc [version_line build; version_line build].
Proof.
  intros Hi Hrc. unfold main.
  change (parse_cli_options ["--version"] CliOptions_default) with (Accepted (mkCliOptions "config/receiver.yaml" false true)).
  cbn [config_file dry_run show_version]. rewrite Hi. by destruct (Z.eqb_spec rc 0).
Qed.


(** *** A run *)

Lemma start_writer inet_pton env now c1 c2 n network fds t1 t2 status a a' :
  app_run_start inet_pton env now c1 c2 n network fds t1 t2 status a = Running a' -> writer a' = writer a.
Proof.
  destruct a as [dr u w pr th cs wr rt st srv cb sg fc dp df stt ms]. unfold app_run_start. destruct dr; [done|].
  destruct (MetricsServer.start srv); [|done]. destruct (UdpReceiver.start _ _ _ _) as [[[] u'] w']; [|done]. cbn [negb].
  destruct (start_consumers fds 0 cs) as [[] cs']; cbn [negb]; [by intros [= <-]|]. by case_match.
Qed.

Definition three_faces_file (file : string) : option Config.tree := Some three_faces.

(** What the file with three faces contains, whatever its name. *)
Lemma three_faces_loads file :
  exists cfg, Config.load_from_file (H := Config.tree_yaml) three_faces_file file (config_manager demo_singletons) =
    (Config.Returned true, Config.mkConfigManager cfg file 0 []) /\
    sizes_ok cfg = true /\ Config.capture_enabled (Config.capture cfg) = false.
Proof. eexists. split; [vm_compute; reflexivity|]. split; vm_compute; reflexivity. Qed.

Lemma three_faces_init o ctx s' :
  app_init (H := Config.tree_yaml) three_faces_file (fun _ => 0) 0 demo_env o demo_singletons = Some (0, Some ctx, s') ->
  sizes_ok (Config.get_config (config_manager s')) = true /\ pcap_writer ctx = None.
Proof.
  destruct (three_faces_loads (AppInit.config_file o)) as (cfg & E & Hs & Hc). unfold app_init. rewrite E. cbv zeta.
  change (Config.get_config (Config.mkConfigManager cfg (AppInit.config_file o) 0 [])) with cfg.
  unfold start_capture. rewrite Hc. intros Hi. injection Hi as <- <-. split; [exact Hs|reflexivity].
Qed.

(** A system in which everything works, and a loop that is told to stop at once. *)
Definition demo_main (args : list string) : MainResult :=
  main (mkBuild "1" "c0ffee" "today") "receiver_app" args
    (fun o => app_init (H := Config.tree_yaml) three_faces_file (fun _ => 0) 0 demo_env o demo_singletons)
    (app_run (fun ctx s' => app_run_start (fun _ => Some 0x0100000A) (fun _ => (UdpReceiver.willing, None)) (fun _ => 0)
       (fun _ => 0) (fun _ => 0) (Z.to_nat RxStage.QUEUE_CAPACITY) (Config.network (Config.get_config (config_manager s')))
       (fun _ => 3) 0 0 None (App_init ctx demo_world MetricsServer.Server_init 0 (Signals.mkSignals true false 0 0 0) 0))
       (fun a => app_events (fun _ => 0) (fun _ => 0) (fun _ => 0) 2 (fun _ => false) (fun _ => false) a []))
    (app_shutdown (fun _ => 0) (fun _ => 0) (fun _ => 0) (Z.to_nat RxStage.QUEUE_CAPACITY) map_order [demo_env] demo_env (fun _ => 0)).


End Main.
